(* ===== verification/_CoqProject ===== *)
-Q . S2P
Prelude.v
Strings.v
Kernel.v
KMempool.v
KTypes.v
KRules.v
KTopic.v
KMessage.v
KCleanup.v
KSignal.v
KExitQueue.v
KRegistry.v
KState.v
KInvariant.v
KSystem.v
KIoctl.v
KTheorems.v
KQuery.v
KMapping.v
KMapped.v
KMappedIoctl.v
Mapping.v
MappingTheorems.v
StartUp.v
StartUpTheorems.v
TypeRegistry.v
Services.v
ServiceTheorems.v
ServiceCalls.v
ServiceRuns.v
ServiceWait.v
Epoll.v
Timer.v
CallbackInfo.v
Executor.v
Watch.v
Isolated.v
IsolatedTheorems.v
IsolatedRuns.v
Delivery.v
ApproximateTime.v
ExactTime.v
SmartPointer.v
NodeParams.v
ParamTheorems.v
BridgeMsg.v
Endpoints.v
EndpointTheorems.v
BridgeManager.v
BridgeTheorems.v
ThreadConfig.v
ThreadConfigurator.v
ThreadTheorems.v
ThreadNode.v
