(* ===== verification/Prelude.v ===== *)
(** * Agnocast: a verification library

    Agnocast lets ROS 2 nodes exchange messages through shared memory without copies.  A Linux kernel
    module (src/agnocast_kmod) keeps the metadata: the registered processes and the address range
    each one's messages live in, the topics with their publishers, subscribers and message entries,
    which subscriber still references which entry, which processes act as bridge to ROS 2.  User
    processes (src/src/agnocastlib) talk to it by ioctls: publishers hand over messages,
    subscribers are woken through eventfds that the module signals, receive entries, and give the
    references back when the last [ipc_shared_ptr] to a message is gone.  Executors wait for those
    eventfds and for timers with epoll and run the callbacks; message filters match messages of
    several topics.

    ** Parts and files

    The kernel module, each function under the name it has in agnocast_ioctl.c, agnocast_internal.c,
    agnocast_memory_allocator.c, agnocast_init.c or agnocast_exit.c:
    - [Kernel]: errno values, the environment of one system call (allocation outcomes, pid
      translation, file descriptors), hash tables and bitmaps;  [KTypes]: the structs;
    - [KMempool]: the table of shared-memory ranges;  [KRules]: the domain bridge rules, which decide
      which (topic, domain) cells share one [topic_struct] and in which direction messages cross;
    - [KTopic], [KMessage], [KCleanup]: what the calls do to one [topic_struct]: endpoints and lists of
      eventfds to signal; publish, receive, take and release; removal of endpoints and process exit;
    - [KExitQueue]: the ring of exited pids;  [KRegistry]: processes, discovery agents, bridges;
    - [KState]: the module's whole state and every call on it;  [KIoctl]: the [*_cmd] functions with
      their copies from and to user space, and the runs of the module;  [KQuery]: the commands that
      only read;
    - [KInvariant], [KSystem]: the invariant of the state and that every call keeps it;
      [KTheorems]: what follows for every run.

    agnocastlib:
    - [SmartPointer]: [ipc_shared_ptr] and the publisher operations that own messages;
    - [Epoll], [Timer], [CallbackInfo]: the data of epoll events, the event loop of an executor, the
      timers and the table of subscription callbacks;  [Executor]: the executors of a process, as
      actions that interleave;  [Watch]: the invariants of their runs;
    - [ApproximateTime], [ExactTime]: the policies of the message synchronizer.
    - [NodeParams]: the parameters of a node, their services and overrides;  [ParamTheorems]: proofs;
    - [KSignal], [Delivery]: the module and the executors of a process together, for the messages of one
      topic;
    - [BridgeMsg]: the datagrams to the bridge manager;  [BridgeManager]: its worker thread, with the
      state machine of service bridges;  [BridgeTheorems]: proofs.

    - [Services]: services, clients and introspection events;  [ServiceTheorems], [ServiceCalls]: the
      invariant of calls and that every step keeps it;  [ServiceRuns]: what follows;  [ServiceWait]: waiting
      for a service, readiness, events;
    - [Isolated]: the callback isolated executors, one child executor and thread for each callback group;
      [IsolatedTheorems]: the invariant;  [IsolatedRuns]: what follows;
    - [KMapping], [KMapped], [KMappedIoctl]: which pools the module says a process maps, and that every call
      keeps it;  [Mapping]: the address spaces of the processes, from ADD_PROCESS to the addresses handed to
      callbacks (agnocast.cpp, agnocast_callback_info.cpp, agnocast_subscription.hpp);  [MappingTheorems]: proofs;
    - [StartUp]: environment variables and names, the version check, [initialize_agnocast], the unlink daemon
      (agnocast.cpp, agnocast_utils.cpp);  [StartUpTheorems]: proofs;
    - [TypeRegistry]: the file in which a process announces its message types and what the discovery agent reads
      of it (internal/type_registry_writer.cpp, type_registry.py);
    - [Endpoints]: constructors and destructors of publishers and subscriptions over the module, that file and
      the socket of the bridge manager;  [EndpointTheorems]: proofs;
    - [Strings]: strings and decimal numbers, which several parts share.

    agnocast_cie_thread_configurator (src/src/agnocast_cie_thread_configurator):
    - [ThreadConfig]: policies, CPU lists, what is read of /proc and /sys, the configuration file and the
      announcements of threads;  [ThreadConfigurator]: the node that applies the configuration and the
      template of prerun_node;  [ThreadTheorems], [ThreadNode]: proofs.

    ** State and operations

    A struct is a [Record] with the fields of the source, a C function that can fail returns a
    [result] (an errno) or an [option], a C++ function that can throw or call [exit] returns an
    [ending].  Early returns keep their place through the [require ... orelse] and
    [unwrap ... orelse] notations below.  Machine integers are [Z] with [u32], [u64], [i32], [i64]
    where the code can wrap.  A kernel hash table is the list of its elements in the order of
    iteration; a [std::unordered_map] keyed by ids is a [gmap], and where its order of iteration
    matters the order is an argument.  The [topic_struct] that two wrappers of grouped domains share is an
    object of a heap, so aliasing and dangling pointers are part of the model.

    One system call of the module is one step: [global_htables_rwsem] and the topic lock make it
    so, except for PUBLISH and RECEIVE of different subscribers of one topic, which the locks
    order too, and GET_EXIT_PROCESS, whose two phases [KIoctl] joins and says why.  In user space a step is one critical section or one system call, and runs interleave the
    steps of any number of threads; relaxed atomics are taken as sequentially consistent.

    ** What the theorems show

    - Module runs ([KTheorems], [KSystem]): no dangling pointer is followed and nothing is freed while
      it is referenced; topics are shared exactly as the rules say; messages cross domains only
      where a rule allows it; signals go to eventfds the module holds; a process's exit and
      unloading leave nothing behind; queries end and report what is there.
    - One topic ([KTopic], [KMessage], [KCleanup]): the result, the error order and the new state of
      every call; publishing releases only unreferenced entries and keeps the depth; receiving
      delivers exactly the window of deliverable entries, oldest first.
    - Registries ([KRegistry], [KMempool], [KExitQueue]): disjoint pools of live processes, single
      bridge managers and daemons, the exit queue as a FIFO, every exit handled.
    - User space: handles never dangle and every reference is released once, if copies of a message are not
      published or cancelled by two calls that overlap; the schedule of timers; callbacks of a mutually
      exclusive group never overlap, if rclcpp's own load and store of the flag of a group are not separated
      by a take on this side ([Watch.rcl_take_in_between]); every source an executor serves is
      watched or about to be; the policies keep their queues' invariants, use each message once and
      never fail an assertion.
    - Parameters ([ParamTheorems]): types and ranges are kept, setting is atomic, static and read-only
      parameters stay.
    - Delivery: no wake-up is lost between publishing and the callback, as long as no new eventfd gets the
      number of one that a thread still has to read ([Delivery.reuse_loses_wakeup] is what happens then).
    - Bridges ([BridgeMsg], [BridgeTheorems]): messages arrive as they were built, topics and services are
      bridged as their two sides demand, shadow nodes are shared and released, the manager ends by itself
      only on an exception of a graph query ([BridgeTheorems.graph_answers]).
    - Services ([ServiceRuns], [ServiceWait]): over any interleaving and any loss of messages a call gets its
      own answer once, no call hangs by itself; waiting ends; a service is ready when its requests are
      received.
    - Callback isolated executors ([IsolatedRuns]): one thread for each group, the monitoring loop misses no
      group, a cancelled executor ends unless callbacks stop each other's groups in a ring; a
      [spin] throws exactly when a child of an earlier one is left over; a cancellation that comes before a child
      spins is lost.
    - Shared memory ([MappingTheorems]): an address handed to a callback or by [take] is mapped; a thread that
      received gets out of [mmap_mtx] with all it was told of mapped.
    - Start-up ([StartUpTheorems]): versions agree exactly as documented, names of different scopes differ, a
      round of the unlink daemon handles every exit.
    - Endpoints ([EndpointTheorems], [TypeRegistry]): a publisher that was constructed is known to the module, the
      discovery agent and, if the datagram was delivered, to the bridge manager as it was asked for; what is announced is read, torn writes apart;
      gids tell the publishers of a topic apart; the counts leave out the bridge.
    - Thread configurator ([ThreadTheorems], [ThreadNode]): an unedited template changes nothing; at most one
      entry tracks a callback group; announcements are recorded and a reapply request accounts for
      every entry.

    ** Bounds and fuel

    The only loop of the module without a structural bound is the probe of GET_NODE_NAMES ([probe],
    fuel 2048: one step for each slot of the table; [KQuery.queries_end_safely] shows that it is never used
    up).  The virtual search of [ApproximateTime] runs on the number of messages queued.  Theorems about times
    assume nanosecond counts below 2^61, a bound of the environment that is stated where it is used; ids and
    trackers have not wrapped ([Watch.allowed]).  Decimal numbers
    are written with fuel 20, enough for 64 bits ([Strings.decimal_value]).  The worker of the bridge
    manager and the thread configurator run on any list of turns or events.  [wait_for_service] needs one unit for every 100 ms
    of its timeout and two more ([ServiceWait.wait_for_service_correct]).  Services run by any list of actions
    ([ServiceRuns.allowed]: one service for a name, no [_SEP_] in it, sequence numbers below 2^63 - 1).  Callback isolated
    executors run by any list of actions; [IsolatedRuns.steps_left] bounds what is left after a cancellation.
    The machine of [Mapping] runs by any list of actions in which no pid is given to a new process while endpoints
    that an exited one left behind bear it ([MappingTheorems.reused_pid_hands_unmapped] is what happens otherwise),
    and a process receives for subscriptions of its own ([Mapping.allowed]).  The unlink daemon's round has one unit
    of fuel for each exited process and one more.  Text is ASCII and numbers are stored little-endian.

    ** Not modelled

    Set-up of the character device, the worker thread and the tracepoint; KUnit and other tests; what a forked
    daemon does to its descriptors, the exec of the discovery agent and the allocator of the bridge; logging and
    tracing; the wire layout of service messages; the bridge
    loader and its plugins ([dlopen]), the bridge manager's socket and event loop; the thread configurator's
    sockets, subscriptions and [main]; code derived from
    other projects (tf2, diagnostics), the heap hook (Rust), the Python tools. *)

From stdpp Require Export base list gmap strings sorting option ssreflect.
From Stdlib Require Export ZArith Lia Permutation.

#[export] Set Default Goal Selector "!".

Declare Scope agno_scope.
Delimit Scope agno_scope with agno.
Open Scope Z_scope.
Open Scope agno_scope.

(** ** Machine integers

    Unsigned and signed fixed-width integers are [Z]; the wrap-around of each
    width is written out where the C code can wrap. *)

Definition u16 (z : Z) : Z := z mod 2 ^ 16.
Definition u32 (z : Z) : Z := z mod 2 ^ 32.
Definition u64 (z : Z) : Z := z mod 2 ^ 64.

Definition i32 (z : Z) : Z :=
  let r := z mod 2 ^ 32 in if r <? 2 ^ 31 then r else r - 2 ^ 32.
Definition i64 (z : Z) : Z :=
  let r := z mod 2 ^ 64 in if r <? 2 ^ 63 then r else r - 2 ^ 64.

(** ** Early returns

    A C function body "if (!p) goto out; ..." is written as a chain of the two
    notations below, so that every early return keeps its place. *)

Notation "'unwrap' x ':=' e 'orelse' d ; k" :=
  (match e with Some x => k | None => d end)
  (at level 10, x binder, e at level 99, d at level 99, k at level 200) : agno_scope.

Notation "'require' b 'orelse' d ; k" :=
  (if b then k else d)
  (at level 10, b at level 99, d at level 99, k at level 200) : agno_scope.

(** ** Automation *)

Create HintDb agno discriminated.
Create HintDb perm discriminated.

Ltac inverts H := inversion H; subst; clear H.

(** Splits boolean conjunctions and turns boolean comparisons into Props. *)
Ltac bool_to_prop :=
  repeat match goal with
  | H : (_ && _) = true |- _ => apply andb_prop in H as [? ?]
  | H : (_ && _) = false |- _ => apply andb_false_iff in H
  | H : (_ || _) = true |- _ => apply orb_prop in H
  | H : (_ || _) = false |- _ => apply orb_false_iff in H as [? ?]
  | H : negb _ = true |- _ => apply negb_true_iff in H
  | H : negb _ = false |- _ => apply negb_false_iff in H
  | H : (_ =? _) = true |- _ => apply Z.eqb_eq in H
  | H : (_ =? _) = false |- _ => apply Z.eqb_neq in H
  | H : (_ <? _) = true |- _ => apply Z.ltb_lt in H
  | H : (_ <? _) = false |- _ => apply Z.ltb_ge in H
  | H : (_ <=? _) = true |- _ => apply Z.leb_le in H
  | H : (_ <=? _) = false |- _ => apply Z.leb_gt in H
  | H : bool_decide _ = true |- _ => apply bool_decide_eq_true in H
  | H : bool_decide _ = false |- _ => apply bool_decide_eq_false in H
  | H : String.eqb _ _ = true |- _ => apply String.eqb_eq in H
  | H : String.eqb _ _ = false |- _ => apply String.eqb_neq in H
  end.

(** The same, splitting the disjunctions too, then closing what is contradictory. *)
Ltac bool_cases :=
  repeat (bool_to_prop; match goal with
  | H : _ \/ _ |- _ => destruct H
  | H : _ /\ _ |- _ => destruct H
  end); bool_to_prop; subst; try congruence; try lia.

(** Case analysis on the scrutinee of a [match] or [if] of the goal or of a hypothesis. *)
Ltac case_goal :=
  match goal with
  | |- context [match ?x with _ => _ end] =>
      lazymatch x with
      | context [match _ with _ => _ end] => fail
      | _ => let E := fresh "E" in destruct x eqn:E
      end
  end.

Ltac case_hyp H :=
  match type of H with
  | context [match ?x with _ => _ end] =>
      lazymatch x with
      | context [match _ with _ => _ end] => fail
      | _ => let E := fresh "E" in destruct x eqn:E
      end
  end.

(** ** Machine integers in range *)

Lemma i64_small z : - 2 ^ 63 <= z < 2 ^ 63 -> i64 z = z.
Proof.
  intros Hz. unfold i64. destruct (Z.leb_spec 0 z).
  - rw Z.mod_small; [|lia]. by destruct (Z.ltb_spec z (2 ^ 63)); [|lia].
  - assert (z mod 2 ^ 64 = z + 2 ^ 64) as ->.
    { symmetry. apply Z.mod_unique with (-1); lia. }
    destruct (Z.ltb_spec (z + 2 ^ 64) (2 ^ 63)); lia.
Qed.

(** ** Lists *)

Section lists.
Context {A : Type}.
Implicit Types (l : list A) (f : A -> bool).

(** The first element satisfying a test: the shape of every lookup loop of the code. *)
Lemma find_Some_inv f l x : find f l = Some x -> x ∈ l /\ f x = true.
Proof. intros H. apply List.find_some in H as [H1 H2]. by rw list_elem_of_In. Qed.

Lemma find_None_inv f l x : find f l = None -> x ∈ l -> f x = false.
Proof. intros H Hx. rw list_elem_of_In in Hx. eapply List.find_none; eauto. Qed.

Lemma find_is_Some f l x : x ∈ l -> f x = true -> is_Some (find f l).
Proof.
  intros Hx Hf. destruct (find f l) eqn:E; [eauto|].
  rw (find_None_inv _ _ _ E Hx) in Hf. done.
Qed.

(** Scanning one bucket finds what scanning the table finds, when the test implies the bucket. *)
Lemma find_filter (P : A -> Prop) `{!forall x, Decision (P x)} f l :
  (forall x, f x = true -> P x) -> find f (filter P l) = find f l.
Proof.
  intros HP. induction l as [|x l IH]; simpl; [done|].
  destruct (decide (P x)) as [Hx|Hx].
  - rw filter_cons_True //= IH. done.
  - rw filter_cons_False // IH. destruct (f x) eqn:E; [|done]. exfalso. eauto.
Qed.

Lemma filter_none (P : A -> Prop) `{!forall x, Decision (P x)} l :
  (forall x, x ∈ l -> ~ P x) -> filter P l = [].
Proof.
  induction l as [|x l IH]; intros Hno; [done|].
  rw filter_cons_False; [|apply Hno; set_solver]. apply IH. intros y Hy. apply Hno. set_solver.
Qed.

Lemma find_ext (f g : A -> bool) l :
  (forall x, x ∈ l -> f x = g x) -> find f l = find g l.
Proof.
  induction l as [|x l IH]; intros H; simpl; [done|].
  rw (H x); [|set_solver]. destruct (g x); [done|]. apply IH. set_solver.
Qed.

Lemma find_map_id {B} (h : B -> A) f (l : list B) :
  find f (map h l) = option_map h (find (fun x => f (h x)) l).
Proof. induction l as [|x l IH]; simpl; [done|]. by destruct (f (h x)). Qed.

Lemma list_filter_iff' (P Q : A -> Prop) `{!forall x, Decision (P x), !forall x, Decision (Q x)} l :
  (forall x, x ∈ l -> P x <-> Q x) -> filter P l = filter Q l.
Proof.
  induction l as [|x l IH]; intros Hpq; [done|]. rw !filter_cons.
  rw (IH ltac:(set_solver)). destruct (Hpq x ltac:(set_solver)).
  repeat case_decide; tauto.
Qed.

Lemma list_filter_all (P : A -> Prop) `{!forall x, Decision (P x)} l :
  (forall x, x ∈ l -> P x) -> filter P l = l.
Proof.
  induction l as [|x l IH]; intros Hp; [done|]. rw filter_cons_True; [|apply Hp; set_solver].
  rw IH; [done|]. intros y Hy. apply Hp. set_solver.
Qed.

Lemma filter_fmap_comm (f : A -> A) (P Q : A -> Prop)
    `{!forall x, Decision (P x), !forall x, Decision (Q x)} l :
  (forall x, x ∈ l -> P (f x) <-> Q x) -> filter P (f <$> l) = f <$> filter Q l.
Proof.
  induction l as [|x l IH]; intros Hpq; [done|]. csimpl. rw !filter_cons.
  rw (IH ltac:(set_solver)). destruct (Hpq x ltac:(set_solver)).
  repeat case_decide; tauto.
Qed.

Lemma sublist_filter_mono (P : A -> Prop) `{!forall x, Decision (P x)} l1 l2 :
  l1 `sublist_of` l2 -> filter P l1 `sublist_of` filter P l2.
Proof.
  induction 1 as [|x l1 l2 Hs IH|x l1 l2 Hs IH]; [done| |]; rw !filter_cons; case_decide.
  - by apply sublist_skip.
  - done.
  - by apply sublist_cons.
  - done.
Qed.

(** How many elements satisfy [P], when one element is replaced. *)
Lemma count_insert (P : A -> Prop) `{HP : !forall x, Decision (P x)} l i x y :
  l !! i = Some y ->
  (length (filter P (<[i := x]> l)) + (if decide (P y) then 1 else 0)
   = length (filter P l) + (if decide (P x) then 1 else 0))%nat.
Proof.
  revert i. induction l as [|z l IH]; intros [|i] Hi; simplify_eq/=; rw !filter_cons.
  - repeat case_decide; simpl; lia.
  - specialize (IH i Hi). repeat case_decide; simpl; lia.
Qed.

Lemma count_pos (P : A -> Prop) `{HP : !forall x, Decision (P x)} l i x :
  l !! i = Some x -> P x -> (1 <= length (filter P l))%nat.
Proof.
  intros Hi Hx. assert (x ∈ filter P l) as He
    by (apply list_elem_of_filter; eauto using list_elem_of_lookup_2).
  destruct (filter P l); [set_solver|simpl; lia].
Qed.

Lemma count_zero (P : A -> Prop) `{HP : !forall x, Decision (P x)} l i x :
  length (filter P l) = 0%nat -> l !! i = Some x -> ~ P x.
Proof. intros Hl Hx Hp. pose proof (count_pos P l i x Hx Hp). lia. Qed.

Lemma NoDup_fmap_inj_on {B} (g : A -> B) l x y :
  NoDup (g <$> l) -> x ∈ l -> y ∈ l -> g x = g y -> x = y.
Proof.
  intros Hd [i Hi]%list_elem_of_lookup [j Hj]%list_elem_of_lookup Heq.
  assert (i = j) as ->; [|congruence].
  eapply NoDup_lookup; [exact Hd| |]; rw list_lookup_fmap; [by rw Hi|]. by rw Hj /= Heq.
Qed.
End lists.

(** ** Strings in the order of [std::less] *)

Definition string_le (a b : string) : Prop := String.leb a b = true.
#[export] Instance string_le_dec a b : Decision (string_le a b).
Proof. unfold string_le. apply _. Defined.
#[export] Instance string_le_total : Total string_le.
Proof.
  intros a b. unfold string_le. destruct (String.leb a b) eqn:E; [by left|right].
  destruct (String.leb_total a b); congruence.
Qed.

(** The keys of a [std::map] in the order of iteration. *)
Definition sorted_keys {A} (m : gmap string A) : list string :=
  merge_sort string_le (map_to_list m).*1.

Lemma elem_of_sorted_keys {A} (m : gmap string A) k : k ∈ sorted_keys m <-> is_Some (m !! k).
Proof.
  unfold sorted_keys. rw (merge_sort_Permutation string_le) list_elem_of_fmap. split.
  - intros ([k' x] & -> & Hx%elem_of_map_to_list). by exists x.
  - intros [x Hx]. exists (k, x). split; [done|]. by apply elem_of_map_to_list.
Qed.

Lemma NoDup_sorted_keys {A} (m : gmap string A) : NoDup (sorted_keys m).
Proof.
  unfold sorted_keys. rw (merge_sort_Permutation string_le). apply NoDup_fst_map_to_list.
Qed.
