(* ===== verification/Strings.v ===== *)
(** * Strings and numbers in text

    [std::string] as lists of characters, the searches of its interface, and integers in base 10 as
    [std::to_string] writes and [std::from_chars] reads them. *)

From Stdlib Require Import Ascii.
From S2P Require Import Prelude.

(** ** Strings *)

Definition chars : Type := list ascii.
Definition to_chars : string -> chars := String.list_ascii_of_string.
Definition of_chars : chars -> string := String.string_of_list_ascii.

(** Position of the first character that passes, and of the last one. *)
Fixpoint find_char (f : ascii -> bool) (s : chars) : option nat :=
  match s with
  | [] => None
  | c :: s => if f c then Some 0%nat else S <$> find_char f s
  end.

Fixpoint rfind_char (f : ascii -> bool) (s : chars) : option nat :=
  match s with
  | [] => None
  | c :: s => match rfind_char f s with
              | Some n => Some (S n)
              | None => if f c then Some 0%nat else None
              end
  end.

Definition substr (pos n : nat) (s : chars) : chars := take n (drop pos s).

(** The parts between the separators. *)
Fixpoint split_at (f : ascii -> bool) (s : chars) : list chars :=
  match s with
  | [] => [[]]
  | c :: s =>
      if f c then [] :: split_at f s
      else match split_at f s with [] => [[c]] | t :: ts => (c :: t) :: ts end
  end.

Definition is_char (c d : ascii) : bool := bool_decide (d = c).

Fixpoint starts_with (prefix s : chars) : bool :=
  match prefix, s with
  | [], _ => true
  | c :: prefix, d :: s => is_char c d && starts_with prefix s
  | _ :: _, [] => false
  end.

Definition is_digit (c : ascii) : bool := (48 <=? Z.of_nat (nat_of_ascii c)) && (Z.of_nat (nat_of_ascii c) <=? 57).
Definition digit_value (c : ascii) : Z := Z.of_nat (nat_of_ascii c) - 48.
Definition digit_char (d : Z) : ascii := ascii_of_nat (Z.to_nat (d + 48)).

Definition digits_value (acc : Z) (s : chars) : Z := fold_left (fun a c => 10 * a + digit_value c) s acc.

Definition is_all_digits (s : chars) : bool := bool_decide (s <> []) && forallb is_digit s.

(** [std::from_chars] in base 10 over the whole string, for an integer type of the given range; only a
    signed type takes a minus sign. *)
Definition to_number (low high : Z) (s : chars) : option Z :=
  let in_range z := if (low <=? z) && (z <=? high) then Some z else None in
  match s with
  | c :: rest =>
      if is_char "-" c && (low <? 0) then
        require is_all_digits rest orelse None; in_range (- digits_value 0 rest)
      else require is_all_digits s orelse None; in_range (digits_value 0 s)
  | [] => None
  end.

Definition to_int : chars -> option Z := to_number (- 2 ^ 31) (2 ^ 31 - 1).
Definition to_int64 : chars -> option Z := to_number (- 2 ^ 63) (2 ^ 63 - 1).
Definition to_unsigned_long : chars -> option Z := to_number 0 (2 ^ 64 - 1).

(** [std::to_string]: the digits of a number below [10 ^ fuel], before [acc]. *)
Fixpoint decimal (fuel : nat) (z : Z) (acc : chars) : chars :=
  match fuel with
  | O => acc
  | S fuel =>
      let acc := digit_char (z mod 10) :: acc in
      if z <? 10 then acc else decimal fuel (z / 10) acc
  end.

Definition to_string (z : Z) : chars :=
  if z <? 0 then "-"%char :: decimal 20 (- z) [] else decimal 20 z [].

(** ** Lemmas *)

Lemma digit_char_spec d : 0 <= d < 10 -> digit_value (digit_char d) = d /\ is_digit (digit_char d) = true.
Proof.
  intros Hd. unfold digit_value, is_digit, digit_char.
  rw nat_ascii_embedding; [|lia]. rw Z2Nat.id; [|lia]. split; [lia|].
  apply andb_true_iff. split; apply Z.leb_le; lia.
Qed.

Lemma decimal_value fuel z acc :
  0 <= z < 10 ^ Z.of_nat fuel -> (0 < fuel)%nat ->
  digits_value 0 (decimal fuel z acc) = digits_value z acc.
Proof.
  revert z acc. induction fuel as [|fuel IH]; intros z acc Hz Hf; [lia|]. cbn [decimal].
  pose proof (Z.mod_pos_bound z 10 ltac:(lia)) as Hm.
  destruct (digit_char_spec (z mod 10) Hm) as [Hv _]. destruct (z <? 10) eqn:E.
  - apply Z.ltb_lt in E. cbn [digits_value fold_left]. rw Hv Z.mod_small; [done|lia].
  - apply Z.ltb_ge in E. destruct fuel as [|fuel]; [simpl in Hz; lia|]. rw IH; [| |lia].
    + cbn [digits_value fold_left]. rw Hv -Z.div_mod; [done|lia].
    + split; [by apply Z.div_pos; lia|]. apply Z.div_lt_upper_bound; [lia|].
      rewrite Nat2Z.inj_succ Z.pow_succ_r in Hz; lia.
Qed.

Lemma decimal_digits fuel z acc :
  0 <= z -> Forall (fun c => is_digit c = true) acc ->
  Forall (fun c => is_digit c = true) (decimal fuel z acc).
Proof.
  revert z acc. induction fuel as [|fuel IH]; intros z acc Hz Ha; [done|]. cbn [decimal].
  pose proof (Z.mod_pos_bound z 10 ltac:(lia)) as Hm. destruct (digit_char_spec (z mod 10) Hm) as [_ Hd].
  destruct (z <? 10); [by constructor|]. apply IH; [by apply Z.div_pos; lia|by constructor].
Qed.

Lemma decimal_nonempty fuel z acc : (0 < fuel)%nat -> decimal fuel z acc <> [].
Proof.
  assert (forall fuel z acc, acc <> [] -> decimal fuel z acc <> []) as H.
  { clear. induction fuel as [|fuel IH]; intros z acc Ha; [done|]. cbn [decimal].
    destruct (z <? 10); [done|]. by apply IH. }
  destruct fuel as [|fuel]; [lia|]. intros _. cbn [decimal]. destruct (z <? 10); [done|]. by apply H.
Qed.

Lemma decimal_all_digits z : 0 <= z -> is_all_digits (decimal 20 z []) = true.
Proof.
  intros Hz. unfold is_all_digits. apply andb_true_iff. split.
  - apply bool_decide_eq_true, decimal_nonempty. lia.
  - apply forallb_forall. intros c Hc. pose proof (decimal_digits 20 z [] Hz ltac:(constructor)) as H.
    rewrite Forall_forall in H. apply H. by apply list_elem_of_In.
Qed.

Lemma to_number_to_string low high z :
  low <= z <= high -> Z.abs z < 10 ^ 20 -> low <= 0 -> to_number low high (to_string z) = Some z.
Proof.
  intros Hr Hz Hl. unfold to_string, to_number. destruct (z <? 0) eqn:E.
  - apply Z.ltb_lt in E. assert ((low <? 0) = true) as -> by (apply Z.ltb_lt; lia). cbn [is_char].
    assert (is_char "-" "-" = true) as -> by done. cbn [andb]. rw decimal_all_digits; [|lia].
    rw decimal_value; [|lia|lia]. cbn [digits_value fold_left]. rw Z.opp_involutive.
    assert ((low <=? z) && (z <=? high) = true) as -> by (apply andb_true_iff; split; apply Z.leb_le; lia).
    done.
  - apply Z.ltb_ge in E. destruct (decimal 20 z []) as [|c s] eqn:Ed.
    { exfalso. by apply (decimal_nonempty 20 z []) in Ed; [|lia]. }
    assert (is_char "-" c = false) as ->.
    { pose proof (decimal_digits 20 z [] E ltac:(constructor)) as H. rewrite Ed in H.
      apply Forall_cons in H as [H _]. unfold is_char. apply bool_decide_eq_false. intros ->. done. }
    cbn [andb]. rw -Ed decimal_all_digits; [|done]. rw decimal_value; [|lia|lia].
    cbn [digits_value fold_left].
    assert ((low <=? z) && (z <=? high) = true) as -> by (apply andb_true_iff; split; apply Z.leb_le; lia).
    done.
Qed.

Lemma find_char_None f s : Forall (fun c => f c = false) s -> find_char f s = None.
Proof. induction 1 as [|c s Hc _ IH]; [done|]. simpl. by rw Hc IH. Qed.

Lemma split_at_none f s : Forall (fun c => f c = false) s -> split_at f s = [s].
Proof. induction 1 as [|c s Hc _ IH]; [done|]. simpl. by rw Hc IH. Qed.

Lemma split_at_app f t c s :
  Forall (fun c => f c = false) t -> f c = true -> split_at f (t ++ c :: s) = t :: split_at f s.
Proof.
  intros Ht Hc. induction Ht as [|d t Hd _ IH]; simpl; [by rw Hc|]. by rw Hd IH.
Qed.

Lemma split_at_nonempty f s : split_at f s <> [].
Proof. destruct s as [|c s]; simpl; [done|]. destruct (f c); [done|]. by destruct (split_at f s). Qed.

Lemma digit_not c d : is_digit c = true -> is_digit d = false -> is_char d c = false.
Proof. intros Hc Hd. unfold is_char. apply bool_decide_eq_false. intros ->. congruence. Qed.

Lemma to_string_digits z : 0 <= z -> Forall (fun c => is_digit c = true) (to_string z).
Proof.
  intros Hz. unfold to_string. assert ((z <? 0) = false) as -> by (apply Z.ltb_ge; lia).
  by apply decimal_digits.
Qed.

Lemma to_string_no z d : 0 <= z -> is_digit d = false -> Forall (fun c => is_char d c = false) (to_string z).
Proof.
  intros Hz Hd. eapply Forall_impl; [by apply to_string_digits|]. intros c Hc. by apply digit_not.
Qed.

Lemma to_string_last z : 0 <= z -> exists s c, to_string z = s ++ [c] /\ is_digit c = true.
Proof.
  intros Hz. pose proof (to_string_digits z Hz) as Hd.
  destruct (to_string z) as [|c s] eqn:E using rev_ind.
  - exfalso. unfold to_string in E. revert E.
    assert ((z <? 0) = false) as -> by (apply Z.ltb_ge; lia). apply decimal_nonempty. lia.
  - exists s, c. split; [done|]. apply Forall_app in Hd as [_ Hd]. by apply Forall_cons in Hd as [Hd _].
Qed.

Lemma rfind_char_lt f s n : rfind_char f s = Some n -> (n < length s)%nat.
Proof.
  revert n. induction s as [|c s IH]; intros n; simpl; [done|].
  destruct (rfind_char f s) as [m|]; [intros [= <-]; specialize (IH m eq_refl); lia|].
  destruct (f c); [intros [= <-]; lia|done].
Qed.

Lemma of_chars_nil s : of_chars s = EmptyString -> s = [].
Proof. by destruct s. Qed.

Lemma chars_of_chars s : to_chars (of_chars s) = s.
Proof. apply String.list_ascii_of_string_of_list_ascii. Qed.

Lemma of_chars_to_chars s : of_chars (to_chars s) = s.
Proof. apply String.string_of_list_ascii_of_string. Qed.

Lemma to_string_all_digits z : 0 <= z -> is_all_digits (to_string z) = true.
Proof.
  intros Hz. unfold to_string. assert ((z <? 0) = false) as -> by (by apply Z.ltb_ge).
  by apply decimal_all_digits.
Qed.

Lemma app_cons_inj (f : ascii -> bool) c s1 s2 t1 t2 :
  Forall (fun d => f d = false) s1 -> Forall (fun d => f d = false) s2 -> f c = true ->
  s1 ++ c :: t1 = s2 ++ c :: t2 -> s1 = s2 /\ t1 = t2.
Proof.
  intros H1. revert s2. induction H1 as [|d s1 Hd _ IH]; intros s2 H2 Hc; simpl.
  - destruct H2 as [|e s2 He _]; [by intros [= ->]|]. intros [= -> _]. congruence.
  - destruct H2 as [|e s2 He H2]; [intros [= -> _]; congruence|]. intros [= -> E].
    by destruct (IH s2 H2 Hc E) as [-> ->].
Qed.
