(* ===== verification/Kernel.v ===== *)
(** * What the kernel module uses of the kernel

    Error numbers, the environment of one system call, hash tables (linux/hashtable.h) and
    bitmaps (linux/bitmap.h) as the module uses them.  The hash functions, the outcome of each
    allocation, the pid translation and the file-descriptor table are code outside the
    repository: parameters of the model. *)

From S2P Require Import Prelude.

(** ** Results *)

(** The [-E...] values the module returns.  [EOTHER c] is an error code another kernel function
    returned and the module passes on. *)
Inductive errno :=
  | EPERM | ENOENT | ESRCH | ENOMEM | EFAULT | EBUSY | EEXIST | EINVAL | ENOSPC
  | ENODATA | EALREADY | ENOBUFS | ECANCELED
  | EOTHER (code : Z).

#[export] Instance errno_eq_dec : EqDecision errno.
Proof. solve_decision. Defined.

(** [Ok a]: the function returned 0 and wrote [a].  [Err e]: it returned [-e].  [Oops]: it
    followed a pointer to freed memory, which no reachable state does. *)
Inductive res (A : Type) := Ok (a : A) | Err (e : errno) | Oops.
Arguments Ok {A} a.
Arguments Err {A} e.
Arguments Oops {A}.

(** ** Parameters: kernel code *)

(** The hash functions of linux/stringhash.h and linux/hash.h, fixed while the module runs. *)
Class KernelHash := {
  full_name_hash : string -> Z;
  hash_min : Z -> Z -> Z
}.

(** A concrete instance, for evaluating the model. *)
Definition length_hash : KernelHash :=
  {| full_name_hash s := Z.of_nat (String.length s); hash_min v bits := v mod 2 ^ bits |}.

(** [al n] says whether the [n]-th allocation of the call succeeds. *)
Definition alloc := nat -> bool.
Definition skip (n : nat) (al : alloc) : alloc := fun m => al (n + m)%nat.

(** What a system call sees of the kernel: [current->tgid], [current->nsproxy->ipc_ns], the
    outcome of its allocations, [pid_vnr] of a global pid ([None]: [find_pid_ns] found nothing),
    and the eventfd context behind a file descriptor or the error of [eventfd_ctx_fdget]. *)
Record env := Env {
  current_tgid : Z;
  current_ipc_ns : Z;
  kmalloc_ok : alloc;
  pid_vnr_of : Z -> option Z;
  eventfd_ctx_fdget : Z -> errno + Z
}.

(** ** Hash tables

    A table is the list of its nodes in the order [hash_for_each] visits them: bucket by bucket,
    and within a bucket the node added last first ([hlist_add_head]). *)

Fixpoint hash_add {A} (bucket : A -> Z) (x : A) (tbl : list A) : list A :=
  match tbl with
  | [] => [x]
  | y :: rest =>
      if bucket x <=? bucket y then x :: y :: rest else y :: hash_add bucket x rest
  end.

Definition hash_for_each_possible {A} (bucket : A -> Z) (key_bucket : Z) (tbl : list A) : list A :=
  filter (fun x => bucket x = key_bucket) tbl.

(** [hash_del] of the node the test singles out. *)
Fixpoint hash_del {A} (this : A -> bool) (tbl : list A) : list A :=
  match tbl with
  | [] => []
  | y :: rest => if this y then rest else y :: hash_del this rest
  end.

(** A write through a pointer to the node the test singles out. *)
Fixpoint hash_upd {A} (this : A -> bool) (f : A -> A) (tbl : list A) : list A :=
  match tbl with
  | [] => []
  | y :: rest => if this y then f y :: rest else y :: hash_upd this f rest
  end.

(** ** Bitmaps *)

Definition test_bit (id : Z) (bitmap : Z) : bool := Z.testbit bitmap id.
Definition set_bit (id : Z) (bitmap : Z) : Z := Z.setbit bitmap id.
Definition clear_bit (id : Z) (bitmap : Z) : Z := Z.clearbit bitmap id.
Definition bitmap_empty (bitmap : Z) : bool := bitmap =? 0.

(** ** Lemmas: hash tables *)

Section htable.
Context {A : Type}.
Implicit Types (bucket : A -> Z) (tbl : list A) (this : A -> bool) (f : A -> A).

Lemma hash_add_perm bucket x tbl : hash_add bucket x tbl ≡ₚ x :: tbl.
Proof.
  induction tbl as [|y tbl IH]; simpl; [done|].
  case_match; [done|]. rw IH. apply Permutation_swap.
Qed.

Lemma elem_of_hash_add bucket x y tbl : y ∈ hash_add bucket x tbl <-> y = x \/ y ∈ tbl.
Proof. rw hash_add_perm. set_solver. Qed.

Lemma Forall_hash_add (P : A -> Prop) bucket x tbl :
  P x -> Forall P tbl -> Forall P (hash_add bucket x tbl).
Proof. intros Hx H. rw hash_add_perm. by constructor. Qed.

Lemma length_hash_add bucket x tbl : length (hash_add bucket x tbl) = S (length tbl).
Proof. by rw hash_add_perm. Qed.

Lemma find_hash_add_other bucket this x tbl :
  this x = false -> find this (hash_add bucket x tbl) = find this tbl.
Proof.
  intros Hx. induction tbl as [|y tbl IH]; simpl; [by rw Hx|].
  case_match; simpl; [by rw Hx|]. by rw IH.
Qed.

Lemma find_possible bucket this b tbl :
  (forall x, this x = true -> bucket x = b) ->
  find this (hash_for_each_possible bucket b tbl) = find this tbl.
Proof. intros H. unfold hash_for_each_possible. by apply find_filter. Qed.

Lemma hash_del_notin this tbl : find this tbl = None -> hash_del this tbl = tbl.
Proof.
  induction tbl as [|y tbl IH]; simpl; [done|].
  destruct (this y); [done|]. intros H. by rw IH.
Qed.

Lemma hash_del_perm this x tbl : find this tbl = Some x -> tbl ≡ₚ x :: hash_del this tbl.
Proof.
  induction tbl as [|y tbl IH]; simpl; [done|].
  destruct (this y); [by intros [= ->]|].
  intros H. rw {1}(IH H). apply Permutation_swap.
Qed.

Lemma elem_of_hash_del this x tbl : x ∈ hash_del this tbl -> x ∈ tbl.
Proof.
  induction tbl as [|y tbl IH]; simpl; [done|].
  destruct (this y); set_solver.
Qed.

Lemma hash_del_sublist this tbl : hash_del this tbl `sublist_of` tbl.
Proof.
  induction tbl as [|y tbl IH]; simpl; [done|].
  destruct (this y); [by apply sublist_cons|by apply sublist_skip].
Qed.

Lemma length_hash_upd this f tbl : length (hash_upd this f tbl) = length tbl.
Proof. induction tbl as [|y tbl IH]; simpl; [done|]. destruct (this y); simpl; congruence. Qed.

(** A write that leaves a projection alone leaves the table of projections alone. *)
Lemma fmap_hash_upd {B} (g : A -> B) this f tbl :
  (forall x, this x = true -> g (f x) = g x) -> g <$> hash_upd this f tbl = g <$> tbl.
Proof.
  intros H. induction tbl as [|y tbl IH]; simpl; [done|].
  destruct (this y) eqn:E; csimpl; [by rw H|by rw IH].
Qed.

Lemma elem_of_hash_upd this f x tbl :
  x ∈ hash_upd this f tbl -> x ∈ tbl \/ exists y, y ∈ tbl /\ this y = true /\ x = f y.
Proof.
  induction tbl as [|y tbl IH]; simpl; [set_solver|].
  destruct (this y) eqn:E; intros [->|H]%elem_of_cons; set_solver.
Qed.

(** In a table without duplicate keys, a write by key is a map. *)
Lemma hash_upd_key (g : A -> Z) k f tbl :
  NoDup (g <$> tbl) ->
  hash_upd (fun x => g x =? k) f tbl = (fun x => if g x =? k then f x else x) <$> tbl.
Proof.
  induction tbl as [|y tbl IH]; csimpl; [done|]. intros [Hy Hd]%NoDup_cons.
  destruct (Z.eqb_spec (g y) k) as [<-|Hne]; [|by rw IH]. f_equal.
  rw -{1}(list_fmap_id tbl). apply list_fmap_ext. intros i x Hx%list_elem_of_lookup_2.
  destruct (Z.eqb_spec (g x) (g y)) as [Heq|]; [|done]. exfalso. apply Hy. rw -Heq.
  by apply list_elem_of_fmap_2.
Qed.

Lemma hash_upd_id this f x tbl : find this tbl = Some x -> f x = x -> hash_upd this f tbl = tbl.
Proof.
  intros Hx Hfx. induction tbl as [|y tbl IH]; simpl in *; [done|].
  destruct (this y); [congruence|]. by rw IH.
Qed.

Lemma elem_of_hash_upd_other this f x tbl :
  x ∈ tbl -> this x = false -> x ∈ hash_upd this f tbl.
Proof.
  intros Hx Ht. induction tbl as [|y tbl IH]; simpl; [done|].
  apply elem_of_cons in Hx as [->|Hx]; [rw Ht; set_solver|]. destruct (this y); set_solver.
Qed.

Lemma find_hash_upd this f tbl :
  (forall x, this x = true -> this (f x) = true) ->
  find this (hash_upd this f tbl) = f <$> find this tbl.
Proof.
  intros H. induction tbl as [|y tbl IH]; simpl; [done|].
  destruct (this y) eqn:E; simpl; [by rw (H y E)|by rw E].
Qed.

Lemma find_hash_upd_other (this that : A -> bool) f tbl :
  (forall x, this x = true -> that x = false /\ that (f x) = false) ->
  find that (hash_upd this f tbl) = find that tbl.
Proof.
  intros H. induction tbl as [|y tbl IH]; simpl; [done|].
  destruct (this y) eqn:E; simpl.
  - destruct (H y E) as [-> ->]. done.
  - by rw IH.
Qed.

Lemma find_hash_del_other (this that : A -> bool) tbl :
  (forall x, this x = true -> that x = false) -> find that (hash_del this tbl) = find that tbl.
Proof.
  intros H. induction tbl as [|y tbl IH]; simpl; [done|].
  destruct (this y) eqn:E; simpl; [by rw (H y E)|by rw IH].
Qed.

(** Projected keys: a table without duplicate keys keeps none after an addition of a fresh key. *)
Lemma NoDup_fmap_hash_add {B} (g : A -> B) bucket x tbl :
  NoDup (g <$> tbl) -> g x ∉ g <$> tbl -> NoDup (g <$> hash_add bucket x tbl).
Proof. intros H1 H2. rw hash_add_perm fmap_cons. by constructor. Qed.

Lemma NoDup_fmap_hash_del {B} (g : A -> B) this tbl :
  NoDup (g <$> tbl) -> NoDup (g <$> hash_del this tbl).
Proof. intros H. refine (sublist_NoDup _ _ H _). apply fmap_sublist, hash_del_sublist. Qed.

(** In a table without duplicate keys, the node found by key is the only one with the key. *)
Lemma find_key_unique {B} `{EqDecision B} (g : A -> B) x tbl :
  NoDup (g <$> tbl) -> x ∈ tbl -> find (fun y => bool_decide (g y = g x)) tbl = Some x.
Proof.
  induction tbl as [|y tbl IH]; simpl; [set_solver|].
  intros [Hy Hd]%NoDup_cons [->|Hx]%elem_of_cons.
  - by rw bool_decide_true.
  - rw bool_decide_false; [by apply IH|]. intros Heq. apply Hy. rw Heq.
    by apply list_elem_of_fmap_2.
Qed.
End htable.

#[export] Hint Resolve hash_add_perm : perm.

(** ** Lemmas: bitmaps *)

Section bitmaps.
Implicit Types (id bitmap : Z).

Lemma test_set_bit id id' bitmap :
  0 <= id -> test_bit id' (set_bit id bitmap) = bool_decide (id = id') || test_bit id' bitmap.
Proof.
  intros H. unfold test_bit, set_bit. rw Z.setbit_eqb //. f_equal.
  destruct (Z.eqb_spec id id'); [by rw bool_decide_true|by rw bool_decide_false].
Qed.

Lemma test_clear_bit id id' bitmap :
  test_bit id' (clear_bit id bitmap) = test_bit id' bitmap && negb (bool_decide (id = id')).
Proof.
  unfold test_bit, clear_bit. rw Z.clearbit_eqb. f_equal. f_equal.
  destruct (Z.eqb_spec id id'); [by rw bool_decide_true|by rw bool_decide_false].
Qed.

Lemma set_bit_already id bitmap : test_bit id bitmap = true -> set_bit id bitmap = bitmap.
Proof.
  intros Hb. apply Z.bits_inj'. intros n Hn. unfold test_bit, set_bit in *.
  destruct (decide (id = n)) as [->|Hne].
  - by rw Z.setbit_eq.
  - destruct (Z.neg_nonneg_cases id) as [Hneg|Hpos]; [by rw Z.testbit_neg_r in Hb|].
    by rw Z.setbit_neq.
Qed.

Lemma set_bit_nonneg id bitmap : 0 <= bitmap -> 0 <= set_bit id bitmap.
Proof.
  intros H. unfold set_bit. rw Z.setbit_spec'. apply Z.lor_nonneg. split; [done|].
  apply Z.pow_nonneg. lia.
Qed.

Lemma clear_bit_nonneg id bitmap : 0 <= bitmap -> 0 <= clear_bit id bitmap.
Proof.
  intros H. unfold clear_bit. rw Z.clearbit_spec'. apply Z.ldiff_nonneg. auto.
Qed.

Lemma bitmap_empty_false bitmap :
  0 <= bitmap -> bitmap_empty bitmap = false -> exists id, test_bit id bitmap = true.
Proof.
  intros H0 H. unfold bitmap_empty in H. bool_to_prop.
  exists (Z.log2 bitmap). apply Z.bit_log2. lia.
Qed.

Lemma bitmap_empty_true bitmap id : bitmap_empty bitmap = true -> test_bit id bitmap = false.
Proof.
  unfold bitmap_empty. intros ->%Z.eqb_eq. apply Z.bits_0.
Qed.
End bitmaps.

#[export] Hint Resolve set_bit_nonneg clear_bit_nonneg : agno.
