(* ===== verification/KMempool.v ===== *)
(** * Kernel module: the shared-memory pool allocator

    Model of agnocast_kmod/agnocast_memory_allocator.c: the table of address ranges handed to
    processes, and the pids that map each range.  [mempool_lock] makes every function atomic. *)

From S2P Require Import Prelude Kernel.

(** ** Data *)

(** The head of [mapped_pids] is the pid [list_add] put first. *)
Record mempool_entry := MempoolEntry {
  addr : Z;
  mapped_num : Z;
  mapped_pids : list Z
}.

(** The module parameters: [int mempool_num], [unsigned long mempool_start_addr],
    [int mempool_size_gb]. *)
Record mempool_params := MempoolParams {
  mempool_num : Z;
  mempool_start_addr : Z;
  mempool_size_gb : Z
}.

Definition default_mempool_params : mempool_params :=
  MempoolParams 4096 0x40000000000 16.

(** ** Operations *)

(** [for (i = 0; i < mempool_num; i++) ... addr += mempool_size_bytes] *)
Fixpoint init_entries (n : nat) (a size : Z) : list mempool_entry :=
  match n with
  | O => []
  | S n' => MempoolEntry a 0 [] :: init_entries n' (u64 (a + size)) size
  end.

(** Returns [mempool_size_bytes] and the table. *)
Definition init_memory_allocator (p : mempool_params) (al : alloc)
    : res (Z * list mempool_entry) :=
  let start := u64 (mempool_start_addr p) in
  require negb (mempool_num p <=? 0) orelse Err EINVAL;
  require negb (mempool_size_gb p <=? 0) orelse Err EINVAL;
  let mempool_size_bytes := u64 (u64 (mempool_size_gb p) * 1024 * 1024 * 1024) in
  let total_size := u64 (mempool_num p) * mempool_size_bytes in
  require total_size <? 2 ^ 64 orelse Err EINVAL;
  let end_addr := start + total_size in
  require end_addr <? 2 ^ 64 orelse Err EINVAL;
  require al 0%nat orelse Err ENOMEM;
  Ok (mempool_size_bytes, init_entries (Z.to_nat (mempool_num p)) start mempool_size_bytes).

(** The loop of [assign_memory]: the first pool nobody maps, with its index. *)
Fixpoint assign_loop (pid : Z) (i : nat) (pool : list mempool_entry)
    : option nat * list mempool_entry :=
  match pool with
  | [] => (None, [])
  | m :: rest =>
      if mapped_num m =? 0 then
        (Some i, MempoolEntry (addr m) 1 (pid :: mapped_pids m) :: rest)
      else
        let '(r, rest') := assign_loop pid (S i) rest in (r, m :: rest')
  end.

(** [None] is NULL. *)
Definition assign_memory (al : alloc) (pool : list mempool_entry) (pid : Z)
    : option nat * list mempool_entry :=
  require al 0%nat orelse (None, pool);
  assign_loop pid 0 pool.

Definition reference_memory (al : alloc) (pool : list mempool_entry) (idx : nat) (pid : Z)
    : list mempool_entry * res unit :=
  require al 0%nat orelse (pool, Err ENOMEM);
  unwrap m := pool !! idx orelse (pool, Oops);
  require negb (bool_decide (pid ∈ mapped_pids m)) orelse (pool, Err EEXIST);
  (<[idx := MempoolEntry (addr m) (u32 (mapped_num m + 1)) (pid :: mapped_pids m)]> pool, Ok tt).

(** [list_del] of the first entry of [pid]. *)
Fixpoint list_del_pid (pid : Z) (l : list Z) : list Z :=
  match l with
  | [] => []
  | q :: rest => if q =? pid then rest else q :: list_del_pid pid rest
  end.

Definition free_entry (pid : Z) (m : mempool_entry) : mempool_entry :=
  if bool_decide (pid ∈ mapped_pids m)
  then MempoolEntry (addr m) (u32 (mapped_num m - 1)) (list_del_pid pid (mapped_pids m))
  else m.

Definition free_memory (pool : list mempool_entry) (pid : Z) : list mempool_entry :=
  free_entry pid <$> pool.

Definition exit_memory_allocator (pool : list mempool_entry) : list mempool_entry :=
  (fun m => MempoolEntry (addr m) 0 []) <$> pool.

(** ** Specification *)

(** Linux's PID_MAX_LIMIT on 64-bit machines: every pid is below it. *)
Definition PID_MAX_LIMIT : Z := 2 ^ 22.
Definition valid_pid (pid : Z) : Prop := 0 < pid < PID_MAX_LIMIT.

Record entry_wf (m : mempool_entry) : Prop := {
  wf_mapped_num : mapped_num m = Z.of_nat (length (mapped_pids m));
  wf_mapped_nodup : NoDup (mapped_pids m);
  wf_mapped_pids : Forall valid_pid (mapped_pids m)
}.

Definition pool_wf (pool : list mempool_entry) : Prop := Forall entry_wf pool.

(** Two address ranges of one size do not overlap. *)
Definition disjoint_ranges (size a b : Z) : Prop := a + size <= b \/ b + size <= a.

(** ** Lemmas *)

Lemma NoDup_bounded_length (n : nat) (l : list Z) :
  NoDup l -> Forall (fun x => 0 <= x < Z.of_nat n) l -> (length l <= n)%nat.
Proof.
  intros Hd Hb.
  rw -(length_seq n 0) -(length_map Z.of_nat).
  apply List.NoDup_incl_length; [by apply NoDup_ListNoDup|].
  intros x Hx. apply List.in_map_iff. exists (Z.to_nat x).
  rw Forall_forall in Hb. specialize (Hb x). rw list_elem_of_In in Hb.
  specialize (Hb Hx). split; [lia|]. apply List.in_seq. lia.
Qed.

Lemma entry_wf_length m : entry_wf m -> 0 <= Z.of_nat (length (mapped_pids m)) < 2 ^ 32 - 1.
Proof.
  intros [_ Hd Hp].
  assert (length (mapped_pids m) <= Z.to_nat PID_MAX_LIMIT)%nat as H.
  { apply NoDup_bounded_length; [done|]. eapply Forall_impl; [done|].
    unfold valid_pid, PID_MAX_LIMIT. intros. lia. }
  assert (Z.of_nat (Z.to_nat PID_MAX_LIMIT) = PID_MAX_LIMIT) by (apply Z2Nat.id; done).
  unfold PID_MAX_LIMIT in *. lia.
Qed.

Lemma list_del_pid_notin pid l : pid ∉ l -> list_del_pid pid l = l.
Proof.
  induction l as [|q l IH]; simpl; [done|]. intros H.
  apply not_elem_of_cons in H as [Hne H].
  destruct (Z.eqb_spec q pid); [congruence|]. by rw IH.
Qed.

Lemma list_del_pid_perm pid l : pid ∈ l -> l ≡ₚ pid :: list_del_pid pid l.
Proof.
  induction l as [|q l IH]; simpl; [set_solver|].
  destruct (Z.eqb_spec q pid) as [->|Hne]; [done|].
  intros [->|H]%elem_of_cons; [done|]. rw {1}(IH H). apply Permutation_swap.
Qed.

Lemma elem_of_list_del_pid pid q l : NoDup l -> q ∈ list_del_pid pid l <-> q ∈ l /\ q <> pid.
Proof.
  intros Hd. destruct (decide (pid ∈ l)) as [Hin|Hin].
  - pose proof (list_del_pid_perm _ _ Hin) as Hp.
    rw {1}Hp in Hd. apply NoDup_cons in Hd as [Hn _].
    rw {2}Hp. set_solver.
  - rw list_del_pid_notin //. set_solver.
Qed.

Lemma free_entry_wf pid m : entry_wf m -> entry_wf (free_entry pid m).
Proof.
  intros Hm. unfold free_entry. case_bool_decide as Hin; [|done].
  pose proof (list_del_pid_perm _ _ Hin) as Hp.
  pose proof (entry_wf_length _ Hm). destruct Hm as [Hn Hd Hv].
  pose proof (Permutation_length Hp) as Hl. simpl in Hl.
  rw Hp in Hd. rw Hp in Hv. apply NoDup_cons in Hd as [_ Hd]. apply Forall_cons in Hv as [_ Hv].
  split; simpl; [|done|done]. unfold u32. rw Hn. rw Z.mod_small; lia.
Qed.

(** [free_memory] removes the pid from every pool and nothing else. *)
Lemma free_entry_mapped pid q m :
  entry_wf m -> q ∈ mapped_pids (free_entry pid m) <-> q ∈ mapped_pids m /\ q <> pid.
Proof.
  intros [_ Hd _]. unfold free_entry. case_bool_decide; simpl.
  - by apply elem_of_list_del_pid.
  - set_solver.
Qed.

Lemma free_entry_addr pid m : addr (free_entry pid m) = addr m.
Proof. unfold free_entry. by case_bool_decide. Qed.

Lemma free_memory_wf pool pid : pool_wf pool -> pool_wf (free_memory pool pid).
Proof.
  intros H. apply Forall_fmap. eapply Forall_impl; [done|]. intros m. apply free_entry_wf.
Qed.

Lemma assign_loop_spec pid i pool r pool' :
  assign_loop pid i pool = (r, pool') ->
  match r with
  | Some j => exists k m, j = (i + k)%nat /\ pool !! k = Some m /\ mapped_num m = 0 /\
      (forall k' m', (k' < k)%nat -> pool !! k' = Some m' -> mapped_num m' <> 0) /\
      pool' = <[k := MempoolEntry (addr m) 1 (pid :: mapped_pids m)]> pool
  | None => pool' = pool /\ Forall (fun m => mapped_num m <> 0) pool
  end.
Proof.
  revert i r pool'. induction pool as [|m pool IH]; intros i r pool'; simpl.
  { intros [= <- <-]. done. }
  destruct (Z.eqb_spec (mapped_num m) 0) as [Hz|Hz].
  - intros [= <- <-]. exists 0%nat, m. repeat split; try done; try lia.
  - destruct (assign_loop pid (S i) pool) as [r' rest'] eqn:E. intros [= <- <-].
    specialize (IH _ _ _ E). destruct r' as [j|].
    + destruct IH as (k & m0 & -> & Hk & Hm & Hfirst & ->).
      exists (S k), m0. repeat split; try done; [lia|].
      intros [|k'] m' Hlt; simpl; [by intros [= <-]|]. apply Hfirst. lia.
    + destruct IH as [-> IH]. split; [done|]. by constructor.
Qed.

Lemma init_entries_spec n a size :
  0 <= a -> 0 <= size -> a + Z.of_nat n * size < 2 ^ 64 ->
  length (init_entries n a size) = n /\
  forall i, (i < n)%nat ->
    init_entries n a size !! i = Some (MempoolEntry (a + Z.of_nat i * size) 0 []).
Proof.
  revert a. induction n as [|n IH]; intros a Ha Hs Hb; [split; [done|lia]|].
  assert (u64 (a + size) = a + size) as Hu by (unfold u64; apply Z.mod_small; nia).
  simpl. rw Hu. destruct (IH (a + size)) as [IHl IHi]; [nia..|].
  split; [by rw IHl|]. intros [|i] Hi; simpl.
  - do 2 f_equal. lia.
  - rw IHi; [|lia]. do 2 f_equal. lia.
Qed.

Lemma length_list_insert_pool i m (pool : list mempool_entry) :
  length (<[i := m]> pool) = length pool.
Proof. apply length_insert. Qed.

Lemma free_entry_notin pid m : pid ∉ mapped_pids m -> free_entry pid m = m.
Proof. intros H. unfold free_entry. by rw bool_decide_false. Qed.

Lemma free_memory_notin pid pool :
  Forall (fun m => pid ∉ mapped_pids m) pool -> free_memory pool pid = pool.
Proof.
  intros H. unfold free_memory. rw -{2}(list_fmap_id pool). apply list_fmap_ext.
  intros i m Hm. apply free_entry_notin. exact (Forall_lookup_1 _ _ _ _ H Hm).
Qed.

Lemma assign_memory_wf al pool pid r pool' :
  pool_wf pool -> valid_pid pid -> assign_memory al pool pid = (r, pool') -> pool_wf pool'.
Proof.
  intros Hwf Hv. unfold assign_memory. destruct (al 0%nat); [|by intros [= <- <-]].
  intros H%assign_loop_spec. destruct r as [j|]; [|by destruct H as [-> _]].
  destruct H as (k & m & -> & Hk & Hm & _ & ->).
  apply Forall_insert; [done|].
  pose proof (Forall_lookup_1 _ _ _ _ Hwf Hk) as [Hl Hd Hp].
  assert (mapped_pids m = []) as Hnil.
  { destruct (mapped_pids m); [done|]. simpl in Hl. lia. }
  split; simpl; rw Hnil; [done|apply NoDup_singleton|]. constructor; [done|constructor].
Qed.

Lemma reference_memory_wf al pool idx pid pool' r :
  pool_wf pool -> valid_pid pid -> reference_memory al pool idx pid = (pool', r) -> pool_wf pool'.
Proof.
  intros Hwf Hv. unfold reference_memory. destruct (al 0%nat); [|by intros [= <- <-]].
  destruct (pool !! idx) as [m|] eqn:Hm; [|by intros [= <- <-]].
  case_bool_decide as Hin; simpl; intros [= <- <-]; [done|].
  pose proof (Forall_lookup_1 _ _ _ _ Hwf Hm) as Hmw.
  apply Forall_insert; [done|].
  pose proof (entry_wf_length _ Hmw). destruct Hmw as [Hl Hd Hp].
  split; simpl; [|by constructor|by constructor].
  unfold u32. rw Hl. rw Z.mod_small; lia.
Qed.

Lemma assign_memory_inv al pool pid r pool' :
  pool_wf pool -> assign_memory al pool pid = (r, pool') ->
  match r with
  | Some i => exists m, pool !! i = Some m /\ mapped_pids m = [] /\
      pool' !! i = Some (MempoolEntry (addr m) 1 [pid]) /\
      (forall j, j <> i -> pool' !! j = pool !! j) /\
      (forall j mj, (j < i)%nat -> pool !! j = Some mj -> mapped_pids mj <> [])
  | None => pool' = pool /\
      (al 0%nat = false \/ Forall (fun m => mapped_pids m <> []) pool)
  end.
Proof.
  intros Hwf. unfold assign_memory. destruct (al 0%nat); [|intros [= <- <-]; auto].
  assert (forall i m, pool !! i = Some m -> mapped_num m = 0 <-> mapped_pids m = []) as Hz.
  { intros i m Hm. pose proof (Forall_lookup_1 _ _ _ _ Hwf Hm) as [Hl _ _].
    destruct (mapped_pids m); simpl in *; split; (done || lia). }
  intros H%assign_loop_spec. destruct r as [i|].
  - destruct H as (k & m & -> & Hk & Hm & Hf & ->). simpl. exists m.
    apply (Hz k) in Hm as Hnil; [|done]. split_and!; [done|done| | |].
    + rw list_lookup_insert_eq; [|by eapply lookup_lt_Some]. by rw Hnil.
    + intros j Hj. by apply list_lookup_insert_ne.
    + intros j mj Hj Hmj. rw -(Hz j mj Hmj). eauto.
  - destruct H as [-> H]. split; [done|right]. apply Forall_lookup. intros i m Hm.
    rw -(Hz i m Hm). by eapply (Forall_lookup_1 _ _ _ _ H).
Qed.

Lemma init_memory_allocator_spec p al size pool :
  0 <= mempool_start_addr p < 2 ^ 64 -> mempool_num p < 2 ^ 31 -> mempool_size_gb p < 2 ^ 31 ->
  init_memory_allocator p al = Ok (size, pool) ->
  (size = mempool_size_gb p * 2 ^ 30 /\ 0 < size /\
   mempool_start_addr p + mempool_num p * size < 2 ^ 64) /\
  Z.of_nat (length pool) = mempool_num p /\
  (forall i m, pool !! i = Some m -> m = MempoolEntry (mempool_start_addr p + Z.of_nat i * size) 0 [] /\
     Z.of_nat i < mempool_num p).
Proof.
  intros Hst Hn Hg H. unfold init_memory_allocator in H.
  destruct (Z.leb_spec (mempool_num p) 0); simpl in H; [done|].
  destruct (Z.leb_spec (mempool_size_gb p) 0); simpl in H; [done|].
  assert (u64 (u64 (mempool_size_gb p) * 1024 * 1024 * 1024) = mempool_size_gb p * 2 ^ 30) as Hsz.
  { unfold u64. rw (Z.mod_small (mempool_size_gb p)); [|lia]. rw Z.mod_small; lia. }
  rw Hsz in H. assert (u64 (mempool_num p) = mempool_num p) as Hu1 by (apply Z.mod_small; lia).
  assert (u64 (mempool_start_addr p) = mempool_start_addr p) as Hu2 by (by apply Z.mod_small).
  rw Hu1 Hu2 in H. destruct (Z.ltb_spec (mempool_num p * (mempool_size_gb p * 2 ^ 30)) (2 ^ 64)); [|done].
  destruct (Z.ltb_spec (mempool_start_addr p + mempool_num p * (mempool_size_gb p * 2 ^ 30)) (2 ^ 64)); [|done].
  destruct (al 0%nat); [|done]. injection H as <- <-.
  set (size := mempool_size_gb p * 2 ^ 30) in *.
  assert (Z.of_nat (Z.to_nat (mempool_num p)) = mempool_num p) as Hnn by (apply Z2Nat.id; lia).
  destruct (init_entries_spec (Z.to_nat (mempool_num p)) (mempool_start_addr p) size) as [Hl Hi];
    [lia|lia|by rw Hnn|].
  assert (forall i m, init_entries (Z.to_nat (mempool_num p)) (mempool_start_addr p) size !! i = Some m ->
    Z.of_nat i < mempool_num p /\ m = MempoolEntry (mempool_start_addr p + Z.of_nat i * size) 0 []) as Hlk.
  { intros i m Him. pose proof (lookup_lt_Some _ _ _ Him) as Hlt. rw Hl in Hlt.
    rw Hi // in Him. injection Him as <-. split; [lia|done]. }
  split_and!; [done|lia|done|by rw Hl|]. intros i m [? ->]%Hlk. done.
Qed.

(** ** Theorems *)

(** A successful [init_memory_allocator] yields [mempool_num] unmapped pools of
    [mempool_size_bytes] bytes each, laid out from [mempool_start_addr] without wrapping past
    2^64 and without two pools overlapping: the overflow checks are enough. *)
Theorem init_memory_allocator_layout p al size pool :
  0 <= mempool_start_addr p < 2 ^ 64 -> mempool_num p < 2 ^ 31 -> mempool_size_gb p < 2 ^ 31 ->
  init_memory_allocator p al = Ok (size, pool) ->
  size = mempool_size_gb p * 2 ^ 30 /\ 0 < size /\
  Z.of_nat (length pool) = mempool_num p /\
  (forall i m, pool !! i = Some m ->
     mapped_pids m = [] /\ mapped_num m = 0 /\
     addr m = mempool_start_addr p + Z.of_nat i * size /\ addr m + size < 2 ^ 64) /\
  (forall i j m m', i <> j -> pool !! i = Some m -> pool !! j = Some m' ->
     disjoint_ranges size (addr m) (addr m')).
Proof.
  intros Hst Hn Hg H.
  destruct (init_memory_allocator_spec _ _ _ _ Hst Hn Hg H) as ((Hsz & Hpos & Hend) & Hlen & Hlk).
  split_and!; [done|done|done| |].
  - intros i m Hm. destruct (Hlk i m Hm) as [-> Hi]. simpl. split_and!; [done..|nia].
  - intros i j m m' Hne Hm Hm'. destruct (Hlk i m Hm) as [-> Hi].
    destruct (Hlk j m' Hm') as [-> Hj]. unfold disjoint_ranges. simpl. nia.
Qed.

Lemma init_memory_allocator_layout_witness :
  init_memory_allocator default_mempool_params (fun _ => true) =
    Ok (17179869184, init_entries 4096 0x40000000000 17179869184) /\
  Z.of_nat (length (init_entries 4096 0x40000000000 17179869184)) = 4096.
Proof.
  assert (init_memory_allocator default_mempool_params (fun _ => true) =
    Ok (17179869184, init_entries 4096 0x40000000000 17179869184)) as H by reflexivity.
  split; [exact H|].
  exact (proj1 (proj2 (proj2 (init_memory_allocator_layout default_mempool_params (fun _ => true)
    17179869184 (init_entries 4096 0x40000000000 17179869184)
    ltac:(split; reflexivity || discriminate) ltac:(reflexivity) ltac:(reflexivity) H)))).
Defined.

(** [assign_memory] takes the first pool nobody maps, maps it by the caller alone, and leaves
    every other pool as it was; it fails only when an allocation fails or every pool is mapped,
    and then changes nothing.  Either way the table stays well formed: each count is the number
    of mapping pids, and no pid maps a pool twice. *)
Theorem assign_memory_exclusive al pool pid r pool' :
  pool_wf pool -> valid_pid pid -> assign_memory al pool pid = (r, pool') ->
  pool_wf pool' /\
  match r with
  | Some i => exists m, pool !! i = Some m /\ mapped_pids m = [] /\
      pool' !! i = Some (MempoolEntry (addr m) 1 [pid]) /\
      (forall j, j <> i -> pool' !! j = pool !! j) /\
      (forall j mj, (j < i)%nat -> pool !! j = Some mj -> mapped_pids mj <> [])
  | None => pool' = pool /\
      (al 0%nat = false \/ Forall (fun m => mapped_pids m <> []) pool)
  end.
Proof.
  intros Hwf Hv H. split; [by eapply assign_memory_wf|by apply assign_memory_inv].
Qed.

Lemma assign_memory_exclusive_witness :
  let pool := [MempoolEntry 0 1 [7]; MempoolEntry 16 0 []; MempoolEntry 32 0 []] in
  assign_memory (fun _ => true) pool 9 =
    (Some 1%nat, [MempoolEntry 0 1 [7]; MempoolEntry 16 1 [9]; MempoolEntry 32 0 []]) /\
  exists m, pool !! 1%nat = Some m /\ mapped_pids m = [].
Proof.
  intros pool. split; [reflexivity|].
  assert (pool_wf pool) as Hwf.
  { repeat constructor; simpl; try done; try set_solver; vm_compute; congruence. }
  destruct (assign_memory_exclusive (fun _ => true) pool 9 (Some 1%nat)
    [MempoolEntry 0 1 [7]; MempoolEntry 16 1 [9]; MempoolEntry 32 0 []] Hwf
    ltac:(split; reflexivity) eq_refl)
    as (_ & m & H1 & H2 & _). exists m. split; assumption.
Defined.

(** Freeing a process's mappings right after its assignment restores the allocator, when the
    pid mapped nothing before: no pool leaks through a process that comes and goes. *)
Theorem free_assign_memory_roundtrip al pool pid i pool' :
  pool_wf pool -> Forall (fun m => pid ∉ mapped_pids m) pool ->
  assign_memory al pool pid = (Some i, pool') -> free_memory pool' pid = pool.
Proof.
  intros Hwf Hno H.
  pose proof (assign_memory_inv al pool pid (Some i) pool' Hwf H)
    as (m & Hm & Hnil & Hi & Hother & _).
  pose proof (Forall_lookup_1 _ _ _ _ Hwf Hm) as [Hl _ _].
  apply list_eq. intros j. unfold free_memory. rw list_lookup_fmap.
  destruct (decide (j = i)) as [->|Hne].
  - rw Hi Hm. simpl. unfold free_entry. simpl. rw bool_decide_true; [|set_solver].
    rw Z.eqb_refl. rw Hnil in Hl. destruct m. simpl in *. by subst.
  - rw Hother //. destruct (pool !! j) as [mj|] eqn:Hj; [|done]. simpl. f_equal.
    apply free_entry_notin. exact (Forall_lookup_1 _ _ _ _ Hno Hj).
Qed.

Lemma free_assign_memory_roundtrip_witness :
  let pool := [MempoolEntry 0 1 [7]; MempoolEntry 16 0 []] in
  free_memory [MempoolEntry 0 1 [7]; MempoolEntry 16 1 [9]] 9 = pool.
Proof.
  intros pool.
  apply (free_assign_memory_roundtrip (fun _ => true) pool 9 1%nat).
  - repeat constructor; simpl; try done; try set_solver; vm_compute; congruence.
  - repeat constructor; set_solver.
  - reflexivity.
Defined.
