(* ===== verification/KTypes.v ===== *)
(** * Kernel module: data

    The constants of agnocast_kmod/agnocast.h and the structs of agnocast_kmod/agnocast_internal.h,
    with the accessors the rest of the development updates them through.  A [char *] is a [string],
    a pid, an IPC namespace pointer, an eventfd context pointer and an address are [Z]. *)

From S2P Require Import Prelude Kernel KMempool.

(** ** Constants *)

Definition MAX_PUBLISHER_NUM : Z := 1024.
Definition MAX_TOPIC_LOCAL_ID : Z := 4096.
Definition MAX_SUBSCRIBER_NUM : Z := MAX_TOPIC_LOCAL_ID - MAX_PUBLISHER_NUM.
Definition MAX_RECEIVE_NUM : Z := 10.
Definition MAX_RELEASE_NUM : Z := 3.
Definition NODE_NAME_BUFFER_SIZE : Z := 256.
Definition MAX_NODE_NUM : Z := 1024.
Definition TOPIC_NAME_BUFFER_SIZE : Z := 256.
Definition MAX_TOPIC_NUM : Z := 2048.
Definition AGNOCAST_DOMAIN_ID_NONE : Z := 2 ^ 32 - 1.

Definition TOPIC_HASH_BITS : Z := 10.
Definition PUB_INFO_HASH_BITS : Z := 3.
Definition SUB_INFO_HASH_BITS : Z := 5.
Definition PROC_INFO_HASH_BITS : Z := 10.
Definition DISCOVERY_AGENT_HASH_BITS : Z := 4.
Definition NOTIFY_CTXS_MIN_CAPACITY : Z := 8.

(** ** Structs *)

Inductive process_role :=
  | PROCESS_ROLE_APPLICATION
  | PROCESS_ROLE_BRIDGE_MANAGER
  | PROCESS_ROLE_UNLINK_DAEMON.

#[export] Instance process_role_eq_dec : EqDecision process_role.
Proof. solve_decision. Defined.

(** The [uint32_t] user space sends, as the enum ([None]: not a role). *)
Definition process_role_of (role : Z) : option process_role :=
  if role =? 0 then Some PROCESS_ROLE_APPLICATION
  else if role =? 1 then Some PROCESS_ROLE_BRIDGE_MANAGER
  else if role =? 2 then Some PROCESS_ROLE_UNLINK_DAEMON
  else None.

(** [proc_mempool] is the index of the pool [mempool_entry] points to. *)
Record process_info := ProcessInfo {
  exited : bool;
  role : process_role;
  global_pid : Z;
  local_pid : Z;
  proc_mempool : nat;
  proc_ipc_ns : Z;
  proc_domain_id : Z
}.

(** [notify_ctxs] is the filled part of the C array, so [notify_num] is its length. *)
Record publisher_info := PublisherInfo {
  pub_id : Z;
  pub_domain_id : Z;
  pub_pid : Z;
  pub_node_name : string;
  pub_qos_depth : Z;
  pub_is_transient_local : bool;
  entries_num : Z;
  pub_is_bridge : bool;
  notify_ctxs : list Z;
  notify_capacity : Z
}.

Record subscriber_info := SubscriberInfo {
  sub_id : Z;
  sub_domain_id : Z;
  sub_pid : Z;
  sub_qos_depth : Z;
  sub_is_transient_local : bool;
  sub_is_reliable : bool;
  latest_received_entry_id : Z;
  sub_node_name : string;
  is_take_sub : bool;
  ignore_local_publications : bool;
  need_mmap_update : bool;
  sub_is_bridge : bool;
  notify_ctx : option Z
}.

Record entry_node := EntryNode {
  entry_id : Z;
  publisher_id : Z;
  msg_virtual_address : Z;
  referencing_subscribers : Z
}.

(** [rule_addr] is the address of the struct: [topic_struct.rule] points to it. *)
Record domain_bridge_rule := DomainBridgeRule {
  rule_addr : Z;
  topic_name_a : string;
  topic_name_b : string;
  rule_ipc_ns : Z;
  domain_a : Z;
  domain_b : Z;
  a_to_b : bool;
  b_to_a : bool;
  is_prefix : bool
}.

(** [entries] is the in-order sequence of the red-black tree: [rb_first], [rb_next], [rb_last]
    and [rb_prev] walk it, and [rb_erase] removes from it. *)
Record topic_struct := TopicStruct {
  entries : list entry_node;
  pub_info_htable : list publisher_info;
  sub_info_htable : list subscriber_info;
  current_pubsub_id : Z;
  current_entry_id : Z;
  ros2_subscriber_num : Z;
  ros2_publisher_num : Z;
  wrapper_refcnt : Z;
  rule : option Z
}.

(** [topic] is the address of the [topic_struct]. *)
Record topic_wrapper := TopicWrapper {
  wrapper_ipc_ns : Z;
  wrapper_domain_id : Z;
  key : string;
  topic : Z
}.

Record bridge_info := BridgeInfo {
  br_topic_name : string;
  br_pid : Z;
  has_r2a : bool;
  has_a2r : bool;
  br_ipc_ns : Z
}.

Record discovery_agent_info := DiscoveryAgentInfo {
  agent_pid : Z;
  agent_ipc_ns : Z;
  agent_domain_id : Z
}.

#[export] Instance publisher_info_eq_dec : EqDecision publisher_info.
Proof. solve_decision. Defined.
#[export] Instance subscriber_info_eq_dec : EqDecision subscriber_info.
Proof. solve_decision. Defined.
#[export] Instance topic_wrapper_eq_dec : EqDecision topic_wrapper.
Proof. solve_decision. Defined.
#[export] Instance entry_node_eq_dec : EqDecision entry_node.
Proof. solve_decision. Defined.

(** ** Writes to one field *)

Definition set_notify (c : list Z) (cap : Z) (p : publisher_info) : publisher_info :=
  PublisherInfo (pub_id p) (pub_domain_id p) (pub_pid p) (pub_node_name p) (pub_qos_depth p)
    (pub_is_transient_local p) (entries_num p) (pub_is_bridge p) c cap.

Definition set_entries_num (n : Z) (p : publisher_info) : publisher_info :=
  PublisherInfo (pub_id p) (pub_domain_id p) (pub_pid p) (pub_node_name p) (pub_qos_depth p)
    (pub_is_transient_local p) n (pub_is_bridge p) (notify_ctxs p) (notify_capacity p).

Definition set_latest_received (n : Z) (s : subscriber_info) : subscriber_info :=
  SubscriberInfo (sub_id s) (sub_domain_id s) (sub_pid s) (sub_qos_depth s)
    (sub_is_transient_local s) (sub_is_reliable s) n (sub_node_name s) (is_take_sub s)
    (ignore_local_publications s) (need_mmap_update s) (sub_is_bridge s) (notify_ctx s).

Definition set_need_mmap_update (b : bool) (s : subscriber_info) : subscriber_info :=
  SubscriberInfo (sub_id s) (sub_domain_id s) (sub_pid s) (sub_qos_depth s)
    (sub_is_transient_local s) (sub_is_reliable s) (latest_received_entry_id s) (sub_node_name s)
    (is_take_sub s) (ignore_local_publications s) b (sub_is_bridge s) (notify_ctx s).

Definition set_refs (b : Z) (en : entry_node) : entry_node :=
  EntryNode (entry_id en) (publisher_id en) (msg_virtual_address en) b.

Definition set_entries (l : list entry_node) (t : topic_struct) : topic_struct :=
  TopicStruct l (pub_info_htable t) (sub_info_htable t) (current_pubsub_id t)
    (current_entry_id t) (ros2_subscriber_num t) (ros2_publisher_num t) (wrapper_refcnt t)
    (rule t).

Definition set_pubs (l : list publisher_info) (t : topic_struct) : topic_struct :=
  TopicStruct (entries t) l (sub_info_htable t) (current_pubsub_id t)
    (current_entry_id t) (ros2_subscriber_num t) (ros2_publisher_num t) (wrapper_refcnt t)
    (rule t).

Definition set_subs (l : list subscriber_info) (t : topic_struct) : topic_struct :=
  TopicStruct (entries t) (pub_info_htable t) l (current_pubsub_id t)
    (current_entry_id t) (ros2_subscriber_num t) (ros2_publisher_num t) (wrapper_refcnt t)
    (rule t).

Definition set_ids (pubsub_id entry_id : Z) (t : topic_struct) : topic_struct :=
  TopicStruct (entries t) (pub_info_htable t) (sub_info_htable t) pubsub_id
    entry_id (ros2_subscriber_num t) (ros2_publisher_num t) (wrapper_refcnt t)
    (rule t).

Definition set_ros2_nums (subs pubs : Z) (t : topic_struct) : topic_struct :=
  TopicStruct (entries t) (pub_info_htable t) (sub_info_htable t) (current_pubsub_id t)
    (current_entry_id t) subs pubs (wrapper_refcnt t) (rule t).

Definition set_refcnt (n : Z) (t : topic_struct) : topic_struct :=
  TopicStruct (entries t) (pub_info_htable t) (sub_info_htable t) (current_pubsub_id t)
    (current_entry_id t) (ros2_subscriber_num t) (ros2_publisher_num t) n (rule t).

Definition set_directions (ab ba : bool) (r : domain_bridge_rule) : domain_bridge_rule :=
  DomainBridgeRule (rule_addr r) (topic_name_a r) (topic_name_b r) (rule_ipc_ns r)
    (domain_a r) (domain_b r) ab ba (is_prefix r).

(** ** Lookups *)

Section lookups.
Context `{KernelHash}.

Definition get_topic_hash (str : string) : Z := hash_min (full_name_hash str) TOPIC_HASH_BITS.

(** The bucket of a key [k] is [hash_min(k, bits)]; the topic table is keyed by [get_topic_hash]. *)
Definition topic_bucket (w : topic_wrapper) : Z := hash_min (get_topic_hash (key w)) TOPIC_HASH_BITS.
Definition pub_bucket (p : publisher_info) : Z :=
  hash_min (hash_min (pub_id p) PUB_INFO_HASH_BITS) PUB_INFO_HASH_BITS.
Definition sub_bucket (s : subscriber_info) : Z :=
  hash_min (hash_min (sub_id s) SUB_INFO_HASH_BITS) SUB_INFO_HASH_BITS.
Definition proc_bucket (p : process_info) : Z :=
  hash_min (hash_min (global_pid p) PROC_INFO_HASH_BITS) PROC_INFO_HASH_BITS.

Definition same_cell (topic_name : string) (ipc_ns domain_id : Z) (w : topic_wrapper) : bool :=
  (wrapper_ipc_ns w =? ipc_ns) && (wrapper_domain_id w =? domain_id)
    && String.eqb (key w) topic_name.

Definition find_topic (topic_hashtable : list topic_wrapper) (topic_name : string)
    (ipc_ns domain_id : Z) : option topic_wrapper :=
  find (same_cell topic_name ipc_ns domain_id)
    (hash_for_each_possible topic_bucket
       (hash_min (get_topic_hash topic_name) TOPIC_HASH_BITS) topic_hashtable).

Definition find_publisher_info (t : topic_struct) (publisher_id : Z) : option publisher_info :=
  find (fun info => pub_id info =? publisher_id)
    (hash_for_each_possible pub_bucket
       (hash_min (hash_min publisher_id PUB_INFO_HASH_BITS) PUB_INFO_HASH_BITS)
       (pub_info_htable t)).

Definition find_subscriber_info (t : topic_struct) (subscriber_id : Z) : option subscriber_info :=
  find (fun info => sub_id info =? subscriber_id)
    (hash_for_each_possible sub_bucket
       (hash_min (hash_min subscriber_id SUB_INFO_HASH_BITS) SUB_INFO_HASH_BITS)
       (sub_info_htable t)).

Definition agnocast_find_process_info (proc_info_htable : list process_info) (pid : Z)
    : option process_info :=
  find (fun info => global_pid info =? pid)
    (hash_for_each_possible proc_bucket
       (hash_min (hash_min pid PROC_INFO_HASH_BITS) PROC_INFO_HASH_BITS) proc_info_htable).
End lookups.

(** A read of the topic's message tree by id: the search of [find_message_entry]. *)
Definition find_message_entry (t : topic_struct) (id : Z) : option entry_node :=
  find (fun en => entry_id en =? id) (entries t).

Definition agnocast_is_referenced (en : entry_node) : bool :=
  negb (bitmap_empty (referencing_subscribers en)).

Definition agnocast_get_size_sub_info_htable (t : topic_struct) : Z :=
  Z.of_nat (length (sub_info_htable t)).
Definition agnocast_get_size_pub_info_htable (t : topic_struct) : Z :=
  Z.of_nat (length (pub_info_htable t)).

(** ** Lemmas: a bucket lookup is a table lookup *)

Section lookup_facts.
Context `{KernelHash}.

Lemma find_topic_eq ws n ns d : find_topic ws n ns d = find (same_cell n ns d) ws.
Proof.
  apply find_possible. intros w Hw. unfold same_cell in Hw. bool_to_prop. subst.
  by unfold topic_bucket.
Qed.

Lemma find_publisher_info_eq t id :
  find_publisher_info t id = find (fun info => pub_id info =? id) (pub_info_htable t).
Proof. apply find_possible. intros x <-%Z.eqb_eq. done. Qed.

Lemma find_subscriber_info_eq t id :
  find_subscriber_info t id = find (fun info => sub_id info =? id) (sub_info_htable t).
Proof. apply find_possible. intros x <-%Z.eqb_eq. done. Qed.

Lemma agnocast_find_process_info_eq ps pid :
  agnocast_find_process_info ps pid = find (fun info => global_pid info =? pid) ps.
Proof. apply find_possible. intros x <-%Z.eqb_eq. done. Qed.

Lemma find_topic_Some ws n ns d w :
  find_topic ws n ns d = Some w ->
  w ∈ ws /\ key w = n /\ wrapper_ipc_ns w = ns /\ wrapper_domain_id w = d.
Proof.
  rw find_topic_eq. intros [Hin Hw]%find_Some_inv. unfold same_cell in Hw. by bool_to_prop.
Qed.

Lemma find_publisher_info_Some t id p :
  find_publisher_info t id = Some p -> p ∈ pub_info_htable t /\ pub_id p = id.
Proof. rw find_publisher_info_eq. intros [? ?%Z.eqb_eq]%find_Some_inv. done. Qed.

Lemma find_subscriber_info_Some t id s :
  find_subscriber_info t id = Some s -> s ∈ sub_info_htable t /\ sub_id s = id.
Proof. rw find_subscriber_info_eq. intros [? ?%Z.eqb_eq]%find_Some_inv. done. Qed.

Lemma find_process_info_Some ps pid p :
  agnocast_find_process_info ps pid = Some p -> p ∈ ps /\ global_pid p = pid.
Proof. rw agnocast_find_process_info_eq. intros [? ?%Z.eqb_eq]%find_Some_inv. done. Qed.

Lemma find_publisher_info_is_Some t p :
  p ∈ pub_info_htable t -> is_Some (find_publisher_info t (pub_id p)).
Proof. intros Hp. rw find_publisher_info_eq. eapply find_is_Some; [done|apply Z.eqb_refl]. Qed.

Lemma find_publisher_info_unique t p :
  NoDup (pub_id <$> pub_info_htable t) -> p ∈ pub_info_htable t ->
  find_publisher_info t (pub_id p) = Some p.
Proof.
  intros Hd Hp. rw find_publisher_info_eq -(find_key_unique pub_id p _ Hd Hp).
  apply find_ext. intros q _. destruct (Z.eqb_spec (pub_id q) (pub_id p));
    [by rw bool_decide_true|by rw bool_decide_false].
Qed.

Lemma find_subscriber_info_unique t s :
  NoDup (sub_id <$> sub_info_htable t) -> s ∈ sub_info_htable t ->
  find_subscriber_info t (sub_id s) = Some s.
Proof.
  intros Hd Hp. rw find_subscriber_info_eq -(find_key_unique sub_id s _ Hd Hp).
  apply find_ext. intros q _. destruct (Z.eqb_spec (sub_id q) (sub_id s));
    [by rw bool_decide_true|by rw bool_decide_false].
Qed.
End lookup_facts.
