(* ===== verification/KRules.v ===== *)
(** * Kernel module: domain bridge rules

    Model of the rule table of agnocast_kmod/agnocast_ioctl.c: which pairs of (topic name, ROS
    domain) cells share one topic, and in which direction messages cross ([find_domain_rule],
    [add_domain_rule], [add_prefix_domain_rule], [domain_delivery_allowed]). *)

From Stdlib Require Import Ascii.
From S2P Require Import Prelude Kernel KMempool KTypes.

(** ** Operations *)

Definition rule_bucket `{KernelHash} (r : domain_bridge_rule) : Z :=
  hash_min (full_name_hash (topic_name_a r)) TOPIC_HASH_BITS.

(** The test of [find_domain_rule]'s loop: whether the rule covers the cell. *)
Definition rule_covers (topic_name : string) (ipc_ns domain_id : Z) (r : domain_bridge_rule)
    : bool :=
  (ipc_ns =? rule_ipc_ns r) &&
  ((domain_id =? domain_a r) || (domain_id =? domain_b r)) &&
  if is_prefix r then String.prefix (topic_name_a r) topic_name
  else ((domain_id =? domain_a r) && String.eqb (topic_name_a r) topic_name) ||
       ((domain_id =? domain_b r) && String.eqb (topic_name_b r) topic_name).

Definition find_domain_rule (rules : list domain_bridge_rule) (topic_name : string)
    (ipc_ns domain_id : Z) : option domain_bridge_rule :=
  find (rule_covers topic_name ipc_ns domain_id) rules.

(** A read through a cached rule pointer. *)
Definition rule_at (rules : list domain_bridge_rule) (p : option Z) : option domain_bridge_rule :=
  match p with
  | Some a => find (fun r => rule_addr r =? a) rules
  | None => None
  end.

Definition domain_delivery_allowed (rules : list domain_bridge_rule) (t : topic_struct)
    (pub_domain : Z) (pub_bridge : bool) (sub_domain : Z) (sub_bridge : bool) : bool :=
  if pub_domain =? sub_domain then true
  else if pub_bridge || sub_bridge then false
  else match rule_at rules (rule t) with
  | None => false
  | Some r =>
      if (pub_domain =? domain_a r) && (sub_domain =? domain_b r) then a_to_b r
      else if (pub_domain =? domain_b r) && (sub_domain =? domain_a r) then b_to_a r
      else false
  end.

Definition insert_domain_rule `{KernelHash} (al : alloc) (fresh : Z)
    (rules : list domain_bridge_rule) (topic_name_from topic_name_to : string)
    (from_domain to_domain : Z) (prefix : bool) (ipc_ns : Z)
    : list domain_bridge_rule * res unit :=
  let from_is_a := from_domain <? to_domain in
  let name_a := if from_is_a then topic_name_from else topic_name_to in
  let name_b := if from_is_a then topic_name_to else topic_name_from in
  require al 0%nat orelse (rules, Err ENOMEM);
  require al 1%nat && al 2%nat orelse (rules, Err ENOMEM);
  let r := DomainBridgeRule fresh name_a name_b ipc_ns
    (if from_is_a then from_domain else to_domain)
    (if from_is_a then to_domain else from_domain) from_is_a (negb from_is_a) prefix in
  (hash_add rule_bucket r rules, Ok tt).

(** The write [if (from_is_a) r->a_to_b = true; else r->b_to_a = true;] *)
Definition enable_direction (from_is_a : bool) (r : domain_bridge_rule) : domain_bridge_rule :=
  if from_is_a then set_directions true (b_to_a r) r else set_directions (a_to_b r) true r.

Definition direction_enabled (from_is_a : bool) (r : domain_bridge_rule) : bool :=
  (from_is_a && a_to_b r) || (negb from_is_a && b_to_a r).

Definition add_domain_rule `{KernelHash} (al : alloc) (fresh : Z)
    (rules : list domain_bridge_rule) (topics : list topic_wrapper)
    (topic_name_from topic_name_to : string) (from_domain to_domain ipc_ns : Z)
    : list domain_bridge_rule * res unit :=
  let joined :=
    bool_decide (is_Some (find_topic topics topic_name_from ipc_ns from_domain)) ||
    bool_decide (is_Some (find_topic topics topic_name_to ipc_ns to_domain)) in
  match find_domain_rule rules topic_name_from ipc_ns from_domain,
        find_domain_rule rules topic_name_to ipc_ns to_domain with
  | None, None =>
      require negb joined orelse (rules, Err EBUSY);
      insert_domain_rule al fresh rules topic_name_from topic_name_to from_domain to_domain
        false ipc_ns
  | Some r_from, Some r_to =>
      require rule_addr r_from =? rule_addr r_to orelse (rules, Err EBUSY);
      require negb (is_prefix r_from) orelse (rules, Err EBUSY);
      let from_is_a := from_domain <? to_domain in
      require negb (direction_enabled from_is_a r_from) orelse (rules, Ok tt);
      require negb joined orelse (rules, Err EBUSY);
      (hash_upd (fun r => rule_addr r =? rule_addr r_from) (enable_direction from_is_a) rules,
       Ok tt)
  | _, _ => (rules, Err EBUSY)
  end.

Definition any_topic_under_prefix (topics : list topic_wrapper) (prefix : string)
    (ipc_ns from_domain to_domain : Z) : bool :=
  existsb (fun w => (wrapper_ipc_ns w =? ipc_ns) &&
      ((wrapper_domain_id w =? from_domain) || (wrapper_domain_id w =? to_domain)) &&
      String.prefix prefix (key w)) topics.

(** [len <= prefix_len ? strncmp(name, prefix, len) == 0 : strncmp(prefix, name, prefix_len) == 0] *)
Definition nests (rule_prefix prefix : string) : bool :=
  if (String.length rule_prefix <=? String.length prefix)%nat
  then String.prefix rule_prefix prefix else String.prefix prefix rule_prefix.

(** The loop of [add_prefix_domain_rule]: [None] is [return -EBUSY]; otherwise the rule [same]. *)
Fixpoint prefix_rule_scan (prefix : string) (dom_a dom_b ipc_ns : Z)
    (same : option domain_bridge_rule) (rules : list domain_bridge_rule)
    : option (option domain_bridge_rule) :=
  match rules with
  | [] => Some same
  | r :: rest =>
      if negb (ipc_ns =? rule_ipc_ns r) then prefix_rule_scan prefix dom_a dom_b ipc_ns same rest
      else if is_prefix r then
        let shares_domain := (domain_a r =? dom_a) || (domain_a r =? dom_b) ||
                             (domain_b r =? dom_a) || (domain_b r =? dom_b) in
        if negb (nests (topic_name_a r) prefix) || negb shares_domain then
          prefix_rule_scan prefix dom_a dom_b ipc_ns same rest
        else if (String.length (topic_name_a r) =? String.length prefix)%nat then
          if (domain_a r =? dom_a) && (domain_b r =? dom_b) then
            prefix_rule_scan prefix dom_a dom_b ipc_ns (Some r) rest
          else None
        else None
      else if (((domain_a r =? dom_a) || (domain_a r =? dom_b)) &&
                 String.prefix prefix (topic_name_a r)) ||
              (((domain_b r =? dom_a) || (domain_b r =? dom_b)) &&
                 String.prefix prefix (topic_name_b r))
      then None
      else prefix_rule_scan prefix dom_a dom_b ipc_ns same rest
  end.

Definition add_prefix_domain_rule `{KernelHash} (al : alloc) (fresh : Z)
    (rules : list domain_bridge_rule) (topics : list topic_wrapper) (prefix : string)
    (from_domain to_domain ipc_ns : Z) : list domain_bridge_rule * res unit :=
  let dom_a := Z.min from_domain to_domain in
  let dom_b := Z.max from_domain to_domain in
  let from_is_a := from_domain <? to_domain in
  unwrap scanned := prefix_rule_scan prefix dom_a dom_b ipc_ns None rules
    orelse (rules, Err EBUSY);
  match scanned with
  | Some same =>
      require negb (direction_enabled from_is_a same) orelse (rules, Ok tt);
      require negb (any_topic_under_prefix topics prefix ipc_ns from_domain to_domain)
        orelse (rules, Err EBUSY);
      (hash_upd (fun r => rule_addr r =? rule_addr same) (enable_direction from_is_a) rules,
       Ok tt)
  | None =>
      require negb (any_topic_under_prefix topics prefix ipc_ns from_domain to_domain)
        orelse (rules, Err EBUSY);
      insert_domain_rule al fresh rules prefix prefix from_domain to_domain true ipc_ns
  end.

Definition agnocast_ioctl_add_domain_bridge `{KernelHash} (al : alloc) (fresh : Z)
    (rules : list domain_bridge_rule) (topics : list topic_wrapper)
    (topic_name_from topic_name_to : string) (from_domain to_domain ipc_ns : Z)
    : list domain_bridge_rule * res unit :=
  require negb (from_domain =? to_domain) orelse (rules, Err EINVAL);
  add_domain_rule al fresh rules topics topic_name_from topic_name_to from_domain to_domain ipc_ns.

(** [topic_name_prefix[0] != '/' || topic_name_prefix[1] == '\0'] is -EINVAL. *)
Definition valid_prefix (s : string) : bool :=
  match s with
  | String "/"%char (String _ _) => true
  | _ => false
  end.

Definition agnocast_ioctl_add_domain_bridge_prefix `{KernelHash} (al : alloc) (fresh : Z)
    (rules : list domain_bridge_rule) (topics : list topic_wrapper) (topic_name_prefix : string)
    (from_domain to_domain ipc_ns : Z) : list domain_bridge_rule * res unit :=
  require negb (from_domain =? to_domain) orelse (rules, Err EINVAL);
  require valid_prefix topic_name_prefix orelse (rules, Err EINVAL);
  add_prefix_domain_rule al fresh rules topics topic_name_prefix from_domain to_domain ipc_ns.

(** ** Specification *)

Record rule_wf (r : domain_bridge_rule) : Prop := {
  wf_domains_lt : domain_a r < domain_b r;
  wf_prefix_names : is_prefix r = true -> topic_name_a r = topic_name_b r;
  wf_some_direction : a_to_b r || b_to_a r = true
}.

(** Each cell belongs to at most one rule. *)
Definition cells_unique (rules : list domain_bridge_rule) : Prop :=
  forall n ns d r1 r2, r1 ∈ rules -> r2 ∈ rules ->
    rule_covers n ns d r1 = true -> rule_covers n ns d r2 = true -> r1 = r2.

Record rules_wf (rules : list domain_bridge_rule) : Prop := {
  wf_rules : Forall rule_wf rules;
  wf_rule_addrs : NoDup (rule_addr <$> rules);
  wf_cells : cells_unique rules
}.

(** The cell paired with a cell by a rule. *)
Definition partner_cell (r : domain_bridge_rule) (n : string) (d : Z) : string * Z :=
  if d =? domain_a r
  then (if is_prefix r then n else topic_name_b r, domain_b r)
  else (if is_prefix r then n else topic_name_a r, domain_a r).

(** ** Lemmas: strings *)

Lemma prefix_nil s : String.prefix "" s = true.
Proof. by destruct s. Qed.

Lemma prefix_cons a s b s' :
  String.prefix (String a s) (String b s') = true <-> a = b /\ String.prefix s s' = true.
Proof. simpl. destruct (Ascii.ascii_dec a b); split; naive_solver. Qed.

(** Two prefixes of one string are nested. *)
Lemma prefix_nested p q s :
  String.prefix p s = true -> String.prefix q s = true ->
  (String.length p <= String.length q)%nat -> String.prefix p q = true.
Proof.
  revert q s. induction p as [|a p IH]; intros q s Hp Hq Hl; [by apply prefix_nil|].
  destruct s as [|b s]; [done|]. apply prefix_cons in Hp as [-> Hp].
  destruct q as [|c q]; simpl in Hl; [lia|].
  apply prefix_cons in Hq as [-> Hq]. apply prefix_cons. split; [done|].
  eapply IH; [done|done|lia].
Qed.

Lemma prefix_refl s : String.prefix s s = true.
Proof. induction s as [|a s IH]; [done|]. by apply prefix_cons. Qed.

Lemma prefix_same_length p s :
  String.prefix p s = true -> String.length p = String.length s -> p = s.
Proof.
  revert s. induction p as [|a p IH]; intros [|b s] Hp Hl; try done.
  apply prefix_cons in Hp as [-> Hp]. f_equal. apply IH; [done|]. by injection Hl.
Qed.

Lemma nests_of_common p q s :
  String.prefix p s = true -> String.prefix q s = true -> nests p q = true.
Proof.
  intros Hp Hq. unfold nests. destruct (Nat.leb_spec (String.length p) (String.length q)).
  - by eapply prefix_nested.
  - eapply prefix_nested; [done..|lia].
Qed.

(** ** Lemmas: rules *)

Section rule_facts.
Context `{KernelHash}.

Lemma find_domain_rule_Some rules n ns d r :
  find_domain_rule rules n ns d = Some r -> r ∈ rules /\ rule_covers n ns d r = true.
Proof. apply find_Some_inv. Qed.

Lemma find_domain_rule_None rules n ns d r :
  find_domain_rule rules n ns d = None -> r ∈ rules -> rule_covers n ns d r = false.
Proof. apply find_None_inv. Qed.

(** The rule found is the only one covering the cell. *)
Lemma find_domain_rule_unique rules n ns d r :
  cells_unique rules -> r ∈ rules -> rule_covers n ns d r = true ->
  find_domain_rule rules n ns d = Some r.
Proof.
  intros Hu Hr Hc. destruct (find_is_Some _ _ _ Hr Hc) as [r' Hr'].
  unfold find_domain_rule. rw Hr'. f_equal.
  apply find_Some_inv in Hr' as [Hin' Hc']. by eapply (Hu n ns d).
Qed.

Lemma rule_covers_directions n ns d r ab ba :
  rule_covers n ns d (set_directions ab ba r) = rule_covers n ns d r.
Proof. done. Qed.

Lemma rule_covers_enable n ns d b r :
  rule_covers n ns d (enable_direction b r) = rule_covers n ns d r.
Proof. by destruct b. Qed.

Lemma rule_addr_enable b r : rule_addr (enable_direction b r) = rule_addr r.
Proof. by destruct b. Qed.

Lemma enable_direction_wf b r : rule_wf r -> rule_wf (enable_direction b r).
Proof. intros [H1 H2 H3]. destruct b; split; simpl; try done. apply orb_true_r. Qed.

Lemma rule_addr_inj rules r1 r2 :
  NoDup (rule_addr <$> rules) -> r1 ∈ rules -> r2 ∈ rules ->
  rule_addr r1 = rule_addr r2 -> r1 = r2.
Proof.
  intros Hd H1 H2 Heq.
  pose proof (find_key_unique rule_addr r1 rules Hd H1) as F1.
  pose proof (find_key_unique rule_addr r2 rules Hd H2) as F2.
  rw Heq in F1. congruence.
Qed.

Lemma rule_at_Some rules a r :
  NoDup (rule_addr <$> rules) -> rule_at rules (Some a) = Some r <-> r ∈ rules /\ rule_addr r = a.
Proof.
  intros Hd. simpl. split.
  - intros [? ?%Z.eqb_eq]%find_Some_inv. done.
  - intros [Hin <-]. rw -(find_key_unique rule_addr r rules Hd Hin).
    apply find_ext. intros x _. destruct (Z.eqb_spec (rule_addr x) (rule_addr r));
      [by rw bool_decide_true|by rw bool_decide_false].
Qed.

(** A rule enabling a direction of one rule keeps the table well formed. *)
Lemma rules_wf_enable rules a b :
  rules_wf rules -> rules_wf (hash_upd (fun r => rule_addr r =? a) (enable_direction b) rules).
Proof.
  intros [Hw Hd Hc].
  assert (forall r, r ∈ hash_upd (fun r => rule_addr r =? a) (enable_direction b) rules ->
    exists r0, r0 ∈ rules /\ rule_addr r0 = rule_addr r /\
      (forall n ns d, rule_covers n ns d r = rule_covers n ns d r0) /\ (rule_wf r0 -> rule_wf r))
    as Hin.
  { intros r [Hr|(r0 & Hr0 & _ & ->)]%elem_of_hash_upd; [by exists r|].
    exists r0. split_and!; [done|by rw rule_addr_enable|intros; apply rule_covers_enable|].
    apply enable_direction_wf. }
  assert (NoDup (rule_addr <$> hash_upd (fun r => rule_addr r =? a) (enable_direction b) rules))
    as Hd'.
  { rw fmap_hash_upd //. intros; apply rule_addr_enable. }
  split; [|done|].
  - apply Forall_forall. intros r Hr. destruct (Hin r Hr) as (r0 & Hr0 & _ & _ & Hwf).
    apply Hwf. by eapply Forall_forall in Hw.
  - intros n ns d r1 r2 H1 H2 C1 C2.
    destruct (Hin r1 H1) as (r01 & Hr1 & A1 & E1 & _).
    destruct (Hin r2 H2) as (r02 & Hr2 & A2 & E2 & _).
    assert (r01 = r02) as -> by (eapply (Hc n ns d); [done..|by rw -E1|by rw -E2]).
    eapply rule_addr_inj; [exact Hd'|done|done|congruence].
Qed.

(** Inserting a rule none of whose cells is covered keeps the table well formed. *)
Lemma rules_wf_insert rules r :
  rules_wf rules -> rule_wf r -> rule_addr r ∉ rule_addr <$> rules ->
  (forall n ns d r', r' ∈ rules -> rule_covers n ns d r = true -> rule_covers n ns d r' = false) ->
  rules_wf (hash_add rule_bucket r rules).
Proof.
  intros [Hw Hd Hc] Hr Ha Hn. split.
  - rw hash_add_perm. by constructor.
  - by apply NoDup_fmap_hash_add.
  - intros n ns d r1 r2 [->|H1]%elem_of_hash_add [->|H2]%elem_of_hash_add C1 C2; [done| | |].
    + rw (Hn n ns d r2 H2 C1) in C2. done.
    + rw (Hn n ns d r1 H1 C2) in C1. done.
    + by eapply (Hc n ns d).
Qed.

(** What the scan of [add_prefix_domain_rule] established about the rules it passed. *)
Lemma prefix_rule_scan_spec prefix da db ns same rules res :
  prefix_rule_scan prefix da db ns same rules = Some res ->
  (res = same \/ exists r, res = Some r /\ r ∈ rules /\ is_prefix r = true /\ rule_ipc_ns r = ns /\
     topic_name_a r = prefix /\ domain_a r = da /\ domain_b r = db) /\
  (res = None -> forall r n d, r ∈ rules -> String.prefix prefix n = true -> d = da \/ d = db ->
     rule_wf r -> rule_covers n ns d r = false).
Proof.
  revert same res. induction rules as [|r rules IH]; intros same res; simpl.
  { intros [= <-]. split; [by left|]. set_solver. }
  destruct (Z.eqb_spec ns (rule_ipc_ns r)) as [Hns|Hns]; simpl.
  2: { intros Hs. destruct (IH _ _ Hs) as [IH1 IH2]. split; [set_solver|].
    intros Hres r' n d [->|Hr']%elem_of_cons Hp Hd Hw; [|by eapply IH2].
    unfold rule_covers. by rw (proj2 (Z.eqb_neq _ _) Hns). }
  destruct (is_prefix r) eqn:Epfx.
  - case_match eqn:E1.
    + intros Hs. destruct (IH _ _ Hs) as [IH1 IH2]. split; [set_solver|].
      intros Hres r' n d [->|Hr']%elem_of_cons Hp Hd Hw; [|by eapply IH2].
      unfold rule_covers. rw Epfx. apply not_true_is_false. intros Hc. bool_to_prop.
      destruct E1 as [E1|E1]; bool_to_prop.
      * rw (nests_of_common _ _ n) in E1; done.
      * destruct Hd as [-> | ->]; match goal with H : _ \/ _ |- _ => destruct H end;
          bool_to_prop; congruence.
    + case_match eqn:E2; [|done]. case_match eqn:E3; [|done].
      intros Hs. destruct (IH _ _ Hs) as [IH1 IH2]. bool_to_prop. apply Nat.eqb_eq in E2.
      assert (topic_name_a r = prefix) as Hname.
      { match goal with H : nests _ _ = true |- _ => rename H into Hn end. unfold nests in Hn.
        destruct (Nat.leb_spec (String.length (topic_name_a r)) (String.length prefix));
          [by apply prefix_same_length|].
        symmetry. apply prefix_same_length; [done|by symmetry]. }
      split.
      * right. destruct IH1 as [->|(r' & ? & ? & ?)]; [|naive_solver (set_solver)].
        exists r. split_and!; try done; set_solver.
      * intros Hres. exfalso. destruct IH1 as [->|(r' & ? & ? & ?)]; congruence.
  - case_match eqn:E1; [done|]. intros Hs. destruct (IH _ _ Hs) as [IH1 IH2]. split; [set_solver|].
    intros Hres r' n d [->|Hr']%elem_of_cons Hp Hd Hw; [|by eapply IH2].
    unfold rule_covers. rw Epfx. apply not_true_is_false. intros Hc. bool_to_prop.
    bool_cases.
Qed.

(** An exact rule covers its two cells only. *)
Lemma exact_rule_cells r n ns d :
  is_prefix r = false -> rule_covers n ns d r = true ->
  ns = rule_ipc_ns r /\
  ((n = topic_name_a r /\ d = domain_a r) \/ (n = topic_name_b r /\ d = domain_b r)).
Proof. unfold rule_covers. intros -> Hc. bool_cases; auto. Qed.

Lemma prefix_rule_cells r n ns d :
  is_prefix r = true -> rule_covers n ns d r = true ->
  ns = rule_ipc_ns r /\ (d = domain_a r \/ d = domain_b r) /\
  String.prefix (topic_name_a r) n = true.
Proof. unfold rule_covers. intros -> Hc. bool_cases; auto. Qed.

Lemma joined_false topics n1 d1 n2 d2 ns :
  negb (bool_decide (is_Some (find_topic topics n1 ns d1)) ||
        bool_decide (is_Some (find_topic topics n2 ns d2))) = true ->
  forall w, w ∈ topics -> wrapper_ipc_ns w = ns ->
    ~ (key w = n1 /\ wrapper_domain_id w = d1) /\ ~ (key w = n2 /\ wrapper_domain_id w = d2).
Proof.
  intros Hj w Hw Hns.
  assert (forall n d, ~ is_Some (find_topic topics n ns d) ->
    ~ (key w = n /\ wrapper_domain_id w = d)) as Hno.
  { intros n d Hb [<- <-]. apply Hb. rw find_topic_eq.
    eapply find_is_Some; [done|]. unfold same_cell. rw Hns !Z.eqb_refl String.eqb_refl. done. }
  bool_to_prop. split; by apply Hno.
Qed.

Lemma not_under_prefix topics prefix ns d1 d2 w :
  any_topic_under_prefix topics prefix ns d1 d2 = false -> w ∈ topics ->
  wrapper_ipc_ns w = ns -> wrapper_domain_id w = d1 \/ wrapper_domain_id w = d2 ->
  String.prefix prefix (key w) = false.
Proof.
  intros Ha Hw Hns Hd. apply not_true_is_false. intros Hp.
  apply not_true_iff_false in Ha. apply Ha. apply existsb_exists. exists w.
  rw -list_elem_of_In. split; [done|]. rw Hns Z.eqb_refl Hp.
  destruct Hd as [-> | ->]; rw Z.eqb_refl; [done|by rw orb_true_r].
Qed.

(** The rule [insert_domain_rule] builds. *)
Definition new_rule (fresh : Z) (n_from n_to : string) (from to ns : Z) (prefix : bool)
    : domain_bridge_rule :=
  if from <? to then DomainBridgeRule fresh n_from n_to ns from to true false prefix
  else DomainBridgeRule fresh n_to n_from ns to from false true prefix.

Lemma insert_domain_rule_eq al fresh rules n_from n_to from to prefix ns :
  insert_domain_rule al fresh rules n_from n_to from to prefix ns =
  if al 0%nat && (al 1%nat && al 2%nat)
  then (hash_add rule_bucket (new_rule fresh n_from n_to from to ns prefix) rules, Ok tt)
  else (rules, Err ENOMEM).
Proof.
  unfold insert_domain_rule, new_rule. destruct (al 0%nat); simpl; [|done].
  destruct (al 1%nat && al 2%nat); [|done]. by destruct (from <? to).
Qed.

Lemma new_rule_wf fresh n_from n_to from to ns prefix :
  from <> to -> (prefix = true -> n_from = n_to) ->
  rule_wf (new_rule fresh n_from n_to from to ns prefix).
Proof.
  intros Hne Hp. unfold new_rule. destruct (Z.ltb_spec from to); split; simpl; try done;
    try lia; intros; symmetry; auto.
Qed.

Lemma new_rule_addr fresh n_from n_to from to ns prefix :
  rule_addr (new_rule fresh n_from n_to from to ns prefix) = fresh.
Proof. unfold new_rule. by destruct (from <? to). Qed.

Lemma new_rule_covers_exact fresh n_from n_to from to ns n ns' d :
  rule_covers n ns' d (new_rule fresh n_from n_to from to ns false) = true ->
  ns' = ns /\ ((n = n_from /\ d = from) \/ (n = n_to /\ d = to)).
Proof.
  intros Hc. apply exact_rule_cells in Hc as [-> Hc].
  - unfold new_rule in *. destruct (from <? to); simpl in *; tauto.
  - unfold new_rule. by destruct (from <? to).
Qed.

Lemma new_rule_covers_prefix fresh p from to ns n ns' d :
  rule_covers n ns' d (new_rule fresh p p from to ns true) = true ->
  ns' = ns /\ (d = from \/ d = to) /\ String.prefix p n = true.
Proof.
  intros Hc. apply prefix_rule_cells in Hc as [-> Hc].
  - unfold new_rule in *. destruct (from <? to); simpl in *; tauto.
  - unfold new_rule. by destruct (from <? to).
Qed.
End rule_facts.

(** ** Adding rules never touches a joined cell *)

(** What every rule-table operation guarantees to the topics that exist. *)
Record rules_extend (topics : list topic_wrapper) (fresh : Z)
    (rules rules' : list domain_bridge_rule) : Prop := {
  ext_wf : rules_wf rules';
  ext_cells : forall w, w ∈ topics ->
    find_domain_rule rules' (key w) (wrapper_ipc_ns w) (wrapper_domain_id w) =
    find_domain_rule rules (key w) (wrapper_ipc_ns w) (wrapper_domain_id w);
  ext_addrs : forall r', r' ∈ rules' -> rule_addr r' = fresh \/ rule_addr r' ∈ rule_addr <$> rules
}.

Section rule_operations.
Context `{KernelHash}.

Lemma rules_extend_refl topics fresh rules :
  rules_wf rules -> rules_extend topics fresh rules rules.
Proof. intros Hwf. split; [done|done|]. intros r' Hr'. right. by apply list_elem_of_fmap_2. Qed.

Lemma rules_extend_insert topics fresh rules r :
  rules_wf rules -> rule_wf r -> rule_addr r = fresh -> fresh ∉ rule_addr <$> rules ->
  (forall n ns d r', r' ∈ rules -> rule_covers n ns d r = true -> rule_covers n ns d r' = false) ->
  (forall w, w ∈ topics ->
     rule_covers (key w) (wrapper_ipc_ns w) (wrapper_domain_id w) r = false) ->
  rules_extend topics fresh rules (hash_add rule_bucket r rules).
Proof.
  intros Hwf Hr Ha Hf Hdis Hno. split.
  - apply rules_wf_insert; [done|done|by rw Ha|done].
  - intros w Hw. apply find_hash_add_other. by apply Hno.
  - intros r' [->|Hr']%elem_of_hash_add; [by left|right]. by apply list_elem_of_fmap_2.
Qed.

Lemma rules_extend_enable topics fresh rules r0 b :
  rules_wf rules -> r0 ∈ rules ->
  (forall w, w ∈ topics ->
     rule_covers (key w) (wrapper_ipc_ns w) (wrapper_domain_id w) r0 = false) ->
  rules_extend topics fresh rules
    (hash_upd (fun r => rule_addr r =? rule_addr r0) (enable_direction b) rules).
Proof.
  intros Hwf H0 Hno. pose proof (wf_rule_addrs _ Hwf) as Hd. split.
  - by apply rules_wf_enable.
  - intros w Hw. unfold find_domain_rule.
    assert (forall r, r ∈ rules -> rule_addr r = rule_addr r0 -> r = r0) as Hr0.
    { intros r Hr Heq. by eapply rule_addr_inj. }
    specialize (Hno w Hw). clear Hw Hwf Hd. revert Hr0.
    induction rules as [|r rules IH]; intros Hr0; [done|]. simpl.
    destruct (Z.eqb_spec (rule_addr r) (rule_addr r0)) as [Heq|Hne]; simpl.
    + rw rule_covers_enable. rw (Hr0 r ltac:(set_solver) Heq) Hno. done.
    + case_match; [done|]. apply IH; [set_solver|]. intros r' Hr'. apply Hr0. set_solver.
  - intros r' Hr'. right.
    rw -(fmap_hash_upd rule_addr (fun r => rule_addr r =? rule_addr r0) (enable_direction b) rules).
    + by apply list_elem_of_fmap_2.
    + intros; apply rule_addr_enable.
Qed.

(** The exact rule covering both cells of a declaration covers nothing else. *)
Lemma exact_rule_is_pair rules r n1 d1 n2 d2 ns n d :
  rules_wf rules -> r ∈ rules -> is_prefix r = false -> d1 <> d2 ->
  rule_covers n1 ns d1 r = true -> rule_covers n2 ns d2 r = true -> rule_covers n ns d r = true ->
  (n = n1 /\ d = d1) \/ (n = n2 /\ d = d2).
Proof.
  intros Hwf Hr Hp Hne C1 C2 C.
  pose proof (proj1 (Forall_forall _ _) (wf_rules _ Hwf) r Hr) as [Hlt _ _].
  apply exact_rule_cells in C1 as [_ C1]; [|done].
  apply exact_rule_cells in C2 as [_ C2]; [|done].
  apply exact_rule_cells in C as [_ C]; [|done].
  destruct C1 as [[-> ->]|[-> ->]], C2 as [[-> ->]|[-> ->]], C as [[-> ->]|[-> ->]]; auto; lia.
Qed.

Lemma add_domain_rule_extends al fresh rules topics n_from n_to from to ns :
  rules_wf rules -> fresh ∉ rule_addr <$> rules -> from <> to ->
  rules_extend topics fresh rules
    (add_domain_rule al fresh rules topics n_from n_to from to ns).1.
Proof.
  intros Hwf Hf Hne. unfold add_domain_rule.
  destruct (find_domain_rule rules n_from ns from) as [r1|] eqn:E1,
    (find_domain_rule rules n_to ns to) as [r2|] eqn:E2; try by apply rules_extend_refl.
  - destruct (Z.eqb_spec (rule_addr r1) (rule_addr r2)) as [Heq|?]; [|by apply rules_extend_refl].
    apply find_domain_rule_Some in E1 as [Hr1 C1]. apply find_domain_rule_Some in E2 as [Hr2 C2].
    assert (r1 = r2) as <- by (eapply rule_addr_inj; eauto using wf_rule_addrs).
    destruct (is_prefix r1) eqn:Ep; simpl; [by apply rules_extend_refl|].
    case_match; [|by apply rules_extend_refl].
    case_match eqn:Ej; [|by apply rules_extend_refl].
    apply rules_extend_enable; [done|done|]. intros w Hw. apply not_true_is_false. intros C.
    pose proof C as C'. apply exact_rule_cells in C' as [Hns _]; [|done].
    apply exact_rule_cells in C1 as Hns1; [|done]. destruct Hns1 as [Hns1 _].
    pose proof (joined_false _ _ _ _ _ _ Ej w Hw ltac:(congruence)) as [J1 J2].
    rw Hns -Hns1 in C.
    destruct (exact_rule_is_pair rules r1 n_from from n_to to ns _ _ Hwf Hr1 Ep Hne C1 C2 C);
      tauto.
  - case_match eqn:Ej; [|by apply rules_extend_refl].
    rw insert_domain_rule_eq. case_match; [|by apply rules_extend_refl].
    apply rules_extend_insert; [done|by apply new_rule_wf|apply new_rule_addr|done| |].
    + intros n ns' d r' Hr' C. apply new_rule_covers_exact in C as [-> [[-> ->]|[-> ->]]];
        by eapply find_domain_rule_None.
    + intros w Hw. apply not_true_is_false. intros C.
      apply new_rule_covers_exact in C as [Hns C].
      pose proof (joined_false _ _ _ _ _ _ Ej w Hw Hns). tauto.
Qed.

Lemma add_prefix_domain_rule_extends al fresh rules topics prefix from to ns :
  rules_wf rules -> fresh ∉ rule_addr <$> rules -> from <> to ->
  rules_extend topics fresh rules
    (add_prefix_domain_rule al fresh rules topics prefix from to ns).1.
Proof.
  intros Hwf Hf Hne. unfold add_prefix_domain_rule.
  destruct (prefix_rule_scan _ _ _ _ _ _) as [scanned|] eqn:Es; [|by apply rules_extend_refl].
  destruct (prefix_rule_scan_spec _ _ _ _ _ _ _ Es) as [Hsame Hnone].
  assert (forall d, d = from \/ d = to <-> d = Z.min from to \/ d = Z.max from to) as Hdom
    by (intros; lia).
  destruct scanned as [r|].
  - destruct Hsame as [?|(r' & [= <-] & Hr & Hp & Hns & Hname & Ha & Hb)]; [done|].
    case_match; [|by apply rules_extend_refl].
    case_match eqn:Eu; [|by apply rules_extend_refl].
    apply rules_extend_enable; [done|done|]. intros w Hw. apply not_true_is_false. intros C.
    apply prefix_rule_cells in C as (Hns' & Hd & Hpre); [|done].
    bool_to_prop. rw Hname in Hpre.
    rw (not_under_prefix topics prefix ns from to w) in Hpre; [done|done|done|congruence|].
    apply Hdom. by rw -Ha -Hb.
  - case_match eqn:Eu; [|by apply rules_extend_refl].
    rw insert_domain_rule_eq. case_match; [|by apply rules_extend_refl].
    apply rules_extend_insert; [done|by apply new_rule_wf|apply new_rule_addr|done| |].
    + intros n ns' d r' Hr' C. apply new_rule_covers_prefix in C as (-> & Hd & Hpre).
      eapply Hnone; [done|done|done|by apply Hdom|].
      by eapply Forall_forall in Hr'; [|apply (wf_rules _ Hwf)].
    + intros w Hw. apply not_true_is_false. intros C.
      apply new_rule_covers_prefix in C as (Hns & Hd & Hpre). bool_to_prop.
      rw (not_under_prefix topics prefix ns from to w) in Hpre; done.
Qed.
End rule_operations.

(** ** Registration is effective and idempotent *)

Section rule_registration.
Context `{KernelHash}.

Lemma exact_rule_partner rules r n1 d1 n2 d2 ns :
  rules_wf rules -> r ∈ rules -> is_prefix r = false -> d1 <> d2 ->
  rule_covers n1 ns d1 r = true -> rule_covers n2 ns d2 r = true ->
  partner_cell r n1 d1 = (n2, d2).
Proof.
  intros Hwf Hr Hp Hne C1 C2.
  pose proof (proj1 (Forall_forall _ _) (wf_rules _ Hwf) r Hr) as [Hlt _ _].
  apply exact_rule_cells in C1 as [_ C1]; [|done].
  apply exact_rule_cells in C2 as [_ C2]; [|done]. unfold partner_cell. rw Hp.
  destruct C1 as [[-> ->]|[-> ->]], C2 as [[-> ->]|[-> ->]]; try lia.
  - by rw Z.eqb_refl.
  - rw (proj2 (Z.eqb_neq _ _)); [done|lia].
Qed.

(** A declaration whose direction an exact rule already enables changes nothing. *)
Lemma add_domain_rule_enabled al fresh rules topics n_from n_to from to ns r :
  find_domain_rule rules n_from ns from = Some r -> find_domain_rule rules n_to ns to = Some r ->
  is_prefix r = false -> direction_enabled (from <? to) r = true ->
  add_domain_rule al fresh rules topics n_from n_to from to ns = (rules, Ok tt).
Proof. intros E1 E2 Hp Hd. unfold add_domain_rule. by rw E1 E2 Z.eqb_refl Hp Hd. Qed.

(** What a rule table must hold for a declaration to be in force. *)
Definition declared (rules : list domain_bridge_rule) (n_from n_to : string) (from to ns : Z)
    (r : domain_bridge_rule) : Prop :=
  find_domain_rule rules n_from ns from = Some r /\ find_domain_rule rules n_to ns to = Some r /\
  is_prefix r = false /\ direction_enabled (from <? to) r = true.

Lemma new_rule_declared fresh rules n_from n_to from to ns :
  rules_wf (hash_add rule_bucket (new_rule fresh n_from n_to from to ns false) rules) ->
  declared (hash_add rule_bucket (new_rule fresh n_from n_to from to ns false) rules)
    n_from n_to from to ns (new_rule fresh n_from n_to from to ns false).
Proof.
  intros [_ _ Hc]. set (r := new_rule fresh n_from n_to from to ns false) in *.
  assert (r ∈ hash_add rule_bucket r rules) as Hr by (apply elem_of_hash_add; by left).
  split_and!.
  - apply find_domain_rule_unique; [done..|]. unfold r, new_rule, rule_covers.
    destruct (from <? to); simpl; rw !Z.eqb_refl String.eqb_refl; simpl; by rw ?orb_true_r.
  - apply find_domain_rule_unique; [done..|]. unfold r, new_rule, rule_covers.
    destruct (from <? to); simpl; rw !Z.eqb_refl String.eqb_refl; simpl; by rw ?orb_true_r.
  - unfold r, new_rule. by destruct (from <? to).
  - unfold r, new_rule, direction_enabled. by destruct (from <? to).
Qed.

Lemma find_domain_rule_upd rules n ns d r b :
  NoDup (rule_addr <$> rules) -> find_domain_rule rules n ns d = Some r ->
  find_domain_rule (hash_upd (fun r' => rule_addr r' =? rule_addr r) (enable_direction b) rules)
    n ns d = Some (enable_direction b r).
Proof.
  intros Hd. unfold find_domain_rule.
  induction rules as [|x rules IH]; simpl; [done|]. apply NoDup_cons in Hd as [Hx Hd].
  destruct (rule_covers n ns d x) eqn:C.
  - intros [= ->]. rw Z.eqb_refl. simpl. by rw rule_covers_enable C.
  - intros Hf. destruct (Z.eqb_spec (rule_addr x) (rule_addr r)) as [Heq|Hne]; simpl.
    + exfalso. apply Hx. rw Heq. apply list_elem_of_fmap_2. by apply find_Some_inv in Hf as [? _].
    + rw C. by apply IH.
Qed.
End rule_registration.

(** ** Theorems *)

(** Registering a domain bridge rule, exact or prefix, keeps every (name, domain) cell in at
    most one rule, and never changes the rule of a topic that already exists, whether the
    registration succeeds or is rejected; a rejected one leaves the table as it was. *)
Theorem domain_rules_keep_joined_topics `{KernelHash} al fresh rules topics n_from n_to p from to ns :
  rules_wf rules -> fresh ∉ rule_addr <$> rules ->
  let exact := agnocast_ioctl_add_domain_bridge al fresh rules topics n_from n_to from to ns in
  let prefix := agnocast_ioctl_add_domain_bridge_prefix al fresh rules topics p from to ns in
  rules_extend topics fresh rules exact.1 /\ rules_extend topics fresh rules prefix.1 /\
  (exact.2 <> Ok tt -> exact.1 = rules) /\ (prefix.2 <> Ok tt -> prefix.1 = rules).
Proof.
  intros Hwf Hf. cbv zeta. unfold agnocast_ioctl_add_domain_bridge,
    agnocast_ioctl_add_domain_bridge_prefix.
  destruct (Z.eqb_spec from to) as [?|Hne]; simpl.
  { split_and!; [by apply rules_extend_refl|by apply rules_extend_refl|done|done]. }
  split_and!.
  - by apply add_domain_rule_extends.
  - case_match; [by apply add_prefix_domain_rule_extends|by apply rules_extend_refl].
  - unfold add_domain_rule. rw insert_domain_rule_eq.
    repeat (case_match; try done).
  - unfold add_prefix_domain_rule. rw insert_domain_rule_eq.
    repeat (case_match; try done).
Qed.

Lemma domain_rules_keep_joined_topics_witness :
  let rules := [DomainBridgeRule 1 "/a" "/a" 7 0 1 true false false] in
  let topics := [TopicWrapper 7 0 "/a" 100] in
  (* The reverse direction is rejected: "/a" has an endpoint in domain 0. *)
  rules_extend topics 2 rules
    (@agnocast_ioctl_add_domain_bridge length_hash (fun _ => true) 2 rules topics "/a" "/a" 1 0 7).1 /\
  (@agnocast_ioctl_add_domain_bridge length_hash (fun _ => true) 2 rules topics "/a" "/a" 1 0 7).2
    = Err EBUSY.
Proof.
  intros rules topics. split; [|reflexivity].
  apply (@domain_rules_keep_joined_topics length_hash (fun _ => true) 2 rules topics
    "/a" "/a" "/a" 1 0 7).
  - split.
    + repeat constructor.
    + apply NoDup_singleton.
    + intros n ns d r1 r2 H1%list_elem_of_singleton H2%list_elem_of_singleton _ _. congruence.
  - set_solver.
Defined.

(** A successful exact registration takes effect: both cells are now covered by one rule that
    pairs them and enables the declared direction, and repeating the registration succeeds and
    changes nothing, whatever endpoints have joined since. *)
Theorem add_domain_bridge_effective `{KernelHash} al fresh rules topics n_from n_to from to ns rules' :
  rules_wf rules -> fresh ∉ rule_addr <$> rules ->
  agnocast_ioctl_add_domain_bridge al fresh rules topics n_from n_to from to ns = (rules', Ok tt) ->
  (exists r, find_domain_rule rules' n_from ns from = Some r /\
     partner_cell r n_from from = (n_to, to) /\ partner_cell r n_to to = (n_from, from) /\
     direction_enabled (from <? to) r = true) /\
  forall al' fresh' topics',
    agnocast_ioctl_add_domain_bridge al' fresh' rules' topics' n_from n_to from to ns
    = (rules', Ok tt).
Proof.
  intros Hwf Hf. unfold agnocast_ioctl_add_domain_bridge.
  destruct (Z.eqb_spec from to) as [?|Hne]; simpl; [done|]. intros Hadd.
  pose proof (add_domain_rule_extends al fresh rules topics n_from n_to from to ns Hwf Hf Hne)
    as [Hwf' _ _]. rw Hadd in Hwf'. simpl in Hwf'.
  assert (exists r, declared rules' n_from n_to from to ns r) as (r & D1 & D2 & Dp & Dd).
  { unfold add_domain_rule in Hadd.
    destruct (find_domain_rule rules n_from ns from) as [r1|] eqn:E1,
      (find_domain_rule rules n_to ns to) as [r2|] eqn:E2; try done.
    - destruct (Z.eqb_spec (rule_addr r1) (rule_addr r2)) as [Heq|?]; [|done].
      pose proof (find_domain_rule_Some _ _ _ _ _ E1) as [Hr1 _].
      pose proof (find_domain_rule_Some _ _ _ _ _ E2) as [Hr2 _].
      assert (r1 = r2) as <- by (by eapply (rule_addr_inj rules); [apply (wf_rule_addrs _ Hwf)|..]).
      destruct (is_prefix r1) eqn:Ep; simpl in Hadd; [done|].
      destruct (direction_enabled (from <? to) r1) eqn:Ed; simpl in Hadd;
        [injection Hadd as <-; by exists r1|].
      case_match; [|done]. injection Hadd as <-.
      exists (enable_direction (from <? to) r1).
      pose proof (wf_rule_addrs _ Hwf). split_and!.
      + by apply find_domain_rule_upd.
      + by apply find_domain_rule_upd.
      + by destruct (from <? to).
      + unfold direction_enabled. destruct (from <? to); simpl; [done|]. by rw ?orb_true_r.
    - case_match; [|done]. rw insert_domain_rule_eq in Hadd. case_match; [|done].
      injection Hadd as <-. eexists. by apply new_rule_declared. }
  split.
  - exists r. pose proof (find_domain_rule_Some _ _ _ _ _ D1) as [Hr C1].
    pose proof (find_domain_rule_Some _ _ _ _ _ D2) as [_ C2].
    split_and!; [done| | |done]; eapply exact_rule_partner; eauto.
  - intros al' fresh' topics'. by eapply add_domain_rule_enabled.
Qed.

Lemma add_domain_bridge_effective_witness :
  exists r, find_domain_rule [DomainBridgeRule 2 "/b" "/a" 7 0 1 false true false] "/a" 7 1 = Some r /\
    partner_cell r "/a" 1 = ("/b"%string, 0).
Proof.
  destruct (@add_domain_bridge_effective length_hash (fun _ => true) 2 [] [] "/a" "/b" 1 0 7
    [DomainBridgeRule 2 "/b" "/a" 7 0 1 false true false]) as [(r & H1 & H2 & _) _].
  - split; [constructor|constructor|intros n ns d r1 r2 H1; set_solver].
  - set_solver.
  - reflexivity.
  - exists r. split; assumption.
Defined.
