(* ===== verification/KTopic.v ===== *)
(** * Kernel module: the endpoints of a topic

    Model of the functions of agnocast_kmod/agnocast_ioctl.c that register publishers and
    subscribers in one [topic_struct] and keep each publisher's list of eventfd contexts to
    signal: [insert_subscriber_info], [insert_publisher_info], [reserve_notify_ctxs],
    [rebuild_notify_list] and [agnocast_unlink_subscriber_info]. *)

From S2P Require Import Prelude Kernel KMempool KTypes KRules.

(** ** Notify lists *)

(** [hash_for_each ... if (sub_info->notify_ctx) num++;] *)
Definition notifiable_subscriber_num (t : topic_struct) : Z :=
  Z.of_nat (length (filter (fun s => is_Some (notify_ctx s)) (sub_info_htable t))).

(** [ok]: whether [kvmalloc_array] succeeds.  [false] is -ENOMEM. *)
Definition reserve_notify_ctxs (ok : bool) (needed : Z) (p : publisher_info)
    : bool * publisher_info :=
  require negb (needed <=? notify_capacity p) orelse (true, p);
  let new_capacity := if notify_capacity p =? 0 then NOTIFY_CTXS_MIN_CAPACITY
                      else u32 (notify_capacity p * 2) in
  let new_capacity := if MAX_SUBSCRIBER_NUM <? new_capacity then MAX_SUBSCRIBER_NUM
                      else new_capacity in
  let new_capacity := if new_capacity <? needed then needed else new_capacity in
  require ok orelse (false, p);
  (true, set_notify (notify_ctxs p) new_capacity p).

(** The [n]-th publisher visited uses the [n]-th allocation. *)
Fixpoint reserve_loop (al : alloc) (needed : Z) (pubs : list publisher_info)
    : bool * list publisher_info :=
  match pubs with
  | [] => (true, [])
  | p :: rest =>
      let '(ok, p') := reserve_notify_ctxs (al 0%nat) needed p in
      require ok orelse (false, p' :: rest);
      let '(ok', rest') := reserve_loop (skip 1 al) needed rest in (ok', p' :: rest')
  end.

Definition reserve_all_notify_ctxs (al : alloc) (needed : Z) (t : topic_struct)
    : bool * topic_struct :=
  let '(ok, pubs) := reserve_loop al needed (pub_info_htable t) in (ok, set_pubs pubs t).

(** The loop of [rebuild_notify_list]; [acc] is the list filled so far. *)
Fixpoint fill_notify_list (rules : list domain_bridge_rule) (t : topic_struct)
    (p : publisher_info) (subs : list subscriber_info) (acc : list Z) : list Z :=
  match subs with
  | [] => acc
  | s :: rest =>
      match notify_ctx s with
      | None => fill_notify_list rules t p rest acc
      | Some ctx =>
          if negb (domain_delivery_allowed rules t (pub_domain_id p) (pub_is_bridge p)
                     (sub_domain_id s) (sub_is_bridge s))
          then fill_notify_list rules t p rest acc
          else if ignore_local_publications s && (sub_pid s =? pub_pid p)
          then fill_notify_list rules t p rest acc
          else if Z.of_nat (length acc) =? notify_capacity p then acc
          else fill_notify_list rules t p rest (acc ++ [ctx])
      end
  end.

Definition rebuild_notify_list (rules : list domain_bridge_rule) (t : topic_struct)
    (p : publisher_info) : publisher_info :=
  set_notify (fill_notify_list rules t p (sub_info_htable t) []) (notify_capacity p) p.

Definition rebuild_all_notify_lists (rules : list domain_bridge_rule) (t : topic_struct)
    : topic_struct :=
  set_pubs (map (rebuild_notify_list rules t) (pub_info_htable t)) t.

(** Returns the topic and the eventfd context [free_subscriber_info] puts, if any. *)
Definition agnocast_unlink_subscriber_info (rules : list domain_bridge_rule) (t : topic_struct)
    (s : subscriber_info) : topic_struct * list Z :=
  let t1 := set_subs (hash_del (fun i => sub_id i =? sub_id s) (sub_info_htable t)) t in
  match notify_ctx s with
  | Some ctx => (rebuild_all_notify_lists rules t1, [ctx])
  | None => (t1, [])
  end.

(** ** Registration *)

(** The arguments of a registration, as the ioctl passes them on. *)
Record sub_args := SubArgs {
  a_sub_node_name : string;
  a_sub_qos_depth : Z;
  a_sub_transient_local : bool;
  a_sub_reliable : bool;
  a_sub_take : bool;
  a_sub_ignore_local : bool;
  a_sub_bridge : bool
}.

Record pub_args := PubArgs {
  a_pub_node_name : string;
  a_pub_qos_depth : Z;
  a_pub_transient_local : bool;
  a_pub_bridge : bool
}.

(** [domain] is [wrapper->domain_id], the domain of the wrapper the endpoint joins through. *)
Definition insert_subscriber_info `{KernelHash} (al : alloc) (rules : list domain_bridge_rule)
    (t : topic_struct) (domain subscriber_pid : Z) (a : sub_args) (ctx : option Z)
    : topic_struct * res subscriber_info :=
  require negb (agnocast_get_size_sub_info_htable t =? MAX_SUBSCRIBER_NUM)
    orelse (t, Err ENOBUFS);
  require negb (MAX_TOPIC_LOCAL_ID <=? current_pubsub_id t) orelse (t, Err ENOSPC);
  require al 0%nat orelse (t, Err ENOMEM);
  require al 1%nat orelse (t, Err ENOMEM);
  let '(reserved, t) :=
    match ctx with
    | Some _ => reserve_all_notify_ctxs (skip 2 al) (u32 (notifiable_subscriber_num t + 1)) t
    | None => (true, t)
    end in
  require reserved orelse (t, Err ENOMEM);
  let new_id := current_pubsub_id t in
  let latest := if a_sub_transient_local a then -1 else current_entry_id t in
  let next_entry_id :=
    if a_sub_transient_local a then current_entry_id t else i64 (current_entry_id t + 1) in
  let t := set_ids (i32 (current_pubsub_id t + 1)) next_entry_id t in
  let info := SubscriberInfo new_id domain subscriber_pid (a_sub_qos_depth a)
    (a_sub_transient_local a) (a_sub_reliable a) latest (a_sub_node_name a) (a_sub_take a)
    (a_sub_ignore_local a) true (a_sub_bridge a) ctx in
  let t := set_subs (hash_add sub_bucket info (sub_info_htable t)) t in
  let t := match ctx with Some _ => rebuild_all_notify_lists rules t | None => t end in
  (t, Ok info).

Definition insert_publisher_info `{KernelHash} (al : alloc) (rules : list domain_bridge_rule)
    (t : topic_struct) (domain publisher_pid : Z) (a : pub_args)
    : topic_struct * res publisher_info :=
  require negb (agnocast_get_size_pub_info_htable t =? MAX_PUBLISHER_NUM)
    orelse (t, Err ENOBUFS);
  require negb (MAX_TOPIC_LOCAL_ID <=? current_pubsub_id t) orelse (t, Err ENOSPC);
  require al 0%nat orelse (t, Err ENOMEM);
  require al 1%nat orelse (t, Err ENOMEM);
  let new_id := current_pubsub_id t in
  let t := set_ids (i32 (current_pubsub_id t + 1)) (current_entry_id t) t in
  let info := PublisherInfo new_id domain publisher_pid (a_pub_node_name a) (a_pub_qos_depth a)
    (a_pub_transient_local a) 0 (a_pub_bridge a) [] 0 in
  let '(reserved, info) := reserve_notify_ctxs (al 2%nat) (notifiable_subscriber_num t) info in
  require reserved orelse (t, Err ENOMEM);
  let info := rebuild_notify_list rules t info in
  (set_pubs (hash_add pub_bucket info (pub_info_htable t)) t, Ok info).

(** The [topic_struct] a new topic starts with; [r] is [find_domain_rule] of its cell. *)
Definition new_topic_struct (r : option Z) : topic_struct := TopicStruct [] [] [] 0 0 0 0 1 r.

(** ** Specification *)

(** The entries a publisher has in the topic. *)
Definition entries_of (id : Z) (l : list entry_node) : list entry_node :=
  filter (fun en => publisher_id en = id) l.

Definition num_entries_of (id : Z) (l : list entry_node) : Z := Z.of_nat (length (entries_of id l)).

(** What keeps a reference legitimate: the bit belongs to a subscriber of the topic that has
    already been handed this entry or a newer one. *)
Definition refs_ok (subs : list subscriber_info) (en : entry_node) : Prop :=
  0 <= referencing_subscribers en /\
  forall id, test_bit id (referencing_subscribers en) = true ->
    exists s, s ∈ subs /\ sub_id s = id /\ entry_id en <= latest_received_entry_id s.

(** Counters that have not wrapped: fewer than 2^32 live entries and 2^63 entries ever. *)
Definition counters_fit (t : topic_struct) : Prop :=
  Z.of_nat (length (entries t)) < 2 ^ 32 /\ current_entry_id t < 2 ^ 63.

Definition endpoint_ids (t : topic_struct) : list Z :=
  (pub_id <$> pub_info_htable t) ++ (sub_id <$> sub_info_htable t).

Record topic_wf (t : topic_struct) : Prop := {
  wf_sorted : StronglySorted (fun a b => entry_id a < entry_id b) (entries t);
  wf_entry_ids : Forall (fun en => 0 <= entry_id en < current_entry_id t) (entries t);
  wf_entry_id_pos : 0 <= current_entry_id t;
  wf_ids_nodup : NoDup (endpoint_ids t);
  wf_ids_range : Forall (fun id => 0 <= id < current_pubsub_id t) (endpoint_ids t);
  wf_ids_bound : 0 <= current_pubsub_id t <= MAX_TOPIC_LOCAL_ID;
  wf_pub_count : agnocast_get_size_pub_info_htable t <= MAX_PUBLISHER_NUM;
  wf_sub_count : agnocast_get_size_sub_info_htable t <= MAX_SUBSCRIBER_NUM;
  wf_publishers : Forall (fun en => publisher_id en ∈ pub_id <$> pub_info_htable t) (entries t);
  wf_entries_num :
    Forall (fun p => entries_num p = num_entries_of (pub_id p) (entries t)) (pub_info_htable t);
  wf_refs : Forall (refs_ok (sub_info_htable t)) (entries t);
  wf_latest : Forall (fun s => -1 <= latest_received_entry_id s < current_entry_id t)
                (sub_info_htable t);
  wf_pub_depth : Forall (fun p => 0 <= pub_qos_depth p < 2 ^ 32) (pub_info_htable t);
  wf_sub_depth : Forall (fun s => 0 <= sub_qos_depth s < 2 ^ 32) (sub_info_htable t);
  wf_fit : counters_fit t
}.

(** Whom a publisher signals: the subscriber's eventfd context, when messages of the publisher
    reach the subscriber and it does not ignore its own process's publications. *)
Definition notify_target (rules : list domain_bridge_rule) (t : topic_struct)
    (p : publisher_info) (s : subscriber_info) : option Z :=
  match notify_ctx s with
  | None => None
  | Some ctx =>
      if domain_delivery_allowed rules t (pub_domain_id p) (pub_is_bridge p)
           (sub_domain_id s) (sub_is_bridge s) &&
         negb (ignore_local_publications s && (sub_pid s =? pub_pid p))
      then Some ctx else None
  end.

Record notify_list_ok (rules : list domain_bridge_rule) (t : topic_struct) (p : publisher_info)
    : Prop := {
  wf_notify_list : notify_ctxs p = omap (notify_target rules t p) (sub_info_htable t);
  wf_notify_capacity : notifiable_subscriber_num t <= notify_capacity p
}.

Definition notify_ok (rules : list domain_bridge_rule) (t : topic_struct) : Prop :=
  Forall (notify_list_ok rules t) (pub_info_htable t).

(** ** Lemmas: notify lists *)

Lemma notify_target_topic rules t t' p s :
  rule t' = rule t -> notify_target rules t' p s = notify_target rules t p s.
Proof. intros Hr. unfold notify_target, domain_delivery_allowed. by rw Hr. Qed.

Lemma notify_target_pub rules t p p' s :
  pub_domain_id p' = pub_domain_id p -> pub_is_bridge p' = pub_is_bridge p ->
  pub_pid p' = pub_pid p -> notify_target rules t p' s = notify_target rules t p s.
Proof. intros H1 H2 H3. unfold notify_target. by rw H1 H2 H3. Qed.

Lemma list_omap_target rules t t' p p' (subs : list subscriber_info) :
  rule t' = rule t -> pub_domain_id p' = pub_domain_id p -> pub_is_bridge p' = pub_is_bridge p ->
  pub_pid p' = pub_pid p ->
  omap (notify_target rules t p) subs = omap (notify_target rules t' p') subs.
Proof.
  intros Hr H1 H2 H3. induction subs as [|s subs IH]; csimpl; [done|].
  rw (notify_target_topic _ t t') // (notify_target_pub _ _ p p') //. by rw IH.
Qed.

Lemma length_notify_targets rules t p subs :
  (length (omap (notify_target rules t p) subs) <=
   length (filter (fun s => is_Some (notify_ctx s)) subs))%nat.
Proof.
  induction subs as [|s subs IH]; csimpl; [lia|].
  unfold notify_target at 1. destruct (notify_ctx s) as [c|] eqn:E.
  - rw filter_cons_True; [|by rw E]. case_match; csimpl; lia.
  - rw filter_cons_False; [done|]. rw E. by intros [? ?].
Qed.

Lemma fill_notify_list_spec rules t p subs acc :
  Z.of_nat (length acc + length (omap (notify_target rules t p) subs)) <= notify_capacity p ->
  fill_notify_list rules t p subs acc = acc ++ omap (notify_target rules t p) subs.
Proof.
  revert acc. induction subs as [|s subs IH]; intros acc Hc; csimpl; [by rw app_nil_r|].
  csimpl in Hc. unfold notify_target at 1. unfold notify_target at 1 in Hc.
  destruct (notify_ctx s) as [c|]; [|by apply IH].
  destruct (domain_delivery_allowed _ _ _ _ _ _); simpl in *; [|by apply IH].
  destruct (ignore_local_publications s && (sub_pid s =? pub_pid p)); simpl in *; [by apply IH|].
  destruct (Z.eqb_spec (Z.of_nat (length acc)) (notify_capacity p)); [lia|].
  rw IH; [by rw -app_assoc|]. rw length_app /=. lia.
Qed.

(** A rebuild with enough capacity establishes the notify list of a publisher. *)
Lemma rebuild_notify_list_ok rules t t' p :
  rule t' = rule t -> sub_info_htable t' = sub_info_htable t ->
  notifiable_subscriber_num t <= notify_capacity p ->
  notify_list_ok rules t' (rebuild_notify_list rules t p).
Proof.
  intros Hr Hs Hc. split; simpl.
  - rw Hs. rw fill_notify_list_spec /=.
    + by apply list_omap_target.
    + pose proof (length_notify_targets rules t p (sub_info_htable t)).
      unfold notifiable_subscriber_num in Hc. lia.
  - unfold notifiable_subscriber_num in *. by rw Hs.
Qed.

Lemma rebuild_all_notify_ok rules t :
  Forall (fun p => notifiable_subscriber_num t <= notify_capacity p) (pub_info_htable t) ->
  notify_ok rules (rebuild_all_notify_lists rules t).
Proof.
  intros Hc. unfold notify_ok, rebuild_all_notify_lists. simpl.
  apply Forall_fmap. eapply Forall_impl; [exact Hc|]. intros p Hp. simpl.
  by apply rebuild_notify_list_ok.
Qed.

(** What a reservation leaves of a publisher: everything but a larger capacity. *)
Definition grown (p p' : publisher_info) : Prop :=
  exists cap, p' = set_notify (notify_ctxs p) cap p /\ notify_capacity p <= cap.

Lemma grown_refl p : grown p p.
Proof. exists (notify_capacity p). split; [by destruct p|done]. Qed.

Lemma reserve_notify_ctxs_spec ok needed p b p' :
  reserve_notify_ctxs ok needed p = (b, p') ->
  grown p p' /\ (b = true -> needed <= notify_capacity p').
Proof.
  unfold reserve_notify_ctxs. destruct (Z.leb_spec needed (notify_capacity p)); simpl.
  { intros [= <- <-]. split; [apply grown_refl|done]. }
  set (c0 := if notify_capacity p =? 0 then _ else _).
  set (c1 := if MAX_SUBSCRIBER_NUM <? c0 then _ else _).
  destruct (Z.ltb_spec c1 needed); destruct ok; intros [= <- <-];
    (split; [|done || (intros _; simpl; lia)]); try apply grown_refl; eexists; (split; [done|lia]).
Qed.

Lemma reserve_notify_ctxs_fail ok needed p p' :
  reserve_notify_ctxs ok needed p = (false, p') -> ok = false.
Proof. unfold reserve_notify_ctxs. case_match; [|done]. by destruct ok. Qed.

Lemma reserve_loop_fail al needed pubs pubs' :
  reserve_loop al needed pubs = (false, pubs') -> exists n, al n = false.
Proof.
  revert al pubs'. induction pubs as [|p pubs IH]; intros al pubs'; simpl; [done|].
  destruct (reserve_notify_ctxs _ _ _) as [ok p'] eqn:E. destruct ok.
  - destruct (reserve_loop _ _ _) as [ok' rest'] eqn:E'. intros [= -> _].
    apply IH in E' as [n Hn]. by exists (S n).
  - intros _. exists 0%nat. by eapply reserve_notify_ctxs_fail.
Qed.

Lemma reserve_loop_spec al needed pubs b pubs' :
  reserve_loop al needed pubs = (b, pubs') ->
  Forall2 grown pubs pubs' /\
  (b = true -> Forall (fun p => needed <= notify_capacity p) pubs').
Proof.
  revert al b pubs'. induction pubs as [|p pubs IH]; intros al b pubs'; simpl.
  { intros [= <- <-]. split; constructor. }
  destruct (reserve_notify_ctxs _ _ _) as [ok p'] eqn:E.
  apply reserve_notify_ctxs_spec in E as [Hg Hn]. destruct ok.
  - destruct (reserve_loop _ _ _) as [ok' rest'] eqn:E'. intros [= <- <-].
    apply IH in E' as [Hg' Hn']. split; [by constructor|]. intros Hb. constructor; auto.
  - intros [= <- <-]. split; [|done]. constructor; [done|].
    apply Forall_Forall2_diag, Forall_forall. intros q _. apply grown_refl.
Qed.

Lemma grown_fmap {B} (g : publisher_info -> B) pubs pubs' :
  (forall p c cap, g (set_notify c cap p) = g p) ->
  Forall2 grown pubs pubs' -> g <$> pubs' = g <$> pubs.
Proof. intros Hg. induction 1 as [|p p' l l' (cap & -> & _)]; csimpl; [done|]. congruence. Qed.

Lemma grown_notify_list_ok rules t t' p p' :
  rule t' = rule t -> sub_info_htable t' = sub_info_htable t ->
  grown p p' -> notify_list_ok rules t p -> notify_list_ok rules t' p'.
Proof.
  intros Hr Hs (cap & -> & Hc) [H1 H2]. split; simpl.
  - rw H1 Hs. by apply list_omap_target.
  - unfold notifiable_subscriber_num in *. rw Hs. lia.
Qed.

Lemma grown_notify_ok rules t pubs' :
  Forall2 grown (pub_info_htable t) pubs' -> notify_ok rules t -> notify_ok rules (set_pubs pubs' t).
Proof.
  unfold notify_ok. simpl. intros Hg Hok.
  apply Forall_forall. intros p' Hp'. apply list_elem_of_lookup in Hp' as [i Hi].
  destruct (Forall2_lookup_r _ _ _ _ _ Hg Hi) as (p & Hp & Hgr).
  eapply (grown_notify_list_ok rules t); [done|done|done|].
  exact (Forall_lookup_1 _ _ _ _ Hok Hp).
Qed.

(** ** Lemmas: registration *)

Lemma Forall_proj {A B} (g : A -> B) (P : B -> Prop) (l l' : list A) :
  g <$> l' = g <$> l -> Forall (fun x => P (g x)) l -> Forall (fun x => P (g x)) l'.
Proof. intros Hg H. apply (Forall_fmap g P). rw Hg. by apply (Forall_fmap g P). Qed.

Definition pub_core (p : publisher_info) : Z * Z * Z := (pub_id p, entries_num p, pub_qos_depth p).

(** The invariant reads only the id, the entry count and the depth of a publisher. *)
Lemma topic_wf_pubs_ext t pubs' :
  pub_core <$> pubs' = pub_core <$> pub_info_htable t -> topic_wf t -> topic_wf (set_pubs pubs' t).
Proof.
  intros Hc Hwf.
  assert (pub_id <$> pubs' = pub_id <$> pub_info_htable t) as Hid.
  { transitivity (((fun c => c.1.1) <$> (pub_core <$> pubs')) : list Z).
    - by rw -list_fmap_compose.
    - by rw Hc -list_fmap_compose. }
  assert (endpoint_ids (set_pubs pubs' t) = endpoint_ids t) as He
    by (unfold endpoint_ids; simpl; by rw Hid).
  destruct Hwf. split; rw ?He; try done.
  - unfold agnocast_get_size_pub_info_htable in *. simpl.
    by rw -(length_fmap pub_core) Hc length_fmap.
  - simpl. by rw Hid.
  - exact (Forall_proj pub_core (fun c => c.1.2 = num_entries_of c.1.1 (entries t)) _ _ Hc
             wf_entries_num0).
  - exact (Forall_proj pub_core (fun c => 0 <= c.2 < 2 ^ 32) _ _ Hc wf_pub_depth0).
Qed.

Lemma topic_wf_rebuild rules t : topic_wf t -> topic_wf (rebuild_all_notify_lists rules t).
Proof.
  apply topic_wf_pubs_ext. unfold rebuild_all_notify_lists.
  induction (pub_info_htable t) as [|p l IH]; csimpl; [done|]. by rw IH.
Qed.

Lemma topic_wf_grown t pubs' :
  Forall2 grown (pub_info_htable t) pubs' -> topic_wf t -> topic_wf (set_pubs pubs' t).
Proof. intros Hg. apply topic_wf_pubs_ext. by apply grown_fmap. Qed.

Lemma refs_ok_mono subs subs' en : subs ⊆ subs' -> refs_ok subs en -> refs_ok subs' en.
Proof.
  intros Hs [H0 H]. split; [done|]. intros id Hid. destruct (H id Hid) as (s & ? & ? & ?).
  exists s. split_and!; [by apply Hs|done|done].
Qed.

Section registration.
Context `{KernelHash}.

Lemma new_endpoint_id_fresh t : topic_wf t -> current_pubsub_id t ∉ endpoint_ids t.
Proof.
  intros Hwf Hin. pose proof (wf_ids_range _ Hwf) as Hr. rw Forall_forall in Hr.
  specialize (Hr _ Hin). lia.
Qed.

Lemma ids_range_succ t ids n :
  Forall (fun id => 0 <= id < current_pubsub_id t) ids -> current_pubsub_id t < n ->
  Forall (fun id => 0 <= id < n) ids.
Proof. intros Hf Hn. eapply Forall_impl; [exact Hf|]. simpl. lia. Qed.

Lemma i32_succ_id t :
  topic_wf t -> current_pubsub_id t < MAX_TOPIC_LOCAL_ID ->
  i32 (current_pubsub_id t + 1) = current_pubsub_id t + 1.
Proof.
  intros Hwf Hlt. pose proof (wf_ids_bound _ Hwf). unfold MAX_TOPIC_LOCAL_ID in *. unfold i32.
  rw Z.mod_small; [|lia]. by rw (proj2 (Z.ltb_lt _ _)); [|lia].
Qed.

Lemma i64_succ n : 0 <= n -> n + 1 < 2 ^ 63 -> i64 (n + 1) = n + 1.
Proof. intros H0 Hlt. apply i64_small. lia. Qed.

Lemma topic_wf_add_sub t s next :
  topic_wf t -> sub_id s = current_pubsub_id t -> current_pubsub_id t < MAX_TOPIC_LOCAL_ID ->
  agnocast_get_size_sub_info_htable t < MAX_SUBSCRIBER_NUM ->
  current_entry_id t <= next < 2 ^ 63 -> -1 <= latest_received_entry_id s < next ->
  0 <= sub_qos_depth s < 2 ^ 32 ->
  topic_wf (set_subs (hash_add sub_bucket s (sub_info_htable t))
              (set_ids (current_pubsub_id t + 1) next t)).
Proof.
  intros Hwf Hid Hlt Hcount Hnext Hlat Hdep.
  pose proof (new_endpoint_id_fresh t Hwf) as Hfresh.
  set (t' := set_subs _ _).
  assert (endpoint_ids t' ≡ₚ sub_id s :: endpoint_ids t) as Hp.
  { unfold endpoint_ids, t'. simpl. rw hash_add_perm. csimpl. by rw Permutation_middle. }
  destruct Hwf. destruct wf_fit0 as [Hfit1 Hfit2].
  split; try done; try (simpl; lia).
  - simpl. eapply Forall_impl; [exact wf_entry_ids0|]. simpl. lia.
  - rw Hp Hid. by constructor.
  - rw Hp Hid. simpl. constructor; [lia|]. eapply ids_range_succ; [done|lia].
  - unfold agnocast_get_size_sub_info_htable in *. simpl. rw length_hash_add. lia.
  - simpl. eapply Forall_impl; [exact wf_refs0|]. intros en. apply refs_ok_mono.
    intros x Hx. apply elem_of_hash_add. by right.
  - simpl. rw hash_add_perm. constructor; [done|]. eapply Forall_impl; [exact wf_latest0|].
    simpl. lia.
  - simpl. rw hash_add_perm. by constructor.
  - split; simpl; [done|lia].
Qed.

Lemma topic_wf_add_pub t p :
  topic_wf t -> pub_id p = current_pubsub_id t -> current_pubsub_id t < MAX_TOPIC_LOCAL_ID ->
  agnocast_get_size_pub_info_htable t < MAX_PUBLISHER_NUM ->
  entries_num p = 0 -> 0 <= pub_qos_depth p < 2 ^ 32 ->
  topic_wf (set_pubs (hash_add pub_bucket p (pub_info_htable t))
              (set_ids (current_pubsub_id t + 1) (current_entry_id t) t)).
Proof.
  intros Hwf Hid Hlt Hcount Hnum Hdep.
  pose proof (new_endpoint_id_fresh t Hwf) as Hfresh.
  set (t' := set_pubs _ _).
  assert (endpoint_ids t' ≡ₚ pub_id p :: endpoint_ids t) as Hp.
  { unfold endpoint_ids, t'. simpl. rw hash_add_perm. by csimpl. }
  destruct Hwf. split; try done; try (simpl; lia).
  - rw Hp Hid. by constructor.
  - rw Hp Hid. simpl. constructor; [lia|]. eapply ids_range_succ; [done|lia].
  - unfold agnocast_get_size_pub_info_htable in *. simpl. rw length_hash_add. lia.
  - simpl. eapply Forall_impl; [exact wf_publishers0|]. intros en Hen. simpl.
    rw hash_add_perm. csimpl. set_solver.
  - simpl. rw hash_add_perm. constructor; [|done]. rw Hnum. unfold num_entries_of, entries_of.
    rw filter_none //. intros en Hen Heq. apply Hfresh.
    rw Forall_forall in wf_publishers0. specialize (wf_publishers0 en Hen).
    rw Heq Hid in wf_publishers0. apply elem_of_app. by left.
  - simpl. rw hash_add_perm. by constructor.
Qed.

Lemma topic_wf_ids t n :
  topic_wf t -> current_pubsub_id t <= n <= MAX_TOPIC_LOCAL_ID ->
  topic_wf (set_ids n (current_entry_id t) t).
Proof.
  intros Hwf Hn. destruct Hwf. split; try done; simpl; [|lia].
  eapply Forall_impl; [done|]. simpl. lia.
Qed.
End registration.

Section registration_spec.
Context `{KernelHash}.

Lemma omap_hash_add_None {A B} (bucket : A -> Z) (f : A -> option B) x l :
  f x = None -> omap f (hash_add bucket x l) = omap f l.
Proof.
  intros Hx. induction l as [|y l IH]; csimpl; [by rw Hx|].
  case_match; csimpl; [by rw Hx|]. by rw IH.
Qed.

Lemma notify_target_take rules t p s : notify_ctx s = None -> notify_target rules t p s = None.
Proof. unfold notify_target. by intros ->. Qed.

Lemma notifiable_num_add t t' s :
  sub_info_htable t' ≡ₚ s :: sub_info_htable t ->
  notifiable_subscriber_num t' =
  notifiable_subscriber_num t + (match notify_ctx s with Some _ => 1 | None => 0 end).
Proof.
  intros Hp. unfold notifiable_subscriber_num. rw Hp. destruct (notify_ctx s) eqn:E.
  - rw filter_cons_True; [|by rw E]. simpl. lia.
  - rw filter_cons_False; [lia|]. rw E. by intros [? ?].
Qed.

Lemma notifiable_num_bound t :
  topic_wf t -> 0 <= notifiable_subscriber_num t <= MAX_SUBSCRIBER_NUM.
Proof.
  intros Hwf. pose proof (wf_sub_count _ Hwf) as Hc. unfold agnocast_get_size_sub_info_htable in Hc.
  unfold notifiable_subscriber_num.
  pose proof (length_filter (fun s => is_Some (notify_ctx s)) (sub_info_htable t)). lia.
Qed.

(** A take subscriber leaves every notify list as it is. *)
Lemma notify_ok_add_take rules t t' s :
  notify_ctx s = None -> pub_info_htable t' = pub_info_htable t -> rule t' = rule t ->
  sub_info_htable t' = hash_add sub_bucket s (sub_info_htable t) ->
  notify_ok rules t -> notify_ok rules t'.
Proof.
  intros Hs Hpubs Hr Hsubs Hok. unfold notify_ok. rw Hpubs. eapply Forall_impl; [exact Hok|].
  intros p [H1 H2]. split.
  - rw H1 Hsubs omap_hash_add_None; [by apply list_omap_target|by apply notify_target_take].
  - rw (notifiable_num_add t t' s); [|by rw Hsubs hash_add_perm]. rw Hs. lia.
Qed.

Lemma insert_subscriber_info_inv al rules t domain pid a ctx t' r :
  topic_wf t -> notify_ok rules t -> current_entry_id t + 1 < 2 ^ 63 ->
  0 <= a_sub_qos_depth a < 2 ^ 32 ->
  insert_subscriber_info al rules t domain pid a ctx = (t', r) ->
  topic_wf t' /\ notify_ok rules t'.
Proof.
  intros Hwf Hok Hfit Hdep. unfold insert_subscriber_info.
  destruct (Z.eqb_spec (agnocast_get_size_sub_info_htable t) MAX_SUBSCRIBER_NUM) as [?|Hc]; simpl;
    [by intros [= <- <-]|].
  destruct (Z.leb_spec MAX_TOPIC_LOCAL_ID (current_pubsub_id t)); simpl; [by intros [= <- <-]|].
  destruct (al 0%nat); [|by intros [= <- <-]]. destruct (al 1%nat); [|by intros [= <- <-]].
  cbv zeta. set (next := if a_sub_transient_local a then current_entry_id t else i64 (current_entry_id t + 1)).
  assert (current_entry_id t <= next < 2 ^ 63 /\
    -1 <= (if a_sub_transient_local a then -1 else current_entry_id t) < next) as [Hn1 Hn2].
  { pose proof (wf_entry_id_pos _ Hwf). unfold next. destruct (a_sub_transient_local a).
    - lia.
    - rw i64_succ; lia. }
  pose proof (wf_sub_count _ Hwf). destruct ctx as [c|].
  - unfold reserve_all_notify_ctxs.
    destruct (reserve_loop _ _ _) as [ok pubs] eqn:E. apply reserve_loop_spec in E as [Hg Hcap].
    pose proof (topic_wf_grown t pubs Hg Hwf) as Hwf1.
    destruct ok; [|intros [= <- <-]; split; [done|by apply grown_notify_ok]].
    simpl. rw (i32_succ_id _ Hwf) //. intros [= <- <-]. split.
    + apply topic_wf_rebuild.
      apply (topic_wf_add_sub (set_pubs pubs t)); simpl; try done.
      unfold agnocast_get_size_sub_info_htable in *. simpl in *. lia.
    + apply rebuild_all_notify_ok. simpl. eapply Forall_impl; [by apply Hcap|]. simpl.
      intros p Hp. erewrite notifiable_num_add; [|apply hash_add_perm]. simpl.
      pose proof (notifiable_num_bound t Hwf) as Hb. unfold u32 in Hp.
      unfold MAX_SUBSCRIBER_NUM, MAX_TOPIC_LOCAL_ID, MAX_PUBLISHER_NUM in Hb.
      rw Z.mod_small in Hp; [|lia].
      change (notifiable_subscriber_num (set_ids _ _ _)) with (notifiable_subscriber_num t). lia.
  - simpl. rw (i32_succ_id _ Hwf) //. intros [= <- <-]. split.
    + apply topic_wf_add_sub; simpl; try done; try lia.
    + eapply (notify_ok_add_take rules t); [|done|done|done|done]. done.
Qed.

Lemma insert_publisher_info_inv al rules t domain pid a t' r :
  topic_wf t -> notify_ok rules t -> 0 <= a_pub_qos_depth a < 2 ^ 32 ->
  insert_publisher_info al rules t domain pid a = (t', r) ->
  topic_wf t' /\ notify_ok rules t'.
Proof.
  intros Hwf Hok Hdep. unfold insert_publisher_info.
  destruct (Z.eqb_spec (agnocast_get_size_pub_info_htable t) MAX_PUBLISHER_NUM); simpl;
    [by intros [= <- <-]|].
  destruct (Z.leb_spec MAX_TOPIC_LOCAL_ID (current_pubsub_id t)); simpl; [by intros [= <- <-]|].
  destruct (al 0%nat); [|by intros [= <- <-]]. destruct (al 1%nat); [|by intros [= <- <-]].
  rw (i32_succ_id _ Hwf) //. pose proof (wf_ids_bound _ Hwf). pose proof (wf_pub_count _ Hwf).
  set (p0 := PublisherInfo _ _ _ _ _ _ _ _ _ _).
  change (notifiable_subscriber_num (set_ids _ _ _)) with (notifiable_subscriber_num t).
  destruct (reserve_notify_ctxs _ _ p0) as [ok p] eqn:E.
  apply reserve_notify_ctxs_spec in E as [(cap & -> & _) Hcap].
  destruct ok; intros [= <- <-]; [|split; [apply topic_wf_ids; [done|lia]|]].
  - split.
    + apply topic_wf_add_pub; simpl; try done. lia.
    + unfold notify_ok. simpl. apply Forall_hash_add.
      * apply rebuild_notify_list_ok; [done|done|]. by apply Hcap.
      * eapply Forall_impl; [exact Hok|]. intros q [Hl Hcp]. split; [|done]. rw Hl.
        by apply list_omap_target.
  - eapply Forall_impl; [exact Hok|]. intros q [Hl Hcp]. split; [|done]. rw Hl.
    by apply list_omap_target.
Qed.
End registration_spec.

Lemma new_topic_wf r : topic_wf (new_topic_struct r).
Proof.
  split; simpl; try (by constructor); try done.
Qed.

(** ** Properties *)

(** The record a registration creates. *)
Definition new_subscriber (t : topic_struct) (domain pid : Z) (a : sub_args) (ctx : option Z)
    : subscriber_info :=
  SubscriberInfo (current_pubsub_id t) domain pid (a_sub_qos_depth a) (a_sub_transient_local a)
    (a_sub_reliable a) (if a_sub_transient_local a then -1 else current_entry_id t)
    (a_sub_node_name a) (a_sub_take a) (a_sub_ignore_local a) true (a_sub_bridge a) ctx.

(** Two topics that differ at most in the publishers' notify lists and their capacities. *)
Record same_but_notify (t t' : topic_struct) : Prop := {
  sbn_entries : entries t' = entries t;
  sbn_subs : sub_info_htable t' = sub_info_htable t;
  sbn_pubs : Forall2 (fun p p' => exists c cap, p' = set_notify c cap p)
               (pub_info_htable t) (pub_info_htable t');
  sbn_ids : current_pubsub_id t' = current_pubsub_id t /\ current_entry_id t' = current_entry_id t;
  sbn_refcnt : wrapper_refcnt t' = wrapper_refcnt t;
  sbn_rule : rule t' = rule t
}.

Lemma same_but_notify_refl t : same_but_notify t t.
Proof.
  split; try done. apply Forall_Forall2_diag, Forall_forall. intros p _.
  exists (notify_ctxs p), (notify_capacity p). by destruct p.
Qed.

Lemma same_but_notify_grown t pubs :
  Forall2 grown (pub_info_htable t) pubs -> same_but_notify t (set_pubs pubs t).
Proof.
  intros Hg. split; try done. simpl. eapply Forall2_impl; [exact Hg|].
  intros p p' (cap & -> & _). by exists (notify_ctxs p), cap.
Qed.

Section properties.
Context `{KernelHash}.

Lemma insert_subscriber_info_cases al rules t domain pid a ctx t' r :
  topic_wf t -> current_entry_id t + 1 < 2 ^ 63 ->
  insert_subscriber_info al rules t domain pid a ctx = (t', r) ->
  match r with
  | Ok s =>
      s = new_subscriber t domain pid a ctx /\
      sub_info_htable t' = hash_add sub_bucket s (sub_info_htable t) /\
      entries t' = entries t /\ current_pubsub_id t' = current_pubsub_id t + 1 /\
      current_entry_id t' =
        (if a_sub_transient_local a then current_entry_id t else current_entry_id t + 1)
  | Err e =>
      same_but_notify t t' /\
      (e = ENOBUFS /\ agnocast_get_size_sub_info_htable t = MAX_SUBSCRIBER_NUM \/
       e = ENOSPC /\ current_pubsub_id t = MAX_TOPIC_LOCAL_ID \/
       e = ENOMEM /\ exists n, al n = false)
  | Oops => False
  end.
Proof.
  intros Hwf Hfit. pose proof (wf_ids_bound _ Hwf). pose proof (wf_entry_id_pos _ Hwf).
  pose proof (same_but_notify_refl t). unfold insert_subscriber_info.
  destruct (Z.eqb_spec (agnocast_get_size_sub_info_htable t) MAX_SUBSCRIBER_NUM) as [?|Hc]; simpl;
    [intros [= <- <-]; auto|].
  destruct (Z.leb_spec MAX_TOPIC_LOCAL_ID (current_pubsub_id t)); simpl.
  { intros [= <- <-]. split; [done|]. right; left. split; [done|lia]. }
  destruct (al 0%nat) eqn:E0; [|intros [= <- <-]; eauto 8].
  destruct (al 1%nat) eqn:E1; [|intros [= <- <-]; eauto 8].
  pose proof (i64_succ (current_entry_id t)) as Hi.
  destruct ctx as [c|].
  - unfold reserve_all_notify_ctxs.
    destruct (reserve_loop _ _ _) as [ok pubs] eqn:E.
    destruct ok; [|intros [= <- <-]; split].
    + simpl. rw (i32_succ_id _ Hwf) //. intros [= <- <-]. simpl. split_and!; try done.
      destruct (a_sub_transient_local a); [done|]. apply Hi; lia.
    + apply reserve_loop_spec in E as [Hg _]. by apply same_but_notify_grown.
    + apply reserve_loop_fail in E as [n Hn]. right; right. split; [done|]. by exists (2 + n)%nat.
  - simpl. rw (i32_succ_id _ Hwf) //. intros [= <- <-]. simpl. split_and!; try done.
    destruct (a_sub_transient_local a); [done|]. apply Hi; lia.
Qed.

Lemma insert_publisher_info_cases al rules t domain pid a t' r :
  topic_wf t -> insert_publisher_info al rules t domain pid a = (t', r) ->
  entries t' = entries t /\ sub_info_htable t' = sub_info_htable t /\
  match r with
  | Ok p => exists cap cs,
      p = PublisherInfo (current_pubsub_id t) domain pid (a_pub_node_name a) (a_pub_qos_depth a)
        (a_pub_transient_local a) 0 (a_pub_bridge a) cs cap /\
      pub_info_htable t' = hash_add pub_bucket p (pub_info_htable t)
  | Err e =>
      pub_info_htable t' = pub_info_htable t /\
      (e = ENOBUFS /\ agnocast_get_size_pub_info_htable t = MAX_PUBLISHER_NUM \/
       e = ENOSPC /\ current_pubsub_id t = MAX_TOPIC_LOCAL_ID \/
       e = ENOMEM /\ exists n, al n = false)
  | Oops => False
  end.
Proof.
  intros Hwf. pose proof (wf_ids_bound _ Hwf). unfold insert_publisher_info.
  destruct (Z.eqb_spec (agnocast_get_size_pub_info_htable t) MAX_PUBLISHER_NUM); simpl;
    [intros [= <- <-]; auto 6|].
  destruct (Z.leb_spec MAX_TOPIC_LOCAL_ID (current_pubsub_id t)); simpl.
  { intros [= <- <-]. split_and!; [done..|]. right; left. split; [done|lia]. }
  destruct (al 0%nat) eqn:E0; [|intros [= <- <-]; eauto 10].
  destruct (al 1%nat) eqn:E1; [|intros [= <- <-]; eauto 10].
  destruct (reserve_notify_ctxs _ _ _) as [ok p] eqn:E.
  destruct ok; intros [= <- <-]; simpl; (split_and!; [done..|]).
  - apply reserve_notify_ctxs_spec in E as [(cap & -> & _) _]. eexists _, _. by split.
  - right; right. split; [done|]. exists 2%nat. by eapply reserve_notify_ctxs_fail.
Qed.

Lemma insert_publisher_info_rule al rules t domain pid a t' r :
  insert_publisher_info al rules t domain pid a = (t', r) -> rule t' = rule t.
Proof.
  unfold insert_publisher_info. repeat case_match; intros [= <- <-]; done.
Qed.

(** Registering a subscriber: the new endpoint gets an id no endpoint of the topic has and is
    the only change to the subscriber table; a volatile one starts after every entry published so
    far and consumes one entry id, a transient-local one starts before all of them; afterwards the
    topic is well formed and every publisher's notify list is exactly the set of subscribers its
    messages reach.  On ENOBUFS, ENOSPC or ENOMEM nothing but notify capacities changed: both id
    counters are untouched. *)
Theorem insert_subscriber_info_correct al rules t domain pid a ctx t' r :
  topic_wf t -> notify_ok rules t -> current_entry_id t + 1 < 2 ^ 63 ->
  0 <= a_sub_qos_depth a < 2 ^ 32 ->
  insert_subscriber_info al rules t domain pid a ctx = (t', r) ->
  topic_wf t' /\ notify_ok rules t' /\
  match r with
  | Ok s =>
      s = new_subscriber t domain pid a ctx /\ (sub_id s ∉ endpoint_ids t) /\
      sub_info_htable t' = hash_add sub_bucket s (sub_info_htable t) /\
      find_subscriber_info t' (sub_id s) = Some s /\
      entries t' = entries t /\ current_pubsub_id t' = current_pubsub_id t + 1 /\
      current_entry_id t' =
        (if a_sub_transient_local a then current_entry_id t else current_entry_id t + 1)
  | Err e =>
      same_but_notify t t' /\
      (e = ENOBUFS /\ agnocast_get_size_sub_info_htable t = MAX_SUBSCRIBER_NUM \/
       e = ENOSPC /\ current_pubsub_id t = MAX_TOPIC_LOCAL_ID \/
       e = ENOMEM /\ exists n, al n = false)
  | Oops => False
  end.
Proof.
  intros Hwf Hok Hfit Hdep Hrun.
  destruct (insert_subscriber_info_inv _ _ _ _ _ _ _ _ _ Hwf Hok Hfit Hdep Hrun) as [Hwf' Hok'].
  split_and!; [done|done|]. clear Hok Hok'.
  pose proof (insert_subscriber_info_cases _ _ _ _ _ _ _ _ _ Hwf Hfit Hrun) as Hc.
  destruct r as [s|e|]; [|done..]. destruct Hc as (-> & Hsubs & He & Hid & Hen).
  split_and!; try done; [by apply new_endpoint_id_fresh|].
  apply find_subscriber_info_unique.
  - pose proof (wf_ids_nodup _ Hwf') as Hd. by apply NoDup_app in Hd as (_ & _ & Hd).
  - rw Hsubs. apply elem_of_hash_add. by left.
Qed.

(** Registering a publisher: a fresh id, no message yet, and a notify list that holds exactly
    the eventfd contexts of the subscribers its messages reach; the other publishers and every
    subscriber are untouched.  A failure leaves the tables as they were. *)
Theorem insert_publisher_info_correct al rules t domain pid a t' r :
  topic_wf t -> notify_ok rules t -> 0 <= a_pub_qos_depth a < 2 ^ 32 ->
  insert_publisher_info al rules t domain pid a = (t', r) ->
  topic_wf t' /\ notify_ok rules t' /\
  entries t' = entries t /\ sub_info_htable t' = sub_info_htable t /\
  match r with
  | Ok p =>
      pub_id p = current_pubsub_id t /\ (pub_id p ∉ endpoint_ids t) /\ pub_domain_id p = domain /\
      pub_pid p = pid /\ pub_qos_depth p = a_pub_qos_depth a /\ entries_num p = 0 /\
      pub_is_bridge p = a_pub_bridge a /\
      notify_ctxs p = omap (notify_target rules t p) (sub_info_htable t) /\
      pub_info_htable t' = hash_add pub_bucket p (pub_info_htable t) /\
      find_publisher_info t' (pub_id p) = Some p
  | Err e =>
      pub_info_htable t' = pub_info_htable t /\
      (e = ENOBUFS /\ agnocast_get_size_pub_info_htable t = MAX_PUBLISHER_NUM \/
       e = ENOSPC /\ current_pubsub_id t = MAX_TOPIC_LOCAL_ID \/
       e = ENOMEM /\ exists n, al n = false)
  | Oops => False
  end.
Proof.
  intros Hwf Hok Hdep Hrun.
  destruct (insert_publisher_info_inv _ _ _ _ _ _ _ _ Hwf Hok Hdep Hrun) as [Hwf' Hok'].
  pose proof (insert_publisher_info_cases _ _ _ _ _ _ _ _ Hwf Hrun) as (He & Hs & Hc).
  split_and!; [done..|]. destruct r as [p|e|]; [|done..].
  destruct Hc as (cap & cs & -> & Hpubs).
  assert (PublisherInfo (current_pubsub_id t) domain pid (a_pub_node_name a) (a_pub_qos_depth a)
    (a_pub_transient_local a) 0 (a_pub_bridge a) cs cap ∈ pub_info_htable t') as Hin
    by (rw Hpubs; apply elem_of_hash_add; by left).
  split_and!; try done; [by apply new_endpoint_id_fresh| |].
  - pose proof Hok' as Hok2. unfold notify_ok in Hok2. rw Forall_forall in Hok2.
    destruct (Hok2 _ Hin) as [Hl _]. simpl in Hl. rw Hl Hs. apply list_omap_target; try done.
    by rw (insert_publisher_info_rule _ _ _ _ _ _ _ _ Hrun).
  - apply find_publisher_info_unique; [|done].
    pose proof (wf_ids_nodup _ Hwf') as Hd. by apply NoDup_app in Hd as (Hd & _).
Qed.

End properties.

(** ** Witnesses *)

(** A topic one volatile publisher (id 0, pid 100) and one callback subscriber (id 1, pid 200)
    have joined. *)
Definition sample_pub_args : pub_args := PubArgs "talker" 10 false false.
Definition sample_sub_args : sub_args := SubArgs "listener" 10 false true false false false.

Definition sample_topic0 : topic_struct :=
  (@insert_publisher_info length_hash (fun _ => true) [] (new_topic_struct None) 0 100
     sample_pub_args).1.
Definition sample_topic : topic_struct :=
  (@insert_subscriber_info length_hash (fun _ => true) [] sample_topic0 0 200
     sample_sub_args (Some 77)).1.

Lemma sample_topic0_ok : topic_wf sample_topic0 /\ notify_ok [] sample_topic0.
Proof.
  pose proof length_hash as Hh.
  apply (insert_publisher_info_inv (H := length_hash) (fun _ => true) [] (new_topic_struct None) 0
    100 sample_pub_args sample_topic0
    (@insert_publisher_info length_hash (fun _ => true) [] (new_topic_struct None) 0 100
       sample_pub_args).2).
  - apply new_topic_wf.
  - constructor.
  - done.
  - by rw -surjective_pairing.
Qed.

Lemma sample_topic_ok : topic_wf sample_topic /\ notify_ok [] sample_topic.
Proof.
  destruct sample_topic0_ok as [Hwf Hok].
  by apply (insert_subscriber_info_inv (H := length_hash) (fun _ => true) [] sample_topic0 0 200
    sample_sub_args (Some 77) sample_topic
    (@insert_subscriber_info length_hash (fun _ => true) [] sample_topic0 0 200
       sample_sub_args (Some 77)).2).
Qed.

Lemma insert_subscriber_info_correct_witness :
  notify_ctxs <$> pub_info_htable sample_topic = [[77]] /\
  topic_wf sample_topic /\ notify_ok [] sample_topic.
Proof.
  split; [reflexivity|].
  destruct sample_topic0_ok as [Hwf Hok].
  destruct (insert_subscriber_info_correct (H := length_hash) (fun _ => true) [] sample_topic0 0 200
    sample_sub_args (Some 77) sample_topic
    (@insert_subscriber_info length_hash (fun _ => true) [] sample_topic0 0 200
       sample_sub_args (Some 77)).2) as (H1 & H2 & _); try done.
Defined.

Lemma insert_publisher_info_correct_witness :
  topic_wf sample_topic0 /\ notify_ok [] sample_topic0.
Proof.
  destruct (insert_publisher_info_correct (H := length_hash) (fun _ => true) []
    (new_topic_struct None) 0 100 sample_pub_args sample_topic0
    (@insert_publisher_info length_hash (fun _ => true) [] (new_topic_struct None) 0 100
       sample_pub_args).2) as (H1 & H2 & _).
  - apply new_topic_wf.
  - constructor.
  - done.
  - by rw -surjective_pairing.
  - by split.
Defined.
