(* ===== verification/KMessage.v ===== *)
(** * Kernel module: messages of a topic

    Model of publishing, receiving, taking and releasing in agnocast_kmod/agnocast_ioctl.c:
    [insert_message_entry], [release_msgs_to_meet_depth], [is_entry_deliverable],
    [receive_msg_core], [set_publisher_shm_info], and the bodies of the PUBLISH_MSG, RECEIVE_MSG,
    TAKE_MSG and RELEASE_SUB_REF system calls once the topic is found. *)

From S2P Require Import Prelude Kernel KMempool KTypes KRules KTopic.

(** ** Publishing *)

(** [pub_info->field = ...] through the pointer [find_publisher_info] returned. *)
Definition upd_publisher (id : Z) (f : publisher_info -> publisher_info) (t : topic_struct)
    : topic_struct :=
  set_pubs (hash_upd (fun p => pub_id p =? id) f (pub_info_htable t)) t.

Definition upd_subscriber (id : Z) (f : subscriber_info -> subscriber_info) (t : topic_struct)
    : topic_struct :=
  set_subs (hash_upd (fun s => sub_id s =? id) f (sub_info_htable t)) t.

(** The descent to the right reaches the last entry unless some entry's id is not smaller, and
    the last entry has the largest id. *)
Definition insert_message_entry (ok : bool) (t : topic_struct) (p : publisher_info)
    (msg_virtual_address : Z) : topic_struct * res Z :=
  require ok orelse (t, Err ENOMEM);
  let new_node := EntryNode (current_entry_id t) (pub_id p) msg_virtual_address 0 in
  let t := set_ids (current_pubsub_id t) (i64 (current_entry_id t + 1)) t in
  let largest := match last (entries t) with
                 | Some this => entry_id this <? entry_id new_node
                 | None => true
                 end in
  require largest orelse (t, Err ECANCELED);
  let t := set_entries (entries t ++ [new_node]) t in
  (upd_publisher (pub_id p) (fun p => set_entries_num (u32 (entries_num p + 1)) p) t,
   Ok (entry_id new_node)).

(** The [while] loop of [release_msgs_to_meet_depth] from the entry [node] points to, the head of
    [l].  Returns what is left of [l], the addresses released and, on Err, the loop's -ENODATA. *)
Fixpoint release_loop (id num_search_entries ret_released_num : Z) (l : list entry_node)
    : list entry_node * list Z * res unit :=
  match l with
  | [] => ([], [], Oops)
  | en :: rest =>
      require (0 <? num_search_entries) && (ret_released_num <? MAX_RELEASE_NUM)
        orelse (l, [], Ok tt);
      match rest with
      | [] => (l, [], Err ENODATA)
      | _ =>
          if negb (publisher_id en =? id) then
            let '(l', addrs, r) := release_loop id num_search_entries ret_released_num rest in
            (en :: l', addrs, r)
          else if agnocast_is_referenced en then
            let '(l', addrs, r) := release_loop id (num_search_entries - 1) ret_released_num rest in
            (en :: l', addrs, r)
          else
            let '(l', addrs, r) :=
              release_loop id (num_search_entries - 1) (ret_released_num + 1) rest in
            (l', msg_virtual_address en :: addrs, r)
      end
  end.

(** [p] is the publisher after [insert_message_entry]. *)
Definition release_msgs_to_meet_depth (t : topic_struct) (p : publisher_info)
    : topic_struct * res (list Z) :=
  require negb (entries_num p <=? pub_qos_depth p) orelse (t, Ok []);
  require negb (bool_decide (entries t = [])) orelse (t, Err ENODATA);
  let num_search_entries := u32 (entries_num p - pub_qos_depth p) in
  let '(l, addrs, r) := release_loop (pub_id p) num_search_entries 0 (entries t) in
  let t := set_entries l t in
  let t := upd_publisher (pub_id p)
             (fun p => set_entries_num (u32 (entries_num p - Z.of_nat (length addrs))) p) t in
  (t, match r with Ok _ => Ok addrs | Err e => Err e | Oops => Oops end).

(** What PUBLISH_MSG returns. *)
Record publish_ret := PublishRet { ret_entry_id : Z; ret_released_addrs : list Z }.

(** The body of [agnocast_ioctl_publish_msg] once the topic is found.  The list is the eventfd
    contexts it signals. *)
Definition publish_msg_topic `{KernelHash} (al : alloc) (procs : list process_info)
    (pool : list mempool_entry) (mempool_size_bytes : Z) (t : topic_struct)
    (publisher_id msg_virtual_address : Z) : topic_struct * list Z * res publish_ret :=
  unwrap p := find_publisher_info t publisher_id orelse (t, [], Err EINVAL);
  unwrap proc := agnocast_find_process_info procs (pub_pid p) orelse (t, [], Err EINVAL);
  unwrap m := pool !! proc_mempool proc orelse (t, [], Oops);
  let mempool_start := addr m in
  let mempool_end := u64 (mempool_start + mempool_size_bytes) in
  require negb ((msg_virtual_address <? mempool_start) || (mempool_end <=? msg_virtual_address))
    orelse (t, [], Err EINVAL);
  let '(t, r) := insert_message_entry (al 0%nat) t p msg_virtual_address in
  match r with
  | Err e => (t, [], Err e)
  | Oops => (t, [], Oops)
  | Ok id =>
      unwrap p := find_publisher_info t publisher_id orelse (t, [], Oops);
      let '(t, r) := release_msgs_to_meet_depth t p in
      match r with
      | Err e => (t, [], Err e)
      | Oops => (t, [], Oops)
      | Ok addrs =>
          unwrap p := find_publisher_info t publisher_id orelse (t, [], Oops);
          (t, notify_ctxs p, Ok (PublishRet id addrs))
      end
  end.

(** ** Receiving *)

Definition is_entry_deliverable `{KernelHash} (rules : list domain_bridge_rule)
    (procs : list process_info) (t : topic_struct) (s : subscriber_info) (en : entry_node)
    : res bool :=
  unwrap p := find_publisher_info t (publisher_id en) orelse Err ENODATA;
  match agnocast_find_process_info procs (pub_pid p) with
  | None => Ok false
  | Some proc =>
      if exited proc then Ok false
      else if ignore_local_publications s && (sub_pid s =? pub_pid p) then Ok false
      else Ok (domain_delivery_allowed rules t (pub_domain_id p) (pub_is_bridge p)
                 (sub_domain_id s) (sub_is_bridge s))
  end.

(** Returns the updated entry and whether the bit was clear. *)
Definition add_subscriber_reference (en : entry_node) (id : Z) : entry_node * res unit :=
  require negb ((id <? 0) || (MAX_TOPIC_LOCAL_ID <=? id)) orelse (en, Err EINVAL);
  require negb (test_bit id (referencing_subscribers en)) orelse (en, Err EALREADY);
  (set_refs (set_bit id (referencing_subscribers en)) en, Ok tt).

Section receive.
Context `{KernelHash} (rules : list domain_bridge_rule) (procs : list process_info)
  (t : topic_struct) (s : subscriber_info).

(** The backward loop of [receive_msg_core].  [back] is the entries up to the one the loop
    variable points to, newest first, and [after] the ones behind it; [node] is the suffix of the
    tree the C variable of that name points to ([] for NULL). *)
Fixpoint receive_back (back after node : list entry_node) (deliverable_num : Z)
    : res (list entry_node * Z) :=
  match back with
  | [] => Ok (node, deliverable_num)
  | en :: prev =>
      require negb (entry_id en <? i64 (latest_received_entry_id s + 1))
        orelse Ok (node, deliverable_num);
      match is_entry_deliverable rules procs t s en with
      | Err e => Err e
      | Oops => Oops
      | Ok false => receive_back prev (en :: after) node deliverable_num
      | Ok true =>
          let deliverable_num := u32 (deliverable_num + 1) in
          if sub_qos_depth s <=? deliverable_num then Ok (en :: after, deliverable_num)
          else receive_back prev (en :: after) (en :: after) deliverable_num
      end
  end.

(** The forward loop: the suffix with the references it took, and what it returns, the entries
    handed over and [ret_call_again]. *)
Fixpoint receive_forward (subscriber_id deliverable_num : Z) (node : list entry_node)
    (ret_entry_num : Z) : list entry_node * res (list (Z * Z) * bool) :=
  match node with
  | [] => ([], Ok ([], false))
  | en :: next =>
      require negb (ret_entry_num =? MAX_RECEIVE_NUM)
        orelse (node, Ok ([], ret_entry_num <? deliverable_num));
      match is_entry_deliverable rules procs t s en with
      | Err e => (node, Err e)
      | Oops => (node, Oops)
      | Ok false =>
          let '(next', r) := receive_forward subscriber_id deliverable_num next ret_entry_num in
          (en :: next', r)
      | Ok true =>
          match add_subscriber_reference en subscriber_id with
          | (en', Ok _) =>
              let '(next', r) :=
                receive_forward subscriber_id deliverable_num next (ret_entry_num + 1) in
              (en' :: next',
               match r with
               | Ok (out, again) => Ok ((entry_id en, msg_virtual_address en) :: out, again)
               | Err e => Err e
               | Oops => Oops
               end)
          | (en', Err e) => (en' :: next, Err e)
          | (en', Oops) => (en' :: next, Oops)
          end
      end
  end.

Definition receive_msg_core (subscriber_id : Z)
    : topic_struct * res (list (Z * Z) * bool) :=
  require negb (bool_decide (entries t = [])) orelse (t, Ok ([], false));
  require negb (sub_qos_depth s =? 0) orelse (t, Ok ([], false));
  match receive_back (rev (entries t)) [] [] 0 with
  | Err e => (t, Err e)
  | Oops => (t, Oops)
  | Ok (node, deliverable_num) =>
      let '(node', r) := receive_forward subscriber_id deliverable_num node 0 in
      let t := set_entries
                 (take (length (entries t) - length node) (entries t) ++ node') t in
      match r with
      | Ok (out, again) =>
          match last out with
          | Some (id, _) => (upd_subscriber subscriber_id (set_latest_received id) t, r)
          | None => (t, r)
          end
      | _ => (t, r)
      end
  end.
End receive.

(** One [publisher_shm_info]: pid and address in the caller's terms; the size is
    [mempool_size_bytes] for every pool. *)
Record publisher_shm_info := PublisherShmInfo { shm_pid : Z; shm_addr : Z }.

(** The loop of [set_publisher_shm_info] over the publishers left. *)
Fixpoint shm_info_loop `{KernelHash} (al : alloc) (pid_vnr_of : Z -> option Z)
    (rules : list domain_bridge_rule) (procs : list process_info) (t : topic_struct)
    (domain subscriber_pid : Z) (sub_bridge : bool) (pub_shm_infos_size : Z)
    (pubs : list publisher_info) (publisher_num : Z) (pool : list mempool_entry)
    : list mempool_entry * res (list publisher_shm_info) :=
  match pubs with
  | [] => (pool, Ok [])
  | p :: rest =>
      let continue al pool publisher_num :=
        shm_info_loop al pid_vnr_of rules procs t domain subscriber_pid sub_bridge
          pub_shm_infos_size rest publisher_num pool in
      if subscriber_pid =? pub_pid p then continue al pool publisher_num
      else if negb (domain_delivery_allowed rules t (pub_domain_id p) (pub_is_bridge p)
                      domain sub_bridge)
      then continue al pool publisher_num
      else match agnocast_find_process_info procs (pub_pid p) with
      | None => continue al pool publisher_num
      | Some proc =>
          if exited proc then continue al pool publisher_num
          else match reference_memory al pool (proc_mempool proc) subscriber_pid with
          | (pool, Err EEXIST) => continue (skip 1 al) pool publisher_num
          | (pool, Err e) => (pool, Err e)
          | (pool, Oops) => (pool, Oops)
          | (pool, Ok _) =>
              require negb (publisher_num =? pub_shm_infos_size) orelse (pool, Err ENOBUFS);
              unwrap local := pid_vnr_of (pub_pid p) orelse (pool, Err ESRCH);
              unwrap m := pool !! proc_mempool proc orelse (pool, Oops);
              let '(pool, r) := continue (skip 1 al) pool (publisher_num + 1) in
              (pool, match r with
                     | Ok infos => Ok (PublisherShmInfo local (addr m) :: infos)
                     | Err e => Err e
                     | Oops => Oops
                     end)
          end
      end
  end.

Definition set_publisher_shm_info `{KernelHash} (al : alloc) (pid_vnr_of : Z -> option Z)
    (rules : list domain_bridge_rule) (procs : list process_info) (t : topic_struct)
    (domain subscriber_pid : Z) (sub_bridge : bool) (pub_shm_infos_size : Z)
    (pool : list mempool_entry) : list mempool_entry * res (list publisher_shm_info) :=
  shm_info_loop al pid_vnr_of rules procs t domain subscriber_pid sub_bridge pub_shm_infos_size
    (pub_info_htable t) 0 pool.

(** The end both RECEIVE_MSG and TAKE_MSG share: map the publishers the subscriber has not mapped
    yet.  [s] is the subscriber as the call found it. *)
Definition update_publisher_shm `{KernelHash} {A} (al : alloc) (pid_vnr_of : Z -> option Z)
    (rules : list domain_bridge_rule) (procs : list process_info) (t : topic_struct) (domain : Z)
    (s : subscriber_info) (pub_shm_infos_size : Z) (pool : list mempool_entry) (a : A)
    : topic_struct * list mempool_entry * res (A * list publisher_shm_info) :=
  require need_mmap_update s orelse (t, pool, Ok (a, []));
  let '(pool, r) := set_publisher_shm_info al pid_vnr_of rules procs t domain (sub_pid s)
                      (sub_is_bridge s) pub_shm_infos_size pool in
  match r with
  | Ok infos => (upd_subscriber (sub_id s) (set_need_mmap_update false) t, pool, Ok (a, infos))
  | Err e => (t, pool, Err e)
  | Oops => (t, pool, Oops)
  end.

(** The body of [agnocast_ioctl_receive_msg] once the topic is found; [domain] is the domain of
    the wrapper it was found through. *)
Definition receive_msg_topic `{KernelHash} (al : alloc) (pid_vnr_of : Z -> option Z)
    (rules : list domain_bridge_rule) (procs : list process_info) (pool : list mempool_entry)
    (t : topic_struct) (domain subscriber_id pub_shm_infos_size : Z)
    : topic_struct * list mempool_entry * res (list (Z * Z) * bool * list publisher_shm_info) :=
  unwrap s := find_subscriber_info t subscriber_id orelse (t, pool, Err EINVAL);
  let '(t, r) := receive_msg_core rules procs t s subscriber_id in
  match r with
  | Err e => (t, pool, Err e)
  | Oops => (t, pool, Oops)
  | Ok out => update_publisher_shm al pid_vnr_of rules procs t domain s pub_shm_infos_size pool out
  end.

(** ** Taking *)

(** The loop of [agnocast_ioctl_take_msg]; [back] is the entries left, newest first. *)
Fixpoint take_loop `{KernelHash} (rules : list domain_bridge_rule) (procs : list process_info)
    (t : topic_struct) (s : subscriber_info) (allow_same_message : bool) (back : list entry_node)
    (searched_count : Z) (candidate_en : option entry_node) : res (option entry_node) :=
  match back with
  | [] => Ok candidate_en
  | en :: prev =>
      require searched_count <? sub_qos_depth s orelse Ok candidate_en;
      require negb (negb allow_same_message && (entry_id en =? latest_received_entry_id s))
        orelse Ok candidate_en;
      require negb (entry_id en <? latest_received_entry_id s) orelse Ok candidate_en;
      match is_entry_deliverable rules procs t s en with
      | Err e => Err e
      | Oops => Oops
      | Ok false => take_loop rules procs t s allow_same_message prev searched_count candidate_en
      | Ok true =>
          take_loop rules procs t s allow_same_message prev (u32 (searched_count + 1)) (Some en)
      end
  end.

(** [ret_addr] and [ret_entry_id]. *)
Record take_ret := TakeRet { take_addr : Z; take_entry_id : Z }.

(** The part of [agnocast_ioctl_take_msg] that picks and claims the entry. *)
Definition take_core `{KernelHash} (rules : list domain_bridge_rule) (procs : list process_info)
    (t : topic_struct) (s : subscriber_info) (subscriber_id : Z) (allow_same_message : bool)
    : topic_struct * res take_ret :=
  match take_loop rules procs t s allow_same_message (rev (entries t)) 0 None with
  | Err e => (t, Err e)
  | Oops => (t, Oops)
  | Ok None => (t, Ok (TakeRet 0 (-1)))
  | Ok (Some en) =>
      let '(en', r) := add_subscriber_reference en subscriber_id in
      let t := set_entries (hash_upd (fun x => entry_id x =? entry_id en) (fun _ => en')
                              (entries t)) t in
      let done := (upd_subscriber subscriber_id (set_latest_received (entry_id en)) t,
                   Ok (TakeRet (msg_virtual_address en) (entry_id en))) in
      match r with
      | Ok _ => done
      | Err e => if allow_same_message && bool_decide (e = EALREADY) then done else (t, Err e)
      | Oops => (t, Oops)
      end
  end.

Definition take_msg_topic `{KernelHash} (al : alloc) (pid_vnr_of : Z -> option Z)
    (rules : list domain_bridge_rule) (procs : list process_info) (pool : list mempool_entry)
    (t : topic_struct) (domain subscriber_id : Z) (allow_same_message : bool)
    (pub_shm_infos_size : Z)
    : topic_struct * list mempool_entry * res (take_ret * list publisher_shm_info) :=
  unwrap s := find_subscriber_info t subscriber_id orelse (t, pool, Err EINVAL);
  let '(t, r) := take_core rules procs t s subscriber_id allow_same_message in
  match r with
  | Err e => (t, pool, Err e)
  | Oops => (t, pool, Oops)
  | Ok out => update_publisher_shm al pid_vnr_of rules procs t domain s pub_shm_infos_size pool out
  end.

(** ** Releasing *)

(** The body of [agnocast_ioctl_release_message_entry_reference] once the topic is found. *)
Definition release_reference_topic (t : topic_struct) (pubsub_id entry_id' : Z)
    : topic_struct * res unit :=
  unwrap en := find_message_entry t entry_id' orelse (t, Err EINVAL);
  require negb ((pubsub_id <? 0) || (MAX_TOPIC_LOCAL_ID <=? pubsub_id)) orelse (t, Err EINVAL);
  require test_bit pubsub_id (referencing_subscribers en) orelse (t, Err EINVAL);
  (set_entries (hash_upd (fun x => entry_id x =? entry_id')
                  (fun x => set_refs (clear_bit pubsub_id (referencing_subscribers x)) x)
                  (entries t)) t, Ok tt).

(** ** Specification *)

(** Whether the subscriber may be handed the entry, when its publisher is in the topic. *)
Definition deliverable `{KernelHash} (rules : list domain_bridge_rule) (procs : list process_info)
    (t : topic_struct) (s : subscriber_info) (en : entry_node) : bool :=
  match find_publisher_info t (publisher_id en) with
  | None => false
  | Some p =>
      match agnocast_find_process_info procs (pub_pid p) with
      | None => false
      | Some proc =>
          negb (exited proc) && negb (ignore_local_publications s && (sub_pid s =? pub_pid p)) &&
          domain_delivery_allowed rules t (pub_domain_id p) (pub_is_bridge p)
            (sub_domain_id s) (sub_is_bridge s)
      end
  end.

(** The last [n] elements. *)
Definition newest {A} (n : nat) (l : list A) : list A := drop (length l - n) l.

(** The entries newer than [bound] that the subscriber may be handed, oldest first. *)
Definition pending `{KernelHash} (rules : list domain_bridge_rule) (procs : list process_info)
    (t : topic_struct) (s : subscriber_info) (bound : Z) : list entry_node :=
  filter (fun en => bound < entry_id en /\ deliverable rules procs t s en = true) (entries t).

(** A reference of subscriber [id] on each entry of [claimed]. *)
Definition claim_refs (id : Z) (claimed : list entry_node) (en : entry_node) : entry_node :=
  if bool_decide (en ∈ claimed) then set_refs (set_bit id (referencing_subscribers en)) en else en.

(** The topic after subscriber [id] was handed the entries [claimed] and [n] became its newest. *)
Definition claimed_topic (id n : Z) (claimed : list entry_node) (t : topic_struct)
    : topic_struct :=
  upd_subscriber id (set_latest_received n)
    (set_entries (claim_refs id claimed <$> entries t) t).

(** ** Lemmas: the entries in order *)

Lemma newest_snoc {A} n (l : list A) x : newest (S n) (l ++ [x]) = newest n l ++ [x].
Proof.
  unfold newest. rw length_app /=. rw drop_app_le; [|lia]. do 2 f_equal. lia.
Qed.

Lemma newest_0 {A} (l : list A) : newest 0 l = [].
Proof. unfold newest. apply drop_ge. lia. Qed.

Lemma newest_nil {A} n : newest n ([] : list A) = [].
Proof. unfold newest. by rw drop_nil. Qed.

Lemma length_newest {A} n (l : list A) : length (newest n l) = (length l `min` n)%nat.
Proof. unfold newest. rw length_drop. lia. Qed.

Lemma newest_suffix {A} n (l : list A) : exists pre, l = pre ++ newest n l.
Proof. exists (take (length l - n) l). unfold newest. by rw take_drop. Qed.

Lemma newest_subseteq {A} n (l : list A) x : x ∈ newest n l -> x ∈ l.
Proof. destruct (newest_suffix n l) as [pre Hl]. rw {2}Hl. set_solver. Qed.

Definition ordered (l : list entry_node) : Prop :=
  StronglySorted (fun a b => entry_id a < entry_id b) l.

Lemma ordered_app l1 l2 :
  ordered (l1 ++ l2) <->
  ordered l1 /\ ordered l2 /\ forall a b, a ∈ l1 -> b ∈ l2 -> entry_id a < entry_id b.
Proof.
  induction l1 as [|x l1 IH]; simpl.
  - split; [intros H; split_and!; [constructor|done|set_solver]|by intros (_ & H & _)].
  - split.
    + intros H. inv H as [|? ? Ho Hf]. apply IH in Ho as (Ho1 & Ho2 & Hb).
      apply Forall_app in Hf as [Hf1 Hf2]. rw Forall_forall in Hf2. split_and!; [by constructor|done|].
      intros a b [->|Ha]%elem_of_cons Hb'; [by apply Hf2|by apply Hb].
    + intros (Ho1 & Ho2 & Hb). inv Ho1 as [|? ? Ho Hf]. constructor.
      * apply IH. split_and!; [done|done|]. intros a b Ha. apply Hb. set_solver.
      * apply Forall_app. split; [done|]. apply Forall_forall. intros b. apply Hb. set_solver.
Qed.

Lemma ordered_nodup_ids l : ordered l -> NoDup (entry_id <$> l).
Proof.
  induction 1 as [|x l Ho IH Hf]; csimpl; constructor; [|done].
  intros (y & Heq & Hy)%list_elem_of_fmap. rw Forall_forall in Hf. specialize (Hf y Hy). lia.
Qed.

Lemma ordered_nodup l : ordered l -> NoDup l.
Proof. intros H%ordered_nodup_ids. by apply NoDup_fmap_1 in H. Qed.

Lemma ordered_filter (P : entry_node -> Prop) `{!forall x, Decision (P x)} l :
  ordered l -> ordered (filter P l).
Proof.
  induction 1 as [|x l Ho IH Hf]; [constructor|]. rw filter_cons. case_decide; [|done].
  constructor; [done|]. apply Forall_forall. intros y [_ Hy]%list_elem_of_filter.
  rw Forall_forall in Hf. auto.
Qed.

(** Replacing entries one for one, ids unchanged, keeps the order. *)
Lemma ordered_fmap (f : entry_node -> entry_node) l :
  (forall x, entry_id (f x) = entry_id x) -> ordered l -> ordered (f <$> l).
Proof.
  intros Hf. induction 1 as [|x l Ho IH Hx]; csimpl; [constructor|]. constructor; [done|].
  apply Forall_fmap. eapply Forall_impl; [exact Hx|]. intros y. simpl. by rw !Hf.
Qed.

Lemma last_elem_of {A} (l : list A) x : last l = Some x -> x ∈ l.
Proof. intros [l' ->]%last_Some. set_solver. Qed.

Lemma ordered_last l x y : ordered l -> last l = Some x -> y ∈ l -> entry_id y <= entry_id x.
Proof.
  intros Ho [l' ->]%last_Some Hy. apply ordered_app in Ho as (_ & _ & Hb).
  apply elem_of_app in Hy as [Hy|Hy]; [|set_solver by lia]. specialize (Hb y x Hy). set_solver by lia.
Qed.

(** ** Lemmas: receiving *)

Section receive_facts.
Context `{KernelHash} (rules : list domain_bridge_rule) (procs : list process_info)
  (t : topic_struct) (s : subscriber_info).

Lemma is_entry_deliverable_ok en :
  publisher_id en ∈ pub_id <$> pub_info_htable t ->
  is_entry_deliverable rules procs t s en = Ok (deliverable rules procs t s en).
Proof.
  intros (p & Hid & Hp)%list_elem_of_fmap. unfold is_entry_deliverable, deliverable.
  rw Hid. destruct (find_publisher_info_is_Some t p Hp) as [q ->].
  destruct (agnocast_find_process_info procs (pub_pid q)) as [proc|]; [|done].
  destruct (exited proc); simpl; [done|]. by destruct (ignore_local_publications s && _).
Qed.

Definition wanted (en : entry_node) : Prop :=
  latest_received_entry_id s < entry_id en /\ deliverable rules procs t s en = true.

#[export] Instance wanted_dec en : Decision (wanted en).
Proof. unfold wanted. apply _. Defined.

Lemma filter_wanted_old l :
  (forall en, en ∈ l -> entry_id en <= latest_received_entry_id s) -> filter wanted l = [].
Proof. intros Hl. apply filter_none. intros en Hen [? _]. specialize (Hl en Hen). lia. Qed.

Lemma receive_back_spec back after node num :
  ordered (rev back) -> i64 (latest_received_entry_id s + 1) = latest_received_entry_id s + 1 ->
  Forall (fun en => publisher_id en ∈ pub_id <$> pub_info_htable t) back ->
  0 <= num < sub_qos_depth s -> num + Z.of_nat (length back) < 2 ^ 32 ->
  let w := newest (Z.to_nat (sub_qos_depth s - num)) (filter wanted (rev back)) in
  exists node',
    receive_back rules procs t s back after node num = Ok (node', num + Z.of_nat (length w)) /\
    match w with
    | [] => node' = node
    | _ => exists pre en0 rest, rev back ++ after = pre ++ node' /\
             filter wanted node' = w ++ filter wanted after /\
             node' = en0 :: rest /\ latest_received_entry_id s < entry_id en0
    end.
Proof.
  intros Ho Hi Hpub Hnum Hfit. revert after node num Ho Hpub Hnum Hfit.
  induction back as [|en back IH]; intros after node num Ho Hpub Hnum Hfit w.
  { exists node. unfold w. rw newest_nil /= Z.add_0_r. done. }
  simpl in Ho. apply ordered_app in Ho as (Ho & _ & Hlt). apply Forall_cons in Hpub as [Hp Hpub].
  simpl length in Hfit. simpl in w. simpl receive_back. rw Hi.
  destruct (Z.ltb_spec (entry_id en) (latest_received_entry_id s + 1)) as [Hold|Hnew]; simpl.
  { assert (w = []) as ->.
    { unfold w. rw filter_wanted_old; [by rw newest_nil|]. intros x [Hx|Hx]%elem_of_app.
      - specialize (Hlt x en Hx). set_solver by lia.
      - set_solver by lia. }
    exists node. by rw Z.add_0_r. }
  rw (is_entry_deliverable_ok en Hp). unfold w. clear w. rw filter_app.
  destruct (deliverable rules procs t s en) eqn:Ed.
  - assert (wanted en) as Hw by (split; [lia|done]).
    assert (filter wanted [en] = [en]) as -> by (by rw filter_cons_True).
    assert (Z.to_nat (sub_qos_depth s - num) = S (Z.to_nat (sub_qos_depth s - (num + 1)))) as Hs
      by lia.
    rw Hs newest_snoc. unfold u32. rw Z.mod_small; [|lia].
    destruct (Z.leb_spec (sub_qos_depth s) (num + 1)).
    + assert (Z.to_nat (sub_qos_depth s - (num + 1)) = 0%nat) as -> by lia. rw newest_0 /=.
      exists (en :: after). split; [done|]. exists (rev back), en, after. rw -app_assoc.
      split_and!; [done|by rw filter_cons_True|done|lia].
    + destruct (IH (en :: after) (en :: after) (num + 1)) as (node' & Hrun & Hw'); [done|done|lia|lia|].
      rw Hrun. exists node'. split.
      * do 2 f_equal. rw length_app /=. lia.
      * destruct (newest _ _) as [|x w'] eqn:E; simpl.
        -- exists (rev back), en, after. rw -app_assoc Hw'.
           split_and!; [done|by rw filter_cons_True|done|lia].
        -- destruct Hw' as (pre & en0 & r0 & Hpre & Hf & Hn & Hlt0). exists pre, en0, r0.
           rw -app_assoc. split_and!; [done| |done|done].
           rw Hf filter_cons_True //= -app_assoc. done.
  - assert (~ wanted en) as Hw by (intros [_ ?]; congruence).
    assert (filter wanted [en] = []) as -> by (by rw filter_cons_False). rw app_nil_r.
    destruct (IH (en :: after) node num) as (node' & Hrun & Hw'); [done|done|lia|lia|].
    exists node'. split; [done|]. destruct (newest _ _); [done|].
    destruct Hw' as (pre & en0 & r0 & Hpre & Hf & Hn & Hlt0). exists pre, en0, r0.
    rw -app_assoc. split_and!; [done| |done|done]. by rw Hf filter_cons_False.
Qed.

Lemma claim_refs_nil id (l : list entry_node) : claim_refs id [] <$> l = l.
Proof.
  rw -{2}(list_fmap_id l). apply list_fmap_ext. intros i en _. unfold claim_refs.
  by rw bool_decide_false; [|set_solver].
Qed.

Lemma claim_refs_in id c en :
  en ∈ c -> claim_refs id c en = set_refs (set_bit id (referencing_subscribers en)) en.
Proof. intros Hn. unfold claim_refs. by rw bool_decide_true. Qed.

Lemma claim_refs_notin id c en : en ∉ c -> claim_refs id c en = en.
Proof. intros Hn. unfold claim_refs. by rw bool_decide_false. Qed.

Lemma claim_refs_cons id c en (l : list entry_node) :
  en ∉ l -> claim_refs id (en :: c) <$> l = claim_refs id c <$> l.
Proof.
  intros Hn. apply list_fmap_ext. intros i x Hx%list_elem_of_lookup_2. unfold claim_refs.
  destruct (decide (x ∈ c)).
  - rw !bool_decide_true; [done|done|set_solver].
  - rw !bool_decide_false; [done|done|]. set_solver.
Qed.

Lemma claim_refs_outside id c (l : list entry_node) :
  (forall en, en ∈ l -> en ∉ c) -> claim_refs id c <$> l = l.
Proof.
  intros Hn. rw -{2}(list_fmap_id l). apply list_fmap_ext.
  intros i en Hi%list_elem_of_lookup_2. apply claim_refs_notin. auto.
Qed.

Lemma add_reference_ok id en :
  0 <= id < MAX_TOPIC_LOCAL_ID -> test_bit id (referencing_subscribers en) = false ->
  add_subscriber_reference en id =
    (set_refs (set_bit id (referencing_subscribers en)) en, Ok tt).
Proof.
  intros Hid Hb. unfold add_subscriber_reference.
  destruct (Z.ltb_spec id 0); [lia|]. destruct (Z.leb_spec MAX_TOPIC_LOCAL_ID id); [lia|].
  simpl. by rw Hb.
Qed.

Definition deliverable_entry (en : entry_node) : Prop := deliverable rules procs t s en = true.

#[export] Instance deliverable_entry_dec en : Decision (deliverable_entry en).
Proof. unfold deliverable_entry. apply _. Defined.

Lemma receive_forward_spec id dn node num :
  0 <= id < MAX_TOPIC_LOCAL_ID -> NoDup node ->
  Forall (fun en => publisher_id en ∈ pub_id <$> pub_info_htable t) node ->
  Forall (fun en => deliverable_entry en ->
    test_bit id (referencing_subscribers en) = false) node ->
  0 <= num <= MAX_RECEIVE_NUM -> dn = num + Z.of_nat (length (filter deliverable_entry node)) ->
  let claimed := take (Z.to_nat (MAX_RECEIVE_NUM - num)) (filter deliverable_entry node) in
  receive_forward rules procs t s id dn node num =
    (claim_refs id claimed <$> node,
     Ok ((fun en => (entry_id en, msg_virtual_address en)) <$> claimed, MAX_RECEIVE_NUM <? dn)).
Proof.
  intros Hid Hd Hpub Hbit. revert num Hd Hpub Hbit.
  induction node as [|en node IH]; intros num Hd Hpub Hbit Hnum Hdn claimed.
  { unfold claimed. simpl in *. rw take_nil /=. do 3 f_equal. symmetry. apply Z.ltb_ge. lia. }
  apply NoDup_cons in Hd as [Hen Hd]. apply Forall_cons in Hpub as [Hp Hpub].
  apply Forall_cons in Hbit as [Hb Hbit]. simpl receive_forward.
  destruct (Z.eqb_spec num MAX_RECEIVE_NUM) as [->|Hne]; cbn [negb].
  { unfold claimed. rw Z.sub_diag (take_0 (filter _ _)) claim_refs_nil. done. }
  rw (is_entry_deliverable_ok en Hp). unfold claimed. clear claimed.
  destruct (deliverable rules procs t s en) eqn:Ed.
  - assert (deliverable_entry en) as Hde by done.
    rw filter_cons_True // in Hdn. simpl in Hdn. rw filter_cons_True //.
    assert (Z.to_nat (MAX_RECEIVE_NUM - num) = S (Z.to_nat (MAX_RECEIVE_NUM - (num + 1)))) as Hs
      by lia.
    rw Hs. csimpl. rw (add_reference_ok id en Hid (Hb Hde)).
    rw (IH (num + 1) Hd Hpub Hbit); [|lia|lia].
    rw claim_refs_cons //. do 2 f_equal.
    unfold claim_refs. rw bool_decide_true; [done|set_solver].
  - assert (~ deliverable_entry en) as Hde by (unfold deliverable_entry; congruence).
    rw filter_cons_False // in Hdn. rw filter_cons_False //.
    rw (IH num Hd Hpub Hbit) //. csimpl. do 2 f_equal.
    unfold claim_refs. rw bool_decide_false; [done|]. intros Hin%elem_of_take.
    destruct Hin as (i & Hi & _). apply list_elem_of_lookup_2, list_elem_of_filter in Hi as [? _].
    done.
Qed.
End receive_facts.

(** ** Lemmas: handing entries to a subscriber *)

Lemma claim_refs_id id c en : entry_id (claim_refs id c en) = entry_id en.
Proof. unfold claim_refs. by case_bool_decide. Qed.

Lemma claim_refs_pub id c en : publisher_id (claim_refs id c en) = publisher_id en.
Proof. unfold claim_refs. by case_bool_decide. Qed.

(** What the invariant and the notify lists read of a subscriber. *)
Definition notify_view (s : subscriber_info) : option Z * Z * bool * bool * Z :=
  (notify_ctx s, sub_domain_id s, sub_is_bridge s, ignore_local_publications s, sub_pid s).

Lemma notify_ok_subs_ext rules t t' :
  pub_info_htable t' = pub_info_htable t -> rule t' = rule t ->
  notify_view <$> sub_info_htable t' = notify_view <$> sub_info_htable t ->
  notify_ok rules t -> notify_ok rules t'.
Proof.
  intros Hp Hr Hv Hok. unfold notify_ok in *. rw Hp. eapply Forall_impl; [exact Hok|].
  intros p [Hl Hc]. split.
  - rw Hl. clear Hl Hc Hok Hp. revert Hv. generalize (sub_info_htable t').
    induction (sub_info_htable t) as [|s l IH]; intros [|s' l'] Hv; csimpl in *; try done.
    injection Hv as H1 H2 H3 H4 H5 Hv. rw (IH l' Hv).
    assert (notify_target rules t' p s' = notify_target rules t p s) as ->; [|done].
    unfold notify_target, domain_delivery_allowed. by rw Hr H1 H2 H3 H4 H5.
  - unfold notifiable_subscriber_num in *.
    assert (length (filter (fun s => is_Some (notify_ctx s)) (sub_info_htable t')) =
            length (filter (fun s => is_Some (notify_ctx s)) (sub_info_htable t))) as ->; [|done].
    clear Hl Hc Hok Hp. revert Hv. generalize (sub_info_htable t').
    induction (sub_info_htable t) as [|s l IH]; intros [|s' l'] Hv; csimpl in *; try done.
    injection Hv as H1 H2 H3 H4 H5 Hv. specialize (IH l' Hv). rw !filter_cons H1.
    case_decide; simpl; congruence.
Qed.

Lemma num_entries_of_fmap (f : entry_node -> entry_node) id l :
  (forall x, publisher_id (f x) = publisher_id x) ->
  num_entries_of id (f <$> l) = num_entries_of id l.
Proof.
  intros Hf. unfold num_entries_of, entries_of. f_equal. induction l as [|x l IH]; [done|].
  csimpl. rw !filter_cons Hf. case_decide; simpl; congruence.
Qed.

(** Writing the reference bits of the entries and one subscriber's newest entry keeps the
    invariant when the references stay legitimate and the subscriber does not go back. *)
Lemma topic_wf_touch t s n (f : entry_node -> entry_node) :
  topic_wf t -> s ∈ sub_info_htable t ->
  (forall x, entry_id (f x) = entry_id x) -> (forall x, publisher_id (f x) = publisher_id x) ->
  latest_received_entry_id s <= n < current_entry_id t ->
  (forall en, en ∈ entries t -> 0 <= referencing_subscribers (f en) /\
     forall id, test_bit id (referencing_subscribers (f en)) = true ->
       test_bit id (referencing_subscribers en) = true \/ id = sub_id s /\ entry_id en <= n) ->
  topic_wf (upd_subscriber (sub_id s) (set_latest_received n) (set_entries (f <$> entries t) t)).
Proof.
  intros Hwf Hs Hid Hpub Hn Hbits. set (t' := upd_subscriber _ _ _).
  assert (sub_id <$> sub_info_htable t' = sub_id <$> sub_info_htable t) as Hids
    by (apply fmap_hash_upd; done).
  assert (endpoint_ids t' = endpoint_ids t) as He by (unfold endpoint_ids; by rw Hids).
  pose proof (find_subscriber_info_unique (H := length_hash) t s) as Huniq.
  pose proof (wf_ids_nodup _ Hwf) as Hnd. apply NoDup_app in Hnd as (_ & _ & Hnd).
  specialize (Huniq Hnd Hs). rw find_subscriber_info_eq in Huniq.
  destruct Hwf. split; rw ?He; try done; simpl.
  - by apply ordered_fmap.
  - apply Forall_fmap. eapply Forall_impl; [exact wf_entry_ids|]. intros x. simpl. by rw Hid.
  - unfold agnocast_get_size_sub_info_htable in *. simpl. by rw length_hash_upd.
  - apply Forall_fmap. eapply Forall_impl; [exact wf_publishers|]. intros x. simpl. by rw Hpub.
  - eapply Forall_impl; [exact wf_entries_num|]. intros p ->. simpl. by rw num_entries_of_fmap.
  - apply Forall_fmap, Forall_forall. intros en Hen. simpl.
    destruct (Hbits en Hen) as [H0 Hb]. split; [done|]. intros id Hbit. rw Hid.
    rw Forall_forall in wf_refs. destruct (wf_refs en Hen) as [_ Hrefs].
    assert (set_latest_received n s ∈ sub_info_htable t') as Hs'.
    { pose proof (find_hash_upd (fun s0 => sub_id s0 =? sub_id s) (set_latest_received n)
        (sub_info_htable t) (fun x H => H)) as Hfu. rw Huniq in Hfu. simpl in Hfu.
      apply find_Some_inv in Hfu as [Hin _]. exact Hin. }
    destruct (Hb id Hbit) as [Hold|[-> Hle]].
    + destruct (Hrefs id Hold) as (s0 & Hs0 & Hid0 & Hle).
      destruct (decide (sub_id s0 = sub_id s)) as [Heq|Hne].
      * assert (s0 = s) as -> by (eapply (NoDup_fmap_inj_on sub_id); eauto).
        exists (set_latest_received n s). split_and!; [done|done|simpl; lia].
      * exists s0. split_and!; [|done|done]. apply elem_of_hash_upd_other; [done|by apply Z.eqb_neq].
    + exists (set_latest_received n s). by split_and!.
  - apply Forall_forall. intros x [Hx|(y & Hy & _ & ->)]%elem_of_hash_upd.
    + rw Forall_forall in wf_latest. auto.
    + rw Forall_forall in wf_latest. specialize (wf_latest s Hs). simpl. lia.
  - apply Forall_forall. rw Forall_forall in wf_sub_depth.
    intros x [Hx|(y & Hy & _ & ->)]%elem_of_hash_upd; simpl; auto.
  - unfold counters_fit in *. simpl. by rw length_fmap.
Qed.

Lemma newest_nonempty {A} n (l : list A) : newest n l <> [] -> n <> 0%nat.
Proof. intros Hw ->. by rw newest_0 in Hw. Qed.

Lemma set_refs_same en : set_refs (referencing_subscribers en) en = en.
Proof. by destruct en. Qed.

Section handing.
Context `{KernelHash} (rules : list domain_bridge_rule) (procs : list process_info).

Lemma claimed_topic_nil t s :
  topic_wf t -> find_subscriber_info t (sub_id s) = Some s ->
  claimed_topic (sub_id s) (latest_received_entry_id s) [] t = t.
Proof.
  intros Hwf Hf. unfold claimed_topic, upd_subscriber. rw claim_refs_nil.
  rw find_subscriber_info_eq in Hf.
  assert (hash_upd (fun s0 => sub_id s0 =? sub_id s)
    (set_latest_received (latest_received_entry_id s)) (sub_info_htable t) = sub_info_htable t)
    as Hu by (eapply hash_upd_id; [exact Hf|by destruct s]).
  destruct t. unfold set_entries, set_subs. simpl in *. by rw Hu.
Qed.

(** A subscriber holds no reference to an entry newer than the newest it was handed. *)
Lemma newer_unreferenced t s en :
  topic_wf t -> s ∈ sub_info_htable t -> en ∈ entries t ->
  latest_received_entry_id s < entry_id en ->
  test_bit (sub_id s) (referencing_subscribers en) = false.
Proof.
  intros Hwf Hs Hen Hlt. destruct (test_bit _ _) eqn:Hb; [|done].
  pose proof (wf_refs _ Hwf) as Hr. rw Forall_forall in Hr. destruct (Hr en Hen) as [_ Hr'].
  destruct (Hr' _ Hb) as (s0 & Hs0 & Hid & Hle).
  pose proof (wf_ids_nodup _ Hwf) as Hnd. apply NoDup_app in Hnd as (_ & _ & Hnd).
  assert (s0 = s) as -> by (eapply (NoDup_fmap_inj_on sub_id); eauto). lia.
Qed.

Lemma sub_id_range t s :
  topic_wf t -> s ∈ sub_info_htable t -> 0 <= sub_id s < MAX_TOPIC_LOCAL_ID.
Proof.
  intros Hwf Hs. pose proof (wf_ids_range _ Hwf) as Hr. pose proof (wf_ids_bound _ Hwf).
  rw Forall_forall in Hr. specialize (Hr (sub_id s)). unfold endpoint_ids in Hr.
  assert (sub_id s ∈ sub_id <$> sub_info_htable t) by (by apply list_elem_of_fmap_2).
  set_solver by lia.
Qed.

Lemma i64_latest t s :
  topic_wf t -> s ∈ sub_info_htable t ->
  i64 (latest_received_entry_id s + 1) = latest_received_entry_id s + 1.
Proof.
  intros Hwf Hs. pose proof (wf_latest _ Hwf) as Hl. rw Forall_forall in Hl.
  specialize (Hl s Hs). destruct (wf_fit _ Hwf) as [_ Hf]. unfold i64.
  rw Z.mod_small; [|lia]. by rw (proj2 (Z.ltb_lt _ _)); [|lia].
Qed.

Lemma entry_publisher_in t l :
  topic_wf t -> (forall en, en ∈ l -> en ∈ entries t) ->
  Forall (fun en => publisher_id en ∈ pub_id <$> pub_info_htable t) l.
Proof.
  intros Hwf Hl. pose proof (wf_publishers _ Hwf) as Hp. rw Forall_forall in Hp.
  apply Forall_forall. auto.
Qed.

Definition window (t : topic_struct) (s : subscriber_info) : list entry_node :=
  newest (Z.to_nat (sub_qos_depth s)) (pending rules procs t s (latest_received_entry_id s)).

Lemma receive_msg_core_spec t s :
  topic_wf t -> find_subscriber_info t (sub_id s) = Some s ->
  let claimed := take (Z.to_nat MAX_RECEIVE_NUM) (window t s) in
  receive_msg_core rules procs t s (sub_id s) =
    (claimed_topic (sub_id s) (default (latest_received_entry_id s) (entry_id <$> last claimed))
       claimed t,
     Ok ((fun en => (entry_id en, msg_virtual_address en)) <$> claimed,
         MAX_RECEIVE_NUM <? Z.of_nat (length (window t s)))).
Proof.
  intros Hwf Hf claimed. pose proof (find_subscriber_info_Some _ _ _ Hf) as [Hs _].
  pose proof (wf_sorted _ Hwf) as Ho. change (ordered (entries t)) in Ho.
  assert (window t s = [] -> (t, Ok ([], false)) =
    (claimed_topic (sub_id s) (default (latest_received_entry_id s) (entry_id <$> last claimed))
       claimed t, Ok ((fun en => (entry_id en, msg_virtual_address en)) <$> claimed,
         MAX_RECEIVE_NUM <? Z.of_nat (length (window t s))))) as Hnone.
  { intros Hw. unfold claimed. rw Hw. simpl. by rw claimed_topic_nil. }
  unfold receive_msg_core. case_bool_decide as Hnil; simpl.
  { apply Hnone. unfold window, pending. rw Hnil. apply newest_nil. }
  destruct (Z.eqb_spec (sub_qos_depth s) 0) as [Hd0|Hd0]; simpl.
  { apply Hnone. unfold window. rw Hd0. apply newest_0. }
  pose proof (wf_sub_depth _ Hwf) as Hd. rw Forall_forall in Hd. specialize (Hd s Hs).
  pose proof (wf_fit _ Hwf) as [Hfit _].
  destruct (receive_back_spec rules procs t s (rev (entries t)) [] [] 0) as (node' & -> & Hw).
  { by rw rev_involutive. } { by eapply i64_latest. }
  { apply (entry_publisher_in t); [done|]. intros en. by rw !list_elem_of_In -in_rev. } { lia. }
  { by rw length_rev. }
  rw Z.sub_0_r rev_involutive in Hw. rw Z.sub_0_r rev_involutive.
  change (newest (Z.to_nat (sub_qos_depth s)) _) with (window t s) in *.
  destruct (window t s) as [|w0 ws] eqn:Ew.
  { subst node'. simpl. rw Nat.sub_0_r firstn_all app_nil_r -Hnone //. by destruct t. }
  destruct Hw as (pre & en0 & r0 & Hpre & Hfil & Hn0 & Hlt0). rw app_nil_r in Hpre.
  rw app_nil_r in Hfil.
  assert (forall en, en ∈ node' -> en ∈ entries t /\ latest_received_entry_id s < entry_id en)
    as Hnew.
  { rw Hpre in Ho. apply ordered_app in Ho as (_ & Ho & _). rw Hn0 in Ho. inv Ho as [|? ? _ Hf0].
    rw Forall_forall in Hf0. intros en Hen. split; [rw Hpre; set_solver|].
    apply elem_of_cons in Hen as [->|Hen]; [done|]. specialize (Hf0 en Hen). lia. }
  assert (filter (deliverable_entry rules procs t s) node' = w0 :: ws) as Hfd.
  { rw -Hfil. apply list_filter_iff'. intros en Hen. destruct (Hnew en Hen) as [_ Hlt].
    unfold wanted, deliverable_entry. tauto. }
  assert (NoDup (pre ++ node')) as Hnd by (rw -Hpre; by apply ordered_nodup).
  assert (forall en, en ∈ claimed -> en ∈ node') as Hcl.
  { intros en Hen. unfold claimed in Hen. rw -Hfd in Hen.
    apply elem_of_take in Hen as (i & Hi & _).
    by apply list_elem_of_lookup_2, list_elem_of_filter in Hi as [_ ?]. }
  rw (receive_forward_spec rules procs t s (sub_id s) _ node' 0).
  - rw Hfd Z.sub_0_r Z.add_0_l. change (take (Z.to_nat MAX_RECEIVE_NUM) (w0 :: ws)) with claimed.
    rw fmap_last. assert (take (length (entries t) - length node') (entries t) ++
      (claim_refs (sub_id s) claimed <$> node') = claim_refs (sub_id s) claimed <$> entries t) as ->.
    { rw Hpre length_app take_app_length'; [|lia]. rw fmap_app (claim_refs_outside _ _ pre) //.
      intros en Hen Hin. apply NoDup_app in Hnd as (_ & Hdis & _). by eapply Hdis, Hcl. }
    destruct (last claimed) as [en|] eqn:El; [done|].
    unfold claimed in El. rw last_None in El. done.
  - by eapply sub_id_range.
  - by apply NoDup_app in Hnd as (_ & _ & ?).
  - apply (entry_publisher_in t); [done|]. intros en Hen. by apply Hnew.
  - apply Forall_forall. intros en Hen _. destruct (Hnew en Hen). by eapply newer_unreferenced.
  - unfold MAX_RECEIVE_NUM. lia.
  - by rw Hfd.
Qed.

(** ** Lemmas: taking *)

Definition takeable (t : topic_struct) (s : subscriber_info) (bound : Z) (en : entry_node) : Prop :=
  bound < entry_id en /\ deliverable rules procs t s en = true.

#[export] Instance takeable_dec t s bound en : Decision (takeable t s bound en).
Proof. unfold takeable. apply _. Defined.

(** The newest entry a take never goes back behind. *)
Definition take_bound (s : subscriber_info) (allow_same_message : bool) : Z :=
  if allow_same_message then latest_received_entry_id s - 1 else latest_received_entry_id s.

Definition oldest_of (l : list entry_node) (default : option entry_node) : option entry_node :=
  match l with [] => default | x :: _ => Some x end.

Lemma take_loop_spec t s allow back num cand :
  ordered (rev back) ->
  Forall (fun en => publisher_id en ∈ pub_id <$> pub_info_htable t) back ->
  0 <= num <= sub_qos_depth s -> num + Z.of_nat (length back) < 2 ^ 32 ->
  take_loop rules procs t s allow back num cand =
    Ok (oldest_of (newest (Z.to_nat (sub_qos_depth s - num))
                     (filter (takeable t s (take_bound s allow)) (rev back))) cand).
Proof.
  intros Ho Hpub Hnum Hfit. revert num cand Ho Hpub Hnum Hfit.
  induction back as [|en back IH]; intros num cand Ho Hpub Hnum Hfit.
  { cbn [take_loop rev]. by rw filter_nil newest_nil. }
  simpl in Ho. apply ordered_app in Ho as (Ho & _ & Hlt). apply Forall_cons in Hpub as [Hp Hpub].
  simpl length in Hfit. cbn [take_loop rev].
  destruct (Z.ltb_spec num (sub_qos_depth s)) as [Hd|Hd].
  2: { assert (Z.to_nat (sub_qos_depth s - num) = 0%nat) as -> by lia. by rw newest_0. }
  destruct (decide (take_bound s allow < entry_id en)) as [Hnew|Hold].
  2: { assert (filter (takeable t s (take_bound s allow)) (rev back ++ [en]) = []) as Hnil.
    { apply filter_none. intros x Hx [Hb _]. apply elem_of_app in Hx as [Hx|Hx].
      - specialize (Hlt x en Hx). set_solver by lia.
      - set_solver by lia. }
    rw Hnil newest_nil /=. unfold take_bound in Hold. destruct allow; simpl.
    - destruct (Z.ltb_spec (entry_id en) (latest_received_entry_id s)); [done|lia].
    - destruct (Z.eqb_spec (entry_id en) (latest_received_entry_id s)); [done|].
      destruct (Z.ltb_spec (entry_id en) (latest_received_entry_id s)); [done|lia]. }
  assert (negb (negb allow && (entry_id en =? latest_received_entry_id s)) = true /\
    negb (entry_id en <? latest_received_entry_id s) = true) as [-> ->].
  { unfold take_bound in Hnew. destruct (Z.ltb_spec (entry_id en) (latest_received_entry_id s)),
      (Z.eqb_spec (entry_id en) (latest_received_entry_id s)), allow; simpl; split; done || lia. }
  rw (is_entry_deliverable_ok _ _ _ _ en Hp) filter_app.
  destruct (deliverable rules procs t s en) eqn:Ed.
  - assert (filter (takeable t s (take_bound s allow)) [en] = [en]) as ->
      by (by rw filter_cons_True).
    assert (Z.to_nat (sub_qos_depth s - num) = S (Z.to_nat (sub_qos_depth s - (num + 1)))) as Hs
      by lia.
    rw Hs newest_snoc. unfold u32. rw Z.mod_small; [|lia].
    rw IH; [|done|done|lia|lia]. by destruct (newest _ _).
  - assert (filter (takeable t s (take_bound s allow)) [en] = []) as ->
      by (rw filter_cons_False; [done|intros [_ ?]; congruence]).
    rw app_nil_r. apply IH; [done|done|lia|lia].
Qed.

Lemma claim_one_upd id en l :
  ordered l -> en ∈ l ->
  hash_upd (fun x => entry_id x =? entry_id en)
    (fun _ => set_refs (set_bit id (referencing_subscribers en)) en) l = claim_refs id [en] <$> l.
Proof.
  intros Ho Hen. pose proof (ordered_nodup_ids _ Ho) as Hd. clear Ho. revert Hd Hen.
  induction l as [|x l IH]; intros Hd Hen; csimpl in *; [done|].
  apply NoDup_cons in Hd as [Hx Hd].
  destruct (Z.eqb_spec (entry_id x) (entry_id en)) as [Heq|Hne].
  - assert (x = en) as ->.
    { apply elem_of_cons in Hen as [->|Hen]; [done|]. exfalso. apply Hx. rw Heq.
      by apply list_elem_of_fmap_2. }
    rw (claim_refs_in _ _ en); [|set_solver]. f_equal. rw claim_refs_outside; [done|].
    intros y Hy ->%list_elem_of_singleton. apply Hx. by apply list_elem_of_fmap_2.
  - apply elem_of_cons in Hen as [->|Hen]; [done|].
    rw (claim_refs_notin _ _ x); [by rw IH|]. by intros ->%list_elem_of_singleton.
Qed.

Lemma take_core_spec t s allow :
  topic_wf t -> find_subscriber_info t (sub_id s) = Some s ->
  take_core rules procs t s (sub_id s) allow =
    match newest (Z.to_nat (sub_qos_depth s)) (pending rules procs t s (take_bound s allow)) with
    | [] => (t, Ok (TakeRet 0 (-1)))
    | en :: _ => (claimed_topic (sub_id s) (entry_id en) [en] t,
                  Ok (TakeRet (msg_virtual_address en) (entry_id en)))
    end.
Proof.
  intros Hwf Hf. pose proof (find_subscriber_info_Some _ _ _ Hf) as [Hs _].
  pose proof (wf_sorted _ Hwf) as Ho. change (ordered (entries t)) in Ho.
  pose proof (wf_sub_depth _ Hwf) as Hd. rw Forall_forall in Hd. specialize (Hd s Hs).
  pose proof (wf_fit _ Hwf) as [Hfit _]. unfold take_core.
  rw take_loop_spec.
  2: { by rw rev_involutive. }
  2: { apply (entry_publisher_in t); [done|]. intros en. by rw !list_elem_of_In -in_rev. }
  2: { lia. } 2: { by rw length_rev. }
  rw Z.sub_0_r rev_involutive.
  change (filter (takeable t s (take_bound s allow)) (entries t))
    with (pending rules procs t s (take_bound s allow)).
  destruct (newest _ _) as [|en w] eqn:Ew; [done|]. cbn [oldest_of].
  assert (en ∈ pending rules procs t s (take_bound s allow)) as Hen
    by (apply (newest_subseteq (Z.to_nat (sub_qos_depth s))); rw Ew; set_solver).
  apply list_elem_of_filter in Hen as [[Hb _] Hen].
  pose proof (sub_id_range _ _ Hwf Hs) as Hid. unfold claimed_topic.
  destruct (test_bit (sub_id s) (referencing_subscribers en)) eqn:Hbit.
  - assert (allow = true) as ->.
    { destruct allow; [done|]. unfold take_bound in Hb.
      by rw (newer_unreferenced t s en Hwf Hs Hen Hb) in Hbit. }
    unfold add_subscriber_reference.
    destruct (Z.ltb_spec (sub_id s) 0), (Z.leb_spec MAX_TOPIC_LOCAL_ID (sub_id s)); try lia.
    rw Hbit. simpl. rw -(claim_one_upd _ _ _ Ho Hen) set_bit_already // set_refs_same. done.
  - rw (add_reference_ok _ en Hid Hbit) (claim_one_upd _ _ _ Ho Hen). done.
Qed.
End handing.

(** ** Lemmas: publishing *)

Definition own (id : Z) (l : list entry_node) : list entry_node := entries_of id l.

Definition unreferenced (en : entry_node) : Prop := agnocast_is_referenced en = false.
#[export] Instance unreferenced_dec en : Decision (unreferenced en).
Proof. unfold unreferenced. apply _. Defined.

(** What one publication releases: of the [excess] oldest entries of the publisher, the first
    [n] that no subscriber references. *)
Definition released (id : Z) (excess n : nat) (l : list entry_node) : list entry_node :=
  take n (filter unreferenced (take excess (own id l))).

(** [l] without the entries of [gone]. *)
Definition without (gone l : list entry_node) : list entry_node :=
  filter (fun en => en ∉ gone) l.

Lemma released_own id k n l en :
  en ∈ released id k n l -> en ∈ l /\ publisher_id en = id /\ agnocast_is_referenced en = false.
Proof.
  unfold released. intros (i & Hi & _)%elem_of_take.
  apply list_elem_of_lookup_2, list_elem_of_filter in Hi as [Hu (j & Hj & _)%elem_of_take].
  apply list_elem_of_lookup_2, list_elem_of_filter in Hj as [Hp Hin]. done.
Qed.

Lemma without_nil l : without [] l = l.
Proof.
  unfold without. induction l as [|x l IH]; [done|]. rw filter_cons_True; [by rw IH|set_solver].
Qed.

Lemma without_cons_notin gone en l : en ∉ l -> without (en :: gone) l = without gone l.
Proof. intros Hn. apply list_filter_iff'. intros x Hx. set_solver. Qed.

Lemma without_skip gone en l : en ∉ gone -> without gone (en :: l) = en :: without gone l.
Proof. intros Hn. unfold without. by rw filter_cons_True. Qed.

Lemma without_drop gone en l : en ∈ gone -> without gone (en :: l) = without gone l.
Proof. intros Hn. unfold without. by rw filter_cons_False; [|intros ?]. Qed.

Lemma elem_of_without gone l en : en ∈ without gone l <-> en ∈ l /\ en ∉ gone.
Proof. unfold without. rw list_elem_of_filter. tauto. Qed.

Lemma release_loop_spec id k n l :
  NoDup l -> 0 <= k < Z.of_nat (length (own id l)) -> 0 <= n <= MAX_RELEASE_NUM ->
  let gone := released id (Z.to_nat k) (Z.to_nat (MAX_RELEASE_NUM - n)) l in
  release_loop id k n l = (without gone l, msg_virtual_address <$> gone, Ok tt).
Proof.
  revert k n. induction l as [|en l IH]; intros k n Hd Hk Hn gone; [simpl in Hk; lia|].
  apply NoDup_cons in Hd as [Hen Hd]. cbn [release_loop].
  destruct ((0 <? k) && (n <? MAX_RELEASE_NUM)) eqn:Hgo.
  2: { assert (gone = []) as ->; [|by rw without_nil]. unfold gone, released. bool_cases.
    - assert (Z.to_nat k = 0%nat) as -> by lia. by rw take_0 filter_nil take_nil.
    - assert (Z.to_nat (MAX_RELEASE_NUM - n) = 0%nat) as -> by lia. by rw take_0. }
  bool_to_prop.
  assert (l <> []) as Hl.
  { intros ->. unfold own, entries_of in Hk. rw filter_cons filter_nil in Hk.
    case_decide; simpl in Hk; lia. }
  assert (forall A (a b : A), match l with [] => a | _ => b end = b) as Hm by (intros; by destruct l).
  rw Hm. clear Hm. subst gone.
  assert (forall m g, en ∉ released id m g l) as Hout by (intros m g [? _]%released_own; done).
  destruct (Z.eqb_spec (publisher_id en) id) as [Hp|Hp]; simpl negb; cbv iota.
  - assert (own id (en :: l) = en :: own id l) as Ho by (unfold own, entries_of; by rw filter_cons_True).
    rw Ho in Hk. simpl length in Hk.
    assert (Z.to_nat k = S (Z.to_nat (k - 1))) as Hsk by lia.
    destruct (agnocast_is_referenced en) eqn:Er.
    + rw (IH (k - 1) n Hd); [|lia|lia]. unfold released. rw Ho Hsk.
      cbn [take]. rw filter_cons_False; [|unfold unreferenced; congruence].
      rw without_skip; [done|]. apply Hout.
    + rw (IH (k - 1) (n + 1) Hd); [|lia|lia].
      assert (released id (Z.to_nat k) (Z.to_nat (MAX_RELEASE_NUM - n)) (en :: l) =
        en :: released id (Z.to_nat (k - 1)) (Z.to_nat (MAX_RELEASE_NUM - (n + 1))) l) as ->.
      { unfold released. rw Ho Hsk. cbn [take]. rw filter_cons_True //.
        assert (Z.to_nat (MAX_RELEASE_NUM - n) = S (Z.to_nat (MAX_RELEASE_NUM - (n + 1)))) as ->
          by lia. done. }
      rw without_drop; [|set_solver]. rw without_cons_notin //.
  - assert (own id (en :: l) = own id l) as Ho by (unfold own, entries_of; by rw filter_cons_False).
    rw Ho in Hk. rw (IH k n Hd Hk Hn). unfold released. rw Ho.
    rw without_skip; [done|]. apply Hout.
Qed.

(** Whatever its counters, the loop only drops unreferenced entries of the publisher. *)
Lemma release_loop_gen id k n l l' addrs r :
  NoDup l -> l <> [] -> n <= MAX_RELEASE_NUM -> release_loop id k n l = (l', addrs, r) ->
  (r = Ok tt \/ r = Err ENODATA) /\
  exists gone, l' = without gone l /\ addrs = msg_virtual_address <$> gone /\ NoDup gone /\
    n + Z.of_nat (length gone) <= MAX_RELEASE_NUM /\
    forall en, en ∈ gone -> en ∈ l /\ publisher_id en = id /\ agnocast_is_referenced en = false.
Proof.
  revert k n l' addrs r. induction l as [|en l IH]; intros k n l' addrs r Hd Hl Hn Hrun; [done|].
  apply NoDup_cons in Hd as [Hen Hd]. cbn [release_loop] in Hrun.
  assert (forall r0, r0 = Ok tt \/ r0 = Err ENODATA -> (en :: l, [], r0) = (l', addrs, r) ->
    (r = Ok tt \/ r = Err ENODATA) /\
    exists gone, l' = without gone (en :: l) /\ addrs = msg_virtual_address <$> gone /\
      NoDup gone /\ n + Z.of_nat (length gone) <= MAX_RELEASE_NUM /\
      forall x, x ∈ gone -> x ∈ en :: l /\ publisher_id x = id /\
        agnocast_is_referenced x = false) as Hstop.
  { intros r0 Hr0 [= <- <- <-]. split; [done|]. exists []. rw without_nil.
    split_and!; [done|done|constructor|simpl; lia|set_solver]. }
  destruct ((0 <? k) && (n <? MAX_RELEASE_NUM)) eqn:Hgo; [|by eapply Hstop; [|exact Hrun]; auto].
  bool_to_prop. destruct l as [|x l]; [eapply Hstop; [|exact Hrun]; auto|].
  assert (forall k' n' l1 a1 r1, n <= n' <= MAX_RELEASE_NUM ->
    release_loop id k' n' (x :: l) = (l1, a1, r1) ->
    (r1 = Ok tt \/ r1 = Err ENODATA) /\
    exists gone, l1 = without gone (x :: l) /\ a1 = msg_virtual_address <$> gone /\ NoDup gone /\
      n' + Z.of_nat (length gone) <= MAX_RELEASE_NUM /\ (en ∉ gone) /\
      forall y, y ∈ gone -> y ∈ en :: x :: l /\ publisher_id y = id /\
        agnocast_is_referenced y = false) as Hrec.
  { intros k' n' l1 a1 r1 Hn' Hrun1. apply IH in Hrun1 as (Hr & gone & ? & ? & ? & ? & Hg);
      [|done|done|lia]. split; [done|]. exists gone. split_and!; try done.
    - intros Hin. by apply Hg in Hin as (? & _).
    - intros y Hy. apply Hg in Hy as (? & ? & ?). set_solver. }
  clear IH Hstop. case_match eqn:Hp; [|case_match eqn:Her].
  - destruct (release_loop id k n (x :: l)) as [[l1 a1] r1] eqn:E. injection Hrun as <- <- <-.
    apply Hrec in E as (Hr & gone & -> & -> & Hnd & Hc & Hout & Hg); [|lia].
    split; [done|]. exists gone. rw (without_skip gone en) //.
  - destruct (release_loop id (k - 1) n (x :: l)) as [[l1 a1] r1] eqn:E. injection Hrun as <- <- <-.
    apply Hrec in E as (Hr & gone & -> & -> & Hnd & Hc & Hout & Hg); [|lia].
    split; [done|]. exists gone. rw (without_skip gone en) //.
  - destruct (release_loop id (k - 1) (n + 1) (x :: l)) as [[l1 a1] r1] eqn:E.
    injection Hrun as <- <- <-.
    apply Hrec in E as (Hr & gone & -> & -> & Hnd & Hc & Hout & Hg); [|lia].
    split; [done|]. exists (en :: gone). bool_to_prop.
    rw (without_drop _ en); [|set_solver]. rw (without_cons_notin gone en) //. split_and!; [done|done| |simpl; lia|].
    + by constructor.
    + intros y [->|Hy]%elem_of_cons; [split_and!; [set_solver|done|done]|by apply Hg].
Qed.

Lemma without_own_length id gone l :
  NoDup l -> NoDup gone -> (forall en, en ∈ gone -> en ∈ l /\ publisher_id en = id) ->
  num_entries_of id (without gone l) = num_entries_of id l - Z.of_nat (length gone).
Proof.
  intros Hd Hg Hin. unfold num_entries_of, entries_of, without. rw list_filter_filter.
  assert (filter (fun x => publisher_id x = id) l ≡ₚ
    filter (fun x => publisher_id x = id /\ x ∉ gone) l ++ gone) as Hp.
  { apply list.NoDup_Permutation.
    - by apply NoDup_filter.
    - apply NoDup_app. split_and!; [by apply NoDup_filter| |done].
      intros x [[_ Hx] _]%list_elem_of_filter. done.
    - intros x. rw elem_of_app !list_elem_of_filter.
      destruct (decide (x ∈ gone)) as [Hx|Hx]; [destruct (Hin x Hx)|]; tauto. }
  rw Hp length_app. lia.
Qed.

Lemma without_other_length id id' gone l :
  (forall en, en ∈ gone -> publisher_id en = id) -> id' <> id ->
  num_entries_of id' (without gone l) = num_entries_of id' l.
Proof.
  intros Hin Hne. unfold num_entries_of, entries_of, without. rw list_filter_filter.
  do 2 f_equal. apply list_filter_iff'. intros x _. split; [tauto|]. intros Hx. split; [done|].
  intros Hg. apply Hne. rw -Hx. auto.
Qed.

Lemma released_nodup id k n l : NoDup l -> NoDup (released id k n l).
Proof.
  intros Hd. unfold released. eapply sublist_NoDup; [|apply sublist_take].
  apply NoDup_filter. eapply sublist_NoDup; [|apply sublist_take]. by apply NoDup_filter.
Qed.

Lemma wf_pub_ids_nodup t : topic_wf t -> NoDup (pub_id <$> pub_info_htable t).
Proof. intros Hwf. pose proof (wf_ids_nodup _ Hwf) as Hd. by apply NoDup_app in Hd as (? & _). Qed.

Lemma wf_sub_ids_nodup t : topic_wf t -> NoDup (sub_id <$> sub_info_htable t).
Proof. intros Hwf. pose proof (wf_ids_nodup _ Hwf) as Hd. by apply NoDup_app in Hd as (_ & _ & ?). Qed.

(** Changing the entries of one publisher, its count with them, keeps the invariant. *)
Lemma topic_wf_set_entries t l id m (g : publisher_info -> Z) :
  topic_wf t -> ordered l -> Forall (fun en => 0 <= entry_id en < m) l ->
  current_entry_id t <= m < 2 ^ 63 -> Z.of_nat (length l) < 2 ^ 32 ->
  Forall (fun en => publisher_id en ∈ pub_id <$> pub_info_htable t) l ->
  Forall (refs_ok (sub_info_htable t)) l ->
  (forall id', id' <> id -> num_entries_of id' l = num_entries_of id' (entries t)) ->
  (forall p, p ∈ pub_info_htable t -> pub_id p = id -> g p = num_entries_of id l) ->
  topic_wf (upd_publisher id (fun p => set_entries_num (g p) p)
              (set_entries l (set_ids (current_pubsub_id t) m t))).
Proof.
  intros Hwf Ho Hids Hm Hlen Hpubs Hrefs Hother Hown.
  pose proof (wf_pub_ids_nodup _ Hwf) as Hnd. set (t' := upd_publisher _ _ _).
  assert (pub_id <$> pub_info_htable t' = pub_id <$> pub_info_htable t) as Hpid
    by (apply fmap_hash_upd; done).
  assert (endpoint_ids t' = endpoint_ids t) as He by (unfold endpoint_ids; by rw Hpid).
  destruct Hwf. split; rw ?He; try done; simpl.
  - lia.
  - unfold agnocast_get_size_pub_info_htable in *. simpl. by rw length_hash_upd.
  - by rw Hpid.
  - rw hash_upd_key //. apply Forall_fmap, Forall_forall. intros p Hp. simpl.
    rw Forall_forall in wf_entries_num. destruct (Z.eqb_spec (pub_id p) id) as [Heq|Hne]; simpl.
    + rw Heq. by apply Hown.
    + rw Hother //. by apply wf_entries_num.
  - eapply Forall_impl; [exact wf_latest|]. simpl. lia.
  - apply Forall_forall. rw Forall_forall in wf_pub_depth.
    intros x [Hx|(y & Hy & _ & ->)]%elem_of_hash_upd; simpl; auto.
  - split; simpl; lia.
Qed.

(** The invariants leave a notify list alone when a publisher's entry count changes. *)
Lemma notify_ok_upd_count rules t t' id (g : publisher_info -> Z) :
  pub_info_htable t' = hash_upd (fun p => pub_id p =? id) (fun p => set_entries_num (g p) p)
                         (pub_info_htable t) ->
  sub_info_htable t' = sub_info_htable t -> rule t' = rule t ->
  notify_ok rules t -> notify_ok rules t'.
Proof.
  intros Hp Hs Hr Hok. unfold notify_ok. rw Hp. apply Forall_forall.
  unfold notify_ok in Hok. rw Forall_forall in Hok.
  intros x [Hx|(y & Hy & _ & ->)]%elem_of_hash_upd.
  - destruct (Hok x Hx) as [H1 H2]. split; [|unfold notifiable_subscriber_num in *; by rw Hs].
    rw H1 Hs. by apply list_omap_target.
  - destruct (Hok y Hy) as [H1 H2]. split; [|unfold notifiable_subscriber_num in *; by rw Hs].
    simpl. rw H1 Hs. by apply list_omap_target.
Qed.

Definition new_entry (t : topic_struct) (id msg_virtual_address : Z) : entry_node :=
  EntryNode (current_entry_id t) id msg_virtual_address 0.

(** Room for one more message: the counters of [counters_fit] after it. *)
Definition room_for_entry (t : topic_struct) : Prop :=
  Z.of_nat (length (entries t)) + 1 < 2 ^ 32 /\ current_entry_id t + 1 < 2 ^ 63.

Section publishing.
Context `{KernelHash}.

Lemma ordered_snoc t id a :
  topic_wf t -> ordered (entries t ++ [new_entry t id a]).
Proof.
  intros Hwf. apply ordered_app. split_and!.
  - apply (wf_sorted _ Hwf).
  - constructor; constructor.
  - intros x y Hx ->%list_elem_of_singleton. pose proof (wf_entry_ids _ Hwf) as Hr.
    rw Forall_forall in Hr. specialize (Hr x Hx). simpl. lia.
Qed.

Lemma num_entries_of_snoc id l en :
  num_entries_of id (l ++ [en]) =
  num_entries_of id l + (if publisher_id en =? id then 1 else 0).
Proof.
  unfold num_entries_of, entries_of. rw filter_app length_app filter_cons filter_nil.
  destruct (Z.eqb_spec (publisher_id en) id); case_decide; try done; simpl; lia.
Qed.

Lemma num_entries_of_bound id l : 0 <= num_entries_of id l <= Z.of_nat (length l).
Proof. unfold num_entries_of, entries_of. pose proof (length_filter (fun en => publisher_id en = id) l). lia. Qed.

Definition published (t : topic_struct) (id a : Z) : topic_struct :=
  upd_publisher id (fun p => set_entries_num (u32 (entries_num p + 1)) p)
    (set_entries (entries t ++ [new_entry t id a])
       (set_ids (current_pubsub_id t) (current_entry_id t + 1) t)).

Lemma insert_message_entry_spec t p a :
  topic_wf t -> room_for_entry t ->
  insert_message_entry true t p a = (published t (pub_id p) a, Ok (current_entry_id t)).
Proof.
  intros Hwf [Hr1 Hr2]. unfold insert_message_entry.
  rw i64_succ; [|apply (wf_entry_id_pos _ Hwf)|done]. cbv zeta. simpl entries.
  assert (match last (entries t) with
    | Some this => entry_id this <? current_entry_id t | None => true end = true) as Hl.
  { destruct (last (entries t)) as [x|] eqn:El; [|done]. apply Z.ltb_lt.
    pose proof (wf_entry_ids _ Hwf) as Hr. rw Forall_forall in Hr.
    destruct (Hr x (last_elem_of _ _ El)). lia. }
  simpl. by rw Hl.
Qed.

Lemma published_wf t p a :
  topic_wf t -> room_for_entry t -> p ∈ pub_info_htable t -> topic_wf (published t (pub_id p) a).
Proof.
  intros Hwf [Hr1 Hr2] Hp. pose proof (wf_entry_id_pos _ Hwf).
  apply (topic_wf_set_entries t _ _ _ (fun p => u32 (entries_num p + 1))); try done.
  - by apply ordered_snoc.
  - apply Forall_app. split; [|constructor; [simpl; lia|done]].
    eapply Forall_impl; [exact (wf_entry_ids _ Hwf)|]. simpl. lia.
  - lia.
  - rw length_app /=. lia.
  - apply Forall_app. split; [apply (wf_publishers _ Hwf)|]. constructor; [|done]. simpl.
    by apply list_elem_of_fmap_2.
  - apply Forall_app. split; [apply (wf_refs _ Hwf)|]. constructor; [|done]. split; [done|].
    intros id Hb. simpl in Hb. unfold test_bit in Hb. by rw Z.bits_0 in Hb.
  - intros id' Hne. rw num_entries_of_snoc. simpl.
    destruct (Z.eqb_spec (pub_id p) id'); [congruence|lia].
  - intros q Hq Heq. rw num_entries_of_snoc. simpl. rw Z.eqb_refl.
    pose proof (wf_entries_num _ Hwf) as Hn. rw Forall_forall in Hn. rw (Hn q Hq) Heq.
    pose proof (num_entries_of_bound (pub_id p) (entries t)). unfold u32. rw Z.mod_small; lia.
Qed.

(** The topic after the entries [gone], all of publisher [id], are released. *)
Definition released_topic (t : topic_struct) (id : Z) (gone : list entry_node) : topic_struct :=
  upd_publisher id (fun p => set_entries_num (u32 (entries_num p - Z.of_nat (length gone))) p)
    (set_entries (without gone (entries t)) t).

Lemma released_topic_wf t id gone :
  topic_wf t -> NoDup gone -> (forall en, en ∈ gone -> en ∈ entries t /\ publisher_id en = id) ->
  topic_wf (released_topic t id gone).
Proof.
  intros Hwf Hd Hin. pose proof (wf_sorted _ Hwf) as Ho. destruct (wf_fit _ Hwf) as [Hf1 Hf2].
  assert (forall (P : entry_node -> Prop) l, Forall P l -> Forall P (without gone l)) as Hsub.
  { intros P l HP. apply Forall_forall. rw Forall_forall in HP.
    intros x [Hx _]%elem_of_without. auto. }
  pose proof (without_own_length id gone (entries t) (ordered_nodup _ Ho) Hd Hin) as Hlen.
  pose proof (num_entries_of_bound id (without gone (entries t))).
  pose proof (num_entries_of_bound id (entries t)).
  assert (released_topic t id gone = upd_publisher id
    (fun p => set_entries_num (u32 (entries_num p - Z.of_nat (length gone))) p)
    (set_entries (without gone (entries t)) (set_ids (current_pubsub_id t) (current_entry_id t) t)))
    as -> by (by destruct t).
  apply (topic_wf_set_entries t _ _ _ (fun p => u32 (entries_num p - Z.of_nat (length gone))));
    try done.
  - by apply ordered_filter.
  - apply Hsub, (wf_entry_ids _ Hwf).
  - pose proof (length_filter (fun en => en ∉ gone) (entries t)). unfold without. lia.
  - apply Hsub, (wf_publishers _ Hwf).
  - apply Hsub, (wf_refs _ Hwf).
  - intros id' Hne. eapply without_other_length; [|done]. intros en Hen. by apply Hin.
  - intros q Hq Heq. pose proof (wf_entries_num _ Hwf) as Hn. rw Forall_forall in Hn.
    rw (Hn q Hq) Heq Hlen. unfold u32. rw Z.mod_small; lia.
Qed.

Lemma released_topic_nil t id :
  topic_wf t -> released_topic t id [] = t.
Proof.
  intros Hwf. unfold released_topic, upd_publisher. rw without_nil.
  assert (hash_upd (fun p => pub_id p =? id)
    (fun p => set_entries_num (u32 (entries_num p - Z.of_nat (length ([] : list entry_node)))) p)
    (pub_info_htable t) = pub_info_htable t) as Hu.
  { rw hash_upd_key; [|by apply wf_pub_ids_nodup]. rw -{2}(list_fmap_id (pub_info_htable t)).
    apply list_fmap_ext. intros i q Hq%list_elem_of_lookup_2. simpl.
    destruct (pub_id q =? id); [|done]. pose proof (wf_entries_num _ Hwf) as Hn.
    rw Forall_forall in Hn. specialize (Hn q Hq).
    pose proof (num_entries_of_bound (pub_id q) (entries t)). destruct (wf_fit _ Hwf) as [Hf _].
    unfold set_entries_num. change (Z.of_nat 0) with 0. rw Z.sub_0_r.
    assert (u32 (entries_num q) = entries_num q) as -> by (unfold u32; rw Z.mod_small; lia).
    by destruct q. }
  simpl pub_info_htable. rw Hu. by destruct t.
Qed.

(** Release after an insertion by a publisher whose depth is not 0. *)
Lemma release_msgs_spec t p :
  topic_wf t -> p ∈ pub_info_htable t -> 1 <= pub_qos_depth p ->
  let gone := released (pub_id p) (Z.to_nat (entries_num p - pub_qos_depth p))
                (Z.to_nat MAX_RELEASE_NUM) (entries t) in
  release_msgs_to_meet_depth t p =
    (released_topic t (pub_id p) gone, Ok (msg_virtual_address <$> gone)).
Proof.
  intros Hwf Hp Hd gone. pose proof (wf_entries_num _ Hwf) as Hn. rw Forall_forall in Hn.
  specialize (Hn p Hp). pose proof (num_entries_of_bound (pub_id p) (entries t)).
  destruct (wf_fit _ Hwf) as [Hf1 _]. unfold release_msgs_to_meet_depth.
  destruct (Z.leb_spec (entries_num p) (pub_qos_depth p)) as [Hle|Hgt]; simpl.
  { assert (gone = []) as ->.
    { unfold gone, released. assert (Z.to_nat (entries_num p - pub_qos_depth p) = 0%nat) as -> by lia.
      by rw take_0 filter_nil take_nil. }
    rw released_topic_nil //. }
  case_bool_decide as Hnil; simpl.
  { rw Hnil in Hn. unfold num_entries_of, entries_of in Hn. rw filter_nil /= in Hn. lia. }
  assert (u32 (entries_num p - pub_qos_depth p) = entries_num p - pub_qos_depth p) as ->
    by (unfold u32; rw Z.mod_small; lia).
  rw release_loop_spec.
  - rw Z.sub_0_r. fold gone. unfold released_topic. by rw length_fmap.
  - apply ordered_nodup, (wf_sorted _ Hwf).
  - unfold own. unfold num_entries_of in Hn. lia.
  - unfold MAX_RELEASE_NUM. lia.
Qed.

Lemma release_msgs_gen t p t' r :
  topic_wf t -> p ∈ pub_info_htable t -> release_msgs_to_meet_depth t p = (t', r) ->
  exists gone, t' = released_topic t (pub_id p) gone /\ NoDup gone /\
    Z.of_nat (length gone) <= MAX_RELEASE_NUM /\
    (forall en, en ∈ gone -> en ∈ entries t /\ publisher_id en = pub_id p /\
       agnocast_is_referenced en = false) /\
    (r = Ok (msg_virtual_address <$> gone) \/ r = Err ENODATA /\ pub_qos_depth p < 1).
Proof.
  intros Hwf Hp. destruct (decide (1 <= pub_qos_depth p)) as [Hd|Hd].
  { rw (release_msgs_spec t p Hwf Hp Hd). intros [= <- <-]. eexists. split_and!; [done|..].
    - apply released_nodup, ordered_nodup, (wf_sorted _ Hwf).
    - unfold released, MAX_RELEASE_NUM. rw length_take. lia.
    - intros en. apply released_own.
    - by left. }
  unfold release_msgs_to_meet_depth.
  assert (forall r0, r0 = Ok [] \/ r0 = Err ENODATA /\ pub_qos_depth p < 1 ->
    (t, r0) = (t', r) -> exists gone, t' = released_topic t (pub_id p) gone /\ NoDup gone /\
    Z.of_nat (length gone) <= MAX_RELEASE_NUM /\
    (forall en, en ∈ gone -> en ∈ entries t /\ publisher_id en = pub_id p /\
       agnocast_is_referenced en = false) /\
    (r = Ok (msg_virtual_address <$> gone) \/ r = Err ENODATA /\ pub_qos_depth p < 1)) as Hsame.
  { intros r0 Hr0 [= <- <-]. exists []. rw released_topic_nil //.
    split_and!; [done|constructor|done|set_solver|done]. }
  destruct (entries_num p <=? pub_qos_depth p); simpl; [apply Hsame; by left|].
  case_bool_decide as Hnil; simpl; [apply Hsame; right; split; [done|lia]|].
  destruct (release_loop _ _ _ _) as [[l addrs] r0] eqn:E. intros [= <- <-].
  apply release_loop_gen in E as (Hr & gone & -> & -> & Hnd & Hc & Hg); [| |done|done].
  2: { apply ordered_nodup, (wf_sorted _ Hwf). }
  exists gone. split_and!; [by rw length_fmap|done|lia|done|].
  destruct Hr as [->| ->]; [by left|]. right. split; [done|lia].
Qed.

Lemma find_publisher_upd t id f p :
  (forall q, pub_id (f q) = pub_id q) -> find_publisher_info t id = Some p ->
  find_publisher_info (upd_publisher id f t) id = Some (f p).
Proof.
  intros Hf. rw !find_publisher_info_eq. simpl. intros Hp.
  rw find_hash_upd; [by rw Hp|]. intros x Hx. by rw Hf.
Qed.

(** The addresses a publication frees, and the topic it leaves. *)
Definition freed_by_publish (t : topic_struct) (p : publisher_info) : list entry_node :=
  released (pub_id p) (Z.to_nat (entries_num p + 1 - pub_qos_depth p)) (Z.to_nat MAX_RELEASE_NUM)
    (entries t).

Definition after_publish (t : topic_struct) (p : publisher_info) (a : Z) : topic_struct :=
  released_topic (published t (pub_id p) a) (pub_id p) (freed_by_publish t p).

Lemma freed_snoc t p a :
  topic_wf t -> p ∈ pub_info_htable t -> 1 <= pub_qos_depth p ->
  released (pub_id p) (Z.to_nat (entries_num p + 1 - pub_qos_depth p)) (Z.to_nat MAX_RELEASE_NUM)
    (entries t ++ [new_entry t (pub_id p) a]) = freed_by_publish t p.
Proof.
  intros Hwf Hp Hd. unfold freed_by_publish, released. do 2 f_equal. unfold own, entries_of.
  rw filter_app take_app_le //. pose proof (wf_entries_num _ Hwf) as Hn.
  rw Forall_forall in Hn. specialize (Hn p Hp). unfold num_entries_of, entries_of in Hn. lia.
Qed.

Lemma publish_msg_spec al procs pool size t p proc m a :
  topic_wf t -> room_for_entry t -> find_publisher_info t (pub_id p) = Some p ->
  1 <= pub_qos_depth p ->
  agnocast_find_process_info procs (pub_pid p) = Some proc -> pool !! proc_mempool proc = Some m ->
  addr m <= a < u64 (addr m + size) -> al 0%nat = true ->
  publish_msg_topic al procs pool size t (pub_id p) a =
    (after_publish t p a, notify_ctxs p,
     Ok (PublishRet (current_entry_id t) (msg_virtual_address <$> freed_by_publish t p))).
Proof.
  intros Hwf Hroom Hf Hd Hproc Hm Ha Hal. pose proof (find_publisher_info_Some _ _ _ Hf) as [Hp _].
  unfold publish_msg_topic. rw Hf Hproc Hm.
  destruct (Z.ltb_spec a (addr m)); [lia|].
  destruct (Z.leb_spec (u64 (addr m + size)) a); [lia|]. simpl.
  rw Hal insert_message_entry_spec //.
  set (p1 := set_entries_num (u32 (entries_num p + 1)) p).
  assert (find_publisher_info (published t (pub_id p) a) (pub_id p) = Some p1) as Hf1
    by (by apply (find_publisher_upd _ _
      (fun q => set_entries_num (u32 (entries_num q + 1)) q) p)).
  rw Hf1. pose proof (published_wf t p a Hwf Hroom Hp) as Hwf1.
  pose proof (find_publisher_info_Some _ _ _ Hf1) as [Hp1 _].
  assert (entries_num p1 = entries_num p + 1) as Hn1.
  { pose proof (wf_entries_num _ Hwf) as Hn. rw Forall_forall in Hn. simpl. rw (Hn p Hp).
    pose proof (num_entries_of_bound (pub_id p) (entries t)). destruct Hroom. unfold u32.
    rw Z.mod_small; lia. }
  rw (release_msgs_spec _ p1 Hwf1 Hp1 Hd). simpl pub_id. simpl pub_qos_depth. rw Hn1.
  change (entries (published t (pub_id p) a)) with (entries t ++ [new_entry t (pub_id p) a]).
  rw freed_snoc //.
  change (find_publisher_info (released_topic (published t (pub_id p) a) (pub_id p)
    (freed_by_publish t p)) (pub_id p)) with
    (find_publisher_info (upd_publisher (pub_id p) (fun p0 => set_entries_num
      (u32 (entries_num p0 - Z.of_nat (length (freed_by_publish t p)))) p0)
      (set_entries (without (freed_by_publish t p) (entries t ++ [new_entry t (pub_id p) a]))
      (published t (pub_id p) a))) (pub_id p)).
  rw (find_publisher_upd _ _ _ p1) //.
Qed.

Lemma after_publish_wf t p a :
  topic_wf t -> room_for_entry t -> p ∈ pub_info_htable t -> 1 <= pub_qos_depth p ->
  topic_wf (after_publish t p a).
Proof.
  intros Hwf Hroom Hp Hd. apply released_topic_wf.
  - by apply published_wf.
  - apply released_nodup, ordered_nodup, (wf_sorted _ Hwf).
  - intros en (Hin & Hpub & _)%released_own. split; [|done]. simpl. set_solver.
Qed.

Lemma after_publish_entries t p a :
  topic_wf t ->
  entries (after_publish t p a) =
    without (freed_by_publish t p) (entries t) ++ [new_entry t (pub_id p) a].
Proof.
  intros Hwf. simpl. unfold without at 1. rw filter_app. f_equal. rw filter_cons_True; [done|].
  intros (Hin & _ & _)%released_own. pose proof (wf_entry_ids _ Hwf) as Hr.
  rw Forall_forall in Hr. specialize (Hr _ Hin). simpl in Hr. lia.
Qed.

(** The entry of the publisher [id] with its count of the entries [l]. *)
Definition counted (id : Z) (l : list entry_node) (q : publisher_info) : publisher_info :=
  if pub_id q =? id then set_entries_num (num_entries_of id l) q else q.

Lemma after_publish_frame t p a :
  topic_wf t -> topic_wf (after_publish t p a) ->
  after_publish t p a =
    set_pubs (counted (pub_id p) (entries (after_publish t p a)) <$> pub_info_htable t)
      (set_entries (entries (after_publish t p a)) (set_ids (current_pubsub_id t) (current_entry_id t + 1) t)).
Proof.
  intros Hwf Hwf'. assert (pub_info_htable (after_publish t p a) =
    counted (pub_id p) (entries (after_publish t p a)) <$> pub_info_htable t) as E; [|by rw -E].
  pose proof (wf_entries_num _ Hwf') as Hn. pose proof (wf_pub_ids_nodup _ Hwf) as Hd.
  set (l := entries (after_publish t p a)) in *. revert Hn. simpl. rw (hash_upd_key pub_id _ _ _ Hd).
  rw hash_upd_key.
  2: { rewrite -list_fmap_compose (list_fmap_ext _ pub_id); [done|]. intros i q _. simpl. by destruct (_ =? _). }
  rw Forall_fmap Forall_fmap. intros Hn. rw -list_fmap_compose. apply list_fmap_ext.
  intros i q Hq%list_elem_of_lookup_2. rewrite Forall_forall in Hn. specialize (Hn q Hq). revert Hn. simpl.
  unfold counted. destruct (pub_id q =? pub_id p) eqn:E; simpl; rw E; [|done]. simpl. intros ->.
  by apply Z.eqb_eq in E as ->.
Qed.
End publishing.

(** ** Lemmas: mapping publishers' memory *)

(** A publisher whose pool the subscriber has to map. *)
Definition to_map `{KernelHash} (rules : list domain_bridge_rule) (procs : list process_info)
    (t : topic_struct) (domain subscriber_pid : Z) (sub_bridge : bool) (p : publisher_info)
    : option process_info :=
  if subscriber_pid =? pub_pid p then None
  else if negb (domain_delivery_allowed rules t (pub_domain_id p) (pub_is_bridge p) domain sub_bridge)
  then None
  else match agnocast_find_process_info procs (pub_pid p) with
  | Some proc => if exited proc then None else Some proc
  | None => None
  end.

(** The pool table grows: no pid is unmapped and no address changes. *)
Definition pool_extends (pool pool' : list mempool_entry) : Prop :=
  Forall2 (fun m m' => addr m' = addr m /\ mapped_pids m ⊆ mapped_pids m') pool pool'.

Lemma pool_extends_refl pool : pool_extends pool pool.
Proof. apply Forall_Forall2_diag, Forall_forall. done. Qed.

Lemma pool_extends_trans p1 p2 p3 : pool_extends p1 p2 -> pool_extends p2 p3 -> pool_extends p1 p3.
Proof.
  intros H12 H23. unfold pool_extends in *. revert p3 H23.
  induction H12 as [|m1 m2 l1 l2 [Ha Hs] _ IH]; intros p3 H23; inv H23 as [|? m3 ? l3 [Ha' Hs'] H].
  - constructor.
  - constructor; [split; [congruence|set_solver]|]. by apply IH.
Qed.

Lemma pool_extends_lookup pool pool' i m :
  pool_extends pool pool' -> pool !! i = Some m ->
  exists m', pool' !! i = Some m' /\ addr m' = addr m /\ mapped_pids m ⊆ mapped_pids m'.
Proof.
  intros He Hm. destruct (Forall2_lookup_l _ _ _ _ _ He Hm) as (m' & ? & ? & ?). eauto.
Qed.

Lemma reference_memory_extends al pool i pid pool' r :
  reference_memory al pool i pid = (pool', r) -> pool_extends pool pool'.
Proof.
  unfold reference_memory. destruct (al 0%nat); [|by intros [= <- _]; apply pool_extends_refl].
  destruct (pool !! i) as [m|] eqn:Hm; [|by intros [= <- _]; apply pool_extends_refl].
  case_bool_decide; simpl; intros [= <- _]; [apply pool_extends_refl|].
  apply Forall2_lookup. intros j. destruct (decide (i = j)) as [->|Hne].
  - rw list_lookup_insert_eq; [|by eapply lookup_lt_Some]. rw Hm. constructor. simpl.
    split; [done|set_solver].
  - rw list_lookup_insert_ne //. destruct (pool !! j); constructor. done.
Qed.

Lemma reference_memory_maps al pool i pid pool' r :
  reference_memory al pool i pid = (pool', r) -> r = Ok tt \/ r = Err EEXIST ->
  exists m', pool' !! i = Some m' /\ pid ∈ mapped_pids m'.
Proof.
  unfold reference_memory. destruct (al 0%nat); [|intros [= <- <-] [?|?]; congruence].
  destruct (pool !! i) as [m|] eqn:Hm; [|intros [= <- <-] [?|?]; congruence].
  case_bool_decide; simpl; intros [= <- <-] _; [eauto|].
  rw list_lookup_insert_eq; [|by eapply lookup_lt_Some]. eexists. split; [done|]. simpl. set_solver.
Qed.

(** [pid] maps pool [i]. *)
Definition maps_pool (pool : list mempool_entry) (i : nat) (pid : Z) : Prop :=
  exists m, pool !! i = Some m /\ pid ∈ mapped_pids m.

Lemma maps_pool_extends pool pool' i pid :
  pool_extends pool pool' -> maps_pool pool i pid -> maps_pool pool' i pid.
Proof.
  intros He (m & Hm & Hin). destruct (pool_extends_lookup _ _ _ _ He Hm) as (m' & ? & _ & ?).
  exists m'. set_solver.
Qed.

Lemma reference_memory_err al pool i pid pool' r m :
  reference_memory al pool i pid = (pool', r) -> pool !! i = Some m ->
  match r with
  | Ok _ => True
  | Err e => e = ENOMEM \/ e = EEXIST /\ maps_pool pool i pid
  | Oops => False
  end.
Proof.
  unfold reference_memory. destruct (al 0%nat); [|intros [= _ <-]; auto].
  intros H Hm. rw Hm in H. case_bool_decide; simpl in H; injection H as _ <-; [|done].
  right. split; [done|]. by exists m.
Qed.

Section shm.
Context `{KernelHash} (vnr : Z -> option Z) (rules : list domain_bridge_rule)
  (procs : list process_info) (t : topic_struct) (domain sub_pid : Z) (sub_bridge : bool) (size : Z).

Let target (p : publisher_info) := to_map rules procs t domain sub_pid sub_bridge p.
Let loop al pubs n pool :=
  shm_info_loop al vnr rules procs t domain sub_pid sub_bridge size pubs n pool.

Lemma shm_info_loop_skip al p pubs n pool :
  target p = None -> loop al (p :: pubs) n pool = loop al pubs n pool.
Proof.
  unfold target, to_map, loop. intros Hn. cbn [shm_info_loop].
  destruct (sub_pid =? pub_pid p); [done|]. destruct (negb _); [done|].
  destruct (agnocast_find_process_info procs (pub_pid p)) as [q|]; [|done].
  by destruct (exited q).
Qed.

Lemma shm_info_loop_hit al p proc pubs n pool :
  target p = Some proc ->
  loop al (p :: pubs) n pool =
    match reference_memory al pool (proc_mempool proc) sub_pid with
    | (pool, Err EEXIST) => loop (skip 1 al) pubs n pool
    | (pool, Err e) => (pool, Err e)
    | (pool, Oops) => (pool, Oops)
    | (pool, Ok _) =>
        require negb (n =? size) orelse (pool, Err ENOBUFS);
        unwrap local := vnr (pub_pid p) orelse (pool, Err ESRCH);
        unwrap m := pool !! proc_mempool proc orelse (pool, Oops);
        let '(pool, r) := loop (skip 1 al) pubs (n + 1) pool in
        (pool, match r with
               | Ok infos => Ok (PublisherShmInfo local (addr m) :: infos)
               | Err e => Err e
               | Oops => Oops
               end)
    end.
Proof.
  unfold target, to_map, loop. intros Ht. cbn [shm_info_loop].
  destruct (sub_pid =? pub_pid p); [done|]. destruct (negb _); [done|].
  destruct (agnocast_find_process_info procs (pub_pid p)) as [q|]; [|done].
  destruct (exited q); [done|]. by injection Ht as ->.
Qed.

Definition shm_outcome (pubs : list publisher_info) (pool pool' : list mempool_entry)
    (r : res (list publisher_shm_info)) : Prop :=
  (pool_wf pool -> valid_pid sub_pid -> pool_wf pool') /\ pool_extends pool pool' /\
  match r with
  | Ok infos =>
      forall p proc, p ∈ pubs -> to_map rules procs t domain sub_pid sub_bridge p = Some proc ->
        maps_pool pool' (proc_mempool proc) sub_pid
  | Err e => e = ENOMEM \/ e = ENOBUFS \/ e = ESRCH
  | Oops => False
  end.

Lemma shm_outcome_cons p proc pubs pool pool1 pool' r r' :
  target p = Some proc -> pool_extends pool pool1 ->
  (pool_wf pool -> valid_pid sub_pid -> pool_wf pool1) ->
  maps_pool pool1 (proc_mempool proc) sub_pid -> shm_outcome pubs pool1 pool' r ->
  (forall e, r' = Err e -> r = Err e) -> r' = Oops \/ (exists i, r' = Ok i) <-> r = Oops \/ (exists i, r = Ok i) ->
  (r' = Oops <-> r = Oops) ->
  shm_outcome (p :: pubs) pool pool' r'.
Proof.
  intros Ht He Hwf Hm (Hw & He' & Hr) Herr Hiff Hoops. split_and!; [auto|by eapply pool_extends_trans|].
  destruct r' as [i|e|].
  - intros q proc' [->|Hq]%elem_of_cons Hqt.
    + unfold target in Ht. rw Ht in Hqt. injection Hqt as ->. by eapply maps_pool_extends.
    + destruct r as [i'|e|]; [by eapply Hr| |done].
      exfalso. destruct Hiff as [Hi _]. destruct Hi as [?|[? ?]]; [eauto|done|done].
  - by rw (Herr e eq_refl) in Hr.
  - rw (proj1 Hoops eq_refl) in Hr. done.
Qed.

Lemma shm_info_loop_inv al pubs n pool pool' r :
  loop al pubs n pool = (pool', r) ->
  (forall p proc, p ∈ pubs -> target p = Some proc -> is_Some (pool !! proc_mempool proc)) ->
  shm_outcome pubs pool pool' r.
Proof.
  revert al n pool pool' r. induction pubs as [|p pubs IH]; intros al n pool pool' r Hrun Hin.
  { injection Hrun as <- <-. split_and!; [done|apply pool_extends_refl|set_solver]. }
  destruct (target p) as [proc|] eqn:Ht.
  2: { rw shm_info_loop_skip // in Hrun. apply IH in Hrun as (H1 & H2 & H3); [|set_solver].
    split_and!; [done|done|]. destruct r; [|done|done].
    intros q proc [->|Hq]%elem_of_cons Hqt; [unfold target in Ht; congruence|by eapply H3]. }
  rw (shm_info_loop_hit _ _ proc) // in Hrun. destruct (Hin p proc ltac:(set_solver) Ht) as [m Hm].
  destruct (reference_memory al pool (proc_mempool proc) sub_pid) as [pool1 r1] eqn:Hr1.
  pose proof (reference_memory_extends _ _ _ _ _ _ Hr1) as He1.
  assert (pool_wf pool -> valid_pid sub_pid -> pool_wf pool1) as Hwf1
    by (intros; by eapply reference_memory_wf).
  destruct (pool_extends_lookup _ _ _ _ He1 Hm) as (m1 & Hm1 & _).
  assert (forall p proc, p ∈ pubs -> target p = Some proc ->
    is_Some (pool1 !! proc_mempool proc)) as Hin1.
  { intros p' proc' Hp' Ht'. destruct (Hin p' proc' ltac:(set_solver) Ht') as [m' Hm'].
    destruct (pool_extends_lookup _ _ _ _ He1 Hm') as (? & -> & _). eauto. }
  pose proof (reference_memory_maps _ _ _ _ _ _ Hr1) as Hmap.
  pose proof (reference_memory_err _ _ _ _ _ _ _ Hr1 Hm) as Herr.
  destruct r1 as [[]|e|]; [| |done].
  - assert (maps_pool pool1 (proc_mempool proc) sub_pid) as Hmaps by (apply Hmap; auto).
    destruct (n =? size); simpl in Hrun; [injection Hrun as <- <-; split_and!; auto|].
    destruct (vnr (pub_pid p)) as [local|]; [|injection Hrun as <- <-; split_and!; auto].
    rw Hm1 in Hrun. destruct (loop _ pubs _ pool1) as [pool2 r2] eqn:Hrest.
    injection Hrun as <- <-.
    eapply shm_outcome_cons; [done|done|done|done|by eapply IH| | |]; destruct r2; naive_solver.
  - destruct Herr as [->|[-> Hmaps]]; [injection Hrun as <- <-; split_and!; auto|].
    eapply shm_outcome_cons; [done|done|done|by eapply maps_pool_extends|by eapply IH|done|done|done].
Qed.
End shm.

(** ** Lemmas: the invariant through the system calls *)

Definition sub_core (s : subscriber_info) : Z * Z * Z :=
  (sub_id s, latest_received_entry_id s, sub_qos_depth s).

(** The invariant reads only the id, the newest entry and the depth of a subscriber. *)
Lemma topic_wf_subs_ext t subs' :
  sub_core <$> subs' = sub_core <$> sub_info_htable t -> topic_wf t -> topic_wf (set_subs subs' t).
Proof.
  intros Hc Hwf.
  assert (sub_id <$> subs' = sub_id <$> sub_info_htable t) as Hid.
  { transitivity (((fun c => c.1.1) <$> (sub_core <$> subs')) : list Z).
    - by rw -list_fmap_compose.
    - by rw Hc -list_fmap_compose. }
  assert (endpoint_ids (set_subs subs' t) = endpoint_ids t) as He
    by (unfold endpoint_ids; simpl; by rw Hid).
  destruct Hwf. split; rw ?He; try done.
  - unfold agnocast_get_size_sub_info_htable in *. simpl.
    by rw -(length_fmap sub_core) Hc length_fmap.
  - simpl. eapply Forall_impl; [exact wf_refs|]. intros en [H0 H]. split; [done|].
    intros id Hb. destruct (H id Hb) as (s & Hs & Hsid & Hle).
    apply (list_elem_of_fmap_2 sub_core) in Hs. rw -Hc in Hs.
    apply list_elem_of_fmap in Hs as (s' & Heq & Hs'). injection Heq as H1 H2 H3.
    exists s'. split_and!; [done|congruence|lia].
  - exact (Forall_proj sub_core (fun c => -1 <= c.1.2 < current_entry_id t) _ _ Hc wf_latest).
  - exact (Forall_proj sub_core (fun c => 0 <= c.2 < 2 ^ 32) _ _ Hc wf_sub_depth).
Qed.

Lemma topic_wf_need_mmap t id b :
  topic_wf t -> topic_wf (upd_subscriber id (set_need_mmap_update b) t).
Proof. apply topic_wf_subs_ext. by apply fmap_hash_upd. Qed.

Section calls.
Context `{KernelHash} (rules : list domain_bridge_rule) (procs : list process_info).

Lemma notify_ok_claimed t s n c :
  find_subscriber_info t (sub_id s) = Some s ->
  notify_ok rules t -> notify_ok rules (claimed_topic (sub_id s) n c t).
Proof.
  intros Hf. apply notify_ok_subs_ext; [done|done|]. by apply fmap_hash_upd.
Qed.

Lemma claimed_topic_wf t s n c :
  topic_wf t -> s ∈ sub_info_htable t -> latest_received_entry_id s <= n < current_entry_id t ->
  (forall en, en ∈ c -> entry_id en <= n) -> topic_wf (claimed_topic (sub_id s) n c t).
Proof.
  intros Hwf Hs Hn Hc. pose proof (sub_id_range _ _ Hwf Hs) as Hid.
  apply topic_wf_touch; try done; [apply claim_refs_id|apply claim_refs_pub|].
  intros en Hen. pose proof (wf_refs _ Hwf) as Hr. rw Forall_forall in Hr.
  destruct (Hr en Hen) as [H0 _]. unfold claim_refs. case_bool_decide as Hin; simpl.
  - split; [by apply set_bit_nonneg|]. intros id. rw test_set_bit; [|lia].
    case_bool_decide as Heq; simpl; [intros _; right; split; [done|by apply Hc]|by left].
  - split; [done|]. by left.
Qed.

Lemma update_publisher_shm_inv {A} al vnr t domain s size pool (a : A) t' pool' r :
  topic_wf t -> notify_ok rules t ->
  (forall p proc, p ∈ pub_info_htable t ->
     agnocast_find_process_info procs (pub_pid p) = Some proc -> is_Some (pool !! proc_mempool proc)) ->
  update_publisher_shm al vnr rules procs t domain s size pool a = (t', pool', r) ->
  topic_wf t' /\ notify_ok rules t' /\ entries t' = entries t /\
  pub_info_htable t' = pub_info_htable t /\
  (forall s', s' ∈ sub_info_htable t' -> exists s0, s0 ∈ sub_info_htable t /\
     (s' = s0 \/ s' = set_need_mmap_update false s0)) /\
  (pool_wf pool -> valid_pid (sub_pid s) -> pool_wf pool') /\ pool_extends pool pool' /\
  match r with
  | Ok (a', infos) => a' = a /\
      (need_mmap_update s = true -> forall p proc, p ∈ pub_info_htable t ->
         to_map rules procs t domain (sub_pid s) (sub_is_bridge s) p = Some proc ->
         maps_pool pool' (proc_mempool proc) (sub_pid s))
  | Err e => e = ENOMEM \/ e = ENOBUFS \/ e = ESRCH
  | Oops => False
  end.
Proof.
  intros Hwf Hok Hin. unfold update_publisher_shm. destruct (need_mmap_update s) eqn:Hn.
  2: { intros [= <- <- <-]. split_and!; try done; [|apply pool_extends_refl].
    intros s' Hs'. exists s'. auto. }
  destruct (set_publisher_shm_info _ _ _ _ _ _ _ _ _ _) as [pool1 r1] eqn:Hr1.
  apply shm_info_loop_inv in Hr1 as (H1 & H2 & H3).
  2: { intros p proc Hp Ht. apply (Hin p proc Hp). unfold to_map in Ht.
    destruct (sub_pid s =? pub_pid p); [done|]. destruct (negb _); [done|].
    destruct (agnocast_find_process_info procs (pub_pid p)) as [q|]; [|done].
    by destruct (exited q). }
  assert (forall s', s' ∈ sub_info_htable t -> exists s0, s0 ∈ sub_info_htable t /\
     (s' = s0 \/ s' = set_need_mmap_update false s0)) as Hsame by (intros s' ?; exists s'; auto).
  destruct r1 as [infos|e|]; intros [= <- <- <-]; [|split_and!; try done..].
  split_and!; try done.
  - by apply topic_wf_need_mmap.
  - apply (notify_ok_subs_ext rules t); [done|done| |exact Hok]. by apply fmap_hash_upd.
  - intros s' [Hs'|(y & Hy & _ & ->)]%elem_of_hash_upd; [by apply Hsame|]. exists y. auto.
Qed.
End calls.

(** ** Lemmas: one call *)

Section call_facts.
Context `{KernelHash} (rules : list domain_bridge_rule) (procs : list process_info).

(** Every process of the registry that some publisher of the topic belongs to has a pool. *)
Definition pools_present (pool : list mempool_entry) (t : topic_struct) : Prop :=
  forall p proc, p ∈ pub_info_htable t ->
    agnocast_find_process_info procs (pub_pid p) = Some proc -> is_Some (pool !! proc_mempool proc).

Lemma publish_msg_inv al pool size t id a t' signals r :
  topic_wf t -> notify_ok rules t -> room_for_entry t -> pools_present pool t ->
  publish_msg_topic al procs pool size t id a = (t', signals, r) ->
  topic_wf t' /\ notify_ok rules t' /\ r <> Oops /\
  (t' = t /\ signals = [] /\ (exists e, r = Err e) \/
   exists p gone, find_publisher_info t id = Some p /\
     t' = released_topic (published t id a) id gone /\
     (forall en, en ∈ gone -> en ∈ entries (published t id a) /\ publisher_id en = id /\
        agnocast_is_referenced en = false) /\
     (r = Ok (PublishRet (current_entry_id t) (msg_virtual_address <$> gone)) /\
        signals = notify_ctxs p \/
      r = Err ENODATA /\ signals = [] /\ pub_qos_depth p < 1)).
Proof.
  intros Hwf Hok Hroom Hin. unfold publish_msg_topic.
  assert (forall e, (t, [], Err e) = (t', signals, r) ->
    topic_wf t' /\ notify_ok rules t' /\ r <> Oops /\
    (t' = t /\ signals = [] /\ (exists e, r = Err e) \/
     exists p gone, find_publisher_info t id = Some p /\
     t' = released_topic (published t id a) id gone /\
     (forall en, en ∈ gone -> en ∈ entries (published t id a) /\ publisher_id en = id /\
        agnocast_is_referenced en = false) /\
     (r = Ok (PublishRet (current_entry_id t) (msg_virtual_address <$> gone)) /\
        signals = notify_ctxs p \/
      r = Err ENODATA /\ signals = [] /\ pub_qos_depth p < 1))) as Herr.
  { intros e [= <- <- <-]. split_and!; [done..|]. left. eauto. }
  destruct (find_publisher_info t id) as [p|] eqn:Hf; [|apply Herr].
  pose proof (find_publisher_info_Some _ _ _ Hf) as [Hp <-].
  destruct (agnocast_find_process_info procs (pub_pid p)) as [proc|] eqn:Hproc; [|apply Herr].
  destruct (Hin p proc Hp Hproc) as [m ->].
  destruct (_ || _); simpl; [apply Herr|].
  destruct (al 0%nat); [|apply Herr]. rw insert_message_entry_spec //.
  pose proof (published_wf t p a Hwf Hroom Hp) as Hwf1.
  set (p1 := set_entries_num (u32 (entries_num p + 1)) p).
  assert (find_publisher_info (published t (pub_id p) a) (pub_id p) = Some p1) as Hf1
    by (by apply (find_publisher_upd _ _ (fun q => set_entries_num (u32 (entries_num q + 1)) q) p)).
  rw Hf1. pose proof (find_publisher_info_Some _ _ _ Hf1) as [Hp1 _].
  destruct (release_msgs_to_meet_depth _ p1) as [t2 r2] eqn:Hrel.
  apply release_msgs_gen in Hrel as (gone & -> & Hnd & _ & Hg & Hr2); [|done|done].
  change (pub_id p1) with (pub_id p) in *.
  assert (topic_wf (released_topic (published t (pub_id p) a) (pub_id p) gone)) as Hwf2.
  { apply released_topic_wf; [done|done|]. intros en Hen. by apply Hg in Hen as (? & ? & _). }
  assert (notify_ok rules (released_topic (published t (pub_id p) a) (pub_id p) gone)) as Hok2.
  { apply (notify_ok_upd_count rules (published t (pub_id p) a) _ (pub_id p)
      (fun p0 => u32 (entries_num p0 - Z.of_nat (length gone)))); [done..|].
    by apply (notify_ok_upd_count rules t _ (pub_id p) (fun q => u32 (entries_num q + 1))). }
  clear Herr. destruct Hr2 as [->|[-> Hd]]; intros Hrun.
  - assert (find_publisher_info (released_topic (published t (pub_id p) a) (pub_id p) gone) (pub_id p)
      = Some (set_entries_num (u32 (entries_num p1 - Z.of_nat (length gone))) p1)) as Hf2.
    { by apply (find_publisher_upd (set_entries (without gone (entries (published t (pub_id p) a)))
        (published t (pub_id p) a)) _
        (fun p0 => set_entries_num (u32 (entries_num p0 - Z.of_nat (length gone))) p0) p1). }
    rw Hf2 in Hrun. injection Hrun as <- <- <-. split_and!; [done..|]. right. exists p, gone.
    split_and!; [done|done|done|]. by left.
  - injection Hrun as <- <- <-. split_and!; [done..|]. right. exists p, gone.
    split_and!; [done|done|done|]. right. by split_and!.
Qed.

Lemma window_in t s en :
  en ∈ window rules procs t s ->
  en ∈ entries t /\ latest_received_entry_id s < entry_id en /\
  deliverable rules procs t s en = true.
Proof. intros Hen%newest_subseteq. by apply list_elem_of_filter in Hen as [[? ?] ?]. Qed.

Lemma claimed_last_bound t s c :
  topic_wf t -> s ∈ sub_info_htable t -> ordered c ->
  (forall en, en ∈ c -> en ∈ entries t /\ latest_received_entry_id s < entry_id en) ->
  let n := default (latest_received_entry_id s) (entry_id <$> last c) in
  latest_received_entry_id s <= n < current_entry_id t /\ forall en, en ∈ c -> entry_id en <= n.
Proof.
  intros Hwf Hs Ho Hc. destruct (last c) as [x|] eqn:El; simpl.
  - pose proof (last_elem_of _ _ El) as Hx. destruct (Hc x Hx) as [Hin Hlt].
    pose proof (wf_entry_ids _ Hwf) as Hr. rw Forall_forall in Hr. specialize (Hr x Hin).
    split; [lia|]. intros en Hen. by eapply ordered_last.
  - apply last_None in El as ->. pose proof (wf_latest _ Hwf) as Hl. rw Forall_forall in Hl.
    specialize (Hl s Hs). split; [lia|set_solver].
Qed.

Lemma ordered_sublist l1 l2 : l1 `sublist_of` l2 -> ordered l2 -> ordered l1.
Proof.
  induction 1 as [|x l1 l2 Hs IH|x l1 l2 Hs IH]; intros Ho; [done|..]; inv Ho as [|? ? Ho' Hf].
  - constructor; [by apply IH|]. rw Forall_forall in Hf. apply Forall_forall.
    intros y Hy. apply Hf. by eapply elem_of_submseteq, sublist_submseteq.
  - by apply IH.
Qed.

Lemma ordered_window t s n : topic_wf t -> ordered (take n (window rules procs t s)).
Proof.
  intros Hwf. eapply ordered_sublist; [apply sublist_take|].
  eapply ordered_sublist; [apply sublist_drop|]. apply ordered_filter, (wf_sorted _ Hwf).
Qed.

Lemma receive_claim_wf t s :
  topic_wf t -> find_subscriber_info t (sub_id s) = Some s ->
  let c := take (Z.to_nat MAX_RECEIVE_NUM) (window rules procs t s) in
  topic_wf (claimed_topic (sub_id s)
              (default (latest_received_entry_id s) (entry_id <$> last c)) c t).
Proof.
  intros Hwf Hf c. pose proof (find_subscriber_info_Some _ _ _ Hf) as [Hs _].
  destruct (claimed_last_bound t s c Hwf Hs) as [Hn Hc].
  - by apply ordered_window.
  - intros en (i & Hi & _)%elem_of_take. by apply list_elem_of_lookup_2, window_in in Hi as (? & ? & _).
  - by apply claimed_topic_wf.
Qed.

Lemma take_claim_wf t s allow en w :
  topic_wf t -> find_subscriber_info t (sub_id s) = Some s ->
  newest (Z.to_nat (sub_qos_depth s)) (pending rules procs t s (take_bound s allow)) = en :: w ->
  topic_wf (claimed_topic (sub_id s) (entry_id en) [en] t).
Proof.
  intros Hwf Hf Hw. pose proof (find_subscriber_info_Some _ _ _ Hf) as [Hs _].
  assert (en ∈ pending rules procs t s (take_bound s allow)) as Hen
    by (apply (newest_subseteq (Z.to_nat (sub_qos_depth s))); rw Hw; set_solver).
  apply list_elem_of_filter in Hen as [[Hb _] Hen].
  pose proof (wf_entry_ids _ Hwf) as Hr. rw Forall_forall in Hr. specialize (Hr en Hen).
  apply claimed_topic_wf; [done|done| |].
  - unfold take_bound in Hb. destruct allow; lia.
  - intros x ->%list_elem_of_singleton. done.
Qed.

(** What the claim of the first ten leaves of the queue. *)
Lemma deliverable_claimed t s n c s1 en :
  topic_wf t -> find_subscriber_info t (sub_id s) = Some s ->
  find_subscriber_info (claimed_topic (sub_id s) n c t) (sub_id s) = Some s1 ->
  deliverable rules procs (claimed_topic (sub_id s) n c t) s1 (claim_refs (sub_id s) c en) =
  deliverable rules procs t s en.
Proof.
  intros Hwf Hf Hf1. assert (s1 = set_latest_received n s) as ->.
  { rw find_subscriber_info_eq in Hf1. rw find_subscriber_info_eq in Hf. simpl in Hf1.
    rw find_hash_upd // in Hf1. rw Hf in Hf1. by injection Hf1. }
  unfold deliverable. by rw claim_refs_pub.
Qed.

Lemma ordered_drop_last (k : nat) (l : list entry_node) n :
  ordered l -> n = default n (entry_id <$> last (take k l)) -> take k l <> [] ->
  filter (fun en => n < entry_id en) l = drop k l.
Proof.
  intros Ho Hn Hne. destruct (last (take k l)) as [x|] eqn:El; [|by apply last_None in El].
  simpl in Hn. subst n. rw -{1}(take_drop k l) filter_app. rw -(take_drop k l) in Ho.
  apply ordered_app in Ho as (Ho1 & Ho2 & Hlt).
  rw filter_none.
  - simpl. rw list_filter_all; [done|]. intros y Hy. apply Hlt; [by eapply last_elem_of|done].
  - intros y Hy. pose proof (ordered_last _ _ _ Ho1 El Hy). lia.
Qed.

Lemma window_after_claim t s s1 :
  let c := take (Z.to_nat MAX_RECEIVE_NUM) (window rules procs t s) in
  let t1 := claimed_topic (sub_id s)
              (default (latest_received_entry_id s) (entry_id <$> last c)) c t in
  topic_wf t -> find_subscriber_info t (sub_id s) = Some s -> c <> [] ->
  find_subscriber_info t1 (sub_id s) = Some s1 ->
  window rules procs t1 s1 = drop (Z.to_nat MAX_RECEIVE_NUM) (window rules procs t s).
Proof.
  intros c t1 Hwf Hf Hc Hf1. set (n := default _ _) in t1.
  assert (s1 = set_latest_received n s) as Hs1.
  { rw find_subscriber_info_eq in Hf1. rw find_subscriber_info_eq in Hf. simpl in Hf1.
    rw find_hash_upd // in Hf1. rw Hf in Hf1. by injection Hf1. }
  assert (n = default n (entry_id <$> last c)) as Hn.
  { unfold n. destruct (last c) eqn:El; [done|]. by apply last_None in El. }
  pose proof (find_subscriber_info_Some _ _ _ Hf) as [Hs _].
  destruct (claimed_last_bound t s c Hwf Hs) as [Hnb Hcn]; [by apply ordered_window| |].
  { intros en (i & Hi & _)%elem_of_take. by apply list_elem_of_lookup_2, window_in in Hi as (? & ? & _). }
  fold n in Hnb, Hcn.
  pose proof (ordered_filter (takeable rules procs t s (latest_received_entry_id s)) _
    (wf_sorted _ Hwf)) as Hop.
  assert (pending rules procs t1 s1 (latest_received_entry_id s1) =
    filter (fun en => n < entry_id en) (pending rules procs t s (latest_received_entry_id s))) as Hpend.
  { unfold pending. rw list_filter_filter. change (entries t1) with
      (claim_refs (sub_id s) c <$> entries t).
    rw (filter_fmap_comm _ _ (fun en => n < entry_id en /\ latest_received_entry_id s < entry_id en /\
      deliverable rules procs t s en = true)).
    - rw claim_refs_outside; [done|]. intros en [[Hlt _] _]%list_elem_of_filter Hin.
      specialize (Hcn en Hin). lia.
    - intros en _. rw claim_refs_id. unfold t1. rw (deliverable_claimed t s n c s1 en) //.
      rw Hs1. simpl. split; [|tauto]. intros [? ?]. split_and!; [done|lia|done]. }
  unfold window at 1. rw Hpend. destruct (newest_suffix (Z.to_nat (sub_qos_depth s))
    (pending rules procs t s (latest_received_entry_id s))) as [pre Hpre].
  fold (window rules procs t s) in Hpre. rw Hpre filter_app.
  change (ordered (pending rules procs t s (latest_received_entry_id s))) in Hop. rw Hpre in Hop.
  apply ordered_app in Hop as (_ & Hop & Hlt). rw filter_none.
  - simpl. rw (ordered_drop_last (Z.to_nat MAX_RECEIVE_NUM)) //. rw Hs1. simpl.
    unfold newest. assert (length (drop (Z.to_nat MAX_RECEIVE_NUM) (window rules procs t s)) -
      Z.to_nat (sub_qos_depth s) = 0)%nat as ->; [|done].
    rw length_drop. unfold window. rw length_newest. lia.
  - intros x Hx. destruct c as [|y c'] eqn:Ec; [done|].
    assert (y ∈ c) as Hy by (rw Ec; set_solver). specialize (Hcn y ltac:(set_solver)).
    specialize (Hlt x y Hx). unfold c in Hy. apply elem_of_take in Hy as (i & Hi & _).
    apply list_elem_of_lookup_2 in Hi. specialize (Hlt Hi). lia.
Qed.
End call_facts.

(** ** Lemmas: releasing *)

Lemma refs_ok_clear subs id en :
  refs_ok subs en -> refs_ok subs (set_refs (clear_bit id (referencing_subscribers en)) en).
Proof.
  intros [H0 H]. split; simpl; [by apply clear_bit_nonneg|]. intros i Hb.
  rw test_clear_bit in Hb. bool_to_prop. by apply H.
Qed.

Definition unclaim (id eid : Z) (en : entry_node) : entry_node :=
  if entry_id en =? eid then set_refs (clear_bit id (referencing_subscribers en)) en else en.

Lemma unclaim_id id eid en : entry_id (unclaim id eid en) = entry_id en.
Proof. unfold unclaim. by case_match. Qed.

Lemma unclaim_pub id eid en : publisher_id (unclaim id eid en) = publisher_id en.
Proof. unfold unclaim. by case_match. Qed.

(** Rewriting every entry in place, with the references kept legitimate, keeps the invariant. *)
Lemma topic_wf_rewrite t (f : entry_node -> entry_node) :
  topic_wf t -> (forall x, entry_id (f x) = entry_id x) ->
  (forall x, publisher_id (f x) = publisher_id x) ->
  (forall en, en ∈ entries t -> refs_ok (sub_info_htable t) (f en)) ->
  topic_wf (set_entries (f <$> entries t) t).
Proof.
  intros Hwf Hid Hpub Hrefs. destruct Hwf. split; try done; simpl.
  - by apply ordered_fmap.
  - apply Forall_fmap. eapply Forall_impl; [exact wf_entry_ids|]. intros x. simpl. by rw Hid.
  - apply Forall_fmap. eapply Forall_impl; [exact wf_publishers|]. intros x. simpl. by rw Hpub.
  - eapply Forall_impl; [exact wf_entries_num|]. intros p ->. simpl. by rw num_entries_of_fmap.
  - apply Forall_fmap, Forall_forall. auto.
  - unfold counters_fit in *. simpl. by rw length_fmap.
Qed.

Lemma unclaim_wf t id eid : topic_wf t -> topic_wf (set_entries (unclaim id eid <$> entries t) t).
Proof.
  intros Hwf. apply topic_wf_rewrite; [done|apply unclaim_id|apply unclaim_pub|].
  intros en Hen. pose proof (wf_refs _ Hwf) as Hr. rw Forall_forall in Hr.
  unfold unclaim. case_match; [by apply refs_ok_clear, Hr|by apply Hr].
Qed.

Lemma unclaim_upd t id eid :
  topic_wf t ->
  hash_upd (fun x => entry_id x =? eid)
    (fun x => set_refs (clear_bit id (referencing_subscribers x)) x) (entries t) =
  unclaim id eid <$> entries t.
Proof. intros Hwf. rw hash_upd_key; [done|]. apply ordered_nodup_ids, (wf_sorted _ Hwf). Qed.

Lemma find_message_entry_unique t en :
  topic_wf t -> en ∈ entries t -> find_message_entry t (entry_id en) = Some en.
Proof.
  intros Hwf Hen. unfold find_message_entry.
  rw -(find_key_unique entry_id en _ (ordered_nodup_ids _ (wf_sorted _ Hwf)) Hen).
  apply find_ext. intros q _. destruct (Z.eqb_spec (entry_id q) (entry_id en));
    [by rw bool_decide_true|by rw bool_decide_false].
Qed.

(** A reference held by an endpoint of the topic has an id in range. *)
Lemma held_reference_range t en id :
  topic_wf t -> en ∈ entries t -> test_bit id (referencing_subscribers en) = true ->
  0 <= id < MAX_TOPIC_LOCAL_ID.
Proof.
  intros Hwf Hen Hb. pose proof (wf_refs _ Hwf) as Hr. rw Forall_forall in Hr.
  destruct (Hr en Hen) as [_ Hr']. destruct (Hr' _ Hb) as (s0 & Hs0 & <- & _).
  by eapply sub_id_range.
Qed.

Lemma clear_set_bit id b :
  test_bit id b = false -> 0 <= id -> clear_bit id (set_bit id b) = b.
Proof.
  intros Hb Hid. apply Z.bits_inj'. intros n Hn. unfold test_bit, clear_bit, set_bit in *.
  rw Z.clearbit_eqb Z.setbit_eqb //. destruct (Z.eqb_spec id n) as [<-|Hne]; simpl.
  - by rw Hb.
  - by rw andb_true_r.
Qed.

(** ** Properties *)

Section properties.
Context `{KernelHash} (rules : list domain_bridge_rule) (procs : list process_info).

(** C6. PUBLISH_MSG by a registered publisher of depth at least 1 with an address inside its
    process's pool: the message becomes the newest entry under a fresh id, unreferenced; exactly
    the eventfd contexts of the subscribers the publisher reaches are signalled, in table order;
    of the publisher's oldest entries beyond its depth the first three that no subscriber
    references are removed and their addresses returned; of the rest of the topic only the next
    entry id and the publisher's own count of its entries change, and the topic stays well
    formed. *)
Theorem publish_msg_correct al pool size t p proc m a :
  topic_wf t -> notify_ok rules t -> room_for_entry t ->
  find_publisher_info t (pub_id p) = Some p -> 1 <= pub_qos_depth p ->
  agnocast_find_process_info procs (pub_pid p) = Some proc -> pool !! proc_mempool proc = Some m ->
  addr m <= a < u64 (addr m + size) -> al 0%nat = true ->
  exists t' gone,
    publish_msg_topic al procs pool size t (pub_id p) a =
      (t', omap (notify_target rules t p) (sub_info_htable t),
       Ok (PublishRet (current_entry_id t) (msg_virtual_address <$> gone))) /\
    gone = take 3 (filter (fun en => agnocast_is_referenced en = false)
             (take (Z.to_nat (num_entries_of (pub_id p) (entries t) + 1 - pub_qos_depth p))
                (entries_of (pub_id p) (entries t)))) /\
    entries t' = filter (fun en => en ∉ gone) (entries t) ++
                   [EntryNode (current_entry_id t) (pub_id p) a 0] /\
    sub_info_htable t' = sub_info_htable t /\ current_entry_id t' = current_entry_id t + 1 /\
    t' = set_pubs (counted (pub_id p) (entries t') <$> pub_info_htable t)
           (set_entries (entries t') (set_ids (current_pubsub_id t) (current_entry_id t + 1) t)) /\
    topic_wf t' /\ notify_ok rules t'.
Proof.
  intros Hwf Hok Hroom Hf Hd Hproc Hm Ha Hal.
  pose proof (find_publisher_info_Some _ _ _ Hf) as [Hp _].
  pose proof (publish_msg_spec al procs pool size t p proc m a Hwf Hroom Hf Hd Hproc Hm Ha Hal) as Hs.
  exists (after_publish t p a), (freed_by_publish t p). split_and!.
  - rw Hs. do 2 f_equal. unfold notify_ok in Hok. rw Forall_forall in Hok. by destruct (Hok p Hp).
  - unfold freed_by_publish, released. pose proof (wf_entries_num _ Hwf) as Hn.
    rw Forall_forall in Hn. by rw (Hn p Hp).
  - by apply after_publish_entries.
  - done.
  - done.
  - apply after_publish_frame; [done|by apply after_publish_wf].
  - by apply after_publish_wf.
  - apply (notify_ok_upd_count rules (published t (pub_id p) a) _ (pub_id p)
      (fun p0 => u32 (entries_num p0 - Z.of_nat (length (freed_by_publish t p))))); [done..|].
    by apply (notify_ok_upd_count rules t _ (pub_id p) (fun q => u32 (entries_num q + 1))).
Qed.

(** Whatever its arguments and the outcome of its allocation, PUBLISH_MSG never removes an
    entry a subscriber references nor an entry of another publisher, signals nobody unless it
    succeeds, and never follows a dangling pointer; on any error but the ENODATA of a publisher of
    depth 0 the topic is untouched. *)
Theorem publish_msg_safe al pool size t id a t' signals r :
  topic_wf t -> notify_ok rules t -> room_for_entry t -> pools_present procs pool t ->
  publish_msg_topic al procs pool size t id a = (t', signals, r) ->
  topic_wf t' /\ notify_ok rules t' /\ r <> Oops /\
  (forall en, en ∈ entries t -> agnocast_is_referenced en = true \/ publisher_id en <> id ->
     en ∈ entries t') /\
  (forall e, r = Err e -> signals = [] /\
     (t' = t \/ e = ENODATA /\ exists p, find_publisher_info t id = Some p /\ pub_qos_depth p < 1)).
Proof.
  intros Hwf Hok Hroom Hin Hrun.
  pose proof (publish_msg_inv rules procs al pool size t id a t' signals r Hwf Hok Hroom Hin Hrun)
    as (H1 & H2 & H3 & Hcases).
  split_and!; [done..| |].
  - intros en Hen Hkeep. destruct Hcases as [(-> & _)|(p & gone & _ & -> & Hg & _)]; [done|].
    simpl. apply elem_of_without. split; [set_solver|]. intros Hin'.
    destruct (Hg en Hin') as (_ & ? & ?). destruct Hkeep; congruence.
  - intros e ->. destruct Hcases as [(-> & -> & _)|(p & gone & Hf & -> & Hg & Hr)]; [auto|].
    destruct Hr as [[? _]|([= ->] & -> & Hd)]; [done|]. split; [done|]. right. eauto.
Qed.

(** C7. RECEIVE_MSG hands over, oldest first, the first ten of the newest [qos_depth] entries that
    are newer than the newest the subscriber was handed and that it may receive; it sets
    [call_again] exactly when more of them remain; it takes one reference on each entry handed
    over and on no other, and moves the subscriber's mark to the last of them.  It never fails
    with EALREADY: the only errors are those of mapping a publisher's memory. *)
Theorem receive_msg_correct al vnr pool t domain s size t' pool' r :
  topic_wf t -> notify_ok rules t -> pools_present procs pool t ->
  find_subscriber_info t (sub_id s) = Some s ->
  receive_msg_topic al vnr rules procs pool t domain (sub_id s) size = (t', pool', r) ->
  let wanted := filter (fun en => latest_received_entry_id s < entry_id en /\
                                  deliverable rules procs t s en = true) (entries t) in
  let queue := newest (Z.to_nat (sub_qos_depth s)) wanted in
  let handed := take 10 queue in
  topic_wf t' /\ notify_ok rules t' /\
  entries t' = claim_refs (sub_id s) handed <$> entries t /\
  match r with
  | Ok (out, call_again, _) =>
      out = (fun en => (entry_id en, msg_virtual_address en)) <$> handed /\
      call_again = (10 <? Z.of_nat (length queue)) /\
      (latest_received_entry_id <$> find_subscriber_info t' (sub_id s)) =
        Some (default (latest_received_entry_id s) (entry_id <$> last handed))
  | Err e => need_mmap_update s = true /\ (e = ENOMEM \/ e = ENOBUFS \/ e = ESRCH)
  | Oops => False
  end.
Proof.
  intros Hwf Hok Hin Hf Hrun wanted queue handed. unfold receive_msg_topic in Hrun. rw Hf in Hrun.
  rw receive_msg_core_spec // in Hrun.
  change (take (Z.to_nat MAX_RECEIVE_NUM) (window rules procs t s)) with handed in Hrun.
  set (n := default _ _) in Hrun. set (t1 := claimed_topic _ _ _ _) in Hrun.
  assert (topic_wf t1) as Hwf1 by (by apply receive_claim_wf).
  assert (notify_ok rules t1) as Hok1 by (by apply notify_ok_claimed).
  assert (find_subscriber_info t1 (sub_id s) = Some (set_latest_received n s)) as Hf1.
  { rw find_subscriber_info_eq. rw find_subscriber_info_eq in Hf. unfold t1. simpl.
    rw find_hash_upd; [|done]. by rw Hf. }
  pose proof Hrun as Hrun'.
  apply update_publisher_shm_inv in Hrun as (H1 & H2 & H3 & _ & _ & _ & _ & H4); [|done..].
  split_and!; [done|done|done|]. destruct r as [[[out again] infos]|e|]; [|split; [|done]|done].
  - destruct H4 as [[= -> ->] _]. split_and!; [done|done|].
    unfold update_publisher_shm in Hrun'. destruct (need_mmap_update s).
    + destruct (set_publisher_shm_info _ _ _ _ _ _ _ _ _ _) as [pool1 [i|e|]]; try done.
      injection Hrun' as <- _ _. rw find_subscriber_info_eq. simpl.
      rw find_subscriber_info_eq in Hf1. rw find_hash_upd; [|done].
      fold t1. by rw Hf1.
    + injection Hrun' as <- _ _. by rw Hf1.
  - unfold update_publisher_shm in Hrun'. by destruct (need_mmap_update s).
Qed.

(** Consecutive RECEIVE_MSG calls lose and repeat nothing: after a call that handed over
    entries, the queue the next call works on is exactly what that call left of its own queue. *)
Theorem receive_again_continues t s t1 out call_again s1 :
  topic_wf t -> find_subscriber_info t (sub_id s) = Some s ->
  receive_msg_core rules procs t s (sub_id s) = (t1, Ok (out, call_again)) -> out <> [] ->
  find_subscriber_info t1 (sub_id s) = Some s1 ->
  window rules procs t1 s1 = drop 10 (window rules procs t s).
Proof.
  intros Hwf Hf Hrun Hout Hf1. rw receive_msg_core_spec // in Hrun. injection Hrun as <- Ho _.
  apply window_after_claim; [done|done| |done]. intros Hnil. apply Hout. by rw -Ho Hnil.
Qed.

(** C8. TAKE_MSG hands over the oldest of the newest [qos_depth] entries the subscriber may
    receive that are newer than the newest it was handed (or as new, when it allows the same
    message again), 0 and -1 when there is none; exactly that entry gains its reference. *)
Theorem take_msg_correct al vnr pool t domain s allow size t' pool' r :
  topic_wf t -> notify_ok rules t -> pools_present procs pool t ->
  find_subscriber_info t (sub_id s) = Some s ->
  take_msg_topic al vnr rules procs pool t domain (sub_id s) allow size = (t', pool', r) ->
  let bound := if allow then latest_received_entry_id s - 1 else latest_received_entry_id s in
  let queue := newest (Z.to_nat (sub_qos_depth s))
                 (filter (fun en => bound < entry_id en /\ deliverable rules procs t s en = true)
                    (entries t)) in
  topic_wf t' /\ notify_ok rules t' /\
  entries t' = claim_refs (sub_id s) (take 1 queue) <$> entries t /\
  match r with
  | Ok (out, _) =>
      out = match queue with
            | [] => TakeRet 0 (-1)
            | en :: _ => TakeRet (msg_virtual_address en) (entry_id en)
            end
  | Err e => e = ENOMEM \/ e = ENOBUFS \/ e = ESRCH
  | Oops => False
  end.
Proof.
  intros Hwf Hok Hin Hf Hrun bound queue. unfold take_msg_topic in Hrun. rw Hf in Hrun.
  rw take_core_spec // in Hrun. change (newest _ _) with queue in Hrun.
  destruct queue as [|en w] eqn:Hq.
  - apply update_publisher_shm_inv in Hrun as (H1 & H2 & H3 & _ & _ & _ & _ & H4); [|done..].
    split_and!; [done|done|by rw claim_refs_nil|].
    destruct r as [[out infos]|e|]; [by destruct H4|done|done].
  - assert (topic_wf (claimed_topic (sub_id s) (entry_id en) [en] t)) as Hwf1
      by (by eapply take_claim_wf).
    apply update_publisher_shm_inv in Hrun as (H1 & H2 & H3 & _ & _ & _ & _ & H4);
      [|done|by apply notify_ok_claimed|done].
    split_and!; [done|done|done|].
    destruct r as [[out infos]|e|]; [by destruct H4|done|done].
Qed.

(** C9. RELEASE_SUB_REF succeeds exactly when the named subscriber holds a reference to the named
    entry, and then drops that reference and changes nothing else; otherwise it is EINVAL and the
    topic is untouched. *)
Theorem release_reference_correct t id eid t' r :
  topic_wf t -> notify_ok rules t -> release_reference_topic t id eid = (t', r) ->
  topic_wf t' /\ notify_ok rules t' /\
  match r with
  | Ok _ =>
      (exists en, en ∈ entries t /\ entry_id en = eid /\
         test_bit id (referencing_subscribers en) = true) /\
      t' = set_entries ((fun x => if entry_id x =? eid
             then set_refs (clear_bit id (referencing_subscribers x)) x else x) <$> entries t) t
  | Err e =>
      e = EINVAL /\ t' = t /\
      ~ exists en, en ∈ entries t /\ entry_id en = eid /\
          test_bit id (referencing_subscribers en) = true
  | Oops => False
  end.
Proof.
  intros Hwf Hok. unfold release_reference_topic.
  assert ((forall en, en ∈ entries t -> entry_id en = eid ->
      test_bit id (referencing_subscribers en) = true -> False) ->
    (t, Err EINVAL) = (t', r) -> topic_wf t' /\ notify_ok rules t' /\
    match r with
    | Ok _ => (exists en, en ∈ entries t /\ entry_id en = eid /\
         test_bit id (referencing_subscribers en) = true) /\
        t' = set_entries (unclaim id eid <$> entries t) t
    | Err e => e = EINVAL /\ t' = t /\ ~ exists en, en ∈ entries t /\ entry_id en = eid /\
          test_bit id (referencing_subscribers en) = true
    | Oops => False end) as Herr by (intros Hno [= <- <-]; split_and!; naive_solver).
  destruct (find_message_entry t eid) as [en|] eqn:Hf.
  2: { apply Herr. intros en Hen <- _. by rw find_message_entry_unique in Hf. }
  pose proof (find_Some_inv _ _ _ Hf) as [Hen <-%Z.eqb_eq].
  assert (forall en', en' ∈ entries t -> entry_id en' = entry_id en -> en' = en) as Huniq.
  { intros en' Hen' Heq. eapply (NoDup_fmap_inj_on entry_id); eauto.
    apply ordered_nodup_ids, (wf_sorted _ Hwf). }
  destruct (Z.ltb_spec id 0) as [Hlo|Hlo]; simpl.
  { apply Herr. intros en' Hen' _ Hb. pose proof (held_reference_range _ _ _ Hwf Hen' Hb). lia. }
  destruct (Z.leb_spec MAX_TOPIC_LOCAL_ID id) as [Hhi|Hhi]; simpl.
  { apply Herr. intros en' Hen' _ Hb. pose proof (held_reference_range _ _ _ Hwf Hen' Hb). lia. }
  destruct (test_bit id (referencing_subscribers en)) eqn:Hb.
  - intros [= <- <-]. rw unclaim_upd //. split_and!; [by apply unclaim_wf|by apply (notify_ok_subs_ext rules t)| |done]. eauto.
  - apply Herr. intros en' Hen' Heq Hb'. rw (Huniq en' Hen' Heq) in Hb'. congruence.
Qed.

(** Taking a new message and releasing it is the identity on the topic's entries: the
    reference the take added is the one the release drops. *)
Theorem take_release_roundtrip t s t1 a eid :
  topic_wf t -> find_subscriber_info t (sub_id s) = Some s ->
  take_core rules procs t s (sub_id s) false = (t1, Ok (TakeRet a eid)) -> eid <> -1 ->
  exists t2, release_reference_topic t1 (sub_id s) eid = (t2, Ok tt) /\ entries t2 = entries t.
Proof.
  intros Hwf Hf. rw take_core_spec //. pose proof (find_subscriber_info_Some _ _ _ Hf) as [Hs _].
  destruct (newest _ _) as [|en w] eqn:Hq; [intros [= _ _ <-]; done|].
  intros [= <- <- <-] _. pose proof (take_claim_wf _ _ _ _ _ _ _ Hwf Hf Hq) as Hwf1.
  assert (en ∈ pending rules procs t s (take_bound s false)) as Hen
    by (apply (newest_subseteq (Z.to_nat (sub_qos_depth s))); rw Hq; set_solver).
  apply list_elem_of_filter in Hen as [[Hb _] Hen]. unfold take_bound in Hb.
  pose proof (newer_unreferenced t s en Hwf Hs Hen Hb) as Hbit.
  pose proof (sub_id_range _ _ Hwf Hs) as Hid.
  set (en' := claim_refs (sub_id s) [en] en).
  assert (en' = set_refs (set_bit (sub_id s) (referencing_subscribers en)) en) as He'
    by (apply claim_refs_in; set_solver).
  assert (en' ∈ entries (claimed_topic (sub_id s) (entry_id en) [en] t)) as Hen'
    by (by apply list_elem_of_fmap_2).
  pose proof (find_message_entry_unique _ en' Hwf1 Hen') as Hfind.
  unfold en' in Hfind at 1. rw claim_refs_id in Hfind. unfold release_reference_topic. rw Hfind.
  destruct (Z.ltb_spec (sub_id s) 0), (Z.leb_spec MAX_TOPIC_LOCAL_ID (sub_id s)); try lia.
  assert (test_bit (sub_id s) (referencing_subscribers en') = true) as Hset.
  { rw He' /= test_set_bit; [by rw bool_decide_true|lia]. }
  rw Hset. simpl. eexists. split; [done|]. simpl.
  change (claim_refs (sub_id s) [en] <$> entries t)
    with (entries (claimed_topic (sub_id s) (entry_id en) [en] t)).
  rw unclaim_upd //. simpl. rw -list_fmap_compose -{2}(list_fmap_id (entries t)).
  apply list_fmap_ext. intros i x Hx%list_elem_of_lookup_2. simpl. unfold unclaim.
  rw claim_refs_id. destruct (Z.eqb_spec (entry_id x) (entry_id en)) as [Heq|Hne].
  - assert (x = en) as ->.
    { eapply (NoDup_fmap_inj_on entry_id); eauto. apply ordered_nodup_ids, (wf_sorted _ Hwf). }
    fold en'. rw He'. simpl. rw clear_set_bit; [|done|lia]. by destruct en.
  - apply claim_refs_notin. by intros ->%list_elem_of_singleton.
Qed.

(** After a successful mapping update, the subscriber's process maps the pool of every other
    live process that has a publisher delivering to it, so none of those pools can be assigned to
    a new process while the subscriber may still read messages in it; no process loses a mapping
    and no pool moves. *)
Theorem set_publisher_shm_info_maps al vnr t domain pid bridge size pool pool' infos :
  pool_wf pool -> valid_pid pid -> pools_present procs pool t ->
  set_publisher_shm_info al vnr rules procs t domain pid bridge size pool = (pool', Ok infos) ->
  pool_wf pool' /\ pool_extends pool pool' /\
  forall p proc, p ∈ pub_info_htable t -> pub_pid p <> pid ->
    domain_delivery_allowed rules t (pub_domain_id p) (pub_is_bridge p) domain bridge = true ->
    agnocast_find_process_info procs (pub_pid p) = Some proc -> exited proc = false ->
    exists m, pool' !! proc_mempool proc = Some m /\ pid ∈ mapped_pids m /\ mapped_num m <> 0.
Proof.
  intros Hwf Hv Hin Hrun. unfold set_publisher_shm_info in Hrun.
  apply shm_info_loop_inv in Hrun as (H1 & H2 & H3).
  - split_and!; [auto|done|]. intros p proc Hp Hpid Hal Hproc Hex.
    destruct (H3 p proc Hp) as (m & Hm & Hmap).
    { unfold to_map. rw Hproc Hex Hal. destruct (Z.eqb_spec pid (pub_pid p)); [congruence|done]. }
    exists m. split_and!; [done|done|].
    destruct (Forall_lookup_1 _ _ _ _ (H1 Hwf Hv) Hm) as [-> _ _].
    destruct (mapped_pids m); [set_solver|simpl; lia].
  - intros p proc Hp Ht. apply (Hin p proc Hp). unfold to_map in Ht.
    destruct (pid =? pub_pid p); [done|]. destruct (negb _); [done|].
    destruct (agnocast_find_process_info procs (pub_pid p)) as [q|]; [|done].
    by destruct (exited q).
Qed.
End properties.

(** ** Witnesses *)

Definition sample_procs : list process_info :=
  [ProcessInfo false PROCESS_ROLE_APPLICATION 100 100 0 1 0;
   ProcessInfo false PROCESS_ROLE_APPLICATION 200 200 1 1 0].
Definition sample_pool : list mempool_entry :=
  [MempoolEntry 4096 1 [100]; MempoolEntry 8192 1 [200]].

Definition sample_publish (t : topic_struct) :=
  @publish_msg_topic length_hash (fun _ => true) sample_procs sample_pool 4096 t 0 5000.
Definition sample_topic1 : topic_struct := (sample_publish sample_topic).1.1.
Definition sample_pub : publisher_info :=
  default (PublisherInfo 0 0 0 "" 0 false 0 false [] 0)
    (@find_publisher_info length_hash sample_topic 0).
Definition sample_sub : subscriber_info :=
  default (SubscriberInfo 0 0 0 0 false false 0 "" false false false false None)
    (@find_subscriber_info length_hash sample_topic1 1).

Lemma sample_pools t :
  (pub_pid <$> pub_info_htable t) ⊆ [100] ->
  @pools_present length_hash sample_procs sample_pool t.
Proof.
  intros Hs p proc Hp Hf. assert (pub_pid p = 100) as Heq.
  { apply (list_elem_of_fmap_2 pub_pid) in Hp. specialize (Hs _ Hp). set_solver. }
  rw Heq in Hf. injection Hf as <-. simpl. eauto.
Qed.

Lemma sample_topic1_ok : topic_wf sample_topic1 /\ notify_ok [] sample_topic1.
Proof.
  destruct sample_topic_ok as [Hwf Hok].
  destruct (publish_msg_inv (H := length_hash) [] sample_procs (fun _ => true) sample_pool 4096
    sample_topic 0 5000 sample_topic1 (sample_publish sample_topic).1.2
    (sample_publish sample_topic).2) as (H1 & H2 & _); try done.
  - by apply sample_pools.
Qed.

Lemma publish_msg_correct_witness :
  exists t' gone,
    sample_publish sample_topic = (t', [77], Ok (PublishRet 1 (msg_virtual_address <$> gone))).
Proof.
  destruct sample_topic_ok as [Hwf Hok].
  destruct (publish_msg_correct (H := length_hash) [] sample_procs (fun _ => true) sample_pool 4096
    sample_topic sample_pub (ProcessInfo false PROCESS_ROLE_APPLICATION 100 100 0 1 0)
    (MempoolEntry 4096 1 [100]) 5000) as (t' & gone & H1 & _); try done.
  exists t', gone. exact H1.
Defined.

Lemma publish_msg_safe_witness :
  topic_wf sample_topic1 /\ notify_ok [] sample_topic1.
Proof.
  destruct sample_topic_ok as [Hwf Hok].
  destruct (publish_msg_safe (H := length_hash) [] sample_procs (fun _ => true) sample_pool 4096
    sample_topic 0 5000 sample_topic1 (sample_publish sample_topic).1.2
    (sample_publish sample_topic).2) as (H1 & H2 & _); try done.
  by apply sample_pools.
Defined.

Definition sample_receive :=
  @receive_msg_topic length_hash (fun _ => true) (fun p => Some p) [] sample_procs sample_pool
    sample_topic1 0 1 16.

Lemma receive_msg_correct_witness :
  sample_receive.2 = Ok ([(1, 5000)], false, [PublisherShmInfo 100 4096]) /\
  topic_wf sample_receive.1.1.
Proof.
  split; [reflexivity|]. destruct sample_topic1_ok as [Hwf Hok].
  destruct (receive_msg_correct (H := length_hash) [] sample_procs (fun _ => true) (fun p => Some p)
    sample_pool sample_topic1 0 sample_sub 16 sample_receive.1.1 sample_receive.1.2
    sample_receive.2) as (H1 & _); try done.
  by apply sample_pools.
Defined.

Lemma receive_again_continues_witness :
  @window length_hash [] sample_procs
    (@receive_msg_core length_hash [] sample_procs sample_topic1 sample_sub 1).1
    (set_latest_received 1 sample_sub) = [].
Proof.
  destruct sample_topic1_ok as [Hwf Hok].
  by rw (receive_again_continues (H := length_hash) [] sample_procs sample_topic1 sample_sub
    (@receive_msg_core length_hash [] sample_procs sample_topic1 sample_sub 1).1
    [(1, 5000)] false (set_latest_received 1 sample_sub)).
Defined.

Definition sample_take :=
  @take_msg_topic length_hash (fun _ => true) (fun p => Some p) [] sample_procs sample_pool
    sample_topic1 0 1 false 16.

Lemma take_msg_correct_witness :
  sample_take.2 = Ok (TakeRet 5000 1, [PublisherShmInfo 100 4096]) /\ topic_wf sample_take.1.1.
Proof.
  split; [reflexivity|]. destruct sample_topic1_ok as [Hwf Hok].
  destruct (take_msg_correct (H := length_hash) [] sample_procs (fun _ => true) (fun p => Some p)
    sample_pool sample_topic1 0 sample_sub false 16 sample_take.1.1 sample_take.1.2
    sample_take.2) as (H1 & _); try done.
  by apply sample_pools.
Defined.

Definition sample_claimed : topic_struct :=
  (@take_core length_hash [] sample_procs sample_topic1 sample_sub 1 false).1.

Lemma take_release_roundtrip_witness :
  exists t2, release_reference_topic sample_claimed 1 1 = (t2, Ok tt) /\
    entries t2 = entries sample_topic1.
Proof.
  destruct sample_topic1_ok as [Hwf Hok].
  apply (take_release_roundtrip (H := length_hash) [] sample_procs sample_topic1 sample_sub
    sample_claimed 5000 1); done.
Defined.

Lemma release_reference_correct_witness :
  topic_wf (release_reference_topic sample_topic1 1 1).1 /\
  (release_reference_topic sample_topic1 1 1).2 = Err EINVAL.
Proof.
  destruct sample_topic1_ok as [Hwf Hok]. split; [|reflexivity].
  destruct (release_reference_correct [] sample_topic1 1 1
    (release_reference_topic sample_topic1 1 1).1 (release_reference_topic sample_topic1 1 1).2)
    as (H1 & _); done.
Defined.

Lemma set_publisher_shm_info_maps_witness :
  pool_wf [MempoolEntry 4096 2 [200; 100]; MempoolEntry 8192 1 [200]].
Proof.
  destruct (set_publisher_shm_info_maps (H := length_hash) [] sample_procs (fun _ => true)
    (fun p => Some p) sample_topic1 0 200 false 16 sample_pool
    [MempoolEntry 4096 2 [200; 100]; MempoolEntry 8192 1 [200]] [PublisherShmInfo 100 4096])
    as (H1 & _); try done.
  - repeat constructor; try (vm_compute; congruence); set_solver.
  - by apply sample_pools.
Defined.
