(* ===== verification/KCleanup.v ===== *)
(** * Kernel module: endpoints leaving a topic

    Model of the REMOVE_SUBSCRIBER and REMOVE_PUBLISHER system calls of
    agnocast_kmod/agnocast_ioctl.c once the topic is found, and of the cleanup of an exited
    process in one topic ([pre_handler_subscriber_exit] and [pre_handler_publisher_exit] of
    agnocast_kmod/agnocast_internal.c). *)

From S2P Require Import Prelude Kernel KMempool KTypes KRules KTopic KMessage.

(** ** Operations *)

(** [!proc_info || proc_info->exited] *)
Definition owner_gone `{KernelHash} (procs : list process_info) (p : publisher_info) : bool :=
  match agnocast_find_process_info procs (pub_pid p) with
  | None => true
  | Some proc => exited proc
  end.

(** [hash_for_each_possible(pub_info_htable, ...) if (pub_info->id == id) ... break;] *)
Definition find_pub `{KernelHash} (id : Z) (pubs : list publisher_info) : option publisher_info :=
  find (fun p => pub_id p =? id)
    (hash_for_each_possible pub_bucket
       (hash_min (hash_min id PUB_INFO_HASH_BITS) PUB_INFO_HASH_BITS) pubs).

(** [pub_info->entries_num--; if (pub_info->entries_num == 0) hash_del(...)] *)
Definition drop_one_entry (p : publisher_info) (pubs : list publisher_info)
    : list publisher_info :=
  let n := u32 (entries_num p - 1) in
  if n =? 0 then hash_del (fun q => pub_id q =? pub_id p) pubs
  else hash_upd (fun q => pub_id q =? pub_id p) (set_entries_num n) pubs.

(** The walk over the tree both removals of a subscriber share: clear its reference on each entry
    and remove the entries nobody references whose publisher's process is gone. *)
Fixpoint drop_subscriber_refs `{KernelHash} (procs : list process_info) (subscriber_id : Z)
    (l : list entry_node) (pubs : list publisher_info)
    : list entry_node * list publisher_info :=
  match l with
  | [] => ([], pubs)
  | en :: rest =>
      let en := set_refs (clear_bit subscriber_id (referencing_subscribers en)) en in
      if agnocast_is_referenced en then
        let '(rest, pubs) := drop_subscriber_refs procs subscriber_id rest pubs in
        (en :: rest, pubs)
      else
        match find_pub (publisher_id en) pubs with
        | Some p =>
            if owner_gone procs p then
              drop_subscriber_refs procs subscriber_id rest (drop_one_entry p pubs)
            else
              let '(rest, pubs) := drop_subscriber_refs procs subscriber_id rest pubs in
              (en :: rest, pubs)
        | None =>
            let '(rest, pubs) := drop_subscriber_refs procs subscriber_id rest pubs in
            (en :: rest, pubs)
        end
  end.

(** The walk both removals of a publisher share: remove its entries nobody references, then the
    publisher if it has none left. *)
Definition drop_publisher (publisher_id' : Z) (t : topic_struct) : topic_struct :=
  let removed := filter (fun en => publisher_id en = publisher_id' /\
                                   agnocast_is_referenced en = false) (entries t) in
  let t := set_entries (filter (fun en => ~ (publisher_id en = publisher_id' /\
                                   agnocast_is_referenced en = false)) (entries t)) t in
  let t := upd_publisher publisher_id'
             (fun p => set_entries_num (u32 (entries_num p - Z.of_nat (length removed))) p) t in
  match find (fun p => pub_id p =? publisher_id') (pub_info_htable t) with
  | Some p => if entries_num p =? 0
              then set_pubs (hash_del (fun q => pub_id q =? publisher_id') (pub_info_htable t)) t
              else t
  | None => t
  end.

Definition agnocast_wrapper_has_domain_endpoints (t : topic_struct) (domain : Z) : bool :=
  existsb (fun p => pub_domain_id p =? domain) (pub_info_htable t) ||
  existsb (fun s => sub_domain_id s =? domain) (sub_info_htable t).

(** The body of [agnocast_ioctl_remove_subscriber] once the topic is found, up to the release of
    the wrapper: the topic, the eventfd contexts put, and the error if any.  Only on [Ok] is the
    wrapper checked for release. *)
Definition remove_subscriber_topic `{KernelHash} (rules : list domain_bridge_rule)
    (procs : list process_info) (t : topic_struct) (subscriber_id : Z)
    : topic_struct * list Z * res unit :=
  unwrap s := find_subscriber_info t subscriber_id orelse (t, [], Err ENODATA);
  let '(t, puts) := agnocast_unlink_subscriber_info rules t s in
  require negb ((subscriber_id <? 0) || (MAX_TOPIC_LOCAL_ID <=? subscriber_id))
    orelse (t, puts, Err EINVAL);
  let '(l, pubs) := drop_subscriber_refs procs subscriber_id (entries t) (pub_info_htable t) in
  (set_pubs pubs (set_entries l t), puts, Ok tt).

(** The same for [agnocast_ioctl_remove_publisher]. *)
Definition remove_publisher_topic `{KernelHash} (t : topic_struct) (publisher_id' : Z)
    : topic_struct * res unit :=
  unwrap p := find_publisher_info t publisher_id' orelse (t, Err ENODATA);
  (drop_publisher publisher_id' t, Ok tt).

(** The loop of [pre_handler_subscriber_exit] over the subscribers unlinked; the list is the
    eventfd contexts put. *)
Fixpoint exit_leaving `{KernelHash} (procs : list process_info) (leaving : list subscriber_info)
    (t : topic_struct) : topic_struct * list Z :=
  match leaving with
  | [] => (t, [])
  | s :: rest =>
      let put := match notify_ctx s with Some c => [c] | None => [] end in
      let t :=
        if (sub_id s <? 0) || (MAX_TOPIC_LOCAL_ID <=? sub_id s) then t
        else let '(l, pubs) :=
               drop_subscriber_refs procs (sub_id s) (entries t) (pub_info_htable t) in
             set_pubs pubs (set_entries l t) in
      let '(t, puts) := exit_leaving procs rest t in (t, put ++ puts)
  end.

Definition pre_handler_subscriber_exit `{KernelHash} (rules : list domain_bridge_rule)
    (procs : list process_info) (t : topic_struct) (pid : Z) : topic_struct * list Z :=
  let leaving := rev (filter (fun s => sub_pid s = pid) (sub_info_htable t)) in
  let t := set_subs (filter (fun s => sub_pid s <> pid) (sub_info_htable t)) t in
  require negb (bool_decide (leaving = [])) orelse (t, []);
  exit_leaving procs leaving (rebuild_all_notify_lists rules t).

Definition pre_handler_publisher_exit (t : topic_struct) (pid : Z) : topic_struct :=
  fold_left (fun t p => drop_publisher (pub_id p) t)
    (filter (fun p => pub_pid p = pid) (pub_info_htable t)) t.

(** What [agnocast_process_exit_cleanup] does to one topic: the publishers, then the subscribers. *)
Definition process_exit_topic `{KernelHash} (rules : list domain_bridge_rule)
    (procs : list process_info) (t : topic_struct) (pid : Z) : topic_struct * list Z :=
  pre_handler_subscriber_exit rules procs (pre_handler_publisher_exit t pid) pid.

(** ** Specification *)

(** The publisher table counts the entries of [l]. *)
Record table_inv (l : list entry_node) (pubs : list publisher_info) : Prop := {
  ti_nodup : NoDup (pub_id <$> pubs);
  ti_publishers : Forall (fun en => publisher_id en ∈ pub_id <$> pubs) l;
  ti_num : Forall (fun p => entries_num p = num_entries_of (pub_id p) l) pubs;
  ti_fit : Z.of_nat (length l) < 2 ^ 32
}.

(** [pubs'] is [pubs] with some publishers removed and some entry counts changed. *)
Definition shrinks (pubs pubs' : list publisher_info) : Prop :=
  (pub_id <$> pubs') `sublist_of` (pub_id <$> pubs) /\
  forall p', p' ∈ pubs' -> exists p n, p ∈ pubs /\ p' = set_entries_num n p.

(** The entries whose reference [subscriber_id] is cleared. *)
Definition cleared (id : Z) (en : entry_node) : entry_node :=
  set_refs (clear_bit id (referencing_subscribers en)) en.

(** Whether an entry survives the walk: someone references it, or its publisher's process lives. *)
Definition survives `{KernelHash} (procs : list process_info) (pubs : list publisher_info)
    (en : entry_node) : Prop :=
  agnocast_is_referenced en = true \/
  match find_pub (publisher_id en) pubs with Some p => owner_gone procs p = false | None => True end.

#[export] Instance survives_dec `{KernelHash} procs pubs en : Decision (survives procs pubs en).
Proof. unfold survives. destruct (find_pub _ _); apply _. Defined.

(** ** Lemmas *)

Lemma shrinks_refl pubs : shrinks pubs pubs.
Proof. split; [done|]. intros p Hp. exists p, (entries_num p). by destruct p. Qed.

Lemma shrinks_trans p1 p2 p3 : shrinks p1 p2 -> shrinks p2 p3 -> shrinks p1 p3.
Proof.
  intros [Hs1 H1] [Hs2 H2]. split; [by etrans|]. intros p Hp.
  destruct (H2 p Hp) as (q & n & Hq & ->). destruct (H1 q Hq) as (r & m & Hr & ->).
  by exists r, n.
Qed.

Lemma del_shrinks this pubs : shrinks pubs (hash_del this pubs).
Proof.
  split; [apply fmap_sublist, hash_del_sublist|]. intros q Hq%elem_of_hash_del.
  exists q, (entries_num q). by destruct q.
Qed.

Lemma drop_one_shrinks p pubs : shrinks pubs (drop_one_entry p pubs).
Proof.
  unfold drop_one_entry. case_match; split.
  - apply fmap_sublist, hash_del_sublist.
  - intros q Hq%elem_of_hash_del. exists q, (entries_num q). by destruct q.
  - by rw fmap_hash_upd.
  - intros q [Hq|(q0 & Hq0 & _ & ->)]%elem_of_hash_upd; [|eauto].
    exists q, (entries_num q). by destruct q.
Qed.

Section cleanup.
Context `{KernelHash} (procs : list process_info).

Lemma find_pub_eq id pubs : find_pub id pubs = find (fun p => pub_id p =? id) pubs.
Proof. apply find_possible. intros x <-%Z.eqb_eq. done. Qed.

Lemma find_pub_Some id pubs p : find_pub id pubs = Some p -> p ∈ pubs /\ pub_id p = id.
Proof. rw find_pub_eq. intros [? ?%Z.eqb_eq]%find_Some_inv. done. Qed.

Lemma find_pub_unique pubs p :
  NoDup (pub_id <$> pubs) -> p ∈ pubs -> find_pub (pub_id p) pubs = Some p.
Proof.
  intros Hd Hp. rw find_pub_eq -(find_key_unique pub_id p _ Hd Hp).
  apply find_ext. intros q _. destruct (Z.eqb_spec (pub_id q) (pub_id p));
    [by rw bool_decide_true|by rw bool_decide_false].
Qed.

Lemma shrinks_nodup pubs pubs' :
  shrinks pubs pubs' -> NoDup (pub_id <$> pubs) -> NoDup (pub_id <$> pubs').
Proof. intros [Hs _] Hd. by eapply sublist_NoDup. Qed.

(** A publisher still in the smaller table is the one the larger table has under its id. *)
Lemma find_pub_shrinks pubs pubs' id :
  shrinks pubs pubs' -> NoDup (pub_id <$> pubs) -> id ∈ pub_id <$> pubs' ->
  exists p n, find_pub id pubs = Some p /\ find_pub id pubs' = Some (set_entries_num n p).
Proof.
  intros Hs Hd (p' & -> & Hp')%list_elem_of_fmap.
  destruct Hs as [Hsub Hex]. destruct (Hex p' Hp') as (p & n & Hp & ->). exists p, n.
  split; [by apply (find_pub_unique pubs p)|]. apply (find_pub_unique pubs' (set_entries_num n p)); [|done].
  by eapply sublist_NoDup.
Qed.

Lemma survives_shrinks pubs pubs' en :
  shrinks pubs pubs' -> NoDup (pub_id <$> pubs) -> publisher_id en ∈ pub_id <$> pubs' ->
  survives procs pubs' en <-> survives procs pubs en.
Proof.
  intros Hs Hd Hin. destruct (find_pub_shrinks _ _ _ Hs Hd Hin) as (p & n & H1 & H2).
  unfold survives. rw H1 H2. done.
Qed.

Lemma num_entries_of_app id l1 l2 :
  num_entries_of id (l1 ++ l2) = num_entries_of id l1 + num_entries_of id l2.
Proof. unfold num_entries_of, entries_of. rw filter_app length_app. lia. Qed.

Lemma num_entries_of_cons id en l :
  num_entries_of id (en :: l) = (if publisher_id en =? id then 1 else 0) + num_entries_of id l.
Proof.
  unfold num_entries_of, entries_of. rw filter_cons.
  destruct (Z.eqb_spec (publisher_id en) id); case_decide; try done; simpl; lia.
Qed.

Lemma num_entries_of_zero id l :
  num_entries_of id l = 0 <-> forall en, en ∈ l -> publisher_id en <> id.
Proof.
  induction l as [|x l IH]; [split; [set_solver|done]|]. rw num_entries_of_cons.
  pose proof (num_entries_of_bound id l). destruct (Z.eqb_spec (publisher_id x) id) as [Heq|Hne].
  - split; [lia|]. intros Hn. exfalso. apply (Hn x); set_solver.
  - rw Z.add_0_l IH. set_solver.
Qed.

Lemma table_inv_same_keys l l' pubs :
  publisher_id <$> l' = publisher_id <$> l -> table_inv l pubs -> table_inv l' pubs.
Proof.
  intros Hk [H1 H2 H3 H4]. split; [done| | |].
  - by eapply (Forall_proj publisher_id (fun i => i ∈ pub_id <$> pubs)).
  - eapply Forall_impl; [exact H3|]. intros p ->. simpl. unfold num_entries_of, entries_of. f_equal.
    clear -Hk. revert l' Hk. induction l as [|x l IH]; intros [|x' l'] Hk; try done.
    csimpl in Hk. injection Hk as Hx Hk. rw !filter_cons Hx. case_decide; simpl; by rw (IH l' Hk).
  - by rw -(length_fmap publisher_id) Hk length_fmap.
Qed.

(** Removing one entry of a publisher keeps the counts. *)
Lemma table_inv_drop_one done_l en rest pubs p :
  table_inv (done_l ++ en :: rest) pubs -> find_pub (publisher_id en) pubs = Some p ->
  table_inv (done_l ++ rest) (drop_one_entry p pubs).
Proof.
  intros [Hnd Hp Hn Hfit] Hf. apply find_pub_Some in Hf as [Hin Hid].
  rw length_app /= in Hfit. apply Forall_app in Hp as [Hp1 Hp2]. apply Forall_cons in Hp2 as [_ Hp2].
  assert (forall q, q ∈ pubs -> entries_num q = num_entries_of (pub_id q) (done_l ++ rest) +
    (if publisher_id en =? pub_id q then 1 else 0)) as Hcount.
  { intros q Hq. rw Forall_forall in Hn. rw (Hn q Hq) !num_entries_of_app num_entries_of_cons. lia. }
  pose proof (Hcount p Hin) as Hpn. rw Hid Z.eqb_refl in Hpn.
  pose proof (num_entries_of_bound (publisher_id en) (done_l ++ rest)) as Hb.
  rw length_app in Hb.
  assert (u32 (entries_num p - 1) = num_entries_of (publisher_id en) (done_l ++ rest)) as Hu
    by (unfold u32; rw Z.mod_small; lia).
  pose proof (drop_one_shrinks p pubs) as Hs. pose proof (shrinks_nodup _ _ Hs Hnd) as Hnd'.
  unfold drop_one_entry in *. rw Hu in Hs, Hnd'. rw Hu.
  destruct (Z.eqb_spec (num_entries_of (publisher_id en) (done_l ++ rest)) 0) as [Hz|Hz].
  - assert (pubs ≡ₚ p :: hash_del (fun q => pub_id q =? pub_id p) pubs) as Hperm.
    { apply hash_del_perm. rw -find_pub_eq. by apply find_pub_unique. }
    split; [done| | |by rw length_app; lia].
    + assert (forall x, x ∈ done_l ++ rest -> publisher_id x ∈ pub_id <$> pubs ->
        publisher_id x ∈ pub_id <$> hash_del (fun q => pub_id q =? pub_id p) pubs) as Hkeep.
      { intros x Hx Hx'. rw Hperm in Hx'. csimpl in Hx'. apply elem_of_cons in Hx' as [Heq|?]; [|done].
        exfalso. rw Hid in Heq. by apply (proj1 (num_entries_of_zero _ _) Hz x). }
      apply Forall_forall. intros x Hx. apply Hkeep; [done|].
      apply elem_of_app in Hx as [Hx|Hx]; [by eapply Forall_forall in Hp1|by eapply Forall_forall in Hp2].
    + apply Forall_forall. intros q Hq. pose proof (elem_of_hash_del _ _ _ Hq) as Hq'.
      rw (Hcount q Hq'). destruct (Z.eqb_spec (publisher_id en) (pub_id q)) as [Heq|]; [|lia].
      exfalso. assert (q = p) as -> by (apply (NoDup_fmap_inj_on pub_id pubs); [done|done|done|congruence]).
      rw Hperm in Hnd. csimpl in Hnd. apply NoDup_cons in Hnd as [Hno _]. apply Hno.
      by apply list_elem_of_fmap_2.
  - split; [done| | |by rw length_app; lia].
    + rw fmap_hash_upd //. apply Forall_app. by split.
    + rw hash_upd_key //. apply Forall_fmap, Forall_forall. intros q Hq. simpl.
      destruct (Z.eqb_spec (pub_id q) (pub_id p)) as [Heq|Hne]; simpl; [by rw Heq Hid|].
      rw (Hcount q Hq). destruct (Z.eqb_spec (publisher_id en) (pub_id q)); [congruence|lia].
Qed.

Lemma drop_refs_spec id todo done_l pubs l pubs' :
  table_inv (done_l ++ todo) pubs -> drop_subscriber_refs procs id todo pubs = (l, pubs') ->
  table_inv (done_l ++ l) pubs' /\ shrinks pubs pubs' /\
  l = filter (survives procs pubs) (cleared id <$> todo).
Proof.
  revert done_l pubs l pubs'. induction todo as [|en rest IH]; intros done_l pubs l pubs' Hinv Hrun.
  { injection Hrun as <- <-. split_and!; [done|apply shrinks_refl|done]. }
  cbn [drop_subscriber_refs] in Hrun. fold (cleared id en) in Hrun. csimpl.
  assert (table_inv ((done_l ++ [cleared id en]) ++ rest) pubs) as Hkeep.
  { eapply table_inv_same_keys; [|exact Hinv]. by rw -app_assoc !fmap_app. }
  assert (survives procs pubs (cleared id en) -> forall l1 p1,
    drop_subscriber_refs procs id rest pubs = (l1, p1) ->
    table_inv (done_l ++ cleared id en :: l1) p1 /\ shrinks pubs p1 /\
    cleared id en :: l1 = filter (survives procs pubs) (cleared id en :: (cleared id <$> rest)))
    as Hsurv.
  { intros Hs l1 p1 Hrest. apply (IH _ _ _ _ Hkeep) in Hrest as (H1 & H2 & ->).
    rw -app_assoc in H1. split_and!; [done|done|]. by rw filter_cons_True. }
  assert (publisher_id (cleared id en) ∈ pub_id <$> pubs) as Hin.
  { destruct Hinv as [_ Hp _ _]. apply Forall_app in Hp as [_ Hp]. by apply Forall_cons in Hp as [? _]. }
  destruct (agnocast_is_referenced (cleared id en)) eqn:Hr.
  { destruct (drop_subscriber_refs procs id rest pubs) as [l1 p1] eqn:E. injection Hrun as <- <-.
    apply Hsurv; [by left|done]. }
  change (publisher_id (cleared id en)) with (publisher_id en) in *.
  apply list_elem_of_fmap in Hin as (p & Hid & Hp).
  assert (find_pub (publisher_id en) pubs = Some p) as Hf
    by (rw Hid; apply find_pub_unique; [apply Hinv|done]).
  rw Hf in Hrun. destruct (owner_gone procs p) eqn:Hg.
  - pose proof (table_inv_drop_one _ _ _ _ _ Hinv Hf) as Hinv1.
    pose proof (IH _ _ _ _ Hinv1 Hrun) as (H1 & H2 & Hl).
    pose proof (drop_one_shrinks p pubs) as Hs1.
    split_and!; [done|by eapply shrinks_trans|]. rw filter_cons_False.
    + rw Hl. apply list_filter_iff'. intros x (y & -> & Hy)%list_elem_of_fmap.
      apply survives_shrinks; [done|apply Hinv|]. destruct Hinv1 as [_ Hp1 _ _].
      apply Forall_app in Hp1 as [_ Hp1]. rw Forall_forall in Hp1. by apply (Hp1 y).
    + intros [?|Hs]; [congruence|]. change (publisher_id (cleared id en)) with (publisher_id en) in Hs.
      rw Hf in Hs. congruence.
  - destruct (drop_subscriber_refs procs id rest pubs) as [l1 p1] eqn:E. injection Hrun as <- <-.
    apply Hsurv; [|done]. right. change (publisher_id (cleared id en)) with (publisher_id en).
    by rw Hf.
Qed.

(** ** Lemmas: the invariant *)

Lemma table_inv_wf t : topic_wf t -> table_inv (entries t) (pub_info_htable t).
Proof.
  intros Hwf. split; [by apply wf_pub_ids_nodup|apply (wf_publishers _ Hwf)|
    apply (wf_entries_num _ Hwf)|apply (wf_fit _ Hwf)].
Qed.

(** Removing entries, publishers without entries and subscribers without references keeps the
    invariant. *)
Lemma topic_wf_shrink t t' :
  topic_wf t -> ordered (entries t') ->
  (forall en', en' ∈ entries t' -> refs_ok (sub_info_htable t') en' /\
     exists en, en ∈ entries t /\ entry_id en' = entry_id en) ->
  table_inv (entries t') (pub_info_htable t') ->
  shrinks (pub_info_htable t) (pub_info_htable t') ->
  sub_info_htable t' `sublist_of` sub_info_htable t ->
  current_pubsub_id t' = current_pubsub_id t -> current_entry_id t' = current_entry_id t ->
  topic_wf t'.
Proof.
  intros Hwf Ho He Hti [Hsub Hex] Hsubs Hc1 Hc2.
  assert (endpoint_ids t' `sublist_of` endpoint_ids t) as Hids
    by (apply sublist_app; [done|by apply fmap_sublist]).
  assert (forall {A} (P : A -> Prop) l1 l2, l1 `sublist_of` l2 -> Forall P l2 -> Forall P l1) as Hfs.
  { intros A P l1 l2 Hs Hf. apply Forall_forall. rw Forall_forall in Hf. intros x Hx.
    apply Hf. by eapply elem_of_sublist. }
  destruct Hwf, Hti. split; rw ?Hc1 ?Hc2; try done.
  - apply Forall_forall. rw Forall_forall in wf_entry_ids. intros en' Hen'.
    destruct (He en' Hen') as (_ & en & Hen & ->). auto.
  - exact (sublist_NoDup _ _ wf_ids_nodup Hids).
  - by eapply Hfs.
  - apply sublist_length in Hsub. rw !length_fmap in Hsub.
    unfold agnocast_get_size_pub_info_htable in *. lia.
  - apply sublist_length in Hsubs. unfold agnocast_get_size_sub_info_htable in *. lia.
  - apply Forall_forall. intros en' Hen'. by apply He.
  - by eapply Hfs.
  - apply Forall_forall. rw Forall_forall in wf_pub_depth. intros p' Hp'.
    destruct (Hex p' Hp') as (p & n & Hp & ->). simpl. auto.
  - by eapply Hfs.
  - destruct wf_fit. split; [done|by rw Hc2].
Qed.

Lemma shrinks_notify_ok rules t t' :
  shrinks (pub_info_htable t) (pub_info_htable t') -> sub_info_htable t' = sub_info_htable t ->
  rule t' = rule t -> notify_ok rules t -> notify_ok rules t'.
Proof.
  intros [_ Hex] Hs Hr Hok. unfold notify_ok in *. rw Forall_forall in Hok. apply Forall_forall.
  intros p' Hp'. destruct (Hex p' Hp') as (p & n & Hp & ->). destruct (Hok p Hp) as [H1 H2]. split.
  - simpl. rw H1 Hs. by apply list_omap_target.
  - unfold notifiable_subscriber_num in *. by rw Hs.
Qed.

(** The reference walk for a subscriber that leaves: [s] is still in the table before, gone after. *)
Lemma drop_refs_wf t s subs l pubs :
  topic_wf (set_subs (s :: subs) t) ->
  drop_subscriber_refs procs (sub_id s) (entries t) (pub_info_htable t) = (l, pubs) ->
  topic_wf (set_pubs pubs (set_entries l (set_subs subs t))) /\
  shrinks (pub_info_htable t) pubs /\
  l = filter (survives procs (pub_info_htable t)) (cleared (sub_id s) <$> entries t).
Proof.
  intros Hwf Hrun. pose proof (table_inv_wf _ Hwf) as Hti. simpl in Hti.
  pose proof (drop_refs_spec (sub_id s) (entries t) [] _ _ _ Hti Hrun) as (H1 & H2 & Hl).
  split_and!; [|done|done]. apply (topic_wf_shrink (set_subs (s :: subs) t)); simpl; try done.
  - rw Hl. apply ordered_filter, ordered_fmap; [done|apply (wf_sorted _ Hwf)].
  - intros en'. rw Hl. intros [_ (en & -> & Hen)%list_elem_of_fmap]%list_elem_of_filter.
    split; [|by exists en]. pose proof (wf_refs _ Hwf) as Hr. rw Forall_forall in Hr.
    destruct (Hr en Hen) as [H0 Hb]. split; simpl; [by apply clear_bit_nonneg|].
    intros id Hid. rw test_clear_bit in Hid. bool_to_prop.
    destruct (Hb id) as (s0 & Hs0 & Hsid & Hle); [done|]. simpl in Hs0.
    apply elem_of_cons in Hs0 as [->|Hs0]; [congruence|by exists s0].
  - by apply sublist_cons.
Qed.

Lemma topic_wf_perm t subs subs' :
  subs ≡ₚ subs' -> topic_wf (set_subs subs t) -> topic_wf (set_subs subs' t).
Proof.
  intros Hp Hwf.
  assert (endpoint_ids (set_subs subs t) ≡ₚ endpoint_ids (set_subs subs' t)) as He
    by (unfold endpoint_ids; simpl; by rw Hp).
  destruct Hwf. split; try done.
  - by rw -He.
  - by rw -He.
  - unfold agnocast_get_size_sub_info_htable in *. simpl in *. by rw -Hp.
  - simpl. eapply Forall_impl; [exact wf_refs|]. intros en. apply refs_ok_mono. simpl. by rw Hp.
  - simpl. by rw -Hp.
  - simpl. by rw -Hp.
Qed.

Lemma set_subs_same t : set_subs (sub_info_htable t) t = t.
Proof. by destruct t. Qed.

(** ** Lemmas: notify lists when subscribers leave *)

Lemma omap_del_None {A B} (f : A -> option B) (this : A -> bool) x l :
  find this l = Some x -> f x = None -> omap f (hash_del this l) = omap f l.
Proof.
  induction l as [|y l IH]; csimpl; [done|]. destruct (this y).
  - intros [= ->] ->. done.
  - intros Hf Hx. csimpl. by rw IH.
Qed.

Lemma notifiable_num_sublist subs t t' :
  sub_info_htable t' = subs -> subs `sublist_of` sub_info_htable t ->
  notifiable_subscriber_num t' <= notifiable_subscriber_num t.
Proof.
  intros Hs Hsub. unfold notifiable_subscriber_num. rw Hs.
  apply (sublist_filter_mono (fun s => is_Some (notify_ctx s))), sublist_length in Hsub. lia.
Qed.


Lemma survives_fmap (f : publisher_info -> publisher_info) pubs en :
  (forall p, pub_id (f p) = pub_id p /\ pub_pid (f p) = pub_pid p) ->
  survives procs (f <$> pubs) en <-> survives procs pubs en.
Proof.
  intros Hf. unfold survives. rw !find_pub_eq. change (f <$> pubs) with (map f pubs).
  rw find_map_id. rw (find_ext (fun p => pub_id (f p) =? publisher_id en)
    (fun p => pub_id p =? publisher_id en)); [|intros p _; by rw (proj1 (Hf p))].
  destruct (find _ pubs) as [p|]; simpl; [|done]. unfold owner_gone. by rw (proj2 (Hf p)).
Qed.

(** Rebuilding after subscribers left needs no more room than there is. *)
Lemma notify_ok_rebuild_fewer rules t subs :
  notify_ok rules t -> subs `sublist_of` sub_info_htable t ->
  notify_ok rules (rebuild_all_notify_lists rules (set_subs subs t)).
Proof.
  intros Hok Hs. apply rebuild_all_notify_ok. eapply Forall_impl; [exact Hok|].
  intros p [_ Hc]. pose proof (notifiable_num_sublist subs t (set_subs subs t) eq_refl Hs). lia.
Qed.

Lemma topic_wf_rebuild_subs rules t t0 subs :
  topic_wf (set_subs subs t) -> topic_wf (set_subs subs
    (set_pubs (map (rebuild_notify_list rules t0) (pub_info_htable t)) t)).
Proof.
  intros Hwf. change (set_subs subs (set_pubs ?ps t)) with (set_pubs ps (set_subs subs t)).
  apply topic_wf_pubs_ext; [|done]. simpl.
  induction (pub_info_htable t) as [|p l IH]; csimpl; [done|]. by rw IH.
Qed.

Lemma unlink_spec rules t s t1 puts :
  topic_wf t -> notify_ok rules t -> find_subscriber_info t (sub_id s) = Some s ->
  agnocast_unlink_subscriber_info rules t s = (t1, puts) ->
  let subs := hash_del (fun i => sub_id i =? sub_id s) (sub_info_htable t) in
  topic_wf (set_subs (s :: subs) t1) /\ notify_ok rules t1 /\ sub_info_htable t1 = subs /\
  entries t1 = entries t /\ rule t1 = rule t /\
  puts = option_list (notify_ctx s) /\
  (exists f, pub_info_htable t1 = f <$> pub_info_htable t /\
     forall p, exists c, f p = set_notify c (notify_capacity p) p).
Proof.
  intros Hwf Hok Hf. rw find_subscriber_info_eq in Hf.
  pose proof (hash_del_perm _ _ _ Hf) as Hp. set (subs := hash_del _ _) in *.
  assert (topic_wf (set_subs (s :: subs) t)) as Hwf1.
  { apply (topic_wf_perm t (sub_info_htable t)); [done|]. by rw set_subs_same. }
  unfold agnocast_unlink_subscriber_info. fold subs. destruct (notify_ctx s) as [c|] eqn:Hc;
    intros [= <- <-]; split_and!; try done.
  - by apply topic_wf_rebuild_subs.
  - apply notify_ok_rebuild_fewer; [done|apply hash_del_sublist].
  - eexists. split; [done|]. intros p. by eexists.
  - unfold notify_ok. simpl. eapply Forall_impl; [exact Hok|]. intros p [Hl Hcap]. split.
    + simpl. rw Hl. unfold subs. rw (omap_del_None _ _ s); [by apply list_omap_target|done|].
      by apply notify_target_take.
    + pose proof (notifiable_num_sublist subs t (set_subs subs t) eq_refl (hash_del_sublist _ _)).
      lia.
  - exists id. split; [by rw list_fmap_id|]. intros p. exists (notify_ctxs p). by destruct p.
Qed.

Lemma pubs_rewritten_survives f pubs en :
  (forall p, exists c, f p = set_notify c (notify_capacity p) p) ->
  survives procs (f <$> pubs) en <-> survives procs pubs en.
Proof. intros Hf. apply survives_fmap. intros p. by destruct (Hf p) as [c ->]. Qed.

Lemma remove_subscriber_topic_inv rules t id t' puts r :
  topic_wf t -> notify_ok rules t -> remove_subscriber_topic rules procs t id = (t', puts, r) ->
  match find_subscriber_info t id with
  | None => t' = t /\ puts = [] /\ r = Err ENODATA
  | Some s =>
      r = Ok tt /\ topic_wf t' /\ notify_ok rules t' /\
      sub_info_htable t' = hash_del (fun i => sub_id i =? id) (sub_info_htable t) /\
      puts = option_list (notify_ctx s) /\
      entries t' = filter (survives procs (pub_info_htable t)) (cleared id <$> entries t) /\
      rule t' = rule t
  end.
Proof.
  intros Hwf Hok Hrun. unfold remove_subscriber_topic in Hrun.
  destruct (find_subscriber_info t id) as [s|] eqn:Hf; [|by injection Hrun as <- <- <-].
  pose proof (find_subscriber_info_Some _ _ _ Hf) as [Hs <-].
  destruct (agnocast_unlink_subscriber_info rules t s) as [t1 puts1] eqn:Hu.
  destruct (unlink_spec _ _ _ _ _ Hwf Hok Hf Hu) as (H1 & H2 & H3 & H4 & H5 & -> & f & Hpubs & Hfp).
  pose proof (sub_id_range _ _ Hwf Hs) as Hid.
  destruct (Z.ltb_spec (sub_id s) 0), (Z.leb_spec MAX_TOPIC_LOCAL_ID (sub_id s)); try lia.
  simpl in Hrun. destruct (drop_subscriber_refs _ _ _ _) as [l pubs] eqn:Hd.
  injection Hrun as <- <- <-. destruct (drop_refs_wf _ _ _ _ _ H1 Hd) as (Hwf' & Hsh & ->).
  rw -H3 set_subs_same in Hwf'. split_and!; try done.
  - by apply (shrinks_notify_ok rules t1).
  - simpl. rw H4. apply list_filter_iff'. intros x _. rw Hpubs. by apply pubs_rewritten_survives.
Qed.

(** ** Lemmas: a publisher leaves *)

(** The entries a publisher leaves behind: those a subscriber references. *)
Definition left_behind (id : Z) (en : entry_node) : Prop :=
  ~ (publisher_id en = id /\ agnocast_is_referenced en = false).

#[export] Instance left_behind_dec id en : Decision (left_behind id en).
Proof. unfold left_behind. apply _. Defined.

(** Removing a publisher without entries. *)
Lemma topic_wf_del_pub rules t p :
  topic_wf t -> notify_ok rules t -> p ∈ pub_info_htable t -> entries_num p = 0 ->
  let t' := set_pubs (hash_del (fun q => pub_id q =? pub_id p) (pub_info_htable t)) t in
  topic_wf t' /\ notify_ok rules t' /\ (pub_id p ∉ pub_id <$> pub_info_htable t') /\
  (forall q, q ∈ pub_info_htable t -> pub_id q <> pub_id p -> q ∈ pub_info_htable t').
Proof.
  intros Hwf Hok Hp Hz t'. pose proof (table_inv_wf _ Hwf) as [Hnd Hpubs Hn Hfit].
  assert (pub_info_htable t ≡ₚ p :: pub_info_htable t') as Hperm.
  { apply hash_del_perm. rw -find_pub_eq. by apply find_pub_unique. }
  assert (shrinks (pub_info_htable t) (pub_info_htable t')) as Hsh.
  { apply del_shrinks. }
  assert (pub_id p ∉ pub_id <$> pub_info_htable t') as Hout.
  { rw Hperm in Hnd. csimpl in Hnd. by apply NoDup_cons in Hnd as [? _]. }
  split_and!; [|by apply (shrinks_notify_ok rules t)|done|].
  - apply (topic_wf_shrink t); try done; [apply (wf_sorted _ Hwf)| |].
    + intros en Hen. split; [|by exists en]. pose proof (wf_refs _ Hwf) as Hr.
      rw Forall_forall in Hr. by apply Hr.
    + split; [by eapply shrinks_nodup| | |done].
      * apply Forall_forall. intros en Hen. rw Forall_forall in Hpubs.
        specialize (Hpubs en Hen). rw Hperm in Hpubs. csimpl in Hpubs.
        apply elem_of_cons in Hpubs as [Heq|?]; [|done]. exfalso.
        rw Forall_forall in Hn. specialize (Hn p Hp). rw Hz in Hn.
        by apply (proj1 (num_entries_of_zero _ _) (eq_sym Hn) en).
      * rw Hperm in Hn. by apply Forall_cons in Hn as [_ ?].
  - intros q Hq Hne. rw Hperm in Hq. apply elem_of_cons in Hq as [->|?]; done.
Qed.

Lemma drop_publisher_spec rules t id p :
  topic_wf t -> notify_ok rules t -> find_publisher_info t id = Some p ->
  topic_wf (drop_publisher id t) /\ notify_ok rules (drop_publisher id t) /\
  entries (drop_publisher id t) = filter (left_behind id) (entries t) /\
  sub_info_htable (drop_publisher id t) = sub_info_htable t /\ rule (drop_publisher id t) = rule t /\
  (id ∈ pub_id <$> pub_info_htable (drop_publisher id t) <->
     exists en, en ∈ entries t /\ publisher_id en = id /\ agnocast_is_referenced en = true) /\
  shrinks (pub_info_htable t) (pub_info_htable (drop_publisher id t)) /\
  (forall q, q ∈ pub_info_htable t -> pub_id q <> id -> q ∈ pub_info_htable (drop_publisher id t)).
Proof.
  intros Hwf Hok Hf. pose proof (find_publisher_info_Some _ _ _ Hf) as [Hp Hid].
  set (gone := filter (fun en => publisher_id en = id /\ agnocast_is_referenced en = false) (entries t)).
  assert (NoDup gone) as Hnd by (apply NoDup_filter, ordered_nodup, (wf_sorted _ Hwf)).
  assert (forall en, en ∈ gone -> en ∈ entries t /\ publisher_id en = id) as Hg.
  { intros en [[? _] ?]%list_elem_of_filter. done. }
  pose proof (released_topic_wf t id gone Hwf Hnd Hg) as Hwf1.
  assert (filter (left_behind id) (entries t) = without gone (entries t)) as Hfe.
  { apply list_filter_iff'. intros en Hen. unfold left_behind, gone.
    rw list_elem_of_filter. tauto. }
  set (t1 := released_topic t id gone) in *.
  assert (notify_ok rules t1) as Hok1 by (by apply (notify_ok_upd_count rules t _ id
    (fun p => u32 (entries_num p - Z.of_nat (length gone))))).
  set (p1 := set_entries_num (u32 (entries_num p - Z.of_nat (length gone))) p).
  assert (find (fun q => pub_id q =? id) (pub_info_htable t1) = Some p1) as Hf1.
  { rw find_publisher_info_eq in Hf. simpl. rw find_hash_upd; [by rw Hf|done]. }
  pose proof (find_Some_inv _ _ _ Hf1) as [Hp1 _].
  assert (shrinks (pub_info_htable t) (pub_info_htable t1)) as Hsh1.
  { split; [by simpl; rw fmap_hash_upd|]. intros q [Hq|(y & Hy & _ & ->)]%elem_of_hash_upd; [|eauto].
    exists q, (entries_num q). by destruct q. }
  assert (drop_publisher id t = if entries_num p1 =? 0
    then set_pubs (hash_del (fun q => pub_id q =? id) (pub_info_htable t1)) t1 else t1) as Hdrop.
  { unfold drop_publisher. fold gone. change (filter _ (entries t)) with
      (filter (left_behind id) (entries t)). rw Hfe. fold (released_topic t id gone). fold t1.
    by rw Hf1. }
  pose proof (wf_entries_num _ Hwf1) as Hn1. rw Forall_forall in Hn1. specialize (Hn1 _ Hp1).
  change (pub_id p1) with (pub_id p) in Hn1. rw Hid in Hn1. simpl entries in Hn1.
  assert (entries_num p1 <> 0 <-> exists en, en ∈ entries t /\ publisher_id en = id /\
    agnocast_is_referenced en = true) as Hiff.
  { rw Hn1 num_entries_of_zero. split.
    - intros Hne. destruct (decide (Exists (fun en => publisher_id en = id /\
        agnocast_is_referenced en = true) (entries t))) as [Hex|Hno].
      + apply list.Exists_exists in Hex as (en & ? & ? & ?). eauto.
      + exfalso. apply Hne. intros en [Hen Hng]%elem_of_without Hpe. apply Hng.
        apply list_elem_of_filter. split_and!; [done| |done]. apply not_true_iff_false. intros Hr.
        apply Hno, list.Exists_exists. eauto.
    - intros (en & Hen & Hpe & Hr) Hz. apply (Hz en); [|done]. apply elem_of_without.
      split; [done|]. intros [[_ ?] _]%list_elem_of_filter. congruence. }
  rw Hdrop. destruct (Z.eqb_spec (entries_num p1) 0) as [Hz|Hz].
  - destruct (topic_wf_del_pub rules t1 p1 Hwf1 Hok1 Hp1 Hz) as (H1 & H2 & H3 & H4).
    change (pub_id p1) with (pub_id p) in *. rw Hid in H1, H2, H3, H4. split_and!; try done.
    + split; [done|]. intros He. by apply Hiff in He.
    + eapply shrinks_trans; [exact Hsh1|apply del_shrinks].
    + intros q Hq Hne. apply H4; [|done]. apply elem_of_hash_upd_other; [done|by apply Z.eqb_neq].
  - split_and!; try done.
    + split; [intros _; by apply Hiff|]. intros _. rw -Hid. by apply (list_elem_of_fmap_2 pub_id _ p1).
    + intros q Hq Hne. apply elem_of_hash_upd_other; [done|by apply Z.eqb_neq].
Qed.

(** ** Lemmas: a process exits *)

Lemma not_elem_of_pub_id t id :
  topic_wf t -> id ∉ pub_id <$> pub_info_htable t <-> find_publisher_info t id = None.
Proof.
  intros Hwf. split.
  - intros Hno. destruct (find_publisher_info t id) as [q|] eqn:E; [|done]. exfalso.
    apply find_publisher_info_Some in E as [Hq <-]. apply Hno. by apply list_elem_of_fmap_2.
  - intros Hn (q & -> & Hq)%list_elem_of_fmap.
    rw (find_publisher_info_unique _ _ (wf_pub_ids_nodup _ Hwf) Hq) in Hn. done.
Qed.

Lemma find_publisher_by_id t p :
  NoDup (pub_id <$> pub_info_htable t) -> pub_id p ∈ pub_id <$> pub_info_htable t ->
  exists q, find_publisher_info t (pub_id p) = Some q.
Proof.
  intros Hd (q & -> & Hq)%list_elem_of_fmap. exists q. by apply find_publisher_info_unique.
Qed.

Lemma publisher_exit_spec rules t ps :
  topic_wf t -> notify_ok rules t -> NoDup (pub_id <$> ps) ->
  (forall p, p ∈ ps -> pub_id p ∈ pub_id <$> pub_info_htable t) ->
  let t' := fold_left (fun t p => drop_publisher (pub_id p) t) ps t in
  topic_wf t' /\ notify_ok rules t' /\ sub_info_htable t' = sub_info_htable t /\
  rule t' = rule t /\ shrinks (pub_info_htable t) (pub_info_htable t') /\
  (forall en, en ∈ entries t' <-> en ∈ entries t /\
     (publisher_id en ∈ pub_id <$> ps -> agnocast_is_referenced en = true)) /\
  (forall p, p ∈ pub_info_htable t' -> pub_id p ∈ pub_id <$> ps -> entries_num p <> 0).
Proof.
  revert t. induction ps as [|p ps IH]; intros t Hwf Hok Hnd Hin t'.
  { unfold t'. simpl. split_and!; try done; [apply shrinks_refl|set_solver|set_solver]. }
  csimpl in Hnd. apply NoDup_cons in Hnd as [Hp Hnd].
  destruct (find_publisher_by_id t p (wf_pub_ids_nodup _ Hwf) (Hin p ltac:(set_solver))) as [q Hq].
  destruct (drop_publisher_spec rules t _ _ Hwf Hok Hq)
    as (W1 & N1 & E1 & S1 & R1 & I1 & Sh1 & K1).
  set (t1 := drop_publisher (pub_id p) t) in *.
  assert (forall r, r ∈ ps -> pub_id r ∈ pub_id <$> pub_info_htable t1) as Hin1.
  { intros r Hr. specialize (Hin r ltac:(set_solver)). apply list_elem_of_fmap in Hin as (r' & Heq & Hr').
    rw Heq. apply list_elem_of_fmap_2, K1; [done|]. intros Heq'. apply Hp. rw -Heq' -Heq.
    by apply list_elem_of_fmap_2. }
  destruct (IH t1 W1 N1 Hnd Hin1) as (W2 & N2 & S2 & R2 & Sh2 & E2 & C2).
  change (fold_left _ ps t1) with t' in *. split_and!; try done.
  - by rw S2.
  - by rw R2.
  - by eapply shrinks_trans.
  - intros en. rw E2 E1 list_elem_of_filter. unfold left_behind. csimpl. rw elem_of_cons.
    destruct (agnocast_is_referenced en); naive_solver.
  - intros p' Hp' Hid. csimpl in Hid. apply elem_of_cons in Hid as [Hid|Hid]; [|by apply C2].
    intros Hz. pose proof (wf_entries_num _ W2) as Hn. rw Forall_forall in Hn.
    rw (Hn p' Hp') num_entries_of_zero in Hz.
    assert (pub_id p ∈ pub_id <$> pub_info_htable t1) as Hp1.
    { rw -Hid. destruct Sh2 as [Hs _]. eapply elem_of_sublist; [|exact Hs].
      by apply list_elem_of_fmap_2. }
    apply I1 in Hp1 as (en & Hen & Hpe & Hr). apply (Hz en); [|congruence].
    apply E2. split; [|done]. rw E1 list_elem_of_filter. split; [|done].
    unfold left_behind. rw Hr. naive_solver.
Qed.

Lemma drop_refs_nonempty id l pubs l' pubs' (P : publisher_info -> Prop) :
  (forall p n, P (set_entries_num n p) -> P p) ->
  drop_subscriber_refs procs id l pubs = (l', pubs') ->
  (forall p, p ∈ pubs -> P p -> entries_num p <> 0) ->
  forall p, p ∈ pubs' -> P p -> entries_num p <> 0.
Proof.
  intros HP. revert pubs l' pubs'. induction l as [|en l IH]; intros pubs l' pubs' Hrun Hne.
  { by injection Hrun as <- <-. }
  assert (forall p, (forall q, q ∈ drop_one_entry p pubs -> P q -> entries_num q <> 0)) as Hdrop.
  { intros p q Hq. unfold drop_one_entry in Hq.
    destruct (Z.eqb_spec (u32 (entries_num p - 1)) 0) as [Hz|Hz].
    - apply elem_of_hash_del in Hq. auto.
    - apply elem_of_hash_upd in Hq as [Hq|(y & Hy & _ & ->)]; [auto|done]. }
  cbn [drop_subscriber_refs] in Hrun. fold (cleared id en) in Hrun.
  repeat case_match; simplify_eq; eauto.
Qed.

Lemma exit_leaving_spec rules leaving t subs t' puts :
  topic_wf (set_subs (leaving ++ subs) t) -> sub_info_htable t = subs -> notify_ok rules t ->
  exit_leaving procs leaving t = (t', puts) ->
  topic_wf t' /\ notify_ok rules t' /\ sub_info_htable t' = subs /\ rule t' = rule t /\
  puts = leaving ≫= (fun s => option_list (notify_ctx s)) /\
  shrinks (pub_info_htable t) (pub_info_htable t') /\
  (leaving <> [] -> Forall (survives procs (pub_info_htable t)) (entries t')) /\
  (leaving = [] -> t' = t) /\
  (forall P : publisher_info -> Prop, (forall p n, P (set_entries_num n p) -> P p) ->
     (forall p, p ∈ pub_info_htable t -> P p -> entries_num p <> 0) ->
     forall p, p ∈ pub_info_htable t' -> P p -> entries_num p <> 0).
Proof.
  revert t t' puts. induction leaving as [|s leaving IH]; intros t t' puts Hwf Hsubs Hok Hrun.
  { injection Hrun as <- <-. simpl in Hwf. rw -Hsubs set_subs_same in Hwf.
    split_and!; try done. apply shrinks_refl. }
  cbn [exit_leaving] in Hrun.
  pose proof (sub_id_range (set_subs ((s :: leaving) ++ subs) t) s Hwf ltac:(set_solver)) as Hid.
  destruct (Z.ltb_spec (sub_id s) 0), (Z.leb_spec MAX_TOPIC_LOCAL_ID (sub_id s)); try lia.
  simpl in Hrun. destruct (drop_subscriber_refs _ _ _ _) as [l pubs] eqn:Hd.
  simpl in Hwf. destruct (drop_refs_wf _ _ _ _ _ Hwf Hd) as (Hwf1 & Hsh & Hl).
  set (t1 := set_pubs pubs (set_entries l t)) in *.
  destruct (exit_leaving procs leaving t1) as [t2 puts2] eqn:Hrest. injection Hrun as <- <-.
  assert (notify_ok rules t1) as Hok1 by (by apply (shrinks_notify_ok rules t)).
  destruct (IH t1 t2 puts2 Hwf1 Hsubs Hok1 Hrest) as (X1 & X2 & X3 & X4 & -> & X6 & X7 & X8 & X9).
  split_and!; try done.
  - by eapply shrinks_trans.
  - intros _. destruct leaving as [|s' leaving].
    + rw (X8 eq_refl). simpl. rw Hl. apply Forall_forall. by intros en [? _]%list_elem_of_filter.
    + specialize (X7 ltac:(done)). pose proof (table_inv_wf _ X1) as [_ Hpubs2 _ _].
      pose proof (table_inv_wf _ Hwf) as [Hnd _ _ _]. simpl in Hnd.
      rw Forall_forall in X7. apply Forall_forall. intros en Hen.
      rw -(survives_shrinks (pub_info_htable t) pubs); [by apply X7|done|done|].
      destruct X6 as [Hs _]. eapply elem_of_sublist; [|exact Hs].
      rw Forall_forall in Hpubs2. by apply Hpubs2.
  - intros P HP Hne. apply (X9 P HP). by eapply drop_refs_nonempty.
Qed.

Lemma pre_handler_subscriber_exit_spec rules t pid t' puts :
  topic_wf t -> notify_ok rules t ->
  pre_handler_subscriber_exit rules procs t pid = (t', puts) ->
  topic_wf t' /\ notify_ok rules t' /\ rule t' = rule t /\
  sub_info_htable t' = filter (fun s => sub_pid s <> pid) (sub_info_htable t) /\
  puts ≡ₚ filter (fun s => sub_pid s = pid) (sub_info_htable t)
            ≫= (fun s => option_list (notify_ctx s)) /\
  (entries t' = entries t \/ Forall (survives procs (pub_info_htable t)) (entries t')) /\
  (forall p', p' ∈ pub_info_htable t' -> exists p, p ∈ pub_info_htable t /\ pub_id p = pub_id p' /\
     pub_pid p = pub_pid p' /\ pub_domain_id p = pub_domain_id p') /\
  (forall P : publisher_info -> Prop,
     (forall p n, P (set_entries_num n p) -> P p) -> (forall p c n, P (set_notify c n p) -> P p) ->
     (forall p, p ∈ pub_info_htable t -> P p -> entries_num p <> 0) ->
     forall p, p ∈ pub_info_htable t' -> P p -> entries_num p <> 0).
Proof.
  intros Hwf Hok Hrun. unfold pre_handler_subscriber_exit in Hrun.
  set (gone := filter (fun s => sub_pid s = pid) (sub_info_htable t)) in *.
  set (subs := filter (fun s => sub_pid s <> pid) (sub_info_htable t)) in *.
  assert (sub_info_htable t ≡ₚ gone ++ subs) as Hperm.
  { symmetry. apply (filter_app_complement (fun s => sub_pid s = pid)). }
  assert (subs `sublist_of` sub_info_htable t) as Hsub by apply sublist_filter.
  case_bool_decide as Hnil; simpl in Hrun.
  - injection Hrun as <- <-. assert (gone = []) as Hg.
    { apply (f_equal length) in Hnil. rw length_rev in Hnil. by destruct gone. }
    assert (subs = sub_info_htable t) as Heq.
    { apply list_filter_all. intros s Hs Hpid.
      assert (s ∈ gone) as Hin by (by apply list_elem_of_filter). rw Hg in Hin. set_solver. }
    rw Heq set_subs_same Hg. split_and!; try done; [by left|]. intros p Hp. by exists p.
  - set (t1 := rebuild_all_notify_lists rules (set_subs subs t)) in *.
    assert (topic_wf (set_subs (rev gone ++ subs) t1)) as Hwf1.
    { apply topic_wf_rebuild_subs. apply (topic_wf_perm t (sub_info_htable t)); [|by rw set_subs_same].
      by rw Hperm -Permutation_rev. }
    assert (notify_ok rules t1) as Hok1 by (by apply notify_ok_rebuild_fewer).
    destruct (exit_leaving_spec rules _ _ subs _ _ Hwf1 eq_refl Hok1 Hrun)
      as (X1 & X2 & X3 & X4 & -> & [Xs Xp] & X7 & X8 & X9).
    split_and!; try done.
    + by rw -Permutation_rev.
    + right. eapply Forall_impl; [by apply X7|]. intros en Hs.
      apply (pubs_rewritten_survives (rebuild_notify_list rules (set_subs subs t))); [|exact Hs].
      intros p. by eexists.
    + intros p' Hp'. destruct (Xp p' Hp') as (p & n & Hp & ->).
      apply list_elem_of_fmap in Hp as (p0 & -> & Hp0). by exists p0.
    + intros P HP1 HP2 Hne. apply (X9 P HP1).
      intros p (p0 & -> & Hp0)%list_elem_of_fmap HPp. simpl. apply Hne; [done|]. by eapply HP2.
Qed.

Lemma pre_handler_publisher_exit_spec rules t pid :
  topic_wf t -> notify_ok rules t ->
  let t' := pre_handler_publisher_exit t pid in
  topic_wf t' /\ notify_ok rules t' /\ sub_info_htable t' = sub_info_htable t /\
  rule t' = rule t /\ shrinks (pub_info_htable t) (pub_info_htable t') /\
  (forall en, en ∈ entries t' -> en ∈ entries t) /\
  (forall p en, p ∈ pub_info_htable t' -> pub_pid p = pid -> en ∈ entries t' ->
     publisher_id en = pub_id p -> agnocast_is_referenced en = true) /\
  (forall p, p ∈ pub_info_htable t' -> pub_pid p = pid -> entries_num p <> 0).
Proof.
  intros Hwf Hok t'. set (ps := filter (fun p => pub_pid p = pid) (pub_info_htable t)).
  pose proof (wf_pub_ids_nodup _ Hwf) as Hnd.
  assert (NoDup (pub_id <$> ps)) as Hndp.
  { refine (sublist_NoDup _ _ Hnd _). apply fmap_sublist, sublist_filter. }
  destruct (publisher_exit_spec rules t ps Hwf Hok Hndp) as (W & N & S & R & Sh & E & C).
  { intros p [_ Hp]%list_elem_of_filter. by apply list_elem_of_fmap_2. }
  change (fold_left _ ps t) with t' in *.
  assert (forall p, p ∈ pub_info_htable t' -> pub_pid p = pid -> pub_id p ∈ pub_id <$> ps) as Hps.
  { intros p Hp Hpid. destruct Sh as [_ Hex]. destruct (Hex p Hp) as (q & n & Hq & ->).
    apply (list_elem_of_fmap_2 pub_id _ q). by apply list_elem_of_filter. }
  split_and!; try done.
  - intros en Hen. by apply E in Hen as [? _].
  - intros p en Hp Hpid Hen Heq. apply E in Hen as [_ Hr]. apply Hr. rw Heq. by apply Hps.
  - intros p Hp Hpid. apply C; [done|by apply Hps].
Qed.

(** What an exited process leaves in a topic: no subscriber, and only publishers every entry of
    which is still referenced. *)
Definition exited_cleanly (pid : Z) (t : topic_struct) : Prop :=
  Forall (fun s => sub_pid s <> pid) (sub_info_htable t) /\
  forall p, p ∈ pub_info_htable t -> pub_pid p = pid ->
    entries_num p <> 0 /\
    forall en, en ∈ entries t -> publisher_id en = pub_id p -> agnocast_is_referenced en = true.

Lemma process_exit_clean rules t pid t' puts :
  topic_wf t -> notify_ok rules t ->
  (forall p, pub_pid p = pid -> owner_gone procs p = true) ->
  process_exit_topic rules procs t pid = (t', puts) -> exited_cleanly pid t'.
Proof.
  intros Hwf Hok Hgone Hrun. unfold process_exit_topic in Hrun.
  destruct (pre_handler_publisher_exit_spec rules t pid Hwf Hok)
    as (W1 & N1 & S1 & R1 & Sh1 & E1 & Ref1 & C1).
  set (t1 := pre_handler_publisher_exit t pid) in *.
  destruct (pre_handler_subscriber_exit_spec _ _ _ _ _ W1 N1 Hrun)
    as (W2 & N2 & R2 & S2 & P2 & E2 & Sh2 & C2).
  split; [rw S2; apply Forall_forall; by intros s [? _]%list_elem_of_filter|].
  intros p Hp Hpid. split; [by apply (C2 (fun p => pub_pid p = pid))|].
  intros en Hen Heq. destruct (Sh2 p Hp) as (q & Hq & Hqid & Hqpid & _).
  destruct E2 as [He|Hall].
  - rw He in Hen. apply (Ref1 q); [done|congruence|done|congruence].
  - rw Forall_forall in Hall. destruct (Hall en Hen) as [?|Hs]; [done|].
    rw Heq -Hqid (find_pub_unique _ _ (wf_pub_ids_nodup _ W1) Hq) in Hs.
    rw Hgone in Hs; [done|congruence].
Qed.

Lemma drop_publisher_id t p :
  topic_wf t -> p ∈ pub_info_htable t -> entries_num p <> 0 ->
  (forall en, en ∈ entries t -> publisher_id en = pub_id p -> agnocast_is_referenced en = true) ->
  drop_publisher (pub_id p) t = t.
Proof.
  intros Hwf Hp Hne Href. pose proof (wf_pub_ids_nodup _ Hwf) as Hnd.
  assert (find (fun q => pub_id q =? pub_id p) (pub_info_htable t) = Some p) as Hf.
  { rw -find_publisher_info_eq. by apply find_publisher_info_unique. }
  assert (filter (fun en => publisher_id en = pub_id p /\ agnocast_is_referenced en = false)
    (entries t) = []) as Hnone.
  { apply filter_none. intros en Hen [H1 H2]. rw Href // in H2. }
  assert (filter (fun en => ~ (publisher_id en = pub_id p /\ agnocast_is_referenced en = false))
    (entries t) = entries t) as Hall.
  { apply list_filter_all. intros en Hen [H1 H2]. rw Href // in H2. }
  assert (0 <= entries_num p < 2 ^ 32) as Hb.
  { pose proof (wf_entries_num _ Hwf) as Hn. rw Forall_forall in Hn. rw (Hn p Hp).
    pose proof (num_entries_of_bound (pub_id p) (entries t)). destruct (wf_fit _ Hwf).
    unfold num_entries_of in *. lia. }
  unfold drop_publisher. rw Hnone Hall. simpl. unfold upd_publisher.
  rw (hash_upd_id _ _ p) //.
  - simpl. rw Hf. rw (proj2 (Z.eqb_neq _ _) Hne). by destruct t.
  - rw Z.sub_0_r. unfold u32. rw Z.mod_small; [by destruct p|done].
Qed.

(** The handlers do nothing to a topic the process has already left. *)
Lemma process_exit_idem rules t pid :
  topic_wf t -> exited_cleanly pid t -> process_exit_topic rules procs t pid = (t, []).
Proof.
  intros Hwf [Hs Hp]. unfold process_exit_topic.
  assert (pre_handler_publisher_exit t pid = t) as ->.
  { unfold pre_handler_publisher_exit.
    assert (forall p, p ∈ filter (fun p => pub_pid p = pid) (pub_info_htable t) ->
      p ∈ pub_info_htable t /\ pub_pid p = pid) as Hall by (by intros p [? ?]%list_elem_of_filter).
    induction (filter _ _) as [|p l IH]; [done|]. simpl.
    destruct (Hall p ltac:(set_solver)) as [Hin Hpid]. destruct (Hp p Hin Hpid).
    rw drop_publisher_id //. apply IH. intros q Hq. apply Hall. set_solver. }
  unfold pre_handler_subscriber_exit.
  assert (filter (fun s => sub_pid s = pid) (sub_info_htable t) = []) as ->.
  { apply filter_none. intros s Hin. rw Forall_forall in Hs. by apply Hs. }
  simpl. rw list_filter_all; [by rw set_subs_same|]. by apply Forall_forall.
Qed.

(** ** Properties *)

(** REMOVE_SUBSCRIBER of a subscriber of the topic: it leaves the table and its eventfd context
    is put, no entry keeps a reference of it, and the entries removed are exactly those nobody
    references any more whose publisher's process has exited; notify lists are the ones of the
    subscribers left. *)
Theorem remove_subscriber_correct rules t s t' puts r :
  topic_wf t -> notify_ok rules t -> find_subscriber_info t (sub_id s) = Some s ->
  remove_subscriber_topic rules procs t (sub_id s) = (t', puts, r) ->
  r = Ok tt /\ topic_wf t' /\ notify_ok rules t' /\
  find_subscriber_info t' (sub_id s) = None /\ puts = option_list (notify_ctx s) /\
  entries t' = filter (survives procs (pub_info_htable t)) (cleared (sub_id s) <$> entries t) /\
  (forall en, en ∈ entries t' -> test_bit (sub_id s) (referencing_subscribers en) = false).
Proof.
  intros Hwf Hok Hf Hrun. pose proof (remove_subscriber_topic_inv _ _ _ _ _ _ Hwf Hok Hrun) as Hinv.
  rw Hf in Hinv. destruct Hinv as (-> & H1 & H2 & H3 & -> & H5 & _). split_and!; try done.
  - rw find_subscriber_info_eq H3. rw find_subscriber_info_eq in Hf.
    pose proof (hash_del_perm _ _ _ Hf) as Hp. pose proof (wf_sub_ids_nodup _ Hwf) as Hnd.
    rw Hp in Hnd. csimpl in Hnd. apply NoDup_cons in Hnd as [Hno _].
    destruct (find _ (hash_del _ _)) as [s'|] eqn:E; [|done]. exfalso.
    apply find_Some_inv in E as [Hin Heq%Z.eqb_eq]. apply Hno, list_elem_of_fmap. by exists s'.
  - intros en Hen. rw H5 in Hen.
    apply list_elem_of_filter in Hen as [_ (en0 & -> & _)%list_elem_of_fmap].
    simpl. rw test_clear_bit. rw bool_decide_true; [|done]. by rw andb_false_r.
Qed.

(** REMOVE_PUBLISHER of a publisher of the topic keeps exactly the entries other publishers own
    or a subscriber references; the publisher itself stays only while such an entry of its own is
    left, so a message a subscriber still reads outlives its publisher. *)
Theorem remove_publisher_correct rules t p t' r :
  topic_wf t -> notify_ok rules t -> find_publisher_info t (pub_id p) = Some p ->
  remove_publisher_topic t (pub_id p) = (t', r) ->
  r = Ok tt /\ topic_wf t' /\ notify_ok rules t' /\
  entries t' = filter (fun en => ~ (publisher_id en = pub_id p /\
                                   agnocast_is_referenced en = false)) (entries t) /\
  sub_info_htable t' = sub_info_htable t /\
  (find_publisher_info t' (pub_id p) = None <->
   forall en, en ∈ entries t' -> publisher_id en <> pub_id p).
Proof.
  intros Hwf Hok Hf Hrun. unfold remove_publisher_topic in Hrun. rw Hf in Hrun.
  injection Hrun as <- <-.
  destruct (drop_publisher_spec rules t _ _ Hwf Hok Hf) as (H1 & H2 & H3 & H4 & _ & H6 & _ & _).
  split_and!; try done. rw -(not_elem_of_pub_id _ _ H1) H6 H3. split.
  - intros Hno en [Hlb Hen]%list_elem_of_filter Heq. apply Hno. exists en. split_and!; [done|done|].
    unfold left_behind in Hlb. destruct (agnocast_is_referenced en); naive_solver.
  - intros Hno (en & Hen & Heq & Hr). apply (Hno en); [|done]. apply list_elem_of_filter.
    split; [|done]. unfold left_behind. rw Hr. naive_solver.
Qed.

(** When a process exits, its endpoints leave every topic: no subscriber of it is left, all
    their eventfd contexts are put, and a publisher of it stays only while it has entries, every
    one of them still referenced by a subscriber of another process.  The topic stays well formed
    and the notify lists are those of the subscribers left. *)
Theorem process_exit_topic_correct rules t pid t' puts :
  topic_wf t -> notify_ok rules t ->
  (forall p, pub_pid p = pid -> owner_gone procs p = true) ->
  process_exit_topic rules procs t pid = (t', puts) ->
  topic_wf t' /\ notify_ok rules t' /\
  sub_info_htable t' = filter (fun s => sub_pid s <> pid) (sub_info_htable t) /\
  puts ≡ₚ filter (fun s => sub_pid s = pid) (sub_info_htable t)
            ≫= (fun s => option_list (notify_ctx s)) /\
  (forall p, p ∈ pub_info_htable t' -> pub_pid p = pid ->
     (exists en, en ∈ entries t' /\ publisher_id en = pub_id p) /\
     forall en, en ∈ entries t' -> publisher_id en = pub_id p ->
       exists s, s ∈ sub_info_htable t' /\ sub_pid s <> pid /\
         test_bit (sub_id s) (referencing_subscribers en) = true).
Proof.
  intros Hwf Hok Hgone Hrun. unfold process_exit_topic in Hrun.
  destruct (pre_handler_publisher_exit_spec rules t pid Hwf Hok)
    as (W1 & N1 & S1 & R1 & Sh1 & E1 & Ref1 & C1).
  set (t1 := pre_handler_publisher_exit t pid) in *.
  destruct (pre_handler_subscriber_exit_spec _ _ _ _ _ W1 N1 Hrun)
    as (W2 & N2 & R2 & S2 & P2 & E2 & Sh2 & C2).
  rw S1 in S2. rw S1 in P2. split_and!; [done..|]. intros p Hp Hpid.
  destruct (proj2 (process_exit_clean rules t pid t' puts Hwf Hok Hgone Hrun) p Hp Hpid)
    as [Hne Href]. split.
  - pose proof (wf_entries_num _ W2) as Hn. rw Forall_forall in Hn. rw (Hn p Hp) in Hne.
    destruct (decide (Exists (fun en => publisher_id en = pub_id p) (entries t'))) as [Hex|Hno].
    + by apply list.Exists_exists in Hex.
    + exfalso. apply Hne, num_entries_of_zero. intros en Hen Heq. apply Hno, list.Exists_exists. eauto.
  - intros en Hen Heq. pose proof (Href en Hen Heq) as Hr.
    pose proof (wf_refs _ W2) as Hrefs. rw Forall_forall in Hrefs. destruct (Hrefs en Hen) as [H0 Hb].
    apply negb_true_iff in Hr. destruct (bitmap_empty_false _ H0 Hr) as [i Hi].
    destruct (Hb i Hi) as (s & Hs & <- & _). exists s. split_and!; [done| |done].
    rw S2 in Hs. by apply list_elem_of_filter in Hs as [? _].
Qed.
End cleanup.

(** ** Witnesses *)

(** The sample topic after its subscriber took the message, with the publisher's process dead. *)
Definition sample_dead_procs : list process_info :=
  [ProcessInfo true PROCESS_ROLE_APPLICATION 100 100 0 1 0;
   ProcessInfo false PROCESS_ROLE_APPLICATION 200 200 1 1 0].

Lemma sample_claimed_eq :
  sample_claimed = claimed_topic (sub_id sample_sub) 1 [EntryNode 1 0 5000 0] sample_topic1.
Proof. reflexivity. Qed.

Lemma sample_claimed_ok : topic_wf sample_claimed /\ notify_ok [] sample_claimed.
Proof.
  destruct sample_topic1_ok as [Hwf Hok]. rw sample_claimed_eq. split.
  - by apply (take_claim_wf (H := length_hash) [] sample_procs sample_topic1 sample_sub false
      (EntryNode 1 0 5000 0) []).
  - by apply (notify_ok_claimed (H := length_hash)).
Qed.

Lemma remove_subscriber_correct_witness :
  entries (@remove_subscriber_topic length_hash [] sample_dead_procs sample_claimed 1).1.1 = [] /\
  topic_wf (@remove_subscriber_topic length_hash [] sample_dead_procs sample_claimed 1).1.1.
Proof.
  destruct sample_claimed_ok as [Hwf Hok]. split; [reflexivity|].
  destruct (remove_subscriber_correct (H := length_hash) sample_dead_procs [] sample_claimed
    (set_latest_received 1 sample_sub)
    (@remove_subscriber_topic length_hash [] sample_dead_procs sample_claimed 1).1.1
    (@remove_subscriber_topic length_hash [] sample_dead_procs sample_claimed 1).1.2
    (@remove_subscriber_topic length_hash [] sample_dead_procs sample_claimed 1).2)
    as (_ & H2 & _); done.
Defined.

Lemma remove_publisher_correct_witness :
  entries (@remove_publisher_topic length_hash sample_claimed 0).1 = entries sample_claimed /\
  topic_wf (@remove_publisher_topic length_hash sample_claimed 0).1.
Proof.
  destruct sample_claimed_ok as [Hwf Hok]. split; [reflexivity|].
  destruct (remove_publisher_correct (H := length_hash) [] sample_claimed
    (default sample_pub (@find_publisher_info length_hash sample_claimed 0))
    (@remove_publisher_topic length_hash sample_claimed 0).1
    (@remove_publisher_topic length_hash sample_claimed 0).2) as (_ & H2 & _); done.
Defined.

Lemma process_exit_topic_correct_witness :
  pub_info_htable (@process_exit_topic length_hash [] sample_dead_procs sample_claimed 100).1 <> [] /\
  topic_wf (@process_exit_topic length_hash [] sample_dead_procs sample_claimed 100).1.
Proof.
  destruct sample_claimed_ok as [Hwf Hok]. split; [done|].
  destruct (process_exit_topic_correct (H := length_hash) sample_dead_procs [] sample_claimed 100
    (@process_exit_topic length_hash [] sample_dead_procs sample_claimed 100).1
    (@process_exit_topic length_hash [] sample_dead_procs sample_claimed 100).2)
    as (H1 & _); try done.
  - intros p Hp. unfold owner_gone. by rw Hp.
Defined.
