(* ===== verification/KSignal.v ===== *)
(** * Kernel module: no message without a signal

    What the module promises the subscribers of a topic, over every call that touches the topic: a
    subscriber that had nothing left to receive and now has something was signalled, as long as it is
    not itself receiving.  [Delivery] builds on it. *)

From S2P Require Import Prelude Kernel KMempool KTypes KRules KTopic KMessage KCleanup.

(** ** Calls on one topic *)

Section signals.
Context `{KernelHash} (rules : list domain_bridge_rule).

(** The process is registered and has not exited. *)
Definition alive (procs : list process_info) (pid : Z) : Prop :=
  exists proc, agnocast_find_process_info procs pid = Some proc /\ exited proc = false.

(** One call of the module on the topic, or a change of the process registry that brings no exited
    publisher back; the signals are the eventfd contexts it signals.  RECEIVE and TAKE are those of
    subscribers that [own] does not list. *)
Inductive topic_call (own : Z -> Prop) (procs : list process_info) (t : topic_struct)
    : list process_info -> topic_struct -> list Z -> Prop :=
  | call_publish al pool size id a t' signals r :
      room_for_entry t -> pools_present procs pool t ->
      (forall p, find_publisher_info t id = Some p -> 1 <= pub_qos_depth p) ->
      publish_msg_topic al procs pool size t id a = (t', signals, r) ->
      topic_call own procs t procs t' signals
  | call_receive al vnr pool domain id size t' pool' r :
      pools_present procs pool t -> ~ own id ->
      receive_msg_topic al vnr rules procs pool t domain id size = (t', pool', r) ->
      topic_call own procs t procs t' []
  | call_take al vnr pool domain id allow size t' pool' r :
      pools_present procs pool t -> ~ own id ->
      take_msg_topic al vnr rules procs pool t domain id allow size = (t', pool', r) ->
      topic_call own procs t procs t' []
  | call_release pubsub_id entry_id t' r :
      release_reference_topic t pubsub_id entry_id = (t', r) ->
      topic_call own procs t procs t' []
  | call_add_subscriber al domain pid a ctx t' r :
      current_entry_id t + 1 < 2 ^ 63 -> 0 <= a_sub_qos_depth a < 2 ^ 32 ->
      insert_subscriber_info al rules t domain pid a ctx = (t', r) ->
      topic_call own procs t procs t' []
  | call_add_publisher al domain pid a t' r :
      0 <= a_pub_qos_depth a < 2 ^ 32 ->
      insert_publisher_info al rules t domain pid a = (t', r) ->
      topic_call own procs t procs t' []
  | call_remove_subscriber id t' puts r :
      remove_subscriber_topic rules procs t id = (t', puts, r) ->
      topic_call own procs t procs t' []
  | call_remove_publisher id t' r :
      remove_publisher_topic t id = (t', r) ->
      topic_call own procs t procs t' []
  | call_exit pid t' puts :
      process_exit_topic rules procs t pid = (t', puts) ->
      topic_call own procs t procs t' []
  | call_processes procs' :
      (forall p, p ∈ pub_info_htable t -> alive procs' (pub_pid p) -> alive procs (pub_pid p)) ->
      topic_call own procs t procs' t [].

(** ** Calls that bring nothing new *)

Definition pub_view (p : publisher_info) : Z * Z * bool := (pub_pid p, pub_domain_id p, pub_is_bridge p).

Record calm (procs : list process_info) (t : topic_struct) (procs' : list process_info)
    (t' : topic_struct) : Prop := {
  calm_rule : rule t' = rule t;
  calm_entries : forall en', en' ∈ entries t' -> exists en, en ∈ entries t /\
    entry_id en = entry_id en' /\ publisher_id en = publisher_id en';
  calm_pubs : forall en' p', en' ∈ entries t' -> p' ∈ pub_info_htable t' ->
    pub_id p' = publisher_id en' ->
    exists p, p ∈ pub_info_htable t /\ pub_id p = pub_id p' /\ pub_view p = pub_view p';
  calm_alive : forall p, p ∈ pub_info_htable t -> alive procs' (pub_pid p) -> alive procs (pub_pid p)
}.

Lemma deliverable_inv procs t s en :
  deliverable rules procs t s en = true ->
  exists p, find_publisher_info t (publisher_id en) = Some p /\ alive procs (pub_pid p) /\
    (ignore_local_publications s && (sub_pid s =? pub_pid p)) = false /\
    domain_delivery_allowed rules t (pub_domain_id p) (pub_is_bridge p)
      (sub_domain_id s) (sub_is_bridge s) = true.
Proof.
  unfold deliverable. destruct (find_publisher_info t (publisher_id en)) as [p|]; [|done].
  destruct (agnocast_find_process_info procs (pub_pid p)) as [proc|] eqn:Hp; [|done].
  intros [[He Hi]%andb_prop Hd]%andb_prop. exists p. split; [done|].
  split; [exists proc; split; [done|by apply negb_true_iff]|].
  split; [by apply negb_true_iff|done].
Qed.

Lemma deliverable_intro procs t s en p :
  find_publisher_info t (publisher_id en) = Some p -> alive procs (pub_pid p) ->
  (ignore_local_publications s && (sub_pid s =? pub_pid p)) = false ->
  domain_delivery_allowed rules t (pub_domain_id p) (pub_is_bridge p)
    (sub_domain_id s) (sub_is_bridge s) = true ->
  deliverable rules procs t s en = true.
Proof. intros Hf (proc & Hp & He) Hi Hd. unfold deliverable. by rw Hf Hp He Hi Hd. Qed.

Lemma domain_delivery_rule t t' pd pb sd sb :
  rule t' = rule t ->
  domain_delivery_allowed rules t' pd pb sd sb = domain_delivery_allowed rules t pd pb sd sb.
Proof. intros Hr. unfold domain_delivery_allowed. by rw Hr. Qed.

(** What a subscriber is handed depends on this much of it. *)
Definition sub_view (s : subscriber_info) : Z * Z * bool * bool * Z * Z :=
  (sub_pid s, sub_domain_id s, sub_is_bridge s, ignore_local_publications s,
   latest_received_entry_id s, sub_qos_depth s).

Lemma window_empty procs t s :
  window rules procs t s = [] <->
  sub_qos_depth s <= 0 \/
  forall en, en ∈ entries t -> latest_received_entry_id s < entry_id en ->
    deliverable rules procs t s en = false.
Proof.
  unfold window, newest. set (l := pending rules procs t s (latest_received_entry_id s)).
  assert (l = [] <-> forall en, en ∈ entries t -> latest_received_entry_id s < entry_id en ->
    deliverable rules procs t s en = false) as Hl.
  { split.
    - intros Hl en Hen Hlt. apply not_true_iff_false. intros Hd.
      assert (en ∈ l) as Hin by (by apply list_elem_of_filter). rw Hl in Hin.
      by apply not_elem_of_nil in Hin.
    - intros Hno. apply filter_none. intros en Hen [Hlt Hd]. by rw Hno in Hd. }
  rw -Hl. split.
  - intros Hd. apply (f_equal length) in Hd. rw length_drop in Hd. simpl in Hd.
    destruct l as [|x l']; [by right|]. left. simpl in Hd. lia.
  - intros [Hd| ->]; [|by rw drop_nil]. apply drop_ge. lia.
Qed.

Lemma calm_deliverable procs t procs' t' s s' en' :
  topic_wf t -> topic_wf t' -> calm procs t procs' t' -> sub_view s' = sub_view s ->
  en' ∈ entries t' -> deliverable rules procs' t' s' en' = true ->
  exists en, en ∈ entries t /\ entry_id en = entry_id en' /\ deliverable rules procs t s en = true.
Proof.
  intros Hwf Hwf' [Hr He Hp Ha] Hv Hen Hd.
  destruct (deliverable_inv _ _ _ _ Hd) as (p' & Hf & Halive & Hi & Hdom).
  pose proof (find_publisher_info_Some _ _ _ Hf) as [Hin Hid].
  destruct (Hp en' p' Hen Hin Hid) as (p & Hpin & Hpid & Hview).
  destruct (He en' Hen) as (en & Hen0 & Heid & Hpub). injection Hview as Hv1 Hv2 Hv3.
  unfold sub_view in Hv. injection Hv as Hs1 Hs2 Hs3 Hs4 Hs5 Hs6.
  exists en. split; [done|]. split; [done|]. apply (deliverable_intro _ _ _ _ p).
  - rw Hpub -Hid -Hpid. apply find_publisher_info_unique; [by apply wf_pub_ids_nodup|done].
  - apply Ha; [done|]. by rw Hv1.
  - by rw Hv1 -Hs1 -Hs4.
  - rw -(domain_delivery_rule t t') // Hv2 Hv3 -Hs2 -Hs3. done.
Qed.

Lemma calm_window procs t procs' t' s s' :
  topic_wf t -> topic_wf t' -> calm procs t procs' t' -> sub_view s' = sub_view s ->
  window rules procs t s = [] -> window rules procs' t' s' = [].
Proof.
  intros Hwf Hwf' Hc Hv. rw !window_empty. pose proof Hv as Hv'. unfold sub_view in Hv'.
  injection Hv' as _ _ _ _ Hl Hd. intros [Hz|Hno]; [left; lia|right].
  intros en' Hen Hlt. apply not_true_iff_false. intros Hdel.
  destruct (calm_deliverable _ _ _ _ _ _ _ Hwf Hwf' Hc Hv Hen Hdel) as (en & Hen0 & Heid & Hd0).
  rw (Hno en) in Hd0; [done|done|lia].
Qed.

(** ** Each call *)

(** The entries and publishers of [t'] are entries and publishers of [t], up to references, counts and
    notify lists. *)
Record reshapes (t t' : topic_struct) : Prop := {
  rs_rule : rule t' = rule t;
  rs_entries : forall en', en' ∈ entries t' -> exists en, en ∈ entries t /\
    entry_id en = entry_id en' /\ publisher_id en = publisher_id en';
  rs_pubs : forall p', p' ∈ pub_info_htable t' ->
    exists p, p ∈ pub_info_htable t /\ pub_id p = pub_id p' /\ pub_view p = pub_view p'
}.

Lemma reshapes_refl t : reshapes t t.
Proof. split; [done|intros en Hen; by exists en|intros p Hp; by exists p]. Qed.

Lemma reshapes_trans t1 t2 t3 : reshapes t1 t2 -> reshapes t2 t3 -> reshapes t1 t3.
Proof.
  intros [R1 E1 P1] [R2 E2 P2]. split.
  - congruence.
  - intros e3 Hin3. destruct (E2 e3 Hin3) as (e2 & Hin2 & Ha2 & Hb2).
    destruct (E1 e2 Hin2) as (e1 & Hin1 & Ha1 & Hb1).
    exists e1. split; [done|]. split; congruence.
  - intros p3 Hin3. destruct (P2 p3 Hin3) as (p2 & Hin2 & Ha2 & Hb2).
    destruct (P1 p2 Hin2) as (p1 & Hin1 & Ha1 & Hb1).
    exists p1. split; [done|]. split; congruence.
Qed.

Lemma reshapes_calm procs t t' : reshapes t t' -> calm procs t procs t'.
Proof. intros [R E P]. split; [done|done| |done]. intros en' p' _ Hp' _. by apply P. Qed.

Lemma shrinks_pubs pubs pubs' p' :
  shrinks pubs pubs' -> p' ∈ pubs' ->
  exists p, p ∈ pubs /\ pub_id p = pub_id p' /\ pub_view p = pub_view p'.
Proof. intros [_ Hs] Hp'. destruct (Hs p' Hp') as (p & n & Hp & ->). by exists p. Qed.

(** The subscribers that [own] lists are those of before, as far as delivery reads them. *)
Definition subs_kept (own : Z -> Prop) (t t' : topic_struct) : Prop :=
  forall s', s' ∈ sub_info_htable t' -> own (sub_id s') ->
    exists s, s ∈ sub_info_htable t /\ sub_id s = sub_id s' /\ sub_view s' = sub_view s /\
      notify_ctx s' = notify_ctx s.

Lemma subs_kept_subset own t t' :
  (forall s, s ∈ sub_info_htable t' -> s ∈ sub_info_htable t) -> subs_kept own t t'.
Proof. intros Hs s' Hs' _. exists s'. by split; [apply Hs|]. Qed.

Lemma claimed_reshapes id n c t : reshapes t (claimed_topic id n c t).
Proof.
  split; [done| |intros p Hp; by exists p]. simpl.
  intros en' (en & -> & Hen)%list_elem_of_fmap. exists en. split; [done|].
  by rw claim_refs_id claim_refs_pub.
Qed.

Lemma claimed_subs own id n c t : ~ own id -> subs_kept own t (claimed_topic id n c t).
Proof.
  intros Hno s'. simpl. intros [Hs'|(s & Hs & Hid%Z.eqb_eq & ->)]%elem_of_hash_upd Hown.
  - by exists s'.
  - simpl in Hown. by rw Hid in Hown.
Qed.

(** The end of RECEIVE and TAKE. *)
Lemma update_shm_quiet {A} own procs al vnr t domain s size pool (a : A) t' pool' r :
  topic_wf t -> notify_ok rules t -> pools_present procs pool t ->
  update_publisher_shm al vnr rules procs t domain s size pool a = (t', pool', r) ->
  topic_wf t' /\ notify_ok rules t' /\ reshapes t t' /\ subs_kept own t t' /\
  current_pubsub_id t' = current_pubsub_id t.
Proof.
  intros Hwf Hok Hin Hrun. pose proof Hrun as Hrun'.
  apply update_publisher_shm_inv in Hrun as (H1 & H2 & H3 & H4 & H5 & _); [|done..].
  split; [done|]. split; [done|]. split; [|split].
  - split.
    + unfold update_publisher_shm in Hrun'. destruct (need_mmap_update s); [|by injection Hrun' as <- _ _].
      destruct (set_publisher_shm_info _ _ _ _ _ _ _ _ _ _) as [pool1 [i|e|]];
        by injection Hrun' as <- _ _.
    + rw H3. intros en Hen. by exists en.
    + rw H4. intros p Hp. by exists p.
  - intros s' Hs' _. destruct (H5 s' Hs') as (s0 & Hs0 & [-> | ->]); by exists s0.
  - unfold update_publisher_shm in Hrun'. destruct (need_mmap_update s); [|by injection Hrun' as <- _ _].
    destruct (set_publisher_shm_info _ _ _ _ _ _ _ _ _ _) as [pool1 [i|e|]];
      by injection Hrun' as <- _ _.
Qed.

Definition quiet_call (own : Z -> Prop) (t t' : topic_struct) : Prop :=
  topic_wf t' /\ notify_ok rules t' /\ reshapes t t' /\ subs_kept own t t' /\
  current_pubsub_id t <= current_pubsub_id t'.

Lemma quiet_refl own t : topic_wf t -> notify_ok rules t -> quiet_call own t t.
Proof.
  intros Hwf Hok. split; [done|]. split; [done|]. split; [apply reshapes_refl|].
  split; [by apply subs_kept_subset|lia].
Qed.

Lemma subs_kept_trans own t1 t2 t3 : subs_kept own t1 t2 -> subs_kept own t2 t3 -> subs_kept own t1 t3.
Proof.
  intros H12 H23 s3 Hs3 Ho. destruct (H23 s3 Hs3 Ho) as (s2 & Hs2 & Hi2 & Hv2 & Hc2).
  destruct (H12 s2 Hs2) as (s1 & Hs1 & Hi1 & Hv1 & Hc1); [by rw Hi2|].
  exists s1. split; [done|]. split; [congruence|]. split; congruence.
Qed.

Lemma quiet_trans own t1 t2 t3 : quiet_call own t1 t2 -> quiet_call own t2 t3 -> quiet_call own t1 t3.
Proof.
  intros (_ & _ & R1 & S1 & C1) (W & O & R2 & S2 & C2). split; [done|]. split; [done|].
  split; [by eapply reshapes_trans|]. split; [by eapply subs_kept_trans|lia].
Qed.

Lemma receive_quiet own procs al vnr pool t domain id size t' pool' r :
  topic_wf t -> notify_ok rules t -> pools_present procs pool t -> ~ own id ->
  receive_msg_topic al vnr rules procs pool t domain id size = (t', pool', r) -> quiet_call own t t'.
Proof.
  intros Hwf Hok Hin Hno. unfold receive_msg_topic.
  destruct (find_subscriber_info t id) as [s|] eqn:Hf; [|intros [= <- _ _]; by apply quiet_refl].
  pose proof (find_subscriber_info_Some _ _ _ Hf) as [_ <-]. rw receive_msg_core_spec //.
  set (c := take _ _). set (n := default _ _). intros Hrun.
  apply (quiet_trans own t (claimed_topic (sub_id s) n c t)).
  - split; [by apply receive_claim_wf|]. split; [by apply notify_ok_claimed|].
    split; [apply claimed_reshapes|]. split; [by apply claimed_subs|]. simpl. lia.
  - apply (update_shm_quiet own) in Hrun as (H1 & H2 & H3 & H4 & H5).
    + by repeat (split; [done|]); lia.
    + by apply receive_claim_wf.
    + by apply notify_ok_claimed.
    + done.
Qed.

Lemma take_quiet own procs al vnr pool t domain id allow size t' pool' r :
  topic_wf t -> notify_ok rules t -> pools_present procs pool t -> ~ own id ->
  take_msg_topic al vnr rules procs pool t domain id allow size = (t', pool', r) ->
  quiet_call own t t'.
Proof.
  intros Hwf Hok Hin Hno. unfold take_msg_topic.
  destruct (find_subscriber_info t id) as [s|] eqn:Hf; [|intros [= <- _ _]; by apply quiet_refl].
  pose proof (find_subscriber_info_Some _ _ _ Hf) as [_ <-]. rw take_core_spec //.
  destruct (newest _ _) as [|en w] eqn:Hw.
  - intros Hrun. apply (update_shm_quiet own) in Hrun as (H1 & H2 & H3 & H4 & H5); [|done..].
    by repeat (split; [done|]); lia.
  - assert (topic_wf (claimed_topic (sub_id s) (entry_id en) [en] t)) as Hwf1
      by (by eapply take_claim_wf).
    intros Hrun. apply (quiet_trans own t (claimed_topic (sub_id s) (entry_id en) [en] t)).
    + split; [done|]. split; [by apply notify_ok_claimed|].
      split; [apply claimed_reshapes|]. split; [by apply claimed_subs|]. simpl. lia.
    + apply (update_shm_quiet own) in Hrun as (H1 & H2 & H3 & H4 & H5);
        [|done|by apply notify_ok_claimed|done].
      by repeat (split; [done|]); lia.
Qed.

Lemma release_quiet own t id eid t' r :
  topic_wf t -> notify_ok rules t -> release_reference_topic t id eid = (t', r) -> quiet_call own t t'.
Proof.
  intros Hwf Hok. unfold release_reference_topic.
  destruct (find_message_entry t eid) as [en|]; [|intros [= <- _]; by apply quiet_refl].
  destruct (negb _); [|intros [= <- _]; by apply quiet_refl].
  destruct (test_bit _ _); intros [= <- _]; [|by apply quiet_refl].
  rw unclaim_upd //. split; [by apply unclaim_wf|]. split; [by apply (notify_ok_subs_ext rules t)|].
  split; [|split; [by apply subs_kept_subset|simpl; lia]].
  split; [done| |intros p Hp; by exists p]. simpl.
  intros en' (x & -> & Hx)%list_elem_of_fmap. exists x. by rw unclaim_id unclaim_pub.
Qed.

Lemma add_subscriber_quiet own al t domain pid a ctx t' r :
  topic_wf t -> notify_ok rules t -> (forall id, own id -> id < current_pubsub_id t) ->
  current_entry_id t + 1 < 2 ^ 63 -> 0 <= a_sub_qos_depth a < 2 ^ 32 ->
  insert_subscriber_info al rules t domain pid a ctx = (t', r) -> quiet_call own t t'.
Proof.
  intros Hwf Hok Hown Hfit Hd Hrun.
  destruct (insert_subscriber_info_inv _ _ _ _ _ _ _ _ _ Hwf Hok Hfit Hd Hrun) as [Hwf' Hok'].
  pose proof (insert_subscriber_info_cases _ _ _ _ _ _ _ _ _ Hwf Hfit Hrun) as Hc.
  assert (rule t' = rule t /\ forall p', p' ∈ pub_info_htable t' -> exists p, p ∈ pub_info_htable t /\
    pub_id p = pub_id p' /\ pub_view p = pub_view p') as [Hrule Hpubs].
  { clear -Hrun. unfold insert_subscriber_info in Hrun.
    destruct (negb _); [|injection Hrun as <- _; split; [done|intros p Hp; by exists p]].
    destruct (negb _); [|injection Hrun as <- _; split; [done|intros p Hp; by exists p]].
    destruct (al 0%nat); [|injection Hrun as <- _; split; [done|intros p Hp; by exists p]].
    destruct (al 1%nat); [|injection Hrun as <- _; split; [done|intros p Hp; by exists p]].
    destruct ctx as [c|].
    2: { injection Hrun as <- _. split; [done|intros p Hp; by exists p]. }
    unfold reserve_all_notify_ctxs in Hrun.
    destruct (reserve_loop _ _ _) as [ok pubs] eqn:E. apply reserve_loop_spec in E as [Hg _].
    assert (forall p', p' ∈ pubs -> exists p, p ∈ pub_info_htable t /\
      pub_id p = pub_id p' /\ pub_view p = pub_view p') as Hp.
    { intros p' [i Hi]%list_elem_of_lookup.
      destruct (Forall2_lookup_r _ _ _ _ _ Hg Hi) as (p & Hp & cap & -> & _).
      exists p. split; [by eapply list_elem_of_lookup_2|done]. }
    destruct ok; injection Hrun as <- _; [|by split].
    split; [done|]. simpl. intros p' (q & <- & Hq%list_elem_of_In)%list_elem_of_In%in_map_iff.
    destruct (Hp q Hq) as (p & Hin & ? & ?). by exists p. }
  split; [done|]. split; [done|].
  destruct r as [s|e|]; [|destruct Hc as [Hsame _]|done].
  - destruct Hc as (-> & Hsubs & He & Hid & _). split; [|split].
    + split; [done| |done]. rw He. intros en Hen. by exists en.
    + intros s'. rw Hsubs elem_of_hash_add. intros [-> |Hs'] Ho; [|by exists s'].
      apply Hown in Ho. simpl in Ho. lia.
    + lia.
  - split; [|split].
    + split; [done| |done]. rw (sbn_entries _ _ Hsame). intros en Hen. by exists en.
    + apply subs_kept_subset. by rw (sbn_subs _ _ Hsame).
    + destruct (sbn_ids _ _ Hsame) as [-> _]. lia.
Qed.

Lemma insert_publisher_ids al t domain pid a t' r :
  topic_wf t -> insert_publisher_info al rules t domain pid a = (t', r) ->
  current_pubsub_id t <= current_pubsub_id t'.
Proof.
  intros Hwf. unfold insert_publisher_info. pose proof (wf_ids_bound _ Hwf) as Hb.
  destruct (negb _); [|intros [= <- _]; lia].
  destruct (Z.leb_spec MAX_TOPIC_LOCAL_ID (current_pubsub_id t)); simpl; [intros [= <- _]; lia|].
  destruct (al 0%nat); [|intros [= <- _]; lia]. destruct (al 1%nat); [|intros [= <- _]; lia].
  rw (i32_succ_id _ Hwf) //. destruct (reserve_notify_ctxs _ _ _) as [[] q];
    intros [= <- _]; simpl; lia.
Qed.

Lemma add_publisher_calm procs al t domain pid a t' r :
  topic_wf t -> insert_publisher_info al rules t domain pid a = (t', r) -> calm procs t procs t'.
Proof.
  intros Hwf Hrun. pose proof (insert_publisher_info_rule _ _ _ _ _ _ _ _ Hrun) as Hr.
  destruct (insert_publisher_info_cases _ _ _ _ _ _ _ _ Hwf Hrun) as (He & _ & Hc).
  split; [done|rw He; intros en Hen; by exists en| |done].
  intros en' p' Hen Hp Hid. rw He in Hen.
  destruct r as [q|e|]; [|destruct Hc as [Hc _]; rw Hc in Hp; by exists p'|done].
  destruct Hc as (cap & cs & Hq & Hpubs). rw Hpubs in Hp. apply elem_of_hash_add in Hp as [-> |Hp];
    [|by exists p']. exfalso.
  pose proof (wf_publishers _ Hwf) as Hpub. rw Forall_forall in Hpub. specialize (Hpub _ Hen).
  rw -Hid Hq /= in Hpub. apply (new_endpoint_id_fresh _ Hwf). unfold endpoint_ids.
  apply elem_of_app. by left.
Qed.

Lemma drop_refs_keys procs id l pubs l' pubs' :
  drop_subscriber_refs procs id l pubs = (l', pubs') ->
  forall en', en' ∈ l' -> exists en, en ∈ l /\ entry_id en = entry_id en' /\
    publisher_id en = publisher_id en'.
Proof.
  revert pubs l' pubs'. induction l as [|en l IH]; intros pubs l' pubs'; cbn [drop_subscriber_refs].
  { intros [= <- <-] en' Hen. by apply not_elem_of_nil in Hen. }
  assert (forall p1 l1 p2 en', drop_subscriber_refs procs id l p1 = (l1, p2) -> en' ∈ l1 ->
    exists en0, en0 ∈ en :: l /\ entry_id en0 = entry_id en' /\ publisher_id en0 = publisher_id en')
    as Htl.
  { intros p1 l1 p2 en' Hd Hin. destruct (IH _ _ _ Hd en' Hin) as (x & Hx & Hk).
    exists x. split; [by right|done]. }
  assert (forall p1 en', en' ∈ set_refs (clear_bit id (referencing_subscribers en)) en ::
      (drop_subscriber_refs procs id l p1).1 ->
    exists en0, en0 ∈ en :: l /\ entry_id en0 = entry_id en' /\ publisher_id en0 = publisher_id en')
    as Hkeep.
  { intros p1 en' [-> |Hin]%elem_of_cons; [exists en; split; [by left|done]|].
    destruct (drop_subscriber_refs procs id l p1) as [l1 p2] eqn:E. by eapply Htl. }
  destruct (agnocast_is_referenced _).
  { intros Hd en' Hin. apply (Hkeep pubs). destruct (drop_subscriber_refs procs id l pubs).
    by injection Hd as <- _. }
  destruct (find_pub _ _) as [p|].
  - destruct (owner_gone procs p); [intros Hd en' Hin; by eapply Htl|].
    intros Hd en' Hin. apply (Hkeep pubs). destruct (drop_subscriber_refs procs id l pubs).
    by injection Hd as <- _.
  - intros Hd en' Hin. apply (Hkeep pubs). destruct (drop_subscriber_refs procs id l pubs).
    by injection Hd as <- _.
Qed.

Lemma drop_refs_pubs procs id l pubs l' pubs' :
  drop_subscriber_refs procs id l pubs = (l', pubs') ->
  forall p', p' ∈ pubs' -> exists p, p ∈ pubs /\ pub_id p = pub_id p' /\ pub_view p = pub_view p'.
Proof.
  revert pubs l' pubs'. induction l as [|en l IH]; intros pubs l' pubs'; cbn [drop_subscriber_refs].
  { intros [= <- <-] p' Hp. by exists p'. }
  assert (forall l1 p2, (let '(rest, pubs0) := drop_subscriber_refs procs id l pubs in
      (set_refs (clear_bit id (referencing_subscribers en)) en :: rest, pubs0)) = (l1, p2) ->
    forall p', p' ∈ p2 -> exists p, p ∈ pubs /\ pub_id p = pub_id p' /\ pub_view p = pub_view p')
    as Hkeep.
  { intros l1 p2 Hd p' Hp. destruct (drop_subscriber_refs procs id l pubs) as [l2 p3] eqn:E.
    injection Hd as _ <-. by eapply IH. }
  destruct (agnocast_is_referenced _); [apply Hkeep|].
  destruct (find_pub _ _) as [q|]; [|apply Hkeep].
  destruct (owner_gone procs q); [|apply Hkeep].
  intros Hd p' Hp. destruct (IH _ _ _ Hd p' Hp) as (p & Hin & Hi & Hv).
  destruct (shrinks_pubs _ _ _ (drop_one_shrinks q pubs) Hin) as (p0 & H0 & Hi0 & Hv0).
  exists p0. split; [done|]. split; congruence.
Qed.

Lemma rebuild_pubs t l p' :
  p' ∈ map (rebuild_notify_list rules t) l ->
  exists p, p ∈ l /\ pub_id p = pub_id p' /\ pub_view p = pub_view p'.
Proof. intros (q & <- & Hq%list_elem_of_In)%list_elem_of_In%in_map_iff. by exists q. Qed.

Lemma drop_refs_reshapes procs id t l pubs :
  drop_subscriber_refs procs id (entries t) (pub_info_htable t) = (l, pubs) ->
  reshapes t (set_pubs pubs (set_entries l t)).
Proof.
  intros Hd. split; [done|by eapply drop_refs_keys|by eapply drop_refs_pubs].
Qed.

Lemma unlink_reshapes t s t1 puts :
  agnocast_unlink_subscriber_info rules t s = (t1, puts) -> reshapes t t1.
Proof.
  unfold agnocast_unlink_subscriber_info.
  destruct (notify_ctx s); intros [= <- _]; (split; [done|intros en Hen; by exists en|]).
  - apply rebuild_pubs.
  - intros p Hp. by exists p.
Qed.

Lemma remove_subscriber_quiet own procs t id t' puts r :
  topic_wf t -> notify_ok rules t -> remove_subscriber_topic rules procs t id = (t', puts, r) ->
  quiet_call own t t'.
Proof.
  intros Hwf Hok Hrun. pose proof (remove_subscriber_topic_inv _ _ _ _ _ _ _ Hwf Hok Hrun) as Hinv.
  destruct (find_subscriber_info t id) as [s|] eqn:Hf;
    [|destruct Hinv as (-> & _); by apply quiet_refl].
  destruct Hinv as (-> & Hwf' & Hok' & Hsubs & _). split; [done|]. split; [done|].
  unfold remove_subscriber_topic in Hrun. rw Hf in Hrun.
  destruct (agnocast_unlink_subscriber_info rules t s) as [t1 puts1] eqn:Hu.
  pose proof (unlink_reshapes _ _ _ _ Hu) as Hr1.
  assert (current_pubsub_id t1 = current_pubsub_id t) as Hid1.
  { unfold agnocast_unlink_subscriber_info in Hu. by destruct (notify_ctx s); injection Hu as <- _. }
  destruct (negb _); [|done]. destruct (drop_subscriber_refs _ _ _ _) as [l pubs] eqn:Hd.
  injection Hrun as <- _. split; [|split].
  - eapply reshapes_trans; [exact Hr1|]. by eapply drop_refs_reshapes.
  - apply subs_kept_subset. intros x. rw Hsubs. apply elem_of_hash_del.
  - simpl. lia.
Qed.

Lemma drop_publisher_quiet own t p :
  topic_wf t -> notify_ok rules t -> find_publisher_info t (pub_id p) = Some p ->
  quiet_call own t (drop_publisher (pub_id p) t).
Proof.
  intros Hwf Hok Hf.
  destruct (drop_publisher_spec rules t _ _ Hwf Hok Hf) as (W & N & E & S & R & _ & Sh & _).
  split; [done|]. split; [done|]. split; [|split].
  - split; [done| |intros p' Hp'; by eapply shrinks_pubs].
    rw E. intros en [_ Hen]%list_elem_of_filter. by exists en.
  - apply subs_kept_subset. by rw S.
  - unfold drop_publisher. destruct (find _ _) as [q|]; [|simpl; lia].
    destruct (entries_num q =? 0); simpl; lia.
Qed.

Lemma remove_publisher_quiet own t id t' r :
  topic_wf t -> notify_ok rules t -> remove_publisher_topic t id = (t', r) -> quiet_call own t t'.
Proof.
  intros Hwf Hok. unfold remove_publisher_topic.
  destruct (find_publisher_info t id) as [p|] eqn:Hf; intros [= <- _]; [|by apply quiet_refl].
  pose proof (find_publisher_info_Some _ _ _ Hf) as [_ <-]. by apply drop_publisher_quiet.
Qed.

Lemma drop_publishers_ids ps t :
  current_pubsub_id (fold_left (fun t p => drop_publisher (pub_id p) t) ps t) = current_pubsub_id t.
Proof.
  revert t. induction ps as [|p ps IH]; intros t; [done|]. simpl. rw IH.
  unfold drop_publisher. destruct (find _ _) as [q|]; [|done]. by destruct (entries_num q =? 0).
Qed.

Lemma exit_leaving_reshapes procs leaving t t' puts :
  exit_leaving procs leaving t = (t', puts) ->
  reshapes t t' /\ current_pubsub_id t' = current_pubsub_id t.
Proof.
  revert t t' puts. induction leaving as [|s leaving IH]; intros t t' puts; cbn [exit_leaving].
  { intros [= <- _]. split; [apply reshapes_refl|done]. }
  set (t1 := if _ || _ then t else _).
  assert (reshapes t t1 /\ current_pubsub_id t1 = current_pubsub_id t) as [Hr1 Hid1].
  { unfold t1. destruct (_ || _); [split; [apply reshapes_refl|done]|].
    destruct (drop_subscriber_refs _ _ _ _) as [l pubs] eqn:Hd.
    split; [by eapply drop_refs_reshapes|done]. }
  destruct (exit_leaving procs leaving t1) as [t2 puts2] eqn:E. intros [= <- _].
  destruct (IH _ _ _ E) as [Hr2 Hid2]. split; [by eapply reshapes_trans|congruence].
Qed.

Lemma exit_quiet own procs t pid t' puts :
  topic_wf t -> notify_ok rules t -> process_exit_topic rules procs t pid = (t', puts) ->
  quiet_call own t t'.
Proof.
  intros Hwf Hok. unfold process_exit_topic.
  destruct (pre_handler_publisher_exit_spec rules t pid Hwf Hok)
    as (W1 & N1 & S1 & R1 & Sh1 & E1 & _ & _).
  assert (current_pubsub_id (pre_handler_publisher_exit t pid) = current_pubsub_id t) as Hid1
    by apply drop_publishers_ids.
  set (t1 := pre_handler_publisher_exit t pid) in *. intros Hrun.
  pose proof (pre_handler_subscriber_exit_spec _ _ _ _ _ _ W1 N1 Hrun) as (W2 & N2 & R2 & S2 & _).
  split; [done|]. split; [done|].
  assert (reshapes t1 t' /\ current_pubsub_id t' = current_pubsub_id t1) as [Hr2 Hid2].
  { unfold pre_handler_subscriber_exit in Hrun. destruct (negb _).
    - apply exit_leaving_reshapes in Hrun as [Hr Hi]. split; [|done].
      eapply reshapes_trans; [|exact Hr]. split; [done|intros en Hen; by exists en|].
      apply rebuild_pubs.
    - injection Hrun as <- _. split; [|done]. split; [done|intros en Hen; by exists en|].
      intros p Hp. by exists p. }
  split; [|split].
  - eapply reshapes_trans; [|exact Hr2]. split; [done| |intros p' Hp'; by eapply shrinks_pubs].
    intros en Hen. exists en. by split; [apply E1|].
  - apply subs_kept_subset. intros s. rw S2 list_elem_of_filter S1. tauto.
  - lia.
Qed.

(** ** Publishing *)

Lemma upd_publisher_pubs id n (l : list publisher_info) p' :
  p' ∈ hash_upd (fun p => pub_id p =? id) (fun p => set_entries_num (n p) p) l ->
  exists p, p ∈ l /\ pub_id p = pub_id p' /\ pub_view p = pub_view p'.
Proof. intros [Hp|(p & Hp & _ & ->)]%elem_of_hash_upd; [by exists p'|by exists p]. Qed.

Lemma published_pubs t id a gone p' :
  p' ∈ pub_info_htable (released_topic (published t id a) id gone) ->
  exists p, p ∈ pub_info_htable t /\ pub_id p = pub_id p' /\ pub_view p = pub_view p'.
Proof.
  unfold released_topic, published. simpl. intros Hp.
  apply (upd_publisher_pubs id (fun p => u32 (entries_num p - Z.of_nat (length gone)))) in Hp
    as (p1 & Hp1 & Hi1 & Hv1).
  apply (upd_publisher_pubs id (fun p => u32 (entries_num p + 1))) in Hp1 as (p & Hp & Hi & Hv).
  exists p. split; [done|]. split; congruence.
Qed.

(** A message its publisher may deliver to a subscriber makes it signal that subscriber. *)
Lemma deliverable_signals procs t t' p s s' ctx en :
  topic_wf t -> notify_ok rules t -> rule t' = rule t ->
  (forall p', p' ∈ pub_info_htable t' -> exists p, p ∈ pub_info_htable t /\ pub_id p = pub_id p' /\
     pub_view p = pub_view p') ->
  find_publisher_info t (publisher_id en) = Some p -> s ∈ sub_info_htable t ->
  sub_view s' = sub_view s -> notify_ctx s = Some ctx ->
  deliverable rules procs t' s' en = true -> ctx ∈ notify_ctxs p.
Proof.
  intros Hwf Hok Hr Hpubs Hf Hs Hv Hc Hd.
  destruct (deliverable_inv _ _ _ _ Hd) as (p' & Hf' & _ & Hi & Hdom).
  pose proof (find_publisher_info_Some _ _ _ Hf') as [Hp' Hid'].
  pose proof (find_publisher_info_Some _ _ _ Hf) as [Hp Hid].
  destruct (Hpubs p' Hp') as (q & Hq & Hqid & Hview).
  assert (q = p) as ->.
  { apply (NoDup_fmap_inj_on pub_id (pub_info_htable t)); [by apply wf_pub_ids_nodup|done|done|].
    congruence. }
  unfold notify_ok in Hok. rw Forall_forall in Hok. destruct (Hok p Hp) as [-> _].
  apply list_elem_of_omap. exists s. split; [done|]. unfold notify_target. rw Hc.
  injection Hview as Hv1 Hv2 Hv3. unfold sub_view in Hv. injection Hv as Hs1 Hs2 Hs3 Hs4 _ _.
  rw (domain_delivery_rule t t' _ _ _ _ Hr) in Hdom. rw Hv2 Hv3 -Hs2 -Hs3 Hdom.
  rw Hv1 -Hs1 -Hs4 Hi. done.
Qed.

(** What the subscribers that [own] lists can rely on. *)
Record served (own : Z -> Prop) (procs : list process_info) (t : topic_struct)
    (procs' : list process_info) (t' : topic_struct) (signals : list Z) : Prop := {
  sv_wf : topic_wf t';
  sv_ok : notify_ok rules t';
  sv_ids : current_pubsub_id t <= current_pubsub_id t';
  sv_subs : subs_kept own t t';
  sv_signal : forall s s', s ∈ sub_info_htable t -> sub_view s' = sub_view s ->
    window rules procs t s = [] -> window rules procs' t' s' <> [] ->
    forall ctx, notify_ctx s = Some ctx -> ctx ∈ signals
}.

Lemma quiet_served own procs t t' signals :
  topic_wf t -> quiet_call own t t' -> served own procs t procs t' signals.
Proof.
  intros Hwf (W & N & R & S & C). split; [done..|].
  intros s s' _ Hv He Hne. destruct Hne.
  eapply calm_window; [exact Hwf|exact W|by apply reshapes_calm|done|done].
Qed.

Lemma publish_served own procs al pool size t id a t' signals r :
  topic_wf t -> notify_ok rules t -> room_for_entry t -> pools_present procs pool t ->
  (forall p, find_publisher_info t id = Some p -> 1 <= pub_qos_depth p) ->
  publish_msg_topic al procs pool size t id a = (t', signals, r) ->
  served own procs t procs t' signals.
Proof.
  intros Hwf Hok Hroom Hin Hdepth Hrun.
  destruct (publish_msg_inv rules procs al pool size t id a t' signals r Hwf Hok Hroom Hin Hrun)
    as (Hwf' & Hok' & _ & Hcases).
  destruct Hcases as [(-> & _ & _)|(p & gone & Hf & -> & Hgone & Hr)].
  { apply quiet_served; [done|]. by apply quiet_refl. }
  destruct Hr as [[_ ->]|(_ & _ & Hd)]; [|specialize (Hdepth p Hf); lia].
  split; [done|done|simpl; lia|by apply subs_kept_subset|].
  intros s s' Hs Hv Hempty Hne ctx Hc.
  destruct (window rules procs _ s') as [|en w] eqn:Ew; [done|].
  assert (en ∈ window rules procs (released_topic (published t id a) id gone) s') as Hen
    by (rw Ew; by left).
  apply window_in in Hen as (Hen & Hlt & Hdel).
  pose proof (find_publisher_info_Some _ _ _ Hf) as [Hp Hid].
  assert (publisher_id en = id) as Hpid.
  { apply elem_of_without in Hen as [Hen _]. simpl in Hen.
    apply elem_of_app in Hen as [Hold|Hnew].
    - exfalso. apply window_empty in Hempty. unfold sub_view in Hv.
      pose proof Hv as Hv'. injection Hv' as _ _ _ _ Hl Hdp.
      destruct Hempty as [Hz|Hno].
      + assert (window rules procs (released_topic (published t id a) id gone) s' = []) as Hnil
          by (apply window_empty; left; lia). congruence.
      + destruct (deliverable_inv _ _ _ _ Hdel) as (p' & Hf' & Hal & Hi & Hdom).
        pose proof (find_publisher_info_Some _ _ _ Hf') as [Hp' Hid'].
        destruct (published_pubs _ _ _ _ _ Hp') as (q & Hq & Hqid & Hview).
        injection Hview as Hv1 Hv2 Hv3. injection Hv as Hs1 Hs2 Hs3 Hs4 _ _.
        assert (deliverable rules procs t s en = true) as Hd.
        { apply (deliverable_intro _ _ _ _ q).
          - rw -Hid' -Hqid. apply find_publisher_info_unique; [by apply wf_pub_ids_nodup|done].
          - by rw Hv1.
          - by rw Hv1 -Hs1 -Hs4.
          - rw Hv2 Hv3 -Hs2 -Hs3. done. }
        rw Hno in Hd; [done|done|lia].
    - apply list_elem_of_singleton in Hnew as ->. done. }
  apply (deliverable_signals procs t (released_topic (published t id a) id gone) p s s' ctx en);
    [done..| |by rw Hpid|done|done|done|exact Hdel].
  intros p'. apply published_pubs.
Qed.

(** Every call serves them. *)
Lemma topic_call_served own procs t procs' t' signals :
  topic_wf t -> notify_ok rules t -> (forall id, own id -> id < current_pubsub_id t) ->
  topic_call own procs t procs' t' signals -> served own procs t procs' t' signals.
Proof.
  intros Hwf Hok Hown Hcall. destruct Hcall.
  - by eapply publish_served.
  - apply quiet_served; [done|]. by eapply receive_quiet.
  - apply quiet_served; [done|]. by eapply take_quiet.
  - apply quiet_served; [done|]. by eapply release_quiet.
  - apply quiet_served; [done|]. by eapply add_subscriber_quiet.
  - assert (calm procs t procs t') as Hc by (by eapply add_publisher_calm).
    destruct (insert_publisher_info_inv al rules t domain pid a t' r) as [Hwf' Hok']; [done..|].
    destruct (insert_publisher_info_cases al rules t domain pid a t' r) as (_ & Hs & _); [done..|].
    split; [done|done|by eapply insert_publisher_ids|apply subs_kept_subset; by rw Hs|].
    intros s s' _ Hv He Hne. destruct Hne.
    eapply calm_window; [exact Hwf|exact Hwf'|exact Hc|exact Hv|exact He].
  - apply quiet_served; [done|]. by eapply remove_subscriber_quiet.
  - apply quiet_served; [done|]. by eapply remove_publisher_quiet.
  - apply quiet_served; [done|]. by eapply exit_quiet.
  - split; [done|done|lia|by apply subs_kept_subset|].
    intros s s' _ Hv He Hne. destruct Hne.
    eapply calm_window; [exact Hwf|exact Hwf| |exact Hv|exact He].
    split; [done|intros en Hen; by exists en|intros en p _ Hp _; by exists p|done].
Qed.

(** ** A RECEIVE of a subscriber's own *)

Lemma receive_subs al vnr procs pool t domain id size t' pool' r s' :
  topic_wf t -> notify_ok rules t -> pools_present procs pool t ->
  receive_msg_topic al vnr rules procs pool t domain id size = (t', pool', r) ->
  s' ∈ sub_info_htable t' -> exists s, s ∈ sub_info_htable t /\ sub_id s = sub_id s' /\
    notify_ctx s' = notify_ctx s.
Proof.
  intros Hwf Hok Hin. unfold receive_msg_topic.
  destruct (find_subscriber_info t id) as [s|] eqn:Hf; [|intros [= <- _ _] Hs'; by exists s'].
  pose proof (find_subscriber_info_Some _ _ _ Hf) as [_ <-]. rw receive_msg_core_spec //.
  set (c := take _ _). set (n := default _ _). intros Hrun Hs'.
  apply (update_shm_quiet (fun _ => True)) in Hrun as (_ & _ & _ & Hsubs & _);
    [|by apply receive_claim_wf|by apply notify_ok_claimed|done].
  destruct (Hsubs s' Hs' I) as (s1 & Hs1 & Hid1 & _ & Hc1). rw -Hid1 Hc1.
  simpl in Hs1. apply elem_of_hash_upd in Hs1 as [Hs1|(s0 & Hs0 & _ & ->)]; [by exists s1|by exists s0].
Qed.

(** A RECEIVE that does not ask for another one leaves nothing. *)
Lemma receive_drains al vnr procs pool t domain id size t' pool' out infos s' :
  topic_wf t -> notify_ok rules t -> pools_present procs pool t ->
  receive_msg_topic al vnr rules procs pool t domain id size = (t', pool', Ok (out, false, infos)) ->
  s' ∈ sub_info_htable t' -> sub_id s' = id -> window rules procs t' s' = [].
Proof.
  intros Hwf Hok Hin. unfold receive_msg_topic.
  destruct (find_subscriber_info t id) as [s|] eqn:Hf; [|done].
  pose proof (find_subscriber_info_Some _ _ _ Hf) as [Hs <-]. rw receive_msg_core_spec //.
  set (c := take _ _). set (n := default _ _). intros Hrun Hs' Hid.
  set (t1 := claimed_topic (sub_id s) n c t) in *.
  assert (topic_wf t1) as Hwf1 by (by apply receive_claim_wf).
  assert (notify_ok rules t1) as Hok1 by (by apply notify_ok_claimed).
  pose proof Hrun as Hret.
  apply update_publisher_shm_inv in Hret as (Hwf' & _ & _ & _ & _ & _ & _ & [= -> Hagain] & _);
    [|done..].
  apply (update_shm_quiet (fun _ => True)) in Hrun as (_ & _ & Hresh & Hsubs & _); [|done..].
  destruct (Hsubs s' Hs' I) as (s1 & Hs1 & Hid1 & Hv1 & _).
  eapply (calm_window procs t1 procs t' s1); [done..|by apply reshapes_calm|done|].
  assert (find_subscriber_info t1 (sub_id s) = Some s1) as Hf1.
  { rw -Hid -Hid1. apply find_subscriber_info_unique; [by apply wf_sub_ids_nodup|done]. }
  destruct (decide (c = [])) as [Hc|Hc].
  - assert (window rules procs t s = []) as Hw by (by destruct (window rules procs t s)).
    eapply (calm_window procs t procs t1 s s1); [done..|apply reshapes_calm, claimed_reshapes| |done].
    unfold t1, n in Hs1. rw Hc /= in Hs1. apply elem_of_hash_upd in Hs1 as [Hold|(s0 & Hs0 & Hid0 & ->)].
    + assert (s1 = s) as ->; [|done].
      apply (NoDup_fmap_inj_on sub_id (sub_info_htable t)); [by apply wf_sub_ids_nodup|done|done|congruence].
    + assert (s0 = s) as ->; [|by destruct s].
      apply (NoDup_fmap_inj_on sub_id (sub_info_htable t)); [by apply wf_sub_ids_nodup|done|done|lia].
  - rw (window_after_claim rules procs t s s1); [|done..]. apply drop_ge.
    symmetry in Hagain. apply Z.ltb_ge in Hagain. lia.
Qed.
End signals.
