(* ===== verification/KExitQueue.v ===== *)
(** * Kernel module: the queue of exited pids

    Model of the ring buffer between the process-exit tracepoint and the worker thread:
    [agnocast_enqueue_exit_pid] of agnocast_kmod/agnocast_internal.c, and the locked section of
    the worker's drain loop in agnocast_kmod/agnocast_init.c.  [pid_queue_lock] makes each of the
    two atomic; they interleave in any order. *)

From S2P Require Import Prelude Kernel.

(** ** State *)

Definition EXIT_QUEUE_SIZE_BITS : Z := 16.
Definition EXIT_QUEUE_SIZE : Z := Z.shiftl 1 EXIT_QUEUE_SIZE_BITS.
Definition EXIT_QUEUE_MASK : Z := EXIT_QUEUE_SIZE - 1.

(** [exit_pid_queue] maps an index to the pid stored there. *)
Record exit_queue := ExitQueue {
  exit_pid_queue : Z -> Z;
  queue_head : Z;
  queue_tail : Z;
  has_new_pid : bool
}.

(** [agnocast_init_kthread]: [queue_head = queue_tail = 0] *)
Definition init_queue : exit_queue := ExitQueue (fun _ => 0) 0 0 false.

(** ** Operations *)

(** Returns the queue and [need_wakeup]; [false] is the "queue is full" warning. *)
Definition agnocast_enqueue_exit_pid (q : exit_queue) (pid : Z) : exit_queue * bool :=
  let next := Z.land (u32 (queue_tail q + 1)) EXIT_QUEUE_MASK in
  if next =? queue_head q then (q, false)
  else (ExitQueue (fun i => if i =? queue_tail q then pid else exit_pid_queue q i)
          (queue_head q) next true, true).

(** One locked section of the drain loop: [None] is [!got_pid]. *)
Definition dequeue_exit_pid (q : exit_queue) : exit_queue * option Z :=
  let '(q, got) :=
    if negb (queue_head q =? queue_tail q)
    then (ExitQueue (exit_pid_queue q) (Z.land (u32 (queue_head q + 1)) EXIT_QUEUE_MASK)
            (queue_tail q) (has_new_pid q), Some (exit_pid_queue q (queue_head q)))
    else (q, None) in
  (ExitQueue (exit_pid_queue q) (queue_head q) (queue_tail q)
     (if queue_head q =? queue_tail q then false else has_new_pid q), got).

(** The tracepoint and the worker, one locked section at a time. *)
Inductive queue_step : exit_queue -> exit_queue -> Prop :=
  | step_enqueue q pid : queue_step q (agnocast_enqueue_exit_pid q pid).1
  | step_dequeue q : queue_step q (dequeue_exit_pid q).1.

Inductive queue_reachable : exit_queue -> Prop :=
  | reach_init : queue_reachable init_queue
  | reach_step q q' : queue_reachable q -> queue_step q q' -> queue_reachable q'.

(** ** Specification: a bounded FIFO *)

Definition queue_length (q : exit_queue) : Z :=
  (queue_tail q - queue_head q) mod EXIT_QUEUE_SIZE.

(** The pids between head and tail, oldest first. *)
Definition contents (q : exit_queue) : list Z :=
  (fun i => exit_pid_queue q ((queue_head q + Z.of_nat i) mod EXIT_QUEUE_SIZE))
    <$> seq 0 (Z.to_nat (queue_length q)).

Record queue_wf (q : exit_queue) : Prop := {
  wf_head : 0 <= queue_head q < EXIT_QUEUE_SIZE;
  wf_tail : 0 <= queue_tail q < EXIT_QUEUE_SIZE;
  wf_flag : has_new_pid q = negb (bool_decide (contents q = []))
}.

(** ** Lemmas *)

Lemma next_index i :
  0 <= i < EXIT_QUEUE_SIZE ->
  Z.land (u32 (i + 1)) EXIT_QUEUE_MASK = (i + 1) mod EXIT_QUEUE_SIZE.
Proof.
  intros Hi. change EXIT_QUEUE_SIZE with 65536 in *.
  change EXIT_QUEUE_MASK with (Z.ones 16). rw Z.land_ones; [|lia]. unfold u32.
  by rw (Z.mod_small (i + 1) (2 ^ 32)); [|lia].
Qed.

Lemma mod_cases a b :
  0 <= a < EXIT_QUEUE_SIZE -> 0 <= b < EXIT_QUEUE_SIZE ->
  (b - a) mod EXIT_QUEUE_SIZE = if a <=? b then b - a else b - a + EXIT_QUEUE_SIZE.
Proof.
  intros Ha Hb. change EXIT_QUEUE_SIZE with 65536 in *. destruct (Z.leb_spec a b).
  - apply Z.mod_small. lia.
  - symmetry. apply Z.mod_unique with (-1); [left|]; lia.
Qed.

Lemma succ_cases i :
  0 <= i < EXIT_QUEUE_SIZE ->
  (i + 1) mod EXIT_QUEUE_SIZE = if i =? EXIT_QUEUE_SIZE - 1 then 0 else i + 1.
Proof.
  intros Hi. change EXIT_QUEUE_SIZE with 65536 in *. destruct (Z.eqb_spec i (65536 - 1)) as [->|].
  - done.
  - apply Z.mod_small. lia.
Qed.

Lemma queue_length_range q : 0 <= queue_length q < EXIT_QUEUE_SIZE.
Proof. apply Z.mod_pos_bound. done. Qed.

Lemma length_contents q : Z.of_nat (length (contents q)) = queue_length q.
Proof. unfold contents. rw length_fmap length_seq. pose proof (queue_length_range q). lia. Qed.

Lemma contents_nil q :
  0 <= queue_head q < EXIT_QUEUE_SIZE -> 0 <= queue_tail q < EXIT_QUEUE_SIZE ->
  contents q = [] <-> queue_head q = queue_tail q.
Proof.
  intros Hh Ht. pose proof (length_contents q) as Hl. unfold queue_length in Hl.
  rw mod_cases // in Hl. split.
  - intros Hn. rw Hn /= in Hl. destruct (Z.leb_spec (queue_head q) (queue_tail q)); lia.
  - intros Heq. destruct (contents q) as [|x l]; [done|]. simpl in Hl.
    destruct (Z.leb_spec (queue_head q) (queue_tail q)); lia.
Qed.

(** The slot of the [i]-th element is the tail's exactly when the queue has [i] elements. *)
Lemma slot_tail q i :
  0 <= queue_head q < EXIT_QUEUE_SIZE -> 0 <= queue_tail q < EXIT_QUEUE_SIZE ->
  0 <= i < EXIT_QUEUE_SIZE ->
  (queue_head q + i) mod EXIT_QUEUE_SIZE = queue_tail q <-> i = queue_length q.
Proof.
  intros Hh Ht Hi. unfold queue_length. rw mod_cases //.
  assert ((queue_head q + i) mod EXIT_QUEUE_SIZE =
    if queue_head q + i <? EXIT_QUEUE_SIZE then queue_head q + i
    else queue_head q + i - EXIT_QUEUE_SIZE) as ->.
  { change EXIT_QUEUE_SIZE with 65536 in *. destruct (Z.ltb_spec (queue_head q + i) 65536).
    - apply Z.mod_small. lia.
    - symmetry. apply Z.mod_unique with 1; [left|]; lia. }
  change EXIT_QUEUE_SIZE with 65536 in *.
  destruct (Z.ltb_spec (queue_head q + i) 65536), (Z.leb_spec (queue_head q) (queue_tail q)); lia.
Qed.

Lemma enqueue_spec q pid q' ok :
  queue_wf q -> agnocast_enqueue_exit_pid q pid = (q', ok) ->
  queue_wf q' /\
  if queue_length q =? EXIT_QUEUE_SIZE - 1 then ok = false /\ q' = q
  else ok = true /\ contents q' = contents q ++ [pid].
Proof.
  intros [Hh Ht Hf]. unfold agnocast_enqueue_exit_pid. rw next_index //.
  pose proof (queue_length_range q) as Hlen.
  assert ((queue_tail q + 1) mod EXIT_QUEUE_SIZE = queue_head q <->
          queue_length q = EXIT_QUEUE_SIZE - 1) as Hfull.
  { unfold queue_length. rw mod_cases // succ_cases //. change EXIT_QUEUE_SIZE with 65536 in *.
    destruct (Z.eqb_spec (queue_tail q) (65536 - 1)), (Z.leb_spec (queue_head q) (queue_tail q)); lia. }
  destruct (Z.eqb_spec ((queue_tail q + 1) mod EXIT_QUEUE_SIZE) (queue_head q)) as [Hx|Hx].
  { intros [= <- <-]. rw (proj1 Hfull Hx) Z.eqb_refl. by split. }
  destruct (Z.eqb_spec (queue_length q) (EXIT_QUEUE_SIZE - 1)) as [Hy|Hy]; [tauto|].
  intros [= <- <-]. set (q' := ExitQueue _ _ _ _).
  assert (0 <= queue_tail q' < EXIT_QUEUE_SIZE) as Ht' by (by apply Z.mod_pos_bound).
  assert (queue_length q' = queue_length q + 1) as Hl'.
  { unfold queue_length. rw !mod_cases //. simpl. rw succ_cases //.
    unfold queue_length in Hy. rw mod_cases // in Hy. change EXIT_QUEUE_SIZE with 65536 in *.
    destruct (Z.eqb_spec (queue_tail q) (65536 - 1)), (Z.leb_spec (queue_head q) (queue_tail q));
      case_match; bool_to_prop; lia. }
  assert (contents q' = contents q ++ [pid]) as Hc.
  { unfold contents. rw Hl' Z2Nat.inj_add; [|lia|lia]. rw seq_app fmap_app. f_equal.
    - apply list_fmap_ext. intros i j Hj%list_elem_of_lookup_2. apply elem_of_seq in Hj. simpl.
      destruct (Z.eqb_spec ((queue_head q + Z.of_nat j) mod EXIT_QUEUE_SIZE) (queue_tail q)) as [He|];
        [|done]. apply slot_tail in He; [lia|done|done|lia].
    - csimpl. f_equal. rw (proj2 (Z.eqb_eq _ _)); [done|]. apply slot_tail; [done|done|lia|lia]. }
  split; [|done]. split; [done|done|]. rw Hc. rw bool_decide_false; [done|]. by destruct (contents q).
Qed.

Lemma dequeue_spec q q' got :
  queue_wf q -> dequeue_exit_pid q = (q', got) ->
  queue_wf q' /\ match got with
                 | Some pid => contents q = pid :: contents q'
                 | None => contents q = [] /\ contents q' = []
                 end.
Proof.
  intros [Hh Ht Hf]. unfold dequeue_exit_pid.
  pose proof (contents_nil q Hh Ht) as Hnil.
  destruct (Z.eqb_spec (queue_head q) (queue_tail q)) as [Heq|Hne]; simpl.
  - rw (proj2 (Z.eqb_eq _ _) Heq). intros [= <- <-]. specialize (proj2 Hnil Heq) as Hc.
    split; [|by split]. split; [done|done|]. simpl. rw bool_decide_true; [done|].
    rw contents_nil; [done|done|done].
  - rw next_index //. set (q1 := ExitQueue _ _ _ _). intros [= <- <-].
    assert (0 <= queue_head q1 < EXIT_QUEUE_SIZE) as Hh' by (by apply Z.mod_pos_bound).
    assert (queue_length q = queue_length q1 + 1) as Hl.
    { unfold queue_length. rw !mod_cases //. simpl. rw succ_cases //.
      change EXIT_QUEUE_SIZE with 65536 in *.
      destruct (Z.eqb_spec (queue_head q) (65536 - 1)), (Z.leb_spec (queue_head q) (queue_tail q));
        case_match; bool_to_prop; lia. }
    pose proof (queue_length_range q1) as Hr.
    assert (contents q = exit_pid_queue q (queue_head q) :: contents q1) as Hc.
    { unfold contents. rw Hl. assert (Z.to_nat (queue_length q1 + 1) =
        S (Z.to_nat (queue_length q1))) as -> by lia. csimpl. f_equal.
      - f_equal. rw Z.add_0_r. by apply Z.mod_small.
      - rw -fmap_S_seq -list_fmap_compose. apply list_fmap_ext. intros i j _. simpl. f_equal.
        rw Zplus_mod_idemp_l. f_equal. lia. }
    pose proof (contents_nil q1 Hh' Ht) as Hnil1.
    split; [|by destruct (Z.eqb _ _)].
    split; [done|done|]. simpl.
    destruct (Z.eqb_spec ((queue_head q + 1) mod EXIT_QUEUE_SIZE) (queue_tail q)) as [He|He].
    + rw bool_decide_true; [done|]. by apply Hnil1.
    + rw bool_decide_false; [|by intros Hn; apply He, Hnil1]. rw Hf bool_decide_false; [done|].
      by rw Hc.
Qed.

Lemma init_queue_wf : queue_wf init_queue.
Proof. by split. Qed.

Lemma queue_step_wf q q' : queue_wf q -> queue_step q q' -> queue_wf q'.
Proof.
  intros Hwf Hs. destruct Hs.
  - exact (proj1 (enqueue_spec q pid _ _ Hwf (surjective_pairing _))).
  - exact (proj1 (dequeue_spec q _ _ Hwf (surjective_pairing _))).
Qed.

(** ** Properties *)

(** C16. The ring buffer is a FIFO of at most 65535 pids: in every reachable state an enqueue of a
    queue that is not full appends and asks for a wake-up, an enqueue of a full queue drops the
    pid and says so, and a dequeue returns the oldest pid. *)
Theorem exit_queue_fifo q :
  queue_reachable q ->
  (forall pid q' ok, agnocast_enqueue_exit_pid q pid = (q', ok) ->
     if Z.of_nat (length (contents q)) =? 65535 then ok = false /\ q' = q
     else ok = true /\ contents q' = contents q ++ [pid]) /\
  (forall q' got, dequeue_exit_pid q = (q', got) ->
     match got with
     | Some pid => contents q = pid :: contents q'
     | None => contents q = [] /\ contents q' = []
     end).
Proof.
  intros Hr. assert (queue_wf q) as Hwf.
  { induction Hr as [|q q' _ IH Hs]; [apply init_queue_wf|by eapply queue_step_wf]. }
  split.
  - intros pid q' ok Hrun. rw length_contents. by apply (enqueue_spec q pid q' ok Hwf) in Hrun as [_ ?].
  - intros q' got Hrun. by apply (dequeue_spec q q' got Hwf) in Hrun as [_ ?].
Qed.

Lemma exit_queue_fifo_witness :
  queue_reachable (agnocast_enqueue_exit_pid init_queue 7).1 /\
  dequeue_exit_pid (agnocast_enqueue_exit_pid init_queue 7).1 =
    ((dequeue_exit_pid (agnocast_enqueue_exit_pid init_queue 7).1).1, Some 7) /\
  contents (agnocast_enqueue_exit_pid init_queue 7).1 =
    7 :: contents (dequeue_exit_pid (agnocast_enqueue_exit_pid init_queue 7).1).1.
Proof.
  assert (queue_reachable (agnocast_enqueue_exit_pid init_queue 7).1) as Hr
    by (eapply reach_step; [apply reach_init|apply step_enqueue]).
  split; [done|]. split; [reflexivity|].
  exact (proj2 (exit_queue_fifo _ Hr) _ _ (surjective_pairing _)).
Defined.

(** No wake-up is lost: in every reachable state the worker's wake condition [has_new_pid]
    holds exactly when a pid is queued, however enqueues and drains interleave. *)
Theorem exit_queue_no_lost_wakeup q :
  queue_reachable q -> (has_new_pid q = true <-> contents q <> []).
Proof.
  intros Hr. assert (queue_wf q) as [_ _ ->].
  { induction Hr as [|q q' _ IH Hs]; [apply init_queue_wf|by eapply queue_step_wf]. }
  case_bool_decide; simpl; naive_solver.
Qed.

Lemma exit_queue_no_lost_wakeup_witness :
  has_new_pid (agnocast_enqueue_exit_pid init_queue 7).1 = true.
Proof.
  apply (exit_queue_no_lost_wakeup (agnocast_enqueue_exit_pid init_queue 7).1); [|done].
  eapply reach_step; [apply reach_init|apply step_enqueue].
Defined.
