(* ===== verification/KRegistry.v ===== *)
(** * Kernel module: registered processes, discovery agents and bridges

    Model of the process registry of agnocast_kmod/agnocast_ioctl.c (ADD_PROCESS, the exit
    hand-over to the unlink daemon, the shutdown decisions of the bridge manager), of the table of
    discovery agents and of the table of bridges.  Each function takes the tables it reads and
    returns the ones it writes; [global_htables_rwsem] makes it atomic. *)

From S2P Require Import Prelude Kernel KMempool KTypes.

(** ** Processes *)

Definition has_alive_bridge_manager (procs : list process_info) (ipc_ns domain_id : Z) : bool :=
  existsb (fun p => (ipc_ns =? proc_ipc_ns p) && (proc_domain_id p =? domain_id) &&
    bool_decide (role p = PROCESS_ROLE_BRIDGE_MANAGER) && negb (exited p)) procs.

Definition has_alive_unlink_daemon (procs : list process_info) (ipc_ns : Z) : bool :=
  existsb (fun p => (ipc_ns =? proc_ipc_ns p) &&
    bool_decide (role p = PROCESS_ROLE_UNLINK_DAEMON)) procs.

Definition get_process_num_except_unlink_daemon (procs : list process_info) (ipc_ns : Z) : Z :=
  Z.of_nat (length (filter (fun p => ipc_ns = proc_ipc_ns p /\
    role p <> PROCESS_ROLE_UNLINK_DAEMON) procs)).

Definition get_process_num_in_domain_except_unlink_daemon (procs : list process_info)
    (ipc_ns domain_id : Z) : Z :=
  Z.of_nat (length (filter (fun p => ipc_ns = proc_ipc_ns p /\ proc_domain_id p = domain_id /\
    role p <> PROCESS_ROLE_UNLINK_DAEMON) procs)).

Definition get_alive_process_num_in_domain_except_unlink_daemon (procs : list process_info)
    (ipc_ns domain_id : Z) : Z :=
  Z.of_nat (length (filter (fun p => ipc_ns = proc_ipc_ns p /\ proc_domain_id p = domain_id /\
    exited p = false /\ role p <> PROCESS_ROLE_UNLINK_DAEMON) procs)).

Section registry.
Context `{KernelHash}.

Definition get_process_domain_id (procs : list process_info) (pid : Z) : Z :=
  match agnocast_find_process_info procs pid with
  | Some p => proc_domain_id p
  | None => 0
  end.

Definition agent_bucket (a : discovery_agent_info) : Z :=
  hash_min (hash_min (agent_pid a) DISCOVERY_AGENT_HASH_BITS) DISCOVERY_AGENT_HASH_BITS.

Definition agnocast_find_discovery_agent (agents : list discovery_agent_info)
    (ipc_ns domain_id : Z) : option discovery_agent_info :=
  find (fun a => (agent_ipc_ns a =? ipc_ns) && (agent_domain_id a =? domain_id)) agents.

(** What ADD_PROCESS returns: [ret_addr] and [ret_shm_size] are [None] where the call returns
    before it assigns them. *)
Record add_process_ret := AddProcessRet {
  ret_unlink_daemon_exist : bool;
  ret_bridge_daemon_exist : bool;
  ret_discovery_agent_exist : bool;
  ret_mempool : option (Z * Z)
}.

(** [convert_pid_to_local] *)
Definition convert_pid_to_local (e : env) (pid : Z) : Z := default (-1) (pid_vnr_of e pid).

Definition agnocast_ioctl_add_process (e : env) (procs : list process_info)
    (agents : list discovery_agent_info) (pool : list mempool_entry) (mempool_size_bytes : Z)
    (pid ipc_ns role_arg domain_id : Z)
    : list process_info * list mempool_entry * res add_process_ret :=
  unwrap r := process_role_of role_arg orelse (procs, pool, Err EINVAL);
  let is_daemon := bool_decide (r = PROCESS_ROLE_UNLINK_DAEMON) in
  require negb (negb is_daemon && (domain_id =? AGNOCAST_DOMAIN_ID_NONE))
    orelse (procs, pool, Err EINVAL);
  match agnocast_find_process_info procs pid with
  | Some _ => (procs, pool, Err EINVAL)
  | None =>
      let daemon_exist := has_alive_unlink_daemon procs ipc_ns in
      let manager_exist := has_alive_bridge_manager procs ipc_ns domain_id in
      let agent_exist :=
        bool_decide (is_Some (agnocast_find_discovery_agent agents ipc_ns domain_id)) in
      let ret := AddProcessRet daemon_exist manager_exist agent_exist in
      require negb (bool_decide (r = PROCESS_ROLE_BRIDGE_MANAGER) && manager_exist)
        orelse (procs, pool, Ok (ret None));
      require negb (is_daemon && daemon_exist) orelse (procs, pool, Ok (ret None));
      require kmalloc_ok e 0%nat orelse (procs, pool, Err ENOMEM);
      match assign_memory (skip 1 (kmalloc_ok e)) pool pid with
      | (None, pool) => (procs, pool, Err ENOMEM)
      | (Some i, pool) =>
          unwrap m := pool !! i orelse (procs, pool, Oops);
          let p := ProcessInfo false r pid (convert_pid_to_local e pid) i ipc_ns
                     (if is_daemon then AGNOCAST_DOMAIN_ID_NONE else domain_id) in
          (hash_add proc_bucket p procs, pool, Ok (ret (Some (addr m, mempool_size_bytes))))
      end
  end.

(** Returns the global pid, -1 if none, and [ret_pid]. *)
Definition agnocast_ioctl_get_exit_process (procs : list process_info) (ipc_ns : Z) : Z * Z :=
  match find (fun p => (proc_ipc_ns p =? ipc_ns) && exited p) procs with
  | Some p => (global_pid p, local_pid p)
  | None => (-1, -1)
  end.

Definition remove_process (procs : list process_info) (pid : Z) : list process_info :=
  hash_del (fun p => global_pid p =? pid) procs.

(** The last component is [ret_daemon_should_exit]. *)
Definition agnocast_commit_exit_process (procs : list process_info) (pool : list mempool_entry)
    (ipc_ns global_pid' caller_pid : Z) : list process_info * list mempool_entry * bool :=
  let procs := if 0 <=? global_pid' then remove_process procs global_pid' else procs in
  let should_exit := get_process_num_except_unlink_daemon procs ipc_ns =? 0 in
  if should_exit && (global_pid' <? 0) && (0 <=? caller_pid) then
    match agnocast_find_process_info procs caller_pid with
    | Some caller =>
        if bool_decide (role caller = PROCESS_ROLE_UNLINK_DAEMON)
        then (remove_process procs caller_pid, free_memory pool caller_pid, should_exit)
        else (procs, pool, should_exit)
    | None => (procs, pool, should_exit)
    end
  else (procs, pool, should_exit).

(** [proc_info->role = PROCESS_ROLE_APPLICATION] *)
Definition demote (p : process_info) : process_info :=
  ProcessInfo (exited p) PROCESS_ROLE_APPLICATION (global_pid p) (local_pid p) (proc_mempool p)
    (proc_ipc_ns p) (proc_domain_id p).

(** [proc_info->exited = true] *)
Definition mark_exited (p : process_info) : process_info :=
  ProcessInfo true (role p) (global_pid p) (local_pid p) (proc_mempool p) (proc_ipc_ns p)
    (proc_domain_id p).

Definition agnocast_ioctl_notify_bridge_shutdown (procs : list process_info) (pid : Z)
    : list process_info :=
  hash_upd (fun p => global_pid p =? pid) demote procs.

(** Returns [ret_should_shutdown]. *)
Definition agnocast_ioctl_check_and_request_bridge_shutdown (procs : list process_info)
    (pid ipc_ns : Z) : list process_info * bool :=
  if get_process_num_in_domain_except_unlink_daemon procs ipc_ns (get_process_domain_id procs pid)
       <=? 1
  then (hash_upd (fun p => global_pid p =? pid) demote procs, true)
  else (procs, false).

(** The registry part of [agnocast_process_exit_cleanup]; [None] is its early return. *)
Definition exit_registered (procs : list process_info) (pool : list mempool_entry) (pid : Z)
    : option (list process_info * list mempool_entry) :=
  match agnocast_find_process_info procs pid with
  | None => None
  | Some p =>
      let procs := if bool_decide (role p = PROCESS_ROLE_UNLINK_DAEMON)
                   then remove_process procs pid
                   else hash_upd (fun p => global_pid p =? pid) mark_exited procs in
      Some (procs, free_memory pool pid)
  end.

(** ** Discovery agents *)

Definition agnocast_remove_discovery_agent_by_pid (agents : list discovery_agent_info) (pid : Z)
    : list discovery_agent_info :=
  hash_del (fun a => agent_pid a =? pid) agents.

(** Returns [ret_should_exit]. *)
Definition agnocast_ioctl_discovery_agent_should_exit (procs : list process_info)
    (agents : list discovery_agent_info) (pid ipc_ns domain_id : Z) (commit : bool)
    : list discovery_agent_info * bool :=
  let empty := get_alive_process_num_in_domain_except_unlink_daemon procs ipc_ns domain_id =? 0 in
  if negb commit then (agents, empty)
  else if empty then (agnocast_remove_discovery_agent_by_pid agents pid, true)
  else (agents, false).

(** Returns [ret_owned_by_caller]. *)
Definition agnocast_ioctl_add_discovery_agent (al : alloc) (agents : list discovery_agent_info)
    (pid ipc_ns domain_id : Z) : list discovery_agent_info * res bool :=
  match agnocast_find_discovery_agent agents ipc_ns domain_id with
  | Some existing => (agents, Ok (agent_pid existing =? pid))
  | None =>
      require al 0%nat orelse (agents, Err ENOMEM);
      (hash_add agent_bucket (DiscoveryAgentInfo pid ipc_ns domain_id) agents, Ok true)
  end.

Definition agnocast_ioctl_discovery_agent_exists (agents : list discovery_agent_info)
    (ipc_ns domain_id : Z) : bool :=
  bool_decide (is_Some (agnocast_find_discovery_agent agents ipc_ns domain_id)).

Definition is_agnocast_pid (procs : list process_info) (agents : list discovery_agent_info)
    (pid : Z) : bool :=
  bool_decide (is_Some (agnocast_find_process_info procs pid)) ||
  bool_decide (is_Some (find (fun a => agent_pid a =? pid) agents)).

(** ** Bridges *)

Definition bridge_bucket (b : bridge_info) : Z :=
  hash_min (full_name_hash (br_topic_name b)) TOPIC_HASH_BITS.

Definition same_bridge (topic_name : string) (ipc_ns : Z) (b : bridge_info) : bool :=
  (ipc_ns =? br_ipc_ns b) && String.eqb (br_topic_name b) topic_name.

Definition find_bridge_info (bridges : list bridge_info) (topic_name : string) (ipc_ns : Z)
    : option bridge_info :=
  find (same_bridge topic_name ipc_ns)
    (hash_for_each_possible bridge_bucket
       (hash_min (full_name_hash topic_name) TOPIC_HASH_BITS) bridges).

Definition set_flags (r2a a2r : bool) (b : bridge_info) : bridge_info :=
  BridgeInfo (br_topic_name b) (br_pid b) r2a a2r (br_ipc_ns b).

(** [ret_pid], [ret_has_r2a], [ret_has_a2r], which the call writes on -EEXIST too. *)
Record add_bridge_ret := AddBridgeRet { ret_br_pid : Z; ret_has_r2a : bool; ret_has_a2r : bool }.

Definition agnocast_ioctl_add_bridge (al : alloc) (bridges : list bridge_info)
    (topic_name : string) (pid : Z) (is_r2a : bool) (ipc_ns : Z)
    : list bridge_info * option add_bridge_ret * res unit :=
  match find_bridge_info bridges topic_name ipc_ns with
  | Some existing =>
      if negb (br_pid existing =? pid) then
        (bridges, Some (AddBridgeRet (br_pid existing) (has_r2a existing) (has_a2r existing)),
         Err EEXIST)
      else
        let r2a := if is_r2a then true else has_r2a existing in
        let a2r := if is_r2a then has_a2r existing else true in
        (hash_upd (same_bridge topic_name ipc_ns) (set_flags r2a a2r) bridges,
         Some (AddBridgeRet (br_pid existing) r2a a2r), Ok tt)
  | None =>
      require al 0%nat orelse (bridges, None, Err ENOMEM);
      require al 1%nat orelse (bridges, None, Err ENOMEM);
      (hash_add bridge_bucket (BridgeInfo topic_name pid is_r2a (negb is_r2a) ipc_ns) bridges,
       Some (AddBridgeRet pid is_r2a (negb is_r2a)), Ok tt)
  end.

Definition agnocast_ioctl_remove_bridge (bridges : list bridge_info) (topic_name : string)
    (pid : Z) (is_r2a : bool) (ipc_ns : Z) : list bridge_info * res unit :=
  match find_bridge_info bridges topic_name ipc_ns with
  | None => (bridges, Err ENOENT)
  | Some b =>
      require br_pid b =? pid orelse (bridges, Err EPERM);
      let r2a := if is_r2a then false else has_r2a b in
      let a2r := if is_r2a then has_a2r b else false in
      if negb r2a && negb a2r then (hash_del (same_bridge topic_name ipc_ns) bridges, Ok tt)
      else (hash_upd (same_bridge topic_name ipc_ns) (set_flags r2a a2r) bridges, Ok tt)
  end.

(** The last loop of [agnocast_process_exit_cleanup]. *)
Definition exit_bridges (bridges : list bridge_info) (pid : Z) : list bridge_info :=
  filter (fun b => br_pid b <> pid) bridges.
End registry.

(** ** Steps of the registry *)

(** The tables of this file with the pools processes map. *)
Record registry := Registry {
  proc_info_htable : list process_info;
  discovery_agent_htable : list discovery_agent_info;
  mempool_entries : list mempool_entry
}.

(** The system calls that write one of the tables, with any arguments. *)
Inductive registry_call `{KernelHash} : registry -> registry -> Prop :=
  | call_add_process e size pid ns role_arg domain procs agents pool procs' pool' r :
      valid_pid pid ->
      agnocast_ioctl_add_process e procs agents pool size pid ns role_arg domain
        = (procs', pool', r) ->
      registry_call (Registry procs agents pool) (Registry procs' agents pool')
  | call_commit_exit ns pid caller procs agents pool procs' pool' b :
      agnocast_commit_exit_process procs pool ns pid caller = (procs', pool', b) ->
      registry_call (Registry procs agents pool) (Registry procs' agents pool')
  | call_notify_shutdown pid procs agents pool :
      registry_call (Registry procs agents pool)
        (Registry (agnocast_ioctl_notify_bridge_shutdown procs pid) agents pool)
  | call_check_shutdown pid ns procs agents pool :
      registry_call (Registry procs agents pool)
        (Registry (agnocast_ioctl_check_and_request_bridge_shutdown procs pid ns).1 agents pool)
  | call_agent_should_exit pid ns domain commit procs agents pool :
      registry_call (Registry procs agents pool)
        (Registry procs
           (agnocast_ioctl_discovery_agent_should_exit procs agents pid ns domain commit).1 pool)
  | call_add_agent al pid ns domain procs agents pool :
      registry_call (Registry procs agents pool)
        (Registry procs (agnocast_ioctl_add_discovery_agent al agents pid ns domain).1 pool).

(** Those calls, the exits of processes and agents, and the mappings of publishers' pools by
    subscribers ([reference_memory]), in any order. *)
Inductive registry_step `{KernelHash} : registry -> registry -> Prop :=
  | step_call k k' : registry_call k k' -> registry_step k k'
  | step_process_exit pid procs agents pool procs' pool' :
      exit_registered procs pool pid = Some (procs', pool') ->
      registry_step (Registry procs agents pool)
        (Registry procs' (agnocast_remove_discovery_agent_by_pid agents pid) pool')
  | step_agent_exit pid procs agents pool :
      exit_registered procs pool pid = None ->
      registry_step (Registry procs agents pool)
        (Registry procs (agnocast_remove_discovery_agent_by_pid agents pid) pool)
  | step_reference al i pid procs agents pool :
      valid_pid pid ->
      registry_step (Registry procs agents pool)
        (Registry procs agents (reference_memory al pool i pid).1).

(** The states reachable from an empty registry and the pools the module set up. *)
Inductive registry_reachable `{KernelHash} (pool0 : list mempool_entry) : registry -> Prop :=
  | registry_init : registry_reachable pool0 (Registry [] [] pool0)
  | registry_next k k' :
      registry_reachable pool0 k -> registry_step k k' -> registry_reachable pool0 k'.

(** ** Specification *)

Definition same_slot (p q : process_info) : Prop :=
  proc_ipc_ns p = proc_ipc_ns q /\ proc_domain_id p = proc_domain_id q.

Record registry_wf (pool0 : list mempool_entry) (k : registry) : Prop := {
  rw_pids : NoDup (global_pid <$> proc_info_htable k);
  rw_pool : pool_wf (mempool_entries k);
  rw_addrs : addr <$> mempool_entries k = addr <$> pool0;
  rw_present : forall p, p ∈ proc_info_htable k -> is_Some (mempool_entries k !! proc_mempool p);
  rw_own : forall p m, p ∈ proc_info_htable k -> exited p = false ->
    mempool_entries k !! proc_mempool p = Some m -> global_pid p ∈ mapped_pids m;
  rw_disjoint : forall p q, p ∈ proc_info_htable k -> q ∈ proc_info_htable k ->
    exited p = false -> exited q = false -> proc_mempool p = proc_mempool q -> p = q;
  rw_manager : forall p q, p ∈ proc_info_htable k -> q ∈ proc_info_htable k ->
    exited p = false -> exited q = false -> role p = PROCESS_ROLE_BRIDGE_MANAGER ->
    role q = PROCESS_ROLE_BRIDGE_MANAGER -> same_slot p q -> p = q;
  rw_daemon : forall p q, p ∈ proc_info_htable k -> q ∈ proc_info_htable k ->
    role p = PROCESS_ROLE_UNLINK_DAEMON -> role q = PROCESS_ROLE_UNLINK_DAEMON ->
    proc_ipc_ns p = proc_ipc_ns q -> p = q;
  rw_daemon_alive : forall p, p ∈ proc_info_htable k -> role p = PROCESS_ROLE_UNLINK_DAEMON ->
    exited p = false;
  rw_agents : NoDup ((fun a => (agent_ipc_ns a, agent_domain_id a)) <$> discovery_agent_htable k)
}.

(** ** Lemmas *)

Lemma existsb_false {A} (f : A -> bool) l : existsb f l = false <-> forall x, x ∈ l -> f x = false.
Proof.
  induction l as [|x l IH]; simpl; [set_solver|]. rw orb_false_iff IH. set_solver.
Qed.

(** A registry whose processes are some of the old ones, each possibly demoted or marked exited,
    with the pools at least still held by the processes alive. *)
Lemma registry_wf_weaken pool0 k procs' agents' pool' :
  registry_wf pool0 k -> pool_wf pool' -> addr <$> pool' = addr <$> mempool_entries k ->
  (global_pid <$> procs') `sublist_of` (global_pid <$> proc_info_htable k) ->
  (forall p', p' ∈ procs' -> exists p, p ∈ proc_info_htable k /\ global_pid p = global_pid p' /\
     proc_mempool p = proc_mempool p' /\ same_slot p p' /\
     (exited p' = false -> exited p = false) /\
     (role p' = role p /\ (role p = PROCESS_ROLE_UNLINK_DAEMON -> exited p' = exited p) \/
      role p' = PROCESS_ROLE_APPLICATION)) ->
  (forall p' m m', p' ∈ procs' -> exited p' = false -> mempool_entries k !! proc_mempool p' = Some m ->
     pool' !! proc_mempool p' = Some m' -> global_pid p' ∈ mapped_pids m ->
     global_pid p' ∈ mapped_pids m') ->
  NoDup ((fun a => (agent_ipc_ns a, agent_domain_id a)) <$> agents') ->
  registry_wf pool0 (Registry procs' agents' pool').
Proof.
  intros Hwf Hpool Haddr Hsub Hfrom Hown Hag. destruct Hwf.
  assert (NoDup (global_pid <$> procs')) as Hnd by exact (sublist_NoDup _ _ rw_pids0 Hsub).
  assert (forall p' q' p q, p' ∈ procs' -> q' ∈ procs' -> p = q ->
    global_pid p = global_pid p' -> global_pid q = global_pid q' -> p' = q') as Heq.
  { intros p' q' p q Hp' Hq' -> H1 H2. apply (NoDup_fmap_inj_on global_pid procs');
      [done|done|done|congruence]. }
  assert (forall i, is_Some (mempool_entries k !! i) -> is_Some (pool' !! i)) as Hlook.
  { intros i Hi. rw lookup_lt_is_Some. rw lookup_lt_is_Some in Hi.
    rw -(length_fmap addr pool') Haddr length_fmap. done. }
  split; simpl; try done.
  - congruence.
  - intros p' Hp'. destruct (Hfrom p' Hp') as (p & Hp & _ & <- & _). apply Hlook. auto.
  - intros p' m' Hp' He' Hm'. destruct (Hfrom p' Hp') as (p & Hp & Hg & Hi & _ & He & _).
    destruct (rw_present0 p Hp) as [m Hm]. rw Hi in Hm. eapply (Hown p' m m'); try done.
    rw -Hg. apply (rw_own0 p m); [done|auto|by rw Hi].
  - intros p' q' Hp' Hq' He1 He2 Hi. destruct (Hfrom p' Hp') as (p & Hp & Hg1 & Hi1 & _ & Hx1 & _).
    destruct (Hfrom q' Hq') as (q & Hq & Hg2 & Hi2 & _ & Hx2 & _).
    apply (Heq p' q' p q); try done. apply rw_disjoint0; auto. congruence.
  - intros p' q' Hp' Hq' He1 He2 Hr1 Hr2 [Hs1 Hs2].
    destruct (Hfrom p' Hp') as (p & Hp & Hg1 & _ & [Hp1 Hp2] & Hx1 & Hrp).
    destruct (Hfrom q' Hq') as (q & Hq & Hg2 & _ & [Hq1 Hq2] & Hx2 & Hrq).
    apply (Heq p' q' p q); try done. apply rw_manager0; auto.
    + destruct Hrp as [[? _]|?]; congruence.
    + destruct Hrq as [[? _]|?]; congruence.
    + split; congruence.
  - intros p' q' Hp' Hq' Hr1 Hr2 Hs.
    destruct (Hfrom p' Hp') as (p & Hp & Hg1 & _ & [Hp1 Hp2] & Hx1 & Hrp).
    destruct (Hfrom q' Hq') as (q & Hq & Hg2 & _ & [Hq1 Hq2] & Hx2 & Hrq).
    apply (Heq p' q' p q); try done. apply rw_daemon0; auto.
    + destruct Hrp as [[? _]|?]; congruence.
    + destruct Hrq as [[? _]|?]; congruence.
    + congruence.
  - intros p' Hp' Hr. destruct (Hfrom p' Hp') as (p & Hp & _ & _ & _ & _ & [[Hrr Hx]|?]); [|congruence].
    rw Hx; [|congruence]. apply rw_daemon_alive0; [done|congruence].
Qed.

(** The same for a set of processes that only loses members. *)
Lemma self_from (k : registry) procs' :
  procs' `sublist_of` proc_info_htable k ->
  forall p', p' ∈ procs' -> exists p, p ∈ proc_info_htable k /\ global_pid p = global_pid p' /\
     proc_mempool p = proc_mempool p' /\ same_slot p p' /\
     (exited p' = false -> exited p = false) /\
     (role p' = role p /\ (role p = PROCESS_ROLE_UNLINK_DAEMON -> exited p' = exited p) \/
      role p' = PROCESS_ROLE_APPLICATION).
Proof.
  intros Hs p Hp. exists p. split_and!; try done; [by eapply elem_of_sublist|]. auto.
Qed.

Section registry_facts.
Context `{KernelHash}.

Lemma demote_from (k : registry) this :
  forall p', p' ∈ hash_upd this demote (proc_info_htable k) ->
  exists p, p ∈ proc_info_htable k /\ global_pid p = global_pid p' /\
     proc_mempool p = proc_mempool p' /\ same_slot p p' /\
     (exited p' = false -> exited p = false) /\
     (role p' = role p /\ (role p = PROCESS_ROLE_UNLINK_DAEMON -> exited p' = exited p) \/
      role p' = PROCESS_ROLE_APPLICATION).
Proof.
  intros p' [Hp|(p & Hp & _ & ->)]%elem_of_hash_upd; [by apply (self_from k (proc_info_htable k))|].
  exists p. split_and!; try done. by right.
Qed.

Lemma registry_wf_demote pool0 procs agents pool pid :
  registry_wf pool0 (Registry procs agents pool) ->
  registry_wf pool0 (Registry (hash_upd (fun p => global_pid p =? pid) demote procs) agents pool).
Proof.
  intros Hwf. apply (registry_wf_weaken pool0 (Registry procs agents pool)); try apply Hwf; try done.
  - simpl. by rw fmap_hash_upd.
  - apply (demote_from (Registry procs agents pool)).
  - intros p' m m' _ _. simpl. congruence.
Qed.

Lemma free_memory_addr pool pid : addr <$> free_memory pool pid = addr <$> pool.
Proof.
  unfold free_memory. rw -list_fmap_compose. apply list_fmap_ext. intros i m _. apply free_entry_addr.
Qed.

Lemma free_memory_keeps pool pid q i m m' :
  pool_wf pool -> pool !! i = Some m -> free_memory pool pid !! i = Some m' -> q <> pid ->
  q ∈ mapped_pids m -> q ∈ mapped_pids m'.
Proof.
  intros Hwf Hm Hm' Hne Hq. unfold free_memory in Hm'. rw list_lookup_fmap Hm in Hm'.
  injection Hm' as <-. apply free_entry_mapped; [|done]. exact (Forall_lookup_1 _ _ _ _ Hwf Hm).
Qed.

Lemma remove_process_sublist procs pid : remove_process procs pid `sublist_of` procs.
Proof. apply hash_del_sublist. Qed.

Lemma remove_process_gone procs pid p :
  NoDup (global_pid <$> procs) -> p ∈ remove_process procs pid -> global_pid p <> pid.
Proof.
  intros Hd Hp Heq. unfold remove_process in Hp. subst pid.
  pose proof (elem_of_hash_del _ _ _ Hp) as Hin.
  pose proof (find_key_unique global_pid p _ Hd Hin) as Hf.
  assert (find (fun q => global_pid q =? global_pid p) procs = Some p) as Hf'.
  { rw -Hf. apply find_ext. intros q _. destruct (Z.eqb_spec (global_pid q) (global_pid p));
      [by rw bool_decide_true|by rw bool_decide_false]. }
  pose proof (hash_del_perm _ _ _ Hf') as Hperm. rw Hperm in Hd. csimpl in Hd.
  apply NoDup_cons in Hd as [Hno _]. apply Hno. by apply list_elem_of_fmap_2.
Qed.

(** Unregistering a process, with or without its memory. *)
Lemma registry_wf_remove pool0 procs agents pool pid :
  registry_wf pool0 (Registry procs agents pool) ->
  registry_wf pool0 (Registry (remove_process procs pid) agents pool).
Proof.
  intros Hwf. apply (registry_wf_weaken pool0 (Registry procs agents pool)); try apply Hwf; try done.
  - apply fmap_sublist, remove_process_sublist.
  - apply (self_from (Registry procs agents pool)), remove_process_sublist.
  - intros p' m m' _ _. simpl. congruence.
Qed.

Lemma registry_wf_free pool0 procs procs' agents agents' pool pid :
  registry_wf pool0 (Registry procs agents pool) ->
  (global_pid <$> procs') `sublist_of` (global_pid <$> procs) ->
  (forall p', p' ∈ procs' -> exists p, p ∈ procs /\ global_pid p = global_pid p' /\
     proc_mempool p = proc_mempool p' /\ same_slot p p' /\
     (exited p' = false -> exited p = false) /\
     (role p' = role p /\ (role p = PROCESS_ROLE_UNLINK_DAEMON -> exited p' = exited p) \/
      role p' = PROCESS_ROLE_APPLICATION)) ->
  (forall p', p' ∈ procs' -> exited p' = false -> global_pid p' <> pid) ->
  NoDup ((fun a => (agent_ipc_ns a, agent_domain_id a)) <$> agents') ->
  registry_wf pool0 (Registry procs' agents' (free_memory pool pid)).
Proof.
  intros Hwf Hsub Hfrom Hne Hag.
  apply (registry_wf_weaken pool0 (Registry procs agents pool)); try done.
  - apply free_memory_wf, Hwf.
  - apply free_memory_addr.
  - intros p' m m' Hp' He Hm Hm' Hin. eapply (free_memory_keeps pool pid); [apply Hwf|exact Hm|exact Hm'|by apply Hne|done].
Qed.

Lemma agents_sub agents pid :
  NoDup ((fun a => (agent_ipc_ns a, agent_domain_id a)) <$> agents) ->
  NoDup ((fun a => (agent_ipc_ns a, agent_domain_id a)) <$>
    agnocast_remove_discovery_agent_by_pid agents pid).
Proof. apply NoDup_fmap_hash_del. Qed.

Lemma registry_wf_agents pool0 procs agents agents' pool :
  registry_wf pool0 (Registry procs agents pool) ->
  NoDup ((fun a => (agent_ipc_ns a, agent_domain_id a)) <$> agents') ->
  registry_wf pool0 (Registry procs agents' pool).
Proof. intros [] Hag. by split. Qed.

Lemma find_discovery_agent_None agents ns d :
  agnocast_find_discovery_agent agents ns d = None ->
  (ns, d) ∉ (fun a => (agent_ipc_ns a, agent_domain_id a)) <$> agents.
Proof.
  intros Hn (a & [= -> ->] & Ha)%list_elem_of_fmap.
  pose proof (find_None_inv _ _ _ Hn Ha) as Hf. simpl in Hf. by rw !Z.eqb_refl in Hf.
Qed.

Lemma exit_registered_wf pool0 procs agents pool pid procs' pool' :
  registry_wf pool0 (Registry procs agents pool) ->
  exit_registered procs pool pid = Some (procs', pool') ->
  registry_wf pool0 (Registry procs' (agnocast_remove_discovery_agent_by_pid agents pid) pool').
Proof.
  intros Hwf Hrun. unfold exit_registered in Hrun.
  destruct (agnocast_find_process_info procs pid) as [p|] eqn:Hf; [|done].
  injection Hrun as <- <-.
  pose proof (rw_pids _ _ Hwf) as Hnd. simpl in Hnd.
  case_bool_decide as Hr.
  - eapply registry_wf_free; [done| | | |by apply agents_sub, Hwf].
    + apply fmap_sublist, remove_process_sublist.
    + apply (self_from (Registry procs agents pool)), remove_process_sublist.
    + intros p' Hp' _. by eapply remove_process_gone.
  - eapply registry_wf_free; [done| | | |by apply agents_sub, Hwf].
    + by rw fmap_hash_upd.
    + intros p' Hp'. rw hash_upd_key // in Hp'. apply list_elem_of_fmap in Hp' as (q & -> & Hq).
      exists q. destruct (Z.eqb_spec (global_pid q) pid) as [Heq|]; simpl;
        (split_and!; [done..|left; split; [done|]]); [|done].
      intros Hd. exfalso. apply Hr. rw agnocast_find_process_info_eq in Hf.
      apply find_Some_inv in Hf as [Hp Hpid%Z.eqb_eq].
      assert (p = q) as ->; [|done]. apply (NoDup_fmap_inj_on global_pid procs); congruence.
    + intros p' Hp' He. rw hash_upd_key // in Hp'. apply list_elem_of_fmap in Hp' as (q & -> & Hq).
      by destruct (Z.eqb_spec (global_pid q) pid).
Qed.

(** What a successful registration did. *)
Lemma add_process_cases e procs agents pool size pid ns role_arg domain procs' pool' r :
  agnocast_ioctl_add_process e procs agents pool size pid ns role_arg domain = (procs', pool', r) ->
  (exists rl i m, process_role_of role_arg = Some rl /\
     agnocast_find_process_info procs pid = None /\
     (rl = PROCESS_ROLE_BRIDGE_MANAGER -> has_alive_bridge_manager procs ns domain = false) /\
     (rl = PROCESS_ROLE_UNLINK_DAEMON -> has_alive_unlink_daemon procs ns = false) /\
     (rl <> PROCESS_ROLE_UNLINK_DAEMON -> domain <> AGNOCAST_DOMAIN_ID_NONE) /\
     assign_memory (skip 1 (kmalloc_ok e)) pool pid = (Some i, pool') /\ pool' !! i = Some m /\
     procs' = hash_add proc_bucket (ProcessInfo false rl pid (convert_pid_to_local e pid) i ns
       (if bool_decide (rl = PROCESS_ROLE_UNLINK_DAEMON) then AGNOCAST_DOMAIN_ID_NONE else domain))
       procs /\
     r = Ok (AddProcessRet (has_alive_unlink_daemon procs ns)
       (has_alive_bridge_manager procs ns domain)
       (bool_decide (is_Some (agnocast_find_discovery_agent agents ns domain)))
       (Some (addr m, size)))) \/
  (procs' = procs /\ (pool' = pool \/ assign_memory (skip 1 (kmalloc_ok e)) pool pid = (None, pool') \/
     exists i, assign_memory (skip 1 (kmalloc_ok e)) pool pid = (Some i, pool') /\ pool' !! i = None) /\
   match r with
   | Ok ret => ret_mempool ret = None /\
       (ret_unlink_daemon_exist ret || ret_bridge_daemon_exist ret = true)
   | Err err => err = EINVAL \/ err = ENOMEM
   | Oops => exists i, assign_memory (skip 1 (kmalloc_ok e)) pool pid = (Some i, pool') /\
       pool' !! i = None
   end).
Proof.
  unfold agnocast_ioctl_add_process. destruct (process_role_of role_arg) as [rl|] eqn:Hrl.
  2: { intros [= <- <- <-]. right. auto. }
  destruct (negb (bool_decide (rl = PROCESS_ROLE_UNLINK_DAEMON)) && (domain =? AGNOCAST_DOMAIN_ID_NONE))
    eqn:Hdom; simpl.
  { intros [= <- <- <-]. right. auto. }
  destruct (agnocast_find_process_info procs pid) as [|] eqn:Hf.
  { intros [= <- <- <-]. right. auto. }
  destruct (bool_decide (rl = PROCESS_ROLE_BRIDGE_MANAGER) && has_alive_bridge_manager procs ns domain)
    eqn:Hm; simpl.
  { intros [= <- <- <-]. right. split_and!; [done|auto|done|]. bool_to_prop. simpl.
    destruct (has_alive_unlink_daemon procs ns); simpl; congruence. }
  destruct (bool_decide (rl = PROCESS_ROLE_UNLINK_DAEMON) && has_alive_unlink_daemon procs ns)
    eqn:Hd; simpl.
  { intros [= <- <- <-]. right. split_and!; [done|auto|done|]. bool_to_prop. simpl.
    by destruct (has_alive_unlink_daemon procs ns). }
  destruct (kmalloc_ok e 0%nat); [|intros [= <- <- <-]; right; auto].
  destruct (assign_memory _ pool pid) as [[i|] pool1] eqn:Ha.
  2: { intros [= <- <- <-]. right. auto. }
  destruct (pool1 !! i) as [m|] eqn:Hi.
  2: { intros [= <- <- <-]. right. split_and!; [done|right; right; eauto|eauto]. }
  intros [= <- <- <-]. left. exists rl, i, m. split_and!; try done.
  - intros ->. by rw bool_decide_true in Hm.
  - intros ->. by rw bool_decide_true in Hd.
  - intros Hne. rw bool_decide_false // in Hdom. simpl in Hdom. by apply Z.eqb_neq.
Qed.

Lemma add_process_silent e procs agents pool size pid ns role_arg domain procs' pool' r ud bm agent :
  agnocast_ioctl_add_process e procs agents pool size pid ns role_arg domain = (procs', pool', r) ->
  r = Ok (AddProcessRet ud bm agent None) ->
  process_role_of role_arg = Some PROCESS_ROLE_BRIDGE_MANAGER /\ bm = true \/
  process_role_of role_arg = Some PROCESS_ROLE_UNLINK_DAEMON /\ ud = true.
Proof.
  unfold agnocast_ioctl_add_process. intros Hrun ->.
  destruct (process_role_of role_arg) as [rl|]; [|done].
  destruct (negb (negb _ && _)); [|done].
  destruct (agnocast_find_process_info procs pid); [done|].
  destruct (bool_decide (rl = PROCESS_ROLE_BRIDGE_MANAGER) && _) eqn:Hm; simpl in Hrun.
  { injection Hrun as _ _ <- <- _. bool_to_prop. left. by subst. }
  destruct (bool_decide (rl = PROCESS_ROLE_UNLINK_DAEMON) && _) eqn:Hd; simpl in Hrun.
  { injection Hrun as _ _ <- <- _. bool_to_prop. right. by subst. }
  destruct (kmalloc_ok e 0%nat); [|done].
  destruct (assign_memory _ pool pid) as [[i|] pool1]; [|done].
  by destruct (pool1 !! i).
Qed.

Lemma assign_memory_addr al pool pid r pool' :
  assign_memory al pool pid = (r, pool') -> addr <$> pool' = addr <$> pool.
Proof.
  unfold assign_memory. destruct (al 0%nat); [|by intros [= <- <-]].
  intros Hs%assign_loop_spec. destruct r as [i|]; [|by destruct Hs as [-> _]].
  destruct Hs as (k & m & -> & Hk & _ & _ & ->). rw list_fmap_insert. simpl.
  apply list_insert_id. by rw list_lookup_fmap Hk.
Qed.

(** A pool is only assigned when nobody maps it, so no live process loses its own. *)
Lemma assign_memory_keeps al pool pid r pool' i m m' q :
  pool_wf pool -> assign_memory al pool pid = (r, pool') ->
  pool !! i = Some m -> pool' !! i = Some m' -> q ∈ mapped_pids m ->
  q ∈ mapped_pids m' /\ r <> Some i.
Proof.
  intros Hwf Ha Hm Hm' Hq. pose proof (assign_memory_inv _ _ _ _ _ Hwf Ha) as Hinv.
  destruct r as [j|].
  - destruct Hinv as (mj & Hj & Hnil & Hj' & Hother & _).
    assert (j <> i) as Hne by (intros ->; rw Hm in Hj; injection Hj as ->; rw Hnil in Hq; set_solver).
    split; [|congruence]. rw Hother in Hm'; [|done]. congruence.
  - destruct Hinv as [-> _]. split; [congruence|done].
Qed.

Lemma add_process_wf pool0 e procs agents pool size pid ns role_arg domain procs' pool' r :
  registry_wf pool0 (Registry procs agents pool) -> valid_pid pid ->
  agnocast_ioctl_add_process e procs agents pool size pid ns role_arg domain = (procs', pool', r) ->
  registry_wf pool0 (Registry procs' agents pool').
Proof.
  intros Hwf Hv Hrun. pose proof (rw_pool _ _ Hwf) as Hpool. simpl in Hpool.
  assert (forall r0, assign_memory (skip 1 (kmalloc_ok e)) pool pid = (r0, pool') ->
    registry_wf pool0 (Registry procs agents pool')) as Hassign.
  { intros r0 Ha. apply (registry_wf_weaken pool0 (Registry procs agents pool)); try apply Hwf; try done.
    - by eapply assign_memory_wf.
    - by eapply assign_memory_addr.
    - by apply (self_from (Registry procs agents pool)).
    - intros p' m m' _ _ Hm Hm' Hq. by eapply assign_memory_keeps. }
  apply add_process_cases in Hrun as [(rl & i & m & Hrl & Hf & Hbm & Hud & Hdom & Ha & Hm & -> & _)
    |(-> & [->|[Ha|(i & Ha & _)]] & _)]; [|done|by eapply Hassign|by eapply Hassign].
  pose proof (Hassign _ Ha) as Hwf1. clear Hassign. set (pnew := ProcessInfo _ _ _ _ _ _ _).
  pose proof (assign_memory_inv _ _ _ _ _ Hpool Ha) as (mi & Hi & Hnil & Hi' & _ & _).
  assert (forall q, q ∈ procs -> exited q = false -> proc_mempool q <> i) as Hfree.
  { intros q Hq He Heq. rw -Heq in Hi. pose proof (rw_own _ _ Hwf q mi Hq He Hi) as Hin.
    rw Hnil in Hin. set_solver. }
  assert (forall q, q ∈ procs -> global_pid q <> pid) as Hfresh.
  { intros q Hq Heq. rw agnocast_find_process_info_eq in Hf.
    pose proof (find_None_inv _ _ _ Hf Hq) as Hn. simpl in Hn. by rw Heq Z.eqb_refl in Hn. }
  assert (forall q, q ∈ procs -> exited q = false -> rl = PROCESS_ROLE_BRIDGE_MANAGER ->
    role q = PROCESS_ROLE_BRIDGE_MANAGER -> same_slot q pnew -> False) as Hnobm.
  { intros q Hq He -> Hr [Hs1 Hs2]. simpl in Hs1, Hs2. specialize (Hbm eq_refl).
    rw existsb_false in Hbm. specialize (Hbm q Hq). simpl in Hbm.
    rw Hs1 Hs2 !Z.eqb_refl Hr He in Hbm. done. }
  assert (forall q, q ∈ procs -> rl = PROCESS_ROLE_UNLINK_DAEMON ->
    role q = PROCESS_ROLE_UNLINK_DAEMON -> proc_ipc_ns q = ns -> False) as Hnoud.
  { intros q Hq -> Hr Hs. specialize (Hud eq_refl). rw existsb_false in Hud.
    specialize (Hud q Hq). simpl in Hud. by rw Hs !Z.eqb_refl Hr in Hud. }
  destruct Hwf1. split; simpl in *; try done.
  - apply NoDup_fmap_hash_add; [done|]. intros (q & Heq & Hq)%list_elem_of_fmap. by eapply Hfresh.
  - intros p [->|Hp]%elem_of_hash_add; [by eexists|auto].
  - intros p m0 [->|Hp]%elem_of_hash_add He Hm0; [|by eapply rw_own0].
    simpl in *. rw Hi' in Hm0. injection Hm0 as <-. simpl. set_solver.
  - intros p q [->|Hp]%elem_of_hash_add [->|Hq]%elem_of_hash_add He1 He2 Heq; try done.
    + exfalso. by apply (Hfree q).
    + exfalso. by apply (Hfree p).
    + by apply rw_disjoint0.
  - intros p q [->|Hp]%elem_of_hash_add [->|Hq]%elem_of_hash_add He1 He2 Hr1 Hr2 Hs; try done.
    + exfalso. destruct Hs. by apply (Hnobm q).
    + exfalso. by apply (Hnobm p).
    + by apply rw_manager0.
  - intros p q [->|Hp]%elem_of_hash_add [->|Hq]%elem_of_hash_add Hr1 Hr2 Hs; try done.
    + exfalso. by apply (Hnoud q).
    + exfalso. by apply (Hnoud p).
    + by apply rw_daemon0.
  - intros p [->|Hp]%elem_of_hash_add Hr; [done|by apply rw_daemon_alive0].
Qed.

Lemma reference_memory_addr al pool i pid pool' r :
  reference_memory al pool i pid = (pool', r) -> addr <$> pool' = addr <$> pool.
Proof.
  unfold reference_memory. destruct (al 0%nat); [|by intros [= <- _]].
  destruct (pool !! i) as [m|] eqn:Hm; [|by intros [= <- _]].
  case_bool_decide; simpl; intros [= <- _]; [done|]. rw list_fmap_insert. simpl.
  apply list_insert_id. by rw list_lookup_fmap Hm.
Qed.

Lemma reference_memory_keeps al pool i pid pool' r j m m' q :
  reference_memory al pool i pid = (pool', r) -> pool !! j = Some m -> pool' !! j = Some m' ->
  q ∈ mapped_pids m -> q ∈ mapped_pids m'.
Proof.
  unfold reference_memory. destruct (al 0%nat); [|by intros [= <- _] -> [= <-]].
  destruct (pool !! i) as [mi|] eqn:Hi; [|by intros [= <- _] -> [= <-]].
  case_bool_decide; simpl; intros [= <- _] Hj; [by rw Hj; intros [= <-]|].
  destruct (decide (i = j)) as [<-|Hne].
  - rw list_lookup_insert_eq; [|by eapply lookup_lt_Some]. intros [= <-] Hq. simpl.
    rw Hi in Hj. injection Hj as <-. set_solver.
  - rw list_lookup_insert_ne // Hj. by intros [= <-].
Qed.

Lemma registry_call_wf pool0 k k' : registry_wf pool0 k -> registry_call k k' -> registry_wf pool0 k'.
Proof.
  intros Hwf Hstep. destruct Hstep as [? ? ? ? ? ? ? ? ? ? ? ? ? Hrun|? ? ? ? ? ? ? ? ? Hrun| | | |].
  - by eapply add_process_wf.
  - revert Hrun. unfold agnocast_commit_exit_process.
    assert (registry_wf pool0 (Registry (if 0 <=? pid then remove_process procs pid else procs)
      agents pool)) as Hwf1 by (case_match; [by apply registry_wf_remove|done]).
    set (procs1 := if 0 <=? pid then _ else _) in *.
    destruct (_ && _ && _); [|by intros [= <- <- <-]].
    destruct (agnocast_find_process_info procs1 caller) as [c|]; [|by intros [= <- <- <-]].
    case_bool_decide; intros [= <- <- <-]; [|done].
    eapply registry_wf_free; [done| | | |apply Hwf].
    + apply fmap_sublist, remove_process_sublist.
    + apply (self_from (Registry procs1 agents pool)), remove_process_sublist.
    + intros p' Hp' _. eapply remove_process_gone; [|done]. apply Hwf1.
  - by apply registry_wf_demote.
  - unfold agnocast_ioctl_check_and_request_bridge_shutdown. case_match; [|done].
    by apply registry_wf_demote.
  - eapply registry_wf_agents; [done|]. unfold agnocast_ioctl_discovery_agent_should_exit.
    repeat case_match; try apply Hwf. by apply agents_sub, Hwf.
  - eapply registry_wf_agents; [done|]. unfold agnocast_ioctl_add_discovery_agent.
    destruct (agnocast_find_discovery_agent agents ns domain) eqn:Hf; [apply Hwf|].
    destruct (al 0%nat); [|apply Hwf]. apply NoDup_fmap_hash_add; [apply Hwf|].
    by apply find_discovery_agent_None.
Qed.

(** Replacing the pools by ones where every process still holds what it held. *)
Lemma registry_wf_pool pool0 procs agents pool pool' :
  registry_wf pool0 (Registry procs agents pool) -> pool_wf pool' ->
  addr <$> pool' = addr <$> pool ->
  (forall i m m' q, pool !! i = Some m -> pool' !! i = Some m' -> q ∈ mapped_pids m ->
     q ∈ mapped_pids m') ->
  registry_wf pool0 (Registry procs agents pool').
Proof.
  intros Hwf Hp Ha Hk. apply (registry_wf_weaken pool0 (Registry procs agents pool));
    try apply Hwf; try done.
  - by apply (self_from (Registry procs agents pool)).
  - intros p' m m' _ _ Hm Hm' Hq. by eapply Hk.
Qed.

Lemma registry_step_wf pool0 k k' : registry_wf pool0 k -> registry_step k k' -> registry_wf pool0 k'.
Proof.
  intros Hwf Hstep. destruct Hstep.
  - by eapply registry_call_wf.
  - by eapply exit_registered_wf.
  - eapply registry_wf_agents; [done|]. by apply agents_sub, Hwf.
  - destruct (reference_memory al pool i pid) as [pool' r] eqn:Hr. simpl.
    eapply registry_wf_pool; [done| | |].
    + eapply reference_memory_wf; [apply Hwf|done|done].
    + by eapply reference_memory_addr.
    + intros j m m' q. by eapply reference_memory_keeps.
Qed.

Lemma registry_reachable_wf pool0 k :
  pool_wf pool0 -> registry_reachable pool0 k -> registry_wf pool0 k.
Proof.
  intros Hp Hr. induction Hr as [|k k' _ IH Hs]; [|by eapply registry_step_wf].
  split; simpl; try done; try set_solver; constructor.
Qed.
End registry_facts.

(** ** Handing exited processes over to the unlink daemon *)

(** GET_EXIT_PROCESS called until it returns no pid, as the daemon does; [fuel] bounds the calls.
    Returns the local pids handed over and whether the final, idle call told the daemon to exit. *)
Fixpoint drain_exited `{KernelHash} (fuel : nat) (procs : list process_info)
    (pool : list mempool_entry) (ipc_ns caller_pid : Z)
    : option (list Z * bool * list process_info * list mempool_entry) :=
  match fuel with
  | O => None
  | S fuel =>
      let '(global, local) := agnocast_ioctl_get_exit_process procs ipc_ns in
      let '(procs, pool, should_exit) :=
        agnocast_commit_exit_process procs pool ipc_ns global caller_pid in
      if global <? 0 then Some ([], should_exit, procs, pool)
      else match drain_exited fuel procs pool ipc_ns caller_pid with
           | Some (locals, b, procs, pool) => Some (local :: locals, b, procs, pool)
           | None => None
           end
  end.

Definition is_exited_in (ipc_ns : Z) (p : process_info) : Prop :=
  proc_ipc_ns p = ipc_ns /\ exited p = true.

#[export] Instance is_exited_in_dec ns p : Decision (is_exited_in ns p).
Proof. unfold is_exited_in. apply _. Defined.

Section drain.
Context `{KernelHash}.

Lemma drain_exited_S n procs pool ns caller :
  drain_exited (S n) procs pool ns caller =
    let '(global, local) := agnocast_ioctl_get_exit_process procs ns in
    let '(procs, pool, should_exit) :=
      agnocast_commit_exit_process procs pool ns global caller in
    if global <? 0 then Some ([], should_exit, procs, pool)
    else match drain_exited n procs pool ns caller with
         | Some (locals, b, procs, pool) => Some (local :: locals, b, procs, pool)
         | None => None
         end.
Proof. done. Qed.

Lemma get_exit_process_spec procs ns :
  Forall (fun p => 0 <= global_pid p) procs ->
  match filter (is_exited_in ns) procs with
  | [] => agnocast_ioctl_get_exit_process procs ns = (-1, -1)
  | p :: _ => agnocast_ioctl_get_exit_process procs ns = (global_pid p, local_pid p) /\ 0 <= global_pid p
  end.
Proof.
  unfold agnocast_ioctl_get_exit_process. induction procs as [|p procs IH]; intros Hpos; [done|].
  apply Forall_cons in Hpos as [Hp Hpos]. rw filter_cons. simpl.
  destruct (Z.eqb_spec (proc_ipc_ns p) ns) as [Heq|Hne]; simpl; [destruct (exited p) eqn:He|].
  - by rw decide_True.
  - rw decide_False; [by apply IH|]. intros [_ ?]. congruence.
  - rw decide_False; [by apply IH|]. by intros [? _].
Qed.

Lemma remove_first_exited procs ns p rest :
  NoDup (global_pid <$> procs) -> filter (is_exited_in ns) procs = p :: rest ->
  filter (is_exited_in ns) (remove_process procs (global_pid p)) = rest /\
  filter (fun q => ~ is_exited_in ns q) (remove_process procs (global_pid p)) =
  filter (fun q => ~ is_exited_in ns q) procs.
Proof.
  unfold remove_process. revert rest. induction procs as [|q procs IH]; intros rest Hd Hf; [done|].
  csimpl in Hd. apply NoDup_cons in Hd as [Hq Hd]. simpl.
  rw filter_cons in Hf. case_decide as Hx.
  - injection Hf as -> <-. rw Z.eqb_refl. split; [done|]. rw filter_cons_False; [done|tauto].
  - assert (p ∈ procs) as Hp.
    { assert (p ∈ filter (is_exited_in ns) procs) as Hin by (rw Hf; set_solver).
      by apply list_elem_of_filter in Hin as [_ ?]. }
    destruct (Z.eqb_spec (global_pid q) (global_pid p)) as [Heq|Hne].
    { exfalso. apply Hq. rw Heq. by apply list_elem_of_fmap_2. }
    destruct (IH rest Hd Hf) as [H1 H2]. rw filter_cons_False //. split; [done|].
    rw !filter_cons_True //. by rw H2.
Qed.

Lemma filter_all_not_exited procs ns :
  filter (is_exited_in ns) procs = [] -> filter (fun q => ~ is_exited_in ns q) procs = procs.
Proof.
  intros Hf. apply list_filter_all. intros q Hq Hx.
  assert (q ∈ filter (is_exited_in ns) procs) as Hin by (by apply list_elem_of_filter).
  rw Hf in Hin. set_solver.
Qed.

(** ** Properties *)

(** C15. Processes never share memory: from the pools [init_memory_allocator] sets up, through any
    sequence of registrations, exits, exit hand-overs, shutdown requests and mappings, two
    distinct processes alive have disjoint address ranges, and each still holds its own pool. *)
Theorem live_processes_have_disjoint_pools pr al size pool0 k p q mp mq :
  0 <= mempool_start_addr pr < 2 ^ 64 -> mempool_num pr < 2 ^ 31 -> mempool_size_gb pr < 2 ^ 31 ->
  init_memory_allocator pr al = Ok (size, pool0) -> registry_reachable pool0 k ->
  p ∈ proc_info_htable k -> q ∈ proc_info_htable k -> exited p = false -> exited q = false ->
  p <> q -> mempool_entries k !! proc_mempool p = Some mp ->
  mempool_entries k !! proc_mempool q = Some mq ->
  disjoint_ranges size (addr mp) (addr mq) /\ global_pid p ∈ mapped_pids mp /\ mapped_num mp <> 0.
Proof.
  intros Hs Hn Hg Hinit Hr Hp Hq He1 He2 Hne Hmp Hmq.
  pose proof (init_memory_allocator_spec _ _ _ _ Hs Hn Hg Hinit) as ((Hsz & Hpos & Hend) & Hlen & Hlay).
  assert (pool_wf pool0) as Hpw.
  { apply Forall_forall. intros m [i Hi]%list_elem_of_lookup. destruct (Hlay i m Hi) as (-> & _).
    split; simpl; [done|constructor|constructor]. }
  pose proof (registry_reachable_wf _ _ Hpw Hr) as Hwf.
  assert (forall i m, mempool_entries k !! i = Some m ->
    addr m = mempool_start_addr pr + Z.of_nat i * size) as Haddr.
  { intros i m Hm. pose proof (rw_addrs _ _ Hwf) as Ha.
    assert ((addr <$> pool0) !! i = Some (addr m)) as Hx by (rw -Ha list_lookup_fmap; by rw Hm).
    rw list_lookup_fmap in Hx. destruct (pool0 !! i) as [m0|] eqn:Hi; [|done].
    injection Hx as <-. by destruct (Hlay i m0 Hi) as [-> _]. }
  split_and!.
  - rw (Haddr _ _ Hmp) (Haddr _ _ Hmq). unfold disjoint_ranges.
    assert (proc_mempool p <> proc_mempool q) as Hi.
    { intros Heq. apply Hne. by apply (rw_disjoint _ _ Hwf). }
    destruct (Nat.lt_gt_cases (proc_mempool p) (proc_mempool q)) as [[?|?] _]; [done|left|right]; nia.
  - by eapply (rw_own _ _ Hwf).
  - pose proof (rw_own _ _ Hwf p mp Hp He1 Hmp) as Hin.
    pose proof (Forall_lookup_1 _ _ _ _ (rw_pool _ _ Hwf) Hmp) as [-> _ _].
    destruct (mapped_pids mp); [set_solver|simpl; lia].
Qed.

(** The singletons are single: in every reachable registry there is at most one live bridge
    manager per (IPC namespace, domain), at most one unlink daemon per namespace, at most one
    discovery agent per (namespace, domain), and no pid is registered twice. *)
Theorem singletons_are_single pool0 k :
  pool_wf pool0 -> registry_reachable pool0 k ->
  NoDup (global_pid <$> proc_info_htable k) /\
  (forall p q, p ∈ proc_info_htable k -> q ∈ proc_info_htable k ->
     exited p = false -> exited q = false -> role p = PROCESS_ROLE_BRIDGE_MANAGER ->
     role q = PROCESS_ROLE_BRIDGE_MANAGER -> proc_ipc_ns p = proc_ipc_ns q ->
     proc_domain_id p = proc_domain_id q -> p = q) /\
  (forall p q, p ∈ proc_info_htable k -> q ∈ proc_info_htable k ->
     role p = PROCESS_ROLE_UNLINK_DAEMON -> role q = PROCESS_ROLE_UNLINK_DAEMON ->
     proc_ipc_ns p = proc_ipc_ns q -> p = q) /\
  NoDup ((fun a => (agent_ipc_ns a, agent_domain_id a)) <$> discovery_agent_htable k).
Proof.
  intros Hp Hr. destruct (registry_reachable_wf _ _ Hp Hr). split_and!; try done.
  intros p q H1 H2 H3 H4 H5 H6 H7 H8. by apply rw_manager0.
Qed.

(** ADD_PROCESS, outcome by outcome: it succeeds with a fresh entry and the pool it was
    assigned; or succeeds without registering, only for a second bridge manager or unlink daemon,
    telling the caller which exists; or fails with EINVAL or ENOMEM and registers nothing. *)
Theorem add_process_outcomes pool0 e procs agents pool size pid ns role_arg domain procs' pool' r :
  registry_wf pool0 (Registry procs agents pool) -> valid_pid pid ->
  agnocast_ioctl_add_process e procs agents pool size pid ns role_arg domain = (procs', pool', r) ->
  registry_wf pool0 (Registry procs' agents pool') /\
  match r with
  | Ok (AddProcessRet ud bm agent (Some (a, sz))) =>
      exists p m, agnocast_find_process_info procs' pid = Some p /\ exited p = false /\
        proc_ipc_ns p = ns /\ process_role_of role_arg = Some (role p) /\
        pool' !! proc_mempool p = Some m /\ addr m = a /\ sz = size /\ mapped_pids m = [pid] /\
        procs' ≡ₚ p :: procs
  | Ok (AddProcessRet ud bm agent None) => procs' = procs /\
      (process_role_of role_arg = Some PROCESS_ROLE_BRIDGE_MANAGER /\ bm = true \/
       process_role_of role_arg = Some PROCESS_ROLE_UNLINK_DAEMON /\ ud = true)
  | Err err => procs' = procs /\ (err = EINVAL \/ err = ENOMEM)
  | Oops => False
  end.
Proof.
  intros Hwf Hv Hrun. pose proof (add_process_wf _ _ _ _ _ _ _ _ _ _ _ _ _ Hwf Hv Hrun) as Hwf'.
  split; [done|]. pose proof (rw_pool _ _ Hwf) as Hpool. simpl in Hpool.
  pose proof (fun ud bm agent => add_process_silent _ _ _ _ _ _ _ _ _ _ _ _ ud bm agent Hrun)
    as Hsilent.
  apply add_process_cases in Hrun as [(rl & i & m & Hrl & Hf & Hbm & Hud & Hdom & Ha & Hm & -> & ->)
    |(-> & _ & Hr)].
  - pose proof (assign_memory_inv _ _ _ _ _ Hpool Ha) as (m0 & _ & _ & Hi' & _ & _).
    rw Hm in Hi'. injection Hi' as ->. set (p := ProcessInfo _ _ _ _ _ _ _) in *.
    exists p, (MempoolEntry (addr m0) 1 [pid]). split_and!; [|done..|apply hash_add_perm].
    rw agnocast_find_process_info_eq. pose proof (rw_pids _ _ Hwf') as Hnd. simpl in Hnd.
    rw -(find_key_unique global_pid p _ Hnd); [|apply elem_of_hash_add; by left].
    apply find_ext. intros q _. simpl. destruct (Z.eqb_spec (global_pid q) pid);
      [by rw bool_decide_true|by rw bool_decide_false].
  - destruct r as [[ud bm agent [[a sz]|]]|err|].
    + by destruct Hr.
    + split; [done|]. by apply (Hsilent ud bm agent).
    + by split.
    + destruct Hr as (i & Ha & Hi). apply (assign_memory_inv _ _ _ _ _ Hpool) in Ha as (m0 & _ & _ & Hi' & _).
      congruence.
Qed.

(** The exit hand-over loses no process: calling GET_EXIT_PROCESS until it returns no pid
    terminates after one call per exited process of the namespace plus an idle one, hands over
    exactly those processes, each once, leaves every other process registered (but the daemon
    itself, if it is told to exit), and tells the daemon to exit exactly when no process but
    daemons is left. *)
Theorem drain_exited_complete procs pool ns caller :
  NoDup (global_pid <$> procs) -> Forall (fun p => 0 <= global_pid p) procs ->
  exists b procs' pool',
    drain_exited (S (length (filter (is_exited_in ns) procs))) procs pool ns caller =
      Some (local_pid <$> filter (is_exited_in ns) procs, b, procs', pool') /\
    b = (get_process_num_except_unlink_daemon (filter (fun p => ~ is_exited_in ns p) procs) ns =? 0) /\
    (procs' = filter (fun p => ~ is_exited_in ns p) procs \/
     b = true /\ procs' = remove_process (filter (fun p => ~ is_exited_in ns p) procs) caller).
Proof.
  revert procs pool. assert (forall l procs pool, filter (is_exited_in ns) procs = l ->
    NoDup (global_pid <$> procs) -> Forall (fun p => 0 <= global_pid p) procs ->
    exists b procs' pool', drain_exited (S (length l)) procs pool ns caller =
      Some (local_pid <$> l, b, procs', pool') /\
    b = (get_process_num_except_unlink_daemon (filter (fun p => ~ is_exited_in ns p) procs) ns =? 0) /\
    (procs' = filter (fun p => ~ is_exited_in ns p) procs \/
     b = true /\ procs' = remove_process (filter (fun p => ~ is_exited_in ns p) procs) caller))
    as Hgen; [|eauto].
  induction l as [|p l IH]; intros procs pool Hf Hd Hpos; pose proof (get_exit_process_spec procs ns Hpos)
    as Hg; rw Hf in Hg; rw drain_exited_S.
  - rw Hg. rw (filter_all_not_exited _ _ Hf). unfold agnocast_commit_exit_process. simpl.
    destruct (_ =? 0) eqn:Hz; simpl; [|by repeat eexists; auto].
    destruct (0 <=? caller); [|by repeat eexists; auto].
    destruct (agnocast_find_process_info procs caller) as [c|]; [|by repeat eexists; auto].
    case_bool_decide; repeat eexists; auto.
  - destruct Hg as [-> Hp]. destruct (remove_first_exited _ _ _ _ Hd Hf) as [H1 H2].
    unfold agnocast_commit_exit_process. rw (proj2 (Z.leb_le _ _) Hp).
    destruct (Z.ltb_spec (global_pid p) 0); [lia|]. rw andb_false_r. simpl andb. cbv iota.
    destruct (IH (remove_process procs (global_pid p)) pool H1) as (b & procs' & pool' & Hrun & Hb & Hps).
    + eapply sublist_NoDup; [exact Hd|]. apply fmap_sublist, remove_process_sublist.
    + apply Forall_forall. rw Forall_forall in Hpos. intros q Hq. apply Hpos.
      by eapply elem_of_sublist, remove_process_sublist.
    + change (length (p :: l)) with (S (length l)). rw Hrun. exists b, procs', pool'.
      rw H2 in Hb. rw H2 in Hps. done.
Qed.
End drain.

(** ** Lemmas: agents and bridges *)

Section agents_bridges.
Context `{KernelHash}.

Lemma alive_num_zero procs ns d :
  get_alive_process_num_in_domain_except_unlink_daemon procs ns d = 0 <->
  forall p, p ∈ procs -> proc_ipc_ns p = ns -> proc_domain_id p = d -> exited p = false ->
    role p = PROCESS_ROLE_UNLINK_DAEMON.
Proof.
  unfold get_alive_process_num_in_domain_except_unlink_daemon.
  induction procs as [|p procs IH]; [split; [set_solver|done]|]. rw filter_cons. case_decide as Hc.
  - split; [simpl; lia|]. intros Hall. destruct Hc as (-> & Hd & He & Hr). exfalso. apply Hr.
    apply (Hall p); [set_solver|done|done|done].
  - rw IH. split.
    + intros Hall q [->|Hq]%elem_of_cons H1 H2 H3; [|by apply Hall].
      destruct (decide (role p = PROCESS_ROLE_UNLINK_DAEMON)); [done|]. exfalso. apply Hc. done.
    + intros Hall q Hq. apply Hall. set_solver.
Qed.

Lemma find_agent_removed agents pid ns d :
  NoDup ((fun a => (agent_ipc_ns a, agent_domain_id a)) <$> agents) ->
  (forall a, a ∈ agents -> agent_pid a = pid -> agent_ipc_ns a = ns /\ agent_domain_id a = d) ->
  (forall a, a ∈ agents -> agent_ipc_ns a = ns -> agent_domain_id a = d -> agent_pid a = pid) ->
  agnocast_find_discovery_agent (agnocast_remove_discovery_agent_by_pid agents pid) ns d = None.
Proof.
  intros Hd Hslot Hown. unfold agnocast_find_discovery_agent, agnocast_remove_discovery_agent_by_pid.
  destruct (find _ (hash_del _ agents)) as [a|] eqn:Hf; [|done]. exfalso.
  apply find_Some_inv in Hf as [Ha Hk]. bool_to_prop.
  pose proof (elem_of_hash_del _ _ _ Ha) as Hin. pose proof (Hown a Hin ltac:(done) ltac:(done)) as Hpid.
  destruct (find_is_Some (fun a => agent_pid a =? pid) agents a Hin) as [b Hb]; [by apply Z.eqb_eq|].
  pose proof (hash_del_perm _ _ _ Hb) as Hp. apply find_Some_inv in Hb as [Hbin Hbp%Z.eqb_eq].
  destruct (Hslot b Hbin Hbp) as [Hb1 Hb2]. rw Hp in Hd. csimpl in Hd.
  apply NoDup_cons in Hd as [Hno _]. apply Hno. rw Hb1 Hb2. apply list_elem_of_fmap. exists a.
  split; [congruence|done].
Qed.

Definition bridge_key (b : bridge_info) : string * Z := (br_topic_name b, br_ipc_ns b).

(** One bridge per (topic, namespace), and each bridges in at least one direction. *)
Record bridges_wf (bridges : list bridge_info) : Prop := {
  bw_keys : NoDup (bridge_key <$> bridges);
  bw_some_direction : Forall (fun b => has_r2a b || has_a2r b = true) bridges
}.

Lemma same_bridge_true n ns b : same_bridge n ns b = true <-> bridge_key b = (n, ns).
Proof.
  unfold same_bridge, bridge_key. split.
  - intros Hs. bool_to_prop. congruence.
  - intros [= -> ->]. by rw Z.eqb_refl String.eqb_refl.
Qed.

Lemma find_bridge_info_eq bridges n ns :
  find_bridge_info bridges n ns = find (same_bridge n ns) bridges.
Proof.
  apply find_possible. intros b Hb%same_bridge_true. injection Hb as <- _. done.
Qed.

Lemma find_bridge_info_Some bridges n ns b :
  find_bridge_info bridges n ns = Some b -> b ∈ bridges /\ bridge_key b = (n, ns).
Proof. rw find_bridge_info_eq. by intros [? ?%same_bridge_true]%find_Some_inv. Qed.

Lemma same_bridge_other n ns n' ns' b :
  (n', ns') <> (n, ns) -> same_bridge n ns b = true -> same_bridge n' ns' b = false.
Proof.
  intros Hne Hs%same_bridge_true. apply not_true_iff_false. intros Hs'%same_bridge_true. congruence.
Qed.

Lemma bridges_wf_upd bridges n ns r2a a2r :
  bridges_wf bridges -> r2a || a2r = true ->
  bridges_wf (hash_upd (same_bridge n ns) (set_flags r2a a2r) bridges).
Proof.
  intros [Hk Hd] Hf. split; [by rw fmap_hash_upd|]. apply Forall_forall. rw Forall_forall in Hd.
  intros b [Hb|(y & _ & _ & ->)]%elem_of_hash_upd; [auto|done].
Qed.

Lemma find_bridge_upd bridges n ns b r2a a2r :
  find_bridge_info bridges n ns = Some b ->
  find_bridge_info (hash_upd (same_bridge n ns) (set_flags r2a a2r) bridges) n ns =
    Some (set_flags r2a a2r b).
Proof. rw !find_bridge_info_eq. intros Hb. rw find_hash_upd; [by rw Hb|done]. Qed.

Lemma find_bridge_upd_other bridges n ns n' ns' r2a a2r :
  (n', ns') <> (n, ns) ->
  find_bridge_info (hash_upd (same_bridge n ns) (set_flags r2a a2r) bridges) n' ns' =
  find_bridge_info bridges n' ns'.
Proof.
  intros Hne. rw !find_bridge_info_eq. apply find_hash_upd_other. intros b Hb.
  pose proof (same_bridge_other _ _ _ _ _ Hne Hb). done.
Qed.

Lemma find_bridge_unique bridges b :
  NoDup (bridge_key <$> bridges) -> b ∈ bridges ->
  find_bridge_info bridges (br_topic_name b) (br_ipc_ns b) = Some b.
Proof.
  intros Hd Hb. rw find_bridge_info_eq -(find_key_unique bridge_key b _ Hd Hb).
  apply find_ext. intros q _. case_bool_decide as Hk.
  - by apply same_bridge_true.
  - apply not_true_iff_false. by intros ?%same_bridge_true.
Qed.

Lemma bridges_wf_add bridges n pid is_r2a ns :
  bridges_wf bridges -> find_bridge_info bridges n ns = None ->
  bridges_wf (hash_add bridge_bucket (BridgeInfo n pid is_r2a (negb is_r2a) ns) bridges).
Proof.
  intros [Hk Hd] Hf. split.
  - apply NoDup_fmap_hash_add; [done|]. intros (q & Hq & Hin)%list_elem_of_fmap.
    rw find_bridge_info_eq in Hf. pose proof (find_None_inv _ _ _ Hf Hin) as Hn.
    by rw (proj2 (same_bridge_true n ns q) (eq_sym Hq)) in Hn.
  - apply Forall_hash_add; [by destruct is_r2a|done].
Qed.

Lemma bridges_wf_sublist bridges bridges' :
  bridges_wf bridges -> bridges' `sublist_of` bridges -> bridges_wf bridges'.
Proof.
  intros [Hk Hd] Hs. split.
  - refine (sublist_NoDup _ _ Hk _). by apply fmap_sublist.
  - apply Forall_forall. rw Forall_forall in Hd. intros b Hb. apply Hd. by eapply elem_of_sublist.
Qed.

Lemma exit_bridges_wf bridges pid : bridges_wf bridges -> bridges_wf (exit_bridges bridges pid).
Proof. intros Hwf. eapply bridges_wf_sublist; [done|apply sublist_filter]. Qed.

Lemma add_bridge_wf al bridges n pid is_r2a ns bridges' ret r :
  bridges_wf bridges ->
  agnocast_ioctl_add_bridge al bridges n pid is_r2a ns = (bridges', ret, r) -> bridges_wf bridges'.
Proof.
  intros Hwf. unfold agnocast_ioctl_add_bridge.
  destruct (find_bridge_info bridges n ns) as [old|] eqn:Hf.
  - destruct (negb _); intros [= <- <- <-]; [done|].
    apply bridges_wf_upd; [done|]. by destruct is_r2a; simpl; [|apply orb_true_r].
  - destruct (al 0%nat); [|by intros [= <- <- <-]].
    destruct (al 1%nat); intros [= <- <- <-]; [|done]. by apply bridges_wf_add.
Qed.

Lemma remove_bridge_wf bridges n pid is_r2a ns bridges' r :
  bridges_wf bridges ->
  agnocast_ioctl_remove_bridge bridges n pid is_r2a ns = (bridges', r) -> bridges_wf bridges'.
Proof.
  intros Hwf. unfold agnocast_ioctl_remove_bridge.
  destruct (find_bridge_info bridges n ns) as [old|] eqn:Hf; [|by intros [= <- <-]].
  destruct (br_pid old =? pid); [|by intros [= <- <-]].
  destruct (negb _ && negb _) eqn:Hl; intros [= <- <-].
  - eapply bridges_wf_sublist; [done|apply hash_del_sublist].
  - apply bridges_wf_upd; [done|]. by destruct is_r2a, (has_r2a old), (has_a2r old).
Qed.

(** ** Properties: agents and bridges *)

(** The exit gate of a discovery agent races safely with starting processes: if a live process
    of the agent's domain is registered, a committing SHOULD_EXIT answers no and the agent stays;
    otherwise it answers yes and the agent is deregistered in the same step, so the next process
    to register there is told that no agent exists and spawns one. *)
Theorem discovery_agent_gate e procs agents pool size pid ns domain agents' b :
  NoDup ((fun a => (agent_ipc_ns a, agent_domain_id a)) <$> agents) ->
  (forall a, a ∈ agents -> agent_pid a = pid -> agent_ipc_ns a = ns /\ agent_domain_id a = domain) ->
  (forall a, a ∈ agents -> agent_ipc_ns a = ns -> agent_domain_id a = domain -> agent_pid a = pid) ->
  agnocast_ioctl_discovery_agent_should_exit procs agents pid ns domain true = (agents', b) ->
  (b = true <-> forall p, p ∈ procs -> proc_ipc_ns p = ns -> proc_domain_id p = domain ->
     exited p = false -> role p = PROCESS_ROLE_UNLINK_DAEMON) /\
  (b = false -> agents' = agents) /\
  (b = true -> forall new_pid role_arg procs' pool' ret,
     agnocast_ioctl_add_process e procs agents' pool size new_pid ns role_arg domain
       = (procs', pool', Ok ret) -> ret_discovery_agent_exist ret = false).
Proof.
  intros Hd Hslot Hown. unfold agnocast_ioctl_discovery_agent_should_exit. simpl.
  pose proof (alive_num_zero procs ns domain) as Hz.
  destruct (Z.eqb_spec (get_alive_process_num_in_domain_except_unlink_daemon procs ns domain) 0)
    as [Heq|Hne]; intros [= <- <-]; (split_and!; [by rw -Hz|done|]); [|done].
  intros _ new_pid role_arg procs' pool' ret. unfold agnocast_ioctl_add_process.
  destruct (process_role_of role_arg) as [rl|]; [|done].
  destruct (negb (negb _ && _)); [|done].
  destruct (agnocast_find_process_info procs new_pid); [done|].
  rw find_agent_removed //. repeat (case_match; try done); intros [= _ _ <-]; done.
Qed.

(** A bridge has one owner: ADD_BRIDGE by another process fails with EEXIST, reports the owner
    and changes nothing; by the owner, or of a free (topic, namespace), it only turns the asked
    direction on.  No other bridge is touched. *)
Theorem add_bridge_correct al bridges n pid is_r2a ns bridges' ret r :
  bridges_wf bridges ->
  agnocast_ioctl_add_bridge al bridges n pid is_r2a ns = (bridges', ret, r) ->
  bridges_wf bridges' /\
  (forall n' ns', (n', ns') <> (n, ns) ->
     find_bridge_info bridges' n' ns' = find_bridge_info bridges n' ns') /\
  match r with
  | Ok _ => exists b, find_bridge_info bridges' n ns = Some b /\ br_pid b = pid /\
      ret = Some (AddBridgeRet pid (has_r2a b) (has_a2r b)) /\
      (if is_r2a then has_r2a b else has_a2r b) = true /\
      (if is_r2a then has_a2r b else has_r2a b) =
        match find_bridge_info bridges n ns with
        | Some old => if is_r2a then has_a2r old else has_r2a old
        | None => false
        end
  | Err err => bridges' = bridges /\
      (err = ENOMEM /\ find_bridge_info bridges n ns = None \/
       err = EEXIST /\ exists old, find_bridge_info bridges n ns = Some old /\ br_pid old <> pid /\
         ret = Some (AddBridgeRet (br_pid old) (has_r2a old) (has_a2r old)))
  | Oops => False
  end.
Proof.
  intros Hwf. unfold agnocast_ioctl_add_bridge.
  destruct (find_bridge_info bridges n ns) as [old|] eqn:Hf.
  - destruct (Z.eqb_spec (br_pid old) pid) as [Hp|Hp]; simpl; intros [= <- <- <-].
    + split_and!.
      * apply bridges_wf_upd; [done|]. by destruct is_r2a; simpl; [|apply orb_true_r].
      * intros n' ns' Hne. by apply find_bridge_upd_other.
      * eexists. split_and!; [by apply find_bridge_upd|done|by rw Hp| |]; by destruct is_r2a.
    + split_and!; [done|done|done|]. right. eauto.
  - destruct (al 0%nat); [|intros [= <- <- <-]; split_and!; [done|done|done|by left]].
    destruct (al 1%nat); [|intros [= <- <- <-]; split_and!; [done|done|done|by left]].
    intros [= <- <- <-]. set (b := BridgeInfo n pid is_r2a (negb is_r2a) ns).
    assert (bridges_wf (hash_add bridge_bucket b bridges)) as Hwf' by (by apply bridges_wf_add).
    split_and!; [done| |].
    + intros n' ns' Hne. rw !find_bridge_info_eq. apply find_hash_add_other.
      apply not_true_iff_false. intros Hs%same_bridge_true. by apply Hne.
    + exists b. split_and!; [|done|done|by destruct is_r2a|by destruct is_r2a].
      apply (find_bridge_unique _ b); [apply Hwf'|]. apply elem_of_hash_add. by left.
Qed.

(** Only its owner takes a bridge down: REMOVE_BRIDGE fails with ENOENT without a bridge and
    with EPERM for another process, changing nothing; for the owner it turns the asked direction
    off, keeps the other, and drops the bridge when none is left.  When a process exits all its
    bridges go and no other. *)
Theorem remove_bridge_correct bridges n pid is_r2a ns bridges' r :
  bridges_wf bridges ->
  agnocast_ioctl_remove_bridge bridges n pid is_r2a ns = (bridges', r) ->
  bridges_wf bridges' /\ bridges_wf (exit_bridges bridges pid) /\
  (forall b, b ∈ exit_bridges bridges pid <-> b ∈ bridges /\ br_pid b <> pid) /\
  (forall n' ns', (n', ns') <> (n, ns) ->
     find_bridge_info bridges' n' ns' = find_bridge_info bridges n' ns') /\
  match r with
  | Ok _ => exists old, find_bridge_info bridges n ns = Some old /\ br_pid old = pid /\
      let left := if is_r2a then has_a2r old else has_r2a old in
      find_bridge_info bridges' n ns =
        if left then Some (set_flags (negb is_r2a) is_r2a old) else None
  | Err err => bridges' = bridges /\
      (err = ENOENT /\ find_bridge_info bridges n ns = None \/
       err = EPERM /\ exists old, find_bridge_info bridges n ns = Some old /\ br_pid old <> pid)
  | Oops => False
  end.
Proof.
  intros Hwf. unfold agnocast_ioctl_remove_bridge.
  pose proof (exit_bridges_wf bridges pid Hwf) as Hex.
  assert (forall b, b ∈ exit_bridges bridges pid <-> b ∈ bridges /\ br_pid b <> pid) as Hexi
    by (intros b; unfold exit_bridges; rw list_elem_of_filter; tauto).
  destruct (find_bridge_info bridges n ns) as [old|] eqn:Hf.
  2: { intros [= <- <-]. split_and!; try done. by left. }
  destruct (Z.eqb_spec (br_pid old) pid) as [Hp|Hp]; simpl.
  2: { intros [= <- <-]. split_and!; try done. right. eauto. }
  pose proof (find_bridge_info_Some _ _ _ _ Hf) as [Hin Hkey].
  destruct (negb (if is_r2a then false else has_r2a old) &&
    negb (if is_r2a then has_a2r old else false)) eqn:Hlast; intros [= <- <-].
  - assert (bridges_wf (hash_del (same_bridge n ns) bridges)) as Hwf'
      by (apply (bridges_wf_sublist bridges); [done|apply hash_del_sublist]).
    split_and!; try done.
    + intros n' ns' Hne. rw !find_bridge_info_eq. apply find_hash_del_other. intros b Hb.
      by eapply same_bridge_other.
    + exists old. split_and!; [done|done|]. assert ((if is_r2a then has_a2r old else has_r2a old) = false)
        as -> by (destruct is_r2a, (has_r2a old), (has_a2r old); done).
      rw find_bridge_info_eq. rw find_bridge_info_eq in Hf.
      destruct (find _ (hash_del _ _)) as [b|] eqn:Hb; [|done]. exfalso.
      apply find_Some_inv in Hb as [Hbin Hbk%same_bridge_true].
      pose proof (hash_del_perm _ _ _ Hf) as Hperm. destruct Hwf as [Hk _]. rw Hperm in Hk.
      csimpl in Hk. apply NoDup_cons in Hk as [Hno _]. apply Hno, list_elem_of_fmap.
      exists b. split; [congruence|done].
  - split_and!; try done.
    + apply bridges_wf_upd; [done|]. by destruct is_r2a, (has_r2a old), (has_a2r old).
    + intros n' ns' Hne. by apply find_bridge_upd_other.
    + exists old. split_and!; [done|done|]. rw (find_bridge_upd _ _ _ _ _ _ Hf).
      by destruct is_r2a, (has_r2a old), (has_a2r old).
Qed.
End agents_bridges.

(** ** Witnesses *)

Definition sample_env : env :=
  Env 100 1 (fun _ => true) (fun p => Some p) (fun fd => inr (fd + 1000)).

Definition sample_register (k : registry) (pid : Z) : registry :=
  let out := @agnocast_ioctl_add_process length_hash sample_env (proc_info_htable k)
    (discovery_agent_htable k) (mempool_entries k) 1073741824 pid 1 0 0 in
  Registry out.1.1 (discovery_agent_htable k) out.1.2.

Definition sample_registry : registry :=
  sample_register (sample_register (Registry [] [] (init_entries 4 4096 1073741824)) 100) 200.

Lemma sample_register_step k pid : valid_pid pid -> @registry_step length_hash k (sample_register k pid).
Proof.
  intros Hv. destruct k as [procs agents pool]. unfold sample_register. cbv zeta. simpl.
  destruct (agnocast_ioctl_add_process _ _ _ _ _ _ _ _ _) as [[procs' pool'] r] eqn:E.
  apply step_call. by eapply call_add_process.
Qed.

Lemma sample_registry_reachable :
  @registry_reachable length_hash (init_entries 4 4096 1073741824) sample_registry.
Proof.
  eapply registry_next; [eapply registry_next; [apply registry_init|]|];
    by apply sample_register_step.
Qed.

Lemma sample_pools_wf : pool_wf (init_entries 4 4096 1073741824).
Proof. repeat constructor. Qed.

Lemma live_processes_have_disjoint_pools_witness :
  disjoint_ranges 1073741824 4096 1073745920.
Proof.
  apply (live_processes_have_disjoint_pools (H := length_hash) (MempoolParams 4 4096 1) (fun _ => true)
    1073741824 (init_entries 4 4096 1073741824) sample_registry
    (ProcessInfo false PROCESS_ROLE_APPLICATION 100 100 0 1 0)
    (ProcessInfo false PROCESS_ROLE_APPLICATION 200 200 1 1 0)
    (MempoolEntry 4096 1 [100]) (MempoolEntry 1073745920 1 [200])); try done.
  - apply sample_registry_reachable.
  - apply list_elem_of_In. vm_compute. auto.
  - apply list_elem_of_In. vm_compute. auto.
Defined.

Lemma singletons_are_single_witness :
  NoDup (global_pid <$> proc_info_htable sample_registry).
Proof.
  destruct (singletons_are_single (H := length_hash) _ _ sample_pools_wf sample_registry_reachable)
    as (Hd & _). exact Hd.
Defined.

Lemma add_process_outcomes_witness :
  registry_wf (init_entries 4 4096 1073741824)
    (Registry (@agnocast_ioctl_add_process length_hash sample_env [] []
       (init_entries 4 4096 1073741824) 1073741824 100 1 0 0).1.1 []
     (@agnocast_ioctl_add_process length_hash sample_env [] []
       (init_entries 4 4096 1073741824) 1073741824 100 1 0 0).1.2).
Proof.
  eapply (add_process_outcomes (H := length_hash) _ sample_env [] [] (init_entries 4 4096 1073741824)
    1073741824 100 1 0 0).
  - apply (registry_reachable_wf (H := length_hash)); [apply sample_pools_wf|apply registry_init].
  - by split.
  - reflexivity.
Defined.

Lemma drain_exited_complete_witness :
  exists b procs' pool',
    @drain_exited length_hash 2 [ProcessInfo true PROCESS_ROLE_APPLICATION 100 10 0 1 0;
      ProcessInfo false PROCESS_ROLE_UNLINK_DAEMON 7 7 1 1 AGNOCAST_DOMAIN_ID_NONE] [] 1 7
    = Some ([10], b, procs', pool').
Proof.
  destruct (drain_exited_complete (H := length_hash)
    [ProcessInfo true PROCESS_ROLE_APPLICATION 100 10 0 1 0;
     ProcessInfo false PROCESS_ROLE_UNLINK_DAEMON 7 7 1 1 AGNOCAST_DOMAIN_ID_NONE] [] 1 7)
    as (b & procs' & pool' & Hrun & _).
  - csimpl. repeat constructor; set_solver.
  - repeat constructor; done.
  - exists b, procs', pool'. exact Hrun.
Defined.

Lemma discovery_agent_gate_witness :
  agnocast_ioctl_discovery_agent_should_exit [] [DiscoveryAgentInfo 5 1 0] 5 1 0 true
    = ([], true) /\ (true = false -> [] = [DiscoveryAgentInfo 5 1 0]).
Proof.
  split; [reflexivity|].
  destruct (discovery_agent_gate (H := length_hash) sample_env [] [DiscoveryAgentInfo 5 1 0] [] 0 5 1 0
    [] true) as (_ & H2 & _); [| | |reflexivity|exact H2].
  - csimpl. repeat constructor; set_solver.
  - intros a ->%list_elem_of_singleton. done.
  - intros a ->%list_elem_of_singleton. done.
Defined.

Lemma add_bridge_correct_witness :
  @agnocast_ioctl_add_bridge length_hash (fun _ => true) [BridgeInfo "/t" 5 true false 1] "/t" 6 false 1
    = ([BridgeInfo "/t" 5 true false 1], Some (AddBridgeRet 5 true false), Err EEXIST) /\
  bridges_wf [BridgeInfo "/t" 5 true false 1].
Proof.
  split; [reflexivity|].
  apply (add_bridge_correct (H := length_hash) (fun _ => true) [BridgeInfo "/t" 5 true false 1] "/t" 6
    false 1 [BridgeInfo "/t" 5 true false 1] (Some (AddBridgeRet 5 true false)) (Err EEXIST)); [|done].
  split; repeat constructor. set_solver.
Defined.

Lemma remove_bridge_correct_witness :
  @agnocast_ioctl_remove_bridge length_hash [BridgeInfo "/t" 5 true false 1] "/t" 5 true 1 = ([], Ok tt) /\
  bridges_wf [].
Proof.
  split; [reflexivity|].
  apply (remove_bridge_correct (H := length_hash) [BridgeInfo "/t" 5 true false 1] "/t" 5 true 1 []
    (Ok tt)); [|done].
  split; repeat constructor. set_solver.
Defined.
