(* ===== verification/KState.v ===== *)
(** * Kernel module: the global state and the system calls on topics

    The tables of agnocast_kmod/agnocast_internal.c together, the [topic_struct]s the wrappers
    point to, the eventfd references the module holds, and every system call of
    agnocast_kmod/agnocast_ioctl.c and cleanup of agnocast_kmod/agnocast_internal.c that looks a
    topic up, creates one or releases one.  The bodies once the topic is found are those of KTopic,
    KMessage and KCleanup. *)

From S2P Require Import Prelude Kernel KMempool KTypes KRules KTopic KMessage KCleanup KRegistry.

(** ** State *)

(** [topics] is the heap of [topic_struct]s by address, [eventfd_refs] one element per reference
    the module holds on an eventfd context, and [next_addr] above every address in use. *)
Record kstate := KState {
  topic_hashtable : list topic_wrapper;
  topics : gmap Z topic_struct;
  reg : registry;
  bridge_htable : list bridge_info;
  domain_rule_htable : list domain_bridge_rule;
  mempool_size_bytes : Z;
  eventfd_refs : list Z;
  next_addr : Z
}.

Definition set_wrappers (ws : list topic_wrapper) (k : kstate) : kstate :=
  KState ws (topics k) (reg k) (bridge_htable k) (domain_rule_htable k) (mempool_size_bytes k)
    (eventfd_refs k) (next_addr k).
Definition set_topics (ts : gmap Z topic_struct) (k : kstate) : kstate :=
  KState (topic_hashtable k) ts (reg k) (bridge_htable k) (domain_rule_htable k)
    (mempool_size_bytes k) (eventfd_refs k) (next_addr k).
Definition set_reg (r : registry) (k : kstate) : kstate :=
  KState (topic_hashtable k) (topics k) r (bridge_htable k) (domain_rule_htable k)
    (mempool_size_bytes k) (eventfd_refs k) (next_addr k).
Definition set_bridges (b : list bridge_info) (k : kstate) : kstate :=
  KState (topic_hashtable k) (topics k) (reg k) b (domain_rule_htable k)
    (mempool_size_bytes k) (eventfd_refs k) (next_addr k).
Definition set_rules (r : list domain_bridge_rule) (k : kstate) : kstate :=
  KState (topic_hashtable k) (topics k) (reg k) (bridge_htable k) r
    (mempool_size_bytes k) (eventfd_refs k) (next_addr k).
Definition set_eventfds (l : list Z) (k : kstate) : kstate :=
  KState (topic_hashtable k) (topics k) (reg k) (bridge_htable k) (domain_rule_htable k)
    (mempool_size_bytes k) l (next_addr k).
Definition set_next_addr (a : Z) (k : kstate) : kstate :=
  KState (topic_hashtable k) (topics k) (reg k) (bridge_htable k) (domain_rule_htable k)
    (mempool_size_bytes k) (eventfd_refs k) a.

Definition put_topic (a : Z) (t : topic_struct) (k : kstate) : kstate :=
  set_topics (<[a := t]> (topics k)) k.

Definition procs (k : kstate) : list process_info := proc_info_htable (reg k).
Definition pool (k : kstate) : list mempool_entry := mempool_entries (reg k).
Definition set_pool (p : list mempool_entry) (k : kstate) : kstate :=
  set_reg (Registry (procs k) (discovery_agent_htable (reg k)) p) k.

(** The state of a module just loaded, with the pools [init_memory_allocator] set up. *)
Definition init_kstate (size : Z) (pool0 : list mempool_entry) : kstate :=
  KState [] ∅ (Registry [] [] pool0) [] [] size [] 1.

(** ** Eventfd references *)

(** [eventfd_ctx_put]; [None]: the module did not hold the reference. *)
Fixpoint eventfd_put (ctx : Z) (refs : list Z) : option (list Z) :=
  match refs with
  | [] => None
  | c :: rest => if c =? ctx then Some rest else (fun r => c :: r) <$> eventfd_put ctx rest
  end.

Fixpoint eventfd_put_all (ctxs : list Z) (refs : list Z) : option (list Z) :=
  match ctxs with
  | [] => Some refs
  | c :: rest => match eventfd_put c refs with Some refs => eventfd_put_all rest refs | None => None end
  end.

(** ** Topics: creation and release *)

Section ioctls.
Context `{KernelHash}.

Definition find_topic_for_current (e : env) (k : kstate) (topic_name : string)
    : option topic_wrapper :=
  find_topic (topic_hashtable k) topic_name (current_ipc_ns e)
    (get_process_domain_id (procs k) (current_tgid e)).

(** The address of the partner's [topic_struct]. *)
Definition find_grouped_topic_struct (k : kstate) (topic_name : string) (ipc_ns domain_id : Z)
    : option Z :=
  unwrap r := find_domain_rule (domain_rule_htable k) topic_name ipc_ns domain_id orelse None;
  let partner_of (partner_name : string) (partner_domain : Z) :=
    let partner_name := if is_prefix r then topic_name else partner_name in
    topic <$> find_topic (topic_hashtable k) partner_name ipc_ns partner_domain in
  if domain_id =? domain_a r then partner_of (topic_name_b r) (domain_b r)
  else if domain_id =? domain_b r then partner_of (topic_name_a r) (domain_a r)
  else None.

Definition add_topic (al : alloc) (k : kstate) (topic_name : string) (ipc_ns domain_id : Z)
    : kstate * res topic_wrapper :=
  match find_topic (topic_hashtable k) topic_name ipc_ns domain_id with
  | Some w => (k, Ok w)
  | None =>
      require al 0%nat orelse (k, Err ENOMEM);
      require al 1%nat orelse (k, Err ENOMEM);
      match find_grouped_topic_struct k topic_name ipc_ns domain_id with
      | Some grouped =>
          unwrap t := topics k !! grouped orelse (k, Oops);
          let w := TopicWrapper ipc_ns domain_id topic_name grouped in
          let k := put_topic grouped (set_refcnt (u32 (wrapper_refcnt t + 1)) t) k in
          (set_wrappers (hash_add topic_bucket w (topic_hashtable k)) k, Ok w)
      | None =>
          require al 2%nat orelse (k, Err ENOMEM);
          let a := next_addr k in
          let r := rule_addr <$> find_domain_rule (domain_rule_htable k) topic_name ipc_ns domain_id in
          let w := TopicWrapper ipc_ns domain_id topic_name a in
          let k := set_next_addr (a + 1) (put_topic a (new_topic_struct r) k) in
          (set_wrappers (hash_add topic_bucket w (topic_hashtable k)) k, Ok w)
      end
  end.

(** [hash_del] of the wrapper, which its cell identifies; the [topic_struct] goes with the last
    wrapper, its subscribers' eventfd contexts with it. *)
Definition agnocast_release_topic_wrapper (k : kstate) (w : topic_wrapper) : kstate * res unit :=
  let k := set_wrappers
    (hash_del (same_cell (key w) (wrapper_ipc_ns w) (wrapper_domain_id w)) (topic_hashtable k)) k in
  unwrap t := topics k !! topic w orelse (k, Oops);
  let n := u32 (wrapper_refcnt t - 1) in
  if n =? 0 then
    unwrap refs := eventfd_put_all
      (sub_info_htable t ≫= fun s => option_list (notify_ctx s)) (eventfd_refs k) orelse (k, Oops);
    (set_eventfds refs (set_topics (delete (topic w) (topics k)) k), Ok tt)
  else (put_topic (topic w) (set_refcnt n t) k, Ok tt).

(** ** Endpoints *)

Definition agnocast_ioctl_add_subscriber (e : env) (k : kstate) (topic_name : string)
    (subscriber_pid : Z) (a : sub_args) (eventfd : Z) : kstate * res Z :=
  let al := kmalloc_ok e in
  let got := if a_sub_take a then inr None
             else match eventfd_ctx_fdget e eventfd with
                  | inl err => inl err
                  | inr ctx => inr (Some ctx)
                  end in
  match got with
  | inl err => (k, Err err)
  | inr ctx =>
      let k := set_eventfds (option_list ctx ++ eventfd_refs k) k in
      let fail (k : kstate) (err : errno) : kstate * res Z :=
        match ctx with
        | None => (k, Err err)
        | Some c => unwrap refs := eventfd_put c (eventfd_refs k) orelse (k, Oops);
                    (set_eventfds refs k, Err err)
        end in
      match add_topic al k topic_name (current_ipc_ns e)
              (get_process_domain_id (procs k) subscriber_pid) with
      | (k, Err err) => fail k err
      | (k, Oops) => (k, Oops)
      | (k, Ok w) =>
          unwrap t := topics k !! topic w orelse (k, Oops);
          match insert_subscriber_info (skip 3 al) (domain_rule_htable k) t (wrapper_domain_id w)
                  subscriber_pid a ctx with
          | (t, Ok s) => (put_topic (topic w) t k, Ok (sub_id s))
          | (t, Err err) => fail (put_topic (topic w) t k) err
          | (t, Oops) => (put_topic (topic w) t k, Oops)
          end
      end
  end.

Definition agnocast_ioctl_add_publisher (e : env) (k : kstate) (topic_name : string)
    (publisher_pid : Z) (a : pub_args) : kstate * res Z :=
  let al := kmalloc_ok e in
  match add_topic al k topic_name (current_ipc_ns e)
          (get_process_domain_id (procs k) publisher_pid) with
  | (k, Err err) => (k, Err err)
  | (k, Oops) => (k, Oops)
  | (k, Ok w) =>
      unwrap t := topics k !! topic w orelse (k, Oops);
      match insert_publisher_info (skip 3 al) (domain_rule_htable k) t (wrapper_domain_id w)
              publisher_pid a with
      | (t, Ok p) =>
          let t := set_subs (set_need_mmap_update true <$> sub_info_htable t) t in
          (put_topic (topic w) t k, Ok (pub_id p))
      | (t, Err err) => (put_topic (topic w) t k, Err err)
      | (t, Oops) => (put_topic (topic w) t k, Oops)
      end
  end.

(** [if (!agnocast_wrapper_has_domain_endpoints(wrapper)) agnocast_release_topic_wrapper(wrapper);] *)
Definition release_if_empty (k : kstate) (w : topic_wrapper) : kstate * res unit :=
  unwrap t := topics k !! topic w orelse (k, Oops);
  if agnocast_wrapper_has_domain_endpoints t (wrapper_domain_id w) then (k, Ok tt)
  else agnocast_release_topic_wrapper k w.

Definition agnocast_ioctl_remove_subscriber (e : env) (k : kstate) (topic_name : string)
    (subscriber_id : Z) : kstate * res unit :=
  unwrap w := find_topic_for_current e k topic_name orelse (k, Err EINVAL);
  unwrap t := topics k !! topic w orelse (k, Oops);
  let '(t, puts, r) :=
    remove_subscriber_topic (domain_rule_htable k) (procs k) t subscriber_id in
  let k := put_topic (topic w) t k in
  unwrap refs := eventfd_put_all puts (eventfd_refs k) orelse (k, Oops);
  let k := set_eventfds refs k in
  match r with
  | Ok _ => release_if_empty k w
  | Err err => (k, Err err)
  | Oops => (k, Oops)
  end.

Definition agnocast_ioctl_remove_publisher (e : env) (k : kstate) (topic_name : string)
    (publisher_id' : Z) : kstate * res unit :=
  unwrap w := find_topic_for_current e k topic_name orelse (k, Err EINVAL);
  unwrap t := topics k !! topic w orelse (k, Oops);
  let '(t, r) := remove_publisher_topic t publisher_id' in
  let k := put_topic (topic w) t k in
  match r with
  | Ok _ => release_if_empty k w
  | Err err => (k, Err err)
  | Oops => (k, Oops)
  end.

(** ** Messages *)

(** The list is the eventfd contexts signalled. *)
Definition agnocast_ioctl_publish_msg (e : env) (k : kstate) (topic_name : string)
    (publisher_id' msg_virtual_address' : Z) : kstate * list Z * res publish_ret :=
  unwrap w := find_topic_for_current e k topic_name orelse (k, [], Err EINVAL);
  unwrap t := topics k !! topic w orelse (k, [], Oops);
  let '(t, signals, r) := publish_msg_topic (kmalloc_ok e) (procs k) (pool k)
    (mempool_size_bytes k) t publisher_id' msg_virtual_address' in
  (put_topic (topic w) t k, signals, r).

Definition agnocast_ioctl_receive_msg (e : env) (k : kstate) (topic_name : string)
    (subscriber_id pub_shm_infos_size : Z)
    : kstate * res (list (Z * Z) * bool * list publisher_shm_info) :=
  unwrap w := find_topic_for_current e k topic_name orelse (k, Err EINVAL);
  unwrap t := topics k !! topic w orelse (k, Oops);
  let '(t, p, r) := receive_msg_topic (kmalloc_ok e) (pid_vnr_of e) (domain_rule_htable k) (procs k)
    (pool k) t (wrapper_domain_id w) subscriber_id pub_shm_infos_size in
  (set_pool p (put_topic (topic w) t k), r).

Definition agnocast_ioctl_take_msg (e : env) (k : kstate) (topic_name : string)
    (subscriber_id : Z) (allow_same_message : bool) (pub_shm_infos_size : Z)
    : kstate * res (take_ret * list publisher_shm_info) :=
  unwrap w := find_topic_for_current e k topic_name orelse (k, Err EINVAL);
  unwrap t := topics k !! topic w orelse (k, Oops);
  let '(t, p, r) := take_msg_topic (kmalloc_ok e) (pid_vnr_of e) (domain_rule_htable k) (procs k)
    (pool k) t (wrapper_domain_id w) subscriber_id allow_same_message pub_shm_infos_size in
  (set_pool p (put_topic (topic w) t k), r).

Definition agnocast_ioctl_release_message_entry_reference (e : env) (k : kstate)
    (topic_name : string) (pubsub_id entry_id' : Z) : kstate * res unit :=
  unwrap w := find_topic_for_current e k topic_name orelse (k, Err EINVAL);
  unwrap t := topics k !! topic w orelse (k, Oops);
  let '(t, r) := release_reference_topic t pubsub_id entry_id' in
  (put_topic (topic w) t k, r).

Definition agnocast_ioctl_set_ros2_subscriber_num (e : env) (k : kstate) (topic_name : string)
    (count : Z) : kstate * res unit :=
  unwrap w := find_topic_for_current e k topic_name orelse (k, Err ENOENT);
  unwrap t := topics k !! topic w orelse (k, Oops);
  (put_topic (topic w) (set_ros2_nums count (ros2_publisher_num t) t) k, Ok tt).

Definition agnocast_ioctl_set_ros2_publisher_num (e : env) (k : kstate) (topic_name : string)
    (count : Z) : kstate * res unit :=
  unwrap w := find_topic_for_current e k topic_name orelse (k, Err ENOENT);
  unwrap t := topics k !! topic w orelse (k, Oops);
  (put_topic (topic w) (set_ros2_nums (ros2_subscriber_num t) count t) k, Ok tt).

(** ** Process exit and module unload *)

(** The loop over the topic wrappers. *)
Fixpoint exit_topics (ws : list topic_wrapper) (pid : Z) (k : kstate) : kstate * res unit :=
  match ws with
  | [] => (k, Ok tt)
  | w :: rest =>
      unwrap t := topics k !! topic w orelse (k, Oops);
      let '(t, puts) := process_exit_topic (domain_rule_htable k) (procs k) t pid in
      let k := put_topic (topic w) t k in
      unwrap refs := eventfd_put_all puts (eventfd_refs k) orelse (k, Oops);
      match release_if_empty (set_eventfds refs k) w with
      | (k, Ok _) => exit_topics rest pid k
      | (k, r) => (k, r)
      end
  end.

Definition agnocast_process_exit_cleanup (k : kstate) (pid : Z) : kstate * res unit :=
  let agents := agnocast_remove_discovery_agent_by_pid (discovery_agent_htable (reg k)) pid in
  match exit_registered (procs k) (pool k) pid with
  | None => (set_reg (Registry (procs k) agents (pool k)) k, Ok tt)
  | Some (ps, p) =>
      let k := set_reg (Registry ps agents p) k in
      match exit_topics (topic_hashtable k) pid k with
      | (k, Ok _) => (set_bridges (exit_bridges (bridge_htable k) pid) k, Ok tt)
      | (k, r) => (k, r)
      end
  end.

Fixpoint remove_all_topics (ws : list topic_wrapper) (k : kstate) : kstate * res unit :=
  match ws with
  | [] => (k, Ok tt)
  | w :: rest =>
      match agnocast_release_topic_wrapper k w with
      | (k, Ok _) => remove_all_topics rest k
      | (k, r) => (k, r)
      end
  end.

Definition agnocast_exit_free_data (k : kstate) : kstate * res unit :=
  match remove_all_topics (topic_hashtable k) k with
  | (k, Ok _) => (set_rules [] (set_bridges [] (set_reg (Registry [] [] (pool k)) k)), Ok tt)
  | (k, r) => (k, r)
  end.

(** ** The other calls, lifted to the state *)

Definition add_domain_bridge (e : env) (k : kstate) (topic_name_from topic_name_to : string)
    (from_domain to_domain : Z) : kstate * res unit :=
  let '(rules, r) := agnocast_ioctl_add_domain_bridge (kmalloc_ok e) (next_addr k)
    (domain_rule_htable k) (topic_hashtable k) topic_name_from topic_name_to from_domain to_domain
    (current_ipc_ns e) in
  (set_next_addr (next_addr k + 1) (set_rules rules k), r).

Definition add_domain_bridge_prefix (e : env) (k : kstate) (topic_name_prefix : string)
    (from_domain to_domain : Z) : kstate * res unit :=
  let '(rules, r) := agnocast_ioctl_add_domain_bridge_prefix (kmalloc_ok e) (next_addr k)
    (domain_rule_htable k) (topic_hashtable k) topic_name_prefix from_domain to_domain
    (current_ipc_ns e) in
  (set_next_addr (next_addr k + 1) (set_rules rules k), r).
End ioctls.
