(* ===== verification/KInvariant.v ===== *)
(** * Kernel module: the invariant of the topic tables

    What ties the topic wrappers, the [topic_struct]s they share, the domain bridge rules and the
    eventfd references of KState together, and the lemmas that creating a topic ([add_topic]),
    releasing one ([agnocast_release_topic_wrapper]) and rewriting one in place keep it. *)

From S2P Require Import Prelude Kernel KMempool KTypes KRules KTopic KMessage KCleanup KRegistry.
From S2P Require Import KState.

(** ** Specification *)

Definition cell (w : topic_wrapper) : string * Z * Z :=
  (key w, wrapper_ipc_ns w, wrapper_domain_id w).

(** The rule covering a wrapper's cell. *)
Definition rule_of (rules : list domain_bridge_rule) (w : topic_wrapper)
    : option domain_bridge_rule :=
  find_domain_rule rules (key w) (wrapper_ipc_ns w) (wrapper_domain_id w).

(** A rule pairs the two cells. *)
Definition paired (rules : list domain_bridge_rule) (w1 w2 : topic_wrapper) : Prop :=
  wrapper_ipc_ns w1 = wrapper_ipc_ns w2 /\
  exists r, rule_of rules w1 = Some r /\
    partner_cell r (key w1) (wrapper_domain_id w1) = (key w2, wrapper_domain_id w2).

(** The wrappers pointing to an address. *)
Definition sharing (ws : list topic_wrapper) (a : Z) : list topic_wrapper :=
  filter (fun w => topic w = a) ws.

Definition valid_endpoint_pids (t : topic_struct) : Prop :=
  Forall (fun s => valid_pid (sub_pid s)) (sub_info_htable t).

(** The [topic_struct] at [a]: well formed, with notify lists in force, counted by [wrapper_refcnt]
    and reachable from a wrapper. *)
Record heap_ok (ws : list topic_wrapper) (rules : list domain_bridge_rule) (next a : Z)
    (t : topic_struct) : Prop := {
  ho_wf : topic_wf t;
  ho_notify : notify_ok rules t;
  ho_pids : valid_endpoint_pids t;
  ho_addr : a < next;
  ho_refcnt : wrapper_refcnt t = Z.of_nat (length (sharing ws a));
  ho_live : 1 <= wrapper_refcnt t
}.

(** [tv_wrappers] is the absence of dangling pointers, and of stale cached rules; [tv_shared] says
    that two wrappers share a topic exactly when a rule pairs their cells. *)
Record topics_inv (ws : list topic_wrapper) (ts : gmap Z topic_struct)
    (rules : list domain_bridge_rule) (next : Z) : Prop := {
  tv_rules : rules_wf rules;
  tv_rule_addrs : Forall (fun r => rule_addr r < next) rules;
  tv_cells : NoDup (cell <$> ws);
  tv_heap : forall a t, ts !! a = Some t -> heap_ok ws rules next a t;
  tv_wrappers : forall w, w ∈ ws ->
    exists t, ts !! topic w = Some t /\ rule t = rule_addr <$> rule_of rules w;
  tv_shared : forall w1 w2, w1 ∈ ws -> w2 ∈ ws ->
    topic w1 = topic w2 <-> w1 = w2 \/ paired rules w1 w2
}.

Definition endpoint_domains (t : topic_struct) : list Z :=
  (pub_domain_id <$> pub_info_htable t) ++ (sub_domain_id <$> sub_info_htable t).

(** Every endpoint joined through a wrapper of its own domain. *)
Definition domains_inv (ws : list topic_wrapper) (ts : gmap Z topic_struct) : Prop :=
  forall a t d, ts !! a = Some t -> d ∈ endpoint_domains t ->
    exists w, w ∈ ws /\ topic w = a /\ wrapper_domain_id w = d.

(** The eventfd contexts the subscribers of a topic, and of all topics, hold. *)
Definition ctxs_of (subs : list subscriber_info) : list Z :=
  subs ≫= fun s => option_list (notify_ctx s).
Definition all_ctxs (ts : gmap Z topic_struct) : list Z :=
  map_to_list ts ≫= fun p => ctxs_of (sub_info_htable p.2).

(** The fields of a topic only [add_topic] and [agnocast_release_topic_wrapper] write. *)
Definition topic_core (t : topic_struct) : Z * option Z := (wrapper_refcnt t, rule t).

(** ** Lemmas: rules and cells *)

Lemma bind_cons' {A B} (f : A -> list B) x l : (x :: l) ≫= f = f x ++ (l ≫= f).
Proof. done. Qed.

Lemma bind_perm {A B} (f : A -> list B) l l' : l ≡ₚ l' -> l ≫= f ≡ₚ l' ≫= f.
Proof. intros Hp. by rw Hp. Qed.

Section cells.
Context `{KernelHash}.

(** Pairing is symmetric: the rule covering a cell covers the partner's cell and leads back. *)
Lemma partner_covered rules n ns d r n' d' :
  rules_wf rules -> find_domain_rule rules n ns d = Some r -> partner_cell r n d = (n', d') ->
  find_domain_rule rules n' ns d' = Some r /\ partner_cell r n' d' = (n, d) /\ d' <> d.
Proof.
  intros Hwf Hf Hp. pose proof (find_domain_rule_Some _ _ _ _ _ Hf) as [Hr Hc].
  pose proof (proj1 (Forall_forall _ _) (wf_rules _ Hwf) r Hr) as [Hlt Hpre _].
  unfold partner_cell in *.
  assert (rule_covers n' ns d' r = true /\ partner_cell r n' d' = (n, d) /\ d' <> d)
    as (Hc' & Hback & Hne).
  { unfold rule_covers in *. unfold partner_cell.
    assert ((domain_a r =? domain_b r) = false /\ (domain_b r =? domain_a r) = false) as [Hab Hba]
      by (rw !Z.eqb_neq; lia).
    apply andb_prop in Hc as [[Hns Hd]%andb_prop Hc]. rw Hns.
    revert Hp Hc Hd. destruct (Z.eqb_spec d (domain_a r)) as [->|Hna]; intros Hp Hc Hd.
    - injection Hp as <- <-. rw Z.eqb_refl Hba. rw Hab /= in Hc. simpl.
      destruct (is_prefix r); [split_and!; [done|done|lia]|]. rw orb_false_r in Hc.
      apply String.eqb_eq in Hc as ->. rw String.eqb_refl. split_and!; [done|done|lia].
    - simpl in Hd. apply Z.eqb_eq in Hd as ->. injection Hp as <- <-. rw Z.eqb_refl Hab.
      rw Z.eqb_refl /= in Hc. simpl. destruct (is_prefix r); [split_and!; [done|done|lia]|].
      apply String.eqb_eq in Hc as ->. rw String.eqb_refl. split_and!; [done|done|lia]. }
  split_and!; [|done|done]. eapply find_domain_rule_unique; [apply (wf_cells _ Hwf)|done|done].
Qed.

Lemma cell_inj ws w1 w2 : NoDup (cell <$> ws) -> w1 ∈ ws -> w2 ∈ ws -> cell w1 = cell w2 -> w1 = w2.
Proof. apply NoDup_fmap_inj_on. Qed.

Lemma find_topic_cell ws n ns d w : find_topic ws n ns d = Some w -> w ∈ ws /\ cell w = (n, ns, d).
Proof. intros (Hw & <- & <- & <-)%find_topic_Some. done. Qed.

Lemma find_topic_None ws n ns d :
  find_topic ws n ns d = None -> forall w, w ∈ ws -> cell w <> (n, ns, d).
Proof.
  rw find_topic_eq. intros Hf w Hw [= <- <- <-].
  pose proof (find_None_inv _ _ _ Hf Hw) as Hs. unfold same_cell in Hs.
  rw !Z.eqb_refl String.eqb_refl in Hs. done.
Qed.

Lemma find_topic_unique ws w :
  NoDup (cell <$> ws) -> w ∈ ws -> find_topic ws (key w) (wrapper_ipc_ns w) (wrapper_domain_id w) = Some w.
Proof.
  intros Hd Hw. destruct (find_topic _ _ _ _) as [w'|] eqn:E.
  - apply find_topic_cell in E as [Hw' Hc]. f_equal. by apply (cell_inj ws).
  - exfalso. by apply (find_topic_None _ _ _ _ E w).
Qed.

Lemma paired_sym rules w1 w2 : rules_wf rules -> paired rules w1 w2 -> paired rules w2 w1.
Proof.
  intros Hwf (Hns & r & Hr & Hp). destruct (partner_covered _ _ _ _ _ _ _ Hwf Hr Hp) as (H1 & H2 & _).
  split; [done|]. exists r. split; [|done]. unfold rule_of. by rw -Hns.
Qed.

Lemma paired_rule rules w1 w2 : rules_wf rules -> paired rules w1 w2 -> rule_of rules w1 = rule_of rules w2.
Proof.
  intros Hwf (Hns & r & Hr & Hp). destruct (partner_covered _ _ _ _ _ _ _ Hwf Hr Hp) as (H1 & _ & _).
  unfold rule_of in *. by rw -Hns H1 Hr.
Qed.

Lemma paired_domain rules w1 w2 :
  rules_wf rules -> paired rules w1 w2 -> wrapper_domain_id w1 <> wrapper_domain_id w2.
Proof.
  intros Hwf (Hns & r & Hr & Hp). destruct (partner_covered _ _ _ _ _ _ _ Hwf Hr Hp) as (_ & _ & H1).
  congruence.
Qed.

Lemma paired_functional rules w w1 w2 :
  paired rules w w1 -> paired rules w w2 -> cell w1 = cell w2.
Proof.
  intros (N1 & r1 & R1 & P1) (N2 & r2 & R2 & P2). rw R1 in R2. injection R2 as <-.
  rw P1 in P2. injection P2 as E1 E2. unfold cell. congruence.
Qed.

(** The partner [find_grouped_topic_struct] finds is a wrapper paired with the cell. *)
Lemma find_grouped_spec k n ns d w0 :
  rules_wf (domain_rule_htable k) -> NoDup (cell <$> topic_hashtable k) ->
  key w0 = n -> wrapper_ipc_ns w0 = ns -> wrapper_domain_id w0 = d ->
  match find_grouped_topic_struct k n ns d with
  | Some a => exists w, w ∈ topic_hashtable k /\ topic w = a /\ paired (domain_rule_htable k) w0 w
  | None => forall w, w ∈ topic_hashtable k -> ~ paired (domain_rule_htable k) w0 w
  end.
Proof.
  intros Hwf Hd <- <- <-. unfold find_grouped_topic_struct.
  destruct (find_domain_rule _ _ _ _) as [r|] eqn:Hr.
  2: { intros w _ (_ & r & Hr' & _). unfold rule_of in Hr'. congruence. }
  pose proof (find_domain_rule_Some _ _ _ _ _ Hr) as [Hin Hc].
  set (pn := if is_prefix r then key w0 else
     if wrapper_domain_id w0 =? domain_a r then topic_name_b r else topic_name_a r).
  set (pd := if wrapper_domain_id w0 =? domain_a r then domain_b r else domain_a r).
  assert (partner_cell r (key w0) (wrapper_domain_id w0) = (pn, pd)) as Hp.
  { unfold partner_cell, pn, pd. by destruct (_ =? _), (is_prefix r). }
  match goal with |- match ?e with _ => _ end =>
    assert (e = topic <$> find_topic (topic_hashtable k) pn (wrapper_ipc_ns w0) pd) as -> end.
  { unfold pn, pd. destruct (Z.eqb_spec (wrapper_domain_id w0) (domain_a r)) as [Ha|Ha]; [done|].
    destruct (Z.eqb_spec (wrapper_domain_id w0) (domain_b r)) as [Hb|Hb]; [done|].
    unfold rule_covers in Hc. bool_cases. }
  destruct (find_topic _ _ _ _) as [w|] eqn:E; simpl.
  - apply find_topic_cell in E as [Hw [= E1 E2 E3]]. exists w. split_and!; [done|done|].
    split; [done|]. exists r. split; [done|]. by rw Hp E1 E3.
  - intros w Hw (N & r' & Hr' & Hp'). unfold rule_of in Hr'.
    assert (r' = r) as -> by congruence. rw Hp in Hp'. injection Hp' as E1 E2.
    apply (find_topic_None _ _ _ _ E w Hw). unfold cell. congruence.
Qed.
End cells.

(** ** Lemmas: eventfd references *)

Lemma eventfd_put_perm c refs rest :
  refs ≡ₚ c :: rest -> exists refs', eventfd_put c refs = Some refs' /\ refs' ≡ₚ rest.
Proof.
  intros Hp. assert (c ∈ refs) as Hin by (rw Hp; set_solver).
  assert (exists refs', eventfd_put c refs = Some refs' /\ refs ≡ₚ c :: refs') as (refs' & H1 & H2).
  { clear Hp. induction refs as [|x refs IH]; [set_solver|]. simpl.
    destruct (Z.eqb_spec x c) as [->|Hne]; [by exists refs|].
    destruct IH as (refs' & -> & H2); [set_solver|]. exists (x :: refs'). split; [done|].
    rw H2. apply Permutation_swap. }
  exists refs'. split; [done|]. rw H2 in Hp. by apply Permutation_cons_inv in Hp.
Qed.

Lemma eventfd_put_all_perm puts refs rest :
  refs ≡ₚ puts ++ rest -> exists refs', eventfd_put_all puts refs = Some refs' /\ refs' ≡ₚ rest.
Proof.
  revert refs. induction puts as [|c puts IH]; intros refs Hp; simpl; [by exists refs|].
  destruct (eventfd_put_perm c refs (puts ++ rest)) as (refs1 & -> & Hp1); [done|]. by apply IH.
Qed.

Lemma all_ctxs_delete ts a t :
  ts !! a = Some t -> all_ctxs ts ≡ₚ ctxs_of (sub_info_htable t) ++ all_ctxs (delete a ts).
Proof. intros Ha. unfold all_ctxs. by rw -(map_to_list_delete ts a t Ha) bind_cons'. Qed.

Lemma all_ctxs_insert ts a t :
  all_ctxs (<[a := t]> ts) ≡ₚ ctxs_of (sub_info_htable t) ++ all_ctxs (delete a ts).
Proof.
  rw (all_ctxs_delete (<[a := t]> ts) a t); [|by rw lookup_insert_eq].
  by rw delete_insert_eq.
Qed.

(** Replacing a topic by one with the same contexts. *)
Lemma all_ctxs_same ts a t t' :
  ts !! a = Some t -> ctxs_of (sub_info_htable t') ≡ₚ ctxs_of (sub_info_htable t) ->
  all_ctxs (<[a := t']> ts) ≡ₚ all_ctxs ts.
Proof. intros Ha Hc. by rw all_ctxs_insert (all_ctxs_delete ts a t Ha) Hc. Qed.

Lemma all_ctxs_new ts a t :
  ts !! a = None -> ctxs_of (sub_info_htable t) = [] -> all_ctxs (<[a := t]> ts) ≡ₚ all_ctxs ts.
Proof. intros Ha Hc. rw all_ctxs_insert Hc /=. by rw delete_id. Qed.

(** ** Lemmas: rewriting a topic in place *)

Section topics.
Context `{KernelHash}.
Implicit Types (ws : list topic_wrapper) (ts : gmap Z topic_struct)
  (rules : list domain_bridge_rule) (next : Z).

Lemma put_inv ws ts rules next a t t' :
  topics_inv ws ts rules next -> ts !! a = Some t -> heap_ok ws rules next a t' -> rule t' = rule t ->
  topics_inv ws (<[a := t']> ts) rules next.
Proof.
  intros [H1 H2 H3 H4 H5 H6] Ha Hok Hr. split; try done.
  - intros a0 t0 [(<- & <-)|(? & ?)]%lookup_insert_Some; [done|by apply H4].
  - intros w Hw. destruct (H5 w Hw) as (tw & Htw & Hrw).
    destruct (decide (a = topic w)) as [->|Hne].
    + exists t'. rw lookup_insert_eq. split; [done|]. congruence.
    + exists tw. by rw lookup_insert_ne.
Qed.

Lemma put_domains ws ts a t t' :
  domains_inv ws ts -> ts !! a = Some t ->
  (forall d, d ∈ endpoint_domains t' ->
     d ∈ endpoint_domains t \/ exists w, w ∈ ws /\ topic w = a /\ wrapper_domain_id w = d) ->
  domains_inv ws (<[a := t']> ts).
Proof.
  intros Hd Ha Hn a0 t0 d [(<- & <-)|(? & ?)]%lookup_insert_Some Hin; [|by eapply Hd].
  destruct (Hn d Hin); [by eapply Hd|done].
Qed.

(** At most two wrappers share a topic. *)
Lemma sharing_bound ws ts rules next a :
  topics_inv ws ts rules next -> (length (sharing ws a) <= 2)%nat.
Proof.
  intros Hinv. pose proof (tv_cells _ _ _ _ Hinv) as Hd. unfold sharing.
  assert (NoDup (filter (fun w => topic w = a) ws)) as Hnd
    by (apply NoDup_filter; by eapply NoDup_fmap_1).
  destruct (filter (fun w => topic w = a) ws) as [|w1 [|w2 [|w3 rest]]] eqn:E; simpl; try lia.
  exfalso.
  assert (forall w, w ∈ [w1; w2; w3] -> w ∈ ws /\ topic w = a) as Hin.
  { intros w Hw. assert (w ∈ filter (fun w => topic w = a) ws) as Hf by (rw E; set_solver).
    by apply list_elem_of_filter in Hf as [? ?]. }
  destruct (Hin w1 ltac:(set_solver)) as [I1 T1], (Hin w2 ltac:(set_solver)) as [I2 T2],
    (Hin w3 ltac:(set_solver)) as [I3 T3].
  assert (w1 <> w2 /\ w1 <> w3 /\ w2 <> w3) as (N1 & N2 & N3).
  { apply NoDup_cons in Hnd as [Ha1 Hnd]. apply NoDup_cons in Hnd as [Ha2 _]. set_solver. }
  destruct (proj1 (tv_shared _ _ _ _ Hinv w1 w2 I1 I2)) as [?|P1]; [congruence|done|].
  destruct (proj1 (tv_shared _ _ _ _ Hinv w1 w3 I1 I3)) as [?|P2]; [congruence|done|].
  apply N3. apply (cell_inj ws); [done..|]. by apply (paired_functional rules w1).
Qed.

Lemma sharing_nonempty ws w : w ∈ ws -> (1 <= length (sharing ws (topic w)))%nat.
Proof.
  intros Hw. assert (w ∈ sharing ws (topic w)) as Hin by (by apply list_elem_of_filter).
  destruct (sharing _ _); [set_solver|simpl; lia].
Qed.

(** A wrapper added for a cell no wrapper has, pointing where the rules say. *)
Lemma sharing_add ws a w :
  length (sharing (hash_add topic_bucket w ws) a) =
  ((if decide (topic w = a) then 1 else 0) + length (sharing ws a))%nat.
Proof. unfold sharing. rw hash_add_perm filter_cons. by case_decide. Qed.

Lemma heap_ok_other ws ws' rules next next' a t :
  heap_ok ws rules next a t -> length (sharing ws' a) = length (sharing ws a) -> next <= next' ->
  heap_ok ws' rules next' a t.
Proof. intros [H1 H2 H3 H4 H5 H6] Hs Hn. split; try done; [lia|]. by rw H5 Hs. Qed.

Lemma topic_core_refcnt t n : topic_wf t -> topic_wf (set_refcnt n t).
Proof. intros []. by split. Qed.

Lemma notify_ok_refcnt rules t n : notify_ok rules t -> notify_ok rules (set_refcnt n t).
Proof. by apply (notify_ok_subs_ext rules t). Qed.

Lemma new_topic_heap_ok ws rules next r :
  length (sharing ws next) = 1%nat -> heap_ok ws rules (next + 1) next (new_topic_struct r).
Proof.
  intros Hs. split; simpl; try (by constructor); try lia.
  apply new_topic_wf.
Qed.

Lemma sharing_fresh ws ts rules next : topics_inv ws ts rules next -> sharing ws next = [].
Proof.
  intros Hinv. apply filter_none. intros w Hw Heq.
  destruct (tv_wrappers _ _ _ _ Hinv w Hw) as (t & Ht & _).
  pose proof (ho_addr _ _ _ _ _ (tv_heap _ _ _ _ Hinv _ _ Ht)). lia.
Qed.

Lemma fresh_lookup ws ts rules next : topics_inv ws ts rules next -> ts !! next = None.
Proof.
  intros Hinv. destruct (ts !! next) as [t|] eqn:E; [|done].
  pose proof (ho_addr _ _ _ _ _ (tv_heap _ _ _ _ Hinv _ _ E)). lia.
Qed.

(** ** Lemmas: adding and releasing a wrapper *)

Lemma shared_add ws rules w :
  rules_wf rules ->
  (forall w1 w2, w1 ∈ ws -> w2 ∈ ws -> topic w1 = topic w2 <-> w1 = w2 \/ paired rules w1 w2) ->
  w ∉ ws -> (forall w2, w2 ∈ ws -> topic w = topic w2 <-> paired rules w w2) ->
  forall w1 w2, w1 ∈ hash_add topic_bucket w ws -> w2 ∈ hash_add topic_bucket w ws ->
    topic w1 = topic w2 <-> w1 = w2 \/ paired rules w1 w2.
Proof.
  intros Hwf Hs Hno Hw w1 w2 [->|H1]%elem_of_hash_add [->|H2]%elem_of_hash_add.
  - tauto.
  - rw (Hw w2 H2). split; [tauto|]. by intros [->|?].
  - split.
    + intros Heq. right. apply paired_sym; [done|]. by apply Hw.
    + intros [->|Hp]; [done|]. symmetry. apply Hw; [done|]. by apply paired_sym.
  - by apply Hs.
Qed.

(** Before a cell joins its partner's topic, the partner alone points to it. *)
Lemma sharing_partner ws ts rules next w0 wp :
  topics_inv ws ts rules next -> (forall w, w ∈ ws -> cell w <> cell w0) -> wp ∈ ws ->
  paired rules w0 wp -> sharing ws (topic wp) = [wp].
Proof.
  intros Hinv Hno Hwp Hp. pose proof (tv_cells _ _ _ _ Hinv) as Hd.
  assert (forall w, w ∈ sharing ws (topic wp) -> w = wp) as Hall.
  { intros w [Ht Hw]%list_elem_of_filter.
    destruct (proj1 (tv_shared _ _ _ _ Hinv wp w Hwp Hw)) as [?|Hpw]; [done|done|].
    exfalso. apply (Hno w Hw). apply (paired_functional rules wp); [done|].
    apply paired_sym; [apply (tv_rules _ _ _ _ Hinv)|done]. }
  assert (NoDup (sharing ws (topic wp))) as Hnd by (apply NoDup_filter; by eapply NoDup_fmap_1).
  assert (wp ∈ sharing ws (topic wp)) as Hin by (by apply list_elem_of_filter).
  destruct (sharing ws (topic wp)) as [|x [|y l]]; [set_solver| |].
  - by rw (Hall x ltac:(set_solver)).
  - apply NoDup_cons in Hnd as [Hx _]. exfalso. apply Hx.
    rw (Hall x ltac:(set_solver)) (Hall y ltac:(set_solver)). set_solver.
Qed.

Lemma add_wrapper_joined ws ts rules next w wp t :
  topics_inv ws ts rules next -> (forall w', w' ∈ ws -> cell w' <> cell w) -> wp ∈ ws ->
  paired rules w wp -> topic w = topic wp -> ts !! topic w = Some t ->
  topics_inv (hash_add topic_bucket w ws)
    (<[topic w := set_refcnt (u32 (wrapper_refcnt t + 1)) t]> ts) rules next.
Proof.
  intros Hinv Hno Hwp Hp Ht Hl. pose proof (sharing_partner _ _ _ _ w wp Hinv Hno Hwp Hp) as Hs.
  pose proof Hinv as [H1 H2 H3 H4 H5 H6]. pose proof (H4 _ _ Hl) as [O1 O2 O3 O4 O5 O6].
  assert (w ∉ ws) as Hnw by (intros Hin; by apply (Hno w Hin)).
  assert (wrapper_refcnt t = 1) as Hr by (by rw O5 Ht Hs).
  split; [done|done| | | |].
  - apply NoDup_fmap_hash_add; [done|]. intros (w' & Hc & Hw')%list_elem_of_fmap.
    by apply (Hno w' Hw').
  - intros a t' [(<- & <-)|(Hne & Ha)]%lookup_insert_Some.
    + split; simpl; rw ?Hr; try done; [by apply topic_core_refcnt|by apply notify_ok_refcnt|].
      rw sharing_add decide_True //. by rw Ht Hs.
    + apply (heap_ok_other ws _ rules next); [by apply H4| |done].
      rw sharing_add. by rw decide_False.
  - intros w' [->|Hw']%elem_of_hash_add.
    + rw lookup_insert_eq. eexists. split; [done|]. simpl.
      destruct (H5 wp Hwp) as (tp & Htp & Hrp). rw (paired_rule rules w wp) //. congruence.
    + destruct (H5 w' Hw') as (t' & Ht' & Hr'). destruct (decide (topic w = topic w')) as [Heq|Hne].
      * rw -Heq lookup_insert_eq. eexists. split; [done|]. simpl. congruence.
      * exists t'. by rw lookup_insert_ne.
  - apply shared_add; [done|done|done|]. intros w2 Hw2. split.
    + intros Heq. assert (w2 ∈ sharing ws (topic wp)) as Hin
        by (apply list_elem_of_filter; split; [congruence|done]).
      rw Hs in Hin. by apply list_elem_of_singleton in Hin as ->.
    + intros Hpw. rw Ht. f_equal. apply (cell_inj ws); [done..|]. by apply (paired_functional rules w).
Qed.

Lemma add_wrapper_new ws ts rules next w :
  topics_inv ws ts rules next -> (forall w', w' ∈ ws -> cell w' <> cell w) ->
  (forall w', w' ∈ ws -> ~ paired rules w w') -> topic w = next ->
  topics_inv (hash_add topic_bucket w ws)
    (<[next := new_topic_struct (rule_addr <$> rule_of rules w)]> ts) rules (next + 1).
Proof.
  intros Hinv Hno Hnp Ht. pose proof (sharing_fresh _ _ _ _ Hinv) as Hs.
  pose proof Hinv as [H1 H2 H3 H4 H5 H6].
  assert (w ∉ ws) as Hnw by (intros Hin; by apply (Hno w Hin)).
  assert (forall w', w' ∈ ws -> topic w' <> next) as Hne.
  { intros w' Hw' Heq. assert (w' ∈ sharing ws next) as Hin by (by apply list_elem_of_filter).
    rw Hs in Hin. set_solver. }
  split; [done| | | | |].
  - eapply Forall_impl; [exact H2|]. simpl. lia.
  - apply NoDup_fmap_hash_add; [done|]. intros (w' & Hc & Hw')%list_elem_of_fmap.
    by apply (Hno w' Hw').
  - intros a t [(<- & <-)|(Hna & Ha)]%lookup_insert_Some.
    + apply new_topic_heap_ok. by rw sharing_add decide_True // Hs.
    + apply (heap_ok_other ws _ rules next); [by apply H4| |lia].
      rw sharing_add. rw decide_False; [done|congruence].
  - intros w' [->|Hw']%elem_of_hash_add.
    + rw Ht lookup_insert_eq. by eexists.
    + destruct (H5 w' Hw') as (t & ? & ?). exists t. rw lookup_insert_ne; [done|].
      by apply not_eq_sym, Hne.
  - apply shared_add; [done|done|done|]. intros w2 Hw2. split.
    + intros Heq. exfalso. apply (Hne w2 Hw2). congruence.
    + intros Hp. by apply Hnp in Hp.
Qed.


(** What [add_topic] and [agnocast_release_topic_wrapper] leave alone. *)
Record same_rest (k k' : kstate) : Prop := {
  sr_reg : reg k' = reg k;
  sr_bridges : bridge_htable k' = bridge_htable k;
  sr_rules : domain_rule_htable k' = domain_rule_htable k;
  sr_size : mempool_size_bytes k' = mempool_size_bytes k
}.

Definition kernel_topics_inv (k : kstate) : Prop :=
  topics_inv (topic_hashtable k) (topics k) (domain_rule_htable k) (next_addr k).

Lemma add_topic_spec al k n ns d k' r :
  kernel_topics_inv k -> add_topic al k n ns d = (k', r) ->
  kernel_topics_inv k' /\ same_rest k k' /\ eventfd_refs k' = eventfd_refs k /\
  all_ctxs (topics k') ≡ₚ all_ctxs (topics k) /\
  (forall w, w ∈ topic_hashtable k -> w ∈ topic_hashtable k') /\
  (domains_inv (topic_hashtable k) (topics k) -> domains_inv (topic_hashtable k') (topics k')) /\
  match r with
  | Ok w => w ∈ topic_hashtable k' /\ cell w = (n, ns, d)
  | Err e => e = ENOMEM /\ k' = k /\ exists i, al i = false
  | Oops => False
  end.
Proof.
  intros Hinv. assert (same_rest k k) as Hrefl by done. unfold add_topic.
  destruct (find_topic _ _ _ _) as [w|] eqn:Ef.
  { intros [= <- <-]. apply find_topic_cell in Ef as [? ?]. by split_and!. }
  destruct (al 0%nat) eqn:A0; [|intros [= <- <-]; split_and!; try done; by eauto].
  destruct (al 1%nat) eqn:A1; [|intros [= <- <-]; split_and!; try done; by eauto].
  pose proof (find_topic_None _ _ _ _ Ef) as Hno. pose proof Hinv as [H1 H2 H3 H4 H5 H6].
  assert (forall ws' w w', w' ∈ ws' -> w' ∈ hash_add topic_bucket w ws') as Hadd
    by (intros; apply elem_of_hash_add; by right).
  assert (forall w, w ∈ hash_add topic_bucket w (topic_hashtable k)) as Hself
    by (intros; apply elem_of_hash_add; by left).
  destruct (find_grouped_topic_struct _ _ _ _) as [a|] eqn:Eg.
  - set (w := TopicWrapper ns d n a).
    pose proof (find_grouped_spec k n ns d w H1 H3 eq_refl eq_refl eq_refl) as Hg. rw Eg in Hg.
    destruct Hg as (wp & Hwp & Ha & Hp). destruct (H5 wp Hwp) as (t & Ht & Hr).
    rw Ha in Ht. rw Ht. intros [= <- <-]. split_and!; try done.
    + by apply (add_wrapper_joined _ _ _ _ w wp).
    + simpl. by apply (all_ctxs_same _ _ t).
    + intros w'. apply Hadd.
    + intros Hdom. simpl. intros a0 t0 d0 [(<- & <-)|(Hna & Hl)]%lookup_insert_Some Hd0.
      * destruct (Hdom a t d0 Ht Hd0) as (w' & ? & ? & ?). eauto.
      * destruct (Hdom a0 t0 d0 Hl Hd0) as (w' & ? & ? & ?). eauto.
  - destruct (al 2%nat) eqn:A2; [|intros [= <- <-]; split_and!; try done; by eauto].
    set (w := TopicWrapper ns d n (next_addr k)).
    pose proof (find_grouped_spec k n ns d w H1 H3 eq_refl eq_refl eq_refl) as Hg. rw Eg in Hg.
    intros [= <- <-]. split_and!; try done.
    + by apply (add_wrapper_new _ _ _ _ w).
    + simpl. apply all_ctxs_new; [|done]. by eapply fresh_lookup.
    + intros w'. apply Hadd.
    + intros Hdom. simpl. intros a0 t0 d0 [(<- & <-)|(Hna & Hl)]%lookup_insert_Some Hd0.
      * by apply elem_of_nil in Hd0.
      * destruct (Hdom a0 t0 d0 Hl Hd0) as (w' & ? & ? & ?). eauto.
Qed.

Lemma same_cell_true w w' :
  same_cell (key w) (wrapper_ipc_ns w) (wrapper_domain_id w) w' = true <-> cell w' = cell w.
Proof.
  unfold same_cell, cell. split.
  - intros Hs. bool_to_prop. congruence.
  - intros [= -> -> ->]. by rw !Z.eqb_refl String.eqb_refl.
Qed.

Definition without_wrapper (w : topic_wrapper) (ws : list topic_wrapper) : list topic_wrapper :=
  hash_del (same_cell (key w) (wrapper_ipc_ns w) (wrapper_domain_id w)) ws.

Lemma without_wrapper_perm ws w :
  NoDup (cell <$> ws) -> w ∈ ws -> ws ≡ₚ w :: without_wrapper w ws.
Proof.
  intros Hd Hw. apply hash_del_perm.
  destruct (find_is_Some (same_cell (key w) (wrapper_ipc_ns w) (wrapper_domain_id w)) ws w)
    as [w' Hw']; [done|by apply same_cell_true|].
  rw Hw'. f_equal. apply find_Some_inv in Hw' as [Hin Hc%same_cell_true]. by apply (cell_inj ws).
Qed.

Lemma elem_of_without_wrapper ws w w' :
  NoDup (cell <$> ws) -> w ∈ ws -> w' ∈ without_wrapper w ws <-> w' ∈ ws /\ w' <> w.
Proof.
  intros Hd Hw. pose proof (without_wrapper_perm ws w Hd Hw) as Hp.
  assert (NoDup (w :: without_wrapper w ws)) as Hnd by (rw -Hp; by eapply NoDup_fmap_1).
  apply NoDup_cons in Hnd as [Hn _]. rw {2}Hp elem_of_cons. split.
  - intros Hin. split; [by right|]. by intros ->.
  - intros [[->|?] ?]; done.
Qed.

Lemma sharing_without ws w a :
  NoDup (cell <$> ws) -> w ∈ ws ->
  length (sharing ws a) =
  ((if decide (topic w = a) then 1 else 0) + length (sharing (without_wrapper w ws) a))%nat.
Proof.
  intros Hd Hw. unfold sharing. rw {1}(without_wrapper_perm ws w Hd Hw) filter_cons.
  by case_decide.
Qed.

(** Releasing a wrapper: it leaves the table; the topic goes with its last wrapper, and with the
    topic the eventfd contexts of its subscribers are put. *)
Lemma release_spec k w :
  kernel_topics_inv k -> w ∈ topic_hashtable k -> eventfd_refs k ≡ₚ all_ctxs (topics k) ->
  exists k', agnocast_release_topic_wrapper k w = (k', Ok tt) /\
    kernel_topics_inv k' /\ same_rest k k' /\ eventfd_refs k' ≡ₚ all_ctxs (topics k') /\
    topic_hashtable k' = without_wrapper w (topic_hashtable k) /\ next_addr k' = next_addr k /\
    (forall a t', topics k' !! a = Some t' -> exists t n, topics k !! a = Some t /\
       t' = set_refcnt n t).
Proof.
  intros Hinv Hw Hrefs. pose proof Hinv as [H1 H2 H3 H4 H5 H6].
  destruct (H5 w Hw) as (t & Ht & Hr). pose proof (H4 _ _ Ht) as [O1 O2 O3 O4 O5 O6].
  pose proof (sharing_bound _ _ _ _ (topic w) Hinv) as Hb.
  pose proof (sharing_without _ w (topic w) H3 Hw) as Hlen. rw decide_True // in Hlen.
  assert (NoDup (cell <$> without_wrapper w (topic_hashtable k))) as H3'
    by (by apply NoDup_fmap_hash_del).
  assert (forall w', w' ∈ without_wrapper w (topic_hashtable k) <->
    w' ∈ topic_hashtable k /\ w' <> w) as Hin by (intros; by apply elem_of_without_wrapper).
  assert (u32 (wrapper_refcnt t - 1) =
    Z.of_nat (length (sharing (without_wrapper w (topic_hashtable k)) (topic w)))) as Hn.
  { rw O5 Hlen. unfold u32. rw Z.mod_small; lia. }
  assert (forall a t', topic w <> a -> topics k !! a = Some t' ->
    heap_ok (without_wrapper w (topic_hashtable k)) (domain_rule_htable k) (next_addr k) a t')
    as Hother.
  { intros a t' Hne Ha. apply (heap_ok_other (topic_hashtable k) _ _ (next_addr k)); [by apply H4| |done].
    rw (sharing_without _ w a H3 Hw). by rw decide_False. }
  unfold agnocast_release_topic_wrapper. simpl. rw Ht Hn.
  destruct (Z.eqb_spec (Z.of_nat (length (sharing (without_wrapper w (topic_hashtable k)) (topic w)))) 0)
    as [Hz|Hz].
  - destruct (eventfd_put_all_perm (ctxs_of (sub_info_htable t)) (eventfd_refs k)
      (all_ctxs (delete (topic w) (topics k)))) as (refs & Hput & Hperm).
    { by rw Hrefs (all_ctxs_delete _ _ _ Ht). }
    unfold ctxs_of in Hput. rw Hput. eexists. split_and!; [done| |done|done|done|done|].
    + split; simpl; try done.
      * intros a t' [Hne Ha]%lookup_delete_Some. by apply Hother.
      * intros w' [Hw' Hne]%Hin. destruct (H5 w' Hw') as (t' & Ht' & Hr'). exists t'.
        split; [|done]. apply lookup_delete_Some. split; [|done]. intros Heq.
        pose proof (sharing_nonempty (without_wrapper w (topic_hashtable k)) w') as Hs.
        rw -Heq in Hs. assert (w' ∈ without_wrapper w (topic_hashtable k)) as Hw'' by (by apply Hin).
        specialize (Hs Hw''). lia.
      * intros w1 w2 [? _]%Hin [? _]%Hin. by apply H6.
    + simpl. intros a t' [_ Ha]%lookup_delete_Some. exists t', (wrapper_refcnt t'). by destruct t'.
  - eexists. split_and!; [done| |done| |done|done|].
    + split; simpl; try done.
      * intros a t' [(<- & <-)|(Hne & Ha)]%lookup_insert_Some; [|by apply Hother].
        split; simpl; try done; [by apply topic_core_refcnt|by apply notify_ok_refcnt|lia].
      * intros w' [Hw' Hne]%Hin. destruct (H5 w' Hw') as (t' & Ht' & Hr').
        destruct (decide (topic w = topic w')) as [Heq|Hne'].
        -- rw -Heq lookup_insert_eq. eexists. split; [done|]. simpl. congruence.
        -- exists t'. by rw lookup_insert_ne.
      * intros w1 w2 [? _]%Hin [? _]%Hin. by apply H6.
    + simpl. rw Hrefs. symmetry. by apply (all_ctxs_same _ _ t).
    + simpl. intros a t' [(<- & <-)|(Hne & Ha)]%lookup_insert_Some; [by eauto|].
      exists t', (wrapper_refcnt t'). by destruct t'.
Qed.

(** New rules leave the topics as they are: the rule of every existing cell stays the same. *)
Lemma rules_keep_topics ws ts rules rules' next fresh a t :
  topics_inv ws ts rules next -> rules_extend ws fresh rules rules' -> ts !! a = Some t ->
  rule_at rules' (rule t) = rule_at rules (rule t).
Proof.
  intros [H1 H2 H3 H4 H5 H6] [E1 E2 E3] Ha.
  assert (exists w, w ∈ ws /\ topic w = a) as (w & Hin & <-).
  { pose proof (H4 _ _ Ha) as [_ _ _ _ O5 O6].
    destruct (sharing ws a) as [|w l] eqn:Es; [simpl in *; lia|]. exists w.
    assert (w ∈ sharing ws a) as Hin by (rw Es; set_solver).
    by apply list_elem_of_filter in Hin as [? ?]. }
  destruct (H5 w Hin) as (t' & Ht' & Hr'). assert (t' = t) as -> by congruence. rw Hr'.
  assert (forall rs, rules_wf rs -> rule_at rs (rule_addr <$> rule_of rs w) = rule_of rs w) as Hf.
  { intros rs Hrs. destruct (rule_of rs w) as [r|] eqn:Er; [|done].
    apply rule_at_Some; [apply (wf_rule_addrs _ Hrs)|].
    by apply find_domain_rule_Some in Er as [? _]. }
  assert (rule_of rules' w = rule_of rules w) as Hrule by (by apply E2).
  rw (Hf rules H1) -Hrule. by apply Hf.
Qed.

Lemma rules_inv ws ts rules rules' next fresh :
  topics_inv ws ts rules next -> fresh = next -> rules_extend ws fresh rules rules' ->
  topics_inv ws ts rules' (next + 1).
Proof.
  intros Hinv -> Hext. pose proof Hinv as [H1 H2 H3 H4 H5 H6]. pose proof Hext as [E1 E2 E3].
  assert (forall w, w ∈ ws -> rule_of rules' w = rule_of rules w) as Hrule by (intros; by apply E2).
  assert (forall a t, ts !! a = Some t -> rule_at rules' (rule t) = rule_at rules (rule t)) as Hat
    by (intros; by eapply rules_keep_topics).
  split; [done| |done| | |].
  - apply Forall_forall. intros r' Hr'. destruct (E3 r' Hr') as [->|(r & Heq & Hr)%list_elem_of_fmap].
    + lia.
    + rw Heq. rw Forall_forall in H2. specialize (H2 r Hr). lia.
  - intros a t Ha. pose proof (H4 _ _ Ha) as [O1 O2 O3 O4 O5 O6]. split; try done; [|lia].
    unfold notify_ok in *. eapply Forall_impl; [exact O2|]. intros p [L1 L2]. split; [|done].
    rw L1. unfold notify_target, domain_delivery_allowed. by rw (Hat a t Ha).
  - intros w Hin. rw Hrule; [by apply H5|done].
  - intros w1 w2 I1 I2. rw (H6 w1 w2 I1 I2). unfold paired. by rw (Hrule w1 I1).
Qed.
End topics.
