(* ===== verification/KSystem.v ===== *)
(** * Kernel module: every call keeps the invariant

    The invariant of the whole module state ([kinv]): the registry, the bridges, the topic tables
    and the eventfd references.  Each system call and each cleanup of KState keeps it and follows
    no dangling pointer. *)

From S2P Require Import Prelude Kernel KMempool KTypes KRules KTopic KMessage KCleanup KRegistry.
From S2P Require Import KState KInvariant.

(** ** Specification *)

Record kinv (pool0 : list mempool_entry) `{KernelHash} (k : kstate) : Prop := {
  ki_reg : registry_wf pool0 (reg k);
  ki_bridges : bridges_wf (bridge_htable k);
  ki_topics : kernel_topics_inv k;
  ki_domains : domains_inv (topic_hashtable k) (topics k);
  ki_refs : eventfd_refs k ≡ₚ all_ctxs (topics k)
}.

(** Counters have not run out: fewer than 2^32 entries per topic and 2^63 entries ever. *)
Definition room (k : kstate) : Prop :=
  forall a t, topics k !! a = Some t -> room_for_entry t.

(** What a call may do to one topic: keep the fields of [topic_core], and neither a new domain nor
    an invalid pid among the endpoints. *)
Record keeps (t t' : topic_struct) : Prop := {
  kp_core : topic_core t' = topic_core t;
  kp_domains : forall d, d ∈ endpoint_domains t' -> d ∈ endpoint_domains t;
  kp_pids : valid_endpoint_pids t -> valid_endpoint_pids t'
}.

(** The same, with every endpoint still there. *)
Record frame (t t' : topic_struct) : Prop := {
  fr_core : topic_core t' = topic_core t;
  fr_pubs : pub_domain_id <$> pub_info_htable t' = pub_domain_id <$> pub_info_htable t;
  fr_subs : notify_view <$> sub_info_htable t' = notify_view <$> sub_info_htable t
}.

(** ** Lemmas: frames *)

Lemma frame_refl t : frame t t.
Proof. done. Qed.

Lemma frame_trans t1 t2 t3 : frame t1 t2 -> frame t2 t3 -> frame t1 t3.
Proof. intros [A1 A2 A3] [B1 B2 B3]. split; congruence. Qed.

Lemma frame_entries t l : frame t (set_entries l t).
Proof. done. Qed.

Lemma frame_ids t a b : frame t (set_ids a b t).
Proof. done. Qed.

Lemma frame_ros2 t a b : frame t (set_ros2_nums a b t).
Proof. done. Qed.

Lemma frame_upd_publisher t id f :
  (forall p, pub_domain_id (f p) = pub_domain_id p) -> frame t (upd_publisher id f t).
Proof. intros Hf. split; [done| |done]. by apply fmap_hash_upd. Qed.

Lemma frame_upd_subscriber t id f :
  (forall s, notify_view (f s) = notify_view s) -> frame t (upd_subscriber id f t).
Proof. intros Hf. split; [done|done|]. by apply fmap_hash_upd. Qed.

Lemma fmap_via {A B C} (f : A -> B) (g : B -> C) (l l' : list A) :
  f <$> l' = f <$> l -> (fun x => g (f x)) <$> l' = (fun x => g (f x)) <$> l.
Proof.
  intros Hf. transitivity (g <$> (f <$> l')); [by rw -list_fmap_compose|].
  by rw Hf -list_fmap_compose.
Qed.

Lemma ctxs_of_view subs :
  ctxs_of subs = (notify_view <$> subs) ≫= fun v => option_list v.1.1.1.1.
Proof. unfold ctxs_of. induction subs as [|s subs IH]; csimpl; [done|]. by rw IH. Qed.

Lemma frame_ctxs t t' : frame t t' -> ctxs_of (sub_info_htable t') = ctxs_of (sub_info_htable t).
Proof. intros [_ _ Hs]. by rw !ctxs_of_view Hs. Qed.

Lemma frame_keeps t t' : frame t t' -> keeps t t'.
Proof.
  intros [Hc Hp Hs]. split; [done| |].
  - intros d. unfold endpoint_domains.
    rw Hp (fmap_via notify_view (fun v => v.1.1.1.2) (sub_info_htable t) (sub_info_htable t') Hs).
    done.
  - unfold valid_endpoint_pids.
    apply (Forall_proj notify_view (fun v => valid_pid v.2) (sub_info_htable t) _ Hs).
Qed.

Section frames.
Context `{KernelHash}.

Lemma publish_frame al procs pool size t id a t' signals r :
  publish_msg_topic al procs pool size t id a = (t', signals, r) -> frame t t'.
Proof.
  unfold publish_msg_topic, insert_message_entry, release_msgs_to_meet_depth.
  intros Hrun. repeat case_match; simplify_eq; try done; (split; [done| |done]); simpl;
    by rw ?fmap_hash_upd.
Qed.

Lemma receive_core_frame rules procs t s id t' r :
  receive_msg_core rules procs t s id = (t', r) -> frame t t'.
Proof.
  unfold receive_msg_core. intros Hrun. repeat case_match; simplify_eq; try done; (split; [done|done|]); simpl;
    by rw fmap_hash_upd.
Qed.

Lemma take_core_frame rules procs t s id allow t' r :
  take_core rules procs t s id allow = (t', r) -> frame t t'.
Proof.
  unfold take_core. intros Hrun. repeat case_match; simplify_eq; try done; (split; [done|done|]); simpl;
    by rw fmap_hash_upd.
Qed.

Lemma update_shm_frame {A} al vnr rules procs t domain s size pool (a : A) t' pool' r :
  update_publisher_shm al vnr rules procs t domain s size pool a = (t', pool', r) -> frame t t'.
Proof.
  unfold update_publisher_shm. intros Hrun. repeat case_match; simplify_eq; try done;
    by apply frame_upd_subscriber.
Qed.

Lemma receive_frame al vnr rules procs pool t domain id size t' pool' r :
  receive_msg_topic al vnr rules procs pool t domain id size = (t', pool', r) -> frame t t'.
Proof.
  unfold receive_msg_topic. intros Hrun.
  destruct (find_subscriber_info t id) as [s|]; [|by simplify_eq].
  destruct (receive_msg_core _ _ _ _ _) as [t1 r1] eqn:Hc. apply receive_core_frame in Hc.
  destruct r1; simplify_eq; try done. by eapply frame_trans, update_shm_frame.
Qed.

Lemma take_frame al vnr rules procs pool t domain id allow size t' pool' r :
  take_msg_topic al vnr rules procs pool t domain id allow size = (t', pool', r) -> frame t t'.
Proof.
  unfold take_msg_topic. intros Hrun.
  destruct (find_subscriber_info t id) as [s|]; [|by simplify_eq].
  destruct (take_core _ _ _ _ _ _) as [t1 r1] eqn:Hc. apply take_core_frame in Hc.
  destruct r1; simplify_eq; try done. by eapply frame_trans, update_shm_frame.
Qed.

Lemma release_reference_frame t id eid t' r :
  release_reference_topic t id eid = (t', r) -> frame t t'.
Proof. unfold release_reference_topic. intros Hrun. by repeat case_match; simplify_eq. Qed.

Lemma reserve_frame al n t b t' : reserve_all_notify_ctxs al n t = (b, t') -> frame t t'.
Proof.
  unfold reserve_all_notify_ctxs. destruct (reserve_loop _ _ _) as [ok pubs] eqn:E.
  intros [= <- <-]. apply reserve_loop_spec in E as [Hg _]. split; [done| |done].
  by apply (grown_fmap pub_domain_id).
Qed.

Lemma rebuild_frame rules t : frame t (rebuild_all_notify_lists rules t).
Proof.
  split; [done| |done]. unfold rebuild_all_notify_lists. simpl.
  induction (pub_info_htable t) as [|p l IH]; csimpl; [done|]. by rw IH.
Qed.

Lemma insert_subscriber_frame al rules t domain pid a ctx t' r :
  insert_subscriber_info al rules t domain pid a ctx = (t', r) ->
  topic_core t' = topic_core t /\
  pub_domain_id <$> pub_info_htable t' = pub_domain_id <$> pub_info_htable t /\
  match r with
  | Ok s => sub_info_htable t' = hash_add sub_bucket s (sub_info_htable t) /\
      sub_domain_id s = domain /\ sub_pid s = pid /\ notify_ctx s = ctx
  | _ => sub_info_htable t' = sub_info_htable t
  end.
Proof.
  unfold insert_subscriber_info.
  destruct (negb _); [|by intros [= <- <-]]. destruct (negb _); [|by intros [= <- <-]].
  destruct (al 0%nat); [|by intros [= <- <-]]. destruct (al 1%nat); [|by intros [= <- <-]].
  destruct ctx as [c|].
  - destruct (reserve_all_notify_ctxs _ _ _) as [ok t1] eqn:E.
    assert (sub_info_htable t1 = sub_info_htable t) as Hs.
    { unfold reserve_all_notify_ctxs in E. by destruct (reserve_loop _ _ _); simplify_eq. }
    apply reserve_frame in E as [E1 E2 _]. destruct ok; intros [= <- <-]; [|done].
    match goal with |- context [rebuild_all_notify_lists rules ?t2] =>
      destruct (rebuild_frame rules t2) as [F1 F2 _] end.
    rw F2. simpl. split_and!; try done. by rw Hs.
  - by intros [= <- <-].
Qed.

Lemma insert_publisher_frame al rules t domain pid a t' r :
  insert_publisher_info al rules t domain pid a = (t', r) ->
  topic_core t' = topic_core t /\ sub_info_htable t' = sub_info_htable t /\
  match r with
  | Ok p => pub_info_htable t' = hash_add pub_bucket p (pub_info_htable t) /\ pub_domain_id p = domain
  | _ => pub_info_htable t' = pub_info_htable t
  end.
Proof.
  unfold insert_publisher_info.
  destruct (negb _); [|by intros [= <- <-]]. destruct (negb _); [|by intros [= <- <-]].
  destruct (al 0%nat); [|by intros [= <- <-]]. destruct (al 1%nat); [|by intros [= <- <-]].
  destruct (reserve_notify_ctxs _ _ _) as [ok p] eqn:E.
  apply reserve_notify_ctxs_spec in E as [(cap & -> & _) _].
  destruct ok; by intros [= <- <-].
Qed.

(** ** Lemmas: endpoints leaving *)

Lemma keeps_trans t1 t2 t3 : keeps t1 t2 -> keeps t2 t3 -> keeps t1 t3.
Proof. intros [A1 A2 A3] [B1 B2 B3]. split; [congruence|auto|auto]. Qed.

(** Publishers dropped or with new counts, subscribers dropped. *)
Lemma keeps_shrinks t t' :
  topic_core t' = topic_core t ->
  (forall p', p' ∈ pub_info_htable t' -> exists p, p ∈ pub_info_htable t /\
     pub_domain_id p = pub_domain_id p') ->
  sub_info_htable t' ⊆ sub_info_htable t -> keeps t t'.
Proof.
  intros Hc Hp Hs. split; [done| |].
  - intros d. unfold endpoint_domains. rw !elem_of_app !list_elem_of_fmap.
    intros [(p' & -> & Hp')|(s & -> & ?)].
    + left. destruct (Hp p' Hp') as (p & ? & ?). by exists p.
    + right. exists s. split; [done|by apply Hs].
  - unfold valid_endpoint_pids. rw !Forall_forall. intros Hv s Hin. by apply Hv, Hs.
Qed.

Lemma shrinks_domains pubs pubs' :
  shrinks pubs pubs' ->
  forall p', p' ∈ pubs' -> exists p, p ∈ pubs /\ pub_domain_id p = pub_domain_id p'.
Proof. intros [_ Hs] p' Hp'. destruct (Hs p' Hp') as (p & n & Hp & ->). by exists p. Qed.

Lemma drop_refs_shrinks procs id l pubs l' pubs' :
  drop_subscriber_refs procs id l pubs = (l', pubs') -> shrinks pubs pubs'.
Proof.
  revert pubs l' pubs'. induction l as [|en l IH]; intros pubs l' pubs'; simpl.
  { intros [= <- <-]. apply shrinks_refl. }
  destruct (agnocast_is_referenced _).
  { destruct (drop_subscriber_refs _ _ _ _) eqn:E. intros [= <- <-]. by eapply IH. }
  destruct (find_pub _ _) as [p|].
  - destruct (owner_gone procs p).
    + intros Hr. eapply shrinks_trans; [apply drop_one_shrinks|by eapply IH].
    + destruct (drop_subscriber_refs _ _ _ _) eqn:E. intros [= <- <-]. by eapply IH.
  - destruct (drop_subscriber_refs _ _ _ _) eqn:E. intros [= <- <-]. by eapply IH.
Qed.

Lemma drop_publisher_core id t : topic_core (drop_publisher id t) = topic_core t.
Proof. unfold drop_publisher. by repeat case_match. Qed.

Lemma drop_publisher_subs id t : sub_info_htable (drop_publisher id t) = sub_info_htable t.
Proof. unfold drop_publisher. by repeat case_match. Qed.

Lemma publisher_exit_core ps t :
  topic_core (fold_left (fun t p => drop_publisher (pub_id p) t) ps t) = topic_core t.
Proof.
  revert t. induction ps as [|p ps IH]; intros t; simpl; [done|].
  rw IH. apply drop_publisher_core.
Qed.

Lemma exit_leaving_core procs leaving t t' puts :
  exit_leaving procs leaving t = (t', puts) -> topic_core t' = topic_core t.
Proof.
  revert t t' puts. induction leaving as [|s l IH]; intros t t' puts; simpl.
  { by intros [= <- <-]. }
  set (t1 := if _ : bool then t else _).
  destruct (exit_leaving procs l t1) as [t2 p2] eqn:E. intros [= <- <-].
  rw (IH _ _ _ E). unfold t1. destruct (_ || _); [done|].
  by destruct (drop_subscriber_refs _ _ _ _).
Qed.

Lemma process_exit_core rules procs t pid t' puts :
  process_exit_topic rules procs t pid = (t', puts) -> topic_core t' = topic_core t.
Proof.
  unfold process_exit_topic, pre_handler_subscriber_exit, pre_handler_publisher_exit.
  intros Hrun. destruct (negb _).
  - apply exit_leaving_core in Hrun as ->. apply publisher_exit_core.
  - injection Hrun as <- <-. apply publisher_exit_core.
Qed.

Lemma remove_subscriber_keeps rules procs t id t' puts r :
  topic_wf t -> notify_ok rules t -> remove_subscriber_topic rules procs t id = (t', puts, r) ->
  keeps t t' /\ ctxs_of (sub_info_htable t) ≡ₚ puts ++ ctxs_of (sub_info_htable t').
Proof.
  intros Hwf Hok Hrun.
  pose proof (remove_subscriber_topic_inv _ _ _ _ _ _ _ Hwf Hok Hrun) as Hinv.
  destruct (find_subscriber_info t id) as [s|] eqn:Hf.
  2: { destruct Hinv as (-> & -> & _). split; [by apply frame_keeps|done]. }
  destruct Hinv as (_ & _ & _ & Hsubs & -> & _).
  pose proof (find_subscriber_info_Some _ _ _ Hf) as [Hs <-].
  unfold remove_subscriber_topic in Hrun. rw Hf in Hrun.
  destruct (agnocast_unlink_subscriber_info rules t s) as [t1 puts1] eqn:Hu.
  destruct (unlink_spec _ _ _ _ _ Hwf Hok Hf Hu) as (_ & _ & S1 & _ & R1 & _ & f & Hpubs & Hfp).
  assert (topic_core t1 = topic_core t) as Hc1.
  { unfold agnocast_unlink_subscriber_info in Hu. by destruct (notify_ctx s); injection Hu as <- _. }
  assert (forall p', p' ∈ pub_info_htable t1 -> exists p, p ∈ pub_info_htable t /\
     pub_domain_id p = pub_domain_id p') as Hd1.
  { intros p'. rw Hpubs. intros (p & -> & Hp)%list_elem_of_fmap. exists p. split; [done|].
    by destruct (Hfp p) as [c ->]. }
  split.
  - apply keeps_shrinks.
    + destruct (negb _); [|by injection Hrun as <- _ _].
      destruct (drop_subscriber_refs _ _ _ _). by injection Hrun as <- _ _.
    + intros p' Hp'. destruct (negb _); [|by injection Hrun as <- _ _; apply Hd1].
      destruct (drop_subscriber_refs _ _ _ _) as [l pubs] eqn:Hd.
      injection Hrun as <- _ _. simpl in Hp'.
      destruct (shrinks_domains _ _ (drop_refs_shrinks _ _ _ _ _ _ Hd) p' Hp') as (q & Hq & <-).
      by apply Hd1.
    + rw Hsubs. intros x. apply elem_of_hash_del.
  - rw Hsubs. rw find_subscriber_info_eq in Hf. unfold ctxs_of.
    by rw {1}(hash_del_perm _ _ _ Hf) bind_cons'.
Qed.

Lemma remove_publisher_keeps rules t id t' r :
  topic_wf t -> notify_ok rules t -> remove_publisher_topic t id = (t', r) ->
  topic_wf t' /\ notify_ok rules t' /\ keeps t t' /\
  sub_info_htable t' = sub_info_htable t /\ r <> Oops.
Proof.
  intros Hwf Hok. unfold remove_publisher_topic.
  destruct (find_publisher_info t id) as [p|] eqn:Hf; intros [= <- <-].
  - destruct (drop_publisher_spec rules t id p Hwf Hok Hf) as (H1 & H2 & _ & H4 & _ & _ & H7 & _).
    split_and!; try done. apply keeps_shrinks; [apply drop_publisher_core| |by rw H4].
    by apply shrinks_domains.
  - split_and!; try done.
Qed.

Lemma process_exit_keeps rules procs t pid t' puts :
  topic_wf t -> notify_ok rules t -> process_exit_topic rules procs t pid = (t', puts) ->
  topic_wf t' /\ notify_ok rules t' /\ keeps t t' /\
  sub_info_htable t' = filter (fun s => sub_pid s <> pid) (sub_info_htable t) /\
  ctxs_of (sub_info_htable t) ≡ₚ puts ++ ctxs_of (sub_info_htable t').
Proof.
  intros Hwf Hok Hrun. pose proof (process_exit_core _ _ _ _ _ _ Hrun) as Hc.
  unfold process_exit_topic in Hrun.
  destruct (pre_handler_publisher_exit_spec rules t pid Hwf Hok)
    as (W1 & N1 & S1 & R1 & Sh1 & _ & _ & _).
  set (t1 := pre_handler_publisher_exit t pid) in *.
  destruct (pre_handler_subscriber_exit_spec procs rules t1 pid t' puts W1 N1 Hrun)
    as (W2 & N2 & R2 & S2 & P2 & _ & Sh2 & _).
  rw S1 in S2. rw S1 in P2. split_and!; try done.
  - apply keeps_shrinks; [done| |rw S2; by intros s [_ Hs]%list_elem_of_filter].
    intros p' Hp'. destruct (Sh2 p' Hp') as (q & Hq & _ & _ & <-).
    by eapply shrinks_domains.
  - rw P2 S2. unfold ctxs_of. rw -bind_app.
    apply bind_perm. symmetry. apply (filter_app_complement (fun s => sub_pid s = pid)).
Qed.
End frames.

(** ** Lemmas: the whole state *)

Section system.
Context `{KernelHash} (pool0 : list mempool_entry).
Local Abbreviation kinv := (kinv pool0).

Lemma find_for_current k e n w :
  kinv k -> find_topic_for_current e k n = Some w ->
  w ∈ topic_hashtable k /\ exists t, topics k !! topic w = Some t /\
    heap_ok (topic_hashtable k) (domain_rule_htable k) (next_addr k) (topic w) t.
Proof.
  intros Hk Hf. apply find_topic_cell in Hf as [Hw _]. split; [done|].
  destruct (tv_wrappers _ _ _ _ (ki_topics _ _ Hk) w Hw) as (t & Ht & _). exists t.
  split; [done|]. by apply (tv_heap _ _ _ _ (ki_topics _ _ Hk)).
Qed.

Lemma put_heap_ok ws rules next a t t' :
  heap_ok ws rules next a t -> topic_wf t' -> notify_ok rules t' -> topic_core t' = topic_core t ->
  valid_endpoint_pids t' -> heap_ok ws rules next a t'.
Proof. intros [H1 H2 H3 H4 H5 H6] Hw Hn [= Hr _] Hv. split; try done; by rw Hr. Qed.

(** Writing one topic: [puts] is what the call put of the topic's eventfd contexts. *)
Lemma keeps_kinv k a t t' puts :
  kinv k -> topics k !! a = Some t -> topic_wf t' -> notify_ok (domain_rule_htable k) t' ->
  keeps t t' -> ctxs_of (sub_info_htable t) ≡ₚ puts ++ ctxs_of (sub_info_htable t') ->
  exists refs, eventfd_put_all puts (eventfd_refs k) = Some refs /\
    kinv (set_eventfds refs (put_topic a t' k)).
Proof.
  intros [K1 K2 K3 K4 K5] Ha Hw Hn [Hc Hd Hv] Hp.
  destruct (eventfd_put_all_perm puts (eventfd_refs k) (all_ctxs (<[a := t']> (topics k))))
    as (refs & Hput & Hperm).
  { rw K5 (all_ctxs_delete _ _ _ Ha) Hp all_ctxs_insert. by rw -app_assoc. }
  exists refs. split; [done|]. pose proof (tv_heap _ _ _ _ K3 _ _ Ha) as Hok.
  split; try done; simpl.
  - apply (put_inv _ _ _ _ _ t); try done.
    + apply (put_heap_ok _ _ _ _ t); try done. apply Hv, Hok.
    + by injection Hc.
  - apply (put_domains _ _ _ t); try done. intros d Hin. left. by apply Hd.
Qed.

Lemma frame_kinv k a t t' :
  kinv k -> topics k !! a = Some t -> topic_wf t' -> notify_ok (domain_rule_htable k) t' ->
  frame t t' -> kinv (put_topic a t' k).
Proof.
  intros Hk Ha Hw Hn Hf. destruct (keeps_kinv k a t t' [] Hk Ha Hw Hn) as (refs & [= <-] & Hk').
  - by apply frame_keeps.
  - by rw (frame_ctxs _ _ Hf).
  - by destruct k.
Qed.

(** The pools grow when subscribers map publishers. *)
Lemma pool_kinv k p :
  kinv k -> pool_wf p -> pool_extends (pool k) p -> kinv (set_pool p k).
Proof.
  intros [K1 K2 K3 K4 K5] Hp He. split; try done. simpl.
  unfold procs, pool in *. destruct (reg k) as [ps ags pl] eqn:Hreg. simpl in *.
  apply (registry_wf_pool pool0 ps ags pl); [done|done| |].
  - clear -He. induction He as [|m m' l l' [Ha _] _ IH]; csimpl; [done|]. by rw Ha IH.
  - intros i m m' q Hm Hm' Hq. destruct (pool_extends_lookup _ _ _ _ He Hm) as (m2 & Hm2 & _ & Hs).
    assert (m2 = m') as -> by congruence. by apply Hs.
Qed.

Lemma kinv_pools_present k t : kinv k -> pools_present (procs k) (pool k) t.
Proof.
  intros Hk p proc _ Hf. apply find_process_info_Some in Hf as [Hp _].
  by apply (rw_present _ _ (ki_reg _ _ Hk)).
Qed.

Lemma kinv_pool_wf k : kinv k -> pool_wf (pool k).
Proof. intros Hk. apply (rw_pool _ _ (ki_reg _ _ Hk)). Qed.

(** ** Lemmas: each call *)

Lemma publish_kinv e k n id a k' signals r :
  kinv k -> room k -> agnocast_ioctl_publish_msg e k n id a = (k', signals, r) ->
  kinv k' /\ r <> Oops.
Proof.
  intros Hk Hroom. unfold agnocast_ioctl_publish_msg.
  destruct (find_topic_for_current e k n) as [w|] eqn:Hf; [|by intros [= <- <- <-]].
  destruct (find_for_current _ _ _ _ Hk Hf) as (Hw & t & Ht & [O1 O2 _ _ _ _]). rw Ht.
  destruct (publish_msg_topic _ _ _ _ _ _ _) as [[t' s] r'] eqn:Hrun. intros [= <- <- <-].
  pose proof (publish_frame _ _ _ _ _ _ _ _ _ _ Hrun) as Hfr.
  destruct (publish_msg_inv _ _ _ _ _ _ _ _ _ _ _ O1 O2 (Hroom _ _ Ht)
    (kinv_pools_present k t Hk) Hrun) as (H1 & H2 & H3 & _).
  split; [|done]. by eapply frame_kinv.
Qed.

Lemma claim_spec {A} e k w t id s (t1 : topic_struct) size pool' t' r (a : A) :
  kinv k -> topics k !! topic w = Some t ->
  find_subscriber_info t id = Some s ->
  topic_wf t1 -> notify_ok (domain_rule_htable k) t1 -> frame t t1 ->
  update_publisher_shm (kmalloc_ok e) (pid_vnr_of e) (domain_rule_htable k) (procs k) t1
    (wrapper_domain_id w) s size (pool k) a = (t', pool', r) ->
  kinv (set_pool pool' (put_topic (topic w) t' k)) /\ r <> Oops.
Proof.
  intros Hk Ht Hs Hw1 Hn1 Hf1 Hrun. pose proof (tv_heap _ _ _ _ (ki_topics _ _ Hk) _ _ Ht) as Hok.
  pose proof (update_shm_frame _ _ _ _ _ _ _ _ _ _ _ _ _ Hrun) as Hf2.
  apply update_publisher_shm_inv in Hrun as (H1 & H2 & _ & _ & _ & H6 & H7 & H8);
    [|done|done|by apply kinv_pools_present].
  split; [|by destruct r].
  assert (kinv (put_topic (topic w) t' k)) as Hk'
    by (eapply frame_kinv; [done|done|done|done|by eapply frame_trans]).
  apply pool_kinv; [done| |done]. apply H6; [by apply kinv_pool_wf|].
  pose proof (ho_pids _ _ _ _ _ Hok) as Hv. unfold valid_endpoint_pids in Hv.
  rw Forall_forall in Hv. apply Hv. by apply find_subscriber_info_Some in Hs as [? _].
Qed.

Lemma set_pool_same k a t :
  topics k !! a = Some t -> set_pool (pool k) (put_topic a t k) = k.
Proof.
  intros Ht. destruct k as [? ? rg]. destruct rg. unfold set_pool, put_topic, set_topics, set_reg.
  simpl in *. by rw insert_id.
Qed.

Lemma receive_kinv e k n id size k' r :
  kinv k -> agnocast_ioctl_receive_msg e k n id size = (k', r) -> kinv k' /\ r <> Oops.
Proof.
  intros Hk. unfold agnocast_ioctl_receive_msg.
  destruct (find_topic_for_current e k n) as [w|] eqn:Hf; [|by intros [= <- <-]].
  destruct (find_for_current _ _ _ _ Hk Hf) as (Hw & t & Ht & [O1 O2 _ _ _ _]). rw Ht.
  unfold receive_msg_topic.
  destruct (find_subscriber_info t id) as [s|] eqn:Hs.
  2: { intros [= <- <-]. by rw set_pool_same. }
  pose proof (find_subscriber_info_Some _ _ _ Hs) as [Hin Hid].
  pose proof (receive_msg_core_spec (domain_rule_htable k) (procs k) t s O1) as Hcore.
  rw Hid in Hcore. specialize (Hcore Hs). cbv zeta in Hcore.
  pose proof (receive_core_frame (domain_rule_htable k) (procs k) t s id _ _ Hcore) as Hfr.
  rw Hcore. destruct (update_publisher_shm _ _ _ _ _ _ _ _ _) as [[t' p'] r'] eqn:Hrun.
  intros [= <- <-]. eapply claim_spec; [done|done|done| | |exact Hfr|exact Hrun].
  - rw -Hid. apply receive_claim_wf; [done|congruence].
  - rw -Hid. apply notify_ok_claimed; [congruence|done].
Qed.

Lemma take_kinv e k n id allow size k' r :
  kinv k -> agnocast_ioctl_take_msg e k n id allow size = (k', r) -> kinv k' /\ r <> Oops.
Proof.
  intros Hk. unfold agnocast_ioctl_take_msg.
  destruct (find_topic_for_current e k n) as [w|] eqn:Hf; [|by intros [= <- <-]].
  destruct (find_for_current _ _ _ _ Hk Hf) as (Hw & t & Ht & [O1 O2 _ _ _ _]). rw Ht.
  unfold take_msg_topic.
  destruct (find_subscriber_info t id) as [s|] eqn:Hs.
  2: { intros [= <- <-]. by rw set_pool_same. }
  pose proof (find_subscriber_info_Some _ _ _ Hs) as [Hin Hid].
  pose proof (take_core_spec (domain_rule_htable k) (procs k) t s allow O1) as Hcore.
  rw Hid in Hcore. specialize (Hcore Hs).
  pose proof (take_claim_wf (domain_rule_htable k) (procs k) t s allow) as Hclaim.
  rw Hid in Hclaim.
  destruct (newest _ _) as [|en q] eqn:Hq; pose proof (take_core_frame _ _ _ _ _ _ _ _ Hcore) as Hfr;
    rw Hcore; destruct (update_publisher_shm _ _ _ _ _ _ _ _ _) as [[t' p'] r'] eqn:Hrun;
    intros [= <- <-]; (eapply claim_spec; [done|done|done| | |exact Hfr|exact Hrun]); try done.
  - by eapply Hclaim.
  - rw -Hid. apply notify_ok_claimed; [congruence|done].
Qed.

Lemma release_reference_kinv e k n id eid k' r :
  kinv k -> agnocast_ioctl_release_message_entry_reference e k n id eid = (k', r) ->
  kinv k' /\ r <> Oops.
Proof.
  intros Hk. unfold agnocast_ioctl_release_message_entry_reference.
  destruct (find_topic_for_current e k n) as [w|] eqn:Hf; [|by intros [= <- <-]].
  destruct (find_for_current _ _ _ _ Hk Hf) as (Hw & t & Ht & [O1 O2 _ _ _ _]). rw Ht.
  destruct (release_reference_topic t id eid) as [t' r'] eqn:Hrun. intros [= <- <-].
  pose proof (release_reference_frame _ _ _ _ _ Hrun) as Hfr.
  assert (topic_wf t' /\ notify_ok (domain_rule_htable k) t' /\ r' <> Oops) as (H1 & H2 & H3).
  { revert Hrun. unfold release_reference_topic.
    destruct (find_message_entry t eid); [|by intros [= <- <-]].
    destruct (negb _); [|by intros [= <- <-]]. destruct (test_bit _ _); [|by intros [= <- <-]].
    intros [= <- <-]. rw unclaim_upd //. split_and!; [by apply unclaim_wf| |done].
    by apply (notify_ok_subs_ext _ t). }
  split; [|done]. by eapply frame_kinv.
Qed.

Lemma set_ros2_topic_kinv k w t a b :
  kinv k -> topics k !! topic w = Some t -> kinv (put_topic (topic w) (set_ros2_nums a b t) k).
Proof.
  intros Hk Ht. destruct (tv_heap _ _ _ _ (ki_topics _ _ Hk) _ _ Ht) as [O1 O2 _ _ _ _].
  eapply frame_kinv; [done|done| | |by apply frame_ros2].
  - by destruct O1.
  - by apply (notify_ok_subs_ext _ t).
Qed.

Lemma set_ros2_kinv e k n c k' r :
  kinv k ->
  agnocast_ioctl_set_ros2_subscriber_num e k n c = (k', r) \/
  agnocast_ioctl_set_ros2_publisher_num e k n c = (k', r) -> kinv k' /\ r <> Oops.
Proof.
  intros Hk. unfold agnocast_ioctl_set_ros2_subscriber_num, agnocast_ioctl_set_ros2_publisher_num.
  destruct (find_topic_for_current e k n) as [w|] eqn:Hf; [|by intros [[= <- <-]|[= <- <-]]].
  destruct (find_for_current _ _ _ _ Hk Hf) as (Hw & t & Ht & _). rw Ht.
  intros [[= <- <-]|[= <- <-]]; (split; [by apply set_ros2_topic_kinv|done]).
Qed.

Lemma kinv_eventfds k refs : kinv k -> refs ≡ₚ eventfd_refs k -> kinv (set_eventfds refs k).
Proof. intros [K1 K2 K3 K4 K5] Hp. split; try done. simpl. by rw Hp. Qed.

(** [add_topic] inside a call that has already taken the eventfd references [extra]. *)
Lemma add_topic_kinv al k n ns d extra k' r :
  kinv k -> add_topic al (set_eventfds (extra ++ eventfd_refs k) k) n ns d = (k', r) ->
  eventfd_refs k' = extra ++ eventfd_refs k /\ kinv (set_eventfds (eventfd_refs k) k') /\
  same_rest k k' /\
  match r with
  | Ok w => w ∈ topic_hashtable k' /\ cell w = (n, ns, d)
  | Err e => e = ENOMEM /\ k' = set_eventfds (extra ++ eventfd_refs k) k /\ exists i, al i = false
  | Oops => False
  end /\
  (forall w t, r = Ok w -> topics k' !! topic w = Some t ->
     topics k !! topic w = Some t \/ (exists t0 m, topics k !! topic w = Some t0 /\
       t = set_refcnt m t0) \/ exists x, t = new_topic_struct x).
Proof.
  intros [K1 K2 K3 K4 K5] Hadd. pose proof Hadd as Hadd'.
  apply add_topic_spec in Hadd as (A1 & [R1 R2 R3 R4] & A3 & A4 & _ & A6 & A7); [|done].
  simpl in *. split_and!; [done| |done|done|].
  - split; simpl; [by rw R1|by rw R2|done|by apply A6|by rw A4].
  - intros w t -> Ht. unfold add_topic in Hadd'. simpl in Hadd'.
    repeat case_match; simplify_eq; try by left.
    + simpl in Ht. rw lookup_insert_eq in Ht. injection Ht as <-. right. left. eauto.
    + simpl in Ht. rw lookup_insert_eq in Ht. injection Ht as <-. right. right. eauto.
Qed.

(** The entry counter of a topic an endpoint joins still has room. *)
Lemma joined_room k w t :
  room k -> topics k !! topic w = Some t \/ (exists t0 m, topics k !! topic w = Some t0 /\
     t = set_refcnt m t0) \/ (exists x, t = new_topic_struct x) -> current_entry_id t + 1 < 2 ^ 63.
Proof.
  intros Hroom [Ht|[(t0 & m & Ht & ->)|(x & ->)]]; [by apply Hroom in Ht as [_ ?]| |done].
  by apply Hroom in Ht as [_ ?].
Qed.

(** An endpoint joining through the wrapper [w]; [extra] is the eventfd reference it keeps. *)
Lemma join_kinv k refs0 extra w t t' :
  kinv (set_eventfds refs0 k) -> eventfd_refs k = extra ++ refs0 ->
  w ∈ topic_hashtable k -> topics k !! topic w = Some t ->
  topic_wf t' -> notify_ok (domain_rule_htable k) t' -> topic_core t' = topic_core t ->
  valid_endpoint_pids t' ->
  (forall d, d ∈ endpoint_domains t' -> d ∈ endpoint_domains t \/ d = wrapper_domain_id w) ->
  ctxs_of (sub_info_htable t') ≡ₚ extra ++ ctxs_of (sub_info_htable t) ->
  kinv (put_topic (topic w) t' k).
Proof.
  intros [K1 K2 K3 K4 K5] He Hw Ha Hwf Hn Hc Hv Hd Hp. simpl in *.
  pose proof (tv_heap _ _ _ _ K3 _ _ Ha) as Hok. split; try done; simpl.
  - apply (put_inv _ _ _ _ _ t); try done.
    + by apply (put_heap_ok _ _ _ _ t).
    + by injection Hc.
  - apply (put_domains _ _ _ t); try done. intros d Hin.
    destruct (Hd d Hin) as [?| ->]; [by left|]. right. by exists w.
  - rw He K5 (all_ctxs_delete _ _ _ Ha) all_ctxs_insert Hp. by rw app_assoc.
Qed.

Lemma need_mmap_view (subs : list subscriber_info) :
  notify_view <$> (set_need_mmap_update true <$> subs) = notify_view <$> subs.
Proof. by rw -list_fmap_compose. Qed.

Lemma need_mmap_core (subs : list subscriber_info) : sub_core <$> (set_need_mmap_update true <$> subs) = sub_core <$> subs.
Proof. by rw -list_fmap_compose. Qed.

Lemma add_publisher_kinv e k n pid a k' r :
  kinv k -> 0 <= a_pub_qos_depth a < 2 ^ 32 ->
  agnocast_ioctl_add_publisher e k n pid a = (k', r) -> kinv k' /\ r <> Oops.
Proof.
  intros Hk Hd. unfold agnocast_ioctl_add_publisher.
  destruct (add_topic _ _ _ _ _) as [k1 r1] eqn:Hadd.
  assert (kinv k1 /\ match r1 with
    | Ok w => w ∈ topic_hashtable k1 /\ exists t, topics k1 !! topic w = Some t
    | Err _ => True | Oops => False end) as [Hk1 Hr1].
  { pose proof (add_topic_kinv (kmalloc_ok e) k n (current_ipc_ns e)
      (get_process_domain_id (procs k) pid) [] k1 r1 Hk) as Hs.
    destruct Hs as (E1 & E2 & _ & E4 & _); [by destruct k|]. simpl in E1. rw -E1 in E2.
    replace (set_eventfds (eventfd_refs k1) k1) with k1 in E2 by (by destruct k1).
    split; [done|]. destruct r1 as [w| |]; try done. destruct E4 as [Hw _]. split; [done|].
    destruct (tv_wrappers _ _ _ _ (ki_topics _ _ E2) w Hw) as (t & Ht & _). by exists t. }
  destruct r1 as [w|err|]; [|by intros [= <- <-]|done]. destruct Hr1 as (Hw & t & Ht). rw Ht.
  clear k Hk Hadd. destruct (insert_publisher_info _ _ _ _ _ _) as [t1 r2] eqn:Hins.
  pose proof (tv_heap _ _ _ _ (ki_topics _ _ Hk1) _ _ Ht) as [O1 O2 O3 O4 O5 O6].
  destruct (insert_publisher_info_inv _ _ _ _ _ _ _ _ O1 O2 Hd Hins) as [W1 N1].
  destruct (insert_publisher_frame _ _ _ _ _ _ _ _ Hins) as (F1 & F2 & F3).
  destruct r2 as [p|err|]; intros [= <- <-].
  - split; [|done]. destruct F3 as [F3 F4].
    apply (join_kinv k1 (eventfd_refs k1) [] w t); try done; [by destruct k1|..].
    + apply topic_wf_subs_ext; [apply need_mmap_core|done].
    + apply (notify_ok_subs_ext _ t1); [done|done|apply need_mmap_view|done].
    + unfold valid_endpoint_pids in *. simpl. rw F2. by apply Forall_fmap.
    + intros d. unfold endpoint_domains. simpl. rw F2 F3 -list_fmap_compose hash_add_perm.
      csimpl. rw F4. set_solver.
    + simpl. rw F2 !ctxs_of_view need_mmap_view. done.
  - split; [|done]. apply (join_kinv k1 (eventfd_refs k1) [] w t); try done; [by destruct k1|..].
    + unfold valid_endpoint_pids in *. by rw F2.
    + intros d. unfold endpoint_domains. rw F2 F3. by left.
    + by rw F2.
  - by apply insert_publisher_info_cases in Hins as (_ & _ & ?).
Qed.

Lemma add_subscriber_kinv e k n pid a fd k' r :
  kinv k -> room k -> valid_pid pid -> 0 <= a_sub_qos_depth a < 2 ^ 32 ->
  agnocast_ioctl_add_subscriber e k n pid a fd = (k', r) -> kinv k' /\ r <> Oops.
Proof.
  intros Hk Hroom Hpid Hd. unfold agnocast_ioctl_add_subscriber. cbv zeta.
  destruct (if a_sub_take a then inr None else _) as [err|ctx]; [by intros [= <- <-]|].
  destruct (add_topic _ _ _ _ _) as [k1 r1] eqn:Hadd.
  destruct (add_topic_kinv _ _ _ _ _ _ _ _ Hk Hadd) as (E1 & E2 & _ & E4 & E5).
  assert (forall k2 err, kinv (set_eventfds (eventfd_refs k) k2) ->
    eventfd_refs k2 = option_list ctx ++ eventfd_refs k ->
    match ctx with
    | Some c => match eventfd_put c (eventfd_refs k2) with
                | Some refs => (set_eventfds refs k2, Err err) | None => (k2, Oops) end
    | None => (k2, Err err)
    end = (k', r) -> kinv k' /\ r <> Oops) as Hfail.
  { intros k2 err Hk2 He. destruct ctx as [c|]; simpl in He.
    - rw He /= Z.eqb_refl. by intros [= <- <-].
    - intros [= <- <-]. split; [|done]. rw -He in Hk2. by destruct k2. }
  destruct r1 as [w|err|]; [|by apply Hfail|done]. destruct E4 as [Hw Hcell].
  destruct (tv_wrappers _ _ _ _ (ki_topics _ _ E2) w Hw) as (t & Ht & _). simpl in Ht. rw Ht.
  pose proof (tv_heap _ _ _ _ (ki_topics _ _ E2) _ _ Ht) as [O1 O2 O3 O4 O5 O6]. simpl in *.
  destruct (insert_subscriber_info _ _ _ _ _ _ _) as [t1 r2] eqn:Hins.
  assert (current_entry_id t + 1 < 2 ^ 63) as Hfit by (apply (joined_room k w); [done|by apply E5]).
  destruct (insert_subscriber_info_inv _ _ _ _ _ _ _ _ _ O1 O2 Hfit Hd Hins) as [W1 N1].
  destruct (insert_subscriber_frame _ _ _ _ _ _ _ _ _ Hins) as (F1 & F2 & F3).
  pose proof (insert_subscriber_info_cases _ _ _ _ _ _ _ _ _ O1 Hfit Hins) as Hcase.
  destruct r2 as [s|err|]; [| |done].
  - intros [= <- <-]. split; [|done]. destruct F3 as (F3 & F4 & F5 & F6).
    apply (join_kinv k1 (eventfd_refs k) (option_list ctx) w t); try done.
    + unfold valid_endpoint_pids in *. rw F3. apply Forall_hash_add; [by rw F5|done].
    + intros d. unfold endpoint_domains. rw F2 F3 hash_add_perm. csimpl. rw F4. set_solver.
    + rw F3. unfold ctxs_of. by rw hash_add_perm bind_cons' F6.
  - apply (Hfail (put_topic (topic w) t1 k1) err); [|done].
    apply (join_kinv (set_eventfds (eventfd_refs k) k1) (eventfd_refs k) [] w t); try done.
    + unfold valid_endpoint_pids in *. by rw F3.
    + intros d. unfold endpoint_domains. rw F2 F3. by left.
    + by rw F3.
Qed.

(** ** Lemmas: endpoints and processes leaving *)

(** [release_if_empty] of a wrapper whose domain has no endpoint left. *)
Lemma release_kinv k w t :
  kinv k -> w ∈ topic_hashtable k -> topics k !! topic w = Some t ->
  agnocast_wrapper_has_domain_endpoints t (wrapper_domain_id w) = false ->
  exists k', agnocast_release_topic_wrapper k w = (k', Ok tt) /\ kinv k' /\ same_rest k k' /\
    topic_hashtable k' = without_wrapper w (topic_hashtable k) /\
    (forall a t', topics k' !! a = Some t' -> exists t n, topics k !! a = Some t /\
       t' = set_refcnt n t).
Proof.
  intros [K1 K2 K3 K4 K5] Hw Ht Hno.
  destruct (release_spec k w K3 Hw K5) as (k' & Hr & R1 & R2 & R3 & R4 & R5 & R6).
  exists k'. split_and!; try done. pose proof R2 as [S1 S2 S3 S4].
  split; [by rw S1|by rw S2|done| |done].
  intros a t' d Ha Hd. destruct (R6 a t' Ha) as (t0 & m & Ht0 & ->).
  destruct (K4 a t0 d Ht0 Hd) as (w' & Hw' & <- & <-). exists w'. split; [|done].
  rw R4. apply elem_of_without_wrapper; [apply (tv_cells _ _ _ _ K3)|done|]. split; [done|].
  intros ->. assert (t0 = t) as -> by congruence.
  unfold agnocast_wrapper_has_domain_endpoints in Hno. apply orb_false_iff in Hno as [N1 N2].
  unfold endpoint_domains in Hd.
  apply elem_of_app in Hd as [(p & Heq & Hp)%list_elem_of_fmap|(p & Heq & Hp)%list_elem_of_fmap].
  - pose proof (proj1 (existsb_false _ _) N1 p Hp) as Hn. simpl in Hn. apply Z.eqb_neq in Hn. congruence.
  - pose proof (proj1 (existsb_false _ _) N2 p Hp) as Hn. simpl in Hn. apply Z.eqb_neq in Hn. congruence.
Qed.

Lemma release_if_empty_kinv k w :
  kinv k -> w ∈ topic_hashtable k ->
  exists k', release_if_empty k w = (k', Ok tt) /\ kinv k' /\ same_rest k k' /\
    (forall a t', topics k' !! a = Some t' -> exists t n, topics k !! a = Some t /\
       t' = set_refcnt n t) /\
    match topics k !! topic w with
    | Some t => if agnocast_wrapper_has_domain_endpoints t (wrapper_domain_id w) then k' = k
                else topic_hashtable k' = without_wrapper w (topic_hashtable k)
    | None => False
    end.
Proof.
  intros Hk Hw. destruct (tv_wrappers _ _ _ _ (ki_topics _ _ Hk) w Hw) as (t & Ht & _).
  unfold release_if_empty. rw Ht.
  destruct (agnocast_wrapper_has_domain_endpoints t _) eqn:Hh.
  - exists k. split_and!; try done. intros a t' Ha. exists t', (wrapper_refcnt t'). by destruct t'.
  - destruct (release_kinv k w t Hk Hw Ht Hh) as (k' & H1 & H2 & H3 & H4 & H5). by exists k'.
Qed.

Lemma remove_subscriber_kinv e k n id k' r :
  kinv k -> agnocast_ioctl_remove_subscriber e k n id = (k', r) -> kinv k' /\ r <> Oops.
Proof.
  intros Hk. unfold agnocast_ioctl_remove_subscriber.
  destruct (find_topic_for_current e k n) as [w|] eqn:Hf; [|by intros [= <- <-]].
  destruct (find_for_current _ _ _ _ Hk Hf) as (Hw & t & Ht & [O1 O2 _ _ _ _]). rw Ht.
  destruct (remove_subscriber_topic _ _ _ _) as [[t' puts] r'] eqn:Hrun.
  pose proof (remove_subscriber_topic_inv _ _ _ _ _ _ _ O1 O2 Hrun) as Hinv.
  destruct (remove_subscriber_keeps _ _ _ _ _ _ _ O1 O2 Hrun) as [Hkeep Hputs].
  assert (topic_wf t' /\ notify_ok (domain_rule_htable k) t' /\ r' <> Oops) as (W & N & Hr).
  { destruct (find_subscriber_info t id); [by destruct Hinv as (-> & ? & ? & _)|].
    by destruct Hinv as (-> & -> & ->). }
  destruct (keeps_kinv k _ t t' puts Hk Ht W N Hkeep Hputs) as (refs & Hput & Hk1).
  simpl. rw Hput. destruct r' as [[]|err|]; [|by intros [= <- <-]|done].
  destruct (release_if_empty_kinv _ w Hk1 Hw) as (k2 & -> & Hk2 & _). by intros [= <- <-].
Qed.

Lemma remove_publisher_kinv e k n id k' r :
  kinv k -> agnocast_ioctl_remove_publisher e k n id = (k', r) -> kinv k' /\ r <> Oops.
Proof.
  intros Hk. unfold agnocast_ioctl_remove_publisher.
  destruct (find_topic_for_current e k n) as [w|] eqn:Hf; [|by intros [= <- <-]].
  destruct (find_for_current _ _ _ _ Hk Hf) as (Hw & t & Ht & [O1 O2 _ _ _ _]). rw Ht.
  destruct (remove_publisher_topic _ _) as [t' r'] eqn:Hrun.
  destruct (remove_publisher_keeps _ _ _ _ _ O1 O2 Hrun) as (W & N & Hkeep & Hs & Hr).
  destruct (keeps_kinv k _ t t' [] Hk Ht W N Hkeep) as (refs & [= <-] & Hk1); [by rw Hs|].
  replace (set_eventfds (eventfd_refs k) (put_topic (topic w) t' k))
    with (put_topic (topic w) t' k) in Hk1 by (by destruct k).
  destruct r' as [[]|err|]; [|by intros [= <- <-]|done].
  destruct (release_if_empty_kinv _ w Hk1 Hw) as (k2 & -> & Hk2 & _). by intros [= <- <-].
Qed.

(** ** Lemmas: process exit *)

(** A wrapper the cleanup of [pid] is done with. *)
Definition settled (pid : Z) (k : kstate) (w : topic_wrapper) : Prop :=
  exists t, topics k !! topic w = Some t /\ exited_cleanly pid t /\
    agnocast_wrapper_has_domain_endpoints t (wrapper_domain_id w) = true.

Lemma same_rest_trans k1 k2 k3 : same_rest k1 k2 -> same_rest k2 k3 -> same_rest k1 k3.
Proof. intros [A1 A2 A3 A4] [B1 B2 B3 B4]. split; congruence. Qed.

Lemma exit_step pid w rest k :
  kinv k -> w ∈ topic_hashtable k -> w ∉ rest ->
  (forall w', w' ∈ topic_hashtable k -> w' <> w -> w' ∉ rest -> settled pid k w') ->
  (forall p, pub_pid p = pid -> owner_gone (procs k) p = true) ->
  exists k', kinv k' /\ same_rest k k' /\ exit_topics (w :: rest) pid k = exit_topics rest pid k' /\
    (forall w', w' ∈ topic_hashtable k' -> w' ∉ rest -> settled pid k' w') /\
    (forall w', w' ∈ topic_hashtable k -> w' <> w -> w' ∈ topic_hashtable k') /\
    (forall w', w' ∈ topic_hashtable k' -> w' ∈ topic_hashtable k).
Proof.
  intros Hk Hw Hnr Hset Hgone.
  destruct (tv_wrappers _ _ _ _ (ki_topics _ _ Hk) w Hw) as (t & Ht & _).
  pose proof (tv_heap _ _ _ _ (ki_topics _ _ Hk) _ _ Ht) as [O1 O2 _ _ _ _].
  cbn [exit_topics]. rw Ht. destruct (process_exit_topic _ _ _ _) as [t' puts] eqn:Hrun.
  destruct (process_exit_keeps _ _ _ _ _ _ O1 O2 Hrun) as (W & N & Hkeep & _ & Hputs).
  pose proof (process_exit_clean _ _ _ _ _ _ O1 O2 Hgone Hrun) as Hclean.
  destruct (keeps_kinv k _ t t' puts Hk Ht W N Hkeep Hputs) as (refs & Hput & Hk1).
  simpl. rw Hput. set (k1 := set_eventfds refs (put_topic (topic w) t' k)) in *.
  assert (forall w', w' ∈ topic_hashtable k -> w' <> w -> w' ∉ rest -> settled pid k1 w') as Hset1.
  { intros w' Hw' Hne Hn. destruct (Hset w' Hw' Hne Hn) as (tw & Htw & Hcw & Hdw).
    destruct (decide (topic w = topic w')) as [Heq|Hnt].
    - assert (tw = t) as -> by congruence.
      rw (process_exit_idem (procs k) (domain_rule_htable k) t pid O1 Hcw) in Hrun.
      injection Hrun as <- _. exists t. simpl. by rw -Heq lookup_insert_eq.
    - exists tw. simpl. by rw lookup_insert_ne. }
  destruct (release_if_empty_kinv k1 w Hk1 Hw) as (k2 & Hr & Hk2 & Hrest & Hsame & Hcase).
  rw Hr. exists k2. simpl in Hcase. rw lookup_insert_eq in Hcase.
  assert (same_rest k k2) as Hsr by (by eapply same_rest_trans; [|exact Hrest]).
  destruct (agnocast_wrapper_has_domain_endpoints t' (wrapper_domain_id w)) eqn:Hd.
  - subst k2. split_and!; try done. intros w' Hw' Hn. simpl in Hw'.
    destruct (decide (w' = w)) as [->|Hne]; [|by apply Hset1].
    exists t'. simpl. by rw lookup_insert_eq.
  - pose proof (elem_of_without_wrapper (topic_hashtable k) w) as Hin.
    pose proof (tv_cells _ _ _ _ (ki_topics _ _ Hk)) as Hnd.
    split_and!; try done.
    + intros w' Hw' Hn. rw Hcase in Hw'. apply Hin in Hw' as [Hw' Hne]; [|done|done].
      destruct (Hset1 w' Hw' Hne Hn) as (tw & Htw & Hcw & Hdw).
      destruct (tv_wrappers _ _ _ _ (ki_topics _ _ Hk2) w') as (t2 & Ht2 & _).
      { rw Hcase. by apply Hin. }
      destruct (Hsame _ _ Ht2) as (t0 & m & Ht0 & ->). exists (set_refcnt m t0).
      assert (t0 = tw) as -> by congruence. done.
    + intros w' Hw' Hne. rw Hcase. by apply Hin.
    + intros w' Hw'. rw Hcase in Hw'. by apply Hin in Hw' as [? _].
Qed.

Lemma exit_topics_spec pid rest k :
  kinv k -> NoDup rest -> (forall w, w ∈ rest -> w ∈ topic_hashtable k) ->
  (forall w, w ∈ topic_hashtable k -> w ∉ rest -> settled pid k w) ->
  (forall p, pub_pid p = pid -> owner_gone (procs k) p = true) ->
  exists k', exit_topics rest pid k = (k', Ok tt) /\ kinv k' /\ same_rest k k' /\
    (forall w, w ∈ topic_hashtable k' -> settled pid k' w) /\
    (forall w, w ∈ topic_hashtable k' -> w ∈ topic_hashtable k).
Proof.
  revert k. induction rest as [|w rest IH]; intros k Hk Hnd Hin Hset Hgone.
  { exists k. split_and!; try done. intros w Hw. apply Hset; [done|set_solver]. }
  apply NoDup_cons in Hnd as [Hnr Hnd].
  destruct (exit_step pid w rest k Hk) as (k1 & Hk1 & Hr1 & Heq & Hset1 & Hkeep & Hsub);
    [apply Hin; set_solver|done| |done|].
  { intros w' Hw' Hne Hn. apply Hset; [done|]. set_solver. }
  destruct (IH k1 Hk1 Hnd) as (k' & H1 & H2 & H3 & H4 & H5); [|done| |].
  - intros w' Hw'. apply Hkeep; [apply Hin; set_solver|]. by intros ->.
  - intros p Hp. unfold procs. rw (sr_reg _ _ Hr1). by apply Hgone.
  - exists k'. rw Heq. split_and!; try done; [by eapply same_rest_trans|]. intros w' Hw'. auto.
Qed.

Lemma exit_registered_gone ps p pid ps' p' q :
  NoDup (global_pid <$> ps) -> exit_registered ps p pid = Some (ps', p') -> pub_pid q = pid ->
  owner_gone ps' q = true.
Proof.
  intros Hnd. unfold exit_registered, owner_gone.
  destruct (agnocast_find_process_info ps pid) as [proc|] eqn:Hf; [|done].
  intros [= <- <-] ->. rw agnocast_find_process_info_eq. rw agnocast_find_process_info_eq in Hf.
  case_bool_decide.
  - destruct (find _ (remove_process ps pid)) as [x|] eqn:Hx; [|done]. exfalso.
    apply find_Some_inv in Hx as [Hin Heq%Z.eqb_eq].
    pose proof (hash_del_perm _ _ _ Hf) as Hp. rw Hp in Hnd. csimpl in Hnd.
    apply NoDup_cons in Hnd as [Hno _]. apply Hno, list_elem_of_fmap. exists x.
    apply find_Some_inv in Hf as [_ Hpid%Z.eqb_eq]. split; [congruence|done].
  - rw find_hash_upd; [|done]. by rw Hf.
Qed.

Lemma process_exit_kinv k pid k' r :
  kinv k -> agnocast_process_exit_cleanup k pid = (k', r) ->
  kinv k' /\ r = Ok tt /\
  (is_Some (agnocast_find_process_info (procs k) pid) ->
     (forall w, w ∈ topic_hashtable k' -> settled pid k' w) /\
     bridge_htable k' = exit_bridges (bridge_htable k) pid /\
     pool k' = free_memory (pool k) pid) /\
  (agnocast_find_process_info (procs k) pid = None ->
     k' = set_reg (Registry (procs k)
       (agnocast_remove_discovery_agent_by_pid (discovery_agent_htable (reg k)) pid) (pool k)) k).
Proof.
  intros Hk Hrun. unfold agnocast_process_exit_cleanup in Hrun.
  pose proof Hk as [K1 K2 K3 K4 K5]. pose proof (rw_pids _ _ K1) as Hnd.
  unfold procs, pool in *. destruct (reg k) as [ps ags pl] eqn:Hreg. simpl in *.
  destruct (exit_registered ps pl pid) as [[ps' pl']|] eqn:He.
  - set (k1 := set_reg _ k) in *.
    assert (kinv k1) as Hk1 by (split; [by eapply exit_registered_wf|done..]).
    destruct (exit_topics_spec pid (topic_hashtable k) k1 Hk1)
      as (k2 & Hex & Hk2 & Hr2 & Hset & Hsub); [|done|set_solver| |].
    + eapply NoDup_fmap_1. apply (tv_cells _ _ _ _ K3).
    + intros p Hp. by eapply exit_registered_gone.
    + rw Hex in Hrun. injection Hrun as <- <-. split_and!; [|done| |].
      * destruct Hk2 as [J1 J2 J3 J4 J5]. split; try done. simpl. by apply exit_bridges_wf.
      * intros _. split_and!; [done|simpl; by rw (sr_bridges _ _ Hr2)|].
        unfold pool. simpl. rw (sr_reg _ _ Hr2). unfold exit_registered in He. simpl.
        destruct (agnocast_find_process_info ps pid); [|done]. by injection He as _ <-.
      * intros Hn. unfold exit_registered in He. by rw Hn in He.
  - injection Hrun as <- <-. split_and!; [|done| |done].
    + split; try done. simpl. eapply registry_wf_agents; [done|]. by apply agents_sub, K1.
    + intros [p Hp]. unfold exit_registered in He. by rw Hp in He.
Qed.

(** ** Lemmas: the other calls *)

Lemma reg_kinv k r : kinv k -> registry_wf pool0 r -> kinv (set_reg r k).
Proof. intros [K1 K2 K3 K4 K5] Hr. by split. Qed.

Lemma bridges_kinv k b : kinv k -> bridges_wf b -> kinv (set_bridges b k).
Proof. intros [K1 K2 K3 K4 K5] Hb. by split. Qed.

Lemma rules_kinv k rules :
  kinv k -> rules_extend (topic_hashtable k) (next_addr k) (domain_rule_htable k) rules ->
  kinv (set_next_addr (next_addr k + 1) (set_rules rules k)).
Proof.
  intros [K1 K2 K3 K4 K5] Hr. split; try done. simpl. unfold kernel_topics_inv. simpl.
  by eapply rules_inv.
Qed.

Lemma fresh_rule_addr k : kinv k -> next_addr k ∉ rule_addr <$> domain_rule_htable k.
Proof.
  intros Hk (r & Heq & Hr)%list_elem_of_fmap.
  pose proof (tv_rule_addrs _ _ _ _ (ki_topics _ _ Hk)) as Ha. rw Forall_forall in Ha.
  specialize (Ha r Hr). lia.
Qed.

Definition rules_added (k k' : kstate) : Prop := exists rules,
  rules_extend (topic_hashtable k) (next_addr k) (domain_rule_htable k) rules /\
  k' = set_next_addr (next_addr k + 1) (set_rules rules k).

Lemma rules_added_kinv k k' : kinv k -> rules_added k k' -> kinv k'.
Proof. intros Hk (rules & He & ->). by apply rules_kinv. Qed.

Lemma add_domain_bridge_rules e k n_from n_to from to k' r :
  kinv k -> add_domain_bridge e k n_from n_to from to = (k', r) -> rules_added k k'.
Proof.
  intros Hk. unfold add_domain_bridge.
  destruct (agnocast_ioctl_add_domain_bridge _ _ _ _ _ _ _ _ _) as [rules r'] eqn:Hr.
  intros [= <- <-]. exists rules. split; [|done].
  pose proof (tv_rules _ _ _ _ (ki_topics _ _ Hk)) as Hwf. pose proof (fresh_rule_addr k Hk) as Hf.
  unfold agnocast_ioctl_add_domain_bridge in Hr. destruct (Z.eqb_spec from to); simpl in Hr.
  - injection Hr as <- _. by apply rules_extend_refl.
  - pose proof (add_domain_rule_extends (kmalloc_ok e) _ _ (topic_hashtable k) n_from n_to from to
      (current_ipc_ns e) Hwf Hf) as He. rw Hr in He. by apply He.
Qed.

Lemma add_domain_bridge_prefix_rules e k p from to k' r :
  kinv k -> add_domain_bridge_prefix e k p from to = (k', r) -> rules_added k k'.
Proof.
  intros Hk. unfold add_domain_bridge_prefix.
  destruct (agnocast_ioctl_add_domain_bridge_prefix _ _ _ _ _ _ _ _) as [rules r'] eqn:Hr.
  intros [= <- <-]. exists rules. split; [|done].
  pose proof (tv_rules _ _ _ _ (ki_topics _ _ Hk)) as Hwf. pose proof (fresh_rule_addr k Hk) as Hf.
  unfold agnocast_ioctl_add_domain_bridge_prefix in Hr. destruct (Z.eqb_spec from to); simpl in Hr.
  - injection Hr as <- _. by apply rules_extend_refl.
  - destruct (valid_prefix p); [|injection Hr as <- _; by apply rules_extend_refl].
    pose proof (add_prefix_domain_rule_extends (kmalloc_ok e) _ _ (topic_hashtable k) p from to
      (current_ipc_ns e) Hwf Hf) as He. rw Hr in He. by apply He.
Qed.

Lemma add_domain_bridge_kinv e k n_from n_to from to k' r :
  kinv k -> add_domain_bridge e k n_from n_to from to = (k', r) -> kinv k'.
Proof. intros Hk Hr. eapply rules_added_kinv; [done|by eapply add_domain_bridge_rules]. Qed.

Lemma add_domain_bridge_prefix_kinv e k p from to k' r :
  kinv k -> add_domain_bridge_prefix e k p from to = (k', r) -> kinv k'.
Proof. intros Hk Hr. eapply rules_added_kinv; [done|by eapply add_domain_bridge_prefix_rules]. Qed.
End system.
