(* ===== verification/KIoctl.v ===== *)
(** * Kernel module: the commands of the device

    Model of [agnocast_ioctl] of agnocast_kmod/agnocast_ioctl.c for the commands that write the
    module's state, with the copies from and to user space each [*_cmd] function makes and their
    faults, and of the runs of the module: commands and process exits in any order.  The commands
    that only read are in KQuery. *)

From Stdlib Require Import Ascii.
From S2P Require Import Prelude Kernel KMempool KTypes KRules KTopic KMessage KCleanup KRegistry.
From S2P Require Import KState KInvariant KSystem.

(** ** User memory *)

(** [copy_ok n]: the [n]-th call of [copy_from_user] or [copy_to_user] in the text of the command's
    function succeeds. *)
Record user := User { kernel_env : env; copy_ok : nat -> bool }.

(** The bytes up to the first NUL: what the kernel reads of a buffer as a C string. *)
Fixpoint c_string (s : string) : string :=
  match s with
  | EmptyString => EmptyString
  | String c rest => if Ascii.eqb c Ascii.zero then EmptyString else String c (c_string rest)
  end.

(** [src] is the [len] bytes at [ptr]. *)
Definition copy_name_from_user (ok : bool) (dst_size : Z) (src : string) : res string :=
  require negb (dst_size <=? Z.of_nat (String.length src)) orelse Err EINVAL;
  require ok orelse Err EFAULT;
  Ok (c_string src).

(** ** Commands *)

Inductive command :=
  | ADD_PROCESS_CMD (role_arg domain_id : Z)
  | ADD_SUBSCRIBER_CMD (topic_name node_name : string) (qos_depth : Z)
      (transient_local reliable take_sub ignore_local bridge : bool) (eventfd : Z)
  | ADD_PUBLISHER_CMD (topic_name node_name : string) (qos_depth : Z)
      (transient_local bridge : bool)
  | RELEASE_SUB_REF_CMD (topic_name : string) (pubsub_id entry_id : Z)
  | RECEIVE_MSG_CMD (topic_name : string) (subscriber_id pub_shm_info_size : Z)
  | PUBLISH_MSG_CMD (topic_name : string) (publisher_id msg_virtual_address : Z)
  | TAKE_MSG_CMD (topic_name : string) (subscriber_id : Z) (allow_same_message : bool)
      (pub_shm_info_size : Z)
  | GET_EXIT_PROCESS_CMD
  | REMOVE_SUBSCRIBER_CMD (topic_name : string) (subscriber_id : Z)
  | REMOVE_PUBLISHER_CMD (topic_name : string) (publisher_id : Z)
  | ADD_BRIDGE_CMD (topic_name : string) (is_r2a : bool)
  | REMOVE_BRIDGE_CMD (topic_name : string) (is_r2a : bool)
  | ADD_DOMAIN_BRIDGE_CMD (topic_name_from topic_name_to : string) (from_domain to_domain : Z)
  | ADD_DOMAIN_BRIDGE_PREFIX_CMD (topic_name_prefix : string) (from_domain to_domain : Z)
  | CHECK_AND_REQUEST_BRIDGE_SHUTDOWN_CMD
  | SET_ROS2_SUBSCRIBER_NUM_CMD (topic_name : string) (count : Z)
  | SET_ROS2_PUBLISHER_NUM_CMD (topic_name : string) (count : Z)
  | NOTIFY_BRIDGE_SHUTDOWN_CMD
  | DISCOVERY_AGENT_SHOULD_EXIT_CMD (domain_id : Z) (commit : bool)
  | ADD_DISCOVERY_AGENT_CMD (domain_id : Z).

(** What a command writes back to user space. *)
Inductive reply :=
  | NoReply
  | ProcessReply (r : add_process_ret)
  | IdReply (id : Z)
  | PublishReply (r : publish_ret)
  | ReceiveReply (r : list (Z * Z) * bool * list publisher_shm_info)
  | TakeReply (r : take_ret * list publisher_shm_info)
  | ExitReply (ret_pid : Z) (ret_daemon_should_exit : bool)
  | BridgeReply (r : add_bridge_ret)
  | BoolReply (b : bool).

Section commands.
Context `{KernelHash} (u : user) (k : kstate).
Let e : env := kernel_env u.
Let pid : Z := current_tgid e.
Let ipc_ns : Z := current_ipc_ns e.

(** [if (ret == 0) { if (copy_to_user(...)) return -EFAULT; } return ret;], the [n]-th copy. *)
Definition reply_if_ok {A} (n : nat) (f : A -> reply) (kr : kstate * res A) : kstate * res reply :=
  match kr with
  | (k, Ok a) => (k, if copy_ok u n then Ok (f a) else Err EFAULT)
  | (k, Err err) => (k, Err err)
  | (k, Oops) => (k, Oops)
  end.

Definition no_reply (kr : kstate * res unit) : kstate * res reply :=
  match kr with
  | (k, Ok _) => (k, Ok NoReply)
  | (k, Err err) => (k, Err err)
  | (k, Oops) => (k, Oops)
  end.

(** [ret = copy_name_from_user(...); if (ret) return ret;], the [n]-th copy. *)
Definition with_name (n : nat) (size : Z) (src : string) (body : string -> kstate * res reply)
    : kstate * res reply :=
  match copy_name_from_user (copy_ok u n) size src with
  | Ok name => body name
  | Err err => (k, Err err)
  | Oops => (k, Oops)
  end.

Definition env_skip (n : nat) : env :=
  Env (current_tgid e) (current_ipc_ns e) (skip n (kmalloc_ok e)) (pid_vnr_of e)
    (eventfd_ctx_fdget e).

Definition add_process_cmd (role_arg domain_id : Z) : kstate * res reply :=
  require copy_ok u 0%nat orelse (k, Err EFAULT);
  let '(ps, p, r) := agnocast_ioctl_add_process e (procs k) (discovery_agent_htable (reg k)) (pool k)
    (mempool_size_bytes k) pid ipc_ns role_arg domain_id in
  reply_if_ok 1 ProcessReply (set_reg (Registry ps (discovery_agent_htable (reg k)) p) k, r).

Definition add_subscriber_cmd (topic_name node_name : string) (qos_depth : Z)
    (transient_local reliable take_sub ignore_local bridge : bool) (eventfd : Z)
    : kstate * res reply :=
  require copy_ok u 0%nat orelse (k, Err EFAULT);
  with_name 1 TOPIC_NAME_BUFFER_SIZE topic_name (fun topic_name =>
  with_name 2 NODE_NAME_BUFFER_SIZE node_name (fun node_name =>
  reply_if_ok 3 IdReply (agnocast_ioctl_add_subscriber e k topic_name pid
    (SubArgs node_name qos_depth transient_local reliable take_sub ignore_local bridge) eventfd))).

Definition add_publisher_cmd (topic_name node_name : string) (qos_depth : Z)
    (transient_local bridge : bool) : kstate * res reply :=
  require copy_ok u 0%nat orelse (k, Err EFAULT);
  with_name 1 TOPIC_NAME_BUFFER_SIZE topic_name (fun topic_name =>
  with_name 2 NODE_NAME_BUFFER_SIZE node_name (fun node_name =>
  reply_if_ok 3 IdReply (agnocast_ioctl_add_publisher e k topic_name pid
    (PubArgs node_name qos_depth transient_local bridge)))).

Definition release_sub_ref_cmd (topic_name : string) (pubsub_id entry_id : Z) : kstate * res reply :=
  require copy_ok u 0%nat orelse (k, Err EFAULT);
  with_name 1 TOPIC_NAME_BUFFER_SIZE topic_name (fun topic_name =>
  no_reply (agnocast_ioctl_release_message_entry_reference e k topic_name pubsub_id entry_id)).

(** The array of [publisher_shm_info] is copied out first, when there is one to copy. *)
Definition reply_with_infos {A} (infos_of : A -> list publisher_shm_info) (f : A -> reply)
    (kr : kstate * res A) : kstate * res reply :=
  match kr with
  | (k, Ok a) =>
      require bool_decide (infos_of a = []) || copy_ok u 2%nat orelse (k, Err EFAULT);
      reply_if_ok 3 f (k, Ok a)
  | (k, r) => reply_if_ok 3 f (k, r)
  end.

Definition receive_msg_cmd (topic_name : string) (subscriber_id pub_shm_info_size : Z)
    : kstate * res reply :=
  require copy_ok u 0%nat orelse (k, Err EFAULT);
  with_name 1 TOPIC_NAME_BUFFER_SIZE topic_name (fun topic_name =>
  require negb (MAX_PUBLISHER_NUM <? pub_shm_info_size) orelse (k, Err EINVAL);
  require (pub_shm_info_size =? 0) || kmalloc_ok e 0%nat orelse (k, Err ENOMEM);
  reply_with_infos snd ReceiveReply
    (agnocast_ioctl_receive_msg (env_skip 1) k topic_name subscriber_id pub_shm_info_size)).

(** The list is the eventfd contexts signalled. *)
Definition publish_msg_cmd (topic_name : string) (publisher_id msg_virtual_address : Z)
    : kstate * list Z * res reply :=
  require copy_ok u 0%nat orelse (k, [], Err EFAULT);
  match copy_name_from_user (copy_ok u 1%nat) TOPIC_NAME_BUFFER_SIZE topic_name with
  | Ok topic_name =>
      let '(k, signals, r) :=
        agnocast_ioctl_publish_msg e k topic_name publisher_id msg_virtual_address in
      let '(k, r) := reply_if_ok 2 PublishReply (k, r) in (k, signals, r)
  | Err err => (k, [], Err err)
  | Oops => (k, [], Oops)
  end.

Definition take_msg_cmd (topic_name : string) (subscriber_id : Z) (allow_same_message : bool)
    (pub_shm_info_size : Z) : kstate * res reply :=
  require copy_ok u 0%nat orelse (k, Err EFAULT);
  with_name 1 TOPIC_NAME_BUFFER_SIZE topic_name (fun topic_name =>
  require negb (MAX_PUBLISHER_NUM <? pub_shm_info_size) orelse (k, Err EINVAL);
  require (pub_shm_info_size =? 0) || kmalloc_ok e 0%nat orelse (k, Err ENOMEM);
  reply_with_infos snd TakeReply
    (agnocast_ioctl_take_msg (env_skip 1) k topic_name subscriber_id allow_same_message
       pub_shm_info_size)).

(** The exited process is committed only once its pid has reached user space; the copy of the
    daemon's exit flag after the commit may fail without consequence ([false] is what the first
    copy left there).  The code drops the rwsem between finding the process and committing it; here both are one step, so
    that no other command comes between them: the daemon, one for each namespace, is the only caller. *)
Definition get_exit_process_cmd : kstate * res reply :=
  let '(global_pid, local_pid) := agnocast_ioctl_get_exit_process (procs k) ipc_ns in
  require copy_ok u 0%nat orelse (k, Err EFAULT);
  let '(ps, p, should_exit) :=
    agnocast_commit_exit_process (procs k) (pool k) ipc_ns global_pid pid in
  (set_reg (Registry ps (discovery_agent_htable (reg k)) p) k,
   Ok (ExitReply local_pid (if copy_ok u 1%nat then should_exit else false))).

Definition remove_subscriber_cmd (topic_name : string) (subscriber_id : Z) : kstate * res reply :=
  require copy_ok u 0%nat orelse (k, Err EFAULT);
  with_name 1 TOPIC_NAME_BUFFER_SIZE topic_name (fun topic_name =>
  no_reply (agnocast_ioctl_remove_subscriber e k topic_name subscriber_id)).

Definition remove_publisher_cmd (topic_name : string) (publisher_id : Z) : kstate * res reply :=
  require copy_ok u 0%nat orelse (k, Err EFAULT);
  with_name 1 TOPIC_NAME_BUFFER_SIZE topic_name (fun topic_name =>
  no_reply (agnocast_ioctl_remove_publisher e k topic_name publisher_id)).

(** The owner is written back on -EEXIST too. *)
Definition add_bridge_cmd (topic_name : string) (is_r2a : bool)
    : kstate * res reply * option add_bridge_ret :=
  require copy_ok u 0%nat orelse (k, Err EFAULT, None);
  match copy_name_from_user (copy_ok u 1%nat) TOPIC_NAME_BUFFER_SIZE topic_name with
  | Ok topic_name =>
      let '(b, ret, r) := agnocast_ioctl_add_bridge (kmalloc_ok e) (bridge_htable k) topic_name pid
        is_r2a ipc_ns in
      let k := set_bridges b k in
      match ret with
      | Some ret =>
          require copy_ok u 2%nat orelse (k, Err EFAULT, None);
          (k, match r with Ok _ => Ok (BridgeReply ret) | Err err => Err err | Oops => Oops end,
           Some ret)
      | None => (k, match r with Ok _ => Ok NoReply | Err err => Err err | Oops => Oops end, None)
      end
  | Err err => (k, Err err, None)
  | Oops => (k, Oops, None)
  end.

Definition add_domain_bridge_cmd (topic_name_from topic_name_to : string)
    (from_domain to_domain : Z) : kstate * res reply :=
  require copy_ok u 0%nat orelse (k, Err EFAULT);
  with_name 1 TOPIC_NAME_BUFFER_SIZE topic_name_from (fun name_from =>
  with_name 2 TOPIC_NAME_BUFFER_SIZE topic_name_to (fun name_to =>
  no_reply (add_domain_bridge e k name_from name_to from_domain to_domain))).

Definition add_domain_bridge_prefix_cmd (topic_name_prefix : string) (from_domain to_domain : Z)
    : kstate * res reply :=
  require copy_ok u 0%nat orelse (k, Err EFAULT);
  with_name 1 TOPIC_NAME_BUFFER_SIZE topic_name_prefix (fun prefix =>
  no_reply (add_domain_bridge_prefix e k prefix from_domain to_domain)).

Definition remove_bridge_cmd (topic_name : string) (is_r2a : bool) : kstate * res reply :=
  require copy_ok u 0%nat orelse (k, Err EFAULT);
  with_name 1 TOPIC_NAME_BUFFER_SIZE topic_name (fun topic_name =>
  let '(b, r) := agnocast_ioctl_remove_bridge (bridge_htable k) topic_name pid is_r2a ipc_ns in
  no_reply (set_bridges b k, r)).

Definition check_and_request_bridge_shutdown_cmd : kstate * res reply :=
  let '(ps, b) := agnocast_ioctl_check_and_request_bridge_shutdown (procs k) pid ipc_ns in
  (set_reg (Registry ps (discovery_agent_htable (reg k)) (pool k)) k,
   if copy_ok u 0%nat then Ok (BoolReply b) else Err EFAULT).

Definition set_ros2_subscriber_num_cmd (topic_name : string) (count : Z) : kstate * res reply :=
  require copy_ok u 0%nat orelse (k, Err EFAULT);
  with_name 1 TOPIC_NAME_BUFFER_SIZE topic_name (fun topic_name =>
  no_reply (agnocast_ioctl_set_ros2_subscriber_num e k topic_name count)).

Definition set_ros2_publisher_num_cmd (topic_name : string) (count : Z) : kstate * res reply :=
  require copy_ok u 0%nat orelse (k, Err EFAULT);
  with_name 1 TOPIC_NAME_BUFFER_SIZE topic_name (fun topic_name =>
  no_reply (agnocast_ioctl_set_ros2_publisher_num e k topic_name count)).

Definition notify_bridge_shutdown_cmd : kstate * res reply :=
  (set_reg (Registry (agnocast_ioctl_notify_bridge_shutdown (procs k) pid)
     (discovery_agent_htable (reg k)) (pool k)) k, Ok NoReply).

Definition discovery_agent_should_exit_cmd (domain_id : Z) (commit : bool) : kstate * res reply :=
  require copy_ok u 0%nat orelse (k, Err EFAULT);
  let '(agents, b) := agnocast_ioctl_discovery_agent_should_exit (procs k)
    (discovery_agent_htable (reg k)) pid ipc_ns domain_id commit in
  (set_reg (Registry (procs k) agents (pool k)) k,
   if copy_ok u 1%nat then Ok (BoolReply b) else Err EFAULT).

(** The arguments are written back whatever the call returned. *)
Definition add_discovery_agent_cmd (domain_id : Z) : kstate * res reply :=
  require copy_ok u 0%nat orelse (k, Err EFAULT);
  let '(agents, r) := agnocast_ioctl_add_discovery_agent (kmalloc_ok e)
    (discovery_agent_htable (reg k)) pid ipc_ns domain_id in
  (set_reg (Registry (procs k) agents (pool k)) k,
   require copy_ok u 1%nat orelse Err EFAULT;
   match r with Ok b => Ok (BoolReply b) | Err err => Err err | Oops => Oops end).

(** The list is the eventfd contexts signalled. *)
Definition agnocast_ioctl (cmd : command) : kstate * list Z * res reply :=
  let quiet (kr : kstate * res reply) : kstate * list Z * res reply := (kr.1, [], kr.2) in
  match cmd with
  | ADD_PROCESS_CMD role_arg domain_id => quiet (add_process_cmd role_arg domain_id)
  | ADD_SUBSCRIBER_CMD t n d tl rel take ign br fd =>
      quiet (add_subscriber_cmd t n d tl rel take ign br fd)
  | ADD_PUBLISHER_CMD t n d tl br => quiet (add_publisher_cmd t n d tl br)
  | RELEASE_SUB_REF_CMD t id eid => quiet (release_sub_ref_cmd t id eid)
  | RECEIVE_MSG_CMD t id size => quiet (receive_msg_cmd t id size)
  | PUBLISH_MSG_CMD t id a => publish_msg_cmd t id a
  | TAKE_MSG_CMD t id allow size => quiet (take_msg_cmd t id allow size)
  | GET_EXIT_PROCESS_CMD => quiet get_exit_process_cmd
  | REMOVE_SUBSCRIBER_CMD t id => quiet (remove_subscriber_cmd t id)
  | REMOVE_PUBLISHER_CMD t id => quiet (remove_publisher_cmd t id)
  | ADD_BRIDGE_CMD t r2a => quiet (add_bridge_cmd t r2a).1
  | REMOVE_BRIDGE_CMD t r2a => quiet (remove_bridge_cmd t r2a)
  | ADD_DOMAIN_BRIDGE_CMD nf nt from to => quiet (add_domain_bridge_cmd nf nt from to)
  | ADD_DOMAIN_BRIDGE_PREFIX_CMD p from to => quiet (add_domain_bridge_prefix_cmd p from to)
  | CHECK_AND_REQUEST_BRIDGE_SHUTDOWN_CMD => quiet check_and_request_bridge_shutdown_cmd
  | SET_ROS2_SUBSCRIBER_NUM_CMD t c => quiet (set_ros2_subscriber_num_cmd t c)
  | SET_ROS2_PUBLISHER_NUM_CMD t c => quiet (set_ros2_publisher_num_cmd t c)
  | NOTIFY_BRIDGE_SHUTDOWN_CMD => quiet notify_bridge_shutdown_cmd
  | DISCOVERY_AGENT_SHOULD_EXIT_CMD d c => quiet (discovery_agent_should_exit_cmd d c)
  | ADD_DISCOVERY_AGENT_CMD d => quiet (add_discovery_agent_cmd d)
  end.
End commands.

(** ** Runs of the module *)

(** The [uint32_t] arguments the invariant reads. *)
Definition command_typed (cmd : command) : Prop :=
  match cmd with
  | ADD_SUBSCRIBER_CMD _ _ d _ _ _ _ _ _ | ADD_PUBLISHER_CMD _ _ d _ _ => 0 <= d < 2 ^ 32
  | _ => True
  end.

(** The steps of the module: a command of a process, or the cleanup of an exited one, which
    [exit_worker_thread] runs.  [room]: no topic has run out of 2^32 live or 2^63 total entries. *)
Inductive kernel_step `{KernelHash} : kstate -> kstate -> Prop :=
  | step_ioctl u k cmd k' signals r :
      valid_pid (current_tgid (kernel_env u)) -> command_typed cmd -> room k ->
      agnocast_ioctl u k cmd = (k', signals, r) -> kernel_step k k'
  | step_exit k pid k' r :
      agnocast_process_exit_cleanup k pid = (k', r) -> kernel_step k k'.

(** The states reachable from the loading of the module. *)
Inductive kernel_reachable `{KernelHash} (size : Z) (pool0 : list mempool_entry) : kstate -> Prop :=
  | kernel_init : kernel_reachable size pool0 (init_kstate size pool0)
  | kernel_next k k' :
      kernel_reachable size pool0 k -> kernel_step k k' -> kernel_reachable size pool0 k'.

(** ** Lemmas *)

Section command_facts.
Context `{KernelHash} (pool0 : list mempool_entry) (u : user) (k : kstate).
Hypothesis Hk : kinv pool0 k.
Hypothesis Hroom : room k.
Hypothesis Hpid : valid_pid (current_tgid (kernel_env u)).

Definition safe {A} (kr : kstate * res A) : Prop := kinv pool0 kr.1 /\ kr.2 <> Oops.

Lemma safe_eq {A} kr : (forall k' (r : res A), kr = (k', r) -> kinv pool0 k' /\ r <> Oops) -> safe kr.
Proof. destruct kr as [k' r]. intros Hs. by apply Hs. Qed.

Lemma safe_err {A} err : @safe A (k, Err err).
Proof. by split. Qed.

Lemma safe_reply {A} n (f : A -> reply) kr : safe kr -> safe (reply_if_ok u n f kr).
Proof. destruct kr as [k' [a|err|]]; intros [Hs1 Hs2]; split; simpl in *; try done. by case_match. Qed.

Lemma safe_no_reply kr : safe kr -> safe (no_reply kr).
Proof. by destruct kr as [k' [a|err|]]; intros [Hs1 Hs2]; split. Qed.

Lemma safe_infos {A} infos_of (f : A -> reply) kr : safe kr -> safe (reply_with_infos u infos_of f kr).
Proof.
  destruct kr as [k' [a|err|]]; intros [Hs1 Hs2]; split; simpl in *; try done; repeat case_match; done.
Qed.

Lemma safe_name n size src body :
  (forall name, safe (body name)) -> safe (with_name u k n size src body).
Proof.
  intros Hb. unfold with_name. destruct (copy_name_from_user _ _ _) as [a|err|] eqn:E;
    [apply Hb|apply safe_err|]. unfold copy_name_from_user in E. by repeat case_match.
Qed.

Lemma safe_require {A} (b : bool) kr err : @safe A kr -> safe (if b then kr else (k, Err err)).
Proof. destruct b; [done|]. intros _. apply safe_err. Qed.

Lemma safe_reg (A : Type) r (a : res A) :
  registry_wf pool0 r -> a <> Oops -> safe (set_reg r k, a).
Proof. intros Hr Ha. split; [by apply reg_kinv|done]. Qed.

(** A call of the registry made by the module is one of [registry_call]. *)
Lemma safe_registry_call (A : Type) ps ags p (a : res A) :
  registry_call (reg k) (Registry ps ags p) -> a <> Oops -> safe (set_reg (Registry ps ags p) k, a).
Proof. intros Hc. apply safe_reg. eapply registry_call_wf; [apply Hk|done]. Qed.

Lemma reg_eta : reg k = Registry (procs k) (discovery_agent_htable (reg k)) (pool k).
Proof. unfold procs, pool. by destruct (reg k). Qed.

Lemma add_process_safe role_arg domain : safe (add_process_cmd u k role_arg domain).
Proof.
  apply safe_require.
  destruct (agnocast_ioctl_add_process _ _ _ _ _ _ _ _ _) as [[ps p] r] eqn:Hr.
  apply safe_reply, safe_registry_call.
  - rw reg_eta. by eapply call_add_process.
  - intros ->. apply add_process_cases in Hr
      as [(? & ? & ? & _ & _ & _ & _ & _ & _ & _ & _ & ?)|(_ & _ & i & Ha & Hi)]; [done|].
    apply assign_memory_inv in Ha as (m & _ & _ & Hi' & _); [congruence|by apply (kinv_pool_wf pool0)].
Qed.

Lemma get_exit_process_safe : safe (get_exit_process_cmd u k).
Proof.
  unfold get_exit_process_cmd. destruct (agnocast_ioctl_get_exit_process _ _) as [g l].
  apply safe_require. destruct (agnocast_commit_exit_process _ _ _ _ _) as [[ps p] b] eqn:Hr.
  apply safe_registry_call; [|done]. rw reg_eta. by eapply call_commit_exit.
Qed.

Lemma add_bridge_safe n r2a : safe (add_bridge_cmd u k n r2a).1.
Proof.
  unfold add_bridge_cmd. destruct (copy_ok u 0%nat); [|apply safe_err].
  destruct (copy_name_from_user _ _ _) as [a|err|] eqn:E; [|apply safe_err|].
  2: { unfold copy_name_from_user in E. by repeat case_match. }
  destruct (agnocast_ioctl_add_bridge _ _ _ _ _ _) as [[b ret] r] eqn:Hr.
  assert (kinv pool0 (set_bridges b k)) as Hk'
    by (apply bridges_kinv; [done|]; eapply add_bridge_wf; [apply Hk|done]).
  assert (r <> Oops) as Ho.
  { unfold agnocast_ioctl_add_bridge in Hr. repeat case_match; by injection Hr as <- <- <-. }
  destruct ret as [ret|]; [destruct (copy_ok u 2%nat)|]; split; simpl; try done; by destruct r.
Qed.

Lemma remove_bridge_safe n r2a : safe (remove_bridge_cmd u k n r2a).
Proof.
  apply safe_require, safe_name. intros name.
  destruct (agnocast_ioctl_remove_bridge _ _ _ _ _) as [b r] eqn:Hr. apply safe_no_reply.
  split; simpl; [apply bridges_kinv; [done|]; eapply remove_bridge_wf; [apply Hk|done]|].
  unfold agnocast_ioctl_remove_bridge in Hr. repeat case_match; by injection Hr as <- <-.
Qed.

Lemma domain_bridge_no_oops al fresh rules ws n1 n2 from to ns :
  (agnocast_ioctl_add_domain_bridge al fresh rules ws n1 n2 from to ns).2 <> Oops.
Proof.
  unfold agnocast_ioctl_add_domain_bridge, add_domain_rule. rw insert_domain_rule_eq.
  repeat case_match; done.
Qed.

Lemma domain_bridge_prefix_no_oops al fresh rules ws p from to ns :
  (agnocast_ioctl_add_domain_bridge_prefix al fresh rules ws p from to ns).2 <> Oops.
Proof.
  unfold agnocast_ioctl_add_domain_bridge_prefix, add_prefix_domain_rule. rw insert_domain_rule_eq.
  repeat case_match; done.
Qed.

Lemma publish_safe n id a k' signals r :
  publish_msg_cmd u k n id a = (k', signals, r) -> kinv pool0 k' /\ r <> Oops.
Proof.
  unfold publish_msg_cmd. destruct (copy_ok u 0%nat); [|by intros [= <- <- <-]].
  destruct (copy_name_from_user _ _ _) as [s|err|] eqn:E; [|by intros [= <- <- <-]|].
  2: { unfold copy_name_from_user in E. by repeat case_match. }
  destruct (agnocast_ioctl_publish_msg _ _ _ _ _) as [[k1 s1] r1] eqn:Hrun.
  destruct (publish_kinv _ _ _ _ _ _ _ _ _ Hk Hroom Hrun) as [Hk1 Hr1].
  pose proof (safe_reply 2 PublishReply (k1, r1) (conj Hk1 Hr1)) as [Hs1 Hs2].
  destruct (reply_if_ok _ _ _ _) as [k2 r2]. by intros [= <- <- <-].
Qed.

Lemma domain_bridge_safe n1 n2 from to :
  safe (add_domain_bridge (kernel_env u) k n1 n2 from to).
Proof.
  apply safe_eq. intros k' r Hr. split; [by eapply add_domain_bridge_kinv|].
  unfold add_domain_bridge in Hr.
  pose proof (domain_bridge_no_oops (kmalloc_ok (kernel_env u)) (next_addr k)
    (domain_rule_htable k) (topic_hashtable k) n1 n2 from to (current_ipc_ns (kernel_env u))) as Hno.
  destruct (agnocast_ioctl_add_domain_bridge _ _ _ _ _ _ _ _ _). by injection Hr as _ <-.
Qed.

Lemma domain_bridge_prefix_safe p from to :
  safe (add_domain_bridge_prefix (kernel_env u) k p from to).
Proof.
  apply safe_eq. intros k' r Hr. split; [by eapply add_domain_bridge_prefix_kinv|].
  unfold add_domain_bridge_prefix in Hr.
  pose proof (domain_bridge_prefix_no_oops (kmalloc_ok (kernel_env u)) (next_addr k)
    (domain_rule_htable k) (topic_hashtable k) p from to (current_ipc_ns (kernel_env u))) as Hno.
  destruct (agnocast_ioctl_add_domain_bridge_prefix _ _ _ _ _ _ _ _). by injection Hr as _ <-.
Qed.

Lemma agent_should_exit_safe d c : safe (discovery_agent_should_exit_cmd u k d c).
Proof.
  unfold discovery_agent_should_exit_cmd. destruct (copy_ok u 0%nat); [|apply safe_err].
  destruct (agnocast_ioctl_discovery_agent_should_exit _ _ _ _ _ _) as [ags b] eqn:Hr.
  apply safe_registry_call; [|by case_match]. rw {1}reg_eta.
  pose proof (call_agent_should_exit (current_tgid (kernel_env u)) (current_ipc_ns (kernel_env u))
    d c (procs k) (discovery_agent_htable (reg k)) (pool k)) as Hc. rw Hr in Hc. exact Hc.
Qed.

Lemma add_agent_safe d : safe (add_discovery_agent_cmd u k d).
Proof.
  unfold add_discovery_agent_cmd. destruct (copy_ok u 0%nat); [|apply safe_err].
  destruct (agnocast_ioctl_add_discovery_agent _ _ _ _ _) as [ags r] eqn:Hr.
  apply safe_registry_call.
  - rw {1}reg_eta.
    pose proof (call_add_agent (kmalloc_ok (kernel_env u)) (current_tgid (kernel_env u))
      (current_ipc_ns (kernel_env u)) d (procs k) (discovery_agent_htable (reg k)) (pool k)) as Hc.
    rw Hr in Hc. exact Hc.
  - assert (r <> Oops) by (unfold agnocast_ioctl_add_discovery_agent in Hr;
      repeat case_match; by injection Hr as <- <-).
    by destruct (copy_ok u 1%nat), r.
Qed.

(** The copies and checks a command makes before it calls the module's function. *)
Ltac call :=
  apply safe_require; repeat (apply safe_name; intros ?);
  try (apply safe_require; apply safe_require); 
  first [apply safe_infos | apply safe_reply | apply safe_no_reply].

(** Every command keeps the invariant and follows no dangling pointer. *)
Lemma ioctl_safe cmd k' signals r :
  command_typed cmd -> agnocast_ioctl u k cmd = (k', signals, r) -> kinv pool0 k' /\ r <> Oops.
Proof.
  intros Ht. destruct cmd; cbn [agnocast_ioctl]; try (apply publish_safe); intros [= <- <- <-].
  - apply add_process_safe.
  - call. apply safe_eq. intros k' r. by apply add_subscriber_kinv.
  - call. apply safe_eq. intros k' r. by apply add_publisher_kinv.
  - call. apply safe_eq. intros k' r. by apply release_reference_kinv.
  - call. apply safe_eq. intros k' r. by apply receive_kinv.
  - call. apply safe_eq. intros k' r. by apply take_kinv.
  - apply get_exit_process_safe.
  - call. apply safe_eq. intros k' r. by apply remove_subscriber_kinv.
  - call. apply safe_eq. intros k' r. by apply remove_publisher_kinv.
  - apply add_bridge_safe.
  - apply remove_bridge_safe.
  - call. apply domain_bridge_safe.
  - call. apply domain_bridge_prefix_safe.
  - unfold check_and_request_bridge_shutdown_cmd.
    destruct (agnocast_ioctl_check_and_request_bridge_shutdown _ _ _) as [ps b] eqn:Hr.
    apply safe_registry_call; [|by case_match]. rw {1}reg_eta.
    pose proof (call_check_shutdown (current_tgid (kernel_env u)) (current_ipc_ns (kernel_env u))
      (procs k) (discovery_agent_htable (reg k)) (pool k)) as Hc. rw Hr in Hc. exact Hc.
  - call. apply safe_eq. intros k' r Hr. eapply set_ros2_kinv; [done|by left].
  - call. apply safe_eq. intros k' r Hr. eapply set_ros2_kinv; [done|by right].
  - apply safe_registry_call; [|done]. rw {1}reg_eta. apply call_notify_shutdown.
  - apply agent_should_exit_safe.
  - apply add_agent_safe.
Qed.
End command_facts.
