(* ===== verification/KTheorems.v ===== *)
(** * Kernel module: theorems about its runs

    The properties of the states the commands of KIoctl and the process exits reach: no dangling
    pointer is followed, eventfd references balance, topics are shared exactly as the domain
    bridge rules say, messages cross domains only where a rule allows it, a process's exit and the
    module's unloading leave nothing behind. *)

From S2P Require Import Prelude Kernel KMempool KTypes KRules KTopic KMessage KCleanup KRegistry.
From S2P Require Import KState KInvariant KSystem KIoctl.

(** ** Lemmas *)

Section runs.
Context `{KernelHash} (pool0 : list mempool_entry).

Lemma init_kinv size : pool_wf pool0 -> kinv pool0 (init_kstate size pool0).
Proof.
  intros Hp. split; simpl.
  - split; simpl; try done; try set_solver; by constructor.
  - split; simpl; by constructor.
  - split; simpl; try done; try set_solver; try (by constructor).
    split; [constructor|constructor|]. intros n ns d r1 r2 H1. by apply elem_of_nil in H1.
  - done.
  - done.
Qed.

Lemma kernel_step_kinv k k' : kinv pool0 k -> kernel_step k k' -> kinv pool0 k'.
Proof.
  intros Hk Hs. destruct Hs as [u k cmd k' signals r Hv Ht Hroom Hrun|k pid k' r Hrun].
  - by apply (ioctl_safe pool0 u k Hk Hroom Hv cmd k' signals r).
  - by apply (process_exit_kinv pool0) in Hrun as [? _].
Qed.

Lemma kernel_reachable_kinv size k :
  pool_wf pool0 -> kernel_reachable size pool0 k -> kinv pool0 k.
Proof.
  intros Hp Hr. induction Hr as [|k k' _ IH Hs]; [by apply init_kinv|by eapply kernel_step_kinv].
Qed.

(** The rule a reachable topic caches is the rule of its wrappers' cells. *)
Lemma rule_at_topic k w t :
  kinv pool0 k -> w ∈ topic_hashtable k -> topics k !! topic w = Some t ->
  rule_at (domain_rule_htable k) (rule t) = rule_of (domain_rule_htable k) w.
Proof.
  intros Hk Hw Ht. destruct (tv_wrappers _ _ _ _ (ki_topics _ _ Hk) w Hw) as (t' & Ht' & Hr).
  assert (t' = t) as -> by congruence. rw Hr.
  pose proof (tv_rules _ _ _ _ (ki_topics _ _ Hk)) as Hwf.
  destruct (rule_of (domain_rule_htable k) w) as [r|] eqn:E; [|done].
  apply rule_at_Some; [apply (wf_rule_addrs _ Hwf)|].
  by apply find_domain_rule_Some in E as [? _].
Qed.

Lemma endpoint_wrapper k a t d :
  kinv pool0 k -> topics k !! a = Some t -> d ∈ endpoint_domains t ->
  exists w, w ∈ topic_hashtable k /\ topic w = a /\ wrapper_domain_id w = d.
Proof. intros Hk. by apply (ki_domains _ _ Hk). Qed.

(** Two cells a rule pairs are its two domains, in one order or the other. *)
Lemma paired_domains rules w1 w2 r :
  rules_wf rules -> rule_of rules w1 = Some r -> paired rules w1 w2 ->
  wrapper_domain_id w1 = domain_a r /\ wrapper_domain_id w2 = domain_b r \/
  wrapper_domain_id w1 = domain_b r /\ wrapper_domain_id w2 = domain_a r.
Proof.
  intros Hwf Hr (_ & r' & Hr' & Hp). assert (r' = r) as -> by congruence.
  apply find_domain_rule_Some in Hr as [_ Hc]. unfold rule_covers in Hc.
  apply andb_prop in Hc as [[_ Hc]%andb_prop _]. unfold partner_cell in Hp. revert Hp Hc.
  destruct (Z.eqb_spec (wrapper_domain_id w1) (domain_a r)) as [Ha|Ha]; intros [= _ <-] Hc;
    [by left|].
  right. split; [|done]. by apply Z.eqb_eq in Hc.
Qed.

Lemma elem_of_all_ctxs (ts : gmap Z topic_struct) a t s c :
  ts !! a = Some t -> s ∈ sub_info_htable t -> notify_ctx s = Some c -> c ∈ all_ctxs ts.
Proof.
  intros Ha Hs Hc. unfold all_ctxs. apply list_elem_of_bind. exists (a, t).
  split; [|by apply elem_of_map_to_list]. simpl. unfold ctxs_of. apply list_elem_of_bind.
  exists s. split; [|done]. rw Hc. set_solver.
Qed.

(** ** Module unload *)

Lemma remove_all_spec ws k :
  kernel_topics_inv k -> eventfd_refs k ≡ₚ all_ctxs (topics k) -> topic_hashtable k ≡ₚ ws ->
  exists k', remove_all_topics ws k = (k', Ok tt) /\ kernel_topics_inv k' /\ same_rest k k' /\
    eventfd_refs k' ≡ₚ all_ctxs (topics k') /\ topic_hashtable k' = [].
Proof.
  revert k. induction ws as [|w ws IH]; intros k Hinv Hrefs Hp; simpl.
  { exists k. split_and!; try done. by apply Permutation_nil_r in Hp. }
  assert (w ∈ topic_hashtable k) as Hw by (rw Hp; set_solver).
  destruct (release_spec k w Hinv Hw Hrefs) as (k1 & -> & R1 & R2 & R3 & R4 & _ & _).
  destruct (IH k1) as (k' & -> & I1 & I2 & I3 & I4); [done|done| |].
  - rw R4. pose proof (without_wrapper_perm _ w (tv_cells _ _ _ _ Hinv) Hw) as Hperm.
    apply (Permutation_cons_inv (a := w)). by rw -Hperm.
  - exists k'. split_and!; try done. by eapply same_rest_trans.
Qed.
End runs.

(** ** Theorems *)

Section theorems.
Context `{KernelHash}.

(** C1. Whatever commands processes issue, with whatever arguments, allocation failures and
    user-copy faults, and whichever processes exit, the module never follows a dangling pointer:
    in every reachable state the invariant holds, no command gives [Oops], and the cleanup of any
    pid runs to its end. *)
Theorem kernel_memory_safe size pool0 k :
  pool_wf pool0 -> kernel_reachable size pool0 k ->
  kinv pool0 k /\
  (forall u cmd k' signals r, valid_pid (current_tgid (kernel_env u)) -> command_typed cmd ->
     room k -> agnocast_ioctl u k cmd = (k', signals, r) -> r <> Oops) /\
  (forall pid, exists k', agnocast_process_exit_cleanup k pid = (k', Ok tt)).
Proof.
  intros Hp Hr. pose proof (kernel_reachable_kinv _ _ _ Hp Hr) as Hk. split_and!; [done| |].
  - intros u cmd k' signals r Hv Ht Hroom Hrun.
    by apply (ioctl_safe pool0 u k Hk Hroom Hv cmd k' signals r Ht).
  - intros pid. destruct (agnocast_process_exit_cleanup k pid) as [k' r] eqn:Hrun.
    apply (process_exit_kinv pool0) in Hrun as (_ & -> & _); [by exists k'|done].
Qed.

(** C3. In every reachable state two topic wrappers share a [topic_struct] exactly when a domain
    bridge rule pairs their (name, domain) cells, and [wrapper_refcnt] counts the one or two
    wrappers pointing to it, so the struct is freed with its last wrapper and not before. *)
Theorem topics_shared_as_ruled size pool0 k w :
  pool_wf pool0 -> kernel_reachable size pool0 k -> w ∈ topic_hashtable k ->
  exists t, topics k !! topic w = Some t /\
    wrapper_refcnt t = Z.of_nat (length (sharing (topic_hashtable k) (topic w))) /\
    1 <= wrapper_refcnt t <= 2 /\
    rule t = rule_addr <$> rule_of (domain_rule_htable k) w /\
    forall w2, w2 ∈ topic_hashtable k ->
      topic w = topic w2 <-> w = w2 \/ paired (domain_rule_htable k) w w2.
Proof.
  intros Hp Hr Hw. pose proof (kernel_reachable_kinv _ _ _ Hp Hr) as Hk.
  pose proof (ki_topics _ _ Hk) as Hinv.
  destruct (tv_wrappers _ _ _ _ Hinv w Hw) as (t & Ht & Hrule). exists t.
  pose proof (tv_heap _ _ _ _ Hinv _ _ Ht) as [_ _ _ _ O5 O6].
  pose proof (sharing_bound _ _ _ _ (topic w) Hinv).
  split_and!; [done|done|lia|lia|done|]. intros w2 Hw2. by apply (tv_shared _ _ _ _ Hinv).
Qed.

(** C2. In every reachable state, a message of publisher [p] may reach subscriber [s] of its topic
    exactly when they are in the same domain, or neither is a bridge endpoint and a domain bridge
    rule pairs two joined cells of their domains with that direction enabled. *)
Theorem cross_domain_delivery size pool0 k a t p s :
  pool_wf pool0 -> kernel_reachable size pool0 k -> topics k !! a = Some t ->
  p ∈ pub_info_htable t -> s ∈ sub_info_htable t ->
  domain_delivery_allowed (domain_rule_htable k) t (pub_domain_id p) (pub_is_bridge p)
    (sub_domain_id s) (sub_is_bridge s) = true <->
  pub_domain_id p = sub_domain_id s \/
  (pub_is_bridge p = false /\ sub_is_bridge s = false /\
   exists wp wsub r, wp ∈ topic_hashtable k /\ wsub ∈ topic_hashtable k /\
     topic wp = a /\ topic wsub = a /\
     wrapper_domain_id wp = pub_domain_id p /\ wrapper_domain_id wsub = sub_domain_id s /\
     paired (domain_rule_htable k) wp wsub /\ rule_of (domain_rule_htable k) wp = Some r /\
     direction_enabled (pub_domain_id p <? sub_domain_id s) r = true).
Proof.
  intros Hpool Hr Ha Hp Hs. pose proof (kernel_reachable_kinv _ _ _ Hpool Hr) as Hk.
  pose proof (tv_rules _ _ _ _ (ki_topics _ _ Hk)) as Hwf.
  destruct (endpoint_wrapper pool0 k a t (pub_domain_id p) Hk Ha) as (wp & Hwp & Tp & Dp).
  { apply elem_of_app. left. by apply list_elem_of_fmap_2. }
  destruct (endpoint_wrapper pool0 k a t (sub_domain_id s) Hk Ha) as (wsub & Hws & Ts & Ds).
  { apply elem_of_app. right. by apply list_elem_of_fmap_2. }
  unfold domain_delivery_allowed.
  destruct (Z.eqb_spec (pub_domain_id p) (sub_domain_id s)) as [Heq|Hne]; [tauto|].
  destruct (pub_is_bridge p), (sub_is_bridge s); simpl; try (split; [done|naive_solver]).
  assert (rule_at (domain_rule_htable k) (rule t) = rule_of (domain_rule_htable k) wp) as Hrt
    by (apply (rule_at_topic pool0); [done|done|by rw Tp]).
  assert (paired (domain_rule_htable k) wp wsub) as Hpair.
  { destruct (proj1 (tv_shared _ _ _ _ (ki_topics _ _ Hk) wp wsub Hwp Hws)) as [->|?];
      [congruence|congruence|done]. }
  destruct Hpair as (Hns & r & Hrw & Hpc). rw Hrt Hrw.
  assert (paired (domain_rule_htable k) wp wsub) as Hpair by (split; [done|by exists r]).
  destruct (find_domain_rule_Some _ _ _ _ _ Hrw) as [Hrin _].
  pose proof (proj1 (Forall_forall _ _) (wf_rules _ Hwf) r Hrin) as [Hlt _ _].
  assert ((if (pub_domain_id p =? domain_a r) && (sub_domain_id s =? domain_b r) then a_to_b r
    else if (pub_domain_id p =? domain_b r) && (sub_domain_id s =? domain_a r) then b_to_a r
    else false) = direction_enabled (pub_domain_id p <? sub_domain_id s) r) as ->.
  { unfold direction_enabled. rw -Dp -Ds.
    destruct (paired_domains _ _ _ _ Hwf Hrw Hpair) as [[-> ->]|[-> ->]]; rw !Z.eqb_refl.
    - rw (proj2 (Z.ltb_lt _ _)); [simpl; by rw orb_false_r|lia].
    - rw (proj2 (Z.eqb_neq (domain_b r) (domain_a r))); [simpl|lia].
      rw (proj2 (Z.ltb_ge _ _)); [done|lia]. }
  split.
  - intros Hd. right. split_and!; [done|done|]. exists wp, wsub, r. by split_and!.
  - intros [?|(_ & _ & wp' & ws' & r' & I1 & I2 & T1 & T2 & D1 & D2 & P & R & E)]; [done|].
    assert (wp' = wp) as ->.
    { destruct (proj1 (tv_shared _ _ _ _ (ki_topics _ _ Hk) wp' wp I1 Hwp)) as [?|Hx];
        [congruence|done|]. exfalso. apply (paired_domain _ _ _ Hwf Hx). congruence. }
    congruence.
Qed.

(** PUBLISH_MSG never signals an eventfd context the module has released: every context it
    signals is one it holds a reference on, that of a subscriber of the topic. *)
Theorem publish_signals_held size pool0 k e n id a k' signals r c :
  pool_wf pool0 -> kernel_reachable size pool0 k -> room k ->
  agnocast_ioctl_publish_msg e k n id a = (k', signals, r) -> c ∈ signals ->
  c ∈ eventfd_refs k /\ c ∈ eventfd_refs k' /\
  exists w t s, find_topic_for_current e k n = Some w /\ topics k !! topic w = Some t /\
    s ∈ sub_info_htable t /\ notify_ctx s = Some c.
Proof.
  intros Hp Hr Hroom Hrun Hc. pose proof (kernel_reachable_kinv _ _ _ Hp Hr) as Hk.
  unfold agnocast_ioctl_publish_msg in Hrun.
  destruct (find_topic_for_current e k n) as [w|] eqn:Hf.
  2: { injection Hrun as <- <- <-. by apply elem_of_nil in Hc. }
  destruct (find_for_current pool0 _ _ _ _ Hk Hf) as (Hw & t & Ht & [O1 O2 _ _ _ _]).
  rw Ht in Hrun. destruct (publish_msg_topic _ _ _ _ _ _ _) as [[t' sg] r'] eqn:Hrun'.
  injection Hrun as <- <- <-. simpl.
  destruct (publish_msg_inv _ _ _ _ _ _ _ _ _ _ _ O1 O2 (Hroom _ _ Ht)
    (kinv_pools_present pool0 k t Hk) Hrun') as (_ & _ & _ & Hcase).
  assert (exists s, s ∈ sub_info_htable t /\ notify_ctx s = Some c) as (s & Hs & Hsc).
  { destruct Hcase as [(_ & -> & _)|(p & gone & Hfp & _ & _ & [(_ & ->)|(_ & -> & _)])];
      try (by apply elem_of_nil in Hc).
    apply find_publisher_info_Some in Hfp as [Hp' _].
    unfold notify_ok in O2. rw Forall_forall in O2. destruct (O2 p Hp') as [Hl _].
    rw Hl in Hc. apply list_elem_of_omap in Hc as (s & Hs & Htg). exists s. split; [done|].
    unfold notify_target in Htg. destruct (notify_ctx s); [|done]. by case_match. }
  assert (c ∈ eventfd_refs k) as Hin
    by (rw (ki_refs _ _ Hk); by eapply elem_of_all_ctxs).
  split_and!; [done|done|]. by exists w, t, s.
Qed.

(** C10. The cleanup of a registered process that exited leaves no trace of it: it maps no pool, has
    no subscriber in any topic, and no publisher but those a subscriber still reads a message of;
    its bridges are gone.  Every wrapper left has an endpoint in its own domain, so no topic is
    leaked. *)
Theorem process_exit_leaves_no_trace size pool0 k pid k' r :
  pool_wf pool0 -> kernel_reachable size pool0 k ->
  is_Some (agnocast_find_process_info (procs k) pid) ->
  agnocast_process_exit_cleanup k pid = (k', r) ->
  r = Ok tt /\ kinv pool0 k' /\
  (forall w, w ∈ topic_hashtable k' -> exists t, topics k' !! topic w = Some t /\
     Forall (fun s => sub_pid s <> pid) (sub_info_htable t) /\
     (forall p, p ∈ pub_info_htable t -> pub_pid p = pid ->
        exists en, en ∈ entries t /\ publisher_id en = pub_id p /\
          agnocast_is_referenced en = true) /\
     exists d, d ∈ endpoint_domains t /\ d = wrapper_domain_id w) /\
  (forall b, b ∈ bridge_htable k' <-> b ∈ bridge_htable k /\ br_pid b <> pid) /\
  (forall m, m ∈ pool k' -> pid ∉ mapped_pids m).
Proof.
  intros Hp Hr Hin Hrun. pose proof (kernel_reachable_kinv _ _ _ Hp Hr) as Hk.
  destruct (process_exit_kinv pool0 k pid k' r Hk Hrun) as (Hk' & -> & Hset & _).
  destruct (Hset Hin) as (Hw & Hb & Hpl). split_and!; [done|done| | |].
  - intros w Hiw. destruct (Hw w Hiw) as (t & Ht & [Hs Hpub] & Hd). exists t.
    pose proof (tv_heap _ _ _ _ (ki_topics _ _ Hk') _ _ Ht) as [O1 _ _ _ _ _].
    split_and!; [done|done| |].
    + intros p Hip Hpid. destruct (Hpub p Hip Hpid) as [Hne Href].
      pose proof (wf_entries_num _ O1) as Hn. rw Forall_forall in Hn. rw (Hn p Hip) in Hne.
      destruct (decide (Exists (fun en => publisher_id en = pub_id p) (entries t))) as [Hex|Hno].
      * apply list.Exists_exists in Hex as (en & Hen & Heq). exists en. auto.
      * exfalso. apply Hne, num_entries_of_zero. intros en Hen Heq.
        apply Hno, list.Exists_exists. eauto.
    + eexists. split; [|done]. unfold agnocast_wrapper_has_domain_endpoints in Hd.
      unfold endpoint_domains. rw elem_of_app !list_elem_of_fmap.
      apply orb_prop in Hd as [Hd|Hd]; apply existsb_exists in Hd as (x & Hx & Heq);
        apply Z.eqb_eq in Heq; rw -list_elem_of_In in Hx; [left|right]; by exists x.
  - intros b. rw Hb. unfold exit_bridges. rw list_elem_of_filter. tauto.
  - intros m. rw Hpl. intros (m0 & -> & Hm0)%list_elem_of_fmap.
    pose proof (kinv_pool_wf pool0 k Hk) as Hwf. unfold pool_wf in Hwf. rw Forall_forall in Hwf.
    rw free_entry_mapped; [|by apply Hwf]. tauto.
Qed.

(** C12. Unloading the module from any reachable state frees every topic and puts every eventfd
    reference it still holds, each exactly once. *)
Theorem module_unload_releases_all size pool0 k :
  pool_wf pool0 -> kernel_reachable size pool0 k ->
  exists k', agnocast_exit_free_data k = (k', Ok tt) /\
    topics k' = ∅ /\ topic_hashtable k' = [] /\ eventfd_refs k' = [] /\
    procs k' = [] /\ bridge_htable k' = [] /\ domain_rule_htable k' = [].
Proof.
  intros Hp Hr. pose proof (kernel_reachable_kinv _ _ _ Hp Hr) as Hk.
  destruct (remove_all_spec (topic_hashtable k) k (ki_topics _ _ Hk) (ki_refs _ _ Hk))
    as (k1 & Hrm & Hinv & _ & Hrefs & Hws); [done|].
  unfold agnocast_exit_free_data. rw Hrm. eexists. split; [done|]. simpl.
  assert (topics k1 = ∅) as Ht.
  { apply map_eq. intros a. rw lookup_empty. destruct (topics k1 !! a) as [t|] eqn:Ha; [|done].
    pose proof (tv_heap _ _ _ _ Hinv _ _ Ha) as [_ _ _ _ O5 O6]. rw Hws /= in O5. lia. }
  split_and!; try done. rw Ht in Hrefs. by apply Permutation_nil_r in Hrefs.
Qed.

Lemma removed_process ps g p :
  NoDup (global_pid <$> ps) -> p ∈ ps -> p ∉ remove_process ps g -> global_pid p = g.
Proof.
  intros Hd Hp Hno. unfold remove_process in Hno.
  destruct (find (fun q => global_pid q =? g) ps) as [q|] eqn:Hf.
  - rw (hash_del_perm _ _ _ Hf) in Hp. apply elem_of_cons in Hp as [->|?]; [|done].
    by apply find_Some_inv in Hf as [_ ?%Z.eqb_eq].
  - by rw hash_del_notin in Hno.
Qed.

(** The hand-over of exited processes survives faults: GET_EXIT_PROCESS deregisters a process
    only if it exited and its pid reached user space, or it is the calling daemon itself, told to
    exit; if that copy faults, nothing changes. *)
Theorem exit_handover_fault_safe size pool0 u k k' r :
  pool_wf pool0 -> kernel_reachable size pool0 k -> get_exit_process_cmd u k = (k', r) ->
  (copy_ok u 0%nat = false -> k' = k /\ r = Err EFAULT) /\
  forall p, p ∈ procs k -> p ∉ procs k' ->
    exists ret_pid b, r = Ok (ExitReply ret_pid b) /\
      (exited p = true /\ local_pid p = ret_pid \/
       role p = PROCESS_ROLE_UNLINK_DAEMON /\ global_pid p = current_tgid (kernel_env u)).
Proof.
  intros Hpool Hr. pose proof (kernel_reachable_kinv _ _ _ Hpool Hr) as Hk.
  pose proof (rw_pids _ _ (ki_reg _ _ Hk)) as Hnd. unfold get_exit_process_cmd.
  destruct (agnocast_ioctl_get_exit_process _ _) as [g l] eqn:Hg.
  destruct (copy_ok u 0%nat); [|by intros [= <- <-]].
  destruct (agnocast_commit_exit_process _ _ _ _ _) as [[ps pl] b] eqn:Hc.
  intros [= <- <-]. split; [done|]. intros p Hp Hno. simpl in Hno.
  exists l, (if copy_ok u 1%nat then b else false). split; [done|].
  change (proc_info_htable (reg k)) with (procs k) in Hnd.
  assert (0 <= g -> p ∉ remove_process (procs k) g -> exited p = true /\ local_pid p = l) as Hexit.
  { intros Hge Hrem. pose proof (removed_process _ _ _ Hnd Hp Hrem) as Heq.
    unfold agnocast_ioctl_get_exit_process in Hg.
    destruct (find _ (procs k)) as [q|] eqn:Hf; injection Hg as <- <-; [|lia].
    apply find_Some_inv in Hf as [Hq Hex]. bool_to_prop.
    assert (p = q) as -> by (by apply (NoDup_fmap_inj_on global_pid (procs k))). done. }
  unfold agnocast_commit_exit_process in Hc.
  destruct (Z.leb_spec 0 g) as [Hge|Hlt].
  - left. apply Hexit; [done|].
    assert (Hlt : (g <? 0) = false) by (by apply Z.ltb_ge).
    rw Hlt andb_false_r /= in Hc. by injection Hc as <- _ _.
  - right. destruct (_ && _ && _); [|by injection Hc as <- _ _].
    destruct (agnocast_find_process_info (procs k) _) as [c|] eqn:Hf; [|by injection Hc as <- _ _].
    case_bool_decide as Hrole; injection Hc as <- _ _; [|done].
    pose proof (removed_process _ _ _ Hnd Hp Hno) as Heq. split; [|done].
    apply find_process_info_Some in Hf as [Hcin Hceq].
    assert (p = c) as -> by (apply (NoDup_fmap_inj_on global_pid (procs k)); congruence). done.
Qed.
End theorems.

(** ** Witnesses: a concrete run *)

Definition sample_user (pid : Z) : user :=
  User (Env pid 1 (fun _ => true) (fun p => Some p) (fun fd => inr (fd + 1000))) (fun _ => true).

Definition sample_pools : list mempool_entry := init_entries 4 4096 1073741824.

(** A process of domain 0 publishes "/a" to one of domain 1 over a domain bridge. *)
Definition sample_run : list (Z * command) :=
  [(100, ADD_PROCESS_CMD 0 0); (200, ADD_PROCESS_CMD 0 1);
   (100, ADD_DOMAIN_BRIDGE_CMD "/a" "/a" 0 1);
   (100, ADD_PUBLISHER_CMD "/a" "talker" 10 false false);
   (200, ADD_SUBSCRIBER_CMD "/a" "listener" 10 false true false false false 5);
   (100, PUBLISH_MSG_CMD "/a" 0 5000); (200, ADD_BRIDGE_CMD "/a" true);
   (200, TAKE_MSG_CMD "/a" 1 false 8)].

Definition exec (c : Z * command) (k : kstate) : kstate :=
  (@agnocast_ioctl length_hash (sample_user c.1) k c.2).1.1.

Definition exec_all (cs : list (Z * command)) (k : kstate) : kstate :=
  fold_left (fun k c => exec c k) cs k.

#[export] Instance room_for_entry_dec t : Decision (room_for_entry t).
Proof. unfold room_for_entry. apply _. Defined.
#[export] Instance command_typed_dec cmd : Decision (command_typed cmd).
Proof. destruct cmd; simpl; apply _. Defined.
#[export] Instance valid_pid_dec pid : Decision (valid_pid pid).
Proof. unfold valid_pid. apply _. Defined.

Definition roomy (k : kstate) : bool := bool_decide (map_Forall (fun _ t => room_for_entry t) (topics k)).

Fixpoint runs_ok (cs : list (Z * command)) (k : kstate) : bool :=
  match cs with
  | [] => true
  | c :: rest =>
      bool_decide (valid_pid c.1) && bool_decide (command_typed c.2) && roomy k &&
      runs_ok rest (exec c k)
  end.

Lemma roomy_room k : roomy k = true -> room k.
Proof. intros Hr. by apply bool_decide_eq_true in Hr. Qed.

Lemma exec_all_reachable size pool0 cs k :
  @kernel_reachable length_hash size pool0 k -> runs_ok cs k = true ->
  @kernel_reachable length_hash size pool0 (exec_all cs k).
Proof.
  revert k. induction cs as [|c cs IH]; intros k Hr Hok; simpl; [done|]. simpl in Hok.
  apply andb_prop in Hok as [[[Hv%bool_decide_eq_true Ht%bool_decide_eq_true]%andb_prop
    Hroom%roomy_room]%andb_prop Hok].
  apply IH; [|done]. eapply kernel_next; [done|].
  destruct (@agnocast_ioctl length_hash (sample_user c.1) k c.2) as [[k' sg] r] eqn:E.
  unfold exec. rw E. by apply (step_ioctl (H := length_hash) (sample_user c.1) k c.2 k' sg r).
Qed.

Definition sample_state : kstate := exec_all sample_run (init_kstate 1073741824 sample_pools).

Lemma sample_state_reachable : @kernel_reachable length_hash 1073741824 sample_pools sample_state.
Proof. apply exec_all_reachable; [constructor|]. by vm_compute. Qed.

Lemma sample_state_pools_wf : pool_wf sample_pools.
Proof. repeat constructor. Qed.

(** The subscriber took the message that crossed the domains; one topic, two wrappers. *)
Example sample_state_ok :
  length (topic_hashtable sample_state) = 2%nat /\ eventfd_refs sample_state = [1005] /\
  (fun t => (entry_id <$> entries t, referencing_subscribers <$> entries t, wrapper_refcnt t))
    <$> topics sample_state !! 2 = Some ([1], [2], 2).
Proof. vm_compute. auto. Qed.

Definition sample_topic_of (w : topic_wrapper) : topic_struct :=
  default (new_topic_struct None) (topics sample_state !! topic w).

Lemma kernel_memory_safe_witness :
  kinv (H := length_hash) sample_pools sample_state /\
  exists k', @agnocast_process_exit_cleanup length_hash sample_state 100 = (k', Ok tt).
Proof.
  destruct (kernel_memory_safe (H := length_hash) _ _ _ sample_state_pools_wf sample_state_reachable)
    as (H1 & _ & H3).
  split; [exact H1|exact (H3 100)].
Defined.

Lemma topics_shared_as_ruled_witness :
  exists t, topics sample_state !! 2 = Some t /\ 1 <= wrapper_refcnt t <= 2.
Proof.
  destruct (topics_shared_as_ruled (H := length_hash) _ _ _ (TopicWrapper 1 0 "/a" 2)
    sample_state_pools_wf sample_state_reachable) as (t & H1 & _ & H3 & _).
  - apply list_elem_of_In. vm_compute. auto.
  - exists t. split; [exact H1|exact H3].
Defined.

Definition sample_topic2 : topic_struct := sample_topic_of (TopicWrapper 1 0 "/a" 2).

Definition sample_cross_pub : publisher_info :=
  default (PublisherInfo 0 0 0 "" 0 false 0 false [] 0) (head (pub_info_htable sample_topic2)).
Definition sample_cross_sub : subscriber_info :=
  default sample_sub (head (sub_info_htable sample_topic2)).

Lemma sample_cross_facts :
  topics sample_state !! 2 = Some sample_topic2 /\
  sample_cross_pub ∈ pub_info_htable sample_topic2 /\
  sample_cross_sub ∈ sub_info_htable sample_topic2 /\
  pub_domain_id sample_cross_pub = 0 /\ sub_domain_id sample_cross_sub = 1 /\
  domain_delivery_allowed (domain_rule_htable sample_state) sample_topic2
    (pub_domain_id sample_cross_pub) (pub_is_bridge sample_cross_pub)
    (sub_domain_id sample_cross_sub) (sub_is_bridge sample_cross_sub) = true.
Proof. rw !list_elem_of_In. vm_compute. auto 10. Qed.

Lemma cross_domain_delivery_witness :
  exists wp wsub, wp ∈ topic_hashtable sample_state /\ wsub ∈ topic_hashtable sample_state /\
    wrapper_domain_id wp = 0 /\ wrapper_domain_id wsub = 1.
Proof.
  destruct sample_cross_facts as (Ht & Hp & Hs & Dp & Ds & Ha).
  destruct (proj1 (cross_domain_delivery (H := length_hash) _ _ _ 2 sample_topic2 sample_cross_pub
    sample_cross_sub sample_state_pools_wf sample_state_reachable Ht Hp Hs) Ha)
    as [Heq|(_ & _ & wp & wsub & r & H1 & H2 & _ & _ & H5 & H6 & _)].
  - rw Dp Ds in Heq. discriminate Heq.
  - exists wp, wsub. rw Dp in H5. rw Ds in H6. exact (conj H1 (conj H2 (conj H5 H6))).
Defined.

Definition sample_publish_again : kstate * list Z * res publish_ret :=
  @agnocast_ioctl_publish_msg length_hash (kernel_env (sample_user 100)) sample_state "/a" 0 6000.

Lemma publish_signals_held_witness : sample_publish_again.1.2 = [1005] /\ 1005 ∈ eventfd_refs sample_state.
Proof.
  split; [vm_compute; reflexivity|].
  destruct (publish_signals_held (H := length_hash) _ _ _ (kernel_env (sample_user 100)) "/a" 0 6000
    sample_publish_again.1.1 sample_publish_again.1.2 sample_publish_again.2 1005
    sample_state_pools_wf sample_state_reachable) as [H1 _].
  - apply roomy_room. vm_compute. reflexivity.
  - unfold sample_publish_again. by rw -!surjective_pairing.
  - apply list_elem_of_In. vm_compute. auto.
  - exact H1.
Defined.

Definition sample_exit : kstate * res unit := @agnocast_process_exit_cleanup length_hash sample_state 100.

Lemma process_exit_leaves_no_trace_witness :
  length (topic_hashtable sample_exit.1) = 2%nat /\
  forall m, m ∈ pool sample_exit.1 -> 100 ∉ mapped_pids m.
Proof.
  split; [vm_compute; reflexivity|].
  destruct (process_exit_leaves_no_trace (H := length_hash) _ _ _ 100 sample_exit.1 sample_exit.2
    sample_state_pools_wf sample_state_reachable) as (_ & _ & _ & _ & H5).
  - vm_compute. eexists. reflexivity.
  - unfold sample_exit. by rw -surjective_pairing.
  - exact H5.
Defined.

Lemma module_unload_releases_all_witness :
  exists k', agnocast_exit_free_data sample_state = (k', Ok tt) /\ eventfd_refs k' = [].
Proof.
  destruct (module_unload_releases_all (H := length_hash) _ _ _ sample_state_pools_wf
    sample_state_reachable) as (k' & H1 & _ & _ & H4 & _).
  exists k'. split; [exact H1|exact H4].
Defined.

Definition faulty_user : user := User (kernel_env (sample_user 7)) (fun _ => false).

Lemma exit_handover_fault_safe_witness :
  (@get_exit_process_cmd length_hash faulty_user sample_state).1 = sample_state.
Proof.
  destruct (exit_handover_fault_safe (H := length_hash) _ _ faulty_user _
    (@get_exit_process_cmd length_hash faulty_user sample_state).1
    (@get_exit_process_cmd length_hash faulty_user sample_state).2
    sample_state_pools_wf sample_state_reachable) as [H1 _].
  - by rw -surjective_pairing.
  - apply H1. reflexivity.
Defined.
