(* ===== verification/KQuery.v ===== *)
(** * Kernel module: the commands that read

    The commands of agnocast_kmod/agnocast_ioctl.c that report on topics, nodes and endpoints and
    write nothing, with their [*_cmd] handlers ([get_version], which copies a constant string, left out).  The node list is collected through an open-addressing
    table of 2048 slots whose probe loop has no bound: [probe] has fuel, one step per slot, and the
    theorems show that it never runs out. *)

From S2P Require Import Prelude Kernel KMempool KTypes KRules KTopic KMessage KCleanup KRegistry.
From S2P Require Import KState KInvariant KSystem KIoctl KTheorems.

(** ** Counts *)

Record subscriber_num := SubscriberNum {
  ret_other_process_subscriber_num : Z;
  ret_same_process_subscriber_num : Z;
  ret_ros2_subscriber_num : Z;
  ret_other_domain_subscriber_num : Z;
  sub_ret_a2r_bridge_exist : bool;
  sub_ret_r2a_bridge_exist : bool
}.

Record publisher_num := PublisherNum {
  ret_publisher_num : Z;
  ret_ros2_publisher_num : Z;
  pub_ret_r2a_bridge_exist : bool;
  pub_ret_a2r_bridge_exist : bool
}.

(** A [uint32_t] incremented for each node of a table that passes the test. *)
Definition count_if {A} (f : A -> bool) (l : list A) : Z :=
  u32 (Z.of_nat (length (filter (fun x => f x = true) l))).

Section queries.
Context `{KernelHash}.

Definition agnocast_ioctl_get_subscriber_num (e : env) (k : kstate) (topic_name : string) (pid : Z)
    : res subscriber_num :=
  match find_topic_for_current e k topic_name with
  | None => Ok (SubscriberNum 0 0 0 0 false false)
  | Some w =>
      unwrap t := topics k !! topic w orelse Oops;
      let here s := sub_domain_id s =? wrapper_domain_id w in
      let delivered s := domain_delivery_allowed (domain_rule_htable k) t (wrapper_domain_id w) false
                           (sub_domain_id s) (sub_is_bridge s) in
      let subs := sub_info_htable t in
      Ok (SubscriberNum
            (count_if (fun s => here s && negb (sub_pid s =? pid)) subs)
            (count_if (fun s => here s && (sub_pid s =? pid)) subs)
            (ros2_subscriber_num t)
            (count_if (fun s => negb (here s) && delivered s) subs)
            (existsb (fun s => here s && sub_is_bridge s) subs)
            (existsb pub_is_bridge (pub_info_htable t)))
  end.

Definition agnocast_ioctl_get_publisher_num (e : env) (k : kstate) (topic_name : string)
    : res publisher_num :=
  match find_topic_for_current e k topic_name with
  | None => Ok (PublisherNum 0 0 false false)
  | Some w =>
      unwrap t := topics k !! topic w orelse Oops;
      let here p := pub_domain_id p =? wrapper_domain_id w in
      Ok (PublisherNum (count_if here (pub_info_htable t)) (ros2_publisher_num t)
            (existsb (fun p => here p && pub_is_bridge p) (pub_info_htable t))
            (existsb sub_is_bridge (sub_info_htable t)))
  end.

(** ** Topic lists *)

Definition is_service_response_topic (key : string) : bool :=
  String.prefix "/AGNOCAST_SRV_RESPONSE" key.

(** The scan of the topic table into a buffer of [buf_topic_num] slots; [found] says whether the topic
    belongs to the answer, and [written] is what the slots hold so far. *)
Fixpoint list_topics {A} (found : topic_wrapper -> res bool) (slot_of : topic_wrapper -> A)
    (buf_topic_num : Z) (ws : list topic_wrapper) (written : list A) : res (list A) :=
  match ws with
  | [] => Ok written
  | w :: ws =>
      match found w with
      | Ok true =>
          if buf_topic_num <=? Z.of_nat (length written) then Err ENOBUFS
          else list_topics found slot_of buf_topic_num ws (written ++ [slot_of w])
      | Ok false => list_topics found slot_of buf_topic_num ws written
      | Err err => Err err
      | Oops => Oops
      end
  end.

Definition agnocast_ioctl_get_topic_list (k : kstate) (ipc_ns buf_topic_num : Z)
    : res (list (string * Z)) :=
  list_topics (fun w => Ok ((wrapper_ipc_ns w =? ipc_ns) && negb (is_service_response_topic (key w))))
    (fun w => (key w, wrapper_domain_id w)) buf_topic_num (topic_hashtable k) [].

Definition agnocast_ioctl_get_node_subscriber_topics (k : kstate) (ipc_ns : Z) (node_name : string)
    (buf_topic_num : Z) : res (list string) :=
  list_topics
    (fun w => require wrapper_ipc_ns w =? ipc_ns orelse Ok false;
              unwrap t := topics k !! topic w orelse Oops;
              Ok (existsb (fun s => String.eqb (sub_node_name s) node_name) (sub_info_htable t)))
    key buf_topic_num (topic_hashtable k) [].

Definition agnocast_ioctl_get_node_publisher_topics (k : kstate) (ipc_ns : Z) (node_name : string)
    (buf_topic_num : Z) : res (list string) :=
  list_topics
    (fun w => require wrapper_ipc_ns w =? ipc_ns orelse Ok false;
              unwrap t := topics k !! topic w orelse Oops;
              Ok (existsb (fun p => String.eqb (pub_node_name p) node_name) (pub_info_htable t)))
    key buf_topic_num (topic_hashtable k) [].

(** ** Node names *)

Definition NODE_NAME_SLOT_NUM : Z := 2 ^ 11.

(** A slot is (name_index, pid), free when the pid is 0; [names] is the filled part of [buf]. *)
Record node_name_collector := Collector {
  slots : list (Z * Z);
  names : list string;
  capacity : Z
}.

(** The probe loop of [add_unique_node]: [Some (Some idx)] is a free slot, [Some None] that the node is
    already collected, [None] that the loop has not ended. *)
Fixpoint probe (fuel : nat) (col : node_name_collector) (name : string) (pid idx : Z)
    : option (option Z) :=
  match fuel with
  | O => None
  | S fuel =>
      unwrap slot := slots col !! Z.to_nat idx orelse None;
      let '(name_index, slot_pid) := slot in
      if slot_pid =? 0 then Some (Some idx)
      else if (slot_pid =? pid) && bool_decide (names col !! Z.to_nat name_index = Some name)
      then Some None
      else probe fuel col name pid (Z.land (u32 (idx + 1)) (NODE_NAME_SLOT_NUM - 1))
  end.

Definition add_unique_node (col : node_name_collector) (name : string) (pid : Z)
    : option (node_name_collector * res unit) :=
  let idx := Z.land (full_name_hash name) (NODE_NAME_SLOT_NUM - 1) in
  unwrap found := probe (Z.to_nat NODE_NAME_SLOT_NUM) col name pid idx orelse None;
  match found with
  | None => Some (col, Ok tt)
  | Some idx =>
      let num := Z.of_nat (length (names col)) in
      Some (if capacity col <=? num then (col, Err ENOBUFS)
            else (Collector (<[Z.to_nat idx := (num, pid)]> (slots col)) (names col ++ [name])
                    (capacity col), Ok tt))
  end.

Definition owner_is_alive (k : kstate) (pid : Z) : bool :=
  match agnocast_find_process_info (procs k) pid with
  | Some p => negb (exited p)
  | None => false
  end.

(** What the scan reads of an endpoint: its domain, bridge flag, process and node. *)
Definition endpoint : Type := Z * bool * Z * string.
Definition endpoint_of_pub (p : publisher_info) : endpoint :=
  (pub_domain_id p, pub_is_bridge p, pub_pid p, pub_node_name p).
Definition endpoint_of_sub (s : subscriber_info) : endpoint :=
  (sub_domain_id s, sub_is_bridge s, sub_pid s, sub_node_name s).

Definition counted (k : kstate) (domain_id : Z) (ep : endpoint) : bool :=
  let '(dom, is_bridge, pid, _) := ep in
  negb (negb (dom =? domain_id) || is_bridge) && owner_is_alive k pid.

Fixpoint collect_endpoints (k : kstate) (domain_id : Z) (eps : list endpoint)
    (col : node_name_collector) : option (node_name_collector * res unit) :=
  match eps with
  | [] => Some (col, Ok tt)
  | ep :: eps =>
      if counted k domain_id ep then
        match add_unique_node col ep.2 ep.1.2 with
        | Some (col, Ok _) => collect_endpoints k domain_id eps col
        | r => r
        end
      else collect_endpoints k domain_id eps col
  end.

Definition collect_node_names_of_topic (k : kstate) (t : topic_struct) (domain_id : Z)
    (col : node_name_collector) : option (node_name_collector * res unit) :=
  match collect_endpoints k domain_id (endpoint_of_pub <$> pub_info_htable t) col with
  | Some (col, Ok _) => collect_endpoints k domain_id (endpoint_of_sub <$> sub_info_htable t) col
  | r => r
  end.

Fixpoint collect_topics (k : kstate) (ipc_ns domain_id : Z) (ws : list topic_wrapper)
    (col : node_name_collector) : option (node_name_collector * res unit) :=
  match ws with
  | [] => Some (col, Ok tt)
  | w :: ws =>
      if negb (wrapper_ipc_ns w =? ipc_ns) || negb (wrapper_domain_id w =? domain_id)
      then collect_topics k ipc_ns domain_id ws col
      else
        unwrap t := topics k !! topic w orelse Some (col, Oops);
        match collect_node_names_of_topic k t domain_id col with
        | Some (col, Ok _) => collect_topics k ipc_ns domain_id ws col
        | r => r
        end
  end.

(** [None]: the probe loop did not end. *)
Definition agnocast_ioctl_get_node_names (al : alloc) (k : kstate) (ipc_ns pid buf_node_num : Z)
    : option (res (list string)) :=
  if MAX_NODE_NUM <? buf_node_num then Some (Err EINVAL)
  else if negb (al 0%nat) then Some (Err ENOMEM)
  else
    let col := Collector (replicate (Z.to_nat NODE_NAME_SLOT_NUM) (0, 0)) [] buf_node_num in
    match collect_topics k ipc_ns (get_process_domain_id (procs k) pid) (topic_hashtable k) col with
    | Some (col, Ok _) => Some (Ok (names col))
    | Some (_, Err err) => Some (Err err)
    | Some (_, Oops) => Some Oops
    | None => None
    end.

(** ** Endpoint details *)

Record topic_info_ret := TopicInfoRet {
  ti_node_name : string;
  ti_qos_depth : Z;
  ti_is_transient_local : bool;
  ti_is_reliable : bool;
  ti_is_bridge : bool
}.

Definition sub_topic_info (s : subscriber_info) : topic_info_ret :=
  TopicInfoRet (sub_node_name s) (sub_qos_depth s) (sub_is_transient_local s) (sub_is_reliable s)
    (sub_is_bridge s).
Definition pub_topic_info (p : publisher_info) : topic_info_ret :=
  TopicInfoRet (pub_node_name p) (pub_qos_depth p) (pub_is_transient_local p) false (pub_is_bridge p).

(** [copied] is the outcome of [copy_to_user] of the array. *)
Definition report_infos (al : alloc) (copied : bool) (size : Z) (infos : list topic_info_ret)
    : res (list topic_info_ret) :=
  require Z.of_nat (length infos) <=? size orelse Err ENOBUFS;
  match infos with
  | [] => Ok []
  | _ => require al 0%nat orelse Err ENOMEM; require copied orelse Err EFAULT; Ok infos
  end.

Definition agnocast_ioctl_get_topic_subscriber_info (e : env) (copied : bool) (k : kstate)
    (topic_name : string) (domain_id size : Z) : res (list topic_info_ret) :=
  unwrap w := find_topic (topic_hashtable k) topic_name (current_ipc_ns e) domain_id orelse Ok [];
  unwrap t := topics k !! topic w orelse Oops;
  report_infos (kmalloc_ok e) copied size
    (sub_topic_info <$> filter (fun s => sub_domain_id s = wrapper_domain_id w) (sub_info_htable t)).

Definition agnocast_ioctl_get_topic_publisher_info (e : env) (copied : bool) (k : kstate)
    (topic_name : string) (domain_id size : Z) : res (list topic_info_ret) :=
  unwrap w := find_topic (topic_hashtable k) topic_name (current_ipc_ns e) domain_id orelse Ok [];
  unwrap t := topics k !! topic w orelse Oops;
  report_infos (kmalloc_ok e) copied size
    (pub_topic_info <$> filter (fun p => pub_domain_id p = wrapper_domain_id w) (pub_info_htable t)).

Definition agnocast_ioctl_get_subscriber_qos (e : env) (k : kstate) (topic_name : string)
    (subscriber_id : Z) : res (Z * bool * bool) :=
  unwrap w := find_topic_for_current e k topic_name orelse Err EINVAL;
  unwrap t := topics k !! topic w orelse Oops;
  unwrap s := find_subscriber_info t subscriber_id orelse Err EINVAL;
  Ok (sub_qos_depth s, sub_is_transient_local s, sub_is_reliable s).

Definition agnocast_ioctl_get_publisher_qos (e : env) (k : kstate) (topic_name : string)
    (publisher_id : Z) : res (Z * bool) :=
  unwrap w := find_topic_for_current e k topic_name orelse Err EINVAL;
  unwrap t := topics k !! topic w orelse Oops;
  unwrap p := find_publisher_info t publisher_id orelse Err EINVAL;
  Ok (pub_qos_depth p, pub_is_transient_local p).
End queries.

(** ** The commands *)

Inductive query :=
  | GET_SUBSCRIBER_NUM_CMD (topic_name : string)
  | GET_PUBLISHER_NUM_CMD (topic_name : string)
  | GET_TOPIC_LIST_CMD (topic_name_buffer_size : Z) (with_domains : bool)
  | GET_NODE_NAMES_CMD (node_name_buffer_size : Z)
  | GET_NODE_SUBSCRIBER_TOPICS_CMD (node_name : string) (topic_name_buffer_size : Z)
  | GET_NODE_PUBLISHER_TOPICS_CMD (node_name : string) (topic_name_buffer_size : Z)
  | GET_TOPIC_SUBSCRIBER_INFO_CMD (topic_name : string) (domain_id topic_info_ret_buffer_size : Z)
  | GET_TOPIC_PUBLISHER_INFO_CMD (topic_name : string) (domain_id topic_info_ret_buffer_size : Z)
  | GET_SUBSCRIBER_QOS_CMD (topic_name : string) (subscriber_id : Z)
  | GET_PUBLISHER_QOS_CMD (topic_name : string) (publisher_id : Z)
  | DISCOVERY_AGENT_EXISTS_CMD (domain_id : Z).

Inductive answer :=
  | SubscriberNumAnswer (r : subscriber_num)
  | PublisherNumAnswer (r : publisher_num)
  | TopicListAnswer (l : list (string * Z))
  | NamesAnswer (l : list string)
  | InfosAnswer (l : list topic_info_ret)
  | SubscriberQosAnswer (r : Z * bool * bool)
  | PublisherQosAnswer (r : Z * bool)
  | ExistsAnswer (b : bool).

Section handlers.
Context `{KernelHash} (u : user) (k : kstate).
Let e : env := kernel_env u.
Let ipc_ns : Z := current_ipc_ns e.

Definition rbind {A B} (x : res A) (f : A -> res B) : res B :=
  match x with Ok a => f a | Err err => Err err | Oops => Oops end.

(** The [n]-th copy of the command, of the argument struct. *)
Definition copied {A} (n : nat) (a : A) : res A := if copy_ok u n then Ok a else Err EFAULT.
(** The same for an array, which cannot fail when it is empty. *)
Definition copied_array {A} (n : nat) (l : list A) : res (list A) :=
  if bool_decide (l = []) || copy_ok u n then Ok l else Err EFAULT.

(** The argument struct is copied in, then the name it points to. *)
Definition arg_name (size : Z) (src : string) : res string :=
  rbind (copied 0 tt) (fun _ => copy_name_from_user (copy_ok u 1%nat) size src).

Definition scratch {B} (body : res B) : res B := if kmalloc_ok e 0%nat then body else Err ENOMEM.

Definition get_topic_list_cmd (size : Z) (with_domains : bool) : res (list (string * Z)) :=
  rbind (copied 0 tt) (fun _ =>
  scratch (rbind (agnocast_ioctl_get_topic_list k ipc_ns (Z.min size MAX_TOPIC_NUM)) (fun l =>
  rbind (copied_array 1 l) (fun l =>
  rbind (if with_domains then copied_array 2 l else Ok l) (fun l => copied 3 l))))).

Definition get_node_topics_cmd (topics_of : string -> Z -> res (list string)) (node_name : string)
    (size : Z) : res (list string) :=
  rbind (arg_name NODE_NAME_BUFFER_SIZE node_name) (fun node_name =>
  scratch (rbind (topics_of node_name (Z.min size MAX_TOPIC_NUM)) (fun l =>
  rbind (copied_array 2 l) (fun l => copied 3 l)))).

(** [None]: the probe loop did not end. *)
Definition get_node_names_cmd (size : Z) : option (res (list string)) :=
  if negb (copy_ok u 0%nat) then Some (Err EFAULT)
  else if negb (kmalloc_ok e 0%nat) then Some (Err ENOMEM)
  else
    unwrap r := agnocast_ioctl_get_node_names (skip 1 (kmalloc_ok e)) k ipc_ns (current_tgid e)
                  (Z.min size MAX_NODE_NUM) orelse None;
    Some (rbind r (fun l => rbind (copied_array 1 l) (fun l => copied 2 l))).

Definition discovery_agent_exists_cmd (domain_id : Z) : res bool :=
  rbind (copied 0 tt) (fun _ =>
  copied 1 (agnocast_ioctl_discovery_agent_exists (discovery_agent_htable (reg k)) ipc_ns domain_id)).

Definition agnocast_query (q : query) : option (res answer) :=
  let ok {A} (f : A -> answer) (r : res A) := Some (rbind r (fun a => Ok (f a))) in
  let named {A} (name : string) (body : string -> res A) : res A :=
    rbind (arg_name TOPIC_NAME_BUFFER_SIZE name) body in
  match q with
  | GET_SUBSCRIBER_NUM_CMD t => ok SubscriberNumAnswer (named t (fun t =>
      rbind (agnocast_ioctl_get_subscriber_num e k t (current_tgid e)) (copied 2)))
  | GET_PUBLISHER_NUM_CMD t => ok PublisherNumAnswer (named t (fun t =>
      rbind (agnocast_ioctl_get_publisher_num e k t) (copied 2)))
  | GET_TOPIC_LIST_CMD size doms => ok TopicListAnswer (get_topic_list_cmd size doms)
  | GET_NODE_NAMES_CMD size => unwrap r := get_node_names_cmd size orelse None; ok NamesAnswer r
  | GET_NODE_SUBSCRIBER_TOPICS_CMD n size => ok NamesAnswer
      (get_node_topics_cmd (agnocast_ioctl_get_node_subscriber_topics k ipc_ns) n size)
  | GET_NODE_PUBLISHER_TOPICS_CMD n size => ok NamesAnswer
      (get_node_topics_cmd (agnocast_ioctl_get_node_publisher_topics k ipc_ns) n size)
  | GET_TOPIC_SUBSCRIBER_INFO_CMD t d size => ok InfosAnswer (named t (fun t =>
      rbind (agnocast_ioctl_get_topic_subscriber_info e (copy_ok u 2%nat) k t d size) (copied 3)))
  | GET_TOPIC_PUBLISHER_INFO_CMD t d size => ok InfosAnswer (named t (fun t =>
      rbind (agnocast_ioctl_get_topic_publisher_info e (copy_ok u 2%nat) k t d size) (copied 3)))
  | GET_SUBSCRIBER_QOS_CMD t id => ok SubscriberQosAnswer (named t (fun t =>
      rbind (agnocast_ioctl_get_subscriber_qos e k t id) (copied 2)))
  | GET_PUBLISHER_QOS_CMD t id => ok PublisherQosAnswer (named t (fun t =>
      rbind (agnocast_ioctl_get_publisher_qos e k t id) (copied 2)))
  | DISCOVERY_AGENT_EXISTS_CMD d => ok ExistsAnswer (discovery_agent_exists_cmd d)
  end.
End handlers.

(** ** The node list: reference definition *)

(** The first occurrence of each element, in order. *)
Fixpoint uniq_from {A} `{EqDecision A} (acc l : list A) : list A :=
  match l with
  | [] => acc
  | x :: l => uniq_from (if decide (x ∈ acc) then acc else acc ++ [x]) l
  end.

Lemma uniq_from_length {A} `{EqDecision A} (acc l : list A) :
  (length acc <= length (uniq_from acc l))%nat.
Proof.
  revert acc. induction l as [|x l IH]; intros acc; simpl; [done|].
  case_decide; [apply IH|]. etrans; [|apply IH]. rw length_app. lia.
Qed.

Lemma uniq_from_app {A} `{EqDecision A} (acc l1 l2 : list A) :
  uniq_from acc (l1 ++ l2) = uniq_from (uniq_from acc l1) l2.
Proof. revert acc. induction l1 as [|x l1 IH]; intros acc; simpl; [done|]. apply IH. Qed.

Lemma uniq_from_NoDup {A} `{EqDecision A} (acc l : list A) : NoDup acc -> NoDup (uniq_from acc l).
Proof.
  revert acc. induction l as [|x l IH]; intros acc Hd; simpl; [done|].
  apply IH. case_decide; [done|]. apply NoDup_app. split; [done|]. split; [set_solver|].
  apply NoDup_singleton.
Qed.

Lemma elem_of_uniq_from {A} `{EqDecision A} (acc l : list A) x :
  x ∈ uniq_from acc l <-> x ∈ acc \/ x ∈ l.
Proof.
  revert acc. induction l as [|y l IH]; intros acc; simpl; [set_solver|].
  rw IH. case_decide; set_solver.
Qed.

Section reference.
Context `{KernelHash}.

(** The (process, node) pairs of the live processes that own an endpoint, bridges apart, in the order of
    the tables. *)
Definition topic_owners (k : kstate) (domain_id : Z) (t : topic_struct) : list (Z * string) :=
  (fun ep : endpoint => (ep.1.2, ep.2)) <$> filter (fun ep => counted k domain_id ep = true)
    ((endpoint_of_pub <$> pub_info_htable t) ++ (endpoint_of_sub <$> sub_info_htable t)).

Definition node_owners (k : kstate) (ipc_ns domain_id : Z) : list (Z * string) :=
  filter (fun w => wrapper_ipc_ns w = ipc_ns /\ wrapper_domain_id w = domain_id) (topic_hashtable k)
    ≫= fun w => match topics k !! topic w with Some t => topic_owners k domain_id t | None => [] end.

(** The nodes of a domain: one name for each distinct pair. *)
Definition nodes_of (k : kstate) (ipc_ns domain_id : Z) : list (Z * string) :=
  uniq_from [] (node_owners k ipc_ns domain_id).

(** ** The open-addressing table *)

(** The [d]-th slot probed for a name. *)
Definition slot_pos (name : string) (d : nat) : nat :=
  Z.to_nat ((full_name_hash name + Z.of_nat d) mod NODE_NAME_SLOT_NUM).

Definition occupied (col : node_name_collector) (i : nat) : Prop :=
  exists j p, slots col !! i = Some (j, p) /\ p <> 0.

(** [keys] are the pairs collected, in the order of their names. *)
Record col_ok (col : node_name_collector) (keys : list (Z * string)) : Prop := ColOk {
  co_names : names col = snd <$> keys;
  co_slots : length (slots col) = Z.to_nat NODE_NAME_SLOT_NUM;
  co_capacity : Z.of_nat (length keys) <= capacity col;
  co_small : Z.of_nat (length keys) <= MAX_NODE_NUM;
  co_count : length (filter (fun s => s.2 <> 0) (slots col)) = length keys;
  co_slot i j p : slots col !! i = Some (j, p) -> p <> 0 ->
    exists n, keys !! Z.to_nat j = Some (p, n);
  co_reach j p n : keys !! j = Some (p, n) ->
    p <> 0 /\ exists d, slots col !! slot_pos n d = Some (Z.of_nat j, p) /\
      forall d', (d' < d)%nat -> occupied col (slot_pos n d')
}.

Lemma slot_pos_lt n d : (slot_pos n d < Z.to_nat NODE_NAME_SLOT_NUM)%nat.
Proof.
  unfold slot_pos, NODE_NAME_SLOT_NUM.
  pose proof (Z.mod_pos_bound (full_name_hash n + Z.of_nat d) (2 ^ 11)). lia.
Qed.

Lemma slot_pos_all n i :
  (i < Z.to_nat NODE_NAME_SLOT_NUM)%nat ->
  exists d, (d < Z.to_nat NODE_NAME_SLOT_NUM)%nat /\ slot_pos n d = i.
Proof.
  intros Hi. unfold NODE_NAME_SLOT_NUM in *.
  exists (Z.to_nat ((Z.of_nat i - full_name_hash n) mod 2 ^ 11)).
  pose proof (Z.mod_pos_bound (Z.of_nat i - full_name_hash n) (2 ^ 11)). split; [lia|].
  unfold slot_pos, NODE_NAME_SLOT_NUM. rw Z2Nat.id; [|lia]. rw Zplus_mod_idemp_r.
  replace (full_name_hash n + (Z.of_nat i - full_name_hash n)) with (Z.of_nat i) by lia.
  rw Z.mod_small; lia.
Qed.

Lemma slot_land z : Z.land z (NODE_NAME_SLOT_NUM - 1) = z mod NODE_NAME_SLOT_NUM.
Proof. change (NODE_NAME_SLOT_NUM - 1) with (Z.ones 11). by rw Z.land_ones. Qed.

Lemma slot_next n d :
  Z.land (u32 ((full_name_hash n + Z.of_nat d) mod NODE_NAME_SLOT_NUM + 1)) (NODE_NAME_SLOT_NUM - 1)
  = (full_name_hash n + Z.of_nat (S d)) mod NODE_NAME_SLOT_NUM.
Proof.
  rw slot_land. unfold u32, NODE_NAME_SLOT_NUM.
  pose proof (Z.mod_pos_bound (full_name_hash n + Z.of_nat d) (2 ^ 11)).
  rw (Z.mod_small _ (2 ^ 32)); [|lia]. rw Zplus_mod_idemp_l. f_equal. lia.
Qed.

(** Some slot is free: there are twice as many slots as names at most. *)
Lemma some_slot_free col keys n :
  col_ok col keys ->
  (forall d, (d < Z.to_nat NODE_NAME_SLOT_NUM)%nat -> occupied col (slot_pos n d)) -> False.
Proof.
  intros Hok Hall. pose proof (co_count _ _ Hok) as Hc. rw list_filter_all in Hc.
  - rw (co_slots _ _ Hok) in Hc. pose proof (co_small _ _ Hok). unfold MAX_NODE_NUM, NODE_NAME_SLOT_NUM in *. lia.
  - intros s [i Hi]%list_elem_of_lookup. pose proof (lookup_lt_Some _ _ _ Hi) as Hlt.
    rw (co_slots _ _ Hok) in Hlt. destruct (slot_pos_all n i Hlt) as (d & Hd & <-).
    destruct (Hall d Hd) as (j & p & Hs & Hp). by simplify_eq.
Qed.

(** The slots probed before the [d]-th hold other nodes. *)
Definition passed (col : node_name_collector) (n : string) (p : Z) (d : nat) : Prop :=
  forall d', (d' < d)%nat -> exists j q, slots col !! slot_pos n d' = Some (j, q) /\ q <> 0 /\
    ~ (q = p /\ names col !! Z.to_nat j = Some n).

Lemma passed_occupied col n p d : passed col n p d -> forall d', (d' < d)%nat -> occupied col (slot_pos n d').
Proof. intros Hps d' Hd. destruct (Hps d' Hd) as (j & q & ? & ? & _). by exists j, q. Qed.

Lemma probe_spec col keys n p fuel d :
  col_ok col keys -> p <> 0 -> (fuel + d = Z.to_nat NODE_NAME_SLOT_NUM)%nat -> passed col n p d ->
  exists r,
    probe fuel col n p ((full_name_hash n + Z.of_nat d) mod NODE_NAME_SLOT_NUM) = Some r /\
    match r with
    | None => (p, n) ∈ keys
    | Some idx => ~ ((p, n) ∈ keys) /\ exists d', Z.to_nat idx = slot_pos n d' /\
        (exists j, slots col !! slot_pos n d' = Some (j, 0)) /\
        forall d0, (d0 < d')%nat -> occupied col (slot_pos n d0)
    end.
Proof.
  intros Hok Hp. revert d. induction fuel as [|fuel IH]; intros d Hd Hpass.
  { exfalso. eapply some_slot_free; [done|]. intros d' Hd'. eapply passed_occupied; [done|lia]. }
  simpl. rw -/(slot_pos n d).
  destruct (lookup_lt_is_Some_2 (slots col) (slot_pos n d)) as [[j q] Hs].
  { rw (co_slots _ _ Hok). apply slot_pos_lt. }
  rw Hs. destruct (Z.eqb_spec q 0) as [->|Hq].
  - eexists. split; [done|]. split.
    + intros [j0 Hj0]%list_elem_of_lookup. destruct (co_reach _ _ Hok _ _ _ Hj0) as (_ & d0 & Hs0 & Hocc).
      destruct (lt_eq_lt_dec d0 d) as [[Hlt| ->]|Hgt].
      * destruct (Hpass d0 Hlt) as (j' & q' & Hs' & _ & Hno). simplify_eq. apply Hno. split; [done|].
        by rw Nat2Z.id (co_names _ _ Hok) list_lookup_fmap Hj0.
      * simplify_eq.
      * destruct (Hocc d Hgt) as (? & ? & ? & ?). simplify_eq.
    + exists d. split; [done|]. split; [by eexists|]. by eapply passed_occupied.
  - destruct ((q =? p) && bool_decide (names col !! Z.to_nat j = Some n)) eqn:E.
    + eexists. split; [done|]. simpl. apply andb_prop in E as [<-%Z.eqb_eq Hn%bool_decide_eq_true].
      destruct (co_slot _ _ Hok _ _ _ Hs Hq) as (n' & Hk). rw (co_names _ _ Hok) list_lookup_fmap Hk in Hn.
      simplify_eq/=. by eapply list_elem_of_lookup_2.
    + rw slot_next. apply IH; [lia|]. intros d' Hd'. destruct (decide (d' = d)) as [->|].
      * exists j, q. split; [done|]. split; [done|]. intros [Heq Hn].
        apply Z.eqb_eq in Heq. by rw Heq bool_decide_true in E.
      * apply Hpass. lia.
Qed.

(** The collection went from [keys] to [keys'], or would have outgrown the buffer. *)
Definition collects (col : node_name_collector) (keys' : list (Z * string))
    (r : option (node_name_collector * res unit)) : Prop :=
  exists col', capacity col' = capacity col /\
    if decide (Z.of_nat (length keys') <= capacity col)
    then r = Some (col', Ok tt) /\ col_ok col' keys'
    else r = Some (col', Err ENOBUFS).

Lemma add_unique_spec col keys n p :
  col_ok col keys -> p <> 0 -> capacity col <= MAX_NODE_NUM ->
  collects col (uniq_from keys [(p, n)]) (add_unique_node col n p).
Proof.
  intros Hok Hp Hcap. unfold add_unique_node. rw slot_land. simpl uniq_from.
  destruct (probe_spec col keys n p (Z.to_nat NODE_NAME_SLOT_NUM) 0 Hok Hp) as (r & Hr & Hm); [lia|by intros ? ?%Nat.nlt_0_r|].
  rw Z.add_0_r in Hr. rw Hr. destruct r as [idx|].
  2:{ exists col. split; [done|]. rw (decide_True (P := (p, n) ∈ keys)) //.
      rw decide_True; [done|]. apply Hok. }
  destruct Hm as (Hno & d & Hidx & [j0 Hfree] & Hocc). rw (decide_False (P := (p, n) ∈ keys)) //.
  assert (Hlen : length (names col) = length keys) by rw (co_names _ _ Hok) length_fmap //.
  rw Hlen. destruct (Z.leb_spec (capacity col) (Z.of_nat (length keys))) as [Hle|Hgt].
  { exists col. split; [done|]. rw decide_False //. rw length_app /=. lia. }
  eexists. split; [|rw decide_True; [|rw length_app /=; lia]; split; [reflexivity|]]; [done|].
  assert (Hlt : (slot_pos n d < length (slots col))%nat) by by eapply lookup_lt_Some.
  rw Hidx. constructor; simpl.
  - by rw fmap_app (co_names _ _ Hok).
  - rw length_insert. apply Hok.
  - rw length_app /=. lia.
  - rw length_app /=. unfold MAX_NODE_NUM in *. lia.
  - pose proof (count_insert (fun s : Z * Z => s.2 <> 0) _ _ (Z.of_nat (length keys), p) _ Hfree) as Hc.
    rw (co_count _ _ Hok) in Hc. simpl in Hc. rw length_app /=. repeat case_decide; lia.
  - intros i j q [(<- & [= <- <-] & _)|[Hne Hi]]%list_lookup_insert_Some Hq.
    + exists n. rw Nat2Z.id lookup_app_r // Nat.sub_diag //.
    + destruct (co_slot _ _ Hok _ _ _ Hi Hq) as (n' & Hn'). exists n'. by apply lookup_app_l_Some.
  - assert (Hkeep : forall i, occupied col i ->
      occupied (Collector (<[slot_pos n d := (Z.of_nat (length keys), p)]> (slots col))
                  (names col ++ [n]) (capacity col)) i).
    { intros i (j & q & Hi & Hq). unfold occupied; simpl. exists j, q.
      rw list_lookup_insert_ne //. intros <-. simplify_eq. }
    intros j q n' [Hj|[Hj Hj']]%lookup_app_Some.
    + destruct (co_reach _ _ Hok _ _ _ Hj) as (Hq & d' & Hs & Hocc'). split; [done|].
      exists d'. split; [|by eauto]. rw list_lookup_insert_ne //. intros Heq. rw Heq in Hfree. simplify_eq.
    + apply list_lookup_singleton_Some in Hj' as [Hj0 [= <- <-]]. split; [done|].
      assert (j = length keys) as -> by lia. exists d.
      split; [by rw list_lookup_insert_eq|by eauto].
Qed.

Lemma collects_then col keys' keys'' r (f : node_name_collector -> option (node_name_collector * res unit)) :
  collects col keys' r -> (length keys' <= length keys'')%nat ->
  (forall col', capacity col' = capacity col -> col_ok col' keys' -> collects col' keys'' (f col')) ->
  collects col keys'' (match r with
    | Some (col', Ok _) => f col'
    | Some (col', Err err) => Some (col', Err err)
    | Some (col', Oops) => Some (col', Oops)
    | None => None
    end).
Proof.
  intros (col' & Hc & Hr) Hl Hf. case_decide as Hd.
  - destruct Hr as [-> Hok]. destruct (Hf col' Hc Hok) as (col'' & Hc' & Hr').
    exists col''. split; [congruence|]. by rw Hc in Hr'.
  - rw Hr. exists col'. split; [done|]. rw decide_False //. lia.
Qed.

Lemma collect_endpoints_spec k domain_id eps col keys :
  (forall pid, owner_is_alive k pid = true -> pid <> 0) ->
  col_ok col keys -> capacity col <= MAX_NODE_NUM ->
  collects col
    (uniq_from keys ((fun ep : endpoint => (ep.1.2, ep.2)) <$> filter (fun ep => counted k domain_id ep = true) eps))
    (collect_endpoints k domain_id eps col).
Proof.
  intros Hpid. revert col keys. induction eps as [|ep eps IH]; intros col keys Hok Hcap; simpl.
  { exists col. split; [done|]. rw decide_True; [done|]. apply Hok. }
  rw filter_cons. destruct (counted k domain_id ep) eqn:E; simpl; [|by apply IH].
  change (if decide ((ep.1.2, ep.2) ∈ keys) then keys else keys ++ [(ep.1.2, ep.2)])
    with (uniq_from keys [(ep.1.2, ep.2)]).
  eapply collects_then; [apply add_unique_spec; [done| |done]|apply uniq_from_length|].
  - destruct ep as [[[dom br] q] n]. unfold counted in E. bool_to_prop. by apply Hpid.
  - intros col' Hc Hok'. apply IH; [done|]. by rw Hc.
Qed.

Lemma collect_topic_spec k t domain_id col keys :
  (forall pid, owner_is_alive k pid = true -> pid <> 0) ->
  col_ok col keys -> capacity col <= MAX_NODE_NUM ->
  collects col (uniq_from keys (topic_owners k domain_id t))
    (collect_node_names_of_topic k t domain_id col).
Proof.
  intros Hpid Hok Hcap. unfold topic_owners. rw filter_app fmap_app uniq_from_app.
  eapply collects_then; [by apply collect_endpoints_spec|apply uniq_from_length|].
  intros col' Hc Hok'. apply collect_endpoints_spec; [done..|by rw Hc].
Qed.

Lemma collect_topics_spec k ipc_ns domain_id ws col keys :
  (forall pid, owner_is_alive k pid = true -> pid <> 0) ->
  (forall w, w ∈ ws -> is_Some (topics k !! topic w)) ->
  col_ok col keys -> capacity col <= MAX_NODE_NUM ->
  collects col
    (uniq_from keys (filter (fun w => wrapper_ipc_ns w = ipc_ns /\ wrapper_domain_id w = domain_id) ws
       ≫= fun w => match topics k !! topic w with Some t => topic_owners k domain_id t | None => [] end))
    (collect_topics k ipc_ns domain_id ws col).
Proof.
  intros Hpid. revert col keys. induction ws as [|w ws IH]; intros col keys Hws Hok Hcap; simpl.
  { exists col. split; [done|]. rw decide_True; [done|]. apply Hok. }
  rw filter_cons. destruct (_ || _) eqn:E.
  - rw decide_False; [apply IH; [set_solver|done..]|]. intros [? ?]. bool_cases.
  - bool_to_prop. rw decide_True //. csimpl. destruct (Hws w) as [t Ht]; [set_solver|].
    rw Ht uniq_from_app. eapply collects_then; [by apply collect_topic_spec|apply uniq_from_length|].
    intros col' Hc Hok'. apply IH; [set_solver|done|by rw Hc].
Qed.

Lemma new_collector_ok buf :
  0 <= buf -> col_ok (Collector (replicate (Z.to_nat NODE_NAME_SLOT_NUM) (0, 0)) [] buf) [].
Proof.
  intros Hb. constructor; cbn [slots names capacity].
  - done.
  - by rw length_replicate.
  - simpl. lia.
  - done.
  - rw filter_none //. intros s [-> _]%elem_of_replicate. simpl. lia.
  - intros i j p [Hr _]%lookup_replicate Hp. simplify_eq.
  - intros j p n Hj. by rw lookup_nil in Hj.
Qed.
End reference.

(** ** Facts of reachable states *)

Lemma list_topics_no_oops {A} (found : topic_wrapper -> res bool) (slot_of : topic_wrapper -> A) buf ws l :
  (forall w, w ∈ ws -> exists b, found w = Ok b) -> list_topics found slot_of buf ws l <> Oops.
Proof.
  revert l. induction ws as [|w ws IH]; intros l Hf; simpl; [done|].
  destruct (Hf w) as [[|] ->]; [set_solver| |]; [case_match; [done|]|]; apply IH; set_solver.
Qed.

Section reachable.
Context `{KernelHash} (pool0 : list mempool_entry) (k : kstate).
Hypothesis Hk : kinv pool0 k.

Lemma wrapper_topic w : w ∈ topic_hashtable k -> is_Some (topics k !! topic w).
Proof. intros Hw. destruct (tv_wrappers _ _ _ _ (ki_topics _ _ Hk) w Hw) as (t & -> & _). by eexists. Qed.

Lemma alive_pid pid : owner_is_alive k pid = true -> pid <> 0.
Proof.
  unfold owner_is_alive. destruct (agnocast_find_process_info (procs k) pid) as [p|] eqn:E; [|done].
  intros Hx%negb_true_iff. apply find_process_info_Some in E as [Hp <-].
  pose proof (ki_reg _ _ Hk) as Hr. destruct (rw_present _ _ Hr p Hp) as [m Hm].
  pose proof (rw_own _ _ Hr p m Hp Hx Hm) as Hin. pose proof (rw_pool _ _ Hr) as Hpool.
  unfold pool_wf in Hpool. rw Forall_lookup in Hpool. destruct (Hpool _ _ Hm) as [_ _ Hv].
  rw Forall_forall in Hv. destruct (Hv _ Hin). lia.
Qed.

Lemma found_topic ws n ns d w : ws = topic_hashtable k -> find_topic ws n ns d = Some w -> is_Some (topics k !! topic w).
Proof. intros -> Hw. apply wrapper_topic. by apply find_topic_Some in Hw as [? _]. Qed.

Lemma node_names_eq al ipc_ns pid buf :
  0 <= buf ->
  agnocast_ioctl_get_node_names al k ipc_ns pid buf =
  Some (if MAX_NODE_NUM <? buf then Err EINVAL
        else if negb (al 0%nat) then Err ENOMEM
        else let nodes := nodes_of k ipc_ns (get_process_domain_id (procs k) pid) in
             if decide (Z.of_nat (length nodes) <= buf) then Ok (snd <$> nodes) else Err ENOBUFS).
Proof.
  intros Hb. unfold agnocast_ioctl_get_node_names.
  destruct (Z.ltb_spec MAX_NODE_NUM buf) as [|Hle]; [done|]. destruct (al 0%nat); [|done]. cbv beta iota.
  destruct (collect_topics_spec k ipc_ns (get_process_domain_id (procs k) pid) (topic_hashtable k) _ []
    alive_pid wrapper_topic (new_collector_ok buf Hb) Hle) as (col' & Hc & Hr).
  unfold negb. cbv zeta. unfold nodes_of, node_owners. cbn [capacity] in Hr.
  destruct (decide _) as [Hfit|Hfit].
  - destruct Hr as [-> Hok]. by rw (co_names _ _ Hok).
  - by rw Hr.
Qed.
End reachable.

(** ** What a registration leaves *)

Section registered.
Context `{KernelHash} (pool0 : list mempool_entry).

Lemma find_current_unique e k n w :
  kinv pool0 k -> w ∈ topic_hashtable k ->
  cell w = (n, current_ipc_ns e, get_process_domain_id (procs k) (current_tgid e)) ->
  find_topic_for_current e k n = Some w.
Proof.
  intros Hk Hw [= <- Hns Hd]. unfold find_topic_for_current. rw -Hns -Hd.
  apply find_topic_unique; [apply (tv_cells _ _ _ _ (ki_topics _ _ Hk))|done].
Qed.

Lemma subscriber_qos_of e k n w t s :
  kinv pool0 k -> find_topic_for_current e k n = Some w -> topics k !! topic w = Some t ->
  s ∈ sub_info_htable t ->
  agnocast_ioctl_get_subscriber_qos e k n (sub_id s)
  = Ok (sub_qos_depth s, sub_is_transient_local s, sub_is_reliable s).
Proof.
  intros Hk Hw Ht Hs. unfold agnocast_ioctl_get_subscriber_qos. rw Hw Ht.
  rw find_subscriber_info_unique //. apply wf_sub_ids_nodup.
  apply (ho_wf _ _ _ _ _ (tv_heap _ _ _ _ (ki_topics _ _ Hk) _ _ Ht)).
Qed.

Lemma publisher_qos_of e k n w t p :
  kinv pool0 k -> find_topic_for_current e k n = Some w -> topics k !! topic w = Some t ->
  p ∈ pub_info_htable t ->
  agnocast_ioctl_get_publisher_qos e k n (pub_id p) = Ok (pub_qos_depth p, pub_is_transient_local p).
Proof.
  intros Hk Hw Ht Hs. unfold agnocast_ioctl_get_publisher_qos. rw Hw Ht.
  rw find_publisher_info_unique //. apply wf_pub_ids_nodup.
  apply (ho_wf _ _ _ _ _ (tv_heap _ _ _ _ (ki_topics _ _ Hk) _ _ Ht)).
Qed.

Lemma add_subscriber_leaves e k n a fd k' id :
  kinv pool0 k -> room k -> agnocast_ioctl_add_subscriber e k n (current_tgid e) a fd = (k', Ok id) ->
  exists w t s, w ∈ topic_hashtable k' /\ procs k' = procs k /\
    cell w = (n, current_ipc_ns e, get_process_domain_id (procs k) (current_tgid e)) /\
    topics k' !! topic w = Some t /\ s ∈ sub_info_htable t /\ sub_id s = id /\
    sub_qos_depth s = a_sub_qos_depth a /\ sub_is_transient_local s = a_sub_transient_local a /\
    sub_is_reliable s = a_sub_reliable a /\
    sub_pid s = current_tgid e /\ sub_node_name s = a_sub_node_name a /\ sub_is_bridge s = a_sub_bridge a.
Proof.
  intros Hk Hroom. unfold agnocast_ioctl_add_subscriber. cbv zeta.
  destruct (if a_sub_take a then inr None else _) as [err|ctx]; [done|].
  destruct (add_topic _ _ _ _ _) as [k1 r1] eqn:Hadd.
  destruct (add_topic_kinv _ _ _ _ _ _ _ _ _ Hk Hadd) as (E1 & E2 & E3 & E4 & E5).
  destruct r1 as [w|err|]; [|by destruct ctx as [c|]; [destruct (eventfd_put c _)|]|done].
  destruct E4 as [Hw Hcell].
  destruct (tv_wrappers _ _ _ _ (ki_topics _ _ E2) w Hw) as (t & Ht & _). simpl in Ht. rw Ht.
  pose proof (tv_heap _ _ _ _ (ki_topics _ _ E2) _ _ Ht) as [O1 O2 O3 O4 O5 O6].
  destruct (insert_subscriber_info _ _ _ _ _ _ _) as [t1 r2] eqn:Hins.
  assert (current_entry_id t + 1 < 2 ^ 63) as Hfit by (apply (joined_room k w); [done|by apply E5]).
  pose proof (insert_subscriber_info_cases _ _ _ _ _ _ _ _ _ O1 Hfit Hins) as Hcase.
  destruct r2 as [s|err|]; [|by destruct ctx as [c|]; [destruct (eventfd_put c _)|]|done].
  destruct Hcase as (-> & Hsubs & _). intros [= <- <-]. destruct E3 as [R1 _ _ _].
  exists w, t1, (new_subscriber t (wrapper_domain_id w) (current_tgid e) a ctx). simpl.
  rw lookup_insert_eq Hsubs elem_of_hash_add. unfold procs. simpl. rw R1. split_and!; try done. by left.
Qed.

Lemma add_publisher_leaves e k n a k' id :
  kinv pool0 k -> agnocast_ioctl_add_publisher e k n (current_tgid e) a = (k', Ok id) ->
  exists w t p, w ∈ topic_hashtable k' /\ procs k' = procs k /\
    cell w = (n, current_ipc_ns e, get_process_domain_id (procs k) (current_tgid e)) /\
    topics k' !! topic w = Some t /\ p ∈ pub_info_htable t /\ pub_id p = id /\
    pub_qos_depth p = a_pub_qos_depth a /\ pub_is_transient_local p = a_pub_transient_local a /\
    pub_pid p = current_tgid e /\ pub_node_name p = a_pub_node_name a /\ pub_is_bridge p = a_pub_bridge a.
Proof.
  intros Hk. unfold agnocast_ioctl_add_publisher.
  destruct (add_topic _ _ _ _ _) as [k1 r1] eqn:Hadd.
  destruct (add_topic_kinv pool0 (kmalloc_ok e) k n (current_ipc_ns e)
    (get_process_domain_id (procs k) (current_tgid e)) [] k1 r1 Hk) as (E1 & E2 & E3 & E4 & _);
    [by destruct k|].
  destruct r1 as [w|err|]; [|done..]. destruct E4 as [Hw Hcell].
  destruct (tv_wrappers _ _ _ _ (ki_topics _ _ E2) w Hw) as (t & Ht & _). simpl in Ht. rw Ht.
  pose proof (tv_heap _ _ _ _ (ki_topics _ _ E2) _ _ Ht) as [O1 O2 O3 O4 O5 O6].
  destruct (insert_publisher_info _ _ _ _ _ _) as [t1 r2] eqn:Hins.
  destruct (insert_publisher_info_cases _ _ _ _ _ _ _ _ O1 Hins) as (_ & _ & Hcase).
  destruct r2 as [p|err|]; [|done..]. destruct Hcase as (cap & cs & -> & Hpubs). intros [= <- <-].
  destruct E3 as [R1 _ _ _]. eexists w, _, _. simpl. rw lookup_insert_eq. unfold procs. simpl. rw R1.
  split_and!; [done|done|done|reflexivity|simpl; rw Hpubs elem_of_hash_add; by left|done..].
Qed.
End registered.

(** ** No query follows a dangling pointer *)

Create HintDb query discriminated.

Lemma rbind_no_oops {A B} (x : res A) (f : A -> res B) :
  x <> Oops -> (forall a, f a <> Oops) -> rbind x f <> Oops.
Proof. destruct x; simpl; [auto|done..]. Qed.

Lemma copied_no_oops {A} u n (a : A) : copied u n a <> Oops.
Proof. unfold copied. by case_match. Qed.

Lemma copied_array_no_oops {A} u n (l : list A) : copied_array u n l <> Oops.
Proof. unfold copied_array. by case_match. Qed.

Lemma arg_name_no_oops u size src : arg_name u size src <> Oops.
Proof.
  apply rbind_no_oops; [apply copied_no_oops|]. intros _. unfold copy_name_from_user.
  by repeat case_match.
Qed.

Lemma scratch_no_oops {B} u (r : res B) : r <> Oops -> scratch u r <> Oops.
Proof. unfold scratch. by case_match. Qed.

Lemma report_infos_no_oops al ok size l : report_infos al ok size l <> Oops.
Proof. unfold report_infos. by repeat case_match. Qed.

#[export] Hint Resolve rbind_no_oops copied_no_oops copied_array_no_oops arg_name_no_oops scratch_no_oops
  report_infos_no_oops : query.

Section no_oops.
Context `{KernelHash} (pool0 : list mempool_entry) (k : kstate).
Hypothesis Hk : kinv pool0 k.

(** Splits on the lookups of a query; a wrapper's topic is always there. *)
Ltac query_cases :=
  repeat case_match; try done;
  match goal with
  | H : find_topic _ _ _ _ = Some ?w, H' : topics k !! topic ?w = None |- _ =>
      destruct (found_topic pool0 k Hk _ _ _ _ w eq_refl H); congruence
  end.

Lemma subscriber_num_no_oops e n pid : agnocast_ioctl_get_subscriber_num e k n pid <> Oops.
Proof. unfold agnocast_ioctl_get_subscriber_num, find_topic_for_current. query_cases. Qed.
Lemma publisher_num_no_oops e n : agnocast_ioctl_get_publisher_num e k n <> Oops.
Proof. unfold agnocast_ioctl_get_publisher_num, find_topic_for_current. query_cases. Qed.
Lemma subscriber_qos_no_oops e n id : agnocast_ioctl_get_subscriber_qos e k n id <> Oops.
Proof. unfold agnocast_ioctl_get_subscriber_qos, find_topic_for_current. query_cases. Qed.
Lemma publisher_qos_no_oops e n id : agnocast_ioctl_get_publisher_qos e k n id <> Oops.
Proof. unfold agnocast_ioctl_get_publisher_qos, find_topic_for_current. query_cases. Qed.

Lemma subscriber_info_no_oops e ok n d size :
  agnocast_ioctl_get_topic_subscriber_info e ok k n d size <> Oops.
Proof.
  unfold agnocast_ioctl_get_topic_subscriber_info.
  destruct (find_topic _ _ _ _) as [w|] eqn:Ew; [|done].
  destruct (found_topic pool0 k Hk _ _ _ _ w eq_refl Ew) as [t ->]. auto with query.
Qed.
Lemma publisher_info_no_oops e ok n d size :
  agnocast_ioctl_get_topic_publisher_info e ok k n d size <> Oops.
Proof.
  unfold agnocast_ioctl_get_topic_publisher_info.
  destruct (find_topic _ _ _ _) as [w|] eqn:Ew; [|done].
  destruct (found_topic pool0 k Hk _ _ _ _ w eq_refl Ew) as [t ->]. auto with query.
Qed.

Lemma topic_list_no_oops ns buf : agnocast_ioctl_get_topic_list k ns buf <> Oops.
Proof. apply list_topics_no_oops. eauto. Qed.

Lemma node_subscriber_topics_no_oops ns n buf :
  agnocast_ioctl_get_node_subscriber_topics k ns n buf <> Oops.
Proof.
  apply list_topics_no_oops. intros w Hw. destruct (wrapper_topic _ _ Hk w Hw) as [t ->].
  case_match; eauto.
Qed.
Lemma node_publisher_topics_no_oops ns n buf :
  agnocast_ioctl_get_node_publisher_topics k ns n buf <> Oops.
Proof.
  apply list_topics_no_oops. intros w Hw. destruct (wrapper_topic _ _ Hk w Hw) as [t ->].
  case_match; eauto.
Qed.

Lemma node_topics_no_oops u f n size : (forall n size, f n size <> Oops) -> get_node_topics_cmd u f n size <> Oops.
Proof. intros Hf. unfold get_node_topics_cmd. auto 8 with query. Qed.

Lemma topic_list_cmd_no_oops u size d : get_topic_list_cmd u k size d <> Oops.
Proof.
  unfold get_topic_list_cmd. apply rbind_no_oops; [auto with query|]. intros _. apply scratch_no_oops.
  apply rbind_no_oops; [by eapply topic_list_no_oops|]. intros l. apply rbind_no_oops; [auto with query|].
  intros l'. apply rbind_no_oops; [destruct d; auto with query; done|auto with query].
Qed.

Lemma node_names_cmd_ends u size : 0 <= size -> exists r, get_node_names_cmd u k size = Some r /\ r <> Oops.
Proof.
  intros Hs. unfold get_node_names_cmd. destruct (negb _); [by eexists|]. destruct (negb _); [by eexists|].
  rw (node_names_eq pool0 k Hk); [|unfold MAX_NODE_NUM; lia]. eexists. split; [reflexivity|].
  apply rbind_no_oops; [|auto with query]. destruct (_ <? _); [done|].
  destruct (negb _); [done|]. cbv zeta. by destruct (decide _).
Qed.
End no_oops.

(** ** Theorems *)

(** C23. In every reachable state AGNOCAST_GET_NODE_NAMES ends, and whatever the hash function it returns
    one name for each distinct (process, node name) pair among the live processes that own a publisher or
    subscriber of the caller's namespace and domain, bridges apart; it fails exactly when the buffer is
    larger than the table allows, when its scratch memory is refused, or when the names do not fit. *)
Theorem node_names_distinct_owners `{KernelHash} size pool0 k al ipc_ns pid buf :
  pool_wf pool0 -> kernel_reachable size pool0 k -> 0 <= buf ->
  agnocast_ioctl_get_node_names al k ipc_ns pid buf =
  Some (if MAX_NODE_NUM <? buf then Err EINVAL
        else if negb (al 0%nat) then Err ENOMEM
        else let nodes := nodes_of k ipc_ns (get_process_domain_id (procs k) pid) in
             if decide (Z.of_nat (length nodes) <= buf) then Ok (snd <$> nodes) else Err ENOBUFS).
Proof.
  intros Hp Hr Hb. eapply node_names_eq; [|done]. by eapply kernel_reachable_kinv.
Qed.

(** C24. No query of any process, with whatever arguments, allocation failures and copy faults, follows a
    dangling pointer or fails to end in a reachable state. *)
Theorem queries_end_safely `{KernelHash} size pool0 k u q :
  pool_wf pool0 -> kernel_reachable size pool0 k ->
  match q with GET_NODE_NAMES_CMD size => 0 <= size | _ => True end ->
  exists r, agnocast_query u k q = Some r /\ r <> Oops.
Proof.
  intros Hp Hr Hq. pose proof (kernel_reachable_kinv _ _ _ Hp Hr) as Hk.
  destruct q as [t|t|size' doms|size'|n size'|n size'|t d size'|t d size'|t id|t id|d]; simpl.
  4: { destruct (node_names_cmd_ends pool0 k Hk u size' Hq) as (r & -> & Ho). eexists.
       split; [reflexivity|]. by apply rbind_no_oops. }
  all: eexists; split; [reflexivity|]; apply rbind_no_oops; [|done].
  - apply rbind_no_oops; [auto with query|]. intros t'. apply rbind_no_oops; [|auto with query].
    by eapply subscriber_num_no_oops.
  - apply rbind_no_oops; [auto with query|]. intros t'. apply rbind_no_oops; [|auto with query].
    by eapply publisher_num_no_oops.
  - by eapply topic_list_cmd_no_oops.
  - apply node_topics_no_oops. intros. by eapply node_subscriber_topics_no_oops.
  - apply node_topics_no_oops. intros. by eapply node_publisher_topics_no_oops.
  - apply rbind_no_oops; [auto with query|]. intros t'. apply rbind_no_oops; [|auto with query].
    by eapply subscriber_info_no_oops.
  - apply rbind_no_oops; [auto with query|]. intros t'. apply rbind_no_oops; [|auto with query].
    by eapply publisher_info_no_oops.
  - apply rbind_no_oops; [auto with query|]. intros t'. apply rbind_no_oops; [|auto with query].
    by eapply subscriber_qos_no_oops.
  - apply rbind_no_oops; [auto with query|]. intros t'. apply rbind_no_oops; [|auto with query].
    by eapply publisher_qos_no_oops.
  - apply rbind_no_oops; [apply copied_no_oops|intros _; apply copied_no_oops].
Qed.

(** What a process registers is what the QoS queries report: after a subscriber or publisher was added,
    the query for the returned id gives back the depth, durability and reliability it was added with. *)
Theorem registered_qos_roundtrip `{KernelHash} size pool0 k e n :
  pool_wf pool0 -> kernel_reachable size pool0 k -> room k -> valid_pid (current_tgid e) ->
  (forall a fd k' id, 0 <= a_sub_qos_depth a < 2 ^ 32 ->
     agnocast_ioctl_add_subscriber e k n (current_tgid e) a fd = (k', Ok id) ->
     agnocast_ioctl_get_subscriber_qos e k' n id
     = Ok (a_sub_qos_depth a, a_sub_transient_local a, a_sub_reliable a)) /\
  (forall a k' id, 0 <= a_pub_qos_depth a < 2 ^ 32 ->
     agnocast_ioctl_add_publisher e k n (current_tgid e) a = (k', Ok id) ->
     agnocast_ioctl_get_publisher_qos e k' n id = Ok (a_pub_qos_depth a, a_pub_transient_local a)).
Proof.
  intros Hp Hr Hroom Hpid. pose proof (kernel_reachable_kinv _ _ _ Hp Hr) as Hk. split.
  - intros a fd k' id Hd Hadd.
    destruct (add_subscriber_leaves _ _ _ _ _ _ _ _ Hk Hroom Hadd) as (w & t & s & Hw & Hps & Hc & Ht & Hs & <- & <- & <- & <- & _).
    destruct (add_subscriber_kinv _ _ _ _ _ _ _ _ _ Hk Hroom Hpid Hd Hadd) as [Hk' _].
    eapply subscriber_qos_of; [done| |done..]. apply (find_current_unique pool0); [done..|]. by rw Hps.
  - intros a k' id Hd Hadd.
    destruct (add_publisher_leaves _ _ _ _ _ _ _ Hk Hadd) as (w & t & p & Hw & Hps & Hc & Ht & Hs & <- & <- & <- & _).
    destruct (add_publisher_kinv _ _ _ _ _ _ _ _ Hk Hd Hadd) as [Hk' _].
    eapply publisher_qos_of; [done| |done..]. apply (find_current_unique pool0); [done..|]. by rw Hps.
Qed.

(** ** Witnesses *)

(** Process 100 of the sample run opens a second publisher of the same node and a subscriber of another. *)
Definition sample_nodes : list (Z * command) :=
  [(100, ADD_PUBLISHER_CMD "/b" "talker" 10 false false);
   (100, ADD_SUBSCRIBER_CMD "/b" "other" 5 true true false false false 6)].

Definition sample_node_state : kstate := exec_all sample_nodes sample_state.

Lemma sample_node_state_reachable :
  @kernel_reachable length_hash 1073741824 sample_pools sample_node_state.
Proof. apply exec_all_reachable; [apply sample_state_reachable|]. by vm_compute. Qed.

Lemma node_names_distinct_owners_witness :
  (length (@node_owners length_hash sample_node_state 1 0) = 3)%nat /\
  @agnocast_ioctl_get_node_names length_hash (fun _ => true) sample_node_state 1 100 8
  = Some (Ok ["talker"%string; "other"%string]).
Proof.
  split; [vm_compute; reflexivity|].
  rewrite (@node_names_distinct_owners length_hash 1073741824 sample_pools);
    [vm_compute; reflexivity|apply sample_state_pools_wf|apply sample_node_state_reachable|lia].
Defined.

Lemma queries_end_safely_witness :
  exists r, @agnocast_query length_hash (sample_user 100) sample_node_state (GET_NODE_NAMES_CMD 64) = Some r
            /\ r <> Oops.
Proof.
  apply (@queries_end_safely length_hash 1073741824 sample_pools);
    [apply sample_state_pools_wf|apply sample_node_state_reachable|lia].
Defined.

Definition late_env : env := kernel_env (sample_user 100).
Definition late_args : sub_args := SubArgs "late" 7 true true false false false.

Lemma registered_qos_roundtrip_witness :
  exists k', @agnocast_ioctl_add_subscriber length_hash late_env sample_node_state "/b"
               (current_tgid late_env) late_args 9 = (k', Ok 2) /\
    @agnocast_ioctl_get_subscriber_qos length_hash late_env k' "/b" 2 = Ok (7, true, true).
Proof.
  assert (Hd : 0 <= a_sub_qos_depth late_args < 2 ^ 32) by (vm_compute; by split).
  assert (Hroom : room sample_node_state) by (apply roomy_room; vm_compute; reflexivity).
  assert (Hpid : valid_pid (current_tgid late_env)) by (vm_compute; by split).
  assert (Hok : (@agnocast_ioctl_add_subscriber length_hash late_env sample_node_state "/b"
    (current_tgid late_env) late_args 9).2 = Ok 2) by (vm_compute; reflexivity).
  destruct (@registered_qos_roundtrip length_hash 1073741824 sample_pools sample_node_state
      late_env "/b" sample_state_pools_wf sample_node_state_reachable Hroom Hpid) as [Hs _].
  destruct (@agnocast_ioctl_add_subscriber length_hash late_env sample_node_state "/b"
    (current_tgid late_env) late_args 9) as [k' r] eqn:E.
  cbn [snd] in Hok. subst r. exists k'. split; [reflexivity|exact (Hs late_args 9 k' 2 Hd E)].
Defined.
