(* ===== verification/KMapping.v ===== *)
(** * Kernel module: whose memory a subscriber may be handed

    What every call leaves of the endpoints and messages of a topic, as far as the mapping of publishers' memory
    depends on it: a subscriber whose [need_mmap_update] is clear already maps every publisher whose messages it
    may be handed, and a message lies in the memory pool of its publisher. *)

From S2P Require Import Prelude Kernel KMempool KTypes KRules KTopic KMessage KCleanup KRegistry.
From S2P Require Import KState KInvariant KSystem.

(** ** Specification *)

Definition sub_view (s : subscriber_info) : Z * Z * bool * bool :=
  (sub_pid s, sub_domain_id s, sub_is_bridge s, need_mmap_update s).
Definition pub_view (p : publisher_info) : Z * Z * Z * bool :=
  (pub_id p, pub_pid p, pub_domain_id p, pub_is_bridge p).
Definition entry_view (en : entry_node) : Z * Z := (publisher_id en, msg_virtual_address en).

(** No endpoint and no message is new, apart from the messages in [new]. *)
Record evolves_with (new : list (Z * Z)) (t t' : topic_struct) : Prop := {
  ev_rule : rule t' = rule t;
  ev_subs : sub_view <$> sub_info_htable t' ⊆ sub_view <$> sub_info_htable t;
  ev_pubs : pub_view <$> pub_info_htable t' ⊆ pub_view <$> pub_info_htable t;
  ev_entries : entry_view <$> entries t' ⊆ new ++ (entry_view <$> entries t)
}.
Abbreviation evolves := (evolves_with []).

(** The memory of the process of each publisher contains its messages. *)
Definition in_pool (size : Z) (m : mempool_entry) (a : Z) : Prop := addr m <= a < addr m + size.

Record topic_mapped `{KernelHash} (live : Z -> Prop) (rules : list domain_bridge_rule) (procs : list process_info)
    (pool : list mempool_entry) (size : Z) (t : topic_struct) : Prop := {
  tm_mapped : forall s p proc, s ∈ sub_info_htable t -> live (sub_pid s) -> need_mmap_update s = false ->
    p ∈ pub_info_htable t -> to_map rules procs t (sub_domain_id s) (sub_pid s) (sub_is_bridge s) p = Some proc ->
    maps_pool pool (proc_mempool proc) (sub_pid s);
  tm_domain : forall s, s ∈ sub_info_htable t -> live (sub_pid s) ->
    sub_domain_id s = get_process_domain_id procs (sub_pid s);
  tm_addrs : forall en p proc, en ∈ entries t -> p ∈ pub_info_htable t -> pub_id p = publisher_id en ->
    agnocast_find_process_info procs (pub_pid p) = Some proc -> exited proc = false ->
    exists m, pool !! proc_mempool proc = Some m /\ in_pool size m (msg_virtual_address en)
}.

(** What the registry may do: a running process keeps its entry, and no other process comes to life but [fresh]. *)
Record procs_keep `{KernelHash} (live : Z -> Prop) (fresh : Z -> Prop) (ps ps' : list process_info) : Prop := {
  pk_live : forall pid, live pid -> get_process_domain_id ps' pid = get_process_domain_id ps pid;
  pk_alive : forall pid q', agnocast_find_process_info ps' pid = Some q' -> exited q' = false -> ~ fresh pid ->
    exists q, agnocast_find_process_info ps pid = Some q /\ exited q = false /\ proc_mempool q' = proc_mempool q
}.

(** What the pools may do to running processes: nothing is unmapped and no address changes. *)
Definition pool_keep (live : Z -> Prop) (pool pool' : list mempool_entry) : Prop :=
  forall i m, pool !! i = Some m -> exists m', pool' !! i = Some m' /\ addr m' = addr m /\
    forall pid, live pid -> pid ∈ mapped_pids m -> pid ∈ mapped_pids m'.

(** ** Lemmas: one topic *)

Lemma evolves_refl t : evolves t t.
Proof. done. Qed.

Lemma evolves_trans t1 t2 t3 : evolves t1 t2 -> evolves t2 t3 -> evolves t1 t3.
Proof. intros [A1 A2 A3 A4] [B1 B2 B3 B4]. simpl in *. split; simpl; [congruence|by etrans..]. Qed.

Lemma evolves_sub t t' s : evolves t t' -> s ∈ sub_info_htable t' -> exists s0, s0 ∈ sub_info_htable t /\ sub_view s = sub_view s0.
Proof.
  intros [_ Hs _ _] Hin. assert (sub_view s ∈ sub_view <$> sub_info_htable t) as Hv by (apply Hs, list_elem_of_fmap; eauto).
  apply list_elem_of_fmap in Hv as (s0 & ? & ?). by exists s0.
Qed.

Section topic.
Context `{KernelHash}.
Implicit Types (live : Z -> Prop) (t : topic_struct).

Lemma to_map_view rules procs t t' d pid b p p' : rule t' = rule t -> pub_view p' = pub_view p ->
  to_map rules procs t' d pid b p' = to_map rules procs t d pid b p.
Proof. intros Hr [= _ E2 E3 E4]. unfold to_map, domain_delivery_allowed. by rw E2 E3 E4 Hr. Qed.

Lemma topic_mapped_evolves live rules procs pool size new t t' :
  evolves_with new t t' -> topic_mapped live rules procs pool size t ->
  (forall id a p proc, (id, a) ∈ new -> p ∈ pub_info_htable t -> pub_id p = id ->
     agnocast_find_process_info procs (pub_pid p) = Some proc -> exited proc = false ->
     exists m, pool !! proc_mempool proc = Some m /\ in_pool size m a) ->
  topic_mapped live rules procs pool size t'.
Proof.
  intros [E1 E2 E3 E4] [T1 T2 T3] Hnew.
  assert (forall s', s' ∈ sub_info_htable t' -> exists s, s ∈ sub_info_htable t /\ sub_view s' = sub_view s) as Hs.
  { intros s' Hs'. assert (sub_view s' ∈ sub_view <$> sub_info_htable t) as Hv by (apply E2, list_elem_of_fmap; eauto).
    apply list_elem_of_fmap in Hv as (s & ? & ?). by exists s. }
  assert (forall p', p' ∈ pub_info_htable t' -> exists p, p ∈ pub_info_htable t /\ pub_view p' = pub_view p) as Hp.
  { intros p' Hp'. assert (pub_view p' ∈ pub_view <$> pub_info_htable t) as Hv by (apply E3, list_elem_of_fmap; eauto).
    apply list_elem_of_fmap in Hv as (p & ? & ?). by exists p. }
  split.
  - intros s' p' proc Hs' Hl Hn Hp' Hm. destruct (Hs s' Hs') as (s & Hin & [= V1 V2 V3 V4]).
    destruct (Hp p' Hp') as (p & Hip & Hv). rewrite V1 in Hl |- *. rewrite V1 V2 V3 in Hm. rewrite V4 in Hn.
    rewrite (to_map_view _ _ t t' _ _ _ p p' E1 Hv) in Hm. by apply (T1 s p).
  - intros s' Hs' Hl. destruct (Hs s' Hs') as (s & Hin & [= V1 V2 V3 V4]). rewrite V1 in Hl |- *. rw V2. by apply T2.
  - intros en' p' proc Hen Hp' Hid Hf He. destruct (Hp p' Hp') as (p & Hip & [= W1 W2 W3 W4]).
    rewrite W2 in Hf. rewrite W1 in Hid.
    assert (entry_view en' ∈ new ++ (entry_view <$> entries t)) as Hv by (apply E4, list_elem_of_fmap; eauto).
    apply elem_of_app in Hv as [Hv|(en & [= V1 V2] & Hin)%list_elem_of_fmap].
    + by apply (Hnew (publisher_id en') (msg_virtual_address en') p proc).
    + rw V2. apply (T3 en p proc); [done|done|congruence|done|done].
Qed.

Lemma topic_mapped_keep live live' fresh rules rules' procs procs' pool pool' size t :
  (forall pid, live' pid -> fresh pid \/ live pid) ->
  (forall s, s ∈ sub_info_htable t -> ~ fresh (sub_pid s)) -> (forall p, p ∈ pub_info_htable t -> ~ fresh (pub_pid p)) ->
  (forall d1 b1 d2 b2, domain_delivery_allowed rules' t d1 b1 d2 b2 = domain_delivery_allowed rules t d1 b1 d2 b2) ->
  procs_keep live fresh procs procs' -> pool_keep live pool pool' ->
  topic_mapped live rules procs pool size t -> topic_mapped live' rules' procs' pool' size t.
Proof.
  intros Hlive Hfs Hfp Hrules [P1 P2] Hpool [T1 T2 T3].
  assert (forall s, s ∈ sub_info_htable t -> live' (sub_pid s) -> live (sub_pid s)) as Hl.
  { intros s Hs Hl'. destruct (Hlive _ Hl') as [Hf|]; [|done]. by apply Hfs in Hf. }
  split.
  - intros s p proc Hs Hl' Hn Hp Hm. unfold to_map in Hm. rewrite Hrules in Hm.
    destruct (sub_pid s =? pub_pid p) eqn:Heq; [done|]. destruct (negb _) eqn:Hd; [done|].
    destruct (agnocast_find_process_info procs' (pub_pid p)) as [q'|] eqn:Hq; [|done].
    destruct (exited q') eqn:He; [done|]. injection Hm as ->.
    destruct (P2 _ _ Hq He (Hfp p Hp)) as (q & Hfq & Heq' & Hmem).
    destruct (T1 s p q Hs (Hl s Hs Hl') Hn Hp) as (m & Hm & Hin).
    { unfold to_map. by rw Heq Hd Hfq Heq'. }
    destruct (Hpool _ _ Hm) as (m' & Hm' & _ & Hk). exists m'. rw Hmem. split; [done|]. apply Hk; [by apply Hl|done].
  - intros s Hs Hl'. rw P1; [|by apply Hl]. apply T2; [done|by apply Hl].
  - intros en p proc Hen Hp Hid Hf He. destruct (P2 _ _ Hf He (Hfp p Hp)) as (q & Hfq & Heq' & Hmem).
    destruct (T3 en p q Hen Hp Hid Hfq Heq') as (m & Hm & Hin). destruct (Hpool _ _ Hm) as (m' & Hm' & Ha & _).
    exists m'. rw Hmem. split; [done|]. unfold in_pool in *. by rw Ha.
Qed.

Lemma topic_mapped_empty live rules procs pool size t :
  sub_info_htable t = [] -> pub_info_htable t = [] -> topic_mapped live rules procs pool size t.
Proof.
  intros Hs Hp. split.
  - intros s p proc Hin. rewrite Hs in Hin. by apply not_elem_of_nil in Hin.
  - intros s Hin. rewrite Hs in Hin. by apply not_elem_of_nil in Hin.
  - intros en p proc _ Hin. rewrite Hp in Hin. by apply not_elem_of_nil in Hin.
Qed.
End topic.

(** ** Lemmas: the calls on one topic *)

Lemma upd_publisher_views id f t :
  (forall p, pub_view (f p) = pub_view p) -> pub_view <$> pub_info_htable (upd_publisher id f t) = pub_view <$> pub_info_htable t.
Proof. intros Hf. by apply fmap_hash_upd. Qed.

Lemma upd_subscriber_views id f t :
  (forall s, sub_view (f s) = sub_view s) -> sub_view <$> sub_info_htable (upd_subscriber id f t) = sub_view <$> sub_info_htable t.
Proof. intros Hf. by apply fmap_hash_upd. Qed.

Lemma evolves_eq t t' :
  rule t' = rule t -> sub_view <$> sub_info_htable t' = sub_view <$> sub_info_htable t ->
  pub_view <$> pub_info_htable t' = pub_view <$> pub_info_htable t ->
  entry_view <$> entries t' = entry_view <$> entries t -> evolves t t'.
Proof. intros E1 E2 E3 E4. split; simpl; [done|by rw E2|by rw E3|by rw E4]. Qed.

Lemma release_loop_subset id k n l : (release_loop id k n l).1.1 ⊆ l.
Proof.
  revert k n. induction l as [|en l IH]; intros k n; cbn [release_loop]; [done|].
  destruct (_ && _); [|done]. destruct l as [|en' l]; [done|].
  destruct (negb _); [|destruct (agnocast_is_referenced en)];
    match goal with |- context [release_loop id ?k' ?n' (en' :: l)] => specialize (IH k' n'); destruct (release_loop id k' n' (en' :: l)) as [[l' ?] ?] end;
    simpl in *; set_solver.
Qed.

Section calls.
Context `{KernelHash}.

(** A message that [publish_msg_topic] may insert. *)
Definition publishable (procs : list process_info) (pool : list mempool_entry) (size : Z) (t : topic_struct) (id a : Z) : Prop :=
  exists p proc m, find_publisher_info t id = Some p /\ agnocast_find_process_info procs (pub_pid p) = Some proc /\
    pool !! proc_mempool proc = Some m /\ in_pool size m a.

Lemma insert_message_entry_evolves ok t p a t' r :
  insert_message_entry ok t p a = (t', r) -> evolves_with [(pub_id p, a)] t t'.
Proof.
  unfold insert_message_entry. destruct ok; [|intros [= <- _]; split; simpl; set_solver].
  destruct (match last _ with Some _ => _ | None => _ end); intros [= <- _]; [|split; simpl; set_solver].
  split; simpl; [done|done| |].
  - rw upd_publisher_views; done.
  - rw fmap_app. simpl. intros x. rw elem_of_app list_elem_of_singleton elem_of_cons. tauto.
Qed.

Lemma release_msgs_evolves t p t' r : release_msgs_to_meet_depth t p = (t', r) -> evolves t t'.
Proof.
  unfold release_msgs_to_meet_depth. destruct (negb _); [|by intros [= <- _]].
  destruct (negb _); [|by intros [= <- _]].
  pose proof (release_loop_subset (pub_id p) (u32 (entries_num p - pub_qos_depth p)) 0 (entries t)) as Hl.
  destruct (release_loop _ _ _ _) as [[l addrs] r']. intros [= <- _]. simpl in Hl. split; simpl; [done|done| |].
  - rw upd_publisher_views; done.
  - intros x (en & -> & Hen)%list_elem_of_fmap. apply list_elem_of_fmap. exists en. auto.
Qed.

Lemma evolves_with_trans new t1 t2 t3 : evolves_with new t1 t2 -> evolves t2 t3 -> evolves_with new t1 t3.
Proof. intros [A1 A2 A3 A4] [B1 B2 B3 B4]. simpl in *. split; simpl; [congruence|by etrans..]. Qed.

Lemma publish_evolves al procs pool size t id a t' signals r : 0 <= size ->
  (forall m, m ∈ pool -> 0 <= addr m) ->
  publish_msg_topic al procs pool size t id a = (t', signals, r) ->
  exists new, evolves_with new t t' /\ forall id' a', (id', a') ∈ new -> publishable procs pool size t id' a'.
Proof.
  intros Hsize Haddr. unfold publish_msg_topic.
  assert (exists new, evolves_with new t t /\ forall id' a', (id', a') ∈ new -> publishable procs pool size t id' a') as Hrefl.
  { exists []. split; [done|]. intros id' a' Hin. by apply not_elem_of_nil in Hin. }
  destruct (find_publisher_info t id) as [p|] eqn:Hp; [|by intros [= <- _ _]].
  destruct (agnocast_find_process_info procs (pub_pid p)) as [proc|] eqn:Hproc; [|by intros [= <- _ _]].
  destruct (pool !! proc_mempool proc) as [m|] eqn:Hm; [|by intros [= <- _ _]].
  destruct (negb _) eqn:Hr; [|by intros [= <- _ _]].
  destruct (insert_message_entry _ _ _ _) as [t1 r1] eqn:Hi. apply insert_message_entry_evolves in Hi.
  intros Hrun. exists [(pub_id p, a)]. split.
  - destruct r1 as [id1|e|]; [|by injection Hrun as <- _ _..].
    destruct (find_publisher_info t1 id) as [p1|]; [|by injection Hrun as <- _ _].
    destruct (release_msgs_to_meet_depth t1 p1) as [t2 r2] eqn:Hrel. apply release_msgs_evolves in Hrel.
    assert (t' = t2) as -> by (destruct r2; [destruct (find_publisher_info t2 id)|..]; by injection Hrun as <- _ _).
    by eapply evolves_with_trans.
  - intros id' a' [= -> ->]%list_elem_of_singleton. exists p, proc, m.
    pose proof (find_publisher_info_Some _ _ _ Hp) as [_ Hid]. rw Hid. split; [done|]. split; [done|]. split; [done|].
    apply negb_true_iff, orb_false_iff in Hr as [H1 H2]. apply Z.ltb_ge in H1. apply Z.leb_gt in H2.
    specialize (Haddr m (list_elem_of_lookup_2 _ _ _ Hm)). split; [done|]. unfold u64 in H2.
    pose proof (Z.mod_le (addr m + size) (2 ^ 64)). lia.
Qed.

Lemma claim_view id l en : entry_view (claim_refs id l en) = entry_view en.
Proof. unfold claim_refs. by case_bool_decide. Qed.

Lemma claimed_evolves id n l t : evolves t (claimed_topic id n l t).
Proof.
  apply evolves_eq; [done| |done|].
  - by rw upd_subscriber_views.
  - simpl. rw -list_fmap_compose. apply list_fmap_ext. intros i en _. apply claim_view.
Qed.

Lemma release_reference_evolves t id eid t' r : release_reference_topic t id eid = (t', r) -> evolves t t'.
Proof.
  unfold release_reference_topic. destruct (find_message_entry t eid); [|by intros [= <- _]].
  destruct (negb _); [|by intros [= <- _]]. destruct (test_bit _ _); [|by intros [= <- _]].
  intros [= <- _]. apply evolves_eq; [done|done|done|]. simpl. by apply fmap_hash_upd.
Qed.

Lemma shrinks_views pubs pubs' : shrinks pubs pubs' -> pub_view <$> pubs' ⊆ pub_view <$> pubs.
Proof.
  intros [_ Hs] x (p' & -> & Hp')%list_elem_of_fmap. destruct (Hs p' Hp') as (p & n & Hp & ->).
  apply list_elem_of_fmap. by exists p.
Qed.

Lemma drop_refs_views procs id l pubs l' pubs' :
  drop_subscriber_refs procs id l pubs = (l', pubs') -> entry_view <$> l' ⊆ entry_view <$> l.
Proof.
  revert pubs l' pubs'. induction l as [|en l IH]; intros pubs l' pubs'; cbn [drop_subscriber_refs].
  { by intros [= <- _]. }
  assert (forall pubs l' pubs', (let '(rest, pubs) := drop_subscriber_refs procs id l pubs in
     (set_refs (clear_bit id (referencing_subscribers en)) en :: rest, pubs)) = (l', pubs') ->
     entry_view <$> l' ⊆ entry_view <$> en :: l) as Hkeep.
  { intros pubs0 l0 pubs0'. destruct (drop_subscriber_refs _ _ _ _) as [rest ps] eqn:E. intros [= <- _].
    apply IH in E. csimpl. set_solver. }
  destruct (agnocast_is_referenced _); [by apply Hkeep|]. destruct (find_pub _ _); [|by apply Hkeep].
  destruct (owner_gone _ _); [|by apply Hkeep]. intros E. apply IH in E. csimpl. set_solver.
Qed.

Lemma drop_refs_evolves procs id t l pubs :
  drop_subscriber_refs procs id (entries t) (pub_info_htable t) = (l, pubs) -> evolves t (set_pubs pubs (set_entries l t)).
Proof.
  intros E. split; simpl; [done|done| |].
  - apply shrinks_views. by eapply drop_refs_shrinks.
  - by eapply drop_refs_views.
Qed.

Lemma rebuild_views rules t : pub_view <$> pub_info_htable (rebuild_all_notify_lists rules t) = pub_view <$> pub_info_htable t.
Proof. unfold rebuild_all_notify_lists. simpl. induction (pub_info_htable t) as [|p l IH]; csimpl; [done|]. by rw IH. Qed.

Lemma rebuild_evolves rules t : evolves t (rebuild_all_notify_lists rules t).
Proof. apply evolves_eq; [done|done|apply rebuild_views|done]. Qed.

Lemma unlink_evolves rules t s : evolves t (agnocast_unlink_subscriber_info rules t s).1.
Proof.
  unfold agnocast_unlink_subscriber_info.
  set (t1 := set_subs _ t). assert (evolves t t1) as Ht1.
  { split; simpl; [done| |done|done]. intros x (y & -> & Hy%elem_of_hash_del)%list_elem_of_fmap.
    apply list_elem_of_fmap. by exists y. }
  destruct (notify_ctx s); [|done]. by eapply evolves_trans, rebuild_evolves.
Qed.

Lemma remove_subscriber_evolves rules procs t id t' puts r :
  remove_subscriber_topic rules procs t id = (t', puts, r) -> evolves t t'.
Proof.
  unfold remove_subscriber_topic. destruct (find_subscriber_info t id) as [s|]; [|by intros [= <- _ _]].
  pose proof (unlink_evolves rules t s) as Hu. destruct (agnocast_unlink_subscriber_info rules t s) as [t1 puts1].
  simpl in Hu. destruct (negb _); [|by intros [= <- _ _]].
  destruct (drop_subscriber_refs _ _ _ _) as [l pubs] eqn:E. intros [= <- _ _].
  eapply evolves_trans; [exact Hu|by eapply drop_refs_evolves].
Qed.

Lemma drop_publisher_evolves id t : evolves t (drop_publisher id t).
Proof.
  unfold drop_publisher. set (t1 := set_entries _ t). set (t2 := upd_publisher _ _ t1).
  assert (evolves t t2) as H2.
  { split; simpl; [done|done| |].
    - rw upd_publisher_views; done.
    - intros x (en & -> & [_ Hen]%list_elem_of_filter)%list_elem_of_fmap. apply list_elem_of_fmap. by exists en. }
  destruct (find _ (pub_info_htable t2)) as [p|]; [|done]. destruct (entries_num p =? 0); [|done].
  eapply evolves_trans; [exact H2|]. split; simpl; [done|done| |done].
  intros x (y & -> & Hy%elem_of_hash_del)%list_elem_of_fmap. apply list_elem_of_fmap. by exists y.
Qed.

Lemma remove_publisher_evolves t id t' r : remove_publisher_topic t id = (t', r) -> evolves t t'.
Proof.
  unfold remove_publisher_topic. destruct (find_publisher_info t id); intros [= <- _]; [|done].
  apply drop_publisher_evolves.
Qed.

Lemma exit_leaving_evolves procs leaving : forall t t' puts, exit_leaving procs leaving t = (t', puts) -> evolves t t'.
Proof.
  induction leaving as [|s l IH]; intros t t' puts; cbn [exit_leaving]; [by intros [= <- _]|].
  set (t1 := if _ : bool then t else _). destruct (exit_leaving procs l t1) as [t2 p2] eqn:E. intros [= <- _].
  eapply evolves_trans; [|by eapply IH]. unfold t1. destruct (_ || _); [done|].
  destruct (drop_subscriber_refs _ _ _ _) as [l' pubs] eqn:Ed. by eapply drop_refs_evolves.
Qed.

Lemma process_exit_evolves rules procs t pid t' puts : process_exit_topic rules procs t pid = (t', puts) -> evolves t t'.
Proof.
  unfold process_exit_topic, pre_handler_subscriber_exit. set (t1 := pre_handler_publisher_exit t pid).
  assert (evolves t t1) as H1.
  { unfold t1, pre_handler_publisher_exit. generalize (filter (fun p => pub_pid p = pid) (pub_info_htable t)).
    intros l. clear t1. revert t. induction l as [|p l IH]; intros t; simpl; [done|].
    eapply evolves_trans; [apply drop_publisher_evolves|apply IH]. }
  set (t2 := set_subs _ t1). assert (evolves t1 t2) as H2.
  { split; simpl; [done| |done|done]. intros x (y & -> & [_ Hy]%list_elem_of_filter)%list_elem_of_fmap.
    apply list_elem_of_fmap. by exists y. }
  destruct (negb _); [|intros [= <- _]; by eapply evolves_trans].
  intros E. apply exit_leaving_evolves in E. eapply evolves_trans; [exact H1|]. eapply evolves_trans; [exact H2|].
  eapply evolves_trans; [apply rebuild_evolves|exact E].
Qed.
End calls.

(** ** Lemmas: endpoints that join *)

Section joining.
Context `{KernelHash} (live : Z -> Prop) (rules : list domain_bridge_rule) (procs : list process_info)
  (pool : list mempool_entry) (size : Z).
Local Abbreviation mapped := (topic_mapped live rules procs pool size).

Lemma reserve_views al n t b t' : reserve_all_notify_ctxs al n t = (b, t') ->
  pub_view <$> pub_info_htable t' = pub_view <$> pub_info_htable t.
Proof.
  unfold reserve_all_notify_ctxs. destruct (reserve_loop _ _ _) as [ok pubs] eqn:E.
  intros [= <- <-]. apply reserve_loop_spec in E as [Hg _]. by apply (grown_fmap pub_view).
Qed.

Lemma insert_subscriber_mapped al t domain pid a ctx t' r :
  (live pid -> domain = get_process_domain_id procs pid) ->
  insert_subscriber_info al rules t domain pid a ctx = (t', r) -> mapped t -> mapped t'.
Proof.
  intros Hdom. unfold insert_subscriber_info.
  destruct (negb _); [|by intros [= <- _]]. destruct (negb _); [|by intros [= <- _]].
  destruct (al 0%nat); [|by intros [= <- _]]. destruct (al 1%nat); [|by intros [= <- _]].
  assert (forall t1 s, evolves t t1 -> sub_pid s = pid -> sub_domain_id s = domain -> need_mmap_update s = true ->
    mapped t -> forall x y, mapped (set_subs (hash_add sub_bucket s (sub_info_htable t1)) (set_ids x y t1))) as Hadd.
  { intros t1 s He Hp Hd Hn Ht x y. apply (topic_mapped_evolves _ _ _ _ _ [] _ t1) in Ht as [T1 T2 T3];
      [|done|intros ? ? ? ? Hin; by apply not_elem_of_nil in Hin].
    split; simpl.
    - intros s' p proc [-> |Hs']%elem_of_hash_add; [congruence|]. by apply T1.
    - intros s' [-> |Hs']%elem_of_hash_add; [|by apply T2]. rw Hp Hd. exact Hdom.
    - exact T3. }
  destruct ctx as [c|].
  - destruct (reserve_all_notify_ctxs _ _ _) as [ok t1] eqn:E.
    assert (evolves t t1) as He.
    { apply evolves_eq; [..|by eapply reserve_views|];
        unfold reserve_all_notify_ctxs in E; destruct (reserve_loop _ _ _); by injection E as _ <-. }
    destruct ok; intros [= <- _] Ht.
    + eapply topic_mapped_evolves; [apply rebuild_evolves|by apply Hadd|].
      intros ? ? ? ? Hin. by apply not_elem_of_nil in Hin.
    + eapply topic_mapped_evolves; [exact He|exact Ht|]. intros ? ? ? ? Hin. by apply not_elem_of_nil in Hin.
  - intros [= <- _] Ht. by apply Hadd.
Qed.

(** A new publisher has published nothing, and every subscriber looks again. *)
Lemma insert_publisher_joins al t domain pid a t' r :
  topic_wf t -> insert_publisher_info al rules t domain pid a = (t', r) -> mapped t ->
  match r with
  | Ok _ => mapped (set_subs (set_need_mmap_update true <$> sub_info_htable t') t')
  | _ => mapped t'
  end.
Proof.
  intros Hwf Hins Ht. unfold insert_publisher_info in Hins.
  destruct (negb _); [|by injection Hins as <- <-]. destruct (negb _); [|by injection Hins as <- <-].
  destruct (al 0%nat); [|by injection Hins as <- <-]. destruct (al 1%nat); [|by injection Hins as <- <-].
  destruct (reserve_notify_ctxs _ _ _) as [ok p] eqn:E.
  apply reserve_notify_ctxs_spec in E as [(cap & -> & _) _].
  destruct ok; injection Hins as <- <-.
  - destruct Ht as [T1 T2 T3]. split; simpl.
    + by intros s p proc (s0 & -> & Hs)%list_elem_of_fmap.
    + intros s (s0 & -> & Hs)%list_elem_of_fmap Hl. by apply (T2 s0).
    + intros en p proc Hen [-> |Hp]%elem_of_hash_add Hid; [|by apply T3]. simpl in Hid. exfalso.
      pose proof (wf_publishers _ Hwf) as W1. rewrite Forall_forall in W1. specialize (W1 en Hen).
      pose proof (wf_ids_range _ Hwf) as W2. rewrite Forall_forall in W2.
      assert (publisher_id en ∈ endpoint_ids t) as W3 by (unfold endpoint_ids; apply elem_of_app; by left).
      specialize (W2 _ W3). lia.
  - apply (topic_mapped_evolves _ _ _ _ _ [] t); [by apply evolves_eq|exact Ht|]. intros ? ? ? ? Hin. by apply not_elem_of_nil in Hin.
Qed.
End joining.

(** ** Lemmas: what a call maps *)

(** Only [pid] maps more. *)
Definition pool_grows (pid : Z) (pool pool' : list mempool_entry) : Prop :=
  forall i m', pool' !! i = Some m' -> exists m, pool !! i = Some m /\ addr m' = addr m /\
    (forall q, q ∈ mapped_pids m' -> q ∈ mapped_pids m \/ q = pid).

(** The addresses of the pools a process maps. *)
Definition mapped_by (pid : Z) (pool : list mempool_entry) : list Z :=
  addr <$> filter (fun m => pid ∈ mapped_pids m) pool.

Lemma elem_of_mapped_by pid pool a : a ∈ mapped_by pid pool <-> exists i m, pool !! i = Some m /\ pid ∈ mapped_pids m /\ addr m = a.
Proof.
  unfold mapped_by. rw list_elem_of_fmap. split.
  - intros (m & -> & [Hp (i & Hi)%list_elem_of_lookup_1]%list_elem_of_filter). by exists i, m.
  - intros (i & m & Hi & Hp & <-). exists m. split; [done|]. apply list_elem_of_filter. split; [done|by eapply list_elem_of_lookup_2].
Qed.

Lemma mapped_by_insert pid pool i m m' : pool !! i = Some m -> pid ∉ mapped_pids m -> pid ∈ mapped_pids m' ->
  mapped_by pid (<[i := m']> pool) ≡ₚ addr m' :: mapped_by pid pool.
Proof.
  intros Hm Hn Hin. unfold mapped_by. pose proof (take_drop_middle _ _ _ Hm) as Hsplit.
  rw -{2}Hsplit insert_take_drop; [|exact (lookup_lt_Some _ _ _ Hm)]. rw !filter_app !filter_cons.
  rw decide_True; [|done]. rw decide_False; [|done]. rw !fmap_app. simpl. by rw Permutation_middle.
Qed.

Lemma pool_grows_refl pid pool : pool_grows pid pool pool.
Proof. intros i m' Hm. exists m'. split; [done|]. split; [done|]. by left. Qed.

Lemma pool_grows_trans pid p1 p2 p3 : pool_grows pid p1 p2 -> pool_grows pid p2 p3 -> pool_grows pid p1 p3.
Proof.
  intros H12 H23 i m3 Hm3. destruct (H23 _ _ Hm3) as (m2 & Hm2 & A2 & P2). destruct (H12 _ _ Hm2) as (m1 & Hm1 & A1 & P1).
  exists m1. split; [done|]. split; [congruence|]. intros q Hq. destruct (P2 q Hq) as [Hq2|?]; auto.
Qed.

Lemma reference_memory_grows al pool i pid pool' r :
  reference_memory al pool i pid = (pool', r) ->
  pool_grows pid pool pool' /\
  match r with
  | Ok _ => exists m, pool' !! i = Some m /\ mapped_by pid pool' ≡ₚ addr m :: mapped_by pid pool
  | _ => pool' = pool
  end.
Proof.
  unfold reference_memory. pose proof (pool_grows_refl pid pool) as Hrefl. destruct (al 0%nat); [|by intros [= <- <-]].
  destruct (pool !! i) as [m|] eqn:Hm; [|by intros [= <- <-]].
  destruct (negb _) eqn:Hn; intros [= <- <-]; [|done]. apply negb_true_iff, bool_decide_eq_false_1 in Hn. split.
  - intros j m' Hj. destruct (decide (i = j)) as [<-|Hne].
    + rewrite list_lookup_insert_eq in Hj; [|exact (lookup_lt_Some _ _ _ Hm)]. injection Hj as <-. exists m.
      split; [done|]. split; [done|]. intros q [-> |Hq]%elem_of_cons; [by right|by left].
    + rewrite list_lookup_insert_ne in Hj; [|done]. exists m'. split; [done|]. split; [done|]. by left.
  - eexists. rw list_lookup_insert_eq; [|exact (lookup_lt_Some _ _ _ Hm)]. split; [done|].
    apply (mapped_by_insert pid pool i m); [done|done|by left].
Qed.

Section shm.
Context `{KernelHash} (vnr : Z -> option Z) (rules : list domain_bridge_rule) (procs : list process_info)
  (t : topic_struct) (domain pid : Z) (bridge : bool) (size : Z).
Local Abbreviation loop := (fun al pubs n pool => shm_info_loop al vnr rules procs t domain pid bridge size pubs n pool).

(** The pools the caller maps anew are those it is told of, each once. *)
Lemma shm_info_loop_grows pubs : forall al n pool pool' r, loop al pubs n pool = (pool', r) ->
  pool_grows pid pool pool' /\
  match r with Ok infos => mapped_by pid pool' ≡ₚ (shm_addr <$> infos) ++ mapped_by pid pool | _ => True end.
Proof.
  induction pubs as [|p pubs IH]; intros al n pool pool' r Hrun; cbn [shm_info_loop] in Hrun.
  { injection Hrun as <- <-. split; [apply pool_grows_refl|done]. }
  destruct (pid =? pub_pid p); [by eapply IH|]. destruct (negb _); [by eapply IH|].
  destruct (agnocast_find_process_info procs (pub_pid p)) as [proc|] eqn:Hf; [|by eapply IH].
  destruct (exited proc); [by eapply IH|].
  destruct (reference_memory al pool (proc_mempool proc) pid) as [pool1 r1] eqn:Hr.
  apply reference_memory_grows in Hr as [Hg Hr]. destruct r1 as [[]|e|].
  - destruct Hr as (m & Hm & Hp). rewrite Hm in Hrun. destruct (negb _); [|by injection Hrun as <- <-].
    destruct (vnr (pub_pid p)) as [local|]; [|by injection Hrun as <- <-].
    destruct (shm_info_loop _ _ _ _ _ _ _ _ _ pubs _ pool1) as [pool2 r2] eqn:E. injection Hrun as <- <-.
    apply IH in E as [Hg2 Hr2]. split; [by eapply pool_grows_trans|]. destruct r2 as [infos|e|]; [|done|done].
    rw fmap_cons. simpl. rw Hr2 Hp. by rw Permutation_middle.
  - subst pool1. destruct e; try (by injection Hrun as <- <-). by apply IH in Hrun.
  - subst pool1. by injection Hrun as <- <-.
Qed.
End shm.

(** ** Lemmas: receiving and taking *)

Section handing.
Context `{KernelHash} (live : Z -> Prop) (rules : list domain_bridge_rule) (procs : list process_info) (size : Z).
Local Abbreviation mapped := (topic_mapped live rules procs).

Lemma pool_extends_keep pool pool' : pool_extends pool pool' -> pool_keep live pool pool'.
Proof.
  intros He i m Hm. destruct (pool_extends_lookup _ _ _ _ He Hm) as (m' & Hm' & Ha & Hs). exists m'.
  split; [done|]. split; [done|]. intros pid _. apply Hs.
Qed.

Lemma procs_keep_refl ps : procs_keep live (fun _ => False) ps ps.
Proof. split; [done|]. intros pid q' Hf He _. by exists q'. Qed.

Lemma mapped_extends pool pool' t : pool_extends pool pool' -> mapped pool size t -> mapped pool' size t.
Proof.
  intros He. apply (topic_mapped_keep live live (fun _ => False)); auto; [apply procs_keep_refl|by apply pool_extends_keep].
Qed.

Lemma to_map_process t d pid b p proc : to_map rules procs t d pid b p = Some proc ->
  agnocast_find_process_info procs (pub_pid p) = Some proc.
Proof.
  unfold to_map. destruct (pid =? pub_pid p); [done|]. destruct (negb _); [done|].
  destruct (agnocast_find_process_info procs (pub_pid p)) as [q|]; [|done]. by destruct (exited q).
Qed.

Lemma update_shm_mapped {A} al vnr t domain s width pool (a : A) t' pool' r :
  topic_wf t -> notify_ok rules t -> pools_present procs pool t ->
  (exists s0, find_subscriber_info t (sub_id s) = Some s0 /\ sub_view s0 = sub_view s) ->
  (live (sub_pid s) -> domain = sub_domain_id s) ->
  update_publisher_shm al vnr rules procs t domain s width pool a = (t', pool', r) ->
  mapped pool size t ->
  mapped pool' size t' /\ pool_extends pool pool' /\
  pool_grows (sub_pid s) pool pool' /\
  match r with Ok (_, infos) => mapped_by (sub_pid s) pool' ≡ₚ (shm_addr <$> infos) ++ mapped_by (sub_pid s) pool | _ => True end /\
  match r with
  | Ok (a', _) => a' = a /\ forall p proc, p ∈ pub_info_htable t -> live (sub_pid s) ->
      to_map rules procs t (sub_domain_id s) (sub_pid s) (sub_is_bridge s) p = Some proc ->
      maps_pool pool' (proc_mempool proc) (sub_pid s)
  | _ => True
  end.
Proof.
  intros Hwf Hok Hin (s0 & Hf & Hview) Hdom Hrun Ht. pose proof Hrun as Hrun'.
  apply update_publisher_shm_inv in Hrun' as (_ & _ & _ & Hpubs & _ & _ & He & Hr); [|done|done|done].
  pose proof (find_subscriber_info_Some _ _ _ Hf) as [Hs0 Hid0].
  pose proof (mapped_extends _ _ _ He Ht) as Ht'. unfold update_publisher_shm in Hrun.
  destruct (need_mmap_update s) eqn:Hneed.
  - unfold set_publisher_shm_info in Hrun.
    destruct (shm_info_loop _ _ _ _ _ _ _ _ _ _ _ _) as [pool1 r1] eqn:Hloop. apply shm_info_loop_grows in Hloop as [Hgrow Hexact].
    destruct r1 as [infos|e|]; injection Hrun as <- <- <-; [|split_and!; done..].
    destruct Hr as [_ Hmaps]. specialize (Hmaps eq_refl).
    assert (forall p proc, p ∈ pub_info_htable t -> live (sub_pid s) ->
      to_map rules procs t (sub_domain_id s) (sub_pid s) (sub_is_bridge s) p = Some proc ->
      maps_pool pool1 (proc_mempool proc) (sub_pid s)) as Hm.
    { intros p proc Hp Hl Hto. apply (Hmaps p); [done|]. by rw (Hdom Hl). }
    split_and!; try done. destruct Ht' as [T1 T2 T3]. split; [| |exact T3].
    + intros x p proc Hx Hl Hn Hp Hto. simpl in Hx, Hp.
      apply elem_of_hash_upd in Hx as [Hx|(y & Hy & Hyid%Z.eqb_eq & ->)]; [by apply (T1 x p)|].
      assert (y = s0) as -> by (pose proof (find_subscriber_info_unique t y (wf_sub_ids_nodup _ Hwf) Hy) as Hu; congruence).
      injection Hview as V1 V2 V3 V4. simpl in *. rewrite V1 V2 V3 in Hto. rewrite V1 in Hl. rw V1. by apply (Hm p).
    + intros x Hx Hl. simpl in Hx. apply elem_of_hash_upd in Hx as [Hx|(y & Hy & _ & ->)]; [by apply T2|by apply (T2 y)].
  - injection Hrun as <- <- <-. split_and!; [done|done|apply pool_grows_refl|done|done|].
    + intros p proc Hp Hl Hto. injection Hview as V1 V2 V3 V4. destruct Ht as [T1 _ _].
      rewrite -V1. apply (T1 s0 p proc); [done|by rw V1|by rw V4|done|]. by rw V1 V2 V3.
Qed.

(** A message the subscriber may be handed lies in a pool that its process maps. *)
Lemma deliverable_mapped pool pool' t s en :
  mapped pool' size t -> en ∈ entries t -> live (sub_pid s) -> deliverable rules procs t s en = true ->
  (forall proc, agnocast_find_process_info procs (sub_pid s) = Some proc -> exited proc = false ->
     maps_pool pool (proc_mempool proc) (sub_pid s)) -> pool_extends pool pool' ->
  (forall p proc, p ∈ pub_info_htable t -> live (sub_pid s) ->
      to_map rules procs t (sub_domain_id s) (sub_pid s) (sub_is_bridge s) p = Some proc ->
      maps_pool pool' (proc_mempool proc) (sub_pid s)) ->
  exists i m, pool' !! i = Some m /\ sub_pid s ∈ mapped_pids m /\ in_pool size m (msg_virtual_address en).
Proof.
  intros [_ _ T3] Hen Hl Hd Hown He Hmap. unfold deliverable in Hd.
  destruct (find_publisher_info t (publisher_id en)) as [p|] eqn:Hp; [|done].
  destruct (agnocast_find_process_info procs (pub_pid p)) as [proc|] eqn:Hf; [|done].
  apply andb_true_iff in Hd as [[Hx _]%andb_true_iff Ha]. apply negb_true_iff in Hx.
  pose proof (find_publisher_info_Some _ _ _ Hp) as [Hin Hid].
  destruct (T3 en p proc Hen Hin Hid Hf Hx) as (m & Hm & Hrange).
  exists (proc_mempool proc), m. split; [done|]. split; [|done].
  assert (maps_pool pool' (proc_mempool proc) (sub_pid s)) as (m1 & Hm1 & Hpid); [|congruence].
  destruct (Z.eqb_spec (sub_pid s) (pub_pid p)) as [Heq|Hne].
  - eapply maps_pool_extends; [exact He|]. apply Hown; [by rw Heq|done].
  - apply (Hmap p proc Hin Hl). unfold to_map. rw Hf Hx Ha. by destruct (Z.eqb_spec (sub_pid s) (pub_pid p)).
Qed.

Lemma evolves_mapped pool t t' : evolves t t' -> mapped pool size t -> mapped pool size t'.
Proof. intros He Ht. eapply topic_mapped_evolves; [exact He|exact Ht|]. intros ? ? ? ? Hin. by apply not_elem_of_nil in Hin. Qed.

Definition handed_ok (pid : Z) (pool : list mempool_entry) (l : list Z) : Prop :=
  forall a, a ∈ l -> exists i m, pool !! i = Some m /\ pid ∈ mapped_pids m /\ in_pool size m a.

Lemma receive_mapped al vnr pool t domain s width t' pool' r :
  topic_wf t -> notify_ok rules t -> pools_present procs pool t -> find_subscriber_info t (sub_id s) = Some s ->
  (live (sub_pid s) -> domain = sub_domain_id s) ->
  (forall proc, agnocast_find_process_info procs (sub_pid s) = Some proc -> exited proc = false ->
     maps_pool pool (proc_mempool proc) (sub_pid s)) ->
  receive_msg_topic al vnr rules procs pool t domain (sub_id s) width = (t', pool', r) ->
  mapped pool size t ->
  mapped pool' size t' /\ pool_extends pool pool' /\
  pool_grows (sub_pid s) pool pool' /\
  match r with Ok (_, infos) => mapped_by (sub_pid s) pool' ≡ₚ (shm_addr <$> infos) ++ mapped_by (sub_pid s) pool | _ => True end /\
  match r with Ok (out, _, _) => live (sub_pid s) -> handed_ok (sub_pid s) pool' out.*2 | _ => True end.
Proof.
  intros Hwf Hok Hin Hf Hdom Hown Hrun Ht. unfold receive_msg_topic in Hrun. rw Hf in Hrun.
  rw receive_msg_core_spec // in Hrun. set (handed := take _ _) in Hrun. set (n := default _ _) in Hrun.
  set (t1 := claimed_topic _ _ _ _) in Hrun.
  assert (topic_wf t1) as Hwf1 by (by apply receive_claim_wf).
  assert (notify_ok rules t1) as Hok1 by (by apply notify_ok_claimed).
  assert (mapped pool size t1) as Ht1 by (by eapply evolves_mapped; [apply claimed_evolves|]).
  assert (exists s0, find_subscriber_info t1 (sub_id s) = Some s0 /\ sub_view s0 = sub_view s) as Hf1.
  { exists (set_latest_received n s). split; [|done]. rw find_subscriber_info_eq. rw find_subscriber_info_eq in Hf.
    unfold t1. simpl. rw find_hash_upd; [|done]. by rw Hf. }
  destruct (update_shm_mapped _ _ _ _ _ _ _ _ _ _ _ Hwf1 Hok1 Hin Hf1 Hdom Hrun Ht1) as (H1 & H2 & H3 & H3' & H4).
  split_and!; [done|done|exact H3|exact H3'|]. destruct r as [[[out again] infos]|e|]; [|done|done].
  destruct H4 as [[= -> _] Hmap]. intros Hl a Ha. rewrite -list_fmap_compose in Ha.
  apply list_elem_of_fmap in Ha as (en & -> & Hen). simpl.
  assert (en ∈ pending rules procs t s (latest_received_entry_id s)) as Hp.
  { eapply newest_subseteq. unfold handed in Hen. apply elem_of_take in Hen as (i & Hi & _). by eapply list_elem_of_lookup_2. }
  apply list_elem_of_filter in Hp as [[_ Hd] Hent].
  apply (deliverable_mapped pool pool' t s); [by eapply mapped_extends|done|done|done|done|done|].
  intros p proc Hpin _. exact (Hmap p proc Hpin Hl).
Qed.

Lemma take_mapped al vnr pool t domain s allow width t' pool' r :
  topic_wf t -> notify_ok rules t -> pools_present procs pool t -> find_subscriber_info t (sub_id s) = Some s ->
  (live (sub_pid s) -> domain = sub_domain_id s) ->
  (forall proc, agnocast_find_process_info procs (sub_pid s) = Some proc -> exited proc = false ->
     maps_pool pool (proc_mempool proc) (sub_pid s)) ->
  take_msg_topic al vnr rules procs pool t domain (sub_id s) allow width = (t', pool', r) ->
  mapped pool size t ->
  mapped pool' size t' /\ pool_extends pool pool' /\
  pool_grows (sub_pid s) pool pool' /\
  match r with Ok (_, infos) => mapped_by (sub_pid s) pool' ≡ₚ (shm_addr <$> infos) ++ mapped_by (sub_pid s) pool | _ => True end /\
  match r with
  | Ok (out, _) => live (sub_pid s) -> take_addr out <> 0 -> handed_ok (sub_pid s) pool' [take_addr out]
  | _ => True
  end.
Proof.
  intros Hwf Hok Hin Hf Hdom Hown Hrun Ht. unfold take_msg_topic in Hrun. rw Hf in Hrun.
  rw take_core_spec // in Hrun. destruct (newest _ _) as [|en w] eqn:Hq.
  - assert (exists s0, find_subscriber_info t (sub_id s) = Some s0 /\ sub_view s0 = sub_view s) as Hf1 by eauto.
    destruct (update_shm_mapped _ _ _ _ _ _ _ _ _ _ _ Hwf Hok Hin Hf1 Hdom Hrun Ht) as (H1 & H2 & H3 & H3' & H4).
    split_and!; [done|done|exact H3|exact H3'|]. destruct r as [[out infos]|e|]; [|done|done]. destruct H4 as [-> _]. done.
  - set (t1 := claimed_topic _ _ _ _) in Hrun.
    assert (topic_wf t1) as Hwf1 by (by eapply take_claim_wf).
    assert (notify_ok rules t1) as Hok1 by (by apply notify_ok_claimed).
    assert (mapped pool size t1) as Ht1 by (by eapply evolves_mapped; [apply claimed_evolves|]).
    assert (exists s0, find_subscriber_info t1 (sub_id s) = Some s0 /\ sub_view s0 = sub_view s) as Hf1.
    { exists (set_latest_received (entry_id en) s). split; [|done]. rw find_subscriber_info_eq. rw find_subscriber_info_eq in Hf.
      unfold t1. simpl. rw find_hash_upd; [|done]. by rw Hf. }
    destruct (update_shm_mapped _ _ _ _ _ _ _ _ _ _ _ Hwf1 Hok1 Hin Hf1 Hdom Hrun Ht1) as (H1 & H2 & H3 & H3' & H4).
    split_and!; [done|done|exact H3|exact H3'|]. destruct r as [[out infos]|e|]; [|done|done]. destruct H4 as [-> Hmap].
    intros Hl _ a Ha. apply list_elem_of_singleton in Ha as ->. simpl.
    assert (en ∈ pending rules procs t s (take_bound s allow)) as Hp by (apply (newest_subseteq (Z.to_nat (sub_qos_depth s))); rw Hq; by left).
    apply list_elem_of_filter in Hp as [[_ Hd] Hent].
    apply (deliverable_mapped pool pool' t s); [by eapply mapped_extends|done|done|done|done|done|].
    intros p proc Hpin _. exact (Hmap p proc Hpin Hl).
Qed.
End handing.
