(* ===== verification/KMapped.v ===== *)
(** * Kernel module: every call keeps the mappings complete

    The invariant of KMapping over the whole state of the module, what each system call and cleanup does to it, and
    what it leaves of the processes that run: their entries in the registry and the pools they map. *)

From S2P Require Import Prelude Kernel KMempool KTypes KRules KTopic KMessage KCleanup KRegistry.
From S2P Require Import KState KInvariant KSystem KIoctl KMapping.

(** ** Specification *)

Definition kmapped `{KernelHash} (live : Z -> Prop) (k : kstate) : Prop := forall a t, topics k !! a = Some t ->
  topic_mapped live (domain_rule_htable k) (procs k) (pool k) (mempool_size_bytes k) t.

(** The process is registered, has not exited and is no daemon: it has a pool and may have endpoints. *)
Definition registered `{KernelHash} (ps : list process_info) (pid : Z) (i : nat) : Prop := exists q,
  agnocast_find_process_info ps pid = Some q /\ exited q = false /\ role q <> PROCESS_ROLE_UNLINK_DAEMON /\ proc_mempool q = i.

(** A step leaves running processes their registration and the pools they map, and gives them no more. *)
Record quiet `{KernelHash} (live : Z -> Prop) (k k' : kstate) : Prop := {
  qu_live : forall q i, live q -> registered (procs k) q i -> registered (procs k') q i;
  qu_pool : forall i m, pool k !! i = Some m -> exists m', pool k' !! i = Some m' /\ addr m' = addr m /\
    forall q, live q -> q ∈ mapped_pids m' <-> q ∈ mapped_pids m;
  qu_length : length (pool k') = length (pool k);
  qu_size : mempool_size_bytes k' = mempool_size_bytes k
}.

(** Only running processes map pools. *)
Definition pool_owned `{KernelHash} (k : kstate) : Prop := forall i m q, pool k !! i = Some m -> q ∈ mapped_pids m ->
  exists x, agnocast_find_process_info (procs k) q = Some x /\ exited x = false.

(** The registry and the pools are as they were. *)
Definition same_reg (k k' : kstate) : Prop := reg k' = reg k /\ mempool_size_bytes k' = mempool_size_bytes k.

(** No topic gained an endpoint or a message. *)
Definition topics_evolve (k k' : kstate) : Prop := forall a t', topics k' !! a = Some t' ->
  (exists t, topics k !! a = Some t /\ evolves t t') \/ sub_info_htable t' = [] /\ pub_info_htable t' = [].

(** ** Lemmas *)

Section mapped.
Context `{KernelHash} (pool0 : list mempool_entry) (live : Z -> Prop).
Local Abbreviation kinv := (kinv pool0).
Local Abbreviation mapped := (kmapped live).

Lemma quiet_same_pool (live' : Z -> Prop) k k' : procs k' = procs k -> pool k' = pool k -> mempool_size_bytes k' = mempool_size_bytes k -> quiet live' k k'.
Proof. intros Hp Hpool Hs. split; rw ?Hp ?Hpool; try done. intros i m Hm. by exists m. Qed.

Lemma quiet_same (live' : Z -> Prop) k k' : reg k' = reg k -> mempool_size_bytes k' = mempool_size_bytes k -> quiet live' k k'.
Proof.
  intros Hr Hs. apply quiet_same_pool; [unfold procs; by rw Hr|unfold pool; by rw Hr|done].
Qed.

Lemma quiet_mapped_by k k' q : quiet live k k' -> live q -> mapped_by q (pool k') = mapped_by q (pool k).
Proof.
  intros [_ Hp Hl _] Hq. unfold mapped_by. generalize dependent (pool k). generalize (pool k').
  induction l as [|m' l' IH]; intros [|m l] Hp Hl; try done.
  destruct (Hp 0%nat m eq_refl) as (m1 & [= ->] & Ha & Hin). rw !filter_cons.
  assert ((addr <$> filter (fun m => q ∈ mapped_pids m) l') = (addr <$> filter (fun m => q ∈ mapped_pids m) l)) as IH'.
  { apply IH; [|by injection Hl]. intros i mi Hi. exact (Hp (S i) mi Hi). }
  specialize (Hin q Hq). do 2 case_decide; try tauto. rw !fmap_cons. by rw Ha IH'.
Qed.

Lemma same_reg_eq k k' : reg k' = reg k -> mempool_size_bytes k' = mempool_size_bytes k -> same_reg k k'.
Proof. done. Qed.

Lemma same_rest_reg k k' : same_rest k k' -> same_reg k k'.
Proof. by intros [R1 _ _ R4]. Qed.

Lemma same_rest_quiet k k' : same_rest k k' -> quiet live k k'.
Proof. intros [R1 _ _ R4]. by apply quiet_same. Qed.

Lemma evolve_mapped k k' : same_rest k k' -> topics_evolve k k' -> mapped k -> mapped k'.
Proof.
  intros [R1 _ R3 R4] He Hk a t' Ht'. unfold procs, pool. rw R1 R3 R4.
  destruct (He a t' Ht') as [(t & Ht & Hev)|[Hs Hp]]; [|by apply topic_mapped_empty].
  eapply evolves_mapped; [exact Hev|by eapply Hk].
Qed.

Lemma put_mapped k a t' :
  topic_mapped live (domain_rule_htable k) (procs k) (pool k) (mempool_size_bytes k) t' -> mapped k -> mapped (put_topic a t' k).
Proof.
  intros Ht Hk b t Hb. unfold put_topic, set_topics in Hb. simpl in Hb.
  apply lookup_insert_Some in Hb as [(<- & <-)|(Hne & Hb)]; [exact Ht|]. by eapply Hk.
Qed.

Lemma put_evolves k a t t' : topics k !! a = Some t -> evolves t t' -> mapped k -> mapped (put_topic a t' k).
Proof. intros Ht He Hk. apply put_mapped; [|done]. eapply evolves_mapped; [exact He|by eapply Hk]. Qed.

Lemma refcnt_evolves t n : evolves t (set_refcnt n t).
Proof. by apply evolves_eq. Qed.

Lemma add_topic_mapped al k n ns d k' r : add_topic al k n ns d = (k', r) -> mapped k -> mapped k'.
Proof.
  unfold add_topic. destruct (find_topic _ _ _ _); [by intros [= <- _]|].
  destruct (al 0%nat); [|by intros [= <- _]]. destruct (al 1%nat); [|by intros [= <- _]].
  destruct (find_grouped_topic_struct _ _ _ _) as [a|].
  - destruct (topics k !! a) as [t|] eqn:Ht; [|by intros [= <- _]]. intros [= <- _] Hk.
    exact (put_evolves k a t _ Ht (refcnt_evolves t _) Hk).
  - destruct (al 2%nat); [|by intros [= <- _]]. intros [= <- _] Hk.
    refine (put_mapped k (next_addr k) (new_topic_struct _) _ Hk). by apply topic_mapped_empty.
Qed.

(** ** Lemmas: calls on topics *)

Lemma add_subscriber_mapped e k n pid a fd k' r :
  kinv k -> agnocast_ioctl_add_subscriber e k n pid a fd = (k', r) -> mapped k ->
  mapped k' /\ same_reg k k'.
Proof.
  intros Hk. unfold agnocast_ioctl_add_subscriber. cbv zeta.
  destruct (if a_sub_take a then inr None else _) as [err|ctx]; [by intros [= <- _]; split; [|apply same_reg_eq]|].
  destruct (add_topic _ _ _ _ _) as [k1 r1] eqn:Hadd. intros Hrun Hm.
  pose proof (add_topic_mapped _ _ _ _ _ _ _ Hadd) as Hm1.
  assert (mapped (set_eventfds (option_list ctx ++ eventfd_refs k) k)) as Hm0 by exact Hm. specialize (Hm1 Hm0).
  destruct (add_topic_kinv pool0 _ _ _ _ _ _ _ _ Hk Hadd) as (_ & _ & Hrest & Hcell & _).
  assert (forall k2, mapped k2 -> same_rest k k2 -> forall err, (match ctx with
      | None => (k2, Err err)
      | Some c => match eventfd_put c (eventfd_refs k2) with Some refs => (set_eventfds refs k2, Err err) | None => (k2, Oops) end
      end) = (k', r) -> mapped k' /\ same_reg k k') as Hfail.
  { intros k2 Hm2 Hr2 err Hfail. destruct ctx as [c|]; [destruct (eventfd_put c (eventfd_refs k2))|]; injection Hfail as <- _;
      (split; [exact Hm2|apply same_rest_reg]); destruct Hr2; by split. }
  destruct r1 as [w|err|]; [|by apply (Hfail k1 Hm1 Hrest err)|injection Hrun as <- _; split; [done|by apply same_rest_reg]].
  destruct Hcell as [_ [= _ _ Hdom]].
  destruct (topics k1 !! topic w) as [t|] eqn:Ht; [|injection Hrun as <- _; split; [done|by apply same_rest_reg]].
  destruct (insert_subscriber_info _ _ _ _ _ _ _) as [t1 r2] eqn:Hins.
  assert (topic_mapped live (domain_rule_htable k1) (procs k1) (pool k1) (mempool_size_bytes k1) t1) as Ht1.
  { eapply insert_subscriber_mapped; [|exact Hins|by eapply Hm1]. intros _. rw Hdom. unfold procs. by rw (sr_reg _ _ Hrest). }
  assert (mapped (put_topic (topic w) t1 k1)) as Hm2 by (by apply put_mapped).
  assert (same_rest k (put_topic (topic w) t1 k1)) as Hr2 by (destruct Hrest; by split).
  destruct r2 as [s|err|]; [injection Hrun as <- _|by apply (Hfail _ Hm2 Hr2 err)|injection Hrun as <- _];
    (split; [done|by apply same_rest_reg]).
Qed.

Lemma add_publisher_mapped e k n pid a k' r :
  kinv k -> agnocast_ioctl_add_publisher e k n pid a = (k', r) -> mapped k ->
  mapped k' /\ same_reg k k'.
Proof.
  intros Hk. unfold agnocast_ioctl_add_publisher.
  destruct (add_topic _ _ _ _ _) as [k1 r1] eqn:Hadd. intros Hrun Hm.
  pose proof (add_topic_mapped _ _ _ _ _ _ _ Hadd Hm) as Hm1.
  destruct (add_topic_spec _ _ _ _ _ _ _ (ki_topics _ _ Hk) Hadd) as (Hinv & Hrest & _).
  destruct r1 as [w|err|]; [|injection Hrun as <- _; split; [done|by apply same_rest_reg]..].
  destruct (topics k1 !! topic w) as [t|] eqn:Ht; [|injection Hrun as <- _; split; [done|by apply same_rest_reg]].
  destruct (insert_publisher_info _ _ _ _ _ _) as [t1 r2] eqn:Hins.
  pose proof (tv_heap _ _ _ _ Hinv _ _ Ht) as Hok.
  pose proof (insert_publisher_joins live (domain_rule_htable k1) (procs k1) (pool k1) (mempool_size_bytes k1) _ _ _ _ _ _ _ (ho_wf _ _ _ _ _ Hok) Hins (Hm1 _ _ Ht)) as Ht1.
  destruct r2 as [p|err|]; injection Hrun as <- _;
    (split; [by apply put_mapped|apply same_rest_reg; destruct Hrest; by split]).
Qed.

Lemma publish_mapped e k n id a k' signals r :
  kinv k -> 0 <= mempool_size_bytes k -> Forall (fun m => 0 <= addr m) (pool k) ->
  agnocast_ioctl_publish_msg e k n id a = (k', signals, r) -> mapped k -> mapped k' /\ same_reg k k'.
Proof.
  intros Hk Hsize Haddr. unfold agnocast_ioctl_publish_msg.
  destruct (find_topic_for_current e k n) as [w|] eqn:Hf; [|by intros [= <- _ _]; split; [|apply same_reg_eq]].
  destruct (find_for_current _ _ _ _ _ Hk Hf) as (_ & t & Ht & Hok). rw Ht.
  destruct (publish_msg_topic _ _ _ _ _ _ _) as [[t' s] r'] eqn:Hrun. intros [= <- _ _] Hm.
  split; [|by apply same_reg_eq]. apply put_mapped; [|done].
  rewrite Forall_forall in Haddr.
  destruct (publish_evolves _ _ _ _ _ _ _ _ _ _ Hsize Haddr Hrun) as (new & He & Hnew).
  eapply topic_mapped_evolves; [exact He|by eapply Hm|].
  intros id' a' p proc Hin Hp Hid Hproc Hx. destruct (Hnew id' a' Hin) as (p' & proc' & m & Hp' & Hproc' & Hpool & Hrange).
  assert (p' = p) as -> by (rewrite -Hid (find_publisher_info_unique t p (wf_pub_ids_nodup _ (ho_wf _ _ _ _ _ Hok)) Hp) in Hp'; congruence).
  exists m. split; [|done]. congruence.
Qed.

Lemma release_if_empty_evolves k w k' r : kinv k -> w ∈ topic_hashtable k ->
  release_if_empty k w = (k', r) -> mapped k -> mapped k' /\ same_rest k k'.
Proof.
  intros Hk Hw Hrun Hm. destruct (release_if_empty_kinv _ _ w Hk Hw) as (k2 & Hr & _ & Hrest & Hts & _).
  rewrite Hr in Hrun. injection Hrun as <- _. split; [|done]. apply (evolve_mapped k); [done| |done].
  intros a t' Ht'. destruct (Hts a t' Ht') as (t & n & Ht & ->). left. exists t. split; [done|apply refcnt_evolves].
Qed.

Lemma release_reference_mapped e k n id eid k' r :
  kinv k -> agnocast_ioctl_release_message_entry_reference e k n id eid = (k', r) -> mapped k -> mapped k' /\ same_reg k k'.
Proof.
  intros Hk. unfold agnocast_ioctl_release_message_entry_reference.
  destruct (find_topic_for_current e k n) as [w|] eqn:Hf; [|by intros [= <- _]; split; [|apply same_reg_eq]].
  destruct (find_for_current _ _ _ _ _ Hk Hf) as (_ & t & Ht & _). rw Ht.
  destruct (release_reference_topic t id eid) as [t' r'] eqn:Hrun. intros [= <- _] Hm.
  split; [|by apply same_reg_eq]. eapply put_evolves; [exact Ht|by eapply release_reference_evolves|done].
Qed.

Lemma set_ros2_mapped e k n c k' r : kinv k ->
  agnocast_ioctl_set_ros2_subscriber_num e k n c = (k', r) \/
  agnocast_ioctl_set_ros2_publisher_num e k n c = (k', r) -> mapped k -> mapped k' /\ same_reg k k'.
Proof.
  intros Hk. unfold agnocast_ioctl_set_ros2_subscriber_num, agnocast_ioctl_set_ros2_publisher_num.
  destruct (find_topic_for_current e k n) as [w|] eqn:Hf; [|by intros [[= <- _]|[= <- _]]; split; [|apply same_reg_eq| |apply same_reg_eq]].
  destruct (find_for_current _ _ _ _ _ Hk Hf) as (_ & t & Ht & _). rw Ht.
  intros [[= <- _]|[= <- _]] Hm; (split; [|by apply same_reg_eq]); (eapply put_evolves; [exact Ht|by apply evolves_eq|done]).
Qed.

Lemma remove_subscriber_mapped e k n id k' r :
  kinv k -> agnocast_ioctl_remove_subscriber e k n id = (k', r) -> mapped k -> mapped k' /\ same_reg k k'.
Proof.
  intros Hk. unfold agnocast_ioctl_remove_subscriber.
  destruct (find_topic_for_current e k n) as [w|] eqn:Hf; [|by intros [= <- _]; split; [|apply same_reg_eq]].
  destruct (find_for_current _ _ _ _ _ Hk Hf) as (Hw & t & Ht & [O1 O2 _ _ _ _]). rw Ht.
  destruct (remove_subscriber_topic _ _ _ _) as [[t' puts] r'] eqn:Hrun.
  pose proof (remove_subscriber_topic_inv _ _ _ _ _ _ _ O1 O2 Hrun) as Hinv.
  destruct (remove_subscriber_keeps _ _ _ _ _ _ _ O1 O2 Hrun) as [Hkeep Hputs].
  assert (topic_wf t' /\ notify_ok (domain_rule_htable k) t') as (W & N).
  { destruct (find_subscriber_info t id); [by destruct Hinv as (-> & ? & ? & _)|].
    by destruct Hinv as (-> & -> & ->). }
  destruct (keeps_kinv _ k _ t t' puts Hk Ht W N Hkeep Hputs) as (refs & Hput & Hk1).
  simpl. rw Hput. intros Hres Hm.
  assert (mapped (set_eventfds refs (put_topic (topic w) t' k))) as Hm1.
  { exact (put_evolves k (topic w) t t' Ht (remove_subscriber_evolves _ _ _ _ _ _ _ Hrun) Hm). }
  destruct r' as [[]|err|]; [|injection Hres as <- _; split; [exact Hm1|by apply same_reg_eq]..].
  destruct (release_if_empty_evolves _ _ _ _ Hk1 Hw Hres Hm1) as [Hm' [R1 R2 R3 R4]]. split; [done|]. by apply same_reg_eq.
Qed.

Lemma remove_publisher_mapped e k n id k' r :
  kinv k -> agnocast_ioctl_remove_publisher e k n id = (k', r) -> mapped k -> mapped k' /\ same_reg k k'.
Proof.
  intros Hk. unfold agnocast_ioctl_remove_publisher.
  destruct (find_topic_for_current e k n) as [w|] eqn:Hf; [|by intros [= <- _]; split; [|apply same_reg_eq]].
  destruct (find_for_current _ _ _ _ _ Hk Hf) as (Hw & t & Ht & [O1 O2 _ _ _ _]). rw Ht.
  destruct (remove_publisher_topic _ _) as [t' r'] eqn:Hrun.
  destruct (remove_publisher_keeps _ _ _ _ _ O1 O2 Hrun) as (W & N & Hkeep & Hs & _).
  destruct (keeps_kinv _ k _ t t' [] Hk Ht W N Hkeep) as (refs & [= <-] & Hk1); [by rw Hs|].
  replace (set_eventfds (eventfd_refs k) (put_topic (topic w) t' k))
    with (put_topic (topic w) t' k) in Hk1 by (by destruct k). intros Hres Hm.
  assert (mapped (put_topic (topic w) t' k)) as Hm1.
  { exact (put_evolves k (topic w) t t' Ht (remove_publisher_evolves _ _ _ _ Hrun) Hm). }
  destruct r' as [[]|err|]; [|injection Hres as <- _; split; [exact Hm1|by apply same_reg_eq]..].
  destruct (release_if_empty_evolves _ _ _ _ Hk1 Hw Hres Hm1) as [Hm' [R1 R2 R3 R4]]. split; [done|]. by apply same_reg_eq.
Qed.

Lemma rules_added_mapped k k' : kinv k -> rules_added k k' -> mapped k -> mapped k' /\ same_reg k k'.
Proof.
  intros Hk (rules & He & ->) Hm. split; [|by apply same_reg_eq]. intros a t Ht.
  apply (topic_mapped_keep live live (fun _ => False) (domain_rule_htable k) _ (procs k) _ (pool k)); auto.
  - intros d1 b1 d2 b2. unfold domain_delivery_allowed. simpl.
    by rw (rules_keep_topics _ _ _ _ _ _ _ _ (ki_topics _ _ Hk) He Ht).
  - apply procs_keep_refl.
  - intros i m Hi. exists m. by split_and!.
  - by eapply Hm.
Qed.

(** ** Lemmas: receiving and taking *)

(** The caller names a subscriber of its own process. *)
Definition own_subscriber (e : env) (k : kstate) (n : string) (id : Z) : Prop := forall w t s,
  find_topic_for_current e k n = Some w -> topics k !! topic w = Some t -> find_subscriber_info t id = Some s ->
  sub_pid s = current_tgid e.

Lemma own_pool k pid proc : kinv k -> agnocast_find_process_info (procs k) pid = Some proc -> exited proc = false ->
  maps_pool (pool k) (proc_mempool proc) pid.
Proof.
  intros Hk Hf He. pose proof (find_process_info_Some _ _ _ Hf) as [Hin <-].
  destruct (rw_present _ _ (ki_reg _ _ Hk) proc Hin) as [m Hm]. exists m. split; [exact Hm|].
  by apply (rw_own _ _ (ki_reg _ _ Hk) proc m).
Qed.

Lemma current_domain e k n w t s : kinv k -> mapped k -> find_topic_for_current e k n = Some w -> topics k !! topic w = Some t ->
  s ∈ sub_info_htable t -> sub_pid s = current_tgid e -> live (sub_pid s) -> wrapper_domain_id w = sub_domain_id s.
Proof.
  intros Hk Hm Hf Ht Hs Hp Hl. rw (tm_domain _ _ _ _ _ _ (Hm _ _ Ht) s Hs Hl) Hp.
  by apply find_topic_Some in Hf as (_ & _ & _ & ->).
Qed.

(** The caller of a step that hands messages out may map more. *)
Lemma extends_quiet pid k p : pool_extends (pool k) p -> pool_grows pid (pool k) p -> forall k',
  reg k' = Registry (procs k) (discovery_agent_htable (reg k)) p -> mempool_size_bytes k' = mempool_size_bytes k ->
  quiet (fun q => live q /\ q <> pid) k k'.
Proof.
  intros He Hg k' Hr Hs. assert (procs k' = procs k) as Hp by (unfold procs; by rw Hr).
  assert (pool k' = p) as Hpool by (unfold pool; by rw Hr). split; rw ?Hp ?Hpool; try done.
  - intros i m Hm. destruct (pool_extends_lookup _ _ _ _ He Hm) as (m' & Hm' & Ha & Hin). exists m'. split; [done|]. split; [done|].
    destruct (Hg i m' Hm') as (m0 & Hm0 & _ & Hq). assert (m0 = m) as -> by congruence.
    intros q [_ Hne]. split; [|apply Hin]. intros Hq'. by destruct (Hq q Hq').
  - symmetry. by eapply Forall2_length.
Qed.

Lemma receive_ioctl_mapped e k n id width k' r :
  kinv k -> own_subscriber e k n id -> agnocast_ioctl_receive_msg e k n id width = (k', r) -> mapped k ->
  mapped k' /\
  quiet (fun q => live q /\ q <> current_tgid e) k k' /\
  match r with Ok (_, infos) => mapped_by (current_tgid e) (pool k') ≡ₚ (shm_addr <$> infos) ++ mapped_by (current_tgid e) (pool k) | _ => True end /\
  match r with Ok (out, _, _) => live (current_tgid e) -> handed_ok (mempool_size_bytes k) (current_tgid e) (pool k') out.*2 | _ => True end /\
  procs k' = procs k /\ pool_grows (current_tgid e) (pool k) (pool k').
Proof.
  intros Hk Hown. unfold agnocast_ioctl_receive_msg.
  destruct (find_topic_for_current e k n) as [w|] eqn:Hf; [|by intros [= <- <-] ?; split_and!; [|apply quiet_same| | | |apply pool_grows_refl]].
  destruct (find_for_current _ _ _ _ _ Hk Hf) as (_ & t & Ht & [O1 O2 _ _ _ _]). rw Ht.
  destruct (find_subscriber_info t id) as [s|] eqn:Hs.
  2: { unfold receive_msg_topic. rw Hs. intros [= <- <-] Hm. rw set_pool_same; [|done].
    split_and!; [done|by apply quiet_same|done|done|done|apply pool_grows_refl]. }
  pose proof (find_subscriber_info_Some _ _ _ Hs) as [Hin Hid]. subst id.
  pose proof (Hown w t s Hf Ht Hs) as Hpid.
  destruct (receive_msg_topic _ _ _ _ _ _ _ _ _) as [[t' p'] r'] eqn:Hrun. intros [= <- <-] Hm.
  destruct (receive_mapped live (domain_rule_htable k) (procs k) (mempool_size_bytes k) (kmalloc_ok e) (pid_vnr_of e) (pool k) t
    (wrapper_domain_id w) s width t' p' r' O1 O2 (kinv_pools_present _ k t Hk) Hs) as (H1 & H2 & H3 & H3' & H4);
    [by eapply current_domain|intros proc; by apply own_pool|exact Hrun|by eapply Hm|].
  rewrite Hpid in H3 H3' H4. split_and!.
  - intros b tb Hb. simpl in Hb. apply lookup_insert_Some in Hb as [(<- & <-)|(Hne & Hb)]; [exact H1|].
    eapply mapped_extends; [exact H2|by eapply Hm].
  - by apply (extends_quiet _ k p').
  - by destruct r' as [[[out again] infos]|err|].
  - by destruct r' as [[[out again] infos]|err|].
  - done.
  - exact H3.
Qed.

Lemma take_ioctl_mapped e k n id allow width k' r :
  kinv k -> own_subscriber e k n id -> agnocast_ioctl_take_msg e k n id allow width = (k', r) -> mapped k ->
  mapped k' /\
  quiet (fun q => live q /\ q <> current_tgid e) k k' /\
  match r with Ok (_, infos) => mapped_by (current_tgid e) (pool k') ≡ₚ (shm_addr <$> infos) ++ mapped_by (current_tgid e) (pool k) | _ => True end /\
  match r with
  | Ok (out, _) => live (current_tgid e) -> take_addr out <> 0 ->
      handed_ok (mempool_size_bytes k) (current_tgid e) (pool k') [take_addr out]
  | _ => True
  end /\
  procs k' = procs k /\ pool_grows (current_tgid e) (pool k) (pool k').
Proof.
  intros Hk Hown. unfold agnocast_ioctl_take_msg.
  destruct (find_topic_for_current e k n) as [w|] eqn:Hf; [|by intros [= <- <-] ?; split_and!; [|apply quiet_same| | | |apply pool_grows_refl]].
  destruct (find_for_current _ _ _ _ _ Hk Hf) as (_ & t & Ht & [O1 O2 _ _ _ _]). rw Ht.
  destruct (find_subscriber_info t id) as [s|] eqn:Hs.
  2: { unfold take_msg_topic. rw Hs. intros [= <- <-] Hm. rw set_pool_same; [|done].
    split_and!; [done|by apply quiet_same|done|done|done|apply pool_grows_refl]. }
  pose proof (find_subscriber_info_Some _ _ _ Hs) as [Hin Hid]. subst id.
  pose proof (Hown w t s Hf Ht Hs) as Hpid.
  destruct (take_msg_topic _ _ _ _ _ _ _ _ _ _) as [[t' p'] r'] eqn:Hrun. intros [= <- <-] Hm.
  destruct (take_mapped live (domain_rule_htable k) (procs k) (mempool_size_bytes k) (kmalloc_ok e) (pid_vnr_of e) (pool k) t
    (wrapper_domain_id w) s allow width t' p' r' O1 O2 (kinv_pools_present _ k t Hk) Hs) as (H1 & H2 & H3 & H3' & H4);
    [by eapply current_domain|intros proc; by apply own_pool|exact Hrun|by eapply Hm|].
  rewrite Hpid in H3 H3' H4. split_and!.
  - intros b tb Hb. simpl in Hb. apply lookup_insert_Some in Hb as [(<- & <-)|(Hne & Hb)]; [exact H1|].
    eapply mapped_extends; [exact H2|by eapply Hm].
  - by apply (extends_quiet _ k p').
  - by destruct r' as [[out infos]|err|].
  - by destruct r' as [[out infos]|err|].
  - done.
  - exact H3.
Qed.

(** ** Lemmas: the registry *)

Lemma find_process_unique (ps : list process_info) q : NoDup (global_pid <$> ps) -> q ∈ ps ->
  agnocast_find_process_info ps (global_pid q) = Some q.
Proof.
  intros Hd Hq. rw agnocast_find_process_info_eq -(find_key_unique global_pid q _ Hd Hq).
  apply find_ext. intros x _. destruct (Z.eqb_spec (global_pid x) (global_pid q)); [by rw bool_decide_true|by rw bool_decide_false].
Qed.

(** The pools after a call that forgets the process [gone], if any. *)
Definition pool_without (gone : option Z) (pool : list mempool_entry) : list mempool_entry :=
  match gone with Some g => free_memory pool g | None => pool end.

Lemma pool_without_lookup gone pool i m : pool_wf pool -> pool !! i = Some m ->
  exists m', pool_without gone pool !! i = Some m' /\ addr m' = addr m /\
    forall q, q ∈ mapped_pids m' <-> q ∈ mapped_pids m /\ gone <> Some q.
Proof.
  intros Hwf Hi. destruct gone as [g|]; simpl.
  - exists (free_entry g m). split; [unfold free_memory; by rw list_lookup_fmap Hi|]. split; [apply free_entry_addr|].
    intros q. rw free_entry_mapped; [naive_solver|]. exact (Forall_lookup_1 _ _ _ _ Hwf Hi).
  - exists m. split; [done|]. split; [done|]. naive_solver.
Qed.

Lemma length_pool_without gone pool : length (pool_without gone pool) = length pool.
Proof. destruct gone; [|done]. unfold pool_without, free_memory. by rw length_fmap. Qed.

Lemma pool_without_back gone pool i m' : pool_wf pool -> pool_without gone pool !! i = Some m' ->
  exists m, pool !! i = Some m /\ addr m' = addr m /\ forall q, q ∈ mapped_pids m' <-> q ∈ mapped_pids m /\ gone <> Some q.
Proof.
  intros Hwf Hi. assert (is_Some (pool !! i)) as [m Em].
  { apply lookup_lt_is_Some. rw -(length_pool_without gone). by eapply lookup_lt_Some. }
  destruct (pool_without_lookup gone _ _ _ Hwf Em) as (m2 & Em2 & Hr). exists m. assert (m2 = m') as -> by congruence. by split.
Qed.

(** A registry call that lets the entries of running processes be; [gone] is the process it forgets. *)
Lemma registry_quiet k k' gone :
  kinv k -> NoDup (global_pid <$> procs k') ->
  (forall q', q' ∈ procs k' -> exited q' = false -> exists q, q ∈ procs k /\ exited q = false /\
     global_pid q' = global_pid q /\ proc_mempool q' = proc_mempool q) ->
  (forall q, q ∈ procs k -> exited q = false -> gone <> Some (global_pid q) ->
     exists q', q' ∈ procs k' /\ global_pid q' = global_pid q /\ exited q' = false /\
       (role q <> PROCESS_ROLE_UNLINK_DAEMON -> role q' <> PROCESS_ROLE_UNLINK_DAEMON) /\
       proc_mempool q' = proc_mempool q /\ proc_domain_id q' = proc_domain_id q) ->
  (forall q, live q -> exists i, registered (procs k) q i) -> (forall g, gone = Some g -> ~ live g) ->
  pool k' = pool_without gone (pool k) ->
  mempool_size_bytes k' = mempool_size_bytes k -> topics k' = topics k -> domain_rule_htable k' = domain_rule_htable k ->
  mapped k -> mapped k' /\ quiet live k k' /\ (pool_owned k -> pool_owned k').
Proof.
  intros Hk Hnd' Hback Hfwd Hreg Hgone Hpool Hsize Hts Hrules Hm. pose proof (rw_pids _ _ (ki_reg _ _ Hk)) as Hnd.
  change (proc_info_htable (reg k)) with (procs k) in Hnd.
  assert (forall q, live q -> gone <> Some q) as Hlg by (intros q Hl Hg; by apply (Hgone q)).
  assert (procs_keep live (fun _ => False) (procs k) (procs k')) as Hkeep.
  { split.
    - intros q Hl. destruct (Hreg q Hl) as (i & x & Hf & He & Hrole & _).
      pose proof (find_process_info_Some _ _ _ Hf) as [Hin <-].
      destruct (Hfwd x Hin He (Hlg _ Hl)) as (x' & Hin' & Hg' & _ & _ & _ & Hdom).
      unfold get_process_domain_id. rw Hf. rw -Hg'. by rw (find_process_unique _ _ Hnd' Hin').
    - intros q x' Hf He _. pose proof (find_process_info_Some _ _ _ Hf) as [Hin <-].
      destruct (Hback x' Hin He) as (x & Hx & Hex & Hg & Hmem). exists x. rw Hg. split; [by apply find_process_unique|done]. }
  pose proof (kinv_pool_wf _ _ Hk) as Hpw.
  assert (pool_keep live (pool k) (pool k')) as Hpk.
  { intros i m Hi. rw Hpool. destruct (pool_without_lookup gone _ _ _ Hpw Hi) as (m' & Hi' & Ha & Hq). exists m'. split; [done|].
    split; [done|]. intros q Hl Hin. apply Hq. split; [done|by apply Hlg]. }
  split_and!.
  - intros a t Ht. rw Hrules Hsize. rewrite Hts in Ht.
    apply (topic_mapped_keep live live (fun _ => False) (domain_rule_htable k) _ (procs k) _ (pool k)); auto. by eapply Hm.
  - split; [| |rw Hpool; apply length_pool_without|done].
    + intros q i Hl (x & Hf & He & Hrole & Hi). pose proof (find_process_info_Some _ _ _ Hf) as [Hin <-].
      destruct (Hfwd x Hin He (Hlg _ Hl)) as (x' & Hin' & Hg' & He' & Hr' & Hmem & _).
      exists x'. rw -Hg'. split; [by apply find_process_unique|]. split; [done|]. split; [auto|congruence].
    + intros i m Hi. rw Hpool. destruct (pool_without_lookup gone _ _ _ Hpw Hi) as (m' & Hi' & Ha & Hq). exists m'. split; [done|].
      split; [done|]. intros q Hl. rw Hq. specialize (Hlg q Hl). tauto.
  - intros Hown i m' q Hi Hin. rewrite Hpool in Hi. destruct (pool_without_back _ _ _ _ Hpw Hi) as (m & Hm0 & Ha & Hq). destruct (proj1 (Hq _) Hin) as [Hin0 Hng].
    destruct (Hown i m q Hm0 Hin0) as (x & Hf & He). pose proof (find_process_info_Some _ _ _ Hf) as [Hx <-].
    destruct (Hfwd x Hx He Hng) as (x' & Hin' & Hg' & He' & _). exists x'. rw -Hg'. split; [by apply find_process_unique|done].
Qed.

Lemma demote_mapped k g agents :
  kinv k -> (forall q, live q -> exists i, registered (procs k) q i) -> mapped k ->
  let k' := set_reg (Registry (hash_upd (fun p => global_pid p =? g) demote (procs k)) agents (pool k)) k in
  mapped k' /\ quiet live k k' /\ (pool_owned k -> pool_owned k').
Proof.
  intros Hk Hreg Hm k'. pose proof (rw_pids _ _ (ki_reg _ _ Hk)) as Hnd.
  apply (registry_quiet k k' None); try done.
  - unfold k'. simpl. by rw fmap_hash_upd.
  - intros q' [Hq|(q & Hq & _ & ->)]%elem_of_hash_upd He; [by exists q'|by exists q].
  - intros q Hq He _. destruct (Z.eqb_spec (global_pid q) g) as [Heq|Hne].
    + exists (demote q). unfold k'. simpl. split; [|done]. rw hash_upd_key; [|done].
      apply list_elem_of_fmap. exists q. split; [|done]. by rw (proj2 (Z.eqb_eq _ _) Heq).
    + exists q. split; [|done]. apply elem_of_hash_upd_other; [done|]. by apply Z.eqb_neq.
Qed.

Lemma agents_mapped k agents : mapped k ->
  let k' := set_reg (Registry (procs k) agents (pool k)) k in
  mapped k' /\ quiet live k k' /\ (pool_owned k -> pool_owned k').
Proof.
  intros Hm k'. split_and!; [exact Hm| |by intros Ho].
  by apply quiet_same_pool.
Qed.

Lemma elem_of_remove_process ps g q : q ∈ ps -> global_pid q <> g -> q ∈ remove_process ps g.
Proof.
  intros Hq Hne. unfold remove_process. induction ps as [|x ps IH]; simpl; [done|].
  destruct (Z.eqb_spec (global_pid x) g) as [Heq|_].
  - by apply elem_of_cons in Hq as [-> |Hq].
  - apply elem_of_cons in Hq as [-> |Hq]; [by left|right; auto].
Qed.

Lemma commit_exit_mapped k ns caller ps p b :
  kinv k -> (forall q, live q -> exists i, registered (procs k) q i) -> mapped k ->
  agnocast_commit_exit_process (procs k) (pool k) ns (agnocast_ioctl_get_exit_process (procs k) ns).1 caller = (ps, p, b) ->
  let k' := set_reg (Registry ps (discovery_agent_htable (reg k)) p) k in
  mapped k' /\ quiet live k k' /\ (pool_owned k -> pool_owned k').
Proof.
  intros Hk Hreg Hm Hrun k'. pose proof (rw_pids _ _ (ki_reg _ _ Hk)) as Hnd. change (proc_info_htable (reg k)) with (procs k) in Hnd.
  unfold agnocast_commit_exit_process in Hrun. set (g := (agnocast_ioctl_get_exit_process (procs k) ns).1) in *.
  set (ps1 := if 0 <=? g then remove_process (procs k) g else procs k) in *.
  assert (forall q, q ∈ procs k -> exited q = false -> q ∈ ps1) as Hin1.
  { intros q Hq He. unfold ps1. destruct (0 <=? g) eqn:Hg; [|done]. apply elem_of_remove_process; [done|].
    intros Heq. unfold g, agnocast_ioctl_get_exit_process in Heq, Hg.
    destruct (find _ (procs k)) as [x|] eqn:Hf; [|by simpl in Hg]. simpl in Heq.
    apply find_Some_inv in Hf as [Hx Hb]. apply andb_true_iff in Hb as [_ Hb].
    pose proof (find_process_unique _ _ Hnd Hq) as F1. pose proof (find_process_unique _ _ Hnd Hx) as F2.
    rewrite Heq F2 in F1. injection F1 as ->. congruence. }
  assert (ps1 `sublist_of` procs k) as Hsub by (unfold ps1; destruct (0 <=? g); [apply remove_process_sublist|done]).
  assert (NoDup (global_pid <$> ps1)) as Hnd1 by (by eapply sublist_NoDup; [|apply fmap_sublist]).
  assert (forall q', q' ∈ ps1 -> exited q' = false -> exists q, q ∈ procs k /\ exited q = false /\
     global_pid q' = global_pid q /\ proc_mempool q' = proc_mempool q) as Hback1.
  { intros q' Hq' He. exists q'. split; [by eapply elem_of_sublist|done]. }
  assert (ps = ps1 /\ p = pool k -> mapped k' /\ quiet live k k' /\ (pool_owned k -> pool_owned k')) as Hsame.
  { intros [-> ->]. apply (registry_quiet k k' None); try done. intros q Hq He _. exists q. split; [by apply Hin1|done]. }
  destruct (_ && _ && _); [|injection Hrun as <- <- _; by apply Hsame].
  destruct (agnocast_find_process_info ps1 caller) as [c|] eqn:Hc; [|injection Hrun as <- <- _; by apply Hsame].
  case_bool_decide as Hrole; [|injection Hrun as <- <- _; by apply Hsame]. injection Hrun as <- <- _.
  pose proof (find_process_info_Some _ _ _ Hc) as [Hcin Hcpid].
  apply (registry_quiet k k' (Some caller)); try done.
  - unfold k'. simpl. eapply sublist_NoDup; [exact Hnd1|apply fmap_sublist, remove_process_sublist].
  - intros q' Hq' He. apply Hback1; [|done]. eapply elem_of_sublist; [exact Hq'|apply remove_process_sublist].
  - intros q Hq He Hne. exists q. split; [|done]. apply elem_of_remove_process; [by apply Hin1|congruence].
  - intros x [= <-] Hl. destruct (Hreg caller Hl) as (i & y & Hf & _ & Hr & _). apply Hr.
    assert (c ∈ procs k) as Hck by (by eapply elem_of_sublist). pose proof (find_process_unique _ _ Hnd Hck) as F1.
    rewrite Hcpid Hf in F1. by injection F1 as ->.
Qed.
End mapped.
