(* ===== verification/KMappedIoctl.v ===== *)
(** * Kernel module: the commands of the device keep the mappings complete

    The invariant of KMapped lifted to the commands of KIoctl and to the cleanup of an exited process: what each leaves
    of the processes that run, and what ADD_PROCESS, RECEIVE_MSG and TAKE_MSG tell their caller about the pools its
    pid maps. *)

From S2P Require Import Prelude Kernel KMempool KTypes KRules KTopic KMessage KCleanup KRegistry.
From S2P Require Import KState KInvariant KSystem KIoctl KMapping KMapped.

(** ** Specification *)

(** A command that neither registers a process nor hands messages out. *)
Definition ordinary (cmd : command) : bool :=
  match cmd with
  | ADD_PROCESS_CMD _ _ | RECEIVE_MSG_CMD _ _ _ | TAKE_MSG_CMD _ _ _ _ => false
  | _ => true
  end.

(** No endpoint of the module bears the pid. *)
Definition pid_unused (k : kstate) (pid : Z) : Prop := forall a t, topics k !! a = Some t ->
  (forall s, s ∈ sub_info_htable t -> sub_pid s <> pid) /\ (forall p, p ∈ pub_info_htable t -> pub_pid p <> pid).

(** ** Lemmas *)

Section commands.
Context `{KernelHash} (pool0 : list mempool_entry) (live : Z -> Prop).
Local Abbreviation kinv := (kinv pool0).
Local Abbreviation mapped := (kmapped live).

Lemma kmapped_weaken (live' : Z -> Prop) k : (forall q, live' q -> live q) -> mapped k -> kmapped live' k.
Proof.
  intros Hl Hm a t Ht. destruct (Hm a t Ht) as [T1 T2 T3]. split; [|auto|done].
  intros s p proc Hs Hls. apply T1; auto.
Qed.

Lemma quiet_weaken_live (live' : Z -> Prop) k k' : (forall q, live' q -> live q) -> quiet live k k' -> quiet live' k k'.
Proof.
  intros Hl [Q1 Q2 Q3 Q4]. split; [auto| |done|done].
  intros i m Hm. destruct (Q2 i m Hm) as (m' & ? & ? & Hq). exists m'. split; [done|]. split; [done|]. auto.
Qed.

(** *** Cleanup of an exited process *)

Lemma release_topics k w k' r : agnocast_release_topic_wrapper k w = (k', r) ->
  same_rest k k' /\ forall a t', topics k' !! a = Some t' -> exists t, topics k !! a = Some t /\ evolves t t'.
Proof.
  unfold agnocast_release_topic_wrapper. set (k0 := set_wrappers _ k).
  assert (same_rest k k0 /\ forall a t', topics k0 !! a = Some t' -> exists t, topics k !! a = Some t /\ evolves t t') as [S0 T0].
  { split; [done|]. intros a t' Ht. exists t'. by split; [|apply evolves_refl]. }
  destruct (topics k0 !! topic w) as [t|] eqn:Ht; [|by intros [= <- _]].
  destruct (_ =? 0).
  - destruct (eventfd_put_all _ _) as [refs|]; intros [= <- _]; [|done]. split; [done|].
    intros a t' Ha. simpl in Ha. apply lookup_delete_Some in Ha as [_ Ha]. by apply T0.
  - intros [= <- _]. split; [done|]. intros a t' Ha. simpl in Ha.
    apply lookup_insert_Some in Ha as [(<- & <-)|(_ & Ha)]; [|by apply T0]. exists t. split; [done|apply refcnt_evolves].
Qed.

Lemma exit_topics_evolve ws pid : forall k k' r, exit_topics ws pid k = (k', r) ->
  same_rest k k' /\ forall a t', topics k' !! a = Some t' -> exists t, topics k !! a = Some t /\ evolves t t'.
Proof.
  induction ws as [|w ws IH]; intros k k' r; cbn [exit_topics].
  { intros [= <- _]. split; [done|]. intros a t' Ht. exists t'. by split; [|apply evolves_refl]. }
  destruct (topics k !! topic w) as [t|] eqn:Ht.
  2: { intros [= <- _]. split; [done|]. intros a t' Ha. exists t'. by split; [|apply evolves_refl]. }
  destruct (process_exit_topic _ _ _ _) as [t' puts] eqn:Hrun. apply process_exit_evolves in Hrun.
  set (k1 := put_topic (topic w) t' k).
  assert (forall a x', topics k1 !! a = Some x' -> exists x, topics k !! a = Some x /\ evolves x x') as T1.
  { intros a x' Ha. simpl in Ha. apply lookup_insert_Some in Ha as [(<- & <-)|(_ & Ha)]; [by exists t|].
    exists x'. by split; [|apply evolves_refl]. }
  destruct (eventfd_put_all _ _) as [refs|]; [|by intros [= <- _]].
  destruct (release_if_empty (set_eventfds refs k1) w) as [k2 r2] eqn:Hrel.
  assert (same_rest k k2 /\ forall a x', topics k2 !! a = Some x' -> exists x, topics k !! a = Some x /\ evolves x x') as [S2 T2].
  { unfold release_if_empty in Hrel. destruct (topics (set_eventfds refs k1) !! topic w); [|by injection Hrel as <- _].
    destruct (agnocast_wrapper_has_domain_endpoints _ _); [by injection Hrel as <- _|].
    apply release_topics in Hrel as [[R1 R2 R3 R4] Hts]. split; [by split|].
    intros a x' Ha. destruct (Hts a x' Ha) as (x & Hx & E1). destruct (T1 a x Hx) as (y & Hy & E2).
    exists y. split; [done|by eapply evolves_trans]. }
  destruct r2 as [[]|err|]; [|by intros [= <- _]..].
  intros [S3 T3]%IH. split; [by eapply same_rest_trans|].
  intros a x' Ha. destruct (T3 a x' Ha) as (x & Hx & E1). destruct (T2 a x Hx) as (y & Hy & E2).
  exists y. split; [done|by eapply evolves_trans].
Qed.

Lemma exit_registered_mapped k pid ps p agents :
  kinv k -> (forall q, live q -> exists i, registered (procs k) q i) -> ~ live pid -> mapped k ->
  exit_registered (procs k) (pool k) pid = Some (ps, p) ->
  let k' := set_reg (Registry ps agents p) k in
  mapped k' /\ quiet live k k' /\ (pool_owned k -> pool_owned k').
Proof.
  intros Hk Hreg Hnl Hm Hrun k'. pose proof (rw_pids _ _ (ki_reg _ _ Hk)) as Hnd. change (proc_info_htable (reg k)) with (procs k) in Hnd.
  unfold exit_registered in Hrun. destruct (agnocast_find_process_info (procs k) pid) as [x|] eqn:Hx; [|done].
  pose proof (find_process_info_Some _ _ _ Hx) as [Hxin Hxpid]. injection Hrun as Hps <-.
  apply (registry_quiet pool0 live k k' (Some pid)); try done; [| | |by intros g [= <-]].
  - unfold k'. simpl. rw -Hps. case_bool_decide; [|by rw fmap_hash_upd].
    eapply sublist_NoDup; [exact Hnd|apply fmap_sublist, remove_process_sublist].
  - unfold k'. simpl. rewrite -Hps. intros q' Hq' He. case_bool_decide.
    + exists q'. split; [|done]. eapply elem_of_sublist; [exact Hq'|apply remove_process_sublist].
    + apply elem_of_hash_upd in Hq' as [Hq'|(q & Hq & _ & ->)]; [by exists q'|done].
  - unfold k'. simpl. intros q Hq He Hne. exists q. split; [|done]. rw -Hps.
    assert (global_pid q <> pid) as Hne' by congruence. case_bool_decide; [by apply elem_of_remove_process|].
    apply elem_of_hash_upd_other; [done|]. by apply Z.eqb_neq.
Qed.

Lemma quiet_step_trans k1 k2 k3 : quiet live k1 k2 -> quiet live k2 k3 -> quiet live k1 k3.
Proof.
  intros [A1 A2 A3 A4] [B1 B2 B3 B4]. split; [auto| |congruence|congruence].
  intros i m Hm. destruct (A2 i m Hm) as (m2 & H2 & E2 & Q2). destruct (B2 i m2 H2) as (m3 & H3 & E3 & Q3).
  exists m3. split; [done|]. split; [congruence|]. intros q Hl. by rw Q3 // Q2.
Qed.

Lemma cleanup_mapped k pid k' r :
  kinv k -> (forall q, live q -> exists i, registered (procs k) q i) -> ~ live pid -> mapped k ->
  agnocast_process_exit_cleanup k pid = (k', r) -> mapped k' /\ quiet live k k' /\ (pool_owned k -> pool_owned k').
Proof.
  intros Hk Hreg Hnl Hm. unfold agnocast_process_exit_cleanup. set (agents := agnocast_remove_discovery_agent_by_pid _ _).
  destruct (exit_registered (procs k) (pool k) pid) as [[ps p]|] eqn:He; [|intros [= <- _]; by apply agents_mapped].
  pose proof (exit_registered_mapped k pid ps p agents Hk Hreg Hnl Hm He) as He1. cbv zeta in He1.
  set (k1 := set_reg _ k) in *. destruct He1 as (M1 & Q1 & O1).
  destruct (exit_topics _ pid k1) as [k2 r2] eqn:Hex. apply exit_topics_evolve in Hex as [S2 T2].
  assert (mapped k2 /\ quiet live k k2 /\ (pool_owned k -> pool_owned k2)) as (M2 & Q2 & O2).
  { split_and!.
    - apply (evolve_mapped live k1 k2); [done| |done]. intros a t' Ha. left. by apply T2.
    - eapply quiet_step_trans; [exact Q1|by apply same_rest_quiet].
    - intros Ho. specialize (O1 Ho). intros i m q. unfold pool, procs. rw (sr_reg _ _ S2). by apply O1. }
  assert (forall b, mapped (set_bridges b k2) /\ quiet live k (set_bridges b k2) /\ (pool_owned k -> pool_owned (set_bridges b k2))) as Hb.
  { intros b. split_and!; [exact M2| |exact O2]. destruct Q2. by split. }
  destruct r2 as [[]|err|]; intros [= <- _]; [by apply Hb|by split_and!|by split_and!].
Qed.
(** *** Registration *)

(** The pools after [pid] was given one that nobody mapped, if it was. *)
Definition assigned (p0 p : list mempool_entry) (pid : Z) (r : option nat) : Prop :=
  match r with
  | Some i => exists m, p0 !! i = Some m /\ mapped_pids m = [] /\ p = <[i := MempoolEntry (addr m) 1 [pid]]> p0
  | None => p = p0
  end.

Lemma assign_assigned al p0 p pid r : pool_wf p0 -> assign_memory al p0 pid = (r, p) -> assigned p0 p pid r.
Proof.
  intros Hwf Ha. pose proof (assign_memory_addr _ _ _ _ _ Ha) as Haddrs. apply assign_memory_inv in Ha; [|done].
  destruct r as [i|]; [|by destruct Ha as [-> _]]. destruct Ha as (m & H1 & H2 & H3 & H4 & _). exists m. split_and!; try done.
  apply list_eq. intros j. destruct (decide (j = i)) as [->|Hne].
  - rw H3 list_lookup_insert_eq; [done|by eapply lookup_lt_Some].
  - rw H4 // list_lookup_insert_ne //.
Qed.

Lemma assigned_pool p0 p pid r i m : assigned p0 p pid r -> p0 !! i = Some m ->
  exists m', p !! i = Some m' /\ addr m' = addr m /\ forall q, q <> pid \/ r = None -> q ∈ mapped_pids m' <-> q ∈ mapped_pids m.
Proof.
  intros Has Hi. destruct r as [j|]; [|simpl in Has; subst p; by exists m].
  destruct Has as (mj & Hj & Hnil & ->). destruct (decide (j = i)) as [->|Hne].
  - eexists. rw list_lookup_insert_eq; [|by eapply lookup_lt_Some]. split; [done|]. rewrite Hj in Hi. injection Hi as ->.
    split; [done|]. simpl. rw Hnil. intros q [Hq|?]; [|done]. rw list_elem_of_singleton. split; [done|]. intros Hin.
    by apply not_elem_of_nil in Hin.
  - exists m. rw list_lookup_insert_ne //.
Qed.

Lemma assigned_back p0 p pid r j m' q : assigned p0 p pid r -> p !! j = Some m' -> q ∈ mapped_pids m' ->
  (exists m, p0 !! j = Some m /\ q ∈ mapped_pids m) \/ q = pid /\ r <> None.
Proof.
  intros Has Hj Hq. destruct r as [i|]; [|simpl in Has; subst p; left; by exists m'].
  destruct Has as (m & Hm & Hnil & ->). destruct (decide (i = j)) as [->|Hne].
  - rewrite list_lookup_insert_eq in Hj; [|by eapply lookup_lt_Some]. injection Hj as <-.
    apply list_elem_of_singleton in Hq. by right.
  - rewrite list_lookup_insert_ne in Hj; [|done]. left. by exists m'.
Qed.

(** The registry and the pools after a process has, or has not, joined. *)
Record joined (k : kstate) (ps : list process_info) (p : list mempool_entry) (pid : Z) (o : option nat) : Prop := {
  jo_pool : assigned (pool k) p pid o;
  jo_pids : NoDup (global_pid <$> ps);
  jo_procs : o = None /\ ps = procs k \/ exists i x, o = Some i /\ global_pid x = pid /\ exited x = false /\
    agnocast_find_process_info (procs k) pid = None /\ ps = hash_add proc_bucket x (procs k)
}.

(** What the caller is told: the pool is the only one its pid maps. *)
Definition registered_at (k' : kstate) (pid a : Z) : Prop :=
  (exists i, registered (procs k') pid i) /\ mapped_by pid (pool k') = [a].

Section joining.
Variables (k : kstate) (ps : list process_info) (p : list mempool_entry) (pid : Z).
Local Abbreviation after := (set_reg (Registry ps (discovery_agent_htable (reg k)) p) k).
Hypothesis Hk : kinv k.
Hypothesis Hreg : forall q, live q -> exists i, registered (procs k) q i.

Lemma joined_other o q : joined k ps p pid o -> q <> pid -> agnocast_find_process_info ps q = agnocast_find_process_info (procs k) q.
Proof.
  intros [_ _ Hps] Hq. destruct Hps as [[_ ->]|(i & x & _ & Hx & _ & _ & ->)]; [done|].
  rw !agnocast_find_process_info_eq. apply find_hash_add_other. apply Z.eqb_neq. congruence.
Qed.

Lemma joined_same o q x : joined k ps p pid o -> agnocast_find_process_info (procs k) q = Some x ->
  agnocast_find_process_info ps q = Some x.
Proof.
  intros Hj Hf. pose proof Hj as [_ _ [[_ ->]|(i & y & _ & _ & _ & Hn & _)]]; [done|].
  rw (joined_other o); [done|done|]. intros ->. congruence.
Qed.

Lemma joined_live o q : joined k ps p pid o -> live q -> q <> pid \/ o = None.
Proof.
  intros [_ _ Hps] Hl. destruct Hps as [[? _]|(i & y & _ & _ & _ & Hn & _)]; [by right|left; intros ->].
  destruct (Hreg pid Hl) as (j & x & Hf & _). congruence.
Qed.

Lemma joined_mapped o : joined k ps p pid o -> pid_unused k pid -> mapped k -> kmapped (fun q => q = pid \/ live q) after.
Proof.
  intros Hj Hun Hm a t Ht.
  apply (topic_mapped_keep live _ (fun q => q = pid) (domain_rule_htable k) _ (procs k) _ (pool k)); auto.
  - by apply Hun in Ht as [? _].
  - by apply Hun in Ht as [_ ?].
  - split.
    + intros q Hl. destruct (Hreg q Hl) as (i & x & Hf & _). unfold get_process_domain_id. by rw Hf (joined_same o q x).
    + intros q q' Hf He Hne. exists q'. split; [|done]. by rw -(joined_other o).
  - intros i m Hi. destruct (assigned_pool _ _ _ _ i m (jo_pool _ _ _ _ _ Hj) Hi) as (m' & Hi' & Ha & Hq). exists m'. split; [done|].
    split; [done|]. intros q Hl Hin. apply Hq; [by eapply joined_live|done].
  - by eapply Hm.
Qed.

Lemma joined_quiet o : joined k ps p pid o -> quiet live k after.
Proof.
  intros Hj. split; [| | |done].
  - intros q i Hl (x & Hf & Hr). exists x. split; [by eapply joined_same|done].
  - intros i m Hi. destruct (assigned_pool _ _ _ _ i m (jo_pool _ _ _ _ _ Hj) Hi) as (m' & Hi' & Ha & Hq). exists m'. split; [done|].
    split; [done|]. intros q Hl. apply Hq. by eapply joined_live.
  - change (pool after) with p. pose proof (jo_pool _ _ _ _ _ Hj) as Hp. destruct o as [i|]; [|by rw Hp].
    destruct Hp as (m & _ & _ & ->). by rw length_insert.
Qed.

Lemma joined_owned o : joined k ps p pid o -> pool_owned k -> pool_owned after.
Proof.
  intros Hj Hown i m' q Hi Hq. destruct (assigned_back _ _ _ _ _ _ _ (jo_pool _ _ _ _ _ Hj) Hi Hq) as [(m & Hm & Hin)|[-> Hno]].
  - destruct (Hown i m q Hm Hin) as (x & Hf & He). exists x. split; [by eapply joined_same|done].
  - pose proof Hj as [_ Hnd [[Hn _]|(j & y & _ & <- & Ey & _ & Hy)]]; [congruence|]. exists y. split; [|done].
    apply find_process_unique; [done|]. change (procs after) with ps. rw Hy. apply elem_of_hash_add. by left.
Qed.

Lemma add_process_joined e r role_arg domain ns : valid_pid pid ->
  agnocast_ioctl_add_process e (procs k) (discovery_agent_htable (reg k)) (pool k) (mempool_size_bytes k) pid ns role_arg domain = (ps, p, r) ->
  exists o, joined k ps p pid o.
Proof.
  intros Hv Hrun. pose proof (kinv_pool_wf _ _ Hk) as Hpw.
  assert (registry_wf pool0 (Registry ps (discovery_agent_htable (reg k)) p)) as Hwf'.
  { eapply add_process_wf; [|exact Hv|exact Hrun]. unfold procs, pool. pose proof (ki_reg _ _ Hk). by destruct (reg k). }
  pose proof (rw_pids _ _ Hwf') as Hnd.
  apply add_process_cases in Hrun as [(rl & i & m & _ & Hf & _ & _ & _ & Ha & _ & Hps & _)|(Hps & Hp & _)].
  - exists (Some i). split; [by eapply assign_assigned|done|right]. eexists i, _. split_and!; cycle -1; [exact Hps|done..|exact Hf].
  - destruct Hp as [Hp|[Ha|(i & Ha & Hi)]].
    + exists None. split; [done|done|by left].
    + exists None. split; [by eapply assign_assigned|done|by left].
    + apply assign_assigned in Ha as (m & Hm & _ & Hp); [|done]. rewrite Hp list_lookup_insert_eq in Hi; [done|by eapply lookup_lt_Some].
Qed.

(** What a successful registration tells its caller. *)
Lemma add_process_told e ret role_arg domain ns a size : valid_pid pid -> pool_owned k ->
  agnocast_ioctl_add_process e (procs k) (discovery_agent_htable (reg k)) (pool k) (mempool_size_bytes k) pid ns role_arg domain = (ps, p, Ok ret) ->
  ret_mempool ret = Some (a, size) ->
  size = mempool_size_bytes k /\ (process_role_of role_arg <> Some PROCESS_ROLE_UNLINK_DAEMON -> registered_at after pid a).
Proof.
  intros Hv Hown Hrun Hret. destruct (add_process_joined _ _ _ _ _ Hv Hrun) as (o & Hj).
  apply add_process_cases in Hrun as [(rl & i & m & Hrl & Hf & _ & _ & _ & Ha & Hi & Hps & [= ->])|(_ & _ & [Hn _])]; [|congruence].
  simpl in Hret. injection Hret as <- <-. split; [done|]. intros Hd.
  apply assign_assigned in Ha as (m0 & Hm0 & Hnil & Hp); [|by apply (kinv_pool_wf pool0)]. split.
  - set (x := ProcessInfo _ _ _ _ _ _ _) in Hps. exists i, x. split.
    + apply (find_process_unique _ x); [by eapply jo_pids|]. change (procs after) with ps. rw Hps. apply elem_of_hash_add. by left.
    + split_and!; [done| |done]. simpl. intros ->. by apply Hd.
  - assert (mapped_by pid (pool k) = []) as Hnone.
    { destruct (mapped_by pid (pool k)) as [|b l] eqn:E; [done|]. exfalso.
      assert (b ∈ mapped_by pid (pool k)) as Hb by (rw E; by left).
      apply elem_of_mapped_by in Hb as (j & mj & Hj' & Hin & _). destruct (Hown j mj pid Hj' Hin) as (y & Hy & _). congruence. }
    change (pool after) with p. apply Permutation_singleton_r.
    assert (addr m = addr m0) as ->. { rewrite Hp list_lookup_insert_eq in Hi; [by injection Hi as <-|by eapply lookup_lt_Some]. }
    rw Hp (mapped_by_insert pid (pool k) i m0 _ Hm0); [by rw Hnone|by rw Hnil; apply not_elem_of_nil|by left].
Qed.
End joining.

(** *** Commands *)

Section ordinary.
Variables (u : user) (k : kstate).
Hypothesis Hk : kinv k.
Hypothesis Hm : mapped k.
Hypothesis Hreg : forall q, live q -> exists i, registered (procs k) q i.
Hypothesis Hsize : 0 <= mempool_size_bytes k.
Hypothesis Haddr : Forall (fun m => 0 <= addr m) pool0.

Definition kept (k' : kstate) : Prop :=
  mapped k' /\ quiet live k k' /\ (pool_owned k -> pool_owned k').

Lemma kept_same : kept k.
Proof. split_and!; [done|by apply quiet_same|done]. Qed.

Lemma kept_reply {A} n (f : A -> reply) kr : kept kr.1 -> kept (reply_if_ok u n f kr).1.
Proof. destruct kr as [k' [a|err|]]; unfold reply_if_ok; [destruct (copy_ok u n)|..]; done. Qed.

Lemma kept_no_reply kr : kept kr.1 -> kept (no_reply kr).1.
Proof. by destruct kr as [k' [[]|err|]]. Qed.

Lemma kept_name n size src body : (forall name, kept (body name).1) -> kept (with_name u k n size src body).1.
Proof. intros Hb. unfold with_name. destruct (copy_name_from_user _ _ _); [apply Hb|apply kept_same..]. Qed.

Lemma kept_require {A} (b : bool) (kr : kstate * res A) err : kept kr.1 -> kept (if b then kr else (k, Err err)).1.
Proof. intros Hb. destruct b; [done|apply kept_same]. Qed.

(** A call that leaves the registry alone. *)
Lemma kept_topics k' : mapped k' /\ same_reg k k' -> kept k'.
Proof.
  intros [Hm' [Hr Hs]]. split_and!; [done|by apply quiet_same|]. intros Ho i m q. unfold pool, procs. rw Hr. by apply Ho.
Qed.

Lemma kept_eq (A : Type) (kr : kstate * A) : (forall k' r, kr = (k', r) -> mapped k' /\ same_reg k k') -> kept kr.1.
Proof. destruct kr as [k' r]. intros Hc. eapply kept_topics, Hc. done. Qed.

Lemma kept_rest k' : reg k' = reg k -> mempool_size_bytes k' = mempool_size_bytes k -> topics k' = topics k ->
  domain_rule_htable k' = domain_rule_htable k -> kept k'.
Proof.
  intros Hr Hs Ht Hd. apply kept_topics. split; [|done]. intros a t Ha. rewrite Ht in Ha.
  unfold procs, pool. rw Hr Hd Hs. by eapply Hm.
Qed.

Lemma pool_addrs : Forall (fun m => 0 <= addr m) (pool k).
Proof.
  pose proof (rw_addrs _ _ (ki_reg _ _ Hk)) as Ha. change (mempool_entries (reg k)) with (pool k) in Ha.
  assert (Forall (fun a => 0 <= a) (addr <$> pool k)) as HF by (rw Ha; by apply Forall_fmap).
  rewrite Forall_fmap in HF. exact HF.
Qed.

Lemma publish_kept n id a : kept (publish_msg_cmd u k n id a).1.1.
Proof.
  unfold publish_msg_cmd. destruct (copy_ok u 0%nat); [|exact kept_same].
  destruct (copy_name_from_user _ _ _) as [s|err|]; [|exact kept_same..].
  destruct (agnocast_ioctl_publish_msg _ _ _ _ _) as [[k1 s1] r1] eqn:Hrun.
  pose proof (publish_mapped pool0 live _ _ _ _ _ _ _ _ Hk Hsize pool_addrs Hrun Hm) as Hp.
  pose proof (kept_reply 2 PublishReply (k1, r1) (kept_topics _ Hp)) as Hr.
  by destruct (reply_if_ok _ _ _ _) as [k2 r2].
Qed.

Lemma exit_process_kept : kept (get_exit_process_cmd u k).1.
Proof.
  unfold get_exit_process_cmd. destruct (agnocast_ioctl_get_exit_process _ _) as [g l] eqn:Hg.
  apply kept_require. destruct (agnocast_commit_exit_process _ _ _ _ _) as [[ps p] b] eqn:Hr.
  pose proof (commit_exit_mapped pool0 live k (current_ipc_ns (kernel_env u)) (current_tgid (kernel_env u))
    ps p b Hk Hreg Hm) as Hc. rw Hg in Hc. exact (Hc Hr).
Qed.

Lemma shutdown_kept : kept (check_and_request_bridge_shutdown_cmd u k).1.
Proof.
  unfold check_and_request_bridge_shutdown_cmd, agnocast_ioctl_check_and_request_bridge_shutdown.
  destruct (_ <=? 1); simpl; [by eapply demote_mapped|by apply agents_mapped].
Qed.

Ltac call := 
  apply kept_require; repeat (apply kept_name; intros ?); first [apply kept_reply|apply kept_no_reply]; apply kept_eq; intros k' r.

(** Whatever an ordinary command does, every running process keeps what it has mapped, and no more is due to it. *)
Lemma ordinary_kept cmd : ordinary cmd = true -> kept (agnocast_ioctl u k cmd).1.1.
Proof.
  destruct cmd; intros Hc; try done; cbn [agnocast_ioctl fst].
  - call. intros E. by eapply (add_subscriber_mapped pool0).
  - call. intros E. by eapply (add_publisher_mapped pool0).
  - call. intros E. by eapply (release_reference_mapped pool0).
  - apply publish_kept.
  - apply exit_process_kept.
  - call. intros E. by eapply (remove_subscriber_mapped pool0).
  - call. intros E. by eapply (remove_publisher_mapped pool0).
  - unfold add_bridge_cmd. destruct (copy_ok u 0%nat); [|apply kept_same].
    destruct (copy_name_from_user _ _ _); [|apply kept_same..].
    destruct (agnocast_ioctl_add_bridge _ _ _ _ _ _) as [[b ret] r].
    assert (kept (set_bridges b k)) as Hb by (by apply kept_rest).
    destruct ret; [destruct (copy_ok u 2%nat)|]; exact Hb.
  - apply kept_require, kept_name. intros name. destruct (agnocast_ioctl_remove_bridge _ _ _ _ _) as [b r].
    apply kept_no_reply. by apply kept_rest.
  - call. intros E. eapply (rules_added_mapped pool0); [done|by eapply add_domain_bridge_rules|done].
  - call. intros E. eapply (rules_added_mapped pool0); [done|by eapply add_domain_bridge_prefix_rules|done].
  - apply shutdown_kept.
  - call. intros E. eapply (set_ros2_mapped pool0); [done|by left|done].
  - call. intros E. eapply (set_ros2_mapped pool0); [done|by right|done].
  - by eapply demote_mapped.
  - unfold discovery_agent_should_exit_cmd. destruct (copy_ok u 0%nat); [|apply kept_same].
    destruct (agnocast_ioctl_discovery_agent_should_exit _ _ _ _ _ _) as [ags b]. by apply agents_mapped.
  - unfold add_discovery_agent_cmd. destruct (copy_ok u 0%nat); [|apply kept_same].
    destruct (agnocast_ioctl_add_discovery_agent _ _ _ _ _) as [ags r]. by apply agents_mapped.
Qed.
End ordinary.

(** *** Commands that hand messages out *)

Definition infos_of (r : res reply) : option (list publisher_shm_info) :=
  match r with
  | Ok (ReceiveReply (_, infos)) | Ok (TakeReply (_, infos)) => Some infos
  | _ => None
  end.

(** The addresses a reply hands out; [take] hands none with a null address. *)
Definition addresses_of (r : res reply) : list Z :=
  match r with
  | Ok (ReceiveReply (out, _, _)) => out.*2
  | Ok (TakeReply (out, _)) => if take_addr out =? 0 then [] else [take_addr out]
  | _ => []
  end.

(** What a call that hands messages out leaves: the pools mapped anew by the caller are in its reply. *)
Definition handing_kept (u : user) (k k' : kstate) (r : res reply) : Prop :=
  let pid := current_tgid (kernel_env u) in
  mapped k' /\ quiet (fun q => live q /\ q <> pid) k k' /\ procs k' = procs k /\ (pool_owned k -> pool_owned k') /\
  (forall infos, infos_of r = Some infos -> mapped_by pid (pool k') ≡ₚ (shm_addr <$> infos) ++ mapped_by pid (pool k)) /\
  handed_ok (mempool_size_bytes k) pid (pool k') (addresses_of r).

Lemma grows_owned k k' pid i : procs k' = procs k -> registered (procs k) pid i ->
  pool_grows pid (pool k) (pool k') -> pool_owned k -> pool_owned k'.
Proof.
  intros Hp (x & Hf & He & _) Hg Ho j m' q Hj Hq. rw Hp. destruct (Hg j m' Hj) as (m & Hm & _ & Hq').
  destruct (Hq' q Hq) as [Hin| ->]; [by eapply Ho|]. by exists x.
Qed.

Section handing.
Variables (u : user) (k : kstate).
Local Abbreviation me := (current_tgid (kernel_env u)).
Hypothesis Hk : kinv k.
Hypothesis Hm : mapped k.
Hypothesis Hlive : live me.
Hypothesis Hreg : exists i, registered (procs k) me i.

Lemma handing_same r : infos_of r = None -> handing_kept u k k r.
Proof.
  intros Hr. split_and!; [done|by apply quiet_same|done|done|by rw Hr|]. intros a Ha.
  destruct r as [[| | | |[[o b] i]|[o i]| | |]|err|]; simpl in *; try done; by apply not_elem_of_nil in Ha.
Qed.

Lemma handing_infos {A} infos (f : A -> reply) k' (r : res A) :
  (forall a, infos_of (Ok (f a)) = Some (infos a)) ->
  mapped k' -> quiet (fun q => live q /\ q <> me) k k' -> procs k' = procs k -> pool_grows me (pool k) (pool k') ->
  match r with
  | Ok a => mapped_by me (pool k') ≡ₚ (shm_addr <$> infos a) ++ mapped_by me (pool k) /\
      handed_ok (mempool_size_bytes k) me (pool k') (addresses_of (Ok (f a)))
  | _ => True
  end ->
  handing_kept u k (reply_with_infos u infos f (k', r)).1 (reply_with_infos u infos f (k', r)).2.
Proof.
  intros Hf Hm' Hq Hp Hg Hr. destruct Hreg as [i Hi].
  assert (forall x, infos_of x = None -> addresses_of x = [] -> handing_kept u k k' x) as Hnone.
  { intros x Hx Hax. split_and!; [done|done|done|by eapply grows_owned|by rw Hx|]. rw Hax. intros a Ha. by apply not_elem_of_nil in Ha. }
  destruct r as [a|err|]; simpl; [|by apply Hnone|by apply Hnone].
  destruct (_ || _); [|by apply Hnone]. simpl. destruct (copy_ok u 3%nat); [|by apply Hnone]. destruct Hr as [HQ Hh].
  split_and!; [done|done|done|by eapply grows_owned| |done]. rw Hf. by intros ? [= <-].
Qed.

Lemma receive_cmd_kept n id width : own_subscriber (kernel_env u) k (c_string n) id ->
  handing_kept u k (receive_msg_cmd u k n id width).1 (receive_msg_cmd u k n id width).2.
Proof.
  intros Hown. unfold receive_msg_cmd. destruct (copy_ok u 0%nat); [|by apply handing_same].
  unfold with_name. destruct (copy_name_from_user _ _ _) as [s|err|] eqn:Es; [|by apply handing_same..].
  assert (s = c_string n) as -> by (unfold copy_name_from_user in Es; by repeat case_match; simplify_eq).
  destruct (negb _); [|by apply handing_same]. destruct (_ || _); [|by apply handing_same].
  destruct (agnocast_ioctl_receive_msg _ _ _ _ _) as [k' r] eqn:Hrun.
  destruct (receive_ioctl_mapped pool0 live (env_skip u 1) _ _ _ _ _ _ Hk Hown Hrun Hm) as (H1 & H2 & H3 & H4 & H5 & H6).
  apply handing_infos; [by intros [[? ?] ?]|done..|].
  destruct r as [[[out again] infos]|err|]; [|done|done]. split; [done|]. by apply H4.
Qed.

Lemma take_cmd_kept n id allow width : own_subscriber (kernel_env u) k (c_string n) id ->
  handing_kept u k (take_msg_cmd u k n id allow width).1 (take_msg_cmd u k n id allow width).2.
Proof.
  intros Hown. unfold take_msg_cmd. destruct (copy_ok u 0%nat); [|by apply handing_same].
  unfold with_name. destruct (copy_name_from_user _ _ _) as [s|err|] eqn:Es; [|by apply handing_same..].
  assert (s = c_string n) as -> by (unfold copy_name_from_user in Es; by repeat case_match; simplify_eq).
  destruct (negb _); [|by apply handing_same]. destruct (_ || _); [|by apply handing_same].
  destruct (agnocast_ioctl_take_msg _ _ _ _ _ _) as [k' r] eqn:Hrun.
  destruct (take_ioctl_mapped pool0 live (env_skip u 1) _ _ _ _ _ _ _ Hk Hown Hrun Hm) as (H1 & H2 & H3 & H4 & H5 & H6).
  apply handing_infos; [by intros [? ?]|done..|].
  destruct r as [[out infos]|err|]; [|done|done]. split; [done|]. simpl.
  destruct (Z.eqb_spec (take_addr out) 0) as [_|Hne]; [|by apply H4]. intros a Ha. by apply not_elem_of_nil in Ha.
Qed.
End handing.
End commands.
