(* ===== verification/Mapping.v ===== *)
(** * Mapping of publishers' memory

    Model of the memory management of agnocastlib/src/agnocast.cpp ([map_area] and its callers) and of the part of
    [receive_and_execute_message] of agnocast_callback_info.cpp and [TakeSubscription::take] of
    agnocast_subscription.hpp that runs under [mmap_mtx]: the call that hands messages out, and the mapping of the
    pools it announces.  The processes of a machine run over the state of the kernel module, a step at a time. *)

From S2P Require Import Prelude Kernel KMempool KTypes KRules KTopic KMessage KCleanup KRegistry.
From S2P Require Import KState KInvariant KSystem KIoctl KMapped KMappedIoctl.

(** ** The address space of a process *)

(** A mapping of the object [create_shm_name(area_pid)]. *)
Record area := Area { area_pid : Z; area_addr : Z; area_size : Z; area_writable : bool }.

(** [agnocast_fd >= 0], [shm_fds] and the areas mapped. *)
Record space := Space { device_open : bool; shm_fds : list Z; areas : list area }.

(** What the system calls of [map_area] return: [None] is -1. *)
Record map_calls := MapCalls { shm_open : option Z; ftruncate_ok : bool; fchmod_ok : bool; mmap_ok : bool }.

Definition overlaps (addr size : Z) (x : area) : bool :=
  (addr <? area_addr x + area_size x) && (area_addr x <? addr + size).

(** [mmap] with MAP_FIXED_NOREPLACE: it fails where something is mapped already. *)
Definition mmap_fixed (c : map_calls) (s : space) (addr size : Z) : bool :=
  mmap_ok c && negb (existsb (overlaps addr size) (areas s)).

(** The lambda of [map_area]; the object itself is unlinked if it was just created. *)
Definition cleanup_shm_fd (fd : Z) (s : space) : space :=
  Space (device_open s) (filter (fun x => x <> fd) (shm_fds s)) (areas s).

Definition close_device (s : space) : space := Space false (shm_fds s) (areas s).

(** [false] is nullptr. *)
Definition map_area (c : map_calls) (s : space) (pid shm_addr shm_size : Z) (writable : bool) : space * bool :=
  match shm_open c with
  | None => (close_device s, false)
  | Some shm_fd =>
      let s := Space (device_open s) (shm_fds s ++ [shm_fd]) (areas s) in
      if writable && negb (ftruncate_ok c) then (close_device (cleanup_shm_fd shm_fd s), false)
      else if writable && negb (fchmod_ok c) then (close_device (cleanup_shm_fd shm_fd s), false)
      else if negb (mmap_fixed c s shm_addr shm_size) then (close_device (cleanup_shm_fd shm_fd s), false)
      else (Space (device_open s) (shm_fds s) (Area pid shm_addr shm_size writable :: areas s), true)
  end.

Definition map_writable_area (c : map_calls) (s : space) (pid shm_addr shm_size : Z) : space * bool :=
  map_area c s pid shm_addr shm_size true.

(** [None]: [exit(EXIT_FAILURE)]. *)
Definition map_read_only_area (c : map_calls) (s : space) (pid shm_addr shm_size : Z) : option space :=
  match map_area c s pid shm_addr shm_size false with
  | (s, true) => Some s
  | (_, false) => None
  end.

(** ** A process *)

(** The thread that holds [mmap_mtx]: the elements of [pub_shm_infos] its loop has left, the [shm_size] they all
    carry, and the addresses it collects once it has let the mutex go. *)
Record holder := Holder { infos_left : list publisher_shm_info; shm_size : Z; addresses : list Z }.

(** [entries]: the addresses given to [message_creator] or to the [ipc_shared_ptr] that [take] returns. *)
Inductive user_process :=
  | Starting (ret_addr ret_shm_size : Z)
  | Running (s : space) (mmap_mtx : option holder) (entries : list Z).

(** The processes by their pid in the kernel, without those that have exited. *)
Record machine := Machine { kernel : kstate; processes : gmap Z user_process }.

Definition with_process (pid : Z) (p : user_process) (w : machine) : machine := Machine (kernel w) (<[pid := p]> (processes w)).

Definition with_kernel (k : kstate) (w : machine) : machine := Machine k (processes w).

(** The process exits: the kernel has yet to clean up. *)
Definition exited_process (pid : Z) (w : machine) : machine := Machine (kernel w) (delete pid (processes w)).

Section steps.
Context `{KernelHash}.

(** Up to and with ADD_PROCESS in [initialize_agnocast], [acquire_agnocast_resources_for_bridge] or
    [poll_for_unlink], by role: a process that is not given memory exits, and the daemon maps none. *)
Definition start_process (u : user) (role_arg domain_id : Z) (w : machine) : machine :=
  let pid := current_tgid (kernel_env u) in
  match add_process_cmd u (kernel w) role_arg domain_id with
  | (k, Ok (ProcessReply ret)) =>
      match ret_mempool ret with
      | Some (a, size) =>
          if bool_decide (process_role_of role_arg = Some PROCESS_ROLE_UNLINK_DAEMON) then with_kernel k w
          else with_process pid (Starting a size) (with_kernel k w)
      | None => with_kernel k w
      end
  | (k, _) => with_kernel k w
  end.

(** The rest of the initialisation: the process maps its own memory, or exits. *)
Definition map_own_memory (c : map_calls) (local_pid pid : Z) (w : machine) : option machine :=
  match processes w !! pid with
  | Some (Starting a size) =>
      match map_writable_area c (Space true [] []) local_pid a size with
      | (s, true) => Some (with_process pid (Running s None []) w)
      | (_, false) => Some (exited_process pid w)
      end
  | _ => None
  end.

(** RECEIVE_MSG or TAKE_MSG with [mmap_mtx] just locked; a call that fails ends the process. *)
Definition lock_and_call (u : user) (call : kstate * res reply) (w : machine) : option machine :=
  let pid := current_tgid (kernel_env u) in
  match processes w !! pid with
  | Some (Running s None entries) =>
      let '(k, r) := call in
      let w := with_kernel k w in
      match r with
      | Ok (ReceiveReply (out, _, infos)) =>
          Some (with_process pid (Running s (Some (Holder infos (mempool_size_bytes k) out.*2)) entries) w)
      | Ok (TakeReply (out, infos)) =>
          Some (with_process pid (Running s (Some (Holder infos (mempool_size_bytes k)
            (if take_addr out =? 0 then [] else [take_addr out]))) entries) w)
      | _ => Some (exited_process pid w)
      end
  | _ => None
  end.

Definition receive_message (u : user) (topic_name : string) (subscriber_id : Z) (w : machine) : option machine :=
  lock_and_call u (receive_msg_cmd u (kernel w) topic_name subscriber_id MAX_PUBLISHER_NUM) w.

Definition take_message (u : user) (topic_name : string) (subscriber_id : Z) (allow_same_message : bool) (w : machine)
    : option machine :=
  lock_and_call u (take_msg_cmd u (kernel w) topic_name subscriber_id allow_same_message MAX_PUBLISHER_NUM) w.

(** One turn of the loop over [pub_shm_infos]. *)
Definition map_next (c : map_calls) (pid : Z) (w : machine) : option machine :=
  match processes w !! pid with
  | Some (Running s (Some (Holder (info :: rest) size out)) entries) =>
      match map_read_only_area c s (shm_pid info) (shm_addr info) size with
      | Some s => Some (with_process pid (Running s (Some (Holder rest size out)) entries) w)
      | None => Some (exited_process pid w)
      end
  | _ => None
  end.

(** The end of the scope of the lock, and the collection of the addresses. *)
Definition unlock_and_collect (pid : Z) (w : machine) : option machine :=
  match processes w !! pid with
  | Some (Running s (Some (Holder [] _ out)) entries) => Some (with_process pid (Running s None (entries ++ out)) w)
  | _ => None
  end.

(** ** Runs *)

(** What happens next: a process starts, maps its own memory, makes an ordinary call (any process may, the daemons
    too), receives or takes, maps a pool it was told of, leaves the lock, or exits; or [exit_worker_thread] cleans up. *)
Inductive action :=
  | StartProcess (u : user) (role_arg domain_id : Z)
  | MapOwn (c : map_calls) (local_pid pid : Z)
  | Command (u : user) (cmd : command)
  | ReceiveMessage (u : user) (topic_name : string) (subscriber_id : Z)
  | TakeMessage (u : user) (topic_name : string) (subscriber_id : Z) (allow_same_message : bool)
  | MapNext (c : map_calls) (pid : Z)
  | Unlock (pid : Z)
  | ExitProcess (pid : Z)
  | Cleanup (pid : Z).

(** [None]: no such step is to be made. *)
Definition act (a : action) (w : machine) : option machine :=
  match a with
  | StartProcess u role_arg domain_id => Some (start_process u role_arg domain_id w)
  | MapOwn c local_pid pid => map_own_memory c local_pid pid w
  | Command u cmd => Some (with_kernel (agnocast_ioctl u (kernel w) cmd).1.1 w)
  | ReceiveMessage u n id => receive_message u n id w
  | TakeMessage u n id allow => take_message u n id allow w
  | MapNext c pid => map_next c pid w
  | Unlock pid => unlock_and_collect pid w
  | ExitProcess pid => Some (exited_process pid w)
  | Cleanup pid => Some (with_kernel (agnocast_process_exit_cleanup (kernel w) pid).1 w)
  end.

(** When: the pid of a new process is neither that of a running one nor that of an endpoint which an exited one left
    behind; a subscription asks for its own messages; only an exited process is cleaned up after. *)
Definition allowed (a : action) (w : machine) : Prop :=
  let called (u : user) := valid_pid (current_tgid (kernel_env u)) /\ room (kernel w) in
  match a with
  | StartProcess u _ _ => called u /\ processes w !! current_tgid (kernel_env u) = None /\
      pid_unused (kernel w) (current_tgid (kernel_env u))
  | Command u cmd => called u /\ command_typed cmd /\ ordinary cmd = true
  | ReceiveMessage u n id | TakeMessage u n id _ => called u /\ own_subscriber (kernel_env u) (kernel w) (c_string n) id
  | Cleanup pid => processes w !! pid = None
  | _ => True
  end.

Inductive machine_reachable (size : Z) (pool0 : list mempool_entry) : machine -> Prop :=
  | machine_init : machine_reachable size pool0 (Machine (init_kstate size pool0) ∅)
  | machine_next w a w' :
      machine_reachable size pool0 w -> allowed a w -> act a w = Some w' -> machine_reachable size pool0 w'.
End steps.

(** A loop turn after another, each with what its system calls return. *)
Fixpoint map_all (cs : list map_calls) (pid : Z) (w : machine) : option machine :=
  match cs with
  | [] => Some w
  | c :: rest => unwrap w := map_next c pid w orelse None; map_all rest pid w
  end.
