(* ===== verification/MappingTheorems.v ===== *)
(** * Mapping of publishers' memory: theorems

    What a process maps is what the kernel module says it maps, so every message handed to it is in its memory, no
    mapping clashes with another, and a receiving thread always gets out of the lock. *)

From S2P Require Import Prelude Kernel KMempool KTypes KRules KTopic KMessage KCleanup KRegistry.
From S2P Require Import KState KInvariant KSystem KIoctl KTheorems KMapping KMapped KMappedIoctl Mapping.

(** ** Specification *)

Definition alive (w : machine) (pid : Z) : Prop := is_Some (processes w !! pid).

(** The address is mapped. *)
Definition covered (s : space) (a : Z) : Prop := exists x, x ∈ areas s /\ area_addr x <= a < area_addr x + area_size x.

Definition left_to_map (mtx : option holder) : list Z :=
  match mtx with Some h => shm_addr <$> infos_left h | None => [] end.

(** The process maps, or is about to map, exactly the pools the module counts for it. *)
Definition process_ok `{KernelHash} (size : Z) (k : kstate) (pid : Z) (p : user_process) : Prop :=
  (exists i, registered (procs k) pid i) /\
  match p with
  | Starting a sz => sz = size /\ mapped_by pid (pool k) = [a]
  | Running s mtx entries =>
      mapped_by pid (pool k) ≡ₚ left_to_map mtx ++ (area_addr <$> areas s) /\
      Forall (fun x => area_size x = size) (areas s) /\
      (forall h, mtx = Some h -> shm_size h = size /\ handed_ok size pid (pool k) (addresses h)) /\
      Forall (covered s) entries
  end.

Record machine_ok `{KernelHash} (size : Z) (pool0 : list mempool_entry) (w : machine) : Prop := {
  mo_kinv : kinv pool0 (kernel w);
  mo_size : mempool_size_bytes (kernel w) = size;
  mo_mapped : kmapped (alive w) (kernel w);
  mo_owned : pool_owned (kernel w);
  mo_processes : forall pid p, processes w !! pid = Some p -> process_ok size (kernel w) pid p
}.

(** ** Lemmas *)

Section runs.
Context `{KernelHash} (size : Z) (pool0 : list mempool_entry).
Hypothesis Hsize : 0 < size.
Hypothesis Haddr : Forall (fun m => 0 <= addr m) pool0.
Local Abbreviation ok := (machine_ok size pool0).

Lemma handed_same k k' pid l : mempool_size_bytes k' = mempool_size_bytes k ->
  (forall a, a ∈ mapped_by pid (pool k) -> a ∈ mapped_by pid (pool k')) ->
  handed_ok size pid (pool k) l -> handed_ok size pid (pool k') l.
Proof.
  intros Hs Hm Hh a Ha. destruct (Hh a Ha) as (i & m & Hi & Hp & Hr).
  assert (addr m ∈ mapped_by pid (pool k')) as (i' & m' & Hi' & Hp' & He)%elem_of_mapped_by
    by (apply Hm, elem_of_mapped_by; by exists i, m).
  exists i', m'. split; [done|]. split; [done|]. unfold in_pool in *. by rw He.
Qed.

Lemma quiet_process live k k' pid p : quiet live k k' -> live pid -> process_ok size k pid p -> process_ok size k' pid p.
Proof.
  intros Hq Hl [[i Hi] Hp]. pose proof (quiet_mapped_by _ _ _ _ Hq Hl) as Hm. split; [exists i; by eapply qu_live|].
  destruct p as [a sz|s mtx entries]; [by rw Hm|]. destruct Hp as (H1 & H2 & H3 & H4). rw Hm. split_and!; try done.
  intros h Hh. destruct (H3 h Hh) as [? ?]. split; [done|]. eapply handed_same; [by eapply qu_size| |done]. by rw Hm.
Qed.

Lemma ok_registered w pid : ok w -> alive w pid -> exists i, registered (procs (kernel w)) pid i.
Proof. intros Hw [p Hp]. by apply (mo_processes _ _ _ Hw) in Hp as [? _]. Qed.

(** A step of the module that leaves running processes alone. *)
Lemma kernel_step_ok w k' : ok w -> kinv pool0 k' -> kmapped (alive w) k' -> quiet (alive w) (kernel w) k' ->
  (pool_owned (kernel w) -> pool_owned k') -> ok (with_kernel k' w).
Proof.
  intros Hw Hk Hm Hq Ho. split; simpl; [done| |done|by apply Ho, Hw|].
  - rw (qu_size _ _ _ Hq). apply Hw.
  - intros pid p Hp. eapply quiet_process; [exact Hq|by exists p|by apply (mo_processes _ _ _ Hw)].
Qed.

Lemma exited_ok w pid : ok w -> ok (exited_process pid w).
Proof.
  intros [H1 H2 H3 H4 H5]. split; try done.
  - eapply kmapped_weaken; [|exact H3]. intros q [p Hp]. simpl in Hp. apply lookup_delete_Some in Hp as [_ Hp]. by exists p.
  - intros q p Hp. simpl in Hp. apply lookup_delete_Some in Hp as [_ Hp]. by apply H5.
Qed.

(** The state of one process changes. *)
Lemma process_step_ok w pid p p' : ok w -> processes w !! pid = Some p -> process_ok size (kernel w) pid p' ->
  ok (with_process pid p' w).
Proof.
  intros [H1 H2 H3 H4 H5] Hp Hok. split; try done.
  - eapply kmapped_weaken; [|exact H3]. intros q [x Hx]. simpl in Hx.
    apply lookup_insert_Some in Hx as [(<- & _)|(_ & Hx)]; [by exists p|by exists x].
  - intros q x Hx. simpl in Hx. apply lookup_insert_Some in Hx as [(<- & <-)|(_ & Hx)]; [done|by apply H5].
Qed.

Lemma machine_start_ok u role_arg domain w : ok w -> allowed (StartProcess u role_arg domain) w ->
  ok (start_process u role_arg domain w).
Proof.
  set (pid := current_tgid (kernel_env u)). intros Hw ([Hv Hroom] & Hnew & Hun). pose proof Hw as [H1 H2 H3 H4 H5].
  assert (forall q, alive w q -> exists i, registered (procs (kernel w)) q i) as Hreg by (intros q; by apply ok_registered).
  pose proof (add_process_safe pool0 u (kernel w) H1 Hv role_arg domain) as [Hk' _].
  unfold start_process. fold pid. unfold add_process_cmd in *. fold pid in Hk' |- *.
  destruct (copy_ok u 0%nat); [|by destruct w].
  destruct (agnocast_ioctl_add_process _ _ _ _ _ _ _ _ _) as [[ps p] r] eqn:Hrun.
  set (k' := set_reg _ _) in *. assert (kinv pool0 k') as Hk by (by destruct r; [destruct (copy_ok u 1%nat)|..]). clear Hk'.
  destruct (add_process_joined pool0 (kernel w) ps p pid H1 _ _ _ _ _ Hv Hrun) as [o Hj].
  pose proof (joined_mapped (alive w) _ _ _ _ Hreg o Hj Hun H3) as Hm. pose proof (joined_quiet (alive w) _ _ _ _ Hreg o Hj) as Hq.
  pose proof (joined_owned _ _ _ _ o Hj) as Ho. fold k' in Hm, Hq, Ho.
  assert (ok (with_kernel k' w)) as Hw'.
  { apply kernel_step_ok; try done. eapply kmapped_weaken; [|exact Hm]. by right. }
  destruct r as [ret|err|]; unfold reply_if_ok; [|done..]. destruct (copy_ok u 1%nat); [|done].
  destruct (ret_mempool ret) as [[a sz]|] eqn:Hret; [|done]. case_bool_decide as Hrole; [done|].
  destruct (add_process_told pool0 (kernel w) ps p pid H1 _ _ _ _ _ _ _ Hv H4 Hrun Hret) as [Hsz Hat].
  specialize (Hat Hrole) as [Hreg' Hby]. fold k' in Hreg', Hby. destruct Hw' as [J1 J2 J3 J4 J5]. split; try done.
  - eapply kmapped_weaken; [|exact Hm]. intros q [x Hx]. simpl in Hx.
    apply lookup_insert_Some in Hx as [(<- & _)|(_ & Hx)]; [by left|right; by exists x].
  - intros q x Hx. simpl in Hx. apply lookup_insert_Some in Hx as [(<- & <-)|(_ & Hx)]; [|by apply J5].
    split; [done|]. split; [congruence|done].
Qed.
Lemma map_area_true c s pid a sz wr s' : map_area c s pid a sz wr = (s', true) -> areas s' = Area pid a sz wr :: areas s.
Proof.
  unfold map_area. destruct (shm_open c) as [fd|]; [|done].
  destruct (wr && negb (ftruncate_ok c)); [done|]. destruct (wr && negb (fchmod_ok c)); [done|].
  destruct (negb _); [done|]. by intros [= <-].
Qed.

Lemma map_own_ok c lpid pid w w' : ok w -> map_own_memory c lpid pid w = Some w' -> ok w'.
Proof.
  intros Hw. unfold map_own_memory. destruct (processes w !! pid) as [[a sz|]|] eqn:Hp; [|done..].
  destruct (map_writable_area _ _ _ _ _) as [s [|]] eqn:Hmap; intros [= <-]; [|by apply exited_ok].
  apply map_area_true in Hmap. simpl in Hmap.
  pose proof (mo_processes _ _ _ Hw _ _ Hp) as [Hreg [-> Hby]]. eapply process_step_ok; [done|exact Hp|].
  split; [done|]. rw Hby Hmap. split_and!; [done|by constructor|done|done].
Qed.

Lemma command_ok u cmd w : ok w -> allowed (Command u cmd) w -> ok (with_kernel (agnocast_ioctl u (kernel w) cmd).1.1 w).
Proof.
  intros Hw ([Hv Hroom] & Ht & Ho). pose proof Hw as [H1 H2 H3 H4 H5].
  destruct (ordinary_kept pool0 (alive w) u (kernel w) H1 H3 (fun q => ok_registered w q Hw)) with (cmd := cmd) as (K1 & K2 & K3);
    [lia|done|done|].
  apply kernel_step_ok; [done| |done..]. destruct (agnocast_ioctl u (kernel w) cmd) as [[k' sg] r] eqn:E.
  by eapply ioctl_safe.
Qed.

Lemma cleanup_ok pid w : ok w -> processes w !! pid = None -> ok (with_kernel (agnocast_process_exit_cleanup (kernel w) pid).1 w).
Proof.
  intros Hw Hp. pose proof Hw as [H1 H2 H3 H4 H5]. destruct (agnocast_process_exit_cleanup (kernel w) pid) as [k' r] eqn:E.
  destruct (cleanup_mapped pool0 (alive w) (kernel w) pid k' r H1 (fun q => ok_registered w q Hw)) as (K1 & K2 & K3);
    [intros [x Hx]; congruence|done|done|].
  apply kernel_step_ok; try done. by eapply process_exit_kinv.
Qed.

(** The thread of a process takes the lock and calls: what it has to map and to hand on is what the module says. *)
Lemma call_ok u k' r w w' : ok w -> valid_pid (current_tgid (kernel_env u)) -> kinv pool0 k' ->
  (alive w (current_tgid (kernel_env u)) -> handing_kept (alive w) u (kernel w) k' r) ->
  lock_and_call u (k', r) w = Some w' -> ok w'.
Proof.
  set (pid := current_tgid (kernel_env u)). intros Hw Hv Hk Hkept. unfold lock_and_call. fold pid.
  destruct (processes w !! pid) as [[|s [h|] entries]|] eqn:Hp; [done|done| |done].
  destruct Hkept as (K1 & K2 & K3 & K4 & K5 & K6); [by exists (Running s None entries)|]. fold pid in K2, K5, K6.
  pose proof Hw as [H1 H2 H3 H4 H5]. pose proof (qu_size _ _ _ K2) as Hsz. rewrite H2 in Hsz.
  destruct (H5 _ _ Hp) as [[i Hi] (P1 & P2 & _ & P4)].
  assert (forall mtx, (forall h, mtx = Some h -> shm_size h = size /\ handed_ok size pid (pool k') (addresses h)) ->
    mapped_by pid (pool k') ≡ₚ left_to_map mtx ++ mapped_by pid (pool (kernel w)) ->
    ok (with_process pid (Running s mtx entries) (with_kernel k' w))) as Hlock.
  { intros mtx Hh Hby. split; simpl; [done|done| |by apply K4|].
    - eapply kmapped_weaken; [|exact K1]. intros q [x Hx]. simpl in Hx.
      apply lookup_insert_Some in Hx as [(<- & _)|(_ & Hx)]; [by eexists|by exists x].
    - intros q x Hx. apply lookup_insert_Some in Hx as [(<- & <-)|(Hne & Hx)].
      + split; [exists i; by rw K3|]. split_and!; [|done|done|done]. simpl in P1. by rw Hby P1.
      + eapply quiet_process; [exact K2| |by apply H5]. split; [by exists x|done]. }
  assert (ok (exited_process pid (with_kernel k' w))) as Hexit.
  { split; simpl; [done|done| |by apply K4|].
    - eapply kmapped_weaken; [|exact K1]. intros q [x Hx]. simpl in Hx. apply lookup_delete_Some in Hx as [_ Hx]. by exists x.
    - intros q x Hx. apply lookup_delete_Some in Hx as [Hne Hx]. eapply quiet_process; [exact K2| |by apply H5].
      split; [by exists x|done]. }
  destruct r as [[| | | |[[out again] infos]|[out infos]| | |]|err|]; intros [= <-]; try exact Hexit; apply Hlock; try by apply K5.
  - intros h [= <-]. simpl. split; [done|]. by rewrite H2 in K6.
  - intros h [= <-]. simpl. split; [done|]. by rewrite H2 in K6.
Qed.

Lemma map_next_ok c pid w w' : ok w -> map_next c pid w = Some w' -> ok w'.
Proof.
  intros Hw. unfold map_next. destruct (processes w !! pid) as [[|s [[[|info rest] sz out]|] entries]|] eqn:Hp; try done.
  unfold map_read_only_area. destruct (map_area _ _ _ _ _ _) as [s' [|]] eqn:Hmap; intros [= <-]; [|by apply exited_ok].
  apply map_area_true in Hmap. pose proof (mo_processes _ _ _ Hw _ _ Hp) as [Hreg (P1 & P2 & P3 & P4)].
  destruct (P3 _ eq_refl) as [Hsz Hh]. simpl in Hsz, Hh. subst sz. eapply process_step_ok; [done|exact Hp|]. split; [done|].
  rw Hmap. split_and!.
  - rw P1. simpl. by rw Permutation_middle.
  - by constructor.
  - by intros h [= <-].
  - eapply Forall_impl; [exact P4|]. intros a (x & Hx & Hr). exists x. rw Hmap. split; [by right|done].
Qed.

Lemma unlock_ok pid w w' : ok w -> unlock_and_collect pid w = Some w' -> ok w'.
Proof.
  intros Hw. unfold unlock_and_collect. destruct (processes w !! pid) as [[|s [[[|info rest] sz out]|] entries]|] eqn:Hp; try done.
  intros [= <-]. pose proof (mo_processes _ _ _ Hw _ _ Hp) as [Hreg (P1 & P2 & P3 & P4)].
  destruct (P3 _ eq_refl) as [_ Hh]. simpl in Hh, P1. eapply process_step_ok; [done|exact Hp|]. split; [done|].
  split_and!; [done|done|done|]. apply Forall_app. split; [done|]. apply Forall_forall. intros a Ha.
  destruct (Hh a Ha) as (i & m & Hi & Hin & Hr).
  assert (addr m ∈ mapped_by pid (pool (kernel w))) as Hby by (apply elem_of_mapped_by; by exists i, m).
  rewrite P1 in Hby. apply list_elem_of_fmap in Hby as (x & Hx & Hxin). exists x. split; [done|].
  rewrite Forall_forall in P2. rw -Hx (P2 x Hxin). exact Hr.
Qed.

Lemma machine_act_ok a w w' : ok w -> allowed a w -> act a w = Some w' -> ok w'.
Proof.
  intros Hw Ha. pose proof (mo_kinv _ _ _ Hw) as Hk. pose proof (mo_mapped _ _ _ Hw) as Hm.
  pose proof (fun q => ok_registered w q Hw) as Hreg. destruct a; cbn [act].
  - intros [= <-]. by apply machine_start_ok.
  - by apply map_own_ok.
  - intros [= <-]. by apply command_ok.
  - destruct Ha as [[Hv Hroom] Hown]. intros Hrun. unfold receive_message in Hrun.
    pose proof (ioctl_safe pool0 u (kernel w) Hk Hroom Hv (RECEIVE_MSG_CMD topic_name subscriber_id MAX_PUBLISHER_NUM) _ _ _ I eq_refl) as [Hk' _].
    pose proof (fun Hl => receive_cmd_kept pool0 (alive w) u (kernel w) Hk Hm Hl (Hreg _ Hl) topic_name subscriber_id MAX_PUBLISHER_NUM Hown) as Hkept.
    destruct (receive_msg_cmd _ _ _ _ _) as [k' r]. by eapply call_ok.
  - destruct Ha as [[Hv Hroom] Hown]. intros Hrun. unfold take_message in Hrun.
    pose proof (ioctl_safe pool0 u (kernel w) Hk Hroom Hv (TAKE_MSG_CMD topic_name subscriber_id allow_same_message MAX_PUBLISHER_NUM) _ _ _ I eq_refl) as [Hk' _].
    pose proof (fun Hl => take_cmd_kept pool0 (alive w) u (kernel w) Hk Hm Hl (Hreg _ Hl) topic_name subscriber_id allow_same_message MAX_PUBLISHER_NUM Hown) as Hkept.
    destruct (take_msg_cmd _ _ _ _ _ _) as [k' r]. by eapply call_ok.
  - by apply map_next_ok.
  - by apply unlock_ok.
  - intros [= <-]. by apply exited_ok.
  - intros [= <-]. by apply cleanup_ok.
Qed.

Lemma init_ok : pool_wf pool0 -> Forall (fun m => mapped_pids m = []) pool0 -> ok (Machine (init_kstate size pool0) ∅).
Proof.
  intros Hwf Hnil. split; simpl; [by apply init_kinv|done| | |].
  - intros a t Ht. by rewrite lookup_empty in Ht.
  - intros i m q Hi Hq. pose proof (Forall_lookup_1 _ _ _ _ Hnil Hi) as Hn. simpl in Hn. rewrite Hn in Hq. by apply not_elem_of_nil in Hq.
  - intros pid p Hp. by rewrite lookup_empty in Hp.
Qed.

Lemma machine_reachable_ok w : pool_wf pool0 -> Forall (fun m => mapped_pids m = []) pool0 -> machine_reachable size pool0 w -> ok w.
Proof. intros Hwf Hnil. induction 1; [by apply init_ok|by eapply machine_act_ok]. Qed.
End runs.

(** ** Lemmas: mappings do not clash *)

(** [init_memory_allocator] laid the pools out. *)
Definition laid_out (p : mempool_params) (size : Z) (pool0 : list mempool_entry) : Prop :=
  0 <= mempool_start_addr p < 2 ^ 64 /\ mempool_num p < 2 ^ 31 /\ mempool_size_gb p < 2 ^ 31 /\
  exists al, init_memory_allocator p al = Ok (size, pool0).

Lemma laid_out_spec p size pool0 : laid_out p size pool0 ->
  0 < size /\ pool_wf pool0 /\ Forall (fun m => mapped_pids m = []) pool0 /\ Forall (fun m => 0 <= addr m) pool0 /\
  forall i j a b, i <> j -> (addr <$> pool0) !! i = Some a -> (addr <$> pool0) !! j = Some b -> disjoint_ranges size a b.
Proof.
  intros (H1 & H2 & H3 & al & Hi). destruct (init_memory_allocator_spec _ _ _ _ H1 H2 H3 Hi) as ((_ & Hpos & _) & _ & Hlk).
  split_and!; [done|apply Forall_lookup; intros i m Hm; destruct (Hlk i m Hm) as [-> _]; simpl..|].
  - split; simpl; [done|apply NoDup_nil_2|by constructor].
  - done.
  - nia.
  - intros i j a b Hne. rw !list_lookup_fmap. intros (m & Hm & ->)%fmap_Some (m' & Hm' & ->)%fmap_Some.
    destruct (Hlk i m Hm) as [-> _], (Hlk j m' Hm') as [-> _]. unfold disjoint_ranges. simpl. nia.
Qed.

Section layout.
Context `{KernelHash} (p : mempool_params) (size : Z) (pool0 : list mempool_entry).
Hypothesis Hlaid : laid_out p size pool0.
Local Abbreviation ok := (machine_ok size pool0).

Lemma laid_reachable_ok w : machine_reachable size pool0 w -> ok w.
Proof. destruct (laid_out_spec _ _ _ Hlaid) as (H1 & H2 & H3 & H4 & _). by apply machine_reachable_ok. Qed.

Lemma mapped_apart w pid a b l : ok w -> mapped_by pid (pool (kernel w)) ≡ₚ a :: l -> b ∈ l -> disjoint_ranges size a b.
Proof.
  intros Hw Hby Hb. destruct (laid_out_spec _ _ _ Hlaid) as (Hpos & _ & _ & _ & Hap).
  pose proof (rw_addrs _ _ (ki_reg _ _ (mo_kinv _ _ _ Hw))) as Haddrs. change (mempool_entries (reg (kernel w))) with (pool (kernel w)) in Haddrs.
  assert (NoDup (mapped_by pid (pool (kernel w)))) as Hnd.
  { unfold mapped_by. eapply sublist_NoDup; [|apply fmap_sublist, sublist_filter]. rw Haddrs. apply NoDup_alt.
    intros i j x Hi Hj. destruct (decide (i = j)) as [|Hne]; [done|]. specialize (Hap i j x x Hne Hi Hj). unfold disjoint_ranges in Hap. lia. }
  assert (a ∈ mapped_by pid (pool (kernel w))) as (i & m & Hi & _ & Ha)%elem_of_mapped_by by (rw Hby; by left).
  assert (b ∈ mapped_by pid (pool (kernel w))) as (j & m' & Hj & _ & Hb')%elem_of_mapped_by by (rw Hby; by right).
  apply (Hap i j).
  - intros ->. assert (a = b) as -> by congruence. rewrite Hby in Hnd. by apply NoDup_cons in Hnd as [? _].
  - by rw -Haddrs list_lookup_fmap Hi -Ha.
  - by rw -Haddrs list_lookup_fmap Hj -Hb'.
Qed.

(** The system calls succeed as far as the operating system is concerned. *)
Definition calls_succeed (c : map_calls) : Prop := is_Some (shm_open c) /\ mmap_ok c = true.

Lemma map_next_maps w pid s info rest sz out entries c : ok w ->
  processes w !! pid = Some (Running s (Some (Holder (info :: rest) sz out)) entries) -> calls_succeed c ->
  exists s', map_read_only_area c s (shm_pid info) (shm_addr info) sz = Some s' /\
    areas s' = Area (shm_pid info) (shm_addr info) sz false :: areas s.
Proof.
  intros Hw Hp [[fd Hfd] Hok]. pose proof (mo_processes _ _ _ Hw _ _ Hp) as [_ (P1 & P2 & P3 & _)].
  destruct (P3 _ eq_refl) as [Hsz _]. simpl in Hsz. subst sz.
  unfold map_read_only_area, map_area. rw Hfd. simpl. unfold mmap_fixed. rw Hok. simpl.
  destruct (existsb _ _) eqn:E; [|by eexists]. exfalso. apply existsb_exists in E as (x & Hx%list_elem_of_In & Hov).
  assert (disjoint_ranges size (shm_addr info) (area_addr x)) as Hd.
  { eapply mapped_apart; [exact Hw|exact P1|]. simpl. apply elem_of_app. right. by apply list_elem_of_fmap_2. }
  rewrite Forall_forall in P2. unfold overlaps in Hov. rewrite (P2 x Hx) in Hov. unfold disjoint_ranges in Hd. bool_to_prop. lia.
Qed.

Lemma map_all_maps w pid cs : ok w -> Forall calls_succeed cs -> forall s infos sz out entries,
  processes w !! pid = Some (Running s (Some (Holder infos sz out)) entries) -> length cs = length infos ->
  exists w' s', map_all cs pid w = Some w' /\ ok w' /\ processes w' !! pid = Some (Running s' (Some (Holder [] sz out)) entries) /\
    areas s' = rev ((fun i => Area (shm_pid i) (shm_addr i) sz false) <$> infos) ++ areas s.
Proof.
  intros Hw Hcs. revert w Hw. induction Hcs as [|c cs Hc Hcs IH]; intros w Hw s [|info infos] sz out entries Hp Hlen; try done.
  { by exists w, s. }
  destruct (map_next_maps w pid s info infos sz out entries c Hw Hp Hc) as (s1 & Hs1 & Ha1). cbn [map_all].
  assert (map_next c pid w = Some (with_process pid (Running s1 (Some (Holder infos sz out)) entries) w)) as Hn.
  { unfold map_next. by rw Hp Hs1. }
  rw Hn. destruct (IH _ (map_next_ok _ _ _ _ _ _ Hw Hn) s1 infos sz out entries) as (w' & s' & H1 & H2 & H3 & H4).
  { simpl. by rw lookup_insert_eq. } { by injection Hlen. }
  exists w', s'. split_and!; try done. rw H4 Ha1 fmap_cons. simpl. by rw -app_assoc.
Qed.
End layout.

(** ** Theorems *)

(** C5. Every address that a process has been handed, by a subscription's callback or by [take], lies in an area that the
    process has mapped, whatever the processes of a machine do and in whatever order, as long as the pid of a new
    process is not that of an endpoint which an exited one left behind, and each process receives for its own
    subscriptions.  The area is one of the pools that [init_memory_allocator] laid out, and the module counts the
    process among those that map it, so that the pool goes to nobody else. *)
Theorem handed_memory_mapped `{KernelHash} p size pool0 w pid s mtx entries a :
  laid_out p size pool0 -> machine_reachable size pool0 w ->
  processes w !! pid = Some (Running s mtx entries) -> a ∈ entries ->
  exists x, x ∈ areas s /\ area_addr x <= a < area_addr x + area_size x /\ area_size x = size /\
    exists i m, pool (kernel w) !! i = Some m /\ addr m = area_addr x /\ pid ∈ mapped_pids m.
Proof.
  intros Hl Hr%(laid_reachable_ok p); [|done]. intros Hp Ha.
  pose proof (mo_processes _ _ _ Hr _ _ Hp) as [_ (P1 & P2 & _ & P4)]. rewrite Forall_forall in P4.
  destruct (P4 a Ha) as (x & Hx & Hc). exists x. rewrite Forall_forall in P2. split; [done|]. split; [done|]. split; [by apply P2|].
  assert (area_addr x ∈ mapped_by pid (pool (kernel w))) as (i & m & Hi & Hin & Hm)%elem_of_mapped_by
    by (rw P1; apply elem_of_app; right; by apply list_elem_of_fmap_2).
  by exists i, m.
Qed.

(** C14. A thread that holds [mmap_mtx] gets out of it: if the system calls of its mappings succeed, no mapping fails for
    want of a free address, each pool is mapped once at the address the module told, and the addresses of the messages
    are then collected, all of them mapped. *)
Theorem receive_completes `{KernelHash} p size pool0 w pid s h entries cs :
  laid_out p size pool0 -> machine_reachable size pool0 w ->
  processes w !! pid = Some (Running s (Some h) entries) ->
  length cs = length (infos_left h) -> Forall calls_succeed cs ->
  exists w1 w2 s', map_all cs pid w = Some w1 /\ unlock_and_collect pid w1 = Some w2 /\
    processes w2 !! pid = Some (Running s' None (entries ++ addresses h)) /\
    areas s' = rev ((fun i => Area (shm_pid i) (shm_addr i) size false) <$> infos_left h) ++ areas s /\
    Forall (covered s') (entries ++ addresses h).
Proof.
  intros Hl Hr%(laid_reachable_ok p); [|done]. intros Hp Hlen Hcs.
  pose proof (mo_processes _ _ _ Hr _ _ Hp) as [_ (_ & _ & P3 & _)]. destruct (P3 _ eq_refl) as [Hsz _].
  destruct h as [infos sz out]. simpl in *. subst sz.
  destruct (map_all_maps p size pool0 Hl w pid cs Hr Hcs s infos size out entries Hp Hlen) as (w1 & s' & H1 & H2 & H3 & H4).
  assert (unlock_and_collect pid w1 = Some (with_process pid (Running s' None (entries ++ out)) w1)) as Hu by (unfold unlock_and_collect; by rw H3).
  exists w1, (with_process pid (Running s' None (entries ++ out)) w1), s'. simpl. rw lookup_insert_eq. split_and!; try done.
  pose proof (mo_processes _ _ _ (unlock_ok _ _ _ _ _ H2 Hu) pid) as Hf. simpl in Hf. rewrite lookup_insert_eq in Hf.
  by destruct (Hf _ eq_refl) as [_ (_ & _ & _ & ?)].
Qed.

(** ** Witnesses: a concrete machine *)

Definition own_subscriber_b (e : env) (k : kstate) (n : string) (id : Z) : bool :=
  match @find_topic_for_current length_hash e k n with
  | Some w =>
      match topics k !! topic w with
      | Some t => match @find_subscriber_info length_hash t id with Some s => sub_pid s =? current_tgid e | None => true end
      | None => true
      end
  | None => true
  end.

Definition pid_unused_b (k : kstate) (pid : Z) : bool :=
  bool_decide (map_Forall (fun _ t => Forall (fun s => sub_pid s <> pid) (sub_info_htable t) /\
    Forall (fun p => pub_pid p <> pid) (pub_info_htable t)) (topics k)).

Definition allowed_b (a : action) (w : machine) : bool :=
  let called (u : user) := bool_decide (valid_pid (current_tgid (kernel_env u))) && roomy (kernel w) in
  match a with
  | StartProcess u _ _ => called u && bool_decide (processes w !! current_tgid (kernel_env u) = None) &&
      pid_unused_b (kernel w) (current_tgid (kernel_env u))
  | Command u cmd => called u && bool_decide (command_typed cmd) && ordinary cmd
  | ReceiveMessage u n id | TakeMessage u n id _ => called u && own_subscriber_b (kernel_env u) (kernel w) (c_string n) id
  | Cleanup pid => bool_decide (processes w !! pid = None)
  | _ => true
  end.

#[export] Instance user_process_none_dec (w : machine) pid : Decision (processes w !! pid = None).
Proof. destruct (processes w !! pid); [by right|by left]. Defined.

Lemma own_subscriber_sound e k n id : own_subscriber_b e k n id = true -> @own_subscriber length_hash e k n id.
Proof.
  unfold own_subscriber_b. intros Hb w t s Hf Ht Hs. rewrite Hf Ht Hs in Hb. by apply Z.eqb_eq.
Qed.

Lemma pid_unused_sound k pid : pid_unused_b k pid = true -> pid_unused k pid.
Proof.
  intros Hb%bool_decide_eq_true a t Ht. destruct (Hb a t Ht) as [H1 H2]. rewrite Forall_forall in H1. rewrite Forall_forall in H2.
  by split.
Qed.

Lemma allowed_sound a w : allowed_b a w = true -> @allowed length_hash a w.
Proof.
  pose proof (fun u (Hc : bool_decide (valid_pid (current_tgid (kernel_env u))) && roomy (kernel w) = true) =>
    match andb_prop _ _ Hc with conj Hv Hr => conj (proj1 (bool_decide_eq_true _) Hv) (roomy_room _ Hr) end) as Hcalled.
  destruct a; simpl; try done.
  - intros [[Hc%Hcalled Hn%bool_decide_eq_true]%andb_prop Hu%pid_unused_sound]%andb_prop. done.
  - intros [[Hc%Hcalled Ht%bool_decide_eq_true]%andb_prop Ho]%andb_prop. done.
  - intros [Hc%Hcalled Ho%own_subscriber_sound]%andb_prop. done.
  - intros [Hc%Hcalled Ho%own_subscriber_sound]%andb_prop. done.
  - by intros Hb%bool_decide_eq_true.
Qed.

(** The machine after the actions, if each is allowed and possible. *)
Fixpoint run_allowed (as_ : list action) (w : machine) : option machine :=
  match as_ with
  | [] => Some w
  | a :: rest =>
      require allowed_b a w orelse None;
      unwrap w := @act length_hash a w orelse None; run_allowed rest w
  end.

Lemma run_allowed_reachable size pool0 as_ w w' :
  @machine_reachable length_hash size pool0 w -> run_allowed as_ w = Some w' -> @machine_reachable length_hash size pool0 w'.
Proof.
  revert w. induction as_ as [|a rest IH]; intros w Hr; cbn [run_allowed]; [by intros [= <-]|].
  destruct (allowed_b a w) eqn:Ha; [|done]. destruct (act a w) as [w1|] eqn:Hact; [|done].
  apply IH. apply (machine_next _ _ w a w1); [done|by apply allowed_sound|done].
Qed.

Definition sample_params : mempool_params := MempoolParams 4 4096 1.
Definition sample_calls : map_calls := MapCalls (Some 7) true true true.

Lemma sample_laid_out : laid_out sample_params 1073741824 sample_pools.
Proof. split_and!; try done. by exists (fun _ => true). Qed.

(** 200 publishes a message to 100, which takes the lock and is told of the memory of 200. *)
Definition sample_actions : list action :=
  [StartProcess (sample_user 100) 0 0; MapOwn sample_calls 100 100;
   StartProcess (sample_user 200) 0 0; MapOwn sample_calls 200 200;
   Command (sample_user 200) (ADD_PUBLISHER_CMD "/a" "talker" 10 false false);
   Command (sample_user 100) (ADD_SUBSCRIBER_CMD "/a" "listener" 10 false true false false false 5);
   Command (sample_user 200) (PUBLISH_MSG_CMD "/a" 0 1073746000);
   ReceiveMessage (sample_user 100) "/a" 1].

Definition sample_start : machine := Machine (init_kstate 1073741824 sample_pools) ∅.
Definition sample_locked : machine := default sample_start (run_allowed sample_actions sample_start).

Lemma sample_locked_run : run_allowed sample_actions sample_start = Some sample_locked.
Proof. by vm_compute. Qed.

Example sample_locked_state : processes sample_locked !! 100 =
  Some (Running (Space true [7] [Area 100 4096 1073741824 true])
    (Some (Holder [PublisherShmInfo 200 1073745920] 1073741824 [1073746000])) []).
Proof. by vm_compute. Qed.

Definition sample_unlocked : machine :=
  default sample_start (run_allowed [MapNext sample_calls 100; Unlock 100] sample_locked).

Definition sample_space : space :=
  Space true [7; 7] [Area 200 1073745920 1073741824 false; Area 100 4096 1073741824 true].

Lemma sample_locked_reachable : @machine_reachable length_hash 1073741824 sample_pools sample_locked.
Proof. eapply run_allowed_reachable; [constructor|]. exact sample_locked_run. Qed.

Lemma sample_unlocked_reachable : @machine_reachable length_hash 1073741824 sample_pools sample_unlocked.
Proof.
  apply (run_allowed_reachable _ _ [MapNext sample_calls 100; Unlock 100] sample_locked); [exact sample_locked_reachable|].
  by vm_compute.
Qed.

Lemma handed_memory_mapped_witness : exists x, x ∈ areas sample_space /\ area_addr x <= 1073746000 < area_addr x + area_size x.
Proof.
  destruct (handed_memory_mapped (H := length_hash) sample_params 1073741824 sample_pools sample_unlocked 100 sample_space None
    [1073746000] 1073746000 sample_laid_out sample_unlocked_reachable ltac:(vm_compute; reflexivity) ltac:(left)) as (x & Hx & Hr & _).
  exists x. split; [exact Hx|exact Hr].
Defined.

Lemma receive_completes_witness : exists w1 w2 s', map_all [sample_calls] 100 sample_locked = Some w1 /\
  unlock_and_collect 100 w1 = Some w2 /\ processes w2 !! 100 = Some (Running s' None [1073746000]).
Proof.
  destruct (receive_completes (H := length_hash) sample_params 1073741824 sample_pools sample_locked 100
    (Space true [7] [Area 100 4096 1073741824 true]) (Holder [PublisherShmInfo 200 1073745920] 1073741824 [1073746000]) []
    [sample_calls] sample_laid_out sample_locked_reachable ltac:(vm_compute; reflexivity) eq_refl
    ltac:(constructor; [split; [exists 7; reflexivity|reflexivity]|constructor])) as (w1 & w2 & s' & H1 & H2 & H3 & _).
  exists w1, w2, s'. split; [exact H1|]. split; [exact H2|exact H3].
Defined.

(** ** A pid that is used again *)

(** 100 holds a message of 200 when 200 exits, so that the publisher stays; the daemon has the process forgotten. *)
Definition gone_actions : list action :=
  [MapNext sample_calls 100; Unlock 100; ExitProcess 200; Cleanup 200; Command (sample_user 300) GET_EXIT_PROCESS_CMD].

(** After another process got its pid: a late subscriber of 400 asks for what there is. *)
Definition late_actions : list action :=
  [MapOwn sample_calls 200 200; StartProcess (sample_user 400) 0 0; MapOwn sample_calls 400 400;
   Command (sample_user 400) (ADD_SUBSCRIBER_CMD "/a" "late" 10 true true false false false 6);
   ReceiveMessage (sample_user 400) "/a" 2; MapNext sample_calls 400; Unlock 400].

(** The module knows the process of a publisher by its pid alone.  Once an exited process is forgotten, a publisher of it
    that a held message keeps passes for one of the next process with that pid: a late subscriber is told of the memory
    of that process, and is handed a message that lies in memory it does not map. *)
Theorem reused_pid_hands_unmapped : exists w1 w2 s,
  run_allowed gone_actions sample_locked = Some w1 /\
  processes w1 !! 200 = None /\ @agnocast_find_process_info length_hash (procs (kernel w1)) 200 = None /\
  run_allowed late_actions (@start_process length_hash (sample_user 200) 0 0 w1) = Some w2 /\
  processes w2 !! 400 = Some (Running s None [1073746000]) /\ ~ covered s 1073746000.
Proof.
  exists (default sample_start (run_allowed gone_actions sample_locked)).
  exists (default sample_start (run_allowed late_actions (@start_process length_hash (sample_user 200) 0 0
    (default sample_start (run_allowed gone_actions sample_locked))))).
  exists (Space true [7; 7] [Area 200 2147487744 1073741824 false; Area 400 3221229568 1073741824 true]).
  split_and!; [by vm_compute..|]. intros (x & Hx & Hr). simpl in Hx.
  repeat (apply elem_of_cons in Hx as [-> |Hx]; [simpl in Hr; lia|]). by apply not_elem_of_nil in Hx.
Qed.
