(* ===== verification/StartUp.v ===== *)
(** * Start-up of a process

    Model of the initialisation in agnocastlib/src/agnocast.cpp ([initialize_agnocast], the version check and the choice
    of the daemons to spawn, the loop of the unlink daemon) and of what it reads of the environment:
    [validate_ld_preload], [get_ros_domain_id] and the names of agnocast_utils.cpp, [get_bridge_mode] of
    bridge/agnocast_bridge_utils.cpp.  The mapping of the memory it obtains is in Mapping. *)

From Stdlib Require Import Ascii.
From S2P Require Import Prelude Strings Kernel KMempool KTypes KRules KTopic KMessage KCleanup KRegistry.
From S2P Require Import KState KInvariant KSystem KIoctl.

(** ** Text *)

(** [isspace] in the C locale. *)
Definition is_space (c : ascii) : bool :=
  let n := Z.of_nat (nat_of_ascii c) in (n =? 32) || ((9 <=? n) && (n <=? 13)).

Fixpoint skip_spaces (s : chars) : chars :=
  match s with
  | c :: rest => if is_space c then skip_spaces rest else s
  | [] => []
  end.

(** The digits at the front, and the rest. *)
Fixpoint span_digits (s : chars) : chars * chars :=
  match s with
  | c :: rest => if is_digit c then let '(ds, rest) := span_digits rest in (c :: ds, rest) else ([], s)
  | [] => ([], [])
  end.

(** An optional sign at the front; [true] is a minus. *)
Definition sign (s : chars) : bool * chars :=
  match s with
  | c :: rest => if is_char "-" c then (true, rest) else if is_char "+" c then (false, rest) else (false, s)
  | [] => (false, [])
  end.

(** [std::tolower] in the C locale. *)
Definition tolower (c : ascii) : ascii :=
  let n := Z.of_nat (nat_of_ascii c) in
  if (65 <=? n) && (n <=? 90) then ascii_of_nat (Z.to_nat (n + 32)) else c.

(** [std::strstr(s, t) != nullptr]. *)
Fixpoint contains (t s : chars) : bool :=
  starts_with t s || match s with [] => false | _ :: rest => contains t rest end.

Definition string_is (s : chars) (t : string) : bool := bool_decide (s = to_chars t).

(** ** The environment *)

(** What [validate_ld_preload] does: [None] is [exit(EXIT_FAILURE)]; otherwise whether it warns. *)
Definition validate_ld_preload (is_bridge_process : bool) (ld_preload : option chars) : option bool :=
  if is_bridge_process then Some false
  else match ld_preload with
  | None => None
  | Some s =>
      if negb (contains (to_chars "libagnocast_heaphook.so") s) then None
      else Some (bool_decide (length (split_at (is_char ":") s) = 1%nat))
  end.

(** [std::strtoul] in base 10: the value, [*end == '\0'] and [errno == 0]. *)
Definition strtoul (s : chars) : Z * bool * bool :=
  let '(minus, rest) := sign (skip_spaces s) in
  let '(ds, rest) := span_digits rest in
  if bool_decide (ds = []) then (0, bool_decide (s = []), true)
  else
    let v := digits_value 0 ds in
    if 2 ^ 64 <=? v then (2 ^ 64 - 1, bool_decide (rest = []), false)
    else (if minus then u64 (- v) else v, bool_decide (rest = []), true).

Definition get_ros_domain_id (env : option chars) : Z :=
  match env with
  | None | Some [] => 0
  | Some s =>
      let '(value, at_end, no_error) := strtoul s in
      if negb at_end || negb no_error || (2 ^ 32 - 1 <? value) then 0 else u32 value
  end.

Definition bridge_domain_suffix (env : option chars) : chars :=
  let domain_id := get_ros_domain_id env in
  if domain_id =? 0 then [] else to_chars "_d" ++ to_string domain_id.

(** [inode]: what [get_self_ipc_ns_inode] returned. *)
Definition create_uds_addr_for_bridge (inode : Z) (env : option chars) : chars :=
  Ascii.zero :: to_chars "agnocast_bridge_manager_" ++ to_string inode ++ bridge_domain_suffix env.

Definition create_shm_name (pid : Z) : chars := to_chars "/agnocast@" ++ to_string pid.

Inductive BridgeMode := Off | On.
#[export] Instance BridgeMode_eq_dec : EqDecision BridgeMode.
Proof. solve_decision. Defined.

(** The deprecated and the unknown values warn and fall back to [On]. *)
Definition get_bridge_mode (env : option chars) : BridgeMode :=
  match env with
  | None => On
  | Some s =>
      let val := tolower <$> s in
      if string_is val "0" || string_is val "off" then Off else On
  end.

Definition discovery_agent_auto_fork_disabled (env : option chars) : bool :=
  match env with
  | None => false
  | Some v => string_is v "1" || string_is (tolower <$> v) "true" || string_is (tolower <$> v) "yes"
  end.

(** ** Versions *)

Record semver := Semver { major : Z; minor : Z; patch : Z }.

#[export] Instance semver_eq_dec : EqDecision semver.
Proof. solve_decision. Defined.

(** [ss >> x] for an [int64_t]: the number and what follows it; [None] sets failbit. *)
Definition extract_int64 (s : chars) : option (Z * chars) :=
  let '(minus, rest) := sign (skip_spaces s) in
  let '(ds, rest) := span_digits rest in
  require negb (bool_decide (ds = [])) orelse None;
  let v := if minus then - digits_value 0 ds else digits_value 0 ds in
  require (- 2 ^ 63 <=? v) && (v <? 2 ^ 63) orelse None;
  Some (v, rest).

(** [ss.get() == '.']. *)
Definition get_dot (s : chars) : option chars :=
  match s with
  | c :: rest => if is_char "." c then Some rest else None
  | [] => None
  end.

Definition parse_semver (version : chars) : option semver :=
  unwrap r := extract_int64 version orelse None;
  let '(major, s) := r in
  unwrap s := get_dot s orelse None;
  unwrap r := extract_int64 s orelse None;
  let '(minor, s) := r in
  unwrap s := get_dot s orelse None;
  unwrap r := extract_int64 s orelse None;
  let '(patch, s) := r in
  require bool_decide (skip_spaces s = []) orelse None;
  require negb ((major <? 0) || (minor <? 0) || (patch <? 0)) orelse None;
  Some (Semver (i32 major) (i32 minor) (i32 patch)).

Definition compare_to_minor_version (v1 v2 : semver) : bool :=
  (major v1 =? major v2) && (minor v1 =? minor v2).

Definition compare_to_patch_version (v1 v2 : semver) : bool :=
  (major v1 =? major v2) && (minor v1 =? minor v2) && (patch v1 =? patch v2).

Definition VERSION_BUFFER_LEN : nat := 32.

(** The characters up to the first NUL. *)
Fixpoint until_nul (s : chars) : chars :=
  match s with
  | c :: rest => if is_char Ascii.zero c then [] else c :: until_nul rest
  | [] => []
  end.

(** [heaphook_version] is the bytes at [heaphook_version_ptr], [lib_version] is [agnocastlib::VERSION],
    [ret_version] what the module copied out. *)
Definition is_version_consistent (lib_version heaphook_version ret_version : chars) : bool :=
  match parse_semver lib_version, parse_semver (until_nul (take (VERSION_BUFFER_LEN - 1) heaphook_version)),
        parse_semver (until_nul ret_version) with
  | Some lib_ver, Some heaphook_ver, Some kmod_ver =>
      compare_to_patch_version lib_ver heaphook_ver && compare_to_minor_version lib_ver kmod_ver
  | _, _, _ => false
  end.

(** [agnocast_ioctl_get_version] of the module: [strscpy] of its VERSION. *)
Definition agnocast_ioctl_get_version (version : chars) : chars := take (VERSION_BUFFER_LEN - 1) (until_nul version).

(** ** Initialisation *)

Inductive daemon := UnlinkDaemon | BridgeManagerDaemon | DiscoveryAgentDaemon (agent_path : chars).

(** What the process finds: [agnocast_fd] already open, [open] of the device, the reply of GET_VERSION, the versions and
    the environment; [agent_path] is what [resolve_discovery_agent_path] returns. *)
Record boot := Boot {
  already_open : bool; open_ok : bool; kmod_version : option chars; heaphook_version : chars; lib_version : chars;
  ROS_DOMAIN_ID : option chars; AGNOCAST_BRIDGE_MODE : option chars; AGNOCAST_NO_DISCOVERY_AGENT : option chars;
  agent_path : chars }.

(** The daemons spawned, in order. *)
Definition daemons_spawned (b : boot) (ret : add_process_ret) : list daemon :=
  (if negb (ret_unlink_daemon_exist ret) then [UnlinkDaemon] else []) ++
  (if bool_decide (get_bridge_mode (AGNOCAST_BRIDGE_MODE b) = On) && negb (ret_bridge_daemon_exist ret)
   then [BridgeManagerDaemon] else []) ++
  (if negb (ret_discovery_agent_exist ret) && negb (discovery_agent_auto_fork_disabled (AGNOCAST_NO_DISCOVERY_AGENT b))
   then if bool_decide (agent_path b = []) then [] else [DiscoveryAgentDaemon (agent_path b)] else []).

(** [None]: [exit(EXIT_FAILURE)].  The addresses are those [map_writable_area] is called with, zero where the module
    assigned none. *)
Definition initialize_agnocast `{KernelHash} (b : boot) (u : user) (k : kstate) : kstate * option (list daemon * (Z * Z)) :=
  require negb (already_open b) orelse (k, None);
  require open_ok b orelse (k, None);
  unwrap ret_version := kmod_version b orelse (k, None);
  require is_version_consistent (lib_version b) (heaphook_version b) ret_version orelse (k, None);
  let domain_id := get_ros_domain_id (ROS_DOMAIN_ID b) in
  require negb (domain_id =? AGNOCAST_DOMAIN_ID_NONE) orelse (k, None);
  match add_process_cmd u k 0 domain_id with
  | (k, Ok (ProcessReply ret)) => (k, Some (daemons_spawned b ret, default (0, 0) (ret_mempool ret)))
  | (k, _) => (k, None)
  end.

(** ** The unlink daemon *)

(** The inner loop of [poll_for_unlink]: the names unlinked, and [ret_daemon_should_exit] of the last call; [None] is
    [exit(EXIT_FAILURE)].  The fuel bounds the turns. *)
Fixpoint unlink_exited `{KernelHash} (fuel : nat) (u : user) (k : kstate) : kstate * list chars * option bool :=
  match fuel with
  | O => (k, [], None)
  | S fuel =>
      match get_exit_process_cmd u k with
      | (k, Ok (ExitReply ret_pid should_exit)) =>
          if 0 <? ret_pid then
            let '(k, names, r) := unlink_exited fuel u k in (k, create_shm_name ret_pid :: names, r)
          else (k, [], Some should_exit)
      | (k, _) => (k, [], None)
      end
  end.
