(* ===== verification/StartUpTheorems.v ===== *)
(** * Start-up of a process: theorems

    The version check accepts what it is meant to, the names a process derives from its pid, its namespace and its
    domain are its own, and a round of the unlink daemon leaves no exited process behind. *)

From Stdlib Require Import Ascii.
From S2P Require Import Prelude Strings Kernel KMempool KTypes KRules KTopic KMessage KCleanup KRegistry.
From S2P Require Import KState KInvariant KSystem KIoctl KTheorems StartUp.

(** ** Specification *)

Definition print_semver (v : semver) : chars :=
  to_string (major v) ++ "."%char :: to_string (minor v) ++ "."%char :: to_string (patch v).

(** The components are [int]s, and the text fits the buffers. *)
Definition printable (v : semver) : Prop :=
  0 <= major v < 2 ^ 31 /\ 0 <= minor v < 2 ^ 31 /\ 0 <= patch v < 2 ^ 31 /\ (length (print_semver v) < VERSION_BUFFER_LEN)%nat.

(** ** Lemmas: numbers in text *)

Lemma to_string_value z : 0 <= z < 10 ^ 20 -> digits_value 0 (to_string z) = z.
Proof.
  intros Hz. unfold to_string. assert ((z <? 0) = false) as -> by (apply Z.ltb_ge; lia).
  by rw decimal_value; [|lia|lia].
Qed.

Lemma to_string_cons z : 0 <= z -> exists c s, to_string z = c :: s /\ is_digit c = true.
Proof.
  intros Hz. pose proof (to_string_digits z Hz) as Hd. destruct (to_string_last z Hz) as (s & c & E & _).
  destruct (to_string z) as [|d t]; [by destruct s|]. apply Forall_cons in Hd as [Hd _]. by exists d, t.
Qed.

Lemma span_digits_app ds rest : Forall (fun c => is_digit c = true) ds ->
  match rest with c :: _ => is_digit c = false | [] => True end -> span_digits (ds ++ rest) = (ds, rest).
Proof.
  intros Hds Hr. induction Hds as [|c ds Hc _ IH]; simpl; [|by rw Hc IH].
  destruct rest as [|c rest]; [done|]. simpl. by rw Hr.
Qed.

(** A digit is neither a space nor a sign. *)
Lemma digit_starts c s : is_digit c = true -> skip_spaces (c :: s) = c :: s /\ sign (c :: s) = (false, c :: s).
Proof.
  intros Hc. split.
  - simpl. assert (is_space c = false) as ->; [|done]. unfold is_space. unfold is_digit in Hc. bool_to_prop.
    apply orb_false_iff. split; [apply Z.eqb_neq; lia|apply andb_false_iff; right; apply Z.leb_gt; lia].
  - unfold sign. rw !digit_not; done.
Qed.

Lemma extract_to_string z rest : 0 <= z < 2 ^ 63 -> match rest with c :: _ => is_digit c = false | [] => True end ->
  extract_int64 (to_string z ++ rest) = Some (z, rest).
Proof.
  intros Hz Hr. destruct (to_string_cons z) as (c & s & E & Hc); [lia|]. unfold extract_int64.
  destruct (digit_starts c (s ++ rest) Hc) as [H1 H2]. rw E. simpl app. rw H1 H2.
  change (c :: s ++ rest) with ((c :: s) ++ rest). rw -E (span_digits_app _ _ _ Hr); [|apply to_string_digits; lia].
  rw bool_decide_false; [|by rw E]. simpl. rw to_string_value; [|lia].
  assert ((- 2 ^ 63 <=? z) && (z <? 2 ^ 63) = true) as E2 by (apply andb_true_iff; split; [apply Z.leb_le|apply Z.ltb_lt]; lia).
  simpl in E2. by rw E2.
Qed.

Lemma i32_small z : 0 <= z < 2 ^ 31 -> i32 z = z.
Proof. intros Hz. unfold i32. rw Z.mod_small; [|lia]. by destruct (Z.ltb_spec z (2 ^ 31)); [|lia]. Qed.

Lemma parse_print v : 0 <= major v < 2 ^ 31 -> 0 <= minor v < 2 ^ 31 -> 0 <= patch v < 2 ^ 31 ->
  parse_semver (print_semver v) = Some v.
Proof.
  intros H1 H2 H3. destruct v as [ma mi pa]. simpl in *. unfold parse_semver, print_semver. simpl.
  rw extract_to_string; [|lia|done]. simpl. rw extract_to_string; [|lia|done]. simpl.
  pose proof (extract_to_string pa [] ltac:(lia) I) as E. rewrite app_nil_r in E. rw E. simpl.
  assert ((ma <? 0) || (mi <? 0) || (pa <? 0) = false) as -> by (rw !orb_false_iff !Z.ltb_ge; lia).
  simpl. by rw !i32_small.
Qed.

Lemma until_nul_same s : Forall (fun c => is_char Ascii.zero c = false) s -> until_nul s = s.
Proof. induction 1 as [|c s Hc _ IH]; [done|]. simpl. by rw Hc IH. Qed.

Lemma print_no_nul v : 0 <= major v -> 0 <= minor v -> 0 <= patch v -> Forall (fun c => is_char Ascii.zero c = false) (print_semver v).
Proof.
  intros H1 H2 H3. unfold print_semver. apply Forall_app. split; [by apply to_string_no|]. constructor; [done|].
  apply Forall_app. split; [by apply to_string_no|]. constructor; [done|by apply to_string_no].
Qed.

Lemma until_nul_print v : printable v -> until_nul (take (VERSION_BUFFER_LEN - 1) (print_semver v)) = print_semver v /\
  until_nul (print_semver v) = print_semver v.
Proof.
  intros (H1 & H2 & H3 & H4). rw take_ge; [|unfold VERSION_BUFFER_LEN in *; lia]. split; apply until_nul_same, print_no_nul; lia.
Qed.

(** ** Theorems: versions *)

(** The versions are consistent exactly when the heap hook's is the library's and the module's agrees with it up to
    the patch number, through the buffers the strings are copied to. *)
Theorem versions_checked l h k : printable l -> printable h -> printable k ->
  is_version_consistent (print_semver l) (print_semver h) (agnocast_ioctl_get_version (print_semver k)) = true <->
  h = l /\ major k = major l /\ minor k = minor l.
Proof.
  intros Hl Hh Hk. unfold is_version_consistent, agnocast_ioctl_get_version.
  destruct (until_nul_print h Hh) as [Eh _]. destruct (until_nul_print k Hk) as [Ek1 Ek]. rw Eh Ek.
  assert (until_nul (take (VERSION_BUFFER_LEN - 1) (print_semver k)) = print_semver k) as -> by done.
  destruct Hl as (? & ? & ? & _), Hh as (? & ? & ? & _), Hk as (? & ? & ? & _). rw !parse_print; try done.
  unfold compare_to_patch_version, compare_to_minor_version. rw !andb_true_iff !Z.eqb_eq. destruct l, h, k. simpl.
  split; [intros ([[-> ->] ->] & -> & ->); done|by intros ([= -> -> ->] & -> & ->)].
Qed.

(** ** Theorems: names *)

Lemma to_string_inj_u64 a b : 0 <= a < 2 ^ 64 -> 0 <= b < 2 ^ 64 -> to_string a = to_string b -> a = b.
Proof. intros Ha Hb E. rw -(to_string_value a) ?E; [|lia]. apply to_string_value. lia. Qed.

Lemma get_ros_domain_id_range env : 0 <= get_ros_domain_id env < 2 ^ 32.
Proof.
  unfold get_ros_domain_id. destruct env as [[|c s]|]; [lia| |lia]. destruct (strtoul _) as [[v e] n].
  destruct (_ || _); [lia|]. unfold u32. apply Z.mod_pos_bound. lia.
Qed.

(** A domain that is printed is read back. *)
Lemma domain_id_printed d : 0 <= d < 2 ^ 32 -> get_ros_domain_id (Some (to_string d)) = d.
Proof.
  intros Hd. destruct (to_string_cons d) as (c & s & E & Hc); [lia|]. unfold get_ros_domain_id, strtoul.
  destruct (digit_starts c s Hc) as [H1 H2]. rw E H1 H2 -E.
  pose proof (span_digits_app (to_string d) [] (to_string_digits d ltac:(lia)) I) as Es. rewrite app_nil_r in Es. rw Es.
  rw bool_decide_false; [|by rw E]. rw to_string_value; [|lia].
  assert ((2 ^ 64 <=? d) = false) as E1 by (apply Z.leb_gt; lia). simpl in E1. rw E1. simpl.
  assert ((2 ^ 32 - 1 <? d) = false) as E2 by (apply Z.ltb_ge; lia). simpl in E2. rw E2. unfold u32. apply Z.mod_small. lia.
Qed.

(** Two processes look for a bridge manager under one address only if they are in one IPC namespace and in one domain
    of it; and a process's shared memory bears no other process's name. *)
Theorem names_isolate i1 i2 e1 e2 p1 p2 :
  0 <= i1 < 2 ^ 64 -> 0 <= i2 < 2 ^ 64 -> 0 <= p1 < 2 ^ 31 -> 0 <= p2 < 2 ^ 31 ->
  (create_uds_addr_for_bridge i1 e1 = create_uds_addr_for_bridge i2 e2 <->
   i1 = i2 /\ get_ros_domain_id e1 = get_ros_domain_id e2) /\
  (create_shm_name p1 = create_shm_name p2 <-> p1 = p2).
Proof.
  intros Hi1 Hi2 Hp1 Hp2. split.
  - unfold create_uds_addr_for_bridge, bridge_domain_suffix.
    pose proof (get_ros_domain_id_range e1) as Hd1. pose proof (get_ros_domain_id_range e2) as Hd2.
    generalize dependent (get_ros_domain_id e1). generalize dependent (get_ros_domain_id e2). intros d2 Hd2 d1 Hd1.
    split; [|by intros [-> ->]]. intros [= E]. pose proof (to_string_no i1 "_" ltac:(lia) eq_refl) as N1.
    pose proof (to_string_no i2 "_" ltac:(lia) eq_refl) as N2.
    assert (forall i d, 0 <= i -> Forall (fun c => is_char "_" c = false) (to_string i) -> d <> 0 -> forall j, 0 <= j ->
      Forall (fun c => is_char "_" c = false) (to_string j) -> to_string i ++ to_chars "_d" ++ to_string d <> to_string j) as Hno.
    { intros i d _ _ Hd j _ Hj He. rewrite -He in Hj. apply Forall_app in Hj as [_ Hj]. simpl in Hj.
      apply Forall_cons in Hj as [Hj _]. done. }
    destruct (Z.eqb_spec d1 0) as [->|H1], (Z.eqb_spec d2 0) as [->|H2]; rewrite ?app_nil_r in E.
    + split; [by apply to_string_inj_u64|done].
    + exfalso. by apply (Hno i2 d2 ltac:(lia) N2 H2 i1 ltac:(lia) N1).
    + exfalso. by apply (Hno i1 d1 ltac:(lia) N1 H1 i2 ltac:(lia) N2).
    + apply (app_cons_inj (is_char "_")) in E as [E1 [= E2]]; [|done|done|done].
      split; [by apply to_string_inj_u64|]. apply to_string_inj_u64; [lia|lia|done].
  - unfold create_shm_name. split; [|by intros ->]. intros E. apply (app_inv_head (to_chars "/agnocast@")) in E.
    apply to_string_inj_u64; [lia|lia|done].
Qed.

(** ** The unlink daemon *)

Section unlink.
Context `{KernelHash} (u : user).
Local Abbreviation ns := (current_ipc_ns (kernel_env u)).
Local Abbreviation me := (current_tgid (kernel_env u)).
Hypothesis Hcopy : forall n, copy_ok u n = true.

Lemma unlink_drain fuel : forall k l b ps p, Forall (fun p => 0 <= global_pid p) (procs k) ->
  drain_exited fuel (procs k) (pool k) ns me = Some (l, b, ps, p) -> Forall (fun pid => 0 < pid) l ->
  unlink_exited fuel u k =
    (set_reg (Registry ps (discovery_agent_htable (reg k)) p) k, create_shm_name <$> l, Some b).
Proof.
  induction fuel as [|fuel IH]; intros k l b ps p Hpos Hrun Hl; [done|]. rewrite drain_exited_S in Hrun.
  cbn [unlink_exited]. unfold get_exit_process_cmd. pose proof (get_exit_process_spec (procs k) ns Hpos) as Hg.
  destruct (agnocast_ioctl_get_exit_process (procs k) ns) as [g loc] eqn:E.
  destruct (agnocast_commit_exit_process (procs k) (pool k) ns g me) as [[ps1 p1] b1] eqn:Ec. rw !Hcopy.
  destruct (filter (is_exited_in ns) (procs k)) as [|q rest].
  - injection Hg as -> ->. simpl in Hrun. by injection Hrun as <- <- <- <-.
  - destruct Hg as [[= -> ->] Hg]. assert ((global_pid q <? 0) = false) as Eg by (by apply Z.ltb_ge). rewrite Eg in Hrun.
    destruct (drain_exited fuel ps1 p1 ns me) as [[[[l1 b2] ps2] p2]|] eqn:Ed; [|done]. injection Hrun as <- <- <- <-.
    apply Forall_cons in Hl as [Hq Hl]. rw (proj2 (Z.ltb_lt _ _) Hq).
    set (k1 := set_reg (Registry ps1 (discovery_agent_htable (reg k)) p1) k).
    rw (IH k1 l1 b2 ps2 p2); [done| |exact Ed|done].
    change (procs k1) with ps1. unfold agnocast_commit_exit_process in Ec.
    rewrite Eg andb_false_r in Ec. simpl in Ec. injection Ec as <- _ _.
    destruct (0 <=? global_pid q); [|done]. apply Forall_forall. intros x Hx. rewrite Forall_forall in Hpos. apply Hpos.
    eapply elem_of_sublist; [exact Hx|apply remove_process_sublist].
Qed.
End unlink.

(** C13. A round of the unlink daemon ends after a call for each exited process of its namespace and an idle one: it has
    unlinked the shared memory of each of them, in turn and no other, the module has forgotten them and kept the others
    (but for the daemon, if it is to exit), and the daemon leaves its loop exactly if only daemons are left. *)
Theorem unlink_round_complete `{KernelHash} u k :
  (forall n, copy_ok u n = true) -> NoDup (global_pid <$> procs k) ->
  Forall (fun p => 0 <= global_pid p /\ (is_exited_in (current_ipc_ns (kernel_env u)) p -> 0 < local_pid p)) (procs k) ->
  let ns := current_ipc_ns (kernel_env u) in
  let exits := filter (is_exited_in ns) (procs k) in
  let others := filter (fun p => ~ is_exited_in ns p) (procs k) in
  exists k' b, unlink_exited (S (length exits)) u k = (k', create_shm_name <$> (local_pid <$> exits), Some b) /\
    b = (get_process_num_except_unlink_daemon others ns =? 0) /\
    (procs k' = others \/ b = true /\ procs k' = remove_process others (current_tgid (kernel_env u))) /\
    topics k' = topics k.
Proof.
  intros Hcopy Hnd Hall ns exits others.
  assert (Forall (fun p => 0 <= global_pid p) (procs k)) as Hpos by (eapply Forall_impl; [exact Hall|]; by intros x [? _]).
  destruct (drain_exited_complete (procs k) (pool k) ns (current_tgid (kernel_env u)) Hnd Hpos) as (b & ps & p & Hrun & Hb & Hps).
  eexists _, b. split; [apply unlink_drain; [done|done|exact Hrun|]|by split_and!].
  apply Forall_fmap, Forall_forall. intros x [Hx Hin]%list_elem_of_filter. rewrite Forall_forall in Hall. by apply Hall.
Qed.

(** ** Witnesses *)

Lemma versions_checked_witness :
  is_version_consistent (to_chars "2.3.4") (to_chars "2.3.4") (agnocast_ioctl_get_version (to_chars "2.3.9")) = true.
Proof.
  apply (versions_checked (Semver 2 3 4) (Semver 2 3 4) (Semver 2 3 9));
    [split_and!; simpl; (lia || (vm_compute; lia))..|split; [reflexivity|split; reflexivity]].
Defined.

Lemma names_isolate_witness : create_uds_addr_for_bridge 4026531839 (Some (to_chars "7")) <> create_uds_addr_for_bridge 4026531839 None.
Proof.
  intros E. destruct (names_isolate 4026531839 4026531839 (Some (to_chars "7")) None 1 1 ltac:(lia) ltac:(lia) ltac:(lia) ltac:(lia))
    as [[H1 _] _]. destruct (H1 E) as [_ H2]. vm_compute in H2. discriminate H2.
Defined.

(** Two processes of the namespace have exited, one has not. *)
Definition sample_exits : kstate := set_reg (Registry
  [ProcessInfo true PROCESS_ROLE_APPLICATION 100 100 0 1 0; ProcessInfo false PROCESS_ROLE_APPLICATION 200 200 1 1 0;
   ProcessInfo true PROCESS_ROLE_APPLICATION 300 300 2 1 0] [] sample_pools) (init_kstate 1073741824 sample_pools).

Lemma unlink_round_complete_witness : exists k' b, @unlink_exited length_hash 3 (sample_user 400) sample_exits =
    (k', [to_chars "/agnocast@100"; to_chars "/agnocast@300"], Some b) /\ b = false.
Proof.
  destruct (unlink_round_complete (H := length_hash) (sample_user 400) sample_exits (fun n => eq_refl)
    ltac:(apply (bool_decide_unpack _); vm_compute; exact I) ltac:(repeat constructor; simpl; lia)) as (k' & b & H1 & H2 & _).
  exists k', b. split; [exact H1|]. rewrite H2. vm_compute. reflexivity.
Defined.
