(* ===== verification/TypeRegistry.v ===== *)
(** * Announcement of message types

    Model of [TypeRegistryWriter] (agnocastlib/src/internal/type_registry_writer.cpp), which every publisher and
    subscription tells its message type before it is registered, and of the reader of its files, [TypeRegistryReader] of
    ros2agnocast_discovery_agent/type_registry.py, whose text is taken to be ASCII. *)

From Stdlib Require Import Ascii.
From S2P Require Import Prelude Strings.

(** ** The writer *)

Definition tab : ascii := ascii_of_nat 9.
Definition newline : ascii := ascii_of_nat 10.

(** [g_base_dir], from AGNOCAST_TMPFS_DIR. *)
Definition g_base_dir (env : option chars) : chars :=
  match env with
  | Some (c :: s) => (c :: s) ++ to_chars "/agnocast_type_registry"
  | _ => to_chars "/dev/shm/agnocast_type_registry"
  end.

(** [mkdir] and, if the path is there, what [stat] says of it: whether it is a directory. *)
Inductive mkdir_result := Made | Exists (is_dir : option bool) | MkdirFailed.

Definition ensure_dir (r : mkdir_result) : bool :=
  match r with
  | Made => true
  | Exists (Some is_dir) => is_dir
  | Exists None | MkdirFailed => false
  end.

(** What the calls of [ensure_open_locked] return. *)
Record open_calls := OpenCalls {
  ns_inode : option Z; mkdir_base : mkdir_result; mkdir_ns : mkdir_result; open_ok : bool; atexit_ok : bool }.

(** [fd_ != -1], [open_failed_warned_], [path_] and the static [atexit_registered]. *)
Record writer := Writer { fd_open : bool; open_failed_warned : bool; path : chars; atexit_registered : bool }.

Definition new_writer : writer := Writer false false [] false.

Definition registry_path (base_dir : chars) (inode pid : Z) : chars :=
  base_dir ++ to_chars "/" ++ to_string inode ++ to_chars "/" ++ to_string pid ++ to_chars ".txt".

Definition ensure_open_locked (o : open_calls) (base_dir : chars) (pid : Z) (w : writer) : writer :=
  let failed (path : chars) := Writer false true path (atexit_registered w) in
  if fd_open w then w
  else if open_failed_warned w then w
  else match ns_inode o with
  | None => failed (path w)
  | Some inode =>
      if negb (ensure_dir (mkdir_base o)) then failed (path w)
      else if negb (ensure_dir (mkdir_ns o)) then failed (path w)
      else
        let path := registry_path base_dir inode pid in
        if negb (open_ok o) then failed path
        else Writer true (open_failed_warned w) path (atexit_registered w || atexit_ok o)
  end.

Record announcement := Announcement { topic_name : chars; type_name : chars; role : chars; node_name : chars }.

Definition line_of (a : announcement) : chars :=
  topic_name a ++ [tab] ++ type_name a ++ [tab] ++ role a ++ [tab] ++ node_name a ++ [newline].

(** What a [write] did: so many bytes, EINTR, or another failure. *)
Inductive write_result := Wrote (n : nat) | Interrupted | WriteFailed.

(** The loop that drains short writes: the file after it, and whether all of [data] is in it.  The writes given are those
    made before the process ends, if it ends here. *)
Fixpoint write_all (ws : list write_result) (data file : chars) : chars * bool :=
  match data with
  | [] => (file, true)
  | _ :: _ =>
      match ws with
      | [] => (file, false)
      | Wrote n :: ws =>
          if bool_decide (n = 0%nat) then (file, false) else write_all ws (drop n data) (file ++ take n data)
      | Interrupted :: ws => write_all ws data file
      | WriteFailed :: _ => (file, false)
      end
  end.

(** [file]: what the file of the process holds; it is opened with O_APPEND and never truncated. *)
Definition register_type (o : open_calls) (base_dir : chars) (pid : Z) (a : announcement) (ws : list write_result)
    (w : writer) (file : chars) : writer * chars :=
  let w := ensure_open_locked o base_dir pid w in
  if negb (fd_open w) then (w, file) else (w, (write_all ws (line_of a) file).1).

(** The handler of [atexit]: [None] is no file. *)
Definition on_process_exit (w : writer) (file : chars) : writer * option chars :=
  (Writer false (open_failed_warned w) (path w) (atexit_registered w),
   if bool_decide (path w = []) then Some file else None).

(** ** The reader *)

(** The characters [str.splitlines] ends a line at; CR LF is one end. *)
Definition is_boundary (c : ascii) : bool :=
  let n := Z.of_nat (nat_of_ascii c) in ((10 <=? n) && (n <=? 13)) || ((28 <=? n) && (n <=? 30)).

Fixpoint splitlines (s : chars) : list chars :=
  match s with
  | [] => []
  | c :: rest =>
      if is_boundary c then
        match rest with
        | d :: rest' =>
            if is_char (ascii_of_nat 13) c && is_char newline d then [c; d] :: splitlines rest'
            else [c] :: splitlines rest
        | [] => [[c]]
        end
      else match splitlines rest with [] => [[c]] | l :: ls => (c :: l) :: ls end
  end.

(** (topic, role, node) to (pid, type). *)
Definition registry_table : Type := gmap (chars * chars * chars) (Z * chars).

Definition ingest_line (pid : Z) (table : registry_table) (raw_line : chars) : registry_table :=
  if bool_decide (last raw_line = Some newline) then
    match split_at (is_char tab) (removelast raw_line) with
    | topic :: ty :: role :: node :: _ =>
        if bool_decide (role = to_chars "pub") || bool_decide (role = to_chars "sub")
        then <[(topic, role, node) := (pid, ty)]> table else table
    | _ => table
    end
  else table.

Definition ingest_file (pid : Z) (data : chars) (table : registry_table) : registry_table :=
  fold_left (ingest_line pid) (splitlines data) table.

Definition lookup_type (topic role node : chars) (table : registry_table) : option (Z * chars) := table !! (topic, role, node).

(** ** Specification *)

(** A field of a line: neither a tab nor the end of a line is in it. *)
Definition clean (s : chars) : Prop := Forall (fun c => is_char tab c = false /\ is_boundary c = false) s.

Record well_formed (a : announcement) : Prop := {
  wf_topic : clean (topic_name a); wf_type : clean (type_name a); wf_node : clean (node_name a);
  wf_role : role a = to_chars "pub" \/ role a = to_chars "sub" }.

Definition announce (pid : Z) (table : registry_table) (a : announcement) : registry_table :=
  <[(topic_name a, role a, node_name a) := (pid, type_name a)]> table.

(** ** Lemmas *)

Lemma splitlines_line s rest : Forall (fun c => is_boundary c = false) s ->
  splitlines (s ++ newline :: rest) = (s ++ [newline]) :: splitlines rest.
Proof.
  intros Hs. induction Hs as [|c s Hc _ IH]; [by destruct rest|]. simpl app. cbn [splitlines]. by rw Hc IH.
Qed.

Lemma splitlines_tail s : Forall (fun c => is_boundary c = false) s -> splitlines s = match s with [] => [] | _ => [s] end.
Proof. intros Hs. induction Hs as [|c s Hc _ IH]; [done|]. cbn [splitlines]. rw Hc IH. by destruct s. Qed.

Lemma removelast_end (s : chars) c : removelast (s ++ [c]) = s.
Proof. by apply removelast_last. Qed.

Lemma clean_boundary s : clean s -> Forall (fun c => is_boundary c = false) s.
Proof. intros Hs. eapply Forall_impl; [exact Hs|]. by intros c [_ ?]. Qed.

Lemma clean_tab s : clean s -> Forall (fun c => is_char tab c = false) s.
Proof. intros Hs. eapply Forall_impl; [exact Hs|]. by intros c [? _]. Qed.

(** The text of a line without its end. *)
Definition body_of (a : announcement) : chars :=
  topic_name a ++ [tab] ++ type_name a ++ [tab] ++ role a ++ [tab] ++ node_name a.

Lemma line_body a : line_of a = body_of a ++ [newline].
Proof. unfold line_of, body_of. by rewrite -!app_assoc. Qed.

Lemma role_clean a : well_formed a -> clean (role a).
Proof. intros [_ _ _ [-> | ->]]; repeat constructor. Qed.

Lemma body_boundary a : well_formed a -> Forall (fun c => is_boundary c = false) (body_of a).
Proof.
  intros Hw. pose proof (role_clean a Hw) as Hr. destruct Hw as [H1 H2 H3 _]. unfold body_of.
  repeat (apply Forall_app; split; [first [by apply clean_boundary|by repeat constructor]|]). by apply clean_boundary.
Qed.

Lemma ingest_announced pid a table : well_formed a -> ingest_line pid table (line_of a) = announce pid table a.
Proof.
  intros Hw. pose proof (role_clean a Hw) as Hr. destruct Hw as [H1 H2 H3 H4]. unfold ingest_line. rw line_body.
  rw last_snoc. rw bool_decide_true; [|done]. rw removelast_end. unfold body_of. simpl app.
  rw !split_at_app; [|by apply clean_tab|done|by apply clean_tab|done|by apply clean_tab|done].
  rw (split_at_none _ (node_name a)); [|by apply clean_tab]. unfold announce. by destruct H4 as [-> | ->].
Qed.

Lemma ingest_line_rest pid a rest table : well_formed a ->
  ingest_file pid (line_of a ++ rest) table = ingest_file pid rest (announce pid table a).
Proof.
  intros Hw. unfold ingest_file. rw line_body -app_assoc. simpl app. rw splitlines_line; [|by apply body_boundary].
  simpl fold_left. by rw -line_body ingest_announced.
Qed.

Lemma ingest_lines pid l rest table : Forall well_formed l ->
  ingest_file pid (concat (line_of <$> l) ++ rest) table = ingest_file pid rest (fold_left (announce pid) l table).
Proof.
  intros Hl. revert table. induction Hl as [|a l Ha _ IH]; intros table; [done|].
  rw fmap_cons. simpl concat. rw -app_assoc ingest_line_rest; [|done]. by rw IH.
Qed.

(** A line of which a part is missing is not read. *)
Lemma ingest_torn pid a n table : well_formed a -> (n < length (line_of a))%nat ->
  ingest_file pid (take n (line_of a)) table = table.
Proof.
  intros Hw Hn. rewrite line_body length_app in Hn. simpl in Hn. rw line_body take_app_le; [|lia].
  pose proof (body_boundary a Hw) as Hb. assert (Forall (fun c => is_boundary c = false) (take n (body_of a))) as Ht by (by apply Forall_take).
  unfold ingest_file. rw splitlines_tail; [|done]. destruct (take n (body_of a)) as [|c s] eqn:E; [done|]. simpl.
  unfold ingest_line. rw bool_decide_false; [done|]. intros Hl. apply last_Some_elem_of in Hl.
  rewrite Forall_forall in Ht. by apply Ht in Hl.
Qed.

(** However the writes went, what is in the file is the front of the data; all of it if the loop says so. *)
Lemma write_all_front ws data file : exists n, (write_all ws data file).1 = file ++ take n data /\
  (if (write_all ws data file).2 then n = length data else (n < length data)%nat).
Proof.
  revert data file. induction ws as [|[n| |] ws IH]; intros data file; (destruct data as [|c data]; [exists 0%nat; simpl; by rw app_nil_r|]); cbn [write_all].
  - exists 0%nat. simpl. rw app_nil_r. split; [done|lia].
  - case_bool_decide as Hn; [exists 0%nat; simpl; rw app_nil_r; split; [done|lia]|].
    destruct (IH (drop n (c :: data)) (file ++ take n (c :: data))) as (m & H1 & H2). rewrite length_drop in H2.
    destruct (decide (n <= length (c :: data))%nat) as [Hle|Hgt].
    + exists (n + m)%nat. split; [rw H1 -app_assoc; f_equal; by rw -take_take_drop|].
      destruct (write_all _ _ _).2; lia.
    + exists (length (c :: data)). split.
      * rw H1. rw (drop_ge _ n); [|lia]. rw take_nil app_nil_r. f_equal. rw !take_ge; [done|lia|lia].
      * destruct (write_all _ _ _).2; [done|]. lia.
  - apply IH.
  - exists 0%nat. simpl. rw app_nil_r. split; [done|lia].
Qed.

Lemma write_all_flag ws data file file' : (write_all ws data file).2 = (write_all ws data file').2.
Proof.
  revert data file file'. induction ws as [|[n| |] ws IH]; intros [|c data] file file'; try done; cbn [write_all].
  - case_bool_decide; [done|]. apply IH.
  - apply IH.
Qed.

(** All of the line is written. *)
Definition completes (x : announcement * list write_result) : bool := (write_all x.2 (line_of x.1) []).2.

(** The registrations of a process, one after another. *)
Fixpoint register_all (o : open_calls) (base_dir : chars) (pid : Z) (l : list (announcement * list write_result))
    (w : writer) (file : chars) : writer * chars :=
  match l with
  | [] => (w, file)
  | (a, ws) :: l => let '(w, file) := register_type o base_dir pid a ws w file in register_all o base_dir pid l w file
  end.

Lemma register_open o base_dir pid a ws w file : fd_open (ensure_open_locked o base_dir pid w) = true -> exists w' n,
  register_type o base_dir pid a ws w file = (w', file ++ take n (line_of a)) /\ fd_open w' = true /\
  if completes (a, ws) then n = length (line_of a) else (n < length (line_of a))%nat.
Proof.
  intros Hw. destruct (write_all_front ws (line_of a) file) as (n & H1 & H2). unfold completes. simpl.
  rw (write_all_flag ws (line_of a) [] file). exists (ensure_open_locked o base_dir pid w), n.
  split; [|done]. unfold register_type. rw Hw. simpl. by rw H1.
Qed.

Lemma register_all_lines o base_dir pid l : Forall (fun x => completes x = true) l -> forall w file,
  fd_open (ensure_open_locked o base_dir pid w) = true ->
  exists w', register_all o base_dir pid l w file = (w', file ++ concat (line_of <$> l.*1)) /\
    fd_open (ensure_open_locked o base_dir pid w') = true.
Proof.
  intros Hl. induction Hl as [|[a ws] l Ha _ IH]; intros w file Hw; [exists w; simpl; by rw app_nil_r|].
  cbn [register_all]. destruct (register_open o base_dir pid a ws w file Hw) as (w1 & n & -> & Hw1 & Hn). rewrite Ha in Hn. subst n.
  rw take_ge; [|lia]. destruct (IH w1 (file ++ line_of a)) as (w' & -> & Hw').
  { unfold ensure_open_locked. by rw Hw1. }
  exists w'. split; [|done]. rw fmap_cons. simpl. by rw -app_assoc.
Qed.

Lemma register_all_app o base_dir pid l1 l2 w file : register_all o base_dir pid (l1 ++ l2) w file =
  let '(w, file) := register_all o base_dir pid l1 w file in register_all o base_dir pid l2 w file.
Proof.
  revert w file. induction l1 as [|[a ws] l1 IH]; intros w file; [done|]. simpl.
  destruct (register_type _ _ _ _ _ _ _) as [w1 f1]. apply IH.
Qed.

(** ** Theorems *)

(** C37. What the processes announce is what the discovery agent reads: from an empty file, after any number of
    registrations whose lines were written out, through whatever short and interrupted writes, and a last one that the
    process may not have survived, the reader has an entry with this pid for every announced endpoint, the latest one
    for each, and no other; the last announcement is among them exactly if all of its line was written. *)
Theorem announced_types_read o base_dir pid l b ws :
  fd_open (ensure_open_locked o base_dir pid new_writer) = true ->
  Forall well_formed (l.*1 ++ [b]) -> Forall (fun x => completes x = true) l ->
  ingest_file pid (register_all o base_dir pid (l ++ [(b, ws)]) new_writer []).2 ∅ =
    fold_left (announce pid) (l.*1 ++ if completes (b, ws) then [b] else []) ∅.
Proof.
  intros Hopen [Hl Hb]%Forall_app Hc. apply Forall_cons in Hb as [Hb _]. rw register_all_app.
  destruct (register_all_lines o base_dir pid l Hc new_writer [] Hopen) as (w & -> & Hw). cbn [register_all].
  destruct (register_open o base_dir pid b ws w (concat (line_of <$> l.*1)) Hw) as (w' & n & Hr & _ & Hn).
  change ([] ++ ?x) with x. rw Hr. simpl snd. rw ingest_lines; [|done]. rw fold_left_app. destruct (completes (b, ws)).
  - subst n. rw take_ge; [|lia]. rewrite -(app_nil_r (line_of b)). by rewrite (ingest_line_rest pid b [] _ Hb).
  - by rw ingest_torn.
Qed.

Definition sample_calls : open_calls := OpenCalls (Some 4026531839) Made (Exists (Some true)) true true.
Definition sample_ann (topic ty role : string) : announcement :=
  Announcement (to_chars topic) (to_chars ty) (to_chars role) (to_chars "/n").

Lemma announced_types_read_witness :
  lookup_type (to_chars "/a") (to_chars "pub") (to_chars "/n") (ingest_file 100 (register_all sample_calls (g_base_dir None) 100
    ([(sample_ann "/a" "std_msgs/msg/String" "pub", [Wrote 3; Interrupted; Wrote 90])] ++
     [(sample_ann "/b" "std_msgs/msg/Int32" "sub", [Wrote 20; WriteFailed])]) new_writer []).2 ∅) =
  Some (100, to_chars "std_msgs/msg/String").
Proof.
  rewrite (announced_types_read sample_calls (g_base_dir None) 100
    [(sample_ann "/a" "std_msgs/msg/String" "pub", [Wrote 3; Interrupted; Wrote 90])]
    (sample_ann "/b" "std_msgs/msg/Int32" "sub") [Wrote 20; WriteFailed]).
  - vm_compute. reflexivity.
  - reflexivity.
  - repeat apply Forall_cons_2; [| |constructor];
      (split; [repeat constructor..|first [left; reflexivity|right; reflexivity]]).
  - repeat constructor.
Defined.

(** A registration that failed in mid-line tears the next one too, for its line goes on where the file ends: the reader
    has an endpoint that nobody announced, and misses the one that was. *)
Theorem torn_line_misread :
  let file := (register_all sample_calls (g_base_dir None) 100
    [(sample_ann "/a" "std_msgs/msg/String" "pub", [Wrote 2; WriteFailed]);
     (sample_ann "/b" "std_msgs/msg/Int32" "pub", [Wrote 100])] new_writer []).2 in
  lookup_type (to_chars "/a/b") (to_chars "pub") (to_chars "/n") (ingest_file 100 file ∅) = Some (100, to_chars "std_msgs/msg/Int32") /\
  lookup_type (to_chars "/b") (to_chars "pub") (to_chars "/n") (ingest_file 100 file ∅) = None.
Proof. split; vm_compute; reflexivity. Qed.

(** The file of a process that was killed is appended to by the next process with its pid: what the first one announced
    passes for the second one's. *)
Theorem stale_announcements_kept o base_dir pid l1 l2 :
  fd_open (ensure_open_locked o base_dir pid new_writer) = true ->
  Forall well_formed (l1.*1 ++ l2.*1) -> Forall (fun x => completes x = true) (l1 ++ l2) ->
  ingest_file pid (register_all o base_dir pid l2 new_writer (register_all o base_dir pid l1 new_writer []).2).2 ∅ =
    fold_left (announce pid) (l1.*1 ++ l2.*1) ∅.
Proof.
  intros Hopen Hw [H1 H2]%Forall_app. destruct (register_all_lines o base_dir pid l1 H1 new_writer [] Hopen) as (w1 & -> & _).
  destruct (register_all_lines o base_dir pid l2 H2 new_writer (concat (line_of <$> l1.*1)) Hopen) as (w2 & Hr & _).
  simpl app. simpl snd. rw Hr. simpl snd. rw -concat_app -fmap_app. rewrite -(app_nil_r (concat _)). by rw ingest_lines.
Qed.
