(* ===== verification/Services.v ===== *)
(** * Services and clients

    Calls over two topics: [Service] and [GenericService] (agnocast_service.hpp, agnocast_service.cpp),
    [Client] and [GenericClient] (agnocast_client.hpp, agnocast_client.cpp), the topic names of
    agnocast_utils.cpp, [wait_for_service] and the introspection state of
    agnocast_service_event_publisher.cpp.  The typed and the type-erased classes do the same here, but
    for how a message is freed.  Topics (modelled in the parts of the kernel and of the executors) hand a
    message to every subscription of the topic, which may lose it when its history is full. *)

From Stdlib Require Import Ascii.
From S2P Require Import Prelude Strings Kernel KTypes KQuery.

(** ** Names *)

Definition create_service_request_topic_name (service_name : string) : string :=
  of_chars (to_chars "/AGNOCAST_SRV_REQUEST" ++ to_chars service_name).

Definition create_service_response_topic_name (service_name client_node_name : string)
    (client_publisher_id : Z) : string :=
  of_chars (to_chars "/AGNOCAST_SRV_RESPONSE" ++ to_chars service_name ++ to_chars "_SEP_" ++
            to_chars client_node_name ++ to_chars "_SEP_" ++ to_string client_publisher_id).

(** ** Messages *)

Section services.
Context {Req Resp : Type}.

Record RequestMeta := MkRequestMeta { seqno : Z; client_gid : list Z; response_topic_name : string }.
Record request := MkRequest { request_meta : RequestMeta; request_payload : Req }.
Record response := MkResponse { response_seqno : Z; response_payload : Resp }.

(** ** Clients *)

(** The promise of a call is the number of its future; [callback]: whether there is one. *)
Record ResponseCallInfo := MkCallInfo { promise : nat; callback : bool }.

(** [loaned], [sending] and [resolving] are what the threads of the client hold: requests that are
    filled, requests registered but not published, responses taken out of the table. *)
Record Client := MkClient {
  client_service_name : string;
  client_node_name : string;
  client_publisher_id : Z;
  gid : list Z;
  response_topic_name_ : string;
  next_sequence_number_ : Z;
  seqno2_response_call_info_ : gmap Z ResponseCallInfo;
  loaned : list request;
  sending : list request;
  arrived : list response;
  resolving : list (ResponseCallInfo * response)
}.

(** [Client::constructor_impl]. *)
Definition new_client (service_name node_name : string) (publisher_id : Z) (g : list Z) : Client :=
  MkClient service_name node_name publisher_id g
    (create_service_response_topic_name service_name node_name publisher_id) 0 ∅ [] [] [] [].

Definition with_loaned (l : list request) (c : Client) : Client :=
  MkClient (client_service_name c) (client_node_name c) (client_publisher_id c) (gid c) (response_topic_name_ c)
    (next_sequence_number_ c) (seqno2_response_call_info_ c) l (sending c) (arrived c) (resolving c).
Definition with_sending (l : list request) (c : Client) : Client :=
  MkClient (client_service_name c) (client_node_name c) (client_publisher_id c) (gid c) (response_topic_name_ c)
    (next_sequence_number_ c) (seqno2_response_call_info_ c) (loaned c) l (arrived c) (resolving c).
Definition with_arrived (l : list response) (c : Client) : Client :=
  MkClient (client_service_name c) (client_node_name c) (client_publisher_id c) (gid c) (response_topic_name_ c)
    (next_sequence_number_ c) (seqno2_response_call_info_ c) (loaned c) (sending c) l (resolving c).
Definition with_resolving (l : list (ResponseCallInfo * response)) (c : Client) : Client :=
  MkClient (client_service_name c) (client_node_name c) (client_publisher_id c) (gid c) (response_topic_name_ c)
    (next_sequence_number_ c) (seqno2_response_call_info_ c) (loaned c) (sending c) (arrived c) l.
Definition with_table (m : gmap Z ResponseCallInfo) (c : Client) : Client :=
  MkClient (client_service_name c) (client_node_name c) (client_publisher_id c) (gid c) (response_topic_name_ c)
    (next_sequence_number_ c) m (loaned c) (sending c) (arrived c) (resolving c).
Definition with_next (n : Z) (c : Client) : Client :=
  MkClient (client_service_name c) (client_node_name c) (client_publisher_id c) (gid c) (response_topic_name_ c)
    n (seqno2_response_call_info_ c) (loaned c) (sending c) (arrived c) (resolving c).

(** The caller fills in the payload. *)
Definition borrow_loaned_request (q : Req) (c : Client) : Client :=
  let r := MkRequest (MkRequestMeta (next_sequence_number_ c) (gid c) (response_topic_name_ c)) q in
  with_loaned (loaned c ++ [r]) (with_next (i64 (next_sequence_number_ c + 1)) c).

(** [GenericClient::cancel_request], and dropping the handle of a typed request. *)
Definition cancel_request (k : nat) (c : Client) : Client := with_loaned (delete k (loaned c)) c.

(** The first half of [send_request_impl], with the future that the caller gets.  [try_emplace] keeps an
    entry that is there: with callbacks its future is shared, anything else throws ([None]). *)
Definition register_call (k : nat) (info : ResponseCallInfo) (c : Client) : option (request * nat * Client) :=
  unwrap r := loaned c !! k orelse None;
  let n := seqno (request_meta r) in
  let m := seqno2_response_call_info_ c in
  let c := with_sending (sending c ++ [r]) (with_loaned (delete k (loaned c)) c) in
  match m !! n with
  | Some old => require callback info && callback old orelse None; Some (r, promise old, c)
  | None => Some (r, promise info, with_table (<[n := info]> m) c)
  end.

(** The second half: [publisher_->publish]. *)
Definition take_sending (k : nat) (c : Client) : option (request * Client) :=
  unwrap r := sending c !! k orelse None;
  Some (r, with_sending (delete k (sending c)) c).

(** The critical section of [subscriber_callback]; [None] in the result: bad entry id. *)
Definition response_callback (c : Client) : option (option (ResponseCallInfo * response) * Client) :=
  match arrived c with
  | [] => None
  | r :: rest =>
      let c := with_arrived rest c in
      match seqno2_response_call_info_ c !! response_seqno r with
      | None => Some (None, c)
      | Some info =>
          Some (Some (info, r),
                with_resolving (resolving c ++ [(info, r)])
                  (with_table (delete (response_seqno r) (seqno2_response_call_info_ c)) c))
      end
  end.

(** ** Services *)

Inductive callback_kind := Basic | Deferred.

(** [accepted]: the requests handed to the user's callback and not answered yet.  [publishers_] has
    the creation number of each response publisher. *)
Record Service := MkService {
  service_name_ : string;
  kind : callback_kind;
  publishers_ : gmap string nat;
  requests : list request;
  accepted : list request
}.

Definition new_service (name : string) (k : callback_kind) : Service := MkService name k ∅ [] [].

Definition with_requests (l : list request) (s : Service) : Service :=
  MkService (service_name_ s) (kind s) (publishers_ s) l (accepted s).
Definition with_accepted (l : list request) (s : Service) : Service :=
  MkService (service_name_ s) (kind s) (publishers_ s) (requests s) l.
Definition with_publishers (m : gmap string nat) (s : Service) : Service :=
  MkService (service_name_ s) (kind s) m (requests s) (accepted s).

(** [valid]: whether the constructor of the publisher accepts the name; it throws otherwise. *)
Definition get_or_create_publisher_for (valid : bool) (topic : string) (s : Service) : option (nat * Service) :=
  match publishers_ s !! topic with
  | Some p => Some (p, s)
  | None =>
      require valid orelse None;
      let p := size (publishers_ s) in
      Some (p, with_publishers (<[topic := p]> (publishers_ s)) s)
  end.

(** The subscription's callback, up to the user's: a basic callback's request is dropped when its
    response topic is not valid. *)
Definition request_callback (valid : bool) (s : Service) : option (option request * Service) :=
  match requests s with
  | [] => None
  | r :: rest =>
      let s := with_requests rest s in
      match kind s with
      | Deferred => Some (None, with_accepted (accepted s ++ [r]) s)
      | Basic =>
          match get_or_create_publisher_for valid (response_topic_name (request_meta r)) s with
          | None => Some (Some r, s)
          | Some (_, s) => Some (None, with_accepted (accepted s ++ [r]) s)
          end
      end
  end.

(** The response is borrowed, filled by the user and published: after the callback of a basic service
    ([wrap_basic_service_callback_for_subscriber]), in [borrow_loaned_response] and [send_response] of a deferred one. *)
Definition respond (valid : bool) (k : nat) (v : Resp) (s : Service) : option (string * response * Service) :=
  unwrap r := accepted s !! k orelse None;
  let topic := response_topic_name (request_meta r) in
  unwrap ps := get_or_create_publisher_for valid topic s orelse None;
  let s := ps.2 in
  Some (topic, MkResponse (seqno (request_meta r)) v, with_accepted (delete k (accepted s)) s).

(** ** Clients and services of a machine *)

Record world := World {
  clients : list Client;
  services : list Service;
  futures : list (option Resp);
  bad_entry_ids : nat
}.

Definition start : world := World [] [] [] 0.

Definition with_clients (l : list Client) (w : world) : world :=
  World l (services w) (futures w) (bad_entry_ids w).
Definition with_services (l : list Service) (w : world) : world :=
  World (clients w) l (futures w) (bad_entry_ids w).
Definition with_futures (l : list (option Resp)) (w : world) : world :=
  World (clients w) (services w) l (bad_entry_ids w).

Definition set_client (i : nat) (c : Client) (w : world) : world := with_clients (<[i := c]> (clients w)) w.
Definition set_service (i : nat) (s : Service) (w : world) : world := with_services (<[i := s]> (services w)) w.

Definition subscribed (topic : string) (s : Service) : bool :=
  String.eqb (create_service_request_topic_name (service_name_ s)) topic.

Definition publish_request (topic : string) (r : request) (w : world) : world :=
  with_services ((fun s => if subscribed topic s then with_requests (requests s ++ [r]) s else s) <$> services w) w.

Definition publish_response (topic : string) (r : response) (w : world) : world :=
  with_clients ((fun c => if String.eqb (response_topic_name_ c) topic
                          then with_arrived (arrived c ++ [r]) c else c) <$> clients w) w.

Inductive action :=
  | CreateClient (service_name node_name : string) (publisher_id : Z) (g : list Z)
  | CreateService (name : string) (k : callback_kind)
  | BorrowRequest (i : nat) (q : Req)
  | CancelRequest (i k : nat)
  | RegisterCall (i k : nat) (has_callback : bool)
  | PublishRequest (i k : nat)
  | TakeRequest (j : nat) (valid : bool)
  | Respond (j k : nat) (valid : bool) (v : Resp)
  | DropRequest (j k : nat)
  | TakeResponse (i : nat)
  | Resolve (i k : nat)
  | LoseRequest (j k : nat)
  | LoseResponse (i k : nat).

(** What is seen of a run: a call is the response topic of its client and its sequence number.  [Lost]: a
    message of the call reached nobody or was dropped. *)
Inductive event :=
  | Asked (call : string * Z) (q : Req) (future : nat)
  | Answered (call : string * Z) (q : Req) (v : Resp)
  | Resolved (future : nat) (v : Resp)
  | CalledBack (future : nat) (v : Resp)
  | Lost (call : string * Z).

Definition call_of (r : request) : string * Z :=
  (response_topic_name (request_meta r), seqno (request_meta r)).

(** [promise.set_value] and the callback; [None] when the promise was satisfied before, which throws. *)
Definition resolve (info : ResponseCallInfo) (v : Resp) (w : world) : option (list event * world) :=
  match futures w !! promise info with
  | Some None =>
      Some (Resolved (promise info) v :: (if callback info then [CalledBack (promise info) v] else []),
            with_futures (<[promise info := Some v]> (futures w)) w)
  | _ => None
  end.

Definition act (a : action) (w : world) : option (list event * world) :=
  match a with
  | CreateClient service_name node_name id g =>
      Some ([], with_clients (clients w ++ [new_client service_name node_name id g]) w)
  | CreateService name k => Some ([], with_services (services w ++ [new_service name k]) w)
  | BorrowRequest i q =>
      unwrap c := clients w !! i orelse None;
      Some ([], set_client i (borrow_loaned_request q c) w)
  | CancelRequest i k =>
      unwrap c := clients w !! i orelse None;
      unwrap r := loaned c !! k orelse None;
      Some ([], set_client i (cancel_request k c) w)
  | RegisterCall i k has_callback =>
      unwrap c := clients w !! i orelse None;
      let p := length (futures w) in
      unwrap rc := register_call k (MkCallInfo p has_callback) c orelse None;
      Some ([Asked (call_of rc.1.1) (request_payload rc.1.1) rc.1.2],
            with_futures (futures w ++ [None]) (set_client i rc.2 w))
  | PublishRequest i k =>
      unwrap c := clients w !! i orelse None;
      unwrap rc := take_sending k c orelse None;
      let topic := create_service_request_topic_name (client_service_name c) in
      Some (if existsb (subscribed topic) (services w) then [] else [Lost (call_of rc.1)],
            publish_request topic rc.1 (set_client i rc.2 w))
  | TakeRequest j valid =>
      unwrap s := services w !! j orelse None;
      unwrap rs := request_callback valid s orelse None;
      Some (match rs.1 with Some r => [Lost (call_of r)] | None => [] end, set_service j rs.2 w)
  | Respond j k valid v =>
      unwrap s := services w !! j orelse None;
      unwrap r := accepted s !! k orelse None;
      unwrap trs := respond valid k v s orelse None;
      Some ([Answered (call_of r) (request_payload r) v],
            publish_response trs.1.1 trs.1.2 (set_service j trs.2 w))
  | DropRequest j k =>
      unwrap s := services w !! j orelse None;
      unwrap r := accepted s !! k orelse None;
      Some ([Lost (call_of r)], set_service j (with_accepted (delete k (accepted s)) s) w)
  | TakeResponse i =>
      unwrap c := clients w !! i orelse None;
      unwrap rc := response_callback c orelse None;
      let w := set_client i rc.2 w in
      Some ([], match rc.1 with
                | Some _ => w
                | None => World (clients w) (services w) (futures w) (S (bad_entry_ids w))
                end)
  | Resolve i k =>
      unwrap c := clients w !! i orelse None;
      unwrap ir := resolving c !! k orelse None;
      resolve ir.1 (response_payload ir.2) (set_client i (with_resolving (delete k (resolving c)) c) w)
  | LoseRequest j k =>
      unwrap s := services w !! j orelse None;
      unwrap r := requests s !! k orelse None;
      Some ([Lost (call_of r)], set_service j (with_requests (delete k (requests s)) s) w)
  | LoseResponse i k =>
      unwrap c := clients w !! i orelse None;
      unwrap r := arrived c !! k orelse None;
      Some ([Lost (response_topic_name_ c, response_seqno r)],
            set_client i (with_arrived (delete k (arrived c)) c) w)
  end.
End services.

Arguments RequestMeta : clear implicits.
Arguments request : clear implicits.
Arguments response : clear implicits.
Arguments Client : clear implicits.
Arguments Service : clear implicits.
Arguments world : clear implicits.
Arguments action : clear implicits.
Arguments event : clear implicits.

(** ** Waiting for a service *)

(** [service_is_ready_core] on the answer of the module; [None]: the process exits. *)
Definition get_reachable_agnocast_sub_count (r : res subscriber_num) : option Z :=
  match r with
  | Ok args => Some (u32 (u32 (ret_same_process_subscriber_num args + ret_other_process_subscriber_num args) +
                          ret_other_domain_subscriber_num args))
  | _ => None
  end.

Definition service_is_ready_core (r : res subscriber_num) : option bool :=
  unwrap sub_count := get_reachable_agnocast_sub_count r orelse None;
  Some (negb (sub_count =? 0)).

Section wait.
(** The polls of the module, the tests of the context and the readings of [steady_clock] in order. *)
Context (ready context_ok : nat -> bool) (clock : nat -> Z).

(** The loop from its [k]-th iteration; [slept]: the intervals so far. *)
Fixpoint wait_loop (fuel k : nat) (timeout time_to_wait : Z) (slept : list Z) : option (bool * list Z) :=
  match fuel with
  | O => None
  | S fuel =>
      require context_ok k orelse Some (false, slept);
      let slept := slept ++ [Z.min time_to_wait 100000000] in
      require negb (ready (S k)) orelse Some (true, slept);
      let time_to_wait := if 0 <? timeout then timeout - (clock (S (S k)) - clock 0%nat) else time_to_wait in
      if 0 <? time_to_wait then wait_loop fuel (S k) timeout time_to_wait slept else Some (false, slept)
  end.

Definition wait_for_service_nanoseconds (fuel : nat) (timeout : Z) : option (bool * list Z) :=
  require negb (ready 0%nat) orelse Some (true, []);
  require negb (timeout =? 0) orelse Some (false, []);
  wait_loop fuel 0 timeout (if 0 <? timeout then timeout - (clock 1%nat - clock 0%nat) else 2 ^ 63 - 1) [].
End wait.

(** ** Introspection *)

Inductive introspection_state := INTROSPECTION_OFF | INTROSPECTION_METADATA | INTROSPECTION_CONTENTS.

#[export] Instance introspection_state_eq_dec : EqDecision introspection_state.
Proof. solve_decision. Defined.

(** Publisher and clock as numbers, null as [None]; [ts_bundle_]: whether the libraries are loaded. *)
Record ServiceEventPublisher := MkEventPublisher {
  state_ : introspection_state;
  publisher_ : option nat;
  clock_ : option nat;
  ts_bundle_ : bool
}.

Definition new_event_publisher : ServiceEventPublisher := MkEventPublisher INTROSPECTION_OFF None None false.

Inductive configured := Configured | InvalidArgument | Threw.

(** [qos_usable]: [unsupported_qos_reason] finds nothing; [loads]: the libraries load; [created]: the
    new publisher, [None] when its constructor throws. *)
Definition configure (clock : option nat) (qos_usable loads : bool) (created : option nat)
    (state : introspection_state) (p : ServiceEventPublisher) : configured * ServiceEventPublisher :=
  unwrap c := clock orelse (InvalidArgument, p);
  if decide (state_ p = state) then (Configured, p)
  else if decide (state = INTROSPECTION_OFF) then
    (Configured, MkEventPublisher state None None (ts_bundle_ p))
  else
    match publisher_ p with
    | Some pub => (Configured, MkEventPublisher state (Some pub) (clock_ p) (ts_bundle_ p))
    | None =>
        require qos_usable orelse (InvalidArgument, p);
        require ts_bundle_ p || loads orelse (Threw, p);
        unwrap pub := created orelse (Threw, p);
        (Configured, MkEventPublisher state (Some pub) (Some c) true)
    end.

Inductive event_type := REQUEST_SENT | REQUEST_RECEIVED | RESPONSE_SENT | RESPONSE_RECEIVED.

(** What [publish_service_event_message] hands to the publisher: the clock of the stamp and the payload
    as request and as response. *)
Inductive published {P : Type} :=
  | NoEvent
  | Event (publisher clock : nat) (req resp : option P)
  | NullDereferenced.
Arguments published : clear implicits.

Definition publish_service_event_message {P} (ty : event_type) (payload : option P)
    (p : ServiceEventPublisher) : published P :=
  if decide (state_ p = INTROSPECTION_OFF) then NoEvent
  else
    unwrap c := clock_ p orelse NullDereferenced;
    let payload := if decide (state_ p = INTROSPECTION_METADATA) then None else payload in
    require ts_bundle_ p orelse NullDereferenced;
    unwrap pub := publisher_ p orelse NullDereferenced;
    match ty with
    | REQUEST_SENT | REQUEST_RECEIVED => Event pub c payload None
    | RESPONSE_SENT | RESPONSE_RECEIVED => Event pub c None payload
    end.

(** [copy_request_if_contents] and [copy_response_if_contents], when the copy succeeds. *)
Definition copy_if_contents {P} (payload : P) (p : ServiceEventPublisher) : option P :=
  if decide (state_ p = INTROSPECTION_CONTENTS) then Some payload else None.
