(* ===== verification/ServiceTheorems.v ===== *)
(** * What calls guarantee

    Over any interleaving of the threads of any number of clients and services, with any loss of
    messages: a future gets the answer to its own request, once, and every call is answered, lost or
    still on its way.  Further: the names of response topics, waiting for a service, and the
    introspection events. *)

From Stdlib Require Import Ascii.
From S2P Require Import Prelude Strings Kernel KTypes KQuery Services.

(** ** Response topics *)

(** The text with a separator behind it has no earlier one. *)
Fixpoint sep_free (s : chars) : bool :=
  match s with
  | [] => true
  | c :: s => negb (starts_with (to_chars "_SEP_") (c :: s ++ to_chars "_SEP_")) && sep_free s
  end.

Lemma starts_with_app p s t : (length p <= length s)%nat -> starts_with p (s ++ t) = starts_with p s.
Proof.
  revert s. induction p as [|c p IH]; intros s Hl; [done|]. destruct s as [|d s]; simpl in *; [lia|].
  rw IH; [done|lia].
Qed.

Lemma starts_with_refl p t : starts_with p (p ++ t) = true.
Proof.
  induction p as [|c p IH]; [done|]. simpl. rw IH. unfold is_char. by rw bool_decide_eq_true_2.
Qed.

Lemma sep_no_start c a s t :
  sep_free (c :: a) = true -> (c :: a) ++ to_chars "_SEP_" ++ t <> to_chars "_SEP_" ++ s.
Proof.
  intros [Hc _]%andb_true_iff He. rewrite app_assoc in He. apply negb_true_iff in Hc.
  assert (starts_with (to_chars "_SEP_") (((c :: a) ++ to_chars "_SEP_") ++ t) = true) as Ht
    by (rw He; apply starts_with_refl).
  rewrite starts_with_app in Ht; [cbn [app] in Ht; congruence|].
  cbn [app length]. rw length_app. lia.
Qed.

Lemma sep_split a b s t :
  sep_free a = true -> sep_free b = true ->
  a ++ to_chars "_SEP_" ++ s = b ++ to_chars "_SEP_" ++ t -> a = b /\ s = t.
Proof.
  revert b. induction a as [|c a IH]; intros b Ha Hb He.
  - destruct b as [|d b]; [split; [done|by apply (app_inv_head (to_chars "_SEP_"))]|].
    symmetry in He. by destruct (sep_no_start d b s t Hb).
  - destruct b as [|d b]; [by destruct (sep_no_start c a t s Ha)|].
    injection He as -> He. apply andb_true_iff in Ha as [_ Ha]. apply andb_true_iff in Hb as [_ Hb].
    destruct (IH b Ha Hb He) as [-> ->]. done.
Qed.

Lemma to_string_inj a b : 0 <= a < 2 ^ 31 -> 0 <= b < 2 ^ 31 -> to_string a = to_string b -> a = b.
Proof.
  intros Ha Hb He. pose proof (to_number_to_string 0 (2 ^ 31) a ltac:(lia) ltac:(lia) ltac:(lia)) as H1.
  pose proof (to_number_to_string 0 (2 ^ 31) b ltac:(lia) ltac:(lia) ltac:(lia)) as H2. congruence.
Qed.

(** The identifier ends the name: nothing else after the last underscore. *)
Lemma sep_last s t a b :
  0 <= a < 2 ^ 31 -> 0 <= b < 2 ^ 31 ->
  s ++ to_chars "_SEP_" ++ to_string a = t ++ to_chars "_SEP_" ++ to_string b -> s = t /\ a = b.
Proof.
  intros Ha Hb He. apply (f_equal (@rev ascii)) in He. rewrite !rev_app_distr in He.
  change (rev (to_chars "_SEP_")) with ("_"%char :: to_chars "PES_") in He.
  rewrite -!app_assoc in He. cbn [app] in He.
  assert (forall z, 0 <= z -> Forall (fun d => is_char "_" d = false) (rev (to_string z))) as Hd.
  { intros z Hz. apply Forall_rev. by apply to_string_no. }
  destruct (app_cons_inj (is_char "_") "_" _ _ _ _ (Hd a ltac:(lia)) (Hd b ltac:(lia)) eq_refl He) as [E1 E2].
  apply app_inv_head in E2. apply (f_equal (@rev ascii)) in E1, E2. rewrite !rev_involutive in E1, E2.
  split; [done|by apply to_string_inj].
Qed.

(** Clients of services of such names have response topics of their own. *)
Lemma response_topic_inj s1 s2 n1 n2 a b :
  sep_free (to_chars s1) = true -> sep_free (to_chars s2) = true -> 0 <= a < 2 ^ 31 -> 0 <= b < 2 ^ 31 ->
  create_service_response_topic_name s1 n1 a = create_service_response_topic_name s2 n2 b ->
  s1 = s2 /\ n1 = n2 /\ a = b.
Proof.
  intros H1 H2 Ha Hb He. apply (f_equal to_chars) in He. unfold create_service_response_topic_name in He.
  rewrite !chars_of_chars in He. apply app_inv_head in He.
  destruct (sep_split _ _ _ _ H1 H2 He) as [E1 E2]. destruct (sep_last _ _ _ _ Ha Hb E2) as [E3 E4].
  split; [|split; [|done]].
  - by rw -(of_chars_to_chars s1) E1 of_chars_to_chars.
  - by rw -(of_chars_to_chars n1) E3 of_chars_to_chars.
Qed.

(** Without it two clients of different services may listen on one topic. *)
Example response_topics_collide :
  create_service_response_topic_name "/a" "/b_SEP_/c" 0 = create_service_response_topic_name "/a_SEP_/b" "/c" 0.
Proof. vm_compute. reflexivity. Qed.

Section calls.
Context {Req Resp : Type}.
Implicit Types (w : world Req Resp) (c : Client Req Resp) (s : Service Req) (tr es : list (event Req Resp)).
Implicit Types (r : request Req) (k : string * Z).

(** ** Where the messages of a call are *)

Inductive stage :=
  | AtClient
  | Waiting (q : Req)
  | Answering (v : Resp)
  | Delivered (p : nat) (v : Resp).

Definition token : Type := (string * Z) * stage.

Definition waiting r : token := (call_of r, Waiting (request_payload r)).

Definition client_tokens c : list token :=
  ((fun r => (call_of r, AtClient)) <$> loaned c) ++ (waiting <$> sending c) ++
  ((fun a => ((response_topic_name_ c, response_seqno a), Answering (response_payload a))) <$> arrived c) ++
  ((fun ir => ((response_topic_name_ c, response_seqno ir.2), Delivered (promise ir.1) (response_payload ir.2)))
     <$> resolving c).

Definition service_tokens s : list token := (waiting <$> requests s) ++ (waiting <$> accepted s).

Definition tokens w : list token :=
  mjoin (client_tokens <$> clients w) ++ mjoin (service_tokens <$> services w).

Definition stages_of k (l : list token) : list stage :=
  omap (fun t => if decide (t.1 = k) then Some t.2 else None) l.
Definition stages w k : list stage := stages_of k (tokens w).

(** The entry of a call in its client's table. *)
Definition entry w k : option ResponseCallInfo :=
  match find (fun c => String.eqb (response_topic_name_ c) k.1) (clients w) with
  | Some c => seqno2_response_call_info_ c !! k.2
  | None => None
  end.

Definition issued w k : Prop :=
  exists c, c ∈ clients w /\ response_topic_name_ c = k.1 /\ 0 <= k.2 < next_sequence_number_ c.

Lemma stages_of_perm k l1 l2 : l1 ≡ₚ l2 -> stages_of k l1 ≡ₚ stages_of k l2.
Proof. intros Hl. unfold stages_of. by rw Hl. Qed.

Lemma stages_of_app k l1 l2 : stages_of k (l1 ++ l2) = stages_of k l1 ++ stages_of k l2.
Proof. apply omap_app. Qed.

Lemma stages_of_cons k k' st l : stages_of k ((k', st) :: l) = (if decide (k' = k) then [st] else []) ++ stages_of k l.
Proof. unfold stages_of. cbn [omap list_omap fst snd]. by destruct (decide _). Qed.

(** *** One client or one service changes *)

Lemma mjoin_split {A B} (f : A -> list B) (l : list A) (i : nat) x :
  l !! i = Some x -> exists rest, mjoin (f <$> l) ≡ₚ f x ++ rest /\ forall x', mjoin (f <$> <[i := x']> l) ≡ₚ f x' ++ rest.
Proof.
  intros Hi. exists (mjoin (f <$> take i l) ++ mjoin (f <$> drop (S i) l)).
  assert (forall y, mjoin (f <$> take i l ++ y :: drop (S i) l) ≡ₚ
    f y ++ mjoin (f <$> take i l) ++ mjoin (f <$> drop (S i) l)) as Hy.
  { intros y. rw fmap_app join_app fmap_cons. cbn [mjoin list_join]. by rw !app_assoc (Permutation_app_comm (f y)). }
  split.
  - rw -{1}(take_drop_middle l i x Hi). apply Hy.
  - intros x'. rw (insert_take_drop l i x'); [apply Hy|exact (lookup_lt_Some _ _ _ Hi)].
Qed.

Lemma tokens_client w (i : nat) c :
  clients w !! i = Some c ->
  exists rest, tokens w ≡ₚ client_tokens c ++ rest /\ forall c', tokens (set_client i c' w) ≡ₚ client_tokens c' ++ rest.
Proof.
  intros Hi. destruct (mjoin_split client_tokens _ i c Hi) as (rest & H1 & H2).
  exists (rest ++ mjoin (service_tokens <$> services w)). unfold tokens. split; [by rw H1 -app_assoc|].
  intros c'. cbn. by rw H2 -app_assoc.
Qed.

Lemma tokens_service w (j : nat) s :
  services w !! j = Some s ->
  exists rest, tokens w ≡ₚ service_tokens s ++ rest /\ forall s', tokens (set_service j s' w) ≡ₚ service_tokens s' ++ rest.
Proof.
  intros Hi. destruct (mjoin_split service_tokens _ j s Hi) as (rest & H1 & H2).
  exists (mjoin (client_tokens <$> clients w) ++ rest). unfold tokens. split.
  - rw H1. apply Permutation_app_swap_app.
  - intros s'. cbn. rw H2. apply Permutation_app_swap_app.
Qed.

(** *** Tables *)

Definition distinct_topics w : Prop := NoDup (response_topic_name_ <$> clients w).

Lemma find_client w (i : nat) c k :
  distinct_topics w -> clients w !! i = Some c -> response_topic_name_ c = k.1 ->
  find (fun c => String.eqb (response_topic_name_ c) k.1) (clients w) = Some c.
Proof.
  unfold distinct_topics. intros Hd. generalize dependent i. induction (clients w) as [|d l IH]; intros i Hi Hk; [done|].
  apply NoDup_cons in Hd as [Hn Hd]. simpl. destruct (String.eqb (response_topic_name_ d) k.1) eqn:E.
  - apply String.eqb_eq in E. destruct i as [|i]; [by injection Hi as ->|]. exfalso. apply Hn.
    apply list_elem_of_fmap. exists c. split; [congruence|by eapply list_elem_of_lookup_2].
  - apply String.eqb_neq in E. destruct i as [|i]; [injection Hi as ->; congruence|]. by eapply IH.
Qed.

Lemma entry_client w (i : nat) c k :
  distinct_topics w -> clients w !! i = Some c -> response_topic_name_ c = k.1 ->
  entry w k = seqno2_response_call_info_ c !! k.2.
Proof. intros Hd Hi Hk. unfold entry. by rw (find_client w i c k). Qed.

Lemma set_client_topics w (i : nat) c c' :
  clients w !! i = Some c -> response_topic_name_ c' = response_topic_name_ c ->
  response_topic_name_ <$> clients (set_client i c' w) = response_topic_name_ <$> clients w.
Proof.
  intros Hi Ht. cbn. rw list_fmap_insert Ht. apply list_insert_id. by rw list_lookup_fmap Hi.
Qed.

Lemma entry_set_client w (i : nat) c c' k :
  distinct_topics w -> clients w !! i = Some c -> response_topic_name_ c' = response_topic_name_ c ->
  entry (set_client i c' w) k =
    if decide (response_topic_name_ c = k.1) then seqno2_response_call_info_ c' !! k.2 else entry w k.
Proof.
  intros Hd Hi Ht. destruct (decide _) as [Hk|Hk].
  - apply (entry_client _ i); [|cbn; by rw list_lookup_insert_eq; [|eapply lookup_lt_Some]|congruence].
    unfold distinct_topics. by rw (set_client_topics w i c).
  - unfold entry. cbn. clear Hd. revert i Hi. induction (clients w) as [|d l IH]; intros i Hi; [done|].
    destruct i as [|i]; simpl.
    + injection Hi as ->. rw Ht. by apply String.eqb_neq in Hk as ->.
    + destruct (String.eqb (response_topic_name_ d) k.1); [done|]. by apply IH.
Qed.

Lemma issued_set_client w (i : nat) c c' k :
  clients w !! i = Some c -> response_topic_name_ c' = response_topic_name_ c ->
  next_sequence_number_ c <= next_sequence_number_ c' -> issued w k -> issued (set_client i c' w) k.
Proof.
  intros Hi Ht Hn (d & (j & Hj)%list_elem_of_lookup & Hk & Hr). destruct (decide (i = j)) as [<-|Hne].
  - assert (d = c) as -> by congruence. exists c'. split; [|split; [congruence|lia]].
    apply (list_elem_of_lookup_2 _ i). cbn. apply list_lookup_insert_eq. exact (lookup_lt_Some _ _ _ Hi).
  - exists d. split; [|done]. apply (list_elem_of_lookup_2 _ j). cbn. by rw list_lookup_insert_ne.
Qed.

(** *** Publishing *)

Lemma mjoin_hit {A K T} (f : A -> list T) (key : A -> K) (hit : A -> bool) (upd : A -> A) toks (l : list A) :
  NoDup (key <$> l) -> (forall x y, hit x = true -> hit y = true -> key x = key y) ->
  (forall x, hit x = true -> f (upd x) ≡ₚ toks ++ f x) ->
  mjoin (f <$> ((fun x => if hit x then upd x else x) <$> l)) ≡ₚ
  (if existsb hit l then toks else []) ++ mjoin (f <$> l).
Proof.
  intros Hnd Hkey Htok. induction l as [|x l IH]; [done|]. rewrite !fmap_cons in Hnd |- *.
  apply NoDup_cons in Hnd as [Hn Hnd]. cbn [mjoin list_join existsb]. destruct (hit x) eqn:E; cbn [orb app].
  - assert (existsb hit l = false) as Ex.
    { apply not_true_is_false. intros (y & Hy & Ey)%existsb_exists. apply Hn, list_elem_of_fmap. exists y.
      split; [by apply Hkey|by apply list_elem_of_In]. }
    specialize (IH Hnd). rewrite Ex in IH. rw (Htok x E) IH. by rw -app_assoc.
  - rw IH; [|done]. apply Permutation_app_swap_app.
Qed.

Lemma request_topic_inj a b :
  create_service_request_topic_name a = create_service_request_topic_name b -> a = b.
Proof.
  intros He. apply (f_equal to_chars) in He. unfold create_service_request_topic_name in He.
  rewrite !chars_of_chars in He. apply app_inv_head in He. by rw -(of_chars_to_chars a) He of_chars_to_chars.
Qed.

Lemma publish_request_tokens topic r w :
  NoDup (service_name_ <$> services w) ->
  tokens (publish_request topic r w) ≡ₚ
  (if existsb (subscribed topic) (services w) then [waiting r] else []) ++ tokens w.
Proof.
  intros Hd. unfold tokens, publish_request. cbn -[fmap list_fmap mjoin list_join].
  rw (mjoin_hit service_tokens service_name_ (subscribed topic) _ [waiting r]); [apply Permutation_app_swap_app|done| |].
  - unfold subscribed. intros x y Hx%String.eqb_eq Hy%String.eqb_eq. apply request_topic_inj. congruence.
  - intros s _. unfold service_tokens. cbn. rw fmap_app. cbn. by rw -app_assoc -Permutation_middle.
Qed.

Lemma publish_response_tokens topic a w :
  distinct_topics w ->
  tokens (publish_response topic a w) ≡ₚ
  (if existsb (fun c => String.eqb (response_topic_name_ c) topic) (clients w)
   then [((topic, response_seqno a), Answering (response_payload a))] else []) ++ tokens w.
Proof.
  intros Hd. unfold tokens, publish_response. cbn -[fmap list_fmap mjoin list_join].
  rw (mjoin_hit client_tokens response_topic_name_ (fun c => String.eqb (response_topic_name_ c) topic) _
        [((topic, response_seqno a), Answering (response_payload a))]); [by rw app_assoc|done| |].
  - intros x y Hx%String.eqb_eq Hy%String.eqb_eq. congruence.
  - intros c Hc%String.eqb_eq. unfold client_tokens. cbn -[fmap list_fmap]. rw fmap_app -Hc.
    solve_Permutation.
Qed.

Lemma publish_response_clients topic a w k :
  response_topic_name_ <$> clients (publish_response topic a w) = response_topic_name_ <$> clients w /\
  entry (publish_response topic a w) k = entry w k /\ (issued w k -> issued (publish_response topic a w) k).
Proof.
  unfold publish_response, entry, issued. cbn -[fmap list_fmap]. split; [|split].
  - rw -list_fmap_compose. apply list_fmap_ext. intros i c _. unfold compose. by destruct (String.eqb _ _).
  - induction (clients w) as [|c l IH]; [done|]. rw fmap_cons. cbn [find].
    destruct (String.eqb (response_topic_name_ c) topic); cbn [response_topic_name_ with_arrived];
      by destruct (String.eqb (response_topic_name_ c) k.1).
  - intros (c & Hc & Ht & Hn). eexists. split; [by apply list_elem_of_fmap; exists c|].
    by destruct (String.eqb _ _).
Qed.

(** ** The invariant *)

Definition untouched w tr k : Prop :=
  stages w k = [] /\ entry w k = None /\ (forall q p, Asked k q p ∉ tr) /\ (forall q v, Answered k q v ∉ tr).

Definition owns w k (p : nat) : Prop :=
  (exists info, entry w k = Some info /\ promise info = p) \/ exists v, Delivered p v ∈ stages w k.

Definition stage_ok w tr k (st : stage) : Prop :=
  match st with
  | AtClient => entry w k = None /\ (forall q p, Asked k q p ∉ tr) /\ (forall q v, Answered k q v ∉ tr)
  | Waiting q => (exists info, entry w k = Some info /\ Asked k q (promise info) ∈ tr) /\
                 (forall q v, Answered k q v ∉ tr)
  | Answering v => exists info q, entry w k = Some info /\ Asked k q (promise info) ∈ tr /\ Answered k q v ∈ tr
  | Delivered p v => entry w k = None /\ exists q, Asked k q p ∈ tr /\ Answered k q v ∈ tr
  end.

(** A call is in one place, or answered or lost. *)
Record call_ok w tr k : Prop := {
  c_stage : (stages w k = [] /\ (entry w k = None \/ Lost k ∈ tr)) \/
            exists st, stages w k = [st] /\ stage_ok w tr k st;
  c_open : forall p, owns w k p -> futures w !! p = Some None;
  c_asked : forall q p, Asked k q p ∈ tr -> owns w k p \/ exists v, futures w !! p = Some (Some v);
  c_once : forall q1 v1 q2 v2, Answered k q1 v1 ∈ tr -> Answered k q2 v2 ∈ tr -> q1 = q2 /\ v1 = v2
}.

Record client_ok c : Prop := {
  k_topic : response_topic_name_ c =
    create_service_response_topic_name (client_service_name c) (client_node_name c) (client_publisher_id c);
  k_name : sep_free (to_chars (client_service_name c)) = true;
  k_id : 0 <= client_publisher_id c < 2 ^ 31;
  k_next : 0 <= next_sequence_number_ c;
  k_own : Forall (fun r => response_topic_name (request_meta r) = response_topic_name_ c) (loaned c ++ sending c)
}.

Record ok w tr : Prop := {
  o_topics : distinct_topics w;
  o_services : NoDup (service_name_ <$> services w);
  o_calls : forall k, call_ok w tr k;
  o_fresh : forall k, issued w k \/ untouched w tr k;
  o_own : forall c, c ∈ clients w -> client_ok c;
  o_owner : forall k1 k2 p, owns w k1 p -> owns w k2 p -> k1 = k2;
  o_bad : bad_entry_ids w = 0%nat
}.

Definition about k (e : event Req Resp) : Prop :=
  match e with
  | Asked k' _ _ | Answered k' _ _ | Lost k' => k' = k
  | _ => True
  end.

Lemma elem_of_about e tr es k k' :
  (forall e, e ∈ es -> about k e) -> k' <> k ->
  (match e with Asked k1 _ _ | Answered k1 _ _ | Lost k1 => k1 = k' | _ => False end) ->
  e ∈ tr ++ es <-> e ∈ tr.
Proof.
  intros Ha Hne He. rw elem_of_app. split; [|by left]. intros [?|Hes]; [done|]. specialize (Ha _ Hes).
  destruct e; simpl in *; by subst.
Qed.

(** The steps change one call: what the others need of a step. *)
Record local w w' es k : Prop := {
  l_stages : forall k', k' <> k -> stages w' k' ≡ₚ stages w k';
  l_entry : forall k', k' <> k -> entry w' k' = entry w k';
  l_about : forall e, e ∈ es -> about k e;
  l_issued : forall k', issued w k' -> issued w' k';
  l_open : forall k' p, k' <> k -> owns w k' p -> futures w' !! p = futures w !! p;
  l_closed : forall p v, futures w !! p = Some (Some v) -> futures w' !! p = Some (Some v)
}.

Lemma owns_other w w' es k k' p : local w w' es k -> k' <> k -> owns w' k' p <-> owns w k' p.
Proof.
  intros [Hs He _ _ _ _] Hne. unfold owns. rw (He k' Hne).
  by setoid_rewrite (Hs k' Hne).
Qed.

Lemma call_ok_other w tr w' es k k' :
  local w w' es k -> k' <> k -> call_ok w tr k' -> call_ok w' (tr ++ es) k'.
Proof.
  intros Hl Hne [H1 H2 H3 H4]. pose proof (l_stages _ _ _ _ Hl k' Hne) as Hs.
  pose proof (l_entry _ _ _ _ Hl k' Hne) as He. pose proof (l_about _ _ _ _ Hl) as Ha.
  assert (forall q p, Asked k' q p ∈ tr ++ es <-> Asked k' q p ∈ tr) as HA by (intros; by eapply elem_of_about).
  assert (forall q v, Answered k' q v ∈ tr ++ es <-> Answered k' q v ∈ tr) as HB by (intros; by eapply elem_of_about).
  assert (Lost k' ∈ tr ++ es <-> Lost k' ∈ tr) as HL by (by eapply elem_of_about).
  split.
  - destruct H1 as [[Hn H1]|(st & Hst & H1)].
    + left. rewrite Hn in Hs. apply Permutation_nil_r in Hs. split; [done|]. by rw He HL.
    + right. exists st. rewrite Hst in Hs. apply Permutation_singleton_r in Hs. split; [done|].
      destruct st; simpl in *; rw He; naive_solver.
  - intros p Hp. rewrite (owns_other w w' es k k' p Hl Hne) in Hp.
    rw (l_open _ _ _ _ Hl k' p Hne Hp). by apply H2.
  - intros q p Hp%HA. destruct (H3 q p Hp) as [Ho|[v Hv]].
    + left. by apply (owns_other w w' es k k' p Hl Hne).
    + right. exists v. by apply (l_closed _ _ _ _ Hl).
  - intros q1 v1 q2 v2 G1%HB G2%HB. by eapply H4.
Qed.

Lemma ok_local w tr w' es k :
  ok w tr -> local w w' es k -> distinct_topics w' -> NoDup (service_name_ <$> services w') ->
  issued w' k ->
  (forall c, c ∈ clients w' -> client_ok c) ->
  call_ok w' (tr ++ es) k ->
  (forall p, owns w' k p -> owns w k p \/ futures w !! p = None) -> bad_entry_ids w' = 0%nat ->
  ok w' (tr ++ es).
Proof.
  intros [H1 H2 H3 H4 _ H5 H6] Hl Ht Hsv Hi Ho Hc Hown Hbad.
  split; [done|done| | |done| |done].
  - intros k'. destruct (decide (k' = k)) as [-> |Hne]; [done|]. by eapply call_ok_other.
  - intros k'. destruct (decide (k' = k)) as [-> |Hne]; [by left|].
    destruct (H4 k') as [Hk'|(U1 & U2 & U3 & U4)]; [by left; apply (l_issued _ _ _ _ Hl)|right].
    pose proof (l_about _ _ _ _ Hl) as Ha. split; [|split; [|split]].
    + apply Permutation_nil_r. rw -U1. by apply (l_stages _ _ _ _ Hl).
    + by rw (l_entry _ _ _ _ Hl).
    + intros q p Hq. by apply (U3 q p), (elem_of_about (Asked k' q p) tr es k k' Ha Hne).
    + intros q v Hq. by apply (U4 q v), (elem_of_about (Answered k' q v) tr es k k' Ha Hne).
  - assert (forall k' p, k' <> k -> owns w' k p -> owns w' k' p -> False) as Hx.
    { intros k' p Hne Hp Hp'. rewrite (owns_other w w' es k k' p Hl Hne) in Hp'.
      destruct (Hown p Hp) as [Hp0|Hp0]; [by apply Hne, (H5 k' k p)|].
      pose proof (c_open _ _ _ (H3 k') p Hp'). congruence. }
    intros k1 k2 p G1 G2. destruct (decide (k1 = k)) as [-> |N1], (decide (k2 = k)) as [-> |N2]; [done| | |].
    + by destruct (Hx k2 p N2 G1 G2).
    + by destruct (Hx k1 p N1 G2 G1).
    + apply (H5 k1 k2 p); [by apply (owns_other w w' es k k1 p Hl)|by apply (owns_other w w' es k k2 p Hl)].
Qed.

(** *** What a step has to show *)

Definition at_call k (l : list stage) : list token := (fun st => (k, st)) <$> l.

Lemma stages_of_at k k' l : stages_of k (at_call k' l) = if decide (k' = k) then l else [].
Proof.
  induction l as [|st l IH]; [by destruct (decide _)|]. unfold at_call. rw fmap_cons stages_of_cons.
  change ((fun st => (k', st)) <$> l) with (at_call k' l). rw IH. by destruct (decide _).
Qed.

Lemma ok_step w tr w' es k old new rest :
  ok w tr ->
  tokens w ≡ₚ at_call k old ++ rest -> (old <> [] \/ stages w k = []) ->
  tokens w' ≡ₚ at_call k new ++ rest -> (length new <= 1)%nat ->
  response_topic_name_ <$> clients w' = response_topic_name_ <$> clients w ->
  service_name_ <$> services w' = service_name_ <$> services w -> (forall c, c ∈ clients w' -> client_ok c) ->
  (forall k', k' <> k -> entry w' k' = entry w k') -> (forall e, e ∈ es -> about k e) ->
  (forall k', issued w k' -> issued w' k') -> issued w' k ->
  (forall k' p, k' <> k -> owns w k' p -> futures w' !! p = futures w !! p) ->
  (forall p v, futures w !! p = Some (Some v) -> futures w' !! p = Some (Some v)) ->
  bad_entry_ids w' = 0%nat ->
  (stages w k = old -> stages w' k = new ->
   call_ok w' (tr ++ es) k /\ forall p, owns w' k p -> owns w k p \/ futures w !! p = None) ->
  ok w' (tr ++ es).
Proof.
  intros Hok Hold Hne Hnew Hlen Ht Hs Hown He Ha Hi Hik Hf Hc Hb Hk.
  assert (forall k', stages w k' ≡ₚ (if decide (k = k') then old else []) ++ stages_of k' rest) as Ew.
  { intros k'. unfold stages. rw (stages_of_perm k' _ _ Hold) stages_of_app. by rw stages_of_at. }
  assert (forall k', stages w' k' ≡ₚ (if decide (k = k') then new else []) ++ stages_of k' rest) as Ew'.
  { intros k'. unfold stages. rw (stages_of_perm k' _ _ Hnew) stages_of_app. by rw stages_of_at. }
  assert (stages w k = old /\ stages_of k rest = []) as [Eo Er].
  { pose proof (Ew k) as E. rewrite decide_True in E; [|done].
    destruct (c_stage _ _ _ (o_calls _ _ Hok k)) as [[H0 _]|(st & H1 & _)].
    - rewrite H0 in E. symmetry in E. apply Permutation_nil_r, app_eq_nil in E as [-> ->]. by rw H0.
    - rewrite H1 in E. symmetry in E. apply Permutation_singleton_r in E. rw H1.
      destruct old as [|st' old]; [destruct Hne; congruence|]. injection E as -> E.
      apply app_eq_nil in E as [-> ->]. done. }
  assert (stages w' k = new) as En.
  { pose proof (Ew' k) as E. rewrite decide_True in E; [|done]. rewrite Er app_nil_r in E.
    destruct new as [|st [|]]; simpl in Hlen; [by apply Permutation_nil_r|by apply Permutation_singleton_r|lia]. }
  destruct (Hk Eo En) as [Hk1 Hk2].
  apply (ok_local w tr w' es k Hok); [|unfold distinct_topics; rw Ht; apply (o_topics _ _ Hok)
    |rw Hs; apply (o_services _ _ Hok)|done..].
  split; [|done..]. intros k' Hk'. rw Ew Ew'. by rw !decide_False.
Qed.

(** *** Steps of a client or of a service alone *)

Lemma client_step w tr w' es (i : nat) c c' k old new rest :
  ok w tr -> clients w !! i = Some c -> k.1 = response_topic_name_ c ->
  clients w' = <[i := c']> (clients w) -> services w' = services w -> bad_entry_ids w' = 0%nat ->
  client_ok c' -> response_topic_name_ c' = response_topic_name_ c ->
  next_sequence_number_ c <= next_sequence_number_ c' -> 0 <= k.2 < next_sequence_number_ c' ->
  client_tokens c ≡ₚ at_call k old ++ rest -> client_tokens c' ≡ₚ at_call k new ++ rest ->
  (old <> [] \/ stages w k = []) -> (length new <= 1)%nat ->
  (forall n, n <> k.2 -> seqno2_response_call_info_ c' !! n = seqno2_response_call_info_ c !! n) ->
  (forall e, e ∈ es -> about k e) ->
  (forall k' p, k' <> k -> owns w k' p -> futures w' !! p = futures w !! p) ->
  (forall p v, futures w !! p = Some (Some v) -> futures w' !! p = Some (Some v)) ->
  (stages w k = old -> stages w' k = new ->
   entry w k = seqno2_response_call_info_ c !! k.2 -> entry w' k = seqno2_response_call_info_ c' !! k.2 ->
   call_ok w' (tr ++ es) k /\ forall p, owns w' k p -> owns w k p \/ futures w !! p = None) ->
  ok w' (tr ++ es).
Proof.
  intros Hok Hi Hk Hc Hs Hb Hc' Ht Hn Hkn Ho Hnw Hne Hl Htb Ha Hf1 Hf2 HK.
  destruct (tokens_client w i c Hi) as (rest' & T1 & T2).
  assert (clients w' = clients (set_client i c' w)) as Hcw by done.
  assert (tokens w' = tokens (set_client i c' w)) as Htw by (unfold tokens; by rw Hcw Hs).
  assert (forall k, entry w' k = entry (set_client i c' w) k) as Hew by (intros; unfold entry; by rw Hcw).
  assert (forall k, issued (set_client i c' w) k -> issued w' k) as Hiw by (intros; unfold issued; by rw Hcw).
  pose proof (o_topics _ _ Hok) as Hd.
  apply (ok_step w tr w' es k old new (rest ++ rest') Hok); [|done| |done| |by rw Hs| | |done| | |done|done|done|].
  - by rw T1 Ho app_assoc.
  - by rw Htw T2 Hnw app_assoc.
  - rw Hcw. by apply (set_client_topics w i c).
  - rw Hc. intros d Hdl. apply list_elem_of_lookup in Hdl as [j Hj].
    destruct (decide (i = j)) as [<-|Hij].
    + rewrite list_lookup_insert_eq in Hj; [by injection Hj as <-|exact (lookup_lt_Some _ _ _ Hi)].
    + rewrite list_lookup_insert_ne in Hj; [|done]. by apply (o_own _ _ Hok), (list_elem_of_lookup_2 _ j).
  - intros k' Hk'. rw Hew (entry_set_client w i c c' k' Hd Hi Ht). destruct (decide _) as [E|E]; [|done].
    rw (entry_client w i c k' Hd Hi E). apply Htb. intros E2. apply Hk'. destruct k, k'; simpl in *; congruence.
  - intros k' Hi'. by apply Hiw, (issued_set_client w i c).
  - apply Hiw. exists c'. split; [|split; [congruence|done]]. apply (list_elem_of_lookup_2 _ i). cbn.
    apply list_lookup_insert_eq. exact (lookup_lt_Some _ _ _ Hi).
  - intros E1 E2. apply HK; [done|done| |].
    + by apply (entry_client w i c).
    + rw Hew (entry_set_client w i c c' k Hd Hi Ht). by rw decide_True.
Qed.

Lemma entry_services w l k : entry (with_services l w) k = entry w k.
Proof. done. Qed.

Lemma service_step w tr es (j : nat) s s' k old new rest :
  ok w tr -> services w !! j = Some s -> service_name_ s' = service_name_ s ->
  service_tokens s ≡ₚ at_call k old ++ rest -> service_tokens s' ≡ₚ at_call k new ++ rest ->
  old <> [] -> (length new <= 1)%nat -> (forall e, e ∈ es -> about k e) ->
  (stages w k = old -> stages (set_service j s' w) k = new -> call_ok (set_service j s' w) (tr ++ es) k /\
   forall p, owns (set_service j s' w) k p -> owns w k p \/ futures w !! p = None) ->
  ok (set_service j s' w) (tr ++ es).
Proof.
  intros Hok Hj Hn Ho Hnw Hne Hl Ha HK. destruct (tokens_service w j s Hj) as (rest' & T1 & T2).
  assert (issued w k) as Hik.
  { destruct (o_fresh _ _ Hok k) as [?|(Hu & _)]; [done|exfalso].
    assert (stages w k ≡ₚ old ++ stages_of k (rest ++ rest')) as E.
    { unfold stages. rw (stages_of_perm k (tokens w) (at_call k old ++ rest ++ rest')); [|by rw T1 Ho app_assoc].
      rw stages_of_app stages_of_at. by rw decide_True. }
    rewrite Hu in E. symmetry in E. by apply Permutation_nil_r, app_eq_nil in E as [E _]. }
  apply (ok_step w tr _ es k old new (rest ++ rest') Hok);
    [by rw T1 Ho app_assoc|by left|by rw T2 Hnw app_assoc|done|done| |apply (o_own _ _ Hok)
    |done|done|done|done|done|done|apply (o_bad _ _ Hok)|done].
  cbn -[fmap list_fmap]. rw list_fmap_insert Hn. apply list_insert_id. by rw list_lookup_fmap Hj.
Qed.

(** *** What happens to a call *)

Lemma stage_at w tr k st : ok w tr -> stages w k = [st] -> stage_ok w tr k st.
Proof.
  intros Hok Hs. destruct (c_stage _ _ _ (o_calls _ _ Hok k)) as [[H _]|(st' & H & Hst)]; [congruence|].
  rewrite Hs in H. by injection H as ->.
Qed.

Lemma owns_entry w k p : (forall p v, Delivered p v ∉ stages w k) -> owns w k p ->
  exists info, entry w k = Some info /\ promise info = p.
Proof. intros Hn [H|[v H]]; [done|]. by destruct (Hn p v). Qed.

Lemma call_keep w w' tr k st :
  ok w tr -> stages w k = [st] -> stages w' k = [st] -> entry w' k = entry w k -> futures w' = futures w ->
  call_ok w' (tr ++ []) k /\ forall p, owns w' k p -> owns w k p \/ futures w !! p = None.
Proof.
  intros Hok E1 E2 He Hf. pose proof (o_calls _ _ Hok k) as Hc. rw app_nil_r.
  assert (forall p, owns w' k p <-> owns w k p) as Ho by (intros p; unfold owns; by rw E1 E2 He).
  split; [|intros p Hp; left; by apply Ho]. split.
  - right. exists st. split; [done|]. pose proof (stage_at w tr k st Hok E1) as Hs.
    destruct st; simpl in *; by rw He.
  - intros p Hp%Ho. rw Hf. by apply (c_open _ _ _ Hc).
  - intros q p Hp. rw Hf. destruct (c_asked _ _ _ Hc q p Hp) as [G|G]; [left; by apply Ho|by right].
  - apply (c_once _ _ _ Hc).
Qed.

Lemma call_drop w w' tr k st :
  ok w tr -> stages w k = [st] -> (exists q, st = Waiting q) \/ (exists v, st = Answering v) ->
  stages w' k = [] -> entry w' k = entry w k -> futures w' = futures w ->
  call_ok w' (tr ++ [Lost k]) k /\ forall p, owns w' k p -> owns w k p \/ futures w !! p = None.
Proof.
  intros Hok E1 Hst E2 He Hf. pose proof (o_calls _ _ Hok k) as Hc.
  assert (forall p, owns w' k p <-> owns w k p) as Ho.
  { intros p. unfold owns. rw E1 E2 He. split; [|intros [H|[v H]]; [by left|]].
    - intros [H|[v H]]; [by left|by apply not_elem_of_nil in H].
    - apply list_elem_of_singleton in H. destruct Hst as [[q ->]|[v' ->]]; done. }
  split; [|intros p Hp; left; by apply Ho]. split.
  - left. split; [done|]. right. set_solver.
  - intros p Hp%Ho. rw Hf. by apply (c_open _ _ _ Hc).
  - intros q p Hp. rw Hf. assert (Asked k q p ∈ tr) as Hp' by set_solver.
    destruct (c_asked _ _ _ Hc q p Hp') as [G|G]; [left; by apply Ho|by right].
  - intros q1 v1 q2 v2 G1 G2. apply (c_once _ _ _ Hc); set_solver.
Qed.

Lemma fmap_delete {A B} (f : A -> B) (l : list A) (i : nat) x :
  l !! i = Some x -> f <$> l ≡ₚ f x :: (f <$> delete i l).
Proof. intros Hi. rw {1}(delete_Permutation l i x Hi). done. Qed.

Lemma elem_of_delete {A} (l : list A) (i : nat) x : x ∈ delete i l -> x ∈ l.
Proof.
  intros H. destruct (l !! i) as [y|] eqn:Hi; [rw (delete_Permutation l i y Hi); set_solver|].
  apply lookup_ge_None in Hi. rewrite delete_take_drop take_ge in H; [|lia].
  rewrite drop_ge in H; [|lia]. by rewrite app_nil_r in H.
Qed.

Lemma own_request w tr (i : nat) c r :
  ok w tr -> clients w !! i = Some c -> r ∈ loaned c ++ sending c -> (call_of r).1 = response_topic_name_ c.
Proof.
  intros Hok Hi Hr. pose proof (k_own _ (o_own _ _ Hok c (list_elem_of_lookup_2 _ _ _ Hi))) as H.
  rewrite Forall_forall in H. by apply H.
Qed.

Lemma issued_call w tr (i : nat) c k :
  ok w tr -> clients w !! i = Some c -> k.1 = response_topic_name_ c -> stages w k <> [] ->
  0 <= k.2 < next_sequence_number_ c.
Proof.
  intros Hok Hi Hk Hs. destruct (o_fresh _ _ Hok k) as [(d & Hd & Ht & Hn)|(Hu & _)]; [|done].
  apply list_elem_of_lookup in Hd as [j Hj]. pose proof (o_topics _ _ Hok) as Hd. unfold distinct_topics in Hd.
  assert (j = i) as -> by (apply (NoDup_lookup _ j i (response_topic_name_ c) Hd); rw list_lookup_fmap;
    [rw Hj; simpl; congruence|by rw Hi]).
  congruence.
Qed.

Lemma in_stages w k st : (k, st) ∈ tokens w -> stages w k <> [].
Proof.
  unfold stages, stages_of. intros Hin E. apply list_elem_of_split in Hin as (l1 & l2 & Hl).
  rewrite Hl omap_app in E. cbn in E. destruct (decide (k = k)); [|done]. by apply app_eq_nil in E as [_ E].
Qed.
End calls.
