(* ===== verification/ServiceCalls.v ===== *)
(** * Calls

    Every step of clients and services keeps the invariant of [ServiceTheorems]; what follows for the
    callers. *)

From Stdlib Require Import Ascii.
From S2P Require Import Prelude Strings Kernel KTypes KQuery Services ServiceTheorems.

Section calls.
Context {Req Resp : Type}.
Implicit Types (w : world Req Resp) (c : Client Req Resp) (s : Service Req) (tr es : list (event Req Resp)).
Implicit Types (r : request Req) (k : string * Z).

(** ** The client *)

Lemma client_ok_sub c c' :
  client_ok c -> client_service_name c' = client_service_name c -> client_node_name c' = client_node_name c ->
  client_publisher_id c' = client_publisher_id c -> response_topic_name_ c' = response_topic_name_ c ->
  next_sequence_number_ c' = next_sequence_number_ c ->
  (forall r, r ∈ loaned c' ++ sending c' -> r ∈ loaned c ++ sending c) -> client_ok c'.
Proof.
  intros [H1 H2 H3 H4 H5] E1 E2 E3 E4 E5 Hs. split; rw ?E1 ?E2 ?E3 ?E4 ?E5; [done..|].
  rewrite Forall_forall in H5. apply Forall_forall. intros r Hr. by apply H5, Hs.
Qed.

Lemma client_token w (i : nat) c t : clients w !! i = Some c -> t ∈ client_tokens c -> t ∈ tokens w.
Proof. intros Hi Ht. destruct (tokens_client w i c Hi) as (rest & -> & _). set_solver. Qed.

(** The place of a message is the place of its call. *)
Lemma stages_token w tr k st : ok w tr -> (k, st) ∈ tokens w -> stages w k = [st].
Proof.
  intros Hok Hin. pose proof (in_stages _ _ _ Hin) as Hne.
  destruct (c_stage _ _ _ (o_calls _ _ Hok k)) as [[H0 _]|(st' & H1 & _)]; [done|].
  assert (st ∈ stages w k) as Hs.
  { apply list_elem_of_omap. exists (k, st). split; [done|]. simpl. by rw decide_True. }
  rewrite H1 in Hs. apply list_elem_of_singleton in Hs. by rw Hs.
Qed.

Lemma client_move w tr w' es (i : nat) c c' k st new rest :
  ok w tr -> clients w !! i = Some c -> k.1 = response_topic_name_ c ->
  clients w' = <[i := c']> (clients w) -> services w' = services w -> bad_entry_ids w' = bad_entry_ids w ->
  client_ok c' -> response_topic_name_ c' = response_topic_name_ c ->
  next_sequence_number_ c' = next_sequence_number_ c ->
  client_tokens c ≡ₚ (k, st) :: rest -> client_tokens c' ≡ₚ at_call k new ++ rest -> (length new <= 1)%nat ->
  (forall n, n <> k.2 -> seqno2_response_call_info_ c' !! n = seqno2_response_call_info_ c !! n) ->
  (forall e, e ∈ es -> about k e) ->
  (forall k' p, k' <> k -> owns w k' p -> futures w' !! p = futures w !! p) ->
  (forall p v, futures w !! p = Some (Some v) -> futures w' !! p = Some (Some v)) ->
  (stages w k = [st] -> stages w' k = new ->
   entry w k = seqno2_response_call_info_ c !! k.2 -> entry w' k = seqno2_response_call_info_ c' !! k.2 ->
   call_ok w' (tr ++ es) k /\ forall p, owns w' k p -> owns w k p \/ futures w !! p = None) ->
  ok w' (tr ++ es).
Proof.
  intros Hok Hi Hk Hc Hs Hb Hc' Ht Hn Ho Hnw Hl Htb Ha Hf1 Hf2 HK.
  assert (0 <= k.2 < next_sequence_number_ c) as Hr.
  { apply (issued_call w tr i c k Hok Hi Hk), (in_stages w k st), (client_token w i c _ Hi). rw Ho. set_solver. }
  apply (client_step w tr w' es i c c' k [st] new rest); try done; [by rw Hb; apply (o_bad _ _ Hok)|lia|lia|by left].
Qed.

Lemma lookup_elem {A} (l l' : list A) (i : nat) x : l !! i = Some x -> x ∈ l ++ l'.
Proof. intros H. apply elem_of_app. left. by eapply list_elem_of_lookup_2. Qed.

Lemma borrow_request_ok w tr (i : nat) c q :
  ok w tr -> clients w !! i = Some c -> next_sequence_number_ c < 2 ^ 63 - 1 ->
  ok (set_client i (borrow_loaned_request q c) w) tr.
Proof.
  intros Hok Hi Hmax. pose proof (o_own _ _ Hok c (list_elem_of_lookup_2 _ _ _ Hi)) as Hc.
  pose proof (k_next _ Hc) as Hn. rw -(app_nil_r tr).
  assert (i64 (next_sequence_number_ c + 1) = next_sequence_number_ c + 1) as Hi64
    by (apply i64_small; lia).
  set (k := (response_topic_name_ c, next_sequence_number_ c)).
  assert (untouched w tr k) as Hu.
  { destruct (o_fresh _ _ Hok k) as [(d & Hd & Ht & Hd2)|Hu]; [exfalso|done].
    apply list_elem_of_lookup in Hd as [j Hj]. pose proof (o_topics _ _ Hok) as HN. unfold distinct_topics in HN.
    simpl in Ht, Hd2.
    assert (j = i) as -> by (apply (NoDup_lookup _ j i (response_topic_name_ c) HN); rw list_lookup_fmap;
      [rw Hj; simpl; congruence|by rw Hi]).
    assert (d = c) as -> by congruence. lia. }
  destruct Hu as (U1 & U2 & U3 & U4).
  apply (client_step w tr _ [] i c (borrow_loaned_request q c) k [] [AtClient] (client_tokens c));
    try done; [apply (o_bad _ _ Hok)| | | | |by right|set_solver|].
  - destruct Hc as [H1 H2 H3 H4 H5]. split; try done; [cbn; lia|]. cbn. rewrite -app_assoc.
    apply Forall_app in H5 as [H5 H6]. apply Forall_app. split; [done|]. by constructor.
  - cbn. lia.
  - cbn. lia.
  - unfold client_tokens. cbn -[fmap list_fmap]. rw fmap_app. cbn. unfold call_of. simpl. fold k.
    rw -app_assoc. by rw -Permutation_middle.
  - intros E1 E2 E3 E4.
    assert (entry (set_client i (borrow_loaned_request q c) w) k = None) as E5
      by (rw E4; exact (eq_trans (eq_sym E3) U2)).
    assert (forall p, ~ owns (set_client i (borrow_loaned_request q c) w) k p) as Hno.
    { intros p [(info & Hi' & _)|[v Hv]]; [congruence|]. rewrite E2 in Hv. set_solver. }
    split; [|intros p Hp; by destruct (Hno p)]. split.
    + right. exists AtClient. split; [done|]. split; [done|]. set_solver.
    + intros p Hp. by destruct (Hno p).
    + intros q' p Hp. set_solver.
    + set_solver.
Qed.

Lemma cancel_ok w tr (i n : nat) c r :
  ok w tr -> clients w !! i = Some c -> loaned c !! n = Some r -> ok (set_client i (cancel_request n c) w) tr.
Proof.
  intros Hok Hi Hr. pose proof (o_own _ _ Hok c (list_elem_of_lookup_2 _ _ _ Hi)) as Hc. rw -(app_nil_r tr).
  apply (client_move w tr _ [] i c (cancel_request n c) (call_of r) AtClient [] (client_tokens (cancel_request n c)));
    try done; try (simpl; lia).
  - by apply (own_request w tr i c r), (lookup_elem _ _ n).
  - apply (client_ok_sub c); [done..|]. intros r'. cbn. rw !elem_of_app. intros [H|H]; [left|by right].
    by apply elem_of_delete in H.
  - unfold client_tokens. cbn -[fmap list_fmap]. by rw (fmap_delete _ _ n r Hr).
  - set_solver.
  - intros E1 E2 E3 E4. pose proof (o_calls _ _ Hok (call_of r)) as Hcall.
    destruct (stage_at w tr _ _ Hok E1) as (A1 & A2 & A3).
    assert (entry (set_client i (cancel_request n c) w) (call_of r) = None) as E5
      by (rw E4; exact (eq_trans (eq_sym E3) A1)).
    assert (forall p, ~ owns (set_client i (cancel_request n c) w) (call_of r) p) as Hno.
    { intros p [(info & Hi' & _)|[v Hv]]; [congruence|]. rewrite E2 in Hv. set_solver. }
    rw app_nil_r. split; [|intros p Hp; by destruct (Hno p)]. split.
    + left. split; [done|by left].
    + intros p Hp. by destruct (Hno p).
    + intros q' p Hp. by destruct (A2 q' p).
    + intros q1 v1 q2 v2 G. by destruct (A3 q1 v1).
Qed.

Lemma register_call_ok w tr (i n : nat) c r b :
  ok w tr -> clients w !! i = Some c -> loaned c !! n = Some r ->
  exists c', register_call n (MkCallInfo (length (futures w)) b) c = Some (r, length (futures w), c') /\
  (forall q p, Asked (call_of r) q p ∉ tr) /\
  ok (with_futures (futures w ++ [None]) (set_client i c' w))
     (tr ++ [Asked (call_of r) (request_payload r) (length (futures w))]).
Proof.
  intros Hok Hi Hr. pose proof (o_own _ _ Hok c (list_elem_of_lookup_2 _ _ _ Hi)) as Hc.
  assert ((call_of r).1 = response_topic_name_ c) as Hk by (by apply (own_request w tr i c r), (lookup_elem _ _ n)).
  set (info := MkCallInfo (length (futures w)) b).
  assert (client_tokens c ≡ₚ (call_of r, AtClient) :: client_tokens (cancel_request n c)) as Ht.
  { unfold client_tokens. cbn -[fmap list_fmap]. by rw (fmap_delete _ _ n r Hr). }
  assert (seqno2_response_call_info_ c !! seqno (request_meta r) = None /\
    forall q p, Asked (call_of r) q p ∉ tr) as Hnone.
  { assert ((call_of r, AtClient) ∈ tokens w) as Hin by (apply (client_token w i c _ Hi); rw Ht; set_solver).
    pose proof (stages_token w tr _ _ Hok Hin) as H1.
    destruct (stage_at w tr _ _ Hok H1) as (A1 & A2 & _). split; [|done].
    by rewrite (entry_client w i c _ (o_topics _ _ Hok) Hi) in A1. }
  destruct Hnone as [Hnone Hfresh].
  unfold register_call. rw Hr Hnone. eexists. split; [reflexivity|]. split; [exact Hfresh|]. fold info.
  match goal with |- ok (with_futures _ (set_client i ?d w)) _ => set (c' := d) end.
  apply (client_move w tr _ _ i c c' (call_of r) AtClient [Waiting (request_payload r)]
           (client_tokens (cancel_request n c))); try done.
  - apply (client_ok_sub c); [done..|]. intros r'. cbn. rw !elem_of_app.
    intros [H|[H|H]]; [left; by apply elem_of_delete in H|by right|].
    apply list_elem_of_singleton in H as ->. left. by eapply list_elem_of_lookup_2.
  - unfold client_tokens. cbn -[fmap list_fmap]. rw fmap_app. unfold at_call. rw !list_fmap_singleton.
    unfold waiting.
    solve_Permutation.
  - intros m Hm. cbn. by rw lookup_insert_ne.
  - set_solver.
  - intros k' p _ Hp. apply lookup_app_l. pose proof (c_open _ _ _ (o_calls _ _ Hok k') p Hp) as G.
    exact (lookup_lt_Some _ _ _ G).
  - intros p v Hv. cbn. rw lookup_app_l; [done|exact (lookup_lt_Some _ _ _ Hv)].
  - intros E1 E2 E3 E4. destruct (stage_at w tr _ _ Hok E1) as (A1 & A2 & A3).
    set (w' := with_futures _ _) in *. assert (entry w' (call_of r) = Some info) as E5 by (rw E4; apply lookup_insert_eq).
    assert (forall p, owns w' (call_of r) p <-> p = length (futures w)) as Hown.
    { intros p. unfold owns. rw E2 E5. split; [|intros ->; left; by exists info].
      intros [(info' & [= <-] & <-)|[v Hv]]; [done|set_solver]. }
    split; [|intros p ->%Hown; right; by apply lookup_ge_None_2]. split.
    + right. exists (Waiting (request_payload r)). split; [done|]. split; [|set_solver].
      exists info. split; [done|set_solver].
    + intros p ->%Hown. cbn. by apply list_lookup_middle.
    + intros q p [Hp|Hp]%elem_of_app; [by destruct (A2 q p)|]. left. apply Hown. set_solver.
    + set_solver.
Qed.

Lemma publish_request_names topic r w :
  service_name_ <$> services (publish_request topic r w) = service_name_ <$> services w.
Proof.
  unfold publish_request. cbn [services with_services]. rw -list_fmap_compose. apply list_fmap_ext.
  intros j s _. unfold compose. by destruct (subscribed topic s).
Qed.

Lemma publish_ok w tr (i n : nat) c r topic :
  ok w tr -> clients w !! i = Some c -> sending c !! n = Some r ->
  ok (publish_request topic r (set_client i (with_sending (delete n (sending c)) c) w))
     (tr ++ (if existsb (subscribed topic) (services w) then [] else [Lost (call_of r)])).
Proof.
  intros Hok Hi Hr. pose proof (o_own _ _ Hok c (list_elem_of_lookup_2 _ _ _ Hi)) as Hc.
  set (c' := with_sending (delete n (sending c)) c). set (w1 := set_client i c' w).
  destruct (tokens_client w i c Hi) as (rest & T1 & T2). specialize (T2 c'). fold w1 in T2.
  assert (client_tokens c ≡ₚ waiting r :: client_tokens c') as Ht.
  { unfold client_tokens. cbn -[fmap list_fmap]. rw (fmap_delete waiting _ n r Hr). solve_Permutation. }
  pose proof (publish_request_tokens topic r w1 (o_services _ _ Hok)) as T3.
  assert (response_topic_name_ <$> clients w1 = response_topic_name_ <$> clients w) as Htop
    by (by apply (set_client_topics w i c)).
  assert (forall k', entry w1 k' = entry w k') as He.
  { intros k'. unfold w1. rw (entry_set_client w i c c' k' (o_topics _ _ Hok) Hi eq_refl).
    destruct (decide _) as [E|E]; [|done]. by rw (entry_client w i c k' (o_topics _ _ Hok) Hi E). }
  assert (issued w (call_of r)) as Hik.
  { destruct (o_fresh _ _ Hok (call_of r)) as [?|(Hu & _)]; [done|exfalso]. revert Hu.
    apply (in_stages w (call_of r) (Waiting (request_payload r))), (client_token w i c _ Hi). rw Ht. set_solver. }
  assert (forall k', issued w k' -> issued w1 k') as Hiss
    by (intros k'; apply (issued_set_client w i c); [done|done|reflexivity]).
  change (existsb (subscribed topic) (services w)) with (existsb (subscribed topic) (services w1)).
  apply (ok_step w tr _ _ (call_of r) [Waiting (request_payload r)]
    (if existsb (subscribed topic) (services w1) then [Waiting (request_payload r)] else [])
    (client_tokens c' ++ rest) Hok); try done; [..|apply (o_bad _ _ Hok)|].
  - rw T1 Ht. done.
  - by left.
  - rw T3 T2. by destruct (existsb _ _).
  - destruct (existsb _ _); simpl; lia.
  - exact (publish_request_names topic r w1).
  - intros d Hd. apply list_elem_of_lookup in Hd as [j Hj]. change (clients w1 !! j = Some d) in Hj.
    unfold w1 in Hj. cbn in Hj. destruct (decide (i = j)) as [<-|Hij].
    + rewrite list_lookup_insert_eq in Hj; [|exact (lookup_lt_Some _ _ _ Hi)]. injection Hj as <-.
      apply (client_ok_sub c); [done..|]. intros r'. cbn. rw !elem_of_app. intros [H|H]; [by left|right].
      by apply elem_of_delete in H.
    + rewrite list_lookup_insert_ne in Hj; [|done]. by apply (o_own _ _ Hok), (list_elem_of_lookup_2 _ j).
  - intros k' _. change (entry w1 k' = entry w k'). apply He.
  - intros e. destruct (existsb _ _); set_solver.
  - exact (Hiss _ Hik).
  - destruct (existsb _ _); intros E1 E2.
    + exact (call_keep w _ tr _ _ Hok E1 E2 (He _) eq_refl).
    + apply (call_drop w _ tr _ _ Hok E1); [left; by eexists|exact E2|exact (He _)|done].
Qed.

Lemma lose_response_ok w tr (i n : nat) c a :
  ok w tr -> clients w !! i = Some c -> arrived c !! n = Some a ->
  ok (set_client i (with_arrived (delete n (arrived c)) c) w)
     (tr ++ [Lost (response_topic_name_ c, response_seqno a)]).
Proof.
  intros Hok Hi Hr. pose proof (o_own _ _ Hok c (list_elem_of_lookup_2 _ _ _ Hi)) as Hc.
  set (c' := with_arrived (delete n (arrived c)) c). set (k := (response_topic_name_ c, response_seqno a)).
  apply (client_move w tr _ [Lost k] i c c' k (Answering (response_payload a)) [] (client_tokens c'));
    try done; try (simpl; lia).
  - by apply (client_ok_sub c).
  - unfold client_tokens. cbn -[fmap list_fmap]. rw (fmap_delete _ (arrived c) n a Hr). fold k. solve_Permutation.
  - set_solver.
  - intros E1 E2 E3 E4. apply (call_drop w _ tr k (Answering (response_payload a))); try done.
    + right. by eexists.
    + rw E4. exact (eq_sym E3).
Qed.

Lemma take_response_ok w tr (i : nat) c a l :
  ok w tr -> clients w !! i = Some c -> arrived c = a :: l ->
  exists info c', response_callback c = Some (Some (info, a), c') /\ ok (set_client i c' w) tr.
Proof.
  intros Hok Hi Hr. pose proof (o_own _ _ Hok c (list_elem_of_lookup_2 _ _ _ Hi)) as Hc.
  set (k := (response_topic_name_ c, response_seqno a)).
  assert (client_tokens c ≡ₚ (k, Answering (response_payload a)) :: client_tokens (with_arrived l c)) as Ht.
  { unfold client_tokens. cbn -[fmap list_fmap]. rw Hr fmap_cons. fold k. solve_Permutation. }
  assert ((k, Answering (response_payload a)) ∈ tokens w) as Hin by (apply (client_token w i c _ Hi); rw Ht; set_solver).
  pose proof (stages_token w tr _ _ Hok Hin) as E1.
  destruct (stage_at w tr _ _ Hok E1) as (info & q & A1 & A2 & A3).
  assert (seqno2_response_call_info_ c !! response_seqno a = Some info) as Hinfo
    by (rw -A1 (entry_client w i c k (o_topics _ _ Hok) Hi eq_refl); done).
  unfold response_callback. rw Hr. cbn [with_arrived seqno2_response_call_info_]. rw Hinfo.
  eexists info, _. split; [reflexivity|]. rw -(app_nil_r tr).
  match goal with |- ok (set_client i ?d w) _ => set (c' := d) end.
  apply (client_move w tr _ [] i c c' k (Answering (response_payload a))
    [Delivered (promise info) (response_payload a)] (client_tokens (with_arrived l c))); try done; try (simpl; lia).
  - by apply (client_ok_sub c).
  - unfold client_tokens. cbn -[fmap list_fmap]. rw fmap_app. unfold at_call. rw !list_fmap_singleton. cbn [fst snd].
    fold k. solve_Permutation.
  - intros m Hm. cbn. by rw lookup_delete_ne.
  - set_solver.
  - intros _ E2 E3 E4. pose proof (o_calls _ _ Hok k) as Hcall. set (w' := set_client i c' w) in *.
    assert (entry w' k = None) as E5 by (rw E4; apply lookup_delete_eq).
    assert (forall p, owns w' k p <-> p = promise info) as Hown.
    { intros p. unfold owns. rw E2 E5. split; [|intros ->; right; eexists; by apply list_elem_of_singleton].
      intros [(? & [=] & _)|[v Hv]]. apply list_elem_of_singleton in Hv. congruence. }
    assert (owns w k (promise info)) as Hown0 by (left; by exists info).
    rw app_nil_r. split; [|intros p ->%Hown; by left]. split.
    + right. eexists. split; [exact E2|]. split; [done|]. by exists q.
    + intros p ->%Hown. by apply (c_open _ _ _ Hcall).
    + intros q' p Hp. destruct (c_asked _ _ _ Hcall q' p Hp) as [G|G]; [left|by right].
      apply Hown. destruct (owns_entry w k p) as (info' & G1 & <-); [by rw E1; set_solver|done|congruence].
    + apply (c_once _ _ _ Hcall).
Qed.

Lemma resolve_ok w tr (i n : nat) c ir :
  ok w tr -> clients w !! i = Some c -> resolving c !! n = Some ir ->
  let p := promise ir.1 in let v := response_payload ir.2 in
  let c' := with_resolving (delete n (resolving c)) c in
  let es := Resolved p v :: (if callback ir.1 then [CalledBack p v] else []) in
  futures w !! p = Some None /\ (exists k q, Asked k q p ∈ tr /\ Answered k q v ∈ tr) /\
  resolve ir.1 v (set_client i c' w) = Some (es, with_futures (<[p := Some v]> (futures w)) (set_client i c' w)) /\
  ok (with_futures (<[p := Some v]> (futures w)) (set_client i c' w)) (tr ++ es).
Proof.
  intros Hok Hi Hr p v c' es. pose proof (o_own _ _ Hok c (list_elem_of_lookup_2 _ _ _ Hi)) as Hc.
  set (k := (response_topic_name_ c, response_seqno ir.2)).
  assert (client_tokens c ≡ₚ (k, Delivered p v) :: client_tokens c') as Ht.
  { unfold client_tokens. cbn -[fmap list_fmap]. rw (fmap_delete _ (resolving c) n ir Hr). fold k p v.
    solve_Permutation. }
  assert ((k, Delivered p v) ∈ tokens w) as Hin by (apply (client_token w i c _ Hi); rw Ht; set_solver).
  assert (stages w k = [Delivered p v]) as E1 by exact (stages_token w tr k _ Hok Hin).
  destruct (stage_at w tr _ _ Hok E1) as (A1 & q & A2 & A3).
  assert (owns w k p) as Hown by (right; exists v; rw E1; by apply list_elem_of_singleton).
  pose proof (c_open _ _ _ (o_calls _ _ Hok k) p Hown) as Hp.
  split; [done|]. split; [by exists k, q|]. split.
  { unfold resolve. change (futures (set_client i c' w)) with (futures w). fold p. by rw Hp. }
  apply (client_move w tr _ es i c c' k (Delivered p v) [] (client_tokens c')); try done; try (simpl; lia).
  - by apply (client_ok_sub c).
  - intros e [-> |He]%elem_of_cons; [done|]. destruct (callback ir.1); [|by apply not_elem_of_nil in He].
    by apply list_elem_of_singleton in He as ->.
  - intros k' p' Hne Hp'. apply list_lookup_insert_ne. intros <-. by apply Hne, (o_owner _ _ Hok k' k p).
  - intros p' v' Hv. cbn. rw list_lookup_insert_ne; [done|]. intros <-. congruence.
  - intros _ E2 E3 E4. set (w' := with_futures _ _) in *. pose proof (o_calls _ _ Hok k) as Hcall.
    assert (entry w' k = None) as E5 by (rw E4; exact (eq_trans (eq_sym E3) A1)).
    assert (forall p, ~ owns w' k p) as Hno.
    { intros p' [(? & ? & _)|[v' Hv]]; [congruence|]. rewrite E2 in Hv. by apply not_elem_of_nil in Hv. }
    assert (forall e, e ∈ tr ++ es -> match e with Asked _ _ _ | Answered _ _ _ => e ∈ tr | _ => True end) as Htr.
    { intros e [He|He]%elem_of_app; [by destruct e|]. apply elem_of_cons in He as [-> |He]; [done|].
      destruct (callback ir.1); [|by apply not_elem_of_nil in He]. by apply list_elem_of_singleton in He as ->. }
    split; [|intros p' Hp'; by destruct (Hno p')]. split.
    + left. split; [done|by left].
    + intros p' Hp'. by destruct (Hno p').
    + intros q' p' Hq%Htr. right. cbn. destruct (decide (p' = p)) as [-> |Hne].
      * exists v. apply list_lookup_insert_eq. exact (lookup_lt_Some _ _ _ Hp).
      * rw list_lookup_insert_ne; [|done]. destruct (c_asked _ _ _ Hcall q' p' Hq) as [G|G]; [|done].
        destruct G as [(? & ? & _)|[v' Hv]]; [congruence|]. rewrite E1 in Hv.
        apply list_elem_of_singleton in Hv. congruence.
    + intros q1 v1 q2 v2 G1%Htr G2%Htr. by apply (c_once _ _ _ Hcall).
Qed.

(** ** The service *)

Lemma service_token w (j : nat) s t : services w !! j = Some s -> t ∈ service_tokens s -> t ∈ tokens w.
Proof. intros Hi Ht. destruct (tokens_service w j s Hi) as (rest & -> & _). set_solver. Qed.

Lemma service_drop w tr (j : nat) s s' r :
  ok w tr -> services w !! j = Some s -> service_name_ s' = service_name_ s ->
  @service_tokens Req Resp s ≡ₚ waiting r :: service_tokens s' -> ok (set_service j s' w) (tr ++ [Lost (call_of r)]).
Proof.
  intros Hok Hj Hn Ht.
  apply (service_step w tr [Lost (call_of r)] j s s' (call_of r) [Waiting (request_payload r)] [] (service_tokens s'));
    try done; try (simpl; lia).
  - set_solver.
  - intros E1 E2. apply (call_drop w _ tr _ _ Hok E1); [left; by eexists|done..].
Qed.

Lemma service_keep w tr (j : nat) s s' r :
  ok w tr -> services w !! j = Some s -> service_name_ s' = service_name_ s ->
  @service_tokens Req Resp s ≡ₚ service_tokens s' -> waiting r ∈ @service_tokens Req Resp s -> ok (set_service j s' w) tr.
Proof.
  intros Hok Hj Hn Ht Hin. rw -(app_nil_r tr). apply list_elem_of_split in Hin as (l1 & l2 & Hl).
  assert (@service_tokens Req Resp s ≡ₚ waiting r :: l1 ++ l2) as Hl' by (rw Hl; by rw Permutation_middle).
  apply (service_step w tr [] j s s' (call_of r) [Waiting (request_payload r)] [Waiting (request_payload r)] (l1 ++ l2));
    try done; try (simpl; lia).
  - by rw -Ht.
  - set_solver.
  - intros E1 E2. exact (call_keep w _ tr _ _ Hok E1 E2 eq_refl eq_refl).
Qed.

Lemma lose_request_ok w tr (j n : nat) s r :
  ok w tr -> services w !! j = Some s -> requests s !! n = Some r ->
  ok (set_service j (with_requests (delete n (requests s)) s) w) (tr ++ [Lost (call_of r)]).
Proof.
  intros Hok Hj Hr. apply (service_drop w tr j s); [done..|]. unfold service_tokens. cbn -[fmap list_fmap].
  by rw (fmap_delete (@waiting Req Resp) (requests s) n r Hr).
Qed.

Lemma drop_request_ok w tr (j n : nat) s r :
  ok w tr -> services w !! j = Some s -> accepted s !! n = Some r ->
  ok (set_service j (with_accepted (delete n (accepted s)) s) w) (tr ++ [Lost (call_of r)]).
Proof.
  intros Hok Hj Hr. apply (service_drop w tr j s); [done..|]. unfold service_tokens. cbn -[fmap list_fmap].
  rw (fmap_delete (@waiting Req Resp) (accepted s) n r Hr). by rw Permutation_middle.
Qed.

(** A service takes a request: [lost] is the one that it drops. *)
Lemma take_request_ok w tr (j : nat) s valid lost s' :
  ok w tr -> services w !! j = Some s -> request_callback valid s = Some (lost, s') ->
  ok (set_service j s' w) (tr ++ match lost with Some r => [Lost (call_of r)] | None => [] end).
Proof.
  intros Hok Hj Hcb. unfold request_callback in Hcb. destruct (requests s) as [|r l] eqn:Er; [done|].
  assert (forall s', service_name_ s' = service_name_ s -> requests s' = l -> accepted s' = accepted s ++ [r] ->
    ok (set_service j s' w) (tr ++ [])) as Hacc.
  { intros t Hn Hr Ha. rw app_nil_r. apply (service_keep w tr j s t r Hok Hj Hn).
    - unfold service_tokens. rw Er Hr Ha fmap_cons fmap_app list_fmap_singleton. solve_Permutation.
    - unfold service_tokens. rw Er fmap_cons. set_solver. }
  cbn [with_requests kind publishers_ accepted service_name_ requests] in Hcb. destruct (kind s).
  - unfold get_or_create_publisher_for in Hcb. cbn [publishers_ with_requests] in Hcb.
    destruct (publishers_ s !! _) as [p|]; cbv beta iota in Hcb; [injection Hcb as <- <-; by apply Hacc|].
    destruct valid; cbv beta iota in Hcb; injection Hcb as <- <-; [by apply Hacc|].
    apply (service_drop w tr j s); [done..|]. unfold service_tokens. cbn -[fmap list_fmap]. by rw Er fmap_cons.
  - injection Hcb as <- <-. by apply Hacc.
Qed.

Lemma get_or_create_publisher_for_keeps valid topic s p s' :
  get_or_create_publisher_for valid topic s = Some (p, s') ->
  service_name_ s' = service_name_ s /\ requests s' = requests s /\ accepted s' = accepted s.
Proof.
  unfold get_or_create_publisher_for. destruct (publishers_ s !! topic); [by intros [= _ <-]|].
  destruct valid; [|done]. by intros [= _ <-].
Qed.

Lemma respond_ok w tr (j n : nat) s r valid v topic a s' :
  ok w tr -> services w !! j = Some s -> accepted s !! n = Some r ->
  respond valid n v s = Some (topic, a, s') ->
  ok (publish_response topic a (set_service j s' w)) (tr ++ [Answered (call_of r) (request_payload r) v]).
Proof.
  intros Hok Hj Hr Hres. unfold respond in Hres. rewrite Hr in Hres.
  destruct (get_or_create_publisher_for valid _ s) as [[p t]|] eqn:Hg; [|done].
  destruct (get_or_create_publisher_for_keeps _ _ _ _ _ Hg) as (Hn & Hq & Ha).
  injection Hres as <- <- <-. cbn [snd]. set (s' := with_accepted _ t). set (w1 := set_service j s' w).
  set (k := call_of r). set (a := MkResponse _ v). set (w' := publish_response _ a w1).
  assert (@service_tokens Req Resp s ≡ₚ waiting r :: service_tokens s') as Ht.
  { unfold service_tokens. cbn -[fmap list_fmap]. rw Hq Ha (fmap_delete (@waiting Req Resp) (accepted s) n r Hr).
    by rw Permutation_middle. }
  destruct (tokens_service w j s Hj) as (rest & T1 & T2). specialize (T2 s'). fold w1 in T2.
  assert ((k, Waiting (request_payload r)) ∈ tokens w) as Hin by (apply (service_token w j s _ Hj); rw Ht; set_solver).
  pose proof (stages_token w tr _ _ Hok Hin) as E1.
  destruct (stage_at w tr _ _ Hok E1) as ((info & A1 & A2) & A3).
  pose proof (publish_response_tokens k.1 a w1 (o_topics _ _ Hok)) as T3.
  assert (existsb (fun c => String.eqb (response_topic_name_ c) k.1) (clients w) = true) as Hex.
  { unfold entry in A1. destruct (find _ (clients w)) as [c|] eqn:Hf; [|done].
    apply find_some in Hf as [Hf1 Hf2]. apply existsb_exists. by exists c. }
  change (clients w1) with (clients w) in T3. rewrite Hex in T3.
  assert (issued w k) as Hik.
  { destruct (o_fresh _ _ Hok k) as [?|(Hu & _)]; [done|congruence]. }
  assert (forall k', entry w' k' = entry w k') as He by (intros; apply (publish_response_clients k.1 a w1)).
  assert (forall k', issued w k' -> issued w' k') as Hi.
  { intros k' Hk'. by apply (publish_response_clients k.1 a w1). }
  apply (ok_step w tr _ _ k [Waiting (request_payload r)] [Answering v] (@service_tokens Req Resp s' ++ rest) Hok);
    [by rw T1 Ht|by left|by rw T3 T2|done| | | |done|set_solver|done|by apply Hi|done|done|apply (o_bad _ _ Hok)|].
  - exact (proj1 (publish_response_clients k.1 a w1 k)).
  - cbn -[fmap list_fmap]. rw list_fmap_insert. apply list_insert_id. rw list_lookup_fmap Hj. cbn. by rw Hn.
  - intros d. unfold w', publish_response. cbn -[fmap list_fmap]. intros (c & -> & Hc)%list_elem_of_fmap.
    pose proof (o_own _ _ Hok c Hc) as Hcl. destruct (String.eqb _ _); [|done]. by apply (client_ok_sub c).
  - intros _ E2. pose proof (o_calls _ _ Hok k) as Hcall.
    assert (forall p, owns w' k p <-> owns w k p) as Hown.
    { intros p'. unfold owns. rw He E1 E2. split; (intros [G|[v' Hv]]; [by left|]);
        apply list_elem_of_singleton in Hv; done. }
    split; [|intros p'; rw Hown; by left]. split.
    + right. exists (Answering v). split; [done|]. exists info, (request_payload r). rw He.
      split; [done|]. split; [set_solver|]. apply elem_of_app. right. by apply list_elem_of_singleton.
    + intros p' Hp'%Hown. by apply (c_open _ _ _ Hcall).
    + intros q p' [Hp'|Hp']%elem_of_app; [|by apply list_elem_of_singleton in Hp'].
      destruct (c_asked _ _ _ Hcall q p' Hp') as [G|G]; [left; by apply Hown|by right].
    + intros q1 v1 q2 v2 [G1|G1]%elem_of_app [G2|G2]%elem_of_app; try by destruct (A3 _ _ ltac:(eassumption)).
      apply list_elem_of_singleton in G1, G2. split; congruence.
Qed.

(** ** New clients and services *)

Lemma ok_frame w w' tr :
  ok w tr -> (forall k, stages w' k = stages w k) -> (forall k, entry w' k = entry w k) ->
  (forall k, issued w k -> issued w' k) -> futures w' = futures w -> bad_entry_ids w' = bad_entry_ids w ->
  distinct_topics w' -> NoDup (service_name_ <$> services w') -> (forall c, c ∈ clients w' -> client_ok c) -> ok w' tr.
Proof.
  intros [H1 H2 H3 H4 H5 H6 H7] Hs He Hi Hf Hb Ht Hn Hc.
  assert (forall k p, owns w' k p <-> owns w k p) as Ho by (intros; unfold owns; by rw Hs He).
  split; [done|done| | |done| |congruence].
  - intros k. destruct (H3 k) as [C1 C2 C3 C4]. split; [|intros p Hp%Ho; rw Hf; by apply C2| |done].
    + rw Hs He. destruct C1 as [C1|(st & Hst & C1)]; [by left|right]. exists st. split; [done|].
      destruct st; simpl in *; by rw He.
    + intros q p Hp. rw Hf. destruct (C3 q p Hp); [left; by apply Ho|by right].
  - intros k. destruct (H4 k) as [G|(U1 & U2 & U3)]; [left; by apply Hi|right].
    split; [by rw Hs|]. split; [by rw He|done].
  - intros k1 k2 p G1%Ho G2%Ho. by apply (H6 k1 k2 p).
Qed.

Lemma create_service_ok w tr name kd :
  ok w tr -> (forall s, s ∈ services w -> service_name_ s <> name) ->
  ok (with_services (services w ++ [new_service name kd]) w) tr.
Proof.
  intros Hok Hnew. apply (ok_frame w); try done; [| | |apply (o_own _ _ Hok)].
  - intros k. unfold stages, tokens. cbn -[fmap list_fmap mjoin list_join]. rw fmap_app join_app.
    unfold service_tokens at 2. cbn. by rw app_nil_r.
  - apply (o_topics _ _ Hok).
  - cbn -[fmap list_fmap]. rw fmap_app list_fmap_singleton. apply NoDup_app. split; [apply (o_services _ _ Hok)|].
    split; [|apply NoDup_singleton]. intros x (s & -> & Hs)%list_elem_of_fmap Hx.
    apply list_elem_of_singleton in Hx. by apply (Hnew s).
Qed.

Lemma create_client_ok w tr name node id g :
  ok w tr -> sep_free (to_chars name) = true -> 0 <= id < 2 ^ 31 ->
  (forall c, c ∈ clients w -> client_service_name c = name -> client_publisher_id c <> id) ->
  ok (with_clients (clients w ++ [new_client name node id g]) w) tr.
Proof.
  intros Hok Hsep Hid Hnew.
  assert (forall c, c ∈ clients w ->
    response_topic_name_ c <> create_service_response_topic_name name node id) as Hfresh.
  { intros c Hc He. destruct (o_own _ _ Hok c Hc) as [K1 K2 K3 _ _]. rewrite K1 in He.
    apply response_topic_inj in He as (E1 & _ & E2); [|done..]. by apply (Hnew c). }
  apply (ok_frame w); try done; [| | | |apply (o_services _ _ Hok)|].
  - intros k. unfold stages, tokens. cbn -[fmap list_fmap mjoin list_join new_client]. rw fmap_app join_app.
    assert (mjoin (client_tokens <$> [new_client (Req := Req) (Resp := Resp) name node id g]) = []) as -> by done.
    by rw app_nil_r.
  - intros k. unfold entry. cbn [clients with_clients]. clear. induction (clients w) as [|c l IH]; cbn [app find].
    + by destruct (String.eqb _ _).
    + destruct (String.eqb _ _); [done|exact IH].
  - intros k (c & Hc & Ht). exists c. split; [|done]. cbn. set_solver.
  - unfold distinct_topics. cbn -[fmap list_fmap new_client]. rw fmap_app list_fmap_singleton. apply NoDup_app.
    split; [apply (o_topics _ _ Hok)|]. split; [|apply NoDup_singleton].
    intros x (c & -> & Hc)%list_elem_of_fmap Hx. apply list_elem_of_singleton in Hx. by apply (Hfresh c).
  - intros c [Hc|Hc]%elem_of_app; [by apply (o_own _ _ Hok)|]. apply list_elem_of_singleton in Hc as ->.
    split; cbn -[create_service_response_topic_name]; [done|done|done|lia|constructor].
Qed.
End calls.
