(* ===== verification/ServiceRuns.v ===== *)
(** * Runs of clients and services

    The actions of any number of clients and services, in any order: what their traces show. *)

From Stdlib Require Import Ascii.
From S2P Require Import Prelude Strings Kernel KTypes KQuery Services ServiceTheorems ServiceCalls.

Section runs.
Context {Req Resp : Type}.
Implicit Types (w : world Req Resp) (c : Client Req Resp) (s : Service Req) (tr es : list (event Req Resp)).
Implicit Types (r : request Req) (k : string * Z).

(** What the environment keeps to: the module numbers the publishers of a topic, a name has one service,
    names of services do not run into the separator of the response topics, and the sequence numbers of a
    client do not run out. *)
Definition allowed (a : action Req Resp) w : bool :=
  match a with
  | CreateClient name _ id _ =>
      sep_free (to_chars name) && (0 <=? id) && (id <? 2 ^ 31) &&
      forallb (fun c => negb (String.eqb (client_service_name c) name && (client_publisher_id c =? id))) (clients w)
  | CreateService name _ => forallb (fun s => negb (String.eqb (service_name_ s) name)) (services w)
  | BorrowRequest i _ => match clients w !! i with Some c => next_sequence_number_ c <? 2 ^ 63 - 1 | None => true end
  | _ => true
  end.

Inductive run : list (event Req Resp) -> world Req Resp -> Prop :=
  | run_start : run [] start
  | run_step tr w a es w' : run tr w -> allowed a w = true -> act a w = Some (es, w') -> run (tr ++ es) w'.

(** The same, executable. *)
Fixpoint play (l : list (action Req Resp)) w : option (list (event Req Resp) * world Req Resp) :=
  match l with
  | [] => Some ([], w)
  | a :: l =>
      require allowed a w orelse None;
      unwrap ew := act a w orelse None;
      unwrap rest := play l ew.2 orelse None;
      Some (ew.1 ++ rest.1, rest.2)
  end.

Lemma play_run l tr w es w' : run tr w -> play l w = Some (es, w') -> run (tr ++ es) w'.
Proof.
  revert tr w es. induction l as [|a l IH]; intros tr w es Hrun Hp; cbn [play] in Hp.
  - injection Hp as <- <-. by rw app_nil_r.
  - destruct (allowed a w) eqn:Ha; [|done]. destruct (act a w) as [[es1 w1]|] eqn:Hact; [|done].
    cbn [snd fst] in Hp. destruct (play l w1) as [[es2 w2]|] eqn:Hl; [|done]. injection Hp as <- <-.
    rw app_assoc. apply (IH (tr ++ es1) w1); [|done]. by eapply run_step.
Qed.

Definition resolved_of (e : event Req Resp) : option nat := match e with Resolved p _ => Some p | _ => None end.
Definition called_of (e : event Req Resp) : option nat := match e with CalledBack p _ => Some p | _ => None end.

Record hist w tr : Prop := {
  h_len : forall k q p, Asked k q p ∈ tr -> (p < length (futures w))%nat;
  h_fun : forall k1 q1 k2 q2 p, Asked k1 q1 p ∈ tr -> Asked k2 q2 p ∈ tr -> k1 = k2 /\ q1 = q2;
  h_call : forall k q1 p1 q2 p2, Asked k q1 p1 ∈ tr -> Asked k q2 p2 ∈ tr -> q1 = q2 /\ p1 = p2;
  h_value : forall p v, Resolved p v ∈ tr <-> futures w !! p = Some (Some v);
  h_answer : forall p v, Resolved p v ∈ tr -> exists k q, Asked k q p ∈ tr /\ Answered k q v ∈ tr;
  h_called : forall p v, CalledBack p v ∈ tr -> Resolved p v ∈ tr;
  h_once : NoDup (omap resolved_of tr);
  h_once_called : NoDup (omap called_of tr)
}.

(** Steps that neither make a future nor resolve one. *)
Definition quiet (e : event Req Resp) : Prop :=
  match e with Answered _ _ _ | Lost _ => True | _ => False end.

Lemma omap_quiet {A} (f : event Req Resp -> option A) es :
  Forall quiet es -> (forall e, quiet e -> f e = None) -> omap f es = [].
Proof. intros H Hf. induction H as [|e es He _ IH]; [done|]. cbn. by rw (Hf e He). Qed.

Lemma hist_quiet w w' tr es : hist w tr -> Forall quiet es -> futures w' = futures w -> hist w' (tr ++ es).
Proof.
  intros [H1 H2 Hc H3 H4 H5 H6 H7] Hq Hf.
  assert (forall e, e ∈ tr ++ es -> ~ quiet e -> e ∈ tr) as Hin.
  { intros e [He|He]%elem_of_app Hn; [done|]. rewrite Forall_forall in Hq. by destruct Hn; apply Hq. }
  assert (forall e, e ∈ tr -> e ∈ tr ++ es) as Happ by (intros; by apply elem_of_app; left).
  split.
  - intros k q p Hp. rw Hf. by apply (H1 k q), Hin; [|auto].
  - intros k1 q1 k2 q2 p G1 G2. apply (H2 k1 q1 k2 q2 p); apply Hin; auto.
  - intros k q1 p1 q2 p2 G1 G2. apply (Hc k q1 p1 q2 p2); apply Hin; auto.
  - intros p v. rw Hf -H3. split; [intros H; apply Hin; auto|auto].
  - intros p v Hv. destruct (H4 p v) as (k & q & G1 & G2); [apply Hin; auto|]. exists k, q. auto.
  - intros p v Hv. apply Happ, H5, Hin; auto.
  - rw omap_app (omap_quiet resolved_of es Hq) ?app_nil_r; [done|by intros []].
  - rw omap_app (omap_quiet called_of es Hq) ?app_nil_r; [done|by intros []].
Qed.

Lemma hist_asked w w' tr k q :
  hist w tr -> futures w' = futures w ++ [None] -> (forall q p, Asked k q p ∉ tr) ->
  hist w' (tr ++ [Asked k q (length (futures w))]).
Proof.
  intros [H1 H2 Hc H3 H4 H5 H6 H7] Hf Hnew.
  assert (forall k' q' p, Asked k' q' p ∈ tr ++ [Asked k q (length (futures w))] ->
    Asked k' q' p ∈ tr \/ (k' = k /\ q' = q /\ p = length (futures w))) as HA.
  { intros k' q' p [Hp|Hp]%elem_of_app; [by left|right]. apply list_elem_of_singleton in Hp. by injection Hp as -> -> ->. }
  assert (forall e, e ∈ tr -> e ∈ tr ++ [Asked k q (length (futures w))]) as Happ by (intros; by apply elem_of_app; left).
  assert (forall p v, Resolved p v ∈ tr ++ [Asked k q (length (futures w))] -> Resolved p v ∈ tr) as HR.
  { intros p v [Hp|Hp]%elem_of_app; [done|]. by apply list_elem_of_singleton in Hp. }
  split.
  - intros k' q' p Hp. rw Hf length_app. simpl. destruct (HA k' q' p Hp) as [G|(_ & _ & ->)]; [|lia].
    specialize (H1 _ _ _ G). lia.
  - intros k1 q1 k2 q2 p [G1|(-> & -> & ->)]%HA [G2|(-> & -> & E)]%HA; [by apply (H2 k1 q1 k2 q2 p)| | |done].
    + subst p. specialize (H1 _ _ _ G1). lia.
    + specialize (H1 _ _ _ G2). lia.
  - intros k' q1 p1 q2 p2 [G1|(-> & -> & ->)]%HA [G2|(E & -> & ->)]%HA;
      [by apply (Hc k' q1 p1 q2 p2)|subst k'; by destruct (Hnew q1 p1)|by destruct (Hnew q2 p2)|done].
  - intros p v. rw Hf. split.
    + intros Hp%HR%H3. rw lookup_app_l; [done|exact (lookup_lt_Some _ _ _ Hp)].
    + intros Hp. apply Happ, H3. destruct (decide (p < length (futures w))%nat) as [Hl|Hl]; [by rewrite lookup_app_l in Hp|].
      apply lookup_app_Some in Hp as [Hp|[_ Hp]]; [done|]. by apply list_lookup_singleton_Some in Hp as [_ ?].
  - intros p v Hv%HR. destruct (H4 p v Hv) as (k' & q' & G1 & G2). exists k', q'. auto.
  - intros p v [Hp|Hp]%elem_of_app; [by apply Happ, H5|by apply list_elem_of_singleton in Hp].
  - by rw omap_app app_nil_r.
  - by rw omap_app app_nil_r.
Qed.

Lemma hist_resolved w w' tr p v (b : bool) :
  hist w tr -> futures w !! p = Some None -> futures w' = <[p := Some v]> (futures w) ->
  (exists k q, Asked k q p ∈ tr /\ Answered k q v ∈ tr) ->
  hist w' (tr ++ Resolved p v :: (if b then [CalledBack p v] else [])).
Proof.
  intros [H1 H2 Hc H3 H4 H5 H6 H7] Hp Hf Hkq. set (es := Resolved p v :: _).
  assert (forall e, e ∈ es -> e = Resolved p v \/ e = CalledBack p v) as Hes.
  { intros e [->|He]%elem_of_cons; [by left|]. destruct b; [|by apply not_elem_of_nil in He].
    apply list_elem_of_singleton in He. by right. }
  assert (forall e, e ∈ tr -> e ∈ tr ++ es) as Happ by (intros; by apply elem_of_app; left).
  assert (forall k q p, Asked k q p ∈ tr ++ es -> Asked k q p ∈ tr) as HA.
  { intros k q p' [?|[?|?]%Hes]%elem_of_app; done. }
  assert (forall v', Resolved p v' ∉ tr) as Hno by (intros v' Hv%H3; congruence).
  assert (forall p' v', Resolved p' v' ∈ tr ++ es <-> Resolved p' v' ∈ tr \/ (p' = p /\ v' = v)) as HR.
  { intros p' v'. rw elem_of_app. split; (intros [G|G]; [by left|right]).
    - by destruct (Hes _ G) as [[= -> ->]|].
    - destruct G as [-> ->]. apply elem_of_cons. by left. }
  split.
  - intros k q p' G%HA. rw Hf length_insert. by apply (H1 k q).
  - intros k1 q1 k2 q2 p' G1%HA G2%HA. by apply (H2 k1 q1 k2 q2 p').
  - intros k q1 p1 q2 p2 G1%HA G2%HA. by apply (Hc k q1 p1 q2 p2).
  - intros p' v'. rw HR Hf. destruct (decide (p' = p)) as [-> |Hne].
    + rw list_lookup_insert_eq; [|exact (lookup_lt_Some _ _ _ Hp)]. split; [|intros [= ->]; by right].
      intros [G|[_ ->]]; [by destruct (Hno v')|done].
    + rw list_lookup_insert_ne; [|done]. rw H3. naive_solver.
  - intros p' v' [G|[-> ->]]%HR.
    + destruct (H4 _ _ G) as (k & q & G1 & G2). exists k, q. auto.
    + destruct Hkq as (k & q & G1 & G2). exists k, q. auto.
  - intros p' v' [G|G]%elem_of_app; apply HR; [by left; apply H5|].
    destruct (Hes _ G) as [|[= -> ->]]; [done|by right].
  - rw omap_app. assert (omap resolved_of es = [p]) as -> by (by destruct b). apply NoDup_app. split; [done|].
    split; [|apply NoDup_singleton]. intros x (e & He & Hx)%list_elem_of_omap Hx'.
    apply list_elem_of_singleton in Hx' as ->. destruct e; try done. injection Hx as ->. by apply Hno in He.
  - rw omap_app. assert (omap called_of es = if b then [p] else []) as -> by (by destruct b). apply NoDup_app. split; [done|].
    split; [|destruct b; [apply NoDup_singleton|constructor]]. intros x (e & He & Hx)%list_elem_of_omap Hx'.
    assert (x = p) as -> by (destruct b; [by apply list_elem_of_singleton in Hx'|by apply not_elem_of_nil in Hx']).
    destruct e; try done. injection Hx as ->. by apply H5, Hno in He.
Qed.

Lemma act_keeps w tr a es w' :
  ok w tr -> hist w tr -> allowed a w = true -> act a w = Some (es, w') -> ok w' (tr ++ es) /\ hist w' (tr ++ es).
Proof.
  intros Hok Hh Ha Hact.
  assert (forall w' es, ok w' (tr ++ es) -> Forall quiet es -> futures w' = futures w ->
    ok w' (tr ++ es) /\ hist w' (tr ++ es)) as Hq by (intros; split; [done|by eapply hist_quiet]).
  destruct a as [name node id g|name kd|i q|i n|i n b|i n|j valid|j n valid v|j n|i|i n|j n|i n];
    cbn [act] in Hact;
    try (destruct (clients w !! i) as [c|] eqn:Hi; [|done]); try (destruct (services w !! j) as [s|] eqn:Hj; [|done]).
  - cbn [allowed] in Ha. apply andb_true_iff in Ha as [[[A1 A2]%andb_true_iff A3]%andb_true_iff A4].
    bool_to_prop. injection Hact as <- <-. apply Hq; [|done|done]. rw app_nil_r.
    apply create_client_ok; [done|done|done|]. intros c Hc E1 E2. rewrite forallb_forall in A4.
    specialize (A4 c ltac:(by apply list_elem_of_In)). rewrite E1 E2 String.eqb_refl Z.eqb_refl in A4. done.
  - injection Hact as <- <-. apply Hq; [|done|done]. rw app_nil_r. apply create_service_ok; [done|].
    intros s Hs E. cbn [allowed] in Ha. rewrite forallb_forall in Ha.
    specialize (Ha s ltac:(by apply list_elem_of_In)). by rewrite E String.eqb_refl in Ha.
  - injection Hact as <- <-. apply Hq; [|done|done]. rw app_nil_r. apply borrow_request_ok; [done|done|].
    cbn [allowed] in Ha. rewrite Hi in Ha. by apply Z.ltb_lt.
  - destruct (loaned c !! n) as [r|] eqn:Hr; [|done]. injection Hact as <- <-. apply Hq; [|done|done]. rw app_nil_r.
    by apply (cancel_ok w tr i n c r).
  - destruct (loaned c !! n) as [r|] eqn:Hr; [|by unfold register_call in Hact; rewrite Hr in Hact].
    destruct (register_call_ok w tr i n c r b Hok Hi Hr) as (c' & Hc' & Hnew & Hok'). rewrite Hc' in Hact.
    injection Hact as <- <-. split; [done|]. by apply (hist_asked w).
  - destruct (sending c !! n) as [r|] eqn:Hr; [|by unfold take_sending in Hact; rewrite Hr in Hact].
    unfold take_sending in Hact. rewrite Hr in Hact. injection Hact as <- <-.
    apply Hq; [by apply publish_ok|by destruct (existsb _ _); repeat constructor|done].
  - destruct (request_callback valid s) as [[lost s']|] eqn:Hr; [|done]. injection Hact as <- <-.
    apply Hq; [by apply (take_request_ok w tr j s valid)|by destruct lost; repeat constructor|done].
  - destruct (accepted s !! n) as [r|] eqn:Hr; [|done].
    destruct (respond valid n v s) as [[[topic a] s']|] eqn:Hres; [|done]. injection Hact as <- <-.
    apply Hq; [by apply (respond_ok w tr j n s r valid)|by repeat constructor|done].
  - destruct (accepted s !! n) as [r|] eqn:Hr; [|done]. injection Hact as <- <-.
    apply Hq; [by apply drop_request_ok|by repeat constructor|done].
  - destruct (arrived c) as [|x l] eqn:Hr; [by unfold response_callback in Hact; rewrite Hr in Hact|].
    destruct (take_response_ok w tr i c x l Hok Hi Hr) as (info & c' & Hc' & Hok'). rewrite Hc' in Hact.
    injection Hact as <- <-. apply Hq; [by rw app_nil_r|done|done].
  - destruct (resolving c !! n) as [ir|] eqn:Hr; [|done].
    destruct (resolve_ok w tr i n c ir Hok Hi Hr) as (R1 & R2 & R3 & R4). rewrite R3 in Hact.
    injection Hact as <- <-. split; [done|]. by apply (hist_resolved w).
  - destruct (requests s !! n) as [r|] eqn:Hr; [|done]. injection Hact as <- <-.
    apply Hq; [by apply lose_request_ok|by repeat constructor|done].
  - destruct (arrived c !! n) as [x|] eqn:Hr; [|done]. injection Hact as <- <-.
    apply Hq; [by apply lose_response_ok|by repeat constructor|done].
Qed.

Lemma start_ok : ok (start : world Req Resp) [] /\ hist (start : world Req Resp) [].
Proof.
  assert (forall k p, ~ owns (start : world Req Resp) k p) as Ho.
  { intros k p [(info & ? & _)|[v Hv]]; [done|by apply not_elem_of_nil in Hv]. }
  assert (forall e : event Req Resp, e ∉ []) as He by (intros e; apply not_elem_of_nil).
  split.
  - split; [constructor|constructor| | | | |done].
    + intros k. split; [by left; split; [|left]|intros p Hp; by destruct (Ho k p)| |].
      * intros q p Hp. by apply He in Hp.
      * intros q1 v1 q2 v2 Hp. by apply He in Hp.
    + intros k. right. by repeat (split; [done|]).
    + intros c Hc. by apply not_elem_of_nil in Hc.
    + intros k1 k2 p Hp. by destruct (Ho k1 p).
  - split; [..|constructor|constructor].
    + intros k q p Hp. by apply He in Hp.
    + intros k1 q1 k2 q2 p Hp. by apply He in Hp.
    + intros k q1 p1 q2 p2 Hp. by apply He in Hp.
    + intros p v. split; [|done]. intros Hp. by apply He in Hp.
    + intros p v Hp. by apply He in Hp.
    + intros p v Hp. by apply He in Hp.
Qed.

Lemma run_keeps tr w : run tr w -> ok w tr /\ hist w tr.
Proof.
  induction 1 as [|tr w a es w' _ [IH1 IH2] Ha Hact]; [apply start_ok|by eapply act_keeps].
Qed.

(** C29. Every answer goes to the call that asked.  In any interleaving of clients and services in which
    no two services have one name ([two_services_of_one_name] shows what a second one does), no client's
    service name followed by the separator [_SEP_] of the response topics has an earlier [_SEP_], the
    module gives the publishers of one service's clients different numbers below 2^31, and no client has
    numbered 2^63 - 1 requests: a future that got a value belongs to one call, the value was given by a
    service in answer to the request of that call and to no other, no future is resolved twice and no
    callback runs twice or without its answer; a response that arrives finds its entry in the table, and
    what was taken out of the table can always be handed to the promise. *)
Theorem calls_get_their_own_answer tr w :
  run tr w ->
  (forall p v, Resolved p v ∈ tr -> exists k q, Asked k q p ∈ tr /\ Answered k q v ∈ tr /\
     (forall k' q', Asked k' q' p ∈ tr -> k' = k /\ q' = q) /\
     (forall q' p', Asked k q' p' ∈ tr -> p' = p) /\
     (forall q' v', Answered k q' v' ∈ tr -> q' = q /\ v' = v)) /\
  NoDup (omap resolved_of tr) /\ NoDup (omap called_of tr) /\
  (forall p v, CalledBack p v ∈ tr -> Resolved p v ∈ tr) /\
  bad_entry_ids w = 0%nat /\
  (forall (i n : nat) c ir, clients w !! i = Some c -> resolving c !! n = Some ir -> is_Some (act (Resolve i n) w)).
Proof.
  intros Hrun. destruct (run_keeps tr w Hrun) as [Hok Hh]. split; [|split; [|split; [|split; [|split]]]].
  - intros p v Hp. destruct (h_answer _ _ Hh p v Hp) as (k & q & G1 & G2). exists k, q.
    split; [done|]. split; [done|]. split; [|split].
    + intros k' q' G. by destruct (h_fun _ _ Hh k' q' k q p G G1).
    + intros q' p' G. by destruct (h_call _ _ Hh k q' p' q p G G1).
    + intros q' v' G. by apply (c_once _ _ _ (o_calls _ _ Hok k)).
  - apply (h_once _ _ Hh).
  - apply (h_once_called _ _ Hh).
  - apply (h_called _ _ Hh).
  - apply (o_bad _ _ Hok).
  - intros i n c ir Hi Hr. destruct (resolve_ok w tr i n c ir Hok Hi Hr) as (_ & _ & R & _).
    cbn [act]. rw Hi Hr R. by eexists.
Qed.

(** ** Calls come to an end *)

(** Nothing is on its way: only requests that were not sent. *)
Definition settled w : Prop :=
  (forall c, c ∈ clients w -> sending c = [] /\ arrived c = [] /\ resolving c = []) /\
  (forall s, s ∈ services w -> requests s = [] /\ accepted s = []).

Lemma settled_stage w k st : settled w -> st ∈ stages w k -> st = AtClient.
Proof.
  intros [Hc Hs] (t & Ht & Hst)%list_elem_of_omap. destruct (decide _) as [_|]; [|done]. injection Hst as <-.
  unfold tokens in Ht. apply elem_of_app in Ht as [Ht|Ht]; apply list_elem_of_join in Ht as (l & Ht & Hl);
    apply list_elem_of_fmap in Hl as (x & -> & Hx).
  - destruct (Hc x Hx) as (E1 & E2 & E3). unfold client_tokens in Ht. rewrite E1 E2 E3 !app_nil_r in Ht.
    by apply list_elem_of_fmap in Ht as (r & -> & _).
  - destruct (Hs x Hx) as (E1 & E2). unfold service_tokens in Ht. rewrite E1 E2 in Ht. by apply not_elem_of_nil in Ht.
Qed.

Lemma settled_calls w tr k q p :
  ok w tr -> hist w tr -> settled w -> Asked k q p ∈ tr -> (exists v, Resolved p v ∈ tr) \/ Lost k ∈ tr.
Proof.
  intros Hok Hh Hset Hp. pose proof (o_calls _ _ Hok k) as Hk.
  destruct (c_asked _ _ _ Hk q p Hp) as [Hown|[v Hv]]; [|left; exists v; by apply (h_value _ _ Hh)].
  destruct (c_stage _ _ _ Hk) as [[E1 [E2|E2]]|(st & E1 & E2)]; [|by right|]; exfalso.
  - destruct Hown as [(? & ? & _)|[v Hv]]; [congruence|]. rewrite E1 in Hv. by apply not_elem_of_nil in Hv.
  - assert (st = AtClient) as -> by (apply (settled_stage w k); [done|rw E1; by apply list_elem_of_singleton]).
    destruct E2 as (_ & A & _). by destruct (A q p).
Qed.

(** The steps that a message has to go. *)
Definition client_mass c : list unit :=
  mjoin ((fun _ => replicate 5 ()) <$> sending c) ++ mjoin ((fun _ => replicate 2 ()) <$> arrived c) ++
  ((fun _ => ()) <$> resolving c).
Definition service_mass s : list unit :=
  mjoin ((fun _ => replicate 4 ()) <$> requests s) ++ mjoin ((fun _ => replicate 3 ()) <$> accepted s).
Definition mass w : nat :=
  (length (mjoin (client_mass <$> clients w)) + length (mjoin (service_mass <$> services w)))%nat.

Lemma mass_client w (i : nat) c c' :
  clients w !! i = Some c ->
  (mass (set_client i c' w) + length (client_mass c) = mass w + length (client_mass c'))%nat.
Proof.
  intros Hi. destruct (mjoin_split client_mass _ i c Hi) as (rest & H1 & H2). unfold mass.
  cbn [clients services set_client with_clients]. rw H1 (H2 c') !length_app. lia.
Qed.

Lemma mass_service w (j : nat) s s' :
  services w !! j = Some s ->
  (mass (set_service j s' w) + length (service_mass s) = mass w + length (service_mass s'))%nat.
Proof.
  intros Hj. destruct (mjoin_split service_mass _ j s Hj) as (rest & H1 & H2). unfold mass.
  cbn [clients services set_service with_services]. rw H1 (H2 s') !length_app. lia.
Qed.

Lemma mass_publish_request topic r w :
  NoDup (service_name_ <$> services w) -> (mass (publish_request topic r w) <= mass w + 4)%nat.
Proof.
  intros Hd. unfold mass, publish_request. cbn [clients services with_services].
  rw (mjoin_hit service_mass service_name_ (subscribed topic) _ (replicate 4 ())); [|done| |].
  - rw length_app. destruct (existsb _ _); simpl; lia.
  - unfold subscribed. intros x y Hx%String.eqb_eq Hy%String.eqb_eq. apply request_topic_inj. congruence.
  - intros s _. unfold service_mass. cbn -[fmap list_fmap mjoin list_join replicate].
    rw fmap_app join_app list_fmap_singleton. cbn [mjoin list_join]. rw app_nil_r. solve_Permutation.
Qed.

Lemma mass_publish_response topic a w :
  distinct_topics w -> (mass (publish_response topic a w) <= mass w + 2)%nat.
Proof.
  intros Hd. unfold mass, publish_response. cbn [clients services with_clients].
  rw (mjoin_hit client_mass response_topic_name_ (fun c => String.eqb (response_topic_name_ c) topic) _ (replicate 2 ()));
    [|done| |].
  - rw length_app. destruct (existsb _ _); simpl; lia.
  - intros x y Hx%String.eqb_eq Hy%String.eqb_eq. congruence.
  - intros c _. unfold client_mass. cbn -[fmap list_fmap mjoin list_join replicate].
    rw fmap_app join_app list_fmap_singleton. cbn [mjoin list_join]. rw app_nil_r. solve_Permutation.
Qed.

(** Every client has a service. *)
Definition served w : Prop :=
  forall name, name ∈ client_service_name <$> clients w -> name ∈ service_name_ <$> services w.

Lemma fmap_set {A B} (f : A -> B) (l : list A) (i : nat) x x' :
  l !! i = Some x -> f x' = f x -> f <$> <[i := x']> l = f <$> l.
Proof. intros Hi Hf. rw list_fmap_insert Hf. apply list_insert_id. by rw list_lookup_fmap Hi. Qed.

Lemma served_same w w' :
  served w -> client_service_name <$> clients w' = client_service_name <$> clients w ->
  service_name_ <$> services w' = service_name_ <$> services w -> served w'.
Proof. intros Hs E1 E2 name. rw E1 E2. apply Hs. Qed.

Lemma publish_response_names topic a w :
  client_service_name <$> clients (publish_response topic a w) = client_service_name <$> clients w.
Proof.
  unfold publish_response. cbn [clients with_clients]. rw -list_fmap_compose. apply list_fmap_ext.
  intros j c _. unfold compose. by destruct (String.eqb _ _).
Qed.

Definition progress (w : world Req Resp) : Prop :=
  exists a es w', allowed a w = true /\ act a w = Some (es, w') /\ (mass w' < mass w)%nat /\ served w' /\
    forall k, Lost k ∉ es.

Lemma progress_publish w tr (i : nat) c r l :
  ok w tr -> served w -> clients w !! i = Some c -> sending c = r :: l -> progress w.
Proof.
  intros Hok Hsv Hi Hr. exists (PublishRequest i 0). cbn [act allowed]. rw Hi. unfold take_sending. rw Hr.
  cbn [lookup list_lookup fst snd]. eexists _, _. split; [done|]. split; [reflexivity|].
  change (delete 0%nat (r :: l)) with l.
  set (topic := create_service_request_topic_name _). set (c' := with_sending l c).
  assert (existsb (subscribed topic) (services w) = true) as Hex.
  { assert (client_service_name c ∈ service_name_ <$> services w) as Hin
      by (apply Hsv, list_elem_of_fmap; exists c; split; [done|exact (list_elem_of_lookup_2 _ _ _ Hi)]).
    apply list_elem_of_fmap in Hin as (s & E & Hs). apply existsb_exists. exists s.
    split; [by apply list_elem_of_In|]. unfold subscribed. rw -E. apply String.eqb_refl. }
  split; [|split; [|rw Hex; intros k; apply not_elem_of_nil]].
  - pose proof (mass_publish_request topic r (set_client i c' w) (o_services _ _ Hok)) as M1.
    pose proof (mass_client w i c c' Hi) as M2.
    assert (client_mass c = replicate 5 () ++ client_mass c') as Em by (unfold client_mass; by rw Hr fmap_cons).
    rewrite Em length_app length_replicate in M2. lia.
  - apply (served_same w); [done|by apply (fmap_set client_service_name _ i c)|].
    apply (publish_request_names topic r (set_client i c' w)).
Qed.

Lemma progress_take_response w tr (i : nat) c a l :
  ok w tr -> served w -> clients w !! i = Some c -> arrived c = a :: l -> progress w.
Proof.
  intros Hok Hsv Hi Hr. destruct (take_response_ok w tr i c a l Hok Hi Hr) as (info & c' & Hc' & _).
  exists (TakeResponse i), [], (set_client i c' w). split; [done|]. split; [cbn [act]; by rw Hi Hc'|].
  unfold response_callback in Hc'. rewrite Hr in Hc'. destruct (_ !! response_seqno a); [|done].
  injection Hc' as -> <-. split; [|split; [|intros k; apply not_elem_of_nil]].
  - match goal with |- context [set_client i ?d w] => pose proof (mass_client w i c d Hi) as M; set (c' := d) in * end.
    assert (client_mass c ≡ₚ () :: client_mass c') as Em.
    { unfold client_mass. subst c'. cbn [sending arrived resolving with_resolving with_table with_arrived].
      rw Hr fmap_app fmap_cons list_fmap_singleton. cbn [mjoin list_join replicate]. solve_Permutation. }
    apply Permutation_length in Em. simpl in Em. lia.
  - apply (served_same w); [done|by apply (fmap_set client_service_name _ i c)|done].
Qed.

Lemma progress_resolve w tr (i : nat) c ir l :
  ok w tr -> served w -> clients w !! i = Some c -> resolving c = ir :: l -> progress w.
Proof.
  intros Hok Hsv Hi Hr.
  destruct (resolve_ok w tr i 0 c ir Hok Hi ltac:(by rw Hr)) as (_ & _ & R & _).
  eexists (Resolve i 0), _, _. split; [done|]. split; [cbn [act]; rw Hi Hr; cbn [lookup list_lookup]; rewrite Hr in R; exact R|].
  split; [|split].
  - match goal with |- context [set_client i ?d w] => pose proof (mass_client w i c d Hi) as M; set (c' := d) in * end.
    assert (client_mass c ≡ₚ () :: client_mass c') as Em.
    { unfold client_mass. subst c'. cbn [sending arrived resolving with_resolving]. rw Hr. simpl. solve_Permutation. }
    apply Permutation_length in Em. simpl in Em. unfold with_futures, mass in *. simpl in *. lia.
  - apply (served_same w); [done|by apply (fmap_set client_service_name _ i c)|done].
  - intros k Hk. apply elem_of_cons in Hk as [|Hk]; [done|]. destruct (callback ir.1); [|by apply not_elem_of_nil in Hk].
    by apply list_elem_of_singleton in Hk.
Qed.

Lemma progress_take_request w tr (j : nat) s r l :
  ok w tr -> served w -> services w !! j = Some s -> requests s = r :: l -> progress w.
Proof.
  intros Hok Hsv Hj Hr.
  assert (exists s', request_callback true s = Some (None, s') /\ service_name_ s' = service_name_ s /\
            requests s' = l /\ accepted s' = accepted s ++ [r]) as (s' & Hcb & Hn & Hq & Ha).
  { unfold request_callback. rw Hr. cbn [with_requests kind]. destruct (kind s); [|by eexists].
    unfold get_or_create_publisher_for. cbn [publishers_ with_requests]. by destruct (publishers_ s !! _); eexists. }
  exists (TakeRequest j true), [], (set_service j s' w). split; [done|]. split; [cbn [act]; by rw Hj Hcb|].
  split; [|split; [|intros k; apply not_elem_of_nil]].
  - pose proof (mass_service w j s s' Hj) as M.
    assert (service_mass s ≡ₚ () :: service_mass s') as Em.
    { unfold service_mass. rw Hr Hq Ha fmap_app fmap_cons list_fmap_singleton join_app.
      cbn [mjoin list_join replicate]. solve_Permutation. }
    apply Permutation_length in Em. simpl in Em. lia.
  - apply (served_same w); [done|done|by apply (fmap_set service_name_ _ j s)].
Qed.

Lemma progress_respond (v : Resp) w tr (j : nat) s r l :
  ok w tr -> served w -> services w !! j = Some s -> accepted s = r :: l -> progress w.
Proof.
  intros Hok Hsv Hj Hr.
  assert (exists topic a s', respond true 0 v s = Some (topic, a, s') /\ service_name_ s' = service_name_ s /\
            requests s' = requests s /\ accepted s' = l) as (topic & a & s' & Hres & Hn & Hq & Ha).
  { unfold respond. rw Hr. cbn [lookup list_lookup].
    destruct (get_or_create_publisher_for true _ s) as [[p t]|] eqn:Hg.
    - destruct (get_or_create_publisher_for_keeps _ _ _ _ _ Hg) as (E1 & E2 & E3). eexists _, _, _.
      split; [reflexivity|]. cbn. rw E3 Hr. done.
    - unfold get_or_create_publisher_for in Hg. by destruct (publishers_ s !! _). }
  exists (Respond j 0 true v). eexists _, _. split; [done|]. split.
  { cbn [act]. rw Hj Hr. cbn [lookup list_lookup]. rw Hres. reflexivity. }
  cbn [fst snd]. split; [|split; [|intros k Hk; by apply list_elem_of_singleton in Hk]].
  - pose proof (mass_service w j s s' Hj) as M.
    pose proof (mass_publish_response topic a (set_service j s' w) (o_topics _ _ Hok)) as M2.
    assert (service_mass s ≡ₚ replicate 3 () ++ service_mass s') as Em.
    { unfold service_mass. rw Hr Hq Ha fmap_cons. cbn [mjoin list_join replicate]. solve_Permutation. }
    apply Permutation_length in Em. rewrite length_app length_replicate in Em. lia.
  - apply (served_same w); [done|exact (publish_response_names topic a (set_service j s' w))|
      by apply (fmap_set service_name_ _ j s)].
Qed.

Lemma first_failing {A} (f : A -> bool) (l : list A) :
  (forall x, x ∈ l -> f x = true) \/ exists (i : nat) x, l !! i = Some x /\ f x = false.
Proof.
  induction l as [|x l IH]; [left; intros x Hx; by apply not_elem_of_nil in Hx|].
  destruct (f x) eqn:E; [|by right; exists 0%nat, x].
  destruct IH as [IH|(i & y & Hi & Hy)]; [left|right; by exists (S i), y].
  intros y [-> |Hy]%elem_of_cons; [done|by apply IH].
Qed.

Lemma progress_or_settled (v : Resp) w tr : ok w tr -> served w -> settled w \/ progress w.
Proof.
  intros Hok Hsv.
  destruct (first_failing (fun c => match sending c, arrived c, resolving c with [], [], [] => true | _, _, _ => false end)
              (clients w)) as [Hc|(i & c & Hi & Hc)].
  - destruct (first_failing (fun s => match requests s, accepted s with [], [] => true | _, _ => false end)
                (services w)) as [Hs|(j & s & Hj & Hs)].
    + left. split.
      * intros c Hin. specialize (Hc c Hin). by destruct (sending c), (arrived c), (resolving c).
      * intros s Hin. specialize (Hs s Hin). by destruct (requests s), (accepted s).
    + right. destruct (requests s) as [|r l] eqn:E1; [|by apply (progress_take_request w tr j s r l)].
      destruct (accepted s) as [|r l] eqn:E2; [done|by apply (progress_respond v w tr j s r l)].
  - right. destruct (sending c) as [|r l] eqn:E1; [|by apply (progress_publish w tr i c r l)].
    destruct (arrived c) as [|a l] eqn:E2; [|by apply (progress_take_response w tr i c a l)].
    destruct (resolving c) as [|ir l] eqn:E3; [done|by apply (progress_resolve w tr i c ir l)].
Qed.

Lemma drain (v : Resp) n : forall w tr, (mass w < n)%nat -> run tr w -> served w ->
  exists l es w', play l w = Some (es, w') /\ settled w' /\ forall k, Lost k ∉ es.
Proof.
  induction n as [|n IH]; intros w tr Hm Hrun Hsv; [lia|]. destruct (run_keeps tr w Hrun) as [Hok _].
  destruct (progress_or_settled v w tr Hok Hsv) as [Hset|(a & es & w1 & Ha & Hact & Hm1 & Hsv1 & Hl)].
  - exists [], [], w. split; [done|]. split; [done|]. intros k. apply not_elem_of_nil.
  - destruct (IH w1 (tr ++ es)) as (l & es2 & w2 & Hp & Hset & Hl2); [lia|by eapply run_step|done|].
    exists (a :: l), (es ++ es2), w2. split; [|split; [done|]].
    + cbn [play]. rw Ha Hact. cbn [fst snd]. by rw Hp.
    + intros k [Hk|Hk]%elem_of_app; [by apply (Hl k)|by apply (Hl2 k)].
Qed.

(** C30. No call hangs by itself.  Once nothing is on its way any more, every call that was made is resolved
    or a message of it was lost; and from any point of a run in which every client has a service, the
    threads can finish what is on its way without losing anything, which gives every call made so far and not
    lost its answer. *)
Theorem calls_can_be_answered (v : Resp) tr w :
  run tr w ->
  (settled w -> forall k q p, Asked k q p ∈ tr -> (exists v, Resolved p v ∈ tr) \/ Lost k ∈ tr) /\
  (served w -> exists l es w', play l w = Some (es, w') /\ settled w' /\ (forall k, Lost k ∉ es) /\
     forall k q p, Asked k q p ∈ tr -> Lost k ∉ tr -> exists v, Resolved p v ∈ tr ++ es).
Proof.
  intros Hrun. split.
  - intros Hset k q p. destruct (run_keeps tr w Hrun) as [Hok Hh]. by apply (settled_calls w tr k q p).
  - intros Hsv. destruct (drain v (S (mass w)) w tr ltac:(lia) Hrun Hsv) as (l & es & w' & Hp & Hset & Hl).
    exists l, es, w'. split; [done|]. split; [done|]. split; [done|]. intros k q p Hk Hn.
    destruct (run_keeps _ _ (play_run l tr w es w' Hrun Hp)) as [Hok Hh].
    destruct (settled_calls w' (tr ++ es) k q p Hok Hh Hset) as [G|G]; [by apply elem_of_app; left|done|].
    exfalso. apply elem_of_app in G as [G|G]; [done|by apply (Hl k)].
Qed.
End runs.

(** ** A run *)

(** Two clients of one service ask in turn, the answers come in the other order; a third call is on its way. *)
Definition two_clients : list (action Z Z) :=
  [CreateService "/add" Deferred; CreateClient "/add" "/a" 0 [0]; CreateClient "/add" "/b" 1 [1];
   BorrowRequest 0 10; BorrowRequest 1 20; BorrowRequest 1 30; RegisterCall 0 0 false; RegisterCall 1 0 true;
   PublishRequest 1 0; PublishRequest 0 0; TakeRequest 0 true; TakeRequest 0 true; Respond 0 1 true 11;
   TakeResponse 0; Respond 0 0 true 21; Resolve 0 0; TakeResponse 1; Resolve 1 0; RegisterCall 1 0 false].

Ltac in_list := repeat first [apply list_elem_of_here | apply list_elem_of_further].

Lemma calls_get_their_own_answer_witness :
  exists tr w, play two_clients start = Some (tr, w) /\ CalledBack 1%nat 21 ∈ tr /\
  exists k q, Asked k q 0%nat ∈ tr /\ Answered k q 11 ∈ tr.
Proof.
  destruct (play two_clients start) as [[tr w]|] eqn:E; [|by vm_compute in E].
  pose proof (calls_get_their_own_answer tr w (play_run two_clients [] start tr w run_start E)) as [H _].
  specialize (H 0%nat 11). vm_compute in E. injection E as <- <-.
  destruct H as (k & q & G1 & G2 & _); [in_list|].
  eexists _, _. split; [reflexivity|]. split; [in_list|]. exists k, q. split; [exact G1|exact G2].
Defined.

Lemma calls_can_be_answered_witness :
  exists tr w, play two_clients start = Some (tr, w) /\
  exists l es w' v, play l w = Some (es, w') /\ Resolved 2%nat v ∈ tr ++ es.
Proof.
  destruct (play two_clients start) as [[tr w]|] eqn:E; [|by vm_compute in E].
  pose proof (calls_can_be_answered 7 tr w (play_run two_clients [] start tr w run_start E)) as [_ H].
  exists tr, w. split; [reflexivity|].
  assert (client_service_name <$> clients w = ["/add"; "/add"] /\ service_name_ <$> services w = ["/add"]) as [E1 E2].
  { vm_compute in E. by injection E as <- <-. }
  assert (exists k, Asked k 30 2%nat ∈ tr /\ Lost k ∉ tr) as (k & Hk & Hn).
  { vm_compute in E. injection E as <- <-. eexists. split; [in_list|]. 
    intros Hl. repeat (apply elem_of_cons in Hl as [Hl|Hl]; [done|]). by apply not_elem_of_nil in Hl. }
  destruct H as (l & es & w' & Hp & _ & _ & H); [clear -E1 E2; intros name; rewrite E1 E2; set_solver|].
  destruct (H k 30 2%nat Hk Hn) as [v Hv]. exists l, es, w', v. split; [exact Hp|exact Hv].
Defined.

(** ** Two services of one name *)

(** The steps without what the environment keeps to. *)
Fixpoint perform {Req Resp} (l : list (action Req Resp)) (w : world Req Resp) : option (world Req Resp) :=
  match l with
  | [] => Some w
  | a :: l => unwrap ew := act a w orelse None; perform l ew.2
  end.

(** Both answer the one request, and the second response finds no entry. *)
Lemma two_services_of_one_name :
  bad_entry_ids <$> perform (Req := Z) (Resp := Z)
    [CreateService "/add" Deferred; CreateService "/add" Deferred; CreateClient "/add" "/a" 0 [0];
     BorrowRequest 0 10; RegisterCall 0 0 false; PublishRequest 0 0; TakeRequest 0 true; TakeRequest 1 true;
     Respond 0 0 true 11; Respond 1 0 true 12; TakeResponse 0; TakeResponse 0] start = Some 1%nat.
Proof. vm_compute. reflexivity. Qed.
