(* ===== verification/ServiceWait.v ===== *)
(** * Waiting for services, and their events

    When a service counts as ready, that [wait_for_service] ends and what it returns, and what the events
    of the introspection show. *)

From S2P Require Import Prelude Kernel KMempool KTypes KRules KTopic KMessage KCleanup KRegistry KState.
From S2P Require Import KInvariant KSystem KIoctl KTheorems KQuery Services.

(** ** Waiting *)

Section wait.
Context (ready context_ok : nat -> bool) (clock : nat -> Z).

Definition slept_time (l : list Z) : Z := foldr (fun d t => Z.max 0 d + t) 0 l.

(** [steady_clock] does not run backwards, and [sleep_for] sleeps as long as it is told. *)
Definition honest (timeout : Z) : Prop :=
  clock 0%nat <= clock 1%nat /\
  forall k, Z.max 0 (Z.min (timeout - (clock (S k) - clock 0%nat)) 100000000) <= clock (S (S k)) - clock (S k).

(** What has happened when [wait_loop], entered in iteration [k], returns [b] after the sleeps [s]. *)
Definition waited (timeout : Z) (k : nat) (b : bool) (s : list Z) : Prop :=
  Forall (fun d => d <= 100000000) s /\
  (forall i, (i < length s)%nat -> ready (k + i) = false) /\ b = ready (k + length s) /\
  (b = false -> context_ok (k + length s) = false \/ 0 < timeout <= clock (S (k + length s)) - clock 0%nat).

Lemma wait_loop_correct timeout fuel : forall k ttw l b s,
  timeout <> 0 -> ready k = false -> (timeout < 0 -> ttw = 2 ^ 63 - 1) ->
  wait_loop ready context_ok clock fuel k timeout ttw l = Some (b, s) ->
  exists s', s = l ++ s' /\ waited timeout k b s'.
Proof.
  induction fuel as [|fuel IH]; intros k ttw l b s Hto Hk Httw Hw; [done|]. cbn [wait_loop] in Hw.
  destruct (context_ok k) eqn:Hc.
  - set (d := Z.min ttw 100000000) in *. assert (d <= 100000000) as Hd by (unfold d; lia).
    assert (forall b', b' = ready (S k) -> (b' = false -> 0 < timeout <= clock (S (S k)) - clock 0%nat) ->
      waited timeout k b' [d]) as H1.
    { intros b' Hb Hf. split; [by constructor|]. cbn [length]. rw Nat.add_1_r. split; [|split; [done|]].
      - intros i Hi. assert (i = 0%nat) as -> by lia. by rw Nat.add_0_r.
      - intros E. right. by apply Hf. }
    destruct (ready (S k)) eqn:Hr; cbn [negb] in Hw.
    { injection Hw as <- <-. exists [d]. split; [done|]. by apply H1. }
    match type of Hw with (if 0 <? ?x then _ else _) = _ => set (ttw' := x) in * end.
    destruct (0 <? ttw') eqn:Hpos.
    + destruct (IH (S k) ttw' (l ++ [d]) b s Hto Hr) as (s' & -> & W1 & W2 & W3 & W4); [|done|].
      { intros Hneg. unfold ttw'. assert ((0 <? timeout) = false) as -> by (apply Z.ltb_ge; lia). by apply Httw. }
      exists (d :: s'). split; [by rw -app_assoc|]. split; [by constructor|]. cbn [length].
      rw Nat.add_succ_r. split; [|done]. intros [|i] Hi; [by rw Nat.add_0_r|]. rw Nat.add_succ_r.
      apply W2. lia.
    + injection Hw as <- <-. exists [d]. split; [done|]. apply H1; [done|]. intros _. apply Z.ltb_ge in Hpos.
      unfold ttw' in Hpos. destruct (0 <? timeout) eqn:E; [apply Z.ltb_lt in E; lia|apply Z.ltb_ge in E; lia].
  - injection Hw as <- <-. exists []. split; [by rw app_nil_r|]. split; [constructor|]. cbn [length].
    rw Nat.add_0_r. split; [intros i Hi; lia|]. split; [done|]. intros _. by left.
Qed.

Lemma wait_loop_S fuel k timeout ttw l :
  wait_loop ready context_ok clock (S fuel) k timeout ttw l =
    (require context_ok k orelse Some (false, l);
     let l := l ++ [Z.min ttw 100000000] in
     require negb (ready (S k)) orelse Some (true, l);
     let ttw := if 0 <? timeout then timeout - (clock (S (S k)) - clock 0%nat) else ttw in
     if 0 <? ttw then wait_loop ready context_ok clock fuel (S k) timeout ttw l else Some (false, l)).
Proof. done. Qed.

(** With a timeout: an iteration for every 100 ms, and no more sleep than the timeout. *)
Lemma wait_loop_ends timeout n : forall k l,
  0 < timeout -> honest timeout ->
  let ttw := timeout - (clock (S k) - clock 0%nat) in
  ttw <= 100000000 * Z.of_nat (S n) ->
  exists b s, wait_loop ready context_ok clock (S n) k timeout ttw l = Some (b, l ++ s) /\ slept_time s <= Z.max 0 ttw.
Proof.
  induction n as [|n IH]; intros k l Hto Hh ttw Hn; rw wait_loop_S; cbv zeta.
  all: destruct (context_ok k); [|exists false, []; rw app_nil_r; split; [done|simpl; lia]].
  all: set (d := Z.min ttw 100000000); destruct Hh as [Hh0 Hh]; pose proof (Hh k) as Hk; fold ttw d in Hk.
  all: destruct (ready (S k)); cbn [negb]; [exists true, [d]; split; [done|simpl; lia]|].
  all: assert ((0 <? timeout) = true) as -> by lia.
  all: set (ttw' := timeout - (clock (S (S k)) - clock 0%nat)).
  all: destruct (0 <? ttw') eqn:Hpos; [apply Z.ltb_lt in Hpos|exists false, [d]; split; [done|simpl; lia]].
  - exfalso. lia.
  - destruct (IH (S k) (l ++ [d]) Hto (conj Hh0 Hh)) as (b & s & Hw & Hs); [fold ttw'; lia|].
    exists b, (d :: s). split; [rewrite -app_assoc in Hw; exact Hw|]. simpl. fold ttw' in Hs. lia.
Qed.

(** Without one: until the context ends or the service is there. *)
Lemma wait_loop_forever timeout n : forall k ttw l,
  timeout < 0 -> 0 < ttw -> context_ok (k + n) = false \/ ready (S (k + n)) = true ->
  exists b s, wait_loop ready context_ok clock (S n) k timeout ttw l = Some (b, s).
Proof.
  induction n as [|n IH]; intros k ttw l Hto Httw He; rw wait_loop_S; cbv zeta.
  all: destruct (context_ok k) eqn:Hc; [|by eexists _, _].
  all: destruct (ready (S k)) eqn:Hr; cbn [negb]; [by eexists _, _|].
  - rewrite Nat.add_0_r in He. destruct He; congruence.
  - assert ((0 <? timeout) = false) as -> by (apply Z.ltb_ge; lia).
    assert ((0 <? ttw) = true) as -> by (by apply Z.ltb_lt). apply IH; [done|done|].
    rewrite Nat.add_succ_r in He. done.
Qed.

(** C31. [wait_for_service].  With a timeout of t nanoseconds it returns after at most t / 100 ms + 1
    iterations and has slept no longer than t, if the sleeps take their time; with a negative timeout it
    returns as soon as the context ends or a poll finds the service.  It returns true exactly when its last
    poll found the service, it returns at the first such poll, sleeps 100 ms at most between two polls, and
    returns false only for a zero timeout, an ended context or when the timeout is over. *)
Theorem wait_for_service_correct timeout :
  honest timeout ->
  (0 <= timeout -> exists b s,
     wait_for_service_nanoseconds ready context_ok clock (Z.to_nat (timeout / 100000000) + 2) timeout = Some (b, s) /\
     slept_time s <= timeout) /\
  (timeout < 0 -> forall n, context_ok n = false \/ ready (S n) = true -> exists b s,
     wait_for_service_nanoseconds ready context_ok clock (S n) timeout = Some (b, s)) /\
  (forall fuel b s, wait_for_service_nanoseconds ready context_ok clock fuel timeout = Some (b, s) ->
     Forall (fun d => d <= 100000000) s /\ (forall i, (i < length s)%nat -> ready i = false) /\
     b = ready (length s) /\
     (b = false -> timeout = 0 \/ context_ok (length s) = false \/
                   0 < timeout <= clock (S (length s)) - clock 0%nat)).
Proof.
  intros Hh. unfold wait_for_service_nanoseconds. destruct (ready 0%nat) eqn:Hr; cbn [negb].
  { split; [|split].
    - intros Ht. exists true, []. by split.
    - intros _ n _. by eexists _, _.
    - intros fuel b s [= <- <-]. split; [constructor|]. split; [intros i Hi; simpl in Hi; lia|]. by split. }
  destruct (Z.eqb_spec timeout 0) as [->|Hne]; cbn [negb].
  { split; [|split]; [intros _; by exists false, []|lia|].
    intros fuel b s [= <- <-]. split; [constructor|]. split; [intros i Hi; simpl in Hi; lia|].
    split; [done|]. by left. }
  split; [|split].
  - intros Ht. assert ((0 <? timeout) = true) as -> by (apply Z.ltb_lt; lia).
    pose proof (Z.div_mod timeout 100000000 ltac:(lia)) as Hdm.
    pose proof (Z.mod_pos_bound timeout 100000000 ltac:(lia)) as Hmb.
    pose proof (Z.div_pos timeout 100000000 Ht ltac:(lia)) as Hdp. pose proof (proj1 Hh) as Hc.
    rw Nat.add_comm. cbn [Nat.add].
    destruct (wait_loop_ends timeout (S (Z.to_nat (timeout / 100000000))) 0 [] ltac:(lia) Hh) as (b & s & Hw & Hs);
      [lia|]. exists b, s. split; [exact Hw|]. lia.
  - intros Ht n He. assert ((0 <? timeout) = false) as -> by (apply Z.ltb_ge; lia).
    by apply wait_loop_forever.
  - intros fuel b s Hw.
    assert (timeout < 0 -> (if 0 <? timeout then timeout - (clock 1%nat - clock 0%nat) else 2 ^ 63 - 1) = 2 ^ 63 - 1)
      as Httw by (intros Ht; by assert ((0 <? timeout) = false) as -> by (apply Z.ltb_ge; lia)).
    destruct (wait_loop_correct timeout fuel 0 _ [] b s Hne Hr Httw Hw) as (s' & -> & W1 & W2 & W3 & W4).
    cbn [app]. split; [done|]. split; [done|]. split; [done|]. intros E. right. by apply W4.
Qed.
End wait.

(** The service appears at the third poll: two sleeps of 100 ms. *)
Lemma wait_for_service_correct_witness :
  let ready k := bool_decide (k = 2%nat) in
  let clock k := Z.of_nat k * 100000000 in
  honest clock 250000000 /\
  wait_for_service_nanoseconds ready (fun _ => true) clock 4 250000000 = Some (true, [100000000; 50000000]) /\
  ready (length [100000000; 50000000]) = true.
Proof.
  cbv zeta. assert (honest (fun k => Z.of_nat k * 100000000) 250000000) as Hh by (split; [done|]; intros k; lia).
  split; [done|]. split; [vm_compute; reflexivity|].
  pose proof (wait_for_service_correct (fun k => bool_decide (k = 2%nat)) (fun _ => true)
                (fun k => Z.of_nat k * 100000000) 250000000 Hh) as (_ & _ & H).
  destruct (H 4%nat true [100000000; 50000000] ltac:(vm_compute; reflexivity)) as (_ & _ & E & _).
  symmetry. exact E.
Defined.

(** ** Ready services *)

Section ready.
Context `{KernelHash}.

(** A subscriber of the topic, as the caller sees it, that its requests reach. *)
Definition reached (e : env) (k : kstate) (topic_name : string) : bool :=
  match find_topic_for_current e k topic_name with
  | None => false
  | Some w =>
      match topics k !! topic w with
      | None => false
      | Some t =>
          existsb (fun s => (sub_domain_id s =? wrapper_domain_id w) ||
            domain_delivery_allowed (domain_rule_htable k) t (wrapper_domain_id w) false
              (sub_domain_id s) (sub_is_bridge s)) (sub_info_htable t)
      end
  end.

Lemma three_counts {A} (f g h : A -> bool) (l : list A) :
  Z.of_nat (length l) < 2 ^ 32 -> (forall x, f x = true -> g x = false) ->
  (forall x, f x || g x = true -> h x = false) ->
  exists n, u32 (u32 (count_if g l + count_if f l) + count_if h l) = n /\
    (n =? 0) = negb (existsb (fun x => f x || g x || h x) l).
Proof.
  intros Hl Hfg Hh. eexists. split; [reflexivity|]. unfold count_if.
  assert ((length (filter (fun x => f x = true) l) + length (filter (fun x => g x = true) l) +
           length (filter (fun x => h x = true) l) <= length l)%nat /\
          ((length (filter (fun x => f x = true) l) + length (filter (fun x => g x = true) l) +
           length (filter (fun x => h x = true) l) = 0)%nat <-> existsb (fun x => f x || g x || h x) l = false)) as [H1 H2].
  { clear Hl. induction l as [|x l [IH1 IH2]]; [done|]. rw !filter_cons. cbn [existsb length].
    specialize (Hfg x). specialize (Hh x).
    destruct (f x), (g x), (h x); cbn [orb] in *; try (specialize (Hfg eq_refl)); try (specialize (Hh eq_refl));
      try congruence; simpl; split; try lia; try (split; [lia|done]); done. }
  unfold u32. rw (Z.mod_small (Z.of_nat _)); [|lia]. rw (Z.mod_small (Z.of_nat (length (filter (fun x => f x = true) l)))); [|lia].
  rw (Z.mod_small (Z.of_nat (length (filter (fun x => h x = true) l)))); [|lia].
  rw (Z.mod_small (_ + Z.of_nat (length (filter (fun x => f x = true) l)))); [|lia]. rw Z.mod_small; [|lia].
  destruct (existsb _ l) eqn:E; cbn [negb].
  - apply Z.eqb_neq. intros E0. assert (true = false) as [=]. apply H2. lia.
  - apply Z.eqb_eq. pose proof (proj2 H2 eq_refl). lia.
Qed.

(** In every state of the module a service counts as ready exactly when the caller's topic for its
    requests has a subscriber, of whichever process, that requests of the caller reach: in the caller's
    domain, or in another one that the rules let them pass to.  The sum of the three counts does not wrap,
    and asking never ends the process. *)
Theorem service_is_ready_iff_reached size pool0 k e service_name pid :
  pool_wf pool0 -> kernel_reachable size pool0 k ->
  let topic_name := create_service_request_topic_name service_name in
  service_is_ready_core (agnocast_ioctl_get_subscriber_num e k topic_name pid) = Some (reached e k topic_name).
Proof.
  intros Hp Hr topic_name. pose proof (kernel_reachable_kinv _ _ _ Hp Hr) as Hk.
  unfold agnocast_ioctl_get_subscriber_num, reached.
  destruct (find_topic_for_current e k topic_name) as [w|] eqn:Hw; [|reflexivity].
  destruct (found_topic pool0 k Hk _ _ _ _ w eq_refl Hw) as [t Ht]. rw Ht.
  pose proof (wf_sub_count _ (ho_wf _ _ _ _ _ (tv_heap _ _ _ _ (ki_topics _ _ Hk) _ _ Ht))) as Hc.
  unfold agnocast_get_size_sub_info_htable, MAX_SUBSCRIBER_NUM, MAX_TOPIC_LOCAL_ID, MAX_PUBLISHER_NUM in Hc.
  cbv zeta. set (here := fun s => sub_domain_id s =? wrapper_domain_id w).
  set (delivered := fun s : subscriber_info => domain_delivery_allowed (domain_rule_htable k) t
    (wrapper_domain_id w) false (sub_domain_id s) (sub_is_bridge s)).
  unfold service_is_ready_core, get_reachable_agnocast_sub_count.
  cbn [ret_same_process_subscriber_num ret_other_process_subscriber_num ret_other_domain_subscriber_num].
  destruct (three_counts (fun s => here s && negb (sub_pid s =? pid)) (fun s => here s && (sub_pid s =? pid))
    (fun s => negb (here s) && delivered s) (sub_info_htable t)) as (n & En & E0).
  - lia.
  - intros s. destruct (here s), (sub_pid s =? pid); done.
  - intros s. destruct (here s), (sub_pid s =? pid); done.
  - unfold here, delivered in En, E0. rw En E0 negb_involutive. f_equal. generalize (sub_info_htable t). intros l. induction l as [|s l IH]; [done|].
    cbn [existsb]. rw IH. by destruct (_ =? wrapper_domain_id w), (sub_pid s =? pid).
Qed.
End ready.

(** Process 100 offers the service "/add"; nobody offers "/sub". *)
Definition sample_service_state : kstate :=
  exec_all [(100, ADD_SUBSCRIBER_CMD "/AGNOCAST_SRV_REQUEST/add" "adder" 10 true true false false false 6)] sample_state.

Lemma service_is_ready_iff_reached_witness :
  service_is_ready_core (@agnocast_ioctl_get_subscriber_num length_hash (kernel_env (sample_user 100))
    sample_service_state (create_service_request_topic_name "/add") 100) = Some true /\
  @reached length_hash (kernel_env (sample_user 100)) sample_service_state
    (create_service_request_topic_name "/sub") = false.
Proof.
  split; [|vm_compute; reflexivity].
  rewrite (@service_is_ready_iff_reached length_hash 1073741824 sample_pools); [vm_compute; reflexivity| |].
  - apply sample_state_pools_wf.
  - apply exec_all_reachable; [apply sample_state_reachable|by vm_compute].
Defined.

(** ** Events *)

(** A call of [configure] with what its environment answers. *)
Definition configure_call : Type := option nat * bool * bool * option nat * introspection_state.

Definition configure_with (call : configure_call) (p : ServiceEventPublisher) : configured * ServiceEventPublisher :=
  let '(clock, qos_usable, loads, created, state) := call in configure clock qos_usable loads created state p.

Definition configure_all (calls : list configure_call) : ServiceEventPublisher :=
  fold_left (fun p call => (configure_with call p).2) calls new_event_publisher.

Definition consistent (p : ServiceEventPublisher) : Prop :=
  (is_Some (publisher_ p) <-> state_ p <> INTROSPECTION_OFF) /\
  (is_Some (publisher_ p) -> is_Some (clock_ p) /\ ts_bundle_ p = true).

Lemma configure_consistent call p :
  consistent p ->
  consistent (configure_with call p).2 /\
  match (configure_with call p).1 with
  | Configured => state_ (configure_with call p).2 = call.2
  | _ => (configure_with call p).2 = p
  end.
Proof.
  destruct call as [[[[clock qos] loads] created] state]. intros Hcons. pose proof Hcons as [H1 H2].
  cbn [configure_with]. unfold configure.
  destruct clock as [c|]; [|done]. destruct (decide (state_ p = state)) as [E|E]; [by split|].
  destruct (decide (state = INTROSPECTION_OFF)) as [-> |Ho].
  { split; [|done]. split; simpl; [|by intros [? ?]]. split; [by intros [? ?]|done]. }
  destruct (publisher_ p) as [pub|] eqn:Ep.
  { split; [|done]. split; simpl; [|by intros _; apply H2]. split; [done|by eexists]. }
  destruct qos; [|done]. destruct (ts_bundle_ p || loads); [|done]. destruct created as [pub|]; [|done].
  split; [|done]. split; simpl; [split; [done|by eexists]|]. split; [by eexists|done].
Qed.

Lemma configure_all_consistent calls : consistent (configure_all calls).
Proof.
  unfold configure_all. assert (consistent new_event_publisher) as H.
  { split; simpl; [split; [by intros [? ?]|done]|by intros [? ?]]. }
  revert H. generalize new_event_publisher. induction calls as [|call calls IH]; intros p Hp; [done|].
  cbn [fold_left]. by apply IH, configure_consistent.
Qed.

(** Introspection shows what it is configured to show.  After any calls of [configure], refused and
    failing ones included, a call that succeeds sets the state and any other call changes nothing; and an
    event is published when and only when the state is not OFF, never through a null publisher, clock or
    library, with the payload in CONTENTS alone, and on the side of the request or of the response that
    its type says. *)
Theorem introspection_as_configured {P} calls call ty (payload : option P) :
  let p := configure_all calls in
  match (configure_with call p).1 with
  | Configured => state_ (configure_with call p).2 = call.2
  | _ => (configure_with call p).2 = p
  end /\
  match publish_service_event_message ty payload p with
  | NoEvent => state_ p = INTROSPECTION_OFF
  | Event pub clock req resp =>
      state_ p <> INTROSPECTION_OFF /\ publisher_ p = Some pub /\ clock_ p = Some clock /\
      (req, resp) = match ty with
                    | REQUEST_SENT | REQUEST_RECEIVED => (if decide (state_ p = INTROSPECTION_CONTENTS) then payload else None, None)
                    | RESPONSE_SENT | RESPONSE_RECEIVED => (None, if decide (state_ p = INTROSPECTION_CONTENTS) then payload else None)
                    end
  | NullDereferenced => False
  end.
Proof.
  intros p. pose proof (configure_all_consistent calls) as Hc. fold p in Hc.
  split; [by apply configure_consistent|]. destruct Hc as [H1 H2]. unfold publish_service_event_message.
  destruct (state_ p) eqn:Es; destruct (decide _) as [E|E]; try done.
  all: destruct H1 as [_ H1]; destruct H1 as [pub Hp]; [done|]; destruct H2 as [[c Hclk] Hts]; [by eexists|].
  all: rewrite Hclk Hts Hp; by destruct ty.
Qed.

(** The first call is refused, the second one turns on metadata, the third one contents. *)
Example events_shown :
  let calls := [(None, true, true, Some 1%nat, INTROSPECTION_CONTENTS);
                (Some 5%nat, true, true, Some 1%nat, INTROSPECTION_METADATA)] : list configure_call in
  publish_service_event_message REQUEST_SENT (Some 3) (configure_all calls) = Event 1 5 None None /\
  publish_service_event_message RESPONSE_SENT (Some 3)
    (configure_all (calls ++ [(Some 6%nat, true, true, None, INTROSPECTION_CONTENTS)])) = Event 1 5 None (Some 3).
Proof. by split. Qed.
