(* ===== verification/Epoll.v ===== *)
(** * The event loop of a process

    The parts of agnocastlib that the subscription callbacks and the timers share:
    agnocast_epoll_event.hpp (the 64-bit datum of an epoll event), agnocast_epoll.cpp
    ([EpollManager]), agnocast_epoll_update_dispatcher.cpp (the requests to prepare the epoll
    instance again) and the data of agnocast_executor.hpp.  What epoll(7) itself answers, success of
    [epoll_ctl] and the event [epoll_wait] returns, is an argument of the definitions. *)

From S2P Require Import Prelude.

(** ** Epoll events *)

(** [EpollEventType] is an enumeration over [uint32_t]. *)
Definition EpollEventType_Subscription : Z := 0.
Definition EpollEventType_Timer : Z := 1.
Definition EpollEventType_Clock : Z := 2.
Definition EpollEventType_Shutdown : Z := 3.
Definition NrEventType : Z := 4.
Definition EpollEventType_Dummy : Z := 4294967295.

Definition EPOLL_DATA_TYPE_SHIFT : Z := 32.
Definition EPOLL_DATA_ID_BITMASK : Z := 4294967295.

Definition pack_epoll_data (type id : Z) : Z :=
  Z.lor (u64 (Z.shiftl (u64 type) EPOLL_DATA_TYPE_SHIFT)) id.

Definition unpack_epoll_data (data : Z) : Z * Z :=
  (u32 (Z.shiftr data EPOLL_DATA_TYPE_SHIFT), u32 (Z.land data EPOLL_DATA_ID_BITMASK)).

(** ** Update requests *)

(** [trackers_]: the [need_update] flag of every tracker that exists. *)
Record dispatcher := Dispatcher {
  next_tracker_id_ : Z;
  trackers_ : gmap Z bool
}.

Definition register_tracker (d : dispatcher) : dispatcher * Z :=
  let new_id := next_tracker_id_ d in
  (Dispatcher (u64 (new_id + 1))
     (if trackers_ d !! new_id is Some _ then trackers_ d else <[new_id := true]> (trackers_ d)),
   new_id).

Definition request_update_all (d : dispatcher) : dispatcher :=
  Dispatcher (next_tracker_id_ d) ((fun _ => true) <$> trackers_ d).

Definition request_update (tracker_id : Z) (d : dispatcher) : dispatcher :=
  match trackers_ d !! tracker_id with
  | Some _ => Dispatcher (next_tracker_id_ d) (<[tracker_id := true]> (trackers_ d))
  | None => d
  end.

Definition unregister_tracker (tracker_id : Z) (d : dispatcher) : dispatcher :=
  Dispatcher (next_tracker_id_ d) (delete tracker_id (trackers_ d)).

(** [exchange(false)]. *)
Definition take_update_request (tracker_id : Z) (d : dispatcher) : dispatcher * bool :=
  match trackers_ d !! tracker_id with
  | Some b => (Dispatcher (next_tracker_id_ d) (<[tracker_id := false]> (trackers_ d)), b)
  | None => (d, false)
  end.

(** ** Executors *)

(** A callback group is named by a number, 0 is [nullptr].  A task is the closure of an
    [AgnocastExecutable]: either the deferred [receive_and_execute_message] of a callback, with the
    subscription it captured, or [handle_timer_event] of a [TimerInfo] it keeps alive. *)
Inductive task :=
  | ReceiveTask (callback_info_id : Z) (topic_name : string) (subscriber_id : Z)
  | TimerTask (timer_id : Z).

Record executable := AgnocastExecutable { callable : task; exec_group : Z }.

#[export] Instance task_eq_dec : EqDecision task.
Proof. solve_decision. Defined.
#[export] Instance executable_eq_dec : EqDecision executable.
Proof. solve_decision. Defined.

(** [epoll_set]: the descriptors added to the epoll instance, each with its datum.  A descriptor here
    names an open file, so that a number the system uses again is a different one. *)
Record executor := Executor {
  epoll_set : list (Z * Z);
  ready_agnocast_executables_ : list executable
}.

Definition add_to_epoll (fd data : Z) (e : executor) : executor :=
  Executor (epoll_set e ++ [(fd, data)]) (ready_agnocast_executables_ e).

Definition emplace_back (x : executable) (e : executor) : executor :=
  Executor (epoll_set e) (ready_agnocast_executables_ e ++ [x]).

(** Closing an open file takes it out of every epoll instance (epoll(7)). *)
Definition close_fd (fd : Z) (e : executor) : executor :=
  Executor (filter (fun r => r.1 <> fd) (epoll_set e)) (ready_agnocast_executables_ e).

(** How a call ends: the code returns, throws, or calls [exit]. *)
Inductive ending (A : Type) := Returns (a : A) | Throws | Exits.
Arguments Returns {A} a.
Arguments Throws {A}.
Arguments Exits {A}.

(** ** EpollManager *)

(** The constructor, on the [get_type()] of each of the [NrEventType] slots ([None]: [nullptr]). *)
Definition check_source (type : Z) (source : option Z) : bool :=
  match source with
  | None => false
  | Some t => (t =? type) || (t =? EpollEventType_Dummy)
  end.

Definition new_epoll_manager (created : bool) (sources : list (option Z)) : ending executor :=
  require created orelse Throws;
  require forallb (fun ts => check_source ts.1 ts.2)
            (imap (fun i s => (Z.of_nat i, s)) sources) orelse Throws;
  Returns (Executor [] []).

Definition add_event (ok : bool) (fd type local_id : Z) (e : executor) : executor * bool :=
  require ok orelse (e, false);
  (add_to_epoll fd (pack_epoll_data type local_id) e, true).

(** What [epoll_wait] answers. *)
Inductive wait_result :=
  | WaitFailed (eintr : bool)
  | WaitTimeout
  | WaitEvent (data : Z).

(** [wait_and_handle_epoll_event]: the handler it calls and the local id, if any. *)
Definition wait_and_handle_epoll_event (w : wait_result) : ending (option (Z * Z)) :=
  match w with
  | WaitFailed eintr => if eintr then Returns None else Exits
  | WaitTimeout => Returns None
  | WaitEvent data =>
      let '(event_type, event_local_id) := unpack_epoll_data data in
      require negb (NrEventType <=? event_type) orelse Exits;
      Returns (Some (event_type, event_local_id))
  end.

(** ** Lemmas *)

(** An event comes back to the handler and the object it was registered for. *)
Lemma unpack_pack_epoll_data type id :
  0 <= type < 2 ^ 32 -> 0 <= id < 2 ^ 32 ->
  unpack_epoll_data (pack_epoll_data type id) = (type, id).
Proof.
  intros Ht Hi. unfold unpack_epoll_data, pack_epoll_data, EPOLL_DATA_TYPE_SHIFT,
    EPOLL_DATA_ID_BITMASK, u32, u64.
  rw (Z.mod_small type); [|lia]. rw Z.shiftl_mul_pow2; [|lia].
  rw (Z.mod_small (type * _)); [|lia].
  change 4294967295 with (Z.ones 32). rw Z.land_ones; [|lia].
  rw Z.shiftr_lor Z.shiftr_div_pow2; [|lia]. rw Z.div_mul; [|lia].
  rw (Z.shiftr_div_pow2 id); [|lia]. rw (Z.div_small id); [|lia]. rw Z.lor_0_r.
  assert (Z.lor (type * 2 ^ 32) id mod 2 ^ 32 = id) as Hlow.
  { apply Z.bits_inj'. intros n Hn. destruct (decide (n < 32)).
    - rw Z.mod_pow2_bits_low; [|lia]. rw Z.lor_spec Z.mul_pow2_bits_low; [done|lia].
    - rw Z.mod_pow2_bits_high; [|lia]. symmetry.
      destruct (decide (id = 0)) as [->|]; [apply Z.bits_0|].
      apply Z.bits_above_log2; [lia|]. apply Z.lt_le_trans with 32; [|lia].
      apply Z.log2_lt_pow2; lia. }
  rw Hlow. by rw !Z.mod_small; [|lia|lia].
Qed.

Lemma pack_epoll_data_inj t1 i1 t2 i2 :
  0 <= t1 < 2 ^ 32 -> 0 <= i1 < 2 ^ 32 -> 0 <= t2 < 2 ^ 32 -> 0 <= i2 < 2 ^ 32 ->
  pack_epoll_data t1 i1 = pack_epoll_data t2 i2 -> t1 = t2 /\ i1 = i2.
Proof.
  intros H1 H2 H3 H4 He. pose proof (unpack_pack_epoll_data t1 i1 H1 H2) as Hu.
  rw He (unpack_pack_epoll_data t2 i2 H3 H4) in Hu. by injection Hu.
Qed.

(** A request to prepare is seen by every tracker once. *)
Lemma request_then_take tid d :
  is_Some (trackers_ d !! tid) ->
  let '(d', b) := take_update_request tid (request_update_all d) in
  b = true /\ (take_update_request tid d').2 = false.
Proof.
  intros [b Hb]. unfold take_update_request, request_update_all; simpl.
  rw lookup_fmap Hb /=. split; [done|]. by rw lookup_insert_eq.
Qed.

Lemma register_tracker_requests d :
  trackers_ d !! next_tracker_id_ d = None ->
  let '(d', tid) := register_tracker d in trackers_ d' !! tid = Some true.
Proof. intros Hn. unfold register_tracker. rw Hn /=. by rw lookup_insert_eq. Qed.

Lemma elem_of_close_fd fd e r :
  r ∈ epoll_set (close_fd fd e) <-> r ∈ epoll_set e /\ r.1 <> fd.
Proof. unfold close_fd; simpl. rw list_elem_of_filter. naive_solver. Qed.
