(* ===== verification/Timer.v ===== *)
(** * Timers

    agnocast_timer.cpp/.hpp and agnocast_timer_info.cpp/.hpp of agnocastlib: the timer objects, the
    [TimerInfo] each one is driven by, the table of the process, and the handlers that watch the
    descriptors of the timers and queue their callbacks.  Every function is one step: the relaxed
    atomic fields are not interleaved inside a function.  What clock, timerfd and eventfd answer is an
    argument. *)

From S2P Require Import Prelude.
From S2P Require Import Epoll.

(** ** State *)

Definition NANOSECONDS_PER_SECOND : Z := 1000000000.
Definition MAX_TIMER_ID_SAFETY_MARGIN : Z := 1000.
Definition MAX_TIMER_ID : Z := 4294967295 - MAX_TIMER_ID_SAFETY_MARGIN.

(** [rcl_clock_type_t], as far as the code distinguishes it. *)
Inductive clock_type := RCL_ROS_TIME | RCL_SYSTEM_TIME | RCL_STEADY_TIME.

#[export] Instance clock_type_eq_dec : EqDecision clock_type.
Proof. solve_decision. Defined.

(** [TimerBase]: [on_reset_callback_] tells whether one is set. *)
Record timer_base := TimerBase {
  canceled_ : bool;
  on_reset_callback_ : bool;
  reset_counter_ : Z
}.

(** The [rcl_jump_threshold_t] a callback is registered with. *)
Record jump_threshold := JumpThreshold {
  on_clock_change : bool;
  min_forward : Z;
  min_backward : Z
}.

(** [TimerInfo]; a descriptor is [None] for -1. *)
Record timer_info := TimerInfo {
  timer_fd : option Z;
  timer_fd_need_update : bool;
  clock_eventfd : option Z;
  clock_eventfd_need_update : bool;
  callback_group : Z;
  last_call_time_ns : Z;
  next_call_time_ns : Z;
  time_credit : Z;
  period_ns : Z;
  need_epoll_update : bool;
  clock : clock_type;
  jump_handler : option jump_threshold
}.

(** The timers of a process by id: the [TimerBase] objects that exist, the [TimerInfo] objects that
    exist, which of them are in [id2_timer_info], and what each timerfd was last set to
    ([it_value], [it_interval], in nanoseconds). *)
Record timers := Timers {
  next_timer_id : Z;
  timer_objects : gmap Z timer_base;
  timer_infos : gmap Z timer_info;
  id2_timer_info : gset Z;
  armed : gmap Z (Z * Z)
}.

Definition set_times (last next : Z) (ti : timer_info) : timer_info :=
  TimerInfo (timer_fd ti) (timer_fd_need_update ti) (clock_eventfd ti)
    (clock_eventfd_need_update ti) (callback_group ti) last next (time_credit ti) (period_ns ti)
    (need_epoll_update ti) (clock ti) (jump_handler ti).
Definition set_time_credit (c : Z) (ti : timer_info) : timer_info :=
  TimerInfo (timer_fd ti) (timer_fd_need_update ti) (clock_eventfd ti)
    (clock_eventfd_need_update ti) (callback_group ti) (last_call_time_ns ti)
    (next_call_time_ns ti) c (period_ns ti) (need_epoll_update ti) (clock ti) (jump_handler ti).
Definition set_period_ns (p : Z) (ti : timer_info) : timer_info :=
  TimerInfo (timer_fd ti) (timer_fd_need_update ti) (clock_eventfd ti)
    (clock_eventfd_need_update ti) (callback_group ti) (last_call_time_ns ti)
    (next_call_time_ns ti) (time_credit ti) p (need_epoll_update ti) (clock ti) (jump_handler ti).
Definition set_timer_fd_none (ti : timer_info) : timer_info :=
  TimerInfo None (timer_fd_need_update ti) (clock_eventfd ti)
    (clock_eventfd_need_update ti) (callback_group ti) (last_call_time_ns ti)
    (next_call_time_ns ti) (time_credit ti) (period_ns ti) (need_epoll_update ti) (clock ti)
    (jump_handler ti).
Definition set_need_updates (tf cf need : bool) (ti : timer_info) : timer_info :=
  TimerInfo (timer_fd ti) tf (clock_eventfd ti) cf (callback_group ti) (last_call_time_ns ti)
    (next_call_time_ns ti) (time_credit ti) (period_ns ti) need (clock ti) (jump_handler ti).

Definition set_info (tid : Z) (ti : timer_info) (s : timers) : timers :=
  Timers (next_timer_id s) (timer_objects s) (<[tid := ti]> (timer_infos s)) (id2_timer_info s)
    (armed s).
Definition set_object (tid : Z) (o : timer_base) (s : timers) : timers :=
  Timers (next_timer_id s) (<[tid := o]> (timer_objects s)) (timer_infos s) (id2_timer_info s)
    (armed s).
Definition set_armed (a : gmap Z (Z * Z)) (s : timers) : timers :=
  Timers (next_timer_id s) (timer_objects s) (timer_infos s) (id2_timer_info s) a.

(** ** The schedule of one timer *)

(** [handle_timer_event], on the [TimerInfo] the task holds and the timer object its weak pointer
    finds; the flag tells whether the callback ran. *)
Definition handle_timer_event (timer : option timer_base) (now_ns : Z) (ti : timer_info)
    : timer_info * bool :=
  match timer with
  | None => (ti, false)
  | Some o =>
      require negb (canceled_ o) orelse (ti, false);
      let period := period_ns ti in
      let next := i64 (next_call_time_ns ti + period) in
      let next :=
        if next <? now_ns then
          if period =? 0 then now_ns
          else
            let now_ahead := i64 (now_ns - next) in
            let periods_ahead := i64 (1 + i64 (Z.quot (now_ahead - 1) period)) in
            i64 (next + i64 (periods_ahead * period))
        else next in
      (set_times now_ns next ti, true)
  end.

(** A nanosecond count as the [timespec] of a timerfd, in seconds and nanoseconds. *)
Definition ns_to_armed_timespec (ns : Z) : Z * Z :=
  if ns =? 0 then (0, 1)
  else (Z.quot ns NANOSECONDS_PER_SECOND, Z.rem ns NANOSECONDS_PER_SECOND).

Definition timespec_ns (t : Z * Z) : Z := t.1 * NANOSECONDS_PER_SECOND + t.2.

(** [timerfd_settime] on [fd]: [ok] tells whether it succeeds; failure throws. *)
Definition set_timer_fd (ok : bool) (fd : Z) (it_value it_interval : Z * Z) (s : timers)
    : timers * ending unit :=
  require ok orelse (s, Throws);
  (set_armed (<[fd := (timespec_ns it_value, timespec_ns it_interval)]> (armed s)) s, Returns ()).

Definition arm_timer_fd (ok : bool) (fd period : Z) (s : timers) : timers * ending unit :=
  set_timer_fd ok fd (ns_to_armed_timespec period) (ns_to_armed_timespec period) s.

(** [TimerInfo::reset]; [clock->now()] throws when [now] is [None]. *)
Definition info_reset (now : option Z) (ok : bool) (tid : Z) (ti : timer_info) (s : timers)
    : timers * ending unit :=
  match now with
  | None => (s, Throws)
  | Some now_ns =>
      let cur_period_ns := period_ns ti in
      let s := set_info tid (set_times (last_call_time_ns ti) (i64 (now_ns + cur_period_ns)) ti) s in
      match timer_fd ti with
      | Some fd => arm_timer_fd ok fd cur_period_ns s
      | None => (s, Returns ())
      end
  end.

(** [TimerBase::reset]; the number is what the on-reset callback is called with, if it is called. *)
Definition reset (now : option Z) (ok : bool) (tid : Z) (o : timer_base) (s : timers)
    : timers * ending (option Z) :=
  match timer_infos s !! tid with
  | None => (s, Returns None)
  | Some ti =>
      match info_reset now ok tid ti s with
      | (s, Returns _) =>
          if on_reset_callback_ o
          then (set_object tid (TimerBase false true (reset_counter_ o)) s, Returns (Some 1))
          else (set_object tid (TimerBase false false (u64 (reset_counter_ o + 1))) s, Returns None)
      | (s, Throws) => (s, Throws)
      | (s, Exits) => (s, Exits)
      end
  end.

Definition set_on_reset_callback (callable_ : bool) (tid : Z) (o : timer_base) (s : timers)
    : timers * ending (option Z) :=
  require callable_ orelse (s, Throws);
  if 0 <? reset_counter_ o
  then (set_object tid (TimerBase (canceled_ o) true 0) s, Returns (Some (reset_counter_ o)))
  else (set_object tid (TimerBase (canceled_ o) true (reset_counter_ o)) s, Returns None).

Definition clear_on_reset_callback (tid : Z) (o : timer_base) (s : timers) : timers :=
  set_object tid (TimerBase (canceled_ o) false (reset_counter_ o)) s.

Definition cancel (tid : Z) (o : timer_base) (s : timers) : timers :=
  set_object tid (TimerBase true (on_reset_callback_ o) (reset_counter_ o)) s.

(** [std::chrono::nanoseconds::max()] is [2 ^ 63 - 1]. *)
Definition time_until_trigger (now_ns tid : Z) (o : timer_base) (s : timers) : Z :=
  require negb (canceled_ o) orelse 2 ^ 63 - 1;
  match timer_infos s !! tid with
  | None => 2 ^ 63 - 1
  | Some ti => i64 (next_call_time_ns ti - now_ns)
  end.

(** [TimerInfo::set_period], and [TimerBase::set_period], which throws without a [TimerInfo]. *)
Definition info_set_period (now : option Z) (ok : bool) (new_period tid : Z) (ti : timer_info)
    (s : timers) : timers * ending unit :=
  let s := set_info tid (set_period_ns new_period ti) s in
  match timer_fd ti with
  | None => (s, Returns ())
  | Some fd =>
      match now with
      | None => (s, Throws)
      | Some now_ns =>
          let remaining_ns := Z.max (i64 (next_call_time_ns ti - now_ns)) 0 in
          set_timer_fd ok fd (ns_to_armed_timespec remaining_ns)
            (ns_to_armed_timespec new_period) s
      end
  end.

Definition set_period (now : option Z) (ok : bool) (new_period tid : Z) (s : timers)
    : timers * ending unit :=
  match timer_infos s !! tid with
  | None => (s, Throws)
  | Some ti => info_set_period now ok new_period tid ti s
  end.

(** ** Time jumps *)

Inductive clock_change_t :=
  | RCL_ROS_TIME_NO_CHANGE
  | RCL_ROS_TIME_ACTIVATED
  | RCL_ROS_TIME_DEACTIVATED
  | RCL_SYSTEM_TIME_NO_CHANGE.

#[export] Instance clock_change_eq_dec : EqDecision clock_change_t.
Proof. solve_decision. Defined.

Definition handle_pre_time_jump (now : option Z) (ti : timer_info) : timer_info :=
  match now with
  | None => ti
  | Some now_ns =>
      require negb (now_ns =? 0) orelse ti;
      set_time_credit (i64 (next_call_time_ns ti - now_ns)) ti
  end.

(** What a jump does besides writing the [TimerInfo]. *)
Inductive jump_effect := NoEffect | ClosesTimerFd (fd : Z) | SignalsClock (fd : Z).

Definition handle_post_time_jump (now : option Z) (change : clock_change_t)
    (timer : option timer_base) (ti : timer_info) : timer_info * jump_effect :=
  match now with
  | None => (ti, NoEffect)
  | Some now_ns =>
      match change with
      | RCL_ROS_TIME_ACTIVATED =>
          let effect := if timer_fd ti is Some fd then ClosesTimerFd fd else NoEffect in
          let ti := set_timer_fd_none ti in
          require negb (now_ns =? 0) orelse (ti, effect);
          let credit := time_credit ti in
          let ti := set_time_credit 0 ti in
          require negb (credit =? 0) orelse (ti, effect);
          (set_times (i64 (now_ns - credit)) (i64 (i64 (now_ns - credit) + period_ns ti)) ti, effect)
      | RCL_ROS_TIME_DEACTIVATED => (ti, NoEffect)
      | _ =>
          if next_call_time_ns ti <=? now_ns then
            match timer, clock_eventfd ti with
            | Some o, Some fd => (ti, if canceled_ o then NoEffect else SignalsClock fd)
            | _, _ => (ti, NoEffect)
            end
          else if now_ns <? last_call_time_ns ti then
            (set_times now_ns (i64 (now_ns + period_ns ti)) ti, NoEffect)
          else (ti, NoEffect)
      end
  end.

Definition setup_time_jump_callback (ti : timer_info) : timer_info :=
  match clock ti with
  | RCL_ROS_TIME =>
      TimerInfo (timer_fd ti) (timer_fd_need_update ti) (clock_eventfd ti)
        (clock_eventfd_need_update ti) (callback_group ti) (last_call_time_ns ti)
        (next_call_time_ns ti) (time_credit ti) (period_ns ti) (need_epoll_update ti) (clock ti)
        (Some (JumpThreshold true 1 (-1)))
  | _ => ti
  end.

(** ** Creation and removal *)

Definition allocate_timer_id (s : timers) : timers * ending Z :=
  let timer_id := next_timer_id s in
  let s := Timers (u32 (timer_id + 1)) (timer_objects s) (timer_infos s) (id2_timer_info s)
             (armed s) in
  require negb (MAX_TIMER_ID <=? timer_id) orelse (s, Throws);
  (s, Returns timer_id).

(** [create_timer_fd]: [created] is what [timerfd_create] returns. *)
Definition create_timer_fd (created : option Z) (settime_ok : bool) (period : Z) (s : timers)
    : timers * ending Z :=
  match created with
  | None => (s, Throws)
  | Some fd =>
      match arm_timer_fd settime_ok fd period s with
      | (s, Returns _) => (s, Returns fd)
      | (s, _) => (s, Throws)
      end
  end.

(** What the clock and the kernel answer while a timer is registered. *)
Record register_answers := RegisterAnswers {
  a_now : option Z;
  a_ros_time_is_active : bool;
  a_eventfd : option Z;
  a_timerfd : option Z;
  a_settime : bool
}.

(** [register_timer_info]; the callers have made the timer object.  Its last statement,
    [request_update_all], is the caller's step in [Executor]. *)
Definition register_timer_info (timer_id period group : Z) (c : clock_type) (a : register_answers)
    (s : timers) : timers * ending unit :=
  match a_now a with
  | None => (s, Throws)
  | Some now_ns =>
      let is_ros_time := bool_decide (c = RCL_ROS_TIME) in
      require negb (is_ros_time && bool_decide (a_eventfd a = None)) orelse (s, Throws);
      let eventfd := if is_ros_time then a_eventfd a else None in
      let '(s, fd) :=
        if is_ros_time && a_ros_time_is_active a then (s, Returns None)
        else match create_timer_fd (a_timerfd a) (a_settime a) period s with
             | (s, Returns fd) => (s, Returns (Some fd))
             | (s, Throws) => (s, Throws)
             | (s, Exits) => (s, Exits)
             end in
      match fd with
      | Returns fd =>
          let ti := TimerInfo fd false eventfd false group now_ns (i64 (now_ns + period)) 0 period
                      true c None in
          let ti := setup_time_jump_callback ti in
          let ti := set_need_updates (bool_decide (is_Some fd)) (bool_decide (is_Some eventfd)) true
                      ti in
          (Timers (next_timer_id s) (timer_objects s) (<[timer_id := ti]> (timer_infos s))
             ({[timer_id]} ∪ id2_timer_info s) (armed s), Returns ())
      | _ => (s, Throws)
      end
  end.

(** [create_timer]: the id, the object, the registration; when it throws, the object is destroyed
    and its destructor finds no entry to erase. *)
Definition create_timer (period group : Z) (c : clock_type) (a : register_answers) (s : timers)
    : timers * ending Z :=
  match allocate_timer_id s with
  | (s, Returns timer_id) =>
      match register_timer_info timer_id period group c a
              (set_object timer_id (TimerBase false false 0) s) with
      | (s, Returns _) => (s, Returns timer_id)
      | (s, _) =>
          (Timers (next_timer_id s) (delete timer_id (timer_objects s)) (timer_infos s)
             (id2_timer_info s) (armed s), Throws)
      end
  | (s, _) => (s, Throws)
  end.

Definition unregister_timer_info (timer_id : Z) (s : timers) : timers :=
  Timers (next_timer_id s) (timer_objects s) (timer_infos s) (id2_timer_info s ∖ {[timer_id]})
    (armed s).

Definition group_has_agnocast_timer (group : Z) (s : timers) : bool :=
  existsb (fun tid => if timer_infos s !! tid is Some ti then callback_group ti =? group else false)
    (elements (id2_timer_info s)).

(** The descriptors [~TimerInfo] closes. *)
Definition fds_closed (ti : timer_info) : list Z :=
  (if timer_fd ti is Some fd then [fd] else []) ++
  (if clock_eventfd ti is Some fd then [fd] else []).

(** ** Event handlers *)

(** The loop body of [TimerEventHandler::prepare_epoll] for one entry of the table.  [ctl]: whether
    [epoll_ctl] succeeds on a descriptor. *)
Definition prepare_timer (validate : Z -> ending bool) (ctl : Z -> bool) (timer_id : Z)
    (st : timers * executor) : ending (timers * executor) :=
  let '(s, e) := st in
  match timer_infos s !! timer_id with
  | None => Returns (s, e)
  | Some ti =>
      require need_epoll_update ti orelse Returns (s, e);
      require bool_decide (is_Some (timer_objects s !! timer_id)) orelse Returns (s, e);
      match validate (callback_group ti) with
      | Returns true =>
          match timer_fd ti, timer_fd_need_update ti with
          | Some fd, true =>
              require ctl fd orelse Exits;
              Returns (set_info timer_id
                         (set_need_updates false (clock_eventfd_need_update ti)
                            (false || clock_eventfd_need_update ti) ti) s,
                       add_to_epoll fd (pack_epoll_data EpollEventType_Timer timer_id) e)
          | _, _ =>
              Returns (set_info timer_id
                         (set_need_updates (timer_fd_need_update ti) (clock_eventfd_need_update ti)
                            (timer_fd_need_update ti || clock_eventfd_need_update ti) ti) s, e)
          end
      | Returns false => Returns (s, e)
      | Throws => Throws
      | Exits => Exits
      end
  end.

(** The loop body of [ClockEventHandler::prepare_epoll]. *)
Definition prepare_clock (validate : Z -> ending bool) (ctl : Z -> bool) (timer_id : Z)
    (st : timers * executor) : ending (timers * executor) :=
  let '(s, e) := st in
  match timer_infos s !! timer_id with
  | None => Returns (s, e)
  | Some ti =>
      require need_epoll_update ti orelse Returns (s, e);
      require bool_decide (is_Some (timer_objects s !! timer_id)) orelse Returns (s, e);
      match validate (callback_group ti) with
      | Returns true =>
          match clock_eventfd ti, clock_eventfd_need_update ti with
          | Some fd, true =>
              require ctl fd orelse Exits;
              Returns (set_info timer_id
                         (set_need_updates (timer_fd_need_update ti) false
                            (timer_fd_need_update ti || false) ti) s,
                       add_to_epoll fd (pack_epoll_data EpollEventType_Clock timer_id) e)
          | _, _ =>
              Returns (set_info timer_id
                         (set_need_updates (timer_fd_need_update ti) (clock_eventfd_need_update ti)
                            (timer_fd_need_update ti || clock_eventfd_need_update ti) ti) s, e)
          end
      | Returns false => Returns (s, e)
      | Throws => Throws
      | Exits => Exits
      end
  end.

(** A loop over the table, in the order [order] the hash map yields. *)
Fixpoint prepare_loop {A} (body : Z -> A -> ending A) (order : list Z) (st : A) : ending A :=
  match order with
  | [] => Returns st
  | x :: rest =>
      match body x st with
      | Returns st => prepare_loop body rest st
      | Throws => Throws
      | Exits => Exits
      end
  end.

(** [TimerEventHandler::handle]; [expirations] is what [read] returns, if it succeeds. *)
Definition handle_timer (timer_id : Z) (expirations : option Z) (s : timers) (e : executor)
    : ending executor :=
  require bool_decide (timer_id ∈ id2_timer_info s) orelse Exits;
  match timer_infos s !! timer_id with
  | None => Exits
  | Some ti =>
      require bool_decide (is_Some (timer_objects s !! timer_id)) orelse Returns e;
      match timer_fd ti, expirations with
      | Some _, Some n =>
          require negb (n =? 0) orelse Returns e;
          Returns (emplace_back (AgnocastExecutable (TimerTask timer_id) (callback_group ti)) e)
      | _, _ => Returns e
      end
  end.

(** [ClockEventHandler::handle]; [now] is [None] when [clock->now()] throws. *)
Definition handle_clock (timer_id : Z) (val now : option Z) (s : timers) (e : executor)
    : ending executor :=
  require bool_decide (timer_id ∈ id2_timer_info s) orelse Exits;
  match timer_infos s !! timer_id with
  | None => Exits
  | Some ti =>
      require bool_decide (is_Some (timer_objects s !! timer_id)) orelse Returns e;
      match val with
      | None => Returns e
      | Some n =>
          require negb (n =? 0) orelse Returns e;
          match now with
          | None => Throws
          | Some now_ns =>
              require negb (now_ns <? next_call_time_ns ti) orelse Returns e;
              Returns (emplace_back (AgnocastExecutable (TimerTask timer_id) (callback_group ti)) e)
          end
      end
  end.

(** ** Facts about a schedule *)

(** The values for which the arithmetic of [handle_timer_event] stays inside [int64_t]: times and
    periods below 2^61 ns, about 73 years. *)
Definition in_range (now_ns : Z) (ti : timer_info) : Prop :=
  0 <= now_ns < 2 ^ 61 /\ 0 <= next_call_time_ns ti < 2 ^ 61 /\ 0 <= period_ns ti < 2 ^ 61.

(** The periods that [handle_timer_event] skips: the least number that reaches [now]. *)
Lemma periods_ahead_least d p :
  0 < p -> 0 < d ->
  let k := 1 + Z.quot (d - 1) p in
  0 < k /\ d <= k * p < d + p /\ (forall j, d <= j * p -> k <= j).
Proof.
  intros Hp Hd k. subst k. rw Z.quot_div_nonneg; [|lia|lia].
  pose proof (Z.div_mod (d - 1) p ltac:(lia)) as E.
  pose proof (Z.mod_pos_bound (d - 1) p Hp).
  assert (0 <= (d - 1) / p) by (apply Z.div_pos; lia).
  split_and!; [lia|nia|nia|]. intros j Hj. nia.
Qed.

Lemma handle_timer_event_next o now_ns ti :
  in_range now_ns ti -> canceled_ o = false ->
  handle_timer_event (Some o) now_ns ti =
  (set_times now_ns
     (if next_call_time_ns ti + period_ns ti <? now_ns then
        if period_ns ti =? 0 then now_ns
        else next_call_time_ns ti + period_ns ti +
             (1 + Z.quot (now_ns - (next_call_time_ns ti + period_ns ti) - 1) (period_ns ti)) *
               period_ns ti
      else next_call_time_ns ti + period_ns ti) ti, true).
Proof.
  intros (Hn & Hx & Hp) Hc. unfold handle_timer_event. rw Hc /=.
  rw (i64_small (next_call_time_ns ti + period_ns ti)); [|lia].
  destruct (Z.ltb_spec (next_call_time_ns ti + period_ns ti) now_ns) as [Hlt|]; [|done].
  destruct (Z.eqb_spec (period_ns ti) 0) as [|Hp0]; [done|].
  rw (i64_small (now_ns - (next_call_time_ns ti + period_ns ti))); [|lia].
  set (d := now_ns - (next_call_time_ns ti + period_ns ti)).
  destruct (periods_ahead_least d (period_ns ti)) as (Hk & Hkp & _); [lia|lia|].
  assert (0 <= Z.quot (d - 1) (period_ns ti) <= d - 1).
  { split; [apply Z.quot_pos; lia|]. rw Z.quot_div_nonneg; [|lia|lia].
    apply Z.div_le_upper_bound; nia. }
  rw (i64_small (Z.quot (d - 1) (period_ns ti))); [|lia].
  rw (i64_small (1 + Z.quot (d - 1) (period_ns ti))); [|lia].
  rw (i64_small (_ * _)); [|lia]. by rw i64_small; [|lia].
Qed.

(** A timer event of a timer that is not canceled runs the callback once and moves the next call
    to the first time of the timer's phase that is at least one period on and not before now: calls
    are skipped, never brought forward or shifted off the phase.  A timer with period zero is always
    due. *)
Theorem timer_event_schedule o now_ns ti :
  in_range now_ns ti -> canceled_ o = false ->
  exists next,
    handle_timer_event (Some o) now_ns ti = (set_times now_ns next ti, true) /\
    (period_ns ti = 0 -> next = Z.max now_ns (next_call_time_ns ti)) /\
    (0 < period_ns ti ->
     exists k, next = next_call_time_ns ti + k * period_ns ti /\ 1 <= k /\ now_ns <= next /\
       (k = 1 \/ next < now_ns + period_ns ti) /\
       (forall j, 1 <= j -> now_ns <= next_call_time_ns ti + j * period_ns ti -> k <= j)).
Proof.
  intros Hr Hc. eexists. split; [by apply handle_timer_event_next|].
  destruct Hr as (Hn & Hx & Hp).
  destruct (Z.ltb_spec (next_call_time_ns ti + period_ns ti) now_ns) as [Hlt|Hge].
  - destruct (Z.eqb_spec (period_ns ti) 0) as [H0|H0]; split; intros; try lia.
    set (d := now_ns - (next_call_time_ns ti + period_ns ti)).
    destruct (periods_ahead_least d (period_ns ti)) as (Hk & Hkp & Hmin); [lia|lia|].
    exists (1 + (1 + Z.quot (d - 1) (period_ns ti))).
    split_and!; [lia|lia|lia|right; lia|]. intros j Hj Hnj.
    assert (1 + Z.quot (d - 1) (period_ns ti) <= j - 1); [apply Hmin; lia|lia].
  - split; intros; [lia|]. exists 1. split_and!; [lia|lia|lia|by left|lia].
Qed.

Lemma timespec_ns_armed ns : timespec_ns (ns_to_armed_timespec ns) = if ns =? 0 then 1 else ns.
Proof.
  unfold timespec_ns, ns_to_armed_timespec. destruct (ns =? 0); simpl; [done|].
  pose proof (Z.quot_rem' ns NANOSECONDS_PER_SECOND). lia.
Qed.

(** [set_period] as it is documented: the firing already scheduled keeps its time, on the timerfd
    too, and the firings after it adopt the new period. *)
Lemma set_period_keeps_next now_ns new_period tid s ti fd :
  timer_infos s !! tid = Some ti -> timer_fd ti = Some fd ->
  now_ns < next_call_time_ns ti < 2 ^ 62 -> - 2 ^ 62 < now_ns -> 0 < new_period ->
  set_period (Some now_ns) true new_period tid s =
    (set_armed (<[fd := (next_call_time_ns ti - now_ns, new_period)]> (armed s))
       (set_info tid (set_period_ns new_period ti) s), Returns ()).
Proof.
  intros Ht Hf Hn Hl Hp. unfold set_period. rw Ht. unfold info_set_period. rw Hf.
  unfold set_timer_fd. rw !timespec_ns_armed i64_small; [|lia].
  replace (Z.max (next_call_time_ns ti - now_ns) 0) with (next_call_time_ns ti - now_ns) by lia.
  destruct (Z.eqb_spec (next_call_time_ns ti - now_ns) 0); [lia|].
  destruct (Z.eqb_spec new_period 0); [lia|]. done.
Qed.

(** The firing after [reset] is one whole period away, in the schedule and on the timerfd. *)
Lemma reset_restarts now_ns tid s o ti fd :
  timer_infos s !! tid = Some ti -> timer_fd ti = Some fd ->
  - 2 ^ 62 < now_ns < 2 ^ 62 -> 0 < period_ns ti < 2 ^ 62 ->
  exists s' n, reset (Some now_ns) true tid o s = (s', Returns n) /\
    timer_infos s' !! tid = Some (set_times (last_call_time_ns ti) (now_ns + period_ns ti) ti) /\
    armed s' !! fd = Some (period_ns ti, period_ns ti) /\
    (exists o', timer_objects s' !! tid = Some o' /\ canceled_ o' = false).
Proof.
  intros Ht Hf Hn Hp. unfold reset. rw Ht. unfold info_reset. rw Hf.
  unfold arm_timer_fd, set_timer_fd. rw timespec_ns_armed i64_small; [|lia].
  destruct (Z.eqb_spec (period_ns ti) 0); [lia|]. simpl.
  destruct (on_reset_callback_ o); do 2 eexists; (split; [done|]); simpl;
    rw !lookup_insert_eq; naive_solver.
Qed.

(** What a switch to ROS time leaves of a running timer: it waits [period - remaining], the time that
    had elapsed, and not the remainder that the comments of both handlers promise. *)
Lemma ros_time_wait_reversed now1 now2 o ti :
  0 < now1 < next_call_time_ns ti -> next_call_time_ns ti < 2 ^ 61 ->
  0 < now2 < 2 ^ 61 -> 0 <= period_ns ti < 2 ^ 61 ->
  let ti' := (handle_post_time_jump (Some now2) RCL_ROS_TIME_ACTIVATED o
                (handle_pre_time_jump (Some now1) ti)).1 in
  next_call_time_ns ti' - now2 = period_ns ti - (next_call_time_ns ti - now1).
Proof.
  intros H1 H2 H3 H4. unfold handle_pre_time_jump.
  destruct (Z.eqb_spec now1 0); [lia|]. simpl. rw i64_small; [|lia].
  destruct (Z.eqb_spec now2 0); [lia|]. simpl.
  destruct (Z.eqb_spec (next_call_time_ns ti - now1) 0); [lia|]. simpl.
  rw (i64_small (now2 - _)); [|lia]. rw i64_small; [|lia]. lia.
Qed.

(** A timer on ROS time that is due stays due until its task runs, so every clock event before that
    queues it again; the second task runs the callback although the next call is not due yet. *)
Lemma clock_event_queues_twice tid s e ti o now_ns :
  tid ∈ id2_timer_info s -> timer_infos s !! tid = Some ti -> timer_objects s !! tid = Some o ->
  canceled_ o = false -> in_range now_ns ti -> next_call_time_ns ti <= now_ns ->
  now_ns < next_call_time_ns ti + period_ns ti ->
  let x := AgnocastExecutable (TimerTask tid) (callback_group ti) in
  (exists e1, handle_clock tid (Some 1) (Some now_ns) s e = Returns e1 /\
     handle_clock tid (Some 1) (Some now_ns) s e1 =
       Returns (Executor (epoll_set e) (ready_agnocast_executables_ e ++ [x; x]))) /\
  let ti1 := (handle_timer_event (Some o) now_ns ti).1 in
  now_ns < next_call_time_ns ti1 /\ (handle_timer_event (Some o) now_ns ti1).2 = true.
Proof.
  intros Hin Hi Ho Hc Hr Hdue Hnext x. split.
  - unfold handle_clock. rw bool_decide_true; [|done]. rw Hi Ho /=.
    destruct (Z.ltb_spec now_ns (next_call_time_ns ti)); [lia|]. simpl.
    eexists. split; [done|]. unfold emplace_back; simpl. by rw -app_assoc.
  - rw handle_timer_event_next; [|done|done]. simpl.
    destruct (Z.ltb_spec (next_call_time_ns ti + period_ns ti) now_ns); [lia|].
    simpl. split; [lia|]. unfold handle_timer_event. by rw Hc.
Qed.

Definition sample_timer : timer_info :=
  TimerInfo (Some 5) true None false 1 0 100 0 30 true RCL_STEADY_TIME None.

Lemma timer_event_schedule_witness :
  exists next,
    handle_timer_event (Some (TimerBase false false 0)) 205 sample_timer =
      (set_times 205 next sample_timer, true) /\ next = 220.
Proof.
  assert (in_range 205 sample_timer) as Hr
    by (unfold in_range; simpl; lia).
  destruct (timer_event_schedule (TimerBase false false 0) 205 sample_timer Hr eq_refl)
    as (next & E & _).
  exists next. split; [exact E|]. vm_compute in E. by injection E.
Defined.
