(* ===== verification/CallbackInfo.v ===== *)
(** * The table of subscription callbacks

    agnocast_callback_info.cpp/.hpp of agnocastlib: the callbacks registered in the process and the
    handler that watches the eventfd of each subscription and queues the task that receives its
    messages.  The callback and the message creator of an entry are user code: the model names them
    by the id of the entry. *)

From S2P Require Import Prelude.
From S2P Require Import Epoll.

Definition MAX_CALLBACK_INFO_ID_SAFETY_MARGIN : Z := 1000.
Definition MAX_CALLBACK_INFO_ID : Z := 4294967295 - MAX_CALLBACK_INFO_ID_SAFETY_MARGIN.

(** [CallbackInfo]. *)
Record callback_info := CallbackInfo {
  topic_name : string;
  subscriber_id : Z;
  is_transient_local : bool;
  notify_eventfd : Z;
  cb_callback_group : Z;
  cb_need_epoll_update : bool
}.

#[export] Instance callback_info_eq_dec : EqDecision callback_info.
Proof. solve_decision. Defined.

(** [next_callback_info_id] and [id2_callback_info]. *)
Record callbacks := Callbacks {
  next_callback_info_id : Z;
  id2_callback_info : gmap Z callback_info
}.

Definition clear_need_update (c : callback_info) : callback_info :=
  CallbackInfo (topic_name c) (subscriber_id c) (is_transient_local c) (notify_eventfd c)
    (cb_callback_group c) false.

Definition allocate_callback_info_id (s : callbacks) : callbacks * ending Z :=
  let callback_info_id := next_callback_info_id s in
  let s := Callbacks (u32 (callback_info_id + 1)) (id2_callback_info s) in
  require negb (MAX_CALLBACK_INFO_ID <=? callback_info_id) orelse (s, Throws);
  (s, Returns callback_info_id).

(** [register_callback], up to its [request_update_all], which is the caller's step in [Executor]. *)
Definition register_callback (topic : string) (sub_id : Z) (transient_local : bool) (eventfd group : Z)
    (s : callbacks) : callbacks * ending Z :=
  match allocate_callback_info_id s with
  | (s, Returns id) =>
      (Callbacks (next_callback_info_id s)
         (<[id := CallbackInfo topic sub_id transient_local eventfd group true]>
            (id2_callback_info s)), Returns id)
  | (s, _) => (s, Throws)
  end.

(** The body of [~Subscription]. *)
Definition erase_callback (id : Z) (s : callbacks) : callbacks :=
  Callbacks (next_callback_info_id s) (delete id (id2_callback_info s)).

(** [enqueue_receive_and_execute]: the closure holds a copy of the entry. *)
Definition enqueue_receive_and_execute (id : Z) (c : callback_info) (e : executor) : executor :=
  emplace_back (AgnocastExecutable (ReceiveTask id (topic_name c) (subscriber_id c))
                  (cb_callback_group c)) e.

(** The end of [receive_and_execute_message], after the callbacks of the entries received. *)
Definition reenqueue (ret_call_again : bool) (x : executable) (e : executor) : executor :=
  if ret_call_again then emplace_back x e else e.

(** [get_agnocast_topics_by_group]: the topics of the entries in the order of the table, sorted. *)
Definition get_agnocast_topics_by_group (group : Z) (s : callbacks) : list string :=
  merge_sort string_le
    (topic_name <$> filter (fun c => cb_callback_group c = group)
       ((map_to_list (id2_callback_info s)).*2)).

(** The loop body of [SubscriptionEventHandler::prepare_epoll] for one entry. *)
Definition prepare_callback (validate : Z -> ending bool) (ctl : Z -> bool) (id : Z)
    (st : callbacks * executor) : ending (callbacks * executor) :=
  let '(s, e) := st in
  match id2_callback_info s !! id with
  | None => Returns (s, e)
  | Some c =>
      require cb_need_epoll_update c orelse Returns (s, e);
      match validate (cb_callback_group c) with
      | Returns true =>
          require ctl (notify_eventfd c) orelse Exits;
          let e := add_to_epoll (notify_eventfd c) (pack_epoll_data EpollEventType_Subscription id) e
          in
          let e := if is_transient_local c then enqueue_receive_and_execute id c e else e in
          Returns (Callbacks (next_callback_info_id s)
                     (<[id := clear_need_update c]> (id2_callback_info s)), e)
      | Returns false => Returns (s, e)
      | Throws => Throws
      | Exits => Exits
      end
  end.

(** What [read] of the eventfd answers: the counter, [EAGAIN], or another error. *)
Inductive read_answer := ReadCounter | ReadEagain | ReadError.

(** [SubscriptionEventHandler::handle] takes a copy of the entry under the lock, then reads. *)
Definition find_callback (id : Z) (s : callbacks) : option callback_info := id2_callback_info s !! id.

Definition handle_callback (id : Z) (c : callback_info) (r : read_answer) (e : executor)
    : ending executor :=
  match r with
  | ReadCounter => Returns (enqueue_receive_and_execute id c e)
  | ReadEagain => Returns e
  | ReadError => Exits
  end.

(** ** Lemmas *)

Lemma get_agnocast_topics_spec group s :
  Sorted string_le (get_agnocast_topics_by_group group s) /\
  forall t, t ∈ get_agnocast_topics_by_group group s <->
    exists id c, id2_callback_info s !! id = Some c /\ cb_callback_group c = group /\ topic_name c = t.
Proof.
  unfold get_agnocast_topics_by_group. split.
  - apply Sorted_merge_sort, _.
  - intros t. rw (merge_sort_Permutation string_le). rw list_elem_of_fmap. split.
    + intros (c & -> & [Hg Hc]%list_elem_of_filter).
      apply list_elem_of_fmap in Hc as ([id c'] & -> & Hc). simpl in *.
      exists id, c'. split; [by apply elem_of_map_to_list|done].
    + intros (id & c & Hc & Hg & Ht). exists c. split; [done|].
      apply list_elem_of_filter. split; [done|]. apply list_elem_of_fmap. exists (id, c).
      split; [done|]. by apply elem_of_map_to_list.
Qed.
