(* ===== verification/Executor.v ===== *)
(** * Executors of a process

    The executors of agnocastlib (agnocast_executor.cpp, agnocast_single_threaded_executor.cpp,
    agnocast_multi_threaded_executor.cpp and node/agnocast_only_executor.cpp): which callback groups
    an executor serves, the preparation of its epoll instance, the queue of ready tasks and the
    rule that tasks of a mutually exclusive callback group do not run together.  A process has any
    number of executors with any number of threads; an [action] is one critical section or system
    call of one of them, so a run is any interleaving.  The groups, the nodes and what rclcpp itself
    takes are the environment's actions. *)

From S2P Require Import Prelude.
From S2P Require Import Epoll.
From S2P Require Import Timer.
From S2P Require Import CallbackInfo.

(** ** State *)

(** A callback group: [shared_with_ros2] tells whether it has ROS 2 entities, [group_node] is the node
    whose [for_each_callback_group] lists it. *)
Record group_info := GroupInfo {
  mutually_exclusive : bool;
  can_be_taken_from : bool;
  associated_with_executor : bool;
  automatically_add : bool;
  group_node : Z;
  shared_with_ros2 : bool
}.

Inductive executor_kind :=
  | SingleThreaded (dedicated_callback_group : option Z)
  | MultiThreaded
  | AgnocastOnly.

(** [ex_manual], [ex_auto] and [ex_nodes] are [weak_groups_associated_with_executor_to_nodes_],
    [weak_groups_to_nodes_associated_with_executor_] and [weak_nodes_], of [AgnocastOnlyExecutor] or
    of [rclcpp::Executor].  [ex_preparing] has one number for each thread inside [prepare_epoll]: the
    event type it prepares next. *)
Record exec_state := ExecState {
  ex_kind : executor_kind;
  ex_loop : executor;
  ex_tracker : Z;
  ex_manual : gset Z;
  ex_auto : gmap Z Z;
  ex_nodes : list Z;
  ex_shutdown_fd : option Z;
  ex_preparing : list Z
}.

(** [sub_fds]: the eventfd of each [Subscription] object, by its callback id.  [fetched]: events that
    [epoll_wait] returned to an executor and that are not handled yet.  [handling]: subscription
    events between the copy of the entry and the read of the eventfd.  [running] and [rcl_running]:
    the tasks being executed and the groups rclcpp executes a callback of. *)
Record process := Process {
  timer_table : timers;
  callback_table : callbacks;
  sub_fds : gmap Z Z;
  dispatch : dispatcher;
  execs : list exec_state;
  groups : gmap Z group_info;
  nodes_with_executor : gset Z;
  fetched : list (nat * Z);
  handling : list (nat * (Z * callback_info));
  running : list (nat * executable);
  rcl_running : list Z
}.

Definition set_timers (t : timers) (p : process) : process :=
  Process t (callback_table p) (sub_fds p) (dispatch p) (execs p) (groups p)
    (nodes_with_executor p) (fetched p) (handling p) (running p) (rcl_running p).
Definition set_callbacks (c : callbacks) (fds : gmap Z Z) (p : process) : process :=
  Process (timer_table p) c fds (dispatch p) (execs p) (groups p)
    (nodes_with_executor p) (fetched p) (handling p) (running p) (rcl_running p).
Definition set_dispatch (d : dispatcher) (p : process) : process :=
  Process (timer_table p) (callback_table p) (sub_fds p) d (execs p) (groups p)
    (nodes_with_executor p) (fetched p) (handling p) (running p) (rcl_running p).
Definition set_execs (l : list exec_state) (p : process) : process :=
  Process (timer_table p) (callback_table p) (sub_fds p) (dispatch p) l (groups p)
    (nodes_with_executor p) (fetched p) (handling p) (running p) (rcl_running p).
Definition set_groups (g : gmap Z group_info) (ns : gset Z) (p : process) : process :=
  Process (timer_table p) (callback_table p) (sub_fds p) (dispatch p) (execs p) g
    ns (fetched p) (handling p) (running p) (rcl_running p).
Definition set_fetched (f : list (nat * Z)) (h : list (nat * (Z * callback_info))) (p : process)
    : process :=
  Process (timer_table p) (callback_table p) (sub_fds p) (dispatch p) (execs p) (groups p)
    (nodes_with_executor p) f h (running p) (rcl_running p).
Definition set_running (r : list (nat * executable)) (rcl : list Z) (p : process) : process :=
  Process (timer_table p) (callback_table p) (sub_fds p) (dispatch p) (execs p) (groups p)
    (nodes_with_executor p) (fetched p) (handling p) r rcl.

Definition set_loop (e : executor) (x : exec_state) : exec_state :=
  ExecState (ex_kind x) e (ex_tracker x) (ex_manual x) (ex_auto x) (ex_nodes x) (ex_shutdown_fd x)
    (ex_preparing x).
Definition set_associations (m : gset Z) (a : gmap Z Z) (ns : list Z) (x : exec_state) : exec_state :=
  ExecState (ex_kind x) (ex_loop x) (ex_tracker x) m a ns (ex_shutdown_fd x) (ex_preparing x).
Definition set_preparing (l : list Z) (x : exec_state) : exec_state :=
  ExecState (ex_kind x) (ex_loop x) (ex_tracker x) (ex_manual x) (ex_auto x) (ex_nodes x)
    (ex_shutdown_fd x) l.

Definition set_can_be_taken (b : bool) (g : group_info) : group_info :=
  GroupInfo (mutually_exclusive g) b (associated_with_executor g) (automatically_add g)
    (group_node g) (shared_with_ros2 g).
Definition set_associated (b : bool) (g : group_info) : group_info :=
  GroupInfo (mutually_exclusive g) (can_be_taken_from g) b (automatically_add g)
    (group_node g) (shared_with_ros2 g).

(** ** Which groups an executor serves *)

Definition is_callback_group_associated (x : exec_state) (group : Z) : bool :=
  require negb (bool_decide (ex_manual x = ∅) && bool_decide (ex_auto x = ∅)
                && bool_decide (ex_nodes x = [])) orelse false;
  bool_decide (group ∈ ex_manual x) || bool_decide (is_Some (ex_auto x !! group)).

(** [SingleThreadedAgnocastExecutor::validate_callback_group]. *)
Definition validate_single (dedicated : option Z) (group : Z) : ending bool :=
  require negb (group =? 0) orelse Exits;
  match dedicated with
  | Some g => Returns (group =? g)
  | None => Returns true
  end.

(** [MultiThreadedAgnocastExecutor::validate_callback_group]. *)
Definition validate_multi (gs : gmap Z group_info) (group : Z) : ending bool :=
  require negb (group =? 0) orelse Exits;
  match gs !! group with
  | None => Exits
  | Some g =>
      require mutually_exclusive g orelse Returns true;
      require negb (shared_with_ros2 g) orelse Exits;
      Returns true
  end.

Definition validate (gs : gmap Z group_info) (x : exec_state) (group : Z) : ending bool :=
  match ex_kind x with
  | SingleThreaded d => validate_single d group
  | MultiThreaded => validate_multi gs group
  | AgnocastOnly => Returns (is_callback_group_associated x group)
  end.

(** The groups of a node in the order [for_each_callback_group] visits them. *)
Fixpoint add_groups_of_node (node : Z) (order : list Z) (gs : gmap Z group_info) (auto : gmap Z Z)
    : gmap Z group_info * gmap Z Z :=
  match order with
  | [] => (gs, auto)
  | g :: rest =>
      match gs !! g with
      | Some gi =>
          if bool_decide (group_node gi = node) && automatically_add gi then
            let gs' := <[g := set_associated true gi]> gs in
            if associated_with_executor gi then add_groups_of_node node rest gs' auto
            else add_groups_of_node node rest gs'
                   (if auto !! g is Some _ then auto else <[g := node]> auto)
          else add_groups_of_node node rest gs auto
      | None => add_groups_of_node node rest gs auto
      end
  end.

(** [add_callback_groups_from_nodes_associated_to_executor]. *)
Fixpoint add_callback_groups_from_nodes (ns order : list Z) (gs : gmap Z group_info)
    (auto : gmap Z Z) : gmap Z group_info * gmap Z Z :=
  match ns with
  | [] => (gs, auto)
  | n :: rest =>
      let '(gs, auto) := add_groups_of_node n order gs auto in
      add_callback_groups_from_nodes rest order gs auto
  end.

(** [AgnocastOnlyExecutor::add_callback_group] and [remove_callback_group], up to their
    [request_update]; [None] is [exit]. *)
Definition add_callback_group (group : Z) (gs : gmap Z group_info) (x : exec_state)
    : option (gmap Z group_info * exec_state) :=
  match gs !! group with
  | None => None
  | Some gi =>
      require negb (associated_with_executor gi) orelse None;
      require bool_decide (group ∉ ex_manual x) orelse None;
      Some (<[group := set_associated true gi]> gs,
            set_associations ({[group]} ∪ ex_manual x) (ex_auto x) (ex_nodes x) x)
  end.

Definition remove_callback_group (group : Z) (gs : gmap Z group_info) (x : exec_state)
    : option (gmap Z group_info * exec_state) :=
  require bool_decide (group ∈ ex_manual x) orelse None;
  Some (alter (set_associated false) group gs,
        set_associations (ex_manual x ∖ {[group]}) (ex_auto x) (ex_nodes x) x).

(** [AgnocastOnlyExecutor::add_node] and [remove_node]. *)
Definition add_node (node : Z) (order : list Z) (ns : gset Z) (gs : gmap Z group_info)
    (x : exec_state) : option (gset Z * gmap Z group_info * exec_state) :=
  require bool_decide (node ∉ ns) orelse None;
  let '(gs, auto) := add_groups_of_node node order gs (ex_auto x) in
  Some ({[node]} ∪ ns, gs, set_associations (ex_manual x) auto (ex_nodes x ++ [node]) x).

Definition remove_node (node : Z) (ns : gset Z) (gs : gmap Z group_info) (x : exec_state)
    : option (gset Z * gmap Z group_info * exec_state) :=
  require bool_decide (node ∈ ns) orelse None;
  require bool_decide (node ∈ ex_nodes x) orelse None;
  let gone := filter (fun gn => gn.2 = node) (ex_auto x) in
  Some (ns ∖ {[node]},
        map_imap (fun g gi => Some (if gone !! g is Some _ then set_associated false gi else gi)) gs,
        set_associations (ex_manual x) (filter (fun gn => gn.2 <> node) (ex_auto x))
          (filter (fun n => n <> node) (ex_nodes x)) x).

(** ** The queue of ready tasks *)

(** [get_next_ready_agnocast_executable]: the groups after it, and the task taken with the queue it
    leaves. *)
Fixpoint get_next_ready_agnocast_executable (known : Z -> bool) (gs : gmap Z group_info)
    (ready : list executable) : gmap Z group_info * option (executable * list executable) :=
  match ready with
  | [] => (gs, None)
  | it :: rest =>
      let continue gs :=
        let '(gs, r) := get_next_ready_agnocast_executable known gs rest in
        (gs, (fun xr => (xr.1, it :: xr.2)) <$> r) in
      if negb (known (exec_group it)) then continue gs
      else match gs !! exec_group it with
           | None => continue gs
           | Some g =>
               if mutually_exclusive g then
                 let gs := <[exec_group it := set_can_be_taken false g]> gs in
                 if negb (can_be_taken_from g) then continue gs else (gs, Some (it, rest))
               else (gs, Some (it, rest))
           end
  end.

(** [execute_agnocast_executable], after the callable. *)
Definition restore_group (group : Z) (gs : gmap Z group_info) : gmap Z group_info :=
  alter (fun g => if mutually_exclusive g then set_can_be_taken true g else g) group gs.

(** [known] of an executor; rclcpp's executors have the same two tables. *)
Definition knows_group (x : exec_state) (group : Z) : bool :=
  match ex_kind x with
  | AgnocastOnly => is_callback_group_associated x group
  | _ => bool_decide (group ∈ ex_manual x) || bool_decide (is_Some (ex_auto x !! group))
  end.

(** ** Lifetime of a TimerInfo *)

Definition holds_timer (timer_id : Z) (x : executable) : bool :=
  bool_decide (callable x = TimerTask timer_id).

Definition timer_held (timer_id : Z) (p : process) : bool :=
  existsb (fun x => existsb (holds_timer timer_id) (ready_agnocast_executables_ (ex_loop x))) (execs p)
  || existsb (fun r => holds_timer timer_id r.2) (running p).

Definition close_everywhere (fd : Z) (l : list exec_state) : list exec_state :=
  (fun x => set_loop (close_fd fd (ex_loop x)) x) <$> l.

(** [~TimerInfo], when the last owner is gone. *)
Definition collect_timer (timer_id : Z) (p : process) : process :=
  match timer_infos (timer_table p) !! timer_id with
  | None => p
  | Some ti =>
      require negb (bool_decide (timer_id ∈ Timer.id2_timer_info (timer_table p))
                    || timer_held timer_id p) orelse p;
      let t := timer_table p in
      set_execs (foldr close_everywhere (execs p) (fds_closed ti))
        (set_timers (Timers (next_timer_id t) (timer_objects t) (delete timer_id (timer_infos t))
                       (Timer.id2_timer_info t) (armed t)) p)
  end.

(** ** Actions *)

Inductive action :=
  | ANewGroup (group : Z) (g : group_info)
  | ANewExecutor (kind : executor_kind) (shutdown_fd : option Z)
  | ARegisterCallback (topic : string) (sub_id : Z) (transient_local : bool) (eventfd group : Z)
  | AEraseCallback (id : Z)
  | ACloseEventfd (id : Z)
  | ACreateTimer (period group : Z) (c : clock_type) (a : register_answers)
  | AExpireTimer (timer_id : Z)
  | AUnregisterTimer (timer_id : Z)
  | ACancel (timer_id : Z)
  | AReset (timer_id : Z) (now : option Z) (ok : bool)
  | ASetPeriod (timer_id : Z) (now : option Z) (ok : bool) (period : Z)
  | APreJump (timer_id : Z) (now : option Z)
  | APostJump (timer_id : Z) (now : option Z) (change : clock_change_t)
  | ATake (i : nat)
  | APrepare (i : nat) (k : nat) (order : list Z) (ctl : Z -> bool)
  | AWait (i : nat) (w : wait_result)
  | AHandle (k : nat) (val now : option Z)
  | ARead (k : nat) (r : read_answer)
  | APop (i : nat)
  | ARunTimer (k : nat) (now : Z)
  | AFinish (k : nat) (ret_call_again : bool)
  | AAddGroup (i : nat) (group : Z)
  | ARemoveGroup (i : nat) (group : Z)
  | AAddNode (i : nat) (node : Z) (order : list Z)
  | ARemoveNode (i : nat) (node : Z)
  | ARclGroups (i : nat) (manual : gset Z) (auto : gmap Z Z)
  | ARclTake (group : Z)
  | ARclRelease (k : nat).

Definition upd_exec (i : nat) (f : exec_state -> exec_state) (p : process) : process :=
  set_execs (alter f i (execs p)) p.

(** The constructors: an update tracker, the slots of [EpollManager], and for [AgnocastOnlyExecutor]
    the shutdown event. *)
Definition new_executor (kind : executor_kind) (shutdown_fd : option Z) (p : process) : option process :=
  let '(d, tracker) := register_tracker (dispatch p) in
  let last := match kind with AgnocastOnly => EpollEventType_Shutdown | _ => EpollEventType_Dummy end in
  match new_epoll_manager true [Some EpollEventType_Subscription; Some EpollEventType_Timer;
                                Some EpollEventType_Clock; Some last] with
  | Returns e =>
      match kind, shutdown_fd with
      | AgnocastOnly, Some fd =>
          let '(e, _) := add_event true fd EpollEventType_Shutdown 0 e in
          Some (set_dispatch d (set_execs
            (execs p ++ [ExecState kind e tracker ∅ ∅ [] (Some fd) []]) p))
      | AgnocastOnly, None => None
      | _, _ =>
          Some (set_dispatch d (set_execs (execs p ++ [ExecState kind e tracker ∅ ∅ [] None []]) p))
      end
  | _ => None
  end.

(** [EpollManager::prepare_epoll] calls the handlers in the order of the event types; [AgnocastOnly]
    executors first take the groups of their nodes (stage -1). *)
Definition next_stage (k : nat) (stage : Z) (l : list Z) : list Z :=
  if stage <? 2 then <[k := stage + 1]> l else delete k l.

Definition prepare_stage (i k : nat) (stage : Z) (x : exec_state) (order : list Z) (ctl : Z -> bool)
    (p : process) : option process :=
  let done x := set_preparing (next_stage k stage (ex_preparing x)) x in
  if stage =? -1 then
    let '(gs, auto) := add_callback_groups_from_nodes (ex_nodes x) order (groups p) (ex_auto x) in
    Some (upd_exec i (fun x => done (set_associations (ex_manual x) auto (ex_nodes x) x))
            (set_groups gs (nodes_with_executor p) p))
  else if stage =? EpollEventType_Subscription then
    match prepare_loop (prepare_callback (validate (groups p) x) ctl) order
            (callback_table p, ex_loop x) with
    | Returns (c, e) =>
        Some (upd_exec i (fun x => done (set_loop e x)) (set_callbacks c (sub_fds p) p))
    | _ => None
    end
  else
    let body := if stage =? EpollEventType_Timer then prepare_timer else prepare_clock in
    match prepare_loop (body (validate (groups p) x) ctl) order (timer_table p, ex_loop x) with
    | Returns (t, e) => Some (upd_exec i (fun x => done (set_loop e x)) (set_timers t p))
    | _ => None
    end.

(** A handler called with the event [data] that executor [i] fetched. *)
Definition handle_event (i : nat) (data : Z) (val now : option Z) (p : process) : option process :=
  match wait_and_handle_epoll_event (WaitEvent data) with
  | Returns (Some (type, id)) =>
      if type =? EpollEventType_Subscription then
        match find_callback id (callback_table p) with
        | None => Some p
        | Some c => Some (set_fetched (fetched p) (handling p ++ [(i, (id, c))]) p)
        end
      else if (type =? EpollEventType_Timer) || (type =? EpollEventType_Clock) then
        match execs p !! i with
        | None => Some p
        | Some x =>
            match (if type =? EpollEventType_Timer then handle_timer id val
                   else handle_clock id val now) (timer_table p) (ex_loop x) with
            | Returns e => Some (upd_exec i (set_loop e) p)
            | Throws => Some p
            | Exits => None
            end
        end
      else Some p
  | Returns None => Some p
  | _ => None
  end.

(** [None]: the process called [exit].

    rclcpp does not exchange [can_be_taken_from]: it loads the flag when it looks for a ready entity and
    stores [false] later.  [ARclTake] is the store, which happens whatever the flag is by then; the load
    changes nothing and is no action. *)
Definition act (a : action) (p : process) : option process :=
  match a with
  | ANewGroup g gi =>
      Some (match groups p !! g with
            | None => set_groups (<[g := gi]> (groups p)) (nodes_with_executor p) p
            | Some _ => p
            end)
  | ANewExecutor kind fd => new_executor kind fd p
  | ARegisterCallback topic sub tl fd g =>
      match register_callback topic sub tl fd g (callback_table p) with
      | (c, Returns id) =>
          Some (set_dispatch (request_update_all (dispatch p))
                  (set_callbacks c (<[id := fd]> (sub_fds p)) p))
      | (c, _) => Some (set_callbacks c (sub_fds p) p)
      end
  | AEraseCallback id => Some (set_callbacks (erase_callback id (callback_table p)) (sub_fds p) p)
  | ACloseEventfd id =>
      match sub_fds p !! id, id2_callback_info (callback_table p) !! id with
      | Some fd, None =>
          Some (set_execs (close_everywhere fd (execs p))
                  (set_callbacks (callback_table p) (delete id (sub_fds p)) p))
      | _, _ => Some p
      end
  | ACreateTimer period g c ans =>
      match create_timer period g c ans (timer_table p) with
      | (t, Returns _) =>
          Some (set_dispatch (request_update_all (dispatch p)) (set_timers t p))
      | (t, _) => Some (set_timers t p)
      end
  | AExpireTimer tid =>
      let t := timer_table p in
      Some (set_timers (Timers (next_timer_id t) (delete tid (timer_objects t)) (timer_infos t)
                          (Timer.id2_timer_info t) (armed t)) p)
  | AUnregisterTimer tid =>
      match timer_objects (timer_table p) !! tid with
      | Some _ => Some p
      | None => Some (collect_timer tid (set_timers (unregister_timer_info tid (timer_table p)) p))
      end
  | ACancel tid =>
      match timer_objects (timer_table p) !! tid with
      | Some o => Some (set_timers (cancel tid o (timer_table p)) p)
      | None => Some p
      end
  | AReset tid now ok =>
      match timer_objects (timer_table p) !! tid with
      | Some o => Some (set_timers (reset now ok tid o (timer_table p)).1 p)
      | None => Some p
      end
  | ASetPeriod tid now ok period =>
      match timer_objects (timer_table p) !! tid with
      | Some _ => Some (set_timers (set_period now ok period tid (timer_table p)).1 p)
      | None => Some p
      end
  | APreJump tid now =>
      match timer_infos (timer_table p) !! tid with
      | Some ti => Some (set_timers (set_info tid (handle_pre_time_jump now ti) (timer_table p)) p)
      | None => Some p
      end
  | APostJump tid now change =>
      match timer_infos (timer_table p) !! tid with
      | Some ti =>
          let '(ti', effect) :=
            handle_post_time_jump now change (timer_objects (timer_table p) !! tid) ti in
          let p := set_timers (set_info tid ti' (timer_table p)) p in
          Some (if effect is ClosesTimerFd fd then set_execs (close_everywhere fd (execs p)) p else p)
      | None => Some p
      end
  | ATake i =>
      match execs p !! i with
      | None => Some p
      | Some x =>
          let '(d, b) := take_update_request (ex_tracker x) (dispatch p) in
          let stage := match ex_kind x with AgnocastOnly => -1 | _ => 0 end in
          Some (set_dispatch d
                  (if b then upd_exec i (fun x => set_preparing (ex_preparing x ++ [stage]) x) p else p))
      end
  | APrepare i k order ctl =>
      match execs p !! i with
      | None => Some p
      | Some x =>
          match ex_preparing x !! k with
          | None => Some p
          | Some stage => prepare_stage i k stage x order ctl p
          end
      end
  | AWait i w =>
      match execs p !! i, w with
      | None, _ => Some p
      | Some _, WaitEvent data => Some (set_fetched (fetched p ++ [(i, data)]) (handling p) p)
      | Some _, WaitTimeout => Some p
      | Some _, WaitFailed eintr => if eintr then Some p else None
      end
  | AHandle k val now =>
      match fetched p !! k with
      | None => Some p
      | Some (i, data) =>
          handle_event i data val now (set_fetched (delete k (fetched p)) (handling p) p)
      end
  | ARead k r =>
      match handling p !! k with
      | None => Some p
      | Some (i, (id, c)) =>
          let p := set_fetched (fetched p) (delete k (handling p)) p in
          match execs p !! i with
          | None => Some p
          | Some x =>
              match handle_callback id c r (ex_loop x) with
              | Returns e => Some (upd_exec i (set_loop e) p)
              | _ => None
              end
          end
      end
  | APop i =>
      match execs p !! i with
      | None => Some p
      | Some x =>
          let '(gs, r) := get_next_ready_agnocast_executable (knows_group x) (groups p)
                            (ready_agnocast_executables_ (ex_loop x)) in
          let p := set_groups gs (nodes_with_executor p) p in
          match r with
          | None => Some p
          | Some (it, rest) =>
              Some (set_running (running p ++ [(i, it)]) (rcl_running p)
                      (upd_exec i (set_loop (Executor (epoll_set (ex_loop x)) rest)) p))
          end
      end
  | ARunTimer k now =>
      match running p !! k with
      | Some (_, AgnocastExecutable (TimerTask tid) _) =>
          match timer_infos (timer_table p) !! tid with
          | Some ti =>
              let '(ti', _) := handle_timer_event (timer_objects (timer_table p) !! tid) now ti in
              Some (set_timers (set_info tid ti' (timer_table p)) p)
          | None => Some p
          end
      | _ => Some p
      end
  | AFinish k again =>
      match running p !! k with
      | None => Some p
      | Some (i, it) =>
          let p := set_groups (restore_group (exec_group it) (groups p)) (nodes_with_executor p)
                     (set_running (delete k (running p)) (rcl_running p) p) in
          match callable it with
          | ReceiveTask _ _ _ =>
              Some (upd_exec i (fun x => set_loop (reenqueue again it (ex_loop x)) x) p)
          | TimerTask tid => Some (collect_timer tid p)
          end
      end
  | AAddGroup i g =>
      match execs p !! i with
      | Some x =>
          match ex_kind x with
          | AgnocastOnly =>
              match add_callback_group g (groups p) x with
              | Some (gs, x') =>
                  Some (set_dispatch (request_update (ex_tracker x) (dispatch p))
                          (upd_exec i (fun _ => x') (set_groups gs (nodes_with_executor p) p)))
              | None => None
              end
          | _ => Some p
          end
      | None => Some p
      end
  | ARemoveGroup i g =>
      match execs p !! i with
      | Some x =>
          match ex_kind x with
          | AgnocastOnly =>
              match remove_callback_group g (groups p) x with
              | Some (gs, x') =>
                  Some (set_dispatch (request_update (ex_tracker x) (dispatch p))
                          (upd_exec i (fun _ => x') (set_groups gs (nodes_with_executor p) p)))
              | None => None
              end
          | _ => Some p
          end
      | None => Some p
      end
  | AAddNode i n order =>
      match execs p !! i with
      | Some x =>
          match ex_kind x with
          | AgnocastOnly =>
              match add_node n order (nodes_with_executor p) (groups p) x with
              | Some (ns, gs, x') =>
                  Some (set_dispatch (request_update (ex_tracker x) (dispatch p))
                          (upd_exec i (fun _ => x') (set_groups gs ns p)))
              | None => None
              end
          | _ => Some p
          end
      | None => Some p
      end
  | ARemoveNode i n =>
      match execs p !! i with
      | Some x =>
          match ex_kind x with
          | AgnocastOnly =>
              match remove_node n (nodes_with_executor p) (groups p) x with
              | Some (ns, gs, x') =>
                  Some (set_dispatch (request_update (ex_tracker x) (dispatch p))
                          (upd_exec i (fun _ => x') (set_groups gs ns p)))
              | None => None
              end
          | _ => Some p
          end
      | None => Some p
      end
  | ARclGroups i manual auto =>
      Some (upd_exec i (fun x => match ex_kind x with
                                 | AgnocastOnly => x
                                 | _ => set_associations manual auto (ex_nodes x) x
                                 end) p)
  | ARclTake g =>
      match groups p !! g with
      | Some gi =>
          let gs := if mutually_exclusive gi then <[g := set_can_be_taken false gi]> (groups p)
                    else groups p in
          Some (set_running (running p) (rcl_running p ++ [g]) (set_groups gs (nodes_with_executor p) p))
      | None => Some p
      end
  | ARclRelease k =>
      match rcl_running p !! k with
      | Some g =>
          Some (set_groups (restore_group g (groups p)) (nodes_with_executor p)
                  (set_running (running p) (delete k (rcl_running p)) p))
      | None => Some p
      end
  end.
