(* ===== verification/Watch.v ===== *)
(** * What the executors guarantee

    Runs of a process ([Executor.act]) and two invariants of them: callbacks of a mutually exclusive
    group never run together, and every subscription and timer an executor serves is watched by one
    epoll instance or is about to be. *)

From S2P Require Import Prelude.
From S2P Require Import Epoll.
From S2P Require Import Timer.
From S2P Require Import CallbackInfo.
From S2P Require Import Executor.

(** ** Runs *)

(** The event sources of a process and the descriptor each has. *)
Inductive source :=
  | SubSource (id : Z)
  | TimerSource (timer_id : Z)
  | ClockSource (timer_id : Z)
  | ShutdownSource (i : nat).

#[export] Instance source_eq_dec : EqDecision source.
Proof. solve_decision. Defined.

Definition fd_of (p : process) (s : source) : option Z :=
  match s with
  | SubSource id => sub_fds p !! id
  | TimerSource tid => timer_infos (timer_table p) !! tid ≫= timer_fd
  | ClockSource tid => timer_infos (timer_table p) !! tid ≫= clock_eventfd
  | ShutdownSource i => execs p !! i ≫= ex_shutdown_fd
  end.

Definition fresh_fd (p : process) (fd : Z) : Prop := forall s, fd_of p s <> Some fd.

(** What the environment grants: new descriptors are not open already, the counters of ids and
    trackers have not wrapped, a group starts untaken, the loops over a table visit every entry, and
    [epoll_wait] returns the datum of a registered descriptor. *)
Definition allowed (p : process) (a : action) : Prop :=
  match a with
  | ANewGroup _ g => can_be_taken_from g = true
  | ANewExecutor _ fd =>
      next_tracker_id_ (dispatch p) + 1 < 2 ^ 64 /\ (forall n, fd = Some n -> fresh_fd p n)
  | ARegisterCallback _ _ _ fd _ =>
      fresh_fd p fd /\ next_callback_info_id (callback_table p) + 1 < 2 ^ 32
  | ACreateTimer _ _ _ ans =>
      next_timer_id (timer_table p) + 1 < 2 ^ 32 /\
      (forall fd, a_eventfd ans = Some fd -> fresh_fd p fd) /\
      (forall fd, a_timerfd ans = Some fd -> fresh_fd p fd) /\
      (a_eventfd ans = None \/ a_eventfd ans <> a_timerfd ans)
  | APrepare i k order _ =>
      (forall id, is_Some (id2_callback_info (callback_table p) !! id) -> id ∈ order) /\
      (forall tid, tid ∈ Timer.id2_timer_info (timer_table p) -> tid ∈ order)
  | AWait i (WaitEvent data) =>
      exists x fd, execs p !! i = Some x /\ (fd, data) ∈ epoll_set (ex_loop x)
  | _ => True
  end.

Definition new_process : process :=
  Process (Timers 0 ∅ ∅ ∅ ∅) (Callbacks 0 ∅) ∅ (Dispatcher 1 ∅) [] ∅ ∅ [] [] [] [].

Inductive reachable : process -> Prop :=
  | reach_new : reachable new_process
  | reach_act p a p' : reachable p -> allowed p a -> act a p = Some p' -> reachable p'.

(** What rclcpp's load of the flag saw still holds at its store: nobody took the group in between.  An
    executor with one thread loads, stores and runs its Agnocast tasks one after the other, and
    [validate_multi] refuses mutually exclusive groups that have ROS 2 entities; that a group is in one
    executor only is rclcpp's rule. *)
Definition rcl_undisturbed (p : process) (a : action) : Prop :=
  match a with
  | ARclTake g => forall gi, groups p !! g = Some gi -> mutually_exclusive gi = true ->
                    can_be_taken_from gi = true
  | _ => True
  end.

Inductive reachable_undisturbed : process -> Prop :=
  | undisturbed_new : reachable_undisturbed new_process
  | undisturbed_act p a p' : reachable_undisturbed p -> allowed p a -> rcl_undisturbed p a ->
      act a p = Some p' -> reachable_undisturbed p'.

(** ** Mutually exclusive groups *)

Definition running_of (g : Z) (p : process) : nat :=
  (length (filter (fun r => exec_group r.2 = g) (running p)) +
   length (filter (fun h => h = g) (rcl_running p)))%nat.

Definition group_flags (g : group_info) : bool * bool := (mutually_exclusive g, can_be_taken_from g).

Definition same_flags (gs gs' : gmap Z group_info) : Prop :=
  forall g, group_flags <$> gs' !! g = group_flags <$> gs !! g.

(** [running_of] tasks agree with the flag of every mutually exclusive group. *)
Definition flag_ok (n : nat) (f : option (bool * bool)) : Prop :=
  match f with
  | None => n = 0%nat
  | Some (true, can) => n = if can then 0%nat else 1%nat
  | Some (false, _) => True
  end.

Definition exclusive (p : process) : Prop :=
  forall g, flag_ok (running_of g p) (group_flags <$> groups p !! g).

Lemma same_flags_refl gs : same_flags gs gs.
Proof. by intros g. Qed.

Lemma same_flags_trans g1 g2 g3 : same_flags g1 g2 -> same_flags g2 g3 -> same_flags g1 g3.
Proof. intros H1 H2 g. by rw H2. Qed.

Lemma same_flags_alter (f : group_info -> group_info) g gs :
  (forall x, group_flags (f x) = group_flags x) -> same_flags gs (alter f g gs).
Proof.
  intros Hf h. destruct (decide (h = g)) as [-> |].
  - rw lookup_alter_eq. destruct (gs !! g); simpl; [by rw Hf|done].
  - by rw lookup_alter_ne.
Qed.

Lemma same_flags_insert g gi gi' gs :
  gs !! g = Some gi -> group_flags gi' = group_flags gi -> same_flags gs (<[g := gi']> gs).
Proof.
  intros Hg Hf h. destruct (decide (h = g)) as [-> |].
  - by rw lookup_insert_eq Hg /= Hf.
  - by rw lookup_insert_ne.
Qed.

Lemma add_groups_flags n order gs auto : same_flags gs (add_groups_of_node n order gs auto).1.
Proof.
  revert gs auto. induction order as [|g rest IH]; intros gs auto; simpl; [apply same_flags_refl|].
  destruct (gs !! g) as [gi|] eqn:Hg; [|apply IH].
  destruct (_ && _); [|apply IH].
  destruct (associated_with_executor gi); (eapply same_flags_trans; [|apply IH]);
    by eapply same_flags_insert.
Qed.

Lemma add_callback_groups_flags ns order gs auto :
  same_flags gs (add_callback_groups_from_nodes ns order gs auto).1.
Proof.
  revert gs auto. induction ns as [|n ns IH]; intros gs auto; simpl; [apply same_flags_refl|].
  pose proof (add_groups_flags n order gs auto) as Hf.
  destruct (add_groups_of_node n order gs auto) as [gs' auto']. simpl in Hf.
  eapply same_flags_trans; [exact Hf|apply IH].
Qed.

Lemma exclusive_frame p p' :
  running p' = running p -> rcl_running p' = rcl_running p -> same_flags (groups p) (groups p') ->
  exclusive p -> exclusive p'.
Proof. intros H1 H2 Hf H g. unfold running_of. rw H1 H2 Hf. apply H. Qed.

(** What taking the next task leaves: the queue without it, and its group marked. *)
Lemma get_next_ready_spec known gs ready gs' r :
  get_next_ready_agnocast_executable known gs ready = (gs', r) ->
  match r with
  | None => same_flags gs gs'
  | Some (it, rest) =>
      known (exec_group it) = true /\ (exists l1 l2, ready = l1 ++ it :: l2 /\ rest = l1 ++ l2) /\
      (forall h, h <> exec_group it -> group_flags <$> gs' !! h = group_flags <$> gs !! h) /\
      exists g, gs !! exec_group it = Some g /\
        if mutually_exclusive g then can_be_taken_from g = true /\
          group_flags <$> gs' !! exec_group it = Some (true, false)
        else group_flags <$> gs' !! exec_group it = Some (group_flags g)
  end.
Proof.
  revert gs gs' r. induction ready as [|it rest IH]; intros gs gs' r; simpl.
  { intros [= <- <-]. apply same_flags_refl. }
  assert (forall gs1, same_flags gs gs1 ->
    (let '(gs, r) := get_next_ready_agnocast_executable known gs1 rest in
     (gs, (fun xr : executable * list executable => (xr.1, it :: xr.2)) <$> r)) = (gs', r) ->
    match r with
    | None => same_flags gs gs'
    | Some (it0, rest0) =>
      known (exec_group it0) = true /\
      (exists l1 l2, it :: rest = l1 ++ it0 :: l2 /\ rest0 = l1 ++ l2) /\
      (forall h, h <> exec_group it0 -> group_flags <$> gs' !! h = group_flags <$> gs !! h) /\
      exists g, gs !! exec_group it0 = Some g /\
        if mutually_exclusive g then can_be_taken_from g = true /\
          group_flags <$> gs' !! exec_group it0 = Some (true, false)
        else group_flags <$> gs' !! exec_group it0 = Some (group_flags g)
    end) as Hskip.
  { intros gs1 Hf. destruct (get_next_ready_agnocast_executable known gs1 rest) as [gs2 r2] eqn:E.
    intros [= <- <-]. apply IH in E. destruct r2 as [[it0 rest0]|]; simpl.
    - destruct E as (Hk & (l1 & l2 & -> & ->) & Hother & g & Hg & Hflags). split; [done|].
      split; [by exists (it :: l1), l2|]. split; [intros h Hh; by rw Hother // Hf|].
      pose proof (Hf (exec_group it0)) as Hfg. rw Hg in Hfg.
      destruct (gs !! exec_group it0) as [g0|] eqn:Hg0; [|done]. exists g0. split; [done|].
      injection Hfg as Hm Hc. rw -Hm. destruct (mutually_exclusive g) eqn:?; [by rw -Hc|].
      rw Hflags. unfold group_flags. congruence.
    - by eapply same_flags_trans. }
  destruct (known (exec_group it)) eqn:Hk; simpl; [|apply Hskip, same_flags_refl].
  destruct (gs !! exec_group it) as [g|] eqn:Hg; [|apply Hskip, same_flags_refl].
  destruct (mutually_exclusive g) eqn:Hm.
  - destruct (can_be_taken_from g) eqn:Hc; simpl.
    + intros [= <- <-]. split; [done|]. split; [by exists [], rest|].
      split; [intros h Hh; by rw lookup_insert_ne|]. exists g. split; [done|]. rw Hm.
      split; [done|]. rw lookup_insert_eq /=. unfold group_flags; simpl. by rw Hm.
    + apply Hskip. eapply same_flags_insert; [done|]. unfold group_flags; simpl. by rw Hc.
  - intros [= <- <-]. split; [done|]. split; [by exists [], rest|]. split; [done|].
    exists g. split; [done|]. by rw Hm Hg.
Qed.

Lemma length_filter_delete {A} (P : A -> Prop) `{!forall x, Decision (P x)} l k x :
  l !! k = Some x ->
  length (filter P l) = ((if decide (P x) then 1 else 0) + length (filter P (delete k l)))%nat.
Proof.
  intros Hk. rw (Permutation_length (filter_Permutation P _ _ (delete_Permutation _ _ _ Hk))).
  rw filter_cons. by destruct (decide (P x)).
Qed.

Lemma length_filter_snoc {A} (P : A -> Prop) `{!forall x, Decision (P x)} l x :
  length (filter P (l ++ [x])) = (length (filter P l) + (if decide (P x) then 1 else 0))%nat.
Proof.
  rw filter_app length_app filter_cons filter_nil. by destruct (decide (P x)).
Qed.

(** What most actions leave alone: the tasks that run and the flags of the groups. *)
Definition same_running (p p' : process) : Prop :=
  running p' = running p /\ rcl_running p' = rcl_running p /\ same_flags (groups p) (groups p').

Ltac same_run := split_and!; [done|done|apply same_flags_refl].

Lemma collect_timer_running tid p : same_running p (collect_timer tid p).
Proof.
  unfold collect_timer. destruct (_ !! tid); [|same_run].
  destruct (negb _); same_run.
Qed.

Lemma prepare_stage_running i k stage x order ctl p p' :
  prepare_stage i k stage x order ctl p = Some p' -> same_running p p'.
Proof.
  unfold prepare_stage. destruct (stage =? -1).
  { pose proof (add_callback_groups_flags (ex_nodes x) order (groups p) (ex_auto x)) as Hf.
    destruct (add_callback_groups_from_nodes _ _ _ _) as [gs auto]. intros [= <-].
    split_and!; done. }
  destruct (stage =? _); [|destruct (stage =? EpollEventType_Timer)];
    (destruct (prepare_loop _ _ _) as [[? ?]| |]; [|done..]); intros [= <-];
    same_run.
Qed.

Lemma handle_event_running i data val now p p' :
  handle_event i data val now p = Some p' -> same_running p p'.
Proof.
  unfold handle_event. intros H. repeat case_match; simplify_eq; same_run.
Qed.

Lemma remove_node_flags n ns gs x ns' gs' x' :
  remove_node n ns gs x = Some (ns', gs', x') -> same_flags gs gs'.
Proof.
  unfold remove_node. destruct (bool_decide (n ∈ ns)); [|done].
  destruct (bool_decide (n ∈ _)); [|done]. intros [= <- <- <-] g.
  rw map_lookup_imap. destruct (gs !! g); simpl; [|done]. by case_match.
Qed.

Lemma add_node_flags n order ns gs x ns' gs' x' :
  add_node n order ns gs x = Some (ns', gs', x') -> same_flags gs gs'.
Proof.
  unfold add_node. destruct (bool_decide _); [|done].
  pose proof (add_groups_flags n order gs (ex_auto x)) as Hf.
  destruct (add_groups_of_node _ _ _ _). by intros [= <- <- <-].
Qed.

Lemma add_callback_group_flags g gs x gs' x' :
  add_callback_group g gs x = Some (gs', x') -> same_flags gs gs'.
Proof.
  unfold add_callback_group. destruct (gs !! g) as [gi|] eqn:Hg; [|done].
  destruct (negb _); [|done]. destruct (bool_decide _); [|done]. intros [= <- <-].
  by eapply same_flags_insert.
Qed.

Lemma remove_callback_group_flags g gs x gs' x' :
  remove_callback_group g gs x = Some (gs', x') -> same_flags gs gs'.
Proof.
  unfold remove_callback_group. destruct (bool_decide _); [|done]. intros [= <- <-].
  by apply same_flags_alter.
Qed.

Definition touches_running (a : action) : bool :=
  match a with
  | APop _ | AFinish _ _ | ARclTake _ | ARclRelease _ | ANewGroup _ _ => true
  | _ => false
  end.

Lemma act_same_running a p p' :
  touches_running a = false -> act a p = Some p' -> same_running p p'.
Proof.
  intros Ht. destruct a; try done; unfold act; intros Ha;
    repeat case_match; simplify_eq; try same_run;
    try (by eapply prepare_stage_running); try apply collect_timer_running;
    try (split_and!; [done|done|]; simpl;
         by eauto using add_callback_group_flags, remove_callback_group_flags, add_node_flags,
                        remove_node_flags).
  - unfold new_executor in Ha. repeat case_match; simplify_eq; same_run.
  - apply (collect_timer_running _ (set_timers _ p)).
  - apply handle_event_running in Ha as (? & ? & ?). done.
Qed.

Lemma running_of_snoc g p i it :
  running_of g (set_running (running p ++ [(i, it)]) (rcl_running p) p) =
  (running_of g p + (if decide (exec_group it = g) then 1 else 0))%nat.
Proof. unfold running_of; simpl. rw length_filter_snoc /=. lia. Qed.

(** Restoring the group of a task that ends. *)
Lemma restore_group_flags h gs g n n' :
  flag_ok n (group_flags <$> gs !! g) ->
  (g = h -> n = S n') -> (g <> h -> n = n') ->
  flag_ok n' (group_flags <$> restore_group h gs !! g).
Proof.
  intros Hok He Hne. unfold restore_group. destruct (decide (g = h)) as [-> |Hn].
  - rw lookup_alter_eq. rw He in Hok; [|done]. destruct (gs !! h) as [gi|]; simpl in *; [|lia].
    unfold group_flags in *. destruct gi as [[] [] ? ? ? ?]; simpl in *; lia || done.
  - rw lookup_alter_ne; [|done]. by rw -Hne.
Qed.

Lemma exclusive_act a p p' :
  allowed p a -> rcl_undisturbed p a -> act a p = Some p' -> exclusive p -> exclusive p'.
Proof.
  intros Hal Hund Ha Hex. destruct (touches_running a) eqn:Ht.
  2: { destruct (act_same_running a p p' Ht Ha) as (? & ? & ?). by eapply exclusive_frame. }
  destruct a; try done; simpl in Ha; simpl in Hal; simpl in Hund.
  - simplify_eq. destruct (groups p !! group) eqn:Hg; [done|]. intros h. simpl.
    pose proof (Hex h) as Hh. destruct (decide (h = group)) as [-> |].
    + rw lookup_insert_eq. rw Hg in Hh. simpl in Hh. unfold flag_ok, group_flags; simpl.
      rw Hal. unfold running_of in *; simpl. by destruct (mutually_exclusive g).
    + by rw lookup_insert_ne.
  - destruct (execs p !! i) as [x|]; [|by simplify_eq].
    destruct (get_next_ready_agnocast_executable _ _ _) as [gs r] eqn:E.
    apply get_next_ready_spec in E. destruct r as [[it rest]|]; simplify_eq.
    2: { intros h. rw E. apply Hex. }
    destruct E as (_ & _ & Hother & g & Hg & Hf). intros h. pose proof (Hex h) as Hh.
    rw running_of_snoc. simpl. change (running_of h (upd_exec _ _ _)) with (running_of h p).
    destruct (decide (exec_group it = h)) as [<-|Hne].
    + rw Hg in Hh. simpl in Hh. unfold group_flags in Hh. simpl in Hh.
      destruct (mutually_exclusive g) eqn:Hm.
      * destruct Hf as [Hc ->]. rw Hc in Hh. simpl. lia.
      * rw Hf. unfold group_flags; simpl. by rw Hm.
    + rw Hother; [|done]. by rw Nat.add_0_r.
  - destruct (running p !! k) as [[i it]|] eqn:Hk; [|by simplify_eq].
    assert (exclusive (set_groups (restore_group (exec_group it) (groups p)) (nodes_with_executor p)
              (set_running (delete k (running p)) (rcl_running p) p))) as Hgoal.
    { intros h. simpl. eapply restore_group_flags; [apply Hex|..]; unfold running_of; simpl;
        rw (length_filter_delete _ (running p) k (i, it) Hk) /=; intros Hh;
        destruct (decide _); try lia; naive_solver. }
    destruct (callable it); simplify_eq; [done|].
    destruct (collect_timer_running timer_id (set_groups (restore_group (exec_group it) (groups p))
      (nodes_with_executor p) (set_running (delete k (running p)) (rcl_running p) p))) as (? & ? & ?).
    by eapply exclusive_frame.
  - destruct (groups p !! group) as [gi|] eqn:Hg; [|by simplify_eq].
    intros h. pose proof (Hex h) as Hh.
    unfold running_of in *; simplify_eq; simpl. rw length_filter_snoc /=.
    destruct (mutually_exclusive gi) eqn:Hm.
    + specialize (Hund gi eq_refl Hm). destruct (decide (h = group)) as [-> |].
      * rw Hg /= in Hh. unfold group_flags in Hh. rw Hm Hund in Hh. simpl in Hh.
        rw lookup_insert_eq /=. rw decide_True; [|done]. rw Hm /=. lia.
      * rw lookup_insert_ne; [|done]. rw decide_False; [|done]. by rw Nat.add_0_r.
    + destruct (decide (h = group)) as [-> |].
      * rw Hg /=. unfold group_flags; simpl. by rw Hm.
      * rw decide_False; [|done]. by rw Nat.add_0_r.
  - destruct (rcl_running p !! k) as [g|] eqn:Hk; [|by simplify_eq]. simplify_eq.
    intros h. simpl. eapply restore_group_flags; [apply Hex|..]; unfold running_of; simpl;
      rw (length_filter_delete _ (rcl_running p) k g Hk) /=; intros Hh;
      destruct (decide _); try lia; naive_solver.
Qed.

(** ** Watched descriptors: specification *)

(** Whether the descriptor of a source still has to be added to an epoll instance, and the callback
    group of the source. *)
Definition watch (p : process) (s : source) : option (bool * Z) :=
  match s with
  | SubSource id =>
      (fun c => (cb_need_epoll_update c, cb_callback_group c))
        <$> id2_callback_info (callback_table p) !! id
  | TimerSource tid =>
      (fun ti => (timer_fd_need_update ti, callback_group ti)) <$> timer_infos (timer_table p) !! tid
  | ClockSource tid =>
      (fun ti => (clock_eventfd_need_update ti, callback_group ti))
        <$> timer_infos (timer_table p) !! tid
  | ShutdownSource _ => None
  end.

(** The source is in use: a subscription is until it is erased, a timer while its object exists. *)
Definition live (p : process) (s : source) : Prop :=
  match s with
  | SubSource _ => True
  | TimerSource tid | ClockSource tid =>
      tid ∈ Timer.id2_timer_info (timer_table p) /\ is_Some (timer_objects (timer_table p) !! tid)
  | ShutdownSource _ => False
  end.

Definition stage_of (s : source) : Z :=
  match s with
  | SubSource _ => EpollEventType_Subscription
  | TimerSource _ => EpollEventType_Timer
  | ClockSource _ => EpollEventType_Clock
  | ShutdownSource _ => EpollEventType_Shutdown
  end.

Definition datum (s : source) : Z :=
  pack_epoll_data (stage_of s)
    (match s with
     | SubSource id => id
     | TimerSource tid | ClockSource tid => tid
     | ShutdownSource _ => 0
     end).

Definition regs_of (l : list exec_state) : list (Z * Z) := l ≫= (fun x => epoll_set (ex_loop x)).
Definition regs (p : process) : list (Z * Z) := regs_of (execs p).

(** An executor wants a group when its validation does not refuse it. *)
Definition wants (gs : gmap Z group_info) (x : exec_state) (g : Z) : Prop :=
  validate gs x g <> Returns false.

(** Every open descriptor is in one epoll instance at most, with the datum that leads back to its
    source, and is there unless it still has to be added. *)
Record watched (p : process) : Prop := {
  w_unique : forall s1 s2 fd, fd_of p s1 = Some fd -> fd_of p s2 = Some fd -> s1 = s2;
  w_once : NoDup (regs p).*1;
  w_reg : forall fd d, (fd, d) ∈ regs p ->
    exists s, fd_of p s = Some fd /\ d = datum s /\ forall w g, watch p s = Some (w, g) -> w = false;
  w_in : forall s fd g, fd_of p s = Some fd -> watch p s = Some (false, g) -> fd ∈ (regs p).*1
}.

(** The tables agree. *)
Record tables_ok (p : process) : Prop := {
  t_sub : forall id c, id2_callback_info (callback_table p) !! id = Some c ->
    sub_fds p !! id = Some (notify_eventfd c);
  t_sub_ids : forall id, is_Some (sub_fds p !! id) -> 0 <= id < next_callback_info_id (callback_table p);
  t_need : forall tid ti, timer_infos (timer_table p) !! tid = Some ti ->
    need_epoll_update ti = timer_fd_need_update ti || clock_eventfd_need_update ti;
  t_timer_ids : forall tid, is_Some (timer_infos (timer_table p) !! tid) ->
    0 <= tid < next_timer_id (timer_table p);
  t_table : forall tid, tid ∈ Timer.id2_timer_info (timer_table p) ->
    is_Some (timer_infos (timer_table p) !! tid);
  t_next : 0 <= next_callback_info_id (callback_table p) < 2 ^ 32 /\
           0 <= next_timer_id (timer_table p) < 2 ^ 32
}.

Record trackers_ok (p : process) : Prop := {
  k_nodup : NoDup (ex_tracker <$> execs p);
  k_known : forall i x, execs p !! i = Some x -> is_Some (trackers_ (dispatch p) !! ex_tracker x);
  k_next : forall k, is_Some (trackers_ (dispatch p) !! k) -> 0 <= k < next_tracker_id_ (dispatch p);
  k_bound : 0 <= next_tracker_id_ (dispatch p) < 2 ^ 64;
  k_stages : forall i x st, execs p !! i = Some x -> st ∈ ex_preparing x -> -1 <= st <= 2
}.

(** An executor that wants a live source that is not watched yet has been asked to prepare, or one of
    its threads has still to visit the table of that source. *)
Definition requested (p : process) : Prop :=
  forall i x s fd g, execs p !! i = Some x -> fd_of p s = Some fd -> watch p s = Some (true, g) ->
    live p s -> wants (groups p) x g ->
    trackers_ (dispatch p) !! ex_tracker x = Some true \/
    exists st, st ∈ ex_preparing x /\ st <= stage_of s.

(** ** Watched descriptors: what actions do to them *)

(** A step that closes the descriptors [closed], may forget sources and may open fresh descriptors
    that still have to be added. *)
Lemma watched_less p p' (closed : list Z) :
  watched p ->
  (forall s fd, fd_of p' s = Some fd ->
     (fd_of p s = Some fd /\ ~ (fd ∈ closed) /\ (watch p' s = watch p s \/ watch p' s = None)) \/
     (fresh_fd p fd /\ exists g, watch p' s = Some (true, g))) ->
  (forall s1 s2 fd, fresh_fd p fd -> fd_of p' s1 = Some fd -> fd_of p' s2 = Some fd -> s1 = s2) ->
  (forall s fd, fd_of p s = Some fd -> ~ (fd ∈ closed) -> fd_of p' s = Some fd) ->
  regs p' = filter (fun r => r.1 ∉ closed) (regs p) ->
  watched p'.
Proof.
  intros [Hu Ho Hr Hi] Hold Hnew Hkeep Hregs. split.
  - intros s1 s2 fd H1 H2. destruct (Hold _ _ H1) as [(H1' & _)|(Hf & _)].
    + destruct (Hold _ _ H2) as [(H2' & _)|(Hf & _)]; [by eapply Hu|by apply Hf in H1'].
    + by eapply Hnew.
  - rw Hregs. eapply sublist_NoDup; [exact Ho|]. apply fmap_sublist, sublist_filter.
  - intros fd d. rw Hregs list_elem_of_filter /=. intros [Hc Hin].
    destruct (Hr _ _ Hin) as (s & Hs & Hd & Hw). exists s.
    pose proof (Hkeep _ _ Hs Hc) as Hs'. split; [done|]. split; [done|]. intros w g Hwg.
    destruct (Hold _ _ Hs') as [(_ & _ & [He|He])|(Hf & _)].
    + rw He in Hwg. by eapply Hw.
    + by rw He in Hwg.
    + by apply Hf in Hs.
  - intros s fd g Hs Hw. destruct (Hold _ _ Hs) as [(Hs' & Hc & [He|He])|(_ & g' & He)].
    + rw He in Hw. pose proof (Hi _ _ _ Hs' Hw) as Hin.
      apply list_elem_of_fmap in Hin as ([fd' d] & -> & Hin). apply list_elem_of_fmap.
      exists (fd', d). split; [done|]. rw Hregs. by apply list_elem_of_filter.
    + by rw He in Hw.
    + by rw He in Hw.
Qed.

(** The frame: descriptors and registrations stay, sources may only be forgotten. *)
Lemma watched_frame p p' :
  watched p -> (forall s, fd_of p' s = fd_of p s) ->
  (forall s, watch p' s = watch p s \/ watch p' s = None) ->
  regs p' = regs p -> watched p'.
Proof.
  intros Hw Hf Hwatch Hregs. apply (watched_less p p' []); [done|..].
  - intros s fd. rw Hf. intros Hs. left. split; [done|]. split; [apply not_elem_of_nil|done].
  - intros s1 s2 fd Hfr. rw Hf. intros Hs. by apply Hfr in Hs.
  - intros s fd Hs _. by rw Hf.
  - rw Hregs. symmetry. apply list_filter_all. intros r _. apply not_elem_of_nil.
Qed.

(** The descriptor of one source is added to an epoll instance. *)
Lemma watched_add p p' s0 fd g :
  watched p -> (forall s, fd_of p' s = fd_of p s) ->
  fd_of p s0 = Some fd -> watch p s0 = Some (true, g) -> watch p' s0 = Some (false, g) ->
  (forall s, s <> s0 -> watch p' s = watch p s) ->
  regs p' ≡ₚ (fd, datum s0) :: regs p -> watched p'.
Proof.
  intros [Hu Ho Hr Hi] Hf H0 Hw0 Hw0' Hother Hregs.
  assert (~ (fd ∈ (regs p).*1)) as Hnin.
  { intros ([fd' d] & E & Hin)%list_elem_of_fmap. simpl in E. subst fd'.
    destruct (Hr _ _ Hin) as (s & Hs & _ & Hw). rw (Hu _ _ _ Hs H0) in Hw.
    by apply Hw in Hw0. }
  split.
  - intros s1 s2 fd'. rw !Hf. apply Hu.
  - rw Hregs /=. by constructor.
  - intros fd' d. rw Hregs. intros [E|Hin]%elem_of_cons.
    + injection E as -> ->. exists s0. rw Hf. split; [done|]. split; [done|].
      intros w g'. rw Hw0'. by intros [= <- _].
    + destruct (Hr _ _ Hin) as (s & Hs & Hd & Hw). exists s. rw Hf. split; [done|].
      split; [done|]. intros w g' Hwg. destruct (decide (s = s0)) as [-> |Hne].
      * rw Hw0' in Hwg. by injection Hwg.
      * rw Hother in Hwg; [by eapply Hw|done].
  - intros s fd' g'. rw Hf. intros Hs Hwg. rw Hregs /=. apply elem_of_cons.
    destruct (decide (s = s0)) as [-> |Hne]; [left; congruence|right].
    rw Hother in Hwg; [|done]. by eapply Hi.
Qed.

(** ** Preparing an epoll instance *)

Lemma prepare_loop_ind {A} (body : Z -> A -> ending A) (Inv : A -> Prop) (Done : Z -> A -> Prop) :
  (forall x a b, Inv a -> body x a = Returns b ->
     Inv b /\ Done x b /\ forall y, Done y a -> Done y b) ->
  forall order a b, Inv a -> prepare_loop body order a = Returns b ->
  Inv b /\ (forall x, x ∈ order -> Done x b) /\ (forall y, Done y a -> Done y b).
Proof.
  intros Hbody. induction order as [|x rest IH]; intros a b Ha; simpl.
  { intros [= <-]. split; [done|]. split; [|done]. intros y Hy. by apply elem_of_nil in Hy. }
  destruct (body x a) as [a1| |] eqn:E; [|done..]. intros Hb.
  destruct (Hbody _ _ _ Ha E) as (Ha1 & Hx & Hmono).
  destruct (IH _ _ Ha1 Hb) as (Hb' & Hall & Hmono'). split; [done|]. split; [|by auto].
  intros y [-> |Hy]%elem_of_cons; auto.
Qed.

Lemma regs_upd l i x :
  l !! i = Some x ->
  exists rest, forall f, regs_of (alter f i l) ≡ₚ epoll_set (ex_loop (f x)) ++ rest.
Proof.
  intros Hx. destruct (list_elem_of_split_length _ _ _ Hx) as (l1 & l2 & -> & Hi).
  exists (regs_of l1 ++ regs_of l2). intros f. subst i.
  replace (alter f (length l1) (l1 ++ x :: l2)) with (l1 ++ f x :: l2).
  2: { by rw alter_app_r_alt // Nat.sub_diag. }
  unfold regs_of. rw bind_app bind_cons. by rw Permutation_app_swap_app.
Qed.

Lemma alter_loop_id (l : list exec_state) i x :
  l !! i = Some x -> alter (set_loop (ex_loop x)) i l = l.
Proof.
  intros Hx. apply list_eq. intros j. destruct (decide (i = j)) as [-> |].
  - rw list_lookup_alter_eq Hx. by destruct x.
  - by rw list_lookup_alter_ne.
Qed.

Lemma alter_loop_twice (l : list exec_state) i e e' :
  alter (set_loop e') i (alter (set_loop e) i l) = alter (set_loop e') i l.
Proof. rw list_alter_alter_eq. by apply list_alter_ext. Qed.

Lemma fd_of_execs p p' s :
  sub_fds p' = sub_fds p ->
  (forall tid, (timer_infos (timer_table p') !! tid ≫= timer_fd) =
     (timer_infos (timer_table p) !! tid ≫= timer_fd)) ->
  (forall tid, (timer_infos (timer_table p') !! tid ≫= clock_eventfd) =
     (timer_infos (timer_table p) !! tid ≫= clock_eventfd)) ->
  (forall i, (execs p' !! i ≫= ex_shutdown_fd) = (execs p !! i ≫= ex_shutdown_fd)) ->
  fd_of p' s = fd_of p s.
Proof. intros H1 H2 H3 H4. destruct s; simpl; [by rw H1|done..]. Qed.

Lemma shutdown_fd_alter f (l : list exec_state) i j :
  (forall x, ex_shutdown_fd (f x) = ex_shutdown_fd x) ->
  (alter f i l !! j ≫= ex_shutdown_fd) = (l !! j ≫= ex_shutdown_fd).
Proof.
  intros Hf. destruct (decide (i = j)) as [-> |].
  - rw list_lookup_alter_eq. destruct (l !! j); simpl; [by apply Hf|done].
  - by rw list_lookup_alter_ne.
Qed.

(** A process whose executor [i] and whose callbacks, or timers, are inside a loop. *)
Definition with_callbacks (i : nat) (p : process) (st : callbacks * executor) : process :=
  upd_exec i (set_loop st.2) (set_callbacks st.1 (sub_fds p) p).
Definition with_timers (i : nat) (p : process) (st : timers * executor) : process :=
  upd_exec i (set_loop st.2) (set_timers st.1 p).

Lemma fd_of_with_callbacks i p st s : fd_of (with_callbacks i p st) s = fd_of p s.
Proof. apply fd_of_execs; [done..|]. intros j. by apply shutdown_fd_alter. Qed.

Record preparing_inv (p q : process) : Prop := {
  pi_watched : watched q;
  pi_tables : tables_ok q;
  pi_waits : forall s g, watch q s = Some (true, g) -> watch p s = Some (true, g);
  pi_fds : forall s, fd_of q s = fd_of p s;
  pi_live : forall s, live q s <-> live p s
}.

Lemma with_callbacks_step v ctl i p id st st' x :
  execs p !! i = Some x ->
  preparing_inv p (with_callbacks i p st) -> prepare_callback v ctl id st = Returns st' ->
  preparing_inv p (with_callbacks i p st') /\
  (forall g, watch (with_callbacks i p st') (SubSource id) = Some (true, g) -> v g = Returns false) /\
  forall id' (Q : Z -> Prop),
    (forall g, watch (with_callbacks i p st) (SubSource id') = Some (true, g) -> Q g) ->
    forall g, watch (with_callbacks i p st') (SubSource id') = Some (true, g) -> Q g.
Proof.
  intros Hx [Hw Ht Hwaits Hfds Hlive]. destruct st as [c e]. unfold prepare_callback.
  destruct (id2_callback_info c !! id) as [ci|] eqn:Hc.
  2: { intros [= <-]. split; [done|]. split; [|done]. simpl. by rw Hc. }
  destruct (cb_need_epoll_update ci) eqn:Hn.
  2: { intros [= <-]. split; [done|]. split; [|done]. simpl. rw Hc /=. intros g. by rw Hn. }
  destruct (v (cb_callback_group ci)) as [[]| |] eqn:Hv; [|intros [= <-]|done..].
  2: { split; [done|]. split; [|done]. simpl. rw Hc /=. by intros g [= _ <-]. }
  destruct (ctl (notify_eventfd ci)); [|done]. intros [= <-].
  set (e1 := if is_transient_local ci then _ else _).
  assert (epoll_set e1 = epoll_set e ++ [(notify_eventfd ci, datum (SubSource id))]) as He1.
  { subst e1. by destruct (is_transient_local ci). }
  set (c1 := Callbacks _ _).
  assert (forall id', id' <> id ->
    id2_callback_info c1 !! id' = id2_callback_info c !! id') as Hother.
  { intros id' Hne. subst c1; simpl. by rw lookup_insert_ne. }
  assert (forall s, watch (with_callbacks i p (c1, e1)) s = watch (with_callbacks i p (c, e)) s \/
            s = SubSource id) as Hwatch.
  { intros [id'|tid|tid|j]; [|by left..]. destruct (decide (id' = id)) as [-> |]; [by right|left].
    simpl. by rw lookup_insert_ne. }
  split; [|split].
  - split.
    + apply (watched_add (with_callbacks i p (c, e)) _ (SubSource id) (notify_eventfd ci)
               (cb_callback_group ci)); [done|..].
      * intros s. by rw !fd_of_with_callbacks.
      * by apply (t_sub _ Ht).
      * simpl. by rw Hc /= Hn.
      * simpl. by rw lookup_insert_eq.
      * intros s Hs. destruct (Hwatch s); [done|naive_solver].
      * destruct (regs_upd (execs p) i x Hx) as [rest Hrest]. unfold regs; simpl.
        rw (Hrest (set_loop e1)) (Hrest (set_loop e)) /= He1.
        rw -app_assoc /=. symmetry. apply Permutation_middle.
    + destruct Ht as [T1 T2 T3 T4 T5 T6]. split; try done.
      simpl. intros id' c'. destruct (decide (id' = id)) as [-> |Hne].
      * rw lookup_insert_eq. intros [= <-]. exact (T1 id ci Hc).
      * rw lookup_insert_ne; [|done]. by apply T1.
    + intros s g Hs. destruct (Hwatch s) as [He| ->].
      * rw He in Hs. by apply Hwaits.
      * simpl in Hs. by rw lookup_insert_eq in Hs.
    + intros s. apply fd_of_with_callbacks.
    + by intros [].
  - intros g. simpl. by rw lookup_insert_eq.
  - intros id' Q HQ g Hs. destruct (Hwatch (SubSource id')) as [He|He].
    + rw He in Hs. by apply HQ.
    + injection He as ->. simpl in Hs. by rw lookup_insert_eq in Hs.
Qed.

Definition timer_source (clk : bool) (tid : Z) : source :=
  if clk then ClockSource tid else TimerSource tid.

(** The loop bodies of the two timer handlers; [clk] selects [ClockEventHandler]. *)
Definition prepare_body (clk : bool) := if clk then prepare_clock else prepare_timer.

Definition source_fd (clk : bool) (ti : timer_info) : option Z :=
  if clk then clock_eventfd ti else timer_fd ti.
Definition source_waits (clk : bool) (ti : timer_info) : bool :=
  if clk then clock_eventfd_need_update ti else timer_fd_need_update ti.
Definition source_added (clk : bool) (ti : timer_info) : timer_info :=
  if clk then set_need_updates (timer_fd_need_update ti) false (timer_fd_need_update ti || false) ti
  else set_need_updates false (clock_eventfd_need_update ti)
         (false || clock_eventfd_need_update ti) ti.

Lemma set_info_same tid ti t : timer_infos t !! tid = Some ti -> set_info tid ti t = t.
Proof. intros H. unfold set_info. rw insert_id; [|done]. by destruct t. Qed.

Lemma set_need_updates_same ti :
  need_epoll_update ti = timer_fd_need_update ti || clock_eventfd_need_update ti ->
  set_need_updates (timer_fd_need_update ti) (clock_eventfd_need_update ti)
    (timer_fd_need_update ti || clock_eventfd_need_update ti) ti = ti.
Proof. intros H. unfold set_need_updates. rw -H. by destruct ti. Qed.

(** A body adds the descriptor of its timer, or leaves everything because there is nothing to add or
    the executor does not serve the group. *)
Lemma prepare_body_cases clk v ctl tid t e st' :
  (forall ti, timer_infos t !! tid = Some ti ->
     need_epoll_update ti = timer_fd_need_update ti || clock_eventfd_need_update ti) ->
  prepare_body clk v ctl tid (t, e) = Returns st' ->
  (st' = (t, e) /\
   forall ti fd, timer_infos t !! tid = Some ti -> source_fd clk ti = Some fd ->
     source_waits clk ti = true -> is_Some (timer_objects t !! tid) ->
     v (callback_group ti) = Returns false) \/
  (exists ti fd, timer_infos t !! tid = Some ti /\ source_fd clk ti = Some fd /\
     source_waits clk ti = true /\
     st' = (set_info tid (source_added clk ti) t, add_to_epoll fd (datum (timer_source clk tid)) e)).
Proof.
  intros Hneed. unfold prepare_body, prepare_clock, prepare_timer.
  destruct clk; (destruct (timer_infos t !! tid) as [ti|] eqn:Hti; [|intros [= <-]; by left]);
    specialize (Hneed ti eq_refl);
    (destruct (need_epoll_update ti) eqn:Hn;
     [|intros [= <-]; left; split; [done|]; intros ? fd [= <-] Hfd Hw; simpl in *;
       destruct (timer_fd_need_update ti), (clock_eventfd_need_update ti); done]);
    (destruct (timer_objects t !! tid) as [o|] eqn:Ho;
     [rw bool_decide_true; [|done]
     |rw bool_decide_false; [intros [= <-]; left; split; [done|]; by intros ????? [? [=]]|by intros [? [=]]]]);
    (destruct (v (callback_group ti)) as [[]| |] eqn:Hv; [|intros [= <-]; left|done..]);
    try (split; [done|]; by intros ? fd [= <-]).
  - destruct (clock_eventfd ti) as [fd|] eqn:Hfd;
      [destruct (clock_eventfd_need_update ti) eqn:Hw|].
    + destruct (ctl fd); [|done]. intros [= <-]. right. exists ti, fd. split_and!; done.
    + intros [= <-]. left. pose proof (set_need_updates_same ti ltac:(congruence)) as Hs.
      rw Hw /= in Hs. rw Hs set_info_same; [|done]. split; [done|]. intros ? fd' [= <-] _. simpl. by rw Hw.
    + intros [= <-]. left. rw set_need_updates_same; [|congruence].
      rw set_info_same; [|done]. split; [done|]. intros ? fd' [= <-]. simpl. by rw Hfd.
  - destruct (timer_fd ti) as [fd|] eqn:Hfd;
      [destruct (timer_fd_need_update ti) eqn:Hw|].
    + destruct (ctl fd); [|done]. intros [= <-]. right. exists ti, fd. split_and!; done.
    + intros [= <-]. left. pose proof (set_need_updates_same ti ltac:(congruence)) as Hs.
      rw Hw /= in Hs. rw Hs set_info_same; [|done]. split; [done|]. intros ? fd' [= <-] _. simpl. by rw Hw.
    + intros [= <-]. left. rw set_need_updates_same; [|congruence].
      rw set_info_same; [|done]. split; [done|]. intros ? fd' [= <-]. simpl. by rw Hfd.
Qed.

Lemma source_added_fds clk ti :
  timer_fd (source_added clk ti) = timer_fd ti /\ clock_eventfd (source_added clk ti) = clock_eventfd ti.
Proof. by destruct clk. Qed.

Lemma watch_timer_source t clk tid p :
  watch (set_timers t p) (timer_source clk tid) =
  (fun ti => (source_waits clk ti, callback_group ti)) <$> timer_infos t !! tid.
Proof. by destruct clk. Qed.

Lemma fd_timer_source t clk tid p :
  fd_of (set_timers t p) (timer_source clk tid) = timer_infos t !! tid ≫= source_fd clk.
Proof. by destruct clk. Qed.

Lemma with_timers_step clk v ctl i p tid st st' x :
  execs p !! i = Some x ->
  preparing_inv p (with_timers i p st) -> prepare_body clk v ctl tid st = Returns st' ->
  preparing_inv p (with_timers i p st') /\
  (forall fd g, fd_of p (timer_source clk tid) = Some fd -> live p (timer_source clk tid) ->
     watch (with_timers i p st') (timer_source clk tid) = Some (true, g) -> v g = Returns false) /\
  forall s g, watch (with_timers i p st') s = Some (true, g) ->
    watch (with_timers i p st) s = Some (true, g).
Proof.
  intros Hx [Hw Ht Hwaits Hfds Hlive]. destruct st as [t e].
  pose proof (t_need _ Ht tid) as Hneed. simpl in Hneed.
  intros [[-> Hdone]|(ti & fd & Hti & Hfd & Hwt & ->)]%(prepare_body_cases clk v ctl tid t e st' Hneed).
  - split; [done|]. split; [|done]. intros fd g Hs Hl.
    rw -Hfds in Hs. rw -Hlive in Hl.
    change (watch (with_timers i p (t, e))) with (watch (set_timers t p)). rw watch_timer_source.
    change (fd_of (with_timers i p (t, e)) (timer_source clk tid)) with
      (fd_of (set_timers t p) (timer_source clk tid)) in Hs || idtac.
    assert (is_Some (timer_objects t !! tid)) as Ho by (by destruct clk; apply Hl).
    assert (timer_infos t !! tid ≫= source_fd clk = Some fd) as Hs' by (by destruct clk).
    destruct (timer_infos t !! tid) as [ti|]; [|done]. simpl in *.
    intros [= Hwt <-]. by eapply Hdone.
  - set (t1 := set_info tid (source_added clk ti) t).
    set (e1 := add_to_epoll fd (datum (timer_source clk tid)) e).
    destruct (source_added_fds clk ti) as [Hf1 Hf2].
    assert (forall s, fd_of (with_timers i p (t1, e1)) s = fd_of p s) as Hfds'.
    { intros s. rw -Hfds. apply fd_of_execs; [done|..].
      - intros tid'. simpl. destruct (decide (tid' = tid)) as [-> |];
          [by rw lookup_insert_eq Hti /= Hf1|by rw lookup_insert_ne].
      - intros tid'. simpl. destruct (decide (tid' = tid)) as [-> |];
          [by rw lookup_insert_eq Hti /= Hf2|by rw lookup_insert_ne].
      - intros j. simpl. by rw !shutdown_fd_alter. }
    assert (forall s, s <> timer_source clk tid ->
      watch (with_timers i p (t1, e1)) s = watch (with_timers i p (t, e)) s) as Hwatch.
    { intros [id|tid'|tid'|j] Hs; [done|..|done]; simpl;
        (destruct (decide (tid' = tid)) as [-> |]; [|by rw lookup_insert_ne]);
        rw lookup_insert_eq Hti /=; by destruct clk. }
    assert (exists g, watch (with_timers i p (t, e)) (timer_source clk tid) = Some (true, g) /\
                 watch (with_timers i p (t1, e1)) (timer_source clk tid) = Some (false, g))
      as (g & Hg1 & Hg2).
    { exists (callback_group ti). destruct clk; simpl; rw lookup_insert_eq Hti /=;
        simpl in Hwt; by rw Hwt. }
    assert (forall s g', watch (with_timers i p (t1, e1)) s = Some (true, g') ->
      watch (with_timers i p (t, e)) s = Some (true, g')) as Hmono.
    { intros s g' Hs. destruct (decide (s = timer_source clk tid)) as [-> |Hne].
      - by rw Hg2 in Hs.
      - by rw -Hwatch. }
    split; [|split; [|done]].
    + split; [|split|..].
      * apply (watched_add (with_timers i p (t, e)) _ (timer_source clk tid) fd g);
          [done| |  |done|done|done|].
        -- intros s. by rw Hfds' Hfds.
        -- destruct clk; simpl; by rw Hti.
        -- destruct (regs_upd (execs p) i x Hx) as [rest Hrest]. unfold regs; simpl.
           rw (Hrest (set_loop e1)) (Hrest (set_loop e)) /=.
           rw -app_assoc /=. symmetry. apply Permutation_middle.
      * apply (t_sub _ Ht).
      * apply (t_sub_ids _ Ht).
      * intros tid' ti'. simpl. destruct (decide (tid' = tid)) as [-> |].
        -- rw lookup_insert_eq. intros [= <-]. by destruct clk; simpl.
        -- rw lookup_insert_ne; [|done]. apply (t_need _ Ht).
      * intros tid'. simpl. rw lookup_insert_is_Some. intros [<-|[_ Hs]];
          apply (t_timer_ids _ Ht); simpl; [by rw Hti|done].
      * intros tid' Hin. simpl. rw lookup_insert_is_Some.
        destruct (decide (tid = tid')); [by left|right]. split; [done|]. by apply (t_table _ Ht).
      * apply (t_next _ Ht).
      * intros s g' Hs. by apply Hwaits, Hmono.
      * done.
      * intros s. rw -Hlive. by destruct s.
    + intros fd' g' _ _. by rw Hg2.
Qed.

Lemma wants_groups gs gs' x g : wants gs x g <-> wants gs' x g.
Proof.
  unfold wants, validate, validate_multi. destruct (ex_kind x); [done| |done].
  split; intros _; destruct (negb (g =? 0)); simpl; repeat case_match; naive_solver.
Qed.

Lemma with_callbacks_same i p x :
  execs p !! i = Some x -> with_callbacks i p (callback_table p, ex_loop x) = p.
Proof.
  intros Hx. unfold with_callbacks, upd_exec, set_execs. simpl. rw alter_loop_id; [|done].
  by destruct p.
Qed.

Lemma with_timers_same i p x :
  execs p !! i = Some x -> with_timers i p (timer_table p, ex_loop x) = p.
Proof.
  intros Hx. unfold with_timers, upd_exec, set_execs. simpl. rw alter_loop_id; [|done].
  by destruct p.
Qed.

Lemma preparing_inv_refl p : watched p -> tables_ok p -> preparing_inv p p.
Proof. by split. Qed.

Lemma prepare_callbacks_ok v ctl i p x order st' :
  execs p !! i = Some x -> watched p -> tables_ok p ->
  (forall id, is_Some (id2_callback_info (callback_table p) !! id) -> id ∈ order) ->
  prepare_loop (prepare_callback v ctl) order (callback_table p, ex_loop x) = Returns st' ->
  preparing_inv p (with_callbacks i p st') /\
  forall id g, watch (with_callbacks i p st') (SubSource id) = Some (true, g) -> v g = Returns false.
Proof.
  intros Hx Hw Ht Horder Hloop.
  destruct (prepare_loop_ind (prepare_callback v ctl)
    (fun st => preparing_inv p (with_callbacks i p st))
    (fun id st => forall g, watch (with_callbacks i p st) (SubSource id) = Some (true, g) ->
       v g = Returns false)) with (order := order) (a := (callback_table p, ex_loop x)) (b := st')
    as (Hinv & Hdone & _).
  - intros id a b Ha Hb. destruct (with_callbacks_step v ctl i p id a b x Hx Ha Hb) as (H1 & H2 & H3).
    split; [done|]. split; [done|]. intros id' Hid' g. by apply (H3 id' (fun g => v g = Returns false)).
  - rw with_callbacks_same; [|done]. by apply preparing_inv_refl.
  - done.
  - split; [done|]. intros id g Hs. apply (Hdone id); [|done]. apply Horder.
    apply (pi_waits _ _ Hinv) in Hs. simpl in Hs.
    by destruct (id2_callback_info (callback_table p) !! id).
Qed.

Lemma prepare_timers_ok clk v ctl i p x order st' :
  execs p !! i = Some x -> watched p -> tables_ok p ->
  (forall tid, tid ∈ Timer.id2_timer_info (timer_table p) -> tid ∈ order) ->
  prepare_loop (prepare_body clk v ctl) order (timer_table p, ex_loop x) = Returns st' ->
  preparing_inv p (with_timers i p st') /\
  forall tid fd g, fd_of p (timer_source clk tid) = Some fd -> live p (timer_source clk tid) ->
    watch (with_timers i p st') (timer_source clk tid) = Some (true, g) -> v g = Returns false.
Proof.
  intros Hx Hw Ht Horder Hloop.
  destruct (prepare_loop_ind (prepare_body clk v ctl)
    (fun st => preparing_inv p (with_timers i p st))
    (fun tid st => forall fd g, fd_of p (timer_source clk tid) = Some fd ->
       live p (timer_source clk tid) ->
       watch (with_timers i p st) (timer_source clk tid) = Some (true, g) -> v g = Returns false))
    with (order := order) (a := (timer_table p, ex_loop x)) (b := st') as (Hinv & Hdone & _).
  - intros tid a b Ha Hb. destruct (with_timers_step clk v ctl i p tid a b x Hx Ha Hb) as (H1 & H2 & H3).
    split; [done|]. split; [done|]. intros tid' Htid' fd g Hfd Hl Hs.
    eapply Htid'; [done|done|]. by apply H3.
  - rw with_timers_same; [|done]. by apply preparing_inv_refl.
  - done.
  - split; [done|]. intros tid fd g Hfd Hl Hs. eapply Hdone; [|done..]. apply Horder.
    by destruct clk; apply Hl.
Qed.

(** What the three stages of [prepare_epoll] leave of a process. *)
Record prepared (i k : nat) (stage : Z) (x : exec_state) (p p' : process) : Prop := {
  pr_watched : watched p';
  pr_tables : tables_ok p';
  pr_waits : forall s g, watch p' s = Some (true, g) -> watch p s = Some (true, g);
  pr_fds : forall s, fd_of p' s = fd_of p s;
  pr_live : forall s, live p' s -> live p s;
  pr_dispatch : dispatch p' = dispatch p;
  pr_execs : exists f, execs p' = alter f i (execs p) /\
    forall y, ex_tracker (f y) = ex_tracker y /\
      ex_preparing (f y) = next_stage k stage (ex_preparing y) /\
      (stage <> -1 -> forall gs g, wants gs (f y) g <-> wants gs y g);
  pr_done : forall s fd g, stage <> -1 -> stage_of s = stage -> fd_of p s = Some fd -> live p s ->
    watch p' s = Some (true, g) -> ~ wants (groups p) x g
}.

Lemma watched_set_preparing (f : exec_state -> exec_state) i p (gs : gmap Z group_info) ns :
  (forall y, ex_loop (f y) = ex_loop y /\ ex_shutdown_fd (f y) = ex_shutdown_fd y) ->
  watched p -> watched (upd_exec i f (set_groups gs ns p)).
Proof.
  intros Hf Hw. apply (watched_frame p); [done|..].
  - intros s. apply fd_of_execs; [done..|]. intros j. apply shutdown_fd_alter. intros y. apply Hf.
  - intros s. left. by destruct s.
  - unfold regs; simpl. generalize (execs p) i. intros l. induction l as [|y l IH]; intros [|j]; try done.
    + csimpl. unfold regs_of in *. csimpl. by rw (proj1 (Hf y)).
    + csimpl. unfold regs_of in *. csimpl. by rw IH.
Qed.

Lemma prepare_stage_ok i k stage x order ctl p p' :
  execs p !! i = Some x -> ex_preparing x !! k = Some stage -> -1 <= stage <= 2 ->
  watched p -> tables_ok p ->
  allowed p (APrepare i k order ctl) ->
  prepare_stage i k stage x order ctl p = Some p' -> prepared i k stage x p p'.
Proof.
  intros Hx Hk Hst Hw Ht [Hcb Htm]. unfold prepare_stage.
  destruct (Z.eqb_spec stage (-1)) as [-> |Hm1].
  { destruct (add_callback_groups_from_nodes _ _ _ _) as [gs auto]. intros [= <-].
    split; try done.
    - by apply watched_set_preparing.
    - by destruct Ht.
    - intros s. apply fd_of_execs; [done..|]. intros j. by apply shutdown_fd_alter.
    - eexists. split; [done|]. by intros y. }
  assert (forall e l gs g y, wants gs (set_preparing l (set_loop e y)) g <-> wants gs y g) as Hwants.
  { intros. reflexivity. }
  destruct (Z.eqb_spec stage EpollEventType_Subscription) as [-> |H0].
  { destruct (prepare_loop _ _ _) as [[c e]| |] eqn:E; [|done..]. intros [= <-].
    apply (prepare_callbacks_ok _ _ i) in E as ([W T P F L] & Hdone); [|done..].
    split; try done.
    - apply (watched_set_preparing (fun y => set_preparing (next_stage k 0 (ex_preparing y)) y) i _
               (groups p) (nodes_with_executor p)) in W; [|done].
      unfold with_callbacks, upd_exec, set_execs, set_groups in W. simpl in W.
      rw list_alter_alter_eq in W. exact W.
    - by destruct T.
    - intros s. rw -F. apply fd_of_execs; [done..|]. intros j. simpl. by rw !shutdown_fd_alter.
    - eexists. split; [done|]. intros y. split; [done|]. split; [done|]. intros _ gs g. apply Hwants.
    - intros s fd g _ Hs Hfd Hl Hwt Hwn. destruct s as [id|tid|tid|j]; try done.
      apply Hwn. by eapply Hdone. }
  set (clk := negb (stage =? EpollEventType_Timer)).
  replace (if stage =? EpollEventType_Timer then prepare_timer else prepare_clock)
    with (prepare_body clk) by (subst clk; by destruct (stage =? EpollEventType_Timer)).
  destruct (prepare_loop _ _ _) as [[t e]| |] eqn:E; [|done..]. intros [= <-].
  apply (prepare_timers_ok _ _ _ i) in E as ([W T P F L] & Hdone); [|done..].
  split; try done.
  - apply (watched_set_preparing (fun y => set_preparing (next_stage k stage (ex_preparing y)) y) i _
             (groups p) (nodes_with_executor p)) in W; [|done].
    unfold with_timers, upd_exec, set_execs, set_groups in W. simpl in W.
    rw list_alter_alter_eq in W. exact W.
  - by destruct T.
  - intros s. rw -F. apply fd_of_execs; [done..|]. intros j. simpl. by rw !shutdown_fd_alter.
  - intros s. rw -L. by destruct s.
  - eexists. split; [done|]. intros y. split; [done|]. split; [done|]. intros _ gs g. apply Hwants.
  - intros s fd g _ Hs Hfd Hl Hwt Hwn. apply Hwn.
    assert (exists tid, s = timer_source clk tid) as [tid ->].
    { subst clk. unfold EpollEventType_Subscription, EpollEventType_Timer in *.
      destruct s as [id|tid|tid|j]; simpl in Hs; try done;
        unfold EpollEventType_Subscription, EpollEventType_Timer, EpollEventType_Clock in Hs;
        subst stage; exists tid; done. }
    by eapply Hdone.
Qed.

(** ** Preservation *)

Record proc_ok (p : process) : Prop := {
  o_watched : watched p;
  o_tables : tables_ok p;
  o_trackers : trackers_ok p;
  o_requested : requested p
}.

Definition watch_fields (ti : timer_info) : option Z * bool * option Z * bool * Z * bool :=
  (timer_fd ti, timer_fd_need_update ti, clock_eventfd ti, clock_eventfd_need_update ti,
   callback_group ti, need_epoll_update ti).

(** Timers that differ in their schedules only, apart from objects and entries that are gone. *)
Record timers_like (t t' : timers) : Prop := {
  l_next : next_timer_id t' = next_timer_id t \/ next_timer_id t <= next_timer_id t' < 2 ^ 32;
  l_table : Timer.id2_timer_info t' ⊆ Timer.id2_timer_info t;
  l_objects : forall tid, is_Some (timer_objects t' !! tid) -> is_Some (timer_objects t !! tid);
  l_infos : forall tid, watch_fields <$> timer_infos t' !! tid = watch_fields <$> timer_infos t !! tid
}.

Definition same_epoll (x x' : exec_state) : Prop :=
  exists e, x' = set_loop e x /\ epoll_set e = epoll_set (ex_loop x).

Lemma timers_like_refl t : timers_like t t.
Proof. split; [by left|done..]. Qed.

Lemma same_epoll_refl l : Forall2 same_epoll l l.
Proof.
  apply Forall_Forall2_diag, Forall_forall. intros x _. exists (ex_loop x). split; [by destruct x|done].
Qed.

Lemma same_epoll_alter l i x e :
  l !! i = Some x -> epoll_set e = epoll_set (ex_loop x) -> Forall2 same_epoll l (alter (set_loop e) i l).
Proof.
  revert i. induction l as [|y l IH]; intros [|i]; try done; csimpl.
  - intros [= ->] He. constructor; [by exists e|apply same_epoll_refl].
  - intros Hx He. constructor; [|by apply IH].
    exists (ex_loop y). split; [by destruct y|done].
Qed.

Lemma same_epoll_alter_fun l i (h : executor -> executor) :
  (forall e, epoll_set (h e) = epoll_set e) ->
  Forall2 same_epoll l (alter (fun x => set_loop (h (ex_loop x)) x) i l).
Proof.
  intros Hh. revert i. induction l as [|y l IH]; intros i; [by destruct i; constructor|].
  destruct i as [|i]; csimpl.
  - constructor; [by eexists|apply same_epoll_refl].
  - constructor; [exists (ex_loop y); split; [by destruct y|done]|apply IH].
Qed.

Lemma same_epoll_regs l l' : Forall2 same_epoll l l' -> regs_of l' = regs_of l.
Proof.
  induction 1 as [|x x' l l' (e & -> & He) _ IH]; [done|]. unfold regs_of in *. csimpl. by rw IH He.
Qed.

(** Executors that differ in their epoll sets and queues only. *)
Definition loop_changed (x x' : exec_state) : Prop := exists e, x' = set_loop e x.

Lemma same_epoll_loop l l' : Forall2 same_epoll l l' -> Forall2 loop_changed l l'.
Proof. intros H. eapply Forall2_impl; [exact H|]. intros x x' (e & -> & _). by exists e. Qed.

Lemma loop_changed_lookup l l' i x' :
  Forall2 loop_changed l l' -> l' !! i = Some x' -> exists x e, l !! i = Some x /\ x' = set_loop e x.
Proof. intros Hl Hx. destruct (Forall2_lookup_r _ _ _ _ _ Hl Hx) as (x & ? & e & ->). by exists x, e. Qed.

Lemma loop_changed_shutdown l l' i :
  Forall2 loop_changed l l' -> (l' !! i ≫= ex_shutdown_fd) = (l !! i ≫= ex_shutdown_fd).
Proof.
  intros Hl. destruct (l' !! i) as [x'|] eqn:Hx.
  - destruct (loop_changed_lookup _ _ _ _ Hl Hx) as (x & e & -> & ->). done.
  - apply lookup_ge_None in Hx. rw -(Forall2_length _ _ _ Hl) in Hx.
    by rw (proj2 (lookup_ge_None _ _) Hx).
Qed.

Lemma trackers_loop_changed p p' :
  Forall2 loop_changed (execs p) (execs p') -> dispatch p' = dispatch p ->
  trackers_ok p -> trackers_ok p'.
Proof.
  intros Hl Hd [K1 K2 K3 K4 K5]. split; rw ?Hd; try done.
  - assert (ex_tracker <$> execs p' = ex_tracker <$> execs p) as ->; [|done].
    clear -Hl. generalize dependent (execs p'). generalize (execs p). intros l l' Hl.
    induction Hl as [|x x' l l' [e ->] _ IH]; csimpl; [done|]. by rw IH.
  - intros i x' Hx. destruct (loop_changed_lookup _ _ _ _ Hl Hx) as (x & e & Hi & ->). exact (K2 i x Hi).
  - intros i x' st Hx. destruct (loop_changed_lookup _ _ _ _ Hl Hx) as (x & e & Hi & ->). exact (K5 i x st Hi).
Qed.

(** No source becomes wanted, and the requests stay. *)
Lemma requested_frame p p' :
  Forall2 loop_changed (execs p) (execs p') -> dispatch p' = dispatch p ->
  (forall s fd g, fd_of p' s = Some fd -> watch p' s = Some (true, g) -> live p' s ->
     fd_of p s = Some fd /\ watch p s = Some (true, g) /\ live p s) ->
  requested p -> requested p'.
Proof.
  intros Hl Hd Hs Hr i x' s fd g Hx Hfd Hw Hlv Hwant.
  destruct (loop_changed_lookup _ _ _ _ Hl Hx) as (x & e & Hi & ->).
  destruct (Hs _ _ _ Hfd Hw Hlv) as (H1 & H2 & H3). rw Hd.
  apply (Hr i x s fd g Hi H1 H2 H3). by apply (wants_groups (groups p')).
Qed.

(** A step that changes schedules, queues, groups and events only. *)
Lemma frame_ok p p' :
  Forall2 same_epoll (execs p) (execs p') -> timers_like (timer_table p) (timer_table p') ->
  sub_fds p' = sub_fds p -> dispatch p' = dispatch p ->
  (next_callback_info_id (callback_table p') = next_callback_info_id (callback_table p) \/
   next_callback_info_id (callback_table p) <= next_callback_info_id (callback_table p') < 2 ^ 32) ->
  (forall id, id2_callback_info (callback_table p') !! id = None \/
     id2_callback_info (callback_table p') !! id = id2_callback_info (callback_table p) !! id) ->
  proc_ok p -> proc_ok p'.
Proof.
  intros He [L1 L2 L3 L4] Hsub Hd Hn Hcb [Hw Ht Hk Hr].
  assert (Forall2 loop_changed (execs p) (execs p')) as Hl by by apply same_epoll_loop.
  assert (forall s, fd_of p' s = fd_of p s) as Hfd.
  { intros s. apply fd_of_execs; [done|..].
    - intros tid. specialize (L4 tid). destruct (timer_infos (timer_table p') !! tid),
        (timer_infos (timer_table p) !! tid); simpl in *; try done. by injection L4.
    - intros tid. specialize (L4 tid). destruct (timer_infos (timer_table p') !! tid),
        (timer_infos (timer_table p) !! tid); simpl in *; try done. by injection L4.
    - intros i. by apply loop_changed_shutdown. }
  assert (forall s, watch p' s = watch p s \/ watch p' s = None) as Hwatch.
  { intros [id|tid|tid|i]; simpl; [|specialize (L4 tid)..|by left].
    - destruct (Hcb id) as [-> | ->]; [by right|by left].
    - left. destruct (timer_infos (timer_table p') !! tid), (timer_infos (timer_table p) !! tid);
        simpl in *; try done. unfold watch_fields in L4. congruence.
    - left. destruct (timer_infos (timer_table p') !! tid), (timer_infos (timer_table p) !! tid);
        simpl in *; try done. unfold watch_fields in L4. congruence. }
  split.
  - apply (watched_frame p); [done..|]. by apply same_epoll_regs.
  - destruct Ht as [T1 T2 T3 T4 T5 T6]. split.
    + intros id c Hc. rw Hsub. apply T1. destruct (Hcb id) as [E|E]; congruence.
    + intros id. rw Hsub. intros Hid. specialize (T2 id Hid). lia.
    + intros tid ti Hti. specialize (L4 tid). rw Hti in L4.
      destruct (timer_infos (timer_table p) !! tid) as [ti0|] eqn:E; simpl in L4; [|done].
      pose proof (T3 tid ti0 E). unfold watch_fields in L4. congruence.
    + intros tid [ti Hti]. specialize (L4 tid). rw Hti in L4.
      assert (is_Some (timer_infos (timer_table p) !! tid)) as Hs
        by (by destruct (timer_infos (timer_table p) !! tid)).
      specialize (T4 tid Hs). lia.
    + intros tid Hin. specialize (L4 tid). destruct (T5 tid (L2 _ Hin)) as [ti Hti].
      rw Hti in L4. by destruct (timer_infos (timer_table p') !! tid).
    + lia.
  - by apply (trackers_loop_changed p).
  - apply (requested_frame p); [done..| |done]. intros s fd g Hs Hwt Hlv. rw -Hfd. split; [done|].
    destruct (Hwatch s) as [E|E]; rw E in Hwt; [|done]. split; [done|].
    destruct s; simpl in *; naive_solver.
Qed.

(** *** Closing descriptors *)

Lemma regs_close fds l : regs_of (foldr close_everywhere l fds) = filter (fun r => r.1 ∉ fds) (regs_of l).
Proof.
  induction fds as [|fd fds IH]; simpl.
  - symmetry. apply list_filter_all. intros r _. apply not_elem_of_nil.
  - transitivity (filter (fun r : Z * Z => r.1 <> fd) (regs_of (foldr close_everywhere l fds))).
    + generalize (foldr close_everywhere l fds). intros k. unfold regs_of.
      induction k as [|x k IHk]; csimpl; [done|]. by rw filter_app IHk.
    + rw IH list_filter_filter. apply list_filter_iff'. intros r _.
      rw not_elem_of_cons. naive_solver.
Qed.

Lemma close_loop_changed fds l : Forall2 loop_changed l (foldr close_everywhere l fds).
Proof.
  induction fds as [|fd fds IH]; simpl; [apply same_epoll_loop, same_epoll_refl|].
  unfold close_everywhere at 1. apply Forall2_fmap_r. eapply Forall2_impl; [exact IH|].
  intros x x' [e ->]. by eexists.
Qed.

Lemma closing_ok p p' fds :
  execs p' = foldr close_everywhere (execs p) fds -> dispatch p' = dispatch p ->
  tables_ok p' ->
  (forall s fd, fd_of p' s = Some fd ->
     fd_of p s = Some fd /\ ~ (fd ∈ fds) /\ (watch p' s = watch p s \/ watch p' s = None)) ->
  (forall s fd, fd_of p s = Some fd -> ~ (fd ∈ fds) -> fd_of p' s = Some fd) ->
  (forall s, live p' s -> live p s) ->
  proc_ok p -> proc_ok p'.
Proof.
  intros He Hd Ht Hold Hkeep Hlive [Hw _ Hk Hr].
  assert (Forall2 loop_changed (execs p) (execs p')) as Hl by (rw He; apply close_loop_changed).
  split; [|done|by apply (trackers_loop_changed p)|].
  - apply (watched_less p p' fds); [done| | |done|].
    + intros s fd Hs. left. by apply Hold.
    + intros s1 s2 fd Hf H1. destruct (Hold _ _ H1) as (H1' & _). by apply Hf in H1'.
    + unfold regs. rw He. apply regs_close.
  - apply (requested_frame p); [done..| |done]. intros s fd g Hs Hwt Hlv.
    destruct (Hold _ _ Hs) as (H1 & _ & [E|E]); rw E in Hwt; [|done]. auto.
Qed.

Lemma shutdown_fd_close fds l i :
  (foldr close_everywhere l fds !! i ≫= ex_shutdown_fd) = (l !! i ≫= ex_shutdown_fd).
Proof. apply loop_changed_shutdown, close_loop_changed. Qed.

Lemma close_eventfd_ok p id p' : act (ACloseEventfd id) p = Some p' -> proc_ok p -> proc_ok p'.
Proof.
  simpl. intros Ha Hok. destruct (sub_fds p !! id) as [fd|] eqn:Hfd; [|by simplify_eq].
  destruct (id2_callback_info (callback_table p) !! id) as [c|] eqn:Hc; [by simplify_eq|].
  simplify_eq. destruct Hok as [Hw Ht Hk Hr].
  assert (forall s fd', fd_of (set_execs (close_everywhere fd (execs p))
    (set_callbacks (callback_table p) (delete id (sub_fds p)) p)) s = Some fd' <->
    fd_of p s = Some fd' /\ s <> SubSource id) as Hs.
  { intros [id'|tid|tid|i] fd'; simpl.
    - destruct (decide (id' = id)) as [-> |Hne]; [rw lookup_delete_eq; naive_solver|].
      rw lookup_delete_ne; naive_solver.
    - naive_solver.
    - naive_solver.
    - rw (shutdown_fd_close [fd]). naive_solver. }
  apply (closing_ok p _ [fd]); try done.
  - destruct Ht as [T1 T2 T3 T4 T5 T6]. split; try done; simpl.
    + intros id' c' Hc'. destruct (decide (id' = id)) as [-> |Hne]; [congruence|].
      rw lookup_delete_ne; auto.
    + intros id' Hin. apply T2. apply lookup_delete_is_Some in Hin. apply Hin.
  - intros s fd' [H1 H2]%Hs. split; [done|]. split; [|by left; destruct s].
    intros ->%list_elem_of_singleton. apply H2. by eapply (w_unique _ Hw).
  - intros s fd' H1 Hn. apply Hs. split; [done|]. intros ->. simpl in H1.
    apply Hn, list_elem_of_singleton. congruence.
Qed.

Lemma post_jump_fields now change o ti ti' effect :
  handle_post_time_jump now change o ti = (ti', effect) ->
  match effect with
  | ClosesTimerFd fd =>
      timer_fd ti = Some fd /\ watch_fields ti' = watch_fields (set_timer_fd_none ti)
  | _ => watch_fields ti' = watch_fields ti
  end.
Proof.
  unfold handle_post_time_jump, watch_fields. intros H.
  destruct now as [n|]; [|by simplify_eq].
  destruct change; simplify_eq; repeat case_match; simplify_eq; try done; simpl; congruence.
Qed.

Lemma post_jump_ok p tid now change p' :
  act (APostJump tid now change) p = Some p' -> proc_ok p -> proc_ok p'.
Proof.
  simpl. intros Ha Hok. destruct (timer_infos (timer_table p) !! tid) as [ti|] eqn:Hti; [|by simplify_eq].
  destruct (handle_post_time_jump _ _ _ _) as [ti' eff] eqn:E. apply post_jump_fields in E.
  assert (match eff with ClosesTimerFd _ => False | _ => True end ->
    proc_ok (set_timers (set_info tid ti' (timer_table p)) p)) as Hsame.
  { intros Heff. assert (watch_fields ti' = watch_fields ti) as E' by (by destruct eff).
    apply (frame_ok p); try done; [apply same_epoll_refl| |by left|by intros ?; right].
    split; [by left|done..|]. intros tid'. simpl. destruct (decide (tid' = tid)) as [-> |Hne].
    - by rw lookup_insert_eq Hti /= E'.
    - by rw lookup_insert_ne. }
  destruct eff as [|fd|fd]; simplify_eq; [by apply Hsame| |by apply Hsame].
  destruct E as [Hfd Hf]. destruct Hok as [Hw Ht Hk Hr].
  assert (forall s fd', fd_of (set_execs (close_everywhere fd (execs p))
    (set_timers (set_info tid ti' (timer_table p)) p)) s = Some fd' <->
    fd_of p s = Some fd' /\ s <> TimerSource tid) as Hs.
  { injection Hf as F1 F2 F3 F4 F5 F6.
    intros [id'|tid'|tid'|i] fd'; simpl.
    - naive_solver.
    - destruct (decide (tid' = tid)) as [-> |Hne].
      + rw lookup_insert_eq Hti /= F1. naive_solver.
      + rw lookup_insert_ne; naive_solver.
    - destruct (decide (tid' = tid)) as [-> |Hne].
      + rw lookup_insert_eq Hti /= F3. naive_solver.
      + rw lookup_insert_ne; naive_solver.
    - rw (shutdown_fd_close [fd]). naive_solver. }
  apply (closing_ok p _ [fd]); try done.
  - destruct Ht as [T1 T2 T3 T4 T5 T6]. split; try done; simpl.
    + intros tid' ti2. destruct (decide (tid' = tid)) as [-> |Hne].
      * rw lookup_insert_eq. intros [= <-]. injection Hf as F1 F2 F3 F4 F5 F6.
        rw F6 F2 F4. by apply T3 in Hti.
      * rw lookup_insert_ne; eauto.
    + intros tid'. rw lookup_insert_is_Some. intros [<-|[_ Hin]]; apply T4; [by rw Hti|done].
    + intros tid' Hin. rw lookup_insert_is_Some.
      destruct (decide (tid = tid')); [by left|right]. eauto.
  - intros s fd' [H1 H2]%Hs. split; [done|]. split.
    + intros ->%list_elem_of_singleton. apply H2. eapply (w_unique _ Hw); [done|]. simpl. by rw Hti.
    + left. injection Hf as F1 F2 F3 F4 F5 F6. destruct s as [id'|tid'|tid'|i]; simpl; try done;
        (destruct (decide (tid' = tid)) as [-> |Hne]; [|by rw lookup_insert_ne]);
        rw lookup_insert_eq Hti /=; by rw ?F2 ?F4 F5.
  - intros s fd' H1 Hn. apply Hs. split; [done|]. intros ->. simpl in H1. rw Hti /= Hfd in H1.
    apply Hn, list_elem_of_singleton. congruence.
Qed.

Lemma collect_timer_ok tid p : proc_ok p -> proc_ok (collect_timer tid p).
Proof.
  intros Hok. unfold collect_timer.
  destruct (timer_infos (timer_table p) !! tid) as [ti|] eqn:Hti; [|done].
  destruct (bool_decide (tid ∈ Timer.id2_timer_info (timer_table p))) eqn:Hin; [done|].
  apply bool_decide_eq_false in Hin. destruct (timer_held tid p); simpl; [done|].
  destruct Hok as [Hw Ht Hk Hr].
  assert (forall fd, fd ∈ fds_closed ti <->
    timer_fd ti = Some fd \/ clock_eventfd ti = Some fd) as Hfds.
  { intros fd. unfold fds_closed. rw elem_of_app.
    destruct (timer_fd ti), (clock_eventfd ti); rw ?list_elem_of_singleton ?elem_of_nil; naive_solver. }
  set (p' := set_execs _ _).
  assert (forall s fd, fd_of p' s = Some fd <->
    fd_of p s = Some fd /\ s <> TimerSource tid /\ s <> ClockSource tid) as Hs.
  { intros [id'|tid'|tid'|i] fd'; simpl.
    - naive_solver.
    - destruct (decide (tid' = tid)) as [-> |Hne]; [rw lookup_delete_eq; naive_solver|].
      rw lookup_delete_ne; naive_solver.
    - destruct (decide (tid' = tid)) as [-> |Hne]; [rw lookup_delete_eq; naive_solver|].
      rw lookup_delete_ne; naive_solver.
    - rw shutdown_fd_close. naive_solver. }
  apply (closing_ok p _ (fds_closed ti)); try done.
  - destruct Ht as [T1 T2 T3 T4 T5 T6]. split; try done; simpl.
    + intros tid' ti2 [_ Hti2]%lookup_delete_Some. eauto.
    + intros tid' [_ Hti2]%lookup_delete_is_Some. eauto.
    + intros tid' Hin'. apply lookup_delete_is_Some. split; [by intros ->|eauto].
  - intros s fd (H1 & H2 & H3)%Hs. split; [done|]. split.
    + intros [E|E]%Hfds; [apply H2|apply H3]; eapply (w_unique _ Hw); try done; simpl; by rw Hti.
    + left. destruct s as [id'|tid'|tid'|i]; simpl; try done; rw lookup_delete_ne; congruence || done.
  - intros s fd H1 Hn. apply Hs. split; [done|]. rw Hfds in Hn.
    split; intros ->; simpl in H1; rw Hti /= in H1; naive_solver.
Qed.

(** *** New sources *)

Lemma request_all_lookup d k :
  trackers_ (request_update_all d) !! k = (fun _ => true) <$> trackers_ d !! k.
Proof. apply lookup_fmap. Qed.

(** The dispatcher may set flags. *)
Lemma trackers_request p p' :
  execs p' = execs p -> next_tracker_id_ (dispatch p') = next_tracker_id_ (dispatch p) ->
  (forall k, is_Some (trackers_ (dispatch p') !! k) <-> is_Some (trackers_ (dispatch p) !! k)) ->
  trackers_ok p -> trackers_ok p'.
Proof.
  intros He Hn Hk [K1 K2 K3 K4 K5]. split; rw ?He ?Hn; try done.
  - intros i x Hx. rw Hk. eauto.
  - intros k. rw Hk. eauto.
Qed.

Lemma opening_ok p p' :
  execs p' = execs p -> dispatch p' = request_update_all (dispatch p) -> tables_ok p' ->
  (forall s fd, fd_of p' s = Some fd ->
     (fd_of p s = Some fd /\ watch p' s = watch p s) \/
     (fresh_fd p fd /\ exists g, watch p' s = Some (true, g))) ->
  (forall s1 s2 fd, fresh_fd p fd -> fd_of p' s1 = Some fd -> fd_of p' s2 = Some fd -> s1 = s2) ->
  (forall s fd, fd_of p s = Some fd -> fd_of p' s = Some fd) ->
  proc_ok p -> proc_ok p'.
Proof.
  intros He Hd Ht Hold Hnew Hkeep [Hw _ Hk Hr]. split; [|done| |].
  - apply (watched_less p p' []); [done| |done| |].
    + intros s fd Hs. destruct (Hold _ _ Hs) as [[H1 H2]|H1]; [left|by right].
      split; [done|]. split; [apply not_elem_of_nil|by left].
    + intros s fd Hs _. by apply Hkeep.
    + unfold regs. rw He. symmetry. apply list_filter_all. intros r _. apply not_elem_of_nil.
  - apply (trackers_request p); [done|by rw Hd| |done]. intros k. rw Hd request_all_lookup.
    apply fmap_is_Some.
  - intros i x s fd g Hx _ _ _ _. left. rw He in Hx. destruct (k_known _ Hk _ _ Hx) as [b Hb].
    by rw Hd request_all_lookup Hb.
Qed.

Lemma register_callback_cases topic sub tl fd g c c' r :
  0 <= next_callback_info_id c -> next_callback_info_id c + 1 < 2 ^ 32 ->
  register_callback topic sub tl fd g c = (c', r) ->
  next_callback_info_id c' = next_callback_info_id c + 1 /\
  ((r = Throws /\ id2_callback_info c' = id2_callback_info c) \/
   (r = Returns (next_callback_info_id c) /\
    id2_callback_info c' = <[next_callback_info_id c := CallbackInfo topic sub tl fd g true]>
                             (id2_callback_info c))).
Proof.
  intros H0 Hb. unfold register_callback, allocate_callback_info_id.
  destruct (negb _); intros [= <- <-]; simpl; unfold u32; rw Z.mod_small; try lia;
    (split; [done|]); [by right|by left].
Qed.

Lemma register_ok p topic sub tl fd g p' :
  allowed p (ARegisterCallback topic sub tl fd g) ->
  act (ARegisterCallback topic sub tl fd g) p = Some p' -> proc_ok p -> proc_ok p'.
Proof.
  intros [Hfr Hnext]. simpl. intros Ha Hok.
  pose proof (t_next _ (o_tables _ Hok)) as [H0 _].
  destruct (register_callback _ _ _ _ _ _) as [c' r] eqn:E.
  destruct (register_callback_cases _ _ _ _ _ _ _ _ (proj1 H0) Hnext E)
    as (En & [(-> & Em)|(-> & Em)]); simplify_eq.
  { apply (frame_ok p); try done; [apply same_epoll_refl|apply timers_like_refl|simpl; lia|].
    intros id. right. simpl. by rw Em. }
  set (n := next_callback_info_id (callback_table p)) in *.
  pose proof (o_tables _ Hok) as [T1 T2 T3 T4 T5 T6].
  assert (sub_fds p !! n = None) as Hn.
  { destruct (sub_fds p !! n) eqn:E1; [|done]. exfalso.
    assert (0 <= n < n) by (apply T2; by rw E1). lia. }
  assert (id2_callback_info (callback_table p) !! n = None) as Hcn.
  { destruct (id2_callback_info (callback_table p) !! n) eqn:E1; [|done]. apply T1 in E1. congruence. }
  apply (opening_ok p); try done.
  - split; try done; simpl.
    + intros id c. rw Em. destruct (decide (id = n)) as [-> |Hne].
      * rw !lookup_insert_eq. by intros [= <-].
      * rw !lookup_insert_ne; auto.
    + intros id. rw lookup_insert_is_Some. rw En. intros [<-|[_ Hid]]; [lia|].
      specialize (T2 id Hid). lia.
    + rw En. lia.
  - intros [id|tid|tid|i] fd'; simpl; [|by left..]. rw Em.
    destruct (decide (id = n)) as [-> |Hne].
    + rw !lookup_insert_eq. intros [= <-]. right. split; [done|]. by exists g.
    + rw !lookup_insert_ne; [|done..]. by left.
  - assert (forall s fd', fresh_fd p fd' -> fd_of (set_dispatch (request_update_all (dispatch p))
      (set_callbacks c' (<[n := fd]> (sub_fds p)) p)) s = Some fd' -> s = SubSource n) as Huniq.
    { intros [id|tid|tid|i] fd' Hf Hs; simpl in Hs;
        [|by destruct (Hf (TimerSource tid))|by destruct (Hf (ClockSource tid))
         |by destruct (Hf (ShutdownSource i))].
      destruct (decide (id = n)) as [-> |Hne]; [done|]. rw lookup_insert_ne in Hs; [|done].
      by destruct (Hf (SubSource id)). }
    intros s1 s2 fd' Hf H1 H2. by rw (Huniq _ _ Hf H1) (Huniq _ _ Hf H2).
  - intros [id|tid|tid|i] fd' Hs; simpl in *; try done.
    destruct (decide (id = n)) as [-> |Hne]; [congruence|]. by rw lookup_insert_ne.
Qed.

Record timer_created (g : Z) (ans : register_answers) (t t' : timers) (ti : timer_info) : Prop := {
  n_next : next_timer_id t' = next_timer_id t + 1;
  n_infos : timer_infos t' = <[next_timer_id t := ti]> (timer_infos t);
  n_table : Timer.id2_timer_info t' = {[next_timer_id t]} ∪ Timer.id2_timer_info t;
  n_objects : timer_objects t' = <[next_timer_id t := TimerBase false false 0]> (timer_objects t);
  n_group : callback_group ti = g;
  n_timer_fd : timer_fd ti = None \/ timer_fd ti = a_timerfd ans;
  n_clock_fd : clock_eventfd ti = None \/ clock_eventfd ti = a_eventfd ans;
  n_timer_waits : timer_fd_need_update ti = bool_decide (is_Some (timer_fd ti));
  n_clock_waits : clock_eventfd_need_update ti = bool_decide (is_Some (clock_eventfd ti));
  n_need : need_epoll_update ti = timer_fd_need_update ti || clock_eventfd_need_update ti
}.

Lemma create_timer_fd_frame created ok period t t' r :
  create_timer_fd created ok period t = (t', r) ->
  next_timer_id t' = next_timer_id t /\ timer_infos t' = timer_infos t /\
  timer_objects t' = timer_objects t /\ Timer.id2_timer_info t' = Timer.id2_timer_info t /\
  match r with Returns fd => created = Some fd | Throws => True | Exits => False end.
Proof.
  unfold create_timer_fd, arm_timer_fd, set_timer_fd. destruct created as [fd|]; [|by intros [= <- <-]].
  destruct ok; by intros [= <- <-].
Qed.

(** A timer is created with every descriptor it opens waiting to be added, or nothing remains. *)
Lemma create_timer_cases period g c ans t t' r :
  next_timer_id t + 1 < 2 ^ 32 -> 0 <= next_timer_id t ->
  create_timer period g c ans t = (t', r) ->
  (r = Throws /\ timers_like t t') \/
  (r = Returns (next_timer_id t) /\ exists ti, timer_created g ans t t' ti).
Proof.
  intros Hb H0. unfold create_timer, allocate_timer_id, u32.
  rw Z.mod_small; [|lia]. destruct (negb _); [|intros [= <- <-]; left; split; [done|]; split; simpl;
    [right; lia|done..]].
  set (n := next_timer_id t) in *.
  destruct (register_timer_info _ _ _ _ _ _) as [t1 r1] eqn:E. unfold register_timer_info in E.
  assert (forall t0, next_timer_id t0 = n + 1 -> timer_infos t0 = timer_infos t ->
    timer_objects t0 = <[n := TimerBase false false 0]> (timer_objects t) ->
    Timer.id2_timer_info t0 = Timer.id2_timer_info t ->
    timers_like t (Timers (next_timer_id t0) (delete n (timer_objects t0)) (timer_infos t0)
      (Timer.id2_timer_info t0) (armed t0))) as Hfail.
  { intros t0 E1 E2 E3 E4. split; simpl.
    - right. rw E1. lia.
    - by rw E4.
    - intros tid. rw E3. destruct (decide (tid = n)) as [-> |Hne]; [rw lookup_delete_eq; by intros []|].
      rw lookup_delete_ne; [|done]. by rw lookup_insert_ne.
    - intros tid. by rw E2. }
  pose proof (Hfail (set_object n (TimerBase false false 0)
    (Timers (n + 1) (timer_objects t) (timer_infos t) (Timer.id2_timer_info t) (armed t)))
    eq_refl eq_refl eq_refl eq_refl) as Hfail0.
  destruct (a_now ans) as [now|]; [|simplify_eq; by intros [= <- <-]; left].
  destruct (negb (bool_decide (c = RCL_ROS_TIME) && bool_decide (a_eventfd ans = None))) eqn:Hev;
    [|simplify_eq; by intros [= <- <-]; left].
  set (efd := if bool_decide (c = RCL_ROS_TIME) then a_eventfd ans else None) in *.
  assert (efd = None \/ efd = a_eventfd ans) as Hefd
    by (subst efd; destruct (bool_decide (c = RCL_ROS_TIME)); [by right|by left]).
  destruct (if bool_decide (c = RCL_ROS_TIME) && a_ros_time_is_active ans then _ else _)
    as [t2 fd] eqn:E2.
  assert (timer_objects t2 = <[n := TimerBase false false 0]> (timer_objects t) /\
    next_timer_id t2 = n + 1 /\ timer_infos t2 = timer_infos t /\
    Timer.id2_timer_info t2 = Timer.id2_timer_info t /\
    match fd with
    | Returns fd => (fd = None \/ fd = a_timerfd ans) /\ (is_Some fd \/ is_Some efd)
    | _ => True
    end) as (Eo & En & Ei & Et & Hfd).
  { destruct (bool_decide (c = RCL_ROS_TIME) && a_ros_time_is_active ans) eqn:Hros.
    - injection E2 as <- <-. split_and!; try done; [by left|right]. subst efd.
      apply andb_true_iff in Hros as [Hros _]. rw Hros in Hev |- *. simpl in Hev.
      by destruct (a_eventfd ans).
    - destruct (create_timer_fd _ _ _ _) as [t3 r3] eqn:E3.
      apply create_timer_fd_frame in E3 as (F1 & F2 & F3 & F4 & F5).
      destruct r3; simplify_eq; split_and!; try done; [by right|by left]. }
  destruct fd as [fd| |]; simplify_eq.
  - intros [= <- <-]. right. split; [done|]. destruct Hfd as [Hfd Hsome].
    exists (set_need_updates (bool_decide (is_Some fd)) (bool_decide (is_Some efd)) true
      (setup_time_jump_callback (TimerInfo fd false efd false g now (i64 (now + period)) 0 period
        true c None))).
    clear E2. clearbody efd. split; simpl; rw ?En ?Ei ?Et ?Eo; try done; destruct c; try done;
      simpl; (destruct Hsome; [rw (bool_decide_true (is_Some fd))|
                               rw (bool_decide_true (is_Some efd))]; rw ?orb_true_r; done).
  - intros [= <- <-]. left. split; [done|]. by apply Hfail.
  - intros [= <- <-]. left. split; [done|]. by apply Hfail.
Qed.

Lemma create_timer_ok p period g c ans p' :
  allowed p (ACreateTimer period g c ans) ->
  act (ACreateTimer period g c ans) p = Some p' -> proc_ok p -> proc_ok p'.
Proof.
  intros (Hnext & Hefd & Htfd & Hne). simpl. intros Ha Hok.
  pose proof (o_tables _ Hok) as [T1 T2 T3 T4 T5 T6].
  destruct (create_timer _ _ _ _ _) as [t' r] eqn:E.
  apply create_timer_cases in E as [[-> Hl]|[-> [ti [E1 E2 E3 E4 E5 E6 E7 E8 E9 E10]]]]; try lia;
    simplify_eq.
  { apply (frame_ok p); try done; [apply same_epoll_refl|by left|by right]. }
  set (n := next_timer_id (timer_table p)) in *.
  assert (timer_infos (timer_table p) !! n = None) as Hn.
  { destruct (timer_infos (timer_table p) !! n) eqn:E; [|done]. exfalso.
    assert (0 <= n < n) by (apply T4; by rw E). lia. }
  set (p' := set_dispatch _ _).
  assert (forall s fd, fd_of p' s = Some fd ->
    (fd_of p s = Some fd /\ watch p' s = watch p s) \/
    (fresh_fd p fd /\ (s = TimerSource n /\ a_timerfd ans = Some fd \/
                       s = ClockSource n /\ a_eventfd ans = Some fd) /\
     exists g', watch p' s = Some (true, g'))) as Hold.
  { intros [id|tid|tid|i] fd; simpl; rw ?E2; [by left| | |by left];
      (destruct (decide (tid = n)) as [-> |Htid];
       [rw lookup_insert_eq /=; intros Hfd; right|rw lookup_insert_ne; [|done]; by left]).
    - rw E8 Hfd. destruct E6 as [E6|E6]; [congruence|]. rw E6 in Hfd.
      split; [by apply Htfd|]. split; [by left|]. by eexists.
    - rw E9 Hfd. destruct E7 as [E7|E7]; [congruence|]. rw E7 in Hfd.
      split; [by apply Hefd|]. split; [by right|]. by eexists. }
  apply (opening_ok p); try done.
  - split; simpl; rw ?E1 ?E2 ?E3.
    + done.
    + done.
    + intros tid ti'. destruct (decide (tid = n)) as [-> |Htid].
      * rw lookup_insert_eq. by intros [= <-].
      * rw lookup_insert_ne; eauto.
    + intros tid. rw lookup_insert_is_Some. intros [<-|[_ Hs]]; [lia|]. specialize (T4 tid Hs). lia.
    + intros tid. rw lookup_insert_is_Some. destruct (decide (n = tid)); [by left|right].
      split; [done|]. apply T5. set_solver.
    + lia.
  - intros s fd Hs. destruct (Hold s fd Hs) as [H1|(H1 & _ & H2)]; auto.
  - intros s1 s2 fd Hf H1 H2.
    destruct (Hold s1 fd H1) as [[H1' _]|(_ & H1' & _)]; [by apply Hf in H1'|].
    destruct (Hold s2 fd H2) as [[H2' _]|(_ & H2' & _)]; [by apply Hf in H2'|].
    destruct H1' as [[-> A1]|[-> A1]], H2' as [[-> A2]|[-> A2]]; try done; exfalso;
      destruct Hne as [Hne|Hne]; congruence.
  - intros [id|tid|tid|i] fd Hs; simpl in *; try done; rw E2;
      (destruct (decide (tid = n)) as [-> |Htid]; [by rw Hn in Hs|by rw lookup_insert_ne]).
Qed.

(** *** Requests and preparation *)

Lemma lookup_alter_exec (l : list exec_state) i j f y :
  alter f i l !! j = Some y ->
  (j <> i /\ l !! j = Some y) \/ (j = i /\ exists x, l !! i = Some x /\ y = f x).
Proof.
  destruct (decide (i = j)) as [-> |Hne].
  - rw list_lookup_alter_eq. intros (x & Hx & ->)%fmap_Some. right. eauto.
  - rw list_lookup_alter_ne; [|done]. by left.
Qed.

Lemma tracker_alter f (l : list exec_state) i :
  (forall x, ex_tracker (f x) = ex_tracker x) -> ex_tracker <$> alter f i l = ex_tracker <$> l.
Proof.
  intros Hf. revert i. induction l as [|x l IH]; intros [|i]; csimpl; try done; by rw ?Hf ?IH.
Qed.

Lemma tracker_unique p i j x y :
  trackers_ok p -> execs p !! i = Some x -> execs p !! j = Some y -> ex_tracker x = ex_tracker y ->
  i = j.
Proof.
  intros Hk Hi Hj He. eapply (NoDup_lookup _ i j (ex_tracker x) (k_nodup _ Hk));
    rw list_lookup_fmap; [by rw Hi|by rw Hj He].
Qed.

Lemma take_ok p i p' : act (ATake i) p = Some p' -> proc_ok p -> proc_ok p'.
Proof.
  simpl. intros Ha Hok. destruct (execs p !! i) as [x|] eqn:Hx; [|by simplify_eq].
  destruct Hok as [Hw Ht Hk Hr]. unfold take_update_request in Ha.
  destruct (k_known _ Hk _ _ Hx) as [b Hb]. rw Hb in Ha. simplify_eq.
  set (stage := match ex_kind x with AgnocastOnly => -1 | _ => 0 end).
  assert (-1 <= stage <= 0) as Hstage by (subst stage; destruct (ex_kind x); lia).
  set (f := fun y => if b then set_preparing (ex_preparing y ++ [stage]) y else y).
  assert ((if b then upd_exec i (fun x => set_preparing (ex_preparing x ++ [stage]) x) p else p) =
    upd_exec i f p) as ->.
  { subst f. destruct b; [done|]. unfold upd_exec. rw list_alter_id; [|done]. by destruct p. }
  assert (forall y, ex_loop (f y) = ex_loop y /\ ex_shutdown_fd (f y) = ex_shutdown_fd y /\
    ex_tracker (f y) = ex_tracker y) as Hf by (intros y; subst f; by destruct b).
  assert (forall s, fd_of (set_dispatch (Dispatcher (next_tracker_id_ (dispatch p))
    (<[ex_tracker x := false]> (trackers_ (dispatch p)))) (upd_exec i f p)) s = fd_of p s) as Hfd.
  { intros s. apply fd_of_execs; try done. intros j. apply shutdown_fd_alter. intros y. apply Hf. }
  split.
  - assert (watched (upd_exec i f (set_groups (groups p) (nodes_with_executor p) p))) as Hw'.
    { apply watched_set_preparing; [|done]. intros y. destruct (Hf y) as (? & ? & _). done. }
    by destruct Hw'.
  - by destruct Ht.
  - destruct Hk as [K1 K2 K3 K4 K5]. split; simpl; try done.
    + rw tracker_alter; [done|]. apply Hf.
    + intros j y Hy. apply lookup_insert_is_Some.
      destruct (decide (ex_tracker x = ex_tracker y)); [by left|right]. split; [done|].
      apply lookup_alter_exec in Hy as [[_ Hy]|[-> (y0 & Hy & ->)]]; [by eapply K2|].
      destruct (Hf y0) as (_ & _ & ->). by eapply K2.
    + intros k. rw lookup_insert_is_Some. intros [<-|[_ Hin]]; apply K3; [by rw Hb|done].
    + intros j y st Hy Hst.
      apply lookup_alter_exec in Hy as [[_ Hy]|[-> (y0 & Hy & ->)]]; [by eapply K5|].
      subst f. destruct b; [|by eapply K5]. simpl in Hst.
      apply elem_of_app in Hst as [Hst| ->%list_elem_of_singleton]; [by eapply K5|lia].
  - intros j y s fd g Hy Hs Hwt Hlv Hwant. rw Hfd in Hs. simpl in Hy.
    assert (watch p s = Some (true, g)) as Hwt' by (by destruct s).
    assert (live p s) as Hlv' by (by destruct s).
    apply lookup_alter_exec in Hy as [[Hne Hy]|[-> (y0 & Hy & ->)]].
    + destruct (Hr j y s fd g Hy Hs Hwt' Hlv' Hwant) as [Hreq|Hreq]; [left|by right].
      simpl. rw lookup_insert_ne; [done|]. intros Heq.
      apply Hne. symmetry. by eapply tracker_unique.
    + assert (y0 = x) as -> by congruence. assert (wants (groups p) x g) as Hwant'.
      { subst f. by destruct b. }
      destruct (Hr i x s fd g Hx Hs Hwt' Hlv' Hwant') as [Hreq|(st & Hst & Hle)]; right.
      * rw Hb in Hreq. injection Hreq as ->. exists stage. subst f. simpl. split.
        -- apply elem_of_app. right. by apply list_elem_of_singleton.
        -- destruct s; simpl in *; unfold EpollEventType_Subscription, EpollEventType_Timer,
             EpollEventType_Clock, EpollEventType_Shutdown; lia.
      * exists st. subst f. destruct b; simpl; [|done]. split; [|done]. apply elem_of_app. by left.
Qed.

Lemma next_stage_keeps k stage (l : list Z) st :
  l !! k = Some stage -> st ∈ l -> st <> stage \/ stage < 2 -> st <= 2 ->
  exists st', st' ∈ next_stage k stage l /\ (st' = st \/ st = stage /\ st' = stage + 1).
Proof.
  intros Hk Hst Hor Hle. unfold next_stage.
  apply list_elem_of_lookup in Hst as [j Hj]. pose proof (lookup_lt_Some _ _ _ Hk).
  destruct (decide (j = k)) as [-> |Hne].
  - assert (st = stage) as -> by congruence. destruct Hor as [?|Hlt]; [done|].
    rw (proj2 (Z.ltb_lt stage 2) Hlt). exists (stage + 1). split; [|by right].
    apply list_elem_of_lookup. exists k. by apply list_lookup_insert_eq.
  - exists st. split; [|by left]. destruct (stage <? 2).
    + apply list_elem_of_lookup. exists j. by rw list_lookup_insert_ne.
    + assert (l ≡ₚ stage :: delete k l) as Hp by (by apply delete_Permutation).
      destruct (decide (st = stage)) as [-> |Hn].
      * apply list_elem_of_lookup. destruct (decide (j < k)%nat).
        -- exists j. rw list_lookup_delete_lt; [done|lia].
        -- exists (j - 1)%nat. rw list_lookup_delete_ge; [|lia].
           by replace (S (j - 1)) with j by lia.
      * assert (st ∈ stage :: delete k l) as Hin.
        { rw -Hp. apply list_elem_of_lookup. by exists j. }
        apply elem_of_cons in Hin as [?|?]; done.
Qed.

Lemma next_stage_range k stage (l : list Z) st :
  l !! k = Some stage -> (forall z, z ∈ l -> -1 <= z <= 2) -> st ∈ next_stage k stage l -> -1 <= st <= 2.
Proof.
  intros Hk Hall. unfold next_stage. destruct (Z.ltb_spec stage 2).
  - intros Hst. apply list_elem_of_lookup in Hst as [j Hj].
    apply list_lookup_insert_Some in Hj as [(-> & <- & _)|[_ Hj]].
    + assert (-1 <= stage <= 2) by (apply Hall, list_elem_of_lookup; by exists j). lia.
    + apply Hall, list_elem_of_lookup. by exists j.
  - intros Hst. apply Hall. rw (delete_Permutation _ _ _ Hk). apply elem_of_cons. by right.
Qed.

Lemma prepare_ok p i k order ctl p' :
  allowed p (APrepare i k order ctl) -> act (APrepare i k order ctl) p = Some p' ->
  proc_ok p -> proc_ok p'.
Proof.
  intros Hal. simpl. intros Ha Hok. destruct (execs p !! i) as [x|] eqn:Hx; [|by simplify_eq].
  destruct (ex_preparing x !! k) as [stage|] eqn:Hstage; [|by simplify_eq].
  destruct Hok as [Hw Ht Hk Hr].
  assert (stage ∈ ex_preparing x) as Hin by (apply list_elem_of_lookup; by exists k).
  pose proof (k_stages _ Hk i x stage Hx Hin) as Hrange.
  destruct (prepare_stage_ok _ _ _ _ _ _ _ _ Hx Hstage Hrange Hw Ht Hal Ha)
    as [Pw Pt Pwaits Pfds Plive Pd (f & Pe & Hf) Pdone].
  split; [done|done| |].
  - destruct Hk as [K1 K2 K3 K4 K5]. split; rw ?Pd ?Pe; try done.
    + rw tracker_alter; [done|]. intros y. apply Hf.
    + intros j y Hy. apply lookup_alter_exec in Hy as [[_ Hy]|[-> (y0 & Hy & ->)]]; [by eapply K2|].
      rw (proj1 (Hf y0)). by eapply K2.
    + intros j y st Hy Hst.
      apply lookup_alter_exec in Hy as [[_ Hy]|[-> (y0 & Hy & ->)]]; [by eapply K5|].
      assert (y0 = x) as -> by congruence. rw (proj1 (proj2 (Hf x))) in Hst.
      eapply next_stage_range; [done| |done]. intros z. by apply (K5 i).
  - intros j y s fd g Hy Hs Hwt Hlv Hwant. rw Pfds in Hs. rw Pd. rw Pe in Hy.
    assert (watch p s = Some (true, g)) as Hwt' by (by apply Pwaits).
    assert (live p s) as Hlv' by (by apply Plive).
    apply lookup_alter_exec in Hy as [[Hne Hy]|[-> (y0 & Hy & ->)]].
    { apply (Hr j y s fd g Hy Hs Hwt' Hlv'). by apply (wants_groups (groups p')). }
    assert (y0 = x) as -> by congruence. destruct (Hf x) as (Ft & Fp & Fw). rw Ft Fp.
    assert (0 <= stage_of s < 3) as Hs3.
    { destruct s; simpl in *; try done; unfold EpollEventType_Subscription, EpollEventType_Timer,
        EpollEventType_Clock; lia. }
    destruct (Z.eq_dec stage (-1)) as [-> |Hst1].
    { right. destruct (next_stage_keeps k (-1) (ex_preparing x) (-1)) as (st' & Hin' & Hst');
        [done|done|right; lia|lia|]. exists st'. split; [done|lia]. }
    rw Fw in Hwant; [|done]. apply (wants_groups _ (groups p)) in Hwant.
    destruct (Hr i x s fd g Hx Hs Hwt' Hlv' Hwant) as [Hreq|(st & Hst & Hle)]; [by left|right].
    destruct (Z.eq_dec (stage_of s) stage) as [Heq|Hneq].
    { exfalso. by apply (Pdone s fd g Hst1 Heq Hs Hlv' Hwt). }
    pose proof (k_stages _ Hk i x st Hx Hst).
    destruct (next_stage_keeps k stage (ex_preparing x) st) as (st' & Hin' & Hst');
      [done|done| |lia|exists st'; split; [done|lia]].
    destruct (Z.eq_dec st stage); [right; lia|by left].
Qed.

(** An executor whose associations change has been asked to prepare. *)
Lemma associations_ok p p' i x x' :
  execs p !! i = Some x -> execs p' = alter (fun _ => x') i (execs p) ->
  ex_loop x' = ex_loop x -> ex_shutdown_fd x' = ex_shutdown_fd x -> ex_tracker x' = ex_tracker x ->
  ex_preparing x' = ex_preparing x ->
  (dispatch p' = request_update (ex_tracker x) (dispatch p) \/
   dispatch p' = dispatch p /\ forall gs g, wants gs x' g <-> wants gs x g) ->
  timer_table p' = timer_table p -> callback_table p' = callback_table p -> sub_fds p' = sub_fds p ->
  proc_ok p -> proc_ok p'.
Proof.
  intros Hx He E1 E2 E3 E4 Hd Htm Hcb Hsub [Hw Ht Hk Hr].
  set (f := fun y => ExecState (ex_kind x') (ex_loop y) (ex_tracker y) (ex_manual x') (ex_auto x')
    (ex_nodes x') (ex_shutdown_fd y) (ex_preparing y)).
  assert (execs p' = alter f i (execs p)) as He'.
  { rw He. apply list_alter_ext; [|done]. intros y Hy. assert (y = x) as -> by congruence.
    subst f. simpl. rw -E1 -E2 -E3 -E4. by destruct x'. }
  destruct (k_known _ Hk _ _ Hx) as [b Hb].
  assert (forall t, trackers_ (dispatch p) !! t = Some true -> trackers_ (dispatch p') !! t = Some true)
    as Hmono.
  { intros t Htrue. destruct Hd as [-> |[-> _]]; [|done]. unfold request_update. rw Hb /=.
    destruct (decide (t = ex_tracker x)) as [-> |]; [by rw lookup_insert_eq|by rw lookup_insert_ne]. }
  assert (forall s, fd_of p' s = fd_of p s) as Hfd.
  { intros s. apply fd_of_execs; rw ?Htm; try done. intros j. rw He'. by apply shutdown_fd_alter. }
  split.
  - assert (watched (upd_exec i f (set_groups (groups p) (nodes_with_executor p) p))) as Hw'
      by by apply watched_set_preparing.
    assert (forall s, watch p' s = watch p s) as Hwt.
    { intros s. destruct s; simpl; rw ?Htm ?Hcb; done. }
    destruct Hw' as [W1 W2 W3 W4]. unfold regs in *. simpl in *. split.
    + intros s1 s2 fd. rw !Hfd. apply (w_unique _ Hw).
    + unfold regs. by rw He'.
    + unfold regs. rw He'. intros fd d Hin. destruct (W3 fd d Hin) as (s & Hs & ? & Hs').
      exists s. rw Hfd Hwt. split; [|split; [done|]].
      * rw -Hs. symmetry. apply fd_of_execs; try done. intros j. simpl. by apply shutdown_fd_alter.
      * intros w g Hwg. apply (Hs' w g). by destruct s.
    + unfold regs. rw He'. intros s fd g. rw Hfd Hwt. intros Hs Hwg. apply (W4 s fd g).
      * rw -Hs. apply fd_of_execs; try done. intros j. simpl. by apply shutdown_fd_alter.
      * by destruct s.
  - destruct Ht as [T1 T2 T3 T4 T5 T6]. by split; rw ?Hcb ?Hsub ?Htm.
  - destruct Hk as [K1 K2 K3 K4 K5].
    assert (forall t, is_Some (trackers_ (dispatch p') !! t) <-> is_Some (trackers_ (dispatch p) !! t))
      as Hdom.
    { intros t. destruct Hd as [-> |[-> _]]; [|done]. unfold request_update. rw Hb /=.
      rw lookup_insert_is_Some. destruct (decide (ex_tracker x = t)) as [<-|]; [rw Hb|]; naive_solver. }
    assert (next_tracker_id_ (dispatch p') = next_tracker_id_ (dispatch p)) as Hn.
    { destruct Hd as [-> |[-> _]]; [|done]. unfold request_update. by rw Hb. }
    split; rw ?He' ?Hn; try done.
    + by rw tracker_alter.
    + intros j y Hy. rw Hdom.
      apply lookup_alter_exec in Hy as [[_ Hy]|[-> (y0 & Hy & ->)]];
        [exact (K2 j y Hy)|exact (K2 i y0 Hy)].
    + intros t. rw Hdom. apply K3.
    + intros j y st Hy.
      apply lookup_alter_exec in Hy as [[_ Hy]|[-> (y0 & Hy & ->)]];
        [exact (K5 j y st Hy)|exact (K5 i y0 st Hy)].
  - intros j y s fd g Hy Hs Hwt Hlv Hwant. rw Hfd in Hs. rw He' in Hy.
    assert (watch p s = Some (true, g)) as Hwt' by (destruct s; simpl in *; by rw ?Htm ?Hcb in Hwt).
    assert (live p s) as Hlv' by (destruct s; simpl in *; by rw ?Htm in Hlv).
    apply lookup_alter_exec in Hy as [[Hne Hy]|[-> (y0 & Hy & ->)]].
    + apply (wants_groups _ (groups p)) in Hwant.
      destruct (Hr j y s fd g Hy Hs Hwt' Hlv' Hwant) as [Hreq|Hreq]; [left; by apply Hmono|by right].
    + assert (y0 = x) as -> by congruence. destruct Hd as [Hd|[Hd Hwants]].
      * left. rw Hd. unfold request_update. rw Hb /=. by rw lookup_insert_eq.
      * assert (f x = x') as Hfx by (subst f; simpl; rw -E1 -E2 -E3 -E4; by destruct x').
        rw Hfx in Hwant |- *. rw Hwants in Hwant. apply (wants_groups _ (groups p)) in Hwant.
        rw E3 E4 Hd. by apply (Hr i x s fd g).
Qed.

Lemma new_executor_cases kind fd p p' :
  next_tracker_id_ (dispatch p) + 1 < 2 ^ 64 -> 0 <= next_tracker_id_ (dispatch p) ->
  trackers_ (dispatch p) !! next_tracker_id_ (dispatch p) = None ->
  new_executor kind fd p = Some p' ->
  exists x, p' = set_dispatch (Dispatcher (next_tracker_id_ (dispatch p) + 1)
      (<[next_tracker_id_ (dispatch p) := true]> (trackers_ (dispatch p)))) (set_execs (execs p ++ [x]) p) /\
    ex_tracker x = next_tracker_id_ (dispatch p) /\ ex_preparing x = [] /\
    (ex_shutdown_fd x = None /\ epoll_set (ex_loop x) = [] \/
     exists n, fd = Some n /\ ex_shutdown_fd x = Some n /\
       epoll_set (ex_loop x) = [(n, datum (ShutdownSource (length (execs p))))]).
Proof.
  intros Hb H0 Hn. unfold new_executor, register_tracker, u64. rw Hn Z.mod_small; [|lia].
  destruct kind as [d| |]; [|destruct fd as [n|]|]; simpl; try (intros [= <-]); try done;
    try (eexists; split; [done|]; split; [done|]; split; [done|]; by left).
  destruct fd as [n|]; [|done]. intros [= <-].
  eexists. split; [done|]. split; [done|]. split; [done|]. right. by exists n.
Qed.

Lemma lookup_snoc_exec (l : list exec_state) x j y :
  (l ++ [x]) !! j = Some y -> l !! j = Some y \/ j = length l /\ y = x.
Proof.
  intros H. apply lookup_app_Some in H as [H|[Hle H]]; [by left|right].
  apply list_lookup_singleton_Some in H as [? ->]. split; [lia|done].
Qed.

Lemma new_executor_ok p kind fd p' :
  allowed p (ANewExecutor kind fd) -> act (ANewExecutor kind fd) p = Some p' ->
  proc_ok p -> proc_ok p'.
Proof.
  intros [Hb Hfr]. simpl. intros Ha [Hw Ht Hk Hr].
  pose proof (k_bound _ Hk) as [H0 _].
  assert (trackers_ (dispatch p) !! next_tracker_id_ (dispatch p) = None) as Hn.
  { destruct (trackers_ (dispatch p) !! next_tracker_id_ (dispatch p)) eqn:E; [|done]. exfalso.
    assert (0 <= next_tracker_id_ (dispatch p) < next_tracker_id_ (dispatch p))
      by (apply (k_next _ Hk); by rw E). lia. }
  destruct (new_executor_cases _ _ _ _ Hb H0 Hn Ha) as (x & -> & Htr & Hprep & Hx).
  set (n := length (execs p)) in *. set (p' := set_dispatch _ _).
  assert (forall s, s <> ShutdownSource n -> fd_of p' s = fd_of p s) as Hfd.
  { intros [id|tid|tid|i] Hs; try done. simpl. destruct (decide (i < n)%nat).
    - by rw lookup_app_l.
    - rw !lookup_ge_None_2; [done|lia|]. rw length_app /=. destruct (decide (i = n)); [congruence|].
      subst n. lia. }
  assert (fd_of p (ShutdownSource n) = None) as Hold by (simpl; by rw lookup_ge_None_2).
  assert (fd_of p' (ShutdownSource n) = ex_shutdown_fd x) as Hnew.
  { simpl. rw lookup_app_r; [|done]. by rw Nat.sub_diag. }
  assert (forall fd', ex_shutdown_fd x = Some fd' -> fresh_fd p fd') as Hfresh.
  { intros fd' E. destruct Hx as [[E' _]|(m & -> & E' & _)]; [congruence|].
    assert (m = fd') as -> by congruence. by apply Hfr. }
  assert (regs p' = regs p ++ epoll_set (ex_loop x)) as Hregs.
  { unfold regs, regs_of. simpl. rw bind_app /=. by rw app_nil_r. }
  split.
  - destruct Hw as [W1 W2 W3 W4]. split.
    + intros s1 s2 fd' H1 H2. destruct (decide (s1 = ShutdownSource n)) as [-> |N1],
        (decide (s2 = ShutdownSource n)) as [-> |N2]; [done| | |].
      * rw Hnew in H1. rw Hfd in H2; [|done]. by apply (Hfresh _ H1) in H2.
      * rw Hnew in H2. rw Hfd in H1; [|done]. by apply (Hfresh _ H2) in H1.
      * rw Hfd in H1; [|done]. rw Hfd in H2; [|done]. by eapply W1.
    + rw Hregs fmap_app. destruct Hx as [[_ ->]|(m & -> & Em & ->)]; simpl; [by rw app_nil_r|].
      apply NoDup_app. split; [done|]. split; [|apply NoDup_singleton].
      intros fd' Hin ->%list_elem_of_singleton. apply list_elem_of_fmap in Hin as ([? d] & -> & Hin).
      destruct (W3 _ _ Hin) as (s & Hs & _). by apply (Hfresh _ Em) in Hs.
    + intros fd' d. rw Hregs. intros [Hin|Hin]%elem_of_app.
      * destruct (W3 _ _ Hin) as (s & Hs & Hd & Hwt). exists s.
        assert (s <> ShutdownSource n) as Hne by (intros ->; congruence).
        rw Hfd; [|done]. split; [done|]. split; [done|]. by destruct s.
      * destruct Hx as [[_ E]|(m & -> & Em & E)]; rw E in Hin; [by apply elem_of_nil in Hin|].
        apply list_elem_of_singleton in Hin. injection Hin as -> ->.
        exists (ShutdownSource n). rw Hnew. done.
    + intros s fd' g Hs Hwt. assert (s <> ShutdownSource n) as Hne by (by intros ->).
      rw Hfd in Hs; [|done]. rw Hregs fmap_app. apply elem_of_app. left. apply (W4 s fd' g Hs).
      by destruct s.
  - by destruct Ht.
  - destruct Hk as [K1 K2 K3 K4 K5]. split; simpl.
    + rw fmap_app /= Htr. apply NoDup_app. split; [done|]. split; [|apply NoDup_singleton].
      intros t Hin ->%list_elem_of_singleton. apply list_elem_of_fmap in Hin as (y & Ey & Hin).
      apply list_elem_of_lookup in Hin as [j Hj]. destruct (K2 j y Hj) as [b Hb']. congruence.
    + intros j y [Hj|[-> ->]]%lookup_snoc_exec; apply lookup_insert_is_Some; [|by left].
      destruct (decide (next_tracker_id_ (dispatch p) = ex_tracker y)); [by left|right].
      split; [done|]. by eapply K2.
    + intros t. rw lookup_insert_is_Some. intros [<-|[_ Hs]]; [lia|]. specialize (K3 t Hs). lia.
    + lia.
    + intros j y st [Hj|[-> ->]]%lookup_snoc_exec; [by apply (K5 j)|].
      rw Hprep. intros Hin. by apply elem_of_nil in Hin.
  - intros j y s fd' g Hj Hs Hwt Hlv Hwant.
    assert (s <> ShutdownSource n) as Hne by (by intros ->). rw Hfd in Hs; [|done].
    apply lookup_snoc_exec in Hj as [Hj|[-> ->]].
    + assert (watch p s = Some (true, g)) as Hwt' by (by destruct s).
      assert (live p s) as Hlv' by (by destruct s).
      destruct (Hr j y s fd' g Hj Hs Hwt' Hlv' Hwant) as [Hreq|Hreq]; [left|by right].
      simpl. rw lookup_insert_ne; [done|]. intros E. rw E Hreq in Hn. done.
    + left. rw Htr. simpl. by rw lookup_insert_eq.
Qed.

(** *** Every action *)

Lemma timers_like_trans t1 t2 t3 : timers_like t1 t2 -> timers_like t2 t3 -> timers_like t1 t3.
Proof.
  intros [A1 A2 A3 A4] [B1 B2 B3 B4]. split; [lia|set_solver|naive_solver|]. intros tid. congruence.
Qed.

Lemma timers_like_info tid ti ti' t :
  timer_infos t !! tid = Some ti -> watch_fields ti' = watch_fields ti ->
  timers_like t (set_info tid ti' t).
Proof.
  intros Hti Hf. split; simpl; [by left|done..|]. intros tid'.
  destruct (decide (tid' = tid)) as [-> |]; [by rw lookup_insert_eq Hti /= Hf|by rw lookup_insert_ne].
Qed.

Lemma timers_like_object tid o t :
  is_Some (timer_objects t !! tid) -> timers_like t (set_object tid o t).
Proof.
  intros Ho. split; simpl; [by left|done|intros tid'|done].
  rw lookup_insert_is_Some. by intros [<-|[_ ?]].
Qed.

Lemma timers_like_armed a t : timers_like t (set_armed a t).
Proof. split; [by left|done..]. Qed.

Lemma set_timer_fd_like ok fd v w t : timers_like t (set_timer_fd ok fd v w t).1.
Proof. unfold set_timer_fd. destruct ok; [apply timers_like_armed|apply timers_like_refl]. Qed.

Lemma reset_like now ok tid o t :
  is_Some (timer_objects t !! tid) -> timers_like t (reset now ok tid o t).1.
Proof.
  intros Ho. unfold reset. destruct (timer_infos t !! tid) as [ti|] eqn:Hti; [|apply timers_like_refl].
  assert (timers_like t (info_reset now ok tid ti t).1) as Hi.
  { unfold info_reset. destruct now as [n|]; [|apply timers_like_refl].
    assert (timers_like t (set_info tid (set_times (last_call_time_ns ti) (i64 (n + period_ns ti)) ti) t))
      by by eapply timers_like_info.
    destruct (timer_fd ti); [|done]. eapply timers_like_trans; [done|apply set_timer_fd_like]. }
  assert (is_Some (timer_objects (info_reset now ok tid ti t).1 !! tid)) as Ho'.
  { unfold info_reset, arm_timer_fd, set_timer_fd. destruct now; [|done].
    destruct (timer_fd ti); [|done]. by destruct ok. }
  destruct (info_reset now ok tid ti t) as [t1 []]; [|done..].
  destruct (on_reset_callback_ o); (eapply timers_like_trans; [exact Hi|by apply timers_like_object]).
Qed.

Lemma set_period_like now ok period tid t : timers_like t (set_period now ok period tid t).1.
Proof.
  unfold set_period. destruct (timer_infos t !! tid) as [ti|] eqn:Hti; [|apply timers_like_refl].
  unfold info_set_period.
  assert (timers_like t (set_info tid (set_period_ns period ti) t)) by by eapply timers_like_info.
  destruct (timer_fd ti); [|done]. destruct now; [|done].
  eapply timers_like_trans; [done|apply set_timer_fd_like].
Qed.

Lemma frame_timers p t : timers_like (timer_table p) t -> proc_ok p -> proc_ok (set_timers t p).
Proof. intros Hl. apply frame_ok; try done; [apply same_epoll_refl|by left|by right]. Qed.

(** Neither tables nor executors change, apart from the queue of an executor. *)
Lemma frame_same p p' :
  Forall2 same_epoll (execs p) (execs p') -> timer_table p' = timer_table p ->
  callback_table p' = callback_table p -> sub_fds p' = sub_fds p -> dispatch p' = dispatch p ->
  proc_ok p -> proc_ok p'.
Proof.
  intros He Ht Hc Hs Hd. apply frame_ok; rw ?Ht ?Hc; try done;
    [apply timers_like_refl|by left|by right].
Qed.

Lemma handle_epoll_set type id val now t e e' :
  (if type =? EpollEventType_Timer then handle_timer id val else handle_clock id val now) t e = Returns e' ->
  epoll_set e' = epoll_set e.
Proof.
  unfold handle_timer, handle_clock. intros H. destruct (type =? EpollEventType_Timer);
    repeat case_match; simplify_eq; done.
Qed.

Lemma handle_event_ok i data val now p p' :
  handle_event i data val now p = Some p' -> proc_ok p -> proc_ok p'.
Proof.
  unfold handle_event. destruct (wait_and_handle_epoll_event _) as [[[type id]|]| |]; try done.
  2: by intros [= <-].
  destruct (type =? EpollEventType_Subscription).
  { destruct (find_callback _ _); intros [= <-]; [|done].
    apply frame_same; try done. apply same_epoll_refl. }
  destruct (_ || _); [|by intros [= <-]].
  destruct (execs p !! i) as [x|] eqn:Hx; [|by intros [= <-]].
  destruct ((if type =? EpollEventType_Timer then handle_timer id val else handle_clock id val now)
    (timer_table p) (ex_loop x)) as [e| |] eqn:E; [|by intros [= <-]|done].
  intros [= <-]. apply frame_same; try done. eapply same_epoll_alter; [done|].
  by eapply handle_epoll_set.
Qed.

Lemma alter_const_preparing (l : list exec_state) i x x' :
  l !! i = Some x -> alter (fun _ => x') i l !! i = Some x'.
Proof. intros Hx. by rw list_lookup_alter_eq Hx. Qed.

Lemma set_associations_same m a ns x :
  ex_loop (set_associations m a ns x) = ex_loop x /\
  ex_shutdown_fd (set_associations m a ns x) = ex_shutdown_fd x /\
  ex_tracker (set_associations m a ns x) = ex_tracker x /\
  ex_preparing (set_associations m a ns x) = ex_preparing x.
Proof. done. Qed.

Lemma act_proc_ok a p p' : allowed p a -> act a p = Some p' -> proc_ok p -> proc_ok p'.
Proof.
  intros Hal Ha Hok. destruct a.
  - simpl in Ha. simplify_eq. destruct (groups p !! group); [done|].
    apply (frame_same p); try done. apply same_epoll_refl.
  - by eapply new_executor_ok.
  - by eapply register_ok.
  - simpl in Ha. simplify_eq. apply (frame_ok p); try done; simpl;
      [apply same_epoll_refl|apply timers_like_refl|by left|]. intros id'.
    destruct (decide (id' = id)) as [-> |]; [left; by rw lookup_delete_eq|right; by rw lookup_delete_ne].
  - by eapply close_eventfd_ok.
  - by eapply create_timer_ok.
  - simpl in Ha. simplify_eq. apply frame_timers; [|done].
    split; simpl; [by left|done|intros tid|done]. rw lookup_delete_is_Some. by intros [_ ?].
  - simpl in Ha. destruct (timer_objects (timer_table p) !! timer_id); simplify_eq; [done|].
    apply collect_timer_ok, frame_timers; [|done].
    split; simpl; [by left|set_solver|done|done].
  - simpl in Ha. destruct (timer_objects (timer_table p) !! timer_id) eqn:Ho; simplify_eq; [|done].
    apply frame_timers; [|done]. apply timers_like_object. by rw Ho.
  - simpl in Ha. destruct (timer_objects (timer_table p) !! timer_id) eqn:Ho; simplify_eq; [|done].
    apply frame_timers; [|done]. apply reset_like. by rw Ho.
  - simpl in Ha. destruct (timer_objects (timer_table p) !! timer_id) eqn:Ho; simplify_eq; [|done].
    apply frame_timers; [|done]. apply set_period_like.
  - simpl in Ha. destruct (timer_infos (timer_table p) !! timer_id) eqn:Hi; simplify_eq; [|done].
    apply frame_timers; [|done]. eapply timers_like_info; [done|].
    unfold handle_pre_time_jump. destruct now; [|done]. by destruct (negb _).
  - by eapply post_jump_ok.
  - by eapply take_ok.
  - by eapply prepare_ok.
  - simpl in Ha. repeat case_match; simplify_eq; try done.
    apply (frame_same p); try done. apply same_epoll_refl.
  - simpl in Ha. destruct (fetched p !! k) as [[i data]|]; [|by simplify_eq].
    eapply handle_event_ok; [done|]. apply (frame_same p); try done. apply same_epoll_refl.
  - simpl in Ha. destruct (handling p !! k) as [[i [id c]]|]; [|by simplify_eq].
    assert (proc_ok (set_fetched (fetched p) (delete k (handling p)) p)) as Hok'
      by (apply (frame_same p); try done; apply same_epoll_refl).
    destruct (execs p !! i) as [x|] eqn:Hx; [|by simplify_eq].
    destruct (handle_callback _ _ _ _) as [e| |] eqn:E; simplify_eq.
    apply (frame_same p); try done. eapply same_epoll_alter; [exact Hx|].
    unfold handle_callback in E. destruct r; by simplify_eq.
  - simpl in Ha. destruct (execs p !! i) as [x|] eqn:Hx; [|by simplify_eq].
    destruct (get_next_ready_agnocast_executable _ _ _) as [gs [[it rest]|]]; simplify_eq.
    + apply (frame_same p); try done. by eapply same_epoll_alter.
    + apply (frame_same p); try done. apply same_epoll_refl.
  - simpl in Ha. destruct (running p !! k) as [[i [[|tid] g]]|]; simplify_eq; try done.
    destruct (timer_infos (timer_table p) !! tid) as [ti|] eqn:Hi; simplify_eq; [|done].
    destruct (handle_timer_event _ _ _) as [ti' b] eqn:E. simplify_eq.
    apply frame_timers; [|done]. eapply timers_like_info; [done|].
    unfold handle_timer_event in E. repeat case_match; by simplify_eq.
  - simpl in Ha. destruct (running p !! k) as [[i it]|]; [|by simplify_eq].
    destruct (callable it); simplify_eq.
    + apply (frame_same p); try done.
      apply (same_epoll_alter_fun (execs p) i (reenqueue ret_call_again it)).
      intros e. by destruct ret_call_again.
    + apply collect_timer_ok. apply (frame_same p); try done. apply same_epoll_refl.
  - simpl in Ha. destruct (execs p !! i) as [x|] eqn:Hx; [|by simplify_eq].
    destruct (ex_kind x); [by simplify_eq..|].
    unfold add_callback_group in Ha. repeat case_match; simplify_eq.
    eapply (associations_ok p); [exact Hx|reflexivity|done|done|done|done|by left|done|done|done|done].
  - simpl in Ha. destruct (execs p !! i) as [x|] eqn:Hx; [|by simplify_eq].
    destruct (ex_kind x); [by simplify_eq..|].
    unfold remove_callback_group in Ha. repeat case_match; simplify_eq.
    eapply (associations_ok p); [exact Hx|reflexivity|done|done|done|done|by left|done|done|done|done].
  - simpl in Ha. destruct (execs p !! i) as [x|] eqn:Hx; [|by simplify_eq].
    destruct (ex_kind x); [by simplify_eq..|].
    unfold add_node in Ha. repeat case_match; simplify_eq.
    eapply (associations_ok p); [exact Hx|reflexivity|done|done|done|done|by left|done|done|done|done].
  - simpl in Ha. destruct (execs p !! i) as [x|] eqn:Hx; [|by simplify_eq].
    destruct (ex_kind x); [by simplify_eq..|].
    unfold remove_node in Ha. repeat case_match; simplify_eq.
    eapply (associations_ok p); [exact Hx|reflexivity|done|done|done|done|by left|done|done|done|done].
  - simpl in Ha. simplify_eq. destruct (execs p !! i) as [x|] eqn:Hx.
    + eapply (associations_ok p _ i x
        (match ex_kind x with AgnocastOnly => x | _ => set_associations manual auto (ex_nodes x) x end));
        [exact Hx| | | | | | |done|done|done|done].
      * simpl. apply list_alter_ext; [|done]. intros y Hy. by assert (y = x) as -> by congruence.
      * by destruct (ex_kind x).
      * by destruct (ex_kind x).
      * by destruct (ex_kind x).
      * by destruct (ex_kind x).
      * right. split; [done|]. intros gs g. destruct (ex_kind x) eqn:Hkind; [..|done];
          unfold wants, validate; simpl; by rw Hkind.
    + apply (frame_same p); try done. simpl. unfold upd_exec. simpl.
      replace (alter _ i (execs p)) with (execs p); [apply same_epoll_refl|].
      apply list_eq. intros j. destruct (decide (i = j)) as [<-|];
        [by rw list_lookup_alter_eq Hx|by rw list_lookup_alter_ne].
  - simpl in Ha. repeat case_match; simplify_eq; try done;
      (apply (frame_same p); try done; apply same_epoll_refl).
  - simpl in Ha. repeat case_match; simplify_eq; try done;
      (apply (frame_same p); try done; apply same_epoll_refl).
Qed.

(** ** Theorems *)

Lemma new_process_ok : proc_ok new_process.
Proof.
  split.
  - split; try done.
    + intros [] s2 fd; simpl; rw ?lookup_empty; done.
    + constructor.
    + intros fd d Hin. by apply elem_of_nil in Hin.
    + intros [] fd g; simpl; rw ?lookup_empty; done.
  - split; simpl; try done.
    + intros id. rw lookup_empty. by intros [? ?].
    + intros tid. rw lookup_empty. by intros [? ?].
  - split; simpl; try done; [constructor|]. intros k. rw lookup_empty. by intros [? ?].
  - by intros i x.
Qed.

Lemma reachable_ok p : reachable p -> proc_ok p.
Proof. induction 1; [apply new_process_ok|by eapply act_proc_ok]. Qed.

Lemma reachable_exclusive p : reachable_undisturbed p -> exclusive p.
Proof.
  induction 1; [|by eapply exclusive_act]. intros g. simpl. by rw lookup_empty.
Qed.

(** C25. However the executors, their threads and rclcpp interleave, as long as nobody takes a mutually
    exclusive group between rclcpp's load of its [can_be_taken_from] and rclcpp's store, at most one
    callback of a mutually exclusive callback group runs at any time, and while one runs the group is
    marked as taken. *)
Theorem mutually_exclusive_callbacks p g gi :
  reachable_undisturbed p -> groups p !! g = Some gi -> mutually_exclusive gi = true ->
  (running_of g p <= 1)%nat /\ (running_of g p = 1%nat <-> can_be_taken_from gi = false).
Proof.
  intros Hr Hg Hm. pose proof (reachable_exclusive p Hr g) as H. rw Hg /= in H.
  unfold group_flags in H. rw Hm in H. rw H. destruct (can_be_taken_from gi); split; lia || done.
Qed.

(** C26. In every reachable state of a process: no descriptor is in two epoll instances or twice in one, so
    EPOLL_CTL_ADD never meets a descriptor that is there already; the datum of every registered
    descriptor leads back to the subscription, timer or executor that has it open; and the descriptor
    of a live subscription or timer whose group an executor serves is registered, unless that executor
    has been asked to prepare its epoll instance or one of its threads has still to visit the table. *)
Theorem event_sources_watched p :
  reachable p ->
  NoDup (regs p).*1 /\
  (forall fd d, (fd, d) ∈ regs p ->
     exists s, fd_of p s = Some fd /\ (unpack_epoll_data d).1 = stage_of s /\
       datum s = d /\ forall s', fd_of p s' = Some fd -> s' = s) /\
  (forall s fd g, fd_of p s = Some fd -> watch p s = Some (true, g) -> ~ (fd ∈ (regs p).*1)) /\
  (forall i x s fd w g, execs p !! i = Some x -> fd_of p s = Some fd -> watch p s = Some (w, g) ->
     live p s -> wants (groups p) x g ->
     fd ∈ (regs p).*1 \/ trackers_ (dispatch p) !! ex_tracker x = Some true \/
     exists st, st ∈ ex_preparing x /\ st <= stage_of s).
Proof.
  intros Hreach. destruct (reachable_ok p Hreach) as [[Hu Ho Hr Hi] Ht Hk Hreq].
  split; [done|]. split; [|split].
  - intros fd d Hin. destruct (Hr fd d Hin) as (s & Hs & -> & _). exists s. split; [done|].
    split; [|split; [done|]; intros s' Hs'; by eapply Hu].
    assert (0 <= stage_of s < 2 ^ 32) as Hst by (by destruct s).
    unfold datum. rw unpack_pack_epoll_data; [done|done|].
    pose proof (t_next _ Ht) as [Hn1 Hn2]. destruct s as [id|tid|tid|i]; simpl in Hs; [| | |done].
    + assert (0 <= id < next_callback_info_id (callback_table p)) by (apply (t_sub_ids _ Ht); by rw Hs).
      lia.
    + assert (0 <= tid < next_timer_id (timer_table p)); [|lia]. apply (t_timer_ids _ Ht).
      by destruct (timer_infos (timer_table p) !! tid).
    + assert (0 <= tid < next_timer_id (timer_table p)); [|lia]. apply (t_timer_ids _ Ht).
      by destruct (timer_infos (timer_table p) !! tid).
  - intros s fd g Hs Hw ([fd' d] & -> & Hin)%list_elem_of_fmap.
    destruct (Hr fd' d Hin) as (s' & Hs' & _ & Hw'). simpl in Hs. rw (Hu _ _ _ Hs Hs') in Hw.
    by apply Hw' in Hw.
  - intros i x s fd w g Hx Hs Hw Hl Hwant. destruct w.
    + right. by eapply Hreq.
    + left. by eapply Hi.
Qed.

(** A timer object can be destroyed while a task of it is queued: its [TimerInfo] lives on in the task,
    the timerfd stays armed in the epoll instance, and the entry is gone from the table.  The next
    expiration before the task ends finds no entry and ends the process. *)
Fixpoint run (l : list action) (p : process) : option process :=
  match l with
  | [] => Some p
  | a :: rest => match act a p with Some p' => run rest p' | None => None end
  end.

Definition sample_group : group_info := GroupInfo true true false true 1 false.
Definition sample_answers : register_answers := RegisterAnswers (Some 1000) false None (Some 7) true.
Definition timer_datum : Z := pack_epoll_data EpollEventType_Timer 0.

Definition watch_timer_0 : list action :=
  [ANewGroup 3 sample_group; ANewExecutor MultiThreaded None;
   ACreateTimer 50 3 RCL_STEADY_TIME sample_answers; ATake 0;
   APrepare 0 0 [0] (fun _ => true); APrepare 0 0 [0] (fun _ => true);
   APrepare 0 0 [0] (fun _ => true)].

Definition fire_timer_0 : list action := [AWait 0 (WaitEvent timer_datum); AHandle 0 (Some 1) None].

Definition watched_process : process := default new_process (run watch_timer_0 new_process).

Lemma timer_destroyed_while_queued :
  exists p, run (watch_timer_0 ++ fire_timer_0 ++ [AExpireTimer 0; AUnregisterTimer 0])
              new_process = Some p /\
    (7, timer_datum) ∈ regs p /\ run fire_timer_0 p = None.
Proof.
  eexists. split; [by vm_compute|]. split; [|by vm_compute].
  vm_compute. constructor.
Qed.

Fixpoint allowed_run (l : list action) (p : process) : Prop :=
  match l with
  | [] => True
  | a :: rest => allowed p a /\ forall p', act a p = Some p' -> allowed_run rest p'
  end.

Lemma reach_run l p p' : reachable p -> allowed_run l p -> run l p = Some p' -> reachable p'.
Proof.
  revert p. induction l as [|a l IH]; intros p Hr; simpl; [by intros _ [= <-]|].
  intros [Ha Hl]. destruct (act a p) as [q|] eqn:E; [|done].
  apply IH; [by eapply reach_act|by apply Hl].
Qed.

(** Without a take by rclcpp in the run. *)
Definition no_rcl_take (a : action) : bool := if a is ARclTake _ then false else true.

Lemma undisturbed_run l p p' :
  reachable_undisturbed p -> forallb no_rcl_take l = true -> allowed_run l p -> run l p = Some p' ->
  reachable_undisturbed p'.
Proof.
  revert p. induction l as [|a l IH]; intros p Hr; simpl; [by intros _ _ [= <-]|].
  intros [Hn Hns]%andb_prop [Ha Hl]. destruct (act a p) as [q|] eqn:E; [|done].
  apply IH; [|done|by apply Hl]. apply (undisturbed_act p a); [done..| |done]. by destruct a.
Qed.

Lemma watch_timer_0_allowed : allowed_run watch_timer_0 new_process.
Proof.
  unfold watch_timer_0.
  repeat (split; [|intros p' E; vm_compute in E; injection E as <-]); try done.
  - split_and!; [by vm_compute| | |by left].
    + done.
    + intros fd [= <-] [id|tid|tid|[|i]]; by vm_compute.
  - split; [intros id [? Hid]; by vm_compute in Hid|]. intros tid Htid.
    change (tid ∈ ({[0]} ∪ ∅ : gset Z)) in Htid. set_solver.
  - split; [intros id [? Hid]; by vm_compute in Hid|]. intros tid Htid.
    change (tid ∈ ({[0]} ∪ ∅ : gset Z)) in Htid. set_solver.
  - split; [intros id [? Hid]; by vm_compute in Hid|]. intros tid Htid.
    change (tid ∈ ({[0]} ∪ ∅ : gset Z)) in Htid. set_solver.
Qed.

Lemma watched_process_reachable : reachable watched_process.
Proof.
  apply (reach_run watch_timer_0 new_process); [constructor|apply watch_timer_0_allowed|by vm_compute].
Qed.

Lemma event_sources_watched_witness :
  (7, timer_datum) ∈ regs watched_process /\
  exists s, fd_of watched_process s = Some 7 /\ (unpack_epoll_data timer_datum).1 = stage_of s.
Proof.
  assert ((7, timer_datum) ∈ regs watched_process) as Hin by (vm_compute; constructor).
  split; [exact Hin|].
  destruct (event_sources_watched watched_process watched_process_reachable) as (_ & H & _).
  destruct (H 7 timer_datum Hin) as (s & Hs & Hd & _). by exists s.
Defined.

(** A task of the group runs after its event was handled. *)
Definition run_timer_0 : list action := ARclGroups 0 {[3]} ∅ :: fire_timer_0 ++ [APop 0].

Definition running_process : process := default new_process (run run_timer_0 watched_process).

Lemma running_process_reachable : reachable_undisturbed running_process.
Proof.
  apply (undisturbed_run run_timer_0 watched_process); [|done| |by vm_compute].
  { apply (undisturbed_run watch_timer_0 new_process);
      [constructor|done|apply watch_timer_0_allowed|by vm_compute]. }
  unfold run_timer_0, fire_timer_0. simpl app.
  repeat (split; [|intros p' E; vm_compute in E; injection E as <-]); try done.
  eexists _, 7. split; [by vm_compute|]. vm_compute. constructor.
Qed.

Lemma mutually_exclusive_callbacks_witness :
  running_of 3 running_process = 1%nat /\
  exists gi, groups running_process !! 3 = Some gi /\ can_be_taken_from gi = false.
Proof.
  assert (running_of 3 running_process = 1%nat) as Hn by (by vm_compute).
  split; [exact Hn|].
  assert (groups running_process !! 3 = Some (set_can_be_taken false sample_group)) as Hg
    by (by vm_compute).
  exists (set_can_be_taken false sample_group). split; [exact Hg|].
  destruct (mutually_exclusive_callbacks running_process 3 (set_can_be_taken false sample_group)
    running_process_reachable Hg eq_refl) as [_ Hiff].
  apply Hiff. exact Hn.
Defined.

(** The assumption is needed: rclcpp's store, when an Agnocast task took the group after the load, lets
    two callbacks of the group run. *)
Lemma rcl_take_in_between :
  exists p, act (ARclTake 3) running_process = Some p /\ running_of 3 p = 2%nat.
Proof. eexists. split; [by vm_compute|]. by vm_compute. Qed.
