(* ===== verification/Isolated.v ===== *)
(** * Callback isolated executors

    [CallbackIsolatedAgnocastExecutor] (agnocast_callback_isolated_executor.cpp) and
    [AgnocastOnlyCallbackIsolatedExecutor] (node/agnocast_only_callback_isolated_executor.cpp), which is
    meant where [only] holds: [spin] gives every callback group a child executor with a thread of its own
    and looks for new groups until it is cancelled.  A step is one critical section or one access to an atomic flag,
    of the thread that spins, of a child thread or of a caller of the interface.

    The containers of groups and nodes of [CallbackIsolatedAgnocastExecutor] are sorted by addresses; here they keep the
    order of insertion, which no theorem mentions. *)

From S2P Require Import Prelude.

(** ** State *)

(** Groups, nodes and children are numbered.  [has_executor] is the flag that rclcpp shares between
    executors: an executor sets it for the groups it takes and clears it when it is destroyed. *)
Record callback_group := MkGroup { owner : nat; automatically_add : bool; group_alive : bool; has_executor : bool }.
Record node := MkNode { node_alive : bool; node_has_executor : bool }.

Inductive stage := Started | Spinning | Ended.

#[export] Instance stage_eq_dec : EqDecision stage.
Proof. solve_decision. Defined.

(** A child executor with its thread, which owns it: the executor is gone when the thread has ended. *)
Record child := MkChild {
  child_group : nat;
  child_stage : stage;
  child_spinning : bool;
  child_cancel_requested : bool
}.

(** Where the thread in [spin] is: before the lock of [mutex_], with the groups it collected, before and after
    the sleep of the monitoring loop, with new groups, before the last critical section, joining threads. *)
Inductive position :=
  | Idle
  | Entered
  | Collected (l : list (nat * nat))
  | Monitoring
  | Asleep
  | Awake
  | Scanned (l : list (nat * nat))
  | Closing
  | Joining (l : list nat).

(** [cancelling]: the callers of [cancel] that wait for [child_resources_mutex_]; [stopping]: for each caller that joins
    a thread inside [stop_callback_group], the child whose thread it is, if it is one, and the thread it joins.  A thread
    has the number of its child. *)
Record world := World {
  groups : list callback_group;
  nodes : list node;
  ok : bool;
  weak_nodes : list nat;
  weak_groups_to_nodes : list (nat * nat);
  spinning : bool;
  cancel_requested : bool;
  child_callback_groups : list nat;
  weak_child_executors : list nat;
  child_threads : list nat;
  children : list child;
  spin_at : position;
  cancelling : nat;
  stopping : list (option nat * nat)
}.

Definition start : world := World [] [] true [] [] false false [] [] [] [] Idle 0 [].

Definition with_groups (f : list callback_group -> list callback_group) (w : world) : world :=
  World (f (groups w)) (nodes w) (ok w) (weak_nodes w) (weak_groups_to_nodes w) (spinning w) (cancel_requested w)
    (child_callback_groups w) (weak_child_executors w) (child_threads w) (children w) (spin_at w) (cancelling w) (stopping w).
Definition with_nodes (f : list node -> list node) (w : world) : world :=
  World (groups w) (f (nodes w)) (ok w) (weak_nodes w) (weak_groups_to_nodes w) (spinning w) (cancel_requested w)
    (child_callback_groups w) (weak_child_executors w) (child_threads w) (children w) (spin_at w) (cancelling w) (stopping w).
Definition with_members (ns : list nat) (gs : list (nat * nat)) (w : world) : world :=
  World (groups w) (nodes w) (ok w) ns gs (spinning w) (cancel_requested w)
    (child_callback_groups w) (weak_child_executors w) (child_threads w) (children w) (spin_at w) (cancelling w) (stopping w).
Definition with_flags (o s c : bool) (w : world) : world :=
  World (groups w) (nodes w) o (weak_nodes w) (weak_groups_to_nodes w) s c
    (child_callback_groups w) (weak_child_executors w) (child_threads w) (children w) (spin_at w) (cancelling w) (stopping w).
Definition with_resources (gs es ts : list nat) (w : world) : world :=
  World (groups w) (nodes w) (ok w) (weak_nodes w) (weak_groups_to_nodes w) (spinning w) (cancel_requested w)
    gs es ts (children w) (spin_at w) (cancelling w) (stopping w).
Definition with_children (f : list child -> list child) (w : world) : world :=
  World (groups w) (nodes w) (ok w) (weak_nodes w) (weak_groups_to_nodes w) (spinning w) (cancel_requested w)
    (child_callback_groups w) (weak_child_executors w) (child_threads w) (f (children w)) (spin_at w) (cancelling w) (stopping w).
Definition at_position (p : position) (w : world) : world :=
  World (groups w) (nodes w) (ok w) (weak_nodes w) (weak_groups_to_nodes w) (spinning w) (cancel_requested w)
    (child_callback_groups w) (weak_child_executors w) (child_threads w) (children w) p (cancelling w) (stopping w).
Definition with_callers (n : nat) (l : list (option nat * nat)) (w : world) : world :=
  World (groups w) (nodes w) (ok w) (weak_nodes w) (weak_groups_to_nodes w) (spinning w) (cancel_requested w)
    (child_callback_groups w) (weak_child_executors w) (child_threads w) (children w) (spin_at w) n l.

(** How a run ends: the process exits, or for [HasExecutor] of rclcpp an exception leaves [spin]. *)
Inductive error :=
  | AlreadySpinning | GroupExistsInNode | GroupExistsInExecutor | GroupNotFound | NodeHasGroup
  | NodeExistsInExecutor | NodeNotFound | NodeNotAssociated | NodeDeletedBeforeGroup | HasExecutor.

Inductive outcome := Next (w : world) | Exits (e : error).

(** ** Groups and nodes *)

Section executor.
Context (only : bool).

Definition is_node_alive (w : world) (n : nat) : bool :=
  match nodes w !! n with Some x => node_alive x | None => false end.
Definition is_group_alive (w : world) (g : nat) : bool :=
  match groups w !! g with Some x => group_alive x | None => false end.
Definition is_automatic (w : world) (g : nat) : bool :=
  match groups w !! g with Some x => automatically_add x | None => false end.
Definition is_associated (w : world) (g : nat) : bool :=
  match groups w !! g with Some x => has_executor x | None => false end.

Definition set_associated (b : bool) (x : callback_group) : callback_group :=
  MkGroup (owner x) (automatically_add x) (group_alive x) b.

Definition callback_group_in_node (w : world) (n g : nat) : bool :=
  match groups w !! g with Some x => group_alive x && Nat.eqb (owner x) n | None => false end.

(** The groups of a node, in order of creation. *)
Definition for_each_callback_group (w : world) (n : nat) : list nat :=
  filter (fun g => callback_group_in_node w n g = true) (seq 0 (length (groups w))).

Definition add_callback_group (g n : nat) (w : world) : outcome :=
  if only then
    require negb (is_associated w g) orelse Exits HasExecutor;
    require negb (existsb (fun gn => Nat.eqb gn.1 g) (weak_groups_to_nodes w)) orelse Exits GroupExistsInExecutor;
    Next (with_members (weak_nodes w) (weak_groups_to_nodes w ++ [(g, n)])
            (with_groups (alter (set_associated true) g) w))
  else
    require negb (is_automatic w g &&
                  existsb (fun n => is_node_alive w n && callback_group_in_node w n g) (weak_nodes w))
      orelse Exits GroupExistsInNode;
    require negb (existsb (fun gn => Nat.eqb gn.1 g) (weak_groups_to_nodes w)) orelse Exits GroupExistsInExecutor;
    Next (with_members (weak_nodes w) (weak_groups_to_nodes w ++ [(g, n)]) w).

Definition remove_callback_group (g : nat) (w : world) : outcome :=
  unwrap gn := find (fun gn => Nat.eqb gn.1 g) (weak_groups_to_nodes w) orelse Exits GroupNotFound;
  let rest := filter (fun gn => Nat.eqb gn.1 g = false) (weak_groups_to_nodes w) in
  if only then
    require is_node_alive w gn.2 orelse Exits NodeDeletedBeforeGroup;
    Next (with_members (weak_nodes w) rest (with_groups (alter (set_associated false) g) w))
  else Next (with_members (weak_nodes w) rest w).

Definition add_node (n : nat) (w : world) : outcome :=
  require negb (existsb (fun gn => is_group_alive w gn.1 && (only || is_automatic w gn.1) &&
                                   callback_group_in_node w n gn.1) (weak_groups_to_nodes w))
    orelse Exits NodeHasGroup;
  require negb (existsb (Nat.eqb n) (weak_nodes w)) orelse Exits NodeExistsInExecutor;
  Next (with_members (weak_nodes w ++ [n]) (weak_groups_to_nodes w) w).

(** The other class inherits this one: its map of groups taken from nodes is empty. *)
Definition remove_node (n : nat) (w : world) : outcome :=
  let rest := filter (fun m => Nat.eqb n m = false) (weak_nodes w) in
  let found := existsb (Nat.eqb n) (weak_nodes w) in
  if only then
    require match nodes w !! n with Some x => node_has_executor x | None => false end orelse Exits NodeNotAssociated;
    require found orelse Exits NodeNotFound;
    Next (with_nodes (alter (fun x => MkNode (node_alive x) false) n) (with_members rest (weak_groups_to_nodes w) w))
  else
    require found orelse Exits NodeNotFound;
    Next (with_members rest (weak_groups_to_nodes w) w).

(** ** Spinning *)

Definition manually_added (w : world) : list (nat * nat) :=
  filter (fun gn => is_group_alive w gn.1 && is_node_alive w gn.2 = true) (weak_groups_to_nodes w).

Definition automatically_added (w : world) : list (nat * nat) :=
  mjoin ((fun n => (fun g => (g, n)) <$> filter (fun g => is_automatic w g = true) (for_each_callback_group w n))
           <$> filter (fun n => is_node_alive w n = true) (weak_nodes w)).

(** What the interface reports, the groups only: the base of the other class keeps the groups it takes from nodes itself
    in a map, which stays empty here. *)
Definition get_manually_added_callback_groups_internal (w : world) : list nat :=
  if only then (weak_groups_to_nodes w).*1
  else filter (fun g => is_group_alive w g = true) (weak_groups_to_nodes w).*1.

Definition get_automatically_added_callback_groups_from_nodes_internal (w : world) : list nat :=
  if only then []
  else mjoin ((fun n => filter (fun g => is_automatic w g = true) (for_each_callback_group w n))
                <$> filter (fun n => is_node_alive w n = true) (weak_nodes w)).

Definition get_all_callback_groups (w : world) : list nat :=
  get_manually_added_callback_groups_internal w ++ get_automatically_added_callback_groups_from_nodes_internal w.

(** What [spin] collects before it starts, and what the monitoring loop finds. *)
Definition collect (w : world) : list (nat * nat) :=
  manually_added w ++ automatically_added w.

Definition scan (w : world) : list (nat * nat) :=
  filter (fun gn => is_associated w gn.1 = false)
    ((if only then [] else manually_added w) ++
     automatically_added w).

Definition spawn_child_executor (g : nat) (w : world) : outcome :=
  require negb (is_associated w g) orelse Exits HasExecutor;
  let t := length (children w) in
  Next (with_resources (if only then child_callback_groups w else child_callback_groups w ++ [g])
          (weak_child_executors w ++ [t]) (child_threads w ++ [t])
          (with_children (fun cs => cs ++ [MkChild g Started false false])
             (with_groups (alter (set_associated true) g) w))).

Fixpoint spawn_all (l : list (nat * nat)) (w : world) : outcome :=
  match l with
  | [] => Next w
  | gn :: l =>
      match spawn_child_executor gn.1 w with
      | Next w => spawn_all l w
      | Exits e => Exits e
      end
  end.

(** The loop over [new_groups] tests the flag again. *)
Fixpoint spawn_new (l : list (nat * nat)) (w : world) : outcome :=
  match l with
  | [] => Next w
  | gn :: l =>
      if is_associated w gn.1 then spawn_new l w
      else
        match spawn_child_executor gn.1 w with
        | Next w => spawn_new l w
        | Exits e => Exits e
        end
  end.

Definition cancel_child (c : child) : child :=
  if decide (child_stage c = Ended) then c
  else MkChild (child_group c) (child_stage c) false (only || child_cancel_requested c).

Definition cancel_children (w : world) : world :=
  with_children (fun cs => foldr (alter cancel_child) cs (weak_child_executors w)) w.

(** The loop goes on. *)
Definition runs (w : world) : bool := spinning w && ok w && negb (only && cancel_requested w).

(** The guards of [spin] around its first critical sections do not look at the context. *)
Definition may_spawn (w : world) : bool := spinning w && negb (only && cancel_requested w).

Definition leave (w : world) : world := at_position Idle (with_flags (ok w) false (cancel_requested w) w).

Definition spin_step (w : world) : option outcome :=
  match spin_at w with
  | Idle => None
  | Entered =>
      if only && cancel_requested w then Some (Next (leave w))
      else Some (Next (at_position (Collected (collect w)) w))
  | Collected l =>
      if may_spawn w then
        match spawn_all l w with
        | Next w => Some (Next (at_position Monitoring w))
        | Exits e => Some (Exits e)
        end
      else Some (Next (leave w))
  | Monitoring => Some (Next (at_position (if runs w then Asleep else Closing) w))
  | Asleep => Some (Next (at_position (if runs w then Awake else Closing) w))
  | Awake =>
      let l := scan w in
      Some (Next (at_position (match l with [] => Monitoring | _ :: _ => Scanned l end) w))
  | Scanned l =>
      if runs w then
        match spawn_new l w with
        | Next w => Some (Next (at_position Monitoring w))
        | Exits e => Some (Exits e)
        end
      else Some (Next (at_position Closing w))
  | Closing =>
      let w' := cancel_children w in
      Some (Next (at_position (Joining (child_threads w')) (with_resources [] [] [] w')))
  | Joining [] => Some (Next (leave w))
  | Joining (t :: l) =>
      unwrap c := children w !! t orelse None;
      if decide (child_stage c = Ended) then Some (Next (at_position (Joining l) w)) else None
  end.

(** ** The other threads *)

(** [self]: the child whose thread calls, if any. *)
Definition stop_callback_group (g : nat) (self : option nat) (w : world) : world :=
  require Nat.eqb (length (child_callback_groups w)) (length (weak_child_executors w)) &&
          Nat.eqb (length (child_callback_groups w)) (length (child_threads w)) orelse w;
  match list_find (fun x => x = g) (child_callback_groups w) with
  | None => w
  | Some (i, _) =>
      let w' := match weak_child_executors w !! i with
                | Some t => with_children (alter cancel_child t) w
                | None => w
                end in
      let w' := with_resources (delete i (child_callback_groups w)) (delete i (weak_child_executors w))
                  (delete i (child_threads w)) w' in
      match child_threads w !! i with
      | Some t => if decide (self = Some t) then w' else with_callers (cancelling w) ((self, t) :: stopping w) w'
      | None => w'
      end
  end.

(** The loop of a child ends when it finds that it shall; its executor is destroyed with the thread. *)
Definition child_ends (w : world) (c : child) : bool :=
  negb (ok w) || negb (child_spinning c) || (only && child_cancel_requested c).

(** The thread of the child waits for another inside [stop_callback_group], which a callback of it called. *)
Definition is_joining (w : world) (t : nat) : bool :=
  existsb (fun x => match x.1 with Some u => Nat.eqb u t | None => false end) (stopping w).

(** Who may call [stop_callback_group]: a thread that is no child, or a callback that a child runs. *)
Definition may_call (w : world) (self : option nat) : bool :=
  match self with
  | None => true
  | Some t =>
      match children w !! t with
      | Some c => bool_decide (child_stage c = Spinning) && negb (is_joining w t)
      | None => false
      end
  end.

Definition held (w : world) : list (nat * nat) :=
  match spin_at w with Collected l | Scanned l => l | _ => [] end.

Inductive action :=
  | NewNode
  | NewGroup (n : nat) (automatic : bool)
  | DropNode (n : nat)
  | DropGroup (g : nat)
  | Shutdown
  | AddNode (n : nat)
  | RemoveNode (n : nat)
  | AddCallbackGroup (g n : nat)
  | RemoveCallbackGroup (g : nat)
  | CallSpin
  | SpinStep
  | CallCancel
  | CancelStep
  | StopCallbackGroup (g : nat) (self : option nat)
  | StopJoined (i : nat)
  | ChildSpins (t : nat)
  | ChildEnds (t : nat).

(** A handle that [spin] holds keeps its object alive.  One thread at a time calls [spin]: when it was cancelled, the
    next call comes after it returned, but threads that [stop_callback_group] detached or joins may be there still; the two stores of [cancel] in the other class are one step, no guard tells them apart. *)
Definition act (a : action) (w : world) : option outcome :=
  match a with
  | NewNode => Some (Next (with_nodes (fun l => l ++ [MkNode true false]) w))
  | NewGroup n automatic =>
      require is_node_alive w n orelse None;
      Some (Next (with_groups (fun l => l ++ [MkGroup n automatic true false]) w))
  | DropNode n =>
      require negb (existsb (fun gn => Nat.eqb gn.2 n) (held w)) orelse None;
      Some (Next (with_nodes (alter (fun x => MkNode false (node_has_executor x)) n) w))
  | DropGroup g =>
      require negb (existsb (fun gn => Nat.eqb gn.1 g) (held w)) orelse None;
      Some (Next (with_groups (alter (fun x => MkGroup (owner x) (automatically_add x) false (has_executor x)) g) w))
  | Shutdown => Some (Next (with_flags false (spinning w) (cancel_requested w) w))
  | AddNode n => require is_node_alive w n orelse None; Some (add_node n w)
  | RemoveNode n => require is_node_alive w n orelse None; Some (remove_node n w)
  | AddCallbackGroup g n =>
      require is_group_alive w g && is_node_alive w n orelse None; Some (add_callback_group g n w)
  | RemoveCallbackGroup g => require is_group_alive w g orelse None; Some (remove_callback_group g w)
  | CallSpin =>
      if spinning w then Some (Exits AlreadySpinning)
      else
        match spin_at w with
        | Idle => Some (Next (at_position Entered (with_flags (ok w) true (cancel_requested w) w)))
        | _ => None
        end
  | SpinStep => spin_step w
  | CallCancel =>
      Some (Next (with_callers (S (cancelling w)) (stopping w)
                    (with_flags (ok w) false (only || cancel_requested w) w)))
  | CancelStep =>
      match cancelling w with
      | O => None
      | S n => Some (Next (with_callers n (stopping w) (cancel_children w)))
      end
  | StopCallbackGroup g self =>
      require negb only && is_group_alive w g && may_call w self orelse None; Some (Next (stop_callback_group g self w))
  | StopJoined i =>
      unwrap x := stopping w !! i orelse None;
      unwrap c := children w !! x.2 orelse None;
      if decide (child_stage c = Ended) then Some (Next (with_callers (cancelling w) (delete i (stopping w)) w)) else None
  | ChildSpins t =>
      unwrap c := children w !! t orelse None;
      require bool_decide (child_stage c = Started) orelse None;
      if child_spinning c then Some (Exits AlreadySpinning)
      else Some (Next (with_children (<[t := MkChild (child_group c) Spinning true (child_cancel_requested c)]>) w))
  | ChildEnds t =>
      unwrap c := children w !! t orelse None;
      require bool_decide (child_stage c = Spinning) && child_ends w c && negb (is_joining w t) orelse None;
      Some (Next (with_groups (alter (set_associated false) (child_group c))
                    (with_children (<[t := MkChild (child_group c) Ended false (child_cancel_requested c)]>) w)))
  end.
End executor.
