(* ===== verification/IsolatedTheorems.v ===== *)
(** * What callback isolation guarantees

    Runs of the two callback isolated executors: one thread for each callback group, what the monitoring loop
    finds, how they end. *)

From S2P Require Import Prelude Isolated.

Section runs.
Context (only : bool).
Implicit Types (w : world) (c : child).

Inductive reachable : world -> Prop :=
  | reachable_start : reachable start
  | reachable_step w a w' : reachable w -> act only a w = Some (Next w') -> reachable w'.

(** ** Children and flags *)

Definition shape (cs : list child) : list (nat * bool) :=
  (fun c => (child_group c, bool_decide (child_stage c <> Ended))) <$> cs.

Definition live w (g : nat) : Prop := (g, true) ∈ shape (children w).

Definition manual w (g : nat) : Prop := g ∈ (weak_groups_to_nodes w).*1.

Record assoc_ok w : Prop := {
  b_range : forall g b, (g, b) ∈ shape (children w) -> (g < length (groups w))%nat;
  b_flag : forall g, is_associated w g = true <-> live w g \/ (only = true /\ manual w g);
  b_disjoint : forall g, only = true -> manual w g -> ~ live w g;
  b_one : forall (t1 t2 g : nat), shape (children w) !! t1 = Some (g, true) -> shape (children w) !! t2 = Some (g, true) -> t1 = t2
}.

Lemma assoc_frame w w' :
  shape (children w') = shape (children w) -> (length (groups w) <= length (groups w'))%nat ->
  (forall g, is_associated w' g = is_associated w g) -> (forall g, manual w' g <-> manual w g) ->
  assoc_ok w -> assoc_ok w'.
Proof.
  intros Hs Hl Ha Hm [H1 H2 H3 H4]. assert (forall g, live w' g <-> live w g) as Hv by (intros g; unfold live; by rw Hs).
  split.
  - intros g b. rw Hs. intros Hg. specialize (H1 g b Hg). lia.
  - intros g. by rw Ha Hv Hm.
  - intros g Ho. rw Hm Hv. by apply H3.
  - rw Hs. exact H4.
Qed.

Lemma shape_insert (cs : list child) (t : nat) c c' :
  cs !! t = Some c -> child_group c' = child_group c ->
  bool_decide (child_stage c' <> Ended) = bool_decide (child_stage c <> Ended) -> shape (<[t := c']> cs) = shape cs.
Proof.
  intros Ht Hg Hs. unfold shape. rw list_fmap_insert Hg Hs. apply list_insert_id. by rw list_lookup_fmap Ht.
Qed.

Lemma cancel_child_idemp c : cancel_child only (cancel_child only c) = cancel_child only c.
Proof. unfold cancel_child. destruct (decide (child_stage c = Ended)) as [E|E]; simpl; [by rw decide_True|]. rw decide_False //. by destruct only. Qed.

Lemma cancelled_lookup (l : list nat) : forall (cs : list child) (t : nat),
  foldr (alter (cancel_child only)) cs l !! t = (if decide (t ∈ l) then cancel_child only <$> cs !! t else cs !! t).
Proof.
  induction l as [|x l IH]; intros cs t; cbn [foldr].
  { destruct (decide (t ∈ [])) as [H|H]; [by apply not_elem_of_nil in H|done]. }
  destruct (decide (x = t)) as [->|Hne].
  - rw list_lookup_alter_eq IH. destruct (decide (t ∈ t :: l)) as [_|H]; [|by destruct H; left].
    destruct (decide (t ∈ l)) as [Hl|Hl]; [|done]. destruct (cs !! t); [|done]. simpl. by rw cancel_child_idemp.
  - rw list_lookup_alter_ne // IH. destruct (decide (t ∈ l)) as [Hl|Hl], (decide (t ∈ x :: l)) as [Hx|Hx]; try done.
    + by destruct Hx; right.
    + by apply elem_of_cons in Hx as [?|?].
Qed.

Lemma cancel_shape c : child_group (cancel_child only c) = child_group c /\ child_stage (cancel_child only c) = child_stage c.
Proof. unfold cancel_child. by destruct (decide _). Qed.

Lemma shape_ext (cs cs' : list child) :
  (forall (t : nat), cs' !! t = cs !! t \/ cs' !! t = cancel_child only <$> cs !! t) -> shape cs' = shape cs.
Proof.
  intros H. apply list_eq. intros t. unfold shape. rw !list_lookup_fmap.
  destruct (H t) as [-> | ->]; [done|]. destruct (cs !! t) as [c|]; [|done]. simpl.
  destruct (cancel_shape c) as [-> ->]. done.
Qed.

Lemma shape_cancel_children w : shape (children (cancel_children only w)) = shape (children w).
Proof.
  apply shape_ext. intros t. unfold cancel_children. cbn [children with_children]. rw cancelled_lookup.
  destruct (decide _); [by right|by left].
Qed.

Lemma shape_alter_cancel (cs : list child) (t : nat) : shape (alter (cancel_child only) t cs) = shape cs.
Proof.
  apply shape_ext. intros u. destruct (decide (t = u)) as [-> |Hne]; [right; apply list_lookup_alter_eq|left].
  by apply list_lookup_alter_ne.
Qed.

Lemma associated_alter w (g h : nat) b :
  (g < length (groups w))%nat ->
  is_associated (with_groups (alter (set_associated b) g) w) h = (if decide (h = g) then b else is_associated w h).
Proof.
  intros Hg. unfold is_associated. cbn [groups with_groups]. destruct (decide (h = g)) as [-> |Hne].
  - rw list_lookup_alter_eq. destruct (lookup_lt_is_Some_2 _ _ Hg) as [x ->]. done.
  - by rw list_lookup_alter_ne.
Qed.

(** *** A child starts, a child ends *)

Lemma spawn_assoc w w' g :
  assoc_ok w -> (g < length (groups w))%nat -> spawn_child_executor only g w = Next w' -> assoc_ok w'.
Proof.
  intros [H1 H2 H3 H4] Hg. unfold spawn_child_executor. destruct (is_associated w g) eqn:Ha; [done|]. cbn [negb].
  intros [= <-]. set (w' := with_resources _ _ _ _).
  assert (shape (children w') = shape (children w) ++ [(g, true)]) as Hs by (cbn; unfold shape; by rw fmap_app).
  assert (forall h, is_associated w' h = if decide (h = g) then true else is_associated w h) as Hf
    by (intros h; exact (associated_alter w g h true Hg)).
  assert (~ live w g) as Hnl by (intros Hl; apply not_true_iff_false in Ha; apply Ha, H2; by left).
  split.
  - intros h b. rw Hs. cbn. rw length_alter. intros [Hh|Hh]%elem_of_app; [by apply (H1 h b)|].
    apply list_elem_of_singleton in Hh. by injection Hh as -> ->.
  - intros h. rw Hf. unfold live. rw Hs elem_of_app list_elem_of_singleton. destruct (decide (h = g)) as [-> |Hne].
    + split; [|done]. intros _. left. by right.
    + rw H2. unfold live, manual. split; [intros [G|G]; [by left; left|by right]|].
      intros [[G|[= ?]]|G]; [by left|done|by right].
  - intros h Ho Hm. unfold live. rw Hs elem_of_app list_elem_of_singleton. intros [G|[= ->]].
    + by apply (H3 h).
    + apply not_true_iff_false in Ha. apply Ha, H2. by right.
  - intros t1 t2 h. rw Hs. intros [G1|[? G1]]%lookup_app_Some [G2|[? G2]]%lookup_app_Some.
    + by apply (H4 t1 t2 h).
    + apply list_lookup_singleton_Some in G2 as [_ [= <-]]. destruct Hnl. by eapply list_elem_of_lookup_2.
    + apply list_lookup_singleton_Some in G1 as [_ [= <-]]. destruct Hnl. by eapply list_elem_of_lookup_2.
    + apply list_lookup_singleton_Some in G1 as [? _], G2 as [? _]. lia.
Qed.

Lemma ended_assoc w (t : nat) c :
  assoc_ok w -> children w !! t = Some c -> child_stage c <> Ended ->
  assoc_ok (with_groups (alter (set_associated false) (child_group c))
              (with_children (<[t := MkChild (child_group c) Ended false (child_cancel_requested c)]>) w)).
Proof.
  intros [H1 H2 H3 H4] Ht Hc. set (w' := with_groups _ _). set (g := child_group c).
  assert (shape (children w) !! t = Some (g, true)) as Hst.
  { unfold shape. rw list_lookup_fmap Ht. simpl. by rw bool_decide_eq_true_2. }
  assert (shape (children w') = <[t := (g, false)]> (shape (children w))) as Hs.
  { cbn. unfold shape. by rw list_fmap_insert. }
  assert (forall h, live w' h <-> live w h /\ h <> g) as Hv.
  { intros h. unfold live. rw Hs !list_elem_of_lookup. split.
    - intros [u Hu]. destruct (decide (u = t)) as [-> |Hne].
      + rewrite list_lookup_insert_eq in Hu; [|exact (lookup_lt_Some _ _ _ Hst)]. by injection Hu as <-.
      + rewrite list_lookup_insert_ne in Hu; [|done]. split; [by exists u|]. intros ->. apply Hne. by apply (H4 u t g).
    - intros [[u Hu] Hne]. exists u. rw list_lookup_insert_ne; [done|]. intros <-. congruence. }
  assert (live w g) as Hlg by (by eapply list_elem_of_lookup_2).
  assert ((g < length (groups w))%nat) as Hg by (by apply (H1 g true)).
  assert (forall h, is_associated w' h = if decide (h = g) then false else is_associated w h) as Hf
    by (intros h; exact (associated_alter w g h false Hg)).
  split.
  - intros h b. rw Hs. cbn. rw length_alter. intros [u Hu]%list_elem_of_lookup. destruct (decide (u = t)) as [-> |Hne].
    + rewrite list_lookup_insert_eq in Hu; [|exact (lookup_lt_Some _ _ _ Hst)]. by injection Hu as <- <-.
    + rewrite list_lookup_insert_ne in Hu; [|done]. apply (H1 h b). by eapply list_elem_of_lookup_2.
  - intros h. rw Hf Hv. change (manual w' h) with (manual w h). destruct (decide (h = g)) as [-> |Hne].
    + split; [done|]. intros [[_ ?]|[Ho Hm]]; [done|]. by destruct (H3 g Ho Hm).
    + rw H2. naive_solver.
  - intros h Ho Hm. rw Hv. intros [G _]. by apply (H3 h).
  - intros t1 t2 h. rw Hs. intros G1 G2.
    assert (forall u, <[t := (g, false)]> (shape (children w)) !! u = Some (h, true) -> shape (children w) !! u = Some (h, true)) as Hb.
    { intros u Hu. destruct (decide (u = t)) as [-> |Hne]; [|by rewrite list_lookup_insert_ne in Hu].
      rewrite list_lookup_insert_eq in Hu; [done|exact (lookup_lt_Some _ _ _ Hst)]. }
    by apply (H4 t1 t2 h); apply Hb.
Qed.

(** ** The three vectors *)

Record res_ok w : Prop := {
  r_ids : Forall (fun t => (t < length (children w))%nat) (weak_child_executors w ++ (stopping w).*2);
  r_threads : child_threads w = weak_child_executors w;
  r_groups : only = false ->
    Some <$> child_callback_groups w = (fun t => child_group <$> children w !! t) <$> weak_child_executors w;
  r_started : forall (t : nat) c, children w !! t = Some c -> child_stage c = Started -> child_spinning c = false;
  r_told : only = true -> forall (t : nat) c, children w !! t = Some c -> child_stage c <> Ended ->
    t ∈ weak_child_executors w \/ child_cancel_requested c = true
}.

(** What the children of a later state have of those of an earlier one. *)
Definition grown (cs cs' : list child) : Prop :=
  forall (t : nat) c, cs !! t = Some c -> exists c', cs' !! t = Some c' /\ child_group c' = child_group c.

Lemma grown_length cs cs' : grown cs cs' -> (length cs <= length cs')%nat.
Proof.
  intros H. destruct (decide (length cs' < length cs)%nat) as [Hl|]; [|lia]. exfalso.
  destruct (lookup_lt_is_Some_2 cs (length cs') Hl) as [c Hc]. destruct (H _ _ Hc) as (c' & Hc' & _).
  apply lookup_lt_Some in Hc'. lia.
Qed.

Lemma grown_groups cs cs' l :
  grown cs cs' -> Forall (fun t => (t < length cs)%nat) l ->
  (fun t : nat => child_group <$> cs' !! t) <$> l = (fun t : nat => child_group <$> cs !! t) <$> l.
Proof.
  intros H Hl. induction Hl as [|t l Ht _ IH]; [done|]. rw !fmap_cons IH. f_equal.
  destruct (lookup_lt_is_Some_2 cs t Ht) as [c Hc]. destruct (H _ _ Hc) as (c' & -> & E). rw Hc. simpl. by rw E.
Qed.

(** A step that changes children only, and the callers that wait. *)
Lemma res_frame w w' :
  res_ok w -> grown (children w) (children w') ->
  weak_child_executors w' = weak_child_executors w -> child_threads w' = child_threads w ->
  child_callback_groups w' = child_callback_groups w -> (forall x, x ∈ stopping w' -> x ∈ stopping w) ->
  (forall (t : nat) c, children w' !! t = Some c -> child_stage c = Started -> child_spinning c = false) ->
  (only = true -> forall (t : nat) c', children w' !! t = Some c' -> child_stage c' <> Ended ->
     exists c, children w !! t = Some c /\ child_stage c <> Ended /\
       (child_cancel_requested c = true -> child_cancel_requested c' = true)) ->
  res_ok w'.
Proof.
  intros [H1 H2 H3 H4 H5] Hg Ew Et Egr Hst Hs Ht. apply Forall_app in H1 as [H1 H1'].
  assert (forall l, Forall (fun t => (t < length (children w))%nat) l -> Forall (fun t => (t < length (children w'))%nat) l) as Hle.
  { intros l Hl. eapply Forall_impl; [exact Hl|]. intros t. pose proof (grown_length _ _ Hg). simpl. lia. }
  split.
  - apply Forall_app. rw Ew. split; [by apply Hle|]. apply Hle, Forall_forall. intros t (x & -> & Hin)%list_elem_of_fmap.
    rewrite Forall_forall in H1'. apply H1', list_elem_of_fmap. exists x. split; [done|]. by apply Hst.
  - by rw Et Ew.
  - intros Ho. rw Egr Ew (H3 Ho). symmetry. by apply grown_groups.
  - exact Hs.
  - intros Ho t c' Hc' Hn. rw Ew. destruct (Ht Ho t c' Hc' Hn) as (c & Hc & Hn' & Hi).
    destruct (H5 Ho t c Hc Hn') as [G|G]; [by left|right; by apply Hi].
Qed.

Lemma children_grown_refl cs : grown cs cs.
Proof. intros t c Hc. by exists c. Qed.

Lemma grown_insert (cs : list child) (t : nat) c c' :
  cs !! t = Some c -> child_group c' = child_group c -> grown cs (<[t := c']> cs).
Proof.
  intros Ht Hg u d Hu. destruct (decide (u = t)) as [-> |Hne].
  - exists c'. split; [|congruence]. apply list_lookup_insert_eq. exact (lookup_lt_Some _ _ _ Ht).
  - exists d. by rw list_lookup_insert_ne.
Qed.

Lemma cancel_child_spec c :
  child_stage c <> Ended ->
  cancel_child only c = MkChild (child_group c) (child_stage c) false (only || child_cancel_requested c).
Proof. intros Hn. unfold cancel_child. by destruct (decide _). Qed.

Lemma cancelled_some w (t : nat) c' :
  children (cancel_children only w) !! t = Some c' ->
  exists c, children w !! t = Some c /\ (c' = c \/ c' = cancel_child only c) /\
    (t ∈ weak_child_executors w -> c' = cancel_child only c).
Proof.
  unfold cancel_children. cbn [children with_children]. rw cancelled_lookup. destruct (decide _) as [Hl|Hl].
  - destruct (children w !! t) as [c|]; [|done]. intros [= <-]. exists c. split; [done|]. split; [by right|done].
  - intros Hc'. exists c'. split; [done|]. split; [by left|done].
Qed.

Lemma grown_cancel w : grown (children w) (children (cancel_children only w)).
Proof.
  intros t c Hc. unfold cancel_children. cbn [children with_children]. rw cancelled_lookup Hc.
  destruct (decide _); [|by exists c]. eexists. split; [reflexivity|]. apply cancel_shape.
Qed.

Lemma cancel_keeps_res w : res_ok w -> res_ok (cancel_children only w).
Proof.
  intros H. apply (res_frame w); try done; [apply grown_cancel| |].
  - intros t c' Hc' Hst. destruct (cancelled_some w t c' Hc') as (c & Hc & [-> | ->] & _); [by apply (r_started _ H t c)|].
    destruct (cancel_shape c) as [_ E]. rewrite E in Hst. rw cancel_child_spec; [done|congruence].
  - intros Ho t c' Hc' Hn. destruct (cancelled_some w t c' Hc') as (c & Hc & [-> | ->] & _); [by exists c|].
    destruct (cancel_shape c) as [_ E]. rewrite E in Hn. exists c. split; [done|]. split; [done|].
    rw cancel_child_spec //. simpl. by rw Ho.
Qed.

Lemma spawn_keeps_res w w' g :
  res_ok w -> spawn_child_executor only g w = Next w' -> res_ok w'.
Proof.
  intros [H1 H2 H3 H4 H5]. unfold spawn_child_executor. destruct (is_associated w g); [done|]. cbn [negb].
  intros [= <-]. apply Forall_app in H1 as [H1 H1']. set (c := MkChild g Started false false).
  assert (grown (children w) (children w ++ [c])) as Hg.
  { intros t d Hd. exists d. split; [|done]. rw lookup_app_l; [done|exact (lookup_lt_Some _ _ _ Hd)]. }
  split; cbn [weak_child_executors stopping child_threads child_callback_groups children with_resources with_children with_groups].
  - rw length_app. cbn [length]. rw -app_assoc. apply Forall_app. split; [eapply Forall_impl; [exact H1|simpl; lia]|].
    constructor; [lia|]. eapply Forall_impl; [exact H1'|simpl; lia].
  - by rw H2.
  - intros Ho. rw Ho !fmap_app (grown_groups _ _ _ Hg H1) (H3 Ho). f_equal. rw !list_fmap_singleton.
    by rw list_lookup_middle.
  - intros t d Hd Hs. apply lookup_app_Some in Hd as [Hd|[_ Hd]]; [by apply (H4 t d)|].
    by apply list_lookup_singleton_Some in Hd as [_ <-].
  - intros Ho t d Hd Hn. apply lookup_app_Some in Hd as [Hd|[Hl Hd]].
    + destruct (H5 Ho t d Hd Hn) as [G|G]; [left; set_solver|by right].
    + apply list_lookup_singleton_Some in Hd as [Hd _]. left. apply elem_of_app. right.
      apply list_elem_of_singleton. lia.
Qed.

(** ** Members *)

Record mem_ok w : Prop := {
  m_nodes : NoDup (weak_nodes w);
  m_groups : NoDup (weak_groups_to_nodes w).*1;
  m_range : forall g, manual w g -> (g < length (groups w))%nat;
  m_nrange : forall n, n ∈ weak_nodes w -> (n < length (nodes w))%nat;
  m_double : only = false -> forall g n, manual w g -> is_automatic w g = true -> n ∈ weak_nodes w ->
    is_node_alive w n = true -> callback_group_in_node w n g = false
}.

(** Groups and nodes lose their objects, get or lose flags; others are new. *)
Lemma mem_frame w w' :
  mem_ok w -> weak_nodes w' = weak_nodes w -> weak_groups_to_nodes w' = weak_groups_to_nodes w ->
  (length (groups w) <= length (groups w'))%nat -> (length (nodes w) <= length (nodes w'))%nat ->
  (forall n, (n < length (nodes w))%nat -> is_node_alive w' n = true -> is_node_alive w n = true) ->
  (forall g, (g < length (groups w))%nat -> is_automatic w' g = is_automatic w g) ->
  (forall g n, (g < length (groups w))%nat -> callback_group_in_node w' n g = true -> callback_group_in_node w n g = true) ->
  mem_ok w'.
Proof.
  intros [H1 H2 H3 H3' H4] En Eg Hl Hl' Ha Hau Hin. split; [by rw En|by rw Eg| | |].
  - intros g. unfold manual. rw Eg. intros Hg. specialize (H3 g Hg). lia.
  - intros n. rw En. intros Hn. specialize (H3' n Hn). lia.
  - intros Ho g n. unfold manual. rw Eg En. intros Hg Hat Hn Hal. pose proof (H3 g Hg) as Hr.
    rewrite Hau in Hat; [|done]. specialize (H4 Ho g n Hg Hat Hn (Ha n (H3' n Hn) Hal)).
    apply not_true_iff_false. intros E%Hin; [congruence|done].
Qed.

Lemma group_ids_in w n g : g ∈ for_each_callback_group w n <-> callback_group_in_node w n g = true.
Proof.
  unfold for_each_callback_group. rw list_elem_of_filter elem_of_seq. split; [by intros [? _]|]. intros H.
  split; [done|]. unfold callback_group_in_node in H. destruct (groups w !! g) eqn:E; [|done].
  apply lookup_lt_Some in E. lia.
Qed.

Lemma automatic_in w g n :
  (g, n) ∈ automatically_added w <->
  n ∈ weak_nodes w /\ is_node_alive w n = true /\ is_automatic w g = true /\ callback_group_in_node w n g = true.
Proof.
  unfold automatically_added. rw list_elem_of_join. split.
  - intros (l & Hg & Hl). apply list_elem_of_fmap in Hl as (m & -> & Hm). apply list_elem_of_filter in Hm as [Ha Hm].
    apply list_elem_of_fmap in Hg as (h & [= -> ->] & Hh). apply list_elem_of_filter in Hh as [Hau Hh].
    by apply group_ids_in in Hh.
  - intros (Hn & Ha & Hau & Hin). eexists. split; [|apply list_elem_of_fmap; exists n; split; [reflexivity|]].
    + apply list_elem_of_fmap. exists g. split; [done|]. apply list_elem_of_filter. by rw group_ids_in.
    + by apply list_elem_of_filter.
Qed.

Lemma manual_in w g n :
  (g, n) ∈ manually_added w <->
  (g, n) ∈ weak_groups_to_nodes w /\ is_group_alive w g = true /\ is_node_alive w n = true.
Proof.
  unfold manually_added. rw list_elem_of_filter andb_true_iff. simpl. tauto.
Qed.

Lemma in_node_range w n g : callback_group_in_node w n g = true -> (g < length (groups w))%nat.
Proof.
  unfold callback_group_in_node. destruct (groups w !! g) eqn:E; [|done]. intros _. exact (lookup_lt_Some _ _ _ E).
Qed.

Lemma in_node_owner w n m g : callback_group_in_node w n g = true -> callback_group_in_node w m g = true -> n = m.
Proof.
  unfold callback_group_in_node. destruct (groups w !! g) as [x|]; [|done].
  intros [_ H1]%andb_true_iff [_ H2]%andb_true_iff. apply Nat.eqb_eq in H1, H2. congruence.
Qed.

Lemma collect_range w g : mem_ok w -> g ∈ (collect w).*1 -> (g < length (groups w))%nat.
Proof.
  intros Hm Hg. apply list_elem_of_fmap in Hg as ([h n] & -> & [Hg|Hg]%elem_of_app).
  - apply manual_in in Hg as [Hg _]. apply (m_range _ Hm), list_elem_of_fmap. by exists (h, n).
  - apply automatic_in in Hg as (_ & _ & _ & Hg). by eapply in_node_range.
Qed.

Lemma nodup_automatic w : NoDup (weak_nodes w) ->
  NoDup (automatically_added w).*1.
Proof.
  unfold automatically_added. intros Hn.
  assert (NoDup (filter (fun n => is_node_alive w n = true) (weak_nodes w))) as Hf by (by apply NoDup_filter).
  induction Hf as [|n l Hnl _ IH]; [constructor|]. rw fmap_cons. cbn [mjoin list_join]. rw fmap_app.
  assert (forall n, ((fun g : nat => (g, n)) <$> filter (fun g => is_automatic w g = true) (for_each_callback_group w n)).*1
    = filter (fun g => is_automatic w g = true) (for_each_callback_group w n)) as E.
  { intros m. rw -list_fmap_compose. induction (filter _ _) as [|x y IHl]; [done|]. rw fmap_cons. by rw IHl. }
  apply NoDup_app. split; [|split; [|done]].
  - rw E. apply NoDup_filter. unfold for_each_callback_group. apply NoDup_filter, NoDup_seq.
  - intros g. rw E. intros [_ Hg]%list_elem_of_filter. apply group_ids_in in Hg.
    intros ([h m] & -> & Hh)%list_elem_of_fmap. apply list_elem_of_join in Hh as (l' & Hh & Hl').
    apply list_elem_of_fmap in Hl' as (m' & -> & Hm'). apply list_elem_of_fmap in Hh as (h' & [= -> ->] & Hh).
    apply list_elem_of_filter in Hh as [_ Hh]. apply group_ids_in in Hh.
    rewrite (in_node_owner w n m' h' Hg Hh) in Hnl. done.
Qed.

Lemma nodup_collect w : only = false -> mem_ok w -> NoDup (collect w).*1.
Proof.
  intros Ho Hm. unfold collect. rw fmap_app. apply NoDup_app. split; [|split; [|apply nodup_automatic, (m_nodes _ Hm)]].
  - unfold manually_added. pose proof (m_groups _ Hm) as Hg. revert Hg.
    generalize (weak_groups_to_nodes w). intros l. induction l as [|[g n] l IH]; [done|]. rewrite fmap_cons.
    intros [Hn Hg]%NoDup_cons. rw filter_cons. destruct (decide _); [|by apply IH]. rw fmap_cons. apply NoDup_cons.
    split; [|by apply IH]. intros ([h m] & E & Hh)%list_elem_of_fmap. apply Hn, list_elem_of_fmap. exists (h, m).
    split; [done|]. by apply list_elem_of_filter in Hh as [_ Hh].
  - intros g ([h m] & -> & Hh)%list_elem_of_fmap ([h' n] & E & Hh')%list_elem_of_fmap. cbn in E. subst h'.
    apply manual_in in Hh as (Hh & _). apply automatic_in in Hh' as (Hn & Ha & Hau & Hin).
    assert (manual w h) as Hman by (apply list_elem_of_fmap; by exists (h, m)). cbn in Hin, Hau.
    rewrite (m_double _ Hm Ho h n Hman Hau Hn Ha) in Hin. done.
Qed.

(** ** The invariant *)

Record core w : Prop := { k_assoc : assoc_ok w; k_res : res_ok w; k_mem : mem_ok w }.

(** Flags, the position and the callers do not matter. *)
Lemma core_same w w' :
  core w -> groups w' = groups w -> nodes w' = nodes w -> weak_nodes w' = weak_nodes w ->
  weak_groups_to_nodes w' = weak_groups_to_nodes w -> child_callback_groups w' = child_callback_groups w ->
  weak_child_executors w' = weak_child_executors w -> child_threads w' = child_threads w ->
  children w' = children w -> (forall x, x ∈ stopping w' -> x ∈ stopping w) -> core w'.
Proof.
  intros [H1 H2 H3] Eg En Ewn Ewg Ecg Ewe Ect Ec Es. split.
  - apply (assoc_frame w); [by rw Ec|by rw Eg| | |done].
    + intros g. unfold is_associated. by rw Eg.
    + intros g. unfold manual. by rw Ewg.
  - apply (res_frame w); [done|rw Ec; apply children_grown_refl|done..| |].
    + rw Ec. apply (r_started _ H2).
    + intros Ho t c. rw Ec. by exists c.
  - apply (mem_frame w); [done..|by rw Eg|by rw En| | |].
    + intros n _. unfold is_node_alive. by rw En.
    + intros g _. unfold is_automatic. by rw Eg.
    + intros g n _. unfold callback_group_in_node. by rw Eg.
Qed.

Lemma alter_static (f : callback_group -> callback_group) w g h :
  (forall x, owner (f x) = owner x /\ automatically_add (f x) = automatically_add x /\ (group_alive (f x) = true -> group_alive x = true)) ->
  is_automatic (with_groups (alter f h) w) g = is_automatic w g /\
  forall n, callback_group_in_node (with_groups (alter f h) w) n g = true -> callback_group_in_node w n g = true.
Proof.
  intros Hf. unfold is_automatic, callback_group_in_node. cbn [groups with_groups].
  destruct (decide (h = g)) as [-> |Hne]; [|by rw !list_lookup_alter_ne].
  rw list_lookup_alter_eq. destruct (groups w !! g) as [x|]; [|done]. simpl. destruct (Hf x) as (E1 & E2 & E3).
  split; [done|]. rw E1. intros n [Ha Hn]%andb_true_iff. rw Hn. by rw E3.
Qed.

Lemma mem_children f gs es ts h b w :
  mem_ok w -> mem_ok (with_resources gs es ts (with_children f (with_groups (alter (set_associated b) h) w))).
Proof.
  intros H. apply (mem_frame w); [done..|cbn; by rw length_alter|done|done| |].
  - intros g _. by apply (alter_static (set_associated b) w g h).
  - intros g n _. by apply (alter_static (set_associated b) w g h).
Qed.

Lemma spawn_core w w' g : core w -> (g < length (groups w))%nat -> spawn_child_executor only g w = Next w' ->
  core w' /\ length (groups w') = length (groups w).
Proof.
  intros [H1 H2 H3] Hg Hs. split.
  - split; [by eapply spawn_assoc|by eapply spawn_keeps_res|]. unfold spawn_child_executor in Hs.
    destruct (is_associated w g); [done|]. cbn [negb] in Hs. injection Hs as <-. by apply mem_children.
  - unfold spawn_child_executor in Hs. destruct (is_associated w g); [done|]. cbn [negb] in Hs. injection Hs as <-.
    cbn. by rw length_alter.
Qed.

Lemma spawn_all_core l : forall w w',
  core w -> (forall g, g ∈ l.*1 -> (g < length (groups w))%nat) -> spawn_all only l w = Next w' -> core w'.
Proof.
  induction l as [|[g n] l IH]; intros w w' Hc Hr Hs; cbn [spawn_all] in Hs; [by injection Hs as <-|].
  destruct (spawn_child_executor only g w) as [w1|] eqn:E; cbn [fst] in Hs; rewrite E in Hs; [|done].
  destruct (spawn_core w w1 g Hc) as [Hc1 Hl]; [apply Hr; left|done|]. apply (IH w1 w' Hc1); [|done].
  intros h Hh. rw Hl. apply Hr. by right.
Qed.

Lemma spawn_new_core l : forall w w',
  core w -> (forall g, g ∈ l.*1 -> (g < length (groups w))%nat) -> spawn_new only l w = Next w' -> core w'.
Proof.
  induction l as [|[g n] l IH]; intros w w' Hc Hr Hs; cbn [spawn_new] in Hs; [by injection Hs as <-|]. cbn [fst] in Hs.
  assert (forall h, h ∈ l.*1 -> (h < length (groups w))%nat) as Hr' by (intros; apply Hr; by right).
  destruct (is_associated w g); [by apply (IH w w')|].
  destruct (spawn_child_executor only g w) as [w1|] eqn:E; [|done].
  destruct (spawn_core w w1 g Hc) as [Hc1 Hl]; [apply Hr; left|done|]. apply (IH w1 w' Hc1); [|done]. by rw Hl.
Qed.

Definition pos_ok w : Prop :=
  match spin_at w with
  | Idle => weak_child_executors w = []
  | Entered => weak_child_executors w = []
  | Collected l =>
      weak_child_executors w = [] /\ (forall g, g ∈ l.*1 -> (g < length (groups w))%nat) /\
      (only = false -> NoDup l.*1)
  | Scanned l => forall g, g ∈ l.*1 -> (g < length (groups w))%nat
  | Joining l => weak_child_executors w = [] /\ Forall (fun t => (t < length (children w))%nat) l
  | _ => True
  end.

Lemma pos_frame w w' :
  pos_ok w -> spin_at w' = spin_at w -> (weak_child_executors w = [] -> weak_child_executors w' = []) ->
  (length (groups w) <= length (groups w'))%nat -> (length (children w) <= length (children w'))%nat -> pos_ok w'.
Proof.
  unfold pos_ok. intros H Es Ew Hg Hc. rw Es. destruct (spin_at w); try done; try tauto.
  - destruct H as (H1 & H3 & H4). split; [auto|]. split; [|done]. intros g Hgl. specialize (H3 g Hgl). lia.
  - intros g Hgl. specialize (H g Hgl). lia.
  - destruct H as [H1 H2]. split; [auto|]. eapply Forall_impl; [exact H2|]. simpl. lia.
Qed.

Definition inv w : Prop := core w /\ pos_ok w.

Lemma inv_same w w' :
  inv w -> groups w' = groups w -> nodes w' = nodes w -> weak_nodes w' = weak_nodes w ->
  weak_groups_to_nodes w' = weak_groups_to_nodes w -> child_callback_groups w' = child_callback_groups w ->
  weak_child_executors w' = weak_child_executors w -> child_threads w' = child_threads w ->
  children w' = children w -> (forall x, x ∈ stopping w' -> x ∈ stopping w) -> spin_at w' = spin_at w -> inv w'.
Proof.
  intros [H1 H2] Eg En Ewn Ewg Ecg Ewe Ect Ec Es Ep. split; [by apply (core_same w)|].
  apply (pos_frame w); [done|done|by rw Ewe|by rw Eg|by rw Ec].
Qed.

Lemma core_position p w : core w -> core (at_position p w).
Proof. intros H. by apply (core_same w). Qed.

Lemma spin_keeps w w' : inv w -> spin_step only w = Some (Next w') -> inv w'.
Proof.
  intros [Hc Hp] Hs. unfold spin_step in Hs. unfold pos_ok in Hp.
  assert (forall b, weak_child_executors w = [] -> inv (at_position Idle (with_flags (ok w) b (cancel_requested w) w))) as Hleave.
  { intros b E. split; [by apply (core_same w)|]. exact E. }
  destruct (spin_at w) as [| |l| | | |l| |[|t l]] eqn:E.
  - done.
  - destruct (only && cancel_requested w); injection Hs as <-; [by apply Hleave|].
    split; [by apply core_position|]. cbn. split; [done|]. split; [|].
    + intros g. apply collect_range, (k_mem _ Hc).
    + intros Ho. apply nodup_collect; [done|apply (k_mem _ Hc)].
  - destruct Hp as (Hp & Hr & _). destruct (may_spawn only w); [|injection Hs as <-; by apply Hleave].
    destruct (spawn_all only l w) as [w1|] eqn:Esp; [|done]. injection Hs as <-.
    split; [|done]. apply core_position. by apply (spawn_all_core l w).
  - injection Hs as <-. split; [by apply core_position|]. by destruct (runs only w).
  - injection Hs as <-. split; [by apply core_position|]. by destruct (runs only w).
  - injection Hs as <-. split; [by apply core_position|]. destruct (scan only w) as [|gn l] eqn:Esc; [done|].
    change (forall g, g ∈ (gn :: l).*1 -> (g < length (groups w))%nat). rewrite -Esc. intros g Hg. apply (collect_range w g (k_mem _ Hc)). revert Hg.
    unfold scan, collect. intros ([h n] & -> & Hh)%list_elem_of_fmap. apply list_elem_of_filter in Hh as [_ Hh].
    apply list_elem_of_fmap. exists (h, n). split; [done|]. apply elem_of_app. apply elem_of_app in Hh as [Hh|Hh]; [|by right].
    destruct only; [by apply not_elem_of_nil in Hh|by left].
  - destruct (runs only w); [|injection Hs as <-; split; [by apply core_position|done]].
    destruct (spawn_new only l w) as [w1|] eqn:Esp; [|done]. injection Hs as <-.
    split; [|done]. apply core_position. by apply (spawn_new_core l w).
  - injection Hs as <-. destruct Hc as [H1 H2 H3]. pose proof (cancel_keeps_res w H2) as Hcr.
    pose proof (r_ids _ Hcr) as Hids. apply Forall_app in Hids as [Hids1 Hids2].
    split; [|cbn; split; [done|]; pose proof (r_threads _ H2) as ->; exact Hids1].
    split.
    + apply (assoc_frame w); [exact (shape_cancel_children w)|done..].
    + destruct Hcr as [R1 R2 R3 R4 R5]. split; [exact Hids2|done|done|exact R4|]. intros Ho t c Hct Hn.
      right. destruct (cancelled_some w t c Hct) as (c0 & Hc0 & Hcc & Hin).
      assert (child_stage c0 <> Ended) as Hn0.
      { destruct Hcc as [-> | ->]; [done|]. by destruct (cancel_shape c0) as [_ <-]. }
      destruct (r_told _ H2 Ho t c0 Hc0 Hn0) as [Hw|Ht].
      * rewrite (Hin Hw) cancel_child_spec; [|done]. simpl. by rewrite Ho.
      * destruct Hcc as [-> | ->]; [done|]. rw cancel_child_spec //. simpl. by rw Ho.
    + by apply (mem_frame w).
  - injection Hs as <-. apply Hleave. by destruct Hp.
  - destruct Hp as [Hp Hl]. destruct (children w !! t) as [c|]; [|done]. destruct (decide _); [|done]. injection Hs as <-.
    split; [by apply core_position|]. split; [done|]. by apply Forall_cons in Hl as [_ Hl].
Qed.

(** *** The other threads *)

Lemma NoDup_delete {A} (l : list A) i : NoDup l -> NoDup (delete i l).
Proof.
  intros H. rw delete_take_drop. rewrite -(take_drop i l) in H. apply NoDup_app in H as (H1 & H2 & H3). apply NoDup_app.
  assert (forall x, x ∈ drop (S i) l -> x ∈ drop i l) as Hd.
  { intros x. replace (S i) with (i + 1)%nat by lia. rw -drop_drop. apply subseteq_drop. }
  split; [done|]. split; [intros x Hx Hx'; by apply (H2 x Hx), Hd|].
  replace (S i) with (i + 1)%nat by lia. rw -drop_drop. eapply sublist_NoDup; [exact H3|apply sublist_drop].
Qed.

Lemma fmap_delete_comm {A B} (f : A -> B) (l : list A) (i : nat) : f <$> delete i l = delete i (f <$> l).
Proof. rw !delete_take_drop fmap_app fmap_take fmap_drop. done. Qed.

Lemma elem_delete {A} (l : list A) (i : nat) x : x ∈ delete i l -> x ∈ l.
Proof.
  rw delete_take_drop elem_of_app. intros [H|H]; [by apply subseteq_take in H|by apply subseteq_drop in H].
Qed.

Lemma in_delete {A} (l : list A) (i : nat) x : x ∈ l -> x ∈ delete i l \/ l !! i = Some x.
Proof.
  intros (j & Hj)%list_elem_of_lookup. destruct (decide (j = i)) as [-> |Hne]; [by right|left].
  rw delete_take_drop elem_of_app. destruct (decide (j < i)%nat) as [Hl|Hl].
  - left. apply (list_elem_of_lookup_2 _ j). by rw lookup_take_lt.
  - right. apply (list_elem_of_lookup_2 _ (j - S i)%nat). rw lookup_drop. by replace (S i + (j - S i))%nat with j by lia.
Qed.

Lemma cancelled_one (cs : list child) (t u : nat) c' :
  alter (cancel_child only) t cs !! u = Some c' ->
  exists c, cs !! u = Some c /\ (c' = c \/ c' = cancel_child only c) /\ (u = t -> c' = cancel_child only c).
Proof.
  destruct (decide (t = u)) as [-> |Hne].
  - rw list_lookup_alter_eq. destruct (cs !! u) as [c|]; [|done]. intros [= <-]. exists c. split; [done|]. split; [by right|done].
  - rw list_lookup_alter_ne //. intros H. exists c'. split; [done|]. split; [by left|]. by intros ->.
Qed.

(** Taking one child out of the vectors, cancelled. *)
Lemma stop_keeps g self w : inv w -> inv (stop_callback_group only g self w).
Proof.
  intros [Hc Hp]. unfold stop_callback_group.
  destruct (Nat.eqb _ _ && Nat.eqb _ _) eqn:Hlens; [|by split].
  apply andb_true_iff in Hlens as [Hlens _]. apply Nat.eqb_eq in Hlens.
  destruct (list_find _ _) as [[i h]|] eqn:Hfind; [|by split].
  apply list_find_Some in Hfind as (Hfind & _). apply lookup_lt_Some in Hfind.
  pose proof (r_threads _ (k_res _ Hc)) as Ht. destruct (weak_child_executors w !! i) as [t|] eqn:Hi.
  - rw Ht Hi. set (w1 := with_resources _ _ _ _).
    assert (forall l, (forall x, x ∈ l -> x.2 = t \/ x ∈ stopping w) -> inv (with_callers (cancelling w) l w1)) as H1.
    { intros l Hl. destruct Hc as [H1 H2 H3]. pose proof (r_ids _ H2) as Hids. apply Forall_app in Hids as [Hi1 Hi2].
      assert (length (children w1) = length (children w)) as Hlen by (cbn; apply length_alter).
      split; [split|].
      - apply (assoc_frame w); [exact (shape_alter_cancel (children w) t)|done..].
      - split.
        + apply Forall_app. cbn [weak_child_executors stopping with_callers]. rw Hlen. split.
          * apply Forall_forall. intros u Hu. rewrite Forall_forall in Hi1. apply Hi1. by apply elem_delete in Hu.
          * apply Forall_forall. intros u (x & -> & Hu)%list_elem_of_fmap.
            destruct (Hl x Hu) as [-> |Hu']; [|rewrite Forall_forall in Hi2; by apply Hi2, list_elem_of_fmap; exists x].
            rewrite Forall_forall in Hi1. apply Hi1. by eapply list_elem_of_lookup_2.
        + done.
        + intros Ho. cbn [child_callback_groups weak_child_executors children with_callers].
          change (child_callback_groups w1) with (delete i (child_callback_groups w)).
          change (weak_child_executors w1) with (delete i (weak_child_executors w)).
          change (children w1) with (alter (cancel_child only) t (children w)).
          rw !fmap_delete_comm (r_groups _ H2 Ho). f_equal. symmetry. apply grown_groups; [|done].
          intros u c Hu. destruct (decide (t = u)) as [-> |Hne].
          -- rw list_lookup_alter_eq Hu. eexists. split; [reflexivity|]. apply cancel_shape.
          -- exists c. by rw list_lookup_alter_ne.
        + intros u c' Hu Hst. destruct (cancelled_one _ _ _ _ Hu) as (c & Hcu & [-> | ->] & _); [by apply (r_started _ H2 u c)|].
          destruct (cancel_shape c) as [_ E]. rewrite E in Hst. rw cancel_child_spec; [done|congruence].
        + intros Ho u c' Hu Hn. destruct (cancelled_one _ _ _ _ Hu) as (c & Hcu & Hcc & Heq).
          assert (child_stage c <> Ended) as Hn0.
          { destruct Hcc as [-> | ->]; [done|]. by destruct (cancel_shape c) as [_ <-]. }
          assert (child_cancel_requested (cancel_child only c) = true) as Hcan by (rw cancel_child_spec //; simpl; by rw Ho).
          destruct (r_told _ H2 Ho u c Hcu Hn0) as [Hw|Hr]; [|right; destruct Hcc as [-> | ->]; [done|exact Hcan]].
          destruct (in_delete _ i u Hw) as [Hd|Hd]; [by left|right]. rewrite Heq; [done|congruence].
      - by apply (mem_frame w).
      - apply (pos_frame w); [done|done| |done|cbn; by rw length_alter].
        intros E. change (delete i (weak_child_executors w) = []). by rw E. }
    destruct (decide (self = Some t)) as [_|_].
    + apply (inv_same (with_callers (cancelling w) (stopping w) w1)); try done. apply H1. by right.
    + apply H1. intros x [-> |Hu]%elem_of_cons; [by left|by right].
  - apply lookup_ge_None in Hi. lia.
Qed.

Lemma add_node_keeps n w w' : inv w -> is_node_alive w n = true -> add_node only n w = Next w' -> inv w'.
Proof.
  intros [[H1 H2 H3] Hp] Hal Ha. unfold add_node in Ha. destruct (existsb _ (weak_groups_to_nodes w)) eqn:E1; [done|].
  destruct (existsb _ (weak_nodes w)) eqn:E2; [done|]. cbn [negb] in Ha. injection Ha as <-.
  split; [split|by apply (pos_frame w)].
  - by apply (assoc_frame w).
  - apply (res_frame w); [done|apply children_grown_refl|done..|apply (r_started _ H2)|]. intros _ t c Hc. by exists c.
  - destruct H3 as [M1 M2 M3 M3' M4]. split; cbn [weak_nodes weak_groups_to_nodes with_members]; [|done|exact M3| |].
    + apply NoDup_app. split; [done|]. split; [|apply NoDup_singleton]. intros m Hm Hm'.
      apply list_elem_of_singleton in Hm' as ->. apply not_true_iff_false in E2. apply E2, existsb_exists. exists n.
      split; [by apply list_elem_of_In|apply Nat.eqb_refl].
    + intros m [Hm|Hm]%elem_of_app; [by apply M3'|]. apply list_elem_of_singleton in Hm as ->.
      unfold is_node_alive in Hal. destruct (nodes w !! n) eqn:E; [exact (lookup_lt_Some _ _ _ E)|done].
    + intros Ho g m Hman Hau [Hm|Hm]%elem_of_app Hma; [by apply M4|]. apply list_elem_of_singleton in Hm as ->.
      apply not_true_iff_false. intros Hin. apply not_true_iff_false in E1. apply E1, existsb_exists.
      change (callback_group_in_node w n g = true) in Hin. change (is_automatic w g = true) in Hau.
      apply list_elem_of_fmap in Hman as ([h m] & -> & Hgn). exists (h, m). split; [by apply list_elem_of_In|].
      cbn [fst] in *. rw Hau Hin orb_true_r andb_true_r. unfold callback_group_in_node in Hin. unfold is_group_alive.
      destruct (groups w !! h); [|done]. by apply andb_true_iff in Hin as [-> _].
Qed.

Lemma remove_node_keeps n w w' : inv w -> remove_node only n w = Next w' -> inv w'.
Proof.
  intros [[H1 H2 H3] Hp] Ha. unfold remove_node in Ha. set (rest := filter _ (weak_nodes w)) in *.
  assert (mem_ok (with_members rest (weak_groups_to_nodes w) w)) as Hm.
  { destruct H3 as [M1 M2 M3 M3' M4]. split; cbn [weak_nodes weak_groups_to_nodes with_members]; [by apply NoDup_filter|done|exact M3| |].
    { intros m Hm. apply list_elem_of_filter in Hm as [_ Hm]. by apply M3'. }
    intros Ho g m Hman Hau Hm Hal. apply list_elem_of_filter in Hm as [_ Hm]. by apply M4. }
  assert (inv (with_members rest (weak_groups_to_nodes w) w)) as Hi.
  { split; [split; [by apply (assoc_frame w)| |done]|by apply (pos_frame w)].
    apply (res_frame w); [done|apply children_grown_refl|done..|apply (r_started _ H2)|]. intros _ t c Hc. by exists c. }
  destruct (existsb _ _); [|by destruct only; [destruct (match nodes w !! n with Some x => _ | None => _ end)|]].
  destruct only; [|by injection Ha as <-].
  destruct (match nodes w !! n with Some x => _ | None => _ end); [|done]. injection Ha as <-.
  destruct Hi as [[I1 I2 I3] Ip]. split; [split|by apply (pos_frame _ _ Ip)].
  - by apply (assoc_frame (with_members rest (weak_groups_to_nodes w) w)).
  - apply (res_frame _ _ I2); [apply children_grown_refl|done..|apply (r_started _ H2)|]. intros _ t c Hc. by exists c.
  - apply (mem_frame _ _ I3); try done; [cbn; by rw length_alter|]. intros m _. unfold is_node_alive. cbn [nodes with_nodes with_members].
    destruct (decide (n = m)) as [-> |Hne]; [|by rw list_lookup_alter_ne]. rw list_lookup_alter_eq.
    by destruct (nodes w !! m).
Qed.

Lemma add_group_keeps g n w w' :
  inv w -> is_group_alive w g = true -> Isolated.add_callback_group only g n w = Next w' -> inv w'.
Proof.
  intros [[H1 H2 H3] Hp] Hal Ha. unfold Isolated.add_callback_group in Ha.
  assert ((g < length (groups w))%nat) as Hg.
  { unfold is_group_alive in Hal. destruct (groups w !! g) eqn:E; [exact (lookup_lt_Some _ _ _ E)|done]. }
  assert (forall gs, existsb (fun gn : nat * nat => Nat.eqb gn.1 g) gs = false -> g ∉ gs.*1) as Hnew.
  { intros gs He (gn & -> & Hgn)%list_elem_of_fmap. apply not_true_iff_false in He. apply He, existsb_exists.
    exists gn. split; [by apply list_elem_of_In|apply Nat.eqb_refl]. }
  assert (forall h, h ∈ (weak_groups_to_nodes w ++ [(g, n)]).*1 <-> manual w h \/ h = g) as Hman.
  { intros h. rw fmap_app elem_of_app. unfold manual. split; (intros [G|G]; [by left|right]).
    - by apply list_elem_of_singleton in G.
    - subst h. by left. }
  destruct only eqn:Ho.
  - destruct (is_associated w g) eqn:Eas; [done|]. destruct (existsb _ (weak_groups_to_nodes w)) eqn:Ed; [done|].
    cbn [negb] in Ha. injection Ha as <-. set (w' := with_members _ _ _).
    assert (forall h, is_associated w' h = if decide (h = g) then true else is_associated w h) as Hf
      by (intros h; exact (associated_alter w g h true Hg)).
    assert (forall h, manual w' h <-> manual w h \/ h = g) as Hm by exact Hman.
    split; [split|].
    + destruct H1 as [B1 B2 B3 B4]. split; [|..|exact B4].
      * intros h b Hh. cbn. rw length_alter. by apply (B1 h b).
      * intros h. rw Hf Hm. change (live w' h) with (live w h). destruct (decide (h = g)) as [-> |Hne]; [|rw B2; naive_solver].
        split; [|done]. intros _. right. split; [done|by right].
      * intros h _. rw Hm. change (live w' h) with (live w h). intros [Hh| ->]; [by apply B3|]. intros Hl.
        apply not_true_iff_false in Eas. apply Eas, B2. by left.
    + apply (res_frame w); [done|apply children_grown_refl|done..|apply (r_started _ H2)|]. intros _ t c Hc. by exists c.
    + destruct H3 as [M1 M2 M3 M3' M4]. split; [done| | |exact M3'|congruence].
      * change (NoDup (weak_groups_to_nodes w ++ [(g, n)]).*1). rw fmap_app. apply NoDup_app. split; [done|].
        split; [|apply NoDup_singleton]. intros h Hh Hh'. apply list_elem_of_singleton in Hh' as ->. by apply (Hnew _ Ed).
      * intros h Hh%Hm. cbn. rw length_alter. destruct Hh as [Hh| ->]; [by apply M3|done].
    + apply (pos_frame w); try done. cbn. by rw length_alter.
  - destruct (is_automatic w g && _) eqn:Eau; [done|]. destruct (existsb _ (weak_groups_to_nodes w)) eqn:Ed; [done|].
    cbn [negb] in Ha. injection Ha as <-. split; [split|by apply (pos_frame w)].
    + destruct H1 as [B1 B2 B3 B4]. split; [exact B1| |congruence|exact B4]. intros h. split.
      * intros [G|[? _]]%B2; [by left|congruence].
      * intros [G|[? _]]; [|congruence]. apply B2. by left.
    + apply (res_frame w); [done|apply children_grown_refl|done..|apply (r_started _ H2)|]. intros _ t c Hc. by exists c.
    + destruct H3 as [M1 M2 M3 M3' M4]. split; [done| | |exact M3'|].
      * change (NoDup (weak_groups_to_nodes w ++ [(g, n)]).*1). rw fmap_app. apply NoDup_app. split; [done|].
        split; [|apply NoDup_singleton]. intros h Hh Hh'. apply list_elem_of_singleton in Hh' as ->. by apply (Hnew _ Ed).
      * intros h [Hh| ->]%Hman; [by apply M3|done].
      * intros _ h m [Hh| ->]%Hman Hau Hm Hnal; [by apply M4|]. apply not_true_iff_false. intros Hin.
        apply andb_false_iff in Eau as [Eau|Eau]; [change (is_automatic w g = true) in Hau; congruence|].
        apply not_true_iff_false in Eau. apply Eau, existsb_exists. exists m. split; [by apply list_elem_of_In|].
        by apply andb_true_iff.
Qed.

Lemma remove_group_keeps g w w' : inv w -> Isolated.remove_callback_group only g w = Next w' -> inv w'.
Proof.
  intros [[H1 H2 H3] Hp] Ha. unfold Isolated.remove_callback_group in Ha.
  destruct (find _ _) as [gn|] eqn:Ef; [|done]. set (rest := filter _ (weak_groups_to_nodes w)) in *.
  apply find_some in Ef as [Hin Heq]. apply list_elem_of_In in Hin. apply Nat.eqb_eq in Heq.
  assert (manual w g) as Hmg by (apply list_elem_of_fmap; by exists gn).
  assert (forall h, h ∈ rest.*1 <-> manual w h /\ h <> g) as Hman.
  { intros h. unfold manual. rw !list_elem_of_fmap. split.
    - intros (x & -> & Hx). apply list_elem_of_filter in Hx as [E Hx]. apply Nat.eqb_neq in E. split; [by exists x|done].
    - intros ((x & -> & Hx) & Hne). exists x. split; [done|]. apply list_elem_of_filter. split; [by apply Nat.eqb_neq|done]. }
  assert (NoDup rest.*1) as Hnd.
  { pose proof (m_groups _ H3) as Hg. subst rest. revert Hg. generalize (weak_groups_to_nodes w). intros l.
    induction l as [|x l IH]; [done|]. rewrite fmap_cons. intros [Hn Hg]%NoDup_cons. rw filter_cons.
    destruct (decide _); [|by apply IH]. rw fmap_cons. apply NoDup_cons. split; [|by apply IH].
    intros (y & E & Hy)%list_elem_of_fmap. apply Hn, list_elem_of_fmap. exists y. split; [done|].
    by apply list_elem_of_filter in Hy as [_ Hy]. }
  assert (mem_ok (with_members (weak_nodes w) rest w)) as Hm.
  { destruct H3 as [M1 M2 M3 M3' M4]. split; [done|exact Hnd| |exact M3'|].
    - intros h [Hh _]%Hman. by apply M3.
    - intros Ho h n [Hh _]%Hman. by apply M4. }
  destruct only eqn:Ho.
  - destruct (is_node_alive w gn.2); [|done]. injection Ha as <-. set (w' := with_members _ _ _).
    assert ((g < length (groups w))%nat) as Hg by (by apply (m_range _ H3)).
    assert (forall h, is_associated w' h = if decide (h = g) then false else is_associated w h) as Hf
      by (intros h; exact (associated_alter w g h false Hg)).
    split; [split|apply (pos_frame w); try done; cbn; by rw length_alter].
    + destruct H1 as [B1 B2 B3 B4]. split; [| | |exact B4].
      * intros h b Hh. cbn. rw length_alter. by apply (B1 h b).
      * intros h. rw Hf. change (live w' h) with (live w h). change (manual w' h) with (h ∈ rest.*1). rw Hman.
        destruct (decide (h = g)) as [-> |Hne]; [|rw B2; naive_solver]. split; [done|].
        intros [G|[_ [_ G]]]; [by destruct (B3 g Ho Hmg)|done].
      * intros h _ [Hh _]%Hman. by apply B3.
    + apply (res_frame w); [done|apply children_grown_refl|done..|apply (r_started _ H2)|]. intros _ t c Hc. by exists c.
    + apply (mem_frame _ _ Hm); try done; [cbn; by rw length_alter| |].
      * intros h _. by apply (alter_static (set_associated false) w h g).
      * intros h n _. by apply (alter_static (set_associated false) w h g).
  - injection Ha as <-. split; [split; [|..|done]|by apply (pos_frame w)].
    + destruct H1 as [B1 B2 B3 B4]. split; [exact B1| |congruence|exact B4]. intros h. split.
      * intros [G|[? _]]%B2; [by left|congruence].
      * intros [G|[? _]]; [|congruence]. apply B2. by left.
    + apply (res_frame w); [done|apply children_grown_refl|done..|apply (r_started _ H2)|]. intros _ t c Hc. by exists c.
Qed.

Lemma child_spins_keeps w (t : nat) c :
  inv w -> children w !! t = Some c -> child_stage c = Started ->
  inv (with_children (<[t := MkChild (child_group c) Spinning true (child_cancel_requested c)]>) w).
Proof.
  intros [[H1 H2 H3] Hp] Ht Hst. set (c' := MkChild _ _ _ _).
  assert (shape (<[t := c']> (children w)) = shape (children w)) as Hs.
  { apply (shape_insert _ t c); [done|done|]. rw Hst. by rw !bool_decide_eq_true_2. }
  assert (forall (u : nat) d, <[t := c']> (children w) !! u = Some d -> (u = t /\ d = c') \/ children w !! u = Some d) as Hu.
  { intros u d. destruct (decide (u = t)) as [-> |Hne]; [|rw list_lookup_insert_ne //; by right].
    rw list_lookup_insert_eq; [|exact (lookup_lt_Some _ _ _ Ht)]. intros [= <-]. by left. }
  split; [split|].
  - by apply (assoc_frame w).
  - apply (res_frame w); [done|by apply (grown_insert _ t c)|done..| |].
    + intros u d [[-> ->]|Hd]%Hu; [done|]. by apply (r_started _ H2 u d).
    + intros Ho u d [[-> ->]|Hd]%Hu Hn; [|by exists d]. exists c. split; [done|]. split; [congruence|done].
  - by apply (mem_frame w).
  - apply (pos_frame w); try done; cbn; by rw length_insert.
Qed.

Lemma child_ends_keeps w (t : nat) c :
  inv w -> children w !! t = Some c -> child_stage c = Spinning ->
  inv (with_groups (alter (set_associated false) (child_group c))
         (with_children (<[t := MkChild (child_group c) Ended false (child_cancel_requested c)]>) w)).
Proof.
  intros [[H1 H2 H3] Hp] Ht Hst. set (c' := MkChild _ _ _ _). set (w' := with_groups _ _).
  assert (forall (u : nat) d, <[t := c']> (children w) !! u = Some d -> (u = t /\ d = c') \/ children w !! u = Some d) as Hu.
  { intros u d. destruct (decide (u = t)) as [-> |Hne]; [|rw list_lookup_insert_ne //; by right].
    rw list_lookup_insert_eq; [|exact (lookup_lt_Some _ _ _ Ht)]. intros [= <-]. by left. }
  split; [split|].
  - apply ended_assoc; [done|done|congruence].
  - apply (res_frame w); [done|by apply (grown_insert _ t c)|done..| |].
    + intros u d [[-> ->]|Hd]%Hu; [done|]. by apply (r_started _ H2 u d).
    + intros Ho u d [[-> ->]|Hd]%Hu Hn; [done|by exists d].
  - apply (mem_frame w); [done..|cbn; by rw length_alter|done|done| |].
    + intros g _. by apply (alter_static (set_associated false) w g (child_group c)).
    + intros g n _. by apply (alter_static (set_associated false) w g (child_group c)).
  - apply (pos_frame w); try done; [cbn; by rw length_alter|cbn; by rw length_insert].
Qed.

Lemma isolated_act_keeps a w w' : inv w -> act only a w = Some (Next w') -> inv w'.
Proof.
  intros Hi Hact. destruct a as [|n automatic|n|g| |n|n|g n|g| | | | |g self|i|t|t]; cbn [act] in Hact.
  - injection Hact as <-. destruct Hi as [[H1 H2 H3] Hp]. split; [split; [by apply (assoc_frame w)| |]|by apply (pos_frame w)].
    + apply (res_frame w); [done|apply children_grown_refl|done..|apply (r_started _ H2)|]. intros _ t c Hc. by exists c.
    + apply (mem_frame w); try done; [cbn; rw length_app; simpl; lia|]. intros n Hn. unfold is_node_alive. cbn.
      by rw lookup_app_l.
  - destruct (is_node_alive w n); [|done]. injection Hact as <-. set (x := MkGroup _ _ _ _).
    assert (forall g, (g < length (groups w))%nat -> (groups w ++ [x]) !! g = groups w !! g) as Hold
      by (intros; by apply lookup_app_l).
    destruct Hi as [[H1 H2 H3] Hp]. split; [split|].
    + apply (assoc_frame w); try done; [cbn; rw length_app; lia|]. intros g. unfold is_associated. cbn.
      destruct (decide (g < length (groups w))%nat) as [Hg|Hg]; [by rw Hold|].
      destruct (groups w !! g) eqn:E; [apply lookup_lt_Some in E; lia|].
      destruct ((groups w ++ [x]) !! g) as [y|] eqn:Ey; [|done].
      apply lookup_app_Some in Ey as [Ey|[_ Ey]]; [congruence|]. by apply list_lookup_singleton_Some in Ey as [_ <-].
    + apply (res_frame w); [done|apply children_grown_refl|done..|apply (r_started _ H2)|]. intros _ t c Hc. by exists c.
    + apply (mem_frame w); try done; [cbn; rw length_app; lia| |].
      * intros g Hg. unfold is_automatic. cbn. by rw Hold.
      * intros g m Hg. unfold callback_group_in_node. cbn. by rw Hold.
    + apply (pos_frame w); try done. cbn. rw length_app. lia.
  - destruct (existsb _ _); [done|]. injection Hact as <-.
    destruct Hi as [[H1 H2 H3] Hp]. split; [split; [by apply (assoc_frame w)| |]|by apply (pos_frame w)].
    + apply (res_frame w); [done|apply children_grown_refl|done..|apply (r_started _ H2)|]. intros _ t c Hc. by exists c.
    + apply (mem_frame w); try done; [cbn; by rw length_alter|]. intros m _. unfold is_node_alive. cbn.
      destruct (decide (n = m)) as [-> |Hne]; [|by rw list_lookup_alter_ne]. rw list_lookup_alter_eq.
      by destruct (nodes w !! m).
  - destruct (existsb _ _); [done|]. injection Hact as <-. set (f := fun x => MkGroup _ _ _ _).
    destruct Hi as [[H1 H2 H3] Hp]. split; [split|].
    + apply (assoc_frame w); try done; [cbn; by rw length_alter|]. intros h. unfold is_associated. cbn.
      destruct (decide (g = h)) as [-> |Hne]; [|by rw list_lookup_alter_ne]. rw list_lookup_alter_eq. by destruct (groups w !! h).
    + apply (res_frame w); [done|apply children_grown_refl|done..|apply (r_started _ H2)|]. intros _ t c Hc. by exists c.
    + apply (mem_frame w); try done; [cbn; by rw length_alter| |].
      * intros h _. by apply (alter_static f w h g).
      * intros h n _. by apply (alter_static f w h g).
    + apply (pos_frame w); try done. cbn. by rw length_alter.
  - injection Hact as <-. by apply (inv_same w).
  - destruct (is_node_alive w n) eqn:E; [|done]. injection Hact as Hact. by apply (add_node_keeps n w).
  - destruct (is_node_alive w n); [|done]. injection Hact as Hact. by apply (remove_node_keeps n w).
  - destruct (is_group_alive w g) eqn:E; [|done]. destruct (is_node_alive w n); [|done]. injection Hact as Hact.
    by apply (add_group_keeps g n w).
  - destruct (is_group_alive w g); [|done]. injection Hact as Hact. by apply (remove_group_keeps g w).
  - destruct (spinning w); [done|]. destruct (spin_at w) eqn:E; try done. injection Hact as <-.
    destruct Hi as [Hc Hp]. split; [by apply (core_same w)|]. unfold pos_ok in Hp. rewrite E in Hp. exact Hp.
  - by apply (spin_keeps w).
  - injection Hact as <-. by apply (inv_same w).
  - destruct (cancelling w); [done|]. injection Hact as <-. destruct Hi as [[H1 H2 H3] Hp].
    assert (length (children (cancel_children only w)) = length (children w)) as Hlen.
    { rw -(length_fmap (fun c => (child_group c, bool_decide (child_stage c <> Ended)))).
      pose proof (shape_cancel_children w) as E. unfold shape in E. rw E. apply length_fmap. }
    apply (inv_same (cancel_children only w)); try done. split; [split|].
    + apply (assoc_frame w); [exact (shape_cancel_children w)|done..].
    + by apply cancel_keeps_res.
    + by apply (mem_frame w).
    + apply (pos_frame w); try done. rw Hlen; lia.
  - destruct (_ && may_call w self); [|done]. injection Hact as <-. by apply stop_keeps.
  - destruct (stopping w !! i) as [x|]; [|done]. destruct (children w !! x.2) as [c|]; [|done].
    destruct (decide _); [|done]. injection Hact as <-. apply (inv_same w); try done. intros u. apply elem_delete.
  - destruct (children w !! t) as [c|] eqn:Hc; [|done]. destruct (bool_decide _) eqn:Hst; [|done].
    destruct (child_spinning c); [done|]. injection Hact as <-. apply child_spins_keeps; [done|done|]. by bool_to_prop.
  - destruct (children w !! t) as [c|] eqn:Hc; [|done]. destruct (bool_decide _) eqn:Hst; [|done].
    destruct (child_ends only w c); [|done]. destruct (negb (is_joining w t)); [|done]. injection Hact as <-. apply child_ends_keeps; [done|done|]. by bool_to_prop.
Qed.
End runs.
