(* ===== verification/IsolatedRuns.v ===== *)
(** * Runs of the callback isolated executors *)

From S2P Require Import Prelude Isolated IsolatedTheorems.

(** A run that goes through. *)
Fixpoint run (only : bool) (l : list action) (w : world) : option world :=
  match l with
  | [] => Some w
  | a :: l => match act only a w with Some (Next w) => run only l w | _ => None end
  end.

Lemma run_reachable only l : forall w w', reachable only w -> run only l w = Some w' -> reachable only w'.
Proof.
  induction l as [|a l IH]; intros w w' Hr Hp; [by injection Hp as <-|]. cbn [run] in Hp.
  destruct (act only a w) as [[w1|]|] eqn:Hact; [|done|done].
  apply (IH w1); [|done]. by apply (reachable_step only w a).
Qed.

Lemma run_from_start only l w : run only l start = Some w -> reachable only w.
Proof. apply run_reachable. constructor. Qed.

Section claims.
Context (only : bool).
Implicit Types (w : world) (c : child).

Lemma reachable_inv w : reachable only w -> inv only w.
Proof.
  induction 1 as [|w a w' _ IH Hact]; [|by eapply isolated_act_keeps].
  split; [split|done].
  - split; [| | |done].
    + intros g b Hg. by apply not_elem_of_nil in Hg.
    + intros g. split; [done|]. intros [Hl|[_ Hm]]; [by apply not_elem_of_nil in Hl|by apply not_elem_of_nil in Hm].
    + intros g _ Hm. by apply not_elem_of_nil in Hm.
  - split; [constructor|done|done|done|]. by intros _ t c Hc.
  - split; [constructor|constructor|..].
    + intros g Hm. by apply not_elem_of_nil in Hm.
    + intros n Hn. by apply not_elem_of_nil in Hn.
    + intros _ g n Hm. by apply not_elem_of_nil in Hm.
Qed.

(** ** Starting children *)

Lemma spawn_next w g : is_associated w g = false -> exists w', spawn_child_executor only g w = Next w' /\
  length (groups w') = length (groups w) /\ groups w' = alter (set_associated true) g (groups w).
Proof. intros H. unfold spawn_child_executor. rw H. eexists. split; [reflexivity|]. split; [cbn; apply length_alter|done]. Qed.

Lemma associated_after w w' g h :
  (g < length (groups w))%nat -> groups w' = alter (set_associated true) g (groups w) ->
  is_associated w' h = if decide (h = g) then true else is_associated w h.
Proof.
  intros Hg E. pose proof (associated_alter w g h true Hg) as H. unfold is_associated in *. rw E. exact H.
Qed.

Lemma spawn_all_next l : forall w,
  NoDup l.*1 -> (forall g, g ∈ l.*1 -> (g < length (groups w))%nat /\ is_associated w g = false) ->
  exists w', spawn_all only l w = Next w'.
Proof.
  induction l as [|[g n] l IH]; intros w Hnd Hl; [by exists w|]. rewrite fmap_cons in Hnd.
  apply NoDup_cons in Hnd as [Hg Hnd]. cbn [spawn_all fst]. destruct (Hl g ltac:(left)) as [Hr Ha].
  destruct (spawn_next w g Ha) as (w1 & Hs & Hlen & Hgs). rw Hs. apply IH; [done|]. intros h Hh.
  destruct (Hl h ltac:(by right)) as [Hr' Ha']. split; [by rw Hlen|]. rw (associated_after w w1 g h Hr Hgs).
  destruct (decide _) as [->|]; [done|exact Ha'].
Qed.

Lemma spawn_all_exits l : forall w,
  (exists g, g ∈ l.*1 /\ is_associated w g = true) -> spawn_all only l w = Exits HasExecutor.
Proof.
  induction l as [|[h n] l IH]; intros w (g & Hg & Ha); [by apply not_elem_of_nil in Hg|].
  cbn [spawn_all fst]. destruct (is_associated w h) eqn:Hh; [unfold spawn_child_executor; by rw Hh|].
  destruct (spawn_next w h Hh) as (w1 & Hs & _ & Hgs). rw Hs. apply IH. exists g.
  apply elem_of_cons in Hg as [-> |Hg]; [cbn in Ha; congruence|]. split; [done|].
  unfold is_associated in *. rw Hgs. destruct (decide (h = g)) as [-> |Hne].
  - rw list_lookup_alter_eq. by destruct (groups w !! g).
  - by rw list_lookup_alter_ne.
Qed.

Lemma spawn_all_error l e : forall w, spawn_all only l w = Exits e -> e = HasExecutor.
Proof.
  induction l as [|[g n] l IH]; intros w; cbn [spawn_all fst]; [done|].
  destruct (is_associated w g) eqn:Ha; [unfold spawn_child_executor; rw Ha; by intros [= <-]|].
  destruct (spawn_next w g Ha) as (w1 & -> & _). apply IH.
Qed.

Lemma spawn_new_next l : forall w,
  (forall g, g ∈ l.*1 -> (g < length (groups w))%nat) ->
  exists w', spawn_new only l w = Next w' /\ (forall g, g ∈ l.*1 -> is_associated w' g = true) /\
    (forall g, is_associated w g = true -> is_associated w' g = true) /\
    weak_groups_to_nodes w' = weak_groups_to_nodes w.
Proof.
  induction l as [|[g n] l IH]; intros w Hl; cbn [spawn_new fst].
  { exists w. split; [done|]. split; [intros g Hg; by apply not_elem_of_nil in Hg|done]. }
  assert (forall h, h ∈ l.*1 -> (h < length (groups w))%nat) as Hl' by (intros; apply Hl; by right).
  destruct (is_associated w g) eqn:Ha.
  - destruct (IH w Hl') as (w' & Hs & H1 & H2 & H3). exists w'. split; [done|]. split; [|done].
    intros h [-> |Hh]%elem_of_cons; [by apply H2|by apply H1].
  - destruct (spawn_next w g Ha) as (w1 & Hs1 & Hlen & Hgs). rw Hs1. pose proof (Hl g ltac:(left)) as Hr.
    destruct (IH w1) as (w' & Hs & H1 & H2 & H3); [by rw Hlen|]. exists w'. split; [done|].
    assert (forall h, is_associated w1 h = if decide (h = g) then true else is_associated w h) as Hf
      by (intros h; by apply (associated_after w w1 g h)).
    split; [|split].
    + intros h [-> |Hh]%elem_of_cons; [|by apply H1]. apply H2. rw Hf. by destruct (decide _).
    + intros h Hh. apply H2. rw Hf. by destruct (decide _).
    + rw H3. unfold spawn_child_executor in Hs1. rewrite Ha in Hs1. cbn in Hs1. by injection Hs1 as <-.
Qed.

Lemma live_child w g : live w g <-> exists (t : nat) c, children w !! t = Some c /\ child_group c = g /\ child_stage c <> Ended.
Proof.
  unfold live, shape. rw list_elem_of_fmap. split.
  - intros (c & [= -> Hb] & Hc). apply list_elem_of_lookup in Hc as [t Hc]. exists t, c.
    symmetry in Hb. by apply bool_decide_eq_true in Hb.
  - intros (t & c & Hc & <- & Hn). exists c. split; [by rw bool_decide_eq_true_2|by eapply list_elem_of_lookup_2].
Qed.

(** The child of a group that [spin] has collected whose thread is still there although [stop_callback_group] took it out
    of the vectors: it detached the thread, or a caller is joining it. *)
Definition left_over w (l : list (nat * nat)) : Prop :=
  exists (t : nat) c, children w !! t = Some c /\ child_stage c <> Ended /\ child_group c ∈ l.*1 /\
    t ∉ weak_child_executors w.


(** The monitoring loop misses no group.  When the loop wakes up and the executor runs on, a scan and the
    critical section after it leave every group of a registered node that is added automatically, and
    for [CallbackIsolatedAgnocastExecutor] every manually added group, with a child that serves it. *)
Theorem monitoring_serves_every_group w :
  reachable only w -> spin_at w = Awake -> runs only w = true ->
  exists w1 w2, spin_step only w = Some (Next w1) /\
    (spin_at w1 = Monitoring /\ w2 = w1 \/ spin_step only w1 = Some (Next w2)) /\ spin_at w2 = Monitoring /\
    forall g n,
      ((g, n) ∈ automatically_added w \/
       only = false /\ (g, n) ∈ manually_added w) ->
      (exists t c, children w2 !! t = Some c /\ child_group c = g /\ child_stage c <> Ended) \/
      only = true /\ manual w g.
Proof.
  intros Hr Hat Hruns. pose proof (reachable_inv w Hr) as Hinv. pose proof Hinv as [[H1 H2 H3] _].
  assert (spin_step only w = Some (Next (at_position (match scan only w with [] => Monitoring | _ :: _ => Scanned (scan only w) end) w))) as Hs1.
  { unfold spin_step. rw Hat. by destruct (scan only w). }
  set (w1 := at_position _ w) in *. pose proof (spin_keeps only w w1 Hinv Hs1) as Hinv1.
  assert (forall g n, (g, n) ∈ automatically_added w \/
       only = false /\ (g, n) ∈ manually_added w ->
       is_associated w g = true \/ g ∈ (scan only w).*1) as Hscan.
  { intros g n Hg. destruct (is_associated w g) eqn:Ha; [by left|right]. apply list_elem_of_fmap. exists (g, n).
    split; [done|]. unfold scan. apply list_elem_of_filter. split; [done|]. apply elem_of_app.
    destruct Hg as [Hg|[Ho Hg]]; [by right|left]. by rw Ho. }
  destruct (scan only w) as [|gn l] eqn:Esc.
  - exists w1, w1. split; [done|]. split; [by left|]. split; [done|]. intros g n Hg.
    destruct (Hscan g n Hg) as [Ha|Hin]; [|by apply not_elem_of_nil in Hin].
    apply (b_flag _ _ H1) in Ha as [Ha|Ha]; [left; by apply live_child|by right].
  - destruct Hinv1 as [_ Hp1]. unfold pos_ok in Hp1. cbn [spin_at w1 at_position] in Hp1.
    destruct (spawn_new_next (gn :: l) w1 Hp1) as (w2 & Hs2 & A1 & A2 & A3).
    assert (spin_step only w1 = Some (Next (at_position Monitoring w2))) as Hstep.
    { unfold spin_step. cbn [spin_at w1 at_position]. change (runs only w1) with (runs only w). by rw Hruns Hs2. }
    exists w1, (at_position Monitoring w2). split; [done|]. split; [by right|]. split; [done|].
    destruct (spin_keeps only w1 _ (spin_keeps only w w1 Hinv Hs1) Hstep) as [[B1 _ _] _].
    intros g n Hg. assert (is_associated (at_position Monitoring w2) g = true) as Ha.
    { destruct (Hscan g n Hg) as [Ha|Hin]; [by apply A2|by apply A1]. }
    apply (b_flag _ _ B1) in Ha as [Ha|[Ho Ha]]; [left; by apply live_child|right]. split; [done|].
    unfold manual in *. cbn [weak_groups_to_nodes at_position] in Ha. by rewrite A3 in Ha.
Qed.

(** ** What the interface reports *)

Lemma automatically_reported w : only = false ->
  get_automatically_added_callback_groups_from_nodes_internal only w = (automatically_added w).*1.
Proof.
  intros Ho. unfold get_automatically_added_callback_groups_from_nodes_internal, automatically_added. rw Ho.
  induction (filter _ (weak_nodes w)) as [|n l IH]; [done|].
  rw !fmap_cons. cbn [mjoin list_join]. rw fmap_app IH. f_equal.
  induction (filter _ (for_each_callback_group w n)) as [|g gs IHg]; [done|]. rw !fmap_cons. by rw -IHg.
Qed.

(** [CallbackIsolatedAgnocastExecutor] reports the groups that [spin] would serve, and apart from them only groups that
    were added with a node that is gone. *)
Theorem all_groups_reported w g : only = false ->
  (g ∈ get_all_callback_groups only w <->
   g ∈ (collect w).*1 \/ exists n, (g, n) ∈ weak_groups_to_nodes w /\ is_group_alive w g = true /\ is_node_alive w n = false).
Proof.
  intros Ho. unfold get_all_callback_groups, collect. rw automatically_reported // fmap_app !elem_of_app.
  unfold get_manually_added_callback_groups_internal, manually_added. rw Ho list_elem_of_filter.
  rw !list_elem_of_fmap. setoid_rewrite list_elem_of_filter. split.
  - intros [[Ha ([h n] & -> & Hn)]|H]; [|tauto]. cbn in *. destruct (is_node_alive w n) eqn:En.
    + left. left. exists (h, n). cbn. by rw Ha En.
    + right. by exists n.
  - intros [[([h n] & -> & Hb & Hin)|H]|(n & Hin & Ha & _)].
    + cbn in *. apply andb_true_iff in Hb as [Hb _]. left. split; [done|]. by exists (h, n).
    + by right.
    + left. split; [done|]. by exists (g, n).
Qed.

(** ** How executors end *)

(** The steps of the threads inside [spin], [cancel] and [stop_callback_group], and of the children. *)
Definition internal (a : action) : bool :=
  match a with SpinStep | CancelStep | StopJoined _ | ChildSpins _ | ChildEnds _ => true | _ => false end.

Fixpoint play (l : list action) w : option world :=
  match l with
  | [] => Some w
  | a :: l => match act only a w with Some (Next w) => play l w | _ => None end
  end.

(** Cancelled for good: the flag of the one class stays; in the other class [spinning] is false, no
    child is still to start and those that left the vectors were told to end. *)
Definition cancelled w : Prop :=
  (only = true -> cancel_requested w = true) /\
  (only = false -> spinning w = false /\
     forall (t : nat) c, children w !! t = Some c ->
       child_stage c <> Started /\ (t ∉ weak_child_executors w -> child_stage c <> Ended -> child_spinning c = false)).

(** No callbacks stop each other's groups in a ring: the threads of children that wait for threads of children can be
    numbered downwards. *)
Definition no_ring w : Prop :=
  exists rank : nat -> nat, forall t u, (Some t, u) ∈ stopping w -> (rank u < rank t)%nat.

Definition finished w : Prop :=
  spin_at w = Idle /\ cancelling w = 0%nat /\ stopping w = [] /\
  forall (t : nat) c, children w !! t = Some c -> child_stage c = Ended.

Definition stage_left (x : stage) : nat := match x with Started => 2 | Spinning => 1 | Ended => 0 end.
Definition children_left (cs : list child) : nat := sum_list (stage_left <$> (child_stage <$> cs)).
Definition position_left w : nat :=
  match spin_at w with
  | Idle => 0
  | Entered => 2
  | Collected _ => 1
  | Joining l => 1 + length l
  | Closing => 2 + length (child_threads w)
  | Monitoring | Scanned _ => 3 + length (child_threads w)
  | Asleep | Awake => 4 + length (child_threads w)
  end.
Definition steps_left w : nat := (position_left w + children_left (children w) + cancelling w + length (stopping w))%nat.

Lemma cancelled_stops w : cancelled w -> runs only w = false /\ may_spawn only w = false.
Proof.
  intros [H1 H2]. unfold runs, may_spawn. destruct only; [rw (H1 eq_refl)|rw (proj1 (H2 eq_refl))]; [|done].
  cbn. by rw !andb_false_r.
Qed.

Lemma children_left_insert (cs : list child) (t : nat) c c' :
  cs !! t = Some c ->
  (children_left (<[t := c']> cs) + stage_left (child_stage c) = children_left cs + stage_left (child_stage c'))%nat.
Proof.
  unfold children_left. revert t. induction cs as [|d cs IH]; intros t Ht; [done|]. destruct t as [|t].
  - injection Ht as ->. simpl. lia.
  - specialize (IH t Ht).
    change (stage_left (child_stage d) + sum_list (stage_left <$> (child_stage <$> <[t:=c']> cs)) + stage_left (child_stage c) =
      stage_left (child_stage d) + sum_list (stage_left <$> (child_stage <$> cs)) + stage_left (child_stage c'))%nat. lia.
Qed.

Lemma children_left_cancel w : children_left (children (cancel_children only w)) = children_left (children w).
Proof.
  unfold children_left. f_equal. f_equal. apply list_eq. intros t. rw !list_lookup_fmap.
  unfold cancel_children. cbn [children with_children]. rw cancelled_lookup. destruct (decide _); [|done].
  destruct (children w !! t) as [c|]; [|done]. simpl. f_equal. apply cancel_shape.
Qed.

Lemma cancel_stays w : cancelled w -> cancelled (cancel_children only w).
Proof.
  intros [C1 C2]. split; [exact C1|]. intros Ho. destruct (C2 Ho) as [Hs Hc]. split; [exact Hs|].
  intros t c' Hc'. destruct (cancelled_some only w t c' Hc') as (c & Hcc & Hor & _).
  destruct (Hc t c Hcc) as [N1 N2]. destruct Hor as [-> | ->]; [by split|].
  destruct (cancel_shape only c) as [_ E]. rw E. split; [done|]. intros _ Hn. by rw cancel_child_spec.
Qed.

(** The part of the invariant about children that steps of this kind change. *)
Lemma cancelled_same w w' :
  cancelled w -> cancel_requested w' = cancel_requested w -> (spinning w = false -> spinning w' = false) ->
  children w' = children w -> weak_child_executors w' = weak_child_executors w -> cancelled w'.
Proof. intros [C1 C2] E1 E2 E3 E4. split; [by rw E1|]. rw E3 E4. intros Ho. destruct (C2 Ho). auto. Qed.

Lemma spawn_stopping g w w' : spawn_child_executor only g w = Next w' -> stopping w' = stopping w.
Proof. unfold spawn_child_executor. destruct (negb _); [|done]. by intros [= <-]. Qed.

Lemma spawn_all_stopping l : forall w w', spawn_all only l w = Next w' -> stopping w' = stopping w.
Proof.
  induction l as [|gn l IH]; intros w w'; cbn [spawn_all]; [by intros [= <-]|].
  destruct (spawn_child_executor only gn.1 w) as [w1|] eqn:E; [|done]. intros H%IH. apply spawn_stopping in E. congruence.
Qed.

Lemma spawn_new_stopping l : forall w w', spawn_new only l w = Next w' -> stopping w' = stopping w.
Proof.
  induction l as [|gn l IH]; intros w w'; cbn [spawn_new]; [by intros [= <-]|]. destruct (is_associated w gn.1); [apply IH|].
  destruct (spawn_child_executor only gn.1 w) as [w1|] eqn:E; [|done]. intros H%IH. apply spawn_stopping in E. congruence.
Qed.

Lemma spin_step_stopping w w' : spin_step only w = Some (Next w') -> stopping w' = stopping w.
Proof.
  unfold spin_step. destruct (spin_at w) as [| |l| | | |l| |[|t l]]; try done; try (by intros [= <-]).
  - destruct (only && _); by intros [= <-].
  - destruct (may_spawn only w); [|by intros [= <-]]. destruct (spawn_all only l w) as [w1|] eqn:E; [|done].
    intros [= <-]. by apply spawn_all_stopping in E.
  - destruct (runs only w); [|by intros [= <-]]. destruct (spawn_new only l w) as [w1|] eqn:E; [|done].
    intros [= <-]. by apply spawn_new_stopping in E.
  - destruct (children w !! t); [|done]. destruct (decide _); [|done]. by intros [= <-].
Qed.

Lemma spin_step_left w w' :
  cancelled w -> spin_step only w = Some (Next w') -> cancelled w' /\ (steps_left w' < steps_left w)%nat.
Proof.
  intros Hc Hs. destruct (cancelled_stops w Hc) as [Hruns Hspawn]. unfold spin_step in Hs.
  assert (forall p, cancelled (at_position p w)) as Hp by (intros p; by apply (cancelled_same w)).
  assert (cancelled (leave w)) as Hlv by (by apply (cancelled_same w)).
  rewrite Hruns Hspawn in Hs. unfold steps_left, position_left.
  destruct (spin_at w) as [| |l| | | |l| |[|t l]] eqn:E; try done.
  - destruct (only && cancel_requested w); injection Hs as <-; (split; [done|cbn -[children_left]; lia]).
  - injection Hs as <-. split; [done|cbn -[children_left]; lia].
  - injection Hs as <-. split; [done|cbn -[children_left]; lia].
  - injection Hs as <-. split; [done|cbn -[children_left]; lia].
  - injection Hs as <-. split; [done|]. destruct (scan only w); cbn -[children_left]; lia.
  - injection Hs as <-. split; [done|cbn -[children_left]; lia].
  - injection Hs as <-. split.
    + destruct (cancel_stays w Hc) as [C1 C2]. split; [exact C1|]. intros Ho. destruct (C2 Ho) as [Hsp Hch].
      split; [exact Hsp|]. intros t c' Ht. destruct (Hch t c' Ht) as [N1 N2]. split; [done|]. intros _ Hn.
      destruct (decide (t ∈ weak_child_executors w)) as [Hin|Hin]; [|by apply N2].
      destruct (cancelled_some only w t c' Ht) as (c & Hcc & _ & Hw). rewrite (Hw Hin) in Hn |- *.
      destruct (cancel_shape only c) as [_ E2]. rewrite E2 in Hn. by rw cancel_child_spec.
    + pose proof (children_left_cancel w) as Hl. cbn -[children_left cancel_children] in *. rw Hl.
      change (child_threads (cancel_children only w)) with (child_threads w).
      change (cancelling (cancel_children only w)) with (cancelling w).
      change (stopping (cancel_children only w)) with (stopping w). lia.
  - injection Hs as <-. split; [done|cbn -[children_left]; lia].
  - destruct (children w !! t); [|done]. destruct (decide _); [|done]. injection Hs as <-. split; [done|cbn -[children_left]; lia].
Qed.

Lemma internal_left w a w' :
  inv only w -> cancelled w -> internal a = true -> act only a w = Some (Next w') ->
  inv only w' /\ cancelled w' /\ (steps_left w' < steps_left w)%nat.
Proof.
  intros Hinv Hc Ha Hact. split; [by apply (isolated_act_keeps only a w)|].
  destruct a as [| | | | | | | | | | | | | |i|t|t]; try done; cbn [act] in Hact.
  - by apply spin_step_left.
  - destruct (cancelling w) as [|n] eqn:E; [done|]. injection Hact as <-.
    split; [by apply (cancelled_same (cancel_children only w)); [apply cancel_stays|..]|].
    pose proof (children_left_cancel w) as Hl. unfold steps_left, position_left. rw E.
    cbn -[children_left cancel_children]. rw Hl. cbn -[children_left]. destruct (spin_at w); lia.
  - destruct (stopping w !! i) as [x|] eqn:Ei; [|done]. destruct (children w !! x.2) as [c|]; [|done].
    destruct (decide _); [|done]. injection Hact as <-. split; [by apply (cancelled_same w)|].
    pose proof (lookup_lt_Some _ _ _ Ei) as Hlt.
    unfold steps_left, position_left. cbn -[children_left]. rw length_delete; [|done]. destruct (spin_at w); lia.
  - destruct (children w !! t) as [c|] eqn:Ht; [|done]. destruct (bool_decide _) eqn:Hst; [|done].
    destruct (child_spinning c); [done|]. injection Hact as <-. apply bool_decide_eq_true in Hst.
    set (c' := MkChild _ _ _ _). pose proof (children_left_insert (children w) t c c' Ht) as Hl. rewrite Hst in Hl.
    split; [|unfold steps_left, position_left; cbn -[children_left]; simpl in Hl; destruct (spin_at w); lia].
    destruct Hc as [C1 C2]. split; [exact C1|]. intros Ho. destruct (C2 Ho) as [_ Hch]. by destruct (Hch t c Ht).
  - destruct (children w !! t) as [c|] eqn:Ht; [|done]. destruct (_ && negb (is_joining w t)) eqn:Hst; [|done].
    injection Hact as <-. apply andb_true_iff in Hst as [[Hst _]%andb_true_iff _]. apply bool_decide_eq_true in Hst.
    set (c' := MkChild _ _ _ _). pose proof (children_left_insert (children w) t c c' Ht) as Hl. rewrite Hst in Hl.
    split; [|unfold steps_left, position_left; cbn -[children_left]; simpl in Hl; destruct (spin_at w); lia].
    destruct Hc as [C1 C2]. split; [exact C1|]. intros Ho. destruct (C2 Ho) as [Hsp Hch]. split; [exact Hsp|].
    intros u d Hu. cbn in Hu. destruct (decide (u = t)) as [-> |Hne].
    + rewrite list_lookup_insert_eq in Hu; [|exact (lookup_lt_Some _ _ _ Ht)]. by injection Hu as <-.
    + rewrite list_lookup_insert_ne in Hu; [|done]. by apply (Hch u d).
Qed.

Lemma is_joining_spec w (t : nat) : is_joining w t = true <-> exists u, (Some t, u) ∈ stopping w.
Proof.
  unfold is_joining. rw existsb_exists. split.
  - intros ([[v|] u] & Hin & Hv); [|done]. apply Nat.eqb_eq in Hv as ->. exists u. by apply list_elem_of_In.
  - intros [u Hu]. exists (Some t, u). split; [by apply list_elem_of_In|apply Nat.eqb_refl].
Qed.

Lemma stop_joined_goes_on w x c :
  x ∈ stopping w -> children w !! x.2 = Some c -> child_stage c = Ended ->
  exists a w', internal a = true /\ act only a w = Some (Next w').
Proof.
  intros [i Hi]%list_elem_of_lookup Hc He. exists (StopJoined i). eexists. split; [done|]. cbn [act]. rw Hi Hc.
  by rw decide_True.
Qed.

(** A child that nobody can reach any more has been told to end: it does, or the thread that it joins is there still. *)
Lemma told_child_goes_on w (t : nat) c :
  inv only w -> cancelled w -> no_ring w -> weak_child_executors w = [] ->
  children w !! t = Some c -> child_stage c <> Ended ->
  exists a w', internal a = true /\ act only a w = Some (Next w').
Proof.
  intros [[_ H2 _] _] [C1 C2] [rank Hrank] Hw. remember (rank t) as n eqn:En. revert t c En.
  induction (lt_wf n) as [n _ IH]. intros t c -> Ht Hn. destruct (child_stage c) eqn:Hst; [| |done].
  - exists (ChildSpins t). eexists. split; [done|]. cbn [act]. rw Ht. rw bool_decide_eq_true_2; [|done].
    by rw (r_started _ _ H2 t c Ht Hst).
  - assert (child_ends only w c = true) as He.
    { unfold child_ends. destruct only eqn:Ho.
      + destruct (r_told _ _ H2 eq_refl t c Ht) as [G|G]; [congruence| |rw G; by rw !orb_true_r].
        rewrite Hw in G. by apply not_elem_of_nil in G.
      + destruct (C2 eq_refl) as [_ Hch]. destruct (Hch t c Ht) as [_ Hsp].
        rw Hsp; [by rw !orb_true_r|rw Hw; apply not_elem_of_nil|congruence]. }
    destruct (is_joining w t) eqn:Hj.
    + apply is_joining_spec in Hj as [u Hu]. pose proof (r_ids _ _ H2) as Hids. apply Forall_app in Hids as [_ Hids].
      rewrite Forall_forall in Hids.
      destruct (lookup_lt_is_Some_2 (children w) u (Hids u ltac:(apply list_elem_of_fmap; by exists (Some t, u)))) as [d Hd].
      destruct (decide (child_stage d = Ended)) as [Hde|Hde].
      * by apply (stop_joined_goes_on w (Some t, u) d).
      * by apply (IH (rank u) (Hrank t u Hu) u d).
    + exists (ChildEnds t). eexists. split; [done|]. cbn [act]. rw Ht. rw bool_decide_eq_true_2; [|done]. by rw He Hj.
Qed.

Lemma all_ended_or_child w :
  (forall (t : nat) c, children w !! t = Some c -> child_stage c = Ended) \/
  exists (t : nat) c, children w !! t = Some c /\ child_stage c <> Ended.
Proof.
  destruct (decide (Forall (fun c => child_stage c = Ended) (children w))) as [H|H].
  - left. intros t c Hc. rewrite Forall_lookup in H. by apply (H t c).
  - right. apply not_Forall_Exists in H; [|intros c; apply _]. apply Exists_exists in H as (c & Hc & Hn).
    apply list_elem_of_lookup in Hc as [t Hc]. by exists t, c.
Qed.

Lemma cancelled_goes_on w :
  inv only w -> cancelled w -> no_ring w -> finished w \/ exists a w', internal a = true /\ act only a w = Some (Next w').
Proof.
  intros Hinv Hc Hring. destruct (cancelled_stops w Hc) as [Hruns Hspawn]. pose proof Hinv as [[_ H2 _] Hp].
  assert (forall w', spin_step only w = Some (Next w') -> exists a w', internal a = true /\ act only a w = Some (Next w')) as Hspin.
  { intros w' Hs. by exists SpinStep, w'. }
  unfold spin_step in Hspin. unfold pos_ok in Hp. rewrite Hruns Hspawn in Hspin.
  destruct (spin_at w) as [| |l| | | |l| |[|t l]] eqn:E; try (right; by eapply Hspin).
  - destruct (all_ended_or_child w) as [Hall|(t & c & Ht & Hn)].
    + destruct (cancelling w) as [|n] eqn:En.
      * destruct (stopping w) as [|x l] eqn:Es; [by left|right].
        assert ((x.2 < length (children w))%nat) as Hlt.
        { pose proof (r_ids _ _ H2) as Hi. rewrite Es in Hi. apply Forall_app in Hi as [_ Hi]. by apply Forall_cons in Hi as [Hi _]. }
        destruct (lookup_lt_is_Some_2 _ _ Hlt) as [c Hct]. apply (stop_joined_goes_on w x c); [rw Es; by left|done|by apply (Hall x.2)].
      * right. exists CancelStep. eexists. split; [done|]. cbn [act]. by rw En.
    + right. by apply (told_child_goes_on w t c).
  - destruct (only && cancel_requested w); right; by eapply Hspin.
  - destruct Hp as [Hp Hl]. apply Forall_cons in Hl as [Hlt _]. destruct (lookup_lt_is_Some_2 _ _ Hlt) as [c Hct].
    right. destruct (decide (child_stage c = Ended)) as [Hd|Hd].
    + eapply Hspin. rw Hct. by rw decide_True.
    + by apply (told_child_goes_on w t c).
Qed.

Lemma internal_ring w a w' :
  internal a = true -> act only a w = Some (Next w') -> no_ring w -> no_ring w'.
Proof.
  intros Ha Hact [rank Hr]. exists rank. intros t u Hin. apply Hr. revert Hin.
  cut (forall x, x ∈ stopping w' -> x ∈ stopping w); [by intros Hs; apply Hs|]. intros x.
  assert (stopping w' = stopping w -> x ∈ stopping w' -> x ∈ stopping w) as Hsame by (by intros ->).
  destruct a as [| | | | | | | | | | | | | |i|v|v]; try done; cbn [act] in Hact.
  - apply Hsame. by apply spin_step_stopping in Hact.
  - apply Hsame. destruct (cancelling w); [done|]. by injection Hact as <-.
  - destruct (stopping w !! i); [|done]. destruct (children w !! _); [|done]. destruct (decide _); [|done].
    injection Hact as <-. apply elem_delete.
  - apply Hsame. destruct (children w !! v) as [c|]; [|done]. destruct (bool_decide _); [|done].
    destruct (child_spinning c); [done|]. by injection Hact as <-.
  - apply Hsame. destruct (children w !! v) as [c|]; [|done]. destruct (_ && negb (is_joining w v)); [|done]. by injection Hact as <-.
Qed.

End claims.

(** ** A cancellation that is lost *)

Definition stuck (t : nat) (w : world) : Prop :=
  ok w = true /\ child_callback_groups w = [] /\ weak_child_executors w = [] /\ child_threads w = [] /\
  (exists l, spin_at w = Joining l /\ t ∈ l) /\
  exists c, children w !! t = Some c /\ child_stage c = Spinning /\ child_spinning c = true.

(** Steps of the nodes and groups leave the executor alone. *)
Lemma stuck_same t w w' :
  ok w' = ok w -> child_callback_groups w' = child_callback_groups w -> weak_child_executors w' = weak_child_executors w ->
  child_threads w' = child_threads w -> spin_at w' = spin_at w -> children w' !! t = children w !! t -> stuck t w -> stuck t w'.
Proof. unfold stuck. by intros -> -> -> -> -> ->. Qed.

Lemma stuck_stays t a w w' : a <> Shutdown -> act false a w = Some (Next w') -> stuck t w -> stuck t w'.
Proof.
  intros Ha Hact Hst. pose proof Hst as (Hok & Hg & He & Hth & (l & Hl & Hin) & c & Hc & Hs & Hsp).
  destruct a as [|n b|n|g| |n|n|g n|g| | | | |g self|i|u|u]; try done; cbn [act] in Hact.
  - injection Hact as <-. by apply (stuck_same t w).
  - destruct (is_node_alive w n); [|done]. injection Hact as <-. by apply (stuck_same t w).
  - destruct (existsb _ _); [done|]. injection Hact as <-. by apply (stuck_same t w).
  - destruct (existsb _ _); [done|]. injection Hact as <-. by apply (stuck_same t w).
  - destruct (is_node_alive w n); [|done]. injection Hact as Hact. unfold add_node in Hact.
    destruct (existsb _ _); [done|]. destruct (existsb _ _); [done|]. injection Hact as <-. by apply (stuck_same t w).
  - destruct (is_node_alive w n); [|done]. injection Hact as Hact. unfold remove_node in Hact.
    destruct (existsb _ _); [|done]. injection Hact as <-. by apply (stuck_same t w).
  - destruct (is_group_alive w g && _); [|done]. injection Hact as Hact. unfold Isolated.add_callback_group in Hact.
    destruct (negb _); [|done]. destruct (negb _); [|done]. injection Hact as <-. by apply (stuck_same t w).
  - destruct (is_group_alive w g); [|done]. injection Hact as Hact. unfold Isolated.remove_callback_group in Hact.
    destruct (find _ _); [|done]. injection Hact as <-. by apply (stuck_same t w).
  - destruct (spinning w); [done|]. by rewrite Hl in Hact.
  - unfold spin_step in Hact. rewrite Hl in Hact. destruct l as [|u l]; [by apply not_elem_of_nil in Hin|].
    destruct (children w !! u) as [d|] eqn:Hu; [|done]. destruct (decide (child_stage d = Ended)) as [Hd|]; [|done].
    injection Hact as <-. split; [done|]. split; [done|]. split; [done|]. split; [done|]. split; [|by exists c].
    exists l. split; [done|]. apply elem_of_cons in Hin as [-> |Hin]; [|done]. congruence.
  - injection Hact as <-. by apply (stuck_same t w).
  - destruct (cancelling w); [done|]. injection Hact as <-. apply (stuck_same t w); try done.
    cbn. by rw He.
  - destruct (_ && may_call w self); [|done]. injection Hact as <-. unfold stop_callback_group. rw Hg He Hth. exact Hst.
  - destruct (stopping w !! i) as [x|]; [|done]. destruct (children w !! x.2); [|done]. destruct (decide _); [|done].
    injection Hact as <-. by apply (stuck_same t w).
  - destruct (children w !! u) as [d|] eqn:Hu; [|done]. destruct (bool_decide _) eqn:Hb; [|done].
    destruct (child_spinning d); [done|]. injection Hact as <-. apply bool_decide_eq_true in Hb.
    apply (stuck_same t w); try done. cbn. apply list_lookup_insert_ne. congruence.
  - destruct (children w !! u) as [d|] eqn:Hu; [|done]. destruct (_ && negb (is_joining w u)) eqn:Hb; [|done].
    injection Hact as <-. apply andb_true_iff in Hb as [[_ Hb]%andb_true_iff _]. apply (stuck_same t w); try done.
    cbn. apply list_lookup_insert_ne. intros ->. unfold child_ends in Hb. rewrite Hu in Hc. injection Hc as ->.
    by rewrite Hok Hsp in Hb.
Qed.

(** A node with one group; [cancel] takes the locks after the child was created, and before its thread runs. *)
Definition lost : list action :=
  [NewNode; NewGroup 0 true; AddNode 0; CallSpin; SpinStep; SpinStep; CallCancel; CancelStep; SpinStep; SpinStep; ChildSpins 0].

(** A cancellation of [CallbackIsolatedAgnocastExecutor] can be lost.  [cancel] tells a child to end before its thread
    has entered [spin], which then sets the flag again; [spin] of the parent has forgotten the child when it
    joins the thread, so that in every continuation without a shutdown of the context it never returns. *)
Theorem cancel_before_child_spins_is_lost :
  exists w, run false lost start = Some w /\ spinning w = false /\ cancelling w = 0%nat /\
    forall l w', Forall (fun a => a <> Shutdown) l -> play false l w = Some w' ->
      exists ts c, spin_at w' = Joining ts /\ 0%nat ∈ ts /\ children w' !! 0%nat = Some c /\ child_stage c = Spinning.
Proof.
  destruct (run false lost start) as [w|] eqn:E; [|by vm_compute in E]. exists w. split; [done|].
  vm_compute in E. injection E as E. assert (stuck 0 w) as Hst.
  { rw -E. split; [done|]. split; [done|]. split; [done|]. split; [done|].
    split; [exists [0%nat]; split; [done|by left]|]. eexists. split; [reflexivity|done]. }
  split; [by rw -E|]. split; [by rw -E|]. clear E. intros l w' Hl. revert w Hst.
  induction Hl as [|a l Ha _ IH]; intros w Hst Hp.
  - injection Hp as <-. destruct Hst as (_ & _ & _ & _ & (ts & Hts & Hin) & c & Hc & Hs & _). by exists ts, c.
  - cbn [play] in Hp. destruct (act false a w) as [[w1|]|] eqn:Hact; [|done|done].
    apply (IH w1); [|done]. by apply (stuck_stays 0 a w).
Qed.

(** ** Callbacks that stop callback groups *)

(** The callback of the only group stops its own group, whose thread is detached; [spin] is cancelled and called again
    before the thread has ended. *)
Definition stops_itself : list action :=
  [NewNode; NewGroup 0 true; AddNode 0; CallSpin; SpinStep; SpinStep; ChildSpins 0; StopCallbackGroup 0 (Some 0);
   CallCancel; CancelStep; SpinStep; SpinStep; SpinStep; CallSpin; SpinStep]%nat.

(** [stop_callback_group] detaches the thread of a group that stops itself, and a [spin] that begins before that thread
    has ended throws. *)
Lemma spin_after_self_stop_throws :
  exists w, run false stops_itself start = Some w /\ act false SpinStep w = Some (Exits HasExecutor).
Proof. eexists. split; vm_compute; reflexivity. Qed.

(** Two groups whose callbacks stop the group of the other; then the executor is cancelled. *)
Definition stop_each_other : list action :=
  [NewNode; NewGroup 0 true; NewGroup 0 true; AddNode 0; CallSpin; SpinStep; SpinStep; ChildSpins 0; ChildSpins 1;
   StopCallbackGroup 1 (Some 0); StopCallbackGroup 0 (Some 1); CallCancel; CancelStep; SpinStep; SpinStep; SpinStep]%nat.

(** Each thread joins the other and none ends, though [spin] has returned and everything was cancelled. *)
Lemma mutual_stop_deadlocks :
  exists w, run false stop_each_other start = Some w /\ cancelled false w /\ ~ finished w /\
    forall a, internal a = true -> act false a w = None.
Proof.
  destruct (run false stop_each_other start) as [w|] eqn:E; [|by vm_compute in E]. exists w. split; [done|].
  vm_compute in E. injection E as <-. split_and!.
  - split; [done|]. intros _. split; [done|]. intros [|[|t]] c; [..|done]; intros [= <-]; by split.
  - by intros (_ & _ & ? & _).
  - intros a Ha. destruct a as [| | | | | | | | | | | | | |[|[|i]]|[|[|t]]|[|[|t]]]; done.
Qed.

(** ** Errors of the class without rclcpp nodes *)

Definition unassociated (w : world) : Prop := forall (n : nat) x, nodes w !! n = Some x -> node_has_executor x = false.

Lemma unassociated_alter (f : node -> node) n w :
  (forall x, node_has_executor (f x) = false \/ node_has_executor (f x) = node_has_executor x) ->
  unassociated w -> unassociated (with_nodes (alter f n) w).
Proof.
  intros Hf Hw m x. cbn. destruct (decide (n = m)) as [-> |Hne].
  - rw list_lookup_alter_eq. destruct (nodes w !! m) as [y|] eqn:E; [|done]. intros [= <-].
    destruct (Hf y) as [-> | ->]; [done|by apply (Hw m)].
  - rw list_lookup_alter_ne; [|done]. apply Hw.
Qed.

Lemma spawn_new_nodes l : forall w w', spawn_new true l w = Next w' -> nodes w' = nodes w.
Proof.
  induction l as [|gn l IH]; intros w w'; cbn [spawn_new]; [by intros [= <-]|].
  destruct (is_associated w gn.1) eqn:Ha; [apply IH|]. unfold spawn_child_executor. rw Ha. cbn [negb].
  intros H. apply IH in H. by rw H.
Qed.

Lemma spawn_all_nodes l : forall w w', spawn_all true l w = Next w' -> nodes w' = nodes w.
Proof.
  induction l as [|gn l IH]; intros w w'; cbn [spawn_all]; [by intros [= <-]|].
  unfold spawn_child_executor. destruct (is_associated w gn.1) eqn:Ha; [done|]. cbn [negb].
  intros H. apply IH in H. by rw H.
Qed.

Lemma spin_step_nodes w w' : spin_step true w = Some (Next w') -> nodes w' = nodes w.
Proof.
  unfold spin_step. destruct (spin_at w) as [| |l| | | |l| |[|t l]]; try done; try (by intros [= <-]).
  - destruct (true && _); by intros [= <-].
  - destruct (may_spawn true w); [|by intros [= <-]]. destruct (spawn_all true l w) as [w1|] eqn:E; [|done].
    intros [= <-]. by apply spawn_all_nodes in E.
  - destruct (runs true w); [|by intros [= <-]]. destruct (spawn_new true l w) as [w1|] eqn:E; [|done].
    intros [= <-]. by apply spawn_new_nodes in E.
  - destruct (children w !! t); [|done]. destruct (decide _); [|done]. by intros [= <-].
Qed.

Lemma unassociated_stays a w w' : act true a w = Some (Next w') -> unassociated w -> unassociated w'.
Proof.
  intros Hact Hw. assert (nodes w' = nodes w -> unassociated w') as Hsame by (unfold unassociated; by intros ->).
  destruct a as [|n b|n|g| |n|n|g n|g| | | | |g self|i|u|u]; try done; cbn [act] in Hact.
  - injection Hact as <-. intros n x. cbn. intros [H|[_ H]]%lookup_app_Some; [by apply (Hw n)|].
    by apply list_lookup_singleton_Some in H as [_ <-].
  - destruct (is_node_alive w n); [|done]. injection Hact as <-. by apply Hsame.
  - destruct (existsb _ _); [done|]. injection Hact as <-. apply unassociated_alter; [|done]. intros x. by right.
  - destruct (existsb _ _); [done|]. injection Hact as <-. by apply Hsame.
  - injection Hact as <-. by apply Hsame.
  - destruct (is_node_alive w n); [|done]. injection Hact as Hact. unfold add_node in Hact.
    destruct (existsb _ _); [done|]. destruct (existsb _ _); [done|]. injection Hact as <-. by apply Hsame.
  - destruct (is_node_alive w n); [|done]. injection Hact as Hact. unfold remove_node in Hact.
    destruct (nodes w !! n) as [x|] eqn:En; [|done]. by rewrite (Hw n x En) in Hact.
  - destruct (is_group_alive w g && _); [|done]. injection Hact as Hact. unfold Isolated.add_callback_group in Hact.
    destruct (negb _); [|done]. destruct (negb _); [|done]. injection Hact as <-. by apply Hsame.
  - destruct (is_group_alive w g); [|done]. injection Hact as Hact. unfold Isolated.remove_callback_group in Hact.
    destruct (find _ _); [|done]. destruct (is_node_alive w _); [|done]. injection Hact as <-. by apply Hsame.
  - destruct (spinning w); [done|]. destruct (spin_at w); try done. injection Hact as <-. by apply Hsame.
  - apply Hsame. by apply spin_step_nodes.
  - injection Hact as <-. by apply Hsame.
  - destruct (cancelling w); [done|]. injection Hact as <-. by apply Hsame.
  - destruct (stopping w !! i); [|done]. destruct (children w !! _); [|done]. destruct (decide _); [|done].
    injection Hact as <-. by apply Hsame.
  - destruct (children w !! u) as [d|]; [|done]. destruct (bool_decide _); [|done].
    destruct (child_spinning d); [done|]. injection Hact as <-. by apply Hsame.
  - destruct (children w !! u) as [d|]; [|done]. destruct (_ && negb (is_joining w u)); [|done].
    injection Hact as <-. by apply Hsame.
Qed.

(** What [AgnocastOnlyCallbackIsolatedExecutor] cannot do.  A group that was added by hand carries the flag already, so
    that [spin] exits the process when it has collected one; a node that was added never carries
    the flag that the inherited [remove_node] tests, so that a call of it exits the process. *)
Theorem only_executor_exits w :
  reachable true w ->
  (forall g, manual w g -> is_associated w g = true) /\
  (forall l g n, spin_at w = Collected l -> may_spawn true w = true -> (g, n) ∈ l -> is_associated w g = true ->
     act true SpinStep w = Some (Exits HasExecutor)) /\
  (forall n, is_node_alive w n = true -> act true (RemoveNode n) w = Some (Exits NodeNotAssociated)).
Proof.
  intros Hr. split; [|split].
  - intros g Hg. destruct (reachable_inv true w Hr) as [[H1 _ _] _]. apply (b_flag _ _ H1). by right.
  - intros l g n Hl Hm Hg Ha. cbn [act]. unfold spin_step. rw Hl Hm. rw spawn_all_exits; [done|].
    exists g. split; [|done]. apply list_elem_of_fmap. by exists (g, n).
  - intros n Hn. assert (unassociated w) as Hw.
    { clear Hn. induction Hr as [|w a w' _ IH Hact]; [by intros m x|]. by eapply unassociated_stays. }
    cbn [act]. rw Hn. unfold remove_node. destruct (nodes w !! n) as [x|] eqn:En; [|done]. by rw (Hw n x En).
Qed.

(** ** Witnesses *)

(** A node with two groups, one of which is made while the executor monitors. *)
Definition demo : list action :=
  [NewNode; NewGroup 0 true; AddNode 0; CallSpin; SpinStep; SpinStep; ChildSpins 0; NewGroup 0 true; SpinStep; SpinStep].

Definition by_hand : list action := [NewNode; NewGroup 0 false; AddCallbackGroup 0 0; CallSpin; SpinStep].

Definition world_of (o : option world) : world := match o with Some w => w | None => start end.

Lemma run_demo only l : bool_decide (is_Some (run only l start)) = true -> reachable only (world_of (run only l start)).
Proof. intros H. apply bool_decide_eq_true in H as [w Hw]. rw Hw. by apply (run_from_start only l). Qed.


Lemma monitoring_serves_every_group_witness :
  exists w1 w2, spin_step false (world_of (run false demo start)) = Some (Next w1) /\ length (children w2) = 2%nat.
Proof.
  destruct (monitoring_serves_every_group false (world_of (run false demo start))
              (run_demo false demo ltac:(vm_compute; reflexivity)) ltac:(vm_compute; reflexivity) ltac:(vm_compute; reflexivity)) as (w1 & w2 & H1 & _).
  exists w1, (world_of (run false (demo ++ [SpinStep; SpinStep]) start)). split; [exact H1|vm_compute; reflexivity].
Defined.

Lemma only_executor_exits_witness :
  act true SpinStep (world_of (run true by_hand start)) =
    Some (Exits HasExecutor).
Proof.
  apply (only_executor_exits (world_of (run true by_hand start))
           (run_demo true by_hand ltac:(vm_compute; reflexivity))) with (l := [(0, 0)]%nat) (g := 0%nat) (n := 0%nat);
    [vm_compute; reflexivity|vm_compute; reflexivity|by left|vm_compute; reflexivity].
Defined.

