(* ===== verification/Delivery.v ===== *)
(** * No lost wake-up

    The kernel's notify lists and the executors of a process, together.  A [world] is one topic, the
    process registry of the module, a process with subscriptions on the topic, and the eventfds of
    those subscriptions; its steps are the calls of [KSignal.topic_call] by any process and the actions
    of [Executor.act].  As long as a subscriber has messages it has not received, its eventfd is
    readable or a task that receives them is queued or running. *)

From S2P Require Import Prelude Kernel KMempool KTypes KRules KTopic KMessage KCleanup KSignal.
From S2P Require Import Epoll Timer CallbackInfo Executor Watch.

(** ** Tasks of a process over one action *)

Definition ready_tasks (p : process) : list executable :=
  execs p ≫= (fun x => ready_agnocast_executables_ (ex_loop x)).

Definition receive_task (id : Z) (c : callback_info) : executable :=
  AgnocastExecutable (ReceiveTask id (topic_name c) (subscriber_id c)) (cb_callback_group c).

Lemma elem_of_ready p it :
  it ∈ ready_tasks p <->
  exists i x, execs p !! i = Some x /\ it ∈ ready_agnocast_executables_ (ex_loop x).
Proof.
  unfold ready_tasks. rw list_elem_of_bind. split.
  - intros (x & Hit & [i Hi]%list_elem_of_lookup). by exists i, x.
  - intros (i & x & Hi & Hit). exists x. split; [done|]. by eapply list_elem_of_lookup_2.
Qed.

(** The queues of [l'] hold what those of [l] hold. *)
Definition keeps_tasks (l l' : list exec_state) : Prop :=
  forall i x, l !! i = Some x -> exists x', l' !! i = Some x' /\
    forall it, it ∈ ready_agnocast_executables_ (ex_loop x) ->
      it ∈ ready_agnocast_executables_ (ex_loop x').

Lemma keeps_tasks_refl l : keeps_tasks l l.
Proof. intros i x Hx. by exists x. Qed.

Lemma keeps_tasks_trans l1 l2 l3 : keeps_tasks l1 l2 -> keeps_tasks l2 l3 -> keeps_tasks l1 l3.
Proof.
  intros H12 H23 i x Hx. destruct (H12 i x Hx) as (y & Hy & Hi).
  destruct (H23 i y Hy) as (z & Hz & Hj). exists z. split; [done|]. auto.
Qed.

Lemma keeps_alter f i l :
  (forall x it, l !! i = Some x -> it ∈ ready_agnocast_executables_ (ex_loop x) ->
     it ∈ ready_agnocast_executables_ (ex_loop (f x))) ->
  keeps_tasks l (alter f i l).
Proof.
  intros Hf j x Hx. destruct (decide (i = j)) as [<-|Hne].
  - exists (f x). rw list_lookup_alter_eq Hx. split; [done|]. intros it. by apply Hf.
  - exists x. by rw list_lookup_alter_ne.
Qed.

Lemma keeps_close fd l : keeps_tasks l (close_everywhere fd l).
Proof.
  intros i x Hx. exists (set_loop (close_fd fd (ex_loop x)) x).
  unfold close_everywhere. by rw list_lookup_fmap Hx.
Qed.

Lemma keeps_close_all fds l : keeps_tasks l (foldr close_everywhere l fds).
Proof.
  induction fds as [|fd fds IH]; [apply keeps_tasks_refl|].
  eapply keeps_tasks_trans; [exact IH|]. simpl. apply keeps_close.
Qed.

Lemma keeps_snoc l x : keeps_tasks l (l ++ [x]).
Proof. intros i y Hy. exists y. split; [by apply lookup_app_l_Some|done]. Qed.

Lemma keeps_ready p p' it :
  keeps_tasks (execs p) (execs p') -> it ∈ ready_tasks p -> it ∈ ready_tasks p'.
Proof.
  rw !elem_of_ready. intros Hk (i & x & Hx & Hit).
  destruct (Hk i x Hx) as (x' & Hx' & Hi). exists i, x'. auto.
Qed.

Lemma keeps_index l l' i : keeps_tasks l l' -> (i < length l)%nat -> (i < length l')%nat.
Proof.
  intros Hk Hi. destruct (lookup_lt_is_Some_2 l i Hi) as [x Hx].
  destruct (Hk i x Hx) as (x' & Hx' & _). by eapply lookup_lt_Some.
Qed.

(** An entry of the callback table after an action: the one before, perhaps added to an epoll
    instance, and then with its task queued when it is transient local. *)
Definition entry_from (c c' : callback_info) (id : Z) (tasks : list executable) : Prop :=
  c' = c \/ cb_need_epoll_update c = true /\ c' = clear_need_update c /\
    (is_transient_local c = true -> receive_task id c ∈ tasks).

Record action_frame (p p' : process) : Prop := {
  af_tasks : keeps_tasks (execs p) (execs p');
  af_running : running p' = running p;
  af_table : forall id c', id2_callback_info (callback_table p') !! id = Some c' ->
    exists c, id2_callback_info (callback_table p) !! id = Some c /\
      entry_from c c' id (ready_tasks p');
  af_fds : forall id fd, sub_fds p' !! id = Some fd -> sub_fds p !! id = Some fd;
  af_handling : forall i id c, (i, (id, c)) ∈ handling p' -> (i, (id, c)) ∈ handling p \/
    id2_callback_info (callback_table p) !! id = Some c /\ exists data, (i, data) ∈ fetched p;
  af_fetched : forall i data, (i, data) ∈ fetched p' ->
    (i, data) ∈ fetched p \/ (i < length (execs p))%nat
}.

Lemma frame_static p p' :
  keeps_tasks (execs p) (execs p') -> running p' = running p ->
  callback_table p' = callback_table p -> sub_fds p' = sub_fds p ->
  handling p' = handling p -> fetched p' = fetched p -> action_frame p p'.
Proof.
  intros Hk Hr Hc Hs Hh Hf. split; [done|done| | | |].
  - rw Hc. intros id c' Hid. exists c'. split; [done|by left].
  - by rw Hs.
  - rw Hh. by left.
  - rw Hf. by left.
Qed.

Lemma action_frame_refl p : action_frame p p.
Proof. by apply frame_static; [apply keeps_tasks_refl|..]. Qed.

Lemma prepare_callbacks_frame v ctl order s e s' e' :
  prepare_loop (prepare_callback v ctl) order (s, e) = Returns (s', e') ->
  (forall it, it ∈ ready_agnocast_executables_ e -> it ∈ ready_agnocast_executables_ e') /\
  forall id c', id2_callback_info s' !! id = Some c' ->
    exists c, id2_callback_info s !! id = Some c /\
      entry_from c c' id (ready_agnocast_executables_ e').
Proof.
  intros Hrun.
  eapply (prepare_loop_ind _ (fun st =>
    (forall it, it ∈ ready_agnocast_executables_ e -> it ∈ ready_agnocast_executables_ st.2) /\
    forall id c', id2_callback_info st.1 !! id = Some c' ->
      exists c, id2_callback_info s !! id = Some c /\
        entry_from c c' id (ready_agnocast_executables_ st.2)) (fun _ _ => True)) in Hrun;
    [exact (proj1 Hrun)| |by split; [done|intros id c' Hc'; exists c'; split; [done|by left]]].
  clear Hrun s' e'. intros id [s1 e1] [s2 e2] [Hq Ht] Hb. simpl in *.
  split; [|by split]. unfold prepare_callback in Hb.
  destruct (id2_callback_info s1 !! id) as [c1|] eqn:Hid; [|by simplify_eq].
  destruct (cb_need_epoll_update c1) eqn:Hneed; [|by simplify_eq].
  destruct (v (cb_callback_group c1)) as [[]| |]; [|by simplify_eq|done..].
  destruct (ctl (notify_eventfd c1)); [|done]. injection Hb as <- <-. simpl.
  assert (forall it, it ∈ ready_agnocast_executables_ e1 -> it ∈ ready_agnocast_executables_
    (if is_transient_local c1 then enqueue_receive_and_execute id c1 (add_to_epoll (notify_eventfd c1)
       (pack_epoll_data EpollEventType_Subscription id) e1) else add_to_epoll (notify_eventfd c1)
       (pack_epoll_data EpollEventType_Subscription id) e1)) as Hmono.
  { intros it Hit. destruct (is_transient_local c1); simpl; [apply elem_of_app; by left|done]. }
  split; [auto|]. intros id' c'. destruct (decide (id' = id)) as [-> |Hne].
  - rw lookup_insert_eq. intros [= <-]. destruct (Ht id c1 Hid) as (c & Hc & Hfrom).
    exists c. split; [done|]. right. destruct Hfrom as [-> |(_ & -> & _)]; [|done].
    split; [done|]. split; [done|]. intros Htl. rw Htl /=. apply elem_of_app. right. by left.
  - rw lookup_insert_ne; [|done]. intros Hc'. destruct (Ht id' c' Hc') as (c & Hc & Hfrom).
    exists c. split; [done|]. destruct Hfrom as [-> |(Hn & -> & Htl)]; [by left|right]. auto.
Qed.

Lemma prepare_timers_tasks (clk : bool) v ctl order t e t' e' :
  prepare_loop ((if clk then prepare_timer else prepare_clock) v ctl) order (t, e) = Returns (t', e') ->
  ready_agnocast_executables_ e' = ready_agnocast_executables_ e.
Proof.
  intros Hrun. eapply (prepare_loop_ind _ (fun st : timers * executor =>
    ready_agnocast_executables_ st.2 = ready_agnocast_executables_ e) (fun _ _ => True)) in Hrun;
    [exact (proj1 Hrun)| |done].
  clear Hrun t' e'. intros tid [s1 e1] [s2 e2] Hq Hb. simpl in *. split; [|by split].
  destruct clk; unfold prepare_timer, prepare_clock in Hb; repeat case_match; by simplify_eq.
Qed.

Lemma handle_time_tasks (clk : bool) id val now t e e' :
  (if clk then handle_timer id val else handle_clock id val now) t e = Returns e' ->
  forall it, it ∈ ready_agnocast_executables_ e -> it ∈ ready_agnocast_executables_ e'.
Proof.
  unfold handle_timer, handle_clock. intros Hrun it Hit.
  destruct clk; repeat case_match; simplify_eq; simpl; try done; apply elem_of_app; by left.
Qed.

Lemma prepare_stage_frame i k stage x order ctl p p' :
  execs p !! i = Some x -> prepare_stage i k stage x order ctl p = Some p' -> action_frame p p'.
Proof.
  intros Hx. unfold prepare_stage. destruct (stage =? -1).
  { destruct (add_callback_groups_from_nodes _ _ _ _) as [gs auto]. intros [= <-].
    apply frame_static; try done. apply keeps_alter. by intros y it. }
  destruct (stage =? EpollEventType_Subscription).
  - destruct (prepare_loop _ _ _) as [[c e]| |] eqn:E; [|done..]. intros [= <-].
    apply prepare_callbacks_frame in E as [Hq Ht].
    assert (keeps_tasks (execs p) (alter (fun x0 => set_preparing (next_stage k stage (ex_preparing
      (set_loop e x0))) (set_loop e x0)) i (execs p))) as Hk.
    { apply keeps_alter. intros y it Hy. simplify_eq. apply Hq. }
    split; try done; [|by left|by left].
    intros id c' Hc'. destruct (Ht id c' Hc') as (c0 & Hc0 & Hfrom). exists c0. split; [done|].
    destruct Hfrom as [-> |(Hn & -> & Htl)]; [by left|right]. split; [done|]. split; [done|].
    intros Htr. apply elem_of_ready. eexists i, _. split; [simpl; by rw list_lookup_alter_eq Hx|].
    simpl. auto.
  - assert (forall t e, ready_agnocast_executables_ e = ready_agnocast_executables_ (ex_loop x) ->
      action_frame p (upd_exec i (fun x => set_preparing (next_stage k stage (ex_preparing (set_loop e x)))
        (set_loop e x)) (set_timers t p))) as Hf.
    { intros t e He. apply frame_static; try done. apply keeps_alter. intros y it Hy.
      simpl in Hy. assert (y = x) as -> by congruence. simpl. by rw He. }
    destruct (stage =? EpollEventType_Timer);
      (destruct (prepare_loop _ _ _) as [[t e]| |] eqn:E; [|done..]); intros [= <-]; apply Hf.
    + by apply (prepare_timers_tasks true) in E.
    + by apply (prepare_timers_tasks false) in E.
Qed.

Lemma handle_event_frame i k data val now p p' :
  fetched p !! k = Some (i, data) ->
  handle_event i data val now (set_fetched (delete k (fetched p)) (handling p) p) = Some p' ->
  action_frame p p'.
Proof.
  intros Hk. assert (forall f, f ∈ delete k (fetched p) -> f ∈ fetched p) as Hdel.
  { intros f. apply list_elem_of_delete_inv. }
  set (p1 := set_fetched _ _ p). assert (action_frame p p1) as Hf1.
  { split; try done; [apply keeps_tasks_refl|intros id c' Hc'; exists c'; split; [done|by left]|by left|].
    intros j d Hd. left. by apply Hdel. }
  unfold handle_event. destruct (wait_and_handle_epoll_event _) as [[[type id]|]| |]; try done.
  2: by intros [= <-].
  destruct (type =? EpollEventType_Subscription).
  { destruct (find_callback _ _) as [c|] eqn:Hc; intros [= <-]; [|done].
    destruct Hf1 as [H1 H2 H3 H4 H5 H6]. split; try done. simpl.
    intros j id' c' [Hin|Hin]%elem_of_app; [by left|].
    apply list_elem_of_singleton in Hin as [= -> -> ->]. right. split; [done|]. exists data.
    by eapply list_elem_of_lookup_2. }
  destruct (_ || _); [|by intros [= <-]].
  destruct (execs p1 !! i) as [x|] eqn:Hx; [|by intros [= <-]].
  destruct ((if type =? EpollEventType_Timer then handle_timer id val else handle_clock id val now)
    (timer_table p1) (ex_loop x)) as [e| |] eqn:E; [|by intros [= <-]|done].
  intros [= <-]. pose proof (handle_time_tasks _ _ _ _ _ _ _ E) as Hq. destruct Hf1 as [H1 H2 H3 H4 H5 H6].
  split; try done; [|intros id' c' Hc'; exists c'; split; [done|by left]].
  simpl. apply keeps_alter. intros y it Hy. simpl in Hy, Hx. simplify_eq. apply Hq.
Qed.

Lemma collect_timer_frame tid p : action_frame p (collect_timer tid p).
Proof.
  unfold collect_timer. destruct (_ !! tid) as [ti|]; [|apply action_frame_refl].
  destruct (negb _); [|apply action_frame_refl]. apply frame_static; try done. apply keeps_close_all.
Qed.

Lemma new_executor_frame kind fd p p' : new_executor kind fd p = Some p' -> action_frame p p'.
Proof.
  intros Hn. unfold new_executor in Hn.
  repeat case_match; simplify_eq; (apply frame_static; try done; apply keeps_snoc).
Qed.

(** The actions that neither register a callback nor take a task from a queue nor end one. *)
Definition plain (a : action) : bool :=
  match a with
  | ARegisterCallback _ _ _ _ _ | APop _ | AFinish _ _ => false
  | _ => true
  end.

Lemma upd_exec_frame i x x' p (d : dispatcher) gs ns :
  execs p !! i = Some x -> ex_loop x' = ex_loop x ->
  action_frame p (set_dispatch d (upd_exec i (fun _ => x') (set_groups gs ns p))).
Proof.
  intros Hx He. apply frame_static; try done. apply keeps_alter. intros y it Hy.
  simpl in Hy. assert (y = x) as -> by congruence. by rw He.
Qed.

Lemma act_frame a p p' : plain a = true -> act a p = Some p' -> action_frame p p'.
Proof.
  intros Hp Ha. destruct a; try done; cbn [act] in Ha.
  - destruct (groups p !! group); simplify_eq; [apply action_frame_refl|].
    by apply frame_static; [apply keeps_tasks_refl|..].
  - by eapply new_executor_frame.
  - injection Ha as <-. split; try done; [apply keeps_tasks_refl| |by left|by left].
    simpl. intros id' c' [_ Hc']%lookup_delete_Some. exists c'. split; [done|by left].
  - destruct (sub_fds p !! id) as [fd|] eqn:Hfd, (id2_callback_info (callback_table p) !! id);
      simplify_eq; try apply action_frame_refl. split; try done; [apply keeps_close| | |by left|by left].
    + intros id' c' Hc'. exists c'. split; [done|by left].
    + simpl. by intros id' fd' [_ ?]%lookup_delete_Some.
  - destruct (create_timer _ _ _ _ _) as [t []]; simplify_eq;
      (apply frame_static; try done; apply keeps_tasks_refl).
  - simplify_eq. apply frame_static; try done; apply keeps_tasks_refl.
  - destruct (timer_objects (timer_table p) !! timer_id); simplify_eq; [apply action_frame_refl|].
    destruct (collect_timer_frame timer_id (set_timers (unregister_timer_info timer_id (timer_table p)) p)).
    by split.
  - destruct (timer_objects (timer_table p) !! timer_id); simplify_eq; [|apply action_frame_refl].
    apply frame_static; try done; apply keeps_tasks_refl.
  - destruct (timer_objects (timer_table p) !! timer_id); simplify_eq; [|apply action_frame_refl].
    apply frame_static; try done; apply keeps_tasks_refl.
  - destruct (timer_objects (timer_table p) !! timer_id); simplify_eq; [|apply action_frame_refl].
    apply frame_static; try done; apply keeps_tasks_refl.
  - destruct (timer_infos (timer_table p) !! timer_id); simplify_eq; [|apply action_frame_refl].
    apply frame_static; try done; apply keeps_tasks_refl.
  - destruct (timer_infos (timer_table p) !! timer_id); simplify_eq; [|apply action_frame_refl].
    destruct (handle_post_time_jump _ _ _ _) as [ti' effect].
    destruct effect; simplify_eq; (apply frame_static; try done); try apply keeps_tasks_refl.
    apply keeps_close.
  - destruct (execs p !! i) as [x|] eqn:Hx; simplify_eq; [|apply action_frame_refl].
    destruct (take_update_request _ _) as [d []]; simplify_eq;
      (apply frame_static; try done); try apply keeps_tasks_refl. apply keeps_alter. by intros y it.
  - destruct (execs p !! i) as [x|] eqn:Hx; simplify_eq; [|apply action_frame_refl].
    destruct (ex_preparing x !! k); simplify_eq; [|apply action_frame_refl].
    by eapply prepare_stage_frame.
  - destruct (execs p !! i) as [x|] eqn:Hx; [|simplify_eq; apply action_frame_refl].
    destruct w as [[]| |data]; simplify_eq; try apply action_frame_refl.
    split; try done; [apply keeps_tasks_refl|intros id c' Hc'; exists c'; split; [done|by left]|by left|].
    simpl. intros j d [Hin|Hin]%elem_of_app; [by left|].
    apply list_elem_of_singleton in Hin as [= -> ->]. right. by eapply lookup_lt_Some.
  - destruct (fetched p !! k) as [[i data]|] eqn:Hk; simplify_eq; [|apply action_frame_refl].
    by eapply handle_event_frame.
  - destruct (handling p !! k) as [[i [id c]]|] eqn:Hk; simplify_eq; [|apply action_frame_refl].
    assert (forall l, keeps_tasks (execs p) l ->
      action_frame p (set_execs l (set_fetched (fetched p) (delete k (handling p)) p))) as Hf.
    { intros l Hl. split; try done; [intros id' c' Hc'; exists c'; split; [done|by left]| |by left].
      simpl. intros j id' c' Hin%list_elem_of_delete_inv. by left. }
    cbn [execs set_fetched] in Ha. destruct (execs p !! i) as [x|] eqn:Hx; [|simplify_eq].
    + destruct (handle_callback id c r (ex_loop x)) as [e| |] eqn:E; [|done..]. injection Ha as <-.
      apply (Hf (alter (set_loop e) i (execs p))), keeps_alter. intros y it Hy Hit.
      simpl in Hy. assert (y = x) as -> by congruence.
      destruct r; simpl in E; [|by injection E as <-|done].
      injection E as <-. simpl. apply elem_of_app. by left.
    + destruct (Hf (execs p) (keeps_tasks_refl _)). by split.
  - destruct (running p !! k) as [[i [[|tid] g]]|]; simplify_eq; try apply action_frame_refl.
    destruct (timer_infos (timer_table p) !! tid); simplify_eq; [|apply action_frame_refl].
    destruct (handle_timer_event _ _ _). simplify_eq. apply frame_static; try done; apply keeps_tasks_refl.
  - destruct (execs p !! i) as [x|] eqn:Hx; [|simplify_eq; apply action_frame_refl].
    destruct (ex_kind x) eqn:Hk; simplify_eq; try apply action_frame_refl.
    destruct (add_callback_group _ _ _) as [[gs x']|] eqn:E; simplify_eq.
    apply (upd_exec_frame _ x); [done|]. unfold add_callback_group in E. repeat case_match; by simplify_eq.
  - destruct (execs p !! i) as [x|] eqn:Hx; [|simplify_eq; apply action_frame_refl].
    destruct (ex_kind x) eqn:Hk; simplify_eq; try apply action_frame_refl.
    destruct (remove_callback_group _ _ _) as [[gs x']|] eqn:E; simplify_eq.
    apply (upd_exec_frame _ x); [done|]. unfold remove_callback_group in E. repeat case_match; by simplify_eq.
  - destruct (execs p !! i) as [x|] eqn:Hx; [|simplify_eq; apply action_frame_refl].
    destruct (ex_kind x) eqn:Hk; simplify_eq; try apply action_frame_refl.
    destruct (add_node _ _ _ _ _) as [[[ns gs] x']|] eqn:E; simplify_eq.
    apply (upd_exec_frame _ x); [done|]. unfold add_node in E. repeat case_match; by simplify_eq.
  - destruct (execs p !! i) as [x|] eqn:Hx; [|simplify_eq; apply action_frame_refl].
    destruct (ex_kind x) eqn:Hk; simplify_eq; try apply action_frame_refl.
    destruct (remove_node _ _ _ _) as [[[ns gs] x']|] eqn:E; simplify_eq.
    apply (upd_exec_frame _ x); [done|]. unfold remove_node in E. repeat case_match; by simplify_eq.
  - simplify_eq. apply frame_static; try done. apply keeps_alter. intros y it _. by destruct (ex_kind y).
  - destruct (groups p !! group) as [gi|]; simplify_eq; [|apply action_frame_refl].
    apply frame_static; try done; apply keeps_tasks_refl.
  - destruct (rcl_running p !! k); simplify_eq; [|apply action_frame_refl].
    apply frame_static; try done; apply keeps_tasks_refl.
Qed.

Lemma register_frame topic sid tl fd g p p' :
  act (ARegisterCallback topic sid tl fd g) p = Some p' ->
  execs p' = execs p /\ running p' = running p /\ handling p' = handling p /\ fetched p' = fetched p /\
  (forall id c', id2_callback_info (callback_table p') !! id = Some c' ->
     id2_callback_info (callback_table p) !! id = Some c' \/
     c' = CallbackInfo topic sid tl fd g true /\ sub_fds p' !! id = Some fd) /\
  forall id fd', sub_fds p' !! id = Some fd' -> sub_fds p !! id = Some fd' \/ fd' = fd.
Proof.
  simpl. destruct (register_callback _ _ _ _ _ _) as [c r] eqn:E. unfold register_callback in E.
  destruct (allocate_callback_info_id _) as [s1 r1] eqn:Ea.
  assert (id2_callback_info s1 = id2_callback_info (callback_table p)) as Ht.
  { unfold allocate_callback_info_id in Ea. by destruct (negb _); injection Ea as <- _. }
  destruct r1 as [id| |]; injection E as <- <-; intros [= <-]; simpl; rw Ht;
    (do 4 (split; [done|])); [|by split; left..].
  split; intros id' v; (destruct (decide (id' = id)) as [-> |];
    [rw !lookup_insert_eq; intros [= <-]|rw lookup_insert_ne //]); auto.
Qed.

Lemma pop_frame i p p' :
  act (APop i) p = Some p' ->
  length (execs p') = length (execs p) /\ callback_table p' = callback_table p /\
  sub_fds p' = sub_fds p /\ handling p' = handling p /\ fetched p' = fetched p /\
  ((forall it, it ∈ ready_tasks p -> it ∈ ready_tasks p') /\ running p' = running p \/
   exists it, (i < length (execs p))%nat /\ running p' = running p ++ [(i, it)] /\
     forall it', it' ∈ ready_tasks p -> it' ∈ ready_tasks p' \/ it' = it).
Proof.
  simpl. destruct (execs p !! i) as [x|] eqn:Hx.
  2: { intros [= <-]. do 5 (split; [done|]). by left. }
  destruct (get_next_ready_agnocast_executable _ _ _) as [gs r] eqn:E.
  apply get_next_ready_spec in E. destruct r as [[it rest]|]; intros [= <-]; simpl;
    rw ?length_alter; (do 5 (split; [done|])); [right|by left].
  destruct E as (_ & (l1 & l2 & Hq & ->) & _). exists it.
  split; [by eapply lookup_lt_Some|]. split; [done|].
  intros it'. rw !elem_of_ready. intros (j & y & Hy & Hit).
  destruct (decide (j = i)) as [-> |Hne].
  - assert (y = x) as -> by congruence. rw Hq in Hit.
    assert (it' ∈ l1 ++ l2 \/ it' = it) as [Hin|]; [|left|by right].
    { rewrite elem_of_app in Hit. rewrite elem_of_cons in Hit. rewrite elem_of_app. naive_solver. }
    eexists i, _. split; [simpl; by rw list_lookup_alter_eq Hx|done].
  - left. exists j, y. split; [simpl; by rw list_lookup_alter_ne|done].
Qed.

Lemma finish_frame k again i it p p' :
  running p !! k = Some (i, it) -> act (AFinish k again) p = Some p' ->
  keeps_tasks (execs p) (execs p') /\ running p' = delete k (running p) /\
  callback_table p' = callback_table p /\ sub_fds p' = sub_fds p /\ handling p' = handling p /\
  fetched p' = fetched p /\
  (forall id topic sid, callable it = ReceiveTask id topic sid -> again = true ->
     (i < length (execs p))%nat -> it ∈ ready_tasks p').
Proof.
  intros Hk. simpl. rw Hk. destruct (callable it) as [id topic sid|tid].
  - intros [= <-]. split; [|do 5 (split; [done|])].
    + simpl. apply keeps_alter. intros x it' _ Hit. simpl. unfold reenqueue.
      destruct again; [|done]. simpl. apply elem_of_app. by left.
    + intros _ _ _ _ -> [x Hx]%lookup_lt_is_Some_2. apply elem_of_ready.
      eexists i, _. split; [simpl; by rw list_lookup_alter_eq Hx|]. simpl.
      apply elem_of_app. right. by left.
  - intros [= <-]. destruct (collect_timer_frame tid (set_groups (restore_group (exec_group it) (groups p))
      (nodes_with_executor p) (set_running (delete k (running p)) (rcl_running p) p))) as [H1 H2 _ _ _ _].
    unfold collect_timer in *.
    destruct (timer_infos _ !! tid); [destruct (negb _)|]; done.
Qed.

(** ** Worlds *)

(** What the code relies on of an eventfd opened with [EFD_NONBLOCK] (eventfd(2)): a signal leaves it
    readable, and a readable one answers its counter. *)
Class EventFd := {
  fdstate : Type;
  fd_new : fdstate;
  fd_signal : fdstate -> fdstate;
  fd_read : fdstate -> read_answer * fdstate;
  readable : fdstate -> Prop;
  signal_readable f : readable (fd_signal f);
  read_readable f : readable f -> (fd_read f).1 = ReadCounter
}.

Section delivery.
Context `{KernelHash} `{EventFd} (rules : list domain_bridge_rule) (topic : string).

(** [w_subs]: the [Subscription] objects of the process on the topic, by subscriber id, each with its
    eventfd, the context of that eventfd in the module, and whether it is transient local.  [w_new]:
    those whose callback is not registered yet.  [w_status]: for each running task, what RECEIVE
    answered in [ret_call_again], once it did. *)
Record world := World {
  w_procs : list process_info;
  w_topic : topic_struct;
  w_process : process;
  w_status : list (option bool);
  w_counters : Z -> fdstate;
  w_subs : gmap Z (Z * Z * bool);
  w_new : list Z
}.

Definition own (w : world) (sid : Z) : Prop := is_Some (w_subs w !! sid).

Definition upd_counter (ctx : Z) (f : fdstate -> fdstate) (counters : Z -> fdstate) : Z -> fdstate :=
  fun c => if c =? ctx then f (counters c) else counters c.

Definition signal_all (signals : list Z) (counters : Z -> fdstate) : Z -> fdstate :=
  foldr (fun ctx counters => upd_counter ctx fd_signal counters) counters signals.

Definition set_process (p : process) (status : list (option bool)) (w : world) : world :=
  World (w_procs w) (w_topic w) p status (w_counters w) (w_subs w) (w_new w).
Definition set_topic (procs : list process_info) (t : topic_struct) (counters : Z -> fdstate)
    (w : world) : world :=
  World procs t (w_process w) (w_status w) counters (w_subs w) (w_new w).
Definition set_status (status : list (option bool)) (w : world) : world :=
  set_process (w_process w) status w.
Definition set_counters (counters : Z -> fdstate) (w : world) : world :=
  set_topic (w_procs w) (w_topic w) counters w.
Definition set_subs (subs : gmap Z (Z * Z * bool)) (new : list Z) (w : world) : world :=
  World (w_procs w) (w_topic w) (w_process w) (w_status w) (w_counters w) subs new.

(** The actions with a step of their own below. *)
Definition separate (a : action) : bool :=
  match a with
  | ARegisterCallback t _ _ _ _ => bool_decide (t = topic)
  | ACloseEventfd _ | ARead _ _ | APop _ | AFinish _ _ => true
  | _ => false
  end.

(** One step.  A descriptor names an open file, so that of a new eventfd is no open one; a stale copy of a closed one may
    have the same number. *)
Inductive step (w : world) : world -> Prop :=
  | step_topic procs' t' signals :
      topic_call rules (own w) (w_procs w) (w_topic w) procs' t' signals ->
      step w (set_topic procs' t' (signal_all signals (w_counters w)) w)
  | step_subscribe al domain pid a fd ctx t' s :
      current_entry_id (w_topic w) + 1 < 2 ^ 63 -> 0 <= a_sub_qos_depth a < 2 ^ 32 ->
      a_sub_take a = false -> fresh_fd (w_process w) fd ->
      (forall sid fd' ctx' tl, w_subs w !! sid = Some (fd', ctx', tl) -> fd' <> fd /\ ctx' <> ctx) ->
      insert_subscriber_info al rules (w_topic w) domain pid a (Some ctx) = (t', Ok s) ->
      step w (set_subs (<[sub_id s := (fd, ctx, a_sub_transient_local a)]> (w_subs w))
                (sub_id s :: w_new w)
                (set_topic (w_procs w) t' (upd_counter ctx (fun _ => fd_new) (w_counters w)) w))
  | step_register sid tl fd ctx g p' :
      sid ∈ w_new w -> w_subs w !! sid = Some (fd, ctx, tl) ->
      allowed (w_process w) (ARegisterCallback topic sid tl fd g) ->
      act (ARegisterCallback topic sid tl fd g) (w_process w) = Some p' ->
      step w (set_subs (w_subs w) (filter (fun x => x <> sid) (w_new w))
                (set_process p' (w_status w) w))
  | step_receive k i it id sid al vnr pool domain size t' pool' out again infos :
      running (w_process w) !! k = Some (i, it) -> callable it = ReceiveTask id topic sid ->
      w_status w !! k = Some None -> pools_present (w_procs w) pool (w_topic w) ->
      receive_msg_topic al vnr rules (w_procs w) pool (w_topic w) domain sid size =
        (t', pool', Ok (out, again, infos)) ->
      step w (set_status (<[k := Some again]> (w_status w))
                (set_topic (w_procs w) t' (w_counters w) w))
  | step_receive_other k i it id t sid again :
      running (w_process w) !! k = Some (i, it) -> callable it = ReceiveTask id t sid -> t <> topic ->
      w_status w !! k = Some None ->
      step w (set_status (<[k := Some again]> (w_status w)) w)
  | step_read k r i id c sid ctx tl p' :
      handling (w_process w) !! k = Some (i, (id, c)) ->
      w_subs w !! sid = Some (notify_eventfd c, ctx, tl) -> r = (fd_read (w_counters w ctx)).1 ->
      act (ARead k r) (w_process w) = Some p' ->
      step w (set_process p' (w_status w)
                (set_counters (upd_counter ctx (fun f => (fd_read f).2) (w_counters w)) w))
  | step_read_other k r i id c p' :
      handling (w_process w) !! k = Some (i, (id, c)) ->
      (forall sid ctx tl, w_subs w !! sid <> Some (notify_eventfd c, ctx, tl)) ->
      act (ARead k r) (w_process w) = Some p' ->
      step w (set_process p' (w_status w) w)
  | step_close id fd p' :
      sub_fds (w_process w) !! id = Some fd ->
      id2_callback_info (callback_table (w_process w)) !! id = None ->
      act (ACloseEventfd id) (w_process w) = Some p' ->
      step w (set_subs (filter (fun x => x.2.1.1 <> fd) (w_subs w)) (w_new w)
                (set_process p' (w_status w) w))
  | step_pop i p' :
      act (APop i) (w_process w) = Some p' ->
      step w (set_process p' (w_status w ++
                replicate (length (running p') - length (running (w_process w))) None) w)
  | step_finish k again i it p' :
      running (w_process w) !! k = Some (i, it) ->
      (forall id t sid, callable it = ReceiveTask id t sid -> w_status w !! k = Some (Some again)) ->
      act (AFinish k again) (w_process w) = Some p' ->
      step w (set_process p' (delete k (w_status w)) w)
  | step_act a p' :
      separate a = false -> allowed (w_process w) a ->
      (forall t sid tl fd g, a = ARegisterCallback t sid tl fd g ->
         forall sid' fd' ctx tl', w_subs w !! sid' = Some (fd', ctx, tl') -> fd' <> fd) ->
      act a (w_process w) = Some p' ->
      step w (set_process p' (w_status w) w).

(** Any topic and registry, before the process subscribes. *)
Definition initial (w : world) : Prop :=
  topic_wf (w_topic w) /\ notify_ok rules (w_topic w) /\ w_process w = new_process /\
  w_status w = [] /\ w_subs w = ∅ /\ w_new w = [].

(** A subscription created by the step does not get the number of a closed eventfd that a thread has
    still to read: between [find_callback] and the [read] the thread holds only the number, and the
    descriptor may be closed and its number given to the next [eventfd].  [reuse_loses_wakeup] below
    is what happens then. *)
Definition no_stale_number (w w' : world) : Prop :=
  forall sid fd ctx tl, w_subs w !! sid = None -> w_subs w' !! sid = Some (fd, ctx, tl) ->
    forall i id c, (i, (id, c)) ∈ handling (w_process w) -> notify_eventfd c <> fd.

Inductive reachable_world : world -> Prop :=
  | world_initial w : initial w -> reachable_world w
  | world_step w w' : reachable_world w -> step w w' -> no_stale_number w w' -> reachable_world w'.

(** ** What a subscription can rely on *)

Definition receives (sid : Z) (it : executable) : Prop :=
  exists id, callable it = ReceiveTask id topic sid.

(** A task of the subscriber that runs and whose RECEIVE, if it did one, left messages. *)
Definition receiving (w : world) (sid : Z) : Prop :=
  exists k i it st, running (w_process w) !! k = Some (i, it) /\ receives sid it /\
    w_status w !! k = Some st /\ st <> Some false.

Definition on_its_way (w : world) (sid ctx : Z) : Prop :=
  readable (w_counters w ctx) \/
  (exists it, it ∈ ready_tasks (w_process w) /\ receives sid it) \/ receiving w sid.

Definition drained (w : world) (s : subscriber_info) : Prop :=
  window rules (w_procs w) (w_topic w) s = [].

Definition entry (w : world) (id : Z) (c : callback_info) : Prop :=
  id2_callback_info (callback_table (w_process w)) !! id = Some c.

(** The callback of the subscription is registered or is about to be. *)
Definition active (w : world) (sid : Z) : Prop :=
  sid ∈ w_new w \/ exists id c, entry w id c /\ topic_name c = topic /\ subscriber_id c = sid.

(** It is not in an epoll instance yet, and adding it there queues a first task. *)
Definition waits (w : world) (sid : Z) (tl : bool) : Prop :=
  tl = true /\ (sid ∈ w_new w \/ exists id c, entry w id c /\ topic_name c = topic /\
    subscriber_id c = sid /\ cb_need_epoll_update c = true).

Definition served_all (w : world) : Prop :=
  forall sid fd ctx tl s, active w sid -> w_subs w !! sid = Some (fd, ctx, tl) ->
    s ∈ sub_info_htable (w_topic w) -> sub_id s = sid ->
    drained w s \/ waits w sid tl \/ on_its_way w sid ctx.

(** The module's side of the subscriptions. *)
Record kernel_ok (w : world) : Prop := {
  ko_wf : topic_wf (w_topic w);
  ko_notify : notify_ok rules (w_topic w);
  ko_own : forall sid, own w sid -> sid < current_pubsub_id (w_topic w);
  ko_ctx : forall s fd ctx tl, s ∈ sub_info_htable (w_topic w) ->
    w_subs w !! sub_id s = Some (fd, ctx, tl) -> notify_ctx s = Some ctx
}.

(** A copy of a callback entry names the subscription whose eventfd it names. *)
Definition copy_ok (subs : gmap Z (Z * Z * bool)) (c : callback_info) : Prop :=
  forall sid ctx tl, subs !! sid = Some (notify_eventfd c, ctx, tl) ->
    topic_name c = topic /\ subscriber_id c = sid.

(** The process's side. *)
Record linked (w : world) : Prop := {
  l_status : length (w_status w) = length (running (w_process w));
  l_fds : forall sid sid' fd ctx ctx' tl tl', w_subs w !! sid = Some (fd, ctx, tl) ->
    w_subs w !! sid' = Some (fd, ctx', tl') -> sid = sid';
  l_ctxs : forall sid sid' fd fd' ctx tl tl', w_subs w !! sid = Some (fd, ctx, tl) ->
    w_subs w !! sid' = Some (fd', ctx, tl') -> sid = sid';
  l_new : forall sid, sid ∈ w_new w -> exists fd ctx tl, w_subs w !! sid = Some (fd, ctx, tl) /\
    forall id, sub_fds (w_process w) !! id <> Some fd;
  l_entry : forall id c, entry w id c -> topic_name c = topic -> exists ctx,
    w_subs w !! subscriber_id c = Some (notify_eventfd c, ctx, is_transient_local c);
  l_table : forall id c, entry w id c -> copy_ok (w_subs w) c;
  l_handling : forall i id c, (i, (id, c)) ∈ handling (w_process w) ->
    copy_ok (w_subs w) c /\ (i < length (execs (w_process w)))%nat;
  l_fetched : forall i data, (i, data) ∈ fetched (w_process w) ->
    (i < length (execs (w_process w)))%nat;
  l_running : forall k i it, running (w_process w) !! k = Some (i, it) ->
    (i < length (execs (w_process w)))%nat
}.

(** ** Actions of the process *)

Lemma length_keeps l l' : keeps_tasks l l' -> (length l <= length l')%nat.
Proof.
  intros Hk. destruct (length l) as [|n] eqn:Hl; [lia|].
  pose proof (keeps_index l l' n Hk ltac:(lia)). lia.
Qed.

Lemma entry_from_info c c' id tasks :
  entry_from c c' id tasks ->
  topic_name c' = topic_name c /\ subscriber_id c' = subscriber_id c /\
  notify_eventfd c' = notify_eventfd c /\ is_transient_local c' = is_transient_local c.
Proof. by intros [-> |(_ & -> & _)]. Qed.

Lemma copy_ok_info subs c c' :
  topic_name c' = topic_name c -> subscriber_id c' = subscriber_id c ->
  notify_eventfd c' = notify_eventfd c -> copy_ok subs c -> copy_ok subs c'.
Proof. intros Ht Hs Hf Hc sid ctx tl. rw Hf Ht Hs. apply Hc. Qed.

Lemma linked_frame w p' status' :
  linked w -> action_frame (w_process w) p' ->
  length status' = length (running p') -> linked (set_process p' status' w).
Proof.
  intros Hl [Hk Hr Ht Hf Hh Hfe] Hlen. pose proof (length_keeps _ _ Hk) as Hle.
  split; simpl.
  - done.
  - apply l_fds, Hl.
  - apply l_ctxs, Hl.
  - intros sid Hsid. destruct (l_new w Hl sid Hsid) as (fd & ctx & tl & Hs & Hno).
    exists fd, ctx, tl. split; [done|]. intros id Hid. by apply (Hno id), Hf.
  - intros id c' Hc'. destruct (Ht id c' Hc') as (c & Hc & Hfrom).
    apply entry_from_info in Hfrom as (-> & -> & -> & ->). by eapply l_entry.
  - intros id c' Hc'. destruct (Ht id c' Hc') as (c & Hc & Hfrom).
    apply entry_from_info in Hfrom as (H1 & H2 & H3 & _).
    eapply copy_ok_info; [exact H1|exact H2|exact H3|]. by eapply l_table.
  - intros i id c Hin. destruct (Hh i id c Hin) as [Hold|(Hc & data & Hd)].
    + destruct (l_handling w Hl i id c Hold). split; [done|lia].
    + split; [by eapply l_table|]. pose proof (l_fetched w Hl i data Hd). lia.
  - intros i data Hd. destruct (Hfe i data Hd) as [Hold|]; [|lia].
    pose proof (l_fetched w Hl i data Hold). lia.
  - intros k i it. rw Hr. intros Hki. pose proof (l_running w Hl k i it Hki). lia.
Qed.

Lemma same_entry w id id' c c' :
  proc_ok (w_process w) -> linked w -> entry w id c -> entry w id' c' ->
  topic_name c = topic -> topic_name c' = topic -> subscriber_id c = subscriber_id c' ->
  id = id' /\ c = c'.
Proof.
  intros Hp Hl Hc Hc' Ht Ht' Hs.
  destruct (l_entry w Hl id c Hc Ht) as [ctx Hx]. destruct (l_entry w Hl id' c' Hc' Ht') as [ctx' Hx'].
  rw Hs Hx' in Hx. injection Hx as Hfd _ _.
  pose proof (w_unique _ (o_watched _ Hp) (SubSource id) (SubSource id') (notify_eventfd c)) as Hu.
  simpl in Hu. rw (t_sub _ (o_tables _ Hp) id c Hc) in Hu. rw (t_sub _ (o_tables _ Hp) id' c' Hc') in Hu.
  rw Hfd in Hu. injection (Hu eq_refl eq_refl) as ->. split; [done|].
  unfold entry in *. congruence.
Qed.

(** Enough for an action to keep the subscriptions served. *)
Lemma served_action w p' status' counters' :
  let w' := set_process p' status' (set_counters counters' w) in
  proc_ok (w_process w) -> linked w -> served_all w ->
  (forall sid fd ctx tl, w_subs w !! sid = Some (fd, ctx, tl) ->
     on_its_way w sid ctx -> on_its_way w' sid ctx) ->
  (forall id c', id2_callback_info (callback_table p') !! id = Some c' ->
    exists c, entry w id c /\ entry_from c c' id (ready_tasks p')) ->
  served_all w'.
Proof.
  intros w' Hp Hl Hs Hway Ht sid fd ctx tl s Hact Hsub Hin Hid.
  destruct Hact as [Hn|(id & c' & Hc' & Htop & Hsid)].
  { destruct (Hs sid fd ctx tl s) as [Hd|[[-> Hw]|Hw]]; [by left|done..|by left| |].
    - right; left. split; [done|by left].
    - right; right. by eapply Hway. }
  destruct (Ht id c' Hc') as (c & Hc & Hfrom).
  destruct (entry_from_info _ _ _ _ Hfrom) as (Ht1 & Hs1 & _ & Htl).
  assert (topic_name c = topic) as Htc by congruence.
  assert (subscriber_id c = sid) as Hsc by congruence.
  destruct (Hs sid fd ctx tl s) as [Hd|[[-> Hw]|Hw]];
    [right; by exists id, c|done..|by left| |right; right; by eapply Hway].
  right. destruct Hw as [Hn|(id1 & c1 & Hc1 & Ht1' & Hs1' & Hneed)]; [left; split; [done|by left]|].
  destruct (same_entry w id1 id c1 c) as [-> ->]; [done..|congruence|].
  destruct Hfrom as [-> |(_ & -> & Hq)].
  - left. split; [done|]. right. by exists id, c.
  - right. right. left. exists (receive_task id c). split.
    + apply Hq. destruct (l_entry w Hl id c Hc Htc) as [ctx' Hx]. rw Hsc Hsub in Hx. congruence.
    + exists id. simpl. congruence.
Qed.

Lemma own_same w w' sid : w_subs w' = w_subs w -> own w' sid <-> own w sid.
Proof. intros He. unfold own. by rw He. Qed.

Lemma kernel_ok_same w w' :
  w_topic w' = w_topic w -> w_subs w' = w_subs w -> kernel_ok w -> kernel_ok w'.
Proof.
  intros Ht Hs [H1 H2 H3 H4]. split; rw ?Ht ?Hs //. intros sid. rw own_same //. apply H3.
Qed.

Lemma way_frame w p' sid ctx :
  action_frame (w_process w) p' -> on_its_way w sid ctx ->
  on_its_way (set_process p' (w_status w) w) sid ctx.
Proof.
  intros [Hk Hr _ _ _ _] [Hr'|[(it & Hit & Hrec)|(k & i & it & st & Hrun)]]; [by left|right; left|right; right].
  - exists it. split; [by eapply keeps_ready|done].
  - exists k, i, it, st. simpl. by rw Hr.
Qed.

(** The actions without a step of their own. *)
Lemma plain_action w p' :
  action_frame (w_process w) p' -> proc_ok (w_process w) -> linked w -> served_all w ->
  linked (set_process p' (w_status w) w) /\ served_all (set_process p' (w_status w) w).
Proof.
  intros Hf Hp Hl Hs. split.
  - apply linked_frame; [done..|]. rw (af_running _ _ Hf). by apply l_status.
  - apply (served_action w p' (w_status w) (w_counters w)); [done..| |].
    + intros sid fd ctx tl _ Hw. exact (way_frame w p' sid ctx Hf Hw).
    + intros id c' Hc'. by apply (af_table _ _ Hf).
Qed.

(** ** Reading an eventfd *)

Lemma read_enqueues k i id c p p' :
  handling p !! k = Some (i, (id, c)) -> (i < length (execs p))%nat ->
  act (ARead k ReadCounter) p = Some p' -> receive_task id c ∈ ready_tasks p'.
Proof.
  intros Hk [x Hx]%lookup_lt_is_Some_2. simpl. rw Hk Hx /=. intros [= <-]. apply elem_of_ready.
  eexists i, _. split; [simpl; by rw list_lookup_alter_eq Hx|]. simpl.
  apply elem_of_app. right. by left.
Qed.

Lemma linked_counters w procs t counters : linked w -> linked (set_topic procs t counters w).
Proof. intros [H1 H2 H3 H4 H5 H6 H7 H8 H9]. by split. Qed.

Lemma read_action w k i id c sid ctx tl p' :
  let w' := set_process p' (w_status w)
              (set_counters (upd_counter ctx (fun f => (fd_read f).2) (w_counters w)) w) in
  proc_ok (w_process w) -> linked w -> served_all w ->
  handling (w_process w) !! k = Some (i, (id, c)) ->
  w_subs w !! sid = Some (notify_eventfd c, ctx, tl) ->
  act (ARead k (fd_read (w_counters w ctx)).1) (w_process w) = Some p' ->
  linked w' /\ served_all w'.
Proof.
  intros w' Hp Hl Hs Hk Hsub Ha. pose proof (act_frame (ARead _ _) _ _ eq_refl Ha) as Hf.
  destruct (l_handling w Hl i id c ltac:(by eapply list_elem_of_lookup_2)) as [Hcopy Hi].
  destruct (Hcopy _ _ _ Hsub) as [Ht Hsid]. split.
  - apply (linked_frame (set_counters _ w)); [by apply linked_counters|done|].
    rw (af_running _ _ Hf). by apply l_status.
  - apply served_action; [done..| |by apply (af_table _ _ Hf)].
    intros sid' fd' ctx' tl' Hsub' Hw. unfold on_its_way; simpl. unfold upd_counter.
    destruct (Z.eqb_spec ctx' ctx) as [-> |Hne].
    + assert (sid' = sid) as -> by (by eapply l_ctxs). destruct Hw as [Hr|Hw].
      * right. left. exists (receive_task id c). split; [|by exists id; simpl; congruence].
        rw read_readable // in Ha. by eapply read_enqueues.
      * destruct (way_frame w p' sid ctx Hf (or_intror Hw)) as [Hr|Hw']; [|by right].
        destruct Hw as [(it & Hit & Hrec)|(k' & i' & it & st & Hrun)]; right; [left|right].
        -- exists it. split; [|done]. eapply keeps_ready; [apply Hf|done].
        -- exists k', i', it, st. simpl. by rw (af_running _ _ Hf).
    + by apply (way_frame w p' sid' ctx' Hf).
Qed.

(** ** Closing the eventfd of a subscription whose entry is gone *)

Lemma close_action w id fd p' :
  let w' := set_subs (filter (fun x => x.2.1.1 <> fd) (w_subs w)) (w_new w)
              (set_process p' (w_status w) w) in
  proc_ok (w_process w) -> linked w -> served_all w ->
  sub_fds (w_process w) !! id = Some fd ->
  id2_callback_info (callback_table (w_process w)) !! id = None ->
  act (ACloseEventfd id) (w_process w) = Some p' -> linked w' /\ served_all w'.
Proof.
  intros w' Hp Hl Hs Hfd Hno Ha. pose proof (act_frame (ACloseEventfd _) _ _ eq_refl Ha) as Hf.
  destruct (plain_action w p' Hf Hp Hl Hs) as [Hl1 Hs1].
  assert (forall sid v, w_subs w' !! sid = Some v -> w_subs w !! sid = Some v /\ v.1.1 <> fd) as Hsubs.
  { intros sid v. simpl. by intros [? ?]%map_lookup_filter_Some. }
  assert (forall sid fd' ctx tl, w_subs w !! sid = Some (fd', ctx, tl) -> fd' <> fd ->
    w_subs w' !! sid = Some (fd', ctx, tl)) as Hkeep.
  { intros sid fd' ctx tl Hsub Hne. by apply map_lookup_filter_Some. }
  split.
  - destruct Hl1 as [H1 H2 H3 H4 H5 H6 H7 H8 H9]. split; try done.
    + intros sid sid' fd' ctx ctx' tl tl' [Ha1 _]%Hsubs [Ha2 _]%Hsubs. by eapply H2.
    + intros sid sid' f f' ctx tl tl' [Ha1 _]%Hsubs [Ha2 _]%Hsubs. by eapply H3.
    + intros sid Hsid. destruct (H4 sid Hsid) as (fd' & ctx & tl & Hsub & Hno').
      exists fd', ctx, tl. split; [|done]. apply Hkeep; [done|]. intros ->.
      destruct (l_new w Hl sid Hsid) as (fd' & ctx' & tl' & Hsub' & Hno2). simpl in Hsub.
      rw Hsub in Hsub'. injection Hsub' as <- _ _. by apply (Hno2 id).
    + intros id1 c Hc Ht. destruct (H5 id1 c Hc Ht) as [ctx Hsub]. exists ctx. apply Hkeep; [done|].
      intros He. destruct (af_table _ _ Hf id1 c Hc) as (c0 & Hc0 & Hfrom).
      apply entry_from_info in Hfrom as (_ & _ & Hfd0 & _).
      pose proof (w_unique _ (o_watched _ Hp) (SubSource id1) (SubSource id) fd) as Hu. simpl in Hu.
      rw (t_sub _ (o_tables _ Hp) id1 c0 Hc0) -Hfd0 He in Hu. injection (Hu eq_refl Hfd) as ->. congruence.
    + intros id1 c Hc sid ctx tl [Hsub _]%Hsubs. by eapply H6.
    + intros j id1 c Hin. destruct (H7 j id1 c Hin) as [Hcopy ?]. split; [|done].
      intros sid ctx tl [Hsub _]%Hsubs. by eapply Hcopy.
  - intros sid fd' ctx tl s Hact [Hsub _]%Hsubs Hin Hid. by apply (Hs1 sid fd' ctx tl s).
Qed.

(** ** Registering the callback of a subscription *)

Lemma new_not_entry w sid fd ctx tl id c :
  proc_ok (w_process w) -> linked w -> sid ∈ w_new w -> w_subs w !! sid = Some (fd, ctx, tl) ->
  entry w id c -> topic_name c = topic -> subscriber_id c <> sid.
Proof.
  intros Hp Hl Hnew Hsub Hc Ht Hsid. destruct (l_new w Hl sid Hnew) as (fd' & ctx' & tl' & Hsub' & Hno).
  destruct (l_entry w Hl id c Hc Ht) as [ctx0 Hx]. rw Hsid in Hx.
  apply (Hno id). rw (t_sub _ (o_tables _ Hp) id c Hc). congruence.
Qed.

Lemma register_linked w sid tl fd ctx g p' :
  linked w -> sid ∈ w_new w -> w_subs w !! sid = Some (fd, ctx, tl) ->
  act (ARegisterCallback topic sid tl fd g) (w_process w) = Some p' ->
  linked (set_subs (w_subs w) (filter (fun x => x <> sid) (w_new w)) (set_process p' (w_status w) w)).
Proof.
  intros Hl Hnew Hsub Ha. apply register_frame in Ha as (He & Hr & Hh & Hfe & Ht & Hfds).
  split; simpl.
  - rw Hr. by apply l_status.
  - apply l_fds, Hl.
  - apply l_ctxs, Hl.
  - intros sid' [Hne Hin]%list_elem_of_filter.
    destruct (l_new w Hl sid' Hin) as (fd' & ctx' & tl' & Hs' & Hno). exists fd', ctx', tl'.
    split; [done|]. intros id Hid. destruct (Hfds id fd' Hid) as [Hold| ->]; [by eapply Hno|].
    apply Hne. by eapply l_fds.
  - intros id c Hc Htop. destruct (Ht id c Hc) as [Hold|[-> _]]; [by eapply l_entry|]. by exists ctx.
  - intros id c Hc. destruct (Ht id c Hc) as [Hold|[-> _]]; [by eapply l_table|].
    intros sid' ctx' tl' Hs'. simpl in *. split; [done|]. by eapply l_fds.
  - intros i id c. rw Hh He. by apply l_handling.
  - intros i data. rw Hfe He. by apply l_fetched.
  - intros k i it. rw Hr He. by apply l_running.
Qed.

Lemma register_served w sid tl fd ctx g p' :
  proc_ok (w_process w) -> linked w -> served_all w ->
  sid ∈ w_new w -> w_subs w !! sid = Some (fd, ctx, tl) ->
  act (ARegisterCallback topic sid tl fd g) (w_process w) = Some p' ->
  served_all (set_subs (w_subs w) (filter (fun x => x <> sid) (w_new w))
                (set_process p' (w_status w) w)).
Proof.
  intros Hp Hl Hs Hnew Hsub Ha sid' fd' ctx' tl' s Hact Hsub' Hin Hid.
  apply register_frame in Ha as (He & Hr & Hh & Hfe & Ht & Hfds).
  assert (on_its_way w sid' ctx' -> on_its_way (set_subs (w_subs w) (filter (fun x => x <> sid) (w_new w))
    (set_process p' (w_status w) w)) sid' ctx') as Hway.
  { unfold on_its_way, receiving, ready_tasks; simpl. by rw He Hr. }
  destruct Hact as [[Hne Hn]%list_elem_of_filter|(id & c & Hc & Htop & Hsid)].
  - destruct (Hs sid' fd' ctx' tl' s) as [Hd|[[-> _]|Hw]]; [by left|done..|by left| |right; right; auto].
    right; left. split; [done|]. left. by apply list_elem_of_filter.
  - destruct (Ht id c Hc) as [Hold|[-> Hfd]].
    + destruct (Hs sid' fd' ctx' tl' s) as [Hd|[[-> Hw]|Hw]];
        [right; by exists id, c|done..|by left| |right; right; auto].
      right; left. split; [done|]. right.
      destruct Hw as [Hn|(id1 & c1 & Hc1 & Ht1 & Hs1 & Hneed)].
      * exfalso. by eapply (new_not_entry w sid' fd' ctx' true id c).
      * destruct (same_entry w id1 id c1 c) as [-> ->]; [done..|congruence|]. by exists id, c.
    + simpl in Hsid. subst sid'. rw Hsub' in Hsub. injection Hsub as -> -> ->.
      destruct (Hs sid fd ctx tl s) as [Hd|[[-> Hw]|Hw]];
        [by left|done..|by left| |right; right; auto].
      right; left. split; [done|]. right. eexists id, _. split; [exact Hc|]. by simpl.
Qed.

(** ** Taking a task and ending one *)

Lemma pop_action w i p' :
  let w' := set_process p' (w_status w ++
              replicate (length (running p') - length (running (w_process w))) None) w in
  proc_ok (w_process w) -> linked w -> served_all w ->
  act (APop i) (w_process w) = Some p' -> linked w' /\ served_all w'.
Proof.
  intros w' Hp Hl Hs Ha. apply pop_frame in Ha as (Hlen & Ht & Hfd & Hh & Hfe & Hcase). split.
  - destruct Hl as [H1 H2 H3 H4 H5 H6 H7 H8 H9].
    split; unfold entry; simpl; rw ?Ht ?Hfd ?Hh ?Hfe ?Hlen //.
    + rw length_app length_replicate H1.
      destruct Hcase as [[_ ->]|(it & _ & -> & _)]; [lia|]. rw length_app /=. lia.
    + intros k j it Hk. destruct Hcase as [[_ Hr]|(it' & Hi & Hr & _)]; rw Hr in Hk; [by eapply H9|].
      apply lookup_app_Some in Hk as [Hk|[_ Hk]]; [by eapply H9|].
      apply list_lookup_singleton_Some in Hk as [_ [= <- _]]. done.
  - apply (served_action w p' _ (w_counters w)); [done..| |].
    + intros sid fd ctx tl _ [Hr|[(it & Hit & Hrec)|(k & j & it & st & Hk & Hrec & Hst & Hne)]]; [by left|right|].
      * destruct Hcase as [[Hq _]|(it0 & _ & Hr & Hq)]; [left; exists it; by split; [apply Hq|]|].
        destruct (Hq it Hit) as [Hin| ->]; [left; by exists it|right].
        exists (length (running (w_process w))), i, it0, None. simpl. rw Hr.
        split; [by rw list_lookup_middle|]. split; [done|]. split; [|done].
        rw length_app Nat.add_comm /=. rw -(l_status w Hl) Nat.sub_succ_l // Nat.sub_diag /=.
        by rw list_lookup_middle.
      * right; right. exists k, j, it, st. simpl.
        split; [destruct Hcase as [[_ ->]|(it0 & _ & -> & _)]; [done|by apply lookup_app_l_Some]|].
        split; [done|]. split; [by apply lookup_app_l_Some|done].
    + rw Ht. intros id c Hc. exists c. split; [done|by left].
Qed.

Lemma lookup_delete_shift {A B} (l : list A) (m : list B) k j x y :
  k <> j -> l !! j = Some x -> m !! j = Some y ->
  exists j', delete k l !! j' = Some x /\ delete k m !! j' = Some y.
Proof.
  intros Hne Hl Hm. destruct (decide (j < k)%nat).
  - exists j. by rw !list_lookup_delete_lt.
  - exists (j - 1)%nat. rw !list_lookup_delete_ge; [|lia..].
    by replace (S (j - 1)) with j by lia.
Qed.

Lemma finish_action w k again i it p' :
  let w' := set_process p' (delete k (w_status w)) w in
  proc_ok (w_process w) -> linked w -> served_all w ->
  running (w_process w) !! k = Some (i, it) ->
  (forall id t sid, callable it = ReceiveTask id t sid -> w_status w !! k = Some (Some again)) ->
  act (AFinish k again) (w_process w) = Some p' -> linked w' /\ served_all w'.
Proof.
  intros w' Hp Hl Hs Hk Hst Ha.
  destruct (finish_frame _ _ _ _ _ _ Hk Ha) as (Hq & Hr & Ht & Hfd & Hh & Hfe & Hagain).
  pose proof (length_keeps _ _ Hq) as Hle. split.
  - destruct Hl as [H1 H2 H3 H4 H5 H6 H7 H8 H9].
    split; unfold entry; simpl; rw ?Ht ?Hfd ?Hh ?Hfe ?Hr //.
    + pose proof (lookup_lt_Some _ _ _ Hk). rw !length_delete; [lia|by rewrite Hk|].
      apply lookup_lt_is_Some_2. lia.
    + intros j id c Hin. destruct (H7 j id c Hin). split; [done|lia].
    + intros j d Hin. pose proof (H8 j d Hin). lia.
    + intros k' j it' [k0 Hk']%list_elem_of_lookup_2%list_elem_of_delete_inv%list_elem_of_lookup.
      pose proof (H9 _ _ _ Hk'). lia.
  - apply (served_action w p' _ (w_counters w)); [done..| |].
    + intros sid fd ctx tl _ [Hrd|[(it' & Hit & Hrec)|(k' & j & it' & st & Hk' & Hrec & Hst' & Hne)]];
        [by left|right; left; exists it'; split; [by eapply keeps_ready|done]|right].
      destruct (decide (k = k')) as [<-|Hneq].
      * left. rw Hk in Hk'. injection Hk' as <- <-. exists it. split; [|done].
        destruct Hrec as [id Hid]. rw (Hst _ _ _ Hid) in Hst'. injection Hst' as <-.
        apply (Hagain _ _ _ Hid); [by destruct again|]. by eapply l_running.
      * right. destruct (lookup_delete_shift _ _ k k' _ _ Hneq Hk' Hst') as (j' & Hj1 & Hj2).
        exists j', j, it', st. simpl. by rw Hr.
    + rw Ht. intros id c Hc. exists c. split; [done|by left].
Qed.

(** ** Calls of the module *)

Lemma signal_all_readable signals counters ctx :
  readable (counters ctx) \/ ctx ∈ signals -> readable (signal_all signals counters ctx).
Proof.
  induction signals as [|c signals IH]; simpl.
  { intros [Hr|Hin]; [done|]. by apply elem_of_nil in Hin. }
  intros Hr. unfold upd_counter. destruct (Z.eqb_spec ctx c) as [-> |Hne]; [apply signal_readable|].
  apply IH. destruct Hr as [Hr|Hin]; [by left|right].
  apply elem_of_cons in Hin as [Hc|Hin]; [by destruct Hne|done].
Qed.

Lemma topic_kernel_ok w procs' t' signals counters' :
  kernel_ok w -> served rules (own w) (w_procs w) (w_topic w) procs' t' signals ->
  kernel_ok (set_topic procs' t' counters' w).
Proof.
  intros [H1 H2 H3 H4] [W N I S _]. split; simpl; [done..| |].
  - intros sid Hown. specialize (H3 sid Hown). lia.
  - intros s' fd ctx tl Hs' Hsub. destruct (S s' Hs') as (s & Hs & Hid & _ & ->); [by eexists|].
    apply (H4 s fd ctx tl Hs). by rw Hid.
Qed.

(** A subscriber the call keeps, with what [served] says of it. *)
Lemma served_one (P : Z -> Prop) w procs' t' signals s' sid fd ctx tl :
  kernel_ok w -> served rules P (w_procs w) (w_topic w) procs' t' signals ->
  P sid -> w_subs w !! sid = Some (fd, ctx, tl) -> s' ∈ sub_info_htable t' -> sub_id s' = sid ->
  exists s, s ∈ sub_info_htable (w_topic w) /\ sub_id s = sid /\
    (drained w s -> window rules procs' t' s' = [] \/ ctx ∈ signals).
Proof.
  intros Hk [W N I S Hsig] HP Hsub Hs' <-. destruct (S s' Hs' HP) as (s & Hs & Hid & Hv & Hc).
  exists s. split; [done|]. split; [done|]. intros Hd.
  destruct (decide (window rules procs' t' s' = [])) as [|Hne]; [by left|right].
  apply (Hsig s s' Hs Hv Hd Hne). apply (ko_ctx w Hk s fd ctx tl Hs). by rw Hid.
Qed.

Lemma topic_action w procs' t' signals :
  let w' := set_topic procs' t' (signal_all signals (w_counters w)) w in
  kernel_ok w -> served_all w ->
  topic_call rules (own w) (w_procs w) (w_topic w) procs' t' signals ->
  kernel_ok w' /\ served_all w'.
Proof.
  intros w' Hk Hs Hcall.
  assert (served rules (own w) (w_procs w) (w_topic w) procs' t' signals) as Hsv.
  { apply topic_call_served; [apply Hk..|done]. }
  split; [by eapply topic_kernel_ok|]. intros sid fd ctx tl s' Hact Hsub Hin Hid.
  destruct (served_one (own w) w procs' t' signals s' sid fd ctx tl) as (s & Hin0 & Hid0 & Hd);
    [done|done|by eexists|done|done|done|].
  destruct (Hs sid fd ctx tl s Hact Hsub Hin0 Hid0) as [Hd0|[Hw|[Hr|Hw]]]; [|by right; left|..].
  - destruct (Hd Hd0) as [|Hsig]; [by left|]. right; right; left. simpl.
    apply signal_all_readable. by right.
  - right; right; left. simpl. apply signal_all_readable. by left.
  - by right; right; right.
Qed.

(** RECEIVE by a task of the process. *)
Lemma receive_action w k i it id sid al vnr pool domain size t' pool' out again infos :
  let w' := set_status (<[k := Some again]> (w_status w)) (set_topic (w_procs w) t' (w_counters w) w) in
  kernel_ok w -> linked w -> served_all w ->
  running (w_process w) !! k = Some (i, it) -> callable it = ReceiveTask id topic sid ->
  pools_present (w_procs w) pool (w_topic w) ->
  receive_msg_topic al vnr rules (w_procs w) pool (w_topic w) domain sid size =
    (t', pool', Ok (out, again, infos)) ->
  kernel_ok w' /\ linked w' /\ served_all w'.
Proof.
  intros w' Hk Hl Hs Hrun Hcall Hin Hrec.
  pose proof (ko_wf w Hk) as Hwf. pose proof (ko_notify w Hk) as Hok.
  assert (served rules (fun x => own w x /\ x <> sid) (w_procs w) (w_topic w) (w_procs w) t' []) as Hsv.
  { eapply topic_call_served; [done..|intros x [Hx _]; by apply ko_own|].
    eapply call_receive; [done| |exact Hrec]. by intros [_ ?]. }
  split; [|split].
  - destruct Hsv as [W N I _ _]. split; simpl; [done..| |].
    + intros x Hx. pose proof (ko_own w Hk x Hx). lia.
    + intros s' fd ctx tl Hs' Hsub.
      destruct (receive_subs _ _ _ _ _ _ _ _ _ _ _ _ _ Hwf Hok Hin Hrec Hs') as (s & Hs0 & Hid & ->).
      apply (ko_ctx w Hk s fd ctx tl Hs0). by rw Hid.
  - destruct Hl as [H1 H2 H3 H4 H5 H6 H7 H8 H9]. split; try done. simpl. by rw length_insert.
  - intros x fd ctx tl s' Hact Hsub Hin' Hid. destruct (decide (x = sid)) as [-> |Hne].
    + destruct again; [right; right; right; right|left; by eapply receive_drains].
      exists k, i, it, (Some true). split; [done|]. split; [by exists id|]. split; [|done].
      simpl. apply list_lookup_insert_eq. rw (l_status w Hl). by eapply lookup_lt_Some.
    + destruct (served_one (fun x => own w x /\ x <> sid) w (w_procs w) t' [] s' x fd ctx tl)
        as (s & Hin0 & Hid0 & Hd); [done|done|split; [by eexists|done]|done|done|done|].
      destruct (Hs x fd ctx tl s Hact Hsub Hin0 Hid0) as [Hd0|[Hw|[Hr|[Hw|Hw]]]];
        [|by right; left|by right; right; left|by right; right; right; left|].
      * destruct (Hd Hd0) as [|Hsig]; [by left|]. by apply elem_of_nil in Hsig.
      * right; right; right; right. destruct Hw as (k' & j & it' & st & Hk' & Hrec' & Hst & Hn).
        exists k', j, it', st. split; [done|]. split; [done|]. split; [|done].
        simpl. rw list_lookup_insert_ne; [done|]. intros ->. destruct Hrec' as [id' Hid'].
        rw Hrun in Hk'. injection Hk' as <- <-. congruence.
Qed.

(** ** Creating a subscription *)

Lemma own_below w sid : kernel_ok w -> own w sid -> sid <> current_pubsub_id (w_topic w).
Proof. intros Hk Hown. pose proof (ko_own w Hk sid Hown). lia. Qed.

Lemma subscribe_linked w sid fd ctx tl t' counters' :
  proc_ok (w_process w) -> linked w -> (forall x, own w x -> x <> sid) ->
  fresh_fd (w_process w) fd ->
  (forall i id c, (i, (id, c)) ∈ handling (w_process w) -> notify_eventfd c <> fd) ->
  (forall x fd' ctx' tl', w_subs w !! x = Some (fd', ctx', tl') -> fd' <> fd /\ ctx' <> ctx) ->
  linked (set_subs (<[sid := (fd, ctx, tl)]> (w_subs w)) (sid :: w_new w)
            (set_topic (w_procs w) t' counters' w)).
Proof.
  intros Hp Hl Hown Hfd Hcopies Hsubs.
  assert (forall x v, w_subs w !! x = Some v -> <[sid := (fd, ctx, tl)]> (w_subs w) !! x = Some v) as Hkeep.
  { intros x v Hx. rw lookup_insert_ne; [done|]. intros <-. apply (Hown sid); [by eexists|done]. }
  assert (forall c, notify_eventfd c <> fd -> copy_ok (w_subs w) c ->
    copy_ok (<[sid := (fd, ctx, tl)]> (w_subs w)) c) as Hcopy.
  { intros c Hne Hc x ctx' tl'. intros [[_ [= Heq _ _]]|[_ Hx]]%lookup_insert_Some; [congruence|].
    by eapply Hc. }
  destruct Hl as [H1 H2 H3 H4 H5 H6 H7 H8 H9]. split; try done; simpl.
  - intros x y f c1 c2 t1 t2 [[<- [= <- _ _]]|[Hx Hx1]]%lookup_insert_Some
      [[<- E]|[Hy Hy1]]%lookup_insert_Some; [done| | |by eapply H2].
    + by destruct (Hsubs _ _ _ _ Hy1).
    + injection E as -> _ _. by destruct (Hsubs _ _ _ _ Hx1).
  - intros x y f1 f2 c1 t1 t2 [[<- [= _ <- _]]|[Hx Hx1]]%lookup_insert_Some
      [[<- E]|[Hy Hy1]]%lookup_insert_Some; [done| | |by eapply H3].
    + by destruct (Hsubs _ _ _ _ Hy1).
    + injection E as _ -> _. by destruct (Hsubs _ _ _ _ Hx1).
  - intros x [-> |Hx]%elem_of_cons.
    + exists fd, ctx, tl. rw lookup_insert_eq. split; [done|]. intros id. apply (Hfd (SubSource id)).
    + destruct (H4 x Hx) as (f & c1 & t1 & Hs & Hno). exists f, c1, t1. auto.
  - intros id c Hc Ht. destruct (H5 id c Hc Ht) as [c1 Hs]. exists c1. auto.
  - intros id c Hc. apply Hcopy; [|by eapply H6]. intros He. apply (Hfd (SubSource id)). simpl.
    rw (t_sub _ (o_tables _ Hp) id c Hc). by rw He.
  - intros i id c Hin. destruct (H7 i id c Hin) as [Hc Hi]. split; [|done].
    apply Hcopy; [|done]. by eapply Hcopies.
Qed.

(** A subscriber that is not transient local starts after the messages published so far. *)
Lemma new_subscriber_drained procs t t' domain pid a ctx :
  topic_wf t -> a_sub_transient_local a = false -> entries t' = entries t ->
  window rules procs t' (new_subscriber t domain pid a ctx) = [].
Proof.
  intros Hwf Ha He. apply window_empty. right. rw He. simpl. rw Ha. intros en Hen Hlt.
  pose proof (wf_entry_ids t Hwf) as Hids. rw Forall_forall in Hids. specialize (Hids en Hen). lia.
Qed.

Lemma subscribe_action w al domain pid a fd ctx t' s :
  let w' := set_subs (<[sub_id s := (fd, ctx, a_sub_transient_local a)]> (w_subs w))
              (sub_id s :: w_new w)
              (set_topic (w_procs w) t' (upd_counter ctx (fun _ => fd_new) (w_counters w)) w) in
  kernel_ok w -> served_all w -> current_entry_id (w_topic w) + 1 < 2 ^ 63 ->
  0 <= a_sub_qos_depth a < 2 ^ 32 ->
  (forall x fd' ctx' tl', w_subs w !! x = Some (fd', ctx', tl') -> fd' <> fd /\ ctx' <> ctx) ->
  insert_subscriber_info al rules (w_topic w) domain pid a (Some ctx) = (t', Ok s) ->
  (forall x, own w x -> x <> sub_id s) /\ kernel_ok w' /\ served_all w'.
Proof.
  cbv zeta. intros Hk Hs Hfit Hd Hsubs Hrun. pose proof (ko_wf w Hk) as Hwf.
  destruct (insert_subscriber_info_cases _ _ _ _ _ _ _ _ _ Hwf Hfit Hrun)
    as (Hnew & Hhash & He & Hcur & _).
  assert (sub_id s = current_pubsub_id (w_topic w)) as Hid by (by rw Hnew).
  assert (forall x, own w x -> x <> sub_id s) as Hown
    by (intros x Hx; rw Hid; by apply own_below).
  assert (served rules (own w) (w_procs w) (w_topic w) (w_procs w) t' []) as Hsv.
  { eapply topic_call_served; [done|apply Hk|by apply ko_own|]. by eapply call_add_subscriber. }
  pose proof (topic_kernel_ok w (w_procs w) t' [] (w_counters w) Hk Hsv) as Hk1.
  split; [done|]. split.
  - destruct Hk1 as [W N B C]. split; simpl in *; [done..| |].
    + intros x [v Hv]. simpl in Hv. apply lookup_insert_Some in Hv as [[<- _]|[_ Hx]]; [lia|].
      apply B. by eexists.
    + intros s0 fd0 ctx0 tl0 Hin. rw Hhash in Hin. apply elem_of_hash_add in Hin as [-> |Hin].
      * rw lookup_insert_eq. intros [= _ <- _]. by rw Hnew.
      * intros [[Heq _]|[_ Hx]]%lookup_insert_Some.
        -- exfalso. apply (new_endpoint_id_fresh _ Hwf). rw -Hid Heq. apply elem_of_app. right.
           apply list_elem_of_fmap. by exists s0.
        -- apply (C s0 fd0 ctx0 tl0); [|done]. rw Hhash. apply elem_of_hash_add. by right.
  - intros sid fd0 ctx0 tl0 s' Hact Hsub Hin Hs'. simpl in Hsub, Hin.
    apply lookup_insert_Some in Hsub as [[<- [= <- <- <-]]|[Hne Hsub]].
    + destruct (a_sub_transient_local a) eqn:Htl.
      { right; left. split; [done|]. left. by left. }
      left. rw Hhash in Hin. apply elem_of_hash_add in Hin as [-> |Hin].
      * unfold drained; simpl. rw Hnew. by apply new_subscriber_drained.
      * exfalso. apply (new_endpoint_id_fresh _ Hwf). rw -Hid -Hs'. apply elem_of_app. right.
        apply list_elem_of_fmap. by exists s'.
    + assert (active w sid) as Hact0.
      { destruct Hact as [[Heq|Hn]%elem_of_cons|Hact]; [by destruct Hne|by left|by right]. }
      destruct (served_one (own w) w (w_procs w) t' [] s' sid fd0 ctx0 tl0) as (s0 & Hin0 & Hid0 & Hd0);
        [done|done|by eexists|done|done|done|].
      destruct (Hs sid fd0 ctx0 tl0 s0 Hact0 Hsub Hin0 Hid0) as [Hdr|[[-> Hw]|[Hr|Hw]]].
      * destruct (Hd0 Hdr) as [|Hsig]; [by left|]. by apply elem_of_nil in Hsig.
      * right; left. split; [done|]. destruct Hw as [Hn|Hw]; [left; by right|by right].
      * right; right; left. simpl. unfold upd_counter.
        destruct (Z.eqb_spec ctx0 ctx) as [-> |]; [by destruct (Hsubs _ _ _ _ Hsub)|done].
      * by right; right; right.
Qed.

(** ** Runs *)

Record world_ok (w : world) : Prop := {
  wo_kernel : kernel_ok w;
  wo_proc : proc_ok (w_process w);
  wo_linked : linked w;
  wo_served : served_all w
}.

Lemma initial_ok w : initial w -> world_ok w.
Proof.
  intros (Hwf & Hok & Hp & Hst & Hs & Hn).
  split.
  - split; [done..| |].
    + intros sid [v Hv]. by rw Hs lookup_empty in Hv.
    + intros s fd ctx tl _. by rw Hs lookup_empty.
  - rw Hp. apply new_process_ok.
  - split; unfold entry; rw ?Hp ?Hst ?Hs ?Hn //.
    all: try by (intros; set_solver). all: by intros * ?%elem_of_nil.
  - intros sid fd ctx tl s _ Hsub. by rw Hs lookup_empty in Hsub.
Qed.

Lemma separate_plain a :
  separate a = false -> plain a = true \/ exists t sid tl fd g,
    a = ARegisterCallback t sid tl fd g /\ t <> topic.
Proof.
  destruct a; try done; try (by left). simpl. intros Hb%bool_decide_eq_false. right. by do 5 eexists.
Qed.

(** A callback of another topic. *)
Lemma other_register_action w t sid tl fd g p' :
  t <> topic -> proc_ok (w_process w) -> linked w -> served_all w ->
  (forall x fd' ctx tl', w_subs w !! x = Some (fd', ctx, tl') -> fd' <> fd) ->
  act (ARegisterCallback t sid tl fd g) (w_process w) = Some p' ->
  linked (set_process p' (w_status w) w) /\ served_all (set_process p' (w_status w) w).
Proof.
  intros Hne Hp Hl Hs Hfd Ha. apply register_frame in Ha as (He & Hr & Hh & Hfe & Ht & Hfds).
  assert (forall id c, id2_callback_info (callback_table p') !! id = Some c -> topic_name c = topic ->
    entry w id c) as Hold.
  { intros id c Hc Htop. destruct (Ht id c Hc) as [|[-> _]]; [done|]. by destruct Hne. }
  split.
  - destruct Hl as [H1 H2 H3 H4 H5 H6 H7 H8 H9]. split; unfold entry; simpl; rw ?He ?Hr ?Hh ?Hfe //.
    + intros x Hx. destruct (H4 x Hx) as (f & ctx & tl' & Hsub & Hno). exists f, ctx, tl'.
      split; [done|]. intros id Hid. destruct (Hfds id f Hid) as [Hid'| ->]; [by eapply Hno|].
      by eapply Hfd.
    + intros id c Hc Htop. by apply (H5 id), Htop; apply Hold.
    + intros id c Hc. destruct (Ht id c Hc) as [|[-> _]]; [by eapply H6|].
      intros x ctx tl' Hsub. by destruct (Hfd _ _ _ _ Hsub).
  - intros x fd' ctx tl' s Hact Hsub Hin Hid.
    assert (active w x) as Hact0.
    { destruct Hact as [Hn|(id & c & Hc & Htop & Hx)]; [by left|right]. exists id, c. auto. }
    destruct (Hs x fd' ctx tl' s Hact0 Hsub Hin Hid) as [Hd|[[-> Hw]|Hw]]; [by left|right; left|right; right].
    + split; [done|]. destruct Hact as [Hn|(id & c & Hc & Htop & Hx)]; [by left|right].
      destruct Hw as [Hn|(id1 & c1 & Hc1 & Ht1 & Hs1 & Hneed)].
      * exfalso. exact (new_not_entry w x fd' ctx true id c Hp Hl Hn Hsub (Hold id c Hc Htop) Htop Hx).
      * destruct (same_entry w id1 id c1 c) as [-> ->]; [done..|by apply Hold|done|done|congruence|].
        by exists id, c.
    + revert Hw. unfold on_its_way, receiving, ready_tasks; simpl. by rw He Hr.
Qed.

Lemma status_action w k again i it id t sid :
  linked w -> served_all w -> running (w_process w) !! k = Some (i, it) ->
  callable it = ReceiveTask id t sid -> t <> topic ->
  linked (set_status (<[k := Some again]> (w_status w)) w) /\
  served_all (set_status (<[k := Some again]> (w_status w)) w).
Proof.
  intros Hl Hs Hk Hc Hne. split.
  - destruct Hl as [H1 H2 H3 H4 H5 H6 H7 H8 H9]. split; try done. simpl. by rw length_insert.
  - intros x fd ctx tl s Hact Hsub Hin Hid.
    destruct (Hs x fd ctx tl s Hact Hsub Hin Hid) as [Hd|[Hw|[Hr|[Hq|Hrun]]]];
      [by left|by right; left|by right; right; left|by right; right; right; left|].
    right; right; right; right. destruct Hrun as (k' & j & it' & st & Hk' & [id' Hc'] & Hst & Hn).
    exists k', j, it', st. split; [done|]. split; [by exists id'|]. split; [|done]. simpl.
    rw list_lookup_insert_ne; [done|]. intros ->. rw Hk in Hk'. injection Hk' as <- <-. congruence.
Qed.

Lemma kernel_part w w' :
  w_topic w' = w_topic w -> (forall sid v, w_subs w' !! sid = Some v -> w_subs w !! sid = Some v) ->
  kernel_ok w -> kernel_ok w'.
Proof.
  intros Ht Hs [H1 H2 H3 H4]. split; rw ?Ht //.
  - intros sid [v Hv]. apply H3. exists v. by apply Hs.
  - intros s fd ctx tl Hin Hv. by eapply H4, Hs.
Qed.

Lemma step_ok w w' : step w w' -> no_stale_number w w' -> world_ok w -> world_ok w'.
Proof.
  intros Hstep Hnew [Hk Hp Hl Hs]. destruct Hstep.
  - destruct (topic_action w procs' t' signals) as [Hk' Hs']; [done..|].
    split; [done|done|by apply linked_counters|done].
  - destruct (subscribe_action w al domain pid a fd ctx t' s) as (Hown & Hk' & Hs'); [done..|].
    split; [done|done| |done]. apply subscribe_linked; [done..| |done].
    intros i id c. apply (Hnew (sub_id s) fd ctx (a_sub_transient_local a)).
    + destruct (w_subs w !! sub_id s) as [v|] eqn:Hv; [|done]. by destruct (Hown (sub_id s)); [eexists|].
    + simpl. by rw lookup_insert_eq.
  - split; [by apply (kernel_part w)|by eapply act_proc_ok|by eapply register_linked|
      by eapply register_served].
  - destruct (receive_action w k i it id sid al vnr pool domain size t' pool' out again infos)
      as (Hk' & Hl' & Hs'); [done..|]. by split.
  - destruct (status_action w k again i it id t sid) as [Hl' Hs']; [done..|].
    split; [by apply (kernel_part w)|done..].
  - subst r. destruct (read_action w k i id c sid ctx tl p') as [Hl' Hs']; [done..|].
    split; [by apply (kernel_part w)|by eapply act_proc_ok; [|done|]|done|done].
  - destruct (plain_action w p') as [Hl' Hs']; [by eapply (act_frame (ARead _ _))|done..|].
    split; [by apply (kernel_part w)|by eapply act_proc_ok; [|done|]|done|done].
  - destruct (close_action w id fd p') as [Hl' Hs']; [done..|].
    split; [|by eapply act_proc_ok; [|done|]|done|done].
    apply (kernel_part w); [done| |done]. simpl. by intros sid v [? _]%map_lookup_filter_Some.
  - destruct (pop_action w i p') as [Hl' Hs']; [done..|].
    split; [by apply (kernel_part w)|by eapply act_proc_ok; [|done|]|done|done].
  - destruct (finish_action w k again i it p') as [Hl' Hs']; [done..|].
    split; [by apply (kernel_part w)|by eapply act_proc_ok; [|done|]|done|done].
  - assert (linked (set_process p' (w_status w) w) /\ served_all (set_process p' (w_status w) w))
      as [Hl' Hs'].
    { destruct (separate_plain a) as [Hpl|(t & sid & tl & fd & g & -> & Hne)]; [done| |].
      - apply plain_action; [by eapply act_frame|done..].
      - eapply other_register_action; [done..| |done]. intros x fd' ctx tl'. by eapply H3. }
    split; [by apply (kernel_part w)|by eapply act_proc_ok|done|done].
Qed.

Lemma reachable_world_ok w : reachable_world w -> world_ok w.
Proof. induction 1; [by apply initial_ok|by eapply step_ok]. Qed.

End delivery.

(** ** Witness *)

(** The counter of an eventfd; a read resets it. *)
#[refine] Definition counter_eventfd : EventFd := {|
  fdstate := N;
  fd_new := 0%N;
  fd_signal n := N.min (n + 1) (2 ^ 64 - 1);
  fd_read n := if (n =? 0)%N then (ReadEagain, 0%N) else (ReadCounter, 0%N);
  readable n := (0 < n)%N
|}.
Proof.
  - intros n. lia.
  - intros n Hn. simpl. destruct (N.eqb_spec n 0); [lia|done].
Defined.

(** A process subscribes to the topic of publisher 0 of process 100, registers its callback, and the
    publisher publishes. *)
Definition sample_world0 : @world counter_eventfd :=
  @World counter_eventfd sample_procs sample_topic0 new_process [] (fun _ => 0%N) ∅ [].

Definition sample_subscribed : topic_struct * res subscriber_info :=
  @insert_subscriber_info length_hash (fun _ => true) [] sample_topic0 0 200 sample_sub_args (Some 77).
Definition sample_world1 : @world counter_eventfd :=
  @World counter_eventfd sample_procs sample_topic new_process []
    (@upd_counter counter_eventfd 77 (fun _ => 0%N) (fun _ => 0%N)) {[1 := (5, 77, false)]} [1].
Definition sample_registered : process :=
  default new_process (act (ARegisterCallback "t" 1 false 5 3) new_process).
Definition sample_world2 : @world counter_eventfd :=
  @World counter_eventfd sample_procs sample_topic sample_registered []
    (w_counters sample_world1) {[1 := (5, 77, false)]} [].
Definition sample_world3 : @world counter_eventfd :=
  @World counter_eventfd sample_procs sample_topic1 sample_registered []
    (@signal_all counter_eventfd [77] (w_counters sample_world1)) {[1 := (5, 77, false)]} [].

Lemma sample_world3_reachable :
  @reachable_world length_hash counter_eventfd [] "t" sample_world3.
Proof.
  eapply (@world_step _ _ _ _ sample_world2); [eapply (@world_step _ _ _ _ sample_world1);
    [eapply (@world_step _ _ _ _ sample_world0); [apply world_initial| |]| |]| |].
  all: try (by intros sid fd ctx tl _ _ i id c Hin; apply elem_of_nil in Hin).
  - destruct sample_topic0_ok. done.
  - apply (@step_subscribe length_hash counter_eventfd [] "t" sample_world0 (fun _ => true) 0 200
      sample_sub_args 5 77 sample_topic
      (default sample_sub (match sample_subscribed.2 with Ok s => Some s | _ => None end)));
      try done.
    intros [] Hs; discriminate Hs.
  - apply (@step_register length_hash counter_eventfd [] "t" sample_world1 1 false 5 77 3
      sample_registered); try done.
    + by left.
    + split; [intros [] Hs; discriminate Hs|done].
  - apply (@step_topic length_hash counter_eventfd [] "t" sample_world2 sample_procs sample_topic1 [77]).
    apply (@call_publish length_hash [] _ sample_procs sample_topic (fun _ => true) sample_pool 4096 0
      5000 sample_topic1 [77] (sample_publish sample_topic).2); try done.
    + by apply sample_pools.
    + intros p [= <-]. done.
Qed.

Definition sample_callback : callback_info := CallbackInfo "t" 1 false 5 3 true.
Definition sample_listener : subscriber_info :=
  new_subscriber sample_topic0 0 200 sample_sub_args (Some 77).


(** ** A number that is given again *)

(** A thread has fetched the event of subscriber 1 and copied its entry when the subscription goes away; the eventfd of
    subscriber 2 then gets the number 5 again and is prepared, and the thread reads it. *)
Definition reuse_run : list action :=
  let prepare order := APrepare 0 0 order (fun _ => true) in
  [ANewGroup 3 sample_group; ANewExecutor MultiThreaded None; ARegisterCallback "t" 1 false 5 3; ATake 0;
   prepare [0]; prepare [0]; prepare [0]; AWait 0 (WaitEvent (pack_epoll_data EpollEventType_Subscription 0));
   AHandle 0 None None; AEraseCallback 0; ACloseEventfd 0; ARegisterCallback "t" 2 false 5 3; ATake 0;
   prepare [1]; prepare [1]; prepare [1]; ARead 0 ReadCounter].

(** The read empties the counter of subscriber 2's eventfd, which is in the epoll instance, and queues a task of
    subscriber 1: what was signalled to subscriber 2 is lost. *)
Lemma reuse_loses_wakeup :
  exists p, run reuse_run new_process = Some p /\ sub_fds p = {[1 := 5]} /\
    regs p = [(5, datum (SubSource 1))] /\
    ready_tasks p = [receive_task 0 (CallbackInfo "t" 1 false 5 3 false)].
Proof. eexists. split_and!; vm_compute; reflexivity. Qed.
