(* ===== verification/ApproximateTime.v ===== *)
(** * The ApproximateTime policy of the message synchronizer

    [sync_policies::ApproximateTime] (agnocastlib, sync_policies/approximate_time.hpp): messages of
    2 to 9 topics are matched into sets of close time stamps.  The state keeps the template's
    members; the topics of the code's tuples are the positions of a list.  An assertion that fails,
    or an access to an empty queue, is [None]; the theorems show that it never happens. *)

From S2P Require Import Prelude.

(** [NO_PIVOT], the special value of [pivot_]. *)
Definition NO_PIVOT : nat := 9.

(** Time stamps ([message_traits::TimeStamp<M>::value]) and durations are nanoseconds.  [stamp] and
    [scale p d] ([rclcpp::Duration d * (1 + p)]) are code outside the repository; [non_negative p] is
    the comparison [p >= 0] of a [double]. *)
Class TimeModel (M double : Type) := {
  stamp : M -> Z;
  scale : double -> Z -> Z;
  non_negative : double -> bool
}.

(** ** State *)

(** [std::get<i>(deques_)] and [std::get<i>(past_)]: the messages of a topic not yet looked at, and
    those the search has moved past. *)
Record topic_queue (M : Type) := TopicQueue { deque : list M; past : list M }.
Arguments TopicQueue {M} deque past.
Arguments deque {M} t.
Arguments past {M} t.

Record approx (M double : Type) := Approx {
  queue_size_ : Z;
  queues_ : list (topic_queue M);
  num_non_empty_deques_ : Z;
  candidate_ : list M;
  candidate_start_ : Z;
  candidate_end_ : Z;
  pivot_time_ : Z;
  pivot_ : nat;
  max_interval_duration_ : Z;
  age_penalty_ : double;
  has_dropped_messages_ : list bool;
  inter_message_lower_bounds_ : list Z;
  warned_about_incorrect_bound_ : list bool
}.
Arguments Approx {M double}.
Arguments queue_size_ {M double} a.
Arguments queues_ {M double} a.
Arguments num_non_empty_deques_ {M double} a.
Arguments candidate_ {M double} a.
Arguments candidate_start_ {M double} a.
Arguments candidate_end_ {M double} a.
Arguments pivot_time_ {M double} a.
Arguments pivot_ {M double} a.
Arguments max_interval_duration_ {M double} a.
Arguments age_penalty_ {M double} a.
Arguments has_dropped_messages_ {M double} a.
Arguments inter_message_lower_bounds_ {M double} a.
Arguments warned_about_incorrect_bound_ {M double} a.

Section operations.
Context {M double : Type} `{TimeModel M double}.

(** Writes to the queues, to the candidate and to the pivot. *)
Definition set_queues qs num (s : approx M double) : approx M double :=
  Approx (queue_size_ s) qs num (candidate_ s) (candidate_start_ s) (candidate_end_ s)
    (pivot_time_ s) (pivot_ s) (max_interval_duration_ s) (age_penalty_ s)
    (has_dropped_messages_ s) (inter_message_lower_bounds_ s) (warned_about_incorrect_bound_ s).

Definition set_candidate c start end' (s : approx M double) : approx M double :=
  Approx (queue_size_ s) (queues_ s) (num_non_empty_deques_ s) c start end'
    (pivot_time_ s) (pivot_ s) (max_interval_duration_ s) (age_penalty_ s)
    (has_dropped_messages_ s) (inter_message_lower_bounds_ s) (warned_about_incorrect_bound_ s).

Definition set_pivot p t (s : approx M double) : approx M double :=
  Approx (queue_size_ s) (queues_ s) (num_non_empty_deques_ s) (candidate_ s)
    (candidate_start_ s) (candidate_end_ s) t p (max_interval_duration_ s) (age_penalty_ s)
    (has_dropped_messages_ s) (inter_message_lower_bounds_ s) (warned_about_incorrect_bound_ s).

Definition set_dropped d (s : approx M double) : approx M double :=
  Approx (queue_size_ s) (queues_ s) (num_non_empty_deques_ s) (candidate_ s)
    (candidate_start_ s) (candidate_end_ s) (pivot_time_ s) (pivot_ s) (max_interval_duration_ s)
    (age_penalty_ s) d (inter_message_lower_bounds_ s) (warned_about_incorrect_bound_ s).

Definition set_warned w (s : approx M double) : approx M double :=
  Approx (queue_size_ s) (queues_ s) (num_non_empty_deques_ s) (candidate_ s)
    (candidate_start_ s) (candidate_end_ s) (pivot_time_ s) (pivot_ s) (max_interval_duration_ s)
    (age_penalty_ s) (has_dropped_messages_ s) (inter_message_lower_bounds_ s) w.

(** [RealTypeCount::value]: the number of real topics of the synchronizer. *)
Definition real_type_count (s : approx M double) : nat := length (queues_ s).

(** The constructor, for [n] topics; [penalty] is the default 0.1. *)
Definition new_approx (n : nat) (penalty : double) (queue_size : Z) : approx M double :=
  Approx queue_size (replicate n (TopicQueue [] [])) 0 [] 0 0 0 NO_PIVOT
    ((2 ^ 31 - 1) * 10 ^ 9 + 999999999) penalty
    (replicate 9 false) (replicate 9 0) (replicate 9 false).

Definition setAgePenalty (p : double) (s : approx M double) : option (approx M double) :=
  require non_negative p orelse None;
  Some (Approx (queue_size_ s) (queues_ s) (num_non_empty_deques_ s) (candidate_ s)
    (candidate_start_ s) (candidate_end_ s) (pivot_time_ s) (pivot_ s) (max_interval_duration_ s)
    p (has_dropped_messages_ s) (inter_message_lower_bounds_ s) (warned_about_incorrect_bound_ s)).

Definition setInterMessageLowerBound (i : nat) (lower_bound : Z) (s : approx M double) : option (approx M double) :=
  require (i <? real_type_count s)%nat && (0 <=? lower_bound) orelse None;
  Some (Approx (queue_size_ s) (queues_ s) (num_non_empty_deques_ s) (candidate_ s)
    (candidate_start_ s) (candidate_end_ s) (pivot_time_ s) (pivot_ s) (max_interval_duration_ s)
    (age_penalty_ s) (has_dropped_messages_ s) (<[i := lower_bound]> (inter_message_lower_bounds_ s))
    (warned_about_incorrect_bound_ s)).

Definition setMaxIntervalDuration (d : Z) (s : approx M double) : option (approx M double) :=
  require 0 <=? d orelse None;
  Some (Approx (queue_size_ s) (queues_ s) (num_non_empty_deques_ s) (candidate_ s)
    (candidate_start_ s) (candidate_end_ s) (pivot_time_ s) (pivot_ s) d (age_penalty_ s)
    (has_dropped_messages_ s) (inter_message_lower_bounds_ s) (warned_about_incorrect_bound_ s)).

(** ** Queues *)

Definition is_empty {A} (l : list A) : bool := match l with [] => true | _ => false end.

Definition dequeDeleteFront (i : nat) (s : approx M double) : option (approx M double) :=
  unwrap q := queues_ s !! i orelse None;
  match deque q with
  | [] => None
  | _ :: d =>
      Some (set_queues (<[i := TopicQueue d (past q)]> (queues_ s))
              (if is_empty d then u32 (num_non_empty_deques_ s - 1) else num_non_empty_deques_ s) s)
  end.

Definition dequeMoveFrontToPast (i : nat) (s : approx M double) : option (approx M double) :=
  unwrap q := queues_ s !! i orelse None;
  match deque q with
  | [] => None
  | m :: d =>
      Some (set_queues (<[i := TopicQueue d (past q ++ [m])]> (queues_ s))
              (if is_empty d then u32 (num_non_empty_deques_ s - 1) else num_non_empty_deques_ s) s)
  end.

Definition makeCandidate (start end' : Z) (s : approx M double) : option (approx M double) :=
  unwrap c := mapM (fun q => head (deque q)) (queues_ s) orelse None;
  Some (set_candidate c start end'
          (set_queues ((fun q => TopicQueue (deque q) []) <$> queues_ s) (num_non_empty_deques_ s) s)).

(** [while (num_messages > 0) { q.push_front(v.back()); v.pop_back(); num_messages--; }] *)
Fixpoint recover_loop (num_messages : nat) (q : topic_queue M) : topic_queue M :=
  match num_messages with
  | O => q
  | S n =>
      match last (past q) with
      | None => q
      | Some m => recover_loop n (TopicQueue (m :: deque q) (take (length (past q) - 1) (past q)))
      end
  end.

Definition count_if_non_empty (q : topic_queue M) (num : Z) : Z :=
  if is_empty (deque q) then num else u32 (num + 1).

(** [recover<i>(num_messages)] for every topic, in order. *)
Fixpoint recover_some (moves : list nat) (qs : list (topic_queue M)) (num : Z) {struct qs}
    : option (list (topic_queue M) * Z) :=
  match qs, moves with
  | [], _ => Some ([], num)
  | q :: qs, n :: moves =>
      require (n <=? length (past q))%nat orelse None;
      let q := recover_loop n q in
      unwrap r := recover_some moves qs (count_if_non_empty q num) orelse None;
      Some (q :: r.1, r.2)
  | _ :: _, [] => None
  end.

(** [recover<i>()] for every topic, in order. *)
Fixpoint recover_all (qs : list (topic_queue M)) (num : Z) : list (topic_queue M) * Z :=
  match qs with
  | [] => ([], num)
  | q :: qs =>
      let q := recover_loop (length (past q)) q in
      let '(qs, num) := recover_all qs (count_if_non_empty q num) in
      (q :: qs, num)
  end.

(** [recoverAndDelete<i>()] for every topic, in order. *)
Fixpoint recover_and_delete (qs : list (topic_queue M)) (num : Z)
    : option (list (topic_queue M) * Z) :=
  match qs with
  | [] => Some ([], num)
  | q :: qs =>
      let q := recover_loop (length (past q)) q in
      match deque q with
      | [] => None
      | _ :: d =>
          let q := TopicQueue d (past q) in
          unwrap r := recover_and_delete qs (count_if_non_empty q num) orelse None;
          Some (q :: r.1, r.2)
      end
  end.

Definition publishCandidate (s : approx M double) : option (approx M double * list (list M)) :=
  unwrap r := recover_and_delete (queues_ s) 0 orelse None;
  Some (set_queues r.1 r.2
          (set_pivot NO_PIVOT (pivot_time_ s)
             (set_candidate [] (candidate_start_ s) (candidate_end_ s) s)), [candidate_ s]).

(** ** Intervals *)

(** The loop of the boundary searches: [(t < time) ^ end] replaces the value found so far. *)
Fixpoint boundary_loop (end' : bool) (i : nat) (ts : list Z) (acc : nat * Z) : nat * Z :=
  match ts with
  | [] => acc
  | t :: rest => boundary_loop end' (S i) rest (if xorb (t <? acc.2) end' then (i, t) else acc)
  end.

Definition getCandidateBoundary (end' : bool) (s : approx M double) : option (nat * Z) :=
  match mapM (fun q => stamp <$> head (deque q)) (queues_ s) with
  | Some (t :: ts) => Some (boundary_loop end' 1 ts (0%nat, t))
  | _ => None
  end.

Definition getVirtualTime (s : approx M double) (i : nat) (q : topic_queue M) : option Z :=
  require negb (pivot_ s =? NO_PIVOT)%nat orelse None;
  match deque q with
  | [] =>
      unwrap m := last (past q) orelse None;
      unwrap b := inter_message_lower_bounds_ s !! i orelse None;
      let msg_time_lower_bound := stamp m + b in
      Some (if pivot_time_ s <? msg_time_lower_bound then msg_time_lower_bound else pivot_time_ s)
  | m :: _ => Some (stamp m)
  end.

Definition virtual_times (s : approx M double) : option (list Z) :=
  mapM (fun iq => getVirtualTime s iq.1 iq.2) (imap pair (queues_ s)).

Definition getVirtualCandidateBoundary (end' : bool) (s : approx M double) : option (nat * Z) :=
  match virtual_times s with
  | Some (t :: ts) => Some (boundary_loop end' 0 (t :: ts) (0%nat, t))
  | _ => None
  end.

(** ** The search *)

(** The [while (true)] loop with the rate bounds.  [before] is
    [num_non_empty_deques_before_virtual_search], [moves] is [num_virtual_moves]. *)
Fixpoint virtual_search (fuel : nat) (before : Z) (moves : list nat) (s : approx M double)
    : option (approx M double * list (list M)) :=
  match fuel with
  | O => None
  | S fuel =>
      unwrap vend := getVirtualCandidateBoundary true s orelse None;
      unwrap vstart := getVirtualCandidateBoundary false s orelse None;
      if pivot_time_ s - candidate_start_ s <=? scale (age_penalty_ s) (vend.2 - candidate_end_ s)
      then publishCandidate s
      else if scale (age_penalty_ s) (vend.2 - candidate_end_ s) <? vstart.2 - candidate_start_ s
      then
        unwrap r := recover_some moves (queues_ s) 0 orelse None;
        require before =? r.2 orelse None;
        Some (set_queues r.1 r.2 s, [])
      else
        require negb (vstart.1 =? pivot_ s)%nat && (vstart.2 <? pivot_time_ s) orelse None;
        unwrap s' := dequeMoveFrontToPast vstart.1 s orelse None;
        virtual_search fuel before (alter S vstart.1 moves) s'
  end.

Definition virtual_fuel (s : approx M double) : nat := S (sum_list_with (fun q => length (deque q)) (queues_ s)).

(** The rest of the loop body once there is a candidate and a pivot. *)
Definition check_candidate (start_index : nat) (end_time : Z) (s : approx M double)
    : option (approx M double * list (list M)) :=
  require negb (pivot_ s =? NO_PIVOT)%nat orelse None;
  if (start_index =? pivot_ s)%nat then publishCandidate s
  else if pivot_time_ s - candidate_start_ s <=? scale (age_penalty_ s) (end_time - candidate_end_ s)
  then publishCandidate s
  else if num_non_empty_deques_ s <? Z.of_nat (real_type_count s) then
    virtual_search (virtual_fuel s) (num_non_empty_deques_ s) (replicate 9 0%nat) s
  else Some (s, []).

Definition clear_dropped (n end_index : nat) (l : list bool) : list bool :=
  imap (fun i b => if (i <? n)%nat && negb (i =? end_index)%nat then false else b) l.

(** One iteration of the [while] loop of [process]. *)
Definition process_body (s : approx M double) : option (approx M double * list (list M)) :=
  unwrap e := getCandidateBoundary true s orelse None;
  unwrap b := getCandidateBoundary false s orelse None;
  let '(end_index, end_time) := e in
  let '(start_index, start_time) := b in
  let s := set_dropped
    (clear_dropped (real_type_count s) end_index (has_dropped_messages_ s)) s in
  if (pivot_ s =? NO_PIVOT)%nat then
    unwrap dropped := has_dropped_messages_ s !! end_index orelse None;
    if (max_interval_duration_ s <? end_time - start_time) || dropped then
      unwrap s := dequeDeleteFront start_index s orelse None;
      Some (s, [])
    else
      unwrap s := makeCandidate start_time end_time s orelse None;
      unwrap s := dequeMoveFrontToPast start_index (set_pivot end_index end_time s) orelse None;
      check_candidate start_index end_time s
  else if start_time - candidate_start_ s
            <=? scale (age_penalty_ s) (end_time - candidate_end_ s) then
    unwrap s := dequeMoveFrontToPast start_index s orelse None;
    check_candidate start_index end_time s
  else
    unwrap s := makeCandidate start_time end_time s orelse None;
    unwrap s := dequeMoveFrontToPast start_index s orelse None;
    check_candidate start_index end_time s.

Fixpoint process_loop (fuel : nat) (s : approx M double) : option (approx M double * list (list M)) :=
  if num_non_empty_deques_ s =? Z.of_nat (real_type_count s) then
    match fuel with
    | O => None
    | S fuel =>
        unwrap r := process_body s orelse None;
        unwrap r' := process_loop fuel r.1 orelse None;
        Some (r'.1, r.2 ++ r'.2)
    end
  else Some (s, []).

(** Messages stored in all, and those of them still in the deques. *)
Definition stored (s : approx M double) : nat :=
  sum_list_with (fun q => (length (past q) + length (deque q))%nat) (queues_ s).
Definition waiting (s : approx M double) : nat := sum_list_with (fun q => length (deque q)) (queues_ s).

Definition process (s : approx M double) : option (approx M double * list (list M)) :=
  process_loop (stored s * S (stored s) + waiting s) s.

Definition checkInterMessageBound (i : nat) (s : approx M double) : option (approx M double) :=
  unwrap warned := warned_about_incorrect_bound_ s !! i orelse None;
  require negb warned orelse Some s;
  unwrap q := queues_ s !! i orelse None;
  unwrap msg := last (deque q) orelse None;
  unwrap bound := inter_message_lower_bounds_ s !! i orelse None;
  let previous :=
    if (length (deque q) =? 1)%nat then last (past q) else deque q !! (length (deque q) - 2)%nat in
  unwrap previous_msg := previous orelse Some s;
  Some (if (stamp msg <? stamp previous_msg) || (stamp msg - stamp previous_msg <? bound)
        then set_warned (<[i := true]> (warned_about_incorrect_bound_ s)) s else s).

(** The queue of a topic is over its limit: cancel the search, drop its oldest message and start
    over. *)
Definition drop_oldest (i : nat) (s : approx M double) : option (approx M double * list (list M)) :=
  let '(qs, num) := recover_all (queues_ s) 0 in
  unwrap q := qs !! i orelse None;
  match deque q with
  | [] => None
  | _ :: d =>
      let s := set_dropped (<[i := true]> (has_dropped_messages_ s))
        (set_queues (<[i := TopicQueue d (past q)]> qs) num s) in
      if (pivot_ s =? NO_PIVOT)%nat then Some (s, [])
      else process (set_pivot NO_PIVOT (pivot_time_ s)
                      (set_candidate [] (candidate_start_ s) (candidate_end_ s) s))
  end.

(** [add<i>(evt)], with the sets it hands to [parent_->signal], in order. *)
Definition add (i : nat) (evt : M) (s : approx M double) : option (approx M double * list (list M)) :=
  unwrap q := queues_ s !! i orelse None;
  let s := set_queues (<[i := TopicQueue (deque q ++ [evt]) (past q)]> (queues_ s))
             (num_non_empty_deques_ s) s in
  unwrap r :=
    (if is_empty (deque q) then
       let s := set_queues (queues_ s) (u32 (num_non_empty_deques_ s + 1)) s in
       if num_non_empty_deques_ s =? Z.of_nat (real_type_count s) then process s else Some (s, [])
     else unwrap s := checkInterMessageBound i s orelse None; Some (s, []))
    orelse None;
  let '(s, published) := r in
  unwrap q := queues_ s !! i orelse None;
  if queue_size_ s <? Z.of_nat (length (deque q) + length (past q)) then
    unwrap r := drop_oldest i s orelse None;
    Some (r.1, published ++ r.2)
  else Some (s, published).
End operations.

(** ** Specification *)

Section specification.
Context {M double : Type} `{TimeModel M double}.

(** The messages of a topic the policy still holds, oldest first. *)
Definition held (q : topic_queue M) : list M := past q ++ deque q.

Definition busy (q : topic_queue M) : nat := if is_empty (deque q) then 0%nat else 1%nat.

(** The parts of the state that do not depend on the search: the counter counts the non-empty
    deques, and the policy was built for 2 to 9 topics and a queue size of at least 1, which the
    constructor asserts. *)
Record basic_wf (s : approx M double) : Prop := {
  wf_count : num_non_empty_deques_ s = Z.of_nat (sum_list_with busy (queues_ s));
  wf_topics : (2 <= real_type_count s <= 9)%nat;
  wf_dropped : length (has_dropped_messages_ s) = 9%nat;
  wf_bounds : length (inter_message_lower_bounds_ s) = 9%nat;
  wf_warned : length (warned_about_incorrect_bound_ s) = 9%nat;
  wf_queue_size : 1 <= queue_size_ s
}.

(** The candidate holds the oldest message of each topic, all within its interval. *)
Record has_candidate (s : approx M double) : Prop := {
  ca_heads : Forall2 (fun c q => head (held q) = Some c) (candidate_ s) (queues_ s);
  ca_within : Forall (fun c => candidate_start_ s <= stamp c <= candidate_end_ s) (candidate_ s);
  ca_end : exists c, c ∈ candidate_ s /\ stamp c = candidate_end_ s
}.

(** While the search runs, the message that set [pivot_time_] is the front of the pivot's deque. *)
Definition pivot_in_front (s : approx M double) : Prop :=
  exists m d, queues_ s !! pivot_ s = Some (TopicQueue (m :: d) []) /\ stamp m = pivot_time_ s.

Record approx_wf (s : approx M double) : Prop := {
  wf_basic : basic_wf s;
  wf_idle : pivot_ s = NO_PIVOT -> candidate_ s = [] /\ Forall (fun q => past q = []) (queues_ s);
  wf_search : pivot_ s <> NO_PIVOT -> has_candidate s /\ pivot_in_front s
}.

(** What a step of the policy does to the messages: of each topic it holds a suffix of what it held,
    and the published sets take their messages, in order, from what was let go. *)
Definition flows (s : approx M double) (published : list (list M)) (s' : approx M double) : Prop :=
  length (queues_ s') = length (queues_ s) /\
  Forall (fun set => length set = length (queues_ s)) published /\
  forall i q, queues_ s !! i = Some q -> exists q' gone, queues_ s' !! i = Some q' /\
    held q = gone ++ held q' /\ omap (.!! i) published `sublist_of` gone.

Definition same_config (s s' : approx M double) : Prop :=
  queue_size_ s' = queue_size_ s /\ max_interval_duration_ s' = max_interval_duration_ s /\
  age_penalty_ s' = age_penalty_ s /\
  inter_message_lower_bounds_ s' = inter_message_lower_bounds_ s.

(** Time stamps do not decrease along a topic. *)
Definition in_order (s : approx M double) : Prop :=
  Forall (fun q => StronglySorted Z.le (stamp <$> held q)) (queues_ s).

(** What [rclcpp::Duration::operator*] is assumed to do with a penalty that is not negative. *)
Definition scale_grows (s : approx M double) : Prop :=
  forall d, 0 <= d -> d <= scale (age_penalty_ s) d.

(** Any two messages of a set are at most [d] apart. *)
Definition within (d : Z) (set : list M) : Prop :=
  forall a b, a ∈ set -> b ∈ set -> stamp a - stamp b <= d.

Definition tight (s : approx M double) : Prop :=
  pivot_ s <> NO_PIVOT -> candidate_end_ s - candidate_start_ s <= max_interval_duration_ s.

(** The guarantees of any part of a step: the flow of messages, an unchanged configuration and,
    when the stamps of each topic are in order, the bound on the published sets. *)
Record step_ok (s : approx M double) (published : list (list M)) (s' : approx M double) : Prop := {
  st_flows : flows s published s';
  st_config : same_config s s';
  st_tight : in_order s -> scale_grows s -> tight s ->
    tight s' /\ Forall (within (max_interval_duration_ s)) published
}.
End specification.

(** ** Lemmas on sums and lists *)

Section sums.
Context {A : Type}.

Lemma sum_list_insert (f : A -> nat) l i x y :
  l !! i = Some x ->
  (sum_list_with f (<[i := y]> l) + f x = sum_list_with f l + f y)%nat.
Proof.
  revert i. induction l as [|z l IH]; intros [|i] Hi; simplify_eq/=; [lia|].
  specialize (IH i Hi). lia.
Qed.

Lemma sum_list_bound (f : A -> nat) l n :
  (forall x, f x <= n)%nat -> (sum_list_with f l <= length l * n)%nat.
Proof. intros Hf. induction l as [|x l IH]; simpl; [lia|]. pose proof (Hf x). lia. Qed.

Lemma sum_list_le (f g : A -> nat) l :
  (forall x, x ∈ l -> f x <= g x)%nat -> (sum_list_with f l <= sum_list_with g l)%nat.
Proof.
  induction l as [|x l IH]; intros Hfg; simpl; [lia|].
  pose proof (Hfg x ltac:(set_solver)). assert (sum_list_with f l <= sum_list_with g l)%nat; [|lia].
  apply IH. intros y Hy. apply Hfg. set_solver.
Qed.

Lemma sum_list_fmap (f : A -> nat) (g : A -> A) l :
  sum_list_with f (g <$> l) = sum_list_with (f ∘ g) l.
Proof. induction l; csimpl; congruence. Qed.

Lemma sum_list_elem (f : A -> nat) l i x : l !! i = Some x -> (f x <= sum_list_with f l)%nat.
Proof. revert i. induction l as [|y l IH]; intros [|i] Hi; simplify_eq/=; [lia|]. specialize (IH i Hi). lia. Qed.

Lemma omap_lookup_app {B} (i : nat) (l k : list (list B)) :
  omap (.!! i) (l ++ k) = omap (.!! i) l ++ omap (.!! i) k.
Proof. induction l as [|x l IH]; csimpl; [done|]. destruct (x !! i); csimpl; congruence. Qed.
End sums.

Section proofs.
Context {M double : Type} `{TimeModel M double}.
Implicit Types (s : approx M double) (qs : list (topic_queue M)).

(** ** Recovering *)

Lemma recover_loop_spec n (q : topic_queue M) :
  (n <= length (past q))%nat ->
  recover_loop n q = TopicQueue (drop (length (past q) - n) (past q) ++ deque q)
                       (take (length (past q) - n) (past q)).
Proof.
  revert q. induction n as [|n IH]; intros [d v] Hn; simpl in *.
  { rw Nat.sub_0_r drop_all firstn_all. done. }
  destruct (last v) as [m|] eqn:Hl.
  2: { apply last_None in Hl. subst v. simpl in Hn. lia. }
  apply last_Some in Hl as [v' ->]. rw length_app /= in Hn. rw length_app /=.
  replace (length v' + 1 - 1)%nat with (length v') by lia.
  rw (take_app_length' v'); [|done]. rw IH /=; [|lia].
  replace (length v' + 1 - S n)%nat with (length v' - n)%nat by lia.
  rw take_app_le; [|lia]. rw drop_app_le; [|lia]. by rw -app_assoc.
Qed.

Lemma recover_loop_all (q : topic_queue M) :
  recover_loop (length (past q)) q = TopicQueue (held q) [].
Proof. rw recover_loop_spec; [|done]. by rw Nat.sub_diag. Qed.

Lemma busy_count (q : topic_queue M) num :
  0 <= num < 2 ^ 31 -> count_if_non_empty q num = num + Z.of_nat (busy q).
Proof.
  intros Hn. unfold count_if_non_empty, busy, is_empty, u32.
  destruct (deque q); [lia|]. rw Z.mod_small; lia.
Qed.

Lemma busy_le (q : topic_queue M) : (busy q <= 1)%nat.
Proof. unfold busy. destruct (is_empty _); lia. Qed.

Lemma recover_all_spec qs num :
  0 <= num -> num + Z.of_nat (length qs) < 2 ^ 31 ->
  recover_all qs num = ((fun q => TopicQueue (held q) []) <$> qs,
    num + Z.of_nat (sum_list_with busy ((fun q => TopicQueue (held q) []) <$> qs))).
Proof.
  revert num. induction qs as [|q qs IH]; intros num H0 Hb; csimpl; [f_equal; lia|].
  rw recover_loop_all. simpl in Hb. pose proof (busy_le (TopicQueue (held q) [])).
  rw busy_count; [|lia]. rw IH; [|lia|lia]. f_equal. lia.
Qed.

Lemma recover_and_delete_spec qs num :
  0 <= num -> num + Z.of_nat (length qs) < 2 ^ 31 ->
  Forall (fun q => held q <> []) qs ->
  recover_and_delete qs num = Some ((fun q => TopicQueue (tail (held q)) []) <$> qs,
    num + Z.of_nat (sum_list_with busy ((fun q => TopicQueue (tail (held q)) []) <$> qs))).
Proof.
  revert num. induction qs as [|q qs IH]; intros num H0 Hb Hne; csimpl; [do 2 f_equal; lia|].
  inv Hne. rw recover_loop_all /=. simpl in Hb.
  destruct (held q) as [|m d] eqn:Hq; [done|]. simpl.
  pose proof (busy_le (TopicQueue d [])). rw busy_count; [|lia].
  rw IH; [|lia|lia|done]. simpl. do 2 f_equal. lia.
Qed.

(** The moves of a virtual search: [moves] counts how many messages of each topic were moved from
    the front of the deque to the past. *)
Inductive moved : list nat -> list (topic_queue M) -> list (topic_queue M) -> Prop :=
  | moved_nil moves : moved moves [] []
  | moved_cons moves qs0 qs (d taken v : list M) :
      moved moves qs0 qs ->
      moved (length taken :: moves) (TopicQueue (taken ++ d) v :: qs0)
        (TopicQueue d (v ++ taken) :: qs).

Lemma moved_refl qs n : (length qs <= n)%nat -> moved (replicate n 0%nat) qs qs.
Proof.
  revert n. induction qs as [|[d v] qs IH]; intros n Hn; [constructor|].
  destruct n as [|n]; simpl in Hn; [lia|]. simpl.
  pose proof (moved_cons _ _ _ d [] v (IH n ltac:(lia))) as Hm. simpl in Hm.
  by rw app_nil_r in Hm.
Qed.

Lemma moved_step moves qs0 qs i m d v :
  moved moves qs0 qs -> qs !! i = Some (TopicQueue (m :: d) v) ->
  moved (alter S i moves) qs0 (<[i := TopicQueue d (v ++ [m])]> qs).
Proof.
  intros Hm. revert i. induction Hm as [|moves qs0 qs d' taken v' Hm IH]; intros [|i] Hi;
    simplify_eq/=.
  - pose proof (moved_cons _ _ _ d (taken ++ [m]) v' Hm) as Hc.
    rw length_app Nat.add_1_r -!app_assoc /= in Hc. by rw -!app_assoc.
  - constructor. auto.
Qed.

Lemma moved_recover moves qs0 qs num :
  moved moves qs0 qs -> 0 <= num -> num + Z.of_nat (length qs) < 2 ^ 31 ->
  recover_some moves qs num = Some (qs0, num + Z.of_nat (sum_list_with busy qs0)).
Proof.
  intros Hm. revert num.
  induction Hm as [|moves qs0 qs d taken v Hm IH]; intros num H0 Hb;
    cbn [recover_some sum_list_with past deque length] in *; [by rw Z.add_0_r|].
  rw (proj2 (Nat.leb_le _ _)); [|rw length_app; lia].
  rw recover_loop_spec; [|simpl; rw length_app; lia]. cbn [past deque].
  rw length_app Nat.add_sub (take_app_length' v) // (drop_app_length' v) //.
  pose proof (busy_le (TopicQueue (taken ++ d) v)).
  rw busy_count; [|lia]. rw IH; [|lia|lia]. simpl. do 2 f_equal. lia.
Qed.

(** ** Boundaries *)

(** [t] is on the side of the boundary the search looks for: at least the others for the end, at
    most for the start. *)
Definition bounds (end' : bool) (t x : Z) : Prop := if end' then x <= t else t <= x.

Lemma boundary_loop_spec end' i ts acc r :
  boundary_loop end' i ts acc = r ->
  bounds end' r.2 acc.2 /\ Forall (bounds end' r.2) ts /\
  (r = acc \/ exists j, r.1 = (i + j)%nat /\ ts !! j = Some r.2).
Proof.
  revert i acc r. induction ts as [|t ts IH]; intros i acc r Hr; simpl in Hr.
  { subst r. split_and!; [by destruct end'; simpl|done|by left]. }
  apply IH in Hr as (Hacc & Hts & Hin).
  assert (bounds end' r.2 acc.2 /\ bounds end' r.2 t) as [B1 B2].
  { destruct (Z.ltb_spec t acc.2), end'; simpl in *; lia. }
  split_and!; [done|by constructor|].
  destruct Hin as [->|(j & Hj & Hl)].
  - destruct (xorb (t <? acc.2) end').
    + right. exists 0%nat. split; [simpl; lia|done].
    + by left.
  - right. exists (S j). split; [lia|done].
Qed.

Lemma boundary_spec end' (ts : list Z) t0 ts0 r :
  ts = t0 :: ts0 ->
  boundary_loop end' 1 ts0 (0%nat, t0) = r \/ boundary_loop end' 0 ts (0%nat, t0) = r ->
  ts !! r.1 = Some r.2 /\ Forall (bounds end' r.2) ts.
Proof.
  intros -> [Hr|Hr]; apply boundary_loop_spec in Hr as (Hacc & Hts & Hin).
  - split; [|by constructor]. destruct Hin as [->|(j & -> & Hj)]; done.
  - split; [|done]. destruct Hin as [->|(j & -> & Hj)]; done.
Qed.

Lemma candidate_boundary_spec end' s :
  queues_ s <> [] -> Forall (fun q => deque q <> []) (queues_ s) ->
  exists i t, getCandidateBoundary end' s = Some (i, t) /\
    (exists m d v, queues_ s !! i = Some (TopicQueue (m :: d) v) /\ stamp m = t) /\
    forall j m d v, queues_ s !! j = Some (TopicQueue (m :: d) v) -> bounds end' t (stamp m).
Proof.
  intros Hne Hall. unfold getCandidateBoundary.
  assert (exists ts, mapM (fun q => stamp <$> head (deque q)) (queues_ s) = Some ts) as [ts Hts].
  { apply mapM_is_Some_2. eapply Forall_impl; [exact Hall|]. intros [[|m d] v] Hq; [done|]. eauto. }
  rw Hts. apply mapM_Some in Hts. destruct ts as [|t0 ts0].
  { by apply Forall2_nil_inv_r in Hts. }
  destruct (boundary_loop end' 1 ts0 (0%nat, t0)) as [i t] eqn:Hr.
  destruct (boundary_spec end' _ _ _ (i, t) eq_refl (or_introl Hr)) as [Hi Hb]. simpl in Hi, Hb.
  exists i, t. split_and!; [done| |].
  - destruct (Forall2_lookup_r _ _ _ _ _ Hts Hi) as ([d v] & Hq & Hh). simpl in Hh.
    destruct d as [|m d]; [done|]. simplify_eq/=. eauto 6.
  - intros j m d v Hj. destruct (Forall2_lookup_l _ _ _ _ _ Hts Hj) as (x & Hx & Hh).
    simplify_eq/=. eapply Forall_lookup_1; eauto.
Qed.

(** ** Steps *)

Lemma flows_refl s : flows s [] s.
Proof. split_and!; [done|done|]. intros i q Hq. exists q, []. by split_and!. Qed.

Lemma flows_trans s1 o1 s2 o2 s3 : flows s1 o1 s2 -> flows s2 o2 s3 -> flows s1 (o1 ++ o2) s3.
Proof.
  intros (L1 & A1 & F1) (L2 & A2 & F2). split_and!; [congruence| |].
  - apply Forall_app. split; [done|]. by rw -L1.
  - intros i q Hq. destruct (F1 i q Hq) as (q1 & g1 & Hq1 & E1 & S1).
    destruct (F2 i q1 Hq1) as (q2 & g2 & Hq2 & E2 & S2).
    exists q2, (g1 ++ g2). split_and!; [done|by rw E1 E2 app_assoc|].
    rw omap_lookup_app. by apply sublist_app.
Qed.

Lemma flows_insert s s' i q q' gone :
  queues_ s !! i = Some q -> queues_ s' = <[i := q']> (queues_ s) -> held q = gone ++ held q' ->
  flows s [] s'.
Proof.
  intros Hq Hqs Hg. split_and!; [by rw Hqs length_insert|done|].
  intros j qj Hj. rw Hqs. destruct (decide (i = j)) as [<-|Hne].
  - simplify_eq. exists q', gone. split_and!; [|done|apply sublist_nil_l].
    apply list_lookup_insert_eq. by eapply lookup_lt_Some.
  - exists qj, []. split_and!; [by rw list_lookup_insert_ne|done|done].
Qed.

Lemma flows_fmap s s' (f : topic_queue M -> topic_queue M) :
  queues_ s' = f <$> queues_ s -> (forall q, exists gone, held q = gone ++ held (f q)) ->
  flows s [] s'.
Proof.
  intros Hqs Hf. split_and!; [by rw Hqs length_fmap|done|].
  intros i q Hq. destruct (Hf q) as [gone Hg]. exists (f q), gone.
  split_and!; [by rw Hqs list_lookup_fmap Hq|done|apply sublist_nil_l].
Qed.

Lemma sorted_suffix (l1 l2 : list Z) : StronglySorted Z.le (l1 ++ l2) -> StronglySorted Z.le l2.
Proof. induction l1 as [|x l1 IH]; intros Hs; [done|]. inv Hs. auto. Qed.

Lemma in_order_flows s o s' : flows s o s' -> in_order s -> in_order s'.
Proof.
  intros (L & _ & F) Ho. apply Forall_lookup. intros i q' Hq'.
  destruct (lookup_lt_is_Some_2 (queues_ s) i) as [q Hq].
  { rw -L. by eapply lookup_lt_Some. }
  destruct (F i q Hq) as (q2 & gone & Hq2 & Hh & _). simplify_eq.
  pose proof (Forall_lookup_1 _ _ _ _ Ho Hq) as Hs. cbv beta in Hs. rw Hh fmap_app in Hs.
  by eapply sorted_suffix.
Qed.

Lemma same_config_trans s1 s2 s3 : same_config s1 s2 -> same_config s2 s3 -> same_config s1 s3.
Proof. unfold same_config. intros (? & ? & ? & ?) (? & ? & ? & ?). split_and!; congruence. Qed.

Lemma step_trans s1 o1 s2 o2 s3 :
  step_ok s1 o1 s2 -> step_ok s2 o2 s3 -> step_ok s1 (o1 ++ o2) s3.
Proof.
  intros [F1 C1 T1] [F2 C2 T2]. split.
  - by eapply flows_trans.
  - by eapply same_config_trans.
  - intros Ho Hs Ht. destruct (T1 Ho Hs Ht) as [Ht2 W1].
    assert (scale_grows s2) as Hs2. { unfold scale_grows. by rw (proj1 (proj2 (proj2 C1))). }
    destruct (T2 (in_order_flows _ _ _ F1 Ho) Hs2 Ht2) as [Ht3 W2].
    split; [done|]. apply Forall_app. split; [done|]. by rw -(proj1 (proj2 C1)).
Qed.

(** A part of a step that publishes nothing and leaves the candidate and the pivot as they are. *)
Lemma step_quiet s s' :
  flows s [] s' -> same_config s s' -> (tight s -> tight s') -> step_ok s [] s'.
Proof. intros F C T. split; [done|done|]. auto. Qed.

Lemma step_refl s : step_ok s [] s.
Proof. apply step_quiet; [apply flows_refl|done|done]. Qed.

(** ** Counting messages *)

Lemma busy_insert qs i q q' :
  qs !! i = Some q ->
  (sum_list_with busy (<[i := q']> qs) + busy q = sum_list_with busy qs + busy q')%nat.
Proof. apply sum_list_insert. Qed.

Lemma busy_bound qs : (sum_list_with busy qs <= length qs)%nat.
Proof. pose proof (sum_list_bound busy qs 1 busy_le). lia. Qed.

Lemma all_busy qs :
  sum_list_with busy qs = length qs <-> Forall (fun q : topic_queue M => deque q <> []) qs.
Proof.
  induction qs as [|q qs IH]; simpl; [done|]. pose proof (busy_bound qs).
  unfold busy at 1. rw Forall_cons -IH. unfold is_empty. destruct (deque q); simpl.
  - split; [lia|]. by intros [? _].
  - split; [|lia]. intros. split; [done|lia].
Qed.

Lemma waiting_stored s : (waiting s <= stored s)%nat.
Proof. apply sum_list_le. intros q _. lia. Qed.

Lemma basic_set_queues s qs num :
  basic_wf s -> length qs = length (queues_ s) -> num = Z.of_nat (sum_list_with busy qs) ->
  basic_wf (set_queues qs num s).
Proof. intros [? ? ? ? ? ?] Hl Hn. split; try done. unfold real_type_count. simpl. by rw Hl. Qed.

(** Taking the front message off a deque. *)
Lemma pop_front_count s i m d v (v' : list M) :
  basic_wf s -> queues_ s !! i = Some (TopicQueue (m :: d) v) ->
  (if is_empty d then u32 (num_non_empty_deques_ s - 1) else num_non_empty_deques_ s) =
  Z.of_nat (sum_list_with busy (<[i := TopicQueue d v']> (queues_ s))).
Proof.
  intros Hwf Hq. pose proof (busy_insert _ _ _ (TopicQueue d v') Hq) as Hb.
  rw (wf_count _ Hwf). pose proof (busy_bound (queues_ s)). pose proof (wf_topics _ Hwf) as Ht.
  unfold real_type_count in Ht. unfold busy in Hb at 2 4. simpl in Hb.
  destruct (is_empty d); [|lia]. unfold u32. rw Z.mod_small; lia.
Qed.

Lemma move_spec s i m d v :
  basic_wf s -> queues_ s !! i = Some (TopicQueue (m :: d) v) ->
  exists s', dequeMoveFrontToPast i s = Some s' /\
    (exists num, s' = set_queues (<[i := TopicQueue d (v ++ [m])]> (queues_ s)) num s) /\
    basic_wf s' /\ step_ok s [] s' /\ stored s' = stored s /\ waiting s = S (waiting s').
Proof.
  intros Hwf Hq. unfold dequeMoveFrontToPast. rw Hq /=. eexists. split; [done|].
  split; [by eexists|]. split_and!.
  - apply basic_set_queues; [done|by rw length_insert|by eapply pop_front_count].
  - apply step_quiet; [|done|done]. eapply flows_insert with (gone := []); [exact Hq|done|].
    unfold held. simpl. by rw -app_assoc.
  - unfold stored. simpl. pose proof (sum_list_insert
      (fun q => (length (past q) + length (deque q))%nat) _ _ _ (TopicQueue d (v ++ [m])) Hq) as Hs.
    simpl in Hs. rw length_app /= in Hs. lia.
  - unfold waiting. simpl. pose proof (sum_list_insert (fun q => length (deque q)) _ _ _
      (TopicQueue d (v ++ [m])) Hq) as Hs. simpl in Hs. lia.
Qed.

Lemma delete_spec s i m d :
  basic_wf s -> queues_ s !! i = Some (TopicQueue (m :: d) []) ->
  exists s', dequeDeleteFront i s = Some s' /\
    (exists num, s' = set_queues (<[i := TopicQueue d []]> (queues_ s)) num s) /\
    basic_wf s' /\ step_ok s [] s' /\ (stored s' < stored s)%nat.
Proof.
  intros Hwf Hq. unfold dequeDeleteFront. rw Hq /=. eexists. split; [done|].
  split; [by eexists|]. split_and!.
  - apply basic_set_queues; [done|by rw length_insert|by eapply pop_front_count].
  - apply step_quiet; [|done|done]. eapply flows_insert with (gone := [m]); [exact Hq|done|done].
  - unfold stored. simpl. pose proof (sum_list_insert
      (fun q => (length (past q) + length (deque q))%nat) _ _ _ (TopicQueue d []) Hq) as Hs.
    simpl in Hs. lia.
Qed.

(** ** Publishing *)

Lemma candidate_held s : has_candidate s -> Forall (fun q => held q <> []) (queues_ s).
Proof.
  intros [Hc _ _]. apply Forall_lookup. intros i q Hq.
  destruct (Forall2_lookup_r _ _ _ _ _ Hc Hq) as (c & _ & Hh). by destruct (held q).
Qed.

Lemma small_count s : basic_wf s -> 0 + Z.of_nat (length (queues_ s)) < 2 ^ 31.
Proof. intros Hwf. pose proof (wf_topics _ Hwf). unfold real_type_count in *. lia. Qed.

Lemma candidate_in s i c q :
  has_candidate s -> candidate_ s !! i = Some c -> queues_ s !! i = Some q ->
  held q = c :: tail (held q).
Proof.
  intros [Hc _ _] Hic Hq. pose proof (Forall2_lookup_lr _ _ _ _ _ _ Hc Hic Hq) as Hh.
  simpl in Hh. destruct (held q); simplify_eq/=. done.
Qed.

Lemma publish_flows s s' :
  has_candidate s -> queues_ s' = (fun q => TopicQueue (tail (held q)) []) <$> queues_ s ->
  flows s [candidate_ s] s'.
Proof.
  intros Hc Hqs. pose proof (Forall2_length _ _ _ (ca_heads _ Hc)) as Hl.
  split_and!; [by rw Hqs length_fmap|by repeat constructor|].
  intros i q Hq. destruct (lookup_lt_is_Some_2 (candidate_ s) i) as [c Hic].
  { rw Hl. by eapply lookup_lt_Some. }
  exists (TopicQueue (tail (held q)) []), [c]. split_and!.
  - by rw Hqs list_lookup_fmap Hq.
  - by apply (candidate_in s i).
  - csimpl. by rw Hic.
Qed.

Lemma candidate_tight s :
  has_candidate s -> pivot_ s <> NO_PIVOT -> tight s ->
  within (max_interval_duration_ s) (candidate_ s).
Proof.
  intros [_ Hw _] Hp Ht a b Ha Hb. specialize (Ht Hp). rw Forall_forall in Hw.
  pose proof (Hw a Ha). pose proof (Hw b Hb). lia.
Qed.

Lemma stored_tail s s' :
  real_type_count s <> 0%nat -> Forall (fun q => held q <> []) (queues_ s) ->
  queues_ s' = (fun q => TopicQueue (tail (held q)) []) <$> queues_ s ->
  (stored s' < stored s)%nat.
Proof.
  intros Hn Hne Hqs. unfold stored. rw Hqs sum_list_fmap. unfold real_type_count in Hn.
  destruct (queues_ s) as [|q qs]; [done|]. clear Hn Hqs.
  assert (forall q : topic_queue M, held q <> [] ->
    length (tail (held q)) < length (past q) + length (deque q))%nat as Hlt.
  { intros q' Hq'. rw -length_app. fold (held q'). destruct (held q'); [done|simpl; lia]. }
  inv Hne. csimpl. specialize (Hlt q ltac:(done)) as Hq.
  assert (sum_list_with ((fun q => (length (past q) + length (deque q))%nat) ∘
            (fun q => TopicQueue (tail (held q)) [])) qs
          <= sum_list_with (fun q => (length (past q) + length (deque q))%nat) qs)%nat; [|lia].
  apply sum_list_le. intros q' Hq'. simpl.
  assert (held q' <> []) as Hne' by (eapply Forall_forall in H3; eauto).
  pose proof (Hlt q' Hne'). lia.
Qed.

Lemma publish_spec s :
  basic_wf s -> pivot_ s <> NO_PIVOT -> has_candidate s ->
  exists s', publishCandidate s = Some (s', [candidate_ s]) /\
    approx_wf s' /\ step_ok s [candidate_ s] s' /\ (stored s' < stored s)%nat.
Proof.
  intros Hwf Hp Hc. unfold publishCandidate.
  rw (recover_and_delete_spec (queues_ s) 0);
    [|lia|by apply small_count|by apply candidate_held].
  eexists. split; [done|]. split_and!.
  - split; [|simpl|done].
    + destruct Hwf as [H1 H2 H3 H4 H5 H6]. split; try done. unfold real_type_count in *. simpl.
      by rw length_fmap.
    + intros _. split; [done|]. apply Forall_fmap, Forall_true. done.
  - split; [by apply publish_flows|done|]. intros Ho Hs Ht. split; [by intros []|].
    apply Forall_singleton. by apply candidate_tight.
  - apply stored_tail; [|by apply candidate_held|done]. pose proof (wf_topics _ Hwf). lia.
Qed.

(** ** The virtual search *)

Lemma virtual_boundary_spec end' s :
  basic_wf s -> has_candidate s -> pivot_ s <> NO_PIVOT ->
  exists ts i t, virtual_times s = Some ts /\ getVirtualCandidateBoundary end' s = Some (i, t) /\
    ts !! i = Some t /\ Forall (bounds end' t) ts.
Proof.
  intros Hwf Hc Hp. unfold getVirtualCandidateBoundary.
  assert (exists ts, virtual_times s = Some ts) as [ts Hts].
  { apply mapM_is_Some_2, Forall_lookup. intros i [j q] Hij. apply list_lookup_imap_Some in Hij
      as (q' & Hq & Heq). simplify_eq/=. unfold getVirtualTime.
    rw (proj2 (Nat.eqb_neq _ _) Hp) /=. destruct (deque q') as [|m d] eqn:Hd; [|eauto].
    pose proof (Forall_lookup_1 _ _ _ _ (candidate_held _ Hc) Hq) as Hne. cbv beta in Hne.
    unfold held in Hne. rw Hd app_nil_r in Hne.
    destruct (last (past q')) as [m|] eqn:Hl; [|by apply last_None in Hl].
    destruct (lookup_lt_is_Some_2 (inter_message_lower_bounds_ s) i) as [b ->]; [|eauto].
    rw (wf_bounds _ Hwf). apply lookup_lt_Some in Hq. pose proof (wf_topics _ Hwf).
    unfold real_type_count in *. lia. }
  rw Hts. destruct ts as [|t0 ts0].
  { apply mapM_Some, Forall2_length in Hts. rw length_imap in Hts.
    pose proof (wf_topics _ Hwf). unfold real_type_count in *. simpl in Hts. lia. }
  destruct (boundary_loop end' 0 (t0 :: ts0) (0%nat, t0)) as [i t] eqn:Hr.
  destruct (boundary_spec end' _ _ _ (i, t) eq_refl (or_intror Hr)) as [Hi Hb].
  exists (t0 :: ts0), i, t. by split_and!.
Qed.

Lemma virtual_time_of s ts i q :
  virtual_times s = Some ts -> queues_ s !! i = Some q -> exists t, ts !! i = Some t /\
    getVirtualTime s i q = Some t.
Proof.
  intros Hts Hq. apply mapM_Some in Hts.
  assert (imap pair (queues_ s) !! i = Some (i, q)) as Hiq by (by rw list_lookup_imap Hq).
  destruct (Forall2_lookup_l _ _ _ _ _ Hts Hiq) as (t & Ht & Hv). eauto.
Qed.

(** A topic whose virtual time is before the pivot has a message waiting. *)
Lemma early_virtual_time s ts i q t :
  virtual_times s = Some ts -> queues_ s !! i = Some q -> ts !! i = Some t -> t < pivot_time_ s ->
  exists m d, deque q = m :: d.
Proof.
  intros Hts Hq Ht Hlt. destruct (virtual_time_of _ _ _ _ Hts Hq) as (t' & Ht' & Hv). simplify_eq.
  unfold getVirtualTime in Hv. destruct (pivot_ s =? NO_PIVOT)%nat; [done|]. simpl in Hv.
  destruct (deque q) as [|m d]; [|eauto].
  destruct (last (past q)); [|done]. destruct (inter_message_lower_bounds_ s !! i); [|done].
  destruct (Z.ltb_spec (pivot_time_ s) (stamp m + z)); simplify_eq; lia.
Qed.

Lemma pivot_virtual_time s ts :
  virtual_times s = Some ts -> pivot_ s <> NO_PIVOT -> pivot_in_front s ->
  ts !! pivot_ s = Some (pivot_time_ s).
Proof.
  intros Hts Hp (m & d & Hq & Hm). destruct (virtual_time_of _ _ _ _ Hts Hq) as (t & -> & Hv).
  unfold getVirtualTime in Hv. rw (proj2 (Nat.eqb_neq _ _) Hp) /= in Hv. congruence.
Qed.

(** Moving a message on keeps the candidate, and keeps the pivot's message in front unless it is
    the one moved. *)
Lemma move_keeps_candidate s i m d v num :
  has_candidate s -> queues_ s !! i = Some (TopicQueue (m :: d) v) ->
  has_candidate (set_queues (<[i := TopicQueue d (v ++ [m])]> (queues_ s)) num s).
Proof.
  intros [Hc Hw He] Hq. split; [|done|done]. simpl. apply Forall2_same_length_lookup. split.
  { rw length_insert. by eapply Forall2_length. }
  intros j c q Hj Hqj. destruct (decide (i = j)) as [<-|Hne].
  - rw list_lookup_insert_eq in Hqj; [|by eapply lookup_lt_Some]. simplify_eq.
    pose proof (Forall2_lookup_lr _ _ _ _ _ _ Hc Hj Hq) as Hh. simpl in Hh.
    unfold held in *. simpl in *. by rw -app_assoc.
  - rw list_lookup_insert_ne // in Hqj. exact (Forall2_lookup_lr _ _ _ _ _ _ Hc Hj Hqj).
Qed.

Lemma move_keeps_pivot s i q num :
  pivot_in_front s -> i <> pivot_ s -> pivot_in_front (set_queues (<[i := q]> (queues_ s)) num s).
Proof.
  intros (m & d & Hq & Hm) Hne. exists m, d. split; [|done]. simpl.
  by rw list_lookup_insert_ne.
Qed.

(** What a virtual search keeps: the state differs from where it began by the moves it counts. *)
Record virtual_inv (s0 : approx M double) (moves : list nat) (s : approx M double) : Prop := {
  vi_basic : basic_wf s;
  vi_pivot : pivot_ s <> NO_PIVOT;
  vi_candidate : has_candidate s;
  vi_front : pivot_in_front s;
  vi_moved : moved moves (queues_ s0) (queues_ s);
  vi_back : s0 = set_queues (queues_ s0) (num_non_empty_deques_ s0) s;
  vi_step : step_ok s0 [] s;
  vi_stored : stored s = stored s0
}.

Lemma virtual_move s0 moves s i m d v :
  virtual_inv s0 moves s -> queues_ s !! i = Some (TopicQueue (m :: d) v) -> i <> pivot_ s ->
  exists s', dequeMoveFrontToPast i s = Some s' /\ virtual_inv s0 (alter S i moves) s' /\
    waiting s = S (waiting s').
Proof.
  intros [B P C F V K T S] Hq Hi.
  destruct (move_spec s i m d v B Hq) as (s' & -> & [num ->] & B' & T' & S' & W').
  eexists. split; [done|]. split; [|done]. split; try done.
  - by apply move_keeps_candidate.
  - by apply move_keeps_pivot.
  - by apply moved_step.
  - exact (step_trans _ _ _ _ _ T T').
  - congruence.
Qed.

Lemma virtual_search_spec fuel s0 moves s :
  basic_wf s0 -> virtual_inv s0 moves s -> (waiting s < fuel)%nat ->
  exists s' published, virtual_search fuel (num_non_empty_deques_ s0) moves s = Some (s', published) /\
    (s' = s0 /\ published = [] \/
     approx_wf s' /\ step_ok s0 published s' /\ (stored s' < stored s0)%nat).
Proof.
  intros Hwf0. revert moves s. induction fuel as [|fuel IH]; intros moves s Hinv Hf; [lia|].
  pose proof Hinv as [B P C F V K T S]. cbn [virtual_search].
  destruct (virtual_boundary_spec true s B C P) as (ts & ei & et & Hts & -> & _ & _).
  destruct (virtual_boundary_spec false s B C P) as (ts' & si & st & Hts' & -> & Hsi & Hmin).
  rw Hts in Hts'. injection Hts' as <-. cbv beta iota. cbn [fst snd].
  pose proof (pivot_virtual_time _ _ Hts P F) as Hpv.
  pose proof (Forall_lookup_1 _ _ _ _ Hmin Hpv) as Hle. simpl in Hle.
  destruct (Z.leb_spec (pivot_time_ s - candidate_start_ s)
    (scale (age_penalty_ s) (et - candidate_end_ s))) as [Hprove|Hno].
  { destruct (publish_spec s B P C) as (s' & -> & W' & T' & S').
    do 2 eexists. split; [done|]. right. split_and!; [done|exact (step_trans _ _ _ _ _ T T')|].
    by rw -S. }
  destruct (Z.ltb_spec (scale (age_penalty_ s) (et - candidate_end_ s))
    (st - candidate_start_ s)) as [Hbetter|Hworse].
  { rw (moved_recover _ _ _ 0 V); [|lia|by apply small_count]. cbn [fst snd].
    rw Z.add_0_l -(wf_count _ Hwf0) Z.eqb_refl. do 2 eexists. split; [done|]. left.
    by rw -K. }
  assert (st < pivot_time_ s) as Hlt by lia.
  assert (si <> pivot_ s) as Hsp. { intros ->. simplify_eq. lia. }
  rw (proj2 (Nat.eqb_neq _ _) Hsp) (proj2 (Z.ltb_lt _ _) Hlt). cbn [negb andb].
  assert (exists q, queues_ s !! si = Some q) as [q Hq].
  { apply lookup_lt_is_Some_2. apply lookup_lt_Some in Hsi. apply mapM_Some, Forall2_length in Hts.
    rw length_imap in Hts. lia. }
  destruct (early_virtual_time _ _ _ _ _ Hts Hq Hsi Hlt) as (m & d & Hd).
  destruct q as [d' v]. simpl in Hd. subst d'.
  destruct (virtual_move _ _ _ _ _ _ _ Hinv Hq Hsp) as (s1 & -> & Hinv1 & Hw).
  apply IH; [done|lia].
Qed.

(** ** One iteration *)

Lemma check_candidate_spec start_index end_time s :
  basic_wf s -> pivot_ s <> NO_PIVOT -> has_candidate s ->
  (start_index <> pivot_ s -> pivot_in_front s) ->
  exists s' published, check_candidate start_index end_time s = Some (s', published) /\
    approx_wf s' /\ step_ok s published s' /\ (s' = s \/ (stored s' < stored s)%nat).
Proof.
  intros B P C F. unfold check_candidate. rw (proj2 (Nat.eqb_neq _ _) P). cbn [negb].
  assert (exists s' published, publishCandidate s = Some (s', published) /\
    approx_wf s' /\ step_ok s published s' /\ (s' = s \/ (stored s' < stored s)%nat)) as Hpub.
  { destruct (publish_spec s B P C) as (s' & -> & W & T & S). eauto 10. }
  destruct (Nat.eqb_spec start_index (pivot_ s)) as [_|Hsp]; [done|]. specialize (F Hsp).
  case_match; [done|].
  assert (approx_wf s) as Hwf by (split; [done|done|]; intros _; by split).
  case_match; [|do 2 eexists; split_and!; [done|done|apply step_refl|by left]].
  destruct (virtual_search_spec (virtual_fuel s) s (replicate 9 0%nat) s) as (s' & o & -> & Hr).
  - done.
  - split; try done; [|by destruct s|apply step_refl].
    apply moved_refl. pose proof (wf_topics _ B). unfold real_type_count in *. lia.
  - unfold waiting, virtual_fuel. lia.
  - do 2 eexists. split; [done|]. destruct Hr as [[-> ->]|(W & T & S)].
    + split_and!; [done|apply step_refl|by left].
    + split_and!; [done|done|by right].
Qed.

(** The fronts of the deques bound by [start] and [end']. *)
Definition fronts_between (start end' : Z) s : Prop :=
  forall j m d v, queues_ s !! j = Some (TopicQueue (m :: d) v) -> start <= stamp m <= end'.

Lemma make_candidate_spec start end' s :
  basic_wf s -> Forall (fun q => deque q <> []) (queues_ s) -> fronts_between start end' s ->
  (exists j m d v, queues_ s !! j = Some (TopicQueue (m :: d) v) /\ stamp m = end') ->
  exists c s', makeCandidate start end' s = Some s' /\
    s' = set_candidate c start end' (set_queues ((fun q => TopicQueue (deque q) []) <$> queues_ s)
      (num_non_empty_deques_ s) s) /\
    basic_wf s' /\ has_candidate s' /\ flows s [] s' /\
    (stored s' <= stored s)%nat /\ waiting s' = waiting s.
Proof.
  intros Hwf Hne Hb (j & m & d & v & Hj & Hm). unfold makeCandidate.
  assert (exists c, mapM (fun q => head (deque q)) (queues_ s) = Some c) as [c Hc].
  { apply mapM_is_Some_2. eapply Forall_impl; [exact Hne|]. intros [[|x y] z] Hq; [done|]. eauto. }
  rw Hc. apply mapM_Some in Hc. exists c. eexists. split; [done|]. split; [done|]. split_and!.
  - destruct Hwf as [H1 H2 H3 H4 H5 H6]. split; try done.
    + simpl. rw H1 sum_list_fmap. done.
    + unfold real_type_count in *. simpl. by rw length_fmap.
  - split; simpl.
    + apply Forall2_fmap_r. eapply Forall2_flip, Forall2_impl; [exact Hc|]. done.
    + apply Forall_lookup. intros k x Hk.
      destruct (Forall2_lookup_r _ _ _ _ _ Hc Hk) as ([[|y d'] v'] & Hq & Hh); [done|].
      simplify_eq/=. by eapply Hb.
    + exists m. split; [|done]. destruct (Forall2_lookup_l _ _ _ _ _ Hc Hj) as (x & Hx & Hh).
      simplify_eq/=. by eapply list_elem_of_lookup_2.
  - eapply flows_fmap; [done|]. intros q. by exists (past q).
  - unfold stored. simpl. rw sum_list_fmap. apply sum_list_le. intros q _. simpl. lia.
  - unfold waiting. simpl. by rw sum_list_fmap.
Qed.

Lemma make_candidate_front start end' s c i m d v :
  queues_ s !! i = Some (TopicQueue (m :: d) v) ->
  queues_ (set_candidate c start end' (set_queues ((fun q => TopicQueue (deque q) []) <$> queues_ s)
    (num_non_empty_deques_ s) s)) !! i = Some (TopicQueue (m :: d) []).
Proof. intros Hq. simpl. by rw list_lookup_fmap Hq. Qed.

(** With stamps in order the new interval ends no earlier than the candidate. *)
Lemma end_grows s start end' :
  has_candidate s -> in_order s -> Forall (fun q => deque q <> []) (queues_ s) ->
  fronts_between start end' s -> candidate_end_ s <= end'.
Proof.
  intros [Hc _ (c & Hin & <-)] Ho Hne Hb. apply list_elem_of_lookup in Hin as [j Hj].
  destruct (Forall2_lookup_l _ _ _ _ _ Hc Hj) as ([d v] & Hq & Hh).
  pose proof (Forall_lookup_1 _ _ _ _ Hne Hq) as Hd. destruct d as [|m d]; [done|].
  pose proof (Hb _ _ _ _ Hq) as [_ Hle].
  pose proof (Forall_lookup_1 _ _ _ _ Ho Hq) as Hs. cbv beta in Hs.
  unfold held in *. simpl in *. destruct v as [|x v]; simplify_eq/=; [lia|].
  inv Hs. rename H3 into Hall. rw Forall_forall in Hall.
  assert (stamp c <= stamp m); [|lia]. apply Hall.
  rw fmap_app. csimpl. set_solver.
Qed.

Lemma clear_dropped_wf s n e :
  basic_wf s -> basic_wf (set_dropped (clear_dropped n e (has_dropped_messages_ s)) s).
Proof.
  intros [H1 H2 H3 H4 H5 H6]. split; try done. simpl. unfold clear_dropped. by rw length_imap.
Qed.

Definition measure s : nat := (stored s * S (stored s) + waiting s)%nat.

Lemma measure_stored s s' : (stored s' < stored s)%nat -> (measure s' < measure s)%nat.
Proof. unfold measure. pose proof (waiting_stored s'). nia. Qed.

Lemma measure_waiting s s' :
  (stored s' <= stored s)%nat -> (waiting s' < waiting s)%nat -> (measure s' < measure s)%nat.
Proof. unfold measure. nia. Qed.

(** Moving the start of the interval on and checking the candidate. *)
Lemma move_and_check s start_index end_time m d v :
  basic_wf s -> pivot_ s <> NO_PIVOT -> has_candidate s -> pivot_in_front s ->
  queues_ s !! start_index = Some (TopicQueue (m :: d) v) ->
  exists s1, dequeMoveFrontToPast start_index s = Some s1 /\
  exists s' published, check_candidate start_index end_time s1 = Some (s', published) /\
    approx_wf s' /\ step_ok s published s' /\ (measure s' < measure s)%nat.
Proof.
  intros B P C F Hq.
  destruct (move_spec s start_index m d v B Hq) as (s1 & Hmv & [num Hs1] & B1 & T1 & S1 & W1).
  exists s1. split; [done|].
  destruct (check_candidate_spec start_index end_time s1) as (s' & o & Hck & W & T & Hm).
  - done.
  - by subst s1.
  - subst s1. by apply move_keeps_candidate.
  - subst s1. intros Hne. by apply move_keeps_pivot.
  - exists s', o. split_and!; [done|done|exact (step_trans _ _ _ _ _ T1 T)|].
    destruct Hm as [->|Hm]; [apply measure_waiting; lia|apply measure_stored; lia].
Qed.

Lemma all_waiting s :
  basic_wf s -> num_non_empty_deques_ s = Z.of_nat (real_type_count s) ->
  queues_ s <> [] /\ Forall (fun q => deque q <> []) (queues_ s).
Proof.
  intros Hwf Hn. split.
  - pose proof (wf_topics _ Hwf). unfold real_type_count in *. destruct (queues_ s); simpl in *; [lia|done].
  - apply all_busy. rw (wf_count _ Hwf) in Hn. unfold real_type_count in Hn. lia.
Qed.

(** The interval of the body: it bounds the fronts, which attain it. *)
Lemma interval_spec s :
  queues_ s <> [] -> Forall (fun q => deque q <> []) (queues_ s) ->
  exists ei et si st, getCandidateBoundary true s = Some (ei, et) /\
    getCandidateBoundary false s = Some (si, st) /\ fronts_between st et s /\
    (exists m d v, queues_ s !! ei = Some (TopicQueue (m :: d) v) /\ stamp m = et) /\
    (exists m d v, queues_ s !! si = Some (TopicQueue (m :: d) v)).
Proof.
  intros Hne Hall.
  destruct (candidate_boundary_spec true s Hne Hall) as (ei & et & He & Hei & Hmax).
  destruct (candidate_boundary_spec false s Hne Hall) as (si & st & Hs & (m & d & v & Hsi & _) & Hmin).
  exists ei, et, si, st. split_and!; [done|done| |done|eauto].
  intros j m' d' v' Hj. split; [exact (Hmin _ _ _ _ Hj)|exact (Hmax _ _ _ _ Hj)].
Qed.

(** What an iteration establishes. *)
Definition body_ok s (r : option (approx M double * list (list M))) : Prop :=
  exists s' published, r = Some (s', published) /\
    approx_wf s' /\ step_ok s published s' /\ (measure s' < measure s)%nat.

Lemma body_delete s i :
  approx_wf s -> pivot_ s = NO_PIVOT -> (exists m d v, queues_ s !! i = Some (TopicQueue (m :: d) v)) ->
  body_ok s (match dequeDeleteFront i s with Some s' => Some (s', []) | None => None end).
Proof.
  intros [B I _] P (m & d & v & Hq). destruct (I P) as [Hc Hpast].
  assert (v = []) as -> by exact (Forall_lookup_1 _ _ _ _ Hpast Hq).
  destruct (delete_spec s i m d B Hq) as (s' & -> & [num Hs'] & B' & T' & S').
  exists s', []. split_and!; [done| |done|by apply measure_stored].
  split; [done| |by subst s'; intros ?].
  intros _. subst s'. split; [done|]. simpl. by apply Forall_insert.
Qed.

Lemma body_first_candidate s ei et si st :
  basic_wf s -> Forall (fun q => deque q <> []) (queues_ s) -> fronts_between st et s ->
  (exists m d v, queues_ s !! ei = Some (TopicQueue (m :: d) v) /\ stamp m = et) ->
  (exists m d v, queues_ s !! si = Some (TopicQueue (m :: d) v)) ->
  et - st <= max_interval_duration_ s ->
  body_ok s (unwrap t := makeCandidate st et s orelse None;
             unwrap t := dequeMoveFrontToPast si (set_pivot ei et t) orelse None;
             check_candidate si et t).
Proof.
  intros B Hall Hb (m & d & v & Hei & Hm) (m' & d' & v' & Hsi) Hmax.
  destruct (make_candidate_spec st et s B Hall Hb) as (c & s1 & -> & Hs1 & B1 & C1 & F1 & S1 & W1);
    [eauto 6|].
  assert (ei < 9)%nat as Hei9.
  { apply lookup_lt_Some in Hei. pose proof (wf_topics _ B). unfold real_type_count in *. lia. }
  pose proof (make_candidate_front st et s c _ _ _ _ Hei) as Hei1. rw -Hs1 in Hei1.
  pose proof (make_candidate_front st et s c _ _ _ _ Hsi) as Hsi1. rw -Hs1 in Hsi1.
  destruct (move_and_check (set_pivot ei et s1) si et m' d' []) as (s2 & -> & s' & o & -> & W & T & Hlt).
  - destruct B1 as [H1 H2 H3 H4 H5 H6]. by split.
  - simpl. unfold NO_PIVOT. lia.
  - destruct C1 as [H1 H2 H3]. by split.
  - exists m, d. by split.
  - done.
  - exists s', o. split_and!; [done|done| |].
    + eapply (step_trans _ [] (set_pivot ei et s1)); [|exact T].
      apply step_quiet; [exact F1|by subst s1|]. intros _ _. by subst s1.
    + eapply Nat.lt_le_trans; [exact Hlt|]. unfold measure, stored, waiting in *. simpl. nia.
Qed.

Lemma body_next_candidate s ei et si st :
  basic_wf s -> pivot_ s <> NO_PIVOT -> has_candidate s -> pivot_in_front s ->
  Forall (fun q => deque q <> []) (queues_ s) -> fronts_between st et s ->
  (exists m d v, queues_ s !! ei = Some (TopicQueue (m :: d) v) /\ stamp m = et) ->
  (exists m d v, queues_ s !! si = Some (TopicQueue (m :: d) v)) ->
  scale (age_penalty_ s) (et - candidate_end_ s) < st - candidate_start_ s ->
  body_ok s (unwrap t := makeCandidate st et s orelse None;
             unwrap t := dequeMoveFrontToPast si t orelse None;
             check_candidate si et t).
Proof.
  intros B P C (mp & dp & Hp & Hmp) Hall Hb (m & d & v & Hei & Hm) (m' & d' & v' & Hsi) Hbetter.
  destruct (make_candidate_spec st et s B Hall Hb) as (c & s1 & -> & Hs1 & B1 & C1 & F1 & S1 & W1);
    [eauto 6|].
  pose proof (make_candidate_front st et s c _ _ _ _ Hp) as Hp1. rw -Hs1 in Hp1.
  pose proof (make_candidate_front st et s c _ _ _ _ Hsi) as Hsi1. rw -Hs1 in Hsi1.
  destruct (move_and_check s1 si et m' d' []) as (s2 & -> & s' & o & -> & W & T & Hlt).
  - done.
  - by subst s1.
  - done.
  - exists mp, dp. subst s1. by split.
  - done.
  - exists s', o. split_and!; [done|done| |].
    + eapply (step_trans _ [] s1); [|exact T]. split; [exact F1|by subst s1|].
      intros Ho Hs Ht. split; [|done]. intros _. specialize (Ht P).
      pose proof (end_grows s st et C Ho Hall Hb) as He.
      pose proof (Hs (et - candidate_end_ s) ltac:(lia)). subst s1. simpl. lia.
    + eapply Nat.lt_le_trans; [exact Hlt|]. unfold measure. nia.
Qed.

Lemma process_body_spec s :
  approx_wf s -> num_non_empty_deques_ s = Z.of_nat (real_type_count s) ->
  body_ok s (process_body s).
Proof.
  intros Hwf Hn. destruct (all_waiting s (wf_basic _ Hwf) Hn) as [Hne Hall].
  destruct (interval_spec s Hne Hall) as (ei & et & si & st & He & Hs & Hb & Hei & Hsi).
  unfold process_body. rw He Hs.
  set (s0 := set_dropped (clear_dropped (real_type_count s) ei (has_dropped_messages_ s)) s).
  assert (basic_wf s0) as B by (apply clear_dropped_wf, Hwf).
  assert (approx_wf s0) as Hwf0.
  { destruct Hwf as [_ I S]. split; [done|done|]. intros Hp. destruct (S Hp) as [[H1 H2 H3] F].
    by repeat split. }
  assert (body_ok s0 (process_body s) -> body_ok s (process_body s)) as Hlift.
  { intros (s' & o & -> & W & [F C T] & Hm). exists s', o.
    split_and!; [done|done|by split|exact Hm]. }
  revert Hlift. unfold process_body. rw He Hs. fold s0. intros Hlift. apply Hlift. clear Hlift.
  destruct (Nat.eqb_spec (pivot_ s0) NO_PIVOT) as [P|P].
  - destruct (lookup_lt_is_Some_2 (has_dropped_messages_ s0) ei) as [dropped ->].
    { rw (wf_dropped _ B). destruct Hei as (m & d & v & Hei & _). apply lookup_lt_Some in Hei.
      pose proof (wf_topics _ B). unfold real_type_count in *. simpl in *. lia. }
    case_match eqn:Hskip; [by apply body_delete|]. apply orb_false_iff in Hskip as [Hmax _].
    apply Z.ltb_ge in Hmax. by apply body_first_candidate.
  - destruct (wf_search _ Hwf0 P) as [C F]. destruct Hsi as (m & d & v & Hsi).
    case_match eqn:Hbetter.
    + destruct (move_and_check s0 si et m d v) as (s1 & -> & s' & o & -> & W & T & Hm); try done.
      exists s', o. by split_and!.
    + apply Z.leb_gt in Hbetter. apply (body_next_candidate s0 ei et si st); try done. eauto.
Qed.

Lemma process_loop_spec fuel s :
  approx_wf s -> (measure s <= fuel)%nat ->
  exists s' published, process_loop fuel s = Some (s', published) /\ approx_wf s' /\
    step_ok s published s' /\ num_non_empty_deques_ s' <> Z.of_nat (real_type_count s').
Proof.
  revert s. induction fuel as [|fuel IH]; intros s Hwf Hf; cbn [process_loop].
  - destruct (Z.eqb_spec (num_non_empty_deques_ s) (Z.of_nat (real_type_count s))) as [Hn|Hn].
    + destruct (process_body_spec s Hwf Hn) as (? & ? & _ & _ & _ & Hm). lia.
    + do 2 eexists. split_and!; [done|done|apply step_refl|done].
  - destruct (Z.eqb_spec (num_non_empty_deques_ s) (Z.of_nat (real_type_count s))) as [Hn|Hn].
    + destruct (process_body_spec s Hwf Hn) as (s1 & o1 & -> & W1 & T1 & Hm).
      destruct (IH s1 W1 ltac:(lia)) as (s2 & o2 & E & W2 & T2 & Hne). cbn [fst snd]. rw E.
      do 2 eexists. split_and!; [done|done|by eapply step_trans|done].
    + do 2 eexists. split_and!; [done|done|apply step_refl|done].
Qed.

Lemma process_spec s :
  approx_wf s ->
  exists s' published, process s = Some (s', published) /\ approx_wf s' /\
    step_ok s published s' /\ num_non_empty_deques_ s' <> Z.of_nat (real_type_count s').
Proof. intros Hwf. by apply process_loop_spec. Qed.

(** ** Adding a message *)

(** Between calls: no match is pending, and no topic holds more than [queue_size_] messages. *)
Record approx_idle (s : approx M double) : Prop := {
  id_wf : approx_wf s;
  id_waits : num_non_empty_deques_ s <> Z.of_nat (real_type_count s);
  id_bound : Forall (fun q => Z.of_nat (length (held q)) <= queue_size_ s) (queues_ s)
}.

Definition pushed (i : nat) (evt : M) (q : topic_queue M) s : approx M double :=
  set_queues (<[i := TopicQueue (deque q ++ [evt]) (past q)]> (queues_ s))
    (Z.of_nat (sum_list_with busy (<[i := TopicQueue (deque q ++ [evt]) (past q)]> (queues_ s)))) s.

Lemma pushed_wf i evt q s :
  approx_wf s -> queues_ s !! i = Some q -> approx_wf (pushed i evt q s).
Proof.
  intros [B I S] Hq. split.
  - apply basic_set_queues; [done|by rw length_insert|done].
  - intros P. destruct (I P) as [Hc Hp]. split; [done|]. simpl. apply Forall_insert; [done|].
    exact (Forall_lookup_1 _ _ _ _ Hp Hq).
  - intros P. destruct (S P) as [[Hc Hw He] (m & d & Hm & Ht)]. split.
    + split; [|done|done]. simpl. apply Forall2_same_length_lookup. split.
      { rw length_insert. by eapply Forall2_length. }
      intros j c qj Hj Hqj. destruct (decide (i = j)) as [<-|Hne].
      * rw list_lookup_insert_eq in Hqj; [|by eapply lookup_lt_Some]. simplify_eq.
        pose proof (Forall2_lookup_lr _ _ _ _ _ _ Hc Hj Hq) as Hh. simpl in Hh.
        unfold held in *. simpl. rw app_assoc. by destruct (past q ++ deque q).
      * rw list_lookup_insert_ne // in Hqj. exact (Forall2_lookup_lr _ _ _ _ _ _ Hc Hj Hqj).
    + destruct (decide (i = pivot_ s)) as [->|Hne].
      * rewrite Hm in Hq. injection Hq as <-. exists m, (d ++ [evt]). split; [|done]. simpl.
        apply list_lookup_insert_eq. by eapply lookup_lt_Some.
      * exists m, d. split; [|done]. simpl. by rw list_lookup_insert_ne.
Qed.

Lemma bound_check_spec i s q :
  basic_wf s -> queues_ s !! i = Some q -> deque q <> [] ->
  exists w, length w = 9%nat /\ checkInterMessageBound i s = Some (set_warned w s).
Proof.
  intros B Hq Hne. pose proof (wf_warned _ B) as Hw. pose proof (wf_bounds _ B) as Hbd.
  assert (i < 9)%nat as Hi.
  { apply lookup_lt_Some in Hq. pose proof (wf_topics _ B). unfold real_type_count in *. lia. }
  unfold checkInterMessageBound.
  assert (Some s = Some (set_warned (warned_about_incorrect_bound_ s) s)) as Hs by (by destruct s).
  destruct (lookup_lt_is_Some_2 (warned_about_incorrect_bound_ s) i) as [[] ->]; [lia| |];
    simpl; [by eexists|]. rw Hq.
  destruct (last (deque q)) as [m|] eqn:Hl; [|by apply last_None in Hl].
  destruct (lookup_lt_is_Some_2 (inter_message_lower_bounds_ s) i) as [b ->]; [lia|].
  match goal with |- context [match ?x with Some _ => _ | None => Some s end] => destruct x end;
    [|by eexists].
  case_match; [|by eexists]. eexists. split; [|done]. by rw length_insert.
Qed.

Lemma set_warned_step w s : step_ok s [] (set_warned w s).
Proof. apply step_quiet; [exact (flows_refl s)|done|done]. Qed.

Lemma set_warned_wf w s : length w = 9%nat -> approx_wf s -> approx_wf (set_warned w s).
Proof.
  intros Hw [[H1 H2 H3 H4 H5 H6] I S]. split; [by split|done|].
  intros P. destruct (S P) as [[C1 C2 C3] F]. by repeat split.
Qed.

(** The first half of [add]: the message is stored and the search goes on. *)
Lemma add_search_spec i evt s q :
  approx_idle s -> queues_ s !! i = Some q ->
  let s0 := set_queues (<[i := TopicQueue (deque q ++ [evt]) (past q)]> (queues_ s))
             (num_non_empty_deques_ s) s in
  exists s' published,
    (if is_empty (deque q) then
       let s1 := set_queues (queues_ s0) (u32 (num_non_empty_deques_ s0 + 1)) s0 in
       if num_non_empty_deques_ s1 =? Z.of_nat (real_type_count s1) then process s1 else Some (s1, [])
     else unwrap t := checkInterMessageBound i s0 orelse None; Some (t, []))
    = Some (s', published) /\
    approx_wf s' /\ step_ok (pushed i evt q s) published s' /\
    num_non_empty_deques_ s' <> Z.of_nat (real_type_count s').
Proof.
  intros [Hwf Hwait _] Hq s0. pose proof (wf_basic _ Hwf) as B.
  pose proof (pushed_wf i evt q s Hwf Hq) as Hp.
  pose proof (busy_insert _ _ _ (TopicQueue (deque q ++ [evt]) (past q)) Hq) as Hb.
  pose proof (busy_bound (queues_ s)) as Hbb. pose proof (wf_topics _ B) as Ht.
  pose proof (wf_count _ B) as Hn. unfold real_type_count in Ht.
  assert (busy (TopicQueue (deque q ++ [evt]) (past q)) = 1%nat) as Hb1.
  { unfold busy. simpl. by destruct (deque q). }
  destruct (is_empty (deque q)) eqn:He.
  - assert (set_queues (queues_ s0) (u32 (num_non_empty_deques_ s0 + 1)) s0 = pushed i evt q s) as ->.
    { assert (busy q = 0%nat) by (unfold busy; by rw He). unfold pushed.
      replace (Z.of_nat (sum_list_with busy _)) with (u32 (num_non_empty_deques_ s + 1)); [done|].
      unfold u32. rw Z.mod_small; lia. }
    cbv zeta. case_match eqn:Hfull.
    + destruct (process_spec _ Hp) as (s' & o & -> & W & T & Hne). by exists s', o.
    + apply Z.eqb_neq in Hfull. do 2 eexists. by split_and!; [|apply Hp|apply step_refl|].
  - assert (s0 = pushed i evt q s) as Hs0.
    { assert (busy q = 1%nat) by (unfold busy; by rw He). unfold pushed, s0. f_equal. lia. }
    rw Hs0. destruct (bound_check_spec i (pushed i evt q s) (TopicQueue (deque q ++ [evt]) (past q)))
      as (w & Hw & ->).
    + apply Hp.
    + simpl. apply list_lookup_insert_eq. by eapply lookup_lt_Some.
    + simpl. by destruct (deque q).
    + do 2 eexists. split_and!; [done|by apply set_warned_wf|apply set_warned_step|].
      rw -Hs0. unfold real_type_count, s0. simpl. by rw length_insert.
Qed.

Lemma recover_all_queues s :
  basic_wf s -> recover_all (queues_ s) 0 =
    ((fun q => TopicQueue (held q) []) <$> queues_ s,
     Z.of_nat (sum_list_with busy ((fun q => TopicQueue (held q) []) <$> queues_ s))).
Proof. intros B. rw recover_all_spec; [|done|by apply small_count]. f_equal. Qed.

Lemma not_searching_tight s : pivot_ s = NO_PIVOT -> tight s.
Proof. by intros Hp []. Qed.

(** The second half of [add], for a topic over the limit. *)
Lemma drop_oldest_spec i s q m1 m2 d :
  approx_wf s -> num_non_empty_deques_ s <> Z.of_nat (real_type_count s) ->
  queues_ s !! i = Some q -> held q = m1 :: m2 :: d ->
  exists s' published q', drop_oldest i s = Some (s', published) /\
    approx_wf s' /\ step_ok s published s' /\
    num_non_empty_deques_ s' <> Z.of_nat (real_type_count s') /\
    queues_ s' !! i = Some q' /\ (length (held q') <= S (length d))%nat.
Proof.
  intros [B I S] Hn Hq Hh. unfold drop_oldest. rw recover_all_queues //.
  rw list_lookup_fmap Hq. csimpl. rw Hh.
  set (qs := <[i := TopicQueue (m2 :: d) []]> ((fun q => TopicQueue (held q) []) <$> queues_ s)).
  set (num := Z.of_nat (sum_list_with busy ((fun q => TopicQueue (held q) []) <$> queues_ s))).
  assert (num = Z.of_nat (sum_list_with busy qs)) as Hnum.
  { unfold num, qs. f_equal. pose proof (busy_insert ((fun q => TopicQueue (held q) []) <$> queues_ s) i
      (TopicQueue (held q) []) (TopicQueue (m2 :: d) [])) as Hb.
    rw list_lookup_fmap Hq in Hb. specialize (Hb eq_refl). rw Hh in Hb. unfold busy in Hb at 2 4. simpl in Hb.
    lia. }
  assert (length qs = length (queues_ s)) as Hlen by (unfold qs; by rw length_insert length_fmap).
  assert (qs !! i = Some (TopicQueue (m2 :: d) [])) as Hqi.
  { unfold qs. apply list_lookup_insert_eq. rw length_fmap. by eapply lookup_lt_Some. }
  set (s1 := set_dropped (<[i := true]> (has_dropped_messages_ s)) (set_queues qs num s)).
  assert (basic_wf s1) as B1.
  { destruct (basic_set_queues s qs num B Hlen Hnum) as [H1 H2 H3 H4 H5 H6].
    split; try done. simpl. by rw length_insert. }
  assert (Forall (fun q : topic_queue M => past q = []) qs) as Hpast.
  { unfold qs. apply Forall_insert; [|done]. apply Forall_fmap, Forall_true. done. }
  assert (flows s [] s1) as Hflow.
  { eapply (flows_trans s [] (set_queues ((fun q => TopicQueue (held q) []) <$> queues_ s) num s) []).
    - eapply flows_fmap; [done|]. intros q'. by exists [].
    - eapply flows_insert with (i := i) (gone := [m1]); [|done|].
      + simpl. by rw list_lookup_fmap Hq.
      + unfold held at 1. simpl. by rw Hh. }
  destruct (Nat.eqb_spec (pivot_ s) NO_PIVOT) as [P|P].
  - exists s1, [], (TopicQueue (m2 :: d) []). split_and!; [done| | | |done|done].
    + split; [done| |done]. intros _. split; [|done]. by apply I.
    + apply step_quiet; [done|done|]. intros _. by apply not_searching_tight.
    + destruct (I P) as [_ Hidle]. unfold real_type_count in *. simpl. rw Hlen.
      assert ((fun q => TopicQueue (held q) []) <$> queues_ s = queues_ s) as Hsame.
      { apply list_eq. intros k. rw list_lookup_fmap. destruct (queues_ s !! k) as [[d' v']|] eqn:E;
          [|done]. pose proof (Forall_lookup_1 _ _ _ _ Hidle E) as Hv. simpl in Hv. by subst v'. }
      unfold num. rw Hsame. by rw -(wf_count _ B).
  - set (s2 := set_pivot _ _ _).
    assert (approx_wf s2) as W2.
    { split; [|done|done]. destruct B1 as [H1 H2 H3 H4 H5 H6]. by split. }
    destruct (process_spec s2 W2) as (s' & o & -> & W & T & Hne).
    destruct (st_flows _ _ _ T) as (_ & _ & Ff). destruct (Ff i _ Hqi) as (q' & gone & Hq' & Hg & _).
    exists s', o, q'. split_and!; [done|done| |done|done|].
    + apply (step_trans s [] s2); [|done]. apply step_quiet; [exact Hflow|done|].
      intros _. by apply not_searching_tight.
    + unfold held at 1 in Hg. simpl in Hg. apply (f_equal length) in Hg. rw length_app /= in Hg. lia.
Qed.

Lemma flows_bound s o s' (n : Z) (i : nat) :
  flows s o s' -> (forall j q, queues_ s !! j = Some q -> j <> i -> Z.of_nat (length (held q)) <= n) ->
  forall j q, queues_ s' !! j = Some q -> j <> i -> Z.of_nat (length (held q)) <= n.
Proof.
  intros (L & _ & F) Hb j q' Hq' Hne.
  destruct (lookup_lt_is_Some_2 (queues_ s) j) as [q Hq].
  { rw -L. by eapply lookup_lt_Some. }
  destruct (F j q Hq) as (q2 & gone & Hq2 & Hh & _). simplify_eq.
  pose proof (Hb j q Hq Hne) as Hn. rw Hh length_app in Hn. lia.
Qed.

Lemma held_pushed evt (q : topic_queue M) :
  held (TopicQueue (deque q ++ [evt]) (past q)) = held q ++ [evt].
Proof. unfold held. simpl. by rw app_assoc. Qed.

Lemma add_spec (i : nat) evt s q :
  approx_idle s -> queues_ s !! i = Some q ->
  exists s' published, add i evt s = Some (s', published) /\
    approx_idle s' /\ step_ok (pushed i evt q s) published s'.
Proof.
  intros Hid Hq. pose proof Hid as [Hwf _ Hbound]. unfold add. rw Hq.
  pose proof (add_search_spec i evt s q Hid Hq) as Hsearch. cbv zeta in Hsearch |- *.
  destruct Hsearch as (s1 & o1 & -> & W1 & T1 & N1). cbv beta iota.
  pose proof (st_flows _ _ _ T1) as F1. pose proof (st_config _ _ _ T1) as C1.
  pose proof (wf_queue_size _ (wf_basic _ Hwf)) as Hqs.
  pose proof (Forall_lookup_1 _ _ _ _ Hbound Hq) as Hlen. cbv beta in Hlen.
  assert (queues_ (pushed i evt q s) !! i = Some (TopicQueue (deque q ++ [evt]) (past q))) as Hpi.
  { simpl. apply list_lookup_insert_eq. by eapply lookup_lt_Some. }
  assert (forall j q', queues_ s1 !! j = Some q' -> j <> i ->
    Z.of_nat (length (held q')) <= queue_size_ s) as Hothers.
  { eapply flows_bound; [exact F1|]. intros j qj Hj Hne. simpl in Hj.
    rw list_lookup_insert_ne // in Hj. exact (Forall_lookup_1 _ _ _ _ Hbound Hj). }
  destruct (proj2 (proj2 F1) i _ Hpi) as (q1 & gone & Hq1 & Hg & _). rw Hq1.
  rw held_pushed in Hg. apply (f_equal length) in Hg.
  rw (length_app (held q)) (length_app gone) in Hg. cbn [length] in Hg.
  replace (length (deque q1) + length (past q1))%nat with (length (held q1))
    by (unfold held; rw length_app; lia).
  assert (queue_size_ s1 = queue_size_ s) as Hsz by apply C1.
  destruct (Z.ltb_spec (queue_size_ s1) (Z.of_nat (length (held q1)))) as [Hover|Hfits].
  - destruct (held q1) as [|m1 [|m2 d]] eqn:Hh; [simpl in Hover; lia|simpl in Hover; lia|].
    destruct (drop_oldest_spec i s1 q1 m1 m2 d W1 N1 Hq1 Hh)
      as (s2 & o2 & q2 & -> & W2 & T2 & N2 & Hq2 & Hl2).
    do 2 eexists. split; [done|]. split; [|by eapply step_trans].
    pose proof (st_config _ _ _ T2) as C2.
    assert (queue_size_ s2 = queue_size_ s) as Hsz2 by (rw -Hsz; apply C2).
    split; [done|done|]. apply Forall_lookup. intros j qj Hj. rw Hsz2.
    destruct (decide (j = i)) as [->|Hne].
    + simplify_eq. cbn [fst] in Hj. simplify_eq. cbn [length] in Hg. lia.
    + exact (flows_bound _ _ _ _ _ (st_flows _ _ _ T2) Hothers j qj Hj Hne).
  - do 2 eexists. split; [done|]. split; [|done]. split; [done|done|].
    apply Forall_lookup. intros j qj Hj. rw Hsz. destruct (decide (j = i)) as [->|Hne].
    + simplify_eq. lia.
    + by eapply Hothers.
Qed.

(** ** Runs *)

Inductive approx_call :=
  | Add (i : nat) (evt : M)
  | SetAgePenalty (p : double)
  | SetInterMessageLowerBound (i : nat) (b : Z)
  | SetMaxIntervalDuration (d : Z).

(** The arguments the assertions of the setters ask for, and a topic the synchronizer has. *)
Definition call_ok (n : nat) (c : approx_call) : Prop :=
  match c with
  | Add i _ => (i < n)%nat
  | SetAgePenalty p => non_negative p = true
  | SetInterMessageLowerBound i b => (i < n)%nat /\ 0 <= b
  | SetMaxIntervalDuration d => 0 <= d
  end.

Definition exec_call (c : approx_call) s : option (approx M double * list (list M)) :=
  match c with
  | Add i evt => add i evt s
  | SetAgePenalty p => (fun s => (s, [])) <$> setAgePenalty p s
  | SetInterMessageLowerBound i b => (fun s => (s, [])) <$> setInterMessageLowerBound i b s
  | SetMaxIntervalDuration d => (fun s => (s, [])) <$> setMaxIntervalDuration d s
  end.

Fixpoint run (cs : list approx_call) s : option (approx M double * list (list M)) :=
  match cs with
  | [] => Some (s, [])
  | c :: cs =>
      unwrap r := exec_call c s orelse None;
      unwrap r' := run cs r.1 orelse None;
      Some (r'.1, r.2 ++ r'.2)
  end.

(** The messages a run adds to topic [i]. *)
Definition input_of (i : nat) (c : approx_call) : option M :=
  match c with Add j evt => if decide (j = i) then Some evt else None | _ => None end.
Definition inputs (i : nat) (cs : list approx_call) : list M := omap (input_of i) cs.

(** What a run has done with the messages of topic [i] since it held [before]. *)
Definition run_flows (before : nat -> list M) (cs : list approx_call) (published : list (list M)) s :=
  forall i q, queues_ s !! i = Some q -> exists gone,
    before i ++ inputs i cs = gone ++ held q /\ omap (.!! i) published `sublist_of` gone.

Lemma new_approx_idle n p queue_size :
  (2 <= n <= 9)%nat -> 1 <= queue_size -> approx_idle (new_approx n p queue_size).
Proof.
  intros Hn Hq.
  assert (sum_list_with busy (replicate n (TopicQueue (M := M) [] [])) = 0%nat) as Hz.
  { clear Hn. induction n; simpl; [done|]. by rw IHn. }
  split; [split; [split| |done]| |]; unfold real_type_count; simpl.
  - by rw Hz.
  - by rw length_replicate.
  - done.
  - done.
  - done.
  - done.
  - intros _. split; [done|]. apply Forall_replicate. done.
  - rw length_replicate. lia.
  - apply Forall_replicate. simpl. lia.
Qed.

(** The setters change the configuration alone. *)
Lemma setter_idle s s' :
  approx_idle s -> queues_ s' = queues_ s -> num_non_empty_deques_ s' = num_non_empty_deques_ s ->
  candidate_ s' = candidate_ s -> candidate_start_ s' = candidate_start_ s ->
  candidate_end_ s' = candidate_end_ s -> pivot_ s' = pivot_ s -> pivot_time_ s' = pivot_time_ s ->
  queue_size_ s' = queue_size_ s -> has_dropped_messages_ s' = has_dropped_messages_ s ->
  length (inter_message_lower_bounds_ s') = length (inter_message_lower_bounds_ s) ->
  warned_about_incorrect_bound_ s' = warned_about_incorrect_bound_ s -> approx_idle s'.
Proof.
  intros [[[? ? ? ? ? ?] I S] N B] E1 E2 E3 E4 E5 E6 E7 E8 E9 E10 E11.
  split; [split; [split| |]| |]; unfold real_type_count in *;
    rw ?E1 ?E2 ?E3 ?E6 ?E8 ?E9 ?E10 ?E11; try done.
  intros P. destruct (S P) as [[C1 C2 C3] F].
  split; [split|]; unfold pivot_in_front in *; by rw ?E1 ?E3 ?E4 ?E5 ?E6 ?E7.
Qed.

Lemma exec_call_spec c s :
  approx_idle s -> call_ok (real_type_count s) c ->
  exists s' published, exec_call c s = Some (s', published) /\ approx_idle s' /\
    real_type_count s' = real_type_count s /\ queue_size_ s' = queue_size_ s /\
    Forall (fun set => length set = real_type_count s) published /\
    run_flows (fun i => from_option held [] (queues_ s !! i)) [c] published s'.
Proof.
  intros Hid Hc.
  assert (forall s', approx_idle s' -> queues_ s' = queues_ s -> queue_size_ s' = queue_size_ s ->
    (forall i, input_of i c = None) ->
    exists s'' published, Some (s', []) = Some (s'', published) /\ approx_idle s'' /\
      real_type_count s'' = real_type_count s /\ queue_size_ s'' = queue_size_ s /\
      Forall (fun set => length set = real_type_count s) published /\
      run_flows (fun i => from_option held [] (queues_ s !! i)) [c] published s'') as Hset.
  { intros s' Hid' Hqs Hsz Hin. do 2 eexists. split; [done|]. unfold real_type_count. rw Hqs.
    do 4 (split; [done|]). intros i q Hq. exists []. rw Hqs in Hq. rw Hq. csimpl.
    unfold inputs. csimpl. rw Hin app_nil_r. done. }
  destruct c as [i evt|p|i b|d]; simpl.
  - destruct (lookup_lt_is_Some_2 (queues_ s) i Hc) as [q Hq].
    destruct (add_spec i evt s q Hid Hq) as (s' & o & -> & Hid' & T).
    pose proof (st_flows _ _ _ T) as (L & A & F). simpl in L, A. rw length_insert in L.
    do 2 eexists. split_and!; [done|done|done|apply T| |].
    + eapply Forall_impl; [exact A|]. intros set ->. by rw length_insert.
    + intros j qj Hj. destruct (lookup_lt_is_Some_2 (queues_ s) j) as [q0 Hq0].
      { rw -L. by eapply lookup_lt_Some. }
      unfold inputs. csimpl. rw Hq0. csimpl. destruct (decide (i = j)) as [<-|Hne].
      * simplify_eq. destruct (F i (TopicQueue (deque q ++ [evt]) (past q))) as (q2 & gone & Hq2 & Hg & Hs).
        { simpl. apply list_lookup_insert_eq. by eapply lookup_lt_Some. }
        simplify_eq. exists gone. rw held_pushed in Hg. done.
      * destruct (F j q0) as (q2 & gone & Hq2 & Hg & Hs); [simpl; by rw list_lookup_insert_ne|].
        simplify_eq. exists gone. by rw app_nil_r.
  - unfold setAgePenalty. rw Hc. csimpl. apply Hset; [|done|done|done]. by apply (setter_idle s).
  - destruct Hc as [Hi Hb]. unfold setInterMessageLowerBound.
    rw (proj2 (Nat.ltb_lt _ _) Hi) (proj2 (Z.leb_le _ _) Hb). csimpl. apply Hset; [|done|done|done].
    apply (setter_idle s); try done. simpl. by rw length_insert.
  - unfold setMaxIntervalDuration. rw (proj2 (Z.leb_le _ _) Hc). csimpl. apply Hset; [|done|done|done].
    by apply (setter_idle s).
Qed.

Lemma run_spec cs s :
  approx_idle s -> Forall (call_ok (real_type_count s)) cs ->
  exists s' published, run cs s = Some (s', published) /\ approx_idle s' /\
    real_type_count s' = real_type_count s /\ queue_size_ s' = queue_size_ s /\
    Forall (fun set => length set = real_type_count s) published /\
    run_flows (fun i => from_option held [] (queues_ s !! i)) cs published s'.
Proof.
  revert s. induction cs as [|c cs IH]; intros s Hid Hcs; cbn [run].
  { do 2 eexists. split_and!; [done|done|done|done|done|]. intros i q Hq. exists []. rw Hq. csimpl.
    by rw app_nil_r. }
  inv Hcs. destruct (exec_call_spec c s Hid) as (s1 & o1 & -> & I1 & N1 & Z1 & A1 & F1); [done|].
  cbn [fst snd]. destruct (IH s1 I1) as (s2 & o2 & -> & I2 & N2 & Z2 & A2 & F2); [by rw N1|].
  do 2 eexists. split; [done|]. cbn [fst snd]. split_and!; [done|by rw N2|by rw Z2| |].
  { apply Forall_app. split; [done|]. by rw -N1. }
  intros i q Hq. destruct (F2 i q Hq) as (g2 & E2 & S2).
  destruct (lookup_lt_is_Some_2 (queues_ s1) i) as [q1 Hq1].
  { apply lookup_lt_Some in Hq. unfold real_type_count in *. lia. }
  destruct (F1 i q1 Hq1) as (g1 & E1 & S1). rw Hq1 /= in E2.
  exists (g1 ++ g2). split.
  - change (inputs i (c :: cs)) with (inputs i ([c] ++ cs)). unfold inputs in *.
    rw omap_app app_assoc E1 -app_assoc E2. by rw app_assoc.
  - rw omap_lookup_app. by apply sublist_app.
Qed.

(** ** Runs with stamps in order *)

(** The messages a run adds to a topic carry on from those held, stamps not decreasing. *)
Definition ordered_from s (cs : list approx_call) : Prop :=
  forall i q, queues_ s !! i = Some q ->
    StronglySorted Z.le (stamp <$> held q ++ inputs i cs).

Definition is_add (c : approx_call) : Prop := match c with Add _ _ => True | _ => False end.

Lemma strongly_sorted_prefix (l1 l2 : list Z) :
  StronglySorted Z.le (l1 ++ l2) -> StronglySorted Z.le l1.
Proof.
  induction l1 as [|x l1 IH]; intros Hs; [constructor|]. inv Hs. constructor; [auto|].
  by apply Forall_app in H3 as [? _].
Qed.

Lemma ordered_pushed i evt q s cs :
  queues_ s !! i = Some q -> ordered_from s (Add i evt :: cs) -> ordered_from (pushed i evt q s) cs.
Proof.
  intros Hq Ho j qj Hj. simpl in Hj. destruct (decide (i = j)) as [<-|Hne].
  - rw list_lookup_insert_eq in Hj; [|by eapply lookup_lt_Some]. simplify_eq.
    specialize (Ho _ _ Hq). unfold inputs in *. csimpl in Ho. rw decide_True // in Ho.
    rw held_pushed. by rw -app_assoc.
  - rw list_lookup_insert_ne // in Hj. specialize (Ho _ _ Hj). unfold inputs in *.
    csimpl in Ho. by rw decide_False // in Ho.
Qed.

Lemma ordered_flows s o s' cs : flows s o s' -> ordered_from s cs -> ordered_from s' cs.
Proof.
  intros (L & _ & F) Ho i q' Hq'.
  destruct (lookup_lt_is_Some_2 (queues_ s) i) as [q Hq].
  { rw -L. by eapply lookup_lt_Some. }
  destruct (F i q Hq) as (q2 & gone & Hq2 & Hh & _). simplify_eq.
  specialize (Ho i q Hq). rw Hh -app_assoc fmap_app in Ho. by eapply sorted_suffix.
Qed.

Lemma ordered_in_order s cs : ordered_from s cs -> in_order s.
Proof.
  intros Ho. apply Forall_lookup. intros i q Hq. specialize (Ho i q Hq). rw fmap_app in Ho.
  by eapply strongly_sorted_prefix.
Qed.

Lemma tight_pushed i evt q s : tight s -> tight (pushed i evt q s).
Proof. done. Qed.

Lemma run_tight cs s s' published :
  approx_idle s -> Forall is_add cs -> Forall (call_ok (real_type_count s)) cs ->
  scale_grows s -> ordered_from s cs -> tight s -> run cs s = Some (s', published) ->
  Forall (within (max_interval_duration_ s)) published.
Proof.
  revert s s' published.
  induction cs as [|c cs IH]; intros s s' o Hid Ha Hc Hs Ho Ht Hrun; cbn [run] in Hrun.
  { by simplify_eq. }
  inv Ha. inv Hc. destruct c as [i evt|p|i b|d]; try done. cbn [exec_call] in Hrun.
  destruct (lookup_lt_is_Some_2 (queues_ s) i) as [q Hq]; [done|].
  destruct (add_spec i evt s q Hid Hq) as (s1 & o1 & E & Hid1 & [F C T]). rw E in Hrun.
  cbn [fst snd] in Hrun. destruct (run cs s1) as [[s2 o2]|] eqn:E2; [|done].
  injection Hrun as <- <-. cbn [fst snd].
  pose proof (ordered_pushed _ _ _ _ _ Hq Ho) as Ho1.
  destruct (T (ordered_in_order _ _ Ho1) Hs Ht) as [Ht1 W1].
  destruct C as (_ & Cm & Ca & _). simpl in Cm, Ca. apply Forall_app. split; [done|].
  rw -Cm. eapply (IH s1); try done.
  - pose proof (proj1 F) as L. simpl in L. rw length_insert in L. unfold real_type_count in *.
    by rw L.
  - unfold scale_grows. rw Ca. exact Hs.
  - by eapply ordered_flows.
Qed.

(** ** Messages that match exactly *)

(** A policy that holds no message and has dropped none since the topics last matched, as a new
    one, configured in any way the setters allow. *)
Record approx_quiet n s : Prop := {
  qu_basic : basic_wf s;
  qu_queues : queues_ s = replicate n (TopicQueue [] []);
  qu_pivot : pivot_ s = NO_PIVOT;
  qu_dropped : Forall (fun b => b = false) (has_dropped_messages_ s);
  qu_max : 0 <= max_interval_duration_ s;
  qu_scale : 0 <= scale (age_penalty_ s) 0
}.

Definition singles (set : list M) : list (topic_queue M) := (fun m => TopicQueue [m] []) <$> set.

(** The messages of [set] on the topics [A] have arrived. *)
Definition arrived (A : list nat) (set : list M) : list (topic_queue M) :=
  imap (fun i m => TopicQueue (if decide (i ∈ A) then [m] else []) []) set.

Definition partly (set : list M) (A : list nat) s : approx M double :=
  set_queues (arrived A set) (Z.of_nat (length A)) s.

Definition complete (n : nat) (set : list M) s : approx M double :=
  set_queues (singles set) (Z.of_nat n) s.

Lemma length_arrived A set : length (arrived A set) = length set.
Proof. apply length_imap. Qed.

Lemma arrived_lookup A set i m :
  set !! i = Some m ->
  arrived A set !! i = Some (TopicQueue (if decide (i ∈ A) then [m] else []) []).
Proof. intros Hm. unfold arrived. by rw list_lookup_imap Hm. Qed.

Lemma arrived_push A set i m :
  set !! i = Some m -> <[i := TopicQueue [m] []]> (arrived A set) = arrived (A ++ [i]) set.
Proof.
  intros Hm. pose proof (lookup_lt_Some _ _ _ Hm). apply list_eq. intros j.
  destruct (decide (i = j)) as [<-|Hne].
  - rw list_lookup_insert_eq; [|by rw length_arrived]. rw (arrived_lookup _ _ _ _ Hm).
    rw decide_True; [done|]. apply elem_of_app. right. by left.
  - rw list_lookup_insert_ne //. unfold arrived. rw !list_lookup_imap.
    destruct (set !! j) as [x|]; [|done]. simpl. do 2 f_equal. apply decide_ext.
    rewrite elem_of_app list_elem_of_singleton. naive_solver.
Qed.

Lemma arrived_all A set : (forall i, (i < length set)%nat -> i ∈ A) -> arrived A set = singles set.
Proof.
  intros Hall. apply list_eq. intros j. unfold arrived, singles. rw list_lookup_imap list_lookup_fmap.
  destruct (set !! j) as [m|] eqn:Hj; [|done]. simpl. rw decide_True; [done|].
  apply Hall. by eapply lookup_lt_Some.
Qed.

Lemma arrived_none set : arrived [] set = replicate (length set) (TopicQueue [] []).
Proof.
  apply list_eq. intros j. unfold arrived. rw list_lookup_imap.
  destruct (set !! j) as [m|] eqn:Hj; simpl.
  - symmetry. apply lookup_replicate_2. by eapply lookup_lt_Some.
  - symmetry. apply lookup_replicate_None. by apply lookup_ge_None.
Qed.

Lemma add_partly n set A i s m :
  approx_quiet n s -> set !! i = Some m -> i ∉ A -> (S (length A) < length set)%nat -> length set = n ->
  add i m (partly set A s) = Some (partly set (A ++ [i]) s, []).
Proof.
  intros [B Hqs P D Hmax Hsc] Hm Hi Hk Hn. unfold add. cbn [queues_ partly set_queues].
  rw (arrived_lookup _ _ _ _ Hm). rw decide_False; [|done].
  cbn [is_empty deque app past]. rw (arrived_push _ _ _ _ Hm).
  pose proof (wf_topics _ B) as Ht. unfold real_type_count in Ht. rw Hqs length_replicate in Ht.
  pose proof (wf_queue_size _ B) as Hsz.
  cbn [set_queues queues_ num_non_empty_deques_ partly]. unfold u32 at 1.
  rw Z.mod_small; [|lia]. unfold real_type_count. cbn [queues_]. rw length_arrived.
  rw (proj2 (Z.eqb_neq _ _)); [|lia]. cbv beta iota zeta.
  cbn [set_queues queues_ queue_size_ partly]. rw (arrived_lookup _ _ _ _ Hm).
  rw decide_True; [|apply elem_of_app; right; by left].
  cbn [queue_size_ deque past length]. rw (proj2 (Z.ltb_ge _ _)); [|lia].
  assert (u32 (Z.of_nat (length A) + 1) = Z.of_nat (length (A ++ [i]))) as ->; [|done].
  rw length_app. unfold u32. rw Z.mod_small; simpl; lia.
Qed.

Lemma heads_singles set : mapM (fun q => head (deque q)) (singles set) = Some set.
Proof. induction set as [|m set IH]; [done|]. csimpl. rw IH. done. Qed.

Lemma singles_moved set i m :
  set !! i = Some m ->
  (fun q => TopicQueue (tail (held q)) []) <$> (<[i := TopicQueue [] [m]]> (singles set)) =
  replicate (length set) (TopicQueue [] []).
Proof.
  intros Hm. apply list_eq. intros j. rw list_lookup_fmap.
  destruct (decide (i = j)) as [<-|Hne].
  - pose proof (lookup_lt_Some _ _ _ Hm).
    rw list_lookup_insert_eq; [|unfold singles; by rw length_fmap]. symmetry.
    by apply lookup_replicate_2.
  - rw list_lookup_insert_ne //. unfold singles. rw list_lookup_fmap.
    destruct (set !! j) as [m'|] eqn:Hj; simpl.
    + symmetry. apply lookup_replicate_2. by eapply lookup_lt_Some.
    + symmetry. apply lookup_replicate_None. by apply lookup_ge_None.
Qed.

Lemma clear_dropped_false n e l :
  Forall (fun b => b = false) l -> clear_dropped n e l = l.
Proof.
  intros Hl. apply list_eq. intros i. unfold clear_dropped. rw list_lookup_imap.
  destruct (l !! i) as [b|] eqn:E; [|done]. pose proof (Forall_lookup_1 _ _ _ _ Hl E) as Hb.
  simpl in *. subst b. by case_match.
Qed.

(** A complete set is published at once. *)
Lemma process_singles n set s t :
  approx_quiet n s -> length set = n -> Forall (fun m => stamp m = t) set ->
  exists s', process (complete n set s) = Some (s', [set]) /\ approx_quiet n s' /\ same_config s s'.
Proof.
  intros [B Hqs P D Hmax Hsc] Hn Hall.
  pose proof (wf_topics _ B) as Ht. unfold real_type_count in Ht. rw Hqs length_replicate in Ht.
  assert (queues_ (complete n set s) = singles set) as Hq by done.
  assert (length (singles set) = n) as Hls by (unfold singles; by rw length_fmap).
  assert (basic_wf (complete n set s)) as B1.
  { destruct B as [H1 H2 H3 H4 H5 H6]. split; try done.
    - rw Hq. simpl. f_equal. symmetry. rw -Hls. apply all_busy. apply Forall_fmap, Forall_true. done.
    - unfold real_type_count. by rw Hq Hls. }
  assert (Forall (fun q => deque q <> []) (singles set)) as Hfull
    by (apply Forall_fmap, Forall_true; done).
  assert (forall j m d v, singles set !! j = Some (TopicQueue (m :: d) v) ->
    set !! j = Some m /\ d = [] /\ v = [] /\ stamp m = t) as Hfront.
  { intros j m d v Hj. unfold singles in Hj. rw list_lookup_fmap in Hj.
    destruct (set !! j) as [m'|] eqn:E; [|done]. simplify_eq/=. split_and!; try done.
    exact (Forall_lookup_1 _ _ _ _ Hall E). }
  unfold process. set (fuel := (stored _ * _ + _)%nat).
  assert (exists fuel', fuel = S fuel') as [fuel' ->].
  { assert (0 < fuel)%nat as Hf; [|by destruct fuel; [lia|eexists]].
    assert (sum_list_with busy (singles set) <= waiting (complete n set s))%nat as Hw.
    { unfold waiting. rw Hq. apply sum_list_le. intros q _. unfold busy.
      destruct (deque q); simpl; lia. }
    rw (proj2 (all_busy _) Hfull) Hls in Hw. unfold fuel. lia. }
  cbn [process_loop]. unfold real_type_count at 1. rw Hq Hls. rw Z.eqb_refl.
  destruct (interval_spec (complete n set s)) as (ei & et & si & st & He & Hs & _ & Hei & Hsi).
  { rw Hq. intros Hnil. rw Hnil /= in Hls. lia. }
  { by rw Hq. }
  rw Hq in Hei. rw Hq in Hsi.
  destruct Hei as (me & de & ve & Hei & Het), Hsi as (ms & ds & vs & Hsi).
  destruct (Hfront _ _ _ _ Hei) as (Hse & -> & -> & Hte).
  destruct (Hfront _ _ _ _ Hsi) as (Hss & -> & -> & Hts).
  assert (st = t) as ->.
  { destruct (candidate_boundary_spec false (complete n set s)) as (si' & st' & Hs' & (m & d & v & Hj & Hm) & _).
    - rw Hq. intros Hnil. rw Hnil /= in Hls. lia.
    - by rw Hq.
    - rw Hs in Hs'. injection Hs' as <- <-. rw Hq in Hj.
      destruct (Hfront _ _ _ _ Hj) as (_ & _ & _ & Hx). congruence. }
  assert (et = t) as -> by congruence.
  unfold process_body. rw He Hs. cbn [has_dropped_messages_ complete set_queues].
  rw clear_dropped_false //.
  assert (set_dropped (has_dropped_messages_ s) (complete n set s) = complete n set s) as ->
    by (by destruct s).
  assert (ei < 9)%nat as Hei9 by (apply lookup_lt_Some in Hse; lia).
  cbn [pivot_ complete set_queues]. rw P. cbn [Nat.eqb NO_PIVOT].
  destruct (lookup_lt_is_Some_2 (has_dropped_messages_ s) ei) as [b Hb]; [by rw (wf_dropped _ B)|].
  pose proof (Forall_lookup_1 _ _ _ _ D Hb) as Hbf. simpl in Hbf. subst b.
  assert (has_dropped_messages_ (complete n set s) !! ei = Some false) as -> by exact Hb.
  assert (max_interval_duration_ (complete n set s) = max_interval_duration_ s) as -> by done.
  rw Z.sub_diag (proj2 (Z.ltb_ge _ _) Hmax). cbn [orb].
  unfold makeCandidate. rw Hq heads_singles.
  assert (((fun q => TopicQueue (deque q) []) <$> singles set) = singles set) as ->.
  { unfold singles. rw -list_fmap_compose. apply list_fmap_ext. done. }
  unfold dequeMoveFrontToPast. cbn [queues_ set_pivot set_candidate set_queues]. rw Hsi.
  cbn [deque past is_empty app].
  set (s2 := set_queues _ _ _).
  assert (has_candidate s2) as C2.
  { split.
    - simpl. apply Forall2_same_length_lookup. split; [by rw length_insert Hls|].
      intros j c q Hc Hj. destruct (decide (si = j)) as [<-|Hne].
      + rw list_lookup_insert_eq in Hj; [|rw Hls; by eapply lookup_lt_Some in Hss; lia].
        simplify_eq. done.
      + rw list_lookup_insert_ne // in Hj. unfold singles in Hj.
        rw list_lookup_fmap Hc in Hj. simplify_eq/=. done.
    - simpl. eapply Forall_impl; [exact Hall|]. simpl. lia.
    - simpl. exists me. split; [by eapply list_elem_of_lookup_2|done]. }
  assert (publishCandidate s2 = Some (set_queues (replicate n (TopicQueue [] [])) 0
    (set_pivot NO_PIVOT t (set_candidate [] t t s2)), [set])) as Hpub.
  { unfold publishCandidate. rw recover_and_delete_spec; [|lia| |by apply candidate_held].
    - cbn [fst snd queues_ s2 set_queues]. rw (singles_moved _ _ _ Hss) Hn.
      assert (sum_list_with busy (replicate n (TopicQueue (M := M) [] [])) = 0%nat) as ->; [|done].
      clear. induction n; simpl; [done|]. done.
    - simpl. rw length_insert Hls. lia. }
  unfold check_candidate. assert (pivot_ s2 = ei) as -> by done.
  rw (proj2 (Nat.eqb_neq ei NO_PIVOT)); [|unfold NO_PIVOT; lia]. cbn [negb].
  assert (forall b : bool, (if b then publishCandidate s2 else
    if pivot_time_ s2 - candidate_start_ s2 <=? scale (age_penalty_ s2) (t - candidate_end_ s2)
    then publishCandidate s2
    else if num_non_empty_deques_ s2 <? Z.of_nat (real_type_count s2)
      then virtual_search (virtual_fuel s2) (num_non_empty_deques_ s2) (replicate 9 0%nat) s2
      else Some (s2, [])) = publishCandidate s2) as ->.
  { intros []; [done|]. simpl. rw Z.sub_diag (proj2 (Z.leb_le _ _) Hsc). done. }
  rw Hpub. cbn [fst snd].
  set (s3 := set_queues _ _ _).
  assert (process_loop fuel' s3 = Some (s3, [])) as ->.
  { assert ((num_non_empty_deques_ s3 =? Z.of_nat (real_type_count s3)) = false) as Hex.
    { apply Z.eqb_neq. unfold real_type_count. simpl. rw length_replicate. lia. }
    destruct fuel'; cbn [process_loop]; by rw Hex. }
  exists s3. split; [done|]. split; [|done].
  destruct B as [H1 H2 H3 H4 H5 H6]. split; try done. split; try done.
  - simpl. clear. induction n; simpl; [done|]. done.
  - unfold real_type_count in *. simpl. by rw length_replicate.
Qed.

(** So it is when its last message arrives, whichever topic that is of. *)
Lemma add_last n set A i s t m :
  approx_quiet n s -> length set = n -> Forall (fun m => stamp m = t) set ->
  set !! i = Some m -> i ∉ A -> A ++ [i] ≡ₚ seq 0 n ->
  exists s', add i m (partly set A s) = Some (s', [set]) /\ approx_quiet n s' /\ same_config s s'.
Proof.
  intros Hqu Hn Hall Hm Hi Hp. pose proof (lookup_lt_Some _ _ _ Hm) as Hlt.
  destruct (process_singles n set s t Hqu Hn Hall) as (s' & Hproc & Hqu' & Hc).
  pose proof Hqu as [B Hqs _ _ _ _].
  pose proof (wf_topics _ B) as Ht. unfold real_type_count in Ht. rw Hqs length_replicate in Ht.
  pose proof (Permutation_length Hp) as Hl. rewrite length_app length_seq in Hl. simpl in Hl.
  unfold add. cbn [queues_ partly set_queues]. rw (arrived_lookup _ _ _ _ Hm). rw decide_False; [|done].
  cbn [is_empty deque app past]. rw (arrived_push _ _ _ _ Hm). rw (arrived_all (A ++ [i])).
  2: { intros j Hj. rw Hp. apply elem_of_seq. lia. }
  assert (u32 (Z.of_nat (length A) + 1) = Z.of_nat n) as Hnum by (unfold u32; rw Z.mod_small; lia).
  cbn [set_queues queues_ num_non_empty_deques_]. rw Hnum.
  unfold real_type_count. cbn [queues_]. unfold singles at 1. rw length_fmap Hn Z.eqb_refl. cbv beta iota zeta.
  change (set_queues _ (Z.of_nat n) _) with (complete n set s). rw Hproc.
  rw (qu_queues _ _ Hqu'). assert (replicate n (TopicQueue (M := M) [] []) !! i = Some (TopicQueue [] [])) as ->
    by (apply lookup_replicate_2; lia).
  cbn [deque past length]. rw (proj2 (Z.ltb_ge _ _));
    [|pose proof (wf_queue_size _ (qu_basic _ _ Hqu')); lia].
  by exists s'.
Qed.

(** The calls of a round: the messages of [set], on the topics in the order [order]. *)
Definition round_calls (order : list nat) (set : list M) : list approx_call :=
  omap (fun i => Add i <$> set !! i) order.

Lemma run_round n set s t A rest :
  approx_quiet n s -> length set = n -> Forall (fun m => stamp m = t) set ->
  A ++ rest ≡ₚ seq 0 n -> rest <> [] ->
  exists s', run (round_calls rest set) (partly set A s) = Some (s', [set]) /\ approx_quiet n s' /\
    same_config s s'.
Proof.
  intros Hqu Hn Hall. revert A. induction rest as [|i rest IH]; intros A Hp Hne; [done|].
  assert (i < n)%nat as Hi.
  { assert (i ∈ seq 0 n) as Hi%elem_of_seq; [|lia]. rw -Hp. apply elem_of_app. right. by left. }
  assert (NoDup (A ++ i :: rest)) as Hnd by (rw Hp; apply NoDup_seq).
  assert (i ∉ A) as HiA. { apply NoDup_app in Hnd as (_ & Hx & _). intros Hin. apply (Hx i Hin). by left. }
  destruct (lookup_lt_is_Some_2 set i) as [m Hm]; [lia|].
  unfold round_calls. csimpl. rw Hm. csimpl. cbn [run exec_call].
  pose proof (Permutation_length Hp) as Hl. rewrite length_app length_seq in Hl. simpl in Hl.
  destruct rest as [|j rest].
  - destruct (add_last n set A i s t m Hqu Hn Hall Hm HiA Hp) as (s' & -> & Hq & Hc). cbn [fst snd].
    simpl. by exists s'.
  - simpl in Hl. rw (add_partly n set A i s m Hqu Hm HiA); [|lia|done]. cbn [fst snd].
    destruct (IH (A ++ [i])) as (s' & Hrun & Hq & Hc); [by rw -app_assoc|done|].
    unfold round_calls in Hrun. rw Hrun. by exists s'.
Qed.

Lemma run_app cs1 cs2 s s1 o1 s2 o2 :
  run cs1 s = Some (s1, o1) -> run cs2 s1 = Some (s2, o2) -> run (cs1 ++ cs2) s = Some (s2, o1 ++ o2).
Proof.
  revert s o1. induction cs1 as [|c cs1 IH]; intros s o1 H1 H2; csimpl.
  { by simplify_eq/=. }
  cbn [run] in H1. destruct (exec_call c s) as [[s' o]|]; [|done]. cbn [fst snd] in *.
  destruct (run cs1 s') as [[s'' o']|] eqn:E; [|done]. simplify_eq/=.
  rw (IH _ _ E H2) /=. by rw app_assoc.
Qed.

Lemma partly_0 n set s : approx_quiet n s -> length set = n -> partly set [] s = s.
Proof.
  intros [B Hqs _ _ _ _] Hn. unfold partly. rw arrived_none Hn -Hqs.
  assert (num_non_empty_deques_ s = Z.of_nat 0) as Hz.
  { rw (wf_count _ B) Hqs. f_equal. clear. induction n; simpl; [done|]. done. }
  rw /= -Hz. by destruct s.
Qed.

(** A round: one message of each topic, all with the same stamp, in any order of the topics. *)
Definition exact_round (n : nat) (r : list nat * list M) : Prop :=
  r.1 ≡ₚ seq 0 n /\ length r.2 = n /\ exists t, Forall (fun m => stamp m = t) r.2.

Lemma run_rounds n rounds s :
  approx_quiet n s -> Forall (exact_round n) rounds ->
  exists s', run (concat ((fun r => round_calls r.1 r.2) <$> rounds)) s = Some (s', rounds.*2) /\
    approx_quiet n s'.
Proof.
  revert s. induction rounds as [|[order set] rounds IH]; intros s Hqu Hr; [by exists s|].
  apply Forall_cons in Hr as [(Hp & Hn & t & Hall) Hr]. simpl in Hp, Hn, Hall.
  assert (order <> []) as Hne.
  { pose proof (wf_topics _ (qu_basic _ _ Hqu)) as Ht. unfold real_type_count in Ht.
    rw (qu_queues _ _ Hqu) length_replicate in Ht. intros ->. apply Permutation_length in Hp.
    rewrite length_seq in Hp. simpl in Hp. lia. }
  destruct (run_round n set s t [] order Hqu Hn Hall Hp Hne) as (s1 & H1 & Hq1 & _).
  rewrite (partly_0 n) // in H1. destruct (IH s1 Hq1 Hr) as (s2 & Hr2 & Hq2).
  exists s2. split; [|done]. csimpl. exact (run_app _ _ _ _ _ _ _ H1 Hr2).
Qed.

Lemma new_approx_quiet n p queue_size :
  (2 <= n <= 9)%nat -> 1 <= queue_size -> 0 <= scale p 0 ->
  approx_quiet n (new_approx n p queue_size).
Proof.
  intros Hn Hq Hs. pose proof (new_approx_idle n p queue_size Hn Hq) as [[B _ _] _ _].
  split; try done. apply Forall_replicate. done.
Qed.
End proofs.

(** ** Theorems *)

Section theorems.
Context {M double : Type} `{TimeModel M double}.

(** C17. Whatever messages arrive in whatever order of stamps, and however the policy is reconfigured
    between them with arguments that the setters document (topics it has, bounds, intervals and penalties
    that are not negative), no assertion of the policy fails, every search ends, and after each call some
    topic is exhausted and none holds more than [queue_size] messages. *)
Theorem approx_time_never_fails n penalty queue_size cs :
  (2 <= n <= 9)%nat -> 1 <= queue_size -> Forall (call_ok (M := M) n) cs ->
  exists s published, run cs (new_approx n penalty queue_size) = Some (s, published) /\
    Forall (fun q => Z.of_nat (length (past q) + length (deque q)) <= queue_size) (queues_ s) /\
    Exists (fun q => deque q = []) (queues_ s).
Proof.
  intros Hn Hq Hc. pose proof (new_approx_idle (M := M) n penalty queue_size Hn Hq) as Hid.
  assert (real_type_count (new_approx (M := M) n penalty queue_size) = n) as Hrt
    by (unfold real_type_count; simpl; apply length_replicate).
  destruct (run_spec cs (new_approx n penalty queue_size) Hid) as (s & o & Hrun & Hid' & _ & Hqs & _);
    [by rw Hrt|].
  exists s, o. split; [done|].
  destruct Hid' as [[B _ _] Hw Hb]. split.
  - eapply Forall_impl; [exact Hb|]. intros q Hl. cbv beta in Hl. simpl in Hqs. rw -length_app -Hqs. exact Hl.
  - destruct (decide (Exists (fun q => deque q = []) (queues_ s))) as [?|Hno]; [done|].
    exfalso. apply Hw. rw (wf_count _ B). unfold real_type_count. f_equal. apply all_busy.
    apply not_Exists_Forall in Hno; [done|]. intros q. apply _.
Qed.

(** C18. Of every topic, the policy uses each message at most once and in the order of arrival: the
    messages that the published sets took, in order, are among those let go, which followed by the
    ones still held are exactly the messages added; and each set has one message of every topic. *)
Theorem approx_time_uses_in_order n penalty queue_size cs s published :
  (2 <= n <= 9)%nat -> 1 <= queue_size -> Forall (call_ok (M := M) n) cs ->
  run cs (new_approx n penalty queue_size) = Some (s, published) ->
  Forall (fun set => length set = n) published /\
  forall i q, queues_ s !! i = Some q -> exists gone,
    inputs i cs = gone ++ past q ++ deque q /\ omap (.!! i) published `sublist_of` gone.
Proof.
  intros Hn Hq Hc Hrun. pose proof (new_approx_idle (M := M) n penalty queue_size Hn Hq) as Hid.
  assert (real_type_count (new_approx (M := M) n penalty queue_size) = n) as Hrt
    by (unfold real_type_count; simpl; apply length_replicate).
  destruct (run_spec cs (new_approx n penalty queue_size) Hid)
    as (s' & o & Hrun' & _ & Hrc & _ & Hlen & Hflow); [by rw Hrt|].
  rw Hrun in Hrun'. injection Hrun' as <- <-. split; [by rw Hrt in Hlen|].
  intros i q Hi. destruct (Hflow i q Hi) as (gone & Hg & Hs). exists gone. split; [|done].
  assert (i < n)%nat as Hin.
  { apply lookup_lt_Some in Hi. unfold real_type_count in *. lia. }
  simpl in Hg. by rw lookup_replicate_2 in Hg.
Qed.

(** C19. If the stamps of each topic do not decrease and the age penalty is not negative, any two
    messages of a published set are at most [max_interval_duration] apart. *)
Theorem approx_time_sets_tight n penalty queue_size max_interval cs s published s0 :
  (2 <= n <= 9)%nat -> 1 <= queue_size -> Forall is_add cs -> Forall (call_ok (M := M) n) cs ->
  (forall d, 0 <= d -> d <= scale penalty d) ->
  (forall i, (i < n)%nat -> StronglySorted Z.le (stamp <$> inputs i cs)) ->
  setMaxIntervalDuration max_interval (new_approx n penalty queue_size) = Some s0 ->
  run cs s0 = Some (s, published) ->
  forall set a b, set ∈ published -> a ∈ set -> b ∈ set -> stamp a - stamp b <= max_interval.
Proof.
  intros Hn Hq Ha Hc Hs Ho H0 Hrun set a b Hset Ia Ib.
  pose proof (new_approx_idle (M := M) n penalty queue_size Hn Hq) as Hid.
  unfold setMaxIntervalDuration in H0. case_match; [|done]. injection H0 as <-.
  match type of Hrun with run _ ?s0 = _ =>
    assert (Forall (within (max_interval_duration_ s0)) published) as Hall end.
  { eapply (run_tight cs _ s published); [| | | | | |exact Hrun].
    - by apply (setter_idle (new_approx n penalty queue_size)).
    - done.
    - unfold real_type_count. simpl. by rw length_replicate.
    - exact Hs.
    - intros i q Hi. simpl in Hi. apply lookup_replicate in Hi as [-> Hin]. simpl. auto.
    - by apply not_searching_tight. }
  rw Forall_forall in Hall. exact (Hall set Hset a b Ia Ib).
Qed.

(** C20. Messages that match exactly are never held back or lost: when the topics deliver, round after
    round, one message each with the same stamp, in any order of the topics that may differ from round to
    round, every round is published as one set, in order. *)
Theorem approx_time_exact_rounds n penalty queue_size rounds :
  (2 <= n <= 9)%nat -> 1 <= queue_size -> 0 <= scale penalty 0 -> Forall (exact_round (M := M) n) rounds ->
  exists s, run (concat ((fun r => round_calls r.1 r.2) <$> rounds)) (new_approx n penalty queue_size) =
    Some (s, rounds.*2).
Proof.
  intros Hn Hq Hs Hr.
  destruct (run_rounds n rounds _ (new_approx_quiet n penalty queue_size Hn Hq Hs) Hr)
    as (s & Hrun & _). by exists s.
Qed.
End theorems.

(** ** Witnesses *)

(** Messages are their stamps; an age penalty of [p] tenths. *)
Definition tenths : TimeModel Z Z := {| stamp x := x; scale p d := d + p * d / 10; non_negative p := 0 <=? p |}.

Definition sample_calls : list (approx_call (M := Z) (double := Z)) :=
  [Add 0 100; Add 1 103; Add 0 200; Add 2 105; Add 1 210; Add 2 190; Add 0 300; Add 1 400; Add 2 310;
   Add 0 330; Add 1 500].

Lemma approx_time_never_fails_witness :
  exists s published, run (H := tenths) (SetInterMessageLowerBound 1 50 :: sample_calls)
      (new_approx 3 1 2) = Some (s, published) /\
    Forall (fun q => Z.of_nat (length (past q) + length (deque q)) <= 2) (queues_ s) /\
    Exists (fun q => deque q = []) (queues_ s).
Proof.
  apply (approx_time_never_fails (H := tenths) 3 1 2); [lia|lia|].
  repeat constructor; simpl; lia.
Defined.

Lemma approx_time_uses_in_order_witness : exists s published,
  run (H := tenths) sample_calls (new_approx 3 1 2) = Some (s, published) /\
  length published = 2%nat /\ Forall (fun set => length set = 3%nat) published.
Proof.
  eexists _, _. split; [vm_compute; reflexivity|]. split; [reflexivity|].
  eapply (approx_time_uses_in_order (H := tenths) 3 1 2 sample_calls); [lia|lia| |].
  - repeat constructor; simpl; lia.
  - vm_compute. reflexivity.
Defined.

Lemma approx_time_sets_tight_witness : exists s0 s published,
  setMaxIntervalDuration 60 (new_approx (M := Z) 3 1 2) = Some s0 /\
  run (H := tenths) sample_calls s0 = Some (s, published) /\
  length published = 2%nat /\ forall set a b, set ∈ published -> a ∈ set -> b ∈ set -> a - b <= 60.
Proof.
  eexists _, _, _. split; [vm_compute; reflexivity|]. split; [vm_compute; reflexivity|].
  split; [reflexivity|].
  eapply (approx_time_sets_tight (H := tenths) 3 1 2 60 sample_calls); [lia|lia| | | | | |].
  - repeat constructor.
  - repeat constructor; simpl; lia.
  - intros d Hd. simpl. pose proof (Z.div_pos (1 * d) 10). lia.
  - intros [|[|[|i]]] Hi; [| | |lia]; repeat constructor; simpl; lia.
  - vm_compute. reflexivity.
  - vm_compute. reflexivity.
Defined.

Lemma approx_time_exact_rounds_witness : exists s,
  run (H := tenths) [Add 0 5; Add 1 5; Add 1 9; Add 0 9; Add 0 7; Add 1 7] (new_approx 2 1 1)
  = Some (s, [[5; 5]; [9; 9]; [7; 7]]).
Proof.
  apply (approx_time_exact_rounds (H := tenths) 2 1 1
    [([0%nat; 1%nat], [5; 5]); ([1%nat; 0%nat], [9; 9]); ([0%nat; 1%nat], [7; 7])]);
    [lia|lia|vm_compute; discriminate|].
  repeat constructor; try reflexivity; eexists; repeat constructor.
Defined.
