(* ===== verification/ExactTime.v ===== *)
(** * The ExactTime policy of the message synchronizer

    [sync_policies::ExactTime] (agnocastlib, sync_policies/exact_time.hpp): messages of 2 to 9
    topics with equal time stamps are matched.  [tuples_], a [std::map] from stamps to tuples, is
    the list of its entries in the order of iteration; a tuple has one place per real topic, empty
    until its message arrives.  What the policy hands to [parent_->signal] and [drop_signal_] is the
    list of events a call returns. *)

From S2P Require Import Prelude.

(** [message_traits::TimeStamp<M>::value], in nanoseconds: code outside the repository. *)
Class Stamped (M : Type) := stamp_of : M -> Z.

(** ** State *)

Definition tuple (M : Type) : Type := list (option M).

Record exact (M : Type) := Exact {
  ex_queue_size : Z;
  tuples_ : list (Z * tuple M);
  last_signal_time_ : Z
}.
Arguments Exact {M}.
Arguments ex_queue_size {M} e.
Arguments tuples_ {M} e.
Arguments last_signal_time_ {M} e.

Inductive exact_event (M : Type) :=
  | Signal (t : tuple M)
  | Drop (t : tuple M).
Arguments Signal {M} t.
Arguments Drop {M} t.

Section operations.
Context {M : Type} `{Stamped M}.

Definition set_tuples (l : list (Z * tuple M)) (e : exact M) : exact M :=
  Exact (ex_queue_size e) l (last_signal_time_ e).

Definition new_exact (queue_size : Z) : exact M := Exact queue_size [] 0.

(** [Tuple & t = tuples_[time]; std::get<i>(t) = evt;] for [n] topics: the entry is created, with
    no message, when there is none. *)
Fixpoint put_event (n i : nat) (time : Z) (evt : M) (l : list (Z * tuple M))
    : list (Z * tuple M) :=
  match l with
  | [] => [(time, <[i := Some evt]> (replicate n None))]
  | (k, t) :: rest =>
      if time <? k then (time, <[i := Some evt]> (replicate n None)) :: (k, t) :: rest
      else if time =? k then (k, <[i := Some evt]> t) :: rest
      else (k, t) :: put_event n i time evt rest
  end.

(** The tuple [t] refers to. *)
Definition find_tuple (time : Z) (l : list (Z * tuple M)) : option (tuple M) :=
  snd <$> find (fun kt => kt.1 =? time) l.

Definition is_full (t : tuple M) : bool := forallb (fun m => bool_decide (is_Some m)) t.

(** [tuples_.erase(time)]. *)
Fixpoint erase (time : Z) (l : list (Z * tuple M)) : list (Z * tuple M) :=
  match l with
  | [] => []
  | (k, t) :: rest => if k =? time then rest else (k, t) :: erase time rest
  end.

Fixpoint clearOldTuples (last_signal_time : Z) (l : list (Z * tuple M))
    : list (Z * tuple M) * list (exact_event M) :=
  match l with
  | [] => ([], [])
  | (k, t) :: rest =>
      if k <=? last_signal_time then
        let '(rest, evs) := clearOldTuples last_signal_time rest in (rest, Drop t :: evs)
      else ((k, t) :: rest, [])
  end.

(** [while (tuples_.size() > queue_size_)]: the oldest tuples go. *)
Fixpoint drop_excess (queue_size : Z) (l : list (Z * tuple M))
    : list (Z * tuple M) * list (exact_event M) :=
  match l with
  | [] => ([], [])
  | (k, t) :: rest =>
      if queue_size <? Z.of_nat (length l) then
        let '(rest, evs) := drop_excess queue_size rest in (rest, Drop t :: evs)
      else (l, [])
  end.

(** [checkTuple(t)] of the tuple at [time].  [None]: the code would dereference a message that is
    not there. *)
Definition checkTuple (time : Z) (e : exact M) : option (exact M * list (exact_event M)) :=
  unwrap t := find_tuple time (tuples_ e) orelse None;
  unwrap r :=
    (if is_full t then
       match t with
       | Some m0 :: _ =>
           let last := stamp_of m0 in
           let '(l, evs) := clearOldTuples last (erase last (tuples_ e)) in
           Some (Exact (ex_queue_size e) l last, Signal t :: evs)
       | _ => None
       end
     else Some (e, [])) orelse None;
  let '(e, evs) := r in
  if 0 <? ex_queue_size e then
    let '(l, dropped) := drop_excess (ex_queue_size e) (tuples_ e) in
    Some (set_tuples l e, evs ++ dropped)
  else Some (e, evs).

(** [add<i>(evt)] of a synchronizer of [n] topics. *)
Definition exact_add (n i : nat) (evt : M) (e : exact M) : option (exact M * list (exact_event M)) :=
  checkTuple (stamp_of evt) (set_tuples (put_event n i (stamp_of evt) evt (tuples_ e)) e).

Fixpoint exact_run (n : nat) (inputs : list (nat * M)) (e : exact M)
    : option (exact M * list (exact_event M)) :=
  match inputs with
  | [] => Some (e, [])
  | (i, evt) :: rest =>
      unwrap r := exact_add n i evt e orelse None;
      unwrap r' := exact_run n rest r.1 orelse None;
      Some (r'.1, r.2 ++ r'.2)
  end.

(** ** Specification *)

(** A tuple under its stamp: one place per topic, filled with messages of that stamp. *)
Definition tuple_at (n : nat) (time : Z) (t : tuple M) : Prop :=
  length t = n /\ forall i m, t !! i = Some (Some m) -> stamp_of m = time.

(** Between calls the tuples are sorted by their stamps, without repetition, each holds a message
    and lacks one, and there are no more of them than the queue size (0 meaning no limit). *)
Record exact_wf (n : nat) (e : exact M) : Prop := {
  ex_sorted : StronglySorted Z.lt (tuples_ e).*1;
  ex_tuples : Forall (fun kt => tuple_at n kt.1 kt.2) (tuples_ e);
  ex_partial : Forall (fun kt => is_full kt.2 = false) (tuples_ e);
  ex_bound : 0 < ex_queue_size e -> Z.of_nat (length (tuples_ e)) <= ex_queue_size e
}.

(** The messages of topic [i] in a list of tuples, in events, and in the arrivals. *)
Definition of_topic (i : nat) (ts : list (tuple M)) : list M := omap (fun t => t !! i ≫= id) ts.

Definition event_tuple (ev : exact_event M) : tuple M := match ev with Signal t | Drop t => t end.

Definition arrivals (i : nat) (inputs : list (nat * M)) : list M :=
  (filter (fun im => im.1 = i) inputs).*2.

Definition signalled (evs : list (exact_event M)) : list (tuple M) :=
  omap (fun ev => match ev with Signal t => Some t | Drop _ => None end) evs.
End operations.

Section proofs.
Context {M : Type} `{Stamped M}.
Implicit Types (l older newer : list (Z * tuple M)) (t : tuple M) (e : exact M).

(** ** The sorted map *)

(** The entries older and newer than a stamp, and what is pending at it. *)
Definition before (time : Z) l : list (Z * tuple M) := filter (fun kt => kt.1 < time) l.
Definition after (time : Z) l : list (Z * tuple M) := filter (fun kt => time < kt.1) l.
Definition pending_at (n : nat) (time : Z) l : tuple M :=
  default (replicate n None) (find_tuple time l).

Lemma before_all time l : Forall (fun kt => time <= kt.1) l -> before time l = [].
Proof. intros Hl. apply filter_none. intros kt Hkt. rw Forall_forall in Hl. pose proof (Hl kt Hkt). lia. Qed.

Lemma after_all time l : Forall (fun kt => time < kt.1) l -> after time l = l.
Proof. intros Hl. apply list_filter_all. by rw Forall_forall in Hl. Qed.

Lemma find_newer time l : Forall (fun kt => time < kt.1) l -> find_tuple time l = None.
Proof.
  induction 1 as [|[k t] l Hk _ IH]; [done|]. unfold find_tuple in *. csimpl.
  rw (proj2 (Z.eqb_neq _ _)); [done|simpl in Hk; lia].
Qed.

Lemma sorted_keys (k : Z) t l :
  StronglySorted Z.lt ((k, t) :: l).*1 -> StronglySorted Z.lt l.*1 /\ Forall (fun kt => k < kt.1) l.
Proof.
  csimpl. intros [Hs Hk]%StronglySorted_inv. split; [done|].
  apply (Forall_fmap fst) in Hk. eapply Forall_impl; [exact Hk|done].
Qed.

Lemma put_event_spec n i time (evt : M) l :
  StronglySorted Z.lt l.*1 ->
  put_event n i time evt l =
    before time l ++ (time, <[i := Some evt]> (pending_at n time l)) :: after time l.
Proof.
  induction l as [|[k t] l IH]; intros Hs; [done|].
  apply sorted_keys in Hs as [Hs Hk]. cbn [put_event].
  assert (time <= k -> Forall (fun kt => time < kt.1) l) as Hnew.
  { intros Hle. eapply Forall_impl; [exact Hk|]. simpl. intros kt. lia. }
  unfold before, after. destruct (Z.ltb_spec time k) as [Hlt|Hge].
  - rw filter_cons_False; [|simpl; lia]. fold (before time l).
    rw before_all; [|eapply Forall_impl; [apply Hnew; lia|]; simpl; lia].
    rw filter_cons_True; [|simpl; lia]. fold (after time l). rw after_all; [|apply Hnew; lia].
    unfold pending_at. rw find_newer; [done|]. constructor; [simpl; lia|apply Hnew; lia].
  - destruct (Z.eqb_spec time k) as [->|Hne].
    + rw filter_cons_False; [|simpl; lia]. fold (before k l).
      rw before_all; [|eapply Forall_impl; [apply Hnew; lia|]; simpl; lia].
      rw filter_cons_False; [|simpl; lia]. fold (after k l). rw after_all; [|apply Hnew; lia].
      unfold pending_at, find_tuple. csimpl. by rw Z.eqb_refl.
    + rw filter_cons_True; [|simpl; lia]. rw filter_cons_False; [|simpl; lia].
      rw IH; [|done]. unfold before, after, pending_at, find_tuple. csimpl.
      rw (proj2 (Z.eqb_neq k time)); [done|lia].
Qed.

Lemma find_middle time older t newer :
  Forall (fun kt => kt.1 < time) older -> find_tuple time (older ++ (time, t) :: newer) = Some t.
Proof.
  induction 1 as [|[k t'] older Hk _ IH]; unfold find_tuple in *; csimpl.
  - by rw Z.eqb_refl.
  - simpl in Hk. rw (proj2 (Z.eqb_neq _ _)); [done|lia].
Qed.

Lemma erase_middle time older t newer :
  Forall (fun kt => kt.1 < time) older -> erase time (older ++ (time, t) :: newer) = older ++ newer.
Proof.
  induction 1 as [|[k t'] older Hk _ IH]; csimpl; [by rw Z.eqb_refl|].
  simpl in Hk. rw (proj2 (Z.eqb_neq _ _)); [by rw IH|lia].
Qed.

Lemma clear_old_spec time older newer :
  Forall (fun kt => kt.1 < time) older -> Forall (fun kt => time < kt.1) newer ->
  clearOldTuples time (older ++ newer) = (newer, Drop <$> older.*2).
Proof.
  intros Ho Hn. induction Ho as [|[k t'] older Hk _ IH]; csimpl.
  - destruct Hn as [|[k t] newer Hk _]; [done|]. simpl in *. rw (proj2 (Z.leb_gt _ _)); [done|lia].
  - simpl in Hk. rw IH (proj2 (Z.leb_le _ _)); [done|lia].
Qed.

Lemma drop_excess_none q l : Z.of_nat (length l) <= q -> drop_excess q l = (l, []).
Proof. destruct l as [|[k t] l]; [done|]. intros Hl. cbn [drop_excess]. rw (proj2 (Z.ltb_ge _ _)); done. Qed.

Lemma drop_excess_spec q l :
  0 <= q -> let n := (length l - Z.to_nat q)%nat in
  drop_excess q l = (drop n l, Drop <$> (take n l).*2).
Proof.
  intros Hq. induction l as [|[k t] l IH]; [done|]. cbn [drop_excess].
  destruct (Z.ltb_spec q (Z.of_nat (length ((k, t) :: l)))) as [Hlt|Hge].
  - rw IH. cbn [length] in *. replace (S (length l) - Z.to_nat q)%nat with (S (length l - Z.to_nat q)) by lia.
    done.
  - replace (length ((k, t) :: l) - Z.to_nat q)%nat with 0%nat by lia. done.
Qed.

Lemma before_lt time l : Forall (fun kt => kt.1 < time) (before time l).
Proof. apply Forall_forall. intros kt [? _]%list_elem_of_filter. done. Qed.

Lemma after_gt time l : Forall (fun kt => time < kt.1) (after time l).
Proof. apply Forall_forall. intros kt [? _]%list_elem_of_filter. done. Qed.

(** ** Tuples *)

Lemma is_full_lookup t i : is_full t = true -> (i < length t)%nat -> exists m, t !! i = Some (Some m).
Proof.
  intros Hf Hi. unfold is_full in Hf. rw forallb_forall in Hf.
  destruct (lookup_lt_is_Some_2 t i Hi) as [o Ho].
  assert (bool_decide (is_Some o) = true) as [m ->]%bool_decide_eq_true.
  { apply Hf. apply list_elem_of_In. by eapply list_elem_of_lookup_2. }
  by exists m.
Qed.

Lemma empty_tuple_at n time : tuple_at n time (replicate n None : tuple M).
Proof. split; [apply length_replicate|]. intros i m [? _]%lookup_replicate. done. Qed.

Lemma find_tuple_in time l t : find_tuple time l = Some t -> (time, t) ∈ l.
Proof.
  unfold find_tuple. intros Hf. apply fmap_Some in Hf as ([k t'] & Hf & ->).
  apply find_Some_inv in Hf as [Hin Hk]. simpl in *. apply Z.eqb_eq in Hk. by subst k.
Qed.

Lemma pending_tuple_at n time e : exact_wf n e -> tuple_at n time (pending_at n time (tuples_ e)).
Proof.
  intros Hwf. unfold pending_at. destruct (find_tuple time (tuples_ e)) as [t|] eqn:Hf.
  - apply find_tuple_in in Hf. pose proof (ex_tuples _ _ Hwf) as Ht. rw Forall_forall in Ht.
    exact (Ht _ Hf).
  - apply empty_tuple_at.
Qed.

Lemma insert_tuple_at n time t i (evt : M) :
  tuple_at n time t -> stamp_of evt = time -> tuple_at n time (<[i := Some evt]> t).
Proof.
  intros [Hl Ht] He. split; [by rw length_insert|]. intros j m Hj.
  destruct (decide (i = j)) as [<-|Hne].
  - destruct (decide (i < length t)%nat) as [Hi|Hi].
    + rw list_lookup_insert_eq // in Hj. congruence.
    + rw list_insert_ge in Hj; [|lia]. by eapply Ht.
  - rw list_lookup_insert_ne // in Hj. by eapply Ht.
Qed.

(** ** One message *)

(** The outcome of [add], as a function of what was pending. *)
Definition added (n i : nat) (evt : M) e : exact M * list (exact_event M) :=
  let time := stamp_of evt in
  let t := <[i := Some evt]> (pending_at n time (tuples_ e)) in
  if is_full t then
    (Exact (ex_queue_size e) (after time (tuples_ e)) time,
     Signal t :: (Drop <$> (before time (tuples_ e)).*2))
  else
    let l := before time (tuples_ e) ++ (time, t) :: after time (tuples_ e) in
    let excess := if 0 <? ex_queue_size e then (length l - Z.to_nat (ex_queue_size e))%nat else 0%nat in
    (set_tuples (drop excess l) e, Drop <$> (take excess l).*2).

Lemma split_length time l :
  (length (before time l) + length (after time l) <= length l)%nat.
Proof.
  induction l as [|kt l IH]; [done|]. unfold before, after in *. rw !filter_cons.
  repeat case_decide; simpl; lia.
Qed.

Lemma exact_add_spec n i evt e :
  exact_wf n e -> (0 < n)%nat -> exact_add n i evt e = Some (added n i evt e).
Proof.
  intros Hwf Hn. unfold exact_add, checkTuple, added. cbn [tuples_ set_tuples].
  rw put_event_spec; [|apply Hwf]. set (time := stamp_of evt).
  set (t := <[i := Some evt]> _).
  rw find_middle; [|apply before_lt].
  pose proof (insert_tuple_at _ _ _ i evt (pending_tuple_at n time e Hwf) eq_refl) as [Hlen Ht].
  fold t in Hlen, Ht. destruct (is_full t) eqn:Hf.
  - destruct t as [|o t'] eqn:Et; [simpl in Hlen; lia|].
    destruct (is_full_lookup _ 0 Hf) as [m0 Hm0]; [simpl; lia|]. simpl in Hm0. injection Hm0 as ->.
    rw (Ht 0%nat m0 eq_refl). rw erase_middle; [|apply before_lt].
    rw clear_old_spec; [|apply before_lt|apply after_gt]. cbn [ex_queue_size tuples_].
    case_match eqn:Hq; [|done]. apply Z.ltb_lt in Hq.
    rw drop_excess_none; [by rw app_nil_r|].
    cbn [ex_queue_size set_tuples] in Hq |- *. pose proof (ex_bound _ _ Hwf Hq).
    pose proof (split_length time (tuples_ e)). lia.
  - cbn [ex_queue_size set_tuples tuples_]. destruct (0 <? ex_queue_size e) eqn:Hq.
    + apply Z.ltb_lt in Hq. rw drop_excess_spec; [done|lia].
    + done.
Qed.

Lemma sorted_sublist (l1 l2 : list Z) :
  l1 `sublist_of` l2 -> StronglySorted Z.lt l2 -> StronglySorted Z.lt l1.
Proof.
  induction 1 as [|x l1 l2 Hs IH|x l1 l2 Hs IH]; intros Hl; [done| |];
    apply StronglySorted_cons in Hl as [Hx Hl]; [|auto].
  apply StronglySorted_cons. split; [|auto]. rw Forall_forall in Hx. rw Forall_forall. intros y Hy. apply Hx. by eapply elem_of_sublist.
Qed.

Lemma keys_sublist l1 l2 : l1 `sublist_of` l2 -> l1.*1 `sublist_of` l2.*1.
Proof. induction 1; csimpl; by constructor. Qed.

Lemma middle_sorted time t l :
  StronglySorted Z.lt l.*1 -> StronglySorted Z.lt (before time l ++ (time, t) :: after time l).*1.
Proof.
  intros Hs. rw fmap_app. csimpl.
  pose proof (proj1 (Forall_forall _ _) (before_lt time l)) as Hb.
  pose proof (proj1 (Forall_forall _ _) (after_gt time l)) as Ha.
  apply StronglySorted_app. split_and!.
  - intros x y (kx & -> & Hx)%list_elem_of_fmap Hy. specialize (Hb _ Hx).
    apply elem_of_cons in Hy as [->|(ky & -> & Hy)%list_elem_of_fmap]; [done|].
    specialize (Ha _ Hy). cbv beta in *. lia.
  - eapply sorted_sublist; [|exact Hs]. apply keys_sublist, sublist_filter.
  - apply StronglySorted_cons. split.
    + apply Forall_fmap. apply after_gt.
    + eapply sorted_sublist; [|exact Hs]. apply keys_sublist, sublist_filter.
Qed.

Lemma added_wf n i evt e : exact_wf n e -> exact_wf n (added n i evt e).1.
Proof.
  intros Hwf. unfold added. set (time := stamp_of evt). set (t := <[i := Some evt]> _).
  pose proof (insert_tuple_at _ _ _ i evt (pending_tuple_at n time e Hwf) eq_refl) as Ht. fold t in Ht.
  pose proof Hwf as [Hs Htu Hp Hb].
  assert (forall P : Z * tuple M -> Prop, Forall P (tuples_ e) -> Forall P (before time (tuples_ e)) /\
    Forall P (after time (tuples_ e))) as Hsub.
  { intros P HP. rw !Forall_forall in HP |- *. unfold before, after. split; intros kt Hkt;
      apply list_elem_of_filter in Hkt as [_ Hkt]; auto. }
  destruct (is_full t) eqn:Hf; split; cbn [fst tuples_ set_tuples ex_queue_size].
  - eapply sorted_sublist; [|exact Hs]. apply keys_sublist, sublist_filter.
  - by apply Hsub.
  - by apply Hsub.
  - intros Hq. pose proof (split_length time (tuples_ e)). specialize (Hb Hq). lia.
  - eapply sorted_sublist; [|by apply (middle_sorted time t)]. apply keys_sublist, sublist_drop.
  - apply Forall_drop, Forall_app. split; [by apply Hsub|]. constructor; [done|by apply Hsub].
  - apply Forall_drop, Forall_app. split; [by apply Hsub|]. constructor; [done|by apply Hsub].
  - intros Hq. rw (proj2 (Z.ltb_lt _ _)) //. rw length_drop. lia.
Qed.

(** ** Accounting *)

Lemma of_topic_app i (ts ts' : list (tuple M)) : of_topic i (ts ++ ts') = of_topic i ts ++ of_topic i ts'.
Proof. apply omap_app. Qed.

(** What topic [i] has pending, split at a stamp. *)
Lemma of_topic_split n i time l :
  StronglySorted Z.lt l.*1 ->
  of_topic i l.*2 = of_topic i (before time l).*2 ++ of_topic i [pending_at n time l] ++
    of_topic i (after time l).*2.
Proof.
  assert (of_topic i [replicate n (@None M)] = []) as Hnone.
  { assert (replicate n (@None M) !! i ≫= id = None) as Hi.
    { destruct (replicate n (@None M) !! i) as [o|] eqn:E; [|done].
      by apply lookup_replicate in E as [-> _]. }
    unfold of_topic. csimpl. by rw Hi. }
  unfold pending_at. induction l as [|[k t] l IH]; intros Hs; [by rw Hnone|].
  apply sorted_keys in Hs as [Hs Hk]. specialize (IH Hs).
  assert (time <= k -> Forall (fun kt => time < kt.1) l) as Hnew.
  { intros Hle. eapply Forall_impl; [exact Hk|]. simpl. intros kt. lia. }
  unfold before, after. rw !filter_cons. cbn [fst]. unfold find_tuple in *. csimpl.
  destruct (Z.lt_trichotomy k time) as [Hlt|[->|Hgt]].
  - rw decide_True // decide_False; [|lia]. rw (proj2 (Z.eqb_neq k time)); [|lia].
    unfold of_topic in *. csimpl. unfold before, after in IH. rw IH. by destruct (t !! i ≫= id).
  - rw Z.eqb_refl !decide_False; [|lia|lia]. fold (before time l) (after time l).
    rw before_all; [|eapply Forall_impl; [apply Hnew; lia|]; simpl; lia].
    rw after_all; [|apply Hnew; lia]. csimpl. unfold of_topic. csimpl. by destruct (t !! i ≫= id).
  - rw decide_False; [|lia]. rw decide_True; [|lia]. fold (before time l) (after time l).
    rw before_all; [|eapply Forall_impl; [apply Hnew; lia|]; simpl; lia].
    rw after_all; [|apply Hnew; lia]. rw (proj2 (Z.eqb_neq k time)); [|lia].
    pose proof (find_newer time l ltac:(apply Hnew; lia)) as Hf. unfold find_tuple in Hf. rw Hf.
    unfold of_topic in Hnone. csimpl in Hnone.
    change (default _ _) with (replicate n (@None M)). by rw Hnone.
Qed.

Lemma drops_tuples (ts : list (tuple M)) : event_tuple <$> (Drop <$> ts) = ts.
Proof. rw -list_fmap_compose. by rw list_fmap_id. Qed.

Lemma added_topic n i evt e j :
  of_topic j (event_tuple <$> (added n i evt e).2) ++ of_topic j (tuples_ (added n i evt e).1).*2 =
  of_topic j [<[i := Some evt]> (pending_at n (stamp_of evt) (tuples_ e))] ++
    of_topic j (before (stamp_of evt) (tuples_ e)).*2 ++ of_topic j (after (stamp_of evt) (tuples_ e)).*2
  \/ of_topic j (event_tuple <$> (added n i evt e).2) ++ of_topic j (tuples_ (added n i evt e).1).*2 =
  of_topic j (before (stamp_of evt) (tuples_ e)).*2 ++
    of_topic j [<[i := Some evt]> (pending_at n (stamp_of evt) (tuples_ e))] ++
    of_topic j (after (stamp_of evt) (tuples_ e)).*2.
Proof.
  unfold added. set (time := stamp_of evt). set (t := <[i := Some evt]> _).
  destruct (is_full t); cbn [fst snd tuples_ set_tuples].
  - left. rw fmap_cons drops_tuples.
    change (event_tuple (Signal t) :: ?l) with ([t] ++ l). by rw of_topic_app -app_assoc.
  - right. rw drops_tuples -!of_topic_app -fmap_app take_drop fmap_app. csimpl.
    by rw !of_topic_app.
Qed.

(** No message leaves without a signal or a drop, unless the next one of its topic has its stamp. *)
Lemma added_accounts n i evt e j :
  exact_wf n e -> (i < n)%nat ->
  (i = j -> pending_at n (stamp_of evt) (tuples_ e) !! i = Some None) ->
  of_topic j (event_tuple <$> (added n i evt e).2) ++ of_topic j (tuples_ (added n i evt e).1).*2 ≡ₚ
  of_topic j (tuples_ e).*2 ++ (if decide (i = j) then [evt] else []).
Proof.
  intros Hwf Hi Hnone. rw (of_topic_split n j (stamp_of evt) (tuples_ e)); [|apply Hwf].
  pose proof (pending_tuple_at n (stamp_of evt) e Hwf) as [Hlen _].
  assert (of_topic j [<[i := Some evt]> (pending_at n (stamp_of evt) (tuples_ e))] =
    of_topic j [pending_at n (stamp_of evt) (tuples_ e)] ++ (if decide (i = j) then [evt] else [])) as Hj.
  { unfold of_topic. csimpl. case_decide as Hd.
    - subst j. rw list_lookup_insert_eq; [|lia]. by rw Hnone.
    - rw list_lookup_insert_ne //. by rw app_nil_r. }
  destruct (added_topic n i evt e j) as [-> | ->]; rw Hj; solve_Permutation.
Qed.

(** ** Runs *)

Lemma exact_run_spec n inputs e :
  exact_wf n e -> (0 < n)%nat ->
  exists e' evs, exact_run n inputs e = Some (e', evs) /\ exact_wf n e' /\
    Forall (fun t => is_full t = true /\ exists time, tuple_at n time t) (signalled evs).
Proof.
  revert e. induction inputs as [|[i evt] inputs IH]; intros e Hwf Hn; cbn [exact_run].
  { exists e, []. split_and!; [done|done|constructor]. }
  rw exact_add_spec //. cbn [fst snd]. destruct (IH (added n i evt e).1) as (e' & evs & -> & W & F);
    [by apply added_wf|done|].
  do 2 eexists. split; [done|]. split; [done|]. unfold signalled in *. cbn [snd]. rw omap_app.
  apply Forall_app. split; [|done]. unfold added. set (t := <[i := Some evt]> _).
  assert (forall ts : list (tuple M), omap (fun ev => match ev with Signal t => Some t | Drop _ => None end)
    (Drop <$> ts) = []) as Hd by (intros ts; induction ts; [done|]; by csimpl).
  destruct (is_full t) eqn:Hf; cbn [snd]; csimpl; rw Hd; [|constructor].
  constructor; [|constructor]. split; [done|]. exists (stamp_of evt).
  by apply insert_tuple_at; [apply pending_tuple_at|].
Qed.

Lemma find_pending n i time e m :
  pending_at n time (tuples_ e) !! i = Some (Some m) -> m ∈ of_topic i (tuples_ e).*2.
Proof.
  unfold pending_at. destruct (find_tuple time (tuples_ e)) as [t|] eqn:Hf; simpl.
  - intros Hi. apply find_tuple_in in Hf. unfold of_topic. apply list_elem_of_omap.
    exists t. split; [|by rw Hi]. apply list_elem_of_fmap. by exists (time, t).
  - by intros [? _]%lookup_replicate.
Qed.

Lemma arrivals_cons j i (evt : M) (inputs : list (nat * M)) :
  arrivals j ((i, evt) :: inputs) = (if decide (i = j) then [evt] else []) ++ arrivals j inputs.
Proof. unfold arrivals. rw filter_cons. simpl. by case_decide. Qed.

Lemma exact_run_accounts n inputs e (earlier : list M) j e' evs :
  exact_wf n e -> Forall (fun im => (im.1 < n)%nat) inputs ->
  (forall m, m ∈ of_topic j (tuples_ e).*2 -> m ∈ earlier) ->
  NoDup (stamp_of <$> earlier ++ arrivals j inputs) ->
  exact_run n inputs e = Some (e', evs) ->
  of_topic j (event_tuple <$> evs) ++ of_topic j (tuples_ e').*2 ≡ₚ
  of_topic j (tuples_ e).*2 ++ arrivals j inputs.
Proof.
  revert e earlier e' evs.
  induction inputs as [|[i evt] inputs IH]; intros e earlier e' evs Hwf Hin Hold Hd Hrun;
    cbn [exact_run] in Hrun.
  { injection Hrun as <- <-. by rw app_nil_r. }
  inv Hin. simpl in *. rw exact_add_spec // in Hrun; [|lia]. cbn [fst snd] in Hrun.
  destruct (exact_run n inputs (added n i evt e).1) as [[e2 evs2]|] eqn:E; [|done].
  injection Hrun as <- <-. rw arrivals_cons in Hd. rw arrivals_cons.
  assert (i = j -> pending_at n (stamp_of evt) (tuples_ e) !! i = Some None) as Hnone.
  { intros ->. pose proof (pending_tuple_at n (stamp_of evt) e Hwf) as [Hlen Hst].
    destruct (lookup_lt_is_Some_2 (pending_at n (stamp_of evt) (tuples_ e)) j) as [[m|] Hm];
      [lia| |done]. exfalso. rw decide_True // fmap_app in Hd.
    apply NoDup_app in Hd as (_ & Hd & _). apply (Hd (stamp_of evt)); [|csimpl; set_solver].
    rw -(Hst _ _ Hm). apply list_elem_of_fmap_2, Hold. by eapply find_pending. }
  pose proof (added_accounts n i evt e j Hwf ltac:(done) Hnone) as Hacc.
  assert (of_topic j (event_tuple <$> evs2) ++ of_topic j (tuples_ e2).*2 ≡ₚ
    of_topic j (tuples_ (added n i evt e).1).*2 ++ arrivals j inputs) as Hrest.
  { apply (IH _ (earlier ++ (if decide (i = j) then [evt] else [])) _ _ (added_wf _ _ _ _ Hwf));
      [done| |by rw -app_assoc|done].
    intros m Hm. assert (m ∈ of_topic j (event_tuple <$> (added n i evt e).2) ++
      of_topic j (tuples_ (added n i evt e).1).*2) as Hm' by set_solver.
    rw Hacc in Hm'. set_solver. }
  cbn [fst snd]. rw fmap_app of_topic_app -app_assoc Hrest app_assoc Hacc. by rw -app_assoc.
Qed.

Lemma new_exact_wf n q : 0 <= q -> exact_wf n (new_exact (M := M) q).
Proof. intros Hq. split; simpl; [constructor|done|done|lia]. Qed.
End proofs.

(** ** Theorems *)

Section theorems.
Context {M : Type} `{Stamped M}.

(** One message, on every branch: if it completes the tuple of its stamp, that tuple is signalled,
    the older ones are dropped, each with the drop signal, and the newer ones stay; otherwise the
    tuple waits, and if there are now too many tuples the oldest is dropped. *)
Theorem exact_time_add n i evt (e : exact M) :
  exact_wf n e -> (0 < n)%nat ->
  let time := stamp_of evt in
  let t := <[i := Some evt]> (default (replicate n None) (find_tuple time (tuples_ e))) in
  let older := filter (fun kt => kt.1 < time) (tuples_ e) in
  let newer := filter (fun kt => time < kt.1) (tuples_ e) in
  exists e' evs, exact_add n i evt e = Some (e', evs) /\ exact_wf n e' /\
    (is_full t = true -> evs = Signal t :: (Drop <$> older.*2) /\ tuples_ e' = newer) /\
    (is_full t = false -> exists k, (k <= 1)%nat /\
       evs = Drop <$> (take k (older ++ (time, t) :: newer)).*2 /\
       tuples_ e' = drop k (older ++ (time, t) :: newer)).
Proof.
  intros Hwf Hn time t older newer. exists (added n i evt e).1, (added n i evt e).2.
  split_and!; [rw exact_add_spec //; by destruct (added n i evt e)|by apply added_wf| |];
    unfold added; fold time; change (<[i := Some evt]> (pending_at _ _ _)) with t;
    intros Hf; rw Hf; [done|].
  destruct (Z.ltb_spec 0 (ex_queue_size e)) as [Hq|Hq].
  - eexists. split_and!; [|done|done]. rw length_app /=.
    pose proof (split_length time (tuples_ e)). pose proof (ex_bound _ _ Hwf Hq). lia.
  - exists 0%nat. split_and!; [lia|done|done].
Qed.

(** If no topic repeats a stamp, no message is lost silently: those of a topic that arrived are,
    up to order, those signalled or reported as dropped and those still pending; and what is
    signalled has a message of every topic, all with one stamp. *)
Theorem exact_time_accounts n queue_size inputs :
  (0 < n)%nat -> 0 <= queue_size -> Forall (fun im : nat * M => (im.1 < n)%nat) inputs ->
  (forall i, NoDup (stamp_of <$> arrivals i inputs)) ->
  exists e evs, exact_run n inputs (new_exact queue_size) = Some (e, evs) /\ exact_wf n e /\
    Forall (fun t => is_full t = true /\ exists time, tuple_at n time t) (signalled evs) /\
    forall i, arrivals i inputs ≡ₚ of_topic i (event_tuple <$> evs) ++ of_topic i (tuples_ e).*2.
Proof.
  intros Hn Hq Hin Hd. pose proof (new_exact_wf n queue_size Hq) as Hwf.
  destruct (exact_run_spec n inputs _ Hwf Hn) as (e & evs & Hrun & W & F).
  exists e, evs. split_and!; [done|done|done|]. intros i. symmetry.
  exact (exact_run_accounts n inputs (new_exact queue_size) [] i e evs Hwf Hin
    (fun m Hm => Hm) (Hd i) Hrun).
Qed.
End theorems.

(** ** Witnesses *)

Definition z_stamped : Stamped Z := fun x => x.

Lemma exact_time_add_witness : exists e : exact Z,
  exact_wf (H := z_stamped) 2 e /\ tuples_ e = [(4, [Some 4; None]); (7, [None; Some 7])] /\
  exists e' evs, exact_add (H := z_stamped) 2 0 7 e = Some (e', evs) /\
    (is_full [Some 7; Some 7] = true ->
     evs = Signal [Some 7; Some 7] :: (Drop <$> [[Some 4; None]]) /\ tuples_ e' = []).
Proof.
  assert (exact_wf (H := z_stamped) 2 (Exact 3 [(4, [Some 4; None]); (7, [None; Some 7])] 0)) as Hwf.
  { split; simpl; [repeat constructor| | |lia].
    - repeat constructor; intros [|[|i]] m Hm; simplify_eq/=; done.
    - repeat constructor. }
  eexists. split; [exact Hwf|]. split; [done|].
  destruct (exact_time_add (H := z_stamped) 2 0 7 _ Hwf) as (e' & evs & Hadd & _ & Hfull & _); [lia|].
  exists e', evs. split; [exact Hadd|exact Hfull].
Defined.

Lemma exact_time_accounts_witness : exists e evs,
  exact_run (H := z_stamped) 2 [(0%nat, 3); (1%nat, 5); (0%nat, 5); (1%nat, 3)] (new_exact 4) = Some (e, evs) /\
  evs = [Signal [Some 5; Some 5]; Drop [Some 3; None]] /\
  forall i, arrivals i [(0%nat, 3); (1%nat, 5); (0%nat, 5); (1%nat, 3)] ≡ₚ
    of_topic i (event_tuple <$> evs) ++ of_topic i (tuples_ e).*2.
Proof.
  destruct (exact_time_accounts (H := z_stamped) 2 4 [(0%nat, 3); (1%nat, 5); (0%nat, 5); (1%nat, 3)])
    as (e & evs & Hrun & _ & _ & Hacc).
  - lia.
  - lia.
  - repeat constructor; simpl; lia.
  - intros [|[|i]]; vm_compute; repeat constructor; set_solver.
  - exists e, evs. split; [exact Hrun|]. split; [|exact Hacc].
    vm_compute in Hrun. by injection Hrun as <- <-.
Defined.
