(* ===== verification/SmartPointer.v ===== *)
(** * ipc_shared_ptr

    [agnocast::ipc_shared_ptr] (agnocastlib, agnocast_smart_pointer.hpp) and the parts of
    [Publisher] that own its messages (agnocast_publisher.hpp).  The state is one process: its
    handles, the control blocks they share, the messages it has allocated and not published, and the
    messages the kernel module holds for it.  A method is a sequence of atomic actions, so a run is
    any interleaving of the methods of any number of threads; as documented, one handle is not
    written by two threads at a time, which the actions report as [Misuse] when it happens.  Copying
    is one action, because its source is not written meanwhile.  [publish] and [cancel_message] are the
    steps of their source: the check, the read of the address, the invalidation, the decrement of the
    counter and the hand-over.  [borrow_loaned_message] and the constructors touch nothing another
    thread can see before they are done. *)

From S2P Require Import Prelude.

(** ** State *)

Definition ENTRY_ID_NOT_ASSIGNED : Z := -1.

(** [detail::control_block]. *)
Record control_block := ControlBlock {
  cb_topic_name : string;
  cb_entry_id : Z;
  ref_count : Z;
  cb_pubsub_id : Z;
  cb_valid : bool
}.

(** An [ipc_shared_ptr<T>]: [void_] tells whether [T] is [void], 0 is the null pointer.  [closing_] is
    set while a thread is inside [reset()], between the decrement that found the last reference and
    the release of the block: it is what that thread still holds. *)
Record handle := Handle {
  void_ : bool;
  ptr_ : Z;
  control_ : option Z;
  closing_ : option (Z * Z)
}.

Definition null_handle : handle := Handle false 0 None None.

(** [borrowed] is [borrowed_publisher_num], a counter of each thread. *)
Record pointers := Pointers {
  handles : list handle;
  blocks : gmap Z control_block;
  loaned : gset Z;
  published : gset Z;
  borrowed : gmap nat Z
}.

Definition set_handle (h : nat) (x : handle) (s : pointers) : pointers :=
  Pointers (<[h := x]> (handles s)) (blocks s) (loaned s) (published s) (borrowed s).
Definition set_blocks (b : gmap Z control_block) (s : pointers) : pointers :=
  Pointers (handles s) b (loaned s) (published s) (borrowed s).
Definition set_loaned (l : gset Z) (s : pointers) : pointers :=
  Pointers (handles s) (blocks s) l (published s) (borrowed s).
Definition set_published (p : gset Z) (s : pointers) : pointers :=
  Pointers (handles s) (blocks s) (loaned s) p (borrowed s).
Definition set_borrowed (b : gmap nat Z) (s : pointers) : pointers :=
  Pointers (handles s) (blocks s) (loaned s) (published s) b.

(** [Undefined]: memory that is not allocated was used or freed.  [Misuse]: the caller broke the rule
    of one writer per handle.  [Exit]: the code called [exit] or [std::terminate]. *)
Inductive outcome (A : Type) := Done (a : A) | Undefined | Misuse | Exit.
Arguments Done {A} a.
Arguments Undefined {A}.
Arguments Misuse {A}.
Arguments Exit {A}.

Definition bind {A B} (x : outcome A) (f : A -> outcome B) : outcome B :=
  match x with Done a => f a | Undefined => Undefined | Misuse => Misuse | Exit => Exit end.

Notation "'let!' x ':=' e 'in' k" := (bind e (fun x => k))
  (at level 10, x binder, e at level 99, k at level 200) : agno_scope.

(** The handle [h], which no thread is writing. *)
Definition the_handle (s : pointers) (h : nat) : outcome handle :=
  match handles s !! h with
  | Some (Handle v p c None) => Done (Handle v p c None)
  | _ => Misuse
  end.

Definition the_block (s : pointers) (c : Z) : outcome control_block :=
  match blocks s !! c with Some b => Done b | None => Undefined end.

Definition borrowed_by (s : pointers) (tid : nat) : Z := default 0 (borrowed s !! tid).

Definition set_ref_count (n : Z) (b : control_block) : control_block :=
  ControlBlock (cb_topic_name b) (cb_entry_id b) n (cb_pubsub_id b) (cb_valid b).
Definition set_invalid (b : control_block) : control_block :=
  ControlBlock (cb_topic_name b) (cb_entry_id b) (ref_count b) (cb_pubsub_id b) false.

(** [increment()], on the control block of a handle if it has one. *)
Definition increment (c : option Z) (s : pointers) : outcome pointers :=
  match c with
  | None => Done s
  | Some c =>
      let! b := the_block s c in
      Done (set_blocks (<[c := set_ref_count (u32 (ref_count b + 1)) b]> (blocks s)) s)
  end.

(** ** Actions *)

(** Every member that gives [*this] a new value does so on a handle that holds nothing: a constructor,
    or an assignment after its [reset()]. *)
Definition fill (h : nat) (x : handle) (s : pointers) : outcome pointers :=
  let! old := the_handle s h in
  match control_ old with None => Done (set_handle h x s) | Some _ => Misuse end.

(** [borrow_loaned_message()]: [new MessageT] gives the address [ptr], [new control_block] the address
    [c]. *)
Definition borrow (tid h : nat) (void : bool) (topic : string) (pubsub_id ptr c : Z) (s : pointers)
    : outcome pointers :=
  let s := set_borrowed (<[tid := u32 (borrowed_by s tid + 1)]> (borrowed s)) s in
  let s := set_loaned ({[ptr]} ∪ loaned s) s in
  let s := set_blocks (<[c := ControlBlock topic ENTRY_ID_NOT_ASSIGNED 1 pubsub_id true]> (blocks s)) s in
  fill h (Handle void ptr (Some c) None) s.

(** The constructor of the subscriber side. *)
Definition receive (h : nat) (void : bool) (topic : string) (pubsub_id entry_id ptr c : Z) (s : pointers)
    : outcome pointers :=
  if ptr =? 0 then fill h (Handle void 0 None None) s
  else fill h (Handle void ptr (Some c) None)
         (set_blocks (<[c := ControlBlock topic entry_id 1 pubsub_id true]> (blocks s)) s).

(** The aliasing copy: [h] shares ownership with [r] and stores [ptr]. *)
Definition alias_copy (h r : nat) (void : bool) (ptr : Z) (s : pointers) : outcome pointers :=
  let! x := the_handle s r in
  let! s := fill h (Handle void ptr (control_ x) None) s in
  increment (control_ x) s.

(** The aliasing move. *)
Definition alias_move (h r : nat) (void : bool) (ptr : Z) (s : pointers) : outcome pointers :=
  let! x := the_handle s r in
  if (h =? r)%nat then Misuse
  else
    let! s := fill h (Handle void ptr (control_ x) None) s in
    Done (set_handle r (Handle (void_ x) 0 None None) s).

(** Copy and move construction, converting or not, and the second half of the assignments. *)
Definition copy (h r : nat) (void : bool) (s : pointers) : outcome pointers :=
  let! x := the_handle s r in alias_copy h r void (ptr_ x) s.
Definition move (h r : nat) (void : bool) (s : pointers) : outcome pointers :=
  let! x := the_handle s r in alias_move h r void (ptr_ x) s.

(** [is_invalidated_()], [get()], [operator bool()]. *)
Definition is_invalidated (s : pointers) (x : handle) : outcome bool :=
  match control_ x with
  | None => Done false
  | Some c => let! b := the_block s c in Done (negb (cb_valid b))
  end.
Definition get (h : nat) (s : pointers) : outcome Z :=
  let! x := the_handle s h in
  let! i := is_invalidated s x in
  Done (if i then 0 else ptr_ x).
Definition operator_bool (h : nat) (s : pointers) : outcome bool :=
  let! p := get h s in Done (negb (p =? 0)).
(** [operator->] and [operator*]. *)
Definition deref (h : nat) (s : pointers) : outcome Z :=
  let! x := the_handle s h in
  let! i := is_invalidated s x in
  if i then Exit else Done (ptr_ x).

(** [static_ipc_shared_ptr_cast]. *)
Definition cast_copy (h r : nat) (void : bool) (s : pointers) : outcome pointers :=
  let! p := get r s in alias_copy h r void p s.
Definition cast_move (h r : nat) (void : bool) (s : pointers) : outcome pointers :=
  let! p := get r s in alias_move h r void p s.

Definition invalidate_all_references (h : nat) (s : pointers) : outcome pointers :=
  let! x := the_handle s h in
  match control_ x with
  | None => Done s
  | Some c => let! b := the_block s c in Done (set_blocks (<[c := set_invalid b]> (blocks s)) s)
  end.

(** [reset()], first half: the atomic decrement. *)
Definition reset_begin (h : nat) (s : pointers) : outcome pointers :=
  let! x := the_handle s h in
  match control_ x with
  | None => Done s
  | Some c =>
      let! b := the_block s c in
      let s := set_blocks (<[c := set_ref_count (u32 (ref_count b - 1)) b]> (blocks s)) s in
      Done (set_handle h
        (Handle (void_ x) 0 None (if ref_count b =? 1 then Some (c, ptr_ x) else None)) s)
  end.

Definition decrement_borrowed_publisher_num (tid : nat) (s : pointers) : outcome pointers :=
  if borrowed_by s tid =? 0 then Exit
  else Done (set_borrowed (<[tid := borrowed_by s tid - 1]> (borrowed s)) s).

(** [delete ptr_]. *)
Definition delete_message (ptr : Z) (s : pointers) : outcome pointers :=
  if ptr =? 0 then Done s
  else if decide (ptr ∈ loaned s) then Done (set_loaned (loaned s ∖ {[ptr]}) s) else Undefined.

(** What [reset()] asks of the kernel module: the arguments of [release_subscriber_reference]. *)
Definition request : Type := string * Z * Z.

(** [reset()], second half, for the thread that gave up the last reference. *)
Definition reset_end (tid h : nat) (s : pointers) : outcome (pointers * option request) :=
  match handles s !! h with
  | None => Misuse
  | Some x =>
      match closing_ x with
      | None => Done (s, None)
      | Some (c, ptr) =>
          let! b := the_block s c in
          let! '(s, release) :=
            (if negb (cb_entry_id b =? ENTRY_ID_NOT_ASSIGNED) then
               Done (s, Some (cb_topic_name b, cb_pubsub_id b, cb_entry_id b))
             else if cb_valid b then
               let! s := decrement_borrowed_publisher_num tid s in
               if void_ x then Exit
               else let! s := delete_message ptr s in Done (s, None)
             else Done (s, None)) in
          Done (set_handle h (Handle (void_ x) 0 None None)
                  (set_blocks (base.delete c (blocks s)) s), release)
      end
  end.

(** ** [publish] and [cancel_message] *)

Definition get_topic_name (h : nat) (s : pointers) : outcome string :=
  let! x := the_handle s h in
  match control_ x with
  | None => Done EmptyString
  | Some c => let! b := the_block s c in Done (cb_topic_name b)
  end.

(** The check at their start. *)
Definition check_message (h : nat) (topic : string) (s : pointers) : outcome unit :=
  let! valid := operator_bool h s in
  if valid then
    let! t := get_topic_name h s in
    if String.eqb topic t then Done () else Exit
  else Exit.

(** What both do before the message leaves the process, run by one thread. *)
Definition take_back (tid h : nat) (topic : string) (s : pointers) : outcome (pointers * Z) :=
  let! _ := check_message h topic s in
  let! p := get h s in
  let! s := invalidate_all_references h s in
  let! s := decrement_borrowed_publisher_num tid s in
  Done (s, p).

(** [publish_core]: the module is given the message, which this process must still own. *)
Definition hand_over (p : Z) (s : pointers) : outcome pointers :=
  if decide (p ∈ loaned s) then
    Done (set_published ({[p]} ∪ published s) (set_loaned (loaned s ∖ {[p]}) s))
  else Undefined.

(** A message the kernel module has handed back ([ret_released_addrs]) is deleted. *)
Definition delete_released (ptr : Z) (s : pointers) : outcome pointers :=
  if decide (ptr ∈ published s) then Done (set_published (published s ∖ {[ptr]}) s) else Undefined.

(** ** Whole methods, run by one thread *)

Definition reset (tid h : nat) (s : pointers) : outcome (pointers * option request) :=
  let! s := reset_begin h s in reset_end tid h s.

Definition copy_assign (tid h r : nat) (void : bool) (s : pointers)
    : outcome (pointers * option request) :=
  if (h =? r)%nat then Done (s, None)
  else let! '(s, release) := reset tid h s in
       let! s := copy h r void s in Done (s, release).

Definition move_assign (tid h r : nat) (void : bool) (s : pointers)
    : outcome (pointers * option request) :=
  if (h =? r)%nat then Done (s, None)
  else let! '(s, release) := reset tid h s in
       let! s := move h r void s in Done (s, release).

Fixpoint delete_all (l : list Z) (s : pointers) : outcome pointers :=
  match l with [] => Done s | p :: l => let! s := delete_released p s in delete_all l s end.

(** [kernel] is the reply of the module to AGNOCAST_PUBLISH_MSG_CMD for the published address. *)
Definition publish (kernel : Z -> list Z) (tid h : nat) (topic : string) (s : pointers)
    : outcome (pointers * option request) :=
  let! '(s, p) := take_back tid h topic s in
  let! s := hand_over p s in
  let! s := delete_all (kernel p) s in
  reset tid h s.

Definition cancel_message (tid h : nat) (topic : string) (s : pointers)
    : outcome (pointers * option request) :=
  let! '(s, p) := take_back tid h topic s in
  let! s := delete_message p s in
  reset tid h s.

(** ** Runs *)

Inductive action :=
  | Borrow (h : nat) (void : bool) (topic : string) (pubsub_id ptr c : Z)
  | Receive (h : nat) (void : bool) (topic : string) (pubsub_id entry_id ptr c : Z)
  | AliasCopy (h r : nat) (void : bool) (ptr : Z)
  | AliasMove (h r : nat) (void : bool) (ptr : Z)
  | DeleteReleased (ptr : Z)
  | ResetBegin (h : nat)
  | ResetEnd (h : nat).

Definition silent (x : outcome pointers) : outcome (pointers * option request) :=
  let! s := x in Done (s, None).

Definition act (tid : nat) (a : action) (s : pointers) : outcome (pointers * option request) :=
  match a with
  | Borrow h void topic pubsub_id ptr c => silent (borrow tid h void topic pubsub_id ptr c s)
  | Receive h void topic pubsub_id entry_id ptr c =>
      silent (receive h void topic pubsub_id entry_id ptr c s)
  | AliasCopy h r void ptr => silent (alias_copy h r void ptr s)
  | AliasMove h r void ptr => silent (alias_move h r void ptr s)
  | DeleteReleased ptr => silent (delete_released ptr s)
  | ResetBegin h => silent (reset_begin h s)
  | ResetEnd h => reset_end tid h s
  end.

Definition shares (c : Z) (x : handle) : Prop := control_ x = Some c.
Definition closes (c : Z) (x : handle) : Prop := fst <$> closing_ x = Some c.
#[export] Instance shares_dec c x : Decision (shares c x) := ltac:(unfold shares; apply _).
#[export] Instance closes_dec c x : Decision (closes c x) := ltac:(unfold closes; apply _).

(** A block of the publisher side whose message is not published. *)
Definition loan (b : control_block) : bool := (cb_entry_id b =? ENTRY_ID_NOT_ASSIGNED) && cb_valid b.

(** What the environment of the class guarantees of an action: [new] returns memory that is in no
    other use; entry ids of the kernel module are not the reserved -1; a loaned message is aliased
    under its own address only (as the casts do); the kernel module hands back what it was given. *)
Definition allowed (s : pointers) (a : action) : Prop :=
  match a with
  | Borrow _ _ _ _ ptr c =>
      blocks s !! c = None /\ ptr <> 0 /\ (ptr ∉ loaned s) /\ ~ (ptr ∈ published s)
  | Receive _ _ _ _ entry_id ptr c => blocks s !! c = None /\ entry_id <> ENTRY_ID_NOT_ASSIGNED
  | AliasCopy _ r _ ptr | AliasMove _ r _ ptr =>
      forall x c b, handles s !! r = Some x -> control_ x = Some c -> blocks s !! c = Some b ->
        loan b = true -> ptr = ptr_ x
  | DeleteReleased ptr => ptr ∈ published s
  | ResetBegin _ | ResetEnd _ => True
  end.

Definition no_pointers (n : nat) : pointers := Pointers (replicate n null_handle) ∅ ∅ ∅ ∅.

(** *** Calls of [publish] and [cancel_message] *)

(** Where such a call on a handle is: what it has done, and the address it has read. *)
Inductive stage :=
  | Checked
  | Read (p : Z)
  | Invalidated (p : Z)
  | Counted (p : Z).

(** A process: its pointers, and for each handle that is the argument of such a call its stage. *)
Record process := Process {
  heap :> pointers;
  calls : gmap nat stage
}.

Inductive step :=
  | Member (a : action)
  | CheckMessage (h : nat) (topic : string)
  | ReadAddress (h : nat)
  | InvalidateAll (h : nat)
  | DecrementBorrowed (h : nat)
  | PublishCore (h : nat)
  | CallDeleter (h : nat).

(** The handles an action reads or writes. *)
Definition touches (a : action) : list nat :=
  match a with
  | Borrow h _ _ _ _ _ | Receive h _ _ _ _ _ _ | ResetBegin h | ResetEnd h => [h]
  | AliasCopy h r _ _ | AliasMove h r _ _ => [h; r]
  | DeleteReleased _ => []
  end.

Definition set_heap (s : pointers) (w : process) : process := Process s (calls w).
Definition set_call (h : nat) (t : stage) (w : process) : process := Process (heap w) (<[h := t]> (calls w)).
Definition end_call (h : nat) (w : process) : process := Process (heap w) (base.delete h (calls w)).

(** One step of thread [tid].  The check, the read, the invalidation, the decrement and the hand-over of
    a call come in this order; the [reset()] at its end is that of any handle. *)
Definition run_step (tid : nat) (e : step) (w : process) : outcome (process * option request) :=
  match e with
  | Member a =>
      if existsb (fun h => bool_decide (is_Some (calls w !! h))) (touches a) then Misuse
      else let! '(s, r) := act tid a (heap w) in Done (set_heap s w, r)
  | CheckMessage h topic =>
      match calls w !! h with
      | Some _ => Misuse
      | None => let! _ := check_message h topic (heap w) in Done (set_call h Checked w, None)
      end
  | ReadAddress h =>
      match calls w !! h with
      | Some Checked => let! p := get h (heap w) in Done (set_call h (Read p) w, None)
      | _ => Misuse
      end
  | InvalidateAll h =>
      match calls w !! h with
      | Some (Read p) =>
          let! s := invalidate_all_references h (heap w) in
          Done (set_call h (Invalidated p) (set_heap s w), None)
      | _ => Misuse
      end
  | DecrementBorrowed h =>
      match calls w !! h with
      | Some (Invalidated p) =>
          let! s := decrement_borrowed_publisher_num tid (heap w) in
          Done (set_call h (Counted p) (set_heap s w), None)
      | _ => Misuse
      end
  | PublishCore h =>
      match calls w !! h with
      | Some (Counted p) => let! s := hand_over p (heap w) in Done (end_call h (set_heap s w), None)
      | _ => Misuse
      end
  | CallDeleter h =>
      match calls w !! h with
      | Some (Counted p) => let! s := delete_message p (heap w) in Done (end_call h (set_heap s w), None)
      | _ => Misuse
      end
  end.

(** Only borrowed messages are published (a received one has a [const] type), on a topic that has a
    name. *)
Definition publishable (s : pointers) (h : nat) (topic : string) : Prop :=
  topic <> EmptyString /\ forall x c b, handles s !! h = Some x -> control_ x = Some c -> blocks s !! c = Some b ->
    cb_entry_id b = ENTRY_ID_NOT_ASSIGNED.

(** No copy of the message of [h] is the argument of a call. *)
Definition no_other_call (w : process) (h : nat) : Prop :=
  forall i x y c, is_Some (calls w !! i) -> handles w !! i = Some y -> control_ y = Some c ->
    handles w !! h = Some x -> control_ x = Some c -> False.

(** The environment of a process: a message is published or cancelled through one of its handles at a
    time. *)
Definition step_allowed (w : process) (e : step) : Prop :=
  match e with
  | Member a => allowed w a
  | CheckMessage h topic => publishable w h topic /\ no_other_call w h
  | _ => True
  end.

Definition start (n : nat) : process := Process (no_pointers n) ∅.

(** A run of any threads: each step with the release it asked of the kernel module. *)
Inductive runs (w0 : process) : list (step * option request) -> process -> Prop :=
  | runs_none : runs w0 [] w0
  | runs_step tr w tid e w' r :
      runs w0 tr w -> step_allowed w e -> run_step tid e w = Done (w', r) -> runs w0 (tr ++ [(e, r)]) w'.

(** The messages of a run that were handed over by the kernel module, and those given back. *)
Definition received (k : request) (e : step * option request) : Prop :=
  match e.1 with
  | Member (Receive _ _ topic pubsub_id entry_id ptr _) => ptr <> 0 /\ (topic, pubsub_id, entry_id) = k
  | _ => False
  end.
Definition released (k : request) (e : step * option request) : Prop := e.2 = Some k.
#[export] Instance received_dec k e : Decision (received k e).
Proof. unfold received. destruct e as [[[]| | | | | |] ?]; apply _. Defined.
#[export] Instance released_dec k e : Decision (released k e) := ltac:(unfold released; apply _).

(** The blocks of the subscriber side that stand for the reference [k]. *)
Definition stands_for (k : request) (b : control_block) : Prop :=
  cb_entry_id b <> ENTRY_ID_NOT_ASSIGNED /\ (cb_topic_name b, cb_pubsub_id b, cb_entry_id b) = k.
#[export] Instance stands_for_dec k b : Decision (stands_for k b) := ltac:(unfold stands_for; apply _).
Definition outstanding (k : request) (s : pointers) : nat :=
  size (filter (fun cb => stands_for k cb.2) (blocks s)).

(** ** The invariant *)

Definition holders (c : Z) (l : list handle) : nat := length (filter (shares c) l).
Definition closers (c : Z) (l : list handle) : nat := length (filter (closes c) l).

(** A block counts the handles that share it; when none is left, one thread is deleting it. *)
Definition accounted (o : option control_block) (n m : nat) : Prop :=
  match o with
  | None => n = 0%nat /\ m = 0%nat
  | Some b => ref_count b = Z.of_nat n /\ (if decide (n = 0%nat) then m = 1%nat else m = 0%nat)
  end.

(** The block a handle still answers for, and the address it stores for it. *)
Definition owned (x : handle) : option (Z * Z) :=
  match control_ x with Some c => Some (c, ptr_ x) | None => closing_ x end.

(** [loans] gives the message of each block of a borrowed message: these are exactly the messages
    allocated and not published, and the address every handle of the block stores. *)
Record loans_ok (s : pointers) (loans : gmap Z Z) : Prop := LoansOk {
  loans_blocks c : is_Some (loans !! c) <-> exists b, blocks s !! c = Some b /\ loan b = true;
  loans_loaned p : p ∈ loaned s <-> exists c, loans !! c = Some p;
  loans_distinct c c' p : loans !! c = Some p -> loans !! c' = Some p -> c = c';
  loans_not_null c p : loans !! c = Some p -> p <> 0;
  loans_stored h x c p q :
    handles s !! h = Some x -> owned x = Some (c, p) -> loans !! c = Some q -> p = q
}.

Record ptr_ok (s : pointers) : Prop := PtrOk {
  ok_count c : accounted (blocks s !! c) (holders c (handles s)) (closers c (handles s));
  ok_one h x c : handles s !! h = Some x -> control_ x = Some c -> closing_ x = None;
  ok_loans : exists loans, loans_ok s loans;
  ok_size : Z.of_nat (length (handles s)) < 2 ^ 32
}.

Lemma bind_Done {A B} (x : outcome A) (f : A -> outcome B) y :
  bind x f = Done y -> exists a, x = Done a /\ f a = Done y.
Proof. destruct x; [eauto|done..]. Qed.

Lemma the_handle_Done s h x :
  the_handle s h = Done x <-> handles s !! h = Some x /\ closing_ x = None.
Proof.
  unfold the_handle. destruct (handles s !! h) as [[v p c [q|]]|]; split; intros H;
    destruct_and?; simplify_eq; try done.
Qed.

Lemma the_block_Done s c b : the_block s c = Done b <-> blocks s !! c = Some b.
Proof. unfold the_block. destruct (blocks s !! c); split; congruence. Qed.

(** Takes apart what an action that is done went through. *)
Ltac done_inv :=
  repeat match goal with
  | H : bind _ _ = Done _ |- _ =>
      let y := fresh "y" in let E := fresh "E" in
      apply bind_Done in H as (y & E & H)
  | H : the_handle _ _ = Done _ |- _ => apply the_handle_Done in H as [? ?]
  | H : the_block _ _ = Done _ |- _ => apply the_block_Done in H
  | H : Done _ = Done _ |- _ => injection H as ?; subst
  | H : (_, _) = (_, _) |- _ => injection H as ?; subst
  end.

Lemma loan_set_ref_count n b : loan (set_ref_count n b) = loan b.
Proof. done. Qed.

Lemma owned_control x c : control_ x = Some c -> owned x = Some (c, ptr_ x).
Proof. by unfold owned; intros ->. Qed.

Section invariant.
Context (s : pointers) (Hok : ptr_ok s).

Lemma shared_block h x c :
  handles s !! h = Some x -> control_ x = Some c ->
  exists b, blocks s !! c = Some b /\ 1 <= ref_count b < 2 ^ 32 /\ closers c (handles s) = 0%nat.
Proof.
  intros Hx Hc. pose proof (ok_count _ Hok c) as Ha. pose proof (ok_size _ Hok).
  pose proof (count_pos (shares c) _ _ _ Hx Hc) as Hp.
  pose proof (length_filter (shares c) (handles s)). unfold holders, closers in *.
  destruct (blocks s !! c) as [b|]; simpl in Ha; [|lia].
  exists b. split; [done|]. case_decide; lia.
Qed.

Lemma closing_block h x c p :
  handles s !! h = Some x -> closing_ x = Some (c, p) ->
  exists b, blocks s !! c = Some b /\ control_ x = None /\ owned x = Some (c, p).
Proof.
  intros Hx Hc. pose proof (ok_count _ Hok c) as Ha.
  assert (closes c x) as Hcl by by rw /closes Hc.
  pose proof (count_pos (closes c) _ _ _ Hx Hcl) as Hp. unfold closers in *.
  destruct (blocks s !! c) as [b|]; simpl in Ha; [|lia]. exists b.
  assert (control_ x = None) as Hn.
  { destruct (control_ x) eqn:E; [|done]. pose proof (ok_one _ Hok _ _ _ Hx E). congruence. }
  unfold owned. by rw Hn.
Qed.

Lemma fresh_block c h x :
  blocks s !! c = None -> handles s !! h = Some x -> ~ shares c x /\ ~ closes c x.
Proof.
  intros Hc Hx. pose proof (ok_count _ Hok c) as Ha. rw Hc in Ha. destruct Ha.
  split; eapply count_zero; eauto.
Qed.
End invariant.

(** Recounts the handles of every block after handle [h], which was [y], became [x]. *)
Ltac recount Hok Hy x :=
  let c := fresh "c'" in let Ha := fresh "Ha" in
  intros c; pose proof (ok_count _ Hok c) as Ha; unfold holders, closers in *; simpl in *;
  pose proof (count_insert (shares c) _ _ x _ Hy); pose proof (count_insert (closes c) _ _ x _ Hy);
  unfold shares, closes in *; simpl in *.

Ltac recounted := repeat case_decide; simplify_eq/=; first [lia | congruence].

Lemma set_handle_one s h x :
  (forall h x c, handles s !! h = Some x -> control_ x = Some c -> closing_ x = None) ->
  (control_ x = None \/ closing_ x = None) ->
  forall h' x' c, <[h := x]> (handles s) !! h' = Some x' -> control_ x' = Some c -> closing_ x' = None.
Proof.
  intros H Hx h' x' c [(-> & <- & ?)|[? ?]]%list_lookup_insert_Some Hc; [|by eauto].
  destruct Hx; congruence.
Qed.

Lemma set_handle_loans s s' h x loans :
  loans_ok s loans -> handles s' = <[h := x]> (handles s) -> loaned s' = loaned s ->
  (forall c, (exists b, blocks s' !! c = Some b /\ loan b = true)
             <-> (exists b, blocks s !! c = Some b /\ loan b = true)) ->
  (forall c p q, owned x = Some (c, p) -> loans !! c = Some q -> p = q) ->
  loans_ok s' loans.
Proof.
  intros L Hh Hl Hb Hx. constructor; try apply L.
  - intros c. rw Hb. apply L.
  - intros p. rw Hl. apply L.
  - intros h' x' c p q. rw Hh. intros [(-> & <- & ?)|[? ?]]%list_lookup_insert_Some Ho Hq; eauto.
    by eapply loans_stored.
Qed.

(** Filling a null handle. *)
Section fills.
Context (s : pointers) (h : nat) (v0 : bool) (p0 : Z) (void : bool) (ptr : Z).
Context (Hok : ptr_ok s) (Hy : handles s !! h = Some (Handle v0 p0 None None)).

Lemma fill_null : ptr_ok (set_handle h (Handle void ptr None None) s).
Proof.
  constructor; simpl.
  - recount Hok Hy (Handle void ptr None None).
    unfold accounted in *. destruct (blocks s !! c'); recounted.
  - apply set_handle_one; [apply Hok|auto].
  - destruct (ok_loans _ Hok) as [loans L]. exists loans.
    by eapply set_handle_loans with (h := h).
  - rw length_insert. apply Hok.
Qed.

(** A new block with one reference, for a received message. *)
Lemma fill_received c b :
  blocks s !! c = None -> ref_count b = 1 -> loan b = false ->
  ptr_ok (set_handle h (Handle void ptr (Some c) None) (set_blocks (<[c := b]> (blocks s)) s)).
Proof.
  intros Hc Hr Hl. constructor; simpl.
  - recount Hok Hy (Handle void ptr (Some c) None). unfold accounted in *.
    destruct (decide (c' = c)) as [->|].
    + rw lookup_insert_eq. rw Hc in Ha. recounted.
    + rw lookup_insert_ne //. destruct (blocks s !! c'); recounted.
  - apply (set_handle_one s); [apply Hok|auto].
  - destruct (ok_loans _ Hok) as [loans L]. exists loans.
    eapply (set_handle_loans s _ h); [done..| |].
    + intros c'. simpl. destruct (decide (c' = c)) as [->|].
      * rw lookup_insert_eq Hc. split; intros (? & ? & ?); congruence.
      * by rw lookup_insert_ne.
    + unfold owned. simpl. intros ? ? q [= <- <-] Hq.
      destruct (proj1 (loans_blocks _ _ L c)) as (? & ? & ?); [eauto|congruence].
  - rw length_insert. apply Hok.
Qed.

(** A new block for a borrowed message. *)
Lemma fill_borrowed c b bor :
  blocks s !! c = None -> ref_count b = 1 -> loan b = true -> ptr <> 0 -> ptr ∉ loaned s ->
  ptr_ok (set_handle h (Handle void ptr (Some c) None)
            (set_blocks (<[c := b]> (blocks s)) (set_loaned ({[ptr]} ∪ loaned s) (set_borrowed bor s)))).
Proof.
  intros Hc Hr Hl Hp Hn. constructor; simpl.
  - recount Hok Hy (Handle void ptr (Some c) None). unfold accounted in *.
    destruct (decide (c' = c)) as [->|].
    + rw lookup_insert_eq. rw Hc in Ha. recounted.
    + rw lookup_insert_ne //. destruct (blocks s !! c'); recounted.
  - apply (set_handle_one s); [apply Hok|auto].
  - destruct (ok_loans _ Hok) as [loans L]. exists (<[c := ptr]> loans).
    assert (Hno : forall c', loans !! c' = Some ptr -> False).
    { intros c' H'. apply Hn, (loans_loaned _ _ L). eauto. }
    constructor; simpl.
    + intros c'. destruct (decide (c' = c)) as [->|].
      * rw !lookup_insert_eq. split; eauto.
      * rw !lookup_insert_ne //. apply L.
    + intros p. rw elem_of_union elem_of_singleton (loans_loaned _ _ L). split.
      * intros [->|[c' H']]; [exists c; by rw lookup_insert_eq|]. exists c'.
        rw lookup_insert_ne //. intros <-.
        destruct (proj1 (loans_blocks _ _ L c)) as (? & ? & ?); [eauto|congruence].
      * intros [c' [[-> ->]|[? ?]]%lookup_insert_Some]; eauto.
    + intros c1 c2 p [[<- <-]|[? ?]]%lookup_insert_Some [[<- ?]|[? ?]]%lookup_insert_Some; subst;
        [done|by exfalso; eauto..|by eapply loans_distinct].
    + intros c' p [[<- <-]|[? ?]]%lookup_insert_Some; [done|by eapply loans_not_null].
    + intros h' x c' p q [(-> & <- & ?)|[? Hx]]%list_lookup_insert_Some Ho
        [[<- <-]|[? ?]]%lookup_insert_Some.
      * by unfold owned in Ho; simplify_eq/=.
      * unfold owned in Ho; simplify_eq/=.
      * exfalso. unfold owned in Ho. destruct (fresh_block _ Hok _ _ _ Hc Hx) as [Hs Hcl].
        unfold shares, closes in *. destruct (control_ x); simplify_eq.
        by rw Ho in Hcl.
      * by eapply loans_stored.
  - rw length_insert. apply Hok.
Qed.
End fills.

Lemma loan_some_insert s c b b' c' :
  blocks s !! c = Some b -> loan b' = loan b ->
  ((exists b0, <[c := b']> (blocks s) !! c' = Some b0 /\ loan b0 = true)
   <-> (exists b0, blocks s !! c' = Some b0 /\ loan b0 = true)).
Proof.
  intros Hc Hl. destruct (decide (c' = c)) as [->|].
  - rw lookup_insert_eq Hc. split; intros (? & ? & ?); simplify_eq; rw ?Hl in H0 |- *; eauto; congruence.
  - by rw lookup_insert_ne.
Qed.

(** [h] starts to share the block of [r]. *)
Lemma fill_shared s h v0 p0 void ptr c b r x :
  ptr_ok s -> handles s !! h = Some (Handle v0 p0 None None) ->
  handles s !! r = Some x -> control_ x = Some c -> blocks s !! c = Some b ->
  (loan b = true -> ptr = ptr_ x) ->
  ptr_ok (set_blocks (<[c := set_ref_count (u32 (ref_count b + 1)) b]> (blocks s))
            (set_handle h (Handle void ptr (Some c) None) s)).
Proof.
  intros Hok Hy Hr Hc Hb Hp. constructor; simpl.
  - recount Hok Hy (Handle void ptr (Some c) None).
    pose proof (count_pos (shares c) _ _ _ Hr Hc).
    pose proof (length_filter (fun x => control_ x = Some c') (<[h:=Handle void ptr (Some c) None]> (handles s))).
    rw length_insert in H2. pose proof (ok_size _ Hok). unfold accounted, shares in *.
    destruct (decide (c' = c)) as [->|].
    + rw lookup_insert_eq. rw Hb in Ha. simpl. unfold u32. rw Z.mod_small; recounted.
    + rw lookup_insert_ne //. destruct (blocks s !! c'); recounted.
  - apply (set_handle_one s); [apply Hok|auto].
  - destruct (ok_loans _ Hok) as [loans L]. exists loans.
    eapply (set_handle_loans s _ h); [done..| |].
    + intros c'. by eapply loan_some_insert.
    + unfold owned. simpl. intros ? ? q [= <- <-] Hq.
      destruct (proj1 (loans_blocks _ _ L c)) as (b' & ? & ?); [eauto|]. simplify_eq.
      rw Hp; [|done]. eapply loans_stored; [done..| |done]. by apply owned_control.
  - rw length_insert. apply Hok.
Qed.

(** [h] takes the share of [r] over. *)
Lemma fill_moved s h v0 p0 void ptr r x :
  ptr_ok s -> handles s !! h = Some (Handle v0 p0 None None) -> h <> r ->
  handles s !! r = Some x -> closing_ x = None ->
  (forall c b, control_ x = Some c -> blocks s !! c = Some b -> loan b = true -> ptr = ptr_ x) ->
  ptr_ok (set_handle r (Handle (void_ x) 0 None None) (set_handle h (Handle void ptr (control_ x) None) s)).
Proof.
  intros Hok Hy Hn Hr Hcl Hp. destruct x as [vr pr cr ?]. simplify_eq/=. constructor; simpl.
  - recount Hok Hy (Handle void ptr cr None).
    pose proof (list_lookup_insert_ne (handles s) h r (Handle void ptr cr None) Hn) as Hr'.
    rw Hr in Hr'.
    pose proof (count_insert (shares c') _ _ (Handle vr 0 None None) _ Hr').
    pose proof (count_insert (closes c') _ _ (Handle vr 0 None None) _ Hr').
    unfold accounted, shares, closes in *. destruct (blocks s !! c'); recounted.
  - eapply (set_handle_one (set_handle h _ s)); [|auto]. apply (set_handle_one s); [apply Hok|auto].
  - destruct (ok_loans _ Hok) as [loans L]. exists loans.
    eapply (set_handle_loans (set_handle h _ s) _ r); [|done..].
    eapply (set_handle_loans s _ h); [done..|]. unfold owned; simpl.
    intros c p q Ho Hq. destruct cr as [c'|]; simplify_eq.
    destruct (proj1 (loans_blocks _ _ L c)) as (b & ? & ?); [eauto|].
    rw (Hp c b) //. by eapply (loans_stored _ _ L r).
  - rw !length_insert. apply Hok.
Qed.

(** [h] gives up its share; when it was the last one it closes the block. *)
Lemma drop_share s h x c b :
  ptr_ok s -> handles s !! h = Some x -> closing_ x = None -> control_ x = Some c ->
  blocks s !! c = Some b ->
  ptr_ok (set_handle h (Handle (void_ x) 0 None (if ref_count b =? 1 then Some (c, ptr_ x) else None))
            (set_blocks (<[c := set_ref_count (u32 (ref_count b - 1)) b]> (blocks s)) s)).
Proof.
  intros Hok Hx Hcl Hc Hb. destruct x as [vx px ? ?]. simplify_eq/=.
  destruct (shared_block _ Hok _ _ _ Hx eq_refl) as (b0 & Hb0 & ? & ?). rw Hb in Hb0. injection Hb0 as <-.
  constructor; simpl.
  - recount Hok Hx (Handle vx 0 None (if ref_count b =? 1 then Some (c, px) else None)).
    unfold accounted in *. destruct (decide (c' = c)) as [->|].
    + rw lookup_insert_eq. rw Hb in Ha. simpl. unfold u32. rw Z.mod_small; [|lia].
      destruct (ref_count b =? 1) eqn:E; bool_to_prop; recounted.
    + rw lookup_insert_ne //. destruct (ref_count b =? 1), (blocks s !! c'); recounted.
  - apply (set_handle_one s); [apply Hok|auto].
  - destruct (ok_loans _ Hok) as [loans L]. exists loans.
    eapply (set_handle_loans s _ h); [done..| |].
    + intros c'. by eapply loan_some_insert.
    + unfold owned; simpl. intros c' p q Ho Hq. destruct (_ =? _); simplify_eq.
      by eapply loans_stored.
  - rw length_insert. apply Hok.
Qed.

(** The loan of a block ends: its message is published or freed. *)
Lemma end_loan s s' loans c p x h :
  loans_ok s loans -> handles s !! h = Some x -> owned x = Some (c, p) ->
  loaned s' = loaned s ∖ {[p]} -> is_Some (loans !! c) ->
  (forall h' x' c' p', handles s' !! h' = Some x' -> owned x' = Some (c', p') ->
     exists h'' x'', handles s !! h'' = Some x'' /\ owned x'' = Some (c', p')) ->
  (forall c', (exists b, blocks s' !! c' = Some b /\ loan b = true)
              <-> c' <> c /\ (exists b, blocks s !! c' = Some b /\ loan b = true)) ->
  loans_ok s' (base.delete c loans).
Proof.
  intros L Hx Ho Hl [q Hq] Hh Hb.
  assert (p = q) as -> by by eapply loans_stored.
  constructor.
  - intros c'. rw Hb -(loans_blocks _ _ L) lookup_delete_is_Some. naive_solver.
  - intros p. rw Hl elem_of_difference elem_of_singleton (loans_loaned _ _ L). split.
    + intros [[c' Hc'] Hn]. exists c'. rw lookup_delete_ne //. naive_solver.
    + intros [c' [Hn Hc']%lookup_delete_Some]. split; [eauto|].
      intros ->. by apply Hn, (loans_distinct _ _ L _ _ q).
  - intros c1 c2 p [? ?]%lookup_delete_Some [? ?]%lookup_delete_Some. by eapply loans_distinct.
  - intros c' p [? ?]%lookup_delete_Some. by eapply loans_not_null.
  - intros h' x' c' p' q' Hx' Ho' [? ?]%lookup_delete_Some.
    destruct (Hh _ _ _ _ Hx' Ho') as (? & ? & ? & ?). by eapply loans_stored.
Qed.

Lemma invalidate_ok s h x c b bor pub :
  ptr_ok s -> handles s !! h = Some x -> control_ x = Some c -> blocks s !! c = Some b ->
  loan b = true ->
  ptr_ok (Pointers (handles s) (<[c := set_invalid b]> (blocks s)) (loaned s ∖ {[ptr_ x]}) pub bor).
Proof.
  intros Hok Hx Hc Hb Hl. constructor; simpl.
  - intros c'. pose proof (ok_count _ Hok c') as Ha. destruct (decide (c' = c)) as [->|].
    + rw lookup_insert_eq. by rw Hb in Ha.
    + by rw lookup_insert_ne.
  - apply Hok.
  - destruct (ok_loans _ Hok) as [loans L]. exists (base.delete c loans).
    eapply end_loan; [done..|by apply owned_control|done|apply L; eauto|by eauto|].
    intros c'. simpl. destruct (decide (c' = c)) as [->|].
    + rw lookup_insert_eq. split; [|naive_solver]. intros (b' & [= <-] & H).
      unfold loan in H. simpl in H. by rw andb_false_r in H.
    + rw lookup_insert_ne //. naive_solver.
  - apply Hok.
Qed.

(** The thread that closes a block deletes it, with its message if it is a loan. *)
Lemma delete_ok s h x c p b bor :
  ptr_ok s -> handles s !! h = Some x -> closing_ x = Some (c, p) -> blocks s !! c = Some b ->
  ptr_ok (Pointers (<[h := Handle (void_ x) 0 None None]> (handles s)) (base.delete c (blocks s))
            (if loan b then loaned s ∖ {[p]} else loaned s) (published s) bor).
Proof.
  intros Hok Hx Hcl Hb. destruct (closing_block _ Hok _ _ _ _ Hx Hcl) as (b0 & Hb0 & Hc & Ho).
  rw Hb in Hb0. injection Hb0 as <-. destruct x as [vx px ? ?]. simplify_eq/=. constructor; simpl.
  - recount Hok Hx (Handle vx 0 None None). unfold accounted in *.
    destruct (decide (c' = c)) as [->|].
    + rw lookup_delete_eq. rw Hb in Ha. recounted.
    + rw lookup_delete_ne //. destruct (blocks s !! c'); recounted.
  - apply (set_handle_one s); [apply Hok|auto].
  - destruct (ok_loans _ Hok) as [loans L]. destruct (loan b) eqn:Hl.
    + exists (base.delete c loans).
      eapply end_loan; [exact L|exact Hx|exact Ho|done|apply L; eauto| |]; simpl.
      * intros h' x' c' p' [(-> & <- & ?)|[? ?]]%list_lookup_insert_Some Ho'; [done|eauto].
      * intros c'. destruct (decide (c' = c)) as [->|].
        -- rw lookup_delete_eq. naive_solver.
        -- rw lookup_delete_ne //. naive_solver.
    + exists loans. eapply (set_handle_loans s _ h); [done..| |done].
      intros c'. simpl. destruct (decide (c' = c)) as [->|].
      * rw lookup_delete_eq. naive_solver congruence.
      * by rw lookup_delete_ne.
  - rw length_insert. apply Hok.
Qed.

Lemma ok_other s bor pub : ptr_ok s -> ptr_ok (Pointers (handles s) (blocks s) (loaned s) pub bor).
Proof.
  intros Hok. constructor; try apply Hok. destruct (ok_loans _ Hok) as [loans L].
  exists loans. constructor; apply L.
Qed.

Lemma decrement_Done tid s s' :
  decrement_borrowed_publisher_num tid s = Done s' ->
  s' = set_borrowed (<[tid := borrowed_by s tid - 1]> (borrowed s)) s.
Proof. unfold decrement_borrowed_publisher_num. destruct (_ =? _); congruence. Qed.

Lemma get_Done s h p :
  get h s = Done p -> exists x, handles s !! h = Some x /\ closing_ x = None /\
    match control_ x with
    | None => p = ptr_ x
    | Some c => exists b, blocks s !! c = Some b /\ p = if cb_valid b then ptr_ x else 0
    end.
Proof.
  unfold get, is_invalidated. intros H. done_inv. exists y. split; [done|]. split; [done|].
  destruct (control_ y) as [c|]; done_inv; [|done]. exists y1. split; [done|].
  by destruct (cb_valid y1).
Qed.

Lemma check_message_Done h topic s :
  check_message h topic s = Done () -> topic <> EmptyString ->
  exists x c b, handles s !! h = Some x /\ closing_ x = None /\ control_ x = Some c /\
    blocks s !! c = Some b /\ cb_valid b = true /\ ptr_ x <> 0 /\ topic = cb_topic_name b.
Proof.
  intros H Ht. unfold check_message, operator_bool in H. apply bind_Done in H as (valid & H1 & H).
  apply bind_Done in H1 as (p & H1 & [= <-]). apply get_Done in H1 as (x & Hx & Hcl & Hg).
  assert (the_handle s h = Done x) as Hh by by apply the_handle_Done.
  destruct (Z.eqb_spec p 0) as [|Hp]; [done|]. simpl in H. unfold get_topic_name in H. rw Hh /= in H.
  destruct (control_ x) as [c|] eqn:Hc.
  2:{ simpl in H. destruct (String.eqb_spec topic EmptyString); done. }
  destruct Hg as (b & Hb & ->). unfold the_block in H. rw Hb /= in H.
  destruct (String.eqb_spec topic (cb_topic_name b)) as [->|]; [|done].
  exists x, c, b. by destruct (cb_valid b).
Qed.

Lemma invalidate_Done h s s' x c :
  invalidate_all_references h s = Done s' -> handles s !! h = Some x -> control_ x = Some c ->
  exists b, blocks s !! c = Some b /\ s' = set_blocks (<[c := set_invalid b]> (blocks s)) s.
Proof.
  unfold invalidate_all_references. intros H Hx Hc. done_inv. simplify_eq. rw Hc in H. done_inv.
  by eexists.
Qed.

Lemma fill_Done h x s s' :
  fill h x s = Done s' ->
  exists v p, handles s !! h = Some (Handle v p None None) /\ s' = set_handle h x s.
Proof.
  unfold fill. intros H. done_inv. destruct y as [v p [c|] r]; simplify_eq/=. by exists v, p.
Qed.

Lemma borrow_ok tid h void topic pubsub_id ptr c s s' :
  ptr_ok s -> allowed s (Borrow h void topic pubsub_id ptr c) ->
  borrow tid h void topic pubsub_id ptr c s = Done s' -> ptr_ok s'.
Proof.
  intros Hok (? & ? & ? & ?) (v & p & ? & ->)%fill_Done. by apply (fill_borrowed s h v p).
Qed.

Lemma receive_ok h void topic pubsub_id entry_id ptr c s s' :
  ptr_ok s -> allowed s (Receive h void topic pubsub_id entry_id ptr c) ->
  receive h void topic pubsub_id entry_id ptr c s = Done s' -> ptr_ok s'.
Proof.
  intros Hok [? Hid]. unfold receive. destruct (_ =? _); intros (v & p & ? & ->)%fill_Done.
  - by apply (fill_null s h v p).
  - apply (fill_received s h v p); try done. unfold loan. simpl.
    by apply Z.eqb_neq in Hid as ->.
Qed.

Lemma alias_copy_ok h r void ptr s s' :
  ptr_ok s -> allowed s (AliasCopy h r void ptr) -> alias_copy h r void ptr s = Done s' -> ptr_ok s'.
Proof.
  intros Hok Ha. unfold alias_copy. intros H. done_inv.
  match goal with H : fill _ _ _ = _ |- _ => apply fill_Done in H as (v & p & ? & ->) end.
  unfold increment in H. destruct (control_ y) as [c|] eqn:Hc; done_inv.
  - simpl in *. eapply (fill_shared s h v p _ _ c _ r y); [done..|]. intros. by eapply Ha.
  - by apply (fill_null s h v p).
Qed.

Lemma alias_move_ok h r void ptr s s' :
  ptr_ok s -> allowed s (AliasMove h r void ptr) -> alias_move h r void ptr s = Done s' -> ptr_ok s'.
Proof.
  intros Hok Ha. unfold alias_move. intros H. done_inv. destruct (Nat.eqb_spec h r); [done|]. done_inv.
  match goal with H : fill _ _ _ = _ |- _ => apply fill_Done in H as (v & p & ? & ->) end.
  eapply (fill_moved s h v p _ _ r y); [done..|]. intros. by eapply Ha.
Qed.

Lemma reset_begin_ok h s s' : ptr_ok s -> reset_begin h s = Done s' -> ptr_ok s'.
Proof.
  intros Hok H. unfold reset_begin in H. done_inv. destruct (control_ y) as [c|] eqn:Hc; done_inv.
  - by eapply (drop_share s).
  - done.
Qed.

Lemma loaned_block s h x c b :
  ptr_ok s -> handles s !! h = Some x -> owned x = Some (c, ptr_ x) -> blocks s !! c = Some b ->
  loan b = true -> ptr_ x ∈ loaned s.
Proof.
  intros Hok Hx Ho Hb Hl. destruct (ok_loans _ Hok) as [loans L].
  destruct (proj2 (loans_blocks _ _ L c)) as [q Hq]; [eauto|].
  apply (loans_loaned _ _ L). exists c. rw Hq. f_equal. symmetry. by eapply loans_stored.
Qed.

Lemma delete_message_loaned p s :
  p ∈ loaned s -> p <> 0 -> delete_message p s = Done (set_loaned (loaned s ∖ {[p]}) s).
Proof. intros ? ?. unfold delete_message. rw (proj2 (Z.eqb_neq p 0)) // decide_True //. Qed.

Lemma closed_loan s h x c p b :
  ptr_ok s -> handles s !! h = Some x -> closing_ x = Some (c, p) -> blocks s !! c = Some b ->
  loan b = true -> p ∈ loaned s /\ p <> 0.
Proof.
  intros Hok Hx Hcl Hb Hl. destruct (closing_block _ Hok _ _ _ _ Hx Hcl) as (_ & _ & _ & Ho).
  destruct (ok_loans _ Hok) as [loans L].
  destruct (proj2 (loans_blocks _ _ L c)) as [q Hq]; [eauto|].
  assert (p = q) as -> by by eapply loans_stored.
  split; [apply (loans_loaned _ _ L); eauto|by eapply loans_not_null].
Qed.

(** The second half of [reset()] on every branch. *)
Lemma reset_end_cases tid h s x :
  ptr_ok s -> handles s !! h = Some x ->
  reset_end tid h s =
  match closing_ x with
  | None => Done (s, None)
  | Some (c, p) =>
      match blocks s !! c with
      | None => Undefined
      | Some b =>
          let fin l bor := Pointers (<[h := Handle (void_ x) 0 None None]> (handles s))
                             (base.delete c (blocks s)) l (published s) bor in
          if loan b then
            if (borrowed_by s tid =? 0) || void_ x then Exit
            else Done (fin (loaned s ∖ {[p]}) (<[tid := borrowed_by s tid - 1]> (borrowed s)), None)
          else Done (fin (loaned s) (borrowed s),
                     if cb_entry_id b =? ENTRY_ID_NOT_ASSIGNED then None
                     else Some (cb_topic_name b, cb_pubsub_id b, cb_entry_id b))
      end
  end.
Proof.
  intros Hok Hx. unfold reset_end. rw Hx. destruct (closing_ x) as [[c p]|] eqn:Hcl; [|done].
  unfold the_block. destruct (blocks s !! c) as [b|] eqn:Hb; [|done]. simpl.
  pose proof (closed_loan _ _ _ _ _ _ Hok Hx Hcl Hb) as Hl. unfold loan in *.
  destruct (cb_entry_id b =? ENTRY_ID_NOT_ASSIGNED); [|by destruct s]. simpl in *.
  destruct (cb_valid b); [|by destruct s]. unfold decrement_borrowed_publisher_num.
  destruct (_ =? 0); [done|]. simpl. destruct (void_ x); [done|].
  destruct Hl; [done|]. by rw delete_message_loaned.
Qed.

Lemma reset_end_ok tid h s s' r : ptr_ok s -> reset_end tid h s = Done (s', r) -> ptr_ok s'.
Proof.
  intros Hok H. destruct (handles s !! h) as [x|] eqn:Hx; [|by unfold reset_end in H; rw Hx in H].
  rw (reset_end_cases _ _ _ x) // in H. destruct (closing_ x) as [[c p]|] eqn:Hcl; [|by done_inv].
  destruct (blocks s !! c) as [b|] eqn:Hb; [|done]. simpl in H.
  pose proof (fun bor => delete_ok s h x c p b bor Hok Hx Hcl Hb) as Hd.
  destruct (loan b); [destruct (_ || _)|]; done_inv; done.
Qed.

Lemma act_ok tid a s s' r : ptr_ok s -> allowed s a -> act tid a s = Done (s', r) -> ptr_ok s'.
Proof.
  intros Hok Ha H. destruct a; simpl in H; unfold silent in H.
  - done_inv. by eapply borrow_ok.
  - done_inv. by eapply receive_ok.
  - done_inv. by eapply alias_copy_ok.
  - done_inv. by eapply alias_move_ok.
  - done_inv. unfold delete_released in E. destruct (decide _); [|done]. injection E as <-.
    by apply ok_other.
  - done_inv. by eapply reset_begin_ok.
  - by eapply reset_end_ok.
Qed.

Lemma no_pointers_ok n : Z.of_nat n < 2 ^ 32 -> ptr_ok (no_pointers n).
Proof.
  intros Hn. assert (Hz : forall P `{!forall x : handle, Decision (P x)},
    ~ P null_handle -> length (filter P (replicate n null_handle)) = 0%nat).
  { intros P ? HP. induction n as [|n IH]; [done|]. simpl. rw filter_cons_False //. apply IH. lia. }
  constructor; simpl.
  - intros c. rw lookup_empty. split; by apply Hz.
  - intros h x c [-> _]%lookup_replicate. done.
  - exists ∅. constructor; simpl; try set_solver.
    intros c. rw !lookup_empty. split; [intros [? ?]|intros (? & ? & ?)]; done.
  - by rw length_replicate.
Qed.

(** ** No memory is used after it was freed *)

Lemma bind_defined {A B} (x : outcome A) (f : A -> outcome B) :
  x <> Undefined -> (forall a, x = Done a -> f a <> Undefined) -> bind x f <> Undefined.
Proof. destruct x; simpl; [|done..]. intros _ H. by apply H. Qed.

Lemma the_handle_defined s h : the_handle s h <> Undefined.
Proof. unfold the_handle. by destruct (handles s !! h) as [[? ? ? [|]]|]. Qed.

Lemma fill_defined h x s : fill h x s <> Undefined.
Proof.
  apply bind_defined; [apply the_handle_defined|]. intros y _. by destruct (control_ y).
Qed.

Lemma the_block_defined s h x c :
  ptr_ok s -> handles s !! h = Some x -> control_ x = Some c -> the_block s c <> Undefined.
Proof.
  intros Hok Hx Hc. destruct (shared_block _ Hok _ _ _ Hx Hc) as (b & Hb & _).
  unfold the_block. by rw Hb.
Qed.

Lemma get_defined h s : ptr_ok s -> get h s <> Undefined.
Proof.
  intros Hok. apply bind_defined; [apply the_handle_defined|]. intros x Hx. done_inv.
  apply bind_defined; [|done]. unfold is_invalidated. destruct (control_ x) as [c|] eqn:Hc; [|done].
  apply bind_defined; [by eapply the_block_defined|done].
Qed.

Lemma check_message_defined h topic s : ptr_ok s -> check_message h topic s <> Undefined.
Proof.
  intros Hok. apply bind_defined.
  - apply bind_defined; [by apply get_defined|done].
  - intros valid _. destruct valid; [|done]. apply bind_defined.
    + apply bind_defined; [apply the_handle_defined|]. intros x Hx. done_inv.
      destruct (control_ x) as [c|] eqn:Hc; [|done]. apply bind_defined; [by eapply the_block_defined|done].
    + intros t _. by destruct (String.eqb topic t).
Qed.

Lemma invalidate_defined h s : ptr_ok s -> invalidate_all_references h s <> Undefined.
Proof.
  intros Hok. apply bind_defined; [apply the_handle_defined|]. intros x Hx. done_inv.
  destruct (control_ x) as [c|] eqn:Hc; [|done]. apply bind_defined; [by eapply the_block_defined|done].
Qed.

Lemma decrement_defined tid s : decrement_borrowed_publisher_num tid s <> Undefined.
Proof. unfold decrement_borrowed_publisher_num. by destruct (_ =? _). Qed.

Lemma reset_end_defined tid h s : ptr_ok s -> reset_end tid h s <> Undefined.
Proof.
  intros Hok. destruct (handles s !! h) as [x|] eqn:Hx; [|by unfold reset_end; rw Hx].
  rw (reset_end_cases _ _ _ x) //. destruct (closing_ x) as [[c p]|] eqn:Hcl; [|done].
  destruct (closing_block _ Hok _ _ _ _ Hx Hcl) as (b & -> & _). simpl.
  destruct (loan b); [by destruct (_ || _)|done].
Qed.

Lemma act_defined tid a s : ptr_ok s -> allowed s a -> act tid a s <> Undefined.
Proof.
  intros Hok Ha. destruct a; simpl; unfold silent.
  - apply bind_defined; [apply fill_defined|done].
  - apply bind_defined; [|done]. unfold receive. destruct (_ =? _); apply fill_defined.
  - apply bind_defined; [|done]. apply bind_defined; [apply the_handle_defined|]. intros x Hx. done_inv.
    apply bind_defined; [apply fill_defined|]. intros s1 (v & p & _ & ->)%fill_Done.
    unfold increment. destruct (control_ x) as [c|] eqn:Hc; [|done].
    apply bind_defined; [by apply (the_block_defined s r x c)|done].
  - apply bind_defined; [|done]. apply bind_defined; [apply the_handle_defined|]. intros x Hx.
    destruct (_ =? _)%nat; [done|]. apply bind_defined; [apply fill_defined|done].
  - apply bind_defined; [|done]. unfold delete_released. by rw decide_True.
  - apply bind_defined; [|done]. apply bind_defined; [apply the_handle_defined|]. intros x Hx. done_inv.
    destruct (control_ x) as [c|] eqn:Hc; [|done].
    apply bind_defined; [by eapply the_block_defined|done].
  - by apply reset_end_defined.
Qed.

(** ** Every reference of the kernel module is given back once *)

Definition counts {A} (P : A -> Prop) `{!forall x, Decision (P x)} (x : A) : nat :=
  if decide (P x) then 1%nat else 0%nat.

Section outstanding.
Context (k : request).
Definition live (B : gmap Z control_block) : nat := size (filter (fun cb => stands_for k cb.2) B).

Lemma live_fresh B c b :
  B !! c = None -> live (<[c := b]> B) = (counts (stands_for k) b + live B)%nat.
Proof.
  intros Hc. unfold live, counts. case_decide.
  - rw map_filter_insert_True // map_size_insert_None //. by apply map_lookup_filter_None; left.
  - rw map_filter_insert_not' //. intros b' ?. congruence.
Qed.

Lemma live_delete B c b :
  B !! c = Some b -> live B = (counts (stands_for k) b + live (base.delete c B))%nat.
Proof.
  intros Hc. rw -(insert_id B c b Hc) -{1}insert_delete_eq live_fresh ?lookup_delete_eq //.
  by rw insert_id.
Qed.

Lemma live_insert B c b b' :
  B !! c = Some b -> (stands_for k b <-> stands_for k b') -> live (<[c := b']> B) = live B.
Proof.
  intros Hc Hb. rw -insert_delete_eq live_fresh ?lookup_delete_eq // (live_delete B c b) //.
  unfold counts. repeat case_decide; tauto.
Qed.
End outstanding.

Lemma counts_iff {A B} (P : A -> Prop) (Q : B -> Prop)
    `{!forall x, Decision (P x), !forall x, Decision (Q x)} x y :
  (P x <-> Q y) -> counts P x = counts Q y.
Proof. intros Hpq. unfold counts. repeat case_decide; tauto. Qed.

Lemma counts_no {A} (P : A -> Prop) `{!forall x, Decision (P x)} x : ~ P x -> counts P x = 0%nat.
Proof. intros Hpq. unfold counts. by rw decide_False. Qed.

Lemma fill_blocks h x s s' : fill h x s = Done s' -> blocks s' = blocks s.
Proof. by intros (_ & _ & _ & ->)%fill_Done. Qed.

Lemma increment_live k c s s' : increment c s = Done s' -> live k (blocks s') = live k (blocks s).
Proof.
  unfold increment. destruct c; intros H; done_inv; [|done]. by apply (live_insert k _ _ y).
Qed.

Lemma invalidate_live k h s s' :
  invalidate_all_references h s = Done s' -> live k (blocks s') = live k (blocks s).
Proof.
  unfold invalidate_all_references. intros H. done_inv. destruct (control_ y); done_inv; [|done].
  by apply (live_insert k _ _ y0).
Qed.

Lemma reset_begin_live k h s s' : reset_begin h s = Done s' -> live k (blocks s') = live k (blocks s).
Proof.
  unfold reset_begin. intros H. done_inv. destruct (control_ y); done_inv; [|done].
  by apply (live_insert k _ _ y0).
Qed.

(** What one action does to the references handed over and not given back. *)
Lemma act_conserves k tid a s s' r :
  ptr_ok s -> allowed s a -> act tid a s = Done (s', r) ->
  (outstanding k s + counts (received k) (Member a, r)
   = outstanding k s' + counts (released k) (Member a, r))%nat.
Proof.
  intros Hok Ha H. unfold outstanding. rw -/(live k (blocks s)) -/(live k (blocks s')).
  destruct a; simpl in H; unfold silent in H; try (rw (counts_no (received k)); [|by intros []]).
  - done_inv. apply fill_blocks in E. rw E /= live_fresh; [|apply Ha].
    by rw (counts_no (released k)).
  - done_inv. destruct Ha as [Hc Hid]. rw (counts_no (released k)) //. unfold receive in E.
    destruct (Z.eqb_spec ptr 0) as [->|Hp]; apply fill_blocks in E; rw E /=.
    + rw counts_no; [lia|]. by intros [].
    + rw live_fresh // (counts_iff (received k) (stands_for k) _ (ControlBlock topic entry_id 1 pubsub_id true)).
      2:{ unfold received, stands_for. simpl. naive_solver. }
      lia.
  - done_inv. unfold alias_copy in E. done_inv.
    match goal with H : fill _ _ _ = _, H' : increment _ _ = _ |- _ =>
      apply fill_blocks in H; apply increment_live with (k := k) in H'; rw H' H end.
    by rw (counts_no (released k)).
  - done_inv. unfold alias_move in E. done_inv. destruct (_ =? _)%nat; [done|]. done_inv.
    match goal with H : fill _ _ _ = _ |- _ => apply fill_blocks in H; rw /= H end.
    by rw (counts_no (released k)).
  - done_inv. unfold delete_released in E. destruct (decide _); [|done]. done_inv.
    by rw (counts_no (released k)).
  - done_inv. apply reset_begin_live with (k := k) in E. rw E (counts_no (released k)) //.
  - destruct (handles s !! h) as [x|] eqn:Hx; [|by unfold reset_end in H; rw Hx in H].
    rw (reset_end_cases _ _ _ x) // in H. destruct (closing_ x) as [[c p]|] eqn:Hcl.
    2:{ done_inv. by rw (counts_no (released k)). }
    destruct (blocks s !! c) as [b|] eqn:Hb; [|done]. simpl in H.
    rw (live_delete k _ c b) //. unfold loan in H.
    destruct (Z.eqb_spec (cb_entry_id b) ENTRY_ID_NOT_ASSIGNED) as [He|He]; simpl in H.
    + rw (counts_no (stands_for k)); [|by intros []].
      destruct (cb_valid b); [destruct (_ || _)|]; done_inv; by rw (counts_no (released k)).
    + done_inv. simpl. rw (counts_iff (stands_for k) (released k) b (Member (ResetEnd h), Some (cb_topic_name b, cb_pubsub_id b, cb_entry_id b))); [by rw Nat.add_0_r Nat.add_comm|].
      unfold stands_for, released. simpl. naive_solver.
Qed.

Lemma unshared_empty s :
  ptr_ok s -> (forall h x, handles s !! h = Some x -> owned x = None) -> blocks s = ∅ /\ loaned s = ∅.
Proof.
  intros Hok Hnone.
  assert (Hz : forall P `{!forall x, Decision (P x)}, (forall x, P x -> owned x <> None) ->
    length (filter P (handles s)) = 0%nat).
  { intros P ? HP. rw filter_none //. intros x [h Hx]%list_elem_of_lookup Hp.
    by eapply HP, Hnone. }
  assert (Hb : blocks s = ∅).
  { apply map_empty. intros c. pose proof (ok_count _ Hok c) as Ha. unfold holders, closers in Ha.
    rw (Hz (shares c)) in Ha; [|unfold shares, owned; intros x ->; done].
    rw (Hz (closes c)) in Ha.
    2:{ unfold closes, owned. intros x Hx. by destruct (control_ x), (closing_ x). }
    by destruct (blocks s !! c); [destruct Ha|]. }
  split; [done|]. destruct (ok_loans _ Hok) as [loans L].
  apply set_eq. intros p. rw (loans_loaned _ _ L). split; [|set_solver].
  intros [c Hc]. destruct (proj1 (loans_blocks _ _ L c)) as (b & Hb' & _); [eauto|].
  by rw Hb lookup_empty in Hb'.
Qed.

(** ** Calls of [publish] and [cancel_message] in progress *)

(** The messages that such calls hold between the invalidation and the hand-over are allocated, but
    belong to no handle: the process is pointers with the invariant, together with them. *)
Definition show (F : gset Z) (s : pointers) : pointers := set_loaned (F ∪ loaned s) s.

Lemma show_reset_end F tid h s :
  ptr_ok s -> F ## loaned s ->
  reset_end tid h (show F s) = let! '(s', r) := reset_end tid h s in Done (show F s', r).
Proof.
  intros Hok HF. destruct (handles s !! h) as [x|] eqn:Hx; [|by unfold reset_end; rw /= Hx].
  unfold reset_end. rw /= Hx. destruct (closing_ x) as [[c p]|] eqn:Hcl; [|done].
  unfold the_block. rw /=. destruct (blocks s !! c) as [b|] eqn:Hb; [|done]. simpl.
  pose proof (closed_loan _ _ _ _ _ _ Hok Hx Hcl Hb) as Hl. unfold loan in *.
  destruct (cb_entry_id b =? ENTRY_ID_NOT_ASSIGNED); [|done]. simpl in *.
  destruct (cb_valid b); [|done]. unfold decrement_borrowed_publisher_num.
  rw -/(borrowed_by s tid). change (borrowed_by (show F s) tid) with (borrowed_by s tid).
  destruct (_ =? 0); [done|]. simpl. destruct (void_ x); [done|]. destruct Hl as [Hl H0]; [done|].
  rw !delete_message_loaned //; [|simpl; set_solver]. simpl. unfold show, set_handle, set_blocks, set_loaned. simpl.
  by assert ((F ∪ loaned s) ∖ {[p]} = F ∪ loaned s ∖ {[p]}) as -> by set_solver.
Qed.

Lemma show_act F tid a s :
  ptr_ok s -> F ## loaned s -> allowed (show F s) a ->
  act tid a (show F s) = let! '(s', r) := act tid a s in Done (show F s', r).
Proof.
  intros Hok HF Ha. destruct a; simpl; unfold silent.
  - unfold borrow, fill, the_handle. simpl. destruct (handles s !! h) as [[? ? [] []]|]; try done. simpl.
    unfold show, set_handle. simpl.
    by assert ({[ptr]} ∪ (F ∪ loaned s) = F ∪ ({[ptr]} ∪ loaned s)) as -> by (clear; set_solver).
  - unfold receive. destruct (_ =? _); unfold fill, the_handle; simpl;
      destruct (handles s !! h) as [[? ? [] []]|]; done.
  - unfold alias_copy, fill, the_handle. simpl. destruct (handles s !! r) as [[? ? o []]|]; try done. simpl.
    destruct (handles s !! h) as [[? ? [] []]|]; try done. simpl. unfold increment, the_block.
    destruct o as [c|]; [|done]. simpl. by destruct (blocks s !! c).
  - unfold alias_move, fill, the_handle. simpl. destruct (handles s !! r) as [[? ? o []]|]; try done. simpl.
    destruct (_ =? _)%nat; [done|]. by destruct (handles s !! h) as [[? ? [] []]|].
  - unfold delete_released. simpl. by destruct (decide _).
  - unfold reset_begin, the_handle, the_block. simpl.
    destruct (handles s !! h) as [[? ? o []]|]; try done. simpl. destruct o as [c|]; [|done]. simpl.
    by destruct (blocks s !! c).
  - by apply show_reset_end.
Qed.

Lemma allowed_show F s a : allowed (show F s) a -> allowed s a.
Proof. destruct a; try done. simpl. intros (? & ? & ? & ?). set_solver. Qed.

Lemma act_apart F tid a s s' r :
  ptr_ok s -> F ## loaned s -> allowed (show F s) a -> act tid a s = Done (s', r) -> F ## loaned s'.
Proof.
  intros Hok HF Ha H. destruct a; simpl in H; unfold silent in H.
  - done_inv. apply fill_Done in E as (? & ? & _ & ->). simpl in *. set_solver.
  - done_inv. unfold receive in E. destruct (_ =? _); by apply fill_Done in E as (? & ? & _ & ->).
  - done_inv. unfold alias_copy in E. done_inv.
    match goal with H : fill _ _ _ = _ |- _ => apply fill_Done in H as (? & ? & _ & ->) end.
    unfold increment in E. by destruct (control_ y); done_inv.
  - done_inv. unfold alias_move in E. done_inv. destruct (_ =? _)%nat; [done|]. done_inv.
    by match goal with H : fill _ _ _ = _ |- _ => apply fill_Done in H as (? & ? & _ & ->) end.
  - done_inv. unfold delete_released in E. by destruct (decide _); done_inv.
  - done_inv. unfold reset_begin in E. done_inv. by destruct (control_ y); done_inv.
  - destruct (handles s !! h) as [x|] eqn:Hx; [|by unfold reset_end in H; rw Hx in H].
    rw (reset_end_cases _ _ _ x) // in H. destruct (closing_ x) as [[c p]|]; [|by done_inv].
    destruct (blocks s !! c) as [b|]; [|done]. simpl in H.
    destruct (loan b); [destruct (_ || _)|]; done_inv; simpl; set_solver.
Qed.

(** The two blocks are those of one message, in the same state. *)
Definition same_message (b b' : control_block) : Prop :=
  cb_valid b' = cb_valid b /\ cb_entry_id b' = cb_entry_id b.

Lemma insert_same (B : gmap Z control_block) c0 b0 b0' c b :
  B !! c = Some b -> B !! c0 = Some b0 -> same_message b0 b0' ->
  exists b', <[c0 := b0']> B !! c = Some b' /\ same_message b b'.
Proof.
  intros Hc Hc0 Hb. destruct (decide (c = c0)) as [->|].
  - rw lookup_insert_eq. exists b0'. by simplify_eq.
  - rw lookup_insert_ne //. by exists b.
Qed.

(** An action leaves the other handles alone, and their blocks up to the count. *)
Lemma act_leaves tid a s s' r h x c b :
  ptr_ok s -> allowed s a -> act tid a s = Done (s', r) -> h ∉ touches a ->
  handles s !! h = Some x -> control_ x = Some c -> blocks s !! c = Some b ->
  handles s' !! h = Some x /\ exists b', blocks s' !! c = Some b' /\ same_message b b'.
Proof.
  intros Hok Ha H Hn Hx Hc Hb.
  assert (forall c0 b0, blocks s !! c0 = None ->
    exists b', <[c0 := b0]> (blocks s) !! c = Some b' /\ same_message b b') as Hnew.
  { intros c0 b0 H0. rw lookup_insert_ne; [by exists b|congruence]. }
  assert (exists b', blocks s !! c = Some b' /\ same_message b b') as Hold by by exists b.
  destruct a; simpl in H, Hn; unfold silent in H.
  - done_inv. apply fill_Done in E as (? & ? & _ & ->). simpl. rw list_lookup_insert_ne; [|set_solver].
    split; [done|]. by apply Hnew, Ha.
  - done_inv. unfold receive in E. destruct (_ =? _); apply fill_Done in E as (? & ? & _ & ->); simpl;
      (rw list_lookup_insert_ne; [|set_solver]); split; try done. by apply Hnew, Ha.
  - done_inv. unfold alias_copy in E. done_inv.
    match goal with H : fill _ _ _ = _ |- _ => apply fill_Done in H as (? & ? & _ & ->) end.
    assert (<[h0 := Handle void ptr (control_ y) None]> (handles s) !! h = Some x) as Hx'
      by (rw list_lookup_insert_ne //; set_solver).
    unfold increment in E. destruct (control_ y) as [c0|]; done_inv; split; try done.
    simpl in *. by eapply insert_same.
  - done_inv. unfold alias_move in E. done_inv. destruct (_ =? _)%nat; [done|]. done_inv.
    match goal with H : fill _ _ _ = _ |- _ => apply fill_Done in H as (? & ? & _ & ->) end. simpl.
    rw !list_lookup_insert_ne //; set_solver.
  - done_inv. unfold delete_released in E. by destruct (decide _); done_inv.
  - done_inv. unfold reset_begin in E. done_inv. destruct (control_ y) as [c0|]; done_inv; [|done]. simpl.
    rw list_lookup_insert_ne; [|set_solver]. split; [done|]. by eapply insert_same.
  - destruct (handles s !! h0) as [y|] eqn:Hy; [|by unfold reset_end in H; rw Hy in H].
    rw (reset_end_cases _ _ _ y) // in H. destruct (closing_ y) as [[c0 p]|] eqn:Hcl; [|by done_inv].
    destruct (blocks s !! c0) as [b0|]; [|done]. simpl in H.
    assert (c0 <> c) as Hcc.
    { intros ->. destruct (shared_block _ Hok _ _ _ Hx Hc) as (_ & _ & _ & Hz).
      eapply count_zero in Hz; [|exact Hy]. apply Hz. by rw /closes Hcl. }
    assert (<[h0 := Handle (void_ y) 0 None None]> (handles s) !! h = Some x) as Hx'
      by (rw list_lookup_insert_ne //; set_solver).
    assert (base.delete c0 (blocks s) !! c = Some b) as Hb' by by rw lookup_delete_ne.
    destruct (loan b0); [destruct (_ || _); [done|]|]; injection H as <- <-; (split; [done|by exists b]).
Qed.

Definition in_flight (t : stage) : option Z :=
  match t with Invalidated p | Counted p => Some p | _ => None end.

(** What a call of a stage knows of its handle. *)
Definition stage_ok (t : stage) (p : Z) (b : control_block) : Prop :=
  match t with
  | Checked => cb_valid b = true
  | Read q => q = p /\ cb_valid b = true
  | Invalidated q | Counted q => q = p /\ cb_valid b = false
  end.

Definition in_call (s : pointers) (h : nat) (t : stage) : Prop :=
  exists x c b, handles s !! h = Some x /\ closing_ x = None /\ control_ x = Some c /\
    blocks s !! c = Some b /\ cb_entry_id b = ENTRY_ID_NOT_ASSIGNED /\ ptr_ x <> 0 /\ stage_ok t (ptr_ x) b.

(** Two handles share a block. *)
Definition together (s : pointers) (h i : nat) : Prop :=
  exists x y c, handles s !! h = Some x /\ handles s !! i = Some y /\ control_ x = Some c /\ control_ y = Some c.

(** [F] are the messages the calls hold, [s] is the rest of the process. *)
Record calls_ok (m : gmap nat stage) (F : gset Z) (s : pointers) : Prop := CallsOk {
  co_ptr : ptr_ok s;
  co_apart : F ## loaned s;
  co_flight p : p ∈ F <-> exists h, m !! h ≫= in_flight = Some p;
  co_call h t : m !! h = Some t -> in_call s h t;
  co_alone h i : is_Some (m !! h) -> is_Some (m !! i) -> together s h i -> h = i;
  co_once h i p : m !! h ≫= in_flight = Some p -> m !! i ≫= in_flight = Some p -> h = i
}.

Lemma calls_other m F s bor pub :
  calls_ok m F s -> calls_ok m F (Pointers (handles s) (blocks s) (loaned s) pub bor).
Proof. intros [H1 H2 H3 H4 H5 H6]. split; try done. by apply ok_other. Qed.

(** A call goes on, and holds what it held. *)
Lemma restage m F s h t :
  calls_ok m F s -> in_call s h t -> m !! h ≫= in_flight = in_flight t ->
  (forall i, is_Some (m !! i) -> together s h i -> h = i) ->
  calls_ok (<[h := t]> m) F s.
Proof.
  intros [H1 H2 H3 H4 H5 H6] Hc Hf Ha.
  assert (forall i, <[h := t]> m !! i ≫= in_flight = m !! i ≫= in_flight) as He.
  { intros i. destruct (decide (i = h)) as [->|]; [by rw lookup_insert_eq|by rw lookup_insert_ne]. }
  assert (forall i, is_Some (<[h := t]> m !! i) -> i = h \/ is_Some (m !! i)) as Hin.
  { intros i. rw lookup_insert_is_Some. naive_solver. }
  assert (forall i, together s i h -> together s h i) as Hsym.
  { intros i (x & y & c & ? & ? & ? & ?). by exists y, x, c. }
  split; [done|done| | | |].
  - intros p. rw H3. by setoid_rewrite He.
  - intros i t' [[<- <-]|[_ Hi]]%lookup_insert_Some; [done|by apply H4].
  - intros i j [->|Hi]%Hin [->|Hj]%Hin Ht; [done|by apply Ha|symmetry; by apply Ha, Hsym|by apply H5].
  - intros i j p. rw !He. apply H6.
Qed.

Lemma together_self m F s h t i :
  calls_ok m F s -> m !! h = Some t -> is_Some (m !! i) -> together s h i -> h = i.
Proof. intros H Hh. apply (co_alone _ _ _ H). by eexists. Qed.

(** The invalidation: the message leaves its handles. *)
Lemma invalidated_ok m F s h p s' :
  calls_ok m F s -> m !! h = Some (Read p) -> invalidate_all_references h s = Done s' ->
  p ∈ loaned s /\
  calls_ok (<[h := Invalidated p]> m) ({[p]} ∪ F) (set_loaned (loaned s' ∖ {[p]}) s') /\ loaned s' = loaned s.
Proof.
  intros H Hm Hi. destruct (co_call _ _ _ H h _ Hm) as (x & c & b & Hx & Hcl & Hc & Hb & He & Hp & -> & Hv).
  pose proof (co_ptr _ _ _ H) as Hok.
  destruct (invalidate_Done _ _ _ _ _ Hi Hx Hc) as (b' & Hb' & ->). simplify_eq.
  assert (loan b = true) as Hl by by unfold loan; rw He Hv.
  assert (ptr_ x ∈ loaned s) as Hpl.
  { apply (loaned_block s h x c b); try done. by apply owned_control. }
  split; [done|]. split; [|done].
  assert (forall i, m !! i ≫= in_flight <> Some (ptr_ x)) as Hno.
  { intros i Hf. pose proof (co_apart _ _ _ H). assert (ptr_ x ∈ F); [|set_solver].
    apply (co_flight _ _ _ H). by eexists. }
  split; simpl.
  - by apply (invalidate_ok s h x c b).
  - pose proof (co_apart _ _ _ H). set_solver.
  - intros q. rw elem_of_union elem_of_singleton (co_flight _ _ _ H). split.
    + intros [->|[i Hf]]; [exists h; by rw lookup_insert_eq|]. exists i.
      rw lookup_insert_ne //. intros <-. by rw Hm in Hf.
    + intros [i Hf]. destruct (decide (i = h)) as [->|Hn].
      * rw lookup_insert_eq in Hf. left. by injection Hf as <-.
      * rw lookup_insert_ne // in Hf. right. by exists i.
  - intros i t [[<- <-]|[Hn Ht]]%lookup_insert_Some.
    + exists x, c, (set_invalid b). do 3 (split; [done|]). by rw /= lookup_insert_eq.
    + destruct (co_call _ _ _ H i t Ht) as (y & c' & b' & Hy & Hcl' & Hc' & Hb' & H').
      exists y, c', b'. do 3 (split; [done|]). split; [|done]. simpl. rw lookup_insert_ne //. intros <-.
      apply Hn. apply (together_self m F s h (Read (ptr_ x)) i); [done|done|by eexists|]. by exists x, y, c.
  - intros i j Hi' Hj Ht. apply (co_alone _ _ _ H); [..|done].
    + apply lookup_insert_is_Some in Hi' as [->|[_ ?]]; [by eexists|done].
    + apply lookup_insert_is_Some in Hj as [->|[_ ?]]; [by eexists|done].
  - intros i j q Hi' Hj. destruct (decide (i = h)) as [->|Hni], (decide (j = h)) as [->|Hnj]; [done|..].
    + rw lookup_insert_eq in Hi'. injection Hi' as <-. rw lookup_insert_ne // in Hj. by destruct (Hno j).
    + rw lookup_insert_eq in Hj. injection Hj as <-. rw lookup_insert_ne // in Hi'. by destruct (Hno i).
    + rw lookup_insert_ne // in Hi'. rw lookup_insert_ne // in Hj. by apply (co_once _ _ _ H i j q).
Qed.

(** The hand-over: the call lets go of the message. *)
Lemma handed_ok m F s h p :
  calls_ok m F s -> m !! h = Some (Counted p) ->
  p ∈ F /\ p <> 0 /\ (F ∪ loaned s) ∖ {[p]} = (F ∖ {[p]}) ∪ loaned s /\
  calls_ok (base.delete h m) (F ∖ {[p]}) s.
Proof.
  intros H Hm. destruct (co_call _ _ _ H h _ Hm) as (x & c & b & Hx & Hcl & Hc & Hb & He & Hp & -> & Hv).
  assert (m !! h ≫= in_flight = Some (ptr_ x)) as Hf by by rw Hm.
  assert (ptr_ x ∈ F) as HF by (apply (co_flight _ _ _ H); by eexists).
  pose proof (co_apart _ _ _ H) as Hap. split; [done|]. split; [done|]. split; [set_solver|].
  assert (forall i q, base.delete h m !! i ≫= in_flight = Some q <-> i <> h /\ m !! i ≫= in_flight = Some q) as Hd.
  { intros i q. destruct (decide (i = h)) as [->|Hn].
    - rw lookup_delete_eq. naive_solver.
    - rw lookup_delete_ne //. naive_solver. }
  split; [apply H|set_solver| | | |].
  - intros q. rw elem_of_difference elem_of_singleton (co_flight _ _ _ H). setoid_rewrite Hd. split.
    + intros [[i Hi] Hn]. exists i. split; [|done]. intros ->. rw Hf in Hi. congruence.
    + intros (i & Hn & Hi). split; [by exists i|]. intros ->. by apply Hn, (co_once _ _ _ H i h (ptr_ x)).
  - intros i t [Hn Ht]%lookup_delete_Some. by apply (co_call _ _ _ H).
  - intros i j [_ Hi]%lookup_delete_is_Some [_ Hj]%lookup_delete_is_Some. by apply (co_alone _ _ _ H).
  - intros i j q [_ Hi]%Hd [_ Hj]%Hd. by apply (co_once _ _ _ H i j q).
Qed.

(** An action on other handles. *)
Lemma member_keeps m F s tid a s' r :
  calls_ok m F s -> allowed (show F s) a -> (forall h, h ∈ touches a -> m !! h = None) ->
  act tid a s = Done (s', r) -> calls_ok m F s'.
Proof.
  intros H Ha Ht Hact. pose proof (co_ptr _ _ _ H) as Hok. pose proof (co_apart _ _ _ H) as Hap.
  pose proof (allowed_show _ _ _ Ha) as Ha'.
  assert (forall h t x, m !! h = Some t -> handles s' !! h = Some x -> handles s !! h = Some x) as Hback.
  { intros h t x Hm Hx. destruct (co_call _ _ _ H h t Hm) as (y & c & b & Hy & _ & Hc & Hb & _).
    destruct (act_leaves tid a s s' r h y c b) as [Hy' _]; [done|done|done|by intros E'%Ht; rewrite Hm in E'|done|done|done|]. congruence. }
  split.
  - by eapply act_ok.
  - by eapply act_apart.
  - apply (co_flight _ _ _ H).
  - intros h t Hm. destruct (co_call _ _ _ H h t Hm) as (x & c & b & Hx & Hcl & Hc & Hb & He & Hp & Hs).
    destruct (act_leaves tid a s s' r h x c b) as (Hx' & b' & Hb' & E1 & E2); [done|done|done|by intros E'%Ht; rewrite Hm in E'|done|done|done|].
    exists x, c, b'. do 4 (split; [done|]). split; [by rw E2|]. split; [done|].
    unfold stage_ok in *. by rw E1.
  - intros h i [t Hh] [u Hi] (x & y & c & Hx & Hy & Hcx & Hcy). apply (co_alone _ _ _ H); [by eexists..|].
    exists x, y, c. split; [by eapply Hback|]. split; [by eapply Hback|done].
  - apply (co_once _ _ _ H).
Qed.

Definition process_ok (w : process) : Prop := exists F s, heap w = show F s /\ calls_ok (calls w) F s.

Lemma touches_free (m : gmap nat stage) a :
  existsb (fun h => bool_decide (is_Some (m !! h))) (touches a) = false ->
  forall h, h ∈ touches a -> m !! h = None.
Proof.
  intros He h Hh. apply eq_None_not_Some. intros Hs. apply not_true_iff_false in He. apply He, existsb_exists.
  exists h. split; [by apply list_elem_of_In|by apply bool_decide_eq_true].
Qed.

Lemma check_in_call s h topic :
  publishable s h topic -> check_message h topic s = Done () -> in_call s h Checked.
Proof.
  intros [Hne He] H. destruct (check_message_Done h topic s H Hne) as (x & c & b & Hx & Hcl & Hc & Hb & Hv & Hp & _).
  exists x, c, b. by specialize (He x c b Hx Hc Hb).
Qed.

Lemma run_step_keeps tid e w w' r :
  process_ok w -> step_allowed w e -> run_step tid e w = Done (w', r) -> process_ok w'.
Proof.
  intros (F & s & Hw & H) Ha Hs. destruct w as [s0 m]. simpl in *. subst s0.
  destruct e as [a|h topic|h|h|h|h|h]; simpl in Hs, Ha.
  - destruct (existsb _ _) eqn:Ht; [done|]. rw show_act // in Hs; [|apply H..].
    destruct (act tid a s) as [[s' r']| | |] eqn:Hact; [|done..]. simpl in Hs. injection Hs as <- <-.
    exists F, s'. split; [done|]. eapply member_keeps; [exact H|exact Ha| |exact Hact]. exact (touches_free m a Ht).
  - destruct Ha as [Hp Hno]. destruct (m !! h) eqn:Hm; [done|].
    destruct (check_message h topic (show F s)) as [[]| | |] eqn:Hc; [|done..]. injection Hs as <- <-.
    exists F, s. split; [done|]. apply restage; [done|by apply (check_in_call s h topic)|by rw Hm|].
    intros i Hi (x & y & c & Hx & Hy & Hcx & Hcy). by destruct (Hno i x y c).
  - destruct (m !! h) as [[| | |]|] eqn:Hm; try done. apply bind_Done in Hs as (p & Hg & [= <- <-]).
    exists F, s. split; [done|]. destruct (co_call _ _ _ H h _ Hm) as (x & c & b & Hx & Hcl & Hc & Hb & He & Hp & Hv).
    apply get_Done in Hg as (y & Hy & _ & Hg). assert (y = x) as -> by (simpl in Hy; congruence).
    rw Hc in Hg. destruct Hg as (b' & Hb' & ->). assert (b' = b) as -> by (simpl in Hb'; congruence).
    simpl in Hv. rw Hv.
    apply restage; [done| |by rw Hm|by intros i; eapply together_self]. by exists x, c, b.
  - destruct (m !! h) as [[|p| |]|] eqn:Hm; try done.
    apply bind_Done in Hs as (s1 & Hi & [= <- <-]).
    assert (exists s2, invalidate_all_references h s = Done s2 /\ s1 = show F s2) as (s2 & Hi2 & ->).
    { unfold invalidate_all_references, the_handle, the_block in *. simpl in Hi.
      destruct (handles s !! h) as [[? ? o []]|]; try done. simpl in *. destruct o as [c|]; simpl in *.
      - destruct (blocks s !! c); [|done]. injection Hi as <-. by eexists.
      - injection Hi as <-. by eexists. }
    destruct (invalidated_ok m F s h p s2 H Hm Hi2) as (Hp & Hok & Hl). eexists _, _. split; [|exact Hok].
    simpl. unfold show, set_loaned. simpl. f_equal. rw Hl. apply set_eq. intros q.
    destruct (decide (q = p)); set_solver.
  - destruct (m !! h) as [[| |p|]|] eqn:Hm; try done. apply bind_Done in Hs as (s1 & Hd & [= <- <-]).
    apply decrement_Done in Hd as ->.
    eexists F, (set_borrowed (<[tid := borrowed_by s tid - 1]> (borrowed s)) s). split; [done|].
    apply (restage m F (set_borrowed _ s)); [by apply calls_other| |by rw Hm|].
    + by destruct (co_call _ _ _ H h _ Hm) as (x & c & b & Hx & Hb); exists x, c, b.
    + intros i. by apply (together_self m F s h (Invalidated p) i).
  - destruct (m !! h) as [[| | |p]|] eqn:Hm; try done. apply bind_Done in Hs as (s1 & Hd & [= <- <-]).
    destruct (handed_ok m F s h p H Hm) as (Hp & _ & HF & Hok). unfold hand_over in Hd.
    destruct (decide _); [|done]. injection Hd as <-.
    exists (F ∖ {[p]}), (set_published ({[p]} ∪ published s) s).
    split; [by rw /= /show /set_published /set_loaned /= HF|by apply calls_other].
  - destruct (m !! h) as [[| | |p]|] eqn:Hm; try done. apply bind_Done in Hs as (s1 & Hd & [= <- <-]).
    destruct (handed_ok m F s h p H Hm) as (Hp & H0 & HF & Hok).
    rw delete_message_loaned // in Hd; [|by simpl; set_solver]. injection Hd as <-.
    exists (F ∖ {[p]}), s. split; [by rw /= /show /set_loaned /= HF|done].
Qed.

Lemma start_process_ok n : Z.of_nat n < 2 ^ 32 -> process_ok (start n).
Proof.
  intros Hn. exists ∅, (no_pointers n). split; [done|]. split; cbn [calls start].
  - by apply no_pointers_ok.
  - set_solver.
  - intros p. split; [set_solver|]. by intros [h Hh].
  - done.
  - by intros h i [t Ht].
  - done.
Qed.

Lemma runs_ok n tr w : Z.of_nat n < 2 ^ 32 -> runs (start n) tr w -> process_ok w.
Proof. intros Hn. induction 1; [by apply start_process_ok|by eapply run_step_keeps]. Qed.

Lemma run_step_defined tid e w : process_ok w -> step_allowed w e -> run_step tid e w <> Undefined.
Proof.
  intros (F & s & Hw & H) Ha. destruct w as [s0 m]. simpl in *. subst s0. pose proof (co_ptr _ _ _ H) as Hok.
  destruct e as [a|h topic|h|h|h|h|h]; simpl in *.
  - destruct (existsb _ _); [done|]. rw show_act //; [|apply H].
    pose proof (act_defined tid a s Hok (allowed_show _ _ _ Ha)). by destruct (act tid a s) as [[]| | |].
  - destruct (m !! h); [done|]. apply bind_defined; [by apply (check_message_defined h topic s)|done].
  - destruct (m !! h) as [[| | |]|]; try done. apply bind_defined; [by apply (get_defined h s)|done].
  - destruct (m !! h) as [[| | |]|]; try done. apply bind_defined; [|done].
    pose proof (invalidate_defined h s Hok) as Hi. unfold invalidate_all_references, the_handle, the_block in *.
    simpl. destruct (handles s !! h) as [[? ? o []]|]; try done. simpl in *. destruct o as [c|]; [|done]. simpl in *.
    by destruct (blocks s !! c).
  - destruct (m !! h) as [[| | |]|]; try done. apply bind_defined; [apply decrement_defined|done].
  - destruct (m !! h) as [[| | |p]|] eqn:Hm; try done. apply bind_defined; [|done].
    destruct (handed_ok m F s h p H Hm) as (Hp & _). unfold hand_over. rw decide_True //. simpl. set_solver.
  - destruct (m !! h) as [[| | |p]|] eqn:Hm; try done. apply bind_defined; [|done].
    destruct (handed_ok m F s h p H Hm) as (Hp & H0 & _). rw delete_message_loaned //. simpl. set_solver.
Qed.

(** What one step does to the references handed over and not given back. *)
Lemma step_conserves k tid e w w' r :
  process_ok w -> step_allowed w e -> run_step tid e w = Done (w', r) ->
  (outstanding k w + counts (received k) (e, r) = outstanding k w' + counts (released k) (e, r))%nat.
Proof.
  intros (F & s & Hw & H) Ha Hs. destruct w as [s0 m]. simpl in *. subst s0.
  pose proof (co_ptr _ _ _ H) as Hok. unfold outstanding. simpl.
  destruct e as [a|h topic|h|h|h|h|h]; simpl in Hs, Ha.
  - destruct (existsb _ _); [done|]. rw show_act // in Hs; [|apply H].
    destruct (act tid a s) as [[s' r']| | |] eqn:Hact; [|done..]. injection Hs as <- <-.
    exact (act_conserves k tid a s s' r' Hok (allowed_show _ _ _ Ha) Hact).
  - destruct (m !! h); [done|]. destruct (check_message _ _ _); [|done..]. injection Hs as <- <-.
    by rw (counts_no (received k)); [|intros []].
  - destruct (m !! h) as [[| | |]|]; try done. done_inv. by rw (counts_no (received k)); [|intros []].
  - destruct (m !! h) as [[| | |]|]; try done. done_inv. rw (counts_no (received k)); [|by intros []]. rw (counts_no (released k)); [|done]. rw !Nat.add_0_r. symmetry.
    by apply (invalidate_live k h (show F s)).
  - destruct (m !! h) as [[| | |]|]; try done. done_inv. apply decrement_Done in E as ->. by rw (counts_no (received k)); [|intros []].
  - destruct (m !! h) as [[| | |]|]; try done. done_inv. unfold hand_over in E.
    destruct (decide _); [|done]. injection E as <-. by rw (counts_no (received k)); [|intros []].
  - destruct (m !! h) as [[| | |]|]; try done. done_inv. unfold delete_message in E.
    destruct (_ =? _); [|destruct (decide _); [|done]]; injection E as <-; by rw (counts_no (received k)); [|intros []].
Qed.

Lemma no_calls w : process_ok w -> (forall h x, handles w !! h = Some x -> owned x = None) -> calls w = ∅.
Proof.
  intros (F & s & Hw & H) Hnone. apply map_empty. intros h. apply eq_None_not_Some. intros [t Ht].
  destruct (co_call _ _ _ H h t Ht) as (x & c & b & Hx & _ & Hc & _).
  assert (handles w !! h = Some x) as Hx' by by rw Hw. specialize (Hnone h x Hx').
  unfold owned in Hnone. by rw Hc in Hnone.
Qed.

(** Between the calls of a process, its pointers have the invariant. *)
Lemma quiet_ok w : process_ok w -> calls w = ∅ -> ptr_ok w.
Proof.
  intros (F & s & -> & H) He. assert (F = ∅) as ->.
  { apply set_eq. intros p. rw (co_flight _ _ _ H) He. split; [by intros [h Hh]|set_solver]. }
  destruct (co_ptr _ _ _ H) as [H1 H2 [loans L] H4]. unfold show. split; try done. exists loans.
  destruct L as [L1 L2 L3 L4 L5]. split; try done. intros p. simpl. rw -L2. set_solver.
Qed.

(** ** Publishing *)

(** The calls [publish] and [cancel_message] accept: a message of this topic that is borrowed and not
    published, on a thread that has borrowed as many as it hands over. *)
Definition accepted (s : pointers) (tid : nat) (topic : string) (x : handle) (c : Z) (b : control_block)
    : Prop :=
  control_ x = Some c /\ blocks s !! c = Some b /\ cb_valid b = true /\ ptr_ x <> 0 /\
  topic = cb_topic_name b /\ borrowed_by s tid <> 0.

Definition taken_back (s : pointers) (tid : nat) (c : Z) (b : control_block) : pointers :=
  set_borrowed (<[tid := borrowed_by s tid - 1]> (borrowed s))
    (set_blocks (<[c := set_invalid b]> (blocks s)) s).

Lemma take_back_eq tid h topic s x :
  ptr_ok s -> topic <> EmptyString -> handles s !! h = Some x -> closing_ x = None ->
  (take_back tid h topic s = Exit /\ forall c b, ~ accepted s tid topic x c b) \/
  (exists c b, accepted s tid topic x c b /\
     take_back tid h topic s = Done (taken_back s tid c b, ptr_ x)).
Proof.
  intros Hok Hne Hx Hcl. assert (the_handle s h = Done x) as Hh by by apply the_handle_Done.
  unfold take_back, check_message, operator_bool, get_topic_name, get, is_invalidated,
    invalidate_all_references, accepted. rw Hh /=.
  destruct (control_ x) as [c|] eqn:Hc; simpl.
  2:{ left. split; [|by intros c b (? & _)].
      by destruct (ptr_ x =? 0), (String.eqb_spec topic EmptyString). }
  destruct (shared_block _ Hok _ _ _ Hx Hc) as (b & Hb & _).
  assert (the_block s c = Done b) as Hb' by by apply the_block_Done.
  rw Hb' /=. unfold decrement_borrowed_publisher_num.
  destruct (cb_valid b) eqn:Hv; simpl.
  2:{ left. split; [done|]. intros ? ? (? & ? & ? & _). simplify_eq. congruence. }
  destruct (Z.eqb_spec (ptr_ x) 0) as [Hp|Hp]; simpl.
  { left. split; [done|]. naive_solver. }
  destruct (String.eqb_spec topic (cb_topic_name b)) as [Ht|Ht]; simpl.
  2:{ left. split; [done|]. intros ? ? (? & ? & _ & _ & ? & _). simplify_eq. }
  change (borrowed_by (set_blocks _ s) tid) with (borrowed_by s tid).
  destruct (Z.eqb_spec (borrowed_by s tid) 0) as [H0|H0]; simpl.
  { left. split; [done|]. naive_solver. }
  right. exists c, b. done.
Qed.

Lemma delete_all_Done l s :
  NoDup l -> (forall p, p ∈ l -> p ∈ published s) ->
  delete_all l s = Done (set_published (published s ∖ list_to_set l) s).
Proof.
  revert s. induction l as [|p l IH]; intros s Hd Hl; simpl.
  - f_equal. destruct s. unfold set_published. simpl. f_equal. set_solver.
  - apply NoDup_cons in Hd as [Hp Hd]. unfold delete_released. rw decide_True; [|set_solver].
    simpl. rw IH //; [|set_solver]. unfold set_published. simpl. do 2 f_equal. set_solver.
Qed.

Lemma u32_pred n : 1 <= n < 2 ^ 32 -> u32 (n - 1) = n - 1.
Proof. intros ?. apply Z.mod_small. lia. Qed.

(** [reset()] on a handle whose message was taken back. *)
Lemma reset_invalid tid h s x c b :
  handles s !! h = Some x -> closing_ x = None -> control_ x = Some c -> blocks s !! c = Some b ->
  cb_entry_id b = ENTRY_ID_NOT_ASSIGNED -> cb_valid b = false -> 1 <= ref_count b < 2 ^ 32 ->
  reset tid h s =
    Done (set_handle h (Handle (void_ x) 0 None None)
            (set_blocks (if ref_count b =? 1 then base.delete c (blocks s)
                         else <[c := set_ref_count (ref_count b - 1) b]> (blocks s)) s), None).
Proof.
  intros Hx Hcl Hc Hb He Hv Hn.
  assert (the_handle s h = Done x) as Hh by by apply the_handle_Done.
  unfold reset, reset_begin, reset_end, the_block. rw Hh /= Hc Hb /= u32_pred //.
  rw list_lookup_insert_eq; [|by eapply lookup_lt_Some]. simpl.
  destruct (ref_count b =? 1) eqn:E1; [|done].
  rw lookup_insert_eq /= He Hv /=. unfold set_handle, set_blocks. simpl.
  by rw list_insert_insert_eq delete_insert_eq.
Qed.

(** The handles of the other messages, and those of the message that was published. *)
Lemma other_handle_get s s' h x c i y b :
  ptr_ok s -> handles s !! h = Some x -> control_ x = Some c -> blocks s !! c = Some b ->
  handles s' = <[h := Handle (void_ x) 0 None None]> (handles s) ->
  blocks s' = (if ref_count b =? 1 then base.delete c (blocks s)
               else <[c := set_ref_count (ref_count b - 1) (set_invalid b)]> (blocks s)) ->
  i <> h -> handles s !! i = Some y -> closing_ y = None ->
  if decide (control_ y = Some c) then get i s' = Done 0 /\ deref i s' = Exit
  else get i s' = get i s.
Proof.
  intros Hok Hx Hc Hb Hs Hbs Hi Hy Hcl.
  assert (Hy' : handles s' !! i = Some y) by by rw Hs list_lookup_insert_ne.
  assert (the_handle s i = Done y) as H1 by by apply the_handle_Done.
  assert (the_handle s' i = Done y) as H2 by by apply the_handle_Done.
  unfold get, deref, is_invalidated, the_block. rw H1 H2 /=. case_decide as Hcy.
  - rw Hcy Hbs. destruct (Z.eqb_spec (ref_count b) 1) as [E|E].
    + exfalso. pose proof (ok_count _ Hok c) as Ha. unfold holders in Ha. rw Hb /= E in Ha.
      pose proof (count_insert (shares c) _ _ (Handle (void_ x) 0 None None) _ Hx) as Hn.
      rw -Hs in Hn. pose proof (count_pos (shares c) _ _ _ Hy' Hcy).
      rw decide_True // in Hn. simpl in Hn. lia.
    + by rw lookup_insert_eq.
  - destruct (control_ y) as [c'|]; [|done]. rw Hbs.
    assert (c <> c') by congruence.
    by destruct (ref_count b =? 1); [rw lookup_delete_ne|rw lookup_insert_ne].
Qed.

(** ** Assignment *)

(** What a handle reads. *)
Definition reads (B : gmap Z control_block) (x : handle) : outcome Z :=
  match control_ x with
  | None => Done (ptr_ x)
  | Some c => match B !! c with Some b => Done (if cb_valid b then ptr_ x else 0) | None => Undefined end
  end.

Lemma get_reads s h x :
  handles s !! h = Some x -> closing_ x = None -> get h s = reads (blocks s) x.
Proof.
  intros Hx Hcl. assert (the_handle s h = Done x) as Hh by by apply the_handle_Done.
  unfold get, reads, is_invalidated, the_block. rw Hh /=. destruct (control_ x) as [c|]; [|done].
  destruct (blocks s !! c) as [b|]; [|done]. simpl. by destruct (cb_valid b).
Qed.

Lemma reads_insert B c b b' x :
  B !! c = Some b -> cb_valid b' = cb_valid b -> reads (<[c := b']> B) x = reads B x.
Proof.
  intros Hb Hv. unfold reads. destruct (control_ x) as [c'|]; [|done].
  destruct (decide (c' = c)) as [->|]; [by rw lookup_insert_eq Hb Hv|by rw lookup_insert_ne].
Qed.

(** [reset()] of one handle leaves every other handle reading what it read. *)
Lemma reset_frame tid h s x s' r :
  ptr_ok s -> handles s !! h = Some x -> closing_ x = None -> reset tid h s = Done (s', r) ->
  ptr_ok s' /\
  (exists p, handles s' = <[h := Handle (void_ x) p None None]> (handles s)) /\
  forall i y, i <> h -> handles s !! i = Some y -> closing_ y = None ->
    reads (blocks s') y = reads (blocks s) y.
Proof.
  intros Hok Hx Hcl H. unfold reset in H. apply bind_Done in H as (s1 & H1 & H2).
  pose proof (reset_begin_ok _ _ _ Hok H1) as Hok1. split; [by eapply reset_end_ok|].
  assert (the_handle s h = Done x) as Hh by by apply the_handle_Done.
  unfold reset_begin in H1. rw Hh /= in H1. destruct (control_ x) as [c|] eqn:Hc.
  2:{ done_inv. unfold reset_end in H2. rw Hx Hcl in H2. done_inv. split; [|done].
      exists (ptr_ x). rw list_insert_id //. destruct x; by simplify_eq/=. }
  destruct (shared_block _ Hok _ _ _ Hx Hc) as (b & Hb & Hn & _). unfold the_block in H1.
  rw Hb /= u32_pred // in H1. injection H1 as <-.
  rw (reset_end_cases _ _ _ (Handle (void_ x) 0 None (if ref_count b =? 1 then Some (c, ptr_ x) else None)))
    // in H2; [|by rw /= list_lookup_insert_eq; [|by eapply lookup_lt_Some]].
  simpl in H2. destruct (Z.eqb_spec (ref_count b) 1) as [E|E]; simpl in H2.
  2:{ done_inv. simpl. split; [by eexists|]. intros i y _ _ _. by apply (reads_insert _ _ b). }
  rw lookup_insert_eq list_insert_insert_eq delete_insert_eq in H2.
  assert (exists l' bor', s' = Pointers (<[h := Handle (void_ x) 0 None None]> (handles s))
            (base.delete c (blocks s)) l' (published s) bor') as (l' & bor' & ->).
  { destruct (loan _); [destruct (_ || _); [done|]|]; done_inv; eexists _, _; reflexivity. }
  simpl. split; [by eexists|]. intros i y Hi Hy Hcy. unfold reads.
  destruct (control_ y) as [c'|] eqn:Hc'; [|done]. rw lookup_delete_ne //. intros <-.
  pose proof (ok_count _ Hok c) as Ha. unfold holders in Ha. rw Hb /= E in Ha.
  pose proof (count_insert (shares c) _ _ (Handle (void_ x) 0 None None) _ Hx) as Hn'.
  rw decide_True // in Hn'. simpl in Hn'.
  assert (<[h:=Handle (void_ x) 0 None None]> (handles s) !! i = Some y) as Hy'
    by by rw list_lookup_insert_ne.
  pose proof (count_pos (shares c) _ _ _ Hy' Hc'). lia.
Qed.

Lemma reset_total tid h s x :
  ptr_ok s -> handles s !! h = Some x -> closing_ x = None ->
  reset tid h s = Exit \/ exists s' r, reset tid h s = Done (s', r).
Proof.
  intros Hok Hx Hcl. assert (the_handle s h = Done x) as Hh by by apply the_handle_Done.
  assert (exists s1, reset_begin h s = Done s1 /\ is_Some (handles s1 !! h)) as (s1 & H1 & x1 & Hx1).
  { unfold reset_begin. rw Hh /=. destruct (control_ x) as [c|] eqn:Hc; [|by eauto].
    destruct (shared_block _ Hok _ _ _ Hx Hc) as (b & Hb & _). unfold the_block. rw Hb /=.
    eexists. split; [done|]. simpl. rw list_lookup_insert_eq; [by eauto|by eapply lookup_lt_Some]. }
  pose proof (reset_begin_ok _ _ _ Hok H1) as Hok1. unfold reset. rw H1 /= (reset_end_cases _ _ _ x1) //.
  destruct (closing_ x1) as [[c p]|] eqn:Hcl1; [|by eauto].
  destruct (closing_block _ Hok1 _ _ _ _ Hx1 Hcl1) as (b & -> & _).
  simpl. destruct (loan b); [destruct (_ || _)|]; eauto.
Qed.

(** Filling the null handle [h] from [r]. *)
Lemma copy_fills s h r v p y void :
  ptr_ok s -> handles s !! h = Some (Handle v p None None) ->
  handles s !! r = Some y -> closing_ y = None ->
  exists s', copy h r void s = Done s' /\
    handles s' = <[h := Handle void (ptr_ y) (control_ y) None]> (handles s) /\
    forall z, reads (blocks s') z = reads (blocks s) z.
Proof.
  intros Hok Hh Hy Hcl. assert (the_handle s r = Done y) as Hr by by apply the_handle_Done.
  assert (the_handle s h = Done (Handle v p None None)) as Hh' by by apply the_handle_Done.
  unfold copy, alias_copy, fill, increment, the_block. rw Hr /= Hh' /=.
  destruct (control_ y) as [c|] eqn:Hc; simpl; [|by eauto].
  destruct (shared_block _ Hok _ _ _ Hy Hc) as (b & Hb & _). rw Hb /=.
  eexists. split; [done|]. split; [done|]. intros z. by apply (reads_insert _ _ b).
Qed.

Lemma move_fills s h r v p y void :
  handles s !! h = Some (Handle v p None None) -> h <> r ->
  handles s !! r = Some y -> closing_ y = None ->
  move h r void s = Done (set_handle r (Handle (void_ y) 0 None None)
                            (set_handle h (Handle void (ptr_ y) (control_ y) None) s)).
Proof.
  intros Hh Hn Hy Hcl. assert (the_handle s r = Done y) as Hr by by apply the_handle_Done.
  assert (the_handle s h = Done (Handle v p None None)) as Hh' by by apply the_handle_Done.
  unfold move, alias_move, fill. rw Hr /= (proj2 (Nat.eqb_neq h r) Hn) Hh' //.
Qed.

Lemma assign_eq (moves : bool) tid h r void s :
  h <> r ->
  (if moves then move_assign else copy_assign) tid h r void s =
  let! '(s1, release) := reset tid h s in
  let! s2 := (if moves then move else copy) h r void s1 in Done (s2, release).
Proof.
  intros Hn. unfold move_assign, copy_assign. destruct moves; by rw (proj2 (Nat.eqb_neq h r) Hn).
Qed.

(** ** Running a list of steps *)

Fixpoint exec (l : list (nat * step)) (tr : list (step * option request)) (w : process)
    : outcome (list (step * option request) * process) :=
  match l with
  | [] => Done (tr, w)
  | (tid, e) :: l => let! '(w', r) := run_step tid e w in exec l (tr ++ [(e, r)]) w'
  end.

Fixpoint all_allowed (l : list (nat * step)) (w : process) : Prop :=
  match l with
  | [] => True
  | (tid, e) :: l =>
      step_allowed w e /\ match run_step tid e w with Done (w', _) => all_allowed l w' | _ => True end
  end.

Lemma exec_runs w0 l tr w tr' w' :
  runs w0 tr w -> all_allowed l w -> exec l tr w = Done (tr', w') -> runs w0 tr' w'.
Proof.
  revert tr w. induction l as [|[tid e] l IH]; intros tr w Hr Hl H; [simpl in H; by done_inv|].
  destruct Hl as [Ha Hl]. simpl in H. apply bind_Done in H as ([w1 r] & H1 & H). rw H1 in Hl.
  eapply IH, H; [|done]. by eapply runs_step.
Qed.

(** Thread 0 borrows a message and copies its handle while thread 1 copies a received one and drops a
    copy. *)
Definition demo : list (nat * step) :=
  [(0%nat, Member (Borrow 0 false "t" 7 100 1)); (1%nat, Member (Receive 2 false "t" 3 5 200 2));
   (0%nat, Member (AliasCopy 1 0 false 100)); (1%nat, Member (AliasCopy 3 2 false 200));
   (1%nat, Member (ResetBegin 2)); (1%nat, Member (ResetEnd 2))].

(** The same, and thread 0 is in the middle of [publish] while thread 1 drops the copy of the message. *)
Definition publishing : list (nat * step) :=
  demo ++ [(0%nat, CheckMessage 0 "t"); (0%nat, ReadAddress 0); (0%nat, InvalidateAll 0);
           (1%nat, Member (ResetBegin 1)); (1%nat, Member (ResetEnd 1)); (0%nat, DecrementBorrowed 0)].

Definition demo_request : request := ("t"%string, 3%Z, 5%Z).

Definition result (l : list (nat * step)) : list (step * option request) * process :=
  match exec l [] (start 4) with Done r => r | _ => ([], start 4) end.
Definition demo_run : list (step * option request) * process := result demo.
Definition publishing_run : list (step * option request) * process := result publishing.

Ltac allow :=
  repeat match goal with
  | |- all_allowed _ _ => simpl; split
  | |- step_allowed _ (CheckMessage _ _) => split
  | |- publishable _ _ _ => split
  | |- no_other_call _ _ =>
      let Hi := fresh in intros ? ? ? ? [? Hi]; vm_compute in Hi; discriminate Hi
  | |- _ /\ _ => split
  | |- True => exact I
  | |- forall _ _ _, _ =>
      let Hx := fresh in let Hc := fresh in let Hb := fresh in
      intros ? ? ? Hx Hc Hb; vm_compute in Hx; injection Hx as <-;
      vm_compute in Hc; injection Hc as <-; vm_compute in Hb; injection Hb as <-; intros
  | |- ~ (_ ∈ _) => apply (bool_decide_unpack _); vm_compute; exact I
  | |- _ ∈ _ => apply (bool_decide_unpack _); vm_compute; exact I
  | |- _ = _ => vm_compute; reflexivity
  | |- _ <> _ => vm_compute; discriminate
  | |- match ?x with _ => _ end => let y := eval vm_compute in x in change x with y; cbn beta iota
  end.

Lemma publishing_runs : runs (start 4) publishing_run.1 publishing_run.2.
Proof. eapply (exec_runs _ publishing []); [constructor|allow|vm_compute; reflexivity]. Qed.

Lemma demo_runs : runs (start 4) demo_run.1 demo_run.2.
Proof. eapply (exec_runs _ demo []); [constructor|allow|vm_compute; reflexivity]. Qed.

(** ** Theorems *)

(** C21. In every interleaving of the steps of the methods of any number of threads on fewer than 2^32
    handles, no step uses or frees memory that is not allocated: no control block is read after it was
    deleted, no message is freed twice, and a message is handed to the kernel module at most once and
    never freed by a handle afterwards.  Conditions: [publish] and [cancel_message] are called on
    borrowed messages, and no two such calls on copies of one message overlap
    ([two_calls_free_a_message_twice] shows that they may not); a loaned message is aliased under its own
    address only; [new] returns unused memory; the module hands back what it was given. *)
Theorem pointers_never_dangle n tr w tid e :
  Z.of_nat n < 2 ^ 32 -> runs (start n) tr w -> step_allowed w e -> run_step tid e w <> Undefined.
Proof. intros Hn Hr Ha. apply run_step_defined; [by eapply runs_ok|done]. Qed.

(** C22. However copies of received messages are made, moved and dropped by any threads, each reference
    handed over by the kernel module ([k] is its topic, subscriber and entry) is given back at most once:
    as many were given back as were handed over less the control blocks still alive, and none is alive,
    nor any borrowed message, once no handle owns anything. *)
Theorem references_given_back_once n tr s k :
  Z.of_nat n < 2 ^ 32 -> runs (start n) tr s ->
  (length (filter (received k) tr) = length (filter (released k) tr) + outstanding k s)%nat /\
  ((forall h x, handles s !! h = Some x -> owned x = None) ->
   blocks s = ∅ /\ loaned s = ∅ /\ outstanding k s = 0%nat).
Proof.
  intros Hn Hr. split.
  - induction Hr as [|tr w tid e w' r Hr IH Ha H]; [done|].
    pose proof (step_conserves k tid e w w' r (runs_ok _ _ _ Hn Hr) Ha H) as Hc.
    rw !filter_app !length_app !filter_cons !filter_nil. unfold counts in Hc.
    repeat case_decide; simpl; lia.
  - intros Hnone. pose proof (runs_ok _ _ _ Hn Hr) as Hok.
    destruct (unshared_empty s) as [Hb Hl]; [by apply quiet_ok, no_calls|done|].
    unfold outstanding. by rw Hb map_filter_empty map_size_empty.
Qed.

(** [publish] either ends the process, exactly when the message is not a borrowed one of this topic
    or the thread has none left to hand over, or hands the message over exactly once: it leaves the
    messages of this process, those the kernel module hands back are freed, every other handle of the
    message reads null and aborts when dereferenced, and the handles of other messages are unchanged. *)
Theorem publish_hands_over n tr (s : process) kernel tid h topic x :
  Z.of_nat n < 2 ^ 32 -> runs (start n) tr s -> calls s = ∅ -> publishable s h topic ->
  handles s !! h = Some x -> closing_ x = None ->
  (forall p, NoDup (kernel p) /\ forall q, q ∈ kernel p -> q = p \/ q ∈ published s) ->
  (publish kernel tid h topic s = Exit /\ forall c b, ~ accepted s tid topic x c b) \/
  (exists c b s', accepted s tid topic x c b /\ publish kernel tid h topic s = Done (s', None) /\
     handles s' !! h = Some (Handle (void_ x) 0 None None) /\
     ptr_ x ∈ loaned s /\ loaned s' = loaned s ∖ {[ptr_ x]} /\
     published s' = ({[ptr_ x]} ∪ published s) ∖ list_to_set (kernel (ptr_ x)) /\
     forall i y, i <> h -> handles s !! i = Some y -> closing_ y = None ->
       if decide (control_ y = Some c) then get i s' = Done 0 /\ deref i s' = Exit
       else get i s' = get i s).
Proof.
  intros Hn Hr Hq [Hne Ha] Hx Hcl Hk. pose proof (quiet_ok _ (runs_ok _ _ _ Hn Hr) Hq) as Hok. unfold publish.
  destruct (take_back_eq tid h topic s x Hok Hne Hx Hcl) as [[-> Hno]|(c & b & Hacc & Ht)]; [by left|right].
  pose proof Hacc as (Hc & Hb & Hv & Hp & _). assert (He := Ha _ _ _ Hx Hc Hb).
  assert (ptr_ x ∈ loaned s) as Hpl.
  { apply (loaned_block s h x c b); try done; [by apply owned_control|by unfold loan; rw He Hv]. }
  destruct (shared_block _ Hok _ _ _ Hx Hc) as (b0 & Hb0 & Hn0 & _). rw Hb in Hb0. injection Hb0 as <-.
  destruct (Hk (ptr_ x)) as [Hd Hsub]. rw Ht /=. unfold hand_over. rw decide_True //= delete_all_Done //; [|set_solver]. simpl.
  erewrite (reset_invalid tid h _ x c (set_invalid b));
    [|done|done|done|by rw /= lookup_insert_eq|done|done|done].
  eexists c, b, _. split; [done|]. split; [reflexivity|]. simpl.
  split; [by rw list_lookup_insert_eq; [|by eapply lookup_lt_Some]|]. do 3 (split; [done|]).
  intros i y Hi Hy Hcy. eapply (other_handle_get s _ h x c i y b); try done. simpl.
  by rw delete_insert_eq insert_insert_eq.
Qed.

(** An assignment to [h] from another handle [r] never uses freed memory, even when [h] held the last
    reference of its message or shared that of [r]; when it returns, [h] reads what [r] read before, no
    other handle reads anything else, and a moved-from handle is null while a copied one is unchanged. *)
Theorem assignment_takes_source n tr (s : process) tid h r x y moves :
  Z.of_nat n < 2 ^ 32 -> runs (start n) tr s -> calls s = ∅ -> h <> r ->
  handles s !! h = Some x -> closing_ x = None -> handles s !! r = Some y -> closing_ y = None ->
  let assign := if moves : bool then move_assign else copy_assign in
  assign tid h r (void_ x) s = Exit \/
  exists s' release, assign tid h r (void_ x) s = Done (s', release) /\
    handles s' !! h = Some (Handle (void_ x) (ptr_ y) (control_ y) None) /\ get h s' = get r s /\
    handles s' !! r = Some (if moves then Handle (void_ y) 0 None None else y) /\
    forall i z, i <> h -> i <> r -> handles s !! i = Some z -> closing_ z = None ->
      handles s' !! i = Some z /\ get i s' = get i s.
Proof.
  intros Hn Hr Hq Hhr Hx Hclx Hy Hcly. pose proof (quiet_ok _ (runs_ok _ _ _ Hn Hr) Hq) as Hok. simpl.
  assert (Hlt : (h < length (handles s))%nat) by by eapply lookup_lt_Some.
  assert (Hltr : (r < length (handles s))%nat) by by eapply lookup_lt_Some.
  rw (assign_eq moves tid h r (void_ x) s Hhr).
  destruct (reset_total tid h s x Hok Hx Hclx) as [->|(s1 & release & Hs1)]; [by left|right].
  destruct (reset_frame _ _ _ _ _ _ Hok Hx Hclx Hs1) as (Hok1 & [p Hh1] & Hframe).
  assert (Hnull : handles s1 !! h = Some (Handle (void_ x) p None None))
    by by rw Hh1 list_lookup_insert_eq.
  assert (Hy1 : handles s1 !! r = Some y) by by rw Hh1 list_lookup_insert_ne.
  assert (exists s', (if moves then move else copy) h r (void_ x) s1 = Done s' /\
    handles s' = (if moves then <[r := Handle (void_ y) 0 None None]> else id)
                   (<[h := Handle (void_ x) (ptr_ y) (control_ y) None]> (handles s)) /\
    forall z, reads (blocks s') z = reads (blocks s1) z) as (s' & He & Hh' & Hb').
  { destruct moves.
    - rw (move_fills s1 h r _ _ y (void_ x) Hnull Hhr Hy1 Hcly).
      eexists. split; [done|]. by rw /= Hh1 list_insert_insert_eq.
    - destruct (copy_fills s1 h r _ _ y (void_ x) Hok1 Hnull Hy1 Hcly) as (s' & -> & Hh' & Hb').
      eexists. split; [done|]. by rw Hh' Hh1 list_insert_insert_eq. }
  exists s', release. split; [by rw Hs1 /= He|].
  assert (Hhh : handles s' !! h = Some (Handle (void_ x) (ptr_ y) (control_ y) None)).
  { rw Hh'. destruct moves; [rw list_lookup_insert_ne //|]; by rw list_lookup_insert_eq. }
  split; [done|]. split.
  { rw (get_reads _ _ _ Hhh) // (get_reads _ _ _ Hy) // Hb' -(Hframe r y) //. }
  split.
  { rw Hh'. destruct moves; simpl; [rw list_lookup_insert_eq // length_insert //|rw list_lookup_insert_ne //]. }
  intros i z Hi Hir Hz Hclz. assert (Hz' : handles s' !! i = Some z).
  { rw Hh'. destruct moves; [rw list_lookup_insert_ne //|]; by rw list_lookup_insert_ne. }
  split; [done|]. rw (get_reads _ _ _ Hz') // (get_reads _ _ _ Hz) // Hb'. by apply (Hframe i).
Qed.

Lemma pointers_never_dangle_witness :
  runs (start 4) publishing_run.1 publishing_run.2 /\
  run_step 0 (PublishCore 0) publishing_run.2 <> Undefined.
Proof.
  split; [exact publishing_runs|].
  apply (pointers_never_dangle 4 publishing_run.1); [lia|exact publishing_runs|exact I].
Defined.

Lemma references_given_back_once_witness :
  length (filter (received demo_request) demo_run.1) = 1%nat /\
  (length (filter (received demo_request) demo_run.1)
   = length (filter (released demo_request) demo_run.1)
     + outstanding demo_request demo_run.2)%nat.
Proof.
  split; [vm_compute; reflexivity|].
  apply (references_given_back_once 4 demo_run.1 demo_run.2 demo_request); [lia|exact demo_runs].
Defined.

(** Thread 0 publishes the message of the demonstration; the kernel module hands nothing back. *)
Lemma publish_hands_over_witness :
  let x := Handle false 100 (Some 1) None in
  (publish (fun _ => []) 0 0 "t" demo_run.2 = Exit /\ forall c b, ~ accepted demo_run.2 0 "t" x c b) \/
  (exists c b s', accepted demo_run.2 0 "t" x c b /\
     publish (fun _ => []) 0 0 "t" demo_run.2 = Done (s', None) /\
     handles s' !! 0%nat = Some (Handle (void_ x) 0 None None) /\
     ptr_ x ∈ loaned demo_run.2 /\ loaned s' = loaned demo_run.2 ∖ {[ptr_ x]} /\
     published s' = ({[ptr_ x]} ∪ published demo_run.2) ∖ list_to_set [] /\
     forall i y, i <> 0%nat -> handles demo_run.2 !! i = Some y -> closing_ y = None ->
       if decide (control_ y = Some c) then get i s' = Done 0 /\ deref i s' = Exit
       else get i s' = get i demo_run.2).
Proof.
  intros x. apply (publish_hands_over 4 demo_run.1 demo_run.2 (fun _ => []) 0 0 "t" x);
    [lia|exact demo_runs|vm_compute; reflexivity|allow|vm_compute; reflexivity|reflexivity|].
  intros p. split; [constructor|]. intros q Hq. by apply elem_of_nil in Hq.
Defined.

(** The handle of the borrowed message takes the received one over. *)
Lemma assignment_takes_source_witness :
  let s := demo_run.2 in
  copy_assign 0 0 3 false s = Exit \/
  exists s' release, copy_assign 0 0 3 false s = Done (s', release) /\
    handles s' !! 0%nat = Some (Handle false 200 (Some 2) None) /\ get 0 s' = get 3 s /\
    handles s' !! 3%nat = Some (Handle false 200 (Some 2) None) /\
    forall i z, i <> 0%nat -> i <> 3%nat -> handles s !! i = Some z -> closing_ z = None ->
      handles s' !! i = Some z /\ get i s' = get i s.
Proof.
  intros s. apply (assignment_takes_source 4 demo_run.1 s 0 0 3 (Handle false 100 (Some 1) None)
    (Handle false 200 (Some 2) None) false);
    [lia|exact demo_runs|vm_compute; reflexivity|lia|vm_compute; reflexivity|reflexivity|vm_compute; reflexivity|reflexivity].
Defined.

(** ** What the counter of each thread does to a handle dropped elsewhere *)

(** [borrowed_publisher_num] belongs to a thread, so dropping the last handle of a message that is not
    published ends the process when another thread borrowed it. *)
Lemma dropped_by_another_thread :
  exists s, exec [(0%nat, Member (Borrow 0 false "t" 7 100 1)); (0%nat, Member (AliasCopy 1 0 false 100));
                  (0%nat, Member (ResetBegin 0))] [] (start 2) = Done s /\
            reset 0 1 s.2 <> Exit /\ reset 1 1 s.2 = Exit.
Proof.
  eexists. split; [vm_compute; reflexivity|]. split; [vm_compute; discriminate|vm_compute; reflexivity].
Qed.

(** ** Two calls on copies of one message *)

(** The check and the invalidation are two steps, so two threads that cancel copies of a message at the
    same time both pass the check, and both free it.  ([publish] in place of [cancel_message] hands the
    message over twice.) *)
Definition two_cancels : list (nat * step) :=
  [(0%nat, Member (Borrow 0 false "t" 7 100 1)); (1%nat, Member (Borrow 2 false "t" 7 300 3));
   (0%nat, Member (AliasCopy 1 0 false 100)); (0%nat, CheckMessage 0 "t"); (1%nat, CheckMessage 1 "t");
   (0%nat, ReadAddress 0); (1%nat, ReadAddress 1); (0%nat, InvalidateAll 0); (1%nat, InvalidateAll 1);
   (0%nat, DecrementBorrowed 0); (1%nat, DecrementBorrowed 1); (0%nat, CallDeleter 0)].

Lemma two_calls_free_a_message_twice :
  exists r, exec two_cancels [] (start 3) = Done r /\ run_step 1 (CallDeleter 1) r.2 = Undefined.
Proof. eexists. split; [vm_compute; reflexivity|vm_compute; reflexivity]. Qed.
