(* ===== verification/NodeParams.v ===== *)
(** * Parameters of a node

    [node_interfaces::NodeParameters] (agnocastlib, node/node_interfaces/node_parameters.cpp),
    [resolve_parameter_overrides] (node/agnocast_arguments.cpp) and the handlers of
    [ParameterService] (node/agnocast_parameter_service.cpp): declaring, setting, reading and
    removing typed parameters.  Every public method holds [parameters_mutex_], so it is one step.
    User callbacks and the parameter file parser of rcl are arguments.  A [std::map] is a [gmap],
    iterated in the order of its keys.  A [double] is a [spec_float] of the Standard Library's
    model of IEEE 754 binary64. *)

From Stdlib Require Import SpecFloat Ascii.
From S2P Require Import Prelude.

(** ** Doubles *)

Definition double := spec_float.
Definition prec : Z := 53.
Definition emax : Z := 1024.

Definition integer_double (z : Z) : double := binary_normalize prec emax z 0 false.

(** [std::numeric_limits<double>::epsilon()]. *)
Definition epsilon : double := S754_finite false (2 ^ 52) (-104).

(** [std::round]: to the nearest integer, halves away from zero. *)
Definition std_round (x : double) : double :=
  match x with
  | S754_finite s m e =>
      if 0 <=? e then x
      else
        let d := 2 ^ (- e) in
        let q := Z.pos m / d in
        let q := if d <=? 2 * (Z.pos m mod d) then q + 1 else q in
        if q =? 0 then S754_zero s
        else binary_normalize prec emax (if s then - q else q) 0 s
  | _ => x
  end.

Definition are_doubles_equal (x y : double) : bool :=
  SFleb (SFabs (SFsub prec emax x y))
    (SFmul prec emax (SFmul prec emax epsilon (SFabs (SFadd prec emax x y))) (integer_double 100)).

(** ** Values, descriptors, results *)

Inductive parameter_value :=
  | NotSet
  | BoolValue (b : bool)
  | IntegerValue (v : Z)
  | DoubleValue (v : double)
  | StringValue (v : string)
  | ByteArray (v : list Z)
  | BoolArray (v : list bool)
  | IntegerArray (v : list Z)
  | DoubleArray (v : list double)
  | StringArray (v : list string).

Definition PARAMETER_NOT_SET : Z := 0.

Definition get_type (v : parameter_value) : Z :=
  match v with
  | NotSet => PARAMETER_NOT_SET
  | BoolValue _ => 1
  | IntegerValue _ => 2
  | DoubleValue _ => 3
  | StringValue _ => 4
  | ByteArray _ => 5
  | BoolArray _ => 6
  | IntegerArray _ => 7
  | DoubleArray _ => 8
  | StringArray _ => 9
  end.

(** [operator==] of values; that of [double] is not reflexive. *)
Fixpoint doubles_eqb (x y : list double) : bool :=
  match x, y with
  | [], [] => true
  | a :: x, b :: y => SFeqb a b && doubles_eqb x y
  | _, _ => false
  end.

Definition value_eqb (x y : parameter_value) : bool :=
  match x, y with
  | NotSet, NotSet => true
  | BoolValue a, BoolValue b => Bool.eqb a b
  | IntegerValue a, IntegerValue b => a =? b
  | DoubleValue a, DoubleValue b => SFeqb a b
  | StringValue a, StringValue b => String.eqb a b
  | ByteArray a, ByteArray b => bool_decide (a = b)
  | BoolArray a, BoolArray b => bool_decide (a = b)
  | IntegerArray a, IntegerArray b => bool_decide (a = b)
  | DoubleArray a, DoubleArray b => doubles_eqb a b
  | StringArray a, StringArray b => bool_decide (a = b)
  | _, _ => false
  end.

Record range (A : Type) := Range { from_value : A; to_value : A; step : A }.
Arguments Range {A}.
Arguments from_value {A}.
Arguments to_value {A}.
Arguments step {A}.

Record parameter_descriptor := ParameterDescriptor {
  d_name : string;
  d_type : Z;
  description : string;
  additional_constraints : string;
  read_only : bool;
  dynamic_typing : bool;
  floating_point_range : list (range double);
  integer_range : list (range Z)
}.

Definition default_descriptor : parameter_descriptor :=
  ParameterDescriptor EmptyString PARAMETER_NOT_SET EmptyString EmptyString false false [] [].

Definition dynamic_descriptor : parameter_descriptor :=
  ParameterDescriptor EmptyString PARAMETER_NOT_SET EmptyString EmptyString false true [] [].

Definition set_name_type (name : string) (type : Z) (d : parameter_descriptor) : parameter_descriptor :=
  ParameterDescriptor name type (description d) (additional_constraints d) (read_only d)
    (dynamic_typing d) (floating_point_range d) (integer_range d).

Record ParameterInfo := Info { value : parameter_value; descriptor : parameter_descriptor }.

Definition default_info : ParameterInfo := Info NotSet default_descriptor.

Record parameter := Param { p_name : string; p_value : parameter_value }.

Record set_result := SetResult { successful : bool; reason : string }.

Definition success : set_result := SetResult true EmptyString.
Definition failure (reason : string) : set_result := SetResult false reason.

Inductive exception :=
  | InvalidParametersException (what : string)
  | ParameterAlreadyDeclaredException (what : string)
  | InvalidParameterTypeException (name what : string)
  | InvalidParameterValueException (what : string)
  | ParameterNotDeclaredException (what : string)
  | ParameterImmutableException (what : string)
  | ParameterUninitializedException (name : string)
  | ParameterModifiedInCallbackException
  | InvalidArgument (what : string)
  | RuntimeError (what : string)
  | CallbackException.

(** How a call ends: [Aborts] is a failed [assert]. *)
Inductive outcome (A : Type) :=
  | Gives (a : A)
  | Raises (e : exception)
  | Aborts.
Arguments Gives {A}.
Arguments Raises {A}.
Arguments Aborts {A}.

Definition callback := list parameter -> outcome set_result.

(** ** The state

    [on_parameters_set_callback_container_] holds weak pointers: a handle is a number, and [lock]
    below gives the callback of a handle that is still owned. *)
Record node_parameters := NodeParameters {
  parameter_modification_enabled_ : bool;
  parameter_overrides_ : gmap string parameter_value;
  parameters_ : gmap string ParameterInfo;
  on_parameters_set_callback_container_ : list Z;
  allow_undeclared_ : bool
}.

Definition set_parameters_ (ps : gmap string ParameterInfo) (c : list Z) (s : node_parameters)
    : node_parameters :=
  NodeParameters (parameter_modification_enabled_ s) (parameter_overrides_ s) ps c
    (allow_undeclared_ s).

Section parameters.
(** [rclcpp::to_string] of a type, [weak_ptr::lock] of a handle, and whether assertions are compiled
    out. *)
Context (type_name : Z -> string) (lock : Z -> option callback) (NDEBUG : bool).

Fixpoint call_on_parameters_set_callbacks (params : list parameter) (container : list Z)
    (result : set_result) : list Z * outcome set_result :=
  match container with
  | [] => ([], Gives result)
  | it :: rest =>
      match lock it with
      | Some cb =>
          match cb params with
          | Gives result =>
              require successful result orelse (container, Gives result);
              let '(rest, o) := call_on_parameters_set_callbacks params rest result in
              (it :: rest, o)
          | o => (container, o)
          end
      | None => call_on_parameters_set_callbacks params rest result
      end
  end.

Definition lockless_has_parameter (infos : gmap string ParameterInfo) (name : string) : bool :=
  bool_decide (is_Some (infos !! name)).

Definition lockless_get_parameter (infos : gmap string ParameterInfo) (name : string)
    (allow_undeclared : bool) : outcome parameter :=
  match infos !! name with
  | Some i =>
      if negb (get_type (value i) =? PARAMETER_NOT_SET) || dynamic_typing (descriptor i)
      then Gives (Param name (value i))
      else Raises (ParameterUninitializedException name)
  | None =>
      require negb allow_undeclared orelse Gives (Param name NotSet);
      Raises (ParameterNotDeclaredException name)
  end.

(** ** Checks *)

Definition format_range_reason (name range_type : string) : string :=
  "Parameter {" +:+ name +:+ "} doesn't comply with " +:+ range_type +:+ " range.".

(** The remainder is that of the unsigned 64-bit difference. *)
Definition check_integer_range (name : string) (r : range Z) (v : Z) : set_result :=
  require negb ((v =? from_value r) || (v =? to_value r)) orelse success;
  require negb ((v <? from_value r) || (to_value r <? v))
    orelse failure (format_range_reason name "integer");
  require negb (step r =? 0) orelse success;
  require negb (u64 (v - from_value r) mod step r =? 0) orelse success;
  failure (format_range_reason name "integer").

Definition check_floating_point_range (name : string) (r : range double) (v : double) : set_result :=
  require negb (are_doubles_equal v (from_value r) || are_doubles_equal v (to_value r)) orelse success;
  require negb (SFltb v (from_value r) || SFltb (to_value r) v)
    orelse failure (format_range_reason name "floating point");
  require negb (SFeqb (step r) (S754_zero false)) orelse success;
  let rounded_div :=
    std_round (SFdiv prec emax (SFsub prec emax v (from_value r)) (step r)) in
  require negb (are_doubles_equal v
                  (SFadd prec emax (from_value r) (SFmul prec emax rounded_div (step r))))
    orelse success;
  failure (format_range_reason name "floating point").

Definition check_parameter_value_in_range (d : parameter_descriptor) (v : parameter_value)
    : set_result :=
  match v, integer_range d, floating_point_range d with
  | IntegerValue z, r :: _, _ => check_integer_range (d_name d) r z
  | DoubleValue x, _, r :: _ => check_floating_point_range (d_name d) r x
  | _, _, _ => success
  end.

Definition wrong_type : string := "Wrong parameter type".

Definition format_type_reason (name old_type new_type : string) : string :=
  wrong_type +:+ ", parameter {" +:+ name +:+ "} is of type {" +:+ old_type +:+ "}, setting it to {"
    +:+ new_type +:+ "} is not allowed.".

(** [parameter_infos[name]], which adds a missing entry. *)
Definition index_infos (name : string) (infos : gmap string ParameterInfo)
    : gmap string ParameterInfo * ParameterInfo :=
  match infos !! name with
  | Some i => (infos, i)
  | None => (<[name := default_info]> infos, default_info)
  end.

Fixpoint check_parameters (infos : gmap string ParameterInfo) (params : list parameter)
    (allow_undeclared : bool) : gmap string ParameterInfo * set_result :=
  match params with
  | [] => (infos, success)
  | p :: rest =>
      let name := p_name p in
      let '(infos, d) :=
        if allow_undeclared then
          (infos, match infos !! name with Some i => descriptor i | None => dynamic_descriptor end)
        else
          let '(infos, i) := index_infos name infos in (infos, descriptor i) in
      let d := if String.eqb (d_name d) EmptyString then set_name_type name (d_type d) d else d in
      let new_type := get_type (p_value p) in
      require dynamic_typing d || (d_type d =? new_type)
        orelse (infos, failure (format_type_reason name (type_name (d_type d)) (type_name new_type)));
      let result := check_parameter_value_in_range d (p_value p) in
      require successful result orelse (infos, result);
      check_parameters infos rest allow_undeclared
  end.

(** ** Setting *)

Definition set_one (infos : gmap string ParameterInfo) (p : parameter) : gmap string ParameterInfo :=
  let i := default default_info (infos !! p_name p) in
  <[p_name p := Info (p_value p) (set_name_type (p_name p) (get_type (p_value p)) (descriptor i))]> infos.

Definition set_parameters_atomically_common (params : list parameter)
    (infos : gmap string ParameterInfo) (container : list Z) (allow_undeclared : bool)
    : gmap string ParameterInfo * list Z * outcome set_result :=
  let '(infos, result) := check_parameters infos params allow_undeclared in
  require successful result orelse (infos, container, Gives result);
  let '(container, o) := call_on_parameters_set_callbacks params container success in
  match o with
  | Gives result =>
      require successful result orelse (infos, container, Gives result);
      (foldl set_one infos params, container, Gives result)
  | _ => (infos, container, o)
  end.

Definition declare_parameter_common (name : string) (default_value : parameter_value)
    (d : parameter_descriptor) (parameters_out : gmap string ParameterInfo)
    (overrides : gmap string parameter_value) (container : list Z) (ignore_override : bool)
    : gmap string ParameterInfo * list Z * outcome set_result :=
  let initial_value :=
    match overrides !! name with
    | Some v => if ignore_override then default_value else v
    | None => default_value
    end in
  require negb (get_type initial_value =? PARAMETER_NOT_SET)
    orelse
      (let type := if dynamic_typing d then PARAMETER_NOT_SET else d_type d in
       (<[name := Info NotSet (set_name_type name type d)]> parameters_out, container,
        Gives success));
  let '(infos, container, o) :=
    set_parameters_atomically_common [Param name initial_value] {[name := Info NotSet d]}
      container false in
  match o with
  | Gives result =>
      require successful result orelse (parameters_out, container, Gives result);
      (<[name := default default_info (infos !! name)]> parameters_out, container, Gives result)
  | _ => (parameters_out, container, o)
  end.

Definition declare_parameter_helper (name : string) (type : Z) (default_value : parameter_value)
    (d : parameter_descriptor) (ignore_override : bool) (infos : gmap string ParameterInfo)
    (overrides : gmap string parameter_value) (container : list Z)
    : gmap string ParameterInfo * list Z * outcome parameter_value :=
  require negb (String.eqb name EmptyString)
    orelse (infos, container, Raises (InvalidParametersException "parameter name must not be empty"));
  require negb (lockless_has_parameter infos name)
    orelse (infos, container, Raises (ParameterAlreadyDeclaredException
              ("parameter '" +:+ name +:+ "' has already been declared")));
  let type := if PARAMETER_NOT_SET =? type then get_type default_value else type in
  require dynamic_typing d || negb (PARAMETER_NOT_SET =? type)
    orelse (infos, container, Raises (InvalidParameterTypeException name
              "cannot declare a statically typed parameter with an uninitialized value"));
  let d := if dynamic_typing d then d else set_name_type (d_name d) type d in
  let '(infos, container, o) :=
    declare_parameter_common name default_value d infos overrides container ignore_override in
  match o with
  | Gives result =>
      require successful result
        orelse (infos, container,
                if String.prefix wrong_type (reason result)
                then Raises (InvalidParameterTypeException name (reason result))
                else Raises (InvalidParameterValueException
                       ("parameter '" +:+ name +:+ "' could not be set: " +:+ reason result)));
      (infos, container, Gives (value (default default_info (infos !! name))))
  | Raises e => (infos, container, Raises e)
  | Aborts => (infos, container, Aborts)
  end.

(** [ParameterMutationRecursionGuard]: the methods that change parameters cannot be called from a
    callback. *)
Definition guarded {A} (s : node_parameters) (k : node_parameters * outcome A)
    : node_parameters * outcome A :=
  require parameter_modification_enabled_ s
    orelse (s, Raises ParameterModifiedInCallbackException);
  k.

(** ** Public methods *)

Definition declare_parameter (name : string) (default_value : parameter_value)
    (d : parameter_descriptor) (ignore_override : bool) (s : node_parameters)
    : node_parameters * outcome parameter_value :=
  guarded s
    (let '(infos, container, o) :=
       declare_parameter_helper name PARAMETER_NOT_SET default_value d ignore_override
         (parameters_ s) (parameter_overrides_ s) (on_parameters_set_callback_container_ s) in
     (set_parameters_ infos container s, o)).

Definition declare_parameter_of_type (name : string) (type : Z) (d : parameter_descriptor)
    (ignore_override : bool) (s : node_parameters) : node_parameters * outcome parameter_value :=
  guarded s
    (require negb (PARAMETER_NOT_SET =? type)
       orelse (s, Raises (InvalidArgument
         "declare_parameter(): the provided parameter type cannot be rclcpp::PARAMETER_NOT_SET"));
     require negb (dynamic_typing d)
       orelse (s, Raises (InvalidArgument
         "declare_parameter(): cannot declare parameter of specific type and pass descriptor with `dynamic_typing=true`"));
     let '(infos, container, o) :=
       declare_parameter_helper name type NotSet d ignore_override
         (parameters_ s) (parameter_overrides_ s) (on_parameters_set_callback_container_ s) in
     (set_parameters_ infos container s, o)).

Definition undeclare_parameter (name : string) (s : node_parameters)
    : node_parameters * outcome unit :=
  guarded s
    (match parameters_ s !! name with
     | None => (s, Raises (ParameterNotDeclaredException
         ("cannot undeclare parameter '" +:+ name +:+ "' which has not yet been declared")))
     | Some i =>
         require negb (read_only (descriptor i))
           orelse (s, Raises (ParameterImmutableException
             ("cannot undeclare parameter '" +:+ name +:+ "' because it is read-only")));
         require dynamic_typing (descriptor i)
           orelse (s, Raises (InvalidParameterTypeException name
             "cannot undeclare a statically typed parameter"));
         (set_parameters_ (delete name (parameters_ s)) (on_parameters_set_callback_container_ s) s,
          Gives tt)
     end).

Definition has_parameter (name : string) (s : node_parameters) : bool :=
  lockless_has_parameter (parameters_ s) name.

(** The first loop of [set_parameters_atomically]: the parameters to declare, or the way the call
    ends. *)
Fixpoint parameters_to_be_declared (allow_undeclared : bool) (infos : gmap string ParameterInfo)
    (params : list parameter) : list parameter + outcome set_result :=
  match params with
  | [] => inl []
  | p :: rest =>
      let name := p_name p in
      require negb (String.eqb name EmptyString)
        orelse inr (Raises (InvalidParametersException "parameter name must not be empty"));
      match infos !! name with
      | None =>
          require allow_undeclared
            orelse inr (Raises (ParameterNotDeclaredException
              ("parameter '" +:+ name +:+ "' cannot be set because it was not declared")));
          match parameters_to_be_declared allow_undeclared infos rest with
          | inl l => inl (p :: l)
          | inr o => inr o
          end
      | Some i =>
          require negb (read_only (descriptor i))
            orelse inr (Gives (failure
              ("parameter '" +:+ name +:+ "' cannot be set because it is read-only")));
          parameters_to_be_declared allow_undeclared infos rest
      end
  end.

(** The declarations into [staged_parameter_changes], without callbacks; or the way the call ends. *)
Fixpoint stage_declarations (overrides : gmap string parameter_value) (params : list parameter)
    (staged : gmap string ParameterInfo) : gmap string ParameterInfo + outcome set_result :=
  match params with
  | [] => inl staged
  | p :: rest =>
      let '(staged, _, o) :=
        declare_parameter_common (p_name p) (p_value p) dynamic_descriptor staged overrides [] true in
      match o with
      | Gives result =>
          require successful result orelse inr (Gives result);
          stage_declarations overrides rest staged
      | _ => inr o
      end
  end.

Definition find_parameter_by_name (params : list parameter) (name : string) : option parameter :=
  find (fun p => String.eqb (p_name p) name) params.

(** [*find_parameter_by_name(parameters_copy, p.name) = p]. *)
Fixpoint replace_parameter (p : parameter) (params : list parameter) : list parameter :=
  match params with
  | [] => []
  | q :: rest => if String.eqb (p_name q) (p_name p) then p :: rest else q :: replace_parameter p rest
  end.

(** [parameters_to_be_set]. *)
Definition patch_parameters (staged : gmap string ParameterInfo) (params : list parameter)
    : list parameter :=
  let any_initial_values_used :=
    existsb (fun name =>
      match staged !! name, find_parameter_by_name params name with
      | Some i, Some p => negb (value_eqb (p_value p) (value i))
      | _, _ => false
      end) (sorted_keys staged) in
  if any_initial_values_used then
    foldl (fun l name => replace_parameter
             (Param name (value (default default_info (staged !! name)))) l)
      params (sorted_keys staged)
  else params.

(** [None]: a statically typed parameter would be undeclared. *)
Fixpoint parameters_to_be_undeclared (infos : gmap string ParameterInfo) (params : list parameter)
    : option (list string) :=
  match params with
  | [] => Some []
  | p :: rest =>
      match (if PARAMETER_NOT_SET =? get_type (p_value p) then infos !! p_name p else None) with
      | Some i =>
          require negb (PARAMETER_NOT_SET =? get_type (value i))
            orelse parameters_to_be_undeclared infos rest;
          require dynamic_typing (descriptor i) orelse None;
          unwrap l := parameters_to_be_undeclared infos rest orelse None;
          Some (p_name p :: l)
      | None => parameters_to_be_undeclared infos rest
      end
  end.

(** The last two loops; [None] is a failed assertion. *)
Fixpoint commit_staged (staged : gmap string ParameterInfo) (names : list string)
    (infos : gmap string ParameterInfo) : option (gmap string ParameterInfo) :=
  match names with
  | [] => Some infos
  | name :: rest =>
      let i := default default_info (staged !! name) in
      require NDEBUG || match infos !! name with
                        | Some j => value_eqb (value j) (value i)
                        | None => false
                        end orelse None;
      commit_staged staged rest (<[name := i]> infos)
  end.

Fixpoint undeclare_all (names : list string) (infos : gmap string ParameterInfo)
    : option (gmap string ParameterInfo) :=
  match names with
  | [] => Some infos
  | name :: rest =>
      require NDEBUG || bool_decide (is_Some (infos !! name)) orelse None;
      undeclare_all rest (delete name infos)
  end.

Definition set_parameters_atomically (params : list parameter) (s : node_parameters)
    : node_parameters * outcome set_result :=
  guarded s
    (match parameters_to_be_declared (allow_undeclared_ s) (parameters_ s) params with
     | inr o => (s, o)
     | inl to_be_declared =>
         match stage_declarations (parameter_overrides_ s) to_be_declared ∅ with
         | inr o => (s, o)
         | inl staged =>
             let to_be_set := patch_parameters staged params in
             match parameters_to_be_undeclared (parameters_ s) to_be_set with
             | None => (s, Gives (failure "cannot undeclare a statically typed parameter"))
             | Some to_be_undeclared =>
                 let '(infos, container, o) :=
                   set_parameters_atomically_common to_be_set (parameters_ s)
                     (on_parameters_set_callback_container_ s) (allow_undeclared_ s) in
                 match o with
                 | Gives result =>
                     require successful result orelse (set_parameters_ infos container s, o);
                     match commit_staged staged (sorted_keys staged) infos
                             ≫= undeclare_all to_be_undeclared with
                     | Some infos => (set_parameters_ infos container s, Gives result)
                     | None => (set_parameters_ infos container s, Aborts)
                     end
                 | _ => (set_parameters_ infos container s, o)
                 end
             end
         end
     end).

(** Each parameter is set on its own; an exception ends the loop. *)
Fixpoint set_parameters (params : list parameter) (s : node_parameters)
    : node_parameters * outcome (list set_result) :=
  match params with
  | [] => (s, Gives [])
  | p :: rest =>
      match set_parameters_atomically [p] s with
      | (s, Gives result) =>
          match set_parameters rest s with
          | (s, Gives results) => (s, Gives (result :: results))
          | sr => sr
          end
      | (s, Raises e) => (s, Raises e)
      | (s, Aborts) => (s, Aborts)
      end
  end.

Definition add_on_set_parameters_callback (handle : Z) (s : node_parameters)
    : node_parameters * outcome unit :=
  guarded s
    (set_parameters_ (parameters_ s) (handle :: on_parameters_set_callback_container_ s) s, Gives tt).

(** The handler given is alive, so it is found by its address; expired entries are [nullptr]. *)
Fixpoint erase_handle (handle : Z) (container : list Z) : option (list Z) :=
  match container with
  | [] => None
  | h :: rest =>
      if bool_decide (is_Some (lock h)) && (h =? handle) then Some rest
      else (cons h) <$> erase_handle handle rest
  end.

Definition remove_on_set_parameters_callback (handle : Z) (s : node_parameters)
    : node_parameters * outcome unit :=
  guarded s
    (match erase_handle handle (on_parameters_set_callback_container_ s) with
     | Some container => (set_parameters_ (parameters_ s) container s, Gives tt)
     | None => (s, Raises (RuntimeError "Callback doesn't exist"))
     end).

(** ** Reading *)

Fixpoint map_outcome {A B} (f : A -> outcome B) (l : list A) : outcome (list B) :=
  match l with
  | [] => Gives []
  | x :: rest =>
      match f x with
      | Gives y => match map_outcome f rest with Gives ys => Gives (y :: ys) | o => o end
      | Raises e => Raises e
      | Aborts => Aborts
      end
  end.

Definition get_parameters (names : list string) (s : node_parameters) : outcome (list parameter) :=
  map_outcome (fun name => lockless_get_parameter (parameters_ s) name (allow_undeclared_ s)) names.

Definition get_parameter (name : string) (s : node_parameters) : outcome parameter :=
  lockless_get_parameter (parameters_ s) name (allow_undeclared_ s).

(** The overload that returns a flag. *)
Definition get_parameter_if_set (name : string) (s : node_parameters) : option parameter :=
  unwrap i := parameters_ s !! name orelse None;
  require negb (get_type (value i) =? PARAMETER_NOT_SET) orelse None;
  Some (Param name (value i)).

Definition substr (n : nat) (s : string) : string := String.substring n (String.length s - n) s.

Definition get_parameters_by_prefix (prefix : string) (s : node_parameters)
    (out : gmap string parameter) : gmap string parameter * bool :=
  let prefix_with_dot := if String.eqb prefix EmptyString then prefix else prefix +:+ "." in
  let n := String.length prefix_with_dot in
  foldl (fun '(out, ret) name =>
    match parameters_ s !! name with
    | Some i =>
        if String.prefix prefix_with_dot name && (n <? String.length name)%nat
        then (<[substr n name := Param (d_name (descriptor i)) (value i)]> out, true)
        else (out, ret)
    | None => (out, ret)
    end) (out, false) (sorted_keys (parameters_ s)).

Definition describe_parameters (names : list string) (s : node_parameters)
    : outcome (list parameter_descriptor) :=
  map_outcome (fun name =>
    match parameters_ s !! name with
    | Some i => Gives (descriptor i)
    | None =>
        if allow_undeclared_ s then Gives (set_name_type name PARAMETER_NOT_SET default_descriptor)
        else Raises (ParameterNotDeclaredException name)
    end) names.

Definition get_parameter_types (names : list string) (s : node_parameters) : outcome (list Z) :=
  map_outcome (fun name =>
    match parameters_ s !! name with
    | Some i => Gives (get_type (value i))
    | None =>
        if allow_undeclared_ s then Gives PARAMETER_NOT_SET
        else Raises (ParameterNotDeclaredException name)
    end) names.

Fixpoint count_separators (s : string) : Z :=
  match s with
  | EmptyString => 0
  | String c rest => (if Ascii.eqb c "."%char then 1 else 0) + count_separators rest
  end.

(** [find_last_of] and the [substr] before it: [None] when there is no separator. *)
Fixpoint before_last_separator (s : string) : option string :=
  match s with
  | EmptyString => None
  | String c rest =>
      match before_last_separator rest with
      | Some p => Some (String c p)
      | None => if Ascii.eqb c "."%char then Some EmptyString else None
      end
  end.

Definition DEPTH_RECURSIVE : Z := 0.

Definition prefix_matches (depth : Z) (name prefix : string) : bool :=
  String.eqb name prefix
  || (String.prefix (prefix +:+ ".") name
      && ((depth =? DEPTH_RECURSIVE)
          || (count_separators (substr (String.length prefix + 1) name) <? depth))).

Definition list_selects (prefixes : list string) (depth : Z) (name : string) : bool :=
  (bool_decide (prefixes = []) && (depth =? DEPTH_RECURSIVE))
  || (bool_decide (prefixes = []) && (count_separators name <? depth))
  || existsb (prefix_matches depth name) prefixes.

Definition list_one (result : list string * list string) (name : string) : list string * list string :=
  (result.1 ++ [name],
   match before_last_separator name with
   | Some prefix => if bool_decide (prefix ∈ result.2) then result.2 else result.2 ++ [prefix]
   | None => result.2
   end).

(** The names and the prefixes of [ListParametersResult]. *)
Definition list_parameters (prefixes : list string) (depth : Z) (s : node_parameters)
    : list string * list string :=
  foldl (fun result name =>
    if list_selects prefixes depth name then list_one result name else result)
    ([], []) (sorted_keys (parameters_ s)).

(** ** Construction *)

(** A source of arguments is absent or uninitialised ([None]), or has, for a fully qualified name,
    the overrides rcl reads from it, or none. *)
Definition arguments := option (string -> option (list parameter)).

Definition add_overrides (l : list parameter) (result : gmap string parameter_value)
    : gmap string parameter_value :=
  foldl (fun result p => <[p_name p := p_value p]> result) result l.

Definition resolve_parameter_overrides (node_fqn : string) (parameter_overrides : list parameter)
    (local_args global_args : arguments) : gmap string parameter_value :=
  let result := foldl (fun result (source : arguments) =>
    match source with
    | None => result
    | Some params =>
        match params node_fqn with
        | None => result
        | Some l => add_overrides l result
        end
    end) ∅ [global_args; local_args] in
  add_overrides parameter_overrides result.

(** [local_perform_automatically_declare_parameters_from_overrides]. *)
Fixpoint declare_from_overrides (names : list string) (overrides : gmap string parameter_value)
    (s : node_parameters) : node_parameters * outcome unit :=
  match names with
  | [] => (s, Gives tt)
  | name :: rest =>
      require negb (has_parameter name s) orelse declare_from_overrides rest overrides s;
      match declare_parameter name (default NotSet (overrides !! name)) dynamic_descriptor true s with
      | (s, Gives _) => declare_from_overrides rest overrides s
      | (s, Raises e) => (s, Raises e)
      | (s, Aborts) => (s, Aborts)
      end
  end.

(** The constructor.  [context_args] is what the initialised global context holds. *)
Definition new_node_parameters (node_fqn : string) (parameter_overrides : list parameter)
    (local_args context_args : arguments)
    (use_global_arguments allow_undeclared automatically_declare : bool)
    : node_parameters * outcome unit :=
  let global_args := if use_global_arguments then context_args else None in
  let overrides := resolve_parameter_overrides node_fqn parameter_overrides local_args global_args in
  let s := NodeParameters true overrides ∅ [] allow_undeclared in
  if automatically_declare then declare_from_overrides (sorted_keys overrides) overrides s
  else (s, Gives tt).

Definition perform_automatically_declare_parameters_from_overrides (s : node_parameters)
    : node_parameters * outcome unit :=
  declare_from_overrides (sorted_keys (parameter_overrides_ s)) (parameter_overrides_ s) s.

(** ** [ParameterService]: the responses to requests; [Raises] is an exception that leaves the
    callback of the service. *)

Definition service_get_parameters (names : list string) (s : node_parameters)
    : outcome (list parameter_value) :=
  match get_parameters names s with
  | Gives l => Gives (p_value <$> l)
  | Raises (ParameterNotDeclaredException _) => Gives []
  | Raises (ParameterUninitializedException _) => Gives []
  | Raises e => Raises e
  | Aborts => Aborts
  end.

Definition service_get_parameter_types (names : list string) (s : node_parameters)
    : outcome (list Z) :=
  match get_parameter_types names s with
  | Raises (ParameterNotDeclaredException _) => Gives []
  | o => o
  end.

Fixpoint service_set_parameters (params : list parameter) (s : node_parameters)
    : node_parameters * outcome (list set_result) :=
  match params with
  | [] => (s, Gives [])
  | p :: rest =>
      let '(s, o) := set_parameters_atomically [p] s in
      match (match o with
             | Raises (ParameterNotDeclaredException what) => Gives (failure what)
             | o => o
             end) with
      | Gives result =>
          let '(s, o) := service_set_parameters rest s in
          (s, match o with Gives results => Gives (result :: results) | o => o end)
      | Raises e => (s, Raises e)
      | Aborts => (s, Aborts)
      end
  end.

Definition service_set_parameters_atomically (params : list parameter) (s : node_parameters)
    : node_parameters * outcome set_result :=
  match set_parameters_atomically params s with
  | (s, Raises (ParameterNotDeclaredException _)) =>
      (s, Gives (failure "One or more parameters were not declared before setting"))
  | so => so
  end.

Definition service_describe_parameters (names : list string) (s : node_parameters)
    : outcome (list parameter_descriptor) :=
  match describe_parameters names s with
  | Raises (ParameterNotDeclaredException _) => Gives []
  | o => o
  end.

Definition service_list_parameters (prefixes : list string) (depth : Z) (s : node_parameters)
    : list string * list string := list_parameters prefixes depth s.
End parameters.
