(* ===== verification/ParamTheorems.v ===== *)
(** * What the parameters of a node guarantee

    Proofs about NodeParams: every stored parameter has the type and the range it was declared with,
    a call that sets several parameters sets all of them or none, read-only parameters keep their
    values. *)

From Stdlib Require Import SpecFloat.
From S2P Require Import Prelude.
From S2P Require Import NodeParams.

(** ** Invariant *)

Definition in_range (d : parameter_descriptor) (v : parameter_value) : bool :=
  successful (check_parameter_value_in_range d v).

(** A value that may be given to a parameter with this descriptor. *)
Definition acceptable (d : parameter_descriptor) (v : parameter_value) : bool :=
  (dynamic_typing d || (d_type d =? get_type v)) && in_range d v.

(** The entry of a declared parameter: the type of a dynamically typed one follows its value, that of
    a statically typed one is fixed and known; the value, if there is one, has that type and is in
    range. *)
Definition typed_info (name : string) (i : ParameterInfo) : Prop :=
  name <> EmptyString /\ d_name (descriptor i) = name /\
  (if dynamic_typing (descriptor i) then d_type (descriptor i) = get_type (value i)
   else d_type (descriptor i) <> PARAMETER_NOT_SET /\
        (value i = NotSet \/ get_type (value i) = d_type (descriptor i))) /\
  in_range (descriptor i) (value i) = true.

Definition typed (infos : gmap string ParameterInfo) : Prop := map_Forall typed_info infos.

(** ** Checks *)

Lemma get_type_not_set v : get_type v = PARAMETER_NOT_SET <-> v = NotSet.
Proof. by destruct v. Qed.

Lemma range_success_failure (b : bool) (r : string) :
  successful (if b then success else failure r) = b.
Proof. by destruct b. Qed.

Lemma in_range_set_name_type name type d v : in_range (set_name_type name type d) v = in_range d v.
Proof.
  unfold in_range, check_parameter_value_in_range, check_integer_range, check_floating_point_range.
  destruct v; [done|done| | |done..]; simpl.
  - destruct (integer_range d) as [|r ?]; [done|]. by repeat case_match.
  - destruct (integer_range d) as [|? ?], (floating_point_range d) as [|? ?]; try done;
      by repeat case_match.
Qed.

Lemma in_range_not_set d : in_range d NotSet = true.
Proof. done. Qed.

Lemma in_range_dynamic v : in_range dynamic_descriptor v = true.
Proof. by destruct v. Qed.

(** The descriptor a parameter is checked against. *)
Definition descriptor_of (infos : gmap string ParameterInfo) (name : string) : parameter_descriptor :=
  match infos !! name with Some i => descriptor i | None => dynamic_descriptor end.

Section parameters.
Context (type_name : Z -> string) (lock : Z -> option callback) (NDEBUG : bool).

Lemma check_parameters_spec infos params allow infos' r :
  (allow = true \/ forall p, p ∈ params -> is_Some (infos !! p_name p)) ->
  check_parameters type_name infos params allow = (infos', r) ->
  infos' = infos /\
  successful r = forallb (fun p => acceptable (descriptor_of infos (p_name p)) (p_value p)) params.
Proof.
  revert infos' r. induction params as [|p rest IH]; intros infos' r Hall; simpl.
  { by intros [= <- <-]. }
  assert (allow = true \/ forall p, p ∈ rest -> is_Some (infos !! p_name p)) as Hrest
    by (destruct Hall as [|Hall]; [by left|right; intros q Hq; apply Hall; by right]).
  set (d0 := descriptor_of infos (p_name p)).
  assert ((if allow
           then (infos, match infos !! p_name p with
                        | Some i => descriptor i | None => dynamic_descriptor end)
           else let '(infos, i) := index_infos (p_name p) infos in (infos, descriptor i))
          = (infos, d0)) as ->.
  { unfold d0, descriptor_of, index_infos. destruct allow; [done|].
    destruct Hall as [|Hall]; [done|]. destruct (Hall p) as [i ->]; [by left|done]. }
  set (d := if String.eqb (d_name d0) EmptyString then _ else d0).
  assert (dynamic_typing d = dynamic_typing d0 /\ d_type d = d_type d0 /\
          successful (check_parameter_value_in_range d (p_value p)) = in_range d0 (p_value p))
    as (Hdyn & Hty & Hrange).
  { unfold d. destruct (String.eqb _ _); [|done]. split_and!; [done..|].
    apply (in_range_set_name_type (p_name p) (d_type d0)). }
  rw Hdyn Hty Hrange. unfold acceptable.
  destruct (dynamic_typing d0 || _) eqn:Et; simpl; [|by intros [= <- <-]].
  destruct (in_range d0 (p_value p)) eqn:Er; [by apply IH|].
  intros [= <- <-]. by rw Hrange.
Qed.

(** ** Callbacks *)

Definition accepts (params : list parameter) (h : Z) : Prop :=
  match lock h with
  | Some cb => exists r, cb params = Gives r /\ successful r = true
  | None => True
  end.

Lemma callbacks_spec params container r0 container' o :
  successful r0 = true ->
  call_on_parameters_set_callbacks lock params container r0 = (container', o) ->
  (exists r, o = Gives r /\ successful r = true) <-> Forall (accepts params) container.
Proof.
  revert r0 container' o. induction container as [|h rest IH]; intros r0 container' o H0; simpl.
  { intros [= <- <-]. split; [done|]. by exists r0. }
  rw Forall_cons. unfold accepts at 1.
  destruct (lock h) as [cb|]; [|intros E; rw (IH _ _ _ H0 E); tauto].
  destruct (cb params) as [r|e|] eqn:Ecb.
  - destruct (successful r) eqn:Er; simpl.
    + destruct (call_on_parameters_set_callbacks lock params rest r) as [c o'] eqn:E.
      intros [= <- <-]. rw (IH _ _ _ Er E). split; [intros; split; [by exists r|done]|by intros []].
    + intros [= <- <-]. split; [|intros [(r' & [= <-] & ?) _]]; [|congruence].
      intros (r' & [= <-] & ?). congruence.
  - intros [= <- <-]. split; [by intros (? & ? & _)|by intros [(? & ? & _) _]].
  - intros [= <- <-]. split; [by intros (? & ? & _)|by intros [(? & ? & _) _]].
Qed.

Lemma set_common_spec params infos container allow infos' container' o :
  (allow = true \/ forall p, p ∈ params -> is_Some (infos !! p_name p)) ->
  set_parameters_atomically_common type_name lock params infos container allow
    = (infos', container', o) ->
  let accepted := Forall (fun p => acceptable (descriptor_of infos (p_name p)) (p_value p) = true) params
                  /\ Forall (accepts params) container in
  ((exists r, o = Gives r /\ successful r = true) /\ accepted /\ infos' = foldl set_one infos params) \/
  (~ (exists r, o = Gives r /\ successful r = true) /\ ~ accepted /\ infos' = infos).
Proof.
  intros Hall. unfold set_parameters_atomically_common.
  destruct (check_parameters type_name infos params allow) as [infos1 r] eqn:Ec.
  apply check_parameters_spec in Ec as [-> Hr]; [|done].
  assert (Forall (fun p => acceptable (descriptor_of infos (p_name p)) (p_value p) = true) params
          <-> successful r = true) as Hacc.
  { rw Hr forallb_forall Forall_forall. setoid_rewrite <- list_elem_of_In. done. }
  destruct (successful r) eqn:Er; simpl.
  - destruct (call_on_parameters_set_callbacks lock params container success) as [c o1] eqn:E.
    pose proof (callbacks_spec _ _ success _ _ eq_refl E) as Hcb.
    destruct o1 as [r1|e|].
    + destruct (successful r1) eqn:Er1; simpl; intros [= <- <- <-].
      * left. split; [by exists r1|]. split; [|done]. split; [by apply Hacc|].
        apply Hcb. by exists r1.
      * right. assert (~ exists r, Gives r1 = Gives r /\ successful r = true) as Hno
          by (intros (r2 & [= <-] & ?); congruence).
        split; [done|]. split; [|done]. intros [_ H]. by apply Hno, Hcb.
    + intros [= <- <- <-]. right.
      assert (~ exists r, Raises e = Gives r /\ successful r = true) as Hno by (by intros (? & ? & _)).
      split; [done|]. split; [|done]. intros [_ H]. by apply Hno, Hcb.
    + intros [= <- <- <-]. right.
      assert (~ exists r, Aborts = Gives r /\ successful r = true) as Hno by (by intros (? & ? & _)).
      split; [done|]. split; [|done]. intros [_ H]. by apply Hno, Hcb.
  - intros [= <- <- <-]. right. split; [intros (r2 & [= <-] & ?); congruence|].
    split; [|done]. intros [H _]. by apply Hacc in H.
Qed.

(** ** Staging *)

(** The entry of an implicitly declared parameter. *)
Definition implicit_info (p : parameter) : ParameterInfo :=
  Info (p_value p) (set_name_type (p_name p) (get_type (p_value p)) dynamic_descriptor).

Definition stage_one (staged : gmap string ParameterInfo) (p : parameter) : gmap string ParameterInfo :=
  <[p_name p := implicit_info p]> staged.

Lemma declare_dynamic overrides p staged :
  declare_parameter_common type_name lock (p_name p) (p_value p) dynamic_descriptor staged overrides
    [] true = (stage_one staged p, [], Gives success).
Proof.
  unfold declare_parameter_common.
  assert ((match overrides !! p_name p with Some _ => p_value p | None => p_value p end) = p_value p)
    as -> by by destruct (overrides !! p_name p).
  destruct (Z.eqb_spec (get_type (p_value p)) PARAMETER_NOT_SET) as [Hty|Hty]; simpl.
  { apply get_type_not_set in Hty. unfold stage_one, implicit_info. by rw Hty. }
  unfold set_parameters_atomically_common. simpl.
  unfold index_infos. rw lookup_singleton_eq. simpl.
  pose proof (in_range_dynamic (p_value p)) as Hr. unfold in_range in Hr.
  change (set_name_type (p_name p) 0 dynamic_descriptor) with
    (set_name_type (p_name p) PARAMETER_NOT_SET dynamic_descriptor).
  pose proof (in_range_set_name_type (p_name p) PARAMETER_NOT_SET dynamic_descriptor (p_value p))
    as Hr'. unfold in_range in Hr'. rw Hr' Hr. simpl.
  unfold set_one. simpl. rw lookup_singleton_eq lookup_insert_eq. done.
Qed.

Lemma stage_spec overrides l staged :
  stage_declarations type_name lock overrides l staged = inl (foldl stage_one staged l).
Proof.
  revert staged. induction l as [|p l IH]; intros staged; [done|].
  cbn [stage_declarations]. rw declare_dynamic. apply IH.
Qed.

(** The last parameter of a name in a list. *)
Lemma lookup_foldl_stage l staged name :
  foldl stage_one staged l !! name =
  match last (filter (fun p => p_name p = name) l) with
  | Some p => Some (implicit_info p)
  | None => staged !! name
  end.
Proof.
  induction l as [|p l IH] using rev_ind; [done|].
  rw foldl_app filter_app /=. rw filter_cons filter_nil. unfold stage_one at 1.
  destruct (decide (p_name p = name)) as [<- |Hn].
  - rw lookup_insert_eq last_snoc. done.
  - rw lookup_insert_ne // app_nil_r. done.
Qed.

Lemma foldl_stage_typed l staged :
  Forall (fun p => p_name p <> EmptyString) l -> typed staged -> typed (foldl stage_one staged l).
Proof.
  intros Hl. revert staged. induction Hl as [|p l Hp Hl IH]; intros staged Hs; [done|].
  simpl. apply IH. apply map_Forall_insert_2; [|done]. unfold typed_info; simpl.
  split_and!; [done..|]. by rw in_range_set_name_type in_range_dynamic.
Qed.

Lemma to_be_declared_spec allow infos params l :
  parameters_to_be_declared allow infos params = inl l ->
  l = filter (fun p => infos !! p_name p = None) params /\
 (allow = true \/ forall p, p ∈ params -> is_Some (infos !! p_name p)) /\
 Forall (fun p => p_name p <> EmptyString /\
           forall i, infos !! p_name p = Some i -> read_only (descriptor i) = false) params.
Proof.
  revert l. induction params as [|p rest IH]; intros l; simpl.
  { intros [= <-]. split; [done|]. split; [right; by intros p ?%not_elem_of_nil|constructor]. }
  rw filter_cons.
  destruct (String.eqb_spec (p_name p) EmptyString) as [|Hne]; simpl; [done|].
  destruct (infos !! p_name p) as [i|] eqn:Hi.
  - destruct (read_only (descriptor i)) eqn:Hro; simpl; [done|].
    intros (-> & Hall & HF)%IH. split; [done|]. split.
    + destruct Hall as [|Hall]; [by left|right]. intros q [-> |Hq]%elem_of_cons; [by exists i|].
      by apply Hall.
    + constructor; [|done]. split; [done|]. intros j Hj. congruence.
  - destruct allow; [|done].
    destruct (parameters_to_be_declared true infos rest) as [l'|] eqn:E; [|done].
    intros [= <-]. destruct (IH _ eq_refl) as (-> & Hall & HF).
    split; [done|]. split; [by left|]. constructor; [|done]. split; [done|]. congruence.
Qed.

Lemma to_be_declared_complete allow infos params :
  (exists l, parameters_to_be_declared allow infos params = inl l) <->
  Forall (fun p => p_name p <> EmptyString /\
           match infos !! p_name p with
            | Some i => read_only (descriptor i) = false
            | None => allow = true
            end) params.
Proof.
  induction params as [|p rest IH]; simpl.
  { split; [constructor|]. by exists []. }
  rw Forall_cons -IH.
  destruct (String.eqb_spec (p_name p) EmptyString) as [He|Hne]; simpl.
  { split; [by intros [? ?]|by intros [[? _] _]]. }
  destruct (infos !! p_name p) as [i|].
  - destruct (read_only (descriptor i)); simpl.
    + split; [by intros [? ?]|by intros [[_ ?] _]].
    + tauto.
  - destruct allow; simpl; [|split; [by intros [? ?]|by intros [[_ ?] _]]].
    destruct (parameters_to_be_declared true infos rest) as [l|o].
    + split; [|by eauto]. intros _. split; [done|]. by eexists.
    + split; [by intros [? ?]|by intros [_ [? ?]]].
Qed.

(** ** Patching *)

Lemma replace_parameter_names p l : p_name <$> replace_parameter p l = p_name <$> l.
Proof.
  induction l as [|q l IH]; [done|]. cbn [replace_parameter].
  destruct (String.eqb_spec (p_name q) (p_name p)); rw !fmap_cons; [congruence|by rw IH].
Qed.

Lemma patch_names staged params : p_name <$> patch_parameters staged params = p_name <$> params.
Proof.
  unfold patch_parameters. destruct (existsb _ _); [|done].
  generalize (sorted_keys staged). intros ks. revert params.
  induction ks as [|k ks IH]; intros params; [done|]. simpl. by rw IH replace_parameter_names.
Qed.

Lemma replace_parameter_same p l :
  (forall q, q ∈ l -> p_name q = p_name p -> q = p) -> replace_parameter p l = l.
Proof.
  induction l as [|q l IH]; intros Hl; [done|]. simpl.
  destruct (String.eqb_spec (p_name q) (p_name p)) as [He|Hne].
  - f_equal. symmetry. apply Hl; [by left|done].
  - f_equal. apply IH. intros x Hx. apply Hl. by right.
Qed.

(** Without duplicates the staged values are the ones given. *)
Lemma patch_same staged params :
  (forall name i p, staged !! name = Some i -> p ∈ params -> p_name p = name -> value i = p_value p) ->
  patch_parameters staged params = params.
Proof.
  intros Hs. unfold patch_parameters. destruct (existsb _ _); [|done].
  assert (forall ks, (forall k, k ∈ ks -> is_Some (staged !! k)) ->
    foldl (fun l name => replace_parameter
      (Param name (value (default default_info (staged !! name)))) l) params ks = params) as Hk.
  { induction ks as [|k ks IH]; intros Hks; [done|]. simpl. rw replace_parameter_same.
    - apply IH. intros x Hx. apply Hks. by right.
    - intros [n v] Hq; simpl. intros ->. destruct (Hks k) as [i Hi]; [by left|]. rw Hi /=.
      f_equal. symmetry. by apply (Hs k i (Param k v)). }
  apply Hk. intros k. by rw elem_of_sorted_keys.
Qed.

(** ** Setting and committing *)

(** The entry a parameter has once it is set. *)
Definition set_info (p : parameter) (d : parameter_descriptor) : ParameterInfo :=
  Info (p_value p) (set_name_type (p_name p) (get_type (p_value p)) d).

Lemma lookup_foldl_set l infos name :
  foldl set_one infos l !! name =
  match last (filter (fun p => p_name p = name) l) with
  | Some p => Some (set_info p (descriptor (default default_info (infos !! name))))
  | None => infos !! name
  end.
Proof.
  induction l as [|p l IH] using rev_ind; [done|].
  rw foldl_app filter_app /=. rw filter_cons filter_nil.
  destruct (decide (p_name p = name)) as [<- |Hn].
  - unfold set_one at 1. rw lookup_insert_eq last_snoc. unfold set_info. do 2 f_equal. rw IH.
    by destruct (last _).
  - unfold set_one at 1. rw lookup_insert_ne // app_nil_r. done.
Qed.

Lemma commit_spec staged names infos infos' :
  commit_staged NDEBUG staged names infos = Some infos' ->
  forall name, infos' !! name =
    if decide (name ∈ names) then Some (default default_info (staged !! name)) else infos !! name.
Proof.
  revert infos. induction names as [|k names IH]; intros infos; simpl; [by intros [= ->] name|].
  destruct (NDEBUG || _); [|done]. intros Hc name. rw (IH _ Hc name).
  destruct (decide (name = k)) as [-> |Hne].
  - rw (decide_True _ _ (list_elem_of_here _ _)). destruct (decide _); [done|]. by rw lookup_insert_eq.
  - rw lookup_insert_ne //. destruct (decide (name ∈ names)) as [Hin|Hnin].
    + rw decide_True //. by right.
    + rw decide_False //. by intros [? |?]%elem_of_cons.
Qed.

Lemma commit_staged_lookup staged infos infos' :
  commit_staged NDEBUG staged (sorted_keys staged) infos = Some infos' ->
  infos' = staged ∪ infos.
Proof.
  intros Hc. apply map_eq. intros name. rw (commit_spec _ _ _ _ Hc) lookup_union.
  destruct (decide _) as [Hin|Hnin]; rw elem_of_sorted_keys in Hin || rw elem_of_sorted_keys in Hnin.
  - destruct Hin as [i ->]. by destruct (infos !! name).
  - apply eq_None_not_Some in Hnin. rw Hnin. by destruct (infos !! name).
Qed.

Lemma undeclare_all_lookup names infos infos' :
  undeclare_all NDEBUG names infos = Some infos' ->
  forall name, infos' !! name = if decide (name ∈ names) then None else infos !! name.
Proof.
  revert infos. induction names as [|k names IH]; intros infos; simpl; [by intros [= ->] name|].
  destruct (NDEBUG || _); [|done]. intros Hc name. rw (IH _ Hc name).
  destruct (decide (name = k)) as [-> |Hne].
  - rw (decide_True _ _ (list_elem_of_here _ _)). destruct (decide _); [done|]. by rw lookup_delete_eq.
  - rw lookup_delete_ne //. destruct (decide (name ∈ names)) as [Hin|Hnin].
    + rw decide_True //. by right.
    + rw decide_False //. by intros [? |?]%elem_of_cons.
Qed.

Lemma to_be_undeclared_spec infos params l :
  parameters_to_be_undeclared infos params = Some l ->
  forall name, name ∈ l <-> exists p i, p ∈ params /\ p_name p = name /\ p_value p = NotSet /\
    infos !! name = Some i /\ value i <> NotSet /\ dynamic_typing (descriptor i) = true.
Proof.
  revert l. induction params as [|p rest IH]; intros l; cbn [parameters_to_be_undeclared].
  { intros [= <-] name. split; [by intros ?%not_elem_of_nil|].
    by intros (? & ? & ?%not_elem_of_nil & _). }
  assert (forall l, parameters_to_be_undeclared infos rest = Some l ->
    ~ (exists i, p_value p = NotSet /\ infos !! p_name p = Some i /\ value i <> NotSet) ->
    forall name, name ∈ l <-> exists q i, q ∈ p :: rest /\ p_name q = name /\ p_value q = NotSet /\
      infos !! name = Some i /\ value i <> NotSet /\ dynamic_typing (descriptor i) = true) as Hskip.
  { intros l' Hl' Hno name. rw (IH _ Hl' name). split.
    - intros (q & i & Hq & H). exists q, i. split; [by right|done].
    - intros (q & i & [-> |Hq]%elem_of_cons & Hn & Hv & Hi & Hs & Hd); [|by exists q, i].
      destruct Hno. exists i. by subst. }
  destruct (Z.eqb_spec PARAMETER_NOT_SET (get_type (p_value p))) as [Hty|Hty].
  2: { intros Hl. apply (Hskip _ Hl). intros (i & Hv & _). by rw Hv in Hty. }
  symmetry in Hty. apply get_type_not_set in Hty.
  destruct (infos !! p_name p) as [i|] eqn:Hi.
  2: { intros Hl. apply (Hskip _ Hl). by intros (i & _ & ? & _). }
  destruct (Z.eqb_spec PARAMETER_NOT_SET (get_type (value i))) as [Ht|Ht]; simpl.
  { intros Hl. apply (Hskip _ Hl). intros (j & _ & [= <-] & Hj). symmetry in Ht.
    by apply get_type_not_set in Ht. }
  assert (value i <> NotSet) as Hset by (intros E; by rw E in Ht).
  destruct (dynamic_typing (descriptor i)) eqn:Hd; [|done].
  destruct (parameters_to_be_undeclared infos rest) as [l'|] eqn:El; [|done].
  intros [= <-] name. rw elem_of_cons (IH _ eq_refl name). split.
  - intros [-> |(q & j & Hq & H)].
    + exists p, i. split; [by left|done].
    + exists q, j. split; [by right|done].
  - intros (q & j & [-> |Hq]%elem_of_cons & Hn & H); [by left|]. right. by exists q, j.
Qed.

Definition succeeds (o : outcome set_result) : Prop := exists r, o = Gives r /\ successful r = true.

(** What [set_parameters_atomically] stages, and what it hands on to be set. *)
Definition staged_for (s : node_parameters) (params : list parameter) : gmap string ParameterInfo :=
  foldl stage_one ∅ (filter (fun p => parameters_ s !! p_name p = None) params).

Definition to_be_set (s : node_parameters) (params : list parameter) : list parameter :=
  patch_parameters (staged_for s params) params.

Lemma set_atomically_shape params s s' o :
  set_parameters_atomically type_name lock NDEBUG params s = (s', o) ->
  (~ succeeds o /\ parameters_ s' = parameters_ s) \/ o = Aborts \/
  (succeeds o /\ exists undeclared infos,
     Forall (fun p => p_name p <> EmptyString /\
       forall i, parameters_ s !! p_name p = Some i -> read_only (descriptor i) = false) params /\
     (allow_undeclared_ s = true \/ forall p, p ∈ params -> is_Some (parameters_ s !! p_name p)) /\
     Forall (fun p => acceptable (descriptor_of (parameters_ s) (p_name p)) (p_value p) = true)
       (to_be_set s params) /\
     Forall (accepts (to_be_set s params)) (on_parameters_set_callback_container_ s) /\
     parameters_to_be_undeclared (parameters_ s) (to_be_set s params) = Some undeclared /\
     infos = staged_for s params ∪ foldl set_one (parameters_ s) (to_be_set s params) /\
     forall name, parameters_ s' !! name =
       if decide (name ∈ undeclared) then None else infos !! name).
Proof.
  assert (forall e, ~ succeeds (Raises e)) as Hraise by (by intros e (? & ? & _)).
  unfold set_parameters_atomically, guarded.
  destruct (parameter_modification_enabled_ s); [|intros [= <- <-]; by left].
  destruct (parameters_to_be_declared _ _ params) as [l|o1] eqn:Ed.
  2: { intros [= <- <-]. left. split; [|done]. clear -Ed. induction params as [|p rest IH]; [done|].
       simpl in Ed. destruct (String.eqb _ _); simpl in Ed; [inverts Ed; by intros (? & ? & _)|].
       destruct (_ !! p_name p) as [i|].
       - destruct (read_only _); simpl in Ed; [|by apply IH]. inverts Ed.
         intros (r & [= <-] & ?). done.
       - destruct (allow_undeclared_ s); [|inverts Ed; by intros (? & ? & _)].
         destruct (parameters_to_be_declared _ _ rest); inverts Ed. by apply IH. }
  apply to_be_declared_spec in Ed as (-> & Hall & Hnames). rw stage_spec.
  fold (staged_for s params). fold (to_be_set s params).
  destruct (parameters_to_be_undeclared _ _) as [undeclared|] eqn:Eu.
  2: { intros [= <- <-]. left. split; [|done]. by intros (? & [= <-] & ?). }
  destruct (set_parameters_atomically_common _ _ _ _ _ _) as [[infos c] o1] eqn:Es.
  apply set_common_spec in Es as [(Hok & (Hacc & Hcb) & ->)|(Hno & _ & ->)].
  - destruct Hok as (r & -> & Hr). rw Hr. simpl.
    destruct (commit_staged _ _ _ _) as [infos|] eqn:Ec; simpl; [|intros [= <- <-]; by right; left].
    destruct (undeclare_all _ _ _) as [infos'|] eqn:Ea; [|intros [= <- <-]; by right; left].
    intros [= <- <-]. right; right. split; [by exists r|]. exists undeclared, infos.
    apply commit_staged_lookup in Ec as ->. split_and!; try done.
    by apply undeclare_all_lookup.
  - destruct o1 as [r|e|]; [|intros [= <- <-]; by left..].
    destruct (successful r) eqn:Hr; simpl.
    + destruct Hno. by exists r.
    + intros [= <- <-]. left. split; [|done]. intros (r' & [= <-] & ?). congruence.
  - destruct Hall as [|Hall]; [by left|right]. intros p Hp.
    assert (p_name p ∈ p_name <$> params) as (q & -> & Hq)%list_elem_of_fmap; [|by apply Hall].
    rw -(patch_names (staged_for s params)). apply list_elem_of_fmap. by exists p.
Qed.

(** ** The invariant is kept *)

Lemma set_name_type_same i name :
  d_name (descriptor i) = name -> set_name_type name (d_type (descriptor i)) (descriptor i) = descriptor i.
Proof. destruct i as [v []]; simpl. by intros ->. Qed.

Lemma typed_set_info i p :
  typed_info (p_name p) i -> acceptable (descriptor i) (p_value p) = true ->
  typed_info (p_name p) (set_info p (descriptor i)).
Proof.
  intros (Hne & Hn & Hty & _) [Ha Hr]%andb_prop. unfold typed_info; simpl. split_and!; try done.
  - destruct (dynamic_typing (descriptor i)); [done|]. destruct Hty as [Hset _].
    apply Z.eqb_eq in Ha. rw -Ha. split; [done|by right].
  - by rw in_range_set_name_type.
Qed.

Lemma staged_declared s params p :
  staged_for s params !! p_name p = None -> p ∈ params -> is_Some (parameters_ s !! p_name p).
Proof.
  unfold staged_for. rw lookup_foldl_stage lookup_empty. intros Hl Hp.
  destruct (parameters_ s !! p_name p) as [i|] eqn:Hi; [by exists i|].
  destruct (last _) as [q|] eqn:El; [done|]. apply last_None in El.
  assert (p ∈ filter (fun q => p_name q = p_name p)
                (filter (fun q => parameters_ s !! p_name q = None) params)) as Hin.
  { apply list_elem_of_filter. split; [done|]. by apply list_elem_of_filter. }
  rw El in Hin. by apply not_elem_of_nil in Hin.
Qed.

Lemma staged_undeclared s params name i :
  staged_for s params !! name = Some i -> parameters_ s !! name = None.
Proof.
  unfold staged_for. rw lookup_foldl_stage lookup_empty.
  destruct (last _) as [q|] eqn:El; [|done]. intros _.
  apply last_Some_elem_of in El. apply list_elem_of_filter in El as [<- El].
  by apply list_elem_of_filter in El as [? _].
Qed.

Lemma to_be_set_name s params p : p ∈ to_be_set s params -> exists q, q ∈ params /\ p_name q = p_name p.
Proof.
  intros Hp. assert (p_name p ∈ p_name <$> params) as (q & Hq & Hin)%list_elem_of_fmap; [|by exists q].
  rw -(patch_names (staged_for s params)). apply list_elem_of_fmap. by exists p.
Qed.

Lemma last_filter_elem params name p :
  last (filter (fun p => p_name p = name) params) = Some p -> p ∈ params /\ p_name p = name.
Proof.
  intros El%last_Some_elem_of. by apply list_elem_of_filter in El as [? ?].
Qed.

Lemma set_atomically_typed params s s' o :
  typed (parameters_ s) ->
  set_parameters_atomically type_name lock NDEBUG params s = (s', o) -> o <> Aborts ->
  typed (parameters_ s').
Proof.
  intros Hty Hs Ho. apply set_atomically_shape in Hs as [[_ ->]|[->|(_ & und & infos & H)]]; [done..|].
  destruct H as (Hnames & _ & Hacc & _ & _ & -> & Hlook).
  intros name i. rw Hlook. destruct (decide _); [done|].
  intros [Hi|[Hnone Hi]]%lookup_union_Some_raw.
  - assert (typed (staged_for s params)) as Hst; [|by apply Hst].
    apply foldl_stage_typed; [|by intros ? ? ?%lookup_empty_Some].
    apply Forall_forall. intros p Hp%list_elem_of_filter. rw Forall_forall in Hnames.
    by apply Hnames, Hp.
  - rw lookup_foldl_set in Hi. destruct (last _) as [p|] eqn:El; [|by apply Hty].
    apply last_filter_elem in El as [Hp <-]. injection Hi as <-.
    destruct (to_be_set_name _ _ _ Hp) as (q & Hq & Hname).
    destruct (staged_declared s params q) as [j Hj]; [by rw Hname|done|]. rw Hname in Hj. rw Hj /=.
    apply typed_set_info; [by apply Hty|].
    rw Forall_forall in Hacc. specialize (Hacc p Hp). unfold descriptor_of in Hacc. by rw Hj in Hacc.
Qed.

(** The value a parameter is declared with. *)
Definition initial_value (overrides : gmap string parameter_value) (name : string)
    (default_value : parameter_value) (ignore_override : bool) : parameter_value :=
  match overrides !! name with
  | Some v => if ignore_override then default_value else v
  | None => default_value
  end.

Lemma declare_common_spec name v0 d out overrides c ign out' c' o :
  declare_parameter_common type_name lock name v0 d out overrides c ign = (out', c', o) ->
  let v := initial_value overrides name v0 ign in
  (succeeds o /\ (v = NotSet \/ acceptable d v = true /\ Forall (accepts [Param name v]) c) /\
   out' = <[name := Info v (set_name_type name
                               (if dynamic_typing d then get_type v else d_type d) d)]> out) \/
  (~ succeeds o /\ out' = out).
Proof.
  unfold declare_parameter_common. fold (initial_value overrides name v0 ign).
  set (v := initial_value overrides name v0 ign).
  destruct (Z.eqb_spec (get_type v) PARAMETER_NOT_SET) as [Hv%get_type_not_set|Hv]; simpl.
  { intros [= <- <- <-]. left. split; [by exists success|]. split; [by left|].
    do 2 f_equal; [done|]. f_equal. rw Hv. by destruct (dynamic_typing d). }
  destruct (set_parameters_atomically_common _ _ _ _ _ _) as [[infos c1] o1] eqn:Es.
  apply set_common_spec in Es.
  2: { right. intros p ->%list_elem_of_singleton. simpl. rw lookup_singleton_eq. by eexists. }
  unfold descriptor_of in Es. rw Forall_singleton /= lookup_singleton_eq /= in Es.
  destruct Es as [(Hok & [Ha Hcb] & ->)|(Hno & _ & ->)].
  - destruct Hok as (r & -> & Hr). rw Hr /=. intros [= <- <- <-]. left.
    split; [by exists r|]. split; [by right|].
    rw /= /set_one /= lookup_singleton_eq lookup_insert_eq /=. do 3 f_equal.
    destruct (dynamic_typing d) eqn:Hd; [done|]. unfold acceptable in Ha. rw Hd in Ha.
    apply andb_prop in Ha as [Ha%Z.eqb_eq _]. done.
  - destruct o1 as [r|e|]; [|intros [= <- <- <-]; by right..].
    destruct (successful r) eqn:Hr; [by destruct Hno; exists r|]. simpl.
    intros [= <- <- <-]. by right.
Qed.

Definition succeeded {A} (o : outcome A) : Prop := exists a, o = Gives a.

(** [declare_parameter_helper]: the parameter is added, or nothing changes. *)
Lemma declare_helper_spec name type v0 d ign infos overrides c infos' c' o :
  declare_parameter_helper type_name lock name type v0 d ign infos overrides c = (infos', c', o) ->
  (infos' = infos /\ ~ succeeded o) \/
  exists i, infos !! name = None /\ infos' = <[name := i]> infos /\ o = Gives (value i) /\
    value i = initial_value overrides name v0 ign /\
    (forall n t, set_name_type n t (descriptor i) = set_name_type n t d) /\
    typed_info name i.
Proof.
  unfold declare_parameter_helper.
  destruct (String.eqb_spec name EmptyString) as [|Hne]; cbn [negb].
  { intros [= <- <- <-]. left. split; [done|]. by intros [? ?]. }
  unfold lockless_has_parameter. destruct (infos !! name) as [i0|] eqn:Hi.
  { rw bool_decide_eq_true_2; [|by exists i0]. intros [= <- <- <-]. left. split; [done|]. by intros [? ?]. }
  rw bool_decide_eq_false_2; [|by intros [? ?]]. cbn [negb].
  set (ty := if PARAMETER_NOT_SET =? type then get_type v0 else type).
  destruct (dynamic_typing d || negb (PARAMETER_NOT_SET =? ty)) eqn:Hty.
  2: { intros [= <- <- <-]. left. split; [done|]. by intros [? ?]. }
  set (d' := if dynamic_typing d then d else set_name_type (d_name d) ty d).
  assert (dynamic_typing d' = dynamic_typing d) as Hdd by (unfold d'; by destruct (dynamic_typing d) eqn:?).
  destruct (declare_parameter_common _ _ _ _ _ _ _ _ _) as [[infos1 c1] o1] eqn:Ed.
  apply declare_common_spec in Ed as [(Hok & Hv & ->)|(Hno & ->)].
  - destruct Hok as (r & -> & Hr). rw Hr /= lookup_insert_eq /=. intros [= <- <- <-]. right.
    eexists. split; [done|]. split; [done|]. split; [done|]. split; [done|]. split.
    { intros n t. unfold d'. by destruct (dynamic_typing d). }
    set (v := initial_value overrides name v0 ign) in *.
    unfold typed_info; simpl. split; [done|]. split; [done|]. rw in_range_set_name_type Hdd.
    destruct (dynamic_typing d) eqn:Hd.
    + split; [done|]. by destruct Hv as [-> |[[_ Hv]%andb_prop _]].
    + cbn [orb] in Hty. apply negb_true_iff, Z.eqb_neq in Hty.
      split; [split|]; simpl.
      * unfold d'. simpl. congruence.
      * destruct Hv as [-> |[[Hv _]%andb_prop _]]; [by left|right].
        rw Hdd /= in Hv. by apply Z.eqb_eq in Hv.
      * by destruct Hv as [-> |[[_ Hv]%andb_prop _]].
  - intros E. left. destruct o1 as [r|e|]; [|inverts E; (split; [done|by intros [? ?]])..].
    destruct (successful r) eqn:Hr; [by destruct Hno; exists r|]. simpl in E. inverts E.
    split; [done|]. destruct (String.prefix _ _); by intros [? ?].
Qed.
End parameters.

(** ** Runs *)

Section runs.
Context (type_name : Z -> string) (NDEBUG : bool).

(** One public method that changes the parameters and does not abort; [lock] is any at each step,
    because the owner of a handle may drop it at any time. *)
Inductive step (s s' : node_parameters) : Prop :=
  | step_declare lock name v d ign o :
      declare_parameter type_name lock name v d ign s = (s', o) -> step s s'
  | step_declare_of_type lock name type d ign o :
      declare_parameter_of_type type_name lock name type d ign s = (s', o) -> step s s'
  | step_undeclare name o : undeclare_parameter name s = (s', o) -> step s s'
  | step_set_atomically lock params o :
      set_parameters_atomically type_name lock NDEBUG params s = (s', o) -> o <> Aborts -> step s s'
  | step_set lock params o :
      set_parameters type_name lock NDEBUG params s = (s', o) -> o <> Aborts -> step s s'
  | step_service_set lock params o :
      service_set_parameters type_name lock NDEBUG params s = (s', o) -> o <> Aborts -> step s s'
  | step_service_set_atomically lock params o :
      service_set_parameters_atomically type_name lock NDEBUG params s = (s', o) -> o <> Aborts ->
      step s s'
  | step_add_callback handle o : add_on_set_parameters_callback handle s = (s', o) -> step s s'
  | step_remove_callback lock handle o :
      remove_on_set_parameters_callback lock handle s = (s', o) -> step s s'
  | step_perform lock o :
      perform_automatically_declare_parameters_from_overrides type_name lock s = (s', o) -> step s s'.

Inductive reachable : node_parameters -> Prop :=
  | reach_new lock node_fqn overrides local_args context_args use_global undeclared automatic s :
      new_node_parameters type_name lock node_fqn overrides local_args context_args use_global
        undeclared automatic = (s, Gives tt) -> reachable s
  | reach_step s s' : reachable s -> step s s' -> reachable s'.

(** What a step may do to one parameter: a read-only one stays as it is, a statically typed one keeps
    its descriptor and is not removed. *)
Definition contract_kept (infos infos' : gmap string ParameterInfo) : Prop :=
  forall name i, infos !! name = Some i ->
    (read_only (descriptor i) = true -> infos' !! name = Some i) /\
    (dynamic_typing (descriptor i) = false ->
     exists j, infos' !! name = Some j /\ descriptor j = descriptor i).

Definition good_change (infos infos' : gmap string ParameterInfo) : Prop :=
  typed infos -> typed infos' /\ contract_kept infos infos'.

Lemma good_refl infos : good_change infos infos.
Proof. intros Ht. split; [done|]. intros name i Hi. split; [done|]. by exists i. Qed.

Lemma good_trans i1 i2 i3 : good_change i1 i2 -> good_change i2 i3 -> good_change i1 i3.
Proof.
  intros H12 H23 Ht. destruct (H12 Ht) as [Ht2 Hk12]. destruct (H23 Ht2) as [Ht3 Hk23].
  split; [done|]. intros name i Hi. destruct (Hk12 name i Hi) as [Hr Hs]. split.
  - intros Hro. by apply (Hk23 name i (Hr Hro)).
  - intros Hst. destruct (Hs Hst) as (j & Hj & Hd).
    destruct (Hk23 name j Hj) as [_ Hs']. rw Hd in Hs'. destruct (Hs' Hst) as (l & Hl & Hdl).
    exists l. split; [done|]. congruence.
Qed.

Lemma good_insert name i infos :
  infos !! name = None -> typed_info name i -> good_change infos (<[name := i]> infos).
Proof.
  intros Hnone Hi Ht. split; [by apply map_Forall_insert_2|]. intros n j Hj.
  rw lookup_insert_ne; [|congruence]. split; [done|]. by exists j.
Qed.

Lemma declare_good lock name type v0 d ign infos overrides c infos' c' o :
  declare_parameter_helper type_name lock name type v0 d ign infos overrides c = (infos', c', o) ->
  good_change infos infos'.
Proof.
  intros [[-> _]|(i & Hnone & -> & _ & _ & _ & Hi)]%declare_helper_spec; [apply good_refl|].
  by apply good_insert.
Qed.

Lemma declare_parameter_good lock name v d ign s s' o :
  declare_parameter type_name lock name v d ign s = (s', o) ->
  good_change (parameters_ s) (parameters_ s').
Proof.
  unfold declare_parameter, guarded.
  destruct (parameter_modification_enabled_ s); [|intros [= <- <-]; apply good_refl].
  destruct (declare_parameter_helper _ _ _ _ _ _ _ _ _ _) as [[infos c] o'] eqn:E.
  intros [= <- <-]. by eapply declare_good.
Qed.

Lemma set_atomically_good lock params s s' o :
  set_parameters_atomically type_name lock NDEBUG params s = (s', o) -> o <> Aborts ->
  good_change (parameters_ s) (parameters_ s').
Proof.
  intros Hs Ho Ht. split; [by eapply set_atomically_typed|].
  apply set_atomically_shape in Hs as [[_ ->]|[->|(_ & und & infos & H)]]; [|done|].
  { by apply good_refl. }
  destruct H as (Hnames & _ & Hacc & _ & Hund & -> & Hlook). rw Forall_forall in Hnames.
  intros name i Hi. rw Hlook.
  assert (staged_for s params !! name = None) as Hstaged.
  { destruct (staged_for s params !! name) as [j|] eqn:E; [|done].
    apply staged_undeclared in E. congruence. }
  rw lookup_union_r // lookup_foldl_set Hi. split.
  - intros Hro. rw decide_False; last first.
    { intros (p & j & Hp & Hn & _)%(to_be_undeclared_spec _ _ _ Hund).
      destruct (to_be_set_name _ _ _ Hp) as (q & Hq & Hqp).
      destruct (Hnames q Hq) as [_ Hno]. rw (Hno i) in Hro; [done|]. by rw Hqp Hn. }
    destruct (last _) as [p|] eqn:El; [|done]. apply last_filter_elem in El as [Hp Hn].
    destruct (to_be_set_name _ _ _ Hp) as (q & Hq & Hqp).
    destruct (Hnames q Hq) as [_ Hno]. rw (Hno i) in Hro; [done|]. by rw Hqp Hn.
  - intros Hst. rw decide_False; last first.
    { intros (p & j & _ & _ & _ & Hj & _ & Hdyn)%(to_be_undeclared_spec _ _ _ Hund). congruence. }
    destruct (last _) as [p|] eqn:El; [|by exists i]. apply last_filter_elem in El as [Hp <-].
    eexists. split; [done|]. simpl. rw Forall_forall in Hacc. specialize (Hacc p Hp).
    unfold descriptor_of in Hacc. rw Hi in Hacc. apply andb_prop in Hacc as [Ha _].
    rw Hst /= in Ha. apply Z.eqb_eq in Ha. rw -Ha. apply set_name_type_same.
    by apply (Ht _ _ Hi).
Qed.

Lemma set_parameters_good lock params s s' o :
  set_parameters type_name lock NDEBUG params s = (s', o) -> o <> Aborts ->
  good_change (parameters_ s) (parameters_ s').
Proof.
  revert s o. induction params as [|p rest IH]; intros s o; simpl.
  { intros [= <- <-] _. apply good_refl. }
  destruct (set_parameters_atomically _ _ _ [p] s) as [s1 o1] eqn:E1.
  pose proof (set_atomically_good _ _ _ _ _ E1) as Hg.
  destruct o1 as [r|e|]; [|by intros [= <- <-] _; apply Hg|by intros [= <- <-]].
  destruct (set_parameters _ _ _ rest s1) as [s2 o2] eqn:E2.
  intros Heq Ho. apply good_trans with (parameters_ s1); [by apply Hg|].
  destruct o2; inverts Heq; by eapply IH.
Qed.

Lemma service_set_parameters_good lock params s s' o :
  service_set_parameters type_name lock NDEBUG params s = (s', o) -> o <> Aborts ->
  good_change (parameters_ s) (parameters_ s').
Proof.
  revert s o. induction params as [|p rest IH]; intros s o; simpl.
  { intros [= <- <-] _. apply good_refl. }
  destruct (set_parameters_atomically _ _ _ [p] s) as [s1 o1] eqn:E1.
  pose proof (set_atomically_good _ _ _ _ _ E1) as Hg.
  destruct (match o1 with Raises (ParameterNotDeclaredException what) => Gives (failure what) | _ => o1 end)
    as [r|e|] eqn:E.
  - destruct (service_set_parameters _ _ _ rest s1) as [s2 o2] eqn:E2.
    intros [= <- <-] Ho. apply good_trans with (parameters_ s1).
    + apply Hg. by destruct o1.
    + eapply IH; [done|]. by destruct o2.
  - intros [= <- <-] _. apply Hg. by destruct o1.
  - by intros [= <- <-].
Qed.

Lemma declare_from_overrides_good lock names overrides s s' o :
  declare_from_overrides type_name lock names overrides s = (s', o) ->
  good_change (parameters_ s) (parameters_ s').
Proof.
  revert s. induction names as [|n names IH]; intros s; cbn [declare_from_overrides].
  { intros [= <- <-]. apply good_refl. }
  destruct (negb _); [|by apply IH].
  destruct (declare_parameter _ _ _ _ _ _ _) as [s1 o1] eqn:E1.
  apply declare_parameter_good in E1.
  destruct o1 as [v|e|]; [|by intros [= <- <-]..].
  intros E. eapply good_trans; [exact E1|by apply IH].
Qed.

Lemma step_good s s' : step s s' -> good_change (parameters_ s) (parameters_ s').
Proof.
  intros Hstep. destruct Hstep as
    [lock name v d ign o E|lock name type d ign o E|name o E|lock params o E Ho|lock params o E Ho
    |lock params o E Ho|lock params o E Ho|h o E|lock h o E|lock o E].
  - by eapply declare_parameter_good.
  - unfold declare_parameter_of_type, guarded in E.
    destruct (parameter_modification_enabled_ s); [|inverts E; apply good_refl].
    destruct (negb _); [|inverts E; apply good_refl].
    destruct (negb _); [|inverts E; apply good_refl].
    destruct (declare_parameter_helper _ _ _ _ _ _ _ _ _ _) as [[infos c] o'] eqn:Eh.
    inverts E. by eapply declare_good.
  - unfold undeclare_parameter, guarded in E.
    destruct (parameter_modification_enabled_ s); [|inverts E; apply good_refl].
    destruct (parameters_ s !! name) as [i|] eqn:Hi; [|inverts E; apply good_refl].
    destruct (read_only (descriptor i)) eqn:Hro; simpl in E; [inverts E; apply good_refl|].
    destruct (dynamic_typing (descriptor i)) eqn:Hd; [|inverts E; apply good_refl].
    inverts E. simpl. intros Ht. split; [by apply map_Forall_delete|]. intros n j Hj.
    destruct (decide (n = name)) as [-> |Hn]; [|by rw lookup_delete_ne //; apply good_refl].
    split; congruence.
  - by eapply set_atomically_good.
  - by eapply set_parameters_good.
  - by eapply service_set_parameters_good.
  - unfold service_set_parameters_atomically in E.
    destruct (set_parameters_atomically _ _ _ params s) as [s1 o1] eqn:E1.
    pose proof (set_atomically_good _ _ _ _ _ E1) as Hg.
    destruct o1 as [r|e|]; [inverts E; by apply Hg| |by inverts E].
    destruct e; inverts E; by apply Hg.
  - unfold add_on_set_parameters_callback, guarded in E.
    destruct (parameter_modification_enabled_ s); inverts E; apply good_refl.
  - unfold remove_on_set_parameters_callback, guarded in E.
    destruct (parameter_modification_enabled_ s); [|inverts E; apply good_refl].
    destruct (erase_handle _ _ _); inverts E; apply good_refl.
  - by eapply declare_from_overrides_good.
Qed.

Lemma typed_empty : typed ∅.
Proof. by intros ? ? ?%lookup_empty_Some. Qed.

Lemma reachable_typed s : reachable s -> typed (parameters_ s).
Proof.
  induction 1 as [lock fqn ov la ca ug un au s E|s s' Hr IH Hs].
  - unfold new_node_parameters in E. destruct au.
    + apply declare_from_overrides_good in E. apply E, typed_empty.
    + inverts E. apply typed_empty.
  - apply step_good in Hs. by apply Hs.
Qed.

Lemma reachable_kept s s' :
  reachable s -> rtc step s s' -> contract_kept (parameters_ s) (parameters_ s').
Proof.
  intros Hr Hs. assert (good_change (parameters_ s) (parameters_ s')) as Hg.
  { clear Hr. induction Hs as [s|s1 s2 s3 H1 _ IH]; [apply good_refl|].
    eapply good_trans; [by apply step_good|exact IH]. }
  by apply Hg, reachable_typed.
Qed.
End runs.

(** ** Setting several parameters at once *)

Section set_atomically.
Context (type_name : Z -> string) (lock : Z -> option callback) (NDEBUG : bool).

(** What the state asks of a parameter before it is set. *)
Definition settable (s : node_parameters) (p : parameter) : Prop :=
  p_name p <> EmptyString /\
  match parameters_ s !! p_name p with
  | Some i => read_only (descriptor i) = false /\ acceptable (descriptor i) (p_value p) = true
  | None => allow_undeclared_ s = true
  end.

(** The entry of [name] after [v] is set. *)
Definition entry_after (s : node_parameters) (name : string) (v : parameter_value)
    : option ParameterInfo :=
  match parameters_ s !! name with
  | Some i =>
      if (get_type v =? PARAMETER_NOT_SET) && negb (get_type (value i) =? PARAMETER_NOT_SET) then None
      else Some (set_info (Param name v) (descriptor i))
  | None => Some (implicit_info (Param name v))
  end.

Lemma filter_name_unique params p :
  NoDup (p_name <$> params) -> p ∈ params ->
  filter (fun q => p_name q = p_name p) params = [p].
Proof.
  induction params as [|q rest IH]; [by intros _ ?%not_elem_of_nil|].
  rw fmap_cons NoDup_cons filter_cons. intros [Hq Hnd] Hp.
  apply elem_of_cons in Hp as [-> |Hp].
  - rw decide_True //. f_equal. apply filter_none. intros x Hx Hn. apply Hq. rw -Hn.
    by apply list_elem_of_fmap_2.
  - rw decide_False; [by apply IH|]. intros Hn. apply Hq. rw Hn. by apply list_elem_of_fmap_2.
Qed.

Lemma filter_name_none params name :
  ~ (exists p, p ∈ params /\ p_name p = name) -> filter (fun q => p_name q = name) params = [].
Proof. intros Hno. apply filter_none. intros q Hq Hn. apply Hno. by exists q. Qed.

Lemma to_be_set_same s params : NoDup (p_name <$> params) -> to_be_set s params = params.
Proof.
  intros Hnd. apply patch_same. intros name i p. unfold staged_for. rw lookup_foldl_stage lookup_empty.
  destruct (last _) as [q|] eqn:El; [|done]. intros [= <-] Hp Hn.
  apply last_filter_elem in El as [Hq Hqn]. apply list_elem_of_filter in Hq as [_ Hq].
  assert (q = p) as -> ; [|done]. apply (NoDup_fmap_inj_on p_name params); try done. congruence.
Qed.

Lemma to_be_undeclared_sublist infos params l :
  parameters_to_be_undeclared infos params = Some l -> l `sublist_of` p_name <$> params.
Proof.
  revert l. induction params as [|p rest IH]; intros l; cbn [parameters_to_be_undeclared].
  { intros [= <-]. constructor. }
  rw fmap_cons.
  destruct (if PARAMETER_NOT_SET =? get_type (p_value p) then infos !! p_name p else None) as [i|]; [|intros E; by apply sublist_cons, IH].
  destruct (negb _); [|intros E; by apply sublist_cons, IH].
  destruct (dynamic_typing _); [|done].
  destruct (parameters_to_be_undeclared infos rest) as [l'|]; [|done].
  intros [= <-]. apply sublist_skip. by apply IH.
Qed.

Lemma to_be_undeclared_dynamic infos params l p i :
  parameters_to_be_undeclared infos params = Some l ->
  p ∈ params -> p_value p = NotSet -> infos !! p_name p = Some i -> value i <> NotSet ->
  dynamic_typing (descriptor i) = true.
Proof.
  revert l. induction params as [|q rest IH]; intros l; cbn [parameters_to_be_undeclared].
  { by intros _ ?%not_elem_of_nil. }
  intros Hl [<- |Hp]%elem_of_cons Hv Hi Hs.
  - rw Hv Hi in Hl. cbn [get_type] in Hl. rw Z.eqb_refl in Hl.
    destruct (Z.eqb_spec PARAMETER_NOT_SET (get_type (value i))) as [E|Hn].
    + destruct Hs. apply get_type_not_set. by rw -E.
    + by destruct (dynamic_typing (descriptor i)).
  - destruct (parameters_to_be_undeclared infos rest) as [l'|] eqn:E; [by apply (IH l')|].
    destruct (if PARAMETER_NOT_SET =? get_type (p_value q) then infos !! p_name q else None)
      as [j|]; [|done].
    destruct (negb _); [|done]. by destruct (dynamic_typing (descriptor j)).
Qed.

Lemma to_be_undeclared_defined infos params :
  (forall p i, p ∈ params -> infos !! p_name p = Some i -> p_value p = NotSet -> value i <> NotSet ->
     dynamic_typing (descriptor i) = true) ->
  exists l, parameters_to_be_undeclared infos params = Some l.
Proof.
  induction params as [|p rest IH]; intros Hp; cbn [parameters_to_be_undeclared]; [by eexists|].
  destruct IH as [l IH]. { intros q i Hq. apply Hp. by right. }
  rw IH. destruct (Z.eqb_spec PARAMETER_NOT_SET (get_type (p_value p))) as [Ht|_]; [|by eexists].
  destruct (infos !! p_name p) as [i|] eqn:Hi; [|by eexists].
  destruct (Z.eqb_spec PARAMETER_NOT_SET (get_type (value i))) as [|Hv]; [by eexists|].
  rw (Hp p i); [by eexists|by left|done| |].
  - apply get_type_not_set. by rw -Ht.
  - intros Hn. apply Hv. by rw Hn.
Qed.

Lemma commit_succeeds staged names infos :
  NoDup names ->
  (NDEBUG = true \/ forall name, name ∈ names -> exists j, infos !! name = Some j /\
     value_eqb (value j) (value (default default_info (staged !! name))) = true) ->
  is_Some (commit_staged NDEBUG staged names infos).
Proof.
  intros Hnd. revert infos. induction Hnd as [|k names Hk Hnd IH]; intros infos Hok; simpl; [by eexists|].
  destruct Hok as [-> |Hok]; simpl; [apply IH; by left|].
  destruct (Hok k) as (j & -> & ->); [by left|]. rw orb_true_r. apply IH. right. intros n Hn.
  rw lookup_insert_ne; [|by intros ->]. apply Hok. by right.
Qed.

Lemma undeclare_succeeds names infos :
  NoDup names -> (forall name, name ∈ names -> is_Some (infos !! name)) ->
  is_Some (undeclare_all NDEBUG names infos).
Proof.
  intros Hnd. revert infos. induction Hnd as [|k names Hk Hnd IH]; intros infos Hok; simpl; [by eexists|].
  rw bool_decide_eq_true_2; [|apply Hok; by left]. rw orb_true_r. apply IH. intros n Hn.
  rw lookup_delete_ne; [|by intros ->]. apply Hok. by right.
Qed.

Lemma find_by_name params name :
  find_parameter_by_name params name = last (filter (fun p => p_name p = name) params) \/
  ~ NoDup (p_name <$> params).
Proof.
  destruct (decide (NoDup (p_name <$> params))) as [Hnd|]; [left|by right].
  unfold find_parameter_by_name. destruct (find _ params) as [p|] eqn:Ef.
  - apply find_some in Ef as [Hp%list_elem_of_In Hn%String.eqb_eq]. subst name.
    by rw filter_name_unique.
  - rw filter_name_none; [done|]. intros (p & Hp & Hn).
    apply list_elem_of_In in Hp. apply (find_none _ _ Ef) in Hp. by apply String.eqb_neq in Hp.
Qed.

(** The entries after the last two loops, when no name occurs twice. *)
Lemma entries_after params s undeclared name :
  NoDup (p_name <$> params) ->
  parameters_to_be_undeclared (parameters_ s) params = Some undeclared ->
  (if decide (name ∈ undeclared) then None
   else (staged_for s params ∪ foldl set_one (parameters_ s) params) !! name) =
  match find_parameter_by_name params name with
  | Some p => entry_after s name (p_value p)
  | None => parameters_ s !! name
  end.
Proof.
  intros Hnd Hund. destruct (find_by_name params name) as [-> |]; [|done].
  pose proof (to_be_undeclared_spec _ _ _ Hund name) as Hin.
  assert (staged_for s params !! name =
          match last (filter (fun p => p_name p = name) params) with
          | Some p => if parameters_ s !! name is None then Some (implicit_info p) else None
          | None => None
          end) as Hst.
  { unfold staged_for. rw lookup_foldl_stage lookup_empty.
    destruct (last (filter _ params)) as [p|] eqn:El.
    - apply last_filter_elem in El as [Hp <-].
      destruct (parameters_ s !! p_name p) as [i|] eqn:Hi.
      + rw filter_none; [done|]. intros q [Hq _]%list_elem_of_filter Hn. by rw Hn Hi in Hq.
      + rw filter_name_unique; [done| |by apply list_elem_of_filter].
        eapply sublist_NoDup; [exact Hnd|]. apply fmap_sublist, sublist_filter.
    - apply last_None in El. rw filter_none; [done|]. intros q [_ Hq]%list_elem_of_filter Hn.
      assert (q ∈ filter (fun p => p_name p = name) params) as Hc by by apply list_elem_of_filter.
      rw El in Hc. by apply not_elem_of_nil in Hc. }
  rw lookup_union Hst lookup_foldl_set.
  destruct (last (filter _ params)) as [p|] eqn:El.
  - apply last_filter_elem in El as [Hp <-]. unfold entry_after.
    destruct (parameters_ s !! p_name p) as [i|] eqn:Hi.
    + rw /= left_id_L. destruct (decide _) as [Hu|Hu].
      * apply Hin in Hu as (q & j & Hq & Hn & Hv & Hj & Hs & _).
        assert (q = p) as -> by by apply (NoDup_fmap_inj_on p_name params).
        injection Hj as <-. rw Hv /=. destruct (Z.eqb_spec (get_type (value i)) PARAMETER_NOT_SET) as [E|]; [|done].
        by apply get_type_not_set in E.
      * destruct (_ && _) eqn:E; [|by destruct p]. apply andb_prop in E as [E1 E2].
        apply Z.eqb_eq, get_type_not_set in E1. apply negb_true_iff, Z.eqb_neq in E2.
        destruct Hu. apply Hin. exists p, i. split_and!; try done.
        -- intros Hn. by rw Hn in E2.
        -- eapply to_be_undeclared_dynamic; [exact Hund|done..|]. intros Hn. by rw Hn in E2.
    + rw decide_False; [|by intros (? & ? & _ & _ & _ & ? & _)%Hin]. by destruct p.
  - rw decide_False; [by rw left_id_L|].
    intros (q & j & Hq & Hn & _)%Hin. apply last_None in El.
    assert (q ∈ filter (fun p => p_name p = name) params) as Hc by by apply list_elem_of_filter.
    rw El in Hc. by apply not_elem_of_nil in Hc.
Qed.

Lemma settable_spec s params :
  Forall (settable s) params <->
  Forall (fun p => p_name p <> EmptyString /\
            match parameters_ s !! p_name p with
            | Some i => read_only (descriptor i) = false
            | None => allow_undeclared_ s = true
            end) params /\
  Forall (fun p => acceptable (descriptor_of (parameters_ s) (p_name p)) (p_value p) = true) params.
Proof.
  rw -Forall_and. apply Forall_iff. intros p. unfold settable, descriptor_of.
  destruct (parameters_ s !! p_name p) as [i|]; [tauto|].
  unfold acceptable. rw in_range_dynamic /=. tauto.
Qed.

(** The end of [set_parameters_atomically] when no name occurs twice and every value equals itself. *)
Lemma commit_defined s params undeclared :
  NoDup (p_name <$> params) ->
  (NDEBUG = true \/ Forall (fun p => value_eqb (p_value p) (p_value p) = true) params) ->
  parameters_to_be_undeclared (parameters_ s) params = Some undeclared ->
  exists infos,
    commit_staged NDEBUG (staged_for s params) (sorted_keys (staged_for s params))
      (foldl set_one (parameters_ s) params) ≫= undeclare_all NDEBUG undeclared = Some infos /\
    forall name, infos !! name =
      match find_parameter_by_name params name with
      | Some p => entry_after s name (p_value p)
      | None => parameters_ s !! name
      end.
Proof.
  intros Hnd Heq Hund.
  destruct (commit_succeeds (staged_for s params) (sorted_keys (staged_for s params))
              (foldl set_one (parameters_ s) params)) as [infos Hc].
  { apply NoDup_sorted_keys. }
  { destruct Heq as [|Heq]; [by left|right]. rw Forall_forall in Heq.
    intros name [i Hi]%elem_of_sorted_keys. rw Hi lookup_foldl_set /=.
    unfold staged_for in Hi. rw lookup_foldl_stage lookup_empty in Hi.
    destruct (last _) as [p|] eqn:El; [|done]. injection Hi as <-.
    apply last_filter_elem in El as [[_ Hp]%list_elem_of_filter <-].
    rw filter_name_unique //. eexists. split; [done|]. by apply Heq. }
  rw Hc /=. apply commit_staged_lookup in Hc as ->.
  destruct (undeclare_succeeds undeclared (staged_for s params ∪ foldl set_one (parameters_ s) params))
    as [infos' Hu].
  { eapply sublist_NoDup; [exact Hnd|]. by eapply to_be_undeclared_sublist. }
  { intros name (p & i & Hp & Hn & _)%(to_be_undeclared_spec _ _ _ Hund). subst name.
    rw lookup_union lookup_foldl_set filter_name_unique //=.
    destruct (staged_for s params !! p_name p); by eexists. }
  exists infos'. split; [done|]. intros name. rw (undeclare_all_lookup _ _ _ _ Hu).
  by apply entries_after.
Qed.

Lemma set_atomically_nodup params s :
  parameter_modification_enabled_ s = true -> typed (parameters_ s) -> NoDup (p_name <$> params) ->
  (NDEBUG = true \/ Forall (fun p => value_eqb (p_value p) (p_value p) = true) params) ->
  let '(s', o) := set_parameters_atomically type_name lock NDEBUG params s in
  (succeeds o /\
   Forall (settable s) params /\
   Forall (accepts lock params) (on_parameters_set_callback_container_ s) /\
   forall name, parameters_ s' !! name =
     match find_parameter_by_name params name with
     | Some p => entry_after s name (p_value p)
     | None => parameters_ s !! name
     end) \/
  (~ succeeds o /\ parameters_ s' = parameters_ s /\
   ~ (Forall (settable s) params /\
      Forall (accepts lock params) (on_parameters_set_callback_container_ s))).
Proof.
  intros Hen Hty Hnd Heq.
  destruct (set_parameters_atomically type_name lock NDEBUG params s) as [s' o] eqn:E.
  pose proof (set_atomically_shape _ _ _ _ _ _ _ E) as Hshape.
  unfold set_parameters_atomically, guarded in E. rw Hen in E.
  pose proof (to_be_declared_complete (allow_undeclared_ s) (parameters_ s) params) as Hdecl.
  destruct (parameters_to_be_declared _ _ params) as [l|o1] eqn:Ed.
  2: { injection E as <- <-. right. destruct Hshape as [[Hno _]|[->|[Hs _]]].
       - split; [done|]. split; [done|]. rw settable_spec. intros [[Hn _] _].
         by apply Hdecl in Hn as [? ?].
       - split; [by intros (? & ? & _)|]. split; [done|]. rw settable_spec. intros [[Hn _] _].
         by apply Hdecl in Hn as [? ?].
       - exfalso. destruct Hs as (r & -> & Hr). clear -Ed Hr. induction params as [|p rest IH]; [done|].
         simpl in Ed. destruct (String.eqb _ _); [done|]. simpl in Ed.
         destruct (_ !! p_name p); [destruct (read_only _); [by inverts Ed|by apply IH]|].
         destruct (allow_undeclared_ s); [|done].
         destruct (parameters_to_be_declared _ _ rest); [done|]. apply IH. congruence. }
  pose proof (to_be_declared_spec _ _ _ _ Ed) as (-> & Hall & _).
  assert (Forall (fun p => p_name p <> EmptyString /\
            match parameters_ s !! p_name p with
            | Some i => read_only (descriptor i) = false
            | None => allow_undeclared_ s = true
            end) params) as Hn by (apply Hdecl; by eexists).
  rw stage_spec in E. fold (staged_for s params) in E. fold (to_be_set s params) in E.
  rw to_be_set_same // in E.
  destruct (parameters_to_be_undeclared (parameters_ s) params) as [undeclared|] eqn:Eu.
  2: { injection E as <- <-. right. split; [by intros (? & [= <-] & ?)|]. split; [done|].
       rw settable_spec. intros [[_ Ha] _].
       destruct (to_be_undeclared_defined (parameters_ s) params) as [l' Hl']; [|congruence].
       intros p i Hp Hi Hv Hs. rw Forall_forall in Ha. specialize (Ha p Hp).
       unfold descriptor_of in Ha. rw Hi Hv in Ha. apply andb_prop in Ha as [Ha _].
       destruct (dynamic_typing (descriptor i)) eqn:Hd; [done|]. simpl in Ha.
       destruct (Hty _ _ Hi) as (_ & _ & Ht & _). rw Hd in Ht. apply Z.eqb_eq in Ha. by destruct Ht. }
  destruct (set_parameters_atomically_common _ _ _ _ _ _) as [[infos c] o1] eqn:Es.
  apply set_common_spec in Es as [(Hok & (Hacc & Hcb) & ->)|(Hno & Hna & ->)]; [| |done].
  - destruct Hok as (r & -> & Hr). rw Hr /= in E.
    destruct (commit_defined s params undeclared) as (infos & Hc & Hl); [done..|].
    rw Hc in E. injection E as <- <-. left. split; [by exists r|]. split; [by apply settable_spec|]. by split.
  - assert (~ succeeds o1 -> (s', o) = (set_parameters_ (parameters_ s) c s, o1)) as Heqn.
    { intros _. destruct o1 as [r|e|]; [|by rw -E..]. destruct (successful r) eqn:Hr; [|by rw -E].
      destruct Hno. by exists r. }
    specialize (Heqn Hno). injection Heqn as -> ->. right. split; [done|]. split; [done|].
    rw settable_spec. intros [[_ Ha] Hcb]. by destruct Hna.
Qed.
End set_atomically.

(** ** Ranges

    What a declared range asks of a value, written without the check of the program. *)

Definition int64 (z : Z) : Prop := - 2 ^ 63 <= z < 2 ^ 63.

(** One of the ends, or between them and a whole number of steps from the lower one. *)
Definition in_integer_range (r : range Z) (v : Z) : Prop :=
  v = from_value r \/ v = to_value r \/
  from_value r < v < to_value r /\ (NodeParams.step r = 0 \/ (NodeParams.step r | v - from_value r)).

Definition is_nan (x : double) : Prop := x = S754_nan.

(** The same up to the tolerance of [are_doubles_equal]; a comparison with a NaN says nothing. *)
Definition in_floating_point_range (r : range double) (x : double) : Prop :=
  are_doubles_equal x (from_value r) = true \/ are_doubles_equal x (to_value r) = true \/
  (is_nan x \/ is_nan (from_value r) \/ SFleb (from_value r) x = true) /\
  (is_nan x \/ is_nan (to_value r) \/ SFleb x (to_value r) = true) /\
  (SFeqb (NodeParams.step r) (S754_zero false) = true \/
   are_doubles_equal x (SFadd prec emax (from_value r) (SFmul prec emax
     (std_round (SFdiv prec emax (SFsub prec emax x (from_value r)) (NodeParams.step r))) (NodeParams.step r))) = true).

(** The range that counts is the first of the value's kind; integers are 64 bits wide. *)
Definition value_in_range (d : parameter_descriptor) (v : parameter_value) : Prop :=
  match v with
  | IntegerValue z =>
      match integer_range d with
      | r :: _ => int64 z -> int64 (from_value r) -> in_integer_range r z
      | [] => True
      end
  | DoubleValue x =>
      match floating_point_range d with r :: _ => in_floating_point_range r x | [] => True end
  | _ => True
  end.

Lemma not_less x y : SFltb x y = false -> is_nan x \/ is_nan y \/ SFleb y x = true.
Proof.
  unfold is_nan, SFltb, SFleb. destruct x as [[]|[]| |[] m e], y as [[]|[]| |[] m' e']; simpl; auto;
    rw (Z.compare_antisym e e'); destruct (e ?= e'); simpl; auto;
    rewrite -(Pos.compare_cont_antisym m m' Eq); destruct (Pos.compare_cont Eq m m'); auto.
Qed.

Lemma check_in_range d v :
  successful (check_parameter_value_in_range d v) = true -> value_in_range d v.
Proof.
  unfold check_parameter_value_in_range, value_in_range. destruct v as [| |z|x| | | | | |]; try done.
  - destruct (integer_range d) as [|r rs]; [done|]. unfold check_integer_range, in_integer_range, int64.
    destruct (Z.eqb_spec z (from_value r)); [by left|]. destruct (Z.eqb_spec z (to_value r)); [by right; left|]. simpl.
    destruct (Z.ltb_spec z (from_value r)); [done|]. destruct (Z.ltb_spec (to_value r) z); [done|]. simpl.
    intros Hs Hz Hf. right. right. split; [lia|]. destruct (Z.eqb_spec (NodeParams.step r) 0) as [|Hn]; [by left|right]. revert Hs. simpl.
    destruct (Z.eqb_spec (u64 (z - from_value r) mod NodeParams.step r) 0) as [Hm|]; [|done]. intros _.
    unfold u64 in Hm. rw (Z.mod_small (z - from_value r)) in Hm; [|lia]. by apply Z.mod_divide.
  - destruct (integer_range d), (floating_point_range d) as [|q rs]; try done;
      unfold check_floating_point_range, in_floating_point_range;
      (destruct (are_doubles_equal x (from_value q)); [by left|]); (destruct (are_doubles_equal x (to_value q)); [by right; left|]);
      simpl; (destruct (SFltb x (from_value q)) eqn:E1; [done|]); (destruct (SFltb (to_value q) x) eqn:E2; [done|]); simpl;
      intros Hs; right; right; apply not_less in E1, E2; (split; [tauto|]); (split; [tauto|]);
      (destruct (SFeqb _ _); [by left|]); right; revert Hs; simpl; by destruct (are_doubles_equal x _).
Qed.

(** ** Theorems *)

(** C32. In every state a node's parameters reach, whatever is declared, set and removed by any calls
    with any user callbacks, each parameter has a non-empty name and its descriptor bears it; a
    statically typed parameter has a declared type, and its value, once there is one, has that type; the
    descriptor of a dynamically typed one bears the type of its value; and a value lies in the range
    declared for it: an integer is one of its ends or strictly between them on a step, a floating-point
    number is so up to the tolerance of the comparison, where a NaN, of which no comparison holds, counts
    as between the ends. *)
Theorem parameters_typed type_name NDEBUG s name i :
  reachable type_name NDEBUG s -> parameters_ s !! name = Some i ->
  name <> EmptyString /\ d_name (descriptor i) = name /\
  (if dynamic_typing (descriptor i) then d_type (descriptor i) = get_type (value i)
   else d_type (descriptor i) <> PARAMETER_NOT_SET /\
        (value i = NotSet \/ get_type (value i) = d_type (descriptor i))) /\
  value_in_range (descriptor i) (value i).
Proof.
  intros Hr Hi. destruct (reachable_typed _ _ _ Hr _ _ Hi) as (H1 & H2 & H3 & H4).
  split_and!; [done..|]. by apply check_in_range.
Qed.

(** The check of a range without a step lets a NaN pass, whatever its ends are. *)
Lemma nan_passes name r :
  NodeParams.step r = S754_zero false -> successful (check_floating_point_range name r S754_nan) = true.
Proof.
  intros Hs. unfold check_floating_point_range. rw Hs.
  assert (forall y, SFltb S754_nan y = false /\ SFltb y S754_nan = false) as Hlt by (intros [[]|[]| |[] m e]; done).
  rw (proj1 (Hlt (from_value r))) (proj2 (Hlt (to_value r))). by destruct (_ || _).
Qed.

(** Once declared, a read-only parameter keeps its value and descriptor for ever, and a
    statically typed one is never removed and keeps its descriptor, so every later value of it has
    the declared type and lies in the declared range. *)
Theorem declared_parameters_kept type_name NDEBUG s s' name i :
  reachable type_name NDEBUG s -> rtc (step type_name NDEBUG) s s' ->
  parameters_ s !! name = Some i ->
  (read_only (descriptor i) = true -> parameters_ s' !! name = Some i) /\
  (dynamic_typing (descriptor i) = false ->
   exists v, parameters_ s' !! name = Some (Info v (descriptor i)) /\
     (v = NotSet \/ get_type v = d_type (descriptor i)) /\
     successful (check_parameter_value_in_range (descriptor i) v) = true).
Proof.
  intros Hr Hs Hi. destruct (reachable_kept _ _ _ _ Hr Hs name i Hi) as [Hro Hst]. split; [done|].
  intros Hd. destruct (Hst Hd) as ([v d] & Hj & Heq). simpl in Heq. subst d. exists v. split; [done|].
  assert (reachable type_name NDEBUG s') as Hr'.
  { clear -Hr Hs. induction Hs as [|s1 s2 s3 H1 _ IH]; [done|]. apply IH. by eapply reach_step. }
  destruct (reachable_typed _ _ _ Hr' _ _ Hj) as (_ & _ & Ht & Hrange). simpl in Ht.
  rw Hd in Ht. by destruct Ht.
Qed.

(** [set_parameters_atomically], given no name twice, sets all of the parameters or none: it
    succeeds exactly when every parameter is declared, or may be declared implicitly, is not
    read-only and gets a value of its type and range, and every callback that is still registered accepts
    the whole list; then each named parameter has its new value and the declared descriptor, or a
    dynamically typed one, or is removed when a value was taken from it, and the others are as before. In
    every other case, exceptions included, no parameter has changed. *)
Theorem set_parameters_atomically_correct type_name lock NDEBUG params s :
  parameter_modification_enabled_ s = true -> typed (parameters_ s) -> NoDup (p_name <$> params) ->
  (NDEBUG = true \/ Forall (fun p => value_eqb (p_value p) (p_value p) = true) params) ->
  let '(s', o) := set_parameters_atomically type_name lock NDEBUG params s in
  (succeeds o <-> Forall (settable s) params /\
                  Forall (accepts lock params) (on_parameters_set_callback_container_ s)) /\
  (succeeds o -> forall name, parameters_ s' !! name =
     match find_parameter_by_name params name with
     | Some p => entry_after s name (p_value p)
     | None => parameters_ s !! name
     end) /\
  (~ succeeds o -> parameters_ s' = parameters_ s).
Proof.
  intros Hen Hty Hnd Heq. pose proof (set_atomically_nodup type_name lock NDEBUG params s Hen Hty Hnd Heq) as H.
  destruct (set_parameters_atomically type_name lock NDEBUG params s) as [s' o].
  destruct H as [(Hok & H1 & H2 & H3)|(Hno & H1 & H2)]; tauto.
Qed.

(** ** Reading back *)

(** [list_parameters] lists the selected names in order, and the groups they are in, each once. *)
Lemma list_parameters_spec prefixes depth s :
  (list_parameters prefixes depth s).1 =
    filter (fun n => list_selects prefixes depth n = true) (sorted_keys (parameters_ s)) /\
  NoDup (list_parameters prefixes depth s).2 /\
  forall q, q ∈ (list_parameters prefixes depth s).2 <->
    exists n, n ∈ (list_parameters prefixes depth s).1 /\ before_last_separator n = Some q.
Proof.
  unfold list_parameters. generalize (sorted_keys (parameters_ s)). intros keys.
  induction keys as [|n keys IH] using rev_ind.
  { split; [done|]. split; [constructor|]. intros q. split; [by intros ?%not_elem_of_nil|].
    by intros (? & ?%not_elem_of_nil & _). }
  rw !foldl_app /=. rw filter_app filter_cons filter_nil.
  destruct (foldl _ ([], []) keys) as [names pfx]. simpl in IH. destruct IH as (-> & Hnd & Hq).
  destruct (list_selects prefixes depth n) eqn:Hs; cbn [fst snd].
  - split; [done|]. unfold list_one; simpl.
    destruct (before_last_separator n) as [p|] eqn:Hp.
    + destruct (bool_decide _) eqn:Hb.
      * apply bool_decide_eq_true in Hb. split; [done|]. intros q. rw Hq. split.
        -- intros (m & Hm & E). exists m. split; [|done]. apply elem_of_app. by left.
        -- intros (m & [Hm|Hm]%elem_of_app & E); [by exists m|].
           apply list_elem_of_singleton in Hm as ->. apply Hq. congruence.
      * apply bool_decide_eq_false in Hb. split.
        -- apply NoDup_app. split; [done|]. split; [|apply NoDup_singleton].
           intros x Hx ->%list_elem_of_singleton. done.
        -- intros q. rw elem_of_app list_elem_of_singleton Hq. split.
           ++ intros [(m & Hm & E)| ->].
              ** exists m. split; [|done]. apply elem_of_app. by left.
              ** exists n. split; [|done]. apply elem_of_app. right. by apply list_elem_of_singleton.
           ++ intros (m & [Hm|Hm]%elem_of_app & E); [left; by exists m|].
              apply list_elem_of_singleton in Hm as ->. right. congruence.
    + split; [done|]. intros q. rw Hq. split.
      * intros (m & Hm & E). exists m. split; [|done]. apply elem_of_app. by left.
      * intros (m & [Hm|Hm]%elem_of_app & E); [by exists m|].
        apply list_elem_of_singleton in Hm as ->. congruence.
  - by rw app_nil_r.
Qed.

Lemma lookup_add_overrides l result name :
  add_overrides l result !! name =
  match last (filter (fun p => p_name p = name) l) with
  | Some p => Some (p_value p)
  | None => result !! name
  end.
Proof.
  unfold add_overrides. induction l as [|p l IH] using rev_ind; [done|].
  rw foldl_app filter_app /=. rw filter_cons filter_nil.
  destruct (decide (p_name p = name)) as [<- |Hn].
  - by rw lookup_insert_eq last_snoc.
  - by rw lookup_insert_ne // app_nil_r.
Qed.

(** The last override of a name in one source. *)
Definition override_in (args : arguments) (node_fqn name : string) : option parameter_value :=
  l ← args ≫= (fun params => params node_fqn);
  p_value <$> last (filter (fun p => p_name p = name) l).

(** Overrides given to the constructor come before local arguments, those before global ones. *)
Lemma resolve_parameter_overrides_spec node_fqn overrides local_args global_args name :
  resolve_parameter_overrides node_fqn overrides local_args global_args !! name =
  match last (filter (fun p => p_name p = name) overrides) with
  | Some p => Some (p_value p)
  | None =>
      match override_in local_args node_fqn name with
      | Some v => Some v
      | None => override_in global_args node_fqn name
      end
  end.
Proof.
  unfold resolve_parameter_overrides. rw lookup_add_overrides.
  destruct (last (filter _ overrides)); [done|]. unfold override_in. simpl.
  destruct local_args as [f|], global_args as [g|]; simpl;
    try destruct (f node_fqn) as [lf|]; try destruct (g node_fqn) as [lg|]; simpl;
    rw ?lookup_add_overrides ?lookup_empty;
    try destruct (last (filter _ lf)); try destruct (last (filter _ lg)); done.
Qed.

(** ** Instances *)

(** A callback that accepts integers below 50, registered as handle 1; handle 2 has been dropped. *)
Definition sample_lock (h : Z) : option callback :=
  if h =? 1 then
    Some (fun params => Gives (SetResult
      (forallb (fun p => match p_value p with IntegerValue z => z <? 50 | _ => true end) params)
      "too large"))
  else None.

Definition sample_type_name (type : Z) : string := if type =? 2 then "integer" else "other".

Definition rate_descriptor : parameter_descriptor :=
  ParameterDescriptor EmptyString 0 EmptyString EmptyString false false [] [Range 0 100 10].
Definition fixed_descriptor : parameter_descriptor :=
  ParameterDescriptor EmptyString 0 EmptyString EmptyString true false [] [].

Definition empty_node : node_parameters := NodeParameters true ∅ ∅ [] true.

(** A node that declares a rate and a frame, which is read-only, and registers two callbacks. *)
Definition sample_steps : list (node_parameters -> node_parameters) :=
  [fun s => (declare_parameter sample_type_name sample_lock "rate" (IntegerValue 20) rate_descriptor
               false s).1;
   fun s => (declare_parameter sample_type_name sample_lock "frame" (StringValue "map")
               fixed_descriptor false s).1;
   fun s => (add_on_set_parameters_callback 1 s).1;
   fun s => (add_on_set_parameters_callback 2 s).1].

Definition sample_node : node_parameters := foldl (fun s f => f s) empty_node sample_steps.

Lemma step_pair {A} type_name NDEBUG s (so : node_parameters * A) :
  (forall s' o, so = (s', o) -> step type_name NDEBUG s s') -> step type_name NDEBUG s so.1.
Proof. intros H. by apply (H so.1 so.2), surjective_pairing. Qed.

Lemma sample_node_reachable : reachable sample_type_name false sample_node.
Proof.
  assert (reachable sample_type_name false empty_node) as H0.
  { by apply (reach_new _ _ sample_lock EmptyString [] None None false true false). }
  unfold sample_node, sample_steps. simpl foldl.
  repeat (eapply reach_step; [|apply step_pair; intros s' o E;
    first [by eapply step_declare|by eapply step_add_callback]]). done.
Qed.

Definition sample_params : list parameter :=
  [Param "rate" (IntegerValue 40); Param "gain" (DoubleValue (integer_double 3))].

Lemma set_parameters_atomically_correct_witness :
  let '(s', o) := set_parameters_atomically sample_type_name sample_lock false sample_params sample_node in
  succeeds o /\ value <$> parameters_ s' !! "rate" = Some (IntegerValue 40).
Proof.
  pose proof (set_parameters_atomically_correct sample_type_name sample_lock false sample_params
    sample_node eq_refl (reachable_typed _ _ _ sample_node_reachable)
    ltac:(vm_compute; repeat constructor; set_solver)
    ltac:(right; repeat constructor)) as H.
  destruct (set_parameters_atomically _ _ _ _ _) as [s' o]. destruct H as (Hiff & Hok & _).
  assert (succeeds o) as Hs.
  { apply Hiff. split.
    - repeat constructor; vm_compute; (done || (intros ?; discriminate)).
    - repeat constructor. eexists. split; reflexivity. }
  split; [done|]. rw (Hok Hs). by vm_compute.
Defined.

Definition sample_after : node_parameters :=
  (set_parameters_atomically sample_type_name sample_lock false sample_params sample_node).1.

Definition sample_gain : ParameterInfo := implicit_info (Param "gain" (DoubleValue (integer_double 3))).

Lemma parameters_typed_witness :
  parameters_ sample_after !! "gain" = Some sample_gain /\ d_type (descriptor sample_gain) = 3.
Proof.
  assert (reachable sample_type_name false sample_after) as Hr.
  { eapply reach_step; [exact sample_node_reachable|]. apply step_pair. intros s' o E.
    eapply step_set_atomically; [exact E|]. vm_compute in E. by inversion E. }
  assert (parameters_ sample_after !! "gain" = Some sample_gain) as Hg by by vm_compute.
  split; [done|].
  destruct (parameters_typed sample_type_name false sample_after "gain" sample_gain Hr Hg)
    as (_ & _ & Ht & _). exact Ht.
Defined.

Lemma declared_parameters_kept_witness :
  exists v, value <$> parameters_ sample_after !! "rate" = Some v /\ get_type v = 2 /\
    value <$> parameters_ sample_after !! "frame" = Some (StringValue "map").
Proof.
  assert (rtc (step sample_type_name false) sample_node sample_after) as Hs.
  { apply rtc_once, step_pair. intros s' o E. eapply step_set_atomically; [exact E|].
    vm_compute in E. by inversion E. }
  pose proof (declared_parameters_kept sample_type_name false sample_node sample_after "frame"
    (Info (StringValue "map") (set_name_type "frame" 4 fixed_descriptor)) sample_node_reachable Hs
    ltac:(by vm_compute)) as [Hro _].
  exists (IntegerValue 40). split; [by vm_compute|]. split; [done|]. by rw Hro.
Defined.

(** A request with an empty name makes an exception leave the callback of the service. *)
Lemma empty_name_leaves_service type_name lock NDEBUG v s :
  parameter_modification_enabled_ s = true ->
  service_set_parameters type_name lock NDEBUG [Param EmptyString v] s =
  (s, Raises (InvalidParametersException "parameter name must not be empty")).
Proof. intros Hen. simpl. unfold set_parameters_atomically, guarded. by rw Hen. Qed.
