(* ===== verification/BridgeMsg.v ===== *)
(** * Bridge messages

    The datagrams that reach the bridge manager: bridge/agnocast_bridge_msg.hpp (the layout of
    [BridgeMsg] on x86-64 and AArch64 Linux), [BridgeRegistrationMsgBuilder] of
    bridge/agnocast_bridge_utils.cpp and its two callers in bridge/agnocast_bridge_node.hpp, the
    discovery agent's [serialize_request] and [serialize_service_request] (bridge_decider.py), and
    [BridgeManager::parse_and_enqueue].  The socket in between hands on whole datagrams. *)

From S2P Require Import Prelude.
From Stdlib Require Import Ascii.

(** ** Bytes *)

Definition buffer : Type := list Z.

Definition byte_of (c : ascii) : Z := Z.of_nat (nat_of_ascii c).
Definition char_of (b : Z) : ascii := ascii_of_nat (Z.to_nat b).
Definition bytes_of (s : string) : buffer := byte_of <$> String.list_ascii_of_string s.
Definition string_of (l : buffer) : string := String.string_of_list_ascii (char_of <$> l).

(** What comes before the first NUL, and whether there is one. *)
Fixpoint until_nul (l : buffer) : option buffer :=
  match l with
  | [] => None
  | b :: l => if b =? 0 then Some [] else cons b <$> until_nul l
  end.

(** The characters of a [c_str()]. *)
Definition c_string (s : string) : buffer := default (bytes_of s) (until_nul (bytes_of s)).

Definition zeros (n : nat) : buffer := replicate n 0.

(** [snprintf(buffer, size, "%s", s)] into a zeroed array, and its return value. *)
Definition snprintf_s (size : nat) (s : string) : buffer * Z :=
  let written := take (size - 1) (c_string s) in
  (written ++ zeros (size - length written), Z.of_nat (length (c_string s))).

(** A [uint32_t] or [int32_t] as it lies in memory. *)
Definition le32 (z : Z) : buffer :=
  [z mod 256; Z.shiftr z 8 mod 256; Z.shiftr z 16 mod 256; Z.shiftr z 24 mod 256].
Definition u32_at (off : nat) (l : buffer) : Z :=
  foldr (fun b acc => b + 256 * acc) 0 (take 4 (drop off l)).
Definition i32_at (off : nat) (l : buffer) : Z := i32 (u32_at off l).
Definition bool_byte (b : bool) : Z := if b then 1 else 0.
Definition bool_at (off : nat) (l : buffer) : bool := negb (nth off l 0 =? 0).

(** ** Layout *)

Definition NAME_BUFFER : nat := 256.

Definition BridgeMsgType_PubSub : Z := 0.
Definition BridgeMsgType_Service : Z := 1.
Definition BridgeMsgType_DaemonPubSub : Z := 2.
Definition BridgeMsgType_DaemonService : Z := 3.

Definition ROS2_TO_AGNOCAST : Z := 0.
Definition AGNOCAST_TO_ROS2 : Z := 1.

(** [offsetof(BridgeMsg, payload)], the payload sizes and [sizeof(BridgeMsg)]. *)
Definition payload_offset : nat := 4.
Definition sizeof_pubsub : nat := 520.
Definition sizeof_service : nat := 1032.
Definition sizeof_daemon_pubsub : nat := 524.
Definition sizeof_daemon_service : nat := 256.
Definition BRIDGE_MSG_MAX_SIZE : nat := payload_offset + sizeof_service.

Definition bridge_msg_wire_size (sizeof_payload : nat) : nat := payload_offset + sizeof_payload.

(** The payloads, with the char arrays whole and the padding as it lies in memory. *)
Record pubsub_payload := PubSubPayload {
  ps_message_type : buffer;
  ps_topic_name : buffer;
  ps_target_id : Z;
  ps_direction : Z
}.

Record service_payload := ServicePayload {
  sv_service_type : buffer;
  sv_service_name : buffer;
  sv_create_shadow_node : bool;
  sv_padding : buffer;
  sv_direction : Z;
  sv_shadow_node_namespace : buffer;
  sv_shadow_node_name : buffer
}.

Definition pubsub_bytes (p : pubsub_payload) : buffer :=
  ps_message_type p ++ ps_topic_name p ++ le32 (ps_target_id p) ++ le32 (ps_direction p).

Definition service_bytes (p : service_payload) : buffer :=
  sv_service_type p ++ sv_service_name p ++ [bool_byte (sv_create_shadow_node p)] ++ sv_padding p ++
  le32 (sv_direction p) ++ sv_shadow_node_namespace p ++ sv_shadow_node_name p.

(** ** [BridgeRegistrationMsgBuilder] *)

Record builder := Builder {
  pubsub_ : pubsub_payload;
  service_ : service_payload;
  direction_ : Z;
  is_service_ : bool;
  failed_ : bool
}.

(** A value-initialised builder; what the padding of [service_] holds is not specified. *)
Definition new_builder (padding : buffer) : builder :=
  Builder (PubSubPayload (zeros NAME_BUFFER) (zeros NAME_BUFFER) 0 0)
    (ServicePayload (zeros NAME_BUFFER) (zeros NAME_BUFFER) false padding 0 (zeros NAME_BUFFER)
       (zeros NAME_BUFFER)) ROS2_TO_AGNOCAST false false.

(** [set] puts the new array in its place; nothing is written once the builder failed. *)
Definition checked_snprintf (set : buffer -> builder -> builder) (size : nat) (s : string)
    (b : builder) : builder :=
  require negb (failed_ b) orelse b;
  let '(array, n) := snprintf_s size s in
  let b := set array b in
  if Z.of_nat size <=? n then Builder (pubsub_ b) (service_ b) (direction_ b) (is_service_ b) true
  else b.

Definition with_pubsub (f : pubsub_payload -> pubsub_payload) (b : builder) : builder :=
  Builder (f (pubsub_ b)) (service_ b) (direction_ b) (is_service_ b) (failed_ b).
Definition with_service (f : service_payload -> service_payload) (b : builder) : builder :=
  Builder (pubsub_ b) (f (service_ b)) (direction_ b) (is_service_ b) (failed_ b).

Definition set_direction (d : Z) (b : builder) : builder :=
  Builder (pubsub_ b) (service_ b) d (is_service_ b) (failed_ b).
Definition set_is_service (v : bool) (b : builder) : builder :=
  Builder (pubsub_ b) (service_ b) (direction_ b) v (failed_ b).

Definition set_message_type (message_type : string) : builder -> builder :=
  checked_snprintf (fun a => with_pubsub (fun p =>
    PubSubPayload a (ps_topic_name p) (ps_target_id p) (ps_direction p))) NAME_BUFFER message_type.
Definition set_topic_name (topic_name : string) : builder -> builder :=
  checked_snprintf (fun a => with_pubsub (fun p =>
    PubSubPayload (ps_message_type p) a (ps_target_id p) (ps_direction p))) NAME_BUFFER topic_name.
Definition set_pubsub_target_id (target_id : Z) : builder -> builder :=
  with_pubsub (fun p =>
    PubSubPayload (ps_message_type p) (ps_topic_name p) target_id (ps_direction p)).

Definition set_service_type (service_type : string) : builder -> builder :=
  checked_snprintf (fun a => with_service (fun p =>
    ServicePayload a (sv_service_name p) (sv_create_shadow_node p) (sv_padding p) (sv_direction p)
      (sv_shadow_node_namespace p) (sv_shadow_node_name p))) NAME_BUFFER service_type.
Definition set_service_name (service_name : string) : builder -> builder :=
  checked_snprintf (fun a => with_service (fun p =>
    ServicePayload (sv_service_type p) a (sv_create_shadow_node p) (sv_padding p) (sv_direction p)
      (sv_shadow_node_namespace p) (sv_shadow_node_name p))) NAME_BUFFER service_name.

Definition set_shadow_node_identity (identity : option (string * string)) (b : builder) : builder :=
  let b := with_service (fun p =>
    ServicePayload (sv_service_type p) (sv_service_name p) (if identity is Some _ then true else false)
      (sv_padding p) (sv_direction p) (sv_shadow_node_namespace p) (sv_shadow_node_name p)) b in
  let '(namespace, name) := default (EmptyString, EmptyString) identity in
  let b := checked_snprintf (fun a => with_service (fun p =>
    ServicePayload (sv_service_type p) (sv_service_name p) (sv_create_shadow_node p) (sv_padding p)
      (sv_direction p) a (sv_shadow_node_name p))) NAME_BUFFER namespace b in
  checked_snprintf (fun a => with_service (fun p =>
    ServicePayload (sv_service_type p) (sv_service_name p) (sv_create_shadow_node p) (sv_padding p)
      (sv_direction p) (sv_shadow_node_namespace p) a)) NAME_BUFFER name b.

(** The message, as the bytes of its tag and its active variant, and whether there is a reason not to
    send it. *)
Definition build_message (b : builder) : buffer * bool :=
  (if is_service_ b then
     let p := service_ b in
     le32 BridgeMsgType_Service ++
     service_bytes (ServicePayload (sv_service_type p) (sv_service_name p) (sv_create_shadow_node p)
       (sv_padding p) (direction_ b) (sv_shadow_node_namespace p) (sv_shadow_node_name p))
   else
     let p := pubsub_ b in
     le32 BridgeMsgType_PubSub ++
     pubsub_bytes (PubSubPayload (ps_message_type p) (ps_topic_name p) (ps_target_id p) (direction_ b)),
   failed_ b).

(** What [send_pubsub_bridge_registration_by_type_name] and its service counterpart send; [None]: the
    process exits. *)
Definition send_pubsub_bridge_registration (padding : buffer) (topic_name : string) (id : Z)
    (message_type_name : string) (direction : Z) : option buffer :=
  let '(msg, failed) :=
    build_message (set_pubsub_target_id id (set_topic_name topic_name
      (set_message_type message_type_name (set_is_service false (set_direction direction
        (new_builder padding)))))) in
  require negb failed orelse None;
  Some (take (bridge_msg_wire_size sizeof_pubsub) msg).

Definition send_service_bridge_registration (padding : buffer) (service_type_name service_name : string)
    (direction : Z) (identity : option (string * string)) : option buffer :=
  let '(msg, failed) :=
    build_message (set_shadow_node_identity identity (set_service_name service_name
      (set_service_type service_type_name (set_is_service true (set_direction direction
        (new_builder padding)))))) in
  require negb failed orelse None;
  Some (take (bridge_msg_wire_size sizeof_service) msg).

(** ** The discovery agent *)

(** [struct.pack]'s ["256s"] of the bytes of a name cut to 255. *)
Definition pack_name (name : string) : buffer :=
  let l := take (NAME_BUFFER - 1) (bytes_of name) in l ++ zeros (NAME_BUFFER - length l).

Definition serialize_request (topic_name type_name : string) (direction qos_depth : Z)
    (qos_is_transient_local qos_is_reliable : bool) : buffer :=
  le32 BridgeMsgType_DaemonPubSub ++ pack_name topic_name ++ pack_name type_name ++ le32 direction ++
  le32 qos_depth ++ [bool_byte qos_is_transient_local; bool_byte qos_is_reliable] ++ zeros 2.

Definition serialize_service_request (service_name : string) : buffer :=
  le32 BridgeMsgType_DaemonService ++ pack_name service_name.

(** ** The manager's side *)

(** A queued message: the [sizeof(BridgeMsg)] bytes of the struct.  [None]: dropped. *)
Definition parse_and_enqueue (shutdown_requested : bool) (data : buffer) : option buffer :=
  require negb shutdown_requested orelse None;
  require negb (length data <? payload_offset)%nat orelse None;
  let msg := take BRIDGE_MSG_MAX_SIZE data ++ zeros (BRIDGE_MSG_MAX_SIZE - length data) in
  let type := u32_at 0 msg in
  let validate_variant_size expected := negb (length data <? expected)%nat in
  if type =? BridgeMsgType_Service then
    require validate_variant_size (bridge_msg_wire_size sizeof_service) orelse None; Some msg
  else if type =? BridgeMsgType_PubSub then
    require validate_variant_size (bridge_msg_wire_size sizeof_pubsub) orelse None; Some msg
  else if type =? BridgeMsgType_DaemonPubSub then
    require validate_variant_size (bridge_msg_wire_size sizeof_daemon_pubsub) orelse None; Some msg
  else if type =? BridgeMsgType_DaemonService then
    require validate_variant_size (bridge_msg_wire_size sizeof_daemon_service) orelse None; Some msg
  else None.

(** What the handlers read of a queued message. *)
Inductive bridge_msg :=
  | PubSubMsg (message_type topic_name : string) (target_id direction : Z)
  | ServiceMsg (service_type service_name : string) (shadow : option (string * string)) (direction : Z)
  | DaemonPubSubMsg (topic_name type_name : string) (direction qos_depth : Z)
      (qos_is_transient_local qos_is_reliable : bool)
  | DaemonServiceMsg (service_name : string).

(** A char array converted to [std::string]; [None]: no NUL before the end of the message, where the
    read goes on outside it. *)
Definition string_at (off : nat) (msg : buffer) : option string := string_of <$> until_nul (drop off msg).

Definition read_msg (msg : buffer) : option bridge_msg :=
  let type := u32_at 0 msg in
  if type =? BridgeMsgType_Service then
    unwrap service_type := string_at 4 msg orelse None;
    unwrap service_name := string_at 260 msg orelse None;
    if bool_at 516 msg then
      unwrap namespace := string_at 524 msg orelse None;
      unwrap name := string_at 780 msg orelse None;
      Some (ServiceMsg service_type service_name (Some (namespace, name)) (u32_at 520 msg))
    else Some (ServiceMsg service_type service_name None (u32_at 520 msg))
  else if type =? BridgeMsgType_PubSub then
    unwrap message_type := string_at 4 msg orelse None;
    unwrap topic_name := string_at 260 msg orelse None;
    Some (PubSubMsg message_type topic_name (i32_at 516 msg) (u32_at 520 msg))
  else if type =? BridgeMsgType_DaemonPubSub then
    unwrap topic_name := string_at 4 msg orelse None;
    unwrap type_name := string_at 260 msg orelse None;
    Some (DaemonPubSubMsg topic_name type_name (u32_at 516 msg) (u32_at 520 msg) (bool_at 524 msg)
            (bool_at 525 msg))
  else if type =? BridgeMsgType_DaemonService then
    unwrap service_name := string_at 4 msg orelse None;
    Some (DaemonServiceMsg service_name)
  else None.

(** A datagram on its way: queued, then read. *)
Definition received (data : buffer) : option bridge_msg :=
  parse_and_enqueue false data ≫= read_msg.

Example service_message_example :
  (send_service_bridge_registration [7; 7; 7] "std_srvs/srv/Empty" "/reset" ROS2_TO_AGNOCAST
     (Some ("/ns"%string, "node"%string)) ≫= received) =
  Some (ServiceMsg "std_srvs/srv/Empty" "/reset" (Some ("/ns"%string, "node"%string)) ROS2_TO_AGNOCAST).
Proof. vm_compute. reflexivity. Qed.

Example daemon_message_example :
  received (serialize_request "/chatter" "std_msgs/msg/String" AGNOCAST_TO_ROS2 3 true false) =
  Some (DaemonPubSubMsg "/chatter" "std_msgs/msg/String" AGNOCAST_TO_ROS2 3 true false).
Proof. vm_compute. reflexivity. Qed.

(** ** Reading back *)

Lemma le32_value z : foldr (fun b acc => b + 256 * acc) 0 (le32 z) = u32 z.
Proof.
  unfold le32, u32; cbn [foldr]. rw !Z.shiftr_div_pow2; [|lia..].
  change (2 ^ 32) with 4294967296. change (2 ^ 8) with 256. change (2 ^ 16) with 65536.
  change (2 ^ 24) with 16777216. Z.div_mod_to_equations. lia.
Qed.

Lemma u32_at_le32 off pre z post :
  length pre = off -> 0 <= z < 2 ^ 32 -> u32_at off (pre ++ le32 z ++ post) = z.
Proof.
  intros <- Hz. unfold u32_at. rw drop_app_length.
  change (take 4 (le32 z ++ post)) with (le32 z). rw le32_value. unfold u32. by rw Z.mod_small.
Qed.

Lemma i32_u32 z : - 2 ^ 31 <= z < 2 ^ 31 -> i32 (u32 z) = z.
Proof.
  intros Hz. unfold i32, u32. change (2 ^ 32) with 4294967296. change (2 ^ 31) with 2147483648 in *.
  destruct (Z.ltb_spec (z mod 4294967296 mod 4294967296) 2147483648); Z.div_mod_to_equations; lia.
Qed.

Lemma i32_at_le32 off pre z post :
  length pre = off -> - 2 ^ 31 <= z < 2 ^ 31 -> i32_at off (pre ++ le32 z ++ post) = z.
Proof.
  intros <- Hz. unfold i32_at, u32_at. rw drop_app_length.
  change (take 4 (le32 z ++ post)) with (le32 z). rw le32_value. by apply i32_u32.
Qed.

Lemma byte_of_range c : 0 <= byte_of c < 256.
Proof. unfold byte_of. pose proof (nat_ascii_bounded c). lia. Qed.

Lemma char_of_byte c : char_of (byte_of c) = c.
Proof. unfold char_of, byte_of. by rw Nat2Z.id ascii_nat_embedding. Qed.

Lemma string_of_bytes s : string_of (bytes_of s) = s.
Proof.
  unfold string_of, bytes_of. rw -list_fmap_compose.
  rw (list_fmap_ext _ id) ?list_fmap_id; [apply String.string_of_list_ascii_of_string|].
  intros i c _. apply char_of_byte.
Qed.

Lemma until_nul_none l : until_nul l = None <-> 0 ∉ l.
Proof.
  induction l as [|b l IH]; simpl; [set_solver|]. destruct (Z.eqb_spec b 0) as [-> |Hb].
  - split; [done|]. intros Hno. destruct Hno. by left.
  - rw not_elem_of_cons fmap_None. naive_solver.
Qed.

Lemma until_nul_app l r : 0 ∉ l -> until_nul (l ++ 0 :: r) = Some l.
Proof.
  induction l as [|b l IH]; [done|]. rw not_elem_of_cons. intros [Hb Hl]. simpl.
  destruct (Z.eqb_spec b 0) as [-> |]; [by destruct Hb|]. by rw IH.
Qed.

Lemma until_nul_Some l r : until_nul l = Some r -> 0 ∉ r.
Proof.
  revert r. induction l as [|b l IH]; intros r; simpl; [done|].
  destruct (Z.eqb_spec b 0) as [-> |Hb]; [intros [= <-]; set_solver|].
  intros (r' & Hr' & ->)%fmap_Some. apply IH in Hr'. set_solver.
Qed.

Lemma until_nul_extend l r post : until_nul l = Some r -> until_nul (l ++ post) = Some r.
Proof.
  revert r. induction l as [|b l IH]; intros r; simpl; [done|].
  destruct (b =? 0); [done|]. intros (r' & Hr & ->)%fmap_Some. by rw (IH r' Hr).
Qed.

Lemma c_string_no_nul s : 0 ∉ c_string s.
Proof.
  unfold c_string. destruct (until_nul (bytes_of s)) as [r|] eqn:E; simpl.
  - by eapply until_nul_Some.
  - by apply until_nul_none.
Qed.

(** What a name becomes when it is sent: [std::string(s.c_str())]. *)
Definition c_str (s : string) : string := string_of (c_string s).

Lemma c_str_id s : 0 ∉ bytes_of s -> c_str s = s.
Proof. intros Hs. unfold c_str, c_string. rw (proj2 (until_nul_none _) Hs). apply string_of_bytes. Qed.

(** A char array that holds [s] and a NUL. *)
Definition holds (s : buffer) (array : buffer) : Prop :=
  length array = NAME_BUFFER /\ forall post, until_nul (array ++ post) = Some s.

Lemma holds_padded s n : 0 ∉ s -> (length s + S n = NAME_BUFFER)%nat -> holds s (s ++ zeros (S n)).
Proof.
  intros Hs Hl. split; [rw length_app length_replicate; lia|].
  intros post. rw -app_assoc. by apply until_nul_app.
Qed.

Lemma snprintf_holds s :
  (length (c_string s) < NAME_BUFFER)%nat -> holds (c_string s) (snprintf_s NAME_BUFFER s).1.
Proof.
  intros Hl. unfold snprintf_s. cbn [fst]. rw take_ge; [|lia].
  replace (NAME_BUFFER - length (c_string s))%nat with (S (255 - length (c_string s)))
    by (unfold NAME_BUFFER in *; lia).
  apply holds_padded; [apply c_string_no_nul|unfold NAME_BUFFER in *; lia].
Qed.

Lemma holds_string_at s array off pre post :
  holds s array -> length pre = off -> string_at off (pre ++ array ++ post) = Some (string_of s).
Proof. intros [_ Hu] <-. unfold string_at. by rw drop_app_length Hu. Qed.

(** The name the agent puts in a message. *)
Definition agent_name (s : string) : buffer :=
  let l := take (NAME_BUFFER - 1) (bytes_of s) in default l (until_nul l).

Lemma pack_holds s : holds (agent_name s) (pack_name s).
Proof.
  unfold agent_name, pack_name. set (l := take _ _).
  assert (length l <= 255)%nat as Hl by (unfold l; rw length_take; unfold NAME_BUFFER; lia).
  assert (length (l ++ zeros (NAME_BUFFER - length l)) = NAME_BUFFER) as Hlen.
  { rw length_app length_replicate. unfold NAME_BUFFER. lia. }
  split; [done|]. intros post. destruct (until_nul l) as [r|] eqn:E; simpl.
  - rw -app_assoc. by apply until_nul_extend.
  - apply until_nul_none in E.
    replace (NAME_BUFFER - length l)%nat with (S (255 - length l)) by (unfold NAME_BUFFER; lia).
    rw -app_assoc. by apply until_nul_app.
Qed.

(** ** Every message arrives *)

(** A datagram of the right size is queued with zeros behind it. *)
Lemma parse_sent (t : Z) (body : buffer) (n : nat) :
  (t = BridgeMsgType_PubSub /\ n = sizeof_pubsub) \/ (t = BridgeMsgType_Service /\ n = sizeof_service) \/
  (t = BridgeMsgType_DaemonPubSub /\ n = sizeof_daemon_pubsub) \/
  (t = BridgeMsgType_DaemonService /\ n = sizeof_daemon_service) ->
  length body = n ->
  parse_and_enqueue false (le32 t ++ body) = Some (le32 t ++ body ++ zeros (sizeof_service - n)).
Proof.
  intros Ht Hl. assert (length (le32 t ++ body) = (4 + n)%nat) as Hlen by (rw length_app /=; lia).
  assert (n <= sizeof_service)%nat as Hn
    by (unfold sizeof_service; destruct Ht as [[_ ->]|[[_ ->]|[[_ ->]|[_ ->]]]];
        unfold sizeof_pubsub, sizeof_service, sizeof_daemon_pubsub, sizeof_daemon_service; lia).
  unfold parse_and_enqueue. rw Hlen. cbn [negb].
  replace (4 + n <? payload_offset)%nat with false by (symmetry; apply Nat.ltb_ge; unfold payload_offset; lia).
  cbn [negb]. unfold BRIDGE_MSG_MAX_SIZE. rw take_ge; [|rw Hlen; unfold payload_offset; lia].
  replace (payload_offset + sizeof_service - (4 + n))%nat with (sizeof_service - n)%nat
    by (unfold payload_offset; lia).
  rw -app_assoc. set (rest := body ++ _).
  assert (0 <= t < 2 ^ 32) as Hr.
  { destruct Ht as [[-> _]|[[-> _]|[[-> _]|[-> _]]]]; unfold BridgeMsgType_PubSub,
      BridgeMsgType_Service, BridgeMsgType_DaemonPubSub, BridgeMsgType_DaemonService; lia. }
  rw (u32_at_le32 0 [] t rest) //.
  destruct Ht as [[-> ->]|[[-> ->]|[[-> ->]|[-> ->]]]]; reflexivity.
Qed.

Definition fits (s : string) : bool := (length (c_string s) <? NAME_BUFFER)%nat.
Definition array_of (s : string) : buffer := (snprintf_s NAME_BUFFER s).1.

Lemma fits_holds s : fits s = true -> holds (c_string s) (array_of s).
Proof. intros Hf%Nat.ltb_lt. by apply snprintf_holds. Qed.

Lemma fits_false s : fits s = false <-> (NAME_BUFFER <= length (c_string s))%nat.
Proof. apply Nat.ltb_ge. Qed.

Lemma checked_snprintf_eq set s p sv d i :
  checked_snprintf set NAME_BUFFER s (Builder p sv d i false) =
  let b := set (array_of s) (Builder p sv d i false) in
  if fits s then b else Builder (pubsub_ b) (service_ b) (direction_ b) (is_service_ b) true.
Proof.
  unfold checked_snprintf, array_of, fits. cbn [failed_ negb snprintf_s fst].
  destruct (Nat.ltb_spec (length (c_string s)) NAME_BUFFER), (Z.leb_spec (Z.of_nat NAME_BUFFER)
    (Z.of_nat (length (c_string s)))); (done || lia).
Qed.

Lemma send_pubsub_eq padding topic id type direction :
  send_pubsub_bridge_registration padding topic id type direction =
  if fits type && fits topic then
    Some (take (bridge_msg_wire_size sizeof_pubsub) (le32 BridgeMsgType_PubSub ++
      pubsub_bytes (PubSubPayload (array_of type) (array_of topic) id direction)))
  else None.
Proof.
  unfold send_pubsub_bridge_registration, set_message_type, set_topic_name, new_builder,
    set_is_service, set_direction. cbn [pubsub_ service_ direction_ is_service_ failed_].
  rw checked_snprintf_eq. cbv zeta. unfold with_pubsub at 1. destruct (fits type).
  - cbn [pubsub_ service_ direction_ is_service_ failed_]. rw checked_snprintf_eq. cbv zeta.
    destruct (fits topic); reflexivity.
  - reflexivity.
Qed.

Lemma send_service_eq padding type name direction identity :
  let '(ns, nn) := default (EmptyString, EmptyString) identity in
  send_service_bridge_registration padding type name direction identity =
  if fits type && fits name && fits ns && fits nn then
    Some (take (bridge_msg_wire_size sizeof_service) (le32 BridgeMsgType_Service ++
      service_bytes (ServicePayload (array_of type) (array_of name)
        (if identity is Some _ then true else false) padding direction (array_of ns) (array_of nn))))
  else None.
Proof.
  destruct (default _ identity) as [ns nn] eqn:Hid.
  unfold send_service_bridge_registration, set_service_type, set_service_name,
    set_shadow_node_identity, new_builder, set_is_service, set_direction.
  rw Hid. cbn [pubsub_ service_ direction_ is_service_ failed_].
  rw checked_snprintf_eq. cbv zeta. unfold with_service. destruct (fits type); [|reflexivity].
  cbn [pubsub_ service_ direction_ is_service_ failed_]. rw checked_snprintf_eq. cbv zeta.
  destruct (fits name); [|reflexivity].
  cbn [pubsub_ service_ direction_ is_service_ failed_]. rw checked_snprintf_eq. cbv zeta.
  destruct (fits ns); [|reflexivity].
  cbn [pubsub_ service_ direction_ is_service_ failed_]. rw checked_snprintf_eq. cbv zeta.
  destruct (fits nn); reflexivity.
Qed.

(** A message made of the arrays of names. *)
Lemma received_pubsub type topic a1 a2 id direction :
  holds type a1 -> holds topic a2 -> - 2 ^ 31 <= id < 2 ^ 31 -> 0 <= direction < 2 ^ 32 ->
  received (take (bridge_msg_wire_size sizeof_pubsub)
    (le32 BridgeMsgType_PubSub ++ pubsub_bytes (PubSubPayload a1 a2 id direction))) =
  Some (PubSubMsg (string_of type) (string_of topic) id direction).
Proof.
  intros H1 H2 Hid Hd. pose proof (proj1 H1) as L1. pose proof (proj1 H2) as L2.
  unfold pubsub_bytes. cbn [ps_message_type ps_topic_name ps_target_id ps_direction].
  assert (length (a1 ++ a2 ++ le32 id ++ le32 direction) = sizeof_pubsub) as Hlen
    by (rw !length_app L1 L2 /=; reflexivity).
  rw take_ge; [|rw length_app Hlen; unfold bridge_msg_wire_size, payload_offset; simpl; lia].
  unfold received. rw (parse_sent _ _ sizeof_pubsub) //; [|by left]. cbn [mbind option_bind].
  set (z := zeros _). rw -!app_assoc.
  unfold read_msg. rw (u32_at_le32 0 [] BridgeMsgType_PubSub) //.
  change (BridgeMsgType_PubSub =? BridgeMsgType_Service) with false.
  change (BridgeMsgType_PubSub =? BridgeMsgType_PubSub) with true. cbv iota.
  set (h := le32 BridgeMsgType_PubSub).
  rw (holds_string_at type a1 4 h) //.
  rw (app_assoc h) (holds_string_at topic a2 260 (h ++ a1)); [|done|by rw length_app L1].
  rw (app_assoc (h ++ a1)) (i32_at_le32 516 ((h ++ a1) ++ a2)); [|by rw !length_app L1 L2|done].
  rw (app_assoc ((h ++ a1) ++ a2)) (u32_at_le32 520 (((h ++ a1) ++ a2) ++ le32 id));
    [done|by rw !length_app L1 L2|done].
Qed.

Lemma bool_at_byte off pre b post :
  length pre = off -> bool_at off (pre ++ bool_byte b :: post) = b.
Proof. intros <-. unfold bool_at. rewrite app_nth2; [|lia]. rewrite Nat.sub_diag. by destruct b. Qed.

Lemma received_service type name ns nn a1 a2 a3 a4 (shadow : bool) padding direction :
  holds type a1 -> holds name a2 -> holds ns a3 -> holds nn a4 -> length padding = 3%nat ->
  0 <= direction < 2 ^ 32 ->
  received (take (bridge_msg_wire_size sizeof_service)
    (le32 BridgeMsgType_Service ++ service_bytes (ServicePayload a1 a2 shadow padding direction a3 a4))) =
  Some (ServiceMsg (string_of type) (string_of name)
          (if shadow then Some (string_of ns, string_of nn) else None) direction).
Proof.
  intros H1 H2 H3 H4 Hp Hd. pose proof (proj1 H1) as L1. pose proof (proj1 H2) as L2.
  pose proof (proj1 H3) as L3. pose proof (proj1 H4) as L4.
  unfold service_bytes. cbn [sv_service_type sv_service_name sv_create_shadow_node sv_padding
    sv_direction sv_shadow_node_namespace sv_shadow_node_name].
  set (flag := [bool_byte shadow]).
  assert (length (a1 ++ a2 ++ flag ++ padding ++ le32 direction ++ a3 ++ a4) = sizeof_service) as Hlen
    by (rw !length_app L1 L2 L3 L4 Hp /=; reflexivity).
  rw take_ge; [|rw length_app Hlen; unfold bridge_msg_wire_size, payload_offset; simpl; lia].
  unfold received. rw (parse_sent _ _ sizeof_service) //; [|by right; left]. cbn [mbind option_bind].
  set (z := zeros _). rw -!app_assoc.
  unfold read_msg. rw (u32_at_le32 0 [] BridgeMsgType_Service) //.
  change (BridgeMsgType_Service =? BridgeMsgType_Service) with true. cbv iota.
  set (h := le32 BridgeMsgType_Service).
  rw (holds_string_at type a1 4 h) //.
  rw (app_assoc h) (holds_string_at name a2 260 (h ++ a1)); [|done|by rw length_app L1].
  rw (app_assoc (h ++ a1)). set (p := (h ++ a1) ++ a2).
  assert (length p = 516%nat) as Lp by (unfold p; by rw !length_app L1 L2). clearbody p.
  rw (bool_at_byte 516 p shadow) //.
  rw (app_assoc p) (app_assoc (p ++ flag)). set (q := (p ++ flag) ++ padding).
  assert (length q = 520%nat) as Lq by (unfold q; by rw !length_app Lp Hp). clearbody q.
  rw (u32_at_le32 520 q) //. destruct shadow; [|done].
  rw (app_assoc q) (holds_string_at ns a3 524 (q ++ le32 direction)); [|done|by rw length_app Lq].
  rw (app_assoc (q ++ le32 direction)) (holds_string_at nn a4 780 ((q ++ le32 direction) ++ a3));
    [done|done|by rw !length_app Lq L3].
Qed.

Lemma received_daemon_pubsub topic type direction depth tl rel :
  0 <= direction < 2 ^ 32 -> 0 <= depth < 2 ^ 32 ->
  received (serialize_request topic type direction depth tl rel) =
  Some (DaemonPubSubMsg (string_of (agent_name topic)) (string_of (agent_name type)) direction depth
          tl rel).
Proof.
  intros Hd Hq. unfold serialize_request. pose proof (pack_holds topic) as H1.
  pose proof (pack_holds type) as H2. revert H1 H2. generalize (pack_name topic), (pack_name type).
  intros a1 a2 H1 H2. pose proof (proj1 H1) as L1. pose proof (proj1 H2) as L2.
  set (flags := [bool_byte tl; bool_byte rel]).
  assert (length (a1 ++ a2 ++ le32 direction ++ le32 depth ++ flags ++ zeros 2) = sizeof_daemon_pubsub)
    as Hlen by (rw !length_app L1 L2 /=; reflexivity).
  unfold received. rw (parse_sent _ _ sizeof_daemon_pubsub) //; [|by right; right; left].
  cbn [mbind option_bind]. set (z := zeros (_ - _)). rw -!app_assoc.
  unfold read_msg. rw (u32_at_le32 0 [] BridgeMsgType_DaemonPubSub) //.
  change (BridgeMsgType_DaemonPubSub =? BridgeMsgType_Service) with false.
  change (BridgeMsgType_DaemonPubSub =? BridgeMsgType_PubSub) with false.
  change (BridgeMsgType_DaemonPubSub =? BridgeMsgType_DaemonPubSub) with true. cbv iota.
  set (h := le32 BridgeMsgType_DaemonPubSub).
  rw (holds_string_at (agent_name topic) a1 4 h) //.
  rw (app_assoc h) (holds_string_at (agent_name type) a2 260 (h ++ a1)); [|done|by rw length_app L1].
  rw (app_assoc (h ++ a1)). set (p := (h ++ a1) ++ a2).
  assert (length p = 516%nat) as Lp by (unfold p; by rw !length_app L1 L2). clearbody p.
  rw (u32_at_le32 516 p) // (app_assoc p). set (q := p ++ le32 direction).
  assert (length q = 520%nat) as Lq by (unfold q; by rw length_app Lp). clearbody q.
  rw (u32_at_le32 520 q) // (app_assoc q). set (r := q ++ le32 depth).
  assert (length r = 524%nat) as Lr by (unfold r; by rw length_app Lq). clearbody r.
  unfold flags. cbn [app]. rw (bool_at_byte 524 r tl) //.
  change (r ++ bool_byte tl :: bool_byte rel :: zeros 2 ++ z)
    with (r ++ [bool_byte tl] ++ bool_byte rel :: zeros 2 ++ z).
  rw (app_assoc r) (bool_at_byte 525 (r ++ [bool_byte tl]) rel); [done|by rw length_app Lr].
Qed.

Lemma received_daemon_service name :
  received (serialize_service_request name) = Some (DaemonServiceMsg (string_of (agent_name name))).
Proof.
  unfold serialize_service_request. pose proof (pack_holds name) as H1. revert H1.
  generalize (pack_name name). intros a1 H1. pose proof (proj1 H1) as L1.
  unfold received. rw (parse_sent _ _ sizeof_daemon_service) //; [|by right; right; right].
  cbn [mbind option_bind]. set (z := zeros (_ - _)).
  unfold read_msg. rw (u32_at_le32 0 [] BridgeMsgType_DaemonService) //.
  change (BridgeMsgType_DaemonService =? BridgeMsgType_Service) with false.
  change (BridgeMsgType_DaemonService =? BridgeMsgType_PubSub) with false.
  change (BridgeMsgType_DaemonService =? BridgeMsgType_DaemonPubSub) with false.
  change (BridgeMsgType_DaemonService =? BridgeMsgType_DaemonService) with true. cbv iota.
  by rw (holds_string_at (agent_name name) a1 4 (le32 BridgeMsgType_DaemonService)).
Qed.

(** C36. Every bridge message arrives as it was meant.  A process sends a registration, of a topic or of
    a service, exactly when its names fit the 256-byte arrays of the message (it exits otherwise), and
    the bridge manager then reads back the type, the name, the id, the direction and the shadow node
    identity that were sent; a request of the discovery agent, packed by hand in Python, is read back
    too, its names cut to 255 bytes. *)
Theorem bridge_messages_arrive padding :
  length padding = 3%nat ->
  (forall topic id type direction msg, - 2 ^ 31 <= id < 2 ^ 31 -> 0 <= direction < 2 ^ 32 ->
     (send_pubsub_bridge_registration padding topic id type direction = Some msg ->
      received msg = Some (PubSubMsg (c_str type) (c_str topic) id direction)) /\
     (send_pubsub_bridge_registration padding topic id type direction = None <->
      (NAME_BUFFER <= length (c_string type))%nat \/ (NAME_BUFFER <= length (c_string topic))%nat)) /\
  (forall type name direction identity msg, 0 <= direction < 2 ^ 32 ->
     (send_service_bridge_registration padding type name direction identity = Some msg ->
      received msg = Some (ServiceMsg (c_str type) (c_str name)
        ((fun i => (c_str i.1, c_str i.2)) <$> identity) direction)) /\
     (send_service_bridge_registration padding type name direction identity = None <->
      Exists (fun s => (NAME_BUFFER <= length (c_string s))%nat)
        (type :: name :: from_option (fun i => [i.1; i.2]) [] identity))) /\
  (forall topic type direction depth tl rel, 0 <= direction < 2 ^ 32 -> 0 <= depth < 2 ^ 32 ->
     received (serialize_request topic type direction depth tl rel) =
     Some (DaemonPubSubMsg (string_of (agent_name topic)) (string_of (agent_name type)) direction depth
             tl rel)) /\
  (forall name, received (serialize_service_request name) =
     Some (DaemonServiceMsg (string_of (agent_name name)))).
Proof.
  intros Hp. split; [|split; [|split; [intros *; apply received_daemon_pubsub|
    intros *; apply received_daemon_service]]].
  - intros topic id type direction msg Hid Hd. rw send_pubsub_eq. split.
    + destruct (fits type && fits topic) eqn:E; [|done]. intros [= <-].
      apply andb_true_iff in E as [H1%fits_holds H2%fits_holds]. by apply received_pubsub.
    + unfold fits. destruct (Nat.ltb_spec (length (c_string type)) NAME_BUFFER),
        (Nat.ltb_spec (length (c_string topic)) NAME_BUFFER); simpl; split; try done; try lia; auto.
  - intros type name direction identity msg Hd.
    pose proof (send_service_eq padding type name direction identity) as He.
    destruct (default _ identity) as [ns nn] eqn:Hid. rw He. split.
    + destruct (fits type && fits name && fits ns && fits nn) eqn:E; [|done]. intros [= <-].
      apply andb_true_iff in E as [[[H1%fits_holds H2%fits_holds]%andb_true_iff H3%fits_holds]%andb_true_iff
        H4%fits_holds].
      rw (received_service (c_string type) (c_string name) (c_string ns) (c_string nn)) //.
      destruct identity as [[ns' nn']|]; simpl in *; [|done]. by injection Hid as -> ->.
    + rw !Exists_cons -!fits_false. destruct identity as [[ns' nn']|]; simpl in Hid |- *.
      * injection Hid as -> ->. rw !Exists_cons Exists_nil -!fits_false.
        destruct (fits type), (fits name), (fits ns), (fits nn); simpl; naive_solver.
      * injection Hid as <- <-. rw Exists_nil. change (fits EmptyString) with true.
        destruct (fits type), (fits name); simpl; naive_solver.
Qed.

Lemma bridge_messages_arrive_witness :
  (send_pubsub_bridge_registration [0; 0; 0] "/chatter" 4 "std_msgs/msg/String" ROS2_TO_AGNOCAST
     ≫= received) =
  Some (PubSubMsg "std_msgs/msg/String" "/chatter" 4 ROS2_TO_AGNOCAST).
Proof.
  destruct (bridge_messages_arrive [0; 0; 0] eq_refl) as (H & _).
  destruct (send_pubsub_bridge_registration [0; 0; 0] "/chatter" 4 "std_msgs/msg/String"
    ROS2_TO_AGNOCAST) as [msg|] eqn:E; [|vm_compute in E; discriminate E].
  destruct (H "/chatter"%string 4 "std_msgs/msg/String"%string ROS2_TO_AGNOCAST msg) as [H1 _];
    [lia|unfold ROS2_TO_AGNOCAST; lia|].
  simpl. rewrite (H1 E). reflexivity.
Defined.

(** ** A message that is not terminated *)

(** [parse_and_enqueue] checks the tag and the size only: a datagram whose char arrays have no NUL is
    queued, and reading its last name goes on past the message. *)
Definition unterminated : buffer := le32 BridgeMsgType_Service ++ replicate sizeof_service 97.

Lemma unterminated_queued :
  (exists msg, parse_and_enqueue false unterminated = Some msg) /\ received unterminated = None.
Proof. split; [eexists; vm_compute; reflexivity|vm_compute; reflexivity]. Qed.
