(* ===== verification/Endpoints.v ===== *)
(** * Publishers and subscriptions of a process

    Model of the constructors and destructors of the publishers and subscriptions of agnocastlib
    (agnocast_publisher.cpp, agnocast_subscription.cpp and their headers) over the state of the kernel module and the
    file of the type registry: the checks of the QoS, the announcement of the type, the registration, the gid of a
    publisher, the request for a bridge, and what an error undoes. *)

From Stdlib Require Import Ascii.
From S2P Require Import Prelude Strings BridgeMsg.
From S2P Require Import Kernel KMempool KTypes KRules KTopic KMessage KCleanup KRegistry KState KInvariant KSystem KIoctl.
From S2P Require Import KTheorems KQuery StartUp TypeRegistry.

(** ** Quality of service *)

Inductive reliability := Reliable | BestEffort | OtherReliability.
Inductive durability := TransientLocal | Volatile | OtherDurability.

#[export] Instance reliability_eq_dec : EqDecision reliability.
Proof. solve_decision. Defined.
#[export] Instance durability_eq_dec : EqDecision durability.
Proof. solve_decision. Defined.

(** What the checks and the registration read of an [rclcpp::QoS]; a duration is its seconds and nanoseconds. *)
Record QoS := MkQoS {
  depth : Z; keep_all : bool; reliability_ : reliability; durability_ : durability;
  deadline : Z * Z; lifespan : Z * Z; manual_by_topic : bool; lease_duration : Z * Z; avoid_ros_namespace_conventions : bool }.

Inductive warning :=
  WarnDeadline | WarnLifespan | WarnLiveliness | WarnLeaseDuration | WarnDepthZero | WarnNamespace | WarnBestEffort.

Definition is_set (d : Z * Z) : bool := negb (d.1 =? 0) || negb (d.2 =? 0).

(** Whether there is a reason. *)
Definition unsupported_qos_reason (q : QoS) : bool := keep_all q.

(** [None]: [exit(EXIT_FAILURE)]. *)
Definition validate_qos_common (q : QoS) : option (list warning) :=
  require negb (unsupported_qos_reason q) orelse None;
  Some ((if is_set (deadline q) then [WarnDeadline] else []) ++
        (if is_set (lifespan q) then [WarnLifespan] else []) ++
        (if manual_by_topic q then [WarnLiveliness] else []) ++
        (if is_set (lease_duration q) then [WarnLeaseDuration] else []) ++
        (if depth q =? 0 then [WarnDepthZero] else []) ++
        (if avoid_ros_namespace_conventions q then [WarnNamespace] else [])).

Definition validate_publisher_qos (q : QoS) : option (list warning) :=
  unwrap ws := validate_qos_common q orelse None;
  Some (ws ++ if bool_decide (reliability_ q = BestEffort) then [WarnBestEffort] else []).

Definition validate_subscription_qos (q : QoS) : option (list warning) := validate_qos_common q.

(** ** The process *)

(** The module, [TypeRegistryWriter::instance()] with its file, the open eventfds, and the messages sent to the bridge
    manager. *)
Record process := Process {
  module : kstate; registry : writer; registry_file : chars; eventfds : list Z; bridge_requests : list buffer }.

Definition with_module (k : kstate) (p : process) : process :=
  Process k (registry p) (registry_file p) (eventfds p) (bridge_requests p).
Definition with_eventfds (l : list Z) (p : process) : process :=
  Process (module p) (registry p) (registry_file p) l (bridge_requests p).
Definition with_request (b : buffer) (p : process) : process :=
  Process (module p) (registry p) (registry_file p) (eventfds p) (bridge_requests p ++ [b]).

(** *** The socket of the bridge manager *)

Definition BRIDGE_UDS_SEND_MAX_RETRIES : nat := 100.

(** [sizeof(sun_path)] *)
Definition SUN_PATH_SIZE : nat := 108.

(** What [sendto] answers: a datagram is sent whole or not at all (unix(7)); [EAGAIN] is also [EWOULDBLOCK]. *)
Inductive sendto_errno := ECONNREFUSED | EAGAIN | ENOBUFS | OtherErrno.
Inductive sendto_answer := SentAll | SendFails (e : sendto_errno).

Definition retried (e : sendto_errno) : bool := match e with OtherErrno => false | _ => true end.

(** What [stat] of the IPC namespace, [ROS_DOMAIN_ID], [socket] and the successive calls of [sendto] answer. *)
Record uds_calls := UdsCalls {
  ipc_inode : option Z; domain_env : option chars; uds_socket : bool; uds_sendto : nat -> sendto_answer }.

(** Whether the address is one: [false] is the [invalid_argument] or the [length_error] it throws. *)
Definition fill_abstract_sockaddr (addr : chars) : bool :=
  match addr with
  | x :: _ => Ascii.eqb x Ascii.zero && (length addr <=? SUN_PATH_SIZE)%nat
  | [] => false
  end.

(** The loop of [send_bridge_uds_message] from its attempt [k], with [retries] sleeps left. *)
Fixpoint send_attempts (answers : nat -> sendto_answer) (k retries : nat) : bool :=
  match answers k with
  | SentAll => true
  | SendFails e =>
      require retried e orelse false;
      match retries with
      | S n => send_attempts answers (S k) n
      | O => false
      end
  end.

Definition send_bridge_uds_message (addr : chars) (a : uds_calls) : bool :=
  require uds_socket a orelse false;
  require fill_abstract_sockaddr addr orelse false;
  send_attempts (uds_sendto a) 0 BRIDGE_UDS_SEND_MAX_RETRIES.

(** What the process runs with: [is_bridge_process], LD_PRELOAD, AGNOCAST_BRIDGE_MODE, the base directory of the type
    registry and what opening it returns, the bytes of a fresh message to the bridge manager, and what the calls that
    send it answer. *)
Record context := Context {
  is_bridge_process : bool; ld_preload : option chars; bridge_mode : option chars; base_dir : chars;
  registry_calls : open_calls; padding : buffer; uds : uds_calls }.

Inductive role := Default | AgnocastOnly | BridgeInternal.
#[export] Instance role_eq_dec : EqDecision role.
Proof. solve_decision. Defined.

Section endpoints.
Context `{KernelHash}.
Variables (c : context) (u : user).
Local Abbreviation me := (current_tgid (kernel_env u)).

(** The announcement; an endpoint without a type name skips it. *)
Definition announce_type (topic type_name role node_name : string) (ws : list write_result) (p : process) : process :=
  if String.eqb type_name "" then p
  else
    let '(w, f) := register_type (registry_calls c) (base_dir c) me
      (Announcement (to_chars topic) (to_chars type_name) (to_chars role) (to_chars node_name)) ws (registry p) (registry_file p) in
    Process (module p) w f (eventfds p) (bridge_requests p).

(** [None]: [exit(EXIT_FAILURE)], here and below. *)
Definition initialize_publisher (topic node_name : string) (q : QoS) (is_bridge : bool) (type_name : string)
    (ws : list write_result) (p : process) : process * option Z :=
  match validate_ld_preload (is_bridge_process c) (ld_preload c) with
  | None => (p, None)
  | Some _ =>
      let p := announce_type topic type_name "pub" node_name ws p in
      match add_publisher_cmd u (module p) topic node_name (u32 (depth q)) (bool_decide (durability_ q = TransientLocal)) is_bridge with
      | (k, Ok (IdReply id)) => (with_module k p, Some id)
      | (k, _) => (with_module k p, None)
      end
  end.

(** [register_pubsub_bridge_by_type_name]; no request is made where bridges are off.  A message that cannot be sent is
    only logged.  [None]: [exit(EXIT_FAILURE)], or the exception of [get_self_ipc_ns_inode]. *)
Definition register_pubsub_bridge_by_type_name (topic : string) (id : Z) (type_name : string) (direction : Z) (p : process)
    : option process :=
  if bool_decide (get_bridge_mode (bridge_mode c) = On) then
    unwrap msg := send_pubsub_bridge_registration (padding c) topic id type_name direction orelse None;
    unwrap inode := ipc_inode (uds c) orelse None;
    let addr := create_uds_addr_for_bridge inode (domain_env (uds c)) in
    Some (if send_bridge_uds_message addr (uds c) then with_request msg p else p)
  else Some p.

(** The end of both constructors. *)
Definition request_bridge (r : role) (topic : string) (id : Z) (type_name : string) (direction : Z) (p : process)
    : option process :=
  if bool_decide (r = Default) && negb (String.eqb type_name "")
  then register_pubsub_bridge_by_type_name topic id type_name direction p else Some p.

(** [PublisherBase::init_base]; [topic] is the resolved name and [q] the QoS after its overrides. *)
Definition init_publisher (topic node_name type_name : string) (q : QoS) (r : role) (ws : list write_result) (p : process)
    : process * option Z :=
  match validate_publisher_qos q with
  | None => (p, None)
  | Some _ =>
      match initialize_publisher topic node_name q (bool_decide (r = BridgeInternal)) type_name ws p with
      | (p, None) => (p, None)
      | (p, Some id) =>
          match request_bridge r topic id type_name AGNOCAST_TO_ROS2 p with
          | Some p => (p, Some id)
          | None => (p, None)
          end
      end
  end.

(** [~PublisherBase]: a failure is only logged. *)
Definition destroy_publisher (topic : string) (id : Z) (p : process) : process :=
  if 0 <=? id then with_module (remove_publisher_cmd u (module p) topic id).1 p else p.

Definition close_notify_eventfd (fd : Z) (p : process) : process :=
  if 0 <=? fd then with_eventfds (filter (fun x => x <> fd) (eventfds p)) p else p.

(** [SubscriptionBase::initialize]; [efd] is what [eventfd] returns, and what the result holds is the id and
    [notify_eventfd_]. *)
Definition initialize_subscription (topic node_name type_name : string) (q : QoS) (is_take_sub ignore_local : bool)
    (r : role) (efd : option Z) (ws : list write_result) (p : process) : process * option (Z * Z) :=
  let p := announce_type topic type_name "sub" node_name ws p in
  match (if is_take_sub then Some (-1) else efd) with
  | None => (p, None)
  | Some fd =>
      let p := if is_take_sub then p else with_eventfds (fd :: eventfds p) p in
      match add_subscriber_cmd u (module p) topic node_name (u32 (depth q)) (bool_decide (durability_ q = TransientLocal))
          (bool_decide (reliability_ q = Reliable)) is_take_sub ignore_local (bool_decide (r = BridgeInternal)) fd with
      | (k, Ok (IdReply id)) =>
          match request_bridge r topic id type_name ROS2_TO_AGNOCAST (with_module k p) with
          | Some p => (p, Some (id, fd))
          | None => (with_module k p, None)
          end
      | (k, _) => (close_notify_eventfd fd (with_module k p), None)
      end
  end.

(** The constructor of [SubscriptionBase] and [init_base]. *)
Definition init_subscription (topic node_name type_name : string) (q : QoS) (is_take_sub ignore_local : bool)
    (r : role) (efd : option Z) (ws : list write_result) (p : process) : process * option (Z * Z) :=
  match validate_ld_preload (is_bridge_process c) (ld_preload c), validate_subscription_qos q with
  | Some _, Some _ => initialize_subscription topic node_name type_name q is_take_sub ignore_local r efd ws p
  | _, _ => (p, None)
  end.

(** [~SubscriptionBase]. *)
Definition destroy_subscription (topic : string) (id fd : Z) (p : process) : process :=
  close_notify_eventfd fd
    (if 0 <=? id then with_module (remove_subscriber_cmd u (module p) topic id).1 p else p).
End endpoints.

(** [get_valid_callback_group]: the group given, if the node has it, or the default one; [None] exits. *)
Definition get_valid_callback_group {G} (in_node : G -> bool) (default : G) (given : option G) : option G :=
  match given with
  | Some g => if in_node g then Some g else None
  | None => Some default
  end.

(** ** Counts *)

(** What is left of a count without the endpoint that a bridge added; [uint32_t]s. *)
Definition without_bridge (exists_ : bool) (count : Z) : Z := if exists_ && (0 <? count) then count - 1 else count.

(** [None]: the ioctl failed, and the process exits; here and below. *)
Definition get_subscription_count_core (r : res subscriber_num) : option Z :=
  match r with
  | Ok n =>
      Some (u32 (u32 (without_bridge (sub_ret_a2r_bridge_exist n) (ret_other_process_subscriber_num n) +
        ret_same_process_subscriber_num n) + without_bridge (sub_ret_r2a_bridge_exist n) (ret_ros2_subscriber_num n)))
  | _ => None
  end.

Definition get_same_process_subscription_count_core (r : res subscriber_num) : option Z :=
  match r with Ok n => Some (ret_same_process_subscriber_num n) | _ => None end.

Definition get_publisher_count_core (r : res publisher_num) : option Z :=
  match r with
  | Ok n =>
      Some (u32 (without_bridge (pub_ret_r2a_bridge_exist n) (ret_publisher_num n) +
        without_bridge (pub_ret_a2r_bridge_exist n) (ret_ros2_publisher_num n)))
  | _ => None
  end.

(** ** The gid of a publisher *)

Definition byte_at (z : Z) (i : nat) : Z := (z / 2 ^ (8 * Z.of_nat i)) mod 256.

(** The bytes of a number as the little-endian machine stores it. *)
Definition le_bytes (n : nat) (z : Z) : list Z := byte_at z <$> seq 0 n.

(** [hash] is [std::hash<std::string>], 64 bits wide. *)
Definition generate_gid (hash : string -> Z) (pid : Z) (topic : string) (id : Z) : list Z :=
  [65; 71] ++ le_bytes 4 (u32 pid) ++ le_bytes 6 (u64 (hash topic)) ++ le_bytes 4 (u32 id) ++ replicate 8 0.
