(* ===== verification/EndpointTheorems.v ===== *)
(** * Publishers and subscriptions: theorems

    What the three parties that hear of a new endpoint hold of it once its constructor has returned: the kernel module,
    the file of the type registry, and the bridge manager; that gids tell publishers apart; and what the counts count. *)

From Stdlib Require Import Ascii.
From S2P Require Import Prelude Strings BridgeMsg.
From S2P Require Import Kernel KMempool KTypes KRules KTopic KMessage KCleanup KRegistry KState KInvariant KSystem KIoctl.
From S2P Require Import KTheorems KQuery StartUp TypeRegistry Endpoints.

(** ** What a constructor leaves *)

(** The line an endpoint announces itself with. *)
Definition announced (topic type_name role node_name : string) : announcement :=
  Announcement (to_chars topic) (to_chars type_name) (to_chars role) (to_chars node_name).

Section set_up.
Context `{KernelHash}.
Variables (c : context) (u : user).
Local Abbreviation me := (current_tgid (kernel_env u)).

(** The announcement [a] reaches the file of the process, whose lines so far are the announcements [l]. *)
Record announceable (l : list announcement) (a : announcement) (ws : list write_result) (p : process) : Prop := {
  an_file : registry_file p = concat (line_of <$> l);
  an_lines : Forall well_formed l;
  an_line : well_formed a;
  an_open : fd_open (ensure_open_locked (registry_calls c) (base_dir c) me (registry p)) = true;
  an_written : completes (a, ws) = true }.

Lemma announce_type_reads l topic type_name role node_name ws p :
  type_name <> ""%string -> announceable l (announced topic type_name role node_name) ws p ->
  let p' := announce_type c u topic type_name role node_name ws p in
  ingest_file me (registry_file p') ∅ =
    announce me (ingest_file me (registry_file p) ∅) (announced topic type_name role node_name) /\
  module p' = module p /\ bridge_requests p' = bridge_requests p /\ eventfds p' = eventfds p.
Proof.
  intros Ht [Hf Hl Ha Ho Hw] p'. unfold p', announce_type. rw (proj2 (String.eqb_neq _ _) Ht).
  destruct (register_open (registry_calls c) (base_dir c) me (announced topic type_name role node_name) ws (registry p)
    (registry_file p) Ho) as (w' & n & Hr & _ & Hn).
  rewrite Hw in Hn. fold (announced topic type_name role node_name). rw Hr. cbn [module registry_file bridge_requests eventfds].
  split; [|done]. subst n. rw take_ge; [|lia]. rw Hf ingest_lines; [|done].
  rewrite -(app_nil_r (line_of _)) ingest_line_rest; [|done]. rewrite -(app_nil_r (concat _)) ingest_lines; [|done]. done.
Qed.

Lemma lookup_announced table topic type_name role node_name :
  lookup_type (to_chars topic) (to_chars role) (to_chars node_name)
    (announce me table (announced topic type_name role node_name)) = Some (me, to_chars type_name).
Proof. unfold lookup_type, announce, announced. cbn. by rw lookup_insert_eq. Qed.

(** The datagram is sent: there is a socket, the address fits into [sun_path], and one of the 101 calls of [sendto] sends
    it after failures that are worth a retry only. *)
Definition delivered : Prop :=
  exists inode, ipc_inode (uds c) = Some inode /\ uds_socket (uds c) = true /\
    (length (create_uds_addr_for_bridge inode (domain_env (uds c))) <= 108)%nat /\
    exists k, (k <= 100)%nat /\ uds_sendto (uds c) k = SentAll /\
      forall j, (j < k)%nat -> exists e, uds_sendto (uds c) j = SendFails e /\ e <> OtherErrno.

Lemma send_attempts_true answers k retries :
  send_attempts answers k retries = true <->
  exists n, (n <= retries)%nat /\ answers (k + n)%nat = SentAll /\
    forall j, (j < n)%nat -> exists e, answers (k + j)%nat = SendFails e /\ e <> OtherErrno.
Proof.
  revert k. induction retries as [|r IH]; intros k; simpl.
  - destruct (answers k) as [|e] eqn:E.
    + split; [|done]. intros _. exists 0%nat. rw Nat.add_0_r E. split; [done|]. split; [done|]. intros j Hj. lia.
    + split; [by destruct e|]. intros (n & Hn & Ha & _). assert (n = 0%nat) as -> by lia. rw Nat.add_0_r in Ha. congruence.
  - destruct (answers k) as [|e] eqn:E.
    + split; [|done]. intros _. exists 0%nat. rw Nat.add_0_r E. split; [lia|]. split; [done|]. intros j Hj. lia.
    + assert (forall n j, (S k + n = k + S n)%nat /\ (S k + j = k + S j)%nat) as Hs by (intros; lia). split.
      * destruct (retried e) eqn:He; [|done]. intros (n & Hn & Ha & Hall)%IH. exists (S n). split; [lia|].
        split; [by rw -(proj1 (Hs n n))|]. intros [|j] Hj; [rw Nat.add_0_r; exists e; by destruct e|].
        rw -(proj2 (Hs n j)). apply Hall. lia.
      * intros ([|n] & Hn & Ha & Hall); [rw Nat.add_0_r in Ha; congruence|].
        destruct (Hall 0%nat ltac:(lia)) as (e' & He' & Hne). rw Nat.add_0_r E in He'. injection He' as <-.
        assert (retried e = true) as -> by (by destruct e). apply IH. exists n. split; [lia|].
        split; [by rw (proj1 (Hs n n))|]. intros j Hj. rw (proj2 (Hs n j)). apply Hall. lia.
Qed.

Lemma sent_iff_delivered inode :
  ipc_inode (uds c) = Some inode ->
  send_bridge_uds_message (create_uds_addr_for_bridge inode (domain_env (uds c))) (uds c) = true <-> delivered.
Proof.
  intros Hi. unfold send_bridge_uds_message, delivered. rw Hi.
  assert (fill_abstract_sockaddr (create_uds_addr_for_bridge inode (domain_env (uds c))) =
    (length (create_uds_addr_for_bridge inode (domain_env (uds c))) <=? 108)%nat) as -> by done.
  split.
  - destruct (uds_socket (uds c)); [|done]. destruct (Nat.leb_spec (length (create_uds_addr_for_bridge inode (domain_env (uds c)))) 108); [|done].
    intros Hs%send_attempts_true. exists inode. done.
  - intros (i & [= <-] & -> & Hl%Nat.leb_le & Hs). rw Hl. by apply send_attempts_true.
Qed.

(** The request for a bridge that the end of a constructor sends, if any. *)
Definition request_made (r : role) (name type_name : string) (id direction : Z) (requests : list (option bridge_msg)) : Prop :=
  (r = Default /\ get_bridge_mode (bridge_mode c) = On /\ delivered ->
    requests = [Some (PubSubMsg (c_str type_name) (c_str name) id direction)]) /\
  (~ (r = Default /\ get_bridge_mode (bridge_mode c) = On /\ delivered) -> requests = []).

Lemma request_bridge_sent r topic id type_name direction p p' :
  length (padding c) = 3%nat -> - 2 ^ 31 <= id < 2 ^ 31 -> 0 <= direction < 2 ^ 32 -> type_name <> ""%string ->
  request_bridge c r topic id type_name direction p = Some p' ->
  module p' = module p /\ registry_file p' = registry_file p /\ exists requests,
    (received <$> bridge_requests p') = (received <$> bridge_requests p) ++ requests /\
    request_made r topic type_name id direction requests.
Proof.
  intros Hp Hid Hd Ht. unfold request_bridge, request_made. rw (proj2 (String.eqb_neq _ _) Ht).
  case_bool_decide as Hr; cbn [andb negb].
  2: { intros [= <-]. split; [done|]. split; [done|]. exists []. rw app_nil_r. naive_solver. }
  unfold register_pubsub_bridge_by_type_name. case_bool_decide as Hon.
  2: { intros [= <-]. split; [done|]. split; [done|]. exists []. rw app_nil_r. naive_solver. }
  destruct (send_pubsub_bridge_registration _ _ _ _ _) as [msg|] eqn:Hs; [|done].
  destruct (ipc_inode (uds c)) as [inode|] eqn:Hi; [|done]. pose proof (sent_iff_delivered inode Hi) as Hd'.
  destruct (send_bridge_uds_message _ _); intros [= <-]; (split; [done|]; split; [done|]).
  2: { exists []. rw app_nil_r. naive_solver. }
  eexists [_]. cbn [bridge_requests with_request]. rw fmap_app. split; [reflexivity|]. split; [|naive_solver]. intros _. f_equal. rewrite send_pubsub_eq in Hs. destruct (fits type_name && fits topic) eqn:E; [|done].
  injection Hs as <-. apply andb_true_iff in E as [H1%fits_holds H2%fits_holds]. cbn. f_equal. by apply received_pubsub.
Qed.

Lemma reply_if_ok_Ok {A} n (f : A -> reply) kr k a : reply_if_ok u n f kr = (k, Ok a) -> exists b, kr = (k, Ok b) /\ a = f b.
Proof. destruct kr as [k0 [b|err|]]; simpl; [|done..]. destruct (copy_ok u n); intros [= <- <-]. by exists b. Qed.

Lemma with_name_Ok k n size src body k' a :
  with_name u k n size src body = (k', Ok a) -> body (KIoctl.c_string src) = (k', Ok a).
Proof. unfold with_name, copy_name_from_user. by repeat case_match; simplify_eq. Qed.

Lemma id_range t id : topic_wf t -> id ∈ endpoint_ids t -> 0 <= id < 2 ^ 31.
Proof.
  intros Hwf Hid. pose proof (wf_ids_range _ Hwf) as Hr. rewrite Forall_forall in Hr. specialize (Hr id Hid).
  pose proof (wf_ids_bound _ Hwf). unfold MAX_TOPIC_LOCAL_ID in *. lia.
Qed.

Context (pool0 : list mempool_entry).

Lemma add_publisher_cmd_leaves k name node_name depth tl br k' id :
  kinv pool0 k -> 0 <= depth < 2 ^ 32 ->
  add_publisher_cmd u k name node_name depth tl br = (k', Ok (IdReply id)) ->
  0 <= id < 2 ^ 31 /\ exists w t pub,
    find_topic_for_current (kernel_env u) k' (KIoctl.c_string name) = Some w /\ topics k' !! topic w = Some t /\
    find_publisher_info t id = Some pub /\ pub_pid pub = me /\ pub_node_name pub = KIoctl.c_string node_name /\
    pub_qos_depth pub = depth /\ pub_is_transient_local pub = tl /\ pub_is_bridge pub = br.
Proof.
  intros Hk Hd. unfold add_publisher_cmd. destruct (copy_ok u 0); simpl; [|done].
  intros Hr%with_name_Ok%with_name_Ok. apply reply_if_ok_Ok in Hr as (id' & Hadd & [= ->]).
  destruct (add_publisher_leaves _ _ _ _ _ _ _ Hk Hadd) as (w & t & pub & Hw & Hps & Hc & Ht & Hin & <- & H1 & H2 & H3 & H4 & H5).
  destruct (fun D => add_publisher_kinv _ _ _ _ _ _ _ _ Hk D Hadd) as [Hk' _]; [exact Hd|].
  pose proof (ho_wf _ _ _ _ _ (tv_heap _ _ _ _ (ki_topics _ _ Hk') _ _ Ht)) as Hwf. split.
  - apply (id_range t); [done|]. apply elem_of_app. left. by apply list_elem_of_fmap_2.
  - exists w, t, pub. split_and!; try done.
    + apply (find_current_unique pool0); [done..|]. by rw Hps.
    + apply find_publisher_info_unique; [by apply wf_pub_ids_nodup|done].
Qed.

Lemma add_subscriber_cmd_leaves k name node_name depth tl rel take ign br fd k' id :
  kinv pool0 k -> room k -> valid_pid me -> 0 <= depth < 2 ^ 32 ->
  add_subscriber_cmd u k name node_name depth tl rel take ign br fd = (k', Ok (IdReply id)) ->
  0 <= id < 2 ^ 31 /\ exists w t sub,
    find_topic_for_current (kernel_env u) k' (KIoctl.c_string name) = Some w /\ topics k' !! topic w = Some t /\
    find_subscriber_info t id = Some sub /\ sub_pid sub = me /\ sub_node_name sub = KIoctl.c_string node_name /\
    sub_qos_depth sub = depth /\ sub_is_transient_local sub = tl /\ sub_is_reliable sub = rel /\ sub_is_bridge sub = br.
Proof.
  intros Hk Hroom Hpid Hd. unfold add_subscriber_cmd. destruct (copy_ok u 0); simpl; [|done].
  intros Hr%with_name_Ok%with_name_Ok. apply reply_if_ok_Ok in Hr as (id' & Hadd & [= ->]).
  destruct (add_subscriber_leaves _ _ _ _ _ _ _ _ Hk Hroom Hadd) as (w & t & sub & Hw & Hps & Hc & Ht & Hin & <- & H1 & H2 & H3 & H4 & H5 & H6).
  destruct (fun D => add_subscriber_kinv _ _ _ _ _ _ _ _ _ Hk Hroom Hpid D Hadd) as [Hk' _]; [exact Hd|].
  pose proof (ho_wf _ _ _ _ _ (tv_heap _ _ _ _ (ki_topics _ _ Hk') _ _ Ht)) as Hwf. split.
  - apply (id_range t); [done|]. apply elem_of_app. right. by apply list_elem_of_fmap_2.
  - exists w, t, sub. split_and!; try done.
    + apply (find_current_unique pool0); [done..|]. by rw Hps.
    + apply find_subscriber_info_unique; [by apply wf_sub_ids_nodup|done].
Qed.

Variables (size : Z).
Hypothesis Hpools : pool_wf pool0.
Hypothesis Hpadding : length (padding c) = 3%nat.

(** C11. A publisher that could be constructed is known to all who have to know it, as it was asked for: the module
    finds it on the topic of the process's own domain under the id it returned, with its process, node, depth,
    durability and kind; the discovery agent, which reads the file of the process, finds its type, and what the file
    said before otherwise; and the bridge manager has been sent the type, the topic and that id, in this direction, and
    nothing else, exactly if the publisher has the default role, bridges are on and the datagram goes through, that is,
    the socket is there, the address fits, and one of at most 101 calls of sendto succeeds after failures that are
    retried; a request that does not go through is lost, and the constructor returns all the same.  The publisher has
    a type name, and its line can be announced: the file holds whole lines so far and could be opened, no name holds a
    tab or a line feed, and the writes complete the line. *)
Theorem publisher_set_up l name node_name type_name q r ws p p' id :
  kernel_reachable size pool0 (module p) -> type_name <> ""%string ->
  announceable l (announced name type_name "pub" node_name) ws p ->
  init_publisher c u name node_name type_name q r ws p = (p', Some id) ->
  (exists w t pub,
    find_topic_for_current (kernel_env u) (module p') (KIoctl.c_string name) = Some w /\ topics (module p') !! topic w = Some t /\
    find_publisher_info t id = Some pub /\ pub_pid pub = me /\ pub_node_name pub = KIoctl.c_string node_name /\
    pub_qos_depth pub = u32 (depth q) /\ pub_is_transient_local pub = bool_decide (durability_ q = TransientLocal) /\
    pub_is_bridge pub = bool_decide (r = BridgeInternal)) /\
  lookup_type (to_chars name) (to_chars "pub") (to_chars node_name) (ingest_file me (registry_file p') ∅) =
    Some (me, to_chars type_name) /\
  (forall key, key <> (to_chars name, to_chars "pub", to_chars node_name) ->
    ingest_file me (registry_file p') ∅ !! key = ingest_file me (registry_file p) ∅ !! key) /\
  (exists requests, received <$> bridge_requests p' = (received <$> bridge_requests p) ++ requests /\
    request_made r name type_name id AGNOCAST_TO_ROS2 requests).
Proof.
  intros Hr Ht Ha. pose proof (kernel_reachable_kinv _ _ _ Hpools Hr) as Hk.
  unfold init_publisher, initialize_publisher. destruct (validate_publisher_qos q); [|done].
  destruct (validate_ld_preload _ _); [|done].
  destruct (announce_type_reads l name type_name "pub" node_name ws p Ht Ha) as (Hf & Hm & Hb & _). cbv zeta in *.
  set (p1 := announce_type c u name type_name "pub" node_name ws p) in *.
  destruct (add_publisher_cmd _ _ _ _ _ _ _) as [k' [[| |id0| | | | | |]|err|]] eqn:Hadd; try done.
  rewrite Hm in Hadd. apply add_publisher_cmd_leaves in Hadd as [Hid Hadd]; [|done|apply Z.mod_pos_bound; lia].
  destruct (request_bridge _ _ _ _ _ _ _) as [p2|] eqn:Hq; [|done]. intros [= <- <-].
  apply request_bridge_sent in Hq as (-> & Hfile & requests & -> & Hreq); [|done|lia|unfold AGNOCAST_TO_ROS2; lia|done].
  cbn [with_module module registry_file bridge_requests] in *. rw Hfile Hb Hf. split; [done|]. split; [by apply lookup_announced|].
  split; [|by exists requests]. intros key Hkey. unfold announce, announced. cbn. by rw lookup_insert_ne.
Qed.

(** The same of a subscription; it holds its id and its eventfd, which is open. *)
Theorem subscription_set_up l name node_name type_name q take ign r efd ws p p' id fd :
  kernel_reachable size pool0 (module p) -> room (module p) -> valid_pid me -> type_name <> ""%string ->
  announceable l (announced name type_name "sub" node_name) ws p ->
  init_subscription c u name node_name type_name q take ign r efd ws p = (p', Some (id, fd)) ->
  (exists w t sub,
    find_topic_for_current (kernel_env u) (module p') (KIoctl.c_string name) = Some w /\ topics (module p') !! topic w = Some t /\
    find_subscriber_info t id = Some sub /\ sub_pid sub = me /\ sub_node_name sub = KIoctl.c_string node_name /\
    sub_qos_depth sub = u32 (depth q) /\ sub_is_transient_local sub = bool_decide (durability_ q = TransientLocal) /\
    sub_is_reliable sub = bool_decide (reliability_ q = Reliable) /\ sub_is_bridge sub = bool_decide (r = BridgeInternal)) /\
  lookup_type (to_chars name) (to_chars "sub") (to_chars node_name) (ingest_file me (registry_file p') ∅) =
    Some (me, to_chars type_name) /\
  (exists requests, received <$> bridge_requests p' = (received <$> bridge_requests p) ++ requests /\
    request_made r name type_name id ROS2_TO_AGNOCAST requests) /\
  (if take then fd = -1 else efd = Some fd).
Proof.
  intros Hr Hroom Hpid Ht Ha. pose proof (kernel_reachable_kinv _ _ _ Hpools Hr) as Hk.
  unfold init_subscription, initialize_subscription. destruct (validate_ld_preload _ _); [|done].
  destruct (validate_subscription_qos q); [|done].
  destruct (announce_type_reads l name type_name "sub" node_name ws p Ht Ha) as (Hf & Hm & Hb & _). cbv zeta in *.
  set (p1 := announce_type c u name type_name "sub" node_name ws p) in *.
  destruct (if take then Some (-1) else efd) as [fd0|] eqn:Hfd; [|done]. set (p2 := if take then p1 else _).
  assert (module p2 = module p /\ registry_file p2 = registry_file p1 /\ bridge_requests p2 = bridge_requests p1) as (Hm2 & Hf2 & Hb2)
    by (unfold p2; destruct take; by rw -Hm).
  destruct (add_subscriber_cmd _ _ _ _ _ _ _ _ _ _ _) as [k' [[| |id0| | | | | |]|err|]] eqn:Hadd; try done.
  rewrite Hm2 in Hadd. apply add_subscriber_cmd_leaves in Hadd as [Hid Hadd]; [|done..|apply Z.mod_pos_bound; lia].
  destruct (request_bridge _ _ _ _ _ _ _) as [p3|] eqn:Hq; [|done]. intros [= <- <- <-].
  apply request_bridge_sent in Hq as (-> & Hfile & requests & -> & Hreq); [|done|lia|unfold ROS2_TO_AGNOCAST; lia|done].
  cbn [with_module module registry_file bridge_requests] in *. rw Hfile Hf2 Hb2 Hb Hf. split; [done|]. split; [by apply lookup_announced|].
  split; [by exists requests|]. destruct take; [by injection Hfd|done].
Qed.
End set_up.

(** ** Gids *)

Lemma le_bytes_S n z : le_bytes (S n) z = le_bytes n z ++ [byte_at z n].
Proof. unfold le_bytes. rw seq_S fmap_app. done. Qed.

Lemma length_gid_bytes n z : length (le_bytes n z) = n.
Proof. unfold le_bytes. by rw length_fmap length_seq. Qed.

Lemma le_bytes_range n z : Forall (fun b => 0 <= b < 256) (le_bytes n z).
Proof. unfold le_bytes. apply Forall_fmap, Forall_forall. intros i _. apply Z.mod_pos_bound. lia. Qed.

(** The first [n] bytes of a number are the number modulo 256^n. *)
Lemma le_bytes_eq n a b : le_bytes n a = le_bytes n b <-> a mod 2 ^ (8 * Z.of_nat n) = b mod 2 ^ (8 * Z.of_nat n).
Proof.
  induction n as [|n IH]; [by rw !Z.mod_1_r|]. rw !le_bytes_S.
  set (P := 2 ^ (8 * Z.of_nat n)) in *. assert (0 < P) by (apply Z.pow_pos_nonneg; lia).
  replace (2 ^ (8 * Z.of_nat (S n))) with (P * 256)
    by (unfold P; replace (8 * Z.of_nat (S n)) with (8 * Z.of_nat n + 8) by lia; rw Z.pow_add_r; [done|lia|lia]).
  rw !(Z.rem_mul_r _ P 256); [|lia|lia|lia|lia]. unfold byte_at. fold P.
  pose proof (Z.mod_pos_bound a P). pose proof (Z.mod_pos_bound b P).
  pose proof (Z.mod_pos_bound (a / P) 256). pose proof (Z.mod_pos_bound (b / P) 256). split.
  - intros E. apply app_inj_tail in E as [E1%IH E2]. lia.
  - intros E. destruct (Z.div_mod_unique P ((a / P) mod 256) ((b / P) mod 256) (a mod P) (b mod P)) as [E2 E1]; [left; lia..|lia|].
    f_equal; [by apply IH|by rw E2].
Qed.

Lemma app_same_length {A} (a b c d : list A) : length a = length c -> a ++ b = c ++ d <-> a = c /\ b = d.
Proof. intros Hl. split; [by apply app_inj_1|by intros [-> ->]]. Qed.

(** The gid that a publisher puts into its messages' metadata is 24 bytes, and two publishers have the same one
    exactly if their processes have the same pid, their ids in the topics are the same, and the hashes of the topics
    agree in the lower 48 bits: so publishers of one topic have different gids, whatever the hash. *)
Theorem gids_distinct (hash : string -> Z) pid1 topic1 id1 pid2 topic2 id2 :
  0 <= pid1 < 2 ^ 32 -> 0 <= pid2 < 2 ^ 32 -> 0 <= id1 < 2 ^ 31 -> 0 <= id2 < 2 ^ 31 ->
  length (generate_gid hash pid1 topic1 id1) = 24%nat /\
  Forall (fun b => 0 <= b < 256) (generate_gid hash pid1 topic1 id1) /\
  (generate_gid hash pid1 topic1 id1 = generate_gid hash pid2 topic2 id2 <->
    pid1 = pid2 /\ id1 = id2 /\ hash topic1 mod 2 ^ 48 = hash topic2 mod 2 ^ 48).
Proof.
  intros Hp1 Hp2 Hi1 Hi2. unfold generate_gid. split; [by rw !length_app !length_gid_bytes|]. split.
  { repeat (apply Forall_app; split); try apply le_bytes_range; repeat constructor; lia. }
  rw !app_same_length; [|by rw !length_gid_bytes..|done]. rw !le_bytes_eq.
  change (2 ^ (8 * Z.of_nat 4)) with (2 ^ 32). change (2 ^ (8 * Z.of_nat 6)) with (2 ^ 48).
  unfold u32, u64. rw !Z.mod_mod; try lia. rw !(Z.mod_small _ (2 ^ 32)); [|lia..].
  assert (forall x, (x mod 2 ^ 64) mod 2 ^ 48 = x mod 2 ^ 48) as Hm.
  { intros x. apply Z.mod_mod_divide. by exists (2 ^ 16). }
  rw !Hm. naive_solver.
Qed.

(** Two publishers of a topic in different processes, and publishers of one process on topics whose names hash alike. *)
Lemma gids_distinct_witness :
  generate_gid (fun _ => 5) 100 "/a" 0 <> generate_gid (fun _ => 5) 200 "/a" 0 /\
  generate_gid (fun _ => 5) 100 "/a" 0 = generate_gid (fun _ => 5) 100 "/b" 0.
Proof.
  destruct (gids_distinct (fun _ => 5) 100 "/a" 0 200 "/a" 0) as (_ & _ & H1); [lia..|].
  destruct (gids_distinct (fun _ => 5) 100 "/a" 0 100 "/b" 0) as (_ & _ & H2); [lia..|]. split.
  - intros E. destruct (proj1 H1 E) as [[=] _].
  - apply H2. split_and!; reflexivity.
Defined.

(** ** A publisher of the sample run *)

Definition sample_context : context :=
  Context false (Some (to_chars "/opt/lib/libagnocast_heaphook.so")) None (g_base_dir None)
    (OpenCalls (Some 4026531839) Made (Exists (Some true)) true true) [0; 0; 0]
    (UdsCalls (Some 4026531839) None true (fun k => if decide (k < 3)%nat then SendFails ECONNREFUSED else SentAll)).

Definition sample_process : process := Process sample_state new_writer [] [] [].

Definition sample_qos : QoS := MkQoS 10 false Reliable Volatile (0, 0) (0, 0) false (0, 0) false.

Definition sample_set_up : process * option Z :=
  @init_publisher length_hash sample_context (sample_user 100) "/chatter" "/talker" "std_msgs/msg/String" sample_qos Default
    [Wrote 4; Interrupted; Wrote 90] sample_process.

(** Process 100 announces and registers a publisher, whose line is written in two parts, and asks for a bridge,
    which the manager's socket takes at the fourth attempt. *)
Lemma publisher_set_up_witness :
  (exists id, sample_set_up.2 = Some id) /\
  lookup_type (to_chars "/chatter") (to_chars "pub") (to_chars "/talker")
    (ingest_file 100 (registry_file sample_set_up.1) ∅) = Some (100, to_chars "std_msgs/msg/String") /\
  received <$> bridge_requests sample_set_up.1 = [Some (PubSubMsg "std_msgs/msg/String" "/chatter" 0 AGNOCAST_TO_ROS2)].
Proof.
  split; [eexists; vm_compute; reflexivity|].
  destruct (@publisher_set_up length_hash sample_context (sample_user 100) sample_pools 1073741824 sample_state_pools_wf
    eq_refl [] "/chatter" "/talker" "std_msgs/msg/String" sample_qos Default [Wrote 4; Interrupted; Wrote 90]
    sample_process sample_set_up.1 0) as (_ & H & _ & requests & Hreq & Hmade & _).
  - apply sample_state_reachable.
  - discriminate.
  - split; [reflexivity|constructor| |vm_compute; reflexivity..].
    split; [repeat constructor..|left; reflexivity].
  - vm_compute. reflexivity.
  - split; [exact H|]. rewrite Hreq. apply Hmade. split; [reflexivity|]. split; [vm_compute; reflexivity|].
    exists 4026531839. split; [reflexivity|]. split; [reflexivity|]. split; [apply Nat.leb_le; vm_compute; reflexivity|].
    exists 3%nat. split; [lia|]. split; [reflexivity|]. intros [|[|[|j]]] Hj; [eexists; split; [reflexivity|discriminate]..|lia].
Defined.

(** ** Counts *)

Definition number_of {A} (f : A -> bool) (l : list A) : nat := length (filter (fun x => f x = true) l).

Lemma number_of_cons {A} (f : A -> bool) x l : number_of f (x :: l) = ((if f x then 1 else 0) + number_of f l)%nat.
Proof. unfold number_of. rw filter_cons. by destruct (f x). Qed.

Lemma number_of_le {A} (f : A -> bool) l : (number_of f l <= length l)%nat.
Proof. apply length_filter. Qed.

Lemma count_if_number {A} (f : A -> bool) l : Z.of_nat (length l) < 2 ^ 32 -> count_if f l = Z.of_nat (number_of f l).
Proof. intros Hl. pose proof (number_of_le f l). apply Z.mod_small. unfold number_of in *. lia. Qed.

(** Those of [f] are as many whether they are told apart by [g] or by [h]. *)
Lemma number_of_split {A} (f g h : A -> bool) l :
  (number_of (fun x => f x && negb (g x)) l + number_of (fun x => f x && g x) l =
   number_of (fun x => f x && h x) l + number_of (fun x => f x && negb (h x)) l)%nat.
Proof. induction l as [|x l IH]; [done|]. rw !number_of_cons. destruct (f x), (g x), (h x); simpl; lia. Qed.

Lemma number_of_mono {A} (f g : A -> bool) l :
  Forall (fun x => f x = true -> g x = true) l -> (number_of f l <= number_of g l)%nat.
Proof.
  intros Hl. induction Hl as [|x l Hx _ IH]; [done|]. rw !number_of_cons.
  destruct (f x); [rw Hx; [lia|done]|]. destruct (g x); lia.
Qed.

Lemma existsb_number {A} (f : A -> bool) l : existsb f l = (0 <? number_of f l)%nat.
Proof. induction l as [|x l IH]; [done|]. rw number_of_cons. simpl. rw IH. by destruct (f x). Qed.

(** What [get_subscription_count] answers, where there is one bridge at most on the topic in the domain, in a process of
    its own: the subscribers of the domain that are not bridges, of whichever process, and the ROS 2 subscribers without
    the one that a bridge in the other direction is. *)
Theorem subscription_count_without_bridges `{KernelHash} size pool0 e k name pid w t :
  pool_wf pool0 -> kernel_reachable size pool0 k ->
  find_topic_for_current e k name = Some w -> topics k !! topic w = Some t ->
  let here s := sub_domain_id s =? wrapper_domain_id w in
  Forall (fun s => here s && sub_is_bridge s = true -> sub_pid s <> pid) (sub_info_htable t) ->
  (number_of (fun s => here s && sub_is_bridge s) (sub_info_htable t) <= 1)%nat ->
  get_subscription_count_core (agnocast_ioctl_get_subscriber_num e k name pid) =
  Some (u32 (Z.of_nat (number_of (fun s => here s && negb (sub_is_bridge s)) (sub_info_htable t)) +
    without_bridge (existsb pub_is_bridge (pub_info_htable t)) (ros2_subscriber_num t))).
Proof.
  intros Hp Hr Hw Ht here Hpid Hone. pose proof (kernel_reachable_kinv _ _ _ Hp Hr) as Hk.
  pose proof (wf_sub_count _ (ho_wf _ _ _ _ _ (tv_heap _ _ _ _ (ki_topics _ _ Hk) _ _ Ht))) as Hc.
  unfold agnocast_get_size_sub_info_htable, MAX_SUBSCRIBER_NUM, MAX_TOPIC_LOCAL_ID, MAX_PUBLISHER_NUM in Hc.
  unfold agnocast_ioctl_get_subscriber_num. rw Hw Ht. cbv zeta. fold here. unfold get_subscription_count_core.
  cbn [sub_ret_a2r_bridge_exist sub_ret_r2a_bridge_exist ret_other_process_subscriber_num ret_same_process_subscriber_num ret_ros2_subscriber_num].
  rw !count_if_number; [|lia..]. rw existsb_number.
  pose proof (number_of_split here (fun s => sub_pid s =? pid) sub_is_bridge (sub_info_htable t)) as Hs. cbv beta in Hs.
  pose proof (number_of_le (fun s => here s && negb (sub_is_bridge s)) (sub_info_htable t)).
  assert (number_of (fun s => here s && sub_is_bridge s) (sub_info_htable t) <=
    number_of (fun s => here s && negb (sub_pid s =? pid)%Z) (sub_info_htable t))%nat as Hle.
  { apply number_of_mono. eapply Forall_impl; [exact Hpid|]. intros s Hn Hb.
    apply andb_true_intro. split; [by apply andb_prop in Hb as [? _]|]. by apply negb_true_iff, Z.eqb_neq, Hn. }
  do 2 f_equal. apply Z.add_cancel_r. unfold without_bridge, here in *. clear Hpid.
  set (a := number_of (fun s => (sub_domain_id s =? wrapper_domain_id w) && negb (sub_pid s =? pid)) _) in *.
  set (b := number_of (fun s => (sub_domain_id s =? wrapper_domain_id w) && (sub_pid s =? pid)) _) in *.
  set (d := number_of (fun s => (sub_domain_id s =? wrapper_domain_id w) && sub_is_bridge s) _) in *.
  set (m := number_of _ _) in *. clearbody a b d m.
  unfold u32. destruct (Nat.ltb_spec 0 d), (Z.ltb_spec 0 (Z.of_nat a)); cbn [andb]; (rw Z.mod_small; lia).
Qed.
