(* ===== verification/BridgeManager.v ===== *)
(** * The bridge manager

    bridge/agnocast_bridge_manager.cpp, bridge/agnocast_service_bridge.cpp and the helpers of
    bridge/agnocast_bridge_utils.cpp that ask the module and ROS 2: which topics and services are
    bridged between Agnocast and ROS 2, and when a bridge is made and torn down.  The answers of the
    module, of the ROS 2 graph, of the bridge loader (plugins and [dlopen]) and of the clock are the
    fields of [answers]; the hash maps are walked in an order that is an answer too.  [None] as a
    result means that the process ends: it exits, or a graph query of rclcpp throws where nothing catches. *)

From S2P Require Import Prelude Kernel KTypes KQuery BridgeMsg.

(** ** Asking the module and ROS 2 *)

Record qos := QoS { qos_depth : Z; qos_transient_local : bool; qos_reliable : bool }.

Definition get_subscriber_qos (r : res (Z * bool * bool)) : option qos :=
  match r with
  | Ok (depth, transient_local, reliable) => Some (QoS depth transient_local reliable)
  | _ => None
  end.

(** A publisher registers no reliability; the default of [rclcpp::QoS] is reliable. *)
Definition get_publisher_qos (r : res (Z * bool)) : option qos :=
  match r with
  | Ok (depth, transient_local) => Some (QoS depth transient_local true)
  | _ => None
  end.

(** The counts without the endpoint of the bridge itself, -1 on error. *)
Definition get_agnocast_subscriber_count (r : res subscriber_num) : Z * bool :=
  match r with
  | Ok args =>
      let total_subs :=
        i32 (u32 (ret_other_process_subscriber_num args + ret_same_process_subscriber_num args)) in
      (if sub_ret_a2r_bridge_exist args && (0 <? total_subs) then total_subs - 1 else total_subs,
       sub_ret_a2r_bridge_exist args)
  | _ => (-1, false)
  end.

Definition get_agnocast_publisher_count (r : res publisher_num) : Z * bool :=
  match r with
  | Ok args =>
      let total_pubs := i32 (ret_publisher_num args) in
      (if pub_ret_r2a_bridge_exist args && (0 <? total_pubs) then total_pubs - 1 else total_pubs,
       pub_ret_r2a_bridge_exist args)
  | _ => (-1, false)
  end.

(** [has_external_ros2_publisher] and [has_external_ros2_subscriber], on the endpoints the graph lists
    for the topic, each with the name and the namespace of its node. *)
Definition has_external_ros2_endpoint (self_name self_ns : string) (endpoints : list (string * string))
    : bool :=
  existsb (fun info => negb (String.eqb info.1 self_name) || negb (String.eqb info.2 self_ns)) endpoints.

(** [DAEMON_FORCE_TTL] in nanoseconds. *)
Definition DAEMON_FORCE_TTL : Z := 5 * 10 ^ 9.
Definition daemon_force_deadline (now : Z) : Z := now + DAEMON_FORCE_TTL.
Definition is_daemon_force_active (deadline now : Z) : bool := now <? deadline.

Definition daemon_request_qos (qos_depth : Z) (transient_local reliable : bool) : qos :=
  QoS qos_depth transient_local reliable.

(** What a factory of the bridge loader does: a bridge, with a callback group that it creates or
    without one; a null entity; or an exception. *)
Inductive creation :=
  | Created (has_group : bool)
  | NullEntity
  | CreationThrew.

(** [ros2_publishers] and [ros2_subscribers]: what [get_publishers_info_by_topic] and
    [get_subscriptions_info_by_topic] list, [None] when they throw; [count_ros2]: whether [count_publishers]
    (for a bridge from ROS 2) or [count_subscribers] returns rather than throws. *)
Record answers := Answers {
  ioctl_subscriber_num : string -> res subscriber_num;
  ioctl_publisher_num : string -> res publisher_num;
  ioctl_subscriber_qos : string -> Z -> res (Z * bool * bool);
  ioctl_publisher_qos : string -> Z -> res (Z * bool);
  ros2_publishers : string -> option (list (string * string));
  ros2_subscribers : string -> option (list (string * string));
  count_ros2 : bool -> string -> bool;
  create_pubsub_bridge : bool -> string -> string -> qos -> creation;
  steady_now : string -> Z;
  topic_order : list string;
  id_order : string -> list Z
}.

(** ** State *)

Record bridge_request := BridgeRequest { rq_message_type : string; rq_direction : Z }.

Record forced_request := DaemonForcedRequest {
  fr_message_type : string;
  fr_qos : qos;
  forced_until : Z
}.

(** The calls that leave the manager. *)
Inductive call :=
  | SetRos2PublisherNum (topic : string)
  | SetRos2SubscriberNum (topic : string)
  | StopCallbackGroup (group : Z)
  | NotifyBridgeShutdown
  | CheckAndRequestBridgeShutdown.

(** The two directions of one kind of bridge; [R2A] is [ROS2_TO_AGNOCAST]. *)
Record two (A : Type) := Two { r2a : A; a2r : A }.
Arguments Two {A}.
Arguments r2a {A}.
Arguments a2r {A}.

Definition get {A} (is_r2a : bool) (x : two A) : A := if is_r2a then r2a x else a2r x.
Definition put {A} (is_r2a : bool) (a : A) (x : two A) : two A :=
  if is_r2a then Two a (a2r x) else Two (r2a x) a.

(** [active_pubsub_r2a_bridges_] and [active_pubsub_a2r_bridges_] map a topic to the callback group of
    its bridge; [exec_groups] is [weak_groups_to_nodes_] of the executor.  Callback groups and shadow
    nodes are objects, named by numbers in the order of their creation: [next_object] is the next. *)
Record pubsub_state := PubsubState {
  active_pubsub_bridges : two (gmap string (option Z));
  request_cache_ : gmap string (gmap Z bridge_request);
  daemon_forced : two (gmap string forced_request);
  exec_groups : gset Z;
  next_object : Z;
  calls : list call;
  shutdown_requested_ : bool
}.

Definition set_active (is_r2a : bool) (f : gmap string (option Z) -> gmap string (option Z))
    (s : pubsub_state) : pubsub_state :=
  PubsubState (put is_r2a (f (get is_r2a (active_pubsub_bridges s))) (active_pubsub_bridges s))
    (request_cache_ s) (daemon_forced s) (exec_groups s) (next_object s) (calls s) (shutdown_requested_ s).
Definition set_cache (c : gmap string (gmap Z bridge_request)) (s : pubsub_state) : pubsub_state :=
  PubsubState (active_pubsub_bridges s) c (daemon_forced s) (exec_groups s) (next_object s) (calls s)
    (shutdown_requested_ s).
Definition set_forced (is_r2a : bool) (f : gmap string forced_request -> gmap string forced_request)
    (s : pubsub_state) : pubsub_state :=
  PubsubState (active_pubsub_bridges s) (request_cache_ s)
    (put is_r2a (f (get is_r2a (daemon_forced s))) (daemon_forced s)) (exec_groups s) (next_object s) (calls s)
    (shutdown_requested_ s).
Definition set_groups (g : gset Z) (s : pubsub_state) : pubsub_state :=
  PubsubState (active_pubsub_bridges s) (request_cache_ s) (daemon_forced s) g (next_object s) (calls s)
    (shutdown_requested_ s).
Definition emit (c : call) (s : pubsub_state) : pubsub_state :=
  PubsubState (active_pubsub_bridges s) (request_cache_ s) (daemon_forced s) (exec_groups s)
    (next_object s) (calls s ++ [c]) (shutdown_requested_ s).
Definition request_shutdown (s : pubsub_state) : pubsub_state :=
  PubsubState (active_pubsub_bridges s) (request_cache_ s) (daemon_forced s) (exec_groups s) (next_object s) (calls s)
    true.

Definition new_object (s : pubsub_state) : Z * pubsub_state :=
  (next_object s,
   PubsubState (active_pubsub_bridges s) (request_cache_ s) (daemon_forced s) (exec_groups s)
     (next_object s + 1) (calls s) (shutdown_requested_ s)).

(** [create_callback_group], for a factory that makes one. *)
Definition new_group (has_group : bool) (s : pubsub_state) : option Z * pubsub_state :=
  if has_group then let '(g, s) := new_object s in (Some g, s) else (None, s).

Definition on_signal (s : pubsub_state) : pubsub_state := request_shutdown (emit NotifyBridgeShutdown s).

(** [CallbackIsolatedAgnocastExecutor::add_callback_group] and [remove_callback_group] for a group its
    node does not add by itself. *)
Definition add_callback_group (group : Z) (s : pubsub_state) : option pubsub_state :=
  require bool_decide (group ∉ exec_groups s) orelse None;
  Some (set_groups ({[group]} ∪ exec_groups s) s).

Definition remove_callback_group (group : Z) (s : pubsub_state) : option pubsub_state :=
  require bool_decide (group ∈ exec_groups s) orelse None;
  Some (set_groups (exec_groups s ∖ {[group]}) s).

Definition add_group (group : option Z) (s : pubsub_state) : option pubsub_state :=
  match group with Some g => add_callback_group g s | None => Some s end.

Definition remove_and_stop_group (group : option Z) (s : pubsub_state) : option pubsub_state :=
  match group with
  | Some g => emit (StopCallbackGroup g) <$> remove_callback_group g s
  | None => Some s
  end.

(** ** Topics *)

Section pubsub.
Context (self_name self_ns : string) (a : answers).

(** The other side's demand in each direction. *)
Definition agnocast_count (is_r2a : bool) (topic : string) : Z :=
  if is_r2a then (get_agnocast_subscriber_count (ioctl_subscriber_num a topic)).1
  else (get_agnocast_publisher_count (ioctl_publisher_num a topic)).1.

(** [None]: the query throws. *)
Definition is_demanded_by_ros2 (is_r2a : bool) (topic : string) : option bool :=
  has_external_ros2_endpoint self_name self_ns <$>
    (if is_r2a then ros2_publishers a topic else ros2_subscribers a topic).

Definition set_ros2_num (is_r2a : bool) (topic : string) : call :=
  if is_r2a then SetRos2PublisherNum topic else SetRos2SubscriberNum topic.

Definition is_daemon_forced (is_r2a : bool) (topic : string) (s : pubsub_state) : bool :=
  match get is_r2a (daemon_forced s) !! topic with
  | Some f => is_daemon_force_active (forced_until f) (steady_now a topic)
  | None => false
  end.

Definition is_active (is_r2a : bool) (topic : string) (s : pubsub_state) : bool :=
  bool_decide (is_Some (get is_r2a (active_pubsub_bridges s) !! topic)).

Definition should_create_pubsub_bridge (is_r2a : bool) (topic : string) (s : pubsub_state) : option bool :=
  require negb (is_active is_r2a topic s) orelse Some false;
  require 0 <? agnocast_count is_r2a topic orelse Some false;
  is_demanded_by_ros2 is_r2a topic.

(** The bridge the loader made becomes active. *)
Definition activate (is_r2a : bool) (topic : string) (group : option Z) (s : pubsub_state)
    : option pubsub_state :=
  set_active is_r2a <[topic := group]> <$> add_group group (emit (set_ros2_num is_r2a topic) s).

Definition requests_of (topic : string) (s : pubsub_state) : gmap Z bridge_request :=
  default ∅ (request_cache_ s !! topic).

Definition erase_request (topic : string) (id : Z) (s : pubsub_state) : pubsub_state :=
  set_cache (alter (delete id) topic (request_cache_ s)) s.

(** The first request of the direction.  A direction is a [uint32_t] that came in a message; all but
    [ROS2_TO_AGNOCAST] count as [AGNOCAST_TO_ROS2]. *)
Definition qos_source (direction : Z) (topic : string) (s : pubsub_state) : option Z :=
  find (fun id => match requests_of topic s !! id with
                  | Some r => rq_direction r =? direction
                  | None => false
                  end) (id_order a topic).

Definition create_pubsub_bridge_if_needed (direction : Z) (topic message_type : string)
    (s : pubsub_state) : option pubsub_state :=
  let is_r2a := direction =? ROS2_TO_AGNOCAST in
  unwrap should_create := should_create_pubsub_bridge is_r2a topic s orelse None;
  require should_create orelse Some s;
  match qos_source direction topic s with
  | None => Some s
  | Some qos_source_id =>
      require negb (qos_source_id =? -1) orelse Some s;
      let qos := if is_r2a then get_subscriber_qos (ioctl_subscriber_qos a topic qos_source_id)
                 else get_publisher_qos (ioctl_publisher_qos a topic qos_source_id) in
      match qos with
      | None => Some (erase_request topic qos_source_id s)
      | Some q =>
          match create_pubsub_bridge a is_r2a topic message_type q with
          | CreationThrew => Some (erase_request topic qos_source_id s)
          | NullEntity => Some s
          | Created has_group =>
              let '(group, s) := new_group has_group s in
              require count_ros2 a is_r2a topic orelse Some (erase_request topic qos_source_id s);
              activate is_r2a topic group s
          end
      end
  end.

(** A loop over a table, one body for each key in the order of the table. *)
Fixpoint for_each (body : string -> pubsub_state -> option pubsub_state) (keys : list string)
    (s : pubsub_state) : option pubsub_state :=
  match keys with
  | [] => Some s
  | k :: keys => unwrap s := body k s orelse None; for_each body keys s
  end.

(** The message type of [requests.begin()]. *)
Definition first_request (topic : string) (s : pubsub_state) : option bridge_request :=
  head (omap (fun id => requests_of topic s !! id) (id_order a topic)).

Definition erase_if_empty (topic : string) (s : pubsub_state) : pubsub_state :=
  if bool_decide (requests_of topic s = ∅) then set_cache (delete topic (request_cache_ s)) s else s.

Definition check_and_create_topic (topic : string) (s : pubsub_state) : option pubsub_state :=
  require bool_decide (is_Some (request_cache_ s !! topic)) orelse Some s;
  match first_request topic s with
  | None => Some (erase_if_empty topic s)
  | Some r =>
      unwrap s := create_pubsub_bridge_if_needed ROS2_TO_AGNOCAST topic (rq_message_type r) s orelse None;
      unwrap s := create_pubsub_bridge_if_needed AGNOCAST_TO_ROS2 topic (rq_message_type r) s orelse None;
      Some (erase_if_empty topic s)
  end.

Definition check_and_create_pubsub_bridges (s : pubsub_state) : option pubsub_state :=
  for_each check_and_create_topic (topic_order a) s.

Definition activate_daemon_forced_bridge (is_r2a : bool) (topic message_type : string) (q : qos)
    (s : pubsub_state) : option pubsub_state :=
  match create_pubsub_bridge a is_r2a topic message_type q with
  | Created has_group =>
      let '(group, s) := new_group has_group s in
      require count_ros2 a is_r2a topic orelse Some s;
      activate is_r2a topic group s
  | NullEntity | CreationThrew => Some s
  end.

Definition create_daemon_forced_topic (is_r2a : bool) (topic : string) (s : pubsub_state)
    : option pubsub_state :=
  match get is_r2a (daemon_forced s) !! topic with
  | None => Some s
  | Some f =>
      if forced_until f <=? steady_now a topic then Some (set_forced is_r2a (delete topic) s)
      else if negb (is_active is_r2a topic s) && (0 <? agnocast_count is_r2a topic) then
        activate_daemon_forced_bridge is_r2a topic (fr_message_type f) (fr_qos f) s
      else Some s
  end.

Definition create_daemon_forced_bridges (s : pubsub_state) : option pubsub_state :=
  unwrap s := for_each (create_daemon_forced_topic true) (topic_order a) s orelse None;
  for_each (create_daemon_forced_topic false) (topic_order a) s.

(** One bridge of [check_and_remove_pubsub_bridges]; the flag tells whether the function returns.  The graph is asked
    outside any [try]. *)
Definition check_and_remove_topic (is_r2a : bool) (topic : string) (s : pubsub_state)
    : option (pubsub_state * bool) :=
  match get is_r2a (active_pubsub_bridges s) !! topic with
  | None => Some (s, false)
  | Some group =>
      let count := agnocast_count is_r2a topic in
      unwrap is_demanded := is_demanded_by_ros2 is_r2a topic orelse None;
      if count =? -1 then Some (request_shutdown (emit NotifyBridgeShutdown s), true)
      else
        let keep_forced := is_daemon_forced is_r2a topic s in
        if (count <=? 0) || (negb is_demanded && negb keep_forced) then
          unwrap s := remove_and_stop_group group s orelse None;
          Some (set_active is_r2a (delete topic) s, false)
        else
          require count_ros2 a is_r2a topic orelse None;
          Some (emit (set_ros2_num is_r2a topic) s, false)
  end.

Fixpoint check_and_remove_loop (is_r2a : bool) (keys : list string) (s : pubsub_state)
    : option (pubsub_state * bool) :=
  match keys with
  | [] => Some (s, false)
  | k :: keys =>
      match check_and_remove_topic is_r2a k s with
      | None => None
      | Some (s, true) => Some (s, true)
      | Some (s, false) => check_and_remove_loop is_r2a keys s
      end
  end.

Definition check_and_remove_pubsub_bridges (s : pubsub_state) : option pubsub_state :=
  match check_and_remove_loop true (topic_order a) s with
  | None => None
  | Some (s, true) => Some s
  | Some (s, false) => fst <$> check_and_remove_loop false (topic_order a) s
  end.

(** A request whose endpoint is gone has no QoS any more. *)
Definition request_valid (topic : string) (id : Z) (r : bridge_request) : bool :=
  if rq_direction r =? ROS2_TO_AGNOCAST then bool_decide (is_Some (get_subscriber_qos (ioctl_subscriber_qos a topic id)))
  else bool_decide (is_Some (get_publisher_qos (ioctl_publisher_qos a topic id))).

Definition remove_invalid_requests (topic : string) (requests : gmap Z bridge_request)
    : gmap Z bridge_request :=
  filter (fun ir => request_valid topic ir.1 ir.2 = true) requests.

Definition check_and_remove_request_cache (s : pubsub_state) : pubsub_state :=
  set_cache (filter (fun tr => tr.2 <> ∅)
    (map_imap (fun topic requests => Some (remove_invalid_requests topic requests)) (request_cache_ s)))
    s.

(** [ret_should_shutdown] of the ioctl, [None] on failure. *)
Definition check_and_request_shutdown (ret : option bool) (s : pubsub_state) : pubsub_state :=
  let s := emit CheckAndRequestBridgeShutdown s in
  match ret with Some true => request_shutdown s | _ => s end.

(** A registration of a topic's endpoint. *)
Definition dispatch_pubsub (message_type topic : string) (target_id direction : Z) (s : pubsub_state)
    : option pubsub_state :=
  let requests := <[target_id := BridgeRequest message_type direction]> (requests_of topic s) in
  create_pubsub_bridge_if_needed direction topic message_type
    (set_cache (<[topic := requests]> (request_cache_ s)) s).

Definition register_daemon_pubsub_request (topic message_type : string) (direction qos_depth : Z)
    (transient_local reliable : bool) (s : pubsub_state) : pubsub_state :=
  set_forced (direction =? ROS2_TO_AGNOCAST)
    <[topic := DaemonForcedRequest message_type (daemon_request_qos qos_depth transient_local reliable)
                 (daemon_force_deadline (steady_now a topic))]> s.
End pubsub.

(** ** Services *)

Inductive ServiceBridgeState := NONE | PENDING | A2R | R2A.

#[export] Instance service_bridge_state_eq_dec : EqDecision ServiceBridgeState.
Proof. solve_decision. Defined.

Inductive service_creation :=
  | ServiceCreated (has_srv_cb_group has_client_cb_group : bool)
  | ServiceNullEntity
  | ServiceCreationThrew.

(** Answers for one maintenance tick of one service; what is asked at two places of a tick has the
    number of the place.  [ros2_service_exists] and [ros2_client_exists] are false when asking
    throws. *)
Record service_answers := ServiceAnswers {
  ros2_service_exists : bool;
  ros2_client_exists : bool;
  ioctl_service_info : nat -> res (list topic_info_ret);
  ioctl_client_num : nat -> res publisher_num;
  create_service_bridge : bool -> string -> string -> qos -> service_creation;
  rcl_node_init : bool;
  service_now : Z
}.

(** [ServiceBridgeItem].  [entity_groups] and [shadow_node_] are the callback groups of the entity and
    the node the item keeps alive. *)
Record service_item := ServiceBridgeItem {
  state_ : ServiceBridgeState;
  entity_groups : option Z * option Z;
  shadow_node_ : option Z;
  r2a_forced_until_ : option Z;
  service_name_ : string;
  service_type_ : option string;
  shadow_node_identity_ : option (string * string);
  may_start_r2a_bridge_ : bool;
  may_start_a2r_bridge_ : bool
}.

Definition new_service_item : service_item :=
  ServiceBridgeItem NONE (None, None) None None EmptyString None None false false.

Definition set_state (st : ServiceBridgeState) (groups : option Z * option Z) (i : service_item)
    : service_item :=
  ServiceBridgeItem st groups (shadow_node_ i) (r2a_forced_until_ i) (service_name_ i)
    (service_type_ i) (shadow_node_identity_ i) (may_start_r2a_bridge_ i) (may_start_a2r_bridge_ i).
Definition set_shadow_node (n : option Z) (i : service_item) : service_item :=
  ServiceBridgeItem (state_ i) (entity_groups i) n (r2a_forced_until_ i) (service_name_ i)
    (service_type_ i) (shadow_node_identity_ i) (may_start_r2a_bridge_ i) (may_start_a2r_bridge_ i).

Definition update_configuration (service_name service_type : string)
    (shadow : option (string * string)) (direction : Z) (i : service_item) : service_item :=
  ServiceBridgeItem (state_ i) (entity_groups i) (shadow_node_ i) (r2a_forced_until_ i)
    (if String.eqb (service_name_ i) EmptyString then service_name else service_name_ i)
    (if service_type_ i is Some t then Some t else Some service_type)
    (if shadow_node_identity_ i is Some d then Some d else shadow)
    (may_start_r2a_bridge_ i || (direction =? ROS2_TO_AGNOCAST))
    (may_start_a2r_bridge_ i || negb (direction =? ROS2_TO_AGNOCAST)).

Definition handle_request (service_name service_type : string) (shadow : option (string * string))
    (direction : Z) (i : service_item) : service_item :=
  let i := update_configuration service_name service_type shadow direction i in
  if decide (state_ i = NONE) then set_state PENDING (entity_groups i) i else i.

Definition handle_daemon_request (now : Z) (i : service_item) : service_item :=
  ServiceBridgeItem (state_ i) (entity_groups i) (shadow_node_ i) (Some (daemon_force_deadline now))
    (service_name_ i) (service_type_ i) (shadow_node_identity_ i) (may_start_r2a_bridge_ i)
    (may_start_a2r_bridge_ i).

(** [get_agno_service_qos], on what GET_TOPIC_SUBSCRIBER_INFO answers for the request topic into a
    buffer of one entry. *)
Definition get_agno_service_qos (r : res (list topic_info_ret)) : option qos :=
  match r with
  | Ok (info :: _) => Some (QoS (ti_qos_depth info) false (ti_is_reliable info))
  | _ => None
  end.

Section service.
Context (b : service_answers).

Definition r2a_forced (i : service_item) : bool :=
  match r2a_forced_until_ i with
  | Some deadline => is_daemon_force_active deadline (service_now b)
  | None => false
  end.

Definition agno_service_exists (n : nat) : bool :=
  bool_decide (is_Some (get_agno_service_qos (ioctl_service_info b n))).

Definition agno_client_exists (n : nat) : bool :=
  let count := (get_agnocast_publisher_count (ioctl_client_num b n)).1 in
  negb (count =? -1) && negb (count =? 0).

(** [g_shadow_nodes]: the node of each identity; [alive] tells whether an item keeps a node. *)
Definition shadow_nodes : Type := gmap (string * string) Z.

Definition create_shadow_node (identity : string * string) (g : shadow_nodes) (s : pubsub_state)
    : shadow_nodes * pubsub_state * option Z :=
  require rcl_node_init b orelse (g, s, None);
  let '(n, s) := new_object s in (<[identity := n]> g, s, Some n).

Definition find_or_create_shadow_node (alive : Z -> bool) (identity : string * string)
    (g : shadow_nodes) (s : pubsub_state) : shadow_nodes * pubsub_state * option Z :=
  match g !! identity with
  | Some n => if alive n then (g, s, Some n) else create_shadow_node identity g s
  | None => create_shadow_node identity g s
  end.

Definition acquire_shadow_node (alive : Z -> bool) (g : shadow_nodes) (i : service_item)
    (s : pubsub_state) : shadow_nodes * service_item * pubsub_state * bool :=
  match shadow_node_identity_ i, shadow_node_ i with
  | Some identity, None =>
      let '(g, s, n) := find_or_create_shadow_node alive identity g s in
      (g, set_shadow_node n i, s, if n is Some _ then true else false)
  | _, _ => (g, i, s, true)
  end.

(** [alive] is about the other items. *)
Definition release_shadow_node (alive : Z -> bool) (g : shadow_nodes) (i : service_item)
    : shadow_nodes * service_item :=
  match shadow_node_ i, shadow_node_identity_ i with
  | Some _, Some identity =>
      (match g !! identity with
       | Some n => if alive n then g else delete identity g
       | None => g
       end, set_shadow_node None i)
  | _, _ => (g, i)
  end.

Definition add_groups (groups : option Z * option Z) (s : pubsub_state) : option pubsub_state :=
  unwrap s := add_group groups.1 s orelse None; add_group groups.2 s.
Definition remove_and_stop_groups (groups : option Z * option Z) (s : pubsub_state)
    : option pubsub_state :=
  unwrap s := remove_and_stop_group groups.1 s orelse None; remove_and_stop_group groups.2 s.

(** The end of [start_r2a_bridge] and [start_a2r_bridge], with the QoS of the service; the flag tells
    whether the bridge started. *)
Definition start_bridge (is_r2a : bool) (q : qos) (i : service_item) (s : pubsub_state)
    : option (service_item * pubsub_state * bool) :=
  match service_type_ i with
  | None => Some (i, s, false)
  | Some type =>
      match create_service_bridge b is_r2a (service_name_ i) type q with
      | ServiceCreated has_srv has_client =>
          let '(srv, s) := new_group has_srv s in
          let '(client, s) := new_group has_client s in
          unwrap s := add_groups (srv, client) s orelse None;
          Some (set_state (if is_r2a then R2A else A2R) (srv, client) i, s, true)
      | _ => Some (i, s, false)
      end
  end.

(** [rclcpp::ServicesQoS]: keep last 10, reliable, volatile. *)
Definition ServicesQoS : qos := QoS 10 false true.

Definition start_r2a_bridge (i : service_item) (s : pubsub_state)
    : option (service_item * pubsub_state * bool) :=
  match get_agno_service_qos (ioctl_service_info b 1) with
  | None => Some (i, s, false)
  | Some q => start_bridge true q i s
  end.

Definition start_a2r_bridge (i : service_item) (s : pubsub_state)
    : option (service_item * pubsub_state * bool) :=
  start_bridge false ServicesQoS i s.

Definition check_and_update_r2a (i : service_item) (s : pubsub_state)
    : option (service_item * pubsub_state) :=
  require negb (agno_service_exists 0 && (ros2_client_exists b || r2a_forced i)) orelse Some (i, s);
  unwrap s := remove_and_stop_groups (entity_groups i) s orelse None;
  Some (set_state PENDING (None, None) i, s).

Definition check_and_update_a2r (i : service_item) (s : pubsub_state)
    : option (service_item * pubsub_state) :=
  require negb (negb (may_start_r2a_bridge_ i && agno_service_exists 0) &&
                (ros2_service_exists b && agno_client_exists 0)) orelse Some (i, s);
  unwrap s := remove_and_stop_groups (entity_groups i) s orelse None;
  Some (set_state PENDING (None, None) i, s).

Definition check_and_update_pending (alive : Z -> bool) (g : shadow_nodes) (i : service_item)
    (s : pubsub_state) : option (shadow_nodes * service_item * pubsub_state) :=
  if may_start_r2a_bridge_ i && agno_service_exists 0 then
    let '(g, i, s, acquired) := acquire_shadow_node alive g i s in
    require acquired orelse Some (g, i, s);
    require ros2_client_exists b || r2a_forced i orelse Some (g, i, s);
    unwrap r := start_r2a_bridge i s orelse None;
    Some (g, r.1.1, r.1.2)
  else
    let '(g, i) := release_shadow_node alive g i in
    if may_start_a2r_bridge_ i && ros2_service_exists b && agno_client_exists 0 then
      unwrap r := start_a2r_bridge i s orelse None;
      Some (g, r.1.1, r.1.2)
    else if negb (agno_client_exists 1) then Some (g, set_state NONE (entity_groups i) i, s)
    else Some (g, i, s).

Definition check_and_update (alive : Z -> bool) (g : shadow_nodes) (i : service_item)
    (s : pubsub_state) : option (shadow_nodes * service_item * pubsub_state) :=
  match state_ i with
  | PENDING => check_and_update_pending alive g i s
  | R2A => unwrap r := check_and_update_r2a i s orelse None; Some (g, r.1, r.2)
  | A2R => unwrap r := check_and_update_a2r i s orelse None; Some (g, r.1, r.2)
  | NONE => Some (g, i, s)
  end.
End service.

(** ** The manager *)

Record manager := Manager {
  pubsub : pubsub_state;
  active_service_bridges_ : gmap string service_item;
  g_shadow_nodes : shadow_nodes
}.

Definition set_pubsub (s : pubsub_state) (m : manager) : manager :=
  Manager s (active_service_bridges_ m) (g_shadow_nodes m).

Definition new_manager : manager :=
  Manager (PubsubState (Two ∅ ∅) ∅ (Two ∅ ∅) ∅ 0 [] false) ∅ ∅.

(** An item other than the one of [name] keeps the node. *)
Definition kept_by_others (name : string) (items : gmap string service_item) (n : Z) : bool :=
  existsb (fun ki => negb (String.eqb ki.1 name) && bool_decide (shadow_node_ ki.2 = Some n))
    (map_to_list items).

Section manager.
Context (self_name self_ns : string).

Definition dispatch_bridge_message (a : answers) (now : Z) (msg : bridge_msg) (m : manager)
    : option manager :=
  match msg with
  | ServiceMsg service_type service_name shadow direction =>
      let item := default new_service_item (active_service_bridges_ m !! service_name) in
      Some (Manager (pubsub m)
              (<[service_name := handle_request service_name service_type shadow direction item]>
                 (active_service_bridges_ m)) (g_shadow_nodes m))
  | PubSubMsg message_type topic_name target_id direction =>
      unwrap s := dispatch_pubsub self_name self_ns a message_type topic_name target_id direction
                    (pubsub m) orelse None;
      Some (set_pubsub s m)
  | DaemonPubSubMsg topic_name type_name direction depth transient_local reliable =>
      Some (set_pubsub (register_daemon_pubsub_request a topic_name type_name direction depth
                          transient_local reliable (pubsub m)) m)
  | DaemonServiceMsg service_name =>
      Some (Manager (pubsub m) (alter (handle_daemon_request now) service_name (active_service_bridges_ m))
              (g_shadow_nodes m))
  end.

Definition check_and_update_service (b : service_answers) (name : string) (m : manager)
    : option manager :=
  match active_service_bridges_ m !! name with
  | None => Some m
  | Some i =>
      unwrap r := check_and_update b (kept_by_others name (active_service_bridges_ m))
                    (g_shadow_nodes m) i (pubsub m) orelse None;
      let '(g, i, s) := r in
      Some (Manager s
              (if decide (state_ i = NONE) then delete name (active_service_bridges_ m)
               else <[name := i]> (active_service_bridges_ m)) g)
  end.

Fixpoint check_and_update_services (bs : string -> service_answers) (order : list string)
    (m : manager) : option manager :=
  match order with
  | [] => Some m
  | name :: order =>
      unwrap m := check_and_update_service (bs name) name m orelse None;
      check_and_update_services bs order m
  end.

(** [names]: whether [get_node_names] returns rather than throws, in [collect_external_ros2_client_service_names] with
    rclcpp before version 28; later versions do not ask. *)
Definition check_and_update_service_bridges (names : bool) (bs : string -> service_answers) (order : list string)
    (m : manager) : option manager :=
  require names orelse None;
  check_and_update_services bs order m.

Fixpoint dispatch_batch (batch : list (answers * Z * bridge_msg)) (m : manager) : option manager :=
  match batch with
  | [] => Some m
  | (a, now, msg) :: batch =>
      if shutdown_requested_ (pubsub m) then Some m
      else unwrap m := dispatch_bridge_message a now msg m orelse None; dispatch_batch batch m
  end.

(** What one turn of [worker_loop] meets: the batch of messages, the answers for each step, and
    whether another thread requests the shutdown before each of the four tests. *)
Record turn := Turn {
  t_batch : list (answers * Z * bridge_msg);
  t_create : answers;
  t_forced : answers;
  t_remove : answers;
  t_node_names : bool;
  t_services : string -> service_answers;
  t_service_order : list string;
  t_cache : answers;
  t_should_shutdown : option bool;
  t_signalled : nat -> bool
}.

Definition lift (f : pubsub_state -> option pubsub_state) (m : manager) : option manager :=
  unwrap s := f (pubsub m) orelse None; Some (set_pubsub s m).

(** The test between two steps; [k] is the rest of the turn. *)
Definition unless_shutting_down (signalled : bool) (k : manager -> option manager) (m : manager)
    : option manager :=
  let m := if signalled then set_pubsub (request_shutdown (pubsub m)) m else m in
  if shutdown_requested_ (pubsub m) then Some m else k m.

Definition worker_turn (t : turn) (m : manager) : option manager :=
  unless_shutting_down (t_signalled t 0) (fun m =>
    unwrap m := dispatch_batch (t_batch t) m orelse None;
    unless_shutting_down (t_signalled t 1) (fun m =>
      unwrap m := lift (check_and_create_pubsub_bridges self_name self_ns (t_create t)) m orelse None;
      unless_shutting_down (t_signalled t 2) (fun m =>
        unwrap m := lift (create_daemon_forced_bridges (t_forced t)) m orelse None;
        unwrap m := lift (check_and_remove_pubsub_bridges self_name self_ns (t_remove t)) m orelse None;
        unless_shutting_down (t_signalled t 3) (fun m =>
          unwrap m := check_and_update_service_bridges (t_node_names t) (t_services t) (t_service_order t) m orelse None;
          let s := check_and_remove_request_cache (t_cache t) (pubsub m) in
          Some (set_pubsub (check_and_request_shutdown (t_should_shutdown t) s) m)) m) m) m) m.

(** [worker_loop] over a sequence of turns. *)
Fixpoint worker_loop (turns : list turn) (m : manager) : option manager :=
  match turns with
  | [] => Some m
  | t :: turns =>
      require negb (shutdown_requested_ (pubsub m)) orelse Some m;
      unwrap m := worker_turn t m orelse None;
      worker_loop turns m
  end.
End manager.
