(* ===== verification/BridgeTheorems.v ===== *)
(** * What the bridge manager guarantees

    Over any run of [BridgeManager.worker_turn], with any messages, answers and moments of shutdown:
    the manager's use of its executor never ends the process, shadow nodes are shared and released,
    topics are bridged as their two sides demand, and the bridge of a service follows the state
    diagram of bridge/agnocast_service_bridge.hpp. *)

From S2P Require Import Prelude Kernel KTypes KQuery BridgeMsg BridgeManager.

(** ** Callback groups and their bridges *)

(** What has a callback group: the bridge of a topic in one direction, or one of the two sides of the
    bridge of a service. *)
Inductive owner :=
  | OwnTopic (is_r2a : bool) (topic : string)
  | OwnService (srv : bool) (name : string).

#[export] Instance owner_eq_dec : EqDecision owner.
Proof. solve_decision. Defined.

Definition item_group (srv : bool) (i : service_item) : option Z :=
  if srv then (entity_groups i).1 else (entity_groups i).2.

Definition group_of (s : pubsub_state) (items : gmap string service_item) (o : owner) : option Z :=
  match o with
  | OwnTopic is_r2a topic => mjoin (get is_r2a (active_pubsub_bridges s) !! topic)
  | OwnService srv name => items !! name ≫= item_group srv
  end.

(** The executor has the groups of the bridges, each of one bridge. *)
Record owned (f : owner -> option Z) (groups : gset Z) (next : Z) : Prop := {
  ow_inj : forall o1 o2 g, f o1 = Some g -> f o2 = Some g -> o1 = o2;
  ow_in : forall g, g ∈ groups <-> exists o, f o = Some g;
  ow_old : forall o g, f o = Some g -> g < next
}.

Definition groups_ok (items : gmap string service_item) (s : pubsub_state) : Prop :=
  owned (group_of s items) (exec_groups s) (next_object s).

Lemma owned_next f groups n n' : n <= n' -> owned f groups n -> owned f groups n'.
Proof. intros Hn [H1 H2 H3]. split; [done|done|]. intros o g Ho. specialize (H3 o g Ho). lia. Qed.

Lemma owned_ext f f' groups n : (forall o, f' o = f o) -> owned f groups n -> owned f' groups n.
Proof.
  intros He [H1 H2 H3]. split.
  - intros o1 o2 g. rw !He. apply H1.
  - intros g. rw H2. split; intros [o Ho]; exists o; [by rw He|by rw -He].
  - intros o g. rw He. apply H3.
Qed.

Lemma owned_add f f' groups n o :
  owned f groups n -> f' o = Some n -> (forall o', o' <> o -> f' o' = f o') -> f o = None ->
  (n ∉ groups) /\ owned f' ({[n]} ∪ groups) (n + 1).
Proof.
  intros [H1 H2 H3] Ho Hne Hno.
  assert (n ∉ groups) as Hn. { rw H2. intros [o' Ho']. specialize (H3 o' n Ho'). lia. }
  split; [done|].
  assert (forall o' g, f' o' = Some g -> (o' = o /\ g = n) \/ f o' = Some g /\ o' <> o) as Hcases.
  { intros o' g Hg. destruct (decide (o' = o)) as [-> |Hoo]; [left; split; congruence|right].
    by rw -Hne. }
  split.
  - intros o1 o2 g Ha Hb.
    destruct (Hcases _ _ Ha) as [[-> ->]|[Hfa _]], (Hcases _ _ Hb) as [[-> Hx]|[Hfb _]];
      [done|specialize (H3 _ _ Hfb); lia|specialize (H3 _ _ Hfa); lia|by eapply H1].
  - intros g. rw elem_of_union elem_of_singleton H2. split.
    + intros [-> |[o' Ho']]; [by exists o|]. exists o'. rw Hne; [done|]. congruence.
    + intros [o' Ho']. destruct (Hcases _ _ Ho') as [[_ ->]|[Hf _]]; [by left|right; by exists o'].
  - intros o' g Hg. destruct (Hcases _ _ Hg) as [[_ ->]|[Hf _]]; [lia|]. specialize (H3 _ _ Hf). lia.
Qed.

Lemma owned_remove f f' groups n o g :
  owned f groups n -> f o = Some g -> f' o = None -> (forall o', o' <> o -> f' o' = f o') ->
  g ∈ groups /\ owned f' (groups ∖ {[g]}) n.
Proof.
  intros [H1 H2 H3] Ho Hno Hne. split; [apply H2; by exists o|].
  assert (forall o' g', f' o' = Some g' -> f o' = Some g' /\ o' <> o) as Hcases.
  { intros o' g' Hg. assert (o' <> o) as Hoo by (intros ->; congruence). by rw -Hne. }
  split.
  - intros o1 o2 g' [Ha _]%Hcases [Hb _]%Hcases. by eapply H1.
  - intros g'. rw elem_of_difference elem_of_singleton H2. split.
    + intros [[o' Ho'] Hg]. exists o'. rw Hne; [done|]. congruence.
    + intros [o' Ho']. destruct (Hcases _ _ Ho') as [Hf Hoo]. split; [by exists o'|].
      intros ->. by eapply Hoo, H1.
  - intros o' g' [Hf _]%Hcases. by eapply H3.
Qed.

Lemma owned_clear f f' groups n o :
  owned f groups n -> f o = None -> (forall o', f' o' = if decide (o' = o) then None else f o') ->
  owned f' groups n.
Proof.
  intros Ho Hno He. eapply owned_ext; [|exact Ho]. intros o'. rw He. by case_decide; subst.
Qed.

(** ** The executor of the manager *)

Lemma get_put {A} d d' (x : two A) v : get d (put d' v x) = if decide (d = d') then v else get d x.
Proof. by destruct d, d', x. Qed.

Lemma group_of_active items s d f o :
  group_of (set_active d f s) items o =
  match o with
  | OwnTopic d' topic => if decide (d' = d) then mjoin (f (get d (active_pubsub_bridges s)) !! topic)
                         else group_of s items o
  | _ => group_of s items o
  end.
Proof.
  destruct o as [d' topic|srv name]; [|done]. simpl. rw get_put. by case_decide; subst.
Qed.

(** The graph queries of rclcpp return rather than throw: those for the endpoints of a topic, and the counts. *)
Definition graph_endpoints (a : answers) : Prop :=
  forall topic, is_Some (ros2_publishers a topic) /\ is_Some (ros2_subscribers a topic).
Definition graph_counts (a : answers) : Prop := forall is_r2a topic, count_ros2 a is_r2a topic = true.

Section groups.
Context (items : gmap string service_item) (low : Z).

(** The groups are right, and no object was made before [low]. *)
Definition topics_ok (s : pubsub_state) : Prop := groups_ok items s /\ low <= next_object s.

(** An operation that always returns, and keeps the groups right. *)
Definition returns (r : option pubsub_state) : Prop := exists s, r = Some s /\ topics_ok s.

Lemma groups_emit c s : topics_ok s -> topics_ok (emit c s).
Proof. done. Qed.

Lemma activate_ok d topic has s :
  topics_ok s -> get d (active_pubsub_bridges s) !! topic = None ->
  returns (let '(group, s) := new_group has s in activate d topic group s).
Proof.
  intros [Hok Hlow] Hno. unfold new_group, activate. destruct has; simpl.
  - unfold add_callback_group. simpl.
    destruct (owned_add (group_of s items) (group_of (set_active d <[topic := Some (next_object s)]> s)
      items) (exec_groups s) (next_object s) (OwnTopic d topic)) as [Hn Hok'].
    + done.
    + rw group_of_active decide_True // lookup_insert_eq. done.
    + intros o Ho. rw group_of_active. destruct o as [d' t|]; [|done]. case_decide; [|done]. subst d'.
      rw lookup_insert_ne; [done|]. by intros ->.
    + simpl. by rw Hno.
    + rw bool_decide_true //. eexists. split; [reflexivity|]. split; [exact Hok'|simpl; lia].
  - eexists. split; [reflexivity|]. split; [|exact Hlow].
    eapply (owned_clear (group_of s items) _ _ _ (OwnTopic d topic));
      [exact Hok|simpl; by rw Hno|].
    intros o. change (set_active d <[topic := None]> (emit (set_ros2_num d topic) s))
      with (emit (set_ros2_num d topic) (set_active d <[topic := None]> s)).
    change (group_of (emit (set_ros2_num d topic) (set_active d <[topic := None]> s)) items o)
      with (group_of (set_active d <[topic := None]> s) items o).
    rw group_of_active. destruct o as [d' t|]; [|by case_decide].
    destruct (decide (d' = d)) as [-> |Hd].
    + destruct (decide (t = topic)) as [-> |Ht]; [by rw lookup_insert_eq decide_True|].
      rw lookup_insert_ne; [|done]. case_decide; [congruence|done].
    + case_decide; [congruence|done].
Qed.

Lemma group_of_delete d topic s o :
  group_of (set_active d (delete topic) s) items o =
  if decide (o = OwnTopic d topic) then None else group_of s items o.
Proof.
  rw group_of_active. destruct o as [d' t|]; [|by case_decide]. destruct (decide (d' = d)) as [-> |Hd].
  - destruct (decide (t = topic)) as [-> |Ht]; [by rw lookup_delete_eq decide_True|].
    rw lookup_delete_ne; [|done]. case_decide; [congruence|done].
  - case_decide; [congruence|done].
Qed.

Lemma deactivate_ok d topic group s :
  topics_ok s -> get d (active_pubsub_bridges s) !! topic = Some group ->
  returns (s ← remove_and_stop_group group s; Some (set_active d (delete topic) s)).
Proof.
  intros [Hok Hlow] Hg. destruct group as [g|]; simpl.
  - destruct (owned_remove _ (group_of (set_active d (delete topic) s) items) _ _ (OwnTopic d topic) g Hok)
      as [Hin Hok'].
    + simpl. by rw Hg.
    + by rw group_of_delete decide_True.
    + intros o Ho. by rw group_of_delete decide_False.
    + unfold remove_callback_group. rw bool_decide_true //=. eexists. by split; [reflexivity|split].
  - eexists. split; [reflexivity|]. split; [|exact Hlow].
    eapply (owned_clear (group_of s items) _ _ _ (OwnTopic d topic)); [exact Hok|simpl; by rw Hg|].
    intros o. apply group_of_delete.
Qed.

Lemma active_false d topic s : is_active d topic s = false -> get d (active_pubsub_bridges s) !! topic = None.
Proof. unfold is_active. intros Hb%bool_decide_eq_false. by apply eq_None_not_Some. Qed.

Lemma returns_some s : topics_ok s -> returns (Some s).
Proof. intros Hok. by exists s. Qed.

(** An operation that keeps the groups right, and returns unless [threw]. *)
Definition ends (threw : Prop) (r : option pubsub_state) : Prop :=
  match r with Some s => topics_ok s | None => threw end.

Lemma returns_ends threw r : returns r -> ends threw r.
Proof. by intros (s & -> & Hok). Qed.

Lemma ends_returns threw r : ends threw r -> ~ threw -> returns r.
Proof. destruct r as [s|]; [|done]. intros Hok _. by exists s. Qed.

Lemma ends_impl (threw threw' : Prop) r : (threw -> threw') -> ends threw r -> ends threw' r.
Proof. destruct r; simpl; auto. Qed.

Lemma demanded_answers sn ns a d topic : graph_endpoints a -> is_Some (is_demanded_by_ros2 sn ns a d topic).
Proof. intros Hg. destruct (Hg topic) as [H1 H2]. unfold is_demanded_by_ros2. by apply fmap_is_Some; destruct d. Qed.

(** A new bridge, unless counting throws. *)
Lemma counted_activate_ok (counted : bool) d topic has s (r : pubsub_state -> pubsub_state) :
  topics_ok s -> get d (active_pubsub_bridges s) !! topic = None -> (forall s, topics_ok s -> topics_ok (r s)) ->
  returns (let '(group, s) := new_group has s in
    require counted orelse Some (r s); activate d topic group s).
Proof.
  intros Hok Hno Hr. destruct counted; [by apply activate_ok|]. destruct has; simpl; apply returns_some, Hr; [|done].
  destruct Hok as [Hok Hlow]. split; [|simpl; lia]. eapply owned_next; [|exact Hok]. simpl. lia.
Qed.

Lemma create_if_needed_ok sn ns a direction topic type s :
  topics_ok s -> ends (~ graph_endpoints a) (create_pubsub_bridge_if_needed sn ns a direction topic type s).
Proof.
  intros Hok. unfold create_pubsub_bridge_if_needed. cbv zeta.
  destruct (should_create_pubsub_bridge _ _ _ _ _ _) as [due|] eqn:Hs.
  2: { intros Hg. unfold should_create_pubsub_bridge in Hs. destruct (negb _); [|done]. destruct (_ <? _); [|done].
       destruct (demanded_answers sn ns a (direction =? ROS2_TO_AGNOCAST) topic Hg) as [? E]. congruence. }
  apply returns_ends. destruct due; [|by apply returns_some].
  destruct (qos_source _ _ _ _) as [id|]; [|by apply returns_some].
  destruct (negb (id =? -1)); [|by apply returns_some].
  match goal with |- context [match ?q with _ => _ end] => destruct q as [q0|] end;
    [|by apply returns_some].
  destruct (create_pubsub_bridge _ _ _ _ _) as [has| |]; [|by apply returns_some..].
  apply counted_activate_ok; [done| |done]. apply active_false. unfold should_create_pubsub_bridge in Hs.
  apply not_true_iff_false. intros E. by rw E in Hs.
Qed.

Lemma for_each_ok threw body keys s :
  (forall k s, topics_ok s -> ends threw (body k s)) -> topics_ok s ->
  ends threw (for_each body keys s).
Proof.
  intros Hb. revert s. induction keys as [|k keys IH]; intros s Hok; simpl; [done|].
  specialize (Hb k s Hok). destruct (body k s) as [s1|]; [|done]. by apply IH.
Qed.

Lemma erase_if_empty_ok topic s : topics_ok s -> topics_ok (erase_if_empty topic s).
Proof. intros Hok. unfold erase_if_empty. by case_bool_decide. Qed.

Lemma check_and_create_ok sn ns a s :
  topics_ok s -> ends (~ graph_endpoints a) (check_and_create_pubsub_bridges sn ns a s).
Proof.
  apply for_each_ok. intros k s' Hok. unfold check_and_create_topic.
  destruct (bool_decide _); [|done].
  destruct (first_request _ _ _) as [r|]; [|by apply erase_if_empty_ok].
  pose proof (create_if_needed_ok sn ns a ROS2_TO_AGNOCAST k (rq_message_type r) s' Hok) as H1.
  destruct (create_pubsub_bridge_if_needed _ _ _ _ _ _ _) as [s1|]; [|exact H1].
  pose proof (create_if_needed_ok sn ns a AGNOCAST_TO_ROS2 k (rq_message_type r) s1 H1) as H2.
  destruct (create_pubsub_bridge_if_needed _ _ _ _ _ _ _) as [s2|]; [|exact H2]. by apply erase_if_empty_ok.
Qed.

Lemma create_forced_ok a s : topics_ok s -> returns (create_daemon_forced_bridges a s).
Proof.
  intros Hok. unfold create_daemon_forced_bridges.
  assert (forall d k s, topics_ok s -> returns (create_daemon_forced_topic a d k s)) as Hb.
  { intros d k s' Hok'. unfold create_daemon_forced_topic.
    destruct (get d (daemon_forced s') !! k) as [f|]; [|by apply returns_some].
    destruct (_ <=? _); [by apply returns_some|].
    destruct (negb _ && _) eqn:E; [|by apply returns_some].
    apply andb_true_iff in E as [Ha _]. apply negb_true_iff, active_false in Ha.
    unfold activate_daemon_forced_bridge.
    destruct (create_pubsub_bridge _ _ _ _ _) as [has| |]; [|by apply returns_some..].
    by apply counted_activate_ok. }
  assert (forall d s, topics_ok s -> returns (for_each (create_daemon_forced_topic a d) (topic_order a) s)) as Hl.
  { intros d s' Hok'. apply (ends_returns False); [|by intros []]. apply for_each_ok; [|done]. intros k s1 Hok1.
    by apply returns_ends, Hb. }
  destruct (Hl true s Hok) as (s1 & -> & Hok1). by apply Hl.
Qed.

Lemma check_and_remove_topic_ok sn ns a d k s :
  topics_ok s ->
  match check_and_remove_topic sn ns a d k s with
  | Some (s', _) => topics_ok s'
  | None => ~ (graph_endpoints a /\ graph_counts a)
  end.
Proof.
  intros Hok. unfold check_and_remove_topic.
  destruct (get d (active_pubsub_bridges s) !! k) as [group|] eqn:Hg; [|done]. cbv zeta.
  destruct (is_demanded_by_ros2 sn ns a d k) as [b|] eqn:Hd.
  2: { intros [He _]. destruct (demanded_answers sn ns a d k He) as [? E]. congruence. }
  destruct (_ =? -1); [done|]. destruct (_ || _).
  - destruct (deactivate_ok d k group s Hok Hg) as (s1 & He & Hok1).
    destruct (remove_and_stop_group group s) as [s2|]; [|done]. simpl in He. by injection He as ->.
  - destruct (count_ros2 a d k) eqn:Hc; [done|]. intros [_ Hn]. specialize (Hn d k). congruence.
Qed.

Lemma check_and_remove_loop_ok sn ns a d keys s :
  topics_ok s ->
  match check_and_remove_loop sn ns a d keys s with
  | Some (s', _) => topics_ok s'
  | None => ~ (graph_endpoints a /\ graph_counts a)
  end.
Proof.
  revert s. induction keys as [|k keys IH]; intros s Hok; simpl; [done|].
  pose proof (check_and_remove_topic_ok sn ns a d k s Hok) as H.
  destruct (check_and_remove_topic _ _ _ _ _ _) as [[s1 []]|]; [done|by apply IH|done].
Qed.

Lemma check_and_remove_ok sn ns a s :
  topics_ok s -> ends (~ (graph_endpoints a /\ graph_counts a)) (check_and_remove_pubsub_bridges sn ns a s).
Proof.
  intros Hok. unfold check_and_remove_pubsub_bridges.
  pose proof (check_and_remove_loop_ok sn ns a true (topic_order a) s Hok) as H1.
  destruct (check_and_remove_loop sn ns a true _ s) as [[s1 []]|]; [done| |done].
  pose proof (check_and_remove_loop_ok sn ns a false (topic_order a) s1 H1) as H2.
  by destruct (check_and_remove_loop sn ns a false _ s1) as [[s2 stop]|].
Qed.
End groups.

(** ** Groups of service bridges *)

Lemma group_of_item s items name i i' o :
  items !! name = Some i ->
  group_of s (<[name := i']> items) o =
  match o with
  | OwnService srv n => if decide (n = name) then item_group srv i' else group_of s items o
  | _ => group_of s items o
  end.
Proof.
  intros Hi. destruct o as [d t|srv n]; [done|]. simpl. case_decide as Hn.
  - subst n. by rw lookup_insert_eq.
  - by rw lookup_insert_ne.
Qed.

Lemma group_of_same s items name i i' o :
  items !! name = Some i -> entity_groups i' = entity_groups i ->
  group_of s (<[name := i']> items) o = group_of s items o.
Proof.
  intros Hi He. rw (group_of_item _ _ _ i) //. destruct o as [|srv n]; [done|].
  case_decide as Hn; [|done]. subst n. simpl. rw Hi /=. unfold item_group. by rw He.
Qed.

Lemma groups_ok_same s items name i i' :
  items !! name = Some i -> entity_groups i' = entity_groups i -> groups_ok items s ->
  groups_ok (<[name := i']> items) s.
Proof. intros Hi He. apply owned_ext. intros o. by eapply group_of_same. Qed.

(** One side of the bridge of [i] gets or loses its group. *)
Definition side_set (side : bool) (v : option Z) (i i' : service_item) : Prop :=
  item_group side i' = v /\ item_group (negb side) i' = item_group (negb side) i.

Lemma side_other side v i i' s items name o :
  items !! name = Some i -> side_set side v i i' -> o <> OwnService side name ->
  group_of s (<[name := i']> items) o = group_of s items o.
Proof.
  intros Hi [_ Hother] Ho. rw (group_of_item _ _ _ i) //. destruct o as [|srv n]; [done|].
  case_decide as Hn; [|done]. subst n. simpl. rw Hi /=.
  destruct (decide (srv = side)) as [-> |Hne]; [by destruct Ho|].
  replace srv with (negb side) by (by destruct srv, side). done.
Qed.

Lemma add_side side i i' s items name groups n :
  items !! name = Some i -> item_group side i = None -> side_set side (Some n) i i' ->
  owned (group_of s items) groups n ->
  (n ∉ groups) /\ owned (group_of s (<[name := i']> items)) ({[n]} ∪ groups) (n + 1).
Proof.
  intros Hi Hno Hset Hok. apply (owned_add (group_of s items) _ _ _ (OwnService side name)); [done| | |].
  - rw (group_of_item _ _ _ i) // decide_True //. apply Hset.
  - intros o Ho. by eapply side_other.
  - simpl. by rw Hi.
Qed.

Lemma remove_side side i i' s items name groups n g :
  items !! name = Some i -> item_group side i = Some g -> side_set side None i i' ->
  owned (group_of s items) groups n ->
  g ∈ groups /\ owned (group_of s (<[name := i']> items)) (groups ∖ {[g]}) n.
Proof.
  intros Hi Hg Hset Hok. apply (owned_remove (group_of s items) _ _ _ (OwnService side name)); [done| | |].
  - simpl. by rw Hi.
  - rw (group_of_item _ _ _ i) // decide_True //. apply Hset.
  - intros o Ho. by eapply side_other.
Qed.

(** A bridge that starts. *)
Lemma start_groups_ok items name i st has_srv has_client s :
  groups_ok items s -> items !! name = Some i -> entity_groups i = (None, None) ->
  let '(srv, s1) := new_group has_srv s in
  let '(client, s2) := new_group has_client s1 in
  exists s3, add_groups (srv, client) s2 = Some s3 /\
    groups_ok (<[name := set_state st (srv, client) i]> items) s3.
Proof.
  intros Hok Hi Hg.
  set (i1 := set_state st (if has_srv then Some (next_object s) else None, None) i).
  assert (let n1 := if has_srv then next_object s + 1 else next_object s in
    let G1 := if has_srv then {[next_object s]} ∪ exec_groups s else exec_groups s in
    (has_srv = true -> next_object s ∉ exec_groups s) /\
    owned (group_of s (<[name := i1]> items)) G1 n1) as [Hn1 Hok1].
  { destruct has_srv; cbv zeta.
    - destruct (add_side true i i1 s items name (exec_groups s) (next_object s)) as [H1 H2];
        [done|by rw /item_group Hg|by rw /side_set /item_group Hg|done|]. by split.
    - split; [done|]. by apply (groups_ok_same s items name i). }
  set (n1 := if has_srv then _ + 1 else _) in *. set (G1 := if has_srv then _ else exec_groups s) in *.
  assert ((<[name := i1]> items) !! name = Some i1) as Hi1 by apply lookup_insert_eq.
  assert (forall i2, <[name := i2]> (<[name := i1]> items) = <[name := i2]> items) as Hins
    by (intros i2; apply insert_insert_eq).
  assert (has_client = true -> (n1 ∉ G1) /\ owned (group_of s (<[name :=
    set_state st (if has_srv then Some (next_object s) else None, Some n1) i]> items))
      ({[n1]} ∪ G1) (n1 + 1)) as Hok2.
  { intros _. rw -Hins. by apply (add_side false i1). }
  unfold add_groups, new_group, new_object.
  destruct has_srv, has_client; cbn [fst snd add_group]; unfold add_callback_group;
    cbn [exec_groups set_groups].
  - rw bool_decide_true; [|by apply Hn1]. cbn [exec_groups set_groups].
    destruct (Hok2 eq_refl) as [Hn2 Hok3]. rw bool_decide_true //. eexists. split; [reflexivity|exact Hok3].
  - rw bool_decide_true; [|by apply Hn1]. eexists. split; [reflexivity|exact Hok1].
  - destruct (Hok2 eq_refl) as [Hn2 Hok3]. rw bool_decide_true //. eexists. split; [reflexivity|exact Hok3].
  - eexists. split; [reflexivity|exact Hok1].
Qed.

(** A bridge that ends. *)
Lemma stop_groups_ok items name i st s :
  groups_ok items s -> items !! name = Some i ->
  exists s', remove_and_stop_groups (entity_groups i) s = Some s' /\
    groups_ok (<[name := set_state st (None, None) i]> items) s'.
Proof.
  intros Hok Hi. destruct (entity_groups i) as [srv client] eqn:Hg.
  set (i1 := set_state st (None, client) i). set (i2 := set_state st (None, None) i).
  assert ((<[name := i1]> items) !! name = Some i1) as Hi1 by apply lookup_insert_eq.
  assert (<[name := i2]> (<[name := i1]> items) = <[name := i2]> items) as Hins by apply insert_insert_eq.
  assert (exists s1, remove_and_stop_group srv s = Some s1 /\ groups_ok (<[name := i1]> items) s1)
    as (s1 & He1 & Hok1).
  { destruct srv as [g|]; simpl.
    - destruct (remove_side true i i1 s items name (exec_groups s) (next_object s) g)
        as [Hin Hok1]; [done|by rw /item_group Hg|by rw /side_set /item_group Hg|done|].
      unfold remove_callback_group. rw bool_decide_true //=. eexists. split; [reflexivity|exact Hok1].
    - eexists. split; [reflexivity|]. by apply (groups_ok_same s items name i); [|rw Hg|]. }
  unfold remove_and_stop_groups. cbn [fst snd]. rw He1 -Hins.
  destruct client as [g|]; simpl.
  - destruct (remove_side false i1 i2 s1 (<[name := i1]> items) name (exec_groups s1) (next_object s1) g)
      as [Hin Hok2]; [done|done|done|done|].
    unfold remove_callback_group. rw bool_decide_true //=. eexists. split; [reflexivity|exact Hok2].
  - eexists. split; [reflexivity|]. by apply (groups_ok_same s1 _ name i1).
Qed.

(** ** Shadow nodes *)

Record item_wf (i : service_item) : Prop := {
  iw_idle : state_ i = PENDING \/ state_ i = NONE -> entity_groups i = (None, None);
  iw_none : state_ i = NONE -> shadow_node_ i = None;
  iw_type : state_ i <> NONE -> service_type_ i <> None
}.

(** The registry lists the nodes that items keep, one for each identity. *)
Record shadow_ok (items : gmap string service_item) (g : shadow_nodes) (next : Z) : Prop := {
  sh_reg : forall name i n, items !! name = Some i -> shadow_node_ i = Some n ->
    exists d, shadow_node_identity_ i = Some d /\ g !! d = Some n;
  sh_kept : forall d n, g !! d = Some n ->
    exists name i, items !! name = Some i /\ shadow_node_ i = Some n /\
      shadow_node_identity_ i = Some d;
  sh_inj : forall d d' n, g !! d = Some n -> g !! d' = Some n -> d = d';
  sh_old : forall d n, g !! d = Some n -> n < next
}.

Lemma shadow_ok_next items g n n' : n <= n' -> shadow_ok items g n -> shadow_ok items g n'.
Proof. intros Hn [H1 H2 H3 H4]. split; [done..|]. intros d m Hd. specialize (H4 d m Hd). lia. Qed.

Lemma shadow_ok_same items g next name i i' :
  items !! name = Some i -> shadow_node_ i' = shadow_node_ i ->
  shadow_node_identity_ i' = shadow_node_identity_ i ->
  shadow_ok items g next -> shadow_ok (<[name := i']> items) g next.
Proof.
  intros Hi Hs Hd [H1 H2 H3 H4]. split; [| |done|done].
  - intros k j n [[<- <-]|[Hne Hk]]%lookup_insert_Some; [rw Hs Hd; by apply (H1 name)|by apply (H1 k)].
  - intros d n (k & j & Hk & Hj & Hdj)%H2. destruct (decide (k = name)) as [-> |Hne].
    + exists name, i'. rw lookup_insert_eq Hs Hd. split; [done|]. by assert (j = i) as <- by congruence.
    + exists k, j. by rw lookup_insert_ne.
Qed.

Lemma kept_spec name items n :
  kept_by_others name items n = true <->
  exists k i, k <> name /\ items !! k = Some i /\ shadow_node_ i = Some n.
Proof.
  unfold kept_by_others. rw existsb_exists. split.
  - intros ([k i] & Hin%list_elem_of_In%elem_of_map_to_list & [Hk Hn%bool_decide_eq_true]%andb_true_iff).
    exists k, i. split; [|done]. intros ->. by rw String.eqb_refl in Hk.
  - intros (k & i & Hne & Hk & Hn). exists (k, i). split; [by apply list_elem_of_In, elem_of_map_to_list|].
    simpl. apply andb_true_iff. split; [by apply negb_true_iff, String.eqb_neq|by apply bool_decide_eq_true].
Qed.

Lemma create_shadow_ok b items g name i d s g1 s1 n :
  items !! name = Some i -> shadow_node_ i = None -> shadow_node_identity_ i = Some d ->
  g !! d = None -> shadow_ok items g (next_object s) -> groups_ok items s ->
  create_shadow_node b d g s = (g1, s1, n) ->
  shadow_ok (<[name := set_shadow_node n i]> items) g1 (next_object s1) /\
  groups_ok (<[name := set_shadow_node n i]> items) s1.
Proof.
  intros Hi Hm Hd Hno Hsh Hok. unfold create_shadow_node.
  assert (forall m, groups_ok (<[name := set_shadow_node m i]> items) s) as Hg
    by (intros m; by apply (groups_ok_same s items name i)).
  destruct (rcl_node_init b).
  2: { intros [= <- <- <-]. split; [|by apply Hg].
       apply (shadow_ok_same items g _ name i); [done|by rw Hm|done|done]. }
  destruct Hsh as [H1 H2 H3 H4]. intros [= <- <- <-]. split.
  - split; simpl.
    + intros k j n [[<- <-]|[Hne Hk]]%lookup_insert_Some.
      * simpl. intros [= <-]. exists d. rw lookup_insert_eq. done.
      * intros Hn. destruct (H1 k j n Hk Hn) as (d' & Hd' & Hg'). exists d'. split; [done|].
        rw lookup_insert_ne; [done|]. intros <-. congruence.
    + intros d' n [[<- <-]|[Hne Hg']]%lookup_insert_Some.
      * exists name, (set_shadow_node (Some (next_object s)) i). by rw lookup_insert_eq.
      * destruct (H2 d' n Hg') as (k & j & Hk & Hn & Hj). exists k, j. split; [|done].
        rw lookup_insert_ne; [done|]. intros <-. congruence.
    + intros d1 d2 n [[<- <-]|[Hne1 Hg1]]%lookup_insert_Some [[<- Hx]|[Hne2 Hg2]]%lookup_insert_Some;
        [done| | |by eapply H3].
      * specialize (H4 _ _ Hg2). lia.
      * subst n. specialize (H4 _ _ Hg1). lia.
    + intros d' n [[<- <-]|[_ Hg']]%lookup_insert_Some; [lia|]. specialize (H4 _ _ Hg'). lia.
  - eapply owned_next; [|apply (Hg (Some (next_object s)))]. simpl. lia.
Qed.

Lemma share_shadow_ok items g next name i d n :
  items !! name = Some i -> shadow_node_ i = None -> shadow_node_identity_ i = Some d ->
  g !! d = Some n -> shadow_ok items g next ->
  kept_by_others name items n = true /\
  shadow_ok (<[name := set_shadow_node (Some n) i]> items) g next.
Proof.
  intros Hi Hm Hd Hg [H1 H2 H3 H4].
  assert (forall d' m, g !! d' = Some m -> exists k j, k <> name /\ items !! k = Some j /\
    shadow_node_ j = Some m /\ shadow_node_identity_ j = Some d') as Hkept.
  { intros d' m (k & j & Hk & Hj & Hdj)%H2. exists k, j. split; [|done]. intros ->. congruence. }
  split.
  - apply kept_spec. destruct (Hkept d n Hg) as (k & j & Hne & Hk & Hj & _). by exists k, j.
  - split; [| |done|done].
    + intros k j m [[<- <-]|[Hne Hk]]%lookup_insert_Some; [intros [= <-]; by exists d|by apply (H1 k)].
    + intros d' m (k & j & Hne & Hk & Hj)%Hkept. exists k, j. by rw lookup_insert_ne.
Qed.

Lemma acquire_shadow_ok b items g name i s g' i' s' acquired :
  items !! name = Some i -> shadow_ok items g (next_object s) -> groups_ok items s ->
  acquire_shadow_node b (kept_by_others name items) g i s = (g', i', s', acquired) ->
  shadow_ok (<[name := i']> items) g' (next_object s') /\ groups_ok (<[name := i']> items) s' /\
  i' = set_shadow_node (shadow_node_ i') i.
Proof.
  intros Hi Hsh Hok. unfold acquire_shadow_node, find_or_create_shadow_node.
  assert (shadow_ok (<[name := i]> items) g (next_object s) /\ groups_ok (<[name := i]> items) s /\
    i = set_shadow_node (shadow_node_ i) i) as Hsame.
  { rw insert_id //. split; [done|]. split; [done|]. by destruct i. }
  destruct (shadow_node_identity_ i) as [d|] eqn:Hd; [|by intros [= <- <- <- _]].
  destruct (shadow_node_ i) as [m|] eqn:Hm; [by intros [= <- <- <- _]; rw Hm|].
  destruct (g !! d) as [n|] eqn:Hgd.
  - destruct (share_shadow_ok items g (next_object s) name i d n) as [-> Hshare]; [done..|].
    intros [= <- <- <- _]. split; [done|]. split; [by apply (groups_ok_same s items name i)|done].
  - destruct (create_shadow_node b d g s) as [[g1 s1] n] eqn:E. intros [= <- <- <- _].
    by destruct (create_shadow_ok b items g name i d s g1 s1 n).
Qed.

Lemma release_shadow_ok items g name i next :
  items !! name = Some i -> shadow_ok items g next ->
  let '(g', i') := release_shadow_node (kept_by_others name items) g i in
  shadow_ok (<[name := i']> items) g' next /\ i' = set_shadow_node None i.
Proof.
  intros Hi Hsh. unfold release_shadow_node.
  destruct (shadow_node_ i) as [n|] eqn:Hn.
  2: { rw insert_id //. split; [done|]. rw -Hn. by destruct i. }
  destruct Hsh as [H1 H2 H3 H4]. destruct (H1 name i n Hi Hn) as (d & Hd & Hg). rw Hd Hg.
  split; [|done].
  assert (forall k j m, <[name := set_shadow_node None i]> items !! k = Some j -> shadow_node_ j = Some m ->
    k <> name /\ items !! k = Some j) as Hitems.
  { intros k j m [[<- <-]|[Hne Hk]]%lookup_insert_Some Hm; [done|]. by split. }
  destruct (kept_by_others name items n) eqn:Hkept.
  - apply kept_spec in Hkept as (k0 & i0 & Hne0 & Hk0 & Hn0). split; [| |done|done].
    + intros k j m Hk Hm. destruct (Hitems k j m Hk Hm) as [_ Hk']. by apply (H1 k).
    + intros d' m Hg'. destruct (H2 d' m Hg') as (k & j & Hk & Hm & Hdj).
      destruct (decide (k = name)) as [-> |Hne].
      * exists k0, i0. rw lookup_insert_ne //. assert (j = i) as -> by congruence.
        destruct (H1 k0 i0 n Hk0 Hn0) as (d0 & Hd0 & Hg0). split; [done|].
        assert (m = n) as -> by congruence. split; [done|]. by rw (H3 d' d0 n).
      * exists k, j. by rw lookup_insert_ne.
  - assert (forall k j, k <> name -> items !! k = Some j -> shadow_node_ j <> Some n) as Hno.
    { intros k j Hne Hk Hj. apply not_true_iff_false in Hkept. apply Hkept, kept_spec. by exists k, j. }
    split.
    + intros k j m Hk Hm. destruct (Hitems k j m Hk Hm) as [Hne Hk'].
      destruct (H1 k j m Hk' Hm) as (d' & Hd' & Hg'). exists d'. split; [done|].
      rw lookup_delete_ne; [done|]. intros <-. apply (Hno k j Hne Hk'). congruence.
    + intros d' m [Hne Hg']%lookup_delete_Some. destruct (H2 d' m Hg') as (k & j & Hk & Hm & Hdj).
      exists k, j. rw lookup_insert_ne; [done|]. intros <-. apply Hne. congruence.
    + intros d1 d2 m [_ Hg1]%lookup_delete_Some [_ Hg2]%lookup_delete_Some. by eapply H3.
    + intros d' m [_ Hg']%lookup_delete_Some. by eapply H4.
Qed.

(** ** One tick of a service bridge *)

(** What a tick leaves: the item [i'] in place of [i], everything right. *)
Definition ticked (items : gmap string service_item) (name : string)
    (r : option (shadow_nodes * service_item * pubsub_state)) : Prop :=
  exists g i s, r = Some (g, i, s) /\ item_wf i /\ groups_ok (<[name := i]> items) s /\
    shadow_ok (<[name := i]> items) g (next_object s).

Lemma remove_group_next group s s' :
  remove_and_stop_group group s = Some s' -> next_object s' = next_object s.
Proof.
  destruct group as [g|]; simpl; [|by intros [= ->]]. unfold remove_callback_group.
  case_bool_decide; [|done]. by intros [= <-].
Qed.

Lemma remove_groups_next groups s s' :
  remove_and_stop_groups groups s = Some s' -> next_object s' = next_object s.
Proof.
  unfold remove_and_stop_groups. destruct (remove_and_stop_group groups.1 s) as [s1|] eqn:E1; [|done].
  intros E2. rw (remove_group_next _ _ _ E2). by apply remove_group_next in E1.
Qed.

Lemma add_group_next group s s' : add_group group s = Some s' -> next_object s' = next_object s.
Proof.
  destruct group as [g|]; simpl; [|by intros [= ->]]. unfold add_callback_group.
  case_bool_decide; [|done]. by intros [= <-].
Qed.

Lemma new_group_next has s : next_object s <= next_object (new_group has s).2.
Proof. destruct has; simpl; lia. Qed.

Lemma stop_tick items g name i s :
  items !! name = Some i -> item_wf i -> state_ i <> NONE -> groups_ok items s -> shadow_ok items g (next_object s) ->
  ticked items name (unwrap r := (unwrap s := remove_and_stop_groups (entity_groups i) s orelse None;
                                  Some (set_state PENDING (None, None) i, s)) orelse None;
                     Some (g, r.1, r.2)).
Proof.
  intros Hi Hw Hst Hok Hsh. destruct (stop_groups_ok items name i PENDING s Hok Hi) as (s' & He & Hok').
  rw He. exists g, (set_state PENDING (None, None) i), s'. split; [done|].
  split; [split; [done|done|intros _; by apply (iw_type _ Hw)]|]. split; [done|].
  rw (remove_groups_next _ _ _ He). by apply (shadow_ok_same items g _ name i).
Qed.

Lemma stay_tick items g name i s :
  items !! name = Some i -> item_wf i -> groups_ok items s -> shadow_ok items g (next_object s) ->
  ticked items name (Some (g, i, s)).
Proof. intros Hi Hw Hok Hsh. exists g, i, s. by rw insert_id. Qed.

Lemma start_tick b items g name i is_r2a q s :
  items !! name = Some i -> item_wf i -> state_ i = PENDING -> groups_ok items s ->
  shadow_ok items g (next_object s) ->
  ticked items name (unwrap r := start_bridge b is_r2a q i s orelse None; Some (g, r.1.1, r.1.2)).
Proof.
  intros Hi Hw Hst Hok Hsh. unfold start_bridge.
  destruct (service_type_ i) as [type|]; [|by apply stay_tick].
  destruct (create_service_bridge _ _ _ _ _) as [has_srv has_client| |]; [|by apply stay_tick..].
  pose proof (start_groups_ok items name i (if is_r2a then R2A else A2R) has_srv has_client s Hok Hi
    (iw_idle _ Hw (or_introl Hst))) as Hstart.
  assert (let '(srv, s1) := new_group has_srv s in let '(client, s2) := new_group has_client s1 in
    forall s3, add_groups (srv, client) s2 = Some s3 -> next_object s <= next_object s3) as Hnext.
  { pose proof (new_group_next has_srv s) as H1. destruct (new_group has_srv s) as [srv s1].
    pose proof (new_group_next has_client s1) as H2. destruct (new_group has_client s1) as [client s2].
    unfold add_groups. cbn [fst snd]. intros s3. destruct (add_group srv s2) as [s2'|] eqn:Ea; [|done].
    intros Eb. simpl in H1, H2. apply add_group_next in Ea, Eb. lia. }
  destruct (new_group has_srv s) as [srv s1]. destruct (new_group has_client s1) as [client s2].
  destruct Hstart as (s3 & He & Hok3). rw He. cbn [fst snd].
  exists g, (set_state (if is_r2a then R2A else A2R) (srv, client) i), s3. split; [done|].
  assert (service_type_ i <> None) as Hty by (apply (iw_type _ Hw); congruence).
  split; [split; simpl; destruct is_r2a; intros; naive_solver|]. split; [done|].
  apply (shadow_ok_next _ _ (next_object s)); [by apply Hnext|].
  by apply (shadow_ok_same items g _ name i).
Qed.

Lemma ticked_replace items name i1 r : ticked (<[name := i1]> items) name r -> ticked items name r.
Proof. intros (g & i & s & He & Hw & Hok & Hsh). exists g, i, s. rewrite insert_insert_eq in Hok, Hsh. done. Qed.

Lemma check_and_update_ok b items g name i s :
  items !! name = Some i -> item_wf i -> groups_ok items s -> shadow_ok items g (next_object s) ->
  ticked items name (check_and_update b (kept_by_others name items) g i s).
Proof.
  intros Hi Hw Hok Hsh. unfold check_and_update. destruct (state_ i) eqn:Hst.
  - by apply stay_tick.
  - unfold check_and_update_pending. destruct (may_start_r2a_bridge_ i && agno_service_exists b 0).
    + destruct (acquire_shadow_node _ _ _ _ _) as [[[g1 i1] s1] acquired] eqn:Ea.
      destruct (acquire_shadow_ok b items g name i s g1 i1 s1 acquired Hi Hsh Hok Ea) as (Hsh1 & Hok1 & Hi1).
      assert (state_ i1 = PENDING) as Hst1 by (rw Hi1; done).
      assert (item_wf i1) as Hw1.
      { split; [|congruence|]; intros _; rw Hi1; [apply (iw_idle _ Hw); by left|].
        apply (iw_type _ Hw). congruence. }
      apply (ticked_replace items name i1).
      assert ((<[name := i1]> items) !! name = Some i1) as Hl by apply lookup_insert_eq.
      destruct acquired; [|by apply stay_tick].
      destruct (_ || _); [|by apply stay_tick].
      unfold start_r2a_bridge. destruct (get_agno_service_qos _) as [q|]; [by apply start_tick|by apply stay_tick].
    + pose proof (release_shadow_ok items g name i (next_object s) Hi Hsh) as Hr.
      destruct (release_shadow_node _ _ _) as [g1 i1]. destruct Hr as [Hsh1 Hi1].
      assert (state_ i1 = PENDING) as Hst1 by (rw Hi1; done).
      assert (item_wf i1) as Hw1.
      { split; [|congruence|]; intros _; rw Hi1; [apply (iw_idle _ Hw); by left|].
        apply (iw_type _ Hw). congruence. }
      assert (groups_ok (<[name := i1]> items) s) as Hok1
        by (apply (groups_ok_same s items name i); [done|by rw Hi1|done]).
      apply (ticked_replace items name i1).
      assert ((<[name := i1]> items) !! name = Some i1) as Hl by apply lookup_insert_eq.
      destruct (_ && _ && _); [by apply start_tick|].
      destruct (negb _); [|by apply stay_tick].
      exists g1, (set_state NONE (entity_groups i1) i1), s. split; [done|]. split; [|split].
      * split; simpl; [intros _; apply (iw_idle _ Hw1); by left|intros _; by rw Hi1|done].
      * by apply (groups_ok_same s _ name i1).
      * by apply (shadow_ok_same _ g1 _ name i1).
  - unfold check_and_update_a2r. destruct (negb _); [by apply stop_tick; try congruence|by apply stay_tick].
  - unfold check_and_update_r2a. destruct (negb _); [by apply stop_tick; try congruence|by apply stay_tick].
Qed.

(** ** The manager *)

Record manager_ok (m : manager) : Prop := {
  mo_items : map_Forall (fun _ i => item_wf i /\ state_ i <> NONE) (active_service_bridges_ m);
  mo_groups : groups_ok (active_service_bridges_ m) (pubsub m);
  mo_shadow : shadow_ok (active_service_bridges_ m) (g_shadow_nodes m) (next_object (pubsub m))
}.

Definition manager_returns (r : option manager) : Prop := exists m, r = Some m /\ manager_ok m.

(** The same unless [threw]. *)
Definition manager_ends (threw : Prop) (r : option manager) : Prop :=
  match r with Some m => manager_ok m | None => threw end.

Lemma manager_returns_ends threw r : manager_returns r -> manager_ends threw r.
Proof. by intros (m & -> & Hm). Qed.

Lemma manager_ends_impl (threw threw' : Prop) r : (threw -> threw') -> manager_ends threw r -> manager_ends threw' r.
Proof. destruct r; simpl; auto. Qed.

Lemma manager_returns_some m : manager_ok m -> manager_returns (Some m).
Proof. intros Hm. by exists m. Qed.

Lemma new_manager_ok : manager_ok new_manager.
Proof.
  split; simpl; [done| |split; simpl; [done|done|done|done]].
  split.
  - intros [[]|] ?; simpl; rw lookup_empty //.
  - intros g. split; [set_solver|]. by intros [[[]|] Ho].
  - by intros [[]|].
Qed.

(** An entry that has the groups and the node of the one before, or none where there was none. *)
Lemma groups_ok_set s items name i' :
  entity_groups i' = entity_groups (default new_service_item (items !! name)) -> groups_ok items s ->
  groups_ok (<[name := i']> items) s.
Proof.
  intros He. apply owned_ext. intros [d t|srv n]; [done|]. simpl. destruct (decide (n = name)) as [-> |Hn].
  - rw lookup_insert_eq /=. unfold item_group. rw He. destruct (items !! name); [done|by destruct srv].
  - by rw lookup_insert_ne.
Qed.

Lemma groups_ok_delete s items name i :
  items !! name = Some i -> entity_groups i = (None, None) -> groups_ok items s ->
  groups_ok (delete name items) s.
Proof.
  intros Hi He. apply owned_ext. intros [d t|srv n]; [done|]. simpl. destruct (decide (n = name)) as [-> |Hn].
  - rw lookup_delete_eq Hi /=. unfold item_group. rw He. by destruct srv.
  - by rw lookup_delete_ne.
Qed.

Lemma shadow_ok_set items g next name i' :
  shadow_node_ i' = shadow_node_ (default new_service_item (items !! name)) ->
  (shadow_node_ i' <> None ->
   shadow_node_identity_ i' = shadow_node_identity_ (default new_service_item (items !! name))) ->
  shadow_ok items g next -> shadow_ok (<[name := i']> items) g next.
Proof.
  intros Hs Hd [H1 H2 H3 H4]. split; [| |done|done].
  - intros k j n [[<- <-]|[Hne Hk]]%lookup_insert_Some Hn; [|by apply (H1 k)].
    rw Hd; [|congruence]. rewrite Hs in Hn. destruct (items !! name) as [i|] eqn:Hi; [|done].
    by apply (H1 name i).
  - intros d n (k & j & Hk & Hj & Hdj)%H2. destruct (decide (k = name)) as [-> |Hne].
    + exists name, i'. rewrite Hk /= in Hs, Hd. rw lookup_insert_eq Hd; [|congruence]. by rw Hs.
    + exists k, j. by rw lookup_insert_ne.
Qed.

Lemma shadow_ok_delete items g next name i :
  items !! name = Some i -> shadow_node_ i = None -> shadow_ok items g next ->
  shadow_ok (delete name items) g next.
Proof.
  intros Hi Hs [H1 H2 H3 H4]. split; [| |done|done].
  - intros k j n [_ Hk]%lookup_delete_Some. by apply (H1 k).
  - intros d n (k & j & Hk & Hj & Hdj)%H2. exists k, j. rw lookup_delete_ne; [done|]. intros <-. congruence.
Qed.

Lemma handle_request_ok name type shadow direction i :
  item_wf i ->
  item_wf (handle_request name type shadow direction i) /\
  state_ (handle_request name type shadow direction i) <> NONE.
Proof.
  intros [H1 H2 H3]. unfold handle_request. cbv zeta. simpl.
  case_decide as Hst; (split; [|done]); split; simpl; try done.
  - intros _. apply H1. by right.
  - intros _. by destruct (service_type_ i).
  - intros _. by destruct (service_type_ i).
Qed.

Lemma handle_request_same name type shadow direction i :
  let i' := handle_request name type shadow direction i in
  entity_groups i' = entity_groups i /\ shadow_node_ i' = shadow_node_ i /\
  (shadow_node_identity_ i <> None -> shadow_node_identity_ i' = shadow_node_identity_ i).
Proof.
  unfold handle_request. cbv zeta. simpl.
  case_decide; simpl; (split; [done|]; split; [done|]); by destruct (shadow_node_identity_ i).
Qed.

Section manager.
Context (self_name self_ns : string).

Lemma set_pubsub_ends threw f m :
  (forall low s, topics_ok (active_service_bridges_ m) low s -> ends (active_service_bridges_ m) low threw (f s)) ->
  manager_ok m -> manager_ends threw (lift f m).
Proof.
  intros Hf [H1 H2 H3]. unfold lift. pose proof (Hf (next_object (pubsub m)) (pubsub m)) as H.
  destruct (f (pubsub m)) as [s|]; simpl in H |- *; [|by apply H].
  destruct H as [Hok Hlow]; [done|]. split; simpl; [done|done|]. by eapply shadow_ok_next.
Qed.

Lemma set_pubsub_ok f m :
  (forall low s, topics_ok (active_service_bridges_ m) low s -> returns (active_service_bridges_ m) low (f s)) ->
  manager_ok m -> manager_returns (lift f m).
Proof.
  intros Hf [H1 H2 H3]. unfold lift.
  destruct (Hf (next_object (pubsub m)) (pubsub m)) as (s & -> & Hok & Hlow); [by split|].
  exists (set_pubsub s m). split; [done|]. split; simpl; [done|done|]. by eapply shadow_ok_next.
Qed.

Lemma dispatch_bridge_message_ok a now msg m :
  manager_ok m -> manager_ends (~ graph_endpoints a) (dispatch_bridge_message self_name self_ns a now msg m).
Proof.
  intros Hm. pose proof Hm as [H1 H2 H3]. unfold dispatch_bridge_message.
  destruct msg as [type name id direction|type name shadow direction|name type direction depth tl rel|name].
  - apply (set_pubsub_ends _ (dispatch_pubsub self_name self_ns a type name id direction)); [|done].
    intros low s Hok. by apply create_if_needed_ok.
  - cbv zeta. apply manager_returns_ends, manager_returns_some. set (i := default new_service_item _).
    assert (item_wf i) as Hi.
    { subst i. destruct (active_service_bridges_ m !! name) as [i|] eqn:Hi; [by apply (H1 name i)|].
      by split. }
    destruct (handle_request_ok name type shadow direction i Hi) as [Hwf Hne].
    destruct (handle_request_same name type shadow direction i) as (Heg & Hsn & Hsd).
    split; simpl.
    + by apply map_Forall_insert_2.
    + by apply groups_ok_set.
    + apply shadow_ok_set; [by rw Hsn| |done]. rw Hsn. intros Hn. destruct (shadow_node_ i) as [n|] eqn:Hs; [|done].
      apply Hsd. clear Hwf Hne Hsn Hsd. subst i.
      destruct (active_service_bridges_ m !! name) as [i|] eqn:Hi'; [|done].
      destruct (sh_reg _ _ _ H3 name i n Hi' Hs) as (d & Hd & _). simpl. by rw Hd.
  - done.
  - simpl.
    destruct (active_service_bridges_ m !! name) as [i|] eqn:Hi.
    2: { rw alter_id; [done|]. intros j Hj. congruence. }
    rw -(insert_id _ _ _ Hi) alter_insert_eq. destruct (H1 name i Hi) as [Hwf Hst].
    split; simpl.
    + apply map_Forall_insert_2; [|done]. split; [by destruct Hwf; split|done].
    + apply groups_ok_set; [by rw Hi|done].
    + apply shadow_ok_set; [by rw Hi..|done].
Qed.

Definition batch_answers (batch : list (answers * Z * bridge_msg)) : Prop :=
  Forall (fun x => graph_endpoints x.1.1) batch.

Lemma dispatch_batch_ok batch m :
  manager_ok m -> manager_ends (~ batch_answers batch) (dispatch_batch self_name self_ns batch m).
Proof.
  revert m. induction batch as [|[[a now] msg] batch IH]; intros m Hm; simpl; [done|].
  destruct (shutdown_requested_ _); [done|].
  pose proof (dispatch_bridge_message_ok a now msg m Hm) as H.
  destruct (dispatch_bridge_message _ _ _ _ _ _) as [m1|]; simpl in H.
  - eapply manager_ends_impl; [|by apply IH]. by intros Hno [_ ?]%Forall_cons.
  - by intros [? _]%Forall_cons.
Qed.

Lemma check_and_update_service_ok b name m :
  manager_ok m -> manager_returns (check_and_update_service b name m).
Proof.
  intros Hm. pose proof Hm as [H1 H2 H3]. unfold check_and_update_service.
  destruct (active_service_bridges_ m !! name) as [i|] eqn:Hi; [|by apply manager_returns_some].
  destruct (H1 name i Hi) as [Hwf Hst].
  destruct (check_and_update_ok b (active_service_bridges_ m) (g_shadow_nodes m) name i (pubsub m))
    as (g & i' & s & -> & Hwf' & Hok & Hsh); [done..|].
  apply manager_returns_some. set (items := <[name := i']> _) in *.
  assert (items !! name = Some i') as Hi' by apply lookup_insert_eq. case_decide as Hnone.
  - assert (delete name (active_service_bridges_ m) = delete name items) as Hdel
      by (symmetry; apply delete_insert_eq).
    split; simpl.
    + by apply map_Forall_delete.
    + rw Hdel. apply (groups_ok_delete _ _ _ i'); [done|apply (iw_idle _ Hwf'); by right|done].
    + rw Hdel. apply (shadow_ok_delete _ _ _ _ i'); [done|by apply (iw_none _ Hwf')|done].
  - split; simpl; [by apply map_Forall_insert_2|done|done].
Qed.

Lemma check_and_update_services_ok bs order m :
  manager_ok m -> manager_returns (check_and_update_services bs order m).
Proof.
  revert m. induction order as [|name order IH]; intros m Hm; simpl; [by apply manager_returns_some|].
  destruct (check_and_update_service_ok (bs name) name m Hm) as (m1 & -> & Hm1). by apply IH.
Qed.

Lemma unless_ok threw signalled k m :
  manager_ok m -> (forall m, manager_ok m -> manager_ends threw (k m)) ->
  manager_ends threw (unless_shutting_down signalled k m).
Proof.
  intros Hm Hk. unfold unless_shutting_down. cbv zeta.
  assert (manager_ok (if signalled then set_pubsub (request_shutdown (pubsub m)) m else m)) as Hm'
    by (by destruct signalled, Hm).
  destruct (shutdown_requested_ _); [done|by apply Hk].
Qed.

(** The graph queries of a turn that nothing catches return. *)
Definition graph_answers (t : turn) : Prop :=
  batch_answers (t_batch t) /\ graph_endpoints (t_create t) /\
  (graph_endpoints (t_remove t) /\ graph_counts (t_remove t)) /\ t_node_names t = true.

Lemma worker_turn_ok t m : manager_ok m -> manager_ends (~ graph_answers t) (worker_turn self_name self_ns t m).
Proof.
  intros Hm. unfold worker_turn. apply unless_ok; [done|]. clear m Hm. intros m Hm.
  pose proof (dispatch_batch_ok (t_batch t) m Hm) as H. unfold graph_answers.
  destruct (dispatch_batch _ _ _ m) as [m1|]; simpl in H; [|simpl; tauto].
  apply unless_ok; [done|]. clear m m1 Hm H. intros m Hm.
  assert (manager_ends (~ graph_endpoints (t_create t))
    (lift (check_and_create_pubsub_bridges self_name self_ns (t_create t)) m)) as H.
  { apply set_pubsub_ends; [|done]. intros low s. apply check_and_create_ok. }
  destruct (lift _ m) as [m1|]; simpl in H; [|simpl; tauto].
  apply unless_ok; [done|]. clear m m1 Hm H. intros m Hm.
  destruct (set_pubsub_ok (create_daemon_forced_bridges (t_forced t)) m)
    as (m1 & -> & Hm1); [intros low s; apply create_forced_ok|done|].
  assert (manager_ends (~ (graph_endpoints (t_remove t) /\ graph_counts (t_remove t)))
    (lift (check_and_remove_pubsub_bridges self_name self_ns (t_remove t)) m1)) as H.
  { apply set_pubsub_ends; [|done]. intros low s. apply check_and_remove_ok. }
  destruct (lift _ m1) as [m2|]; simpl in H; [|simpl; tauto].
  apply unless_ok; [done|]. clear m m1 m2 Hm Hm1 H. intros m Hm. unfold check_and_update_service_bridges.
  destruct (t_node_names t); [|simpl; naive_solver].
  destruct (check_and_update_services_ok (t_services t) (t_service_order t) m Hm) as (m1 & -> & Hm1).
  unfold check_and_request_shutdown. destruct Hm1 as [H1 H2 H3].
  by destruct (t_should_shutdown t) as [[]|].
Qed.
End manager.

Lemma worker_loop_ok sn ns turns m :
  manager_ok m -> manager_ends (~ Forall graph_answers turns) (worker_loop sn ns turns m).
Proof.
  revert m. induction turns as [|t turns IH]; intros m Hm; simpl; [done|].
  destruct (negb _); [|done]. pose proof (worker_turn_ok sn ns t m Hm) as H.
  destruct (worker_turn sn ns t m) as [m1|]; simpl in H.
  - eapply manager_ends_impl; [|by apply IH]. by intros Hno [_ ?]%Forall_cons.
  - by intros [? _]%Forall_cons.
Qed.

(** The manager after some turns. *)
Definition reachable (sn ns : string) (m : manager) : Prop :=
  exists turns, worker_loop sn ns turns new_manager = Some m.

Lemma manager_reachable_ok sn ns m : reachable sn ns m -> manager_ok m.
Proof.
  intros [turns He]. pose proof (worker_loop_ok sn ns turns new_manager new_manager_ok) as H. by rewrite He in H.
Qed.

(** C33. Whatever messages arrive, whatever the module, the graph, the loader and the clock answer and whenever the
    shutdown is requested, as long as no graph query of rclcpp throws where nothing catches it (the endpoints of a topic
    when a bridge may be due or is checked, the counts of a checked bridge, the node names before the services),
    [worker_loop] returns: it never adds a callback group that the executor already has nor removes one it does not
    have, which would end the process.  Then the executor has exactly the callback groups of the bridges, and no two
    bridges share one. *)
Theorem bridge_manager_never_exits sn ns turns :
  Forall graph_answers turns ->
  exists m, worker_loop sn ns turns new_manager = Some m /\
    (forall g, g ∈ exec_groups (pubsub m) <->
       exists o, group_of (pubsub m) (active_service_bridges_ m) o = Some g) /\
    forall o1 o2 g, group_of (pubsub m) (active_service_bridges_ m) o1 = Some g ->
      group_of (pubsub m) (active_service_bridges_ m) o2 = Some g -> o1 = o2.
Proof.
  intros Hg. pose proof (worker_loop_ok sn ns turns new_manager new_manager_ok) as H.
  destruct (worker_loop sn ns turns new_manager) as [m|]; [|done]. destruct H as [_ [H1 H2 _] _]. by exists m.
Qed.

(** The process does end otherwise: with one active bridge, a graph query that throws while the bridges are checked is
    caught by nobody. *)
Lemma graph_exception_ends_manager sn ns a topic group s :
  get true (active_pubsub_bridges s) !! topic = Some group -> ros2_publishers a topic = None ->
  head (topic_order a) = Some topic -> check_and_remove_pubsub_bridges sn ns a s = None.
Proof.
  intros Hg Hp Ho. unfold check_and_remove_pubsub_bridges. destruct (topic_order a) as [|t l]; [done|]. injection Ho as ->.
  cbn [check_and_remove_loop]. unfold check_and_remove_topic. rw Hg. unfold is_demanded_by_ros2. by rw Hp.
Qed.

(** In every state the manager reaches: [g_shadow_nodes] lists exactly the shadow nodes that the
    services keep, one for each identity, so that two services of one node share its shadow node and the
    last one to release it removes the entry; a service is never kept in the state [NONE], and only a
    service with a running bridge has callback groups. *)
Theorem shadow_nodes_shared sn ns m :
  reachable sn ns m ->
  (forall d n, g_shadow_nodes m !! d = Some n <->
     exists name i, active_service_bridges_ m !! name = Some i /\ shadow_node_ i = Some n /\
       shadow_node_identity_ i = Some d) /\
  (forall name i, active_service_bridges_ m !! name = Some i ->
     state_ i <> NONE /\ (state_ i = PENDING -> entity_groups i = (None, None)) /\
     (shadow_node_identity_ i = None -> shadow_node_ i = None)).
Proof.
  intros Hr. destruct (manager_reachable_ok sn ns m Hr) as [H1 _ [H2 H3 _ _]]. split.
  - intros d n. split; [apply H3|]. intros (name & i & Hi & Hn & Hd).
    destruct (H2 name i n Hi Hn) as (d' & Hd' & Hg). congruence.
  - intros name i Hi. destruct (H1 name i Hi) as [Hwf Hst]. split; [done|]. split.
    + intros Hp. apply (iw_idle _ Hwf). by left.
    + intros Hd. destruct (shadow_node_ i) as [n|] eqn:Hn; [|done].
      destruct (H2 name i n Hi Hn) as (d & Hd' & _). congruence.
Qed.

(** ** The state diagram of a service bridge *)

(** The arrows (2) to (6) of the diagram in bridge/agnocast_service_bridge.hpp, with their numbered
    conditions; the guard of (3) is the one the text below the diagram gives. *)
Inductive arrow (b : service_answers) (i : service_item) : ServiceBridgeState -> ServiceBridgeState -> Prop :=
  | arrow_leave :
      agno_client_exists b 0 = false ->
      ~ (may_start_a2r_bridge_ i = true /\ ros2_service_exists b = true /\ agno_client_exists b 0 = true) ->
      ~ (may_start_r2a_bridge_ i = true /\ agno_service_exists b 0 = true) ->
      arrow b i PENDING NONE
  | arrow_start_a2r :
      may_start_a2r_bridge_ i = true -> ros2_service_exists b = true -> agno_client_exists b 0 = true ->
      ~ (may_start_r2a_bridge_ i = true /\ agno_service_exists b 0 = true) ->
      arrow b i PENDING A2R
  | arrow_stop_a2r :
      ~ (ros2_service_exists b = true /\ agno_client_exists b 0 = true) \/
      (may_start_r2a_bridge_ i = true /\ agno_service_exists b 0 = true) ->
      arrow b i A2R PENDING
  | arrow_start_r2a :
      may_start_r2a_bridge_ i = true -> agno_service_exists b 0 = true ->
      ros2_client_exists b = true \/ r2a_forced b i = true ->
      arrow b i PENDING R2A
  | arrow_stop_r2a :
      agno_service_exists b 0 = false \/ ~ (ros2_client_exists b = true \/ r2a_forced b i = true) ->
      arrow b i R2A PENDING.

(** Answers that do not change during a tick, with creations that succeed. *)
Record steady (b : service_answers) : Prop := {
  st_info : ioctl_service_info b 1 = ioctl_service_info b 0;
  st_client : ioctl_client_num b 1 = ioctl_client_num b 0;
  st_node : rcl_node_init b = true;
  st_created : forall d name type q, exists x y, create_service_bridge b d name type q = ServiceCreated x y
}.

Lemma start_bridge_state b is_r2a q i s i' s' started :
  steady b -> service_type_ i <> None ->
  start_bridge b is_r2a q i s = Some (i', s', started) -> state_ i' = if is_r2a then R2A else A2R.
Proof.
  intros Hb Ht. unfold start_bridge. destruct (service_type_ i) as [type|]; [|done].
  destruct (st_created b Hb is_r2a (service_name_ i) type q) as (x & y & ->).
  destruct (new_group x s) as [srv s1]. destruct (new_group y s1) as [client s2].
  destruct (add_groups _ _); [|done]. by intros [= <- _ _].
Qed.

Lemma acquire_state b alive g i s :
  steady b ->
  let '(g', i', s', acquired) := acquire_shadow_node b alive g i s in
  acquired = true /\ state_ i' = state_ i /\ service_type_ i' = service_type_ i /\
  may_start_a2r_bridge_ i' = may_start_a2r_bridge_ i /\ r2a_forced b i' = r2a_forced b i.
Proof.
  intros Hb. unfold acquire_shadow_node, find_or_create_shadow_node, create_shadow_node.
  rewrite (st_node b Hb). destruct (shadow_node_identity_ i) as [d|]; [|done].
  destruct (shadow_node_ i); [done|]. destruct (g !! d) as [n|]; [|done]. by destruct (alive n).
Qed.

Lemma release_state alive g i :
  let '(g', i') := release_shadow_node alive g i in
  state_ i' = state_ i /\ service_type_ i' = service_type_ i /\
  may_start_a2r_bridge_ i' = may_start_a2r_bridge_ i.
Proof.
  unfold release_shadow_node. destruct (shadow_node_ i), (shadow_node_identity_ i); done.
Qed.

Lemma andb_pair (x y : bool) : x && y = true <-> x = true /\ y = true.
Proof. apply andb_true_iff. Qed.

Lemma pending_follows b alive g i s g' i' s' :
  steady b -> state_ i = PENDING -> service_type_ i <> None ->
  check_and_update_pending b alive g i s = Some (g', i', s') ->
  arrow b i PENDING (state_ i') \/ state_ i' = PENDING /\ forall st, ~ arrow b i PENDING st.
Proof.
  intros Hb Hst Hty. unfold check_and_update_pending.
  destruct (may_start_r2a_bridge_ i && agno_service_exists b 0) eqn:E5.
  - pose proof (acquire_state b alive g i s Hb) as Ha. apply andb_pair in E5 as [Hm Hs].
    destruct (acquire_shadow_node _ _ _ _ _) as [[[g1 i1] s1] acquired].
    destruct Ha as (-> & Hst1 & Hty1 & _ & Hf1). rw Hf1. destruct (_ || _) eqn:E.
    + apply orb_true_iff in E. unfold start_r2a_bridge. rw (st_info b Hb).
      destruct (get_agno_service_qos _) as [q|] eqn:Eq.
      2: { unfold agno_service_exists in Hs. rewrite Eq in Hs. by apply bool_decide_eq_true in Hs as []. }
      destruct (start_bridge b true q i1 s1) as [[[i2 s2] started]|] eqn:Est; [|done].
      intros [= <- <- <-]. left. simpl.
      rw (start_bridge_state b true q i1 s1 i2 s2 started); [|done|congruence|done]. by apply arrow_start_r2a.
    + apply orb_false_iff in E as [E1 E2]. intros [= <- <- <-]. right. split; [congruence|].
      intros st Harrow. inversion Harrow; intuition congruence.
  - apply andb_false_iff in E5.
    assert (~ (may_start_r2a_bridge_ i = true /\ agno_service_exists b 0 = true)) as Hno
      by (intros [H1 H2]; destruct E5; congruence).
    pose proof (release_state alive g i) as Hr. destruct (release_shadow_node alive g i) as [g1 i1].
    destruct Hr as (Hst1 & Hty1 & Ha1). rw Ha1.
    destruct (may_start_a2r_bridge_ i && ros2_service_exists b && agno_client_exists b 0) eqn:E3.
    + apply andb_pair in E3 as [[E3 E3']%andb_pair Hc]. unfold start_a2r_bridge.
      destruct (start_bridge b false ServicesQoS i1 s) as [[[i2 s2] started]|] eqn:Est; [|done].
      intros [= <- <- <-]. left. simpl.
      rw (start_bridge_state b false ServicesQoS i1 s i2 s2 started); [|done|congruence|done].
      by apply arrow_start_a2r.
    + assert (agno_client_exists b 1 = agno_client_exists b 0) as ->
        by (unfold agno_client_exists; by rw (st_client b Hb)).
      assert (~ (may_start_a2r_bridge_ i = true /\ ros2_service_exists b = true /\
        agno_client_exists b 0 = true)) as Hno3 by (intros (H1 & H2 & H3); by rewrite H1 H2 H3 in E3).
      destruct (agno_client_exists b 0) eqn:Hc; intros [= <- <- <-].
      * right. split; [congruence|]. intros st Harrow. inversion Harrow; intuition congruence.
      * left. apply arrow_leave; [done|by rw Hc|done].
Qed.

(** C35. One tick of [check_and_update_service_bridges] on a service, when the answers do not change during
    the tick and creations succeed, follows the state diagram of the header exactly: the service goes
    along an arrow whose condition holds, when there is one, and stays in its state otherwise; on
    reaching [NONE] it is removed. *)
Theorem service_follows_diagram sn ns m b name i :
  reachable sn ns m -> steady b -> active_service_bridges_ m !! name = Some i ->
  exists m' st,
    check_and_update_service b name m = Some m' /\
    (arrow b i (state_ i) st \/ st = state_ i /\ forall st', ~ arrow b i (state_ i) st') /\
    state_ <$> active_service_bridges_ m' !! name = (if decide (st = NONE) then None else Some st) /\
    forall k, k <> name -> active_service_bridges_ m' !! k = active_service_bridges_ m !! k.
Proof.
  intros Hr Hb Hi. pose proof (manager_reachable_ok sn ns m Hr) as [H1 H2 H3]. destruct (H1 name i Hi) as [Hwf Hst].
  unfold check_and_update_service. rw Hi.
  destruct (check_and_update_ok b (active_service_bridges_ m) (g_shadow_nodes m) name i (pubsub m))
    as (g & i' & s & He & _); [done..|]. rw He. eexists _, (state_ i'). split; [reflexivity|].
  assert (arrow b i (state_ i) (state_ i') \/ state_ i' = state_ i /\ forall st', ~ arrow b i (state_ i) st')
    as Harrow.
  { revert He. unfold check_and_update. destruct (state_ i) eqn:Est; [done| | |].
    - intros He. by eapply pending_follows; [done|done|by apply (iw_type _ Hwf); congruence|].
    - unfold check_and_update_a2r. destruct (negb _) eqn:E.
      + destruct (remove_and_stop_groups _ _); [|done]. intros [= _ <- _]. left. apply arrow_stop_a2r.
        destruct (may_start_r2a_bridge_ i), (agno_service_exists b 0), (ros2_service_exists b),
          (agno_client_exists b 0); naive_solver.
      + intros [= _ <- _]. right. split; [done|]. intros st Ha. inversion Ha; subst.
        destruct (may_start_r2a_bridge_ i), (agno_service_exists b 0), (ros2_service_exists b),
          (agno_client_exists b 0); naive_solver.
    - unfold check_and_update_r2a. destruct (negb _) eqn:E.
      + destruct (remove_and_stop_groups _ _); [|done]. intros [= _ <- _]. left. apply arrow_stop_r2a.
        destruct (agno_service_exists b 0), (ros2_client_exists b), (r2a_forced b i); naive_solver.
      + intros [= _ <- _]. right. split; [done|]. intros st Ha. inversion Ha; subst.
        destruct (agno_service_exists b 0), (ros2_client_exists b), (r2a_forced b i); naive_solver. }
  split; [done|]. simpl. case_decide; split.
  - by rw lookup_delete_eq.
  - intros k Hk. by rw lookup_delete_ne.
  - by rw lookup_insert_eq.
  - intros k Hk. by rw lookup_insert_ne.
Qed.

(** ** Topics are bridged as their two sides demand *)

(** Two states that agree on a topic. *)
Definition agree (t : string) (s s' : pubsub_state) : Prop :=
  (forall d, get d (active_pubsub_bridges s') !! t = get d (active_pubsub_bridges s) !! t) /\
  request_cache_ s' !! t = request_cache_ s !! t /\
  (forall d, get d (daemon_forced s') !! t = get d (daemon_forced s) !! t).

Lemma agree_refl t s : agree t s s.
Proof. done. Qed.

Lemma agree_trans t s1 s2 s3 : agree t s1 s2 -> agree t s2 s3 -> agree t s1 s3.
Proof. intros (H1 & H2 & H3) (H4 & H5 & H6). split; [|split]; intros; congruence. Qed.

(** A loop over distinct topics whose body changes only its topic: what the body does to its topic is
    what the loop does to it. *)
Lemma for_each_topic (ok : pubsub_state -> Prop) (body : string -> pubsub_state -> option pubsub_state)
    (R : string -> pubsub_state -> pubsub_state -> Prop) keys s0 :
  (forall k s s1 s2, R k s s1 -> agree k s1 s2 -> R k s s2) ->
  (forall k s s', agree k s s' -> (forall s1, R k s' s1 -> R k s s1)) ->
  (forall k s, ok s -> k ∈ keys -> agree k s0 s ->
     exists s', body k s = Some s' /\ ok s' /\ R k s s' /\ forall t, t <> k -> agree t s s') ->
  ok s0 -> NoDup keys ->
  exists s', for_each body keys s0 = Some s' /\ ok s' /\ (forall k, k ∈ keys -> R k s0 s') /\
    forall t, (t ∉ keys) -> agree t s0 s'.
Proof.
  intros HR1 HR2 Hb. assert (forall s, (forall k, k ∈ keys -> agree k s0 s) -> ok s -> NoDup keys ->
    exists s', for_each body keys s = Some s' /\ ok s' /\ (forall k, k ∈ keys -> R k s s') /\
      forall t, (t ∉ keys) -> agree t s s') as Hgen.
  2: { apply Hgen. intros k _. apply agree_refl. }
  induction keys as [|k keys IH]; intros s Hag Hok Hnd.
  - exists s. split; [done|]. split; [done|]. split; [by intros k ?%elem_of_nil|]. intros t _. apply agree_refl.
  - apply NoDup_cons in Hnd as [Hk Hnd].
    destruct (Hb k s Hok (list_elem_of_here _ _) (Hag k (list_elem_of_here _ _))) as (s1 & He & Hok1 & HRk & Hfr).
    destruct (IH (fun k' s' Ho Hin => Hb k' s' Ho (list_elem_of_further _ _ _ Hin)) s1)
      as (s2 & He2 & Hok2 & HR & Hfr2); [| done | done |].
    + intros k' Hin. eapply agree_trans; [apply Hag; by right|]. apply Hfr. by intros ->.
    + exists s2. simpl. rw He. split; [done|]. split; [done|]. split.
      * intros k' [-> |Hin]%elem_of_cons; [by eapply HR1, Hfr2|].
        apply (HR2 k' s s1); [apply Hfr; by intros ->|by apply HR].
      * intros t [Hne Hnin]%not_elem_of_cons. eapply agree_trans; [by apply Hfr|by apply Hfr2].
Qed.

Lemma activate_agree d topic has s s' :
  (let '(group, s) := new_group has s in activate d topic group s) = Some s' ->
  (forall d', is_active d' topic s' = (bool_decide (d' = d) || is_active d' topic s)) /\
  request_cache_ s' = request_cache_ s /\ daemon_forced s' = daemon_forced s /\
  forall t, t <> topic -> agree t s s'.
Proof.
  intros He. assert (exists group, active_pubsub_bridges s' =
    put d (<[topic := group]> (get d (active_pubsub_bridges s))) (active_pubsub_bridges s) /\
    request_cache_ s' = request_cache_ s /\ daemon_forced s' = daemon_forced s) as (group & Ha & Hc & Hf).
  { revert He. unfold new_group, activate, add_group, add_callback_group. destruct has; simpl.
    - case_bool_decide; [|done]. intros [= <-]. by eexists.
    - intros [= <-]. by eexists. }
  split; [|split; [done|split; [done|]]].
  - intros d'. unfold is_active. rw Ha get_put. destruct (decide (d' = d)) as [-> |Hd].
    + rw lookup_insert_eq. rw (bool_decide_true (d = d)) //=.
    + by rw (bool_decide_false (d' = d)).
  - intros t Ht. split; [|split]; [|by rw Hc|by rw Hf]. intros d'. rw Ha get_put. case_decide; subst; [|done].
    by rw lookup_insert_ne.
Qed.

Section demand.
Context (sn ns : string) (a : answers) (items : gmap string service_item) (low : Z).

Definition direction_of (is_r2a : bool) : Z := if is_r2a then ROS2_TO_AGNOCAST else AGNOCAST_TO_ROS2.

(** An endpoint that asked for the direction. *)
Definition wanted (is_r2a : bool) (t : string) (s : pubsub_state) : Prop :=
  map_Exists (fun _ r => rq_direction r = direction_of is_r2a) (requests_of t s).

(** Both sides are there. *)
Definition demanded (is_r2a : bool) (t : string) : Prop :=
  0 < agnocast_count a is_r2a t /\ is_demanded_by_ros2 sn ns a is_r2a t = Some true.

(** The module and the graph answer, the loader makes what it is asked for, and the loops meet every entry. *)
Record cooperative (s : pubsub_state) : Prop := {
  co_nodup : NoDup (topic_order a);
  co_topics : forall t, t ∈ topic_order a \/
    request_cache_ s !! t = None /\ forall d, get d (active_pubsub_bridges s) !! t = None /\
      get d (daemon_forced s) !! t = None;
  co_ids : forall t id r, requests_of t s !! id = Some r ->
    id ∈ id_order a t /\ id <> -1 /\ request_valid a t id r = true;
  co_created : forall d t type q, exists g, create_pubsub_bridge a d t type q = Created g;
  co_count : forall d t, agnocast_count a d t <> -1;
  co_endpoints : graph_endpoints a;
  co_counts : graph_counts a
}.

Lemma qos_source_spec d t s :
  (forall id r, requests_of t s !! id = Some r -> id ∈ id_order a t) ->
  match qos_source a (direction_of d) t s with
  | Some id => exists r, requests_of t s !! id = Some r /\ rq_direction r = direction_of d
  | None => ~ wanted d t s
  end.
Proof.
  intros Hids. unfold qos_source. destruct (List.find _ _) as [id|] eqn:E.
  - apply find_some in E as [_ E]. destruct (requests_of t s !! id) as [r|]; [|done].
    exists r. split; [done|]. by apply Z.eqb_eq.
  - intros (id & r & Hr & Hd). pose proof (find_none _ _ E id) as Hno.
    rewrite Hr in Hno. apply Z.eqb_eq in Hd. rewrite Hd in Hno.
    enough (true = false) by done. apply Hno. apply list_elem_of_In. by eapply Hids.
Qed.

Lemma direction_of_eqb d : (direction_of d =? ROS2_TO_AGNOCAST) = d.
Proof. by destruct d. Qed.

Lemma should_create_spec d t s :
  should_create_pubsub_bridge sn ns a d t s = Some true <-> is_active d t s = false /\ demanded d t.
Proof.
  unfold should_create_pubsub_bridge, demanded. destruct (is_active d t s); simpl; [naive_solver|].
  destruct (0 <? _) eqn:E; [apply Z.ltb_lt in E|apply Z.ltb_ge in E]; [naive_solver|].
  split; [done|]. intros [_ [? _]]. lia.
Qed.

(** What one attempt to make a bridge does. *)
Lemma create_if_needed_effect d t type s :
  (forall id r, requests_of t s !! id = Some r ->
     id ∈ id_order a t /\ id <> -1 /\ request_valid a t id r = true) ->
  (forall d t type q, exists g, create_pubsub_bridge a d t type q = Created g) ->
  graph_endpoints a -> graph_counts a -> topics_ok items low s ->
  exists s', create_pubsub_bridge_if_needed sn ns a (direction_of d) t type s = Some s' /\
    topics_ok items low s' /\ request_cache_ s' = request_cache_ s /\ daemon_forced s' = daemon_forced s /\
    (forall t', t' <> t -> agree t' s s') /\
    forall d', is_active d' t s' = true <->
      is_active d' t s = true \/ d' = d /\ demanded d t /\ wanted d t s.
Proof.
  intros Hids Hcr Hge Hgc Hok. pose proof (create_if_needed_ok items low sn ns a (direction_of d) t type s Hok) as Hends.
  apply ends_returns in Hends as (s' & He & Hok'); [|tauto]. exists s'. split; [done|]. split; [done|]. revert He.
  unfold create_pubsub_bridge_if_needed. cbv zeta. rw direction_of_eqb.
  assert (~ (is_active d t s = false /\ demanded d t /\ wanted d t s) -> s' = s ->
    request_cache_ s' = request_cache_ s /\ daemon_forced s' = daemon_forced s /\
    (forall t', t' <> t -> agree t' s s') /\
    forall d', is_active d' t s' = true <->
      is_active d' t s = true \/ d' = d /\ demanded d t /\ wanted d t s) as Hsame.
  { intros Hno ->. split; [done|]. split; [done|]. split; [intros; apply agree_refl|]. intros d'.
    split; [by left|]. intros [?|(-> & Hd & Hw)]; [done|]. apply not_false_iff_true. intros Ha. by apply Hno. }
  destruct (should_create_pubsub_bridge _ _ _ _ _ _) as [[]|] eqn:Hs; [| |done].
  2: { assert (~ (is_active d t s = false /\ demanded d t)) as Hno by (intros Hx%should_create_spec; congruence).
       intros [= ->]. apply Hsame; [tauto|done]. }
  apply should_create_spec in Hs as [Ha Hd].
  pose proof (qos_source_spec d t s (fun id r Hr => proj1 (Hids id r Hr))) as Hq.
  destruct (qos_source _ _ _ _) as [id|]; [|intros [= ->]; apply Hsame; [tauto|done]].
  destruct Hq as (r & Hr & Hrd). destruct (Hids id r Hr) as (_ & Hne & Hv).
  apply Z.eqb_neq in Hne. rw Hne. simpl.
  assert (exists q, (if d then get_subscriber_qos (ioctl_subscriber_qos a t id)
                     else get_publisher_qos (ioctl_publisher_qos a t id)) = Some q) as [q ->].
  { unfold request_valid in Hv. rewrite Hrd direction_of_eqb in Hv.
    destruct d; apply bool_decide_eq_true in Hv as [q Hq]; by exists q. }
  destruct (Hcr d t type q) as [g ->]. rw Hgc. intros He.
  destruct (activate_agree d t g s s' He) as (Hact & Hc & Hf & Hag).
  split; [done|]. split; [done|]. split; [done|]. intros d'. rw Hact orb_true_iff bool_decide_eq_true.
  split; [|tauto]. intros [-> |?]; [|by left]. right. split; [done|]. split; [done|]. by exists id, r.
Qed.

Lemma agree_active t s s' d : agree t s s' -> is_active d t s' = is_active d t s.
Proof. intros (H & _ & _). unfold is_active. by rw H. Qed.

Lemma agree_requests t s s' : agree t s s' -> requests_of t s' = requests_of t s.
Proof. intros (_ & H & _). unfold requests_of. by rw H. Qed.

Lemma agree_wanted t s s' d : agree t s s' -> wanted d t s' <-> wanted d t s.
Proof. intros H. unfold wanted. by rw (agree_requests _ _ _ H). Qed.

Lemma agree_forced t s s' d : agree t s s' -> is_daemon_forced a d t s' = is_daemon_forced a d t s.
Proof. intros (_ & _ & H). unfold is_daemon_forced. by rw H. Qed.

(** Which bridges of a topic are active after a sweep, and that its leases are as before. *)
Definition sweep (after : bool -> string -> pubsub_state -> Prop) (t : string) (s s' : pubsub_state) : Prop :=
  (forall d, is_active d t s' = true <-> after d t s) /\
  (forall d, is_daemon_forced a d t s' = is_daemon_forced a d t s).

Lemma sweep_loop after body s0 keys :
  (forall d t s s', agree t s s' -> after d t s' <-> after d t s) ->
  (forall t s, topics_ok items low s -> t ∈ keys -> agree t s0 s ->
     exists s', body t s = Some s' /\ topics_ok items low s' /\ sweep after t s s' /\
       forall t', t' <> t -> agree t' s s') ->
  topics_ok items low s0 -> NoDup keys ->
  exists s', for_each body keys s0 = Some s' /\ topics_ok items low s' /\
    (forall t, t ∈ keys -> sweep after t s0 s') /\ forall t, (t ∉ keys) -> agree t s0 s'.
Proof.
  intros Hafter Hb Hok Hnd. apply (for_each_topic (topics_ok items low) body (sweep after)); [| |done..].
  - intros k s s1 s2 [H1 H2] Hag. split; intros d; [by rw (agree_active _ _ _ d Hag)|].
    by rw (agree_forced _ _ _ d Hag).
  - intros k s s' Hag s1 [H1 H2]. split; intros d; [rw H1; by apply Hafter|].
    rw H2. by apply agree_forced.
Qed.

Lemma wanted_none d t s : request_cache_ s !! t = None -> ~ wanted d t s.
Proof. unfold wanted, requests_of. intros -> (id & r & Hr & _). by rewrite lookup_empty in Hr. Qed.

Lemma erase_if_empty_agree t s :
  (forall t', t' <> t -> agree t' s (erase_if_empty t s)) /\
  (forall d, is_active d t (erase_if_empty t s) = is_active d t s) /\
  (forall d, is_daemon_forced a d t (erase_if_empty t s) = is_daemon_forced a d t s).
Proof.
  unfold erase_if_empty. case_bool_decide; [|done]. split; [|done]. intros t' Ht.
  split; [done|]. split; [simpl; by rw lookup_delete_ne|done].
Qed.

Definition after_create (d : bool) (t : string) (s : pubsub_state) : Prop :=
  is_active d t s = true \/ demanded d t /\ wanted d t s.

Lemma create_topic_effect t s :
  (forall id r, requests_of t s !! id = Some r ->
     id ∈ id_order a t /\ id <> -1 /\ request_valid a t id r = true) ->
  (forall d t type q, exists g, create_pubsub_bridge a d t type q = Created g) ->
  graph_endpoints a -> graph_counts a -> topics_ok items low s ->
  exists s', check_and_create_topic sn ns a t s = Some s' /\ topics_ok items low s' /\
    sweep after_create t s s' /\ forall t', t' <> t -> agree t' s s'.
Proof.
  intros Hids Hcr Hge Hgc Hok. unfold check_and_create_topic.
  assert (forall s', (forall d, ~ wanted d t s) -> (forall d, is_active d t s' = is_active d t s) ->
    (forall d, is_daemon_forced a d t s' = is_daemon_forced a d t s) -> sweep after_create t s s') as Hsame.
  { intros s' Hno Ha Hf. split; [|done]. intros d. rw Ha. unfold after_create. specialize (Hno d). tauto. }
  case_bool_decide as Hin.
  2: { exists s. split; [done|]. split; [done|]. split; [|intros; apply agree_refl].
       apply Hsame; [|done|done]. intros d. apply wanted_none. by apply eq_None_not_Some. }
  destruct (first_request a t s) as [r|] eqn:Hr.
  2: { destruct (erase_if_empty_agree t s) as (H1 & H2 & H3).
       exists (erase_if_empty t s). split; [done|]. split; [|split; [|done]].
       - by apply erase_if_empty_ok.
       - apply Hsame; [|done|done]. intros d (id & r & Hr' & _). destruct (Hids id r Hr') as [Hid _].
         unfold first_request in Hr. apply head_None in Hr.
         assert (r ∈ omap (fun id => requests_of t s !! id) (id_order a t)) as Hx
           by (apply list_elem_of_omap; by exists id).
         rewrite Hr in Hx. by apply elem_of_nil in Hx. }
  destruct (create_if_needed_effect true t (rq_message_type r) s Hids Hcr Hge Hgc Hok)
    as (s1 & He1 & Hok1 & Hc1 & Hf1 & Hag1 & Ha1).
  assert (requests_of t s1 = requests_of t s) as Hreq by (unfold requests_of; by rw Hc1).
  destruct (create_if_needed_effect false t (rq_message_type r) s1)
    as (s2 & He2 & Hok2 & Hc2 & Hf2 & Hag2 & Ha2); [by rw Hreq|done..|].
  simpl direction_of in *. rw He1 He2. destruct (erase_if_empty_agree t s2) as (H1 & H2 & H3).
  exists (erase_if_empty t s2). split; [done|]. split; [|split; [split|]].
  - by apply erase_if_empty_ok.
  - intros d. rw H2 Ha2 Ha1. unfold after_create.
    assert (wanted false t s1 <-> wanted false t s) as -> by (unfold wanted; by rw Hreq).
    destruct d; naive_solver.
  - intros d. rw H3. unfold is_daemon_forced. by rw Hf2 Hf1.
  - intros t' Ht. eapply agree_trans; [by apply Hag1|]. eapply agree_trans; [by apply Hag2|]. by apply H1.
Qed.

Definition after_forced (side d : bool) (t : string) (s : pubsub_state) : Prop :=
  is_active d t s = true \/ d = side /\ is_daemon_forced a d t s = true /\ 0 < agnocast_count a d t.

Lemma forced_topic_effect side t s :
  (forall d t type q, exists g, create_pubsub_bridge a d t type q = Created g) ->
  graph_counts a -> topics_ok items low s ->
  exists s', create_daemon_forced_topic a side t s = Some s' /\ topics_ok items low s' /\
    sweep (after_forced side) t s s' /\ forall t', t' <> t -> agree t' s s'.
Proof.
  intros Hcr Hgc Hok. unfold create_daemon_forced_topic.
  assert (~ (is_active side t s = false /\ is_daemon_forced a side t s = true /\ 0 < agnocast_count a side t) ->
    sweep (after_forced side) t s s /\ forall t', t' <> t -> agree t' s s) as Hsame.
  { intros Hno. split; [|intros; apply agree_refl]. split; [|done]. intros d. unfold after_forced.
    split; [by left|]. intros [?|(-> & Hf & Hn)]; [done|]. apply not_false_iff_true. tauto. }
  destruct (get side (daemon_forced s) !! t) as [f|] eqn:Hf.
  2: { exists s. split; [done|]. split; [done|]. apply Hsame. intros (_ & Hx & _).
       unfold is_daemon_forced in Hx. by rewrite Hf in Hx. }
  destruct (forced_until f <=? steady_now a t) eqn:Ht.
  - apply Z.leb_le in Ht. eexists. split; [reflexivity|]. split; [done|].
    assert (is_daemon_forced a side t s = false) as Hnf.
    { unfold is_daemon_forced, is_daemon_force_active. rw Hf. by apply Z.ltb_ge. }
    split; [split|].
    + intros d. unfold after_forced. split; [by left|]. intros [?|(-> & Hx & _)]; [done|congruence].
    + intros d. destruct (decide (d = side)) as [-> |Hd].
      * rw Hnf. unfold is_daemon_forced. simpl. rw get_put decide_True // lookup_delete_eq //.
      * unfold is_daemon_forced. simpl. rw get_put decide_False //.
    + intros t' Ht'. split; [done|split; [done|]]. intros d. simpl. rw get_put. case_decide; subst; [|done].
      by rw lookup_delete_ne.
  - apply Z.leb_gt in Ht. destruct (negb _ && _) eqn:E.
    2: { exists s. split; [done|]. split; [done|]. apply Hsame. intros (Ha & _ & Hn). rewrite Ha in E.
         apply Z.ltb_ge in E. lia. }
    apply andb_pair in E as [Ha%negb_true_iff Hn%Z.ltb_lt]. unfold activate_daemon_forced_bridge.
    destruct (Hcr side t (fr_message_type f) (fr_qos f)) as [g ->]. rw Hgc.
    destruct (activate_ok items low side t g s Hok (active_false _ _ _ Ha)) as (s' & He & Hok').
    exists s'. split; [done|]. split; [done|]. destruct (activate_agree side t g s s' He) as (Hact & Hc & Hfo & Hag).
    split; [|done]. split; [|intros d; unfold is_daemon_forced; by rw Hfo].
    intros d. rw Hact orb_true_iff bool_decide_eq_true. unfold after_forced.
    assert (is_daemon_forced a side t s = true) as Hforced.
    { unfold is_daemon_forced, is_daemon_force_active. rw Hf. by apply Z.ltb_lt. }
    split; [|tauto]. intros [-> |?]; [|by left]. by right.
Qed.

Definition after_remove (side d : bool) (t : string) (s : pubsub_state) : Prop :=
  is_active d t s = true /\ (d = side -> 0 < agnocast_count a d t /\
    (is_demanded_by_ros2 sn ns a d t = Some true \/ is_daemon_forced a d t s = true)).

Lemma remove_topic_effect side t s :
  (forall d t, agnocast_count a d t <> -1) -> graph_endpoints a -> graph_counts a -> topics_ok items low s ->
  exists s', check_and_remove_topic sn ns a side t s = Some (s', false) /\ topics_ok items low s' /\
    sweep (after_remove side) t s s' /\ forall t', t' <> t -> agree t' s s'.
Proof.
  intros Hcount Hge Hgc Hok. unfold check_and_remove_topic.
  destruct (get side (active_pubsub_bridges s) !! t) as [group|] eqn:Hg.
  2: { exists s. split; [done|]. split; [done|]. split; [|intros; apply agree_refl]. split; [|done].
       intros d. unfold after_remove. split; [|tauto]. intros Ha. split; [done|]. intros ->.
       unfold is_active in Ha. rewrite Hg in Ha. by apply bool_decide_eq_true in Ha as []. }
  cbv zeta. pose proof (Hcount side t) as Hc%Z.eqb_neq. rw Hc.
  destruct (demanded_answers sn ns a side t Hge) as [dem Hdem]. rw Hdem Hgc.
  destruct (_ || _) eqn:E.
  - destruct (deactivate_ok items low side t group s Hok Hg) as (s' & He & Hok'). exists s'.
    destruct (remove_and_stop_group group s) as [s1|] eqn:E1; [|done].
    assert (active_pubsub_bridges s1 = active_pubsub_bridges s /\ request_cache_ s1 = request_cache_ s /\
      daemon_forced s1 = daemon_forced s) as (Ha1 & Hc1 & Hf1).
    { destruct group as [g|]; simpl in E1; [|by injection E1 as <-].
      unfold remove_callback_group in E1. case_bool_decide; [|done]. by injection E1 as <-. }
    injection He as <-. split; [done|]. split; [done|]. split; [split|].
    + intros d. unfold after_remove, is_active. simpl. rw get_put Ha1.
      destruct (decide (d = side)) as [-> |Hd]; [|naive_solver].
      rw lookup_delete_eq. split; [by intros []%bool_decide_eq_true|]. intros (_ & Hx).
      destruct (Hx eq_refl) as [Hn Hk]. apply orb_true_iff in E as [E%Z.leb_le|E]; [lia|].
      apply andb_pair in E as [E2%negb_true_iff E3%negb_true_iff]. destruct Hk; congruence.
    + intros d. unfold is_daemon_forced. simpl. by rw Hf1.
    + intros t' Ht'. split; [|split]; simpl; [|by rw Hc1|by rw Hf1]. intros d. rw get_put Ha1.
      case_decide; subst; [|done]. by rw lookup_delete_ne.
  - eexists. split; [reflexivity|]. split; [done|]. split; [|by intros t' _; split; [|split]]. split; [|done].
    intros d. unfold after_remove. change (is_active d t (emit (set_ros2_num side t) s)) with (is_active d t s).
    split; [|tauto]. intros Ha. split; [done|]. intros ->.
    apply orb_false_iff in E as [E1%Z.leb_gt E2]. split; [done|].
    rw Hdem. destruct dem; [by left|]. by right; apply negb_false_iff.
Qed.

Lemma remove_loop_for_each side keys s s' :
  (forall t s s1 stop, check_and_remove_topic sn ns a side t s = Some (s1, stop) -> stop = false) ->
  for_each (fun t s => fst <$> check_and_remove_topic sn ns a side t s) keys s = Some s' ->
  check_and_remove_loop sn ns a side keys s = Some (s', false).
Proof.
  intros Hno. revert s. induction keys as [|t keys IH]; intros s; simpl; [by intros [= ->]|].
  destruct (check_and_remove_topic sn ns a side t s) as [[s1 stop]|] eqn:E; [|done].
  rw (Hno _ _ _ _ E). apply IH.
Qed.

Lemma stop_needs_error side t s s1 stop :
  (forall d t, agnocast_count a d t <> -1) ->
  check_and_remove_topic sn ns a side t s = Some (s1, stop) -> stop = false.
Proof.
  intros Hcount. unfold check_and_remove_topic. destruct (get side _ !! t); [|by intros [= _ <-]].
  cbv zeta. pose proof (Hcount side t) as Hc%Z.eqb_neq. rw Hc. destruct (is_demanded_by_ros2 _ _ _ _ _); [|done].
  destruct (_ || _); [|destruct (count_ros2 _ _ _); [|done]; by intros [= _ <-]].
  destruct (remove_and_stop_group _ _); [|done]. by intros [= _ <-].
Qed.

Lemma after_agree t s s' : agree t s s' ->
  (forall d, after_create d t s' <-> after_create d t s) /\
  (forall side d, after_forced side d t s' <-> after_forced side d t s) /\
  (forall side d, after_remove side d t s' <-> after_remove side d t s).
Proof.
  intros Hag. unfold after_create, after_forced, after_remove. split; [|split]; intros;
    rw ?(agree_active _ _ _ _ Hag) ?(agree_wanted _ _ _ _ Hag) ?(agree_forced _ _ _ _ Hag) //.
Qed.

(** The three sweeps one after the other. *)
Definition three_sweeps (s : pubsub_state) : option pubsub_state :=
  unwrap s := check_and_create_pubsub_bridges sn ns a s orelse None;
  unwrap s := create_daemon_forced_bridges a s orelse None;
  check_and_remove_pubsub_bridges sn ns a s.

(** The bridges that should be active after the three sweeps. *)
Definition should_be_active (d : bool) (t : string) (s : pubsub_state) : Prop :=
  0 < agnocast_count a d t /\
  (is_demanded_by_ros2 sn ns a d t = Some true /\ (is_active d t s = true \/ wanted d t s) \/
   is_daemon_forced a d t s = true).

Lemma sweeps_combine (P R A W F : Prop) (d : bool) :
  (((((A \/ (P /\ R) /\ W) \/ d = true /\ F /\ P) \/ d = false /\ F /\ P) /\ (d = true -> P /\ (R \/ F))) /\
    (d = false -> P /\ (R \/ F))) <-> P /\ (R /\ (A \/ W) \/ F).
Proof. destruct d; intuition congruence. Qed.

Lemma three_sweeps_effect s :
  cooperative s -> topics_ok items low s ->
  exists s', three_sweeps s = Some s' /\ forall d t, is_active d t s' = true <-> should_be_active d t s.
Proof.
  intros [Hnd Htopics Hids Hcr Hcount Hge Hgc] Hok. unfold three_sweeps.
  destruct (sweep_loop after_create (check_and_create_topic sn ns a) s (topic_order a))
    as (s1 & E1 & Hok1 & H1 & Hrest1); [intros d t s1 s2 Hag; apply after_agree, Hag| |done|done|].
  { intros t s1 Hok1 _ Hag. apply create_topic_effect; [|done..]. intros id r.
    rw (agree_requests _ _ _ Hag). apply Hids. }
  unfold check_and_create_pubsub_bridges. rw E1.
  destruct (sweep_loop (after_forced true) (create_daemon_forced_topic a true) s1 (topic_order a))
    as (s2 & E2 & Hok2 & H2 & Hrest2); [intros d t s2 s3 Hag; apply after_agree, Hag| |done|done|].
  { intros t s2 Hok2 _ _. by apply forced_topic_effect. }
  destruct (sweep_loop (after_forced false) (create_daemon_forced_topic a false) s2 (topic_order a))
    as (s3 & E3 & Hok3 & H3 & Hrest3); [intros d t s3 s4 Hag; apply after_agree, Hag| |done|done|].
  { intros t s3 Hok3 _ _. by apply forced_topic_effect. }
  unfold create_daemon_forced_bridges. rw E2 E3.
  assert (forall side t s3, topics_ok items low s3 ->
    exists s', fst <$> check_and_remove_topic sn ns a side t s3 = Some s' /\ topics_ok items low s' /\
      sweep (after_remove side) t s3 s' /\ forall t', t' <> t -> agree t' s3 s') as Hremove.
  { intros side t s4 Hok4. destruct (remove_topic_effect side t s4 Hcount Hge Hgc Hok4) as (s5 & -> & H). by exists s5. }
  destruct (sweep_loop (after_remove true) (fun t s => fst <$> check_and_remove_topic sn ns a true t s) s3
    (topic_order a)) as (s4 & E4 & Hok4 & H4 & Hrest4); [intros d t s4 s5 Hag; apply after_agree, Hag| |done|done|].
  { intros t s4 Hok4 _ _. by apply Hremove. }
  destruct (sweep_loop (after_remove false) (fun t s => fst <$> check_and_remove_topic sn ns a false t s) s4
    (topic_order a)) as (s5 & E5 & Hok5 & H5 & Hrest5); [intros d t s5 s6 Hag; apply after_agree, Hag| |done|done|].
  { intros t s5 Hok5 _ _. by apply Hremove. }
  unfold check_and_remove_pubsub_bridges.
  rw (remove_loop_for_each true _ s3 s4); [|intros t s' s1' stop; by apply stop_needs_error|done].
  rw (remove_loop_for_each false _ s4 s5); [|intros t s' s1' stop; by apply stop_needs_error|done].
  exists s5. split; [done|]. intros d t. destruct (decide (t ∈ topic_order a)) as [Hin|Hout].
  - destruct (H1 t Hin) as [A1 F1], (H2 t Hin) as [A2 F2], (H3 t Hin) as [A3 F3], (H4 t Hin) as [A4 F4],
      (H5 t Hin) as [A5 _].
    rw A5. unfold after_remove. rw A4. unfold after_remove. rw A3. unfold after_forced. rw A2.
    unfold after_forced. rw A1. unfold after_create. rw !F4 !F3 !F2 !F1. unfold should_be_active, demanded.
    apply sweeps_combine.
  - pose proof (agree_trans _ _ _ _ (Hrest1 t Hout) (agree_trans _ _ _ _ (Hrest2 t Hout)
      (agree_trans _ _ _ _ (Hrest3 t Hout) (agree_trans _ _ _ _ (Hrest4 t Hout) (Hrest5 t Hout))))) as Hag.
    destruct (Htopics t) as [?|[Hc Hd]]; [done|]. destruct (Hd d) as [Hda Hdf].
    rw (agree_active _ _ _ _ Hag). unfold should_be_active.
    assert (is_active d t s = false) as ->
      by (unfold is_active; rw Hda; apply bool_decide_eq_false; by intros []).
    assert (is_daemon_forced a d t s = false) as -> by (unfold is_daemon_forced; by rw Hdf).
    pose proof (wanted_none d t s Hc). naive_solver.
Qed.
End demand.

(** C34. After the three sweeps of a turn over the topics, when the module and the graph answer, every bridge asked for
    can be made and the sweeps read the same answers, a topic is bridged in a direction exactly when its Agnocast side
    has endpoints (subscribers for a bridge from ROS 2, publishers for a bridge to ROS 2) and either the daemon's lease
    for the direction has not run out, or the ROS 2 side has an endpoint other than the bridge's own (a publisher for a
    bridge from ROS 2, a subscriber for a bridge to ROS 2) and the bridge was active or an endpoint had asked for the
    direction. *)
Theorem topics_bridged_on_demand sn ns a m :
  reachable sn ns m -> cooperative a (pubsub m) ->
  exists s', three_sweeps sn ns a (pubsub m) = Some s' /\
    forall d t, is_active d t s' = true <-> should_be_active sn ns a d t (pubsub m).
Proof.
  intros Hr Hco. destruct (manager_reachable_ok sn ns m Hr) as [_ Hg _].
  by apply (three_sweeps_effect sn ns a (active_service_bridges_ m) (next_object (pubsub m))); [|split].
Qed.

(** ** A run *)

(** Every topic has one Agnocast endpoint and one ROS 2 endpoint of another node; every service has a
    server on the Agnocast side, and [ros2_client] tells whether ROS 2 has a client. *)
Definition example_answers (topics : list string) : answers :=
  Answers (fun _ => Ok (SubscriberNum 1 0 0 0 false false)) (fun _ => Ok (PublisherNum 1 0 false false))
    (fun _ _ => Ok (1, false, true)) (fun _ _ => Ok (1, false))
    (fun _ => Some [("n", "/")]) (fun _ => Some [("n", "/")]) (fun _ _ => true)
    (fun _ _ _ _ => Created true) (fun _ => 0) topics (fun _ => [7]).

Definition example_service_answers (ros2_client : bool) : service_answers :=
  ServiceAnswers false ros2_client (fun _ => Ok [TopicInfoRet "/n" 10 false true false])
    (fun _ => Ok (PublisherNum 0 0 false false)) (fun _ _ _ _ => ServiceCreated true false) true 0.

(** Two services of one node register, and the daemon asks for a topic that the sweeps of this turn do
    not meet yet. *)
Definition example_turn : turn :=
  Turn [(example_answers [], 0, ServiceMsg "T" "/s1" (Some ("n", "/")) ROS2_TO_AGNOCAST);
        (example_answers [], 0, ServiceMsg "T" "/s2" (Some ("n", "/")) ROS2_TO_AGNOCAST);
        (example_answers [], 0, DaemonPubSubMsg "/a" "T" AGNOCAST_TO_ROS2 1 false true)]
    (example_answers []) (example_answers []) (example_answers []) true (fun _ => example_service_answers false)
    ["/s1"; "/s2"] (example_answers []) (Some false) (fun _ => false).

Definition example_manager : manager := default new_manager (worker_loop "m" "/" [example_turn] new_manager).

Lemma shadow_nodes_shared_witness :
  g_shadow_nodes example_manager !! ("n", "/") = Some 0 /\
  exists name i, active_service_bridges_ example_manager !! name = Some i /\ shadow_node_ i = Some 0 /\
    shadow_node_identity_ i = Some ("n", "/").
Proof.
  split; [by vm_compute|].
  apply (shadow_nodes_shared "m" "/" example_manager); [exists [example_turn]|]; by vm_compute.
Defined.

Definition example_item : service_item :=
  default new_service_item (active_service_bridges_ example_manager !! "/s1").

Lemma service_follows_diagram_witness :
  state_ example_item = PENDING /\ exists m' st,
    check_and_update_service (example_service_answers true) "/s1" example_manager = Some m' /\
    (arrow (example_service_answers true) example_item (state_ example_item) st \/
     st = state_ example_item /\
       forall st', ~ arrow (example_service_answers true) example_item (state_ example_item) st') /\
    state_ <$> active_service_bridges_ m' !! "/s1" = (if decide (st = NONE) then None else Some st) /\
    forall k, k <> "/s1" -> active_service_bridges_ m' !! k = active_service_bridges_ example_manager !! k.
Proof.
  split; [by vm_compute|].
  apply (service_follows_diagram "m" "/" example_manager (example_service_answers true) "/s1" example_item).
  - exists [example_turn]. by vm_compute.
  - split; [done|done|done|]. intros d name type q. by exists true, false.
  - by vm_compute.
Defined.

Lemma topics_bridged_on_demand_witness :
  exists s', three_sweeps "m" "/" (example_answers ["/a"]) (pubsub example_manager) = Some s' /\
    forall d t, is_active d t s' = true <->
      should_be_active "m" "/" (example_answers ["/a"]) d t (pubsub example_manager).
Proof.
  apply (topics_bridged_on_demand "m" "/" (example_answers ["/a"]) example_manager).
  - exists [example_turn]. by vm_compute.
  - assert (request_cache_ (pubsub example_manager) = ∅) as Hc by (by vm_compute). split.
    + apply (bool_decide_unpack _). by vm_compute.
    + intros t. destruct (decide (t = "/a")) as [-> |Ht]; [left; by apply list_elem_of_here|right].
      rw Hc. split; [done|]. intros d.
      assert (forall d, get d (active_pubsub_bridges (pubsub example_manager)) = ∅) as ->
        by (intros []; by vm_compute).
      split; [done|]. assert (exists f, get d (daemon_forced (pubsub example_manager)) = ∅ \/
        get d (daemon_forced (pubsub example_manager)) = {["/a" := f]}) as [f Hf].
      { eexists. destruct d; [left; by vm_compute|right; vm_compute; reflexivity]. }
      destruct Hf as [-> | ->]; [done|]. by apply lookup_singleton_ne.
    + intros t id r. unfold requests_of. rw Hc. by rewrite lookup_empty.
    + intros d t type q. by exists true.
    + by intros [] t.
    + intros t. split; eexists; reflexivity.
    + intros d t. reflexivity.
Defined.

Lemma bridge_manager_never_exits_witness :
  exists m, worker_loop "m" "/" [example_turn] new_manager = Some m /\
    forall g, g ∈ exec_groups (pubsub m) <-> exists o, group_of (pubsub m) (active_service_bridges_ m) o = Some g.
Proof.
  destruct (bridge_manager_never_exits "m" "/" [example_turn]) as (m & Hm & Hg & _).
  - assert (graph_endpoints (example_answers [])) as He by (intros t; split; eexists; reflexivity).
    apply Forall_singleton. split; [by repeat constructor|]. split; [exact He|].
    split; [split; [exact He|intros d t; reflexivity]|reflexivity].
  - exists m. split; [exact Hm|exact Hg].
Defined.
