(* ===== verification/ThreadConfig.v ===== *)
(** * Thread configurations

    The data of agnocast_cie_thread_configurator and how it is read: sched_policy.cpp, system_scan.cpp
    (CPU lists and the scan of /proc), thread_config.cpp (the sections of the configuration file),
    startup_checks.cpp and the datagrams of non_ros_thread_ipc.hpp.  Files are the strings read from
    them; a YAML document is the answers of yaml-cpp about it (class [Yaml]), where [None] means that
    yaml-cpp throws. *)

From Stdlib Require Import Ascii.
From S2P Require Import Prelude Strings.

(** ** Scheduling policies *)

Inductive SchedPolicy := Other | Batch | Idle | Fifo | Rr | Deadline.

#[export] Instance sched_policy_eq_dec : EqDecision SchedPolicy.
Proof. solve_decision. Defined.

(** [k_policies]: name, kernel value, CFS. *)
Definition k_policies : list (SchedPolicy * string * Z * bool) :=
  [(Other, "SCHED_OTHER", 0, true); (Batch, "SCHED_BATCH", 3, true); (Idle, "SCHED_IDLE", 5, true);
   (Fifo, "SCHED_FIFO", 1, false); (Rr, "SCHED_RR", 2, false); (Deadline, "SCHED_DEADLINE", 6, false)].

Definition policy_index (p : SchedPolicy) : nat :=
  match p with Other => 0 | Batch => 1 | Idle => 2 | Fifo => 3 | Rr => 4 | Deadline => 5 end%nat.

Definition policy_entry (p : SchedPolicy) : SchedPolicy * string * Z * bool :=
  nth (policy_index p) k_policies (Other, EmptyString, 0, true).

Definition parse_sched_policy (name : string) : option SchedPolicy :=
  (fun e => e.1.1.1) <$> find (fun e => String.eqb e.1.1.2 name) k_policies.
Definition policy_to_string (p : SchedPolicy) : string := (policy_entry p).1.1.2.
Definition to_kernel_policy (p : SchedPolicy) : Z := (policy_entry p).1.2.
Definition from_kernel_policy (kernel_policy : Z) : option SchedPolicy :=
  (fun e => e.1.1.1) <$> find (fun e => e.1.2 =? kernel_policy) k_policies.
Definition is_cfs (p : SchedPolicy) : bool := (policy_entry p).2.

(** ** CPU lists *)

(** [std::sort] and [std::unique]. *)
Fixpoint unique (l : list Z) : list Z :=
  match l with
  | [] => []
  | x :: l => x :: match unique l with
                   | y :: l' => if x =? y then l' else y :: l'
                   | [] => []
                   end
  end.

Definition sort_unique (l : list Z) : list Z := unique (merge_sort Z.le l).

Definition k_max_cpu_number : Z := 8191.

(** The loop from [first] to [last]. *)
Definition cpu_range (first last : Z) : list Z := seqZ first (last - first + 1).

Definition parse_cpu_token (token : chars) : option (list Z) :=
  match find_char (is_char "-") token with
  | None =>
      unwrap cpu := to_int token orelse None;
      require (0 <=? cpu) && (cpu <=? k_max_cpu_number) orelse None;
      Some [cpu]
  | Some dash =>
      unwrap first := to_int (take dash token) orelse None;
      unwrap last := to_int (drop (S dash) token) orelse None;
      require (0 <=? first) && (first <=? last) && (last <=? k_max_cpu_number) orelse None;
      Some (cpu_range first last)
  end.

Fixpoint parse_cpu_tokens (tokens : list chars) : option (list Z) :=
  match tokens with
  | [] => Some []
  | token :: tokens =>
      unwrap cpus := parse_cpu_token token orelse None;
      unwrap rest := parse_cpu_tokens tokens orelse None;
      Some (cpus ++ rest)
  end.

Definition is_trailing (c : ascii) : bool := is_char "010" c || is_char "013" c || is_char " " c.

Fixpoint strip_trailing (s : chars) : chars :=
  match s with
  | [] => []
  | c :: s => match strip_trailing s with
              | [] => if is_trailing c then [] else [c]
              | s' => c :: s'
              end
  end.

(** A comma at the end leaves an empty token, which is no number. *)
Definition parse_cpu_list (s : chars) : option (list Z) :=
  let rest := strip_trailing s in
  require bool_decide (rest <> []) orelse None;
  sort_unique <$> parse_cpu_tokens (split_at (is_char ",") rest).

Fixpoint format_cpu_list (cpus : list Z) : chars :=
  match cpus with
  | [] => []
  | [cpu] => to_string cpu
  | cpu :: cpus => to_string cpu ++ ","%char :: format_cpu_list cpus
  end.

Definition CPU_SETSIZE : Z := 1024.

Section machine.
(** [sysconf(_SC_NPROCESSORS_CONF)]. *)
Context (nprocessors_conf : Z).

Definition manageable_cpu_bound : Z := Z.min CPU_SETSIZE nprocessors_conf - 1.

Definition parse_manageable_cpu_list (s : chars) : option (list Z) :=
  unwrap cpus := parse_cpu_list s orelse None;
  let cpus := filter (fun cpu => cpu <= manageable_cpu_bound) cpus in
  require bool_decide (cpus <> []) orelse None;
  Some cpus.
End machine.

(** ** Kernel threads and IRQs *)

Record KernelThreadInfo := MkKernelThreadInfo {
  kt_tid : Z;
  kt_comm : string;
  kt_policy : string;
  kt_nice : Z;
  kt_rt_priority : Z;
  kt_affinity : chars;
  kt_no_setaffinity : bool
}.

Record IrqInfo := MkIrqInfo { irq_number : Z; irq_name : string; irq_affinity : chars }.

Definition k_pf_kthread : Z := 0x00200000.
Definition k_pf_no_setaffinity : Z := 0x04000000.
Definition k_stat_field_flags : nat := 9.
Definition k_stat_field_nice : nat := 19.
Definition k_stat_field_rt_priority : nat := 40.
Definition k_stat_field_policy : nat := 41.

(** The tokens after the last parenthesis, without the empty ones. *)
Definition split_stat_after_comm (stat : chars) : option (list chars) :=
  unwrap close := rfind_char (is_char ")") stat orelse None;
  Some (filter (fun t => t <> []) (split_at (is_char " ") (drop (S close) stat))).

Definition stat_token (tokens : list chars) (field : nat) : option chars := tokens !! (field - 3)%nat.

Definition policy_const_to_string (policy : Z) : string :=
  match from_kernel_policy policy with
  | Some p => policy_to_string p
  | None => of_chars (to_chars "UNKNOWN(" ++ to_string policy ++ [")"%char])
  end.

Definition is_kworker_comm (comm : string) : bool := starts_with (to_chars "kworker/") (to_chars comm).

(** The comm between the first and the last parenthesis. *)
Definition stat_comm (stat : chars) : option string :=
  unwrap open := find_char (is_char "(") stat orelse None;
  unwrap close := rfind_char (is_char ")") stat orelse None;
  require (S open <? close)%nat orelse None;
  Some (of_chars (substr (S open) (close - open - 1) stat)).

(** [Cpus_allowed_list:] among the lines of the status file. *)
Fixpoint read_cpus_allowed_list (status : list chars) : option chars :=
  match status with
  | [] => None
  | line :: status =>
      let key := to_chars "Cpus_allowed_list:" in
      if starts_with key line then
        let rest := drop (length key) line in
        Some (drop (default (length rest)
                      (find_char (fun c => negb (is_char " " c || is_char "009" c)) rest)) rest)
      else read_cpus_allowed_list status
  end.

(** The first line of a stat file and the lines of a status file; [None]: unreadable. *)
Definition read_kernel_thread (stat : option chars) (status : option (list chars)) (tid : Z)
    : option KernelThreadInfo :=
  unwrap stat := stat orelse None;
  unwrap tokens := split_stat_after_comm stat orelse None;
  unwrap flags_str := stat_token tokens k_stat_field_flags orelse None;
  unwrap flags := to_unsigned_long flags_str orelse None;
  require negb (Z.land flags k_pf_kthread =? 0) orelse None;
  unwrap nice_str := stat_token tokens k_stat_field_nice orelse None;
  unwrap rt_priority_str := stat_token tokens k_stat_field_rt_priority orelse None;
  unwrap policy_str := stat_token tokens k_stat_field_policy orelse None;
  unwrap nice := to_int nice_str orelse None;
  unwrap rt_priority := to_int rt_priority_str orelse None;
  unwrap policy := to_int policy_str orelse None;
  unwrap comm := stat_comm stat orelse None;
  require negb (is_kworker_comm comm) orelse None;
  unwrap status := status orelse None;
  unwrap affinity := read_cpus_allowed_list status orelse None;
  Some (MkKernelThreadInfo tid comm (policy_const_to_string policy) nice rt_priority affinity
          (negb (Z.land flags k_pf_no_setaffinity =? 0))).

(** A directory of /proc: its name and its two files. *)
Definition proc_entry : Type := chars * option chars * option (list chars).

Definition scan_entry (e : proc_entry) : option KernelThreadInfo :=
  let '(filename, stat, status) := e in
  require is_all_digits filename orelse None;
  unwrap tid := to_int64 filename orelse None;
  read_kernel_thread stat status tid.

(** [std::tie(a.comm, a.tid) < std::tie(b.comm, b.tid)], or equal. *)
Definition comm_tid_le (a b : KernelThreadInfo) : Prop :=
  (kt_comm a <> kt_comm b /\ string_le (kt_comm a) (kt_comm b)) \/
  (kt_comm a = kt_comm b /\ kt_tid a <= kt_tid b).

#[export] Instance comm_tid_le_dec : RelDecision comm_tid_le.
Proof. intros a b. unfold comm_tid_le. apply _. Defined.

Definition scan_kernel_threads (entries : list proc_entry) : list KernelThreadInfo :=
  merge_sort comm_tid_le (omap scan_entry entries).

(** A directory of /sys/kernel/irq: its name and its actions file. *)
Definition irq_entry : Type := chars * option chars.

Definition scan_irq (smp_affinity_list : Z -> option chars) (e : irq_entry) : option IrqInfo :=
  let '(filename, actions) := e in
  require is_all_digits filename orelse None;
  unwrap irq := to_int filename orelse None;
  unwrap actions := actions orelse None;
  require bool_decide (actions <> []) orelse None;
  Some (MkIrqInfo irq (of_chars actions) (default [] (smp_affinity_list irq))).

Definition irq_le (a b : IrqInfo) : Prop := irq_number a <= irq_number b.

#[export] Instance irq_le_dec : RelDecision irq_le.
Proof. intros a b. unfold irq_le. apply _. Defined.

Definition scan_irqs (smp_affinity_list : Z -> option chars) (entries : list irq_entry) : list IrqInfo :=
  merge_sort irq_le (omap (scan_irq smp_affinity_list) entries).

(** On the first line of the actions file. *)
Definition read_irq_actions (actions : option chars) : option string :=
  match actions with
  | Some [] => None
  | Some a => Some (of_chars a)
  | None => None
  end.

Definition find_kernel_threads_by_comm (scanned : list KernelThreadInfo) (comm : string)
    : list KernelThreadInfo := filter (fun info => kt_comm info = comm) scanned.

(** ** Reading YAML *)

(** Nodes of a loaded document, and what yaml-cpp answers about them: [operator[]] on a map's key (a
    node that is not [defined] when the key is missing), [size] and [operator[]] on a list, conversions.
    [None]: it throws. *)
Class Yaml (node : Type) := {
  defined : node -> bool;
  IsNull : node -> bool;
  IsScalar : node -> bool;
  IsSequence : node -> bool;
  IsMap : node -> bool;
  Scalar : node -> string;
  at_key : node -> string -> option node;
  elements : node -> option (list node);
  as_string : node -> option string;
  as_int : node -> option Z;
  as_uint64 : node -> option Z
}.

(** What parsing throws: an exception of yaml-cpp that nothing catches, or a [std::runtime_error].  The
    texts are left out but for the description of the entry. *)
Inductive exn :=
  | YamlException
  | RequiresNice (entry_desc : string)
  | NiceNotInteger (entry_desc : string)
  | NiceOutOfRange (entry_desc : string) (value : Z)
  | RequiresPriority (entry_desc : string)
  | PriorityNotInteger (entry_desc : string)
  | PriorityOutOfRange (entry_desc : string) (value : Z)
  | NotDecimal (key entry_desc : string)
  | AffinityNotList (entry_desc : string)
  | AffinityNotIntegers (entry_desc : string)
  | CpuOutOfRange (entry_desc : string) (cpu : Z)
  | UnknownPolicy (policy entry_desc : string)
  | InvalidId (id : string)
  | InvalidWildcardId (id : string)
  | DuplicateCallbackGroup (domain_id : Z) (id : string)
  | DuplicateNonRosThread (name : string)
  | NotAList (section : string)
  | NotAMapping (section : string) (entry : nat)
  | MissingComm (entry : nat)
  | CommNotString (entry : nat)
  | NotManageable (comm : string)
  | RequiresPolicy (key entry_desc : string)
  | PolicyNotString (entry_desc : string)
  | RequiresDeadline (entry_desc : string)
  | DuplicateKernelThread (comm : string)
  | MissingIrq (entry : nat)
  | IrqNotDecimal (entry : nat)
  | NameNotString (irq : Z)
  | DuplicateIrq (irq : Z)
  | HardwareMismatch (mismatches : list (string * string * string)).

Definition exc (A : Type) : Type := exn + A.

Definition throw {A} (e : exn) : exc A := inl e.
Definition bind {A B} (x : exc A) (k : A -> exc B) : exc B :=
  match x with inl e => inl e | inr a => k a end.
(** A call that lets the exception of yaml-cpp through, and one that catches it. *)
Definition yaml {A} (x : option A) : exc A := match x with Some a => inr a | None => inl YamlException end.
Definition or_throw {A} (x : option A) (e : exn) : exc A := match x with Some a => inr a | None => inl e end.

Notation "x <-- e ; k" := (bind e (fun x => k))
  (at level 100, e at next level, right associativity) : agno_scope.
Notation "'check' b 'else' e ; k" := (if b then k else throw e)
  (at level 100, b at level 99, e at level 99, right associativity) : agno_scope.

(** ** Configurations *)

Record DeadlineParams := MkDeadline { runtime : Z; period : Z; deadline_ns : Z }.

Record SchedAttrs := MkAttrs {
  policy : option SchedPolicy;
  nice : Z;
  rt_priority : Z;
  deadline : DeadlineParams;
  affinity : list Z
}.

Definition no_deadline : DeadlineParams := MkDeadline 0 0 0.

(** [applied] and the thread ids are not part of what is parsed; they are kept with the entry. *)
Record ThreadConfig := MkThreadConfig {
  thread_str : string;
  domain_id : Z;
  attrs : SchedAttrs;
  thread_id : Z;
  matched_tids : gmap string Z;
  applied : bool
}.

Record KernelThreadConfig := MkKernelThreadConfig { comm : string; kc_attrs : SchedAttrs }.
Record IrqConfig := MkIrqConfig { irq : Z; ic_name : string; ic_affinity : list Z }.

Definition is_wildcard_str (s : string) : bool := starts_with (to_chars "*/") (reverse (to_chars s)).
Definition is_wildcard (c : ThreadConfig) : bool := is_wildcard_str (thread_str c).
Definition wildcard_prefix (c : ThreadConfig) : string :=
  of_chars (take (length (to_chars (thread_str c)) - 2) (to_chars (thread_str c))).

Definition extract_node_part (callback_group_id : string) : string :=
  let s := to_chars callback_group_id in
  match find_char (is_char "@") s with Some n => of_chars (take n s) | None => callback_group_id end.

Definition is_managed_kernel_thread (c : KernelThreadConfig) : bool :=
  bool_decide (is_Some (policy (kc_attrs c))) || bool_decide (affinity (kc_attrs c) <> []).
Definition is_managed_irq (c : IrqConfig) : bool := bool_decide (ic_affinity c <> []).

Definition k_unmanageable : string := "UNMANAGEABLE".

(** ** The sections of the configuration file *)

Section parsing.
Context {node : Type} {Y : Yaml node} (nprocessors_conf : Z).

Fixpoint for_entries {A} (f : nat -> node -> exc A) (i : nat) (l : list node) : exc (list A) :=
  match l with
  | [] => inr []
  | x :: l => a <-- f i x; rest <-- for_entries f (S i) l; inr (a :: rest)
  end.

Definition is_unset (n : node) (allow_unmanageable : bool) : bool :=
  negb (defined n) || IsNull n || (allow_unmanageable && IsScalar n && String.eqb (Scalar n) k_unmanageable).

Definition k_nice_min : Z := -20.
Definition k_nice_max : Z := 19.
Definition k_rt_priority_min : Z := 1.
Definition k_rt_priority_max : Z := 99.

Definition parse_nice (entry : node) (entry_desc : string) (allow_unmanageable : bool) : exc Z :=
  nice <-- yaml (at_key entry "nice");
  check negb (is_unset nice allow_unmanageable) else RequiresNice entry_desc;
  value <-- or_throw (as_int nice) (NiceNotInteger entry_desc);
  check (k_nice_min <=? value) && (value <=? k_nice_max) else NiceOutOfRange entry_desc value;
  inr value.

Definition parse_rt_priority (entry : node) (entry_desc : string) (allow_unmanageable : bool) : exc Z :=
  priority <-- yaml (at_key entry "priority");
  check negb (is_unset priority allow_unmanageable) else RequiresPriority entry_desc;
  value <-- or_throw (as_int priority) (PriorityNotInteger entry_desc);
  check (k_rt_priority_min <=? value) && (value <=? k_rt_priority_max)
    else PriorityOutOfRange entry_desc value;
  inr value.

(** For a type up to [high]. *)
Definition as_base10 (high : Z) (n : node) : option Z :=
  require defined n && IsScalar n orelse None;
  let s := to_chars (Scalar n) in
  require is_all_digits s orelse None;
  to_number 0 high s.

Definition parse_deadline_field (entry : node) (key entry_desc : string) : exc Z :=
  n <-- yaml (at_key entry key);
  or_throw (as_base10 (2 ^ 64 - 1) n) (NotDecimal key entry_desc).

Fixpoint parse_cpus (entry_desc : string) (l : list node) : exc (list Z) :=
  match l with
  | [] => inr []
  | n :: l =>
      cpu <-- or_throw (as_int n) (AffinityNotIntegers entry_desc);
      check (0 <=? cpu) && (cpu <=? manageable_cpu_bound nprocessors_conf) else CpuOutOfRange entry_desc cpu;
      rest <-- parse_cpus entry_desc l;
      inr (cpu :: rest)
  end.

Definition parse_affinity (entry : node) (entry_desc : string) (allow_unmanageable : bool)
    : exc (list Z) :=
  n <-- yaml (at_key entry "affinity");
  if is_unset n allow_unmanageable then inr []
  else
    check IsSequence n else AffinityNotList entry_desc;
    l <-- yaml (elements n);
    cpus <-- parse_cpus entry_desc l;
    inr (sort_unique cpus).

Definition parse_policy_or_throw (name entry_desc : string) : exc SchedPolicy :=
  or_throw (parse_sched_policy name) (UnknownPolicy name entry_desc).

(** [cg[key].as<uint64_t>()], with nothing caught. *)
Definition uint64_field (entry : node) (key : string) : exc Z :=
  n <-- yaml (at_key entry key); yaml (as_uint64 n).

(** The attributes of a callback group or a non-ROS thread. *)
Definition parse_attrs (entry : node) (entry_desc : string) : exc SchedAttrs :=
  cpus <-- parse_affinity entry entry_desc false;
  n <-- yaml (at_key entry "policy");
  name <-- yaml (as_string n);
  p <-- parse_policy_or_throw name entry_desc;
  if decide (p = Deadline) then
    r <-- uint64_field entry "runtime";
    pe <-- uint64_field entry "period";
    d <-- uint64_field entry "deadline";
    inr (MkAttrs (Some p) 0 0 (MkDeadline r pe d) cpus)
  else if is_cfs p then
    v <-- parse_nice entry entry_desc false;
    inr (MkAttrs (Some p) v 0 no_deadline cpus)
  else
    v <-- parse_rt_priority entry entry_desc false;
    inr (MkAttrs (Some p) 0 v no_deadline cpus).

Definition has_char (c : ascii) (s : chars) : bool := existsb (is_char c) s.

Definition check_id (id : string) : exc unit :=
  let s := to_chars id in
  if has_char "*" s then
    check is_wildcard_str id else InvalidId id;
    let prefix := take (length s - 2) s in
    check bool_decide (prefix <> []) && negb (has_char "*" prefix) else InvalidWildcardId id;
    check negb (has_char "@" prefix) else InvalidWildcardId id;
    inr tt
  else inr tt.

Definition new_config (str : string) (domain : Z) (a : SchedAttrs) : ThreadConfig :=
  MkThreadConfig str domain a (-1) ∅ false.

Definition parse_callback_group (default_domain_id : Z) (_ : nat) (cg : node) : exc ThreadConfig :=
  n <-- yaml (at_key cg "id");
  id <-- yaml (as_string n);
  _ <-- check_id id;
  d <-- yaml (at_key cg "domain_id");
  domain <-- (if defined d then yaml (as_uint64 d) else inr default_domain_id);
  a <-- parse_attrs cg (String.append "id=" id);
  inr (new_config id domain a).

Definition parse_non_ros_thread (_ : nat) (nrt : node) : exc ThreadConfig :=
  n <-- yaml (at_key nrt "name");
  name <-- yaml (as_string n);
  a <-- parse_attrs nrt (String.append "name=" name);
  inr (new_config name 0 a).

(** The set of the keys seen. *)
Fixpoint check_unique {A K} `{Countable K} (key : A -> K) (dup : A -> exn) (seen : gset K) (l : list A)
    : exc unit :=
  match l with
  | [] => inr tt
  | x :: l =>
      check bool_decide (key x ∉ seen) else dup x;
      check_unique key dup ({[key x]} ∪ seen) l
  end.

Definition callback_group_key (c : ThreadConfig) : string :=
  of_chars (to_string (domain_id c) ++ ":"%char :: to_chars (thread_str c)).

Definition parse_yaml (default_domain_id : Z) (doc : node) : exc (list ThreadConfig * list ThreadConfig) :=
  callback_groups <-- yaml (at_key doc "callback_groups");
  non_ros_threads <-- yaml (at_key doc "non_ros_threads");
  cgs <-- yaml (elements callback_groups);
  nrts <-- yaml (elements non_ros_threads);
  cb <-- for_entries (parse_callback_group default_domain_id) 0 cgs;
  nrt <-- for_entries parse_non_ros_thread 0 nrts;
  _ <-- check_unique callback_group_key (fun c => DuplicateCallbackGroup (domain_id c) (thread_str c)) ∅ cb;
  _ <-- check_unique thread_str (fun c => DuplicateNonRosThread (thread_str c)) ∅ nrt;
  inr (cb, nrt).

(** A key that needs 'policy', which is unset. *)
Fixpoint check_policy_fields (kt : node) (entry_desc : string) (keys : list string) : exc unit :=
  match keys with
  | [] => inr tt
  | key :: keys =>
      n <-- yaml (at_key kt key);
      check is_unset n true else RequiresPolicy key entry_desc;
      check_policy_fields kt entry_desc keys
  end.

Definition unset_key (kt : node) (key : string) : exc bool :=
  n <-- yaml (at_key kt key); inr (is_unset n true).

Definition parse_kernel_attrs (kt : node) (entry_desc : string) : exc SchedAttrs :=
  cpus <-- parse_affinity kt entry_desc true;
  n <-- yaml (at_key kt "policy");
  if is_unset n true then
    _ <-- check_policy_fields kt entry_desc ["nice"; "priority"; "runtime"; "period"; "deadline"];
    inr (MkAttrs None 0 0 no_deadline cpus)
  else
    name <-- or_throw (as_string n) (PolicyNotString entry_desc);
    p <-- parse_policy_or_throw name entry_desc;
    if decide (p = Deadline) then
      u1 <-- unset_key kt "runtime"; check negb u1 else RequiresDeadline entry_desc;
      u2 <-- unset_key kt "period"; check negb u2 else RequiresDeadline entry_desc;
      u3 <-- unset_key kt "deadline"; check negb u3 else RequiresDeadline entry_desc;
      r <-- parse_deadline_field kt "runtime" entry_desc;
      pe <-- parse_deadline_field kt "period" entry_desc;
      d <-- parse_deadline_field kt "deadline" entry_desc;
      inr (MkAttrs (Some p) 0 0 (MkDeadline r pe d) cpus)
    else if is_cfs p then
      v <-- parse_nice kt entry_desc true;
      inr (MkAttrs (Some p) v 0 no_deadline cpus)
    else
      v <-- parse_rt_priority kt entry_desc true;
      inr (MkAttrs (Some p) 0 v no_deadline cpus).

Definition parse_kernel_thread (i : nat) (kt : node) : exc KernelThreadConfig :=
  check IsMap kt else NotAMapping "kernel_threads" i;
  n <-- yaml (at_key kt "comm");
  check defined n && negb (IsNull n) else MissingComm i;
  comm <-- or_throw (as_string n) (CommNotString i);
  check negb (String.eqb comm EmptyString) else MissingComm i;
  check negb (is_kworker_comm comm) else NotManageable comm;
  a <-- parse_kernel_attrs kt (String.append "comm=" comm);
  inr (MkKernelThreadConfig comm a).

Definition section_entries (doc : node) (section : string) : exc (list node) :=
  n <-- yaml (at_key doc section);
  if negb (defined n) || IsNull n then inr []
  else
    check IsSequence n else NotAList section;
    yaml (elements n).

Definition parse_kernel_threads (doc : node) : exc (list KernelThreadConfig) :=
  l <-- section_entries doc "kernel_threads";
  result <-- for_entries parse_kernel_thread 0 l;
  _ <-- check_unique comm (fun c => DuplicateKernelThread (comm c)) ∅ result;
  inr result.

Definition parse_irq (i : nat) (iq : node) : exc IrqConfig :=
  check IsMap iq else NotAMapping "irqs" i;
  n <-- yaml (at_key iq "irq");
  check defined n && negb (IsNull n) else MissingIrq i;
  irq <-- or_throw (as_base10 (2 ^ 31 - 1) n) (IrqNotDecimal i);
  m <-- yaml (at_key iq "name");
  name <-- (if defined m && negb (IsNull m) then or_throw (as_string m) (NameNotString irq)
            else inr EmptyString);
  cpus <-- parse_affinity iq (of_chars (to_chars "irq=" ++ to_string irq)) true;
  inr (MkIrqConfig irq name cpus).

Definition parse_irqs (doc : node) : exc (list IrqConfig) :=
  l <-- section_entries doc "irqs";
  result <-- for_entries parse_irq 0 l;
  _ <-- check_unique irq (fun c => DuplicateIrq (irq c)) ∅ result;
  inr result.
End parsing.

(** ** Announcements of threads that are not of ROS *)

Record NonRosThreadInfo := MkNonRosThreadInfo { tid : Z; name : list Z }.

Definition k_wire_header_size : nat := 10.
Definition k_non_ros_thread_info_max_name_len : nat := Z.to_nat 65535.

(** The bytes of an integer, the least significant one first. *)
Fixpoint le_bytes (n : nat) (z : Z) : list Z :=
  match n with O => [] | S n => z mod 256 :: le_bytes n (z / 256) end.
Fixpoint le_value (l : list Z) : Z :=
  match l with [] => 0 | b :: l => b + 256 * le_value l end.

(** [None]: false; [buf_cap] is the capacity of the buffer. *)
Definition encode_non_ros_thread_info (info : NonRosThreadInfo) (buf_cap : nat) : option (list Z) :=
  require negb (k_non_ros_thread_info_max_name_len <? length (name info))%nat orelse None;
  let name_len := length (name info) in
  require negb (buf_cap <? k_wire_header_size + name_len)%nat orelse None;
  Some (le_bytes 8 (u64 (tid info)) ++ le_bytes 2 (Z.of_nat name_len) ++ name info).

Definition substr_bytes (pos n : nat) (l : list Z) : list Z := take n (drop pos l).

Definition decode_non_ros_thread_info (buf : list Z) : option NonRosThreadInfo :=
  require negb (length buf <? k_wire_header_size)%nat orelse None;
  let name_len := Z.to_nat (le_value (substr_bytes 8 2 buf)) in
  require (length buf =? k_wire_header_size + name_len)%nat orelse None;
  Some (MkNonRosThreadInfo (i64 (le_value (take 8 buf))) (drop k_wire_header_size buf)).

(** ** Checks at start-up *)

Definition is_blank (c : ascii) : bool :=
  is_char " " c || is_char "009" c || is_char "013" c || is_char "010" c.

Definition trim (s : chars) : chars :=
  let l := drop (default (length s) (find_char (fun c => negb (is_blank c)) s)) s in
  take (match rfind_char (fun c => negb (is_blank c)) l with Some n => S n | None => 0%nat end) l.

(** [kRecordedKeys]. *)
Definition recorded_key (label : string) : option string :=
  snd <$> find (fun kv => String.eqb kv.1 label)
    [("Model name", "model_name"); ("CPU family", "cpu_family"); ("Model", "model");
     ("Thread(s) per core", "threads_per_core"); ("Frequency boost", "frequency_boost");
     ("CPU max MHz", "cpu_max_mhz"); ("CPU min MHz", "cpu_min_mhz")]%string.

Definition lscpu_line (line : chars) (hw_info : gmap string string) : gmap string string :=
  match find_char (is_char ":") line with
  | None => hw_info
  | Some colon_pos =>
      match recorded_key (of_chars (trim (take colon_pos line))) with
      | Some key => <[key := of_chars (trim (drop (S colon_pos) line))]> hw_info
      | None => hw_info
      end
  end.

(** On the lines of the output. *)
Definition parse_lscpu_output (lines : list chars) : gmap string string :=
  fold_left (fun m line => lscpu_line line m) lines ∅.

Section startup.
Context {node : Type} {Y : Yaml node}.

(** The keys in the order of the map; a mismatch is the key, the value pinned and the current one. *)
Fixpoint hardware_mismatches (hw_info : node) (current : gmap string string) (keys : list string)
    : exc (option (list (string * string * string))) :=
  match keys with
  | [] => inr None
  | key :: keys =>
      n <-- yaml (at_key hw_info key);
      if negb (defined n) then hardware_mismatches hw_info current keys
      else
        yaml_value <-- yaml (as_string n);
        rest <-- hardware_mismatches hw_info current keys;
        let current_value := default EmptyString (current !! key) in
        inr (Some ((if String.eqb yaml_value current_value then []
                    else [(key, yaml_value, current_value)]) ++ default [] rest))
  end.

Definition check_hardware_info (hw_info : node) (current : gmap string string)
    : exc (option (list (string * string * string))) :=
  hardware_mismatches hw_info current (sorted_keys current).

Definition validate_hardware_info (doc : node) (current : gmap string string) : exc unit :=
  n <-- yaml (at_key doc "hardware_info");
  if negb (defined n) || bool_decide (current = ∅) then inr tt
  else
    mismatches <-- check_hardware_info n current;
    match mismatches with
    | None | Some [] => inr tt
    | Some l => throw (HardwareMismatch l)
    end.

Record RtThrottlingCheck := MkRtThrottlingCheck { rt_key : string; expected : Z; actual : option Z }.

Fixpoint rt_checks (rt_bw : node) (read_sysctl : string -> option Z) (keys : list string)
    : exc (list RtThrottlingCheck) :=
  match keys with
  | [] => inr []
  | yaml_key :: keys =>
      n <-- yaml (at_key rt_bw yaml_key);
      if negb (defined n) then rt_checks rt_bw read_sysctl keys
      else
        expected <-- yaml (as_int n);
        let key := String.append "sched_rt_" yaml_key in
        let c := MkRtThrottlingCheck key expected (read_sysctl (String.append "/proc/sys/kernel/" key)) in
        rest <-- rt_checks rt_bw read_sysctl keys;
        inr (c :: rest)
  end.

Definition mismatched (c : RtThrottlingCheck) : bool :=
  match actual c with Some v => negb (v =? expected c) | None => false end.

(** The checks, and the settings that the guidance lists, if any. *)
Definition check_rt_throttling (doc : node) (read_sysctl : string -> option Z)
    : exc (list RtThrottlingCheck * option (list (string * Z))) :=
  n <-- yaml (at_key doc "rt_throttling");
  if negb (defined n) then inr ([], None)
  else
    checks <-- rt_checks n read_sysctl ["period_us"; "runtime_us"];
    inr (checks, if existsb mismatched checks then Some ((fun c => (rt_key c, expected c)) <$> checks) else None).
End startup.
