(* ===== verification/ThreadConfigurator.v ===== *)
(** * The thread configurator

    [ThreadConfiguratorNode] (agnocast_cie_thread_configurator, thread_configurator_node.cpp): applying
    the configured scheduling attributes to threads as they are announced, to kernel threads and to
    IRQs, and applying a changed file again.  The system calls are logged, and [answer] tells whether
    one succeeds given the calls before it; what is read from /proc and /sys is an argument.  The
    template of prerun_node.cpp and the identifiers of cie_client_utils.cpp are at the end. *)

From Stdlib Require Import Ascii.
From S2P Require Import Prelude Strings ThreadConfig.

(** ** System calls *)

Inductive syscall :=
  | SchedSetscheduler (tid policy sched_priority : Z)
  | Setpriority (tid nice : Z)
  | SchedSetattr (tid : Z) (d : DeadlineParams)
  | SchedSetaffinity (tid : Z) (cpus : list Z)
  | CreateCgroup (id : Z)
  | WriteCgroupCpus (id : Z) (cpus : list Z)
  | WriteCgroupMems (id : Z)
  | WriteCgroupTasks (id tid : Z)
  | WriteIrqAffinity (irq : Z) (value : chars).

(** The calls so far, and [cgroup_num_]. *)
Record os := Os { calls : list syscall; cgroup_num_ : Z }.

(** ** State *)

Record node_state := NodeState {
  callback_group_configs_ : list ThreadConfig;
  id_to_callback_group_config_ : gmap (Z * string) nat;
  node_to_wildcard_config_ : gmap (Z * string) nat;
  non_ros_thread_configs_ : list ThreadConfig;
  id_to_non_ros_thread_config_ : gmap string nat;
  kernel_thread_configs_ : list KernelThreadConfig;
  irq_configs_ : list IrqConfig;
  unapplied_num_ : Z;
  configured_at_least_once_ : bool;
  node_os : os
}.

(** Pointers into the vectors are indices.  The maps are filled in the order of the vector. *)
Fixpoint index_exact (i : nat) (l : list ThreadConfig) (m : gmap (Z * string) nat) : gmap (Z * string) nat :=
  match l with
  | [] => m
  | c :: l => index_exact (S i) l
                (if is_wildcard c then m else <[(domain_id c, thread_str c) := i]> m)
  end.

Fixpoint index_wildcard (i : nat) (l : list ThreadConfig) (m : gmap (Z * string) nat)
    : gmap (Z * string) nat :=
  match l with
  | [] => m
  | c :: l => index_wildcard (S i) l
                (if is_wildcard c then <[(domain_id c, wildcard_prefix c) := i]> m else m)
  end.

Fixpoint index_name (i : nat) (l : list ThreadConfig) (m : gmap string nat) : gmap string nat :=
  match l with
  | [] => m
  | c :: l => index_name (S i) l (<[thread_str c := i]> m)
  end.

Definition set_thread_id (t : Z) (c : ThreadConfig) : ThreadConfig :=
  MkThreadConfig (thread_str c) (domain_id c) (attrs c) t (matched_tids c) (applied c).
Definition set_matched (f : gmap string Z -> gmap string Z) (c : ThreadConfig) : ThreadConfig :=
  MkThreadConfig (thread_str c) (domain_id c) (attrs c) (thread_id c) (f (matched_tids c)) (applied c).
Definition set_applied (c : ThreadConfig) : ThreadConfig :=
  MkThreadConfig (thread_str c) (domain_id c) (attrs c) (thread_id c) (matched_tids c) true.

Definition with_cbs (f : list ThreadConfig -> list ThreadConfig) (s : node_state) : node_state :=
  NodeState (f (callback_group_configs_ s)) (id_to_callback_group_config_ s) (node_to_wildcard_config_ s)
    (non_ros_thread_configs_ s) (id_to_non_ros_thread_config_ s) (kernel_thread_configs_ s)
    (irq_configs_ s) (unapplied_num_ s) (configured_at_least_once_ s) (node_os s).
Definition with_nrts (f : list ThreadConfig -> list ThreadConfig) (s : node_state) : node_state :=
  NodeState (callback_group_configs_ s) (id_to_callback_group_config_ s) (node_to_wildcard_config_ s)
    (f (non_ros_thread_configs_ s)) (id_to_non_ros_thread_config_ s) (kernel_thread_configs_ s)
    (irq_configs_ s) (unapplied_num_ s) (configured_at_least_once_ s) (node_os s).
Definition with_os (o : os) (s : node_state) : node_state :=
  NodeState (callback_group_configs_ s) (id_to_callback_group_config_ s) (node_to_wildcard_config_ s)
    (non_ros_thread_configs_ s) (id_to_non_ros_thread_config_ s) (kernel_thread_configs_ s)
    (irq_configs_ s) (unapplied_num_ s) (configured_at_least_once_ s) o.
Definition with_counter (n : Z) (done : bool) (s : node_state) : node_state :=
  NodeState (callback_group_configs_ s) (id_to_callback_group_config_ s) (node_to_wildcard_config_ s)
    (non_ros_thread_configs_ s) (id_to_non_ros_thread_config_ s) (kernel_thread_configs_ s)
    (irq_configs_ s) n done (node_os s).

Section node.
Context (answer : list syscall -> syscall -> bool) (nprocessors_conf : Z).

Definition do_call (c : syscall) (o : os) : bool * os :=
  (answer (calls o) c, Os (calls o ++ [c]) (cgroup_num_ o)).

(** ** Applying attributes to a thread *)

Definition set_affinity_by_cgroup (tid : Z) (cpus : list Z) (o : os) : bool * os :=
  let my_id := cgroup_num_ o in
  let o := Os (calls o) (cgroup_num_ o + 1) in
  let '(created, o) := do_call (CreateCgroup my_id) o in
  require created orelse (false, o);
  let '(written, o) := do_call (WriteCgroupCpus my_id cpus) o in
  require written orelse (false, o);
  let '(opened, o) := do_call (WriteCgroupMems my_id) o in
  require opened orelse (false, o);
  do_call (WriteCgroupTasks my_id tid) o.

Definition issue_affinity_syscalls (policy : option SchedPolicy) (cpus : list Z) (tid : Z) (o : os)
    : bool * os :=
  if bool_decide (cpus = []) then (true, o)
  else if decide (policy = Some Deadline) then set_affinity_by_cgroup tid cpus o
  else do_call (SchedSetaffinity tid cpus) o.

Definition issue_policy_syscalls (a : SchedAttrs) (p : SchedPolicy) (tid : Z) (o : os) : bool * os :=
  if decide (p = Deadline) then do_call (SchedSetattr tid (deadline a)) o
  else
    let '(ok, o) := do_call (SchedSetscheduler tid (to_kernel_policy p)
                               (if is_cfs p then 0 else rt_priority a)) o in
    require ok orelse (false, o);
    if is_cfs p then do_call (Setpriority tid (nice a)) o else (true, o).

Definition issue_syscalls (a : SchedAttrs) (tid : Z) (o : os) : bool * os :=
  match policy a with
  | None => (false, o)
  | Some p =>
      let '(ok, o) := issue_policy_syscalls a p tid o in
      require ok orelse (false, o);
      issue_affinity_syscalls (Some p) (affinity a) tid o
  end.

(** ** Kernel threads *)

Definition same_cpu_set (desired : list Z) (current : option (list Z)) : bool :=
  match current with Some c => bool_decide (desired = c) | None => false end.

Definition observed_cpus (info : KernelThreadInfo) : option (list Z) :=
  parse_manageable_cpu_list nprocessors_conf (kt_affinity info).

Definition kernel_thread_in_sync (c : KernelThreadConfig) (info : KernelThreadInfo) : bool :=
  let a := kc_attrs c in
  (match policy a with
   | None => true
   | Some p =>
       negb (bool_decide (p = Deadline)) &&
       bool_decide (parse_sched_policy (kt_policy info) = Some p) &&
       (if is_cfs p then nice a =? kt_nice info else rt_priority a =? kt_rt_priority info)
   end) &&
  (bool_decide (affinity a = []) || same_cpu_set (affinity a) (observed_cpus info)).

Definition clear_affinity (a : SchedAttrs) : SchedAttrs :=
  MkAttrs (policy a) (nice a) (rt_priority a) (deadline a) [].

Definition configure_kernel_thread (c : KernelThreadConfig) (info : KernelThreadInfo) (o : os)
    : bool * os :=
  require negb (kernel_thread_in_sync c info) orelse (true, o);
  let a := kc_attrs c in
  let affinity_on_fixed := negb (bool_decide (affinity a = [])) && kt_no_setaffinity info in
  require negb (affinity_on_fixed && negb (same_cpu_set (affinity a) (observed_cpus info)))
    orelse (false, o);
  match policy a with
  | Some _ => issue_syscalls (if affinity_on_fixed then clear_affinity a else a) (kt_tid info) o
  | None => issue_affinity_syscalls (parse_sched_policy (kt_policy info)) (affinity a) (kt_tid info) o
  end.

(** [SectionApplyOutcome]. *)
Record outcome := Outcome { o_applied : list string; o_failed : list string; o_skipped : list string }.

Definition no_outcome : outcome := Outcome [] [] [].
Definition add_result (ok : bool) (key : string) (r : outcome) : outcome :=
  if ok then Outcome (o_applied r ++ [key]) (o_failed r) (o_skipped r)
  else Outcome (o_applied r) (o_failed r ++ [key]) (o_skipped r).
Definition add_skipped (key : string) (r : outcome) : outcome :=
  Outcome (o_applied r) (o_failed r) (o_skipped r ++ [key]).

(** "<comm>:<tid>". *)
Definition kernel_thread_key (comm : string) (tid : Z) : string :=
  of_chars (to_chars comm ++ ":"%char :: to_string tid).

Fixpoint configure_matches (c : KernelThreadConfig) (matches : list KernelThreadInfo) (r : outcome) (o : os)
    : outcome * os :=
  match matches with
  | [] => (r, o)
  | info :: matches =>
      let '(ok, o) := configure_kernel_thread c info o in
      configure_matches c matches (add_result ok (kernel_thread_key (comm c) (kt_tid info)) r) o
  end.

Fixpoint apply_kernel_threads (scanned : list KernelThreadInfo) (l : list KernelThreadConfig)
    (r : outcome) (o : os) : outcome * os :=
  match l with
  | [] => (r, o)
  | c :: l =>
      if negb (is_managed_kernel_thread c) then apply_kernel_threads scanned l r o
      else match find_kernel_threads_by_comm scanned (comm c) with
           | [] => apply_kernel_threads scanned l (add_skipped (comm c) r) o
           | matches => let '(r, o) := configure_matches c matches r o in
                        apply_kernel_threads scanned l r o
           end
  end.

(** Without a managed entry the loop does nothing. *)
Definition apply_kernel_thread_configs (scanned : list KernelThreadInfo) (l : list KernelThreadConfig)
    (o : os) : outcome * os := apply_kernel_threads scanned l no_outcome o.

(** ** IRQs *)

(** What is read: the first line of an actions file, that of smp_affinity_list, and whether a process
    called irqbalance runs. *)
Record irq_answers := IrqAnswers {
  irq_actions : Z -> option chars;
  smp_affinity_list : Z -> option chars;
  irqbalance_detected : bool
}.

Definition configure_irq (w : irq_answers) (c : IrqConfig) (o : os) : bool * os :=
  match read_irq_actions (irq_actions w (irq c)) with
  | None => (false, o)
  | Some actions =>
      require String.eqb (ic_name c) EmptyString || String.eqb actions (ic_name c) orelse (false, o);
      let current := default [] (smp_affinity_list w (irq c)) in
      if same_cpu_set (ic_affinity c) (parse_manageable_cpu_list nprocessors_conf current) then (true, o)
      else if irqbalance_detected w then (false, o)
      else do_call (WriteIrqAffinity (irq c) (format_cpu_list (ic_affinity c))) o
  end.

Definition irq_key (c : IrqConfig) : string := of_chars (to_string (irq c)).

Fixpoint apply_irqs (w : irq_answers) (l : list IrqConfig) (r : outcome) (o : os) : outcome * os :=
  match l with
  | [] => (r, o)
  | c :: l =>
      if negb (is_managed_irq c) then apply_irqs w l r o
      else let '(ok, o) := configure_irq w c o in apply_irqs w l (add_result ok (irq_key c) r) o
  end.

Definition apply_irq_configs (w : irq_answers) (l : list IrqConfig) (o : os) : outcome * os :=
  apply_irqs w l no_outcome o.

(** ** Announcements *)

(** An entry whose attributes were applied: the counter, and the flag when it was the last one. *)
Definition count_applied (s : node_state) : node_state :=
  with_counter (i32 (unapplied_num_ s - 1))
    (configured_at_least_once_ s || (unapplied_num_ s =? 1)) s.

(** The end of both handlers, on the entry [i] of one of the vectors. *)
Definition apply_entry (with_l : (list ThreadConfig -> list ThreadConfig) -> node_state -> node_state)
    (l : node_state -> list ThreadConfig) (i : nat) (tid : Z) (s : node_state) : node_state :=
  match l s !! i with
  | None => s
  | Some c =>
      let '(ok, o) := issue_syscalls (attrs c) tid (node_os s) in
      let s := with_os o s in
      require ok orelse s;
      if applied c then s else count_applied (with_l (alter set_applied i) s)
  end.

Definition callback_group_callback (domain : Z) (id : string) (tid : Z) (s : node_state) : node_state :=
  let wildcard := node_to_wildcard_config_ s !! (domain, extract_node_part id) in
  match id_to_callback_group_config_ s !! (domain, id) with
  | Some i =>
      let s := match wildcard with
               | Some w => with_cbs (alter (set_matched (delete id)) w) s
               | None => s
               end in
      apply_entry with_cbs callback_group_configs_ i tid (with_cbs (alter (set_thread_id tid) i) s)
  | None =>
      match wildcard with
      | None => s
      | Some i =>
          apply_entry with_cbs callback_group_configs_ i tid
            (with_cbs (alter (set_matched <[id := tid]>) i) s)
      end
  end.

Definition non_ros_thread_callback (name : string) (tid : Z) (s : node_state) : node_state :=
  match id_to_non_ros_thread_config_ s !! name with
  | None => s
  | Some i =>
      apply_entry with_nrts non_ros_thread_configs_ i tid (with_nrts (alter (set_thread_id tid) i) s)
  end.

(** ** Applying the file again *)

Record response := Response {
  success : bool;
  callback_groups : outcome;
  non_ros_threads : outcome;
  kernel_threads : outcome;
  irqs : outcome
}.

Definition pointee (l : list ThreadConfig) (p : option nat) : option ThreadConfig :=
  match p with Some i => l !! i | None => None end.

(** Known thread ids, for entries of the same form. *)
Definition carry_over_cb (s : node_state) (c : ThreadConfig) : ThreadConfig :=
  if is_wildcard c then
    match pointee (callback_group_configs_ s) (node_to_wildcard_config_ s !! (domain_id c, wildcard_prefix c)) with
    | Some old => set_matched (fun _ => matched_tids old) c
    | None => c
    end
  else
    match pointee (callback_group_configs_ s) (id_to_callback_group_config_ s !! (domain_id c, thread_str c)) with
    | Some old => set_thread_id (thread_id old) c
    | None => c
    end.

Definition carry_over_nrt (s : node_state) (c : ThreadConfig) : ThreadConfig :=
  match pointee (non_ros_thread_configs_ s) (id_to_non_ros_thread_config_ s !! thread_str c) with
  | Some old => set_thread_id (thread_id old) c
  | None => c
  end.

Definition swap_callback_groups (new_cb : list ThreadConfig) (s : node_state) : node_state :=
  let l := carry_over_cb s <$> new_cb in
  NodeState l (index_exact 0 l ∅) (index_wildcard 0 l ∅) (non_ros_thread_configs_ s)
    (id_to_non_ros_thread_config_ s) (kernel_thread_configs_ s) (irq_configs_ s) (unapplied_num_ s)
    (configured_at_least_once_ s) (node_os s).

(** Under the lock. *)
Definition swap_non_ros_threads (new_nrt : list ThreadConfig) (s : node_state) : node_state :=
  let l := carry_over_nrt s <$> new_nrt in
  NodeState (callback_group_configs_ s) (id_to_callback_group_config_ s) (node_to_wildcard_config_ s) l
    (index_name 0 l ∅) (kernel_thread_configs_ s) (irq_configs_ s)
    (i32 (Z.of_nat (length (callback_group_configs_ s) + length l))) (configured_at_least_once_ s)
    (node_os s).

Definition swap_kernel_and_irqs (kts : list KernelThreadConfig) (iqs : list IrqConfig) (s : node_state)
    : node_state :=
  NodeState (callback_group_configs_ s) (id_to_callback_group_config_ s) (node_to_wildcard_config_ s)
    (non_ros_thread_configs_ s) (id_to_non_ros_thread_config_ s) kts iqs (unapplied_num_ s)
    (configured_at_least_once_ s) (node_os s).

(** "<domain>:<id>". *)
Definition domain_key (domain : Z) (id : string) : string :=
  of_chars (to_string domain ++ ":"%char :: to_chars id).

(** The known instances of a wildcard entry, in the order of the map. *)
Fixpoint reapply_matched (c : ThreadConfig) (ids : list string) (r : outcome) (any_applied : bool) (o : os)
    : outcome * bool * os :=
  match ids with
  | [] => (r, any_applied, o)
  | id :: ids =>
      let '(ok, o) := issue_syscalls (attrs c) (default (-1) (matched_tids c !! id)) o in
      reapply_matched c ids (add_result ok (domain_key (domain_id c) id) r) (any_applied || ok) o
  end.

Definition decrement (s : node_state) : node_state :=
  with_counter (i32 (unapplied_num_ s - 1)) (configured_at_least_once_ s) s.

Definition reapply_callback_group (i : nat) (r : outcome) (s : node_state) : outcome * node_state :=
  match callback_group_configs_ s !! i with
  | None => (r, s)
  | Some c =>
      let key := domain_key (domain_id c) (thread_str c) in
      if is_wildcard c then
        if bool_decide (matched_tids c = ∅) then (add_skipped key r, s)
        else
          let '(r, any_applied, o) := reapply_matched c (sorted_keys (matched_tids c)) r false (node_os s) in
          let s := with_os o s in
          (r, if any_applied then decrement (with_cbs (alter set_applied i) s) else s)
      else if thread_id c =? -1 then (add_skipped key r, s)
      else
        let '(ok, o) := issue_syscalls (attrs c) (thread_id c) (node_os s) in
        let s := with_os o s in
        (add_result ok key r, if ok then decrement (with_cbs (alter set_applied i) s) else s)
  end.

Definition reapply_non_ros_thread (i : nat) (r : outcome) (s : node_state) : outcome * node_state :=
  match non_ros_thread_configs_ s !! i with
  | None => (r, s)
  | Some c =>
      if thread_id c =? -1 then (add_skipped (thread_str c) r, s)
      else
        let '(ok, o) := issue_syscalls (attrs c) (thread_id c) (node_os s) in
        let s := with_os o s in
        (add_result ok (thread_str c) r,
         if ok && negb (applied c) then decrement (with_nrts (alter set_applied i) s) else s)
  end.

(** The loop over the entries from [i]. *)
Fixpoint reapply_loop (body : nat -> outcome -> node_state -> outcome * node_state) (n i : nat)
    (r : outcome) (s : node_state) : outcome * node_state :=
  match n with
  | O => (r, s)
  | S n => let '(r, s) := body i r s in reapply_loop body n (S i) r s
  end.

(** The announcements that the listener's thread handles meanwhile. *)
Definition listen (infos : list (string * Z)) (s : node_state) : node_state :=
  fold_left (fun s info => non_ros_thread_callback info.1 info.2 s) infos s.

Record reapply_answers := ReapplyAnswers {
  ra_scanned : list KernelThreadInfo;
  ra_irq : irq_answers;
  ra_meanwhile : nat -> list (string * Z)
}.

Section reapply.
Context {node : Type} {Y : Yaml node} (default_domain_id : Z).

Definition parse_config (doc : node)
    : exc (list ThreadConfig * list ThreadConfig * list KernelThreadConfig * list IrqConfig) :=
  threads <-- parse_yaml nprocessors_conf default_domain_id doc;
  kts <-- parse_kernel_threads nprocessors_conf doc;
  iqs <-- parse_irqs nprocessors_conf doc;
  inr (threads.1, threads.2, kts, iqs).

Definition rejected : response := Response false no_outcome no_outcome no_outcome no_outcome.

(** [doc] is [None] when the file does not load. *)
Definition on_reapply_config_request (w : reapply_answers) (doc : option node) (s : node_state)
    : response * node_state :=
  match doc with
  | None => (rejected, s)
  | Some doc =>
      match parse_config doc with
      | inl _ => (rejected, s)
      | inr (new_cb, new_nrt, new_kernel_threads, new_irqs) =>
          let s := listen (ra_meanwhile w 0) (swap_callback_groups new_cb s) in
          let s := swap_non_ros_threads new_nrt s in
          let s := swap_kernel_and_irqs new_kernel_threads new_irqs (listen (ra_meanwhile w 1) s) in
          let '(cbs, s) := reapply_loop reapply_callback_group (length (callback_group_configs_ s)) 0
                             no_outcome s in
          let s := listen (ra_meanwhile w 2) s in
          let '(nrts, s) := reapply_loop reapply_non_ros_thread (length (non_ros_thread_configs_ s)) 0
                              no_outcome s in
          let s := listen (ra_meanwhile w 3) s in
          let '(kts, o) := apply_kernel_thread_configs (ra_scanned w) (kernel_thread_configs_ s)
                             (node_os s) in
          let '(iqs, o) := apply_irq_configs (ra_irq w) (irq_configs_ s) o in
          (Response true cbs nrts kts iqs, with_os o s)
      end
  end.

(** [ThreadConfiguratorNode::ThreadConfiguratorNode] on a loaded file. *)
Definition new_node (current_hw : gmap string string) (read_sysctl : string -> option Z)
    (scanned : list KernelThreadInfo) (w : irq_answers) (doc : node) : exc node_state :=
  _ <-- validate_hardware_info doc current_hw;
  _ <-- check_rt_throttling doc read_sysctl;
  c <-- parse_config doc;
  let '(cb, nrt, kts, iqs) := c in
  let '(_, o) := apply_kernel_thread_configs scanned kts (Os [] 0) in
  let '(_, o) := apply_irq_configs w iqs o in
  inr (NodeState cb (index_exact 0 cb ∅) (index_wildcard 0 cb ∅) nrt (index_name 0 nrt ∅) kts iqs
         (i32 (Z.of_nat (length cb + length nrt))) false o).
End reapply.
End node.

(** ** The template of prerun_node *)

(** One thread for each comm, the first of the scan. *)
Fixpoint dedup_by_comm (scanned : list KernelThreadInfo) : list KernelThreadInfo :=
  match scanned with
  | [] => []
  | a :: l => a :: match dedup_by_comm l with
                   | b :: l' => if String.eqb (kt_comm a) (kt_comm b) then l' else b :: l'
                   | [] => []
                   end
  end.

(** What the emitter is given for one entry. *)
Inductive emitted :=
  | EString (s : string)
  | EInt (z : Z)
  | EInts (l : list Z)
  | EUnmanageable.

Section prerun.
Context (nprocessors_conf : Z).

Definition emit_cpus (cpus : option (list Z)) : emitted :=
  match cpus with Some l => EInts l | None => EUnmanageable end.

Definition emit_kernel_thread (info : KernelThreadInfo) : list (string * emitted) :=
  let representable :=
    match parse_sched_policy (kt_policy info) with
    | Some p => if decide (p = Deadline) then None else Some p
    | None => None
    end in
  let cpus := parse_manageable_cpu_list nprocessors_conf (kt_affinity info) in
  [("comm", EString (kt_comm info))] ++
  match representable with
  | Some p =>
      [("policy", EString (kt_policy info));
       if is_cfs p then ("nice", EInt (kt_nice info)) else ("priority", EInt (kt_rt_priority info))]
  | None => [("policy", EUnmanageable); ("priority", EUnmanageable)]
  end ++
  [("affinity", if kt_no_setaffinity info then EUnmanageable else emit_cpus cpus)].

Definition emit_irq (info : IrqInfo) : list (string * emitted) :=
  [("irq", EInt (irq_number info)); ("name", EString (irq_name info));
   ("affinity", emit_cpus (parse_manageable_cpu_list nprocessors_conf (irq_affinity info)))].

Definition emit_defaults : list (string * emitted) :=
  [("affinity", EInts []); ("policy", EString "SCHED_OTHER"); ("nice", EInt 0)].

(** What [get_hardware_info] returned, in the order of the keys. *)
Definition emit_hardware_info (hw_info : gmap string string) : list (string * emitted) :=
  (fun k => (k, EString (default EmptyString (hw_info !! k)))) <$> sorted_keys hw_info.

Definition emit_rt_throttling : list (string * emitted) :=
  [("runtime_us", EInt 950000); ("period_us", EInt 1000000)].

Record template := Template {
  tm_hardware_info : list (string * emitted);
  tm_rt_throttling : list (string * emitted);
  tm_callback_groups : list (list (string * emitted));
  tm_non_ros_threads : list (list (string * emitted));
  tm_kernel_threads : list (list (string * emitted));
  tm_irqs : list (list (string * emitted))
}.

Definition dump_yaml_config (hw_info : gmap string string) (domain_and_cbg_ids : list (Z * string)) (non_ros_thread_names : list string)
    (scanned : list KernelThreadInfo) (scanned_irqs : list IrqInfo) : template :=
  Template (emit_hardware_info hw_info) emit_rt_throttling
    ((fun di => [("id", EString di.2); ("domain_id", EInt di.1)] ++ emit_defaults) <$> domain_and_cbg_ids)
    ((fun n => ("name", EString n) :: emit_defaults) <$> non_ros_thread_names)
    (emit_kernel_thread <$> dedup_by_comm scanned)
    (emit_irq <$> scanned_irqs).
End prerun.

(** ** Identifiers of callback groups *)

(** [create_callback_group_id] of cie_client_utils.cpp, on the entities of the group's ROS endpoints in
    the order [std::sort] gives them together with those of its Agnocast topics. *)
Definition agnocast_entry (topic : string) : string :=
  let s := to_chars topic in
  let request := to_chars "/AGNOCAST_SRV_REQUEST" in
  let resp := to_chars "/AGNOCAST_SRV_RESPONSE" in
  let find_sep l := (fix go (n : nat) (l : chars) := match l with
                       | [] => None
                       | c :: l' => if starts_with (to_chars "_SEP_") l then Some n else go (S n) l'
                       end) 0%nat l in
  of_chars
    (if starts_with request s then to_chars "Service(" ++ drop (length request) s ++ [")"%char]
     else if starts_with resp s then
       let part := drop (length resp) s in
       to_chars "Client(" ++ take (default (length part) (find_sep part)) part ++ [")"%char]
     else to_chars "Subscription(" ++ s ++ [")"%char]).

Definition create_callback_group_id (ns node_name : string) (ros_entries agnocast_topics : list string)
    : string :=
  let ns := if String.eqb ns "/" then to_chars ns else to_chars ns ++ ["/"%char] in
  let entries := merge_sort string_le (ros_entries ++ (agnocast_entry <$> agnocast_topics)) in
  of_chars (ns ++ to_chars node_name ++ mjoin ((fun e => "@"%char :: to_chars e) <$> entries)).
