(* ===== verification/ThreadTheorems.v ===== *)
(** * What the thread configurator's parsing guarantees

    Numbers, CPU lists and datagrams are read back as they were written; the configuration that
    prerun_node writes is accepted and leaves the machine as it is. *)

From Stdlib Require Import Ascii.
From S2P Require Import Prelude Strings ThreadConfig ThreadConfigurator.

(** ** CPU lists *)

(** Sorted and without duplicates, as [std::sort] and [std::unique] leave a list. *)
Definition canonical (l : list Z) : Prop := StronglySorted Z.lt l.

Lemma unique_spec l :
  StronglySorted Z.le l -> canonical (unique l) /\ forall x, x ∈ unique l <-> x ∈ l.
Proof.
  unfold canonical. induction l as [|x l IH]; intros Hs; [by split; [constructor|]|].
  apply StronglySorted_inv in Hs as [Hs Hx]. destruct (IH Hs) as [Hu Hin]. simpl.
  rewrite Forall_forall in Hx.
  destruct (unique l) as [|y l'] eqn:Eu.
  - split; [by constructor; constructor|]. intros z. specialize (Hin z). rewrite !elem_of_cons in Hin |- *. tauto.
  - apply StronglySorted_inv in Hu as Hu'. destruct Hu' as [Hl' Hy]. rewrite Forall_forall in Hy.
    assert (x <= y) as Hxy by (apply Hx, Hin; by left).
    destruct (x =? y) eqn:E.
    + apply Z.eqb_eq in E as ->. split; [done|]. intros z. specialize (Hin z). rewrite !elem_of_cons in Hin |- *. tauto.
    + apply Z.eqb_neq in E. split; [|intros z; specialize (Hin z); rewrite !elem_of_cons in Hin |- *; tauto].
      constructor; [done|]. constructor; [lia|]. apply Forall_forall. intros z Hz. specialize (Hy z Hz). lia.
Qed.

Lemma canonical_le l : canonical l -> StronglySorted Z.le l.
Proof.
  unfold canonical. induction 1 as [|x l Hs IH Hx]; constructor; [done|].
  eapply Forall_impl; [exact Hx|]. simpl. lia.
Qed.

Lemma canonical_NoDup l : canonical l -> NoDup l.
Proof.
  unfold canonical. induction 1 as [|x l Hs IH Hx]; constructor; [|done].
  rewrite Forall_forall in Hx. intros Hin. specialize (Hx x Hin). lia.
Qed.

Lemma canonical_eq l1 l2 :
  canonical l1 -> canonical l2 -> (forall x, x ∈ l1 <-> x ∈ l2) -> l1 = l2.
Proof.
  intros H1 H2 Hin. apply (StronglySorted_unique Z.le); [by apply canonical_le..|].
  apply list.NoDup_Permutation; [by apply canonical_NoDup..|done].
Qed.

Lemma sort_unique_spec l : canonical (sort_unique l) /\ forall x, x ∈ sort_unique l <-> x ∈ l.
Proof.
  unfold sort_unique. destruct (unique_spec (merge_sort Z.le l)) as [H1 H2].
  - apply Sorted_StronglySorted; [apply _|apply Sorted_merge_sort; apply _].
  - split; [done|]. intros x. rw H2 merge_sort_Permutation. done.
Qed.

Lemma sort_unique_canonical l : canonical l -> sort_unique l = l.
Proof. intros Hl. destruct (sort_unique_spec l) as [H1 H2]. by apply canonical_eq. Qed.

Lemma strip_trailing_last s c : is_trailing c = false -> strip_trailing (s ++ [c]) = s ++ [c].
Proof.
  intros Hc. induction s as [|d s IH]; simpl; [by rw Hc|]. rw IH. by destruct (s ++ [c]) eqn:E; [destruct s|].
Qed.

Lemma parse_cpu_token_one cpu : 0 <= cpu <= k_max_cpu_number -> parse_cpu_token (to_string cpu) = Some [cpu].
Proof.
  unfold k_max_cpu_number. intros Hc. unfold parse_cpu_token.
  rw find_char_None; [|by apply to_string_no; [lia|]]. unfold to_int. rw to_number_to_string; [|lia..].
  unfold k_max_cpu_number. assert ((0 <=? cpu) && (cpu <=? 8191) = true) as ->; [|done].
  apply andb_true_iff. split; apply Z.leb_le; lia.
Qed.

Lemma format_cpu_list_spec cpus :
  cpus <> [] -> Forall (fun cpu => 0 <= cpu <= k_max_cpu_number) cpus ->
  (exists s c, format_cpu_list cpus = s ++ [c] /\ is_digit c = true) /\
  parse_cpu_tokens (split_at (is_char ",") (format_cpu_list cpus)) = Some cpus.
Proof.
  intros Hne. induction cpus as [|cpu cpus IH]; [done|]. intros [Hc Hcs]%Forall_cons.
  assert (Forall (fun c => is_char "," c = false) (to_string cpu)) as Hno by (by apply to_string_no; [lia|]).
  destruct cpus as [|cpu' cpus].
  - cbn [format_cpu_list]. split; [apply to_string_last; lia|]. rw split_at_none; [|done].
    cbn [parse_cpu_tokens]. by rw parse_cpu_token_one.
  - destruct (IH ltac:(done) Hcs) as [(s & c & Hs & Hd) Hp].
    change (format_cpu_list (cpu :: cpu' :: cpus))
      with (to_string cpu ++ ","%char :: format_cpu_list (cpu' :: cpus)). split.
    + exists (to_string cpu ++ ","%char :: s), c. rw Hs. split; [|done]. by rw -app_assoc.
    + rw split_at_app; [|done|done]. cbn [parse_cpu_tokens]. rw parse_cpu_token_one; [|done]. by rw Hp.
Qed.

Lemma digit_not_trailing c : is_digit c = true -> is_trailing c = false.
Proof. intros Hc. unfold is_trailing. by rw !(digit_not c). Qed.

Lemma parse_format_cpu_list cpus :
  cpus <> [] -> canonical cpus -> Forall (fun cpu => 0 <= cpu <= k_max_cpu_number) cpus ->
  parse_cpu_list (format_cpu_list cpus) = Some cpus.
Proof.
  intros Hne Hs Hb. destruct (format_cpu_list_spec cpus Hne Hb) as [(s & c & Hf & Hc) Hp].
  unfold parse_cpu_list.
  assert (strip_trailing (format_cpu_list cpus) = format_cpu_list cpus) as ->.
  { rw Hf. by apply strip_trailing_last, digit_not_trailing. }
  rw bool_decide_true; [|rw Hf; by destruct s]. rw Hp /=. by rw sort_unique_canonical.
Qed.

Lemma elem_of_cpu_range first last x : x ∈ cpu_range first last <-> first <= x <= last.
Proof. unfold cpu_range. rw elem_of_seqZ. lia. Qed.

Lemma parse_cpu_tokens_bounds tokens l :
  parse_cpu_tokens tokens = Some l -> Forall (fun cpu => 0 <= cpu <= k_max_cpu_number) l.
Proof.
  revert l. induction tokens as [|t tokens IH]; intros l; cbn [parse_cpu_tokens]; [by intros [= <-]|].
  destruct (parse_cpu_token t) as [cpus|] eqn:E; [|done].
  destruct (parse_cpu_tokens tokens) as [rest|]; [|done]. intros [= <-].
  apply Forall_app. split; [|by apply IH]. revert E. unfold parse_cpu_token.
  destruct (find_char _ t) as [dash|].
  - destruct (to_int _) as [first|]; [|done]. destruct (to_int _) as [last|]; [|done].
    destruct (_ && _) eqn:Eb; [|done]. intros [= <-]. bool_to_prop. apply Forall_forall.
    intros x Hx%elem_of_cpu_range. lia.
  - destruct (to_int t) as [cpu|]; [|done]. destruct (_ && _) eqn:Eb; [|done]. intros [= <-].
    bool_to_prop. by repeat constructor.
Qed.

Lemma sort_unique_nonempty l : l <> [] -> sort_unique l <> [].
Proof.
  intros Hl He. destruct l as [|x l]; [done|]. destruct (sort_unique_spec (x :: l)) as [_ Hin].
  specialize (Hin x). rewrite He in Hin. apply (elem_of_nil x), Hin. by left.
Qed.

Lemma parse_cpu_token_nonempty t cpus : parse_cpu_token t = Some cpus -> cpus <> [].
Proof.
  unfold parse_cpu_token. destruct (find_char _ t) as [dash|].
  - destruct (to_int _) as [first|]; [|done]. destruct (to_int _) as [last|]; [|done].
    destruct (_ && _) eqn:Eb; [|done]. intros [= <-]. bool_to_prop. intros He.
    assert (first ∈ cpu_range first last) as Hx by (apply elem_of_cpu_range; lia).
    rewrite He in Hx. by apply elem_of_nil in Hx.
  - destruct (to_int t) as [cpu|]; [|done]. destruct (_ && _); [|done]. by intros [= <-].
Qed.

(** [parse_cpu_list] reads only CPU lists: what it returns is not empty, sorted, without duplicates and
    within the CPU numbers of the kernel, and it reads back exactly every such list that
    [format_cpu_list] writes; so two lists are equal exactly when they name the same CPUs. *)
Theorem cpu_lists_read_back (s : chars) (cpus : list Z) :
  (parse_cpu_list s = Some cpus ->
   cpus <> [] /\ canonical cpus /\ Forall (fun cpu => 0 <= cpu <= k_max_cpu_number) cpus) /\
  (cpus <> [] /\ canonical cpus /\ Forall (fun cpu => 0 <= cpu <= k_max_cpu_number) cpus ->
   parse_cpu_list (format_cpu_list cpus) = Some cpus).
Proof.
  split; [|intros (H1 & H2 & H3); by apply parse_format_cpu_list].
  unfold parse_cpu_list. destruct (bool_decide _); [|done].
  destruct (parse_cpu_tokens _) as [l|] eqn:E; [|done]. intros [= <-].
  destruct (sort_unique_spec l) as [Hc Hin]. split; [|split; [done|]].
  - apply sort_unique_nonempty. destruct (split_at _ _) as [|t ts] eqn:Es; [by apply split_at_nonempty in Es|].
    cbn [parse_cpu_tokens] in E. destruct (parse_cpu_token t) as [cs|] eqn:Et; [|done].
    destruct (parse_cpu_tokens ts); [|done]. injection E as <-. apply parse_cpu_token_nonempty in Et.
    by destruct cs.
  - apply parse_cpu_tokens_bounds in E. rewrite Forall_forall in E. apply Forall_forall.
    intros x Hx%Hin. by apply E.
Qed.

Lemma cpu_lists_read_back_witness :
  parse_cpu_list (to_chars "8,0-2,1") = Some [0; 1; 2; 8] /\
  parse_cpu_list (format_cpu_list [0; 1; 2; 8]) = Some [0; 1; 2; 8].
Proof.
  split; [by vm_compute|]. apply (cpu_lists_read_back (to_chars "8,0-2,1") [0; 1; 2; 8]).
  apply (cpu_lists_read_back (to_chars "8,0-2,1") [0; 1; 2; 8]). by vm_compute.
Defined.

(** ** Datagrams *)

Lemma le_value_bytes n z : 0 <= z < 256 ^ Z.of_nat n -> le_value (le_bytes n z) = z.
Proof.
  revert z. induction n as [|n IH]; intros z Hz; [simpl in *; lia|]. cbn [le_bytes le_value].
  rw IH; [pose proof (Z.div_mod z 256); lia|]. rewrite Nat2Z.inj_succ Z.pow_succ_r in Hz; [|lia].
  split; [apply Z.div_pos; lia|]. apply Z.div_lt_upper_bound; lia.
Qed.

Lemma length_le_bytes n z : length (le_bytes n z) = n.
Proof. revert z. induction n as [|n IH]; intros z; [done|]. cbn [le_bytes length]. by rw IH. Qed.

Lemma i64_u64 z : - 2 ^ 63 <= z < 2 ^ 63 -> i64 (u64 z) = z.
Proof.
  intros Hz. unfold i64, u64. rw Z.mod_mod; [|lia]. destruct (decide (0 <= z)) as [Hp|Hn].
  - rw Z.mod_small; [|lia]. by rw (proj2 (Z.ltb_lt z _)); [|lia].
  - assert (z mod 2 ^ 64 = z + 2 ^ 64) as -> by (symmetry; apply (Z.mod_unique_pos _ _ (-1)); lia).
    rw (proj2 (Z.ltb_ge _ _)); [lia|]. lia.
Qed.

Lemma decode_header t n rest :
  - 2 ^ 63 <= t < 2 ^ 63 -> (n <= k_non_ros_thread_info_max_name_len)%nat ->
  decode_non_ros_thread_info (le_bytes 8 (u64 t) ++ le_bytes 2 (Z.of_nat n) ++ rest) =
  if (length rest =? n)%nat then Some (MkNonRosThreadInfo t rest) else None.
Proof.
  intros Ht Hn. unfold decode_non_ros_thread_info, substr_bytes.
  set (b8 := le_bytes 8 (u64 t)). set (b2 := le_bytes 2 (Z.of_nat n)).
  assert (length b8 = 8%nat) as H8 by apply length_le_bytes.
  assert (length b2 = 2%nat) as H2 by apply length_le_bytes.
  assert (take 8 (b8 ++ b2 ++ rest) = b8) as ->.
  { rw take_app_le; [|lia]. rw take_ge; [done|lia]. }
  assert (drop 8 (b8 ++ b2 ++ rest) = b2 ++ rest) as Hd by (rw drop_app_ge; [rw H8 //|lia]).
  rw Hd. assert (take 2 (b2 ++ rest) = b2) as -> by (rw take_app_le; [rw take_ge //; lia|lia]).
  assert (drop k_wire_header_size (b8 ++ b2 ++ rest) = rest) as ->.
  { unfold k_wire_header_size. rw app_assoc drop_app_ge; [|rw length_app; lia]. by rw length_app H8 H2. }
  rw !length_app H8 H2. rw (le_value_bytes 8).
  2: { unfold u64. apply Z.mod_pos_bound. lia. }
  rw i64_u64; [|done]. rw (le_value_bytes 2).
  2: { unfold k_non_ros_thread_info_max_name_len in Hn. simpl. lia. }
  rw Nat2Z.id. unfold k_wire_header_size.
  rw (proj2 (Nat.ltb_ge _ _)); [|lia]. cbn [negb].
  destruct (length rest =? n)%nat eqn:E; [apply Nat.eqb_eq in E|apply Nat.eqb_neq in E].
  - by rw (proj2 (Nat.eqb_eq _ _)); [|lia].
  - by rw (proj2 (Nat.eqb_neq _ _)); [|lia].
Qed.

(** A datagram that announces a thread is encoded exactly when the name fits its length field and the
    buffer, and decoding gives back the thread id and the name; a datagram that is cut short or goes on
    after the name is rejected. *)
Theorem announcements_read_back (info : NonRosThreadInfo) (buf_cap : nat) :
  - 2 ^ 63 <= tid info < 2 ^ 63 ->
  match encode_non_ros_thread_info info buf_cap with
  | None => (k_non_ros_thread_info_max_name_len < length (name info))%nat \/
            (buf_cap < k_wire_header_size + length (name info))%nat
  | Some buf =>
      (length buf <= buf_cap)%nat /\ decode_non_ros_thread_info buf = Some info /\
      (forall n, (n < length buf)%nat -> decode_non_ros_thread_info (take n buf) = None) /\
      (forall more, more <> [] -> decode_non_ros_thread_info (buf ++ more) = None)
  end.
Proof.
  intros Htid. unfold encode_non_ros_thread_info.
  destruct (k_non_ros_thread_info_max_name_len <? length (name info))%nat eqn:E1.
  { cbn [negb]. left. by apply Nat.ltb_lt. }
  apply Nat.ltb_ge in E1. cbn [negb].
  destruct (buf_cap <? k_wire_header_size + length (name info))%nat eqn:E2.
  { cbn [negb]. right. by apply Nat.ltb_lt. }
  apply Nat.ltb_ge in E2. cbn [negb]. set (buf := _ ++ _ ++ _).
  assert (length buf = k_wire_header_size + length (name info))%nat as Hlen.
  { unfold buf, k_wire_header_size. rw !length_app !length_le_bytes. lia. }
  split; [lia|]. split; [|split].
  - unfold buf. rw decode_header; [|done|done]. rw Nat.eqb_refl. by destruct info.
  - intros n Hn. destruct (decide (n < k_wire_header_size)%nat) as [Hs|Hs].
    + unfold decode_non_ros_thread_info. rw length_take. by rw (proj2 (Nat.ltb_lt _ _)); [|lia].
    + unfold k_wire_header_size in *. unfold buf. rw take_app_ge; [|rw length_le_bytes; lia].
      rw take_app_ge; [|rw !length_le_bytes; lia]. rw !length_le_bytes.
      rw decode_header; [|done|done]. rw length_take. by rw (proj2 (Nat.eqb_neq _ _)); [|lia].
  - intros more Hm. unfold buf. rw -!app_assoc. rw decode_header; [|done|done]. rw length_app.
    destruct more as [|b more]; [done|]. simpl. by rw (proj2 (Nat.eqb_neq _ _)); [|lia].
Qed.

Lemma announcements_read_back_witness :
  exists buf, encode_non_ros_thread_info (MkNonRosThreadInfo (-5) [97; 98]) 100 = Some buf /\
    decode_non_ros_thread_info buf = Some (MkNonRosThreadInfo (-5) [97; 98]).
Proof.
  eexists. split; [reflexivity|].
  apply (announcements_read_back (MkNonRosThreadInfo (-5) [97; 98]) 100). simpl. lia.
Defined.

(** ** The scan *)

Lemma string_le_cons c d s t :
  string_le (String c s) (String d t) <-> (N_of_ascii c < N_of_ascii d)%N \/ c = d /\ string_le s t.
Proof.
  unfold string_le, String.leb. cbn [String.compare]. unfold Ascii.compare.
  destruct (N.compare_spec (N_of_ascii c) (N_of_ascii d)) as [E|E|E].
  - assert (c = d) as -> by (rw -(ascii_N_embedding c) -(ascii_N_embedding d); by f_equal).
    split; [by right|]. intros [Hlt|[_ H]]; [lia|done].
  - split; [by left|done].
  - split; [done|]. intros [Hlt|[-> _]]; lia.
Qed.

#[export] Instance string_le_trans : Transitive string_le.
Proof.
  intros a. induction a as [|c a IH]; intros b d; [by destruct b, d|].
  destruct b as [|c' b]; [done|]. destruct d as [|c'' d]; [intros _; by destruct b|].
  rw !string_le_cons. intros [H1|[-> H1]] [H2|[-> H2]]; [left; lia|by left|by left|right].
  split; [done|]. by apply (IH b).
Qed.

Lemma string_le_antisymm a b : string_le a b -> string_le b a -> a = b.
Proof. apply String.leb_antisym. Qed.

#[export] Instance comm_tid_le_trans : Transitive comm_tid_le.
Proof.
  intros a b c. unfold comm_tid_le. intros [[H1 H2]|[H1 H2]] [[H3 H4]|[H3 H4]].
  - left. split; [|by transitivity (kt_comm b)]. intros E. apply H1. apply string_le_antisymm; [done|]. by rw E.
  - left. by rw -H3.
  - left. by rw H1.
  - right. split; [congruence|lia].
Qed.

#[export] Instance comm_tid_le_total : Total comm_tid_le.
Proof.
  intros a b. unfold comm_tid_le. destruct (decide (kt_comm a = kt_comm b)) as [E|E].
  - destruct (Z.le_ge_cases (kt_tid a) (kt_tid b)); [left|right]; right; by split; [rw E|].
  - destruct (string_le_total (kt_comm a) (kt_comm b)); [left|right]; left; split; congruence.
Qed.

Lemma dedup_by_comm_spec l :
  StronglySorted comm_tid_le l ->
  NoDup (kt_comm <$> dedup_by_comm l) /\ (forall i, i ∈ dedup_by_comm l -> i ∈ l) /\
  (forall i, i ∈ l -> exists j, j ∈ dedup_by_comm l /\ kt_comm j = kt_comm i) /\
  match dedup_by_comm l with
  | [] => l = []
  | j :: _ => forall i, i ∈ dedup_by_comm l -> kt_comm i = kt_comm j \/
                (kt_comm j <> kt_comm i /\ string_le (kt_comm j) (kt_comm i))
  end.
Proof.
  induction l as [|a l IH]; intros Hs.
  { split; [constructor|]. split; [done|]. split; [by intros i ?%elem_of_nil|done]. }
  apply StronglySorted_inv in Hs as [Hs Ha]. destruct (IH Hs) as (Hnd & Hin & Hcov & Hhd).
  rewrite Forall_forall in Ha. cbn [dedup_by_comm]. destruct (dedup_by_comm l) as [|b l'] eqn:Ed.
  { subst l. split; [by apply NoDup_singleton|]. split; [intros i ?%list_elem_of_singleton; subst; by left|].
    split; [intros i ?%list_elem_of_singleton; subst; exists a; split; [by left|done]|].
    intros i ?%list_elem_of_singleton. subst. by left. }
  assert (forall i, i ∈ b :: l' -> kt_comm a = kt_comm i \/ (kt_comm a <> kt_comm i /\ string_le (kt_comm a) (kt_comm i)))
    as Hle.
  { intros i Hi. destruct (Ha i (Hin i Hi)) as [H|[H _]]; [by right|by left]. }
  destruct (String.eqb (kt_comm a) (kt_comm b)) eqn:E.
  - apply String.eqb_eq in E. split; [rewrite fmap_cons E; exact Hnd|]. split; [|split].
    + intros i [-> |Hi]%elem_of_cons; [by left|right]. apply Hin. by right.
    + intros i [-> |Hi]%elem_of_cons; [exists a; by split; [left|]|].
      destruct (Hcov i Hi) as (j & Hj & Hji). apply elem_of_cons in Hj as [-> |Hj].
      * exists a. split; [by left|congruence].
      * exists j. split; [by right|done].
    + intros i [-> |Hi]%elem_of_cons; [by left|].
      destruct (Hle i ltac:(by right)) as [H|H]; [by left|by right].
  - apply String.eqb_neq in E. split; [|split; [|split]].
    + rewrite fmap_cons. constructor; [|done]. rewrite list_elem_of_fmap. intros (i & Hai & Hi).
      destruct (Hle b ltac:(by left)) as [|[_ Hab]]; [done|].
      destruct (Hhd i Hi) as [H|[H1 H2]]; [congruence|]. apply E, string_le_antisymm; [done|]. by rw Hai.
    + intros i [-> |Hi]%elem_of_cons; [by left|right]. by apply Hin.
    + intros i [-> |Hi]%elem_of_cons; [exists a; by split; [left|]|].
      destruct (Hcov i Hi) as (j & Hj & Hji). exists j. split; [by right|done].
    + intros i [-> |Hi]%elem_of_cons; [by left|]. destruct (Hle i Hi) as [H|H]; [by left|by right].
Qed.

Lemma stat_comm_nonempty stat comm : stat_comm stat = Some comm -> comm <> EmptyString.
Proof.
  unfold stat_comm. destruct (find_char _ stat) as [open|]; [|done].
  destruct (rfind_char _ stat) as [close|] eqn:Ec; [|done]. destruct (S open <? close)%nat eqn:E; [|done].
  apply Nat.ltb_lt in E. apply rfind_char_lt in Ec. intros [= <-] He%of_chars_nil.
  apply (f_equal length) in He. unfold substr in He. rewrite length_take length_drop /= in He. lia.
Qed.

Lemma scanned_comm entries info :
  info ∈ scan_kernel_threads entries -> kt_comm info <> EmptyString /\ is_kworker_comm (kt_comm info) = false.
Proof.
  unfold scan_kernel_threads. rw merge_sort_Permutation. intros ([[fn stat] status] & _ & He)%list_elem_of_omap.
  revert He. unfold scan_entry. destruct (is_all_digits fn); [|done]. destruct (to_int64 fn) as [t|]; [|done].
  unfold read_kernel_thread. repeat (case_goal; [|done]). intros [= <-]. simpl. split.
  - by eapply stat_comm_nonempty.
  - by apply negb_true_iff.
Qed.

Lemma andb_pair' (x y : bool) : x && y = true <-> x = true /\ y = true.
Proof. apply andb_true_iff. Qed.

(** ** The template *)

Section template.
Context {node : Type} {Y : Yaml node} (nprocessors_conf : Z).

(** What yaml-cpp answers about a node that was loaded from what its emitter wrote. *)
Definition holds (n : node) (v : emitted) : Prop :=
  defined n = true /\ IsNull n = false /\
  match v with
  | EString s => IsScalar n = true /\ Scalar n = s /\ as_string n = Some s
  | EUnmanageable => IsScalar n = true /\ Scalar n = k_unmanageable
  | EInt z => IsScalar n = true /\ Scalar n = of_chars (to_string z) /\
      (- 2 ^ 31 <= z < 2 ^ 31 -> as_int n = Some z) /\ (0 <= z < 2 ^ 64 -> as_uint64 n = Some z)
  | EInts l => IsScalar n = false /\ IsSequence n = true /\
      exists ns, elements n = Some ns /\
        Forall2 (fun n z => - 2 ^ 31 <= z < 2 ^ 31 -> as_int n = Some z) ns l
  end.

Definition field (key : string) (fields : list (string * emitted)) : option emitted :=
  snd <$> find (fun kv => String.eqb kv.1 key) fields.

Definition holds_entry (n : node) (fields : list (string * emitted)) : Prop :=
  IsMap n = true /\ forall key, exists m, at_key n key = Some m /\
    match field key fields with Some v => holds m v | None => defined m = false end.

Definition holds_list (n : node) (l : list (list (string * emitted))) : Prop :=
  defined n = true /\ IsNull n = false /\ IsSequence n = true /\
  exists ns, elements n = Some ns /\ Forall2 holds_entry ns l.

(** The file loaded is the one that was written. *)
Definition loaded (doc : node) (tm : template) : Prop :=
  (exists n, at_key doc "hardware_info" = Some n /\ defined n = true /\ holds_entry n (tm_hardware_info tm)) /\
  (exists n, at_key doc "rt_throttling" = Some n /\ defined n = true /\ holds_entry n (tm_rt_throttling tm)) /\
  (exists n, at_key doc "callback_groups" = Some n /\ holds_list n (tm_callback_groups tm)) /\
  (exists n, at_key doc "non_ros_threads" = Some n /\ holds_list n (tm_non_ros_threads tm)) /\
  (exists n, at_key doc "kernel_threads" = Some n /\ holds_list n (tm_kernel_threads tm)) /\
  (exists n, at_key doc "irqs" = Some n /\ holds_list n (tm_irqs tm)).

(** *** Reading one entry *)

Lemma is_unset_holds n v allow :
  holds n v ->
  is_unset n allow = match v with
                     | EUnmanageable => allow
                     | EString s => allow && String.eqb s k_unmanageable
                     | EInt z => allow && String.eqb (of_chars (to_string z)) k_unmanageable
                     | EInts _ => false
                     end.
Proof.
  intros (Hd & Hn & Hv). unfold is_unset. rw Hd Hn. simpl. destruct v as [s|z|l|].
  - destruct Hv as (-> & -> & _). by rw andb_true_r.
  - destruct Hv as (-> & -> & _). by rw andb_true_r.
  - destruct Hv as (-> & _). by rw andb_false_r.
  - destruct Hv as (-> & ->). by rw String.eqb_refl !andb_true_r.
Qed.

Lemma int_not_unmanageable z : String.eqb (of_chars (to_string z)) k_unmanageable = false.
Proof.
  apply String.eqb_neq. unfold to_string. destruct (z <? 0) eqn:E; [done|]. apply Z.ltb_ge in E.
  destruct (decimal 20 z []) as [|c s] eqn:Ed; [by apply (decimal_nonempty 20 z []) in Ed; [|lia]|].
  pose proof (decimal_digits 20 z [] E ltac:(constructor)) as H. rewrite Ed in H.
  apply Forall_cons in H as [H _]. intros [= -> _]. done.
Qed.

Lemma int_is_set n z allow : holds n (EInt z) -> is_unset n allow = false.
Proof. intros H. rw (is_unset_holds _ _ _ H) int_not_unmanageable. by rw andb_false_r. Qed.

Lemma string_is_set n s : holds n (EString s) -> s <> k_unmanageable -> forall allow, is_unset n allow = false.
Proof.
  intros H Hs allow. rw (is_unset_holds _ _ _ H). rw (proj2 (String.eqb_neq _ _) Hs). by rw andb_false_r.
Qed.

(** CPUs that the parser accepts as they are. *)
Definition manageable (l : list Z) : Prop :=
  canonical l /\ Forall (fun cpu => 0 <= cpu <= manageable_cpu_bound nprocessors_conf) l.

Lemma parse_cpus_holds desc ns l :
  Forall (fun cpu => 0 <= cpu <= manageable_cpu_bound nprocessors_conf) l ->
  Forall2 (fun n z => - 2 ^ 31 <= z < 2 ^ 31 -> as_int n = Some z) ns l -> parse_cpus nprocessors_conf desc ns = inr l.
Proof.
  intros Hl Hns. induction Hns as [|n z ns l Hn _ IH]; [done|]. apply Forall_cons in Hl as [Hz Hl].
  assert (manageable_cpu_bound nprocessors_conf <= 1023) as Hb
    by (unfold manageable_cpu_bound, CPU_SETSIZE; lia).
  cbn [parse_cpus]. rw Hn; [|lia]. cbn [or_throw bind].
  assert ((0 <=? z) && (z <=? manageable_cpu_bound nprocessors_conf) = true) as ->
    by (apply andb_true_iff; split; apply Z.leb_le; lia).
  by rw (IH Hl).
Qed.

(** The affinity that an emitted value stands for. *)
Definition cpus_of (v : emitted) : list Z := match v with EInts l => l | _ => [] end.

Lemma parse_affinity_holds entry fields desc allow v :
  holds_entry entry fields -> field "affinity" fields = Some v ->
  match v with EInts l => manageable l | EUnmanageable => allow = true | _ => False end ->
  parse_affinity nprocessors_conf entry desc allow = inr (cpus_of v).
Proof.
  intros [_ He] Hf Hv. destruct (He "affinity") as (n & Hn & Hh). rewrite Hf in Hh.
  unfold parse_affinity. rw Hn. cbn [yaml bind]. rw (is_unset_holds _ _ _ Hh). destruct v as [s|z|l|]; try done.
  - destruct Hh as (_ & _ & _ & Hs & ns & Hns & Hl). destruct Hv as [Hc Hb]. rw Hs Hns. cbn [yaml bind].
    rw (parse_cpus_holds _ _ _ Hb Hl). cbn [bind]. by rw sort_unique_canonical.
  - by subst allow.
Qed.

Lemma observed_manageable s l : parse_manageable_cpu_list nprocessors_conf s = Some l -> manageable l /\ l <> [].
Proof.
  unfold parse_manageable_cpu_list. destruct (parse_cpu_list s) as [l0|] eqn:E; [|done].
  destruct (bool_decide _) eqn:Eb; [|done]. apply bool_decide_eq_true in Eb. intros [= <-]. split; [|done].
  unfold parse_cpu_list in E. destruct (bool_decide _); [|done].
  destruct (parse_cpu_tokens _) as [l1|] eqn:E1; [|done]. injection E as <-.
  destruct (sort_unique_spec l1) as [Hc Hin]. apply parse_cpu_tokens_bounds in E1. rewrite Forall_forall in E1.
  split.
  - unfold canonical in *. clear -Hc. induction Hc as [|x l Hs IH Hx]; [constructor|]. rw filter_cons.
    case_decide; [|done]. constructor; [done|]. rewrite !Forall_forall in Hx |- *.
    intros y [_ Hy]%list_elem_of_filter. by apply Hx.
  - apply Forall_forall. intros x [Hx Hi]%list_elem_of_filter. specialize (E1 x (proj1 (Hin x) Hi)). lia.
Qed.

(** *** Kernel threads *)

(** The policy that the template can express. *)
Definition representable (info : KernelThreadInfo) : option SchedPolicy :=
  match parse_sched_policy (kt_policy info) with
  | Some p => if decide (p = Deadline) then None else Some p
  | None => None
  end.

(** The kernel's ranges of the two values. *)
Definition in_range (info : KernelThreadInfo) : Prop :=
  match representable info with
  | Some p => if is_cfs p then k_nice_min <= kt_nice info <= k_nice_max
              else k_rt_priority_min <= kt_rt_priority info <= k_rt_priority_max
  | None => True
  end.

Definition template_attrs (info : KernelThreadInfo) : SchedAttrs :=
  MkAttrs (representable info)
    (match representable info with Some p => if is_cfs p then kt_nice info else 0 | None => 0 end)
    (match representable info with Some p => if is_cfs p then 0 else kt_rt_priority info | None => 0 end)
    no_deadline
    (if kt_no_setaffinity info then []
     else default [] (parse_manageable_cpu_list nprocessors_conf (kt_affinity info))).

Lemma parse_nice_holds n fields desc allow z :
  holds_entry n fields -> field "nice" fields = Some (EInt z) -> k_nice_min <= z <= k_nice_max ->
  parse_nice n desc allow = inr z.
Proof.
  intros [_ He] Hf Hz. destruct (He "nice") as (m & Hm & Hh). rewrite Hf in Hh.
  unfold parse_nice. rw Hm. cbn [yaml bind]. rw (int_is_set _ _ _ Hh). cbn [negb].
  unfold k_nice_min, k_nice_max in *. destruct Hh as (_ & _ & _ & _ & Hi & _). rw Hi; [|lia]. cbn [or_throw bind].
  assert ((-20 <=? z) && (z <=? 19) = true) as -> by (apply andb_true_iff; split; apply Z.leb_le; lia). done.
Qed.

Lemma parse_rt_priority_holds n fields desc allow z :
  holds_entry n fields -> field "priority" fields = Some (EInt z) ->
  k_rt_priority_min <= z <= k_rt_priority_max -> parse_rt_priority n desc allow = inr z.
Proof.
  intros [_ He] Hf Hz. destruct (He "priority") as (m & Hm & Hh). rewrite Hf in Hh.
  unfold parse_rt_priority. rw Hm. cbn [yaml bind]. rw (int_is_set _ _ _ Hh). cbn [negb].
  unfold k_rt_priority_min, k_rt_priority_max in *. destruct Hh as (_ & _ & _ & _ & Hi & _). rw Hi; [|lia].
  cbn [or_throw bind].
  assert ((1 <=? z) && (z <=? 99) = true) as -> by (apply andb_true_iff; split; apply Z.leb_le; lia). done.
Qed.

Lemma string_field n fields key s :
  holds_entry n fields -> field key fields = Some (EString s) ->
  exists m, at_key n key = Some m /\ as_string m = Some s /\ defined m = true /\ IsNull m = false /\
    (s <> k_unmanageable -> forall allow, is_unset m allow = false).
Proof.
  intros [_ He] Hf. destruct (He key) as (m & Hm & Hh). rewrite Hf in Hh. exists m. split; [done|].
  pose proof Hh as (Hd & Hn & _ & _ & Hs). split; [done|]. split; [done|]. split; [done|]. intros Hne.
  by apply string_is_set with s.
Qed.

Lemma unset_fields n fields desc keys :
  holds_entry n fields ->
  Forall (fun key => field key fields = None \/ field key fields = Some EUnmanageable) keys ->
  check_policy_fields n desc keys = inr tt.
Proof.
  intros [_ He]. induction 1 as [|key keys Hk _ IH]; [done|]. destruct (He key) as (m & Hm & Hh).
  cbn [check_policy_fields]. rw Hm. cbn [yaml bind].
  assert (is_unset m true = true) as ->; [|done]. destruct Hk as [Hk|Hk]; rewrite Hk in Hh.
  - unfold is_unset. by rw Hh.
  - by rw (is_unset_holds _ _ _ Hh).
Qed.

Lemma emit_affinity_field info :
  field "affinity" (emit_kernel_thread nprocessors_conf info) =
  Some (if kt_no_setaffinity info then EUnmanageable
        else emit_cpus (parse_manageable_cpu_list nprocessors_conf (kt_affinity info))).
Proof.
  unfold emit_kernel_thread. destruct (parse_sched_policy (kt_policy info)) as [p|]; [|reflexivity].
  destruct (decide (p = Deadline)); [reflexivity|]. destruct (is_cfs p); reflexivity.
Qed.

Lemma parse_kernel_attrs_template n info desc :
  holds_entry n (emit_kernel_thread nprocessors_conf info) -> in_range info ->
  parse_kernel_attrs nprocessors_conf n desc = inr (template_attrs info).
Proof.
  intros Hh Hr. unfold parse_kernel_attrs.
  rw (parse_affinity_holds _ _ desc true _ Hh (emit_affinity_field info)).
  2: { destruct (kt_no_setaffinity info); [done|]. unfold emit_cpus.
       destruct (parse_manageable_cpu_list _ _) as [l|] eqn:E; [|done]. by apply observed_manageable in E as []. }
  cbn [bind]. unfold template_attrs, in_range in *.
  assert (cpus_of (if kt_no_setaffinity info then EUnmanageable
    else emit_cpus (parse_manageable_cpu_list nprocessors_conf (kt_affinity info))) =
    if kt_no_setaffinity info then [] else
      default [] (parse_manageable_cpu_list nprocessors_conf (kt_affinity info))) as ->.
  { destruct (kt_no_setaffinity info); [done|]. by destruct (parse_manageable_cpu_list _ _). }
  unfold emit_kernel_thread in Hh. fold (representable info) in Hh.
  destruct (representable info) as [p|] eqn:Ep.
  - assert (parse_sched_policy (kt_policy info) = Some p /\ p <> Deadline) as [Hp Hnd].
    { unfold representable in Ep. destruct (parse_sched_policy _) as [p'|]; [|done].
      case_decide; [done|]. injection Ep as ->. done. }
    destruct (string_field n _ "policy" (kt_policy info) Hh eq_refl) as (m & Hm & Hs & _ & _ & Hu).
    rw Hm. cbn [yaml bind]. rw Hu; [|intros E; by rewrite E in Hp]. rw Hs. cbn [or_throw bind].
    unfold parse_policy_or_throw. rw Hp. cbn [or_throw bind]. rw decide_False; [|done].
    destruct (is_cfs p) eqn:Ec.
    + by rw (parse_nice_holds n _ _ _ (kt_nice info) Hh eq_refl Hr).
    + by rw (parse_rt_priority_holds n _ _ _ (kt_rt_priority info) Hh eq_refl Hr).
  - destruct Hh as [Hmap He]. destruct (He "policy") as (m & Hm & Hp). rw Hm. cbn [yaml bind].
    rw (is_unset_holds m EUnmanageable true Hp).
    rw (unset_fields n _ desc _ (conj Hmap He)); [done|].
    rewrite !Forall_cons Forall_nil. repeat split; first [left; reflexivity|right; reflexivity].
Qed.

Lemma parse_kernel_thread_template i n info :
  holds_entry n (emit_kernel_thread nprocessors_conf info) -> in_range info ->
  kt_comm info <> EmptyString -> is_kworker_comm (kt_comm info) = false ->
  parse_kernel_thread nprocessors_conf i n = inr (MkKernelThreadConfig (kt_comm info) (template_attrs info)).
Proof.
  intros Hh Hr Hne Hk. unfold parse_kernel_thread. rw (proj1 Hh).
  destruct (string_field n _ "comm" (kt_comm info) Hh eq_refl) as (m & Hm & Hs & Hd & Hn & _).
  rw Hm. cbn [yaml bind]. rw Hd Hn. cbn [negb andb]. rw Hs. cbn [or_throw bind].
  rw (proj2 (String.eqb_neq _ _) Hne) Hk. cbn [negb].
  by rw (parse_kernel_attrs_template _ _ _ Hh Hr).
Qed.

Lemma for_entries_map {A B} (f : nat -> node -> exc A) (g : B -> A) (R : node -> B -> Prop) i ns l :
  Forall2 R ns l -> (forall i n b, b ∈ l -> R n b -> f i n = inr (g b)) ->
  for_entries f i ns = inr (g <$> l).
Proof.
  intros H. revert i. induction H as [|n b ns l Hn _ IH]; intros i Hf; [done|]. cbn [for_entries].
  rw (Hf i n b); [|by left|done]. cbn [bind]. rw IH; [done|]. intros j m b' Hb. apply Hf. by right.
Qed.

Lemma check_unique_NoDup {A K} `{Countable K} (key : A -> K) dup seen (l : list A) :
  NoDup (key <$> l) -> (forall x, x ∈ l -> key x ∉ seen) -> check_unique key dup seen l = inr tt.
Proof.
  revert seen. induction l as [|x l IH]; intros seen Hnd Hs; [done|]. rewrite fmap_cons in Hnd.
  apply NoDup_cons in Hnd as [Hx Hnd]. cbn [check_unique]. rw bool_decide_true; [|apply Hs; by left].
  apply IH; [done|]. intros y Hy Hin. apply elem_of_union in Hin as [Hin|Hin].
  - apply elem_of_singleton in Hin. apply Hx. rw -Hin. by apply list_elem_of_fmap_2.
  - apply (Hs y); [by right|done].
Qed.

Definition template_config (info : KernelThreadInfo) : KernelThreadConfig :=
  MkKernelThreadConfig (kt_comm info) (template_attrs info).

Lemma section_entries_list doc section n l :
  at_key doc section = Some n -> holds_list n l ->
  exists ns, section_entries doc section = inr ns /\ Forall2 holds_entry ns l.
Proof.
  intros Hn (Hd & Hnull & Hs & ns & Hns & Hl). exists ns. split; [|done].
  unfold section_entries. rw Hn. cbn [yaml bind]. rw Hd Hnull. cbn [negb orb]. rw Hs. by rw Hns.
Qed.

Lemma parse_kernel_threads_template doc n entries :
  let scanned := scan_kernel_threads entries in
  (forall i, i ∈ scanned -> in_range i) ->
  at_key doc "kernel_threads" = Some n ->
  holds_list n (emit_kernel_thread nprocessors_conf <$> dedup_by_comm scanned) ->
  parse_kernel_threads nprocessors_conf doc = inr (template_config <$> dedup_by_comm scanned).
Proof.
  intros scanned Hr Hn Hl. destruct (section_entries_list _ _ _ _ Hn Hl) as (ns & Hs & H2).
  unfold parse_kernel_threads. rw Hs. cbn [bind]. rewrite Forall2_fmap_r in H2.
  destruct (dedup_by_comm_spec scanned) as (Hnd & Hin & _).
  { unfold scanned, scan_kernel_threads. apply Sorted_StronglySorted; [apply _|apply Sorted_merge_sort; apply _]. }
  rw (for_entries_map _ template_config _ 0 ns _ H2).
  2: { intros i m info Hi Hh. destruct (scanned_comm entries info (Hin _ Hi)) as [H3 H4].
       apply parse_kernel_thread_template; [done|by apply Hr, Hin|done|done]. }
  cbn [bind]. rw check_unique_NoDup; [done| |by intros x _].
  by rw -list_fmap_compose.
Qed.

(** Threads that look the same to the tool. *)
Definition same_values (i j : KernelThreadInfo) : Prop :=
  kt_policy i = kt_policy j /\ kt_nice i = kt_nice j /\ kt_rt_priority i = kt_rt_priority j /\
  kt_affinity i = kt_affinity j.

Lemma template_in_sync i j :
  same_values i j -> kernel_thread_in_sync nprocessors_conf (template_config j) i = true.
Proof.
  intros (H1 & H2 & H3 & H4). unfold kernel_thread_in_sync. simpl. unfold representable.
  apply andb_pair'. split.
  - rw H1 H2 H3. destruct (parse_sched_policy (kt_policy j)) as [p|] eqn:E; [|done]. case_decide; [done|].
    rw bool_decide_false; [|done]. rw bool_decide_true; [|done]. simpl. by destruct (is_cfs p); apply Z.eqb_refl.
  - unfold observed_cpus. rw H4. destruct (kt_no_setaffinity j); [done|].
    destruct (parse_manageable_cpu_list nprocessors_conf (kt_affinity j)) as [l|]; [|done]. simpl.
    apply orb_true_iff. right. by apply bool_decide_eq_true.
Qed.

Section apply.
Context (answer : list syscall -> syscall -> bool).

Lemma configure_matches_in_sync c matches r o :
  (forall i, i ∈ matches -> kernel_thread_in_sync nprocessors_conf c i = true) ->
  exists r', configure_matches answer nprocessors_conf c matches r o = (r', o) /\
    o_failed r' = o_failed r /\ o_skipped r' = o_skipped r.
Proof.
  revert r. induction matches as [|i matches IH]; intros r Hs; [by exists r|]. cbn [configure_matches].
  unfold configure_kernel_thread. rw (Hs i); [|by left]. cbn [negb].
  destruct (IH (add_result true (kernel_thread_key (comm c) (kt_tid i)) r)) as (r' & He & Hf & Hk);
    [by intros j Hj; apply Hs; right|]. by exists r'.
Qed.

Lemma apply_kernel_threads_in_sync scanned l r o :
  (forall c, c ∈ l -> find_kernel_threads_by_comm scanned (comm c) <> [] /\
     forall i, i ∈ scanned -> kt_comm i = comm c -> kernel_thread_in_sync nprocessors_conf c i = true) ->
  exists r', apply_kernel_threads answer nprocessors_conf scanned l r o = (r', o) /\
    o_failed r' = o_failed r /\ o_skipped r' = o_skipped r.
Proof.
  revert r. induction l as [|c l IH]; intros r Hl; [by exists r|]. cbn [apply_kernel_threads].
  assert (forall r, exists r', apply_kernel_threads answer nprocessors_conf scanned l r o = (r', o) /\
    o_failed r' = o_failed r /\ o_skipped r' = o_skipped r) as IH'
    by (intros r'; apply IH; intros c' Hc'; apply Hl; by right).
  destruct (negb _); [apply IH'|]. destruct (Hl c ltac:(by left)) as [Hne Hs].
  destruct (configure_matches_in_sync c (find_kernel_threads_by_comm scanned (comm c)) r o)
    as (r1 & He & Hf & Hk).
  { intros i Hi. apply list_elem_of_filter in Hi as [Hc Hi]. by apply Hs. }
  destruct (find_kernel_threads_by_comm scanned (comm c)) as [|m ms]; [done|]. rw He.
  destruct (IH' r1) as (r2 & -> & Hf2 & Hk2). exists r2. split; [done|]. by rw Hf2 Hk2.
Qed.

(** *** IRQs *)

Lemma configure_irqs_in_sync w l r o :
  (forall c, c ∈ l -> is_managed_irq c = true -> exists name, read_irq_actions (irq_actions w (irq c)) = Some name /\
     ic_name c = name /\
     parse_manageable_cpu_list nprocessors_conf (default [] (smp_affinity_list w (irq c))) = Some (ic_affinity c)) ->
  exists r', apply_irqs answer nprocessors_conf w l r o = (r', o) /\ o_failed r' = o_failed r.
Proof.
  revert r. induction l as [|c l IH]; intros r Hl; [by exists r|]. cbn [apply_irqs].
  assert (forall r, exists r', apply_irqs answer nprocessors_conf w l r o = (r', o) /\ o_failed r' = o_failed r)
    as IH' by (intros r'; apply IH; intros c' Hc'; apply Hl; by right).
  destruct (is_managed_irq c) eqn:Em; [|apply IH']. cbn [negb].
  destruct (Hl c ltac:(by left) Em) as (name & Hn & Hc & Hp). unfold configure_irq. rw Hn Hc String.eqb_refl orb_true_r.
  rw Hp. unfold same_cpu_set. rw bool_decide_true; [|done].
  destruct (IH' (add_result true (irq_key c) r)) as (r' & -> & Hf). by exists r'.
Qed.
End apply.

Definition template_irq (info : IrqInfo) : IrqConfig :=
  MkIrqConfig (irq_number info) (irq_name info)
    (default [] (parse_manageable_cpu_list nprocessors_conf (irq_affinity info))).

Lemma as_base10_holds high n z :
  holds n (EInt z) -> 0 <= z <= high -> high < 10 ^ 20 -> as_base10 high n = Some z.
Proof.
  intros (Hd & _ & Hs & Hsc & _) Hz Hh. unfold as_base10. rw Hd Hs Hsc. cbn [andb].
  rw chars_of_chars to_string_all_digits; [|lia]. apply to_number_to_string; lia.
Qed.

Lemma parse_irq_template i n info :
  holds_entry n (emit_irq nprocessors_conf info) -> 0 <= irq_number info <= 2 ^ 31 - 1 ->
  parse_irq nprocessors_conf i n = inr (template_irq info).
Proof.
  intros Hh Hr. pose proof Hh as [Hm He]. unfold parse_irq. rw Hm.
  destruct (He "irq") as (m & Hk & Hv). change (field "irq" _) with (Some (EInt (irq_number info))) in Hv.
  rw Hk. cbn [yaml bind]. pose proof Hv as (Hd0 & Hn0 & _). rw Hd0 Hn0. cbn [negb andb].
  rw (as_base10_holds _ _ _ Hv); [|lia|lia]. cbn [or_throw bind].
  destruct (string_field n _ "name" (irq_name info) Hh eq_refl) as (m' & Hk' & Hs & Hd & Hn & _).
  rw Hk'. cbn [yaml bind]. rw Hd Hn. cbn [negb andb]. rw Hs. cbn [or_throw bind].
  assert (field "affinity" (emit_irq nprocessors_conf info) =
    Some (emit_cpus (parse_manageable_cpu_list nprocessors_conf (irq_affinity info)))) as Hf by reflexivity.
  rw (parse_affinity_holds n _ _ true _ Hh Hf).
  2: { unfold emit_cpus. destruct (parse_manageable_cpu_list _ _) as [l|] eqn:E; [|done].
       by apply observed_manageable in E as []. }
  cbn [bind]. unfold template_irq, emit_cpus. by destruct (parse_manageable_cpu_list _ _).
Qed.

Lemma digits_value_nonneg acc s : 0 <= acc -> Forall (fun c => is_digit c = true) s -> 0 <= digits_value acc s.
Proof.
  intros Ha Hs. revert acc Ha. induction Hs as [|c s Hc _ IH]; intros acc Ha; [done|].
  cbn [digits_value fold_left]. apply IH. unfold is_digit, digit_value in *. bool_to_prop. lia.
Qed.

Lemma to_number_digits low high s z :
  is_all_digits s = true -> to_number low high s = Some z -> 0 <= z <= high.
Proof.
  intros Hd. unfold to_number. destruct s as [|c s]; [done|].
  assert (Forall (fun c => is_digit c = true) (c :: s)) as Hall.
  { unfold is_all_digits in Hd. bool_to_prop. apply Forall_forall. intros d Hin.
    match goal with H : forallb _ _ = true |- _ => rewrite forallb_forall in H; apply H end.
    by apply list_elem_of_In. }
  assert (is_char "-" c = false) as ->.
  { apply Forall_cons in Hall as [Hc _]. by apply digit_not. }
  cbn [andb]. rw Hd. destruct (_ && _) eqn:E; [|done]. intros [= <-].
  pose proof (digits_value_nonneg 0 (c :: s) ltac:(lia) Hall). bool_to_prop.
  change (0 <= digits_value 0 (c :: s) <= high). lia.
Qed.

Lemma scanned_irq smp entries info :
  info ∈ scan_irqs smp entries ->
  0 <= irq_number info <= 2 ^ 31 - 1 /\ irq_affinity info = default [] (smp (irq_number info)).
Proof.
  unfold scan_irqs. rw merge_sort_Permutation. intros ([fn actions] & _ & He)%list_elem_of_omap.
  revert He. unfold scan_irq. destruct (is_all_digits fn) eqn:Ed; [|done].
  destruct (to_int fn) as [z|] eqn:E; [|done]. destruct actions as [a|]; [|done].
  destruct (bool_decide _); [|done]. intros [= <-]. simpl. split; [|done]. by eapply to_number_digits.
Qed.

Lemma parse_irqs_template doc n smp entries :
  let scanned := scan_irqs smp entries in
  NoDup (irq_number <$> scanned) ->
  at_key doc "irqs" = Some n -> holds_list n (emit_irq nprocessors_conf <$> scanned) ->
  parse_irqs nprocessors_conf doc = inr (template_irq <$> scanned).
Proof.
  intros scanned Hnd Hn Hl. destruct (section_entries_list _ _ _ _ Hn Hl) as (ns & Hs & H2).
  unfold parse_irqs. rw Hs. cbn [bind]. rewrite Forall2_fmap_r in H2.
  rw (for_entries_map _ template_irq _ 0 ns _ H2).
  2: { intros i m info Hi Hh. apply parse_irq_template; [done|]. by eapply scanned_irq. }
  cbn [bind]. rw check_unique_NoDup; [done| |by intros x _]. by rw -list_fmap_compose.
Qed.

(** *** Callback groups and other threads *)

Definition default_attrs : SchedAttrs := MkAttrs (Some Other) 0 0 no_deadline [].

Lemma parse_attrs_defaults n fields desc :
  holds_entry n fields -> field "affinity" fields = Some (EInts []) ->
  field "policy" fields = Some (EString "SCHED_OTHER") -> field "nice" fields = Some (EInt 0) ->
  parse_attrs nprocessors_conf n desc = inr default_attrs.
Proof.
  intros Hh Ha Hp Hn. unfold parse_attrs.
  rw (parse_affinity_holds n fields desc false _ Hh Ha); [|by split; [constructor|]]. cbn [bind].
  destruct (string_field n fields "policy" _ Hh Hp) as (m & Hm & Hs & _). rw Hm. cbn [yaml bind]. rw Hs.
  cbn [yaml bind]. change (parse_policy_or_throw "SCHED_OTHER" desc) with (@inr exn _ Other). cbn [bind].
  change (is_cfs Other) with true.
  by rw (parse_nice_holds n fields desc false 0 Hh Hn); [|unfold k_nice_min, k_nice_max; lia].
Qed.

Lemma parse_callback_group_template dd i n (di : Z * string) :
  holds_entry n ([("id", EString di.2); ("domain_id", EInt di.1)] ++ emit_defaults) ->
  0 <= di.1 < 2 ^ 64 -> has_char "*" (to_chars di.2) = false ->
  parse_callback_group nprocessors_conf dd i n = inr (new_config di.2 di.1 default_attrs).
Proof.
  intros Hh Hd Hs. unfold parse_callback_group.
  destruct (string_field n _ "id" di.2 Hh eq_refl) as (m & Hm & Hid & _). rw Hm. cbn [yaml bind].
  rw Hid. cbn [yaml bind]. unfold check_id. rw Hs. cbn [bind].
  destruct (proj2 Hh "domain_id") as (k & Hk & Hv). change (field "domain_id" _) with (Some (EInt di.1)) in Hv.
  rw Hk. cbn [yaml bind]. destruct Hv as (-> & _ & _ & _ & _ & Hu). rw Hu; [|done]. cbn [yaml bind].
  by rw (parse_attrs_defaults n _ _ Hh eq_refl eq_refl eq_refl).
Qed.

Lemma parse_non_ros_thread_template i n name :
  holds_entry n (("name", EString name) :: emit_defaults) ->
  parse_non_ros_thread nprocessors_conf i n = inr (new_config name 0 default_attrs).
Proof.
  intros Hh. unfold parse_non_ros_thread.
  destruct (string_field n _ "name" name Hh eq_refl) as (m & Hm & Hid & _). rw Hm. cbn [yaml bind].
  rw Hid. cbn [yaml bind]. by rw (parse_attrs_defaults n _ _ Hh eq_refl eq_refl eq_refl).
Qed.

Lemma callback_group_key_inj c1 c2 :
  0 <= domain_id c1 < 2 ^ 64 -> 0 <= domain_id c2 < 2 ^ 64 -> callback_group_key c1 = callback_group_key c2 ->
  domain_id c1 = domain_id c2 /\ thread_str c1 = thread_str c2.
Proof.
  intros H1 H2 He. apply (f_equal to_chars) in He. unfold callback_group_key in He.
  rewrite !chars_of_chars in He. apply (app_cons_inj (is_char ":")) in He as [Hd Hs];
    [|by apply to_string_no; [lia|]..|done].
  split; [|by rw -(of_chars_to_chars (thread_str c1)) Hs of_chars_to_chars].
  apply (f_equal (to_number 0 (2 ^ 64))) in Hd. rewrite !to_number_to_string in Hd; [|lia..]. congruence.
Qed.

(** *** The machine *)

Lemma emit_hardware_field hw key v : hw !! key = Some v -> field key (emit_hardware_info hw) = Some (EString v).
Proof.
  intros Hv. unfold field, emit_hardware_info. assert (key ∈ sorted_keys hw) as Hin by (apply elem_of_sorted_keys; by eexists).
  revert Hin. induction (sorted_keys hw) as [|k l IH]; [by intros ?%elem_of_nil|]. rw fmap_cons. cbn [find fst].
  intros [<-|Hin]%elem_of_cons; [by rw String.eqb_refl /= Hv|]. destruct (String.eqb_spec k key) as [-> |_]; [by rw /= Hv|].
  by apply IH.
Qed.

Lemma hardware_in_sync n hw keys :
  holds_entry n (emit_hardware_info hw) -> (forall k, k ∈ keys -> is_Some (hw !! k)) ->
  exists r, hardware_mismatches n hw keys = inr r /\ default [] r = [].
Proof.
  intros Hh. induction keys as [|k keys IH]; intros Hk; cbn [hardware_mismatches]; [by exists None|].
  destruct (Hk k ltac:(by left)) as [v Hv]. destruct (proj2 Hh k) as (m & Hm & Hf).
  rewrite (emit_hardware_field hw k v Hv) in Hf. destruct Hf as (Hd & _ & _ & _ & Hs).
  rw Hm. cbn [yaml bind]. rw Hd. cbn [negb]. rw Hs. cbn [yaml bind].
  destruct IH as (r & -> & Hr); [intros k' Hin; apply Hk; by right|]. cbn [bind]. rw Hv /= String.eqb_refl Hr.
  by eexists.
Qed.

Lemma validate_hardware_template doc n hw :
  at_key doc "hardware_info" = Some n -> defined n = true -> holds_entry n (emit_hardware_info hw) ->
  validate_hardware_info doc hw = inr tt.
Proof.
  intros Hn Hd Hh. unfold validate_hardware_info. rw Hn. cbn [yaml bind]. rw Hd. cbn [negb orb].
  case_bool_decide; [done|]. unfold check_hardware_info.
  destruct (hardware_in_sync n hw (sorted_keys hw) Hh) as (r & -> & Hr); [intros k; by apply elem_of_sorted_keys|].
  cbn [bind]. destruct r as [[|x l]|]; done.
Qed.

Lemma check_rt_throttling_template doc n read_sysctl :
  at_key doc "rt_throttling" = Some n -> defined n = true -> holds_entry n emit_rt_throttling ->
  exists guidance, check_rt_throttling doc read_sysctl =
    inr ([MkRtThrottlingCheck "sched_rt_period_us" 1000000 (read_sysctl "/proc/sys/kernel/sched_rt_period_us");
          MkRtThrottlingCheck "sched_rt_runtime_us" 950000 (read_sysctl "/proc/sys/kernel/sched_rt_runtime_us")], guidance).
Proof.
  intros Hn Hd Hh. unfold check_rt_throttling. rw Hn. cbn [yaml bind]. rw Hd. cbn [negb rt_checks].
  destruct (proj2 Hh "period_us") as (m1 & -> & Hd1 & _ & _ & _ & Hi1 & _).
  destruct (proj2 Hh "runtime_us") as (m2 & -> & Hd2 & _ & _ & _ & Hi2 & _). cbn [yaml bind]. rw Hd1 Hd2. cbn [negb].
  rw Hi1; [|done]. rw Hi2; [|done]. cbn [yaml bind]. by eexists.
Qed.

Lemma parse_yaml_template dd doc n1 n2 ids names :
  at_key doc "callback_groups" = Some n1 ->
  holds_list n1 ((fun di => [("id", EString di.2); ("domain_id", EInt di.1)] ++ emit_defaults) <$> ids) ->
  at_key doc "non_ros_threads" = Some n2 ->
  holds_list n2 ((fun n => ("name", EString n) :: emit_defaults) <$> names) ->
  NoDup ids -> NoDup names ->
  (forall d id, (d, id) ∈ ids -> 0 <= d < 2 ^ 64 /\ has_char "*" (to_chars id) = false) ->
  parse_yaml nprocessors_conf dd doc =
    inr ((fun di => new_config di.2 di.1 default_attrs) <$> ids,
         (fun n => new_config n 0 default_attrs) <$> names).
Proof.
  intros E1 (_ & _ & _ & ns1 & Hns1 & H1) E2 (_ & _ & _ & ns2 & Hns2 & H2) Hid Hnames Hok.
  rewrite Forall2_fmap_r in H1. rewrite Forall2_fmap_r in H2. unfold parse_yaml. rw E1 E2. cbn [yaml bind]. rw Hns1 Hns2. cbn [yaml bind].
  rw (for_entries_map _ (fun di => new_config di.2 di.1 default_attrs) _ 0 ns1 ids H1).
  2: { intros i m [d id] Hin Hh. destruct (Hok d id Hin). by apply parse_callback_group_template. }
  cbn [bind]. rw (for_entries_map _ (fun n => new_config n 0 default_attrs) _ 0 ns2 names H2).
  2: { intros i m n _ Hh. by apply parse_non_ros_thread_template. }
  cbn [bind]. rw check_unique_NoDup; [| |by intros x _].
  - cbn [bind]. rw check_unique_NoDup; [done| |by intros x _]. rw -list_fmap_compose.
    assert (thread_str ∘ (fun n => new_config n 0 default_attrs) <$> names = names) as ->; [|done].
    apply list_fmap_id.
  - rw -list_fmap_compose. apply NoDup_fmap_2_strong; [|done]. intros [d1 i1] [d2 i2] Hx Hy He.
    destruct (Hok d1 i1 Hx) as [B1 _], (Hok d2 i2 Hy) as [B2 _].
    apply callback_group_key_inj in He as [Hd Hi]; [|done|done]. simpl in *. congruence.
Qed.
End template.

(** C40. The configuration file that prerun_node writes, loaded unchanged on a machine that looks as it did
    when it was scanned, is accepted: the check of the hardware passes, that of the real-time throttling reports its two
    settings, and the file names every callback group and every thread announced; and applying it makes no system call
    at all, to kernel threads or IRQs, and reports no failure, whether irqbalance runs or not.  (Kernel threads of one
    name must look the same to the tool: the template has one entry for them.) *)
Theorem unedited_template_is_noop {node} {Y : Yaml node} nprocessors_conf default_domain_id answer
    entries smp irq_entries ids names hw (doc : node) :
  let scanned := scan_kernel_threads entries in
  let irqs := scan_irqs smp irq_entries in
  (forall i, i ∈ scanned -> in_range i) ->
  (forall i j, i ∈ scanned -> j ∈ scanned -> kt_comm i = kt_comm j -> same_values i j) ->
  NoDup (irq_number <$> irqs) -> NoDup ids -> NoDup names ->
  (forall d id, (d, id) ∈ ids -> 0 <= d < 2 ^ 64 /\ has_char "*" (to_chars id) = false) ->
  loaded doc (dump_yaml_config nprocessors_conf hw ids names scanned irqs) ->
  validate_hardware_info doc hw = inr tt /\
  (forall read_sysctl, exists guidance, check_rt_throttling doc read_sysctl =
     inr ([MkRtThrottlingCheck "sched_rt_period_us" 1000000 (read_sysctl "/proc/sys/kernel/sched_rt_period_us");
           MkRtThrottlingCheck "sched_rt_runtime_us" 950000 (read_sysctl "/proc/sys/kernel/sched_rt_runtime_us")],
          guidance)) /\
  exists cb nrt kts iqs,
    parse_config nprocessors_conf default_domain_id doc = inr (cb, nrt, kts, iqs) /\
    ((fun c => (domain_id c, thread_str c)) <$> cb) = ids /\ (thread_str <$> nrt) = names /\
    (forall o, exists r, apply_kernel_thread_configs answer nprocessors_conf scanned kts o = (r, o) /\
       o_failed r = [] /\ o_skipped r = []) /\
    (forall w o,
       (forall i, i ∈ irqs -> read_irq_actions (irq_actions w (irq_number i)) = Some (irq_name i) /\
          smp_affinity_list w (irq_number i) = smp (irq_number i)) ->
       exists r, apply_irq_configs answer nprocessors_conf w iqs o = (r, o) /\ o_failed r = []).
Proof.
  intros scanned irqs Hr Hsame Hirq Hids Hnames Hok
    ((nh & Eh & Dh & Hh) & (nt & Et & Dt & Htt) & (n1 & E1 & H1) & (n2 & E2 & H2) & (n3 & E3 & H3) & (n4 & E4 & H4)). simpl in H1, H2, H3, H4.
  split; [by apply (validate_hardware_template doc nh)|].
  split; [intros read; by apply (check_rt_throttling_template doc nt)|].
  eexists _, _, _, _. split; [|split; [|split; [|split]]].
  - unfold parse_config. rw (parse_yaml_template _ _ _ n1 n2 ids names); [|done..]. cbn [bind].
    rw (parse_kernel_threads_template _ _ n3 entries); [|done..]. cbn [bind].
    rw (parse_irqs_template _ _ n4 smp irq_entries); [|done..]. reflexivity.
  - simpl. rw -list_fmap_compose. rw -{2}(list_fmap_id ids). apply list_fmap_ext. by intros i [d id] _.
  - simpl. rw -list_fmap_compose. apply list_fmap_id.
  - intros o. destruct (apply_kernel_threads_in_sync nprocessors_conf answer scanned
      (template_config nprocessors_conf <$> dedup_by_comm scanned) no_outcome o) as (r & He & Hf & Hk).
    { intros c (j & -> & Hj)%list_elem_of_fmap.
      destruct (dedup_by_comm_spec scanned) as (_ & Hin & _).
      { unfold scanned, scan_kernel_threads. apply Sorted_StronglySorted; [apply _|apply Sorted_merge_sort; apply _]. }
      split.
      - intros En. assert (j ∈ find_kernel_threads_by_comm scanned (kt_comm j)) as Hx
          by (apply list_elem_of_filter; split; [done|by apply Hin]).
        simpl in En. rewrite En in Hx. by apply elem_of_nil in Hx.
      - intros i Hi Hc. apply template_in_sync. by apply Hsame; [|apply Hin|]. }
    exists r. by split.
  - intros w o Hw. destruct (configure_irqs_in_sync nprocessors_conf answer w
      (template_irq nprocessors_conf <$> irqs) no_outcome o) as (r & He & Hf).
    { intros c (j & -> & Hj)%list_elem_of_fmap Hm. destruct (Hw j Hj) as [Ha Hs]. exists (irq_name j).
      split; [done|]. split; [done|]. simpl. rw Hs. destruct (scanned_irq _ _ _ Hj) as [_ <-].
      unfold is_managed_irq in Hm. simpl in Hm. apply bool_decide_eq_true in Hm.
      by destruct (parse_manageable_cpu_list _ _). }
    exists r. by split.
Qed.

(** *** Documents as trees *)

Inductive tree :=
  | TScalar (s : string)
  | TList (l : list tree)
  | TMap (m : list (string * tree))
  | TUndefined.

#[export] Instance tree_yaml : Yaml tree := {
  defined n := match n with TUndefined => false | _ => true end;
  IsNull n := false;
  IsScalar n := match n with TScalar _ => true | _ => false end;
  IsSequence n := match n with TList _ => true | _ => false end;
  IsMap n := match n with TMap _ => true | _ => false end;
  Scalar n := match n with TScalar s => s | _ => EmptyString end;
  at_key n key := match n with
                  | TMap m => Some (default TUndefined (snd <$> find (fun kv => String.eqb kv.1 key) m))
                  | _ => None
                  end;
  elements n := match n with TList l => Some l | _ => None end;
  as_string n := match n with TScalar s => Some s | _ => None end;
  as_int n := match n with TScalar s => to_int (to_chars s) | _ => None end;
  as_uint64 n := match n with TScalar s => to_unsigned_long (to_chars s) | _ => None end
}.

Definition tree_of (v : emitted) : tree :=
  match v with
  | EString s => TScalar s
  | EInt z => TScalar (of_chars (to_string z))
  | EInts l => TList ((fun z => TScalar (of_chars (to_string z))) <$> l)
  | EUnmanageable => TScalar k_unmanageable
  end.

Definition tree_of_entry (fields : list (string * emitted)) : tree :=
  TMap ((fun kv => (kv.1, tree_of kv.2)) <$> fields).

Definition tree_of_template (tm : template) : tree :=
  TMap [("hardware_info", tree_of_entry (tm_hardware_info tm)); ("rt_throttling", tree_of_entry (tm_rt_throttling tm));
        ("callback_groups", TList (tree_of_entry <$> tm_callback_groups tm));
        ("non_ros_threads", TList (tree_of_entry <$> tm_non_ros_threads tm));
        ("kernel_threads", TList (tree_of_entry <$> tm_kernel_threads tm));
        ("irqs", TList (tree_of_entry <$> tm_irqs tm))].

Lemma tree_holds v : holds (tree_of v) v.
Proof.
  split; [by destruct v|]. split; [done|]. destruct v as [s|z|l|]; simpl; [done| | |done].
  - split; [done|]. split; [done|]. unfold to_int, to_unsigned_long. rw chars_of_chars.
    split; intros Hz; apply to_number_to_string; lia.
  - split; [done|]. split; [done|]. eexists. split; [reflexivity|]. induction l as [|z l IH]; constructor; [|done].
    intros Hz. simpl. unfold to_int. rw chars_of_chars. apply to_number_to_string; lia.
Qed.

Lemma tree_holds_entry fields : holds_entry (tree_of_entry fields) fields.
Proof.
  split; [done|]. intros key. eexists. split; [reflexivity|]. unfold field.
  induction fields as [|[k v] fields IH]; [done|]. simpl. destruct (String.eqb k key); [apply tree_holds|done].
Qed.

Lemma tree_loaded tm : loaded (tree_of_template tm) tm.
Proof.
  assert (forall l, holds_list (TList (tree_of_entry <$> l)) l) as H.
  { intros l. split; [done|]. split; [done|]. split; [done|]. eexists. split; [reflexivity|].
    apply Forall2_fmap_l, Forall_Forall2_diag, Forall_forall. intros x _. apply tree_holds_entry. }
  split; [|split; [|split; [|split; [|split]]]]; eexists; (split; [reflexivity|]); try apply H;
    (split; [done|apply tree_holds_entry]).
Qed.

(** A kernel thread and a process in /proc, and one IRQ with a device. *)
Definition example_entries : list proc_entry :=
  [(to_chars "12", Some (to_chars "12 (migration/0) S 2 0 0 0 -1 69238848 0 0 0 0 0 0 0 0 -100 0 1 0 3 0 0 18446744073709551615 0 0 0 0 0 0 0 2147483647 0 0 0 0 17 0 99 1 0 0 0"),
    Some [to_chars "Name:"; to_chars "Cpus_allowed_list:	0"]);
   (to_chars "20", Some (to_chars "20 (nfsd) S 2 0 0 0 -1 2129984 0 0 0 0 0 0 0 0 20 -5 1 0 3 0 0 18446744073709551615 0 0 0 0 0 0 0 2147483647 0 0 0 0 17 0 0 0 0 0 0"),
    Some [to_chars "Cpus_allowed_list:	0-3"]);
   (to_chars "self", None, None)].

Definition example_smp (irq : Z) : option chars := Some (to_chars "0-3").
Definition example_irqs : list irq_entry := [(to_chars "24", Some (to_chars "eth0")); (to_chars "9", Some [])].

Lemma unedited_template_is_noop_witness :
  scan_kernel_threads example_entries =
    [MkKernelThreadInfo 12 "migration/0" "SCHED_FIFO" 0 99 (to_chars "0") true;
     MkKernelThreadInfo 20 "nfsd" "SCHED_OTHER" (-5) 0 (to_chars "0-3") false] /\
  exists cb nrt kts iqs,
    parse_config 4 0 (tree_of_template (dump_yaml_config 4 {["model" := "5"]} [(0, "/node@Timer(100)")] ["worker"]
      (scan_kernel_threads example_entries) (scan_irqs example_smp example_irqs))) = inr (cb, nrt, kts, iqs) /\
    ((fun c => (domain_id c, thread_str c)) <$> cb) = [(0, "/node@Timer(100)")] /\
    (thread_str <$> nrt) = ["worker"] /\
    (forall o, exists r, apply_kernel_thread_configs (fun _ _ => true) 4 (scan_kernel_threads example_entries)
       kts o = (r, o) /\ o_failed r = [] /\ o_skipped r = []) /\
    (forall w o,
       (forall i, i ∈ scan_irqs example_smp example_irqs ->
          read_irq_actions (irq_actions w (irq_number i)) = Some (irq_name i) /\
          smp_affinity_list w (irq_number i) = example_smp (irq_number i)) ->
       exists r, apply_irq_configs (fun _ _ => true) 4 w iqs o = (r, o) /\ o_failed r = []).
Proof.
  split; [by vm_compute|].
  assert (scan_kernel_threads example_entries =
    [MkKernelThreadInfo 12 "migration/0" "SCHED_FIFO" 0 99 (to_chars "0") true;
     MkKernelThreadInfo 20 "nfsd" "SCHED_OTHER" (-5) 0 (to_chars "0-3") false]) as Hs by (by vm_compute).
  destruct (unedited_template_is_noop 4 0 (fun _ _ => true) example_entries example_smp example_irqs
    [(0, "/node@Timer(100)")] ["worker"] {["model" := "5"]} (tree_of_template (dump_yaml_config 4 {["model" := "5"]}
      [(0, "/node@Timer(100)")] ["worker"] (scan_kernel_threads example_entries) (scan_irqs example_smp example_irqs))))
    as (_ & _ & H).
  - rewrite Hs. intros i [-> |[-> |[]%elem_of_nil]%elem_of_cons]%elem_of_cons; by vm_compute.
  - rewrite Hs. intros i j [-> |[-> |[]%elem_of_nil]%elem_of_cons]%elem_of_cons
      [-> |[-> |[]%elem_of_nil]%elem_of_cons]%elem_of_cons; by vm_compute.
  - apply (bool_decide_unpack _). by vm_compute.
  - apply NoDup_singleton.
  - apply NoDup_singleton.
  - intros d id [= -> ->]%list_elem_of_singleton. split; [lia|by vm_compute].
  - apply tree_loaded.
  - exact H.
Defined.
