(* ===== verification/ThreadNode.v ===== *)
(** * What the thread configurator guarantees as it runs

    Over any sequence of announcements and reapply requests, with the listener's announcements also in
    the middle of a request: the maps and the counter agree with the entries, no thread is configured by
    two entries, and a reapply request accounts for every entry. *)

From Stdlib Require Import Ascii.
From S2P Require Import Prelude Strings ThreadConfig ThreadConfigurator ThreadTheorems.

(** ** The maps into the vectors *)

Fixpoint index_keys {K} `{Countable K} (i : nat) (keys : list (option K)) (m : gmap K nat) : gmap K nat :=
  match keys with
  | [] => m
  | k :: keys => index_keys (S i) keys (match k with Some k => <[k := i]> m | None => m end)
  end.

Definition exact_key (c : ThreadConfig) : option (Z * string) :=
  if is_wildcard c then None else Some (domain_id c, thread_str c).
Definition wildcard_key (c : ThreadConfig) : option (Z * string) :=
  if is_wildcard c then Some (domain_id c, wildcard_prefix c) else None.
Definition name_key (c : ThreadConfig) : option string := Some (thread_str c).

Lemma index_exact_keys i l m : index_exact i l m = index_keys i (exact_key <$> l) m.
Proof.
  revert i m. induction l as [|c l IH]; intros i m; [done|].
  rewrite fmap_cons. cbn [index_exact index_keys]. rw IH. unfold exact_key at 3. by destruct (is_wildcard c).
Qed.

Lemma index_wildcard_keys i l m : index_wildcard i l m = index_keys i (wildcard_key <$> l) m.
Proof.
  revert i m. induction l as [|c l IH]; intros i m; [done|].
  rewrite fmap_cons. cbn [index_wildcard index_keys]. rw IH. unfold wildcard_key at 3. by destruct (is_wildcard c).
Qed.

Lemma index_name_keys i l m : index_name i l m = index_keys i (name_key <$> l) m.
Proof. revert i m. induction l as [|c l IH]; intros i m; [done|]. simpl. by rw IH. Qed.

Lemma index_keys_sound {K} `{Countable K} i (keys : list (option K)) m k v :
  index_keys i keys m !! k = Some v ->
  m !! k = Some v \/ exists j, keys !! j = Some (Some k) /\ v = (i + j)%nat.
Proof.
  revert i m. induction keys as [|o keys IH]; intros i m; [by left|]. cbn [index_keys]. intros Hv.
  destruct (IH _ _ Hv) as [Hm|(j & Hj & ->)].
  - destruct o as [k'|]; [|by left]. apply lookup_insert_Some in Hm as [[-> <-]|[_ Hm]]; [right|by left].
    exists 0%nat. split; [done|lia].
  - right. exists (S j). split; [done|lia].
Qed.

Lemma index_keys_other {K} `{Countable K} i (keys : list (option K)) m k :
  Some k ∉ keys -> index_keys i keys m !! k = m !! k.
Proof.
  revert i m. induction keys as [|o keys IH]; intros i m; [done|]. cbn [index_keys].
  intros [Hne Hk]%not_elem_of_cons. rw IH; [|done]. destruct o as [k'|]; [|done].
  apply lookup_insert_ne. congruence.
Qed.

(** Every key is there when keys differ. *)
Lemma index_keys_complete {K} `{Countable K} i (keys : list (option K)) m j k :
  (forall j1 j2 k, keys !! j1 = Some (Some k) -> keys !! j2 = Some (Some k) -> j1 = j2) ->
  keys !! j = Some (Some k) -> index_keys i keys m !! k = Some (i + j)%nat.
Proof.
  revert i j m. induction keys as [|o keys IH]; intros i j m Hu Hj; [done|]. cbn [index_keys].
  destruct j as [|j]; simpl in Hj.
  - injection Hj as ->. rw index_keys_other; [by rw lookup_insert_eq; f_equal; lia|].
    intros (j & Hj)%list_elem_of_lookup. by specialize (Hu 0%nat (S j) k eq_refl Hj).
  - rw (IH (S i) j); [by f_equal; lia| |done]. intros j1 j2 k' H1 H2.
    specialize (Hu (S j1) (S j2) k' H1 H2). lia.
Qed.

(** ** The invariant *)

Definition cb_key (c : ThreadConfig) : Z * string := (domain_id c, thread_str c).

Definition unapplied (l : list ThreadConfig) : nat := length (filter (fun c => applied c = false) l).

(** What an entry tracks by itself: a wildcard tracks instances of its node, any other entry one thread. *)
Definition tracking_wf (c : ThreadConfig) : Prop :=
  if is_wildcard c then
    thread_id c = -1 /\ forall id, is_Some (matched_tids c !! id) -> extract_node_part id = wildcard_prefix c
  else matched_tids c = ∅.

(** An announced entry of a group's own and a wildcard never track the same group. *)
Record tracking (l : list ThreadConfig) : Prop := {
  tr_unique : NoDup (cb_key <$> l);
  tr_wf : Forall tracking_wf l;
  tr_once : forall c w, c ∈ l -> w ∈ l -> is_wildcard c = false -> is_wildcard w = true ->
    domain_id c = domain_id w -> thread_id c <> -1 -> matched_tids w !! thread_str c = None
}.

Record tracking_ok (s : node_state) : Prop := {
  tk_exact : id_to_callback_group_config_ s = index_keys 0 (exact_key <$> callback_group_configs_ s) ∅;
  tk_wild : node_to_wildcard_config_ s = index_keys 0 (wildcard_key <$> callback_group_configs_ s) ∅;
  tk_name : id_to_non_ros_thread_config_ s = index_keys 0 (name_key <$> non_ros_thread_configs_ s) ∅;
  tk_cbs : tracking (callback_group_configs_ s);
  tk_nrts : NoDup (thread_str <$> non_ros_thread_configs_ s)
}.

Definition count_ok (s : node_state) : Prop :=
  unapplied_num_ s =
  i32 (Z.of_nat (unapplied (callback_group_configs_ s) + unapplied (non_ros_thread_configs_ s))).

(** *** Keys *)

Lemma reverse_prefix (suffix s : chars) :
  starts_with (reverse suffix) (reverse s) = true ->
  s = take (length s - length suffix) s ++ suffix.
Proof.
  intros Hs. assert (exists t, reverse s = reverse suffix ++ t) as [t Ht].
  { clear -Hs. revert Hs. generalize (reverse suffix) (reverse s). intros p. induction p as [|c p IH]; intros l Hs.
    - by exists l.
    - destruct l as [|d l]; [done|]. simpl in Hs. apply andb_prop in Hs as [Hd Hs].
      unfold is_char in Hd. apply bool_decide_eq_true in Hd as ->. destruct (IH l Hs) as [t ->]. by exists t. }
  apply (f_equal reverse) in Ht. rewrite reverse_app !reverse_involutive in Ht.
  rewrite {1}Ht. f_equal. rewrite Ht length_app. replace (_ + _ - _)%nat with (length (reverse t)) by lia.
  by rewrite take_app_length.
Qed.

Lemma wildcard_str c :
  is_wildcard c = true -> to_chars (thread_str c) = to_chars (wildcard_prefix c) ++ to_chars "/*".
Proof.
  intros Hw. unfold wildcard_prefix. rw chars_of_chars.
  exact (reverse_prefix (to_chars "/*") (to_chars (thread_str c)) Hw).
Qed.

Lemma wildcard_prefix_inj c w :
  is_wildcard c = true -> is_wildcard w = true -> wildcard_prefix c = wildcard_prefix w ->
  thread_str c = thread_str w.
Proof.
  intros Hc Hw He. apply wildcard_str in Hc, Hw.
  rw -(of_chars_to_chars (thread_str c)) -(of_chars_to_chars (thread_str w)). by rw Hc Hw He.
Qed.

Lemma cb_key_lookup l i j c w :
  NoDup (cb_key <$> l) -> l !! i = Some c -> l !! j = Some w -> cb_key c = cb_key w -> i = j.
Proof.
  intros Hnd Hi Hj He. eapply NoDup_lookup; [exact Hnd|by rw list_lookup_fmap Hi|].
  rw list_lookup_fmap Hj. simpl. by rw He.
Qed.

Lemma exact_key_unique l : NoDup (cb_key <$> l) -> forall j1 j2 k,
  (exact_key <$> l) !! j1 = Some (Some k) -> (exact_key <$> l) !! j2 = Some (Some k) -> j1 = j2.
Proof.
  intros Hnd j1 j2 k. rw !list_lookup_fmap !fmap_Some.
  intros (c & Hc & Ec) (w & Hw & Ew). unfold exact_key in *. destruct (is_wildcard c); [done|].
  destruct (is_wildcard w); [done|]. eapply cb_key_lookup; [done..|]. unfold cb_key. congruence.
Qed.

Lemma wildcard_key_unique l : NoDup (cb_key <$> l) -> forall j1 j2 k,
  (wildcard_key <$> l) !! j1 = Some (Some k) -> (wildcard_key <$> l) !! j2 = Some (Some k) -> j1 = j2.
Proof.
  intros Hnd j1 j2 k. rw !list_lookup_fmap !fmap_Some.
  intros (c & Hc & Ec) (w & Hw & Ew). unfold wildcard_key in *. destruct (is_wildcard c) eqn:E1; [|done].
  destruct (is_wildcard w) eqn:E2; [|done]. eapply cb_key_lookup; [done..|]. unfold cb_key.
  assert (wildcard_prefix c = wildcard_prefix w) as Hp by congruence.
  apply wildcard_prefix_inj in Hp; [|done..]. congruence.
Qed.

Lemma name_key_unique l : NoDup (thread_str <$> l) -> forall j1 j2 k,
  (name_key <$> l) !! j1 = Some (Some k) -> (name_key <$> l) !! j2 = Some (Some k) -> j1 = j2.
Proof.
  intros Hnd j1 j2 k. rw !list_lookup_fmap !fmap_Some. intros (c & Hc & Ec) (w & Hw & Ew).
  eapply NoDup_lookup; [exact Hnd|by rw list_lookup_fmap Hc|]. rw list_lookup_fmap Hw. simpl.
  unfold name_key in *. congruence.
Qed.

(** *** Operations on entries *)

Lemma fmap_alter_same {B} (g : ThreadConfig -> B) f (i : nat) (l : list ThreadConfig) :
  (forall c, g (f c) = g c) -> g <$> alter f i l = g <$> l.
Proof.
  intros Hg. revert i. induction l as [|c l IH]; intros i; [done|]. destruct i as [|i]; simpl.
  - by rw Hg.
  - f_equal. apply IH.
Qed.

Lemma elem_of_alter f (i : nat) (l : list ThreadConfig) x :
  x ∈ alter f i l -> x ∈ l \/ exists c, l !! i = Some c /\ x = f c.
Proof.
  intros (j & Hj)%list_elem_of_lookup. destruct (decide (j = i)) as [-> |Hne].
  - rewrite list_lookup_alter_eq in Hj. apply fmap_Some in Hj as (c & Hc & ->). right. by exists c.
  - rewrite list_lookup_alter_ne in Hj; [|done]. left. by eapply list_elem_of_lookup_2.
Qed.

Lemma elem_of_alter_or f (i : nat) (l : list ThreadConfig) x :
  x ∈ alter f i l -> exists c, c ∈ l /\ (x = c \/ l !! i = Some c /\ x = f c).
Proof.
  intros [Hx|(c & Hc & ->)]%elem_of_alter; [exists x; by split; [|left]|].
  exists c. split; [by eapply list_elem_of_lookup_2|by right].
Qed.

Lemma tracking_alter f (i : nat) (l : list ThreadConfig) :
  (forall c, cb_key (f c) = cb_key c) ->
  (forall c, l !! i = Some c -> tracking_wf c -> tracking_wf (f c)) ->
  (forall c w, c ∈ alter f i l -> w ∈ alter f i l -> is_wildcard c = false -> is_wildcard w = true ->
     domain_id c = domain_id w -> thread_id c <> -1 -> matched_tids w !! thread_str c = None) ->
  tracking l -> tracking (alter f i l).
Proof.
  intros Hk Hwf Honce [H1 H2 H3]. split; [by rw fmap_alter_same| |done].
  apply Forall_forall. rewrite Forall_forall in H2. intros x [Hx|(c & Hc & ->)]%elem_of_alter; [by apply H2|].
  apply Hwf; [done|]. by eapply H2, list_elem_of_lookup_2.
Qed.

Lemma tracking_set_applied (i : nat) (l : list ThreadConfig) : tracking l -> tracking (alter set_applied i l).
Proof.
  intros Ht. apply tracking_alter; [done|done| |done].
  intros c w (c' & Hc & Ec)%elem_of_alter_or (w' & Hw & Ew)%elem_of_alter_or.
  assert (is_wildcard c = is_wildcard c' /\ domain_id c = domain_id c' /\ thread_id c = thread_id c' /\
    thread_str c = thread_str c') as (-> & -> & -> & ->) by (by destruct Ec as [-> |[_ ->]]).
  assert (is_wildcard w = is_wildcard w' /\ domain_id w = domain_id w' /\ matched_tids w = matched_tids w')
    as (-> & -> & ->) by (by destruct Ew as [-> |[_ ->]]).
  by apply (tr_once _ Ht).
Qed.

Lemma tracking_forget id (i : nat) (l : list ThreadConfig) : tracking l -> tracking (alter (set_matched (delete id)) i l).
Proof.
  intros Ht. apply tracking_alter; [done| | |done].
  - intros c _. unfold tracking_wf. change (is_wildcard (set_matched (delete id) c)) with (is_wildcard c).
    destruct (is_wildcard c); simpl.
    + intros [Hid Hm]. split; [done|]. intros id' [t [_ Hx]%lookup_delete_Some]. by apply Hm; exists t.
    + intros ->. by rw delete_empty.
  - intros c w (c' & Hc & Ec)%elem_of_alter_or (w' & Hw & Ew)%elem_of_alter_or.
    assert (is_wildcard c = is_wildcard c' /\ domain_id c = domain_id c' /\ thread_id c = thread_id c' /\
      thread_str c = thread_str c') as (-> & -> & -> & ->) by (by destruct Ec as [-> |[_ ->]]).
    intros Hcw Hww Hd Ht'. assert (is_wildcard w' = true /\ domain_id w = domain_id w') as [Hww' Hdw]
      by (by destruct Ew as [-> |[_ ->]]).
    pose proof (tr_once _ Ht c' w' Hc Hw Hcw Hww' ltac:(congruence) Ht') as Hno.
    destruct Ew as [-> |[_ ->]]; [done|]. simpl. apply lookup_delete_None. by right.
Qed.

(** A wildcard of another node does not track the group. *)
Lemma other_wildcard l w id d :
  tracking l -> w ∈ l -> is_wildcard w = true -> domain_id w = d ->
  (wildcard_prefix w <> extract_node_part id \/ matched_tids w !! id = None) -> matched_tids w !! id = None.
Proof.
  intros [_ Hwf _] Hw Hww Hd [Hne|?]; [|done]. rewrite Forall_forall in Hwf. specialize (Hwf w Hw).
  unfold tracking_wf in Hwf. rewrite Hww in Hwf. apply eq_None_not_Some. intros Hs. by apply Hne; symmetry; apply Hwf.
Qed.

Lemma tracking_announce tid (i : nat) l c :
  tracking l -> l !! i = Some c -> is_wildcard c = false ->
  (forall w, w ∈ l -> is_wildcard w = true -> domain_id w = domain_id c -> matched_tids w !! thread_str c = None) ->
  tracking (alter (set_thread_id tid) i l).
Proof.
  intros Ht Hi Hc Hno. apply tracking_alter; [done| | |done].
  - intros c' Hc'. assert (c' = c) as -> by congruence. unfold tracking_wf.
    change (is_wildcard (set_thread_id tid c)) with (is_wildcard c). by rw Hc.
  - intros x w (c' & Hc' & Ec)%elem_of_alter_or (w' & Hw & Ew)%elem_of_alter_or Hx Hww Hd Hid.
    assert (is_wildcard w = is_wildcard w' /\ domain_id w = domain_id w' /\ matched_tids w = matched_tids w')
      as (E1 & E2 & ->) by (by destruct Ew as [-> |[_ ->]]).
    rewrite E1 in Hww. rewrite E2 in Hd. destruct Ec as [-> |[Hi' ->]].
    + by apply (tr_once _ Ht).
    + assert (c' = c) as -> by congruence. by apply Hno.
Qed.

Lemma tracking_match id tid (i : nat) l w :
  tracking l -> l !! i = Some w -> is_wildcard w = true -> wildcard_prefix w = extract_node_part id ->
  (forall c, c ∈ l -> is_wildcard c = false -> domain_id c = domain_id w -> thread_str c <> id) ->
  tracking (alter (set_matched <[id := tid]>) i l).
Proof.
  intros Ht Hi Hw Hp Hno. apply tracking_alter; [done| | |done].
  - intros w' Hw'. assert (w' = w) as -> by congruence. unfold tracking_wf.
    change (is_wildcard (set_matched <[id := tid]> w)) with (is_wildcard w). rw Hw. intros [H1 H2].
    split; [done|]. simpl. intros id' [t Ht']. change (wildcard_prefix (set_matched <[id := tid]> w)) with (wildcard_prefix w).
    apply lookup_insert_Some in Ht' as [[<- _]|[_ Ht']]; [done|]. by apply H2; exists t.
  - intros c x (c' & Hc & Ec)%elem_of_alter_or (w' & Hw' & Ew)%elem_of_alter_or.
    assert (is_wildcard c = is_wildcard c' /\ domain_id c = domain_id c' /\ thread_id c = thread_id c' /\
      thread_str c = thread_str c') as (-> & -> & -> & ->) by (by destruct Ec as [-> |[_ ->]]).
    intros Hcw Hxw Hd Ht'. destruct Ew as [-> |[Hi' ->]]; [by apply (tr_once _ Ht)|].
    assert (w' = w) as -> by congruence. simpl. rw lookup_insert_ne; [by apply (tr_once _ Ht)|].
    intros E. by apply (Hno c' Hc Hcw Hd).
Qed.

(** ** Announcements keep the invariant *)

Lemma exact_Some s d id i :
  tracking_ok s -> id_to_callback_group_config_ s !! (d, id) = Some i ->
  exists c, callback_group_configs_ s !! i = Some c /\ is_wildcard c = false /\ domain_id c = d /\
    thread_str c = id.
Proof.
  intros Hs Hi. rewrite (tk_exact _ Hs) in Hi. apply index_keys_sound in Hi as [Hi|(j & Hj & ->)]; [done|].
  rewrite list_lookup_fmap in Hj. apply fmap_Some in Hj as (c & Hc & Hk). exists c. split; [done|].
  unfold exact_key in Hk. destruct (is_wildcard c); [done|]. by injection Hk as -> ->.
Qed.

Lemma exact_None s d id :
  tracking_ok s -> id_to_callback_group_config_ s !! (d, id) = None ->
  forall c, c ∈ callback_group_configs_ s -> is_wildcard c = false -> domain_id c = d -> thread_str c <> id.
Proof.
  intros Hs Hi c (j & Hj)%list_elem_of_lookup Hc Hd He. rewrite (tk_exact _ Hs) in Hi.
  rewrite (index_keys_complete 0 _ ∅ j (d, id)) in Hi; [done|apply exact_key_unique, Hs|].
  rw list_lookup_fmap Hj. simpl. unfold exact_key. rw Hc. congruence.
Qed.

Lemma wildcard_Some s d p i :
  tracking_ok s -> node_to_wildcard_config_ s !! (d, p) = Some i ->
  exists c, callback_group_configs_ s !! i = Some c /\ is_wildcard c = true /\ domain_id c = d /\
    wildcard_prefix c = p.
Proof.
  intros Hs Hi. rewrite (tk_wild _ Hs) in Hi. apply index_keys_sound in Hi as [Hi|(j & Hj & ->)]; [done|].
  rewrite list_lookup_fmap in Hj. apply fmap_Some in Hj as (c & Hc & Hk). exists c. split; [done|].
  unfold wildcard_key in Hk. destruct (is_wildcard c); [|done]. by injection Hk as -> ->.
Qed.

Lemma wildcard_None s d p :
  tracking_ok s -> node_to_wildcard_config_ s !! (d, p) = None ->
  forall c, c ∈ callback_group_configs_ s -> is_wildcard c = true -> domain_id c = d -> wildcard_prefix c <> p.
Proof.
  intros Hs Hi c (j & Hj)%list_elem_of_lookup Hc Hd He. rewrite (tk_wild _ Hs) in Hi.
  rewrite (index_keys_complete 0 _ ∅ j (d, p)) in Hi; [done|apply wildcard_key_unique, Hs|].
  rw list_lookup_fmap Hj. simpl. unfold wildcard_key. rw Hc. congruence.
Qed.

(** What the configurator does to an entry leaves its keys. *)
Definition keeps_keys (g : ThreadConfig -> ThreadConfig) : Prop :=
  forall c, thread_str (g c) = thread_str c /\ domain_id (g c) = domain_id c.

Lemma tracking_ok_cbs g (i : nat) s :
  keeps_keys g -> tracking (alter g i (callback_group_configs_ s)) -> tracking_ok s ->
  tracking_ok (with_cbs (alter g i) s).
Proof.
  intros Hg Ht [H1 H2 H3 H4 H5].
  assert (forall c, exact_key (g c) = exact_key c /\ wildcard_key (g c) = wildcard_key c) as Hk.
  { intros c. destruct (Hg c) as [E1 E2]. unfold exact_key, wildcard_key, is_wildcard, wildcard_prefix.
    by rw E1 E2. }
  split; simpl; [|by rw fmap_alter_same; [|intros c; apply Hk]..|done|done|done].
  by rw fmap_alter_same; [|intros c; apply Hk].
Qed.

Lemma tracking_ok_nrts g (i : nat) s :
  keeps_keys g -> tracking_ok s -> tracking_ok (with_nrts (alter g i) s).
Proof.
  intros Hg [H1 H2 H3 H4 H5].
  split; simpl; [done|done| |done|]; rw fmap_alter_same; try done; intros c; unfold name_key; by rw (proj1 (Hg c)).
Qed.

Lemma tracking_ok_os o s : tracking_ok s -> tracking_ok (with_os o s).
Proof. by intros []. Qed.

Lemma tracking_ok_counter n b s : tracking_ok s -> tracking_ok (with_counter n b s).
Proof. by intros []. Qed.

(** What an announcement notes, in an entry of the group's own and in a wildcard. *)
Definition forgotten (d : Z) (id : string) (s : node_state) : node_state :=
  match node_to_wildcard_config_ s !! (d, extract_node_part id) with
  | Some w => with_cbs (alter (set_matched (delete id)) w) s
  | None => s
  end.

Lemma exact_noted s d id i tid :
  tracking_ok s -> id_to_callback_group_config_ s !! (d, id) = Some i ->
  tracking_ok (with_cbs (alter (set_thread_id tid) i) (forgotten d id s)).
Proof.
  intros Hs Ei. destruct (exact_Some s d id i Hs Ei) as (c & Hc & Hcw & Hd & Hstr). unfold forgotten.
  destruct (node_to_wildcard_config_ s !! (d, extract_node_part id)) as [w|] eqn:Ew.
  - destruct (wildcard_Some s d _ w Hs Ew) as (cw & Hw & Hww & Hdw & Hp).
    assert (i <> w) as Hiw by (intros ->; congruence).
    assert (tracking_ok (with_cbs (alter (set_matched (delete id)) w) s)) as Hs'.
    { apply tracking_ok_cbs; [done|apply tracking_forget, (tk_cbs _ Hs)|done]. }
    apply tracking_ok_cbs; [done| |done].
    apply (tracking_announce _ _ _ c); [apply (tk_cbs _ Hs')|simpl; by rw list_lookup_alter_ne|done|].
    intros x Hx Hxw Hxd. rw Hstr.
    eapply (other_wildcard _ x id d); [apply (tk_cbs _ Hs')|done|done|congruence|].
    simpl in Hx. apply list_elem_of_lookup in Hx as (j & Hj). destruct (decide (j = w)) as [-> |Hjw].
    + rewrite list_lookup_alter_eq Hw in Hj. injection Hj as <-. right. apply lookup_delete_None. by left.
    + rewrite list_lookup_alter_ne in Hj; [|done]. left. intros Hpx. apply Hjw.
      eapply (cb_key_lookup _ j w x cw); [apply (tk_cbs _ Hs)|done|done|]. unfold cb_key.
      f_equal; [congruence|]. by apply wildcard_prefix_inj; [..|congruence].
  - apply tracking_ok_cbs; [done| |done].
    apply (tracking_announce _ _ _ c); [apply (tk_cbs _ Hs)|done|done|].
    intros x Hx Hxw Hxd. rw Hstr. eapply (other_wildcard _ x id d); [apply (tk_cbs _ Hs)|done|done|congruence|].
    left. apply (wildcard_None s d _ Hs Ew x); [done|done|congruence].
Qed.

Lemma wildcard_noted s d id w tid :
  tracking_ok s -> id_to_callback_group_config_ s !! (d, id) = None ->
  node_to_wildcard_config_ s !! (d, extract_node_part id) = Some w ->
  tracking_ok (with_cbs (alter (set_matched <[id := tid]>) w) s).
Proof.
  intros Hs Ei Ew. destruct (wildcard_Some s d _ w Hs Ew) as (cw & Hw & Hww & Hdw & Hp).
  apply tracking_ok_cbs; [done| |done].
  apply (tracking_match _ _ _ _ cw); [apply (tk_cbs _ Hs)|done|done|done|].
  intros c Hc Hcw Hcd. apply (exact_None s d id Hs Ei c); [done|done|congruence].
Qed.

Section announcements.
Context (answer : list syscall -> syscall -> bool).

Lemma apply_entry_cbs_tracking i tid s :
  tracking_ok s -> tracking_ok (apply_entry answer with_cbs callback_group_configs_ i tid s).
Proof.
  intros Hs. unfold apply_entry. destruct (callback_group_configs_ s !! i) as [c|]; [|done].
  destruct (issue_syscalls _ _ _ _) as [ok o]. cbv zeta. destruct ok; [|by apply tracking_ok_os].
  destruct (applied c); [by apply tracking_ok_os|]. apply tracking_ok_counter, tracking_ok_cbs; [done| |].
  - apply tracking_set_applied, (tk_cbs _ Hs).
  - by apply tracking_ok_os.
Qed.

Lemma apply_entry_nrts_tracking i tid s :
  tracking_ok s -> tracking_ok (apply_entry answer with_nrts non_ros_thread_configs_ i tid s).
Proof.
  intros Hs. unfold apply_entry. destruct (non_ros_thread_configs_ s !! i) as [c|]; [|done].
  destruct (issue_syscalls _ _ _ _) as [ok o]. cbv zeta. destruct ok; [|by apply tracking_ok_os].
  destruct (applied c); [by apply tracking_ok_os|]. apply tracking_ok_counter, tracking_ok_nrts; [done|].
  by apply tracking_ok_os.
Qed.

Lemma callback_group_tracking d id tid s :
  tracking_ok s -> tracking_ok (callback_group_callback answer d id tid s).
Proof.
  intros Hs. unfold callback_group_callback.
  destruct (id_to_callback_group_config_ s !! (d, id)) as [i|] eqn:Ei.
  - by apply apply_entry_cbs_tracking, exact_noted.
  - destruct (node_to_wildcard_config_ s !! (d, extract_node_part id)) as [w|] eqn:Ew; [|done].
    by apply apply_entry_cbs_tracking, (wildcard_noted s d id w).
Qed.

Lemma non_ros_tracking name tid s :
  tracking_ok s -> tracking_ok (non_ros_thread_callback answer name tid s).
Proof.
  intros Hs. unfold non_ros_thread_callback.
  destruct (id_to_non_ros_thread_config_ s !! name) as [i|]; [|done].
  by apply apply_entry_nrts_tracking, tracking_ok_nrts.
Qed.

Lemma listen_tracking infos s : tracking_ok s -> tracking_ok (listen answer infos s).
Proof.
  revert s. induction infos as [|[name tid] infos IH]; intros s Hs; [done|]. simpl.
  by apply IH, non_ros_tracking.
Qed.
End announcements.

(** ** What the parser gives *)

(** Entries that nothing has happened to. *)
Definition fresh (c : ThreadConfig) : Prop := thread_id c = -1 /\ matched_tids c = ∅ /\ applied c = false.

Lemma bind_inr {A B} (x : exc A) (k : A -> exc B) b :
  bind x k = inr b -> exists a, x = inr a /\ k a = inr b.
Proof. destruct x as [e|a]; [done|]. by exists a. Qed.

Lemma for_entries_Forall {node A} (P : A -> Prop) (f : nat -> node -> exc A) i ns l :
  (forall i n a, f i n = inr a -> P a) -> for_entries f i ns = inr l -> Forall P l.
Proof.
  intros Hf. revert i l. induction ns as [|n ns IH]; intros i l; cbn [for_entries]; [by intros [= <-]|].
  intros (a & Ha & (rest & Hr & [= <-])%bind_inr)%bind_inr. constructor; [by eapply Hf|by eapply IH].
Qed.

Lemma check_unique_NoDup_inv {A K} `{Countable K} (key : A -> K) dup seen (l : list A) :
  check_unique key dup seen l = inr tt -> NoDup (key <$> l) /\ forall x, x ∈ l -> key x ∉ seen.
Proof.
  revert seen. induction l as [|x l IH]; intros seen; cbn [check_unique].
  { intros _. split; [constructor|]. by intros x ?%elem_of_nil. }
  destruct (bool_decide _) eqn:E; [|done]. apply bool_decide_eq_true in E. intros Hl.
  destruct (IH _ Hl) as [Hnd Hs]. split.
  - rewrite fmap_cons. constructor; [|done]. intros (y & Hy & Hin)%list_elem_of_fmap. apply (Hs y Hin). set_solver.
  - intros y [-> |Hy]%elem_of_cons; [done|]. specialize (Hs y Hy). set_solver.
Qed.

Section parsed.
Context {node : Type} {Y : Yaml node} (nprocessors_conf default_domain_id : Z).

Lemma parse_config_fresh (doc : node) cb nrt kts iqs :
  parse_config nprocessors_conf default_domain_id doc = inr (cb, nrt, kts, iqs) ->
  Forall fresh cb /\ Forall fresh nrt /\ NoDup (cb_key <$> cb) /\ NoDup (thread_str <$> nrt).
Proof.
  unfold parse_config. intros ((cb' & nrt') & Hy & (kts' & _ & (iqs' & _ & [= -> -> _ _])%bind_inr)%bind_inr)%bind_inr.
  unfold parse_yaml in Hy. simpl in Hy.
  apply bind_inr in Hy as (n1 & _ & (n2 & _ & (l1 & _ & (l2 & _ & Hy)%bind_inr)%bind_inr)%bind_inr).
  apply bind_inr in Hy as (cb1 & Hcb & (nrt1 & Hnrt & ([] & Hu & ([] & Hv & [= -> ->])%bind_inr)%bind_inr)%bind_inr).
  split; [|split; [|split]].
  - eapply for_entries_Forall; [|exact Hcb]. clear. intros i n a Ha. unfold parse_callback_group in Ha.
    repeat (apply bind_inr in Ha as (? & _ & Ha)). by injection Ha as <-.
  - eapply for_entries_Forall; [|exact Hnrt]. clear. intros i n a Ha. unfold parse_non_ros_thread in Ha.
    repeat (apply bind_inr in Ha as (? & _ & Ha)). by injection Ha as <-.
  - apply check_unique_NoDup_inv in Hu as [Hu _].
    set (h := fun k : Z * string => of_chars (to_string k.1 ++ ":"%char :: to_chars k.2)).
    apply (NoDup_fmap_1 h). by rw -list_fmap_compose.
  - by apply check_unique_NoDup_inv in Hv as [Hv _].
Qed.
End parsed.

(** ** Carrying over *)

Lemma carry_cb_key s c : cb_key (carry_over_cb s c) = cb_key c /\ is_wildcard (carry_over_cb s c) = is_wildcard c /\
  wildcard_prefix (carry_over_cb s c) = wildcard_prefix c /\ applied (carry_over_cb s c) = applied c.
Proof.
  unfold carry_over_cb. destruct (is_wildcard c) eqn:E; destruct (pointee _ _); try done; simpl;
    unfold is_wildcard in *; simpl; by rw E.
Qed.

Lemma carry_wildcard s c :
  tracking_ok s -> fresh c -> is_wildcard c = true ->
  matched_tids (carry_over_cb s c) = ∅ \/
  exists w, w ∈ callback_group_configs_ s /\ is_wildcard w = true /\ domain_id w = domain_id c /\
    wildcard_prefix w = wildcard_prefix c /\ matched_tids (carry_over_cb s c) = matched_tids w.
Proof.
  intros Hs (Hid & Hm & _) Hw. unfold carry_over_cb. rw Hw. unfold pointee.
  destruct (node_to_wildcard_config_ s !! (domain_id c, wildcard_prefix c)) as [i|] eqn:E; [|by left].
  destruct (wildcard_Some s _ _ i Hs E) as (w & Hi & H1 & H2 & H3). rw Hi. right. exists w.
  split; [by eapply list_elem_of_lookup_2|]. done.
Qed.

Lemma carry_exact s c :
  tracking_ok s -> fresh c -> is_wildcard c = false ->
  matched_tids (carry_over_cb s c) = ∅ /\
  (thread_id (carry_over_cb s c) = -1 \/
   exists o, o ∈ callback_group_configs_ s /\ is_wildcard o = false /\ cb_key o = cb_key c /\
     thread_id (carry_over_cb s c) = thread_id o).
Proof.
  intros Hs (Hid & Hm & _) Hw. unfold carry_over_cb. rw Hw. unfold pointee.
  destruct (id_to_callback_group_config_ s !! (domain_id c, thread_str c)) as [i|] eqn:E; [|by split; [|left]].
  destruct (exact_Some s _ _ i Hs E) as (o & Hi & H1 & H2 & H3). rw Hi. split; [done|]. right. exists o.
  split; [by eapply list_elem_of_lookup_2|]. split; [done|]. split; [|done]. unfold cb_key. by rw H2 H3.
Qed.

Lemma carry_tracking s new_cb :
  tracking_ok s -> Forall fresh new_cb -> NoDup (cb_key <$> new_cb) ->
  tracking (carry_over_cb s <$> new_cb).
Proof.
  intros Hs Hf Hnd. rewrite Forall_forall in Hf. split.
  - rw -list_fmap_compose.
    assert (cb_key ∘ carry_over_cb s <$> new_cb = cb_key <$> new_cb) as ->; [|done].
    apply list_fmap_ext. intros i c _. apply carry_cb_key.
  - apply Forall_forall. intros x (c & -> & Hc)%list_elem_of_fmap. unfold tracking_wf.
    destruct (carry_cb_key s c) as (_ & -> & -> & _). destruct (is_wildcard c) eqn:E.
    + split.
      { unfold carry_over_cb. rw E. destruct (Hf c Hc) as (Hid & _). by destruct (pointee _ _). }
      destruct (carry_wildcard s c Hs (Hf c Hc) E) as [-> |(w & Hw & Hww & Hd & Hp & ->)].
      * intros id [t Ht]. by rewrite lookup_empty in Ht.
      * intros id Hid. rw -Hp. pose proof (tr_wf _ (tk_cbs _ Hs)) as Hwf. rewrite Forall_forall in Hwf.
        specialize (Hwf w Hw). unfold tracking_wf in Hwf. rewrite Hww in Hwf. by apply Hwf.
    + by apply carry_exact; [|apply Hf|].
  - intros x y (c & -> & Hc)%list_elem_of_fmap (w & -> & Hw)%list_elem_of_fmap.
    destruct (carry_cb_key s c) as (Hkc & -> & _ & _). destruct (carry_cb_key s w) as (Hkw & -> & _ & _).
    intros Hcw Hww Hd Hid. destruct (carry_exact s c Hs (Hf c Hc) Hcw) as (_ & [?|(o & Ho & How & Hko & Hio)]); [done|].
    destruct (carry_wildcard s w Hs (Hf w Hw) Hww) as [-> |(w0 & Hw0 & Hww0 & Hd0 & Hp0 & ->)]; [done|].
    assert (thread_str (carry_over_cb s c) = thread_str o) as -> by (unfold cb_key in *; congruence).
    apply (tr_once _ (tk_cbs _ Hs)); [done|done|done|done| |congruence]. unfold cb_key in *. congruence.
Qed.

(** ** A reapply request keeps the invariant *)

Lemma swap_callback_groups_tracking new_cb s :
  tracking_ok s -> Forall fresh new_cb -> NoDup (cb_key <$> new_cb) ->
  tracking_ok (swap_callback_groups new_cb s).
Proof.
  intros Hs Hf Hnd. split; unfold swap_callback_groups; cbn -[fmap list_fmap].
  - apply index_exact_keys.
  - apply index_wildcard_keys.
  - apply (tk_name _ Hs).
  - by apply carry_tracking.
  - apply (tk_nrts _ Hs).
Qed.

Lemma carry_nrt {B} (g : ThreadConfig -> B) s (l : list ThreadConfig) :
  (forall t c, g (set_thread_id t c) = g c) -> g <$> (carry_over_nrt s <$> l) = g <$> l.
Proof.
  intros Hg. rw -list_fmap_compose. apply list_fmap_ext. intros i c _. unfold compose, carry_over_nrt.
  by destruct (pointee _ _).
Qed.

Lemma carry_nrt_str s (l : list ThreadConfig) : thread_str <$> (carry_over_nrt s <$> l) = thread_str <$> l.
Proof. by apply carry_nrt. Qed.

Lemma swap_non_ros_tracking new_nrt s :
  tracking_ok s -> NoDup (thread_str <$> new_nrt) -> tracking_ok (swap_non_ros_threads new_nrt s).
Proof.
  intros Hs Hnd. split; unfold swap_non_ros_threads; cbn -[fmap list_fmap].
  - apply (tk_exact _ Hs).
  - apply (tk_wild _ Hs).
  - apply index_name_keys.
  - apply (tk_cbs _ Hs).
  - by rw carry_nrt_str.
Qed.

Lemma swap_kernel_tracking kts iqs s : tracking_ok s -> tracking_ok (swap_kernel_and_irqs kts iqs s).
Proof. by intros []. Qed.

Lemma reapply_loop_ind (P : nat -> outcome -> node_state -> Prop) body n i r s :
  (forall j r s, (i <= j < i + n)%nat -> P j r s -> let '(r', s') := body j r s in P (S j) r' s') ->
  P i r s -> let '(r', s') := reapply_loop body n i r s in P (i + n)%nat r' s'.
Proof.
  revert i r s. induction n as [|n IH]; intros i r s Hb Hp; cbn [reapply_loop].
  - by rw Nat.add_0_r.
  - pose proof (Hb i r s ltac:(lia) Hp) as H1. destruct (body i r s) as [r1 s1].
    replace (i + S n)%nat with (S i + n)%nat by lia. apply IH; [|done]. intros j r' s' Hj. apply Hb. lia.
Qed.

Section reapplying.
Context (answer : list syscall -> syscall -> bool).

Lemma reapply_callback_group_tracking i r s :
  tracking_ok s -> tracking_ok (reapply_callback_group answer i r s).2.
Proof.
  intros Hs. unfold reapply_callback_group. destruct (callback_group_configs_ s !! i) as [c|]; [|done].
  assert (forall o, tracking_ok (decrement (with_cbs (alter set_applied i) (with_os o s)))) as Ha.
  { intros o. apply tracking_ok_counter, tracking_ok_cbs; [done| |by apply tracking_ok_os].
    apply tracking_set_applied, (tk_cbs _ Hs). }
  destruct (is_wildcard c).
  - destruct (bool_decide _); [done|]. destruct (reapply_matched _ _ _ _ _ _) as [[r' b] o]. cbn [snd].
    destruct b; [apply Ha|by apply tracking_ok_os].
  - destruct (_ =? _); [done|]. destruct (issue_syscalls _ _ _ _) as [ok o]. cbn [snd].
    destruct ok; [apply Ha|by apply tracking_ok_os].
Qed.

Lemma reapply_non_ros_tracking i r s :
  tracking_ok s -> tracking_ok (reapply_non_ros_thread answer i r s).2.
Proof.
  intros Hs. unfold reapply_non_ros_thread. destruct (non_ros_thread_configs_ s !! i) as [c|]; [|done].
  destruct (_ =? _); [done|]. destruct (issue_syscalls _ _ _ _) as [ok o]. cbn [snd].
  destruct (ok && _); [|by apply tracking_ok_os].
  apply tracking_ok_counter, tracking_ok_nrts; [done|by apply tracking_ok_os].
Qed.
End reapplying.

(** ** The counter of entries that are not applied *)

Lemma i32_cong x y : x mod 2 ^ 32 = y mod 2 ^ 32 -> i32 x = i32 y.
Proof. unfold i32. by intros ->. Qed.

Lemma i32_mod x : i32 x mod 2 ^ 32 = x mod 2 ^ 32.
Proof.
  unfold i32. cbv zeta. destruct (_ <? _); [by rw Z.mod_mod|].
  rw -(Z.mod_add _ 1); [|done]. rw Z.mul_1_l Z.sub_add. by rw Z.mod_mod.
Qed.

Lemma i32_pred x : i32 (i32 x - 1) = i32 (x - 1).
Proof. apply i32_cong. rw -Zminus_mod_idemp_l i32_mod. by rw Zminus_mod_idemp_l. Qed.

Lemma unapplied_applied (i : nat) (l : list ThreadConfig) c :
  l !! i = Some c -> applied c = false -> unapplied l = S (unapplied (alter set_applied i l)).
Proof.
  unfold unapplied. revert i. induction l as [|d l IH]; intros i Hi Hc; [done|].
  destruct i as [|i]; cbn [alter list_alter lookup list_lookup] in *.
  - injection Hi as ->. rw filter_cons_True; [|done]. by rw filter_cons_False.
  - specialize (IH i Hi Hc). rw !filter_cons. destruct (decide _); cbn [length]; lia.
Qed.

Lemma unapplied_alter g (i : nat) (l : list ThreadConfig) :
  (forall c, applied (g c) = applied c) -> unapplied (alter g i l) = unapplied l.
Proof.
  intros Hg. unfold unapplied. revert i. induction l as [|d l IH]; intros i; [done|].
  destruct i as [|i]; cbn [alter list_alter].
  - rw !filter_cons. rw Hg. by destruct (decide _).
  - rw !filter_cons. destruct (decide _); cbn [length]; by rw IH.
Qed.

Lemma unapplied_fresh (l : list ThreadConfig) : Forall (fun c => applied c = false) l -> unapplied l = length l.
Proof. unfold unapplied. induction 1 as [|c l Hc _ IH]; [done|]. rw filter_cons decide_True; [simpl; congruence|done]. Qed.

Lemma count_pred n m : m = i32 (Z.of_nat (S n)) -> i32 (m - 1) = i32 (Z.of_nat n).
Proof. intros ->. rw i32_pred. f_equal. lia. Qed.

Lemma count_applied_cbs (i : nat) c s :
  callback_group_configs_ s !! i = Some c -> applied c = false -> count_ok s ->
  count_ok (decrement (with_cbs (alter set_applied i) s)).
Proof.
  intros Hi Hc Hs. unfold count_ok in *. cbn -[alter unapplied]. apply count_pred. rw Hs.
  by rw (unapplied_applied i _ c Hi Hc).
Qed.

Lemma count_applied_nrts (i : nat) c s :
  non_ros_thread_configs_ s !! i = Some c -> applied c = false -> count_ok s ->
  count_ok (decrement (with_nrts (alter set_applied i) s)).
Proof.
  intros Hi Hc Hs. unfold count_ok in *. cbn -[alter unapplied]. apply count_pred. rw Hs.
  rw (unapplied_applied i _ c Hi Hc). f_equal. lia.
Qed.

Lemma count_ok_cbs g (i : nat) s :
  (forall c, applied (g c) = applied c) -> count_ok s -> count_ok (with_cbs (alter g i) s).
Proof. intros Hg Hs. unfold count_ok in *. cbn -[alter unapplied]. by rw unapplied_alter. Qed.

Lemma count_ok_nrts g (i : nat) s :
  (forall c, applied (g c) = applied c) -> count_ok s -> count_ok (with_nrts (alter g i) s).
Proof. intros Hg Hs. unfold count_ok in *. cbn -[alter unapplied]. by rw (unapplied_alter g). Qed.

(** No entry of the callback groups from [i] on is applied. *)
Definition unapplied_from (i : nat) (s : node_state) : Prop :=
  forall j c, (i <= j)%nat -> callback_group_configs_ s !! j = Some c -> applied c = false.

Lemma unapplied_from_applied (i : nat) s :
  unapplied_from i s -> unapplied_from (S i) (decrement (with_cbs (alter set_applied i) s)).
Proof.
  intros Hs j c Hj. cbn -[alter unapplied]. rw list_lookup_alter_ne; [|lia]. apply Hs. lia.
Qed.

Section counting.
Context (answer : list syscall -> syscall -> bool).

Lemma apply_entry_cbs_count i tid s :
  count_ok s -> count_ok (apply_entry answer with_cbs callback_group_configs_ i tid s).
Proof.
  intros Hs. unfold apply_entry. destruct (callback_group_configs_ s !! i) as [c|] eqn:Ei; [|done].
  destruct (issue_syscalls _ _ _ _) as [ok o]. cbv zeta. destruct ok; [|done].
  destruct (applied c) eqn:Ec; [done|]. by apply (count_applied_cbs i c (with_os o s)).
Qed.

Lemma apply_entry_nrts_count i tid s :
  count_ok s -> count_ok (apply_entry answer with_nrts non_ros_thread_configs_ i tid s).
Proof.
  intros Hs. unfold apply_entry. destruct (non_ros_thread_configs_ s !! i) as [c|] eqn:Ei; [|done].
  destruct (issue_syscalls _ _ _ _) as [ok o]. cbv zeta. destruct ok; [|done].
  destruct (applied c) eqn:Ec; [done|]. by apply (count_applied_nrts i c (with_os o s)).
Qed.

Lemma callback_group_count d id tid s : count_ok s -> count_ok (callback_group_callback answer d id tid s).
Proof.
  intros Hs. unfold callback_group_callback.
  destruct (id_to_callback_group_config_ s !! (d, id)) as [i|];
    destruct (node_to_wildcard_config_ s !! (d, extract_node_part id)) as [w|]; [..|done];
    apply apply_entry_cbs_count; by repeat apply count_ok_cbs.
Qed.

Lemma non_ros_count name tid s : count_ok s -> count_ok (non_ros_thread_callback answer name tid s).
Proof.
  intros Hs. unfold non_ros_thread_callback. destruct (id_to_non_ros_thread_config_ s !! name) as [i|]; [|done].
  apply apply_entry_nrts_count. by apply count_ok_nrts.
Qed.

Lemma listen_count infos s : count_ok s -> count_ok (listen answer infos s).
Proof.
  revert s. induction infos as [|[name tid] infos IH]; intros s Hs; [done|]. simpl. by apply IH, non_ros_count.
Qed.

(** The listener leaves the callback groups. *)
Lemma listen_cbs infos s : callback_group_configs_ (listen answer infos s) = callback_group_configs_ s.
Proof.
  revert s. induction infos as [|[name tid] infos IH]; intros s; [done|]. simpl. rw IH.
  unfold non_ros_thread_callback. destruct (id_to_non_ros_thread_config_ s !! name) as [i|]; [|done].
  unfold apply_entry. destruct (_ !! i) as [c|]; [|done].
  destruct (issue_syscalls _ _ _ _) as [ok o]. cbv zeta. destruct ok; [|done]. by destruct (applied c).
Qed.

Lemma listen_nrts {B} (g : ThreadConfig -> B) infos s :
  (forall t c, g (set_thread_id t c) = g c) -> (forall c, g (set_applied c) = g c) ->
  g <$> non_ros_thread_configs_ (listen answer infos s) = g <$> non_ros_thread_configs_ s.
Proof.
  intros Hid Hap. revert s. induction infos as [|[name tid] infos IH]; intros s; [done|]. simpl. rw IH.
  unfold non_ros_thread_callback. destruct (id_to_non_ros_thread_config_ s !! name) as [i|]; [|done].
  unfold apply_entry. cbn -[alter fmap list_fmap issue_syscalls]. destruct (_ !! i) as [c|]; [|by rw fmap_alter_same].
  destruct (issue_syscalls _ _ _ _) as [ok o]. cbv zeta. destruct ok; [|by apply fmap_alter_same].
  destruct (applied c); [by apply fmap_alter_same|]. cbn -[alter fmap list_fmap]. by rw !fmap_alter_same.
Qed.

Lemma listen_names infos s :
  thread_str <$> non_ros_thread_configs_ (listen answer infos s) = thread_str <$> non_ros_thread_configs_ s.
Proof. by apply listen_nrts. Qed.

Lemma reapply_callback_group_count (i : nat) r s :
  count_ok s -> unapplied_from i s ->
  count_ok (reapply_callback_group answer i r s).2 /\
  unapplied_from (S i) (reapply_callback_group answer i r s).2.
Proof.
  intros Hs Hu. assert (unapplied_from (S i) s) as Hu' by (intros j c Hj; apply Hu; lia).
  unfold reapply_callback_group. destruct (callback_group_configs_ s !! i) as [c|] eqn:Ei; [|done].
  assert (forall o, let s' := decrement (with_cbs (alter set_applied i) (with_os o s)) in
    count_ok s' /\ unapplied_from (S i) s') as Ha.
  { intros o. split; [|by apply unapplied_from_applied].
    apply (count_applied_cbs i c); [done| |done]. by apply (Hu i c). }
  destruct (is_wildcard c).
  - destruct (bool_decide _); [done|]. destruct (reapply_matched _ _ _ _ _ _) as [[r' b] o]. cbn [snd].
    destruct b; [apply Ha|done].
  - destruct (_ =? _); [done|]. destruct (issue_syscalls _ _ _ _) as [ok o]. cbn [snd]. destruct ok; [apply Ha|done].
Qed.

Lemma reapply_non_ros_count i r s : count_ok s -> count_ok (reapply_non_ros_thread answer i r s).2.
Proof.
  intros Hs. unfold reapply_non_ros_thread. destruct (non_ros_thread_configs_ s !! i) as [c|] eqn:Ei; [|done].
  destruct (_ =? _); [done|]. destruct (issue_syscalls _ _ _ _) as [ok o]. cbn [snd].
  destruct ok; [|done]. destruct (applied c) eqn:Ec; [done|]. by apply (count_applied_nrts i c (with_os o s)).
Qed.
End counting.

Lemma swap_count new_cb new_nrt infos answer s :
  Forall fresh new_cb -> Forall fresh new_nrt ->
  let s' := swap_non_ros_threads new_nrt (listen answer infos (swap_callback_groups new_cb s)) in
  count_ok s' /\ unapplied_from 0 s'.
Proof.
  intros Hcb Hnrt s'. assert (callback_group_configs_ s' = carry_over_cb s <$> new_cb) as Ecb.
  { unfold s'. cbn -[fmap list_fmap listen]. by rw listen_cbs. }
  assert (Forall (fun c => applied c = false) (callback_group_configs_ s')) as Hf.
  { rw Ecb. apply Forall_fmap. eapply Forall_impl; [exact Hcb|]. intros c (_ & _ & Hc). unfold compose.
    by rw (proj2 (proj2 (proj2 (carry_cb_key s c)))). }
  assert (Forall (fun c => applied c = false) (non_ros_thread_configs_ s')) as Hn.
  { unfold s'. cbn -[fmap list_fmap listen]. apply Forall_fmap. eapply Forall_impl; [exact Hnrt|].
    intros c (_ & _ & Hc). unfold compose, carry_over_nrt. by destruct (pointee _ _). }
  split.
  - unfold count_ok. rw !unapplied_fresh; done.
  - intros j c _ Hj. rewrite Forall_forall in Hf. by eapply Hf, list_elem_of_lookup_2.
Qed.

(** ** What a reapply request reports *)

Definition outcome_keys (r : outcome) : list string := o_applied r ++ o_failed r ++ o_skipped r.

(** What the response says of one entry: the instances of a wildcard one by one, when some are known. *)
Definition reported (c : ThreadConfig) : list string :=
  if is_wildcard c && bool_decide (matched_tids c <> ∅)
  then domain_key (domain_id c) <$> sorted_keys (matched_tids c)
  else [domain_key (domain_id c) (thread_str c)].

Definition reported_kernel (scanned : list KernelThreadInfo) (c : KernelThreadConfig) : list string :=
  if is_managed_kernel_thread c then
    match find_kernel_threads_by_comm scanned (comm c) with
    | [] => [comm c]
    | l => (fun i => kernel_thread_key (comm c) (kt_tid i)) <$> l
    end
  else [].

Definition reported_irq (c : IrqConfig) : list string := if is_managed_irq c then [irq_key c] else [].

Lemma add_result_keys ok k r : outcome_keys (add_result ok k r) ≡ₚ outcome_keys r ++ [k].
Proof. unfold outcome_keys. destruct ok; simpl; solve_Permutation. Qed.

Lemma add_skipped_keys k r : outcome_keys (add_skipped k r) ≡ₚ outcome_keys r ++ [k].
Proof. unfold outcome_keys. simpl. solve_Permutation. Qed.

(** An entry but for its flag. *)
Definition unflagged (c : ThreadConfig) : ThreadConfig :=
  MkThreadConfig (thread_str c) (domain_id c) (attrs c) (thread_id c) (matched_tids c) false.

Lemma fmap_unflagged {B} (g : ThreadConfig -> B) (l : list ThreadConfig) :
  (forall c, g (unflagged c) = g c) -> g <$> (unflagged <$> l) = g <$> l.
Proof. intros Hg. rw -list_fmap_compose. apply list_fmap_ext. intros i c _. apply Hg. Qed.

Section accounting.
Context (answer : list syscall -> syscall -> bool).

Lemma reapply_matched_keys c ids r b o :
  let '(r', _, _) := reapply_matched answer c ids r b o in
  outcome_keys r' ≡ₚ outcome_keys r ++ (domain_key (domain_id c) <$> ids).
Proof.
  revert r b o. induction ids as [|id ids IH]; intros r b o; cbn [reapply_matched]; [by rw app_nil_r|].
  destruct (issue_syscalls _ _ _ _) as [ok o']. specialize (IH (add_result ok (domain_key (domain_id c) id) r) (b || ok) o').
  destruct (reapply_matched _ _ _ _ _ _) as [[r' b'] o'']. rewrite IH add_result_keys fmap_cons. by rw -app_assoc.
Qed.

Lemma reapply_callback_group_keys (i : nat) r s c :
  callback_group_configs_ s !! i = Some c ->
  let '(r', s') := reapply_callback_group answer i r s in
  outcome_keys r' ≡ₚ outcome_keys r ++ reported c /\
  unflagged <$> callback_group_configs_ s' = unflagged <$> callback_group_configs_ s /\
  kernel_thread_configs_ s' = kernel_thread_configs_ s /\ irq_configs_ s' = irq_configs_ s /\
  non_ros_thread_configs_ s' = non_ros_thread_configs_ s.
Proof.
  intros Hi. unfold reapply_callback_group, reported. rw Hi.
  assert (forall o, unflagged <$> callback_group_configs_ (decrement (with_cbs (alter set_applied i) (with_os o s)))
    = unflagged <$> callback_group_configs_ s) as Ha.
  { intros o. cbn -[alter fmap list_fmap]. by apply fmap_alter_same. }
  destruct (is_wildcard c); cbn [andb].
  - destruct (bool_decide (matched_tids c = ∅)) eqn:E.
    + apply bool_decide_eq_true in E. rw bool_decide_eq_false_2; [|by intros []]. by rw add_skipped_keys.
    + apply bool_decide_eq_false in E. rw bool_decide_eq_true_2; [|done].
      pose proof (reapply_matched_keys c (sorted_keys (matched_tids c)) r false (node_os s)) as Hk.
      destruct (reapply_matched _ _ _ _ _ _) as [[r' b] o]. split; [done|]. by destruct b.
  - destruct (_ =? _); [by rw add_skipped_keys|].
    destruct (issue_syscalls _ _ _ _) as [ok o]. rw add_result_keys. by destruct ok.
Qed.

Lemma reapply_non_ros_keys (i : nat) r s c :
  non_ros_thread_configs_ s !! i = Some c ->
  let '(r', s') := reapply_non_ros_thread answer i r s in
  outcome_keys r' ≡ₚ outcome_keys r ++ [thread_str c] /\
  unflagged <$> non_ros_thread_configs_ s' = unflagged <$> non_ros_thread_configs_ s /\
  kernel_thread_configs_ s' = kernel_thread_configs_ s /\ irq_configs_ s' = irq_configs_ s /\
  callback_group_configs_ s' = callback_group_configs_ s.
Proof.
  intros Hi. unfold reapply_non_ros_thread. rw Hi.
  destruct (_ =? _); [by rw add_skipped_keys|].
  destruct (issue_syscalls _ _ _ _) as [ok o]. rw add_result_keys. destruct (ok && _); [|done].
  split; [done|]. split; [|done]. cbn -[alter fmap list_fmap]. by apply fmap_alter_same.
Qed.

Lemma configure_matches_keys np c matches r o :
  outcome_keys (configure_matches answer np c matches r o).1 ≡ₚ
  outcome_keys r ++ ((fun i => kernel_thread_key (comm c) (kt_tid i)) <$> matches).
Proof.
  revert r o. induction matches as [|i l IH]; intros r o; cbn [configure_matches]; [by rw app_nil_r|].
  destruct (configure_kernel_thread _ _ _ _ _) as [ok o']. rw IH. rw add_result_keys fmap_cons. by rw -app_assoc.
Qed.

Lemma apply_kernel_threads_keys np scanned l r o :
  outcome_keys (apply_kernel_threads answer np scanned l r o).1 ≡ₚ
  outcome_keys r ++ mjoin (reported_kernel scanned <$> l).
Proof.
  revert r o. induction l as [|c l IH]; intros r o; cbn [apply_kernel_threads]; [by rw app_nil_r|].
  rw fmap_cons. cbn [mjoin list_join]. unfold reported_kernel at 1. destruct (is_managed_kernel_thread c); [|by apply IH].
  cbn [negb]. destruct (find_kernel_threads_by_comm scanned (comm c)) as [|i m].
  - rw IH add_skipped_keys. by rw -app_assoc.
  - pose proof (configure_matches_keys np c (i :: m) r o) as Hk.
    destruct (configure_matches _ _ _ _ _ _) as [r' o']. rw IH. simpl in Hk. rewrite Hk. by rw -app_assoc.
Qed.

Lemma apply_irqs_keys np w l r o :
  outcome_keys (apply_irqs answer np w l r o).1 ≡ₚ outcome_keys r ++ mjoin (reported_irq <$> l).
Proof.
  revert r o. induction l as [|c l IH]; intros r o; cbn [apply_irqs]; [by rw app_nil_r|].
  rw fmap_cons. cbn [mjoin list_join]. unfold reported_irq at 1. destruct (is_managed_irq c); [|by apply IH].
  cbn [negb]. destruct (configure_irq _ _ _ _ _) as [ok o']. rw IH add_result_keys. by rw -app_assoc.
Qed.

Lemma reported_unflagged c : reported (unflagged c) = reported c.
Proof. done. Qed.

(** The loop over the callback groups: everything it keeps. *)
Lemma reapply_callback_groups_spec s :
  tracking_ok s -> count_ok s -> unapplied_from 0 s ->
  let '(r, s') := reapply_loop (reapply_callback_group answer) (length (callback_group_configs_ s)) 0 no_outcome s in
  tracking_ok s' /\ count_ok s' /\
  outcome_keys r ≡ₚ mjoin (reported <$> callback_group_configs_ s) /\
  unflagged <$> callback_group_configs_ s' = unflagged <$> callback_group_configs_ s /\
  kernel_thread_configs_ s' = kernel_thread_configs_ s /\ irq_configs_ s' = irq_configs_ s /\
  non_ros_thread_configs_ s' = non_ros_thread_configs_ s.
Proof.
  intros H1 H2 H3. set (L := unflagged <$> callback_group_configs_ s).
  pose proof (reapply_loop_ind (fun i r s' =>
    tracking_ok s' /\ count_ok s' /\ unapplied_from i s' /\ outcome_keys r ≡ₚ mjoin (reported <$> take i L) /\
    unflagged <$> callback_group_configs_ s' = L /\ kernel_thread_configs_ s' = kernel_thread_configs_ s /\
    irq_configs_ s' = irq_configs_ s /\ non_ros_thread_configs_ s' = non_ros_thread_configs_ s)
    (reapply_callback_group answer) (length (callback_group_configs_ s)) 0 no_outcome s) as Hl.
  destruct (reapply_loop _ _ _ _ _) as [r s']. destruct Hl as (G1 & G2 & _ & Hr & HL & G3).
  - clear r s'. intros i r s' Hi (G1 & G2 & G3 & Hr & HL & G4 & G5 & G6).
    destruct (lookup_lt_is_Some_2 (callback_group_configs_ s') i) as [c Hc].
    { apply (f_equal length) in HL. unfold L in HL. rewrite !length_fmap in HL. lia. }
    assert (L !! i = Some (unflagged c)) as HLi by (by rw -HL list_lookup_fmap Hc).
    pose proof (reapply_callback_group_tracking answer i r s' G1) as K1.
    destruct (reapply_callback_group_count answer i r s' G2 G3) as [K2 K3].
    pose proof (reapply_callback_group_keys i r s' c Hc) as K.
    destruct (reapply_callback_group answer i r s') as [r' s'']. cbn [snd] in *. destruct K as (K4 & K5 & K6 & K7 & K8).
    split; [done|]. split; [done|]. split; [done|]. split; [|by repeat split; congruence].
    rw K4 Hr (take_S_r _ _ _ HLi) fmap_app. by rw join_app; simpl; rw app_nil_r.
  - by split_and!.
  - split; [done|]. split; [done|]. split; [|done].
    rw Hr. unfold L. rw take_ge; [|by rw length_fmap]. by rw -list_fmap_compose.
Qed.

Lemma reapply_non_ros_threads_spec s :
  tracking_ok s -> count_ok s ->
  let '(r, s') := reapply_loop (reapply_non_ros_thread answer) (length (non_ros_thread_configs_ s)) 0 no_outcome s in
  tracking_ok s' /\ count_ok s' /\
  outcome_keys r ≡ₚ thread_str <$> non_ros_thread_configs_ s /\
  unflagged <$> non_ros_thread_configs_ s' = unflagged <$> non_ros_thread_configs_ s /\
  kernel_thread_configs_ s' = kernel_thread_configs_ s /\ irq_configs_ s' = irq_configs_ s /\
  callback_group_configs_ s' = callback_group_configs_ s.
Proof.
  intros H1 H2. set (L := unflagged <$> non_ros_thread_configs_ s).
  assert (forall l : list ThreadConfig, thread_str <$> (unflagged <$> l) = thread_str <$> l) as Hstr.
  { intros l. by apply fmap_unflagged. }
  pose proof (reapply_loop_ind (fun i r s' =>
    tracking_ok s' /\ count_ok s' /\ outcome_keys r ≡ₚ thread_str <$> take i L /\
    unflagged <$> non_ros_thread_configs_ s' = L /\ kernel_thread_configs_ s' = kernel_thread_configs_ s /\
    irq_configs_ s' = irq_configs_ s /\ callback_group_configs_ s' = callback_group_configs_ s)
    (reapply_non_ros_thread answer) (length (non_ros_thread_configs_ s)) 0 no_outcome s) as Hl.
  destruct (reapply_loop _ _ _ _ _) as [r s']. destruct Hl as (G1 & G2 & Hr & HL & G3).
  - clear r s'. intros i r s' Hi (G1 & G2 & Hr & HL & G4 & G5 & G6).
    destruct (lookup_lt_is_Some_2 (non_ros_thread_configs_ s') i) as [c Hc].
    { apply (f_equal length) in HL. unfold L in HL. rewrite !length_fmap in HL. lia. }
    assert (L !! i = Some (unflagged c)) as HLi by (by rw -HL list_lookup_fmap Hc).
    pose proof (reapply_non_ros_tracking answer i r s' G1) as K1.
    pose proof (reapply_non_ros_count answer i r s' G2) as K2.
    pose proof (reapply_non_ros_keys i r s' c Hc) as K.
    destruct (reapply_non_ros_thread answer i r s') as [r' s'']. cbn [snd] in *. destruct K as (K4 & K5 & K6 & K7 & K8).
    split; [done|]. split; [done|]. split; [|by repeat split; congruence].
    rw K4 Hr (take_S_r _ _ _ HLi) fmap_app. done.
  - by split_and!.
  - split; [done|]. split; [done|]. split.
    + rw Hr take_ge; [|unfold L; by rw length_fmap]. unfold L. by rw Hstr.
    + done.
Qed.
End accounting.

(** ** Everything a reapply request does *)

Definition config_of (c : ThreadConfig) : (Z * string) * SchedAttrs := (cb_key c, attrs c).

Lemma carry_config s c : config_of (carry_over_cb s c) = config_of c.
Proof. unfold carry_over_cb. destruct (is_wildcard c); by destruct (pointee _ _). Qed.

(** What is known of a group is carried over to the entry that has its key. *)
Lemma carry_known s (old c : ThreadConfig) :
  tracking_ok s -> fresh c -> old ∈ callback_group_configs_ s -> cb_key old = cb_key c ->
  thread_id (carry_over_cb s c) = thread_id old /\ matched_tids (carry_over_cb s c) = matched_tids old.
Proof.
  intros Hs (Hid & Hm & _) Hold Hk.
  assert (is_wildcard old = is_wildcard c /\ wildcard_prefix old = wildcard_prefix c) as [Ew Ep].
  { unfold is_wildcard, wildcard_prefix. injection Hk as _ ->. done. }
  pose proof (tr_wf _ (tk_cbs _ Hs)) as Hwf. rewrite Forall_forall in Hwf. specialize (Hwf _ Hold).
  unfold tracking_wf in Hwf. rewrite Ew in Hwf. apply list_elem_of_lookup in Hold as (j & Hj).
  injection Hk as Hd Hstr. unfold carry_over_cb. destruct (is_wildcard c) eqn:E.
  - assert (node_to_wildcard_config_ s !! (domain_id c, wildcard_prefix c) = Some j) as ->.
    { rw (tk_wild _ Hs). rw (index_keys_complete 0 _ ∅ j); [done|apply wildcard_key_unique, Hs|].
      rw list_lookup_fmap Hj. simpl. unfold wildcard_key. rw Ew. by rw Hd Ep. }
    simpl. rw Hj. simpl. split; [|done]. by rw Hid (proj1 Hwf).
  - assert (id_to_callback_group_config_ s !! (domain_id c, thread_str c) = Some j) as ->.
    { rw (tk_exact _ Hs). rw (index_keys_complete 0 _ ∅ j); [done|apply exact_key_unique, Hs|].
      rw list_lookup_fmap Hj. simpl. unfold exact_key. rw Ew. by rw Hd Hstr. }
    simpl. rw Hj. simpl. split; [done|]. by rw Hm Hwf.
Qed.

Definition accounted (scanned : list KernelThreadInfo) (cb nrt : list ThreadConfig)
    (kts : list KernelThreadConfig) (iqs : list IrqConfig) (s : node_state) (resp : response) (s' : node_state) : Prop :=
  success resp = true /\
  (* the entries are those of the file *)
  config_of <$> callback_group_configs_ s' = config_of <$> cb /\
  config_of <$> non_ros_thread_configs_ s' = config_of <$> nrt /\
  kernel_thread_configs_ s' = kts /\ irq_configs_ s' = iqs /\
  (* with what was known of their threads *)
  (forall old c, old ∈ callback_group_configs_ s -> c ∈ callback_group_configs_ s' -> cb_key old = cb_key c ->
     thread_id c = thread_id old /\ matched_tids c = matched_tids old) /\
  (* and each is reported once *)
  outcome_keys (callback_groups resp) ≡ₚ mjoin (reported <$> callback_group_configs_ s') /\
  outcome_keys (non_ros_threads resp) ≡ₚ thread_str <$> nrt /\
  outcome_keys (kernel_threads resp) ≡ₚ mjoin (reported_kernel scanned <$> kts) /\
  outcome_keys (irqs resp) ≡ₚ mjoin (reported_irq <$> iqs).

Section requests.
Context (answer : list syscall -> syscall -> bool) (nprocessors_conf : Z).
Context {node : Type} {Y : Yaml node} (default_domain_id : Z).

Definition parsed (doc : option node)
    : option (list ThreadConfig * list ThreadConfig * list KernelThreadConfig * list IrqConfig) :=
  match doc with
  | Some doc => match parse_config nprocessors_conf default_domain_id doc with inr c => Some c | inl _ => None end
  | None => None
  end.

Lemma listen_rest infos s :
  kernel_thread_configs_ (listen answer infos s) = kernel_thread_configs_ s /\
  irq_configs_ (listen answer infos s) = irq_configs_ s.
Proof.
  revert s. induction infos as [|[name tid] infos IH]; intros s; [done|]. simpl.
  destruct (IH (non_ros_thread_callback answer name tid s)) as [-> ->].
  unfold non_ros_thread_callback. destruct (id_to_non_ros_thread_config_ s !! name) as [i|]; [|done].
  unfold apply_entry. destruct (_ !! i) as [c|]; [|done].
  destruct (issue_syscalls _ _ _ _) as [ok o]. cbv zeta. destruct ok; [|done]. by destruct (applied c).
Qed.

Lemma on_reapply_spec w doc s :
  tracking_ok s -> count_ok s ->
  let '(resp, s') := on_reapply_config_request answer nprocessors_conf default_domain_id w doc s in
  tracking_ok s' /\ count_ok s' /\
  match parsed doc with
  | Some (cb, nrt, kts, iqs) => accounted (ra_scanned w) cb nrt kts iqs s resp s'
  | None => resp = rejected /\ s' = s
  end.
Proof.
  intros Hs Hc. unfold on_reapply_config_request, parsed. destruct doc as [doc|]; [|done].
  destruct (parse_config _ _ _) as [e|[[[cb nrt] kts] iqs]] eqn:Ep; [done|].
  destruct (parse_config_fresh _ _ _ _ _ _ _ Ep) as (Fcb & Fnrt & Ncb & Nnrt).
  destruct (swap_count cb nrt (ra_meanwhile w 0) answer s Fcb Fnrt) as [C1 U1].
  pose proof (swap_non_ros_tracking nrt _
    (listen_tracking answer (ra_meanwhile w 0) _ (swap_callback_groups_tracking cb s Hs Fcb Ncb)) Nnrt) as T1.
  set (s1 := swap_non_ros_threads nrt _) in *.
  assert (callback_group_configs_ s1 = carry_over_cb s <$> cb) as B1.
  { unfold s1. cbn -[fmap list_fmap listen]. by rw listen_cbs. }
  assert (config_of <$> non_ros_thread_configs_ s1 = config_of <$> nrt) as N1 by (by apply carry_nrt).
  set (s2 := swap_kernel_and_irqs kts iqs (listen answer (ra_meanwhile w 1) s1)).
  assert (tracking_ok s2) as T2 by by apply swap_kernel_tracking, listen_tracking.
  assert (count_ok s2) as C2 by exact (listen_count answer _ _ C1).
  assert (callback_group_configs_ s2 = callback_group_configs_ s1) as B2 by exact (listen_cbs answer _ _).
  assert (unapplied_from 0 s2) as U2 by (unfold unapplied_from; by rw B2).
  assert (config_of <$> non_ros_thread_configs_ s2 = config_of <$> nrt) as N2.
  { rw -N1. by apply listen_nrts. }
  pose proof (reapply_callback_groups_spec answer s2 T2 C2 U2) as P3.
  destruct (reapply_loop (reapply_callback_group _) _ _ _ s2) as [cbs s3].
  destruct P3 as (T3 & C3 & K3 & B3 & E3 & I3 & N3).
  set (s4 := listen answer (ra_meanwhile w 2) s3).
  pose proof (reapply_non_ros_threads_spec answer s4 (listen_tracking _ _ _ T3) (listen_count _ _ _ C3)) as P5.
  destruct (reapply_loop (reapply_non_ros_thread _) _ _ _ s4) as [nrts s5].
  destruct P5 as (T5 & C5 & K5 & N5 & E5 & I5 & B5). cbv zeta.
  set (s6 := listen answer (ra_meanwhile w 3) s5).
  assert (kernel_thread_configs_ s6 = kts /\ irq_configs_ s6 = iqs) as [E6 I6].
  { unfold s6. destruct (listen_rest (ra_meanwhile w 3) s5) as [-> ->]. destruct (listen_rest (ra_meanwhile w 2) s3) as [Q1 Q2].
    split; [by rw E5 Q1 E3|by rw I5 Q2 I3]. }
  rw E6 I6. unfold apply_kernel_thread_configs, apply_irq_configs.
  pose proof (apply_kernel_threads_keys answer nprocessors_conf (ra_scanned w) kts no_outcome (node_os s6)) as K6.
  destruct (apply_kernel_threads _ _ _ _ _ _) as [rk o].
  pose proof (apply_irqs_keys answer nprocessors_conf (ra_irq w) iqs no_outcome o) as K7.
  destruct (apply_irqs _ _ _ _ _ _) as [ri o'].
  assert (unflagged <$> callback_group_configs_ s6 = unflagged <$> (carry_over_cb s <$> cb)) as B6.
  { unfold s6. rw listen_cbs B5. unfold s4. by rw listen_cbs B3 B2 B1. }
  split; [by apply tracking_ok_os, listen_tracking|]. split; [by apply (listen_count answer _ _ C5)|].
  unfold accounted. cbn -[fmap list_fmap mjoin list_join]. split; [done|].
  pose proof (@fmap_unflagged) as Hun.
  split; [|split; [|split; [|split; [|split; [|split; [|split; [|split]]]]]]]; [| |done|done| | | |done|done].
  - rw -(Hun _ config_of); [|done]. rw B6 Hun; [|done]. rw -list_fmap_compose. apply list_fmap_ext.
    intros i c _. apply carry_config.
  - unfold s6. rw listen_nrts //. rewrite -(Hun _ config_of) // N5 Hun //. unfold s4. rw listen_nrts //. by rw N3.
  - intros old c Hold Hin Hk. apply (list_elem_of_fmap_2 unflagged) in Hin. rewrite B6 in Hin.
    apply list_elem_of_fmap in Hin as (c1 & E1 & (c2 & -> & Hc2)%list_elem_of_fmap).
    rewrite Forall_forall in Fcb.
    assert (cb_key old = cb_key c2) as Hk2.
    { rw Hk. change (cb_key c) with (cb_key (unflagged c)). rw E1. change (cb_key (unflagged ?x)) with (cb_key x).
      apply carry_cb_key. }
    change (thread_id c) with (thread_id (unflagged c)). change (matched_tids c) with (matched_tids (unflagged c)).
    rw E1. exact (carry_known s old c2 Hs (Fcb c2 Hc2) Hold Hk2).
  - rw K3 B2 B1. rw -(Hun _ reported (callback_group_configs_ s6)); [|done]. by rw B6 Hun.
  - rw K5. unfold s4. rw listen_names N3. apply (f_equal (fmap (fun x => x.1.2))) in N2.
    rewrite -!list_fmap_compose in N2. change (thread_str <$> ?l) with ((fun x : Z * string * SchedAttrs => x.1.2) ∘ config_of <$> l). by rw N2.
Qed.
End requests.

(** ** What is known of a group *)

(** The thread that an entry tracks for a callback group. *)
Definition tracked_by (c : ThreadConfig) (d : Z) (id : string) : option Z :=
  if decide (domain_id c = d) then
    if is_wildcard c then matched_tids c !! id
    else if decide (thread_str c = id /\ thread_id c <> -1) then Some (thread_id c) else None
  else None.

Definition knows (s : node_state) (d : Z) (id : string) (t : Z) : Prop :=
  exists c, c ∈ callback_group_configs_ s /\ tracked_by c d id = Some t.

(** The entries that the file has for a group. *)
Definition covers (c : ThreadConfig) (d : Z) (id : string) : Prop :=
  domain_id c = d /\ (if is_wildcard c then wildcard_prefix c = extract_node_part id else thread_str c = id).

Lemma tracked_covers c d id t : tracking_wf c -> tracked_by c d id = Some t -> covers c d id.
Proof.
  unfold tracking_wf, tracked_by, covers. destruct (decide _) as [Hd|]; [|done]. destruct (is_wildcard c).
  - intros [_ Hm] Ht. split; [done|]. symmetry. apply Hm. by exists t.
  - by destruct (decide _) as [[Hi _]|].
Qed.

Lemma tracked_once l (i j : nat) c w d id t u :
  tracking l -> l !! i = Some c -> l !! j = Some w ->
  tracked_by c d id = Some t -> tracked_by w d id = Some u -> i = j.
Proof.
  intros [Hnd Hwf Honce] Hi Hj Hc Hw. rewrite Forall_forall in Hwf.
  pose proof (list_elem_of_lookup_2 _ _ _ Hi) as Li. pose proof (list_elem_of_lookup_2 _ _ _ Hj) as Lj.
  destruct (tracked_covers _ _ _ _ (Hwf _ Li) Hc) as [Dc Pc].
  destruct (tracked_covers _ _ _ _ (Hwf _ Lj) Hw) as [Dw Pw].
  assert (forall a b, a ∈ l -> b ∈ l -> is_wildcard a = false -> is_wildcard b = true -> domain_id a = d ->
    domain_id b = d -> forall x y, tracked_by a d id = Some x -> tracked_by b d id = Some y -> False) as Hmix.
  { intros a b La Lb Ea Eb Da Db x y. unfold tracked_by. rw Ea Eb Da Db. destruct (decide (d = d)); [|done].
    destruct (decide (thread_str a = id /\ _)) as [[Hs Ht]|]; [|done]. intros _ Hm. rewrite -Hs in Hm.
    by rewrite (Honce a b La Lb Ea Eb ltac:(congruence) Ht) in Hm. }
  apply (cb_key_lookup l i j c w); [done..|]. unfold cb_key. f_equal; [congruence|].
  destruct (is_wildcard c) eqn:Ec; destruct (is_wildcard w) eqn:Ew.
  - apply wildcard_prefix_inj; [done..|congruence].
  - exfalso. by eauto.
  - exfalso. by eauto.
  - congruence.
Qed.

Lemma knows_unflagged s s' :
  unflagged <$> callback_group_configs_ s' = unflagged <$> callback_group_configs_ s ->
  forall d id t, knows s d id t -> knows s' d id t.
Proof.
  intros He d id t (c & Hc & Ht). apply (list_elem_of_fmap_2 unflagged) in Hc. rewrite -He in Hc.
  apply list_elem_of_fmap in Hc as (c' & Ec & Hc'). exists c'. split; [done|].
  change (tracked_by (unflagged c') d id = Some t). by rw -Ec.
Qed.

Lemma apply_entry_unflagged answer i tid s :
  unflagged <$> callback_group_configs_ (apply_entry answer with_cbs callback_group_configs_ i tid s) =
  unflagged <$> callback_group_configs_ s.
Proof.
  unfold apply_entry. destruct (_ !! i) as [c|]; [|done]. destruct (issue_syscalls _ _ _ _) as [ok o].
  cbv zeta. destruct ok; [|done]. destruct (applied c); [done|]. cbn -[alter fmap list_fmap].
  by apply fmap_alter_same.
Qed.

Lemma knows_alter f (i : nat) s d id t :
  (forall c, callback_group_configs_ s !! i = Some c -> tracked_by (f c) d id = tracked_by c d id) ->
  knows (with_cbs (alter f i) s) d id t <-> knows s d id t.
Proof.
  intros Hf. unfold knows. cbn -[alter]. split.
  - intros (x & [Hx|(c & Hc & ->)]%elem_of_alter & Ht); [by exists x|]. exists c. split; [by eapply list_elem_of_lookup_2|].
    by rw -(Hf c Hc).
  - intros (x & (j & Hj)%list_elem_of_lookup & Ht). destruct (decide (j = i)) as [-> |Hne].
    + exists (f x). split; [|by rw Hf]. apply (list_elem_of_lookup_2 _ i). by rw list_lookup_alter_eq Hj.
    + exists x. split; [|done]. apply (list_elem_of_lookup_2 _ j). by rw list_lookup_alter_ne.
Qed.

(** The entry [i] tracks the group, so what is known of it is what [i] knows. *)
Lemma knows_at s (i : nat) c d id t :
  tracking (callback_group_configs_ s) -> callback_group_configs_ s !! i = Some c ->
  tracked_by c d id = Some t -> forall u, knows s d id u <-> u = t.
Proof.
  intros Ht Hi Hc u. split.
  - intros (x & (j & Hj)%list_elem_of_lookup & Hx). assert (i = j) as <- by by eapply tracked_once.
    congruence.
  - intros ->. exists c. split; [by eapply list_elem_of_lookup_2|done].
Qed.

Lemma knows_announced f (i : nat) c d id tid s :
  let s1 := with_cbs (alter f i) s in
  tracking_ok s1 -> callback_group_configs_ s !! i = Some c -> tracked_by (f c) d id = Some tid ->
  (forall u v, (u, v) <> (d, id) -> tracked_by (f c) u v = tracked_by c u v) ->
  forall d' id' t, knows s1 d' id' t <-> if decide ((d', id') = (d, id)) then t = tid else knows s d' id' t.
Proof.
  intros s1 Hs1 Hi Ht Hrest d' id' t. destruct (decide _) as [[= -> ->]|Hne].
  - eapply (knows_at s1 i (f c)); [apply (tk_cbs _ Hs1)| |done]. unfold s1. cbn -[alter].
    by rw list_lookup_alter_eq Hi.
  - apply knows_alter. intros x Hx. assert (x = c) as -> by congruence. by apply Hrest.
Qed.

Lemma tracked_forget c d id u v :
  is_wildcard c = true -> domain_id c = d -> (u, v) <> (d, id) ->
  tracked_by (set_matched (delete id) c) u v = tracked_by c u v.
Proof.
  intros Hw Hd Hne. unfold tracked_by. change (is_wildcard (set_matched (delete id) c)) with (is_wildcard c). rw Hw.
  simpl. destruct (decide (domain_id c = u)); [|done]. apply lookup_delete_ne. congruence.
Qed.

Lemma knows_forgotten s d id u v t :
  tracking_ok s -> (u, v) <> (d, id) -> knows (forgotten d id s) u v t <-> knows s u v t.
Proof.
  intros Hs Hne. unfold forgotten.
  destruct (node_to_wildcard_config_ s !! (d, extract_node_part id)) as [w|] eqn:Ew; [|done].
  destruct (wildcard_Some s d _ w Hs Ew) as (cw & Hw & Hww & Hdw & Hp).
  apply knows_alter. intros x Hx. assert (x = cw) as -> by congruence. by apply (tracked_forget _ d).
Qed.

(** Whether the file has an entry for the group. *)
Definition covered (s : node_state) (d : Z) (id : string) : Prop :=
  is_Some (id_to_callback_group_config_ s !! (d, id)) \/
  is_Some (node_to_wildcard_config_ s !! (d, extract_node_part id)).

#[export] Instance covered_dec s d id : Decision (covered s d id).
Proof. unfold covered. apply _. Defined.

Lemma covered_spec s d id :
  tracking_ok s -> covered s d id <-> exists c, c ∈ callback_group_configs_ s /\ covers c d id.
Proof.
  intros Hs. unfold covered, covers. split.
  - intros [[i Hi]|[i Hi]].
    + destruct (exact_Some _ _ _ _ Hs Hi) as (c & Hc & H1 & H2 & H3). exists c. rw H1.
      split; [by eapply list_elem_of_lookup_2|done].
    + destruct (wildcard_Some _ _ _ _ Hs Hi) as (c & Hc & H1 & H2 & H3). exists c. rw H1.
      split; [by eapply list_elem_of_lookup_2|done].
  - intros (c & Hc & Hd & Hk). destruct (is_wildcard c) eqn:Ew; [right|left]; apply not_eq_None_Some; intros E.
    + by apply (wildcard_None _ _ _ Hs E c).
    + by apply (exact_None _ _ _ Hs E c).
Qed.

Lemma callback_group_knows answer d id tid s :
  tracking_ok s -> tid <> -1 -> forall d' id' t,
  knows (callback_group_callback answer d id tid s) d' id' t <->
  if decide ((d', id') = (d, id) /\ covered s d id) then t = tid else knows s d' id' t.
Proof.
  intros Hs Htid d' id' t. unfold callback_group_callback.
  assert (forall (i : nat) s1, knows (apply_entry answer with_cbs callback_group_configs_ i tid s1) d' id' t <->
    knows s1 d' id' t) as Hap.
  { intros i s1. split; apply knows_unflagged; [symmetry|]; apply apply_entry_unflagged. }
  assert (covered s d id -> (if decide ((d', id') = (d, id) /\ covered s d id) then t = tid else knows s d' id' t)
    <-> if decide ((d', id') = (d, id)) then t = tid else knows s d' id' t) as Hco.
  { intros Hc. destruct (decide _) as [[He _]|Hn]; [by rw decide_True|]. rw decide_False; [done|]. naive_solver. }
  destruct (id_to_callback_group_config_ s !! (d, id)) as [i|] eqn:Ei.
  - rw Hap Hco; [|left; by exists i]. destruct (exact_Some s d id i Hs Ei) as (c & Hc & Hcw & Hd & Hstr).
    change (knows (with_cbs (alter (set_thread_id tid) i) (forgotten d id s)) d' id' t <->
      if decide ((d', id') = (d, id)) then t = tid else knows s d' id' t).
    assert (callback_group_configs_ (forgotten d id s) !! i = Some c) as Hc'.
    { unfold forgotten. destruct (node_to_wildcard_config_ s !! (d, extract_node_part id)) as [w|] eqn:Ew; [|done].
      destruct (wildcard_Some s d _ w Hs Ew) as (cw & Hw & Hww & _). cbn -[alter]. rw list_lookup_alter_ne; [done|].
      intros ->. congruence. }
    rewrite (knows_announced (set_thread_id tid) i c d id tid (forgotten d id s) (exact_noted _ _ _ _ _ Hs Ei) Hc').
    + destruct (decide ((d', id') = (d, id))); [done|]. by apply knows_forgotten.
    + unfold tracked_by. change (is_wildcard (set_thread_id tid c)) with (is_wildcard c). rw Hcw.
      simpl. rewrite Hd Hstr. destruct (decide (d = d)); [|done]. by rw decide_True.
    + intros u v Hne. unfold tracked_by. change (is_wildcard (set_thread_id tid c)) with (is_wildcard c). rw Hcw.
      simpl. destruct (decide (domain_id c = u)); [|done]. rw decide_False; [|intros []; congruence].
      rw decide_False; [done|intros []; congruence].
  - destruct (node_to_wildcard_config_ s !! (d, extract_node_part id)) as [w|] eqn:Ew.
    + rw Hap Hco; [|right; by exists w]. destruct (wildcard_Some s d _ w Hs Ew) as (c & Hc & Hcw & Hd & Hp).
      apply (knows_announced (set_matched <[id := tid]>) w c d id tid s (wildcard_noted _ _ _ _ _ Hs Ei Ew) Hc).
      * unfold tracked_by. change (is_wildcard (set_matched <[id := tid]> c)) with (is_wildcard c). rw Hcw.
        simpl. rewrite Hd. destruct (decide (d = d)); [|done]. apply lookup_insert_eq.
      * intros u v Hne. unfold tracked_by. change (is_wildcard (set_matched <[id := tid]> c)) with (is_wildcard c).
        rw Hcw. simpl. destruct (decide (domain_id c = u)); [|done]. apply lookup_insert_ne. congruence.
    + rw decide_False; [done|]. intros [_ [[? E]|[? E]]]; congruence.
Qed.

(** ** Runs of the configurator *)

Section runs.
Context (answer : list syscall -> syscall -> bool) (nprocessors_conf : Z).
Context {node : Type} {Y : Yaml node} (default_domain_id : Z).

Inductive event :=
  | Announced (domain : Z) (id : string) (tid : Z)
  | NonRosAnnounced (name : string) (tid : Z)
  | Reapplied (w : reapply_answers) (doc : option node).

Definition step (s : node_state) (e : event) : node_state :=
  match e with
  | Announced d id tid => callback_group_callback answer d id tid s
  | NonRosAnnounced name tid => non_ros_thread_callback answer name tid s
  | Reapplied w doc => (on_reapply_config_request answer nprocessors_conf default_domain_id w doc s).2
  end.

Definition reachable (s : node_state) : Prop :=
  exists hw sysctl scanned w doc s0 (events : list event),
    new_node answer nprocessors_conf default_domain_id hw sysctl scanned w doc = inr s0 /\ s = fold_left step events s0.

Lemma new_node_ok hw sysctl scanned w doc s :
  new_node answer nprocessors_conf default_domain_id hw sysctl scanned w doc = inr s -> tracking_ok s /\ count_ok s.
Proof.
  unfold new_node.
  intros ([] & _ & (x & _ & ([[[cb nrt] kts] iqs] & Hp & Hn)%bind_inr)%bind_inr)%bind_inr.
  destruct (apply_kernel_thread_configs _ _ _ _ _) as [? o]. destruct (apply_irq_configs _ _ _ _ _) as [? o'].
  injection Hn as <-. destruct (parse_config_fresh _ _ _ _ _ _ _ Hp) as (Fcb & Fnrt & Ncb & Nnrt).
  rewrite !Forall_forall in Fcb Fnrt. split.
  - split; cbn -[fmap list_fmap]; [apply index_exact_keys|apply index_wildcard_keys|apply index_name_keys| |done].
    split; [done| |].
    + apply Forall_forall. intros c Hc. destruct (Fcb c Hc) as (H1 & H2 & _). unfold tracking_wf. rw H1 H2.
      destruct (is_wildcard c); [|done]. split; [done|]. intros id [t Ht]. by rewrite lookup_empty in Ht.
    + intros c v _ Hv _ _ _ _. by rw (proj1 (proj2 (Fcb v Hv))).
  - unfold count_ok. cbn -[unapplied]. rw !unapplied_fresh; [done| |]; apply Forall_forall; intros c Hc.
    + by apply Fnrt.
    + by apply Fcb.
Qed.

Lemma configurator_reachable_ok s : reachable s -> tracking_ok s /\ count_ok s.
Proof.
  intros (hw & sysctl & scanned & w & doc & s0 & events & H0 & ->). apply new_node_ok in H0. revert s0 H0.
  induction events as [|e events IH]; intros s [Ht Hc]; [done|]. simpl. apply IH.
  destruct e as [d id tid|name tid|w' doc']; simpl.
  - split; [by apply callback_group_tracking|by apply callback_group_count].
  - split; [by apply non_ros_tracking|by apply non_ros_count].
  - pose proof (on_reapply_spec answer nprocessors_conf default_domain_id w' doc' s Ht Hc) as Hr.
    destruct (on_reapply_config_request _ _ _ _ _ _) as [resp s']. destruct Hr as (? & ? & _). by split.
Qed.

(** C38. Whatever was announced and however often the file was applied again, at most one entry tracks a
    callback group, either the group's own or the wildcard of its node in the same domain; a group is tracked only by an entry
    that names it; the three maps point to exactly the entries with their key; and [unapplied_num_] is
    the number of entries that are not applied. *)
Theorem one_entry_per_callback_group s :
  reachable s ->
  (forall (i j : nat) c w d id t u,
     callback_group_configs_ s !! i = Some c -> callback_group_configs_ s !! j = Some w ->
     tracked_by c d id = Some t -> tracked_by w d id = Some u -> i = j /\ covers c d id) /\
  (forall d id (i : nat), id_to_callback_group_config_ s !! (d, id) = Some i <->
     exists c, callback_group_configs_ s !! i = Some c /\ is_wildcard c = false /\ cb_key c = (d, id)) /\
  (forall d prefix (i : nat), node_to_wildcard_config_ s !! (d, prefix) = Some i <->
     exists c, callback_group_configs_ s !! i = Some c /\ is_wildcard c = true /\ domain_id c = d /\
       wildcard_prefix c = prefix) /\
  (forall name (i : nat), id_to_non_ros_thread_config_ s !! name = Some i <->
     exists c, non_ros_thread_configs_ s !! i = Some c /\ thread_str c = name) /\
  unapplied_num_ s = i32 (Z.of_nat (length (filter (fun c => applied c = false) (callback_group_configs_ s)) +
                                    length (filter (fun c => applied c = false) (non_ros_thread_configs_ s)))).
Proof.
  intros Hr. destruct (configurator_reachable_ok s Hr) as [Hs Hc]. split; [|split; [|split; [|split; [|exact Hc]]]].
  - intros i j c w d id t u Hi Hj Ht Hu. split; [by eapply tracked_once; [apply (tk_cbs _ Hs)|..]|].
    eapply tracked_covers; [|exact Ht]. pose proof (tr_wf _ (tk_cbs _ Hs)) as Hwf. rewrite Forall_forall in Hwf.
    by eapply Hwf, list_elem_of_lookup_2.
  - intros d id i. split.
    + intros Hi. destruct (exact_Some s d id i Hs Hi) as (c & H1 & H2 & <- & <-). by exists c.
    + intros (c & H1 & H2 & [= <- <-]). rw (tk_exact _ Hs).
      rw (index_keys_complete 0 _ ∅ i); [done|apply exact_key_unique, Hs|]. rw list_lookup_fmap H1. simpl.
      unfold exact_key. by rw H2.
  - intros d p i. split.
    + intros Hi. by apply wildcard_Some.
    + intros (c & H1 & H2 & <- & <-). rw (tk_wild _ Hs).
      rw (index_keys_complete 0 _ ∅ i); [done|apply wildcard_key_unique, Hs|]. rw list_lookup_fmap H1. simpl.
      unfold wildcard_key. by rw H2.
  - intros name i. rw (tk_name _ Hs). split.
    + intros [Hi|(j & Hj & ->)]%index_keys_sound; [done|]. rewrite list_lookup_fmap in Hj.
      apply fmap_Some in Hj as (c & Hc' & [= ->]). by exists c.
    + intros (c & H1 & <-). rw (index_keys_complete 0 _ ∅ i); [done|apply name_key_unique, Hs|].
      by rw list_lookup_fmap H1.
Qed.

(** An announced callback group is known by the announced thread, whether an entry of its own or a
    wildcard of its node covers it, and what is known of every other group stays; a group that no entry
    covers is ignored. *)
Theorem announcement_recorded s d id tid :
  reachable s -> tid <> -1 ->
  forall d' id' t, knows (step s (Announced d id tid)) d' id' t <->
    if decide ((d', id') = (d, id) /\ covered s d id) then t = tid else knows s d' id' t.
Proof. intros Hr Htid d' id' t. apply callback_group_knows; [apply (configurator_reachable_ok s Hr)|done]. Qed.

(** C39. A request to apply the file again is refused as a whole, without a trace, or takes over every
    entry of the file with its attributes, keeps what is known of the callback groups that are still there,
    and reports exactly once, as applied, failed or skipped: each callback group entry (each known instance
    of a wildcard), each entry of a thread outside ROS, each running thread of a managed kernel entry (the
    entry, if none runs), and each managed IRQ entry.  Kernel and IRQ entries none of whose values are set
    are not reported. *)
Theorem reapply_accounts_for_every_entry s w doc :
  reachable s ->
  let '(resp, s') := on_reapply_config_request answer nprocessors_conf default_domain_id w doc s in
  match parsed nprocessors_conf default_domain_id doc with
  | Some (cb, nrt, kts, iqs) => accounted (ra_scanned w) cb nrt kts iqs s resp s'
  | None => resp = rejected /\ s' = s
  end.
Proof.
  intros Hr. destruct (configurator_reachable_ok s Hr) as [Hs Hc].
  pose proof (on_reapply_spec answer nprocessors_conf default_domain_id w doc s Hs Hc) as H.
  destruct (on_reapply_config_request _ _ _ _ _ _) as [resp s']. apply H.
Qed.
End runs.

(** *** A run *)

Definition example_entry (fields : list (string * string)) : tree :=
  TMap ((fun kv => (kv.1, TScalar kv.2)) <$> fields).

(** A wildcard, an entry of one group and a thread outside ROS. *)
Definition example_file (cbs : list (list (string * string))) : tree :=
  TMap [("callback_groups", TList (example_entry <$> cbs));
        ("non_ros_threads", TList [example_entry [("name", "worker"); ("policy", "SCHED_FIFO"); ("priority", "10")]])].

Definition example_cbs : list (list (string * string)) :=
  [[("id", "/n/*"); ("policy", "SCHED_FIFO"); ("priority", "20")];
   [("id", "/n@Timer(1)"); ("policy", "SCHED_OTHER"); ("nice", "3")]].

Definition example_run (events : list (event (node := tree))) : exc node_state :=
  s <-- new_node (fun _ _ => true) 4 0 ∅ (fun _ => None) [] (IrqAnswers (fun _ => None) (fun _ => None) false) (example_file example_cbs);
  inr (fold_left (step (fun _ _ => true) 4 0) events s).

Definition example_events : list (event (node := tree)) :=
  [Announced 0 "/n@Timer(1)" 41; Announced 0 "/n@Timer(2)" 42; NonRosAnnounced "worker" 43;
   Announced 0 "/m@Timer(2)" 44].

Definition example_state : node_state :=
  match example_run example_events with inr s => s | inl _ => NodeState [] ∅ ∅ [] ∅ [] [] 0 false (Os [] 0) end.

Definition example_start : node_state :=
  match example_run [] with inr s => s | inl _ => NodeState [] ∅ ∅ [] ∅ [] [] 0 false (Os [] 0) end.

Lemma example_reachable : reachable (node := tree) (fun _ _ => true) 4 0 example_state.
Proof.
  exists ∅, (fun _ => None), [], (IrqAnswers (fun _ => None) (fun _ => None) false), (example_file example_cbs), example_start,
    example_events. split; by vm_compute.
Qed.

Lemma one_entry_per_callback_group_witness :
  unapplied_num_ example_state = 0 /\
  (fun c => tracked_by c 0 "/n@Timer(2)") <$> callback_group_configs_ example_state = [Some 42; None] /\
  (fun c => tracked_by c 0 "/n@Timer(1)") <$> callback_group_configs_ example_state = [None; Some 41] /\
  (forall (i j : nat) c w d id t u,
     callback_group_configs_ example_state !! i = Some c -> callback_group_configs_ example_state !! j = Some w ->
     tracked_by c d id = Some t -> tracked_by w d id = Some u -> i = j /\ covers c d id).
Proof.
  split; [by vm_compute|]. split; [by vm_compute|]. split; [by vm_compute|].
  apply (one_entry_per_callback_group (node := tree) (fun _ _ => true) 4 0 example_state example_reachable).
Defined.

Lemma announcement_recorded_witness :
  knows (step (node := tree) (fun _ _ => true) 4 0 example_state (Announced 0 "/n@Timer(2)" 52)) 0 "/n@Timer(2)" 52 /\
  knows (step (node := tree) (fun _ _ => true) 4 0 example_state (Announced 0 "/n@Timer(2)" 52)) 0 "/n@Timer(1)" 41.
Proof.
  pose proof (announcement_recorded (fun _ _ => true) 4 0 example_state 0 "/n@Timer(2)" 52 example_reachable
    ltac:(done)) as H.
  assert (covered example_state 0 "/n@Timer(2)") as Hc by (apply (bool_decide_unpack _); by vm_compute).
  split; apply (proj2 (H _ _ _)).
  - destruct (decide _) as [_|E]; [done|]. by destruct E.
  - destruct (decide _) as [[[=] _]|_].
    exists (nth 1 (callback_group_configs_ example_state) (MkThreadConfig EmptyString 0 default_attrs 0 ∅ false)).
    split; [by apply (list_elem_of_lookup_2 _ 1); vm_compute|by vm_compute].
Defined.

(** The entry of the group is gone from the file and the wildcard has another priority. *)
Definition example_reapply : reapply_answers :=
  ReapplyAnswers [] (IrqAnswers (fun _ => None) (fun _ => None) false) (fun _ => []).
Definition example_new_file : tree :=
  example_file [[("id", "/n/*"); ("policy", "SCHED_FIFO"); ("priority", "30")];
                [("id", "/m@Timer(2)"); ("policy", "SCHED_OTHER"); ("nice", "3")]].

Lemma reapply_accounts_for_every_entry_witness :
  let '(resp, s') := on_reapply_config_request (fun _ _ => true) 4 0 example_reapply (Some example_new_file)
                       example_state in
  callback_groups resp = Outcome ["0:/n@Timer(2)"] [] ["0:/m@Timer(2)"] /\
  non_ros_threads resp = Outcome ["worker"] [] [] /\ unapplied_num_ s' = 1 /\
  exists cb nrt kts iqs, parsed 4 0 (Some example_new_file) = Some (cb, nrt, kts, iqs) /\
  accounted [] cb nrt kts iqs example_state resp s'.
Proof.
  pose proof (reapply_accounts_for_every_entry (fun _ _ => true) 4 0 example_state example_reapply
    (Some example_new_file) example_reachable) as H.
  assert (callback_groups (on_reapply_config_request (fun _ _ => true) 4 0 example_reapply (Some example_new_file)
                       example_state).1 = Outcome ["0:/n@Timer(2)"] [] ["0:/m@Timer(2)"]) as H1 by by vm_compute.
  assert (non_ros_threads (on_reapply_config_request (fun _ _ => true) 4 0 example_reapply (Some example_new_file)
                       example_state).1 = Outcome ["worker"] [] []) as H2 by by vm_compute.
  assert (unapplied_num_ (on_reapply_config_request (fun _ _ => true) 4 0 example_reapply (Some example_new_file)
                       example_state).2 = 1) as H3 by by vm_compute.
  assert (is_Some (parsed 4 0 (Some example_new_file))) as [[[[cb nrt] kts] iqs] Hp].
  { apply (bool_decide_unpack _). by vm_compute. }
  rewrite Hp in H. destruct (on_reapply_config_request _ _ _ _ _ _) as [resp s'].
  split; [done|]. split; [done|]. split; [done|]. by exists cb, nrt, kts, iqs.
Defined.
